(* ===== verification/_CoqProject ===== *)
-Q . S2P
Prelude.v
JsText.v
JsInt.v
JsBuffer.v
Prisma.v
Crypto.v
AuthConfig.v
Wallet.v
Rbac.v
AccessControl.v
Lockout.v
Tournament.v
TournamentJob.v
TournamentInv.v
TournamentSpec.v
TournamentJobSpec.v
Json.v
JsonParse.v
Cache.v
FeatureFlag.v
GameSession.v
Encryption.v
Accounts.v
StellarWallet.v
Auth.v
Sessions.v
AuthInv.v
AuthSpec.v
AuthTheorems.v
AuthCredentials.v
WalletRecovery.v
StellarWalletSpec.v
WalletRecoverySpec.v
KeyLog.v
WalletExamples.v
AuditTrail.v
AuditAnchor.v
Refund.v
Governance.v
MatchService.v
MessageStore.v
ArrayLib.v
Achievement.v
PromiseLock.v
CrossGameAsset.v
WebSocketPool.v
Sharding.v
StateMachine.v
TokenBucket.v
AsyncLib.v
ApiGateway.v
RateLimitStores.v
AdaptiveRateLimit.v
ObjectLib.v
IpWhitelist.v
RequestTokens.v
AuthMiddleware.v
PaymentMonitor.v
Admin.v
SyncQueue.v
CircuitBreaker.v
ReadReplica.v
MatchQuality.v
OptimisticState.v
CacheMiddleware.v
Notifications.v
Incidents.v
RequestPipeline.v
RequestOverlap.v
Search.v
Transformation.v
ResponseTransform.v
ResponseInterceptor.v
ApiClient.v
Analytics.v
JobQueue.v
DataTable.v
NotificationCenter.v
MatchSocket.v
ClientWallet.v
