(* ===== verification/Prelude.v ===== *)
(** * ArenaX: a verification development of the TypeScript services

    ArenaX is a platform for competitive gaming with wallets, tournaments and
    disputes.  The server ([server/src], Express and Prisma on PostgreSQL) keeps
    the money, the tournaments, the permissions and the audit trail; the web
    client ([frontend/src], Next.js) keeps its own stores and helpers.  This
    library models the parts that carry the program's rules and proves what they
    guarantee.

    ** How code becomes definitions

    A method of a service becomes a definition of the same name.  Methods that
    read and write tables or throw are computations of the monad [M] below:
    they return the state they leave, with a value or the exception; a throw
    keeps the writes made before it, unless the code runs in [$transaction]
    ([transaction]).  Pure functions and in-memory stores are plain functions on
    records.  JavaScript maps and objects are association lists in insertion
    order ([map_get], [map_set], [map_delete]), because the order is observable;
    tables are lists of rows in order of creation.  Instants are milliseconds;
    the clock, random numbers, CPU readings and the socket are arguments.
    Money is in units of 10^-7, the resolution of the columns.

    What is not code of this repository is a parameter, with its documented
    behaviour as laws of a class: [Prisma] (generated ids never repeat, a query
    without an order returns its rows in some order) and [DecimalJs] (decimal
    sums with 20 significant digits) in [Prisma.v], [Percentage] and [Shuffle]
    (floating point prize shares, random pairing) in [Tournament.v], [Sha256],
    [Bcrypt], [NodeRandom] (tokens and ids drawn from a counter) and
    [JsonWebToken] in [Crypto.v], [NodeCipher] (AES-GCM opens what it sealed) in
    [Encryption.v], [UuidV4] in [GameSession.v], [FileSystem] in [AuthConfig.v], [Mailer] in [Accounts.v], [StellarSdk] in
    [StellarWallet.v], [OAuth] in [Auth.v], [JsNumber] in [JsonParse.v],
    [AnchorProvider] in [AuditAnchor.v], [MessageEnv] in [MessageStore.v],
    [DecimalText] and [Collation] in [Achievement.v], the order of rule values
    [JsLess] in [FeatureFlag.v].  [PassportJwt] in [AuthMiddleware.v] verifies
    signed tokens, [Hmac] in [RequestTokens.v] is the keyed hash, [Md5] and
    [HttpDate] in [CacheMiddleware.v] are what their names say, [Sqrt] in
    [MatchQuality.v] is the square root, [UrlHost] in [RequestPipeline.v] is the
    host of an address, [JSONata] in [Transformation.v] compiles expressions and
    gives the promises of their evaluation.  The browser and its libraries are
    arguments of the definitions that use them: dates and numbers read from text
    and the length of a text in [ResponseTransform.v] and
    [ResponseInterceptor.v], the wallet extensions, the SDK and the network in
    [ClientWallet.v], the cluster in [Search.v].  Each is instantiated by a
    concrete one in the examples that accompany the theorems.

    The stores a service is written against are interfaces.  [ICacheBackend] in
    [Cache.v] has an instance in memory; [SharedCache] says that what is written
    is kept until it expires, which the memory of a server without Redis does,
    and a Redis that stays connected and does not fail ([ReliableRedis],
    [online_cache]); the service swallows failed writes, and
    [failed_write_ignored] shows what follows.  In [TokenBucket.v]
    [ITokenBucketStore] has the operations, [KeepingStore] the laws that the
    store in memory keeps, and the Redis store, whose commands may fail, does
    not.  [Redis] in [RateLimitStores.v] and the lists in [JobQueue.v] are used
    by commands any of which may fail.

    ** Parts, files and what is proved

    - [Prelude.v]: the monad, its weakest-precondition style lemmas ([post],
      [preserves]), JavaScript maps and arrays, list lemmas and hints.
      [JsText.v], [JsInt.v], [JsBuffer.v]: strings, 32-bit integers,
      hexadecimal and base64 text.
      [Prisma.v]: the database interface and rows.
    - Wallet, [server/src/services/wallet.service.ts]: [Wallet.v] has every
      method and the theorems.  After any calls without a transfer to oneself the
      ledger agrees with the journal, and is not negative if the amounts are not;
      the supply moves by exactly what is credited, debited and slashed; replays
      and throws change nothing; locking and releasing cancel out.  The service
      checks neither amounts nor users: a transfer to oneself mints money, a
      negative credit takes it.
    - Sign-in, [server/src/services/auth.service.ts]: [Accounts.v] has the
      account tables, [Auth.v] every exported function, [AuthInv.v] and
      [AuthSpec.v] the invariant and what each call touches, [Sessions.v] an abstract machine of refresh token families.
      [AuthTheorems.v]: over all sequences of calls the tables stay consistent,
      the service refines the session machine, a token is good for one refresh,
      a replay revokes the family for good, logout is final.
      [AuthCredentials.v]: register, verify, reset and then log in, and concrete
      runs, among them two refreshes that race.
      [AuthConfig.v]: keys and lifetimes read from the environment
      ([server/src/config/auth.config.ts]).
    - Guards in front of the routes: [AuthMiddleware.v]
      ([server/src/middleware/auth.middleware.ts]): an access token opens the
      routes for its lifetime with the role of the account, and signing in never
      changes a role.  [IpWhitelist.v] ([ip-whitelist.middleware.ts]): signed
      32-bit masks decide as leading bits do.  [RequestTokens.v]
      ([csrf.middleware.ts], [signature.middleware.ts]): tokens last a day and
      their cleanup cannot be observed, a signature fits one body and instant.
    - Administration, [server/src/services/admin.service.ts]: [Admin.v].  The bans in memory agree with the table under stated
      conditions; the runs show where they do not.
    - Payments, [server/src/services/payment-monitor.worker.ts]:
      [PaymentMonitor.v].  Five tries at most, every payment is settled.
    - Key custody: [Encryption.v]
      ([server/src/services/encryption.service.ts]): round trip, rotation, old
      format, masking of errors.  [StellarWallet.v], [StellarWalletSpec.v]
      ([stellar-wallet.service.ts], [wallet-audit.service.ts]): secrets survive
      every sequence of calls and of restarts with configurations that keep the
      old master keys, under which wallets are rotated.  [WalletRecovery.v], [WalletRecoverySpec.v]
      ([wallet-recovery.service.ts]): five guesses, one export per challenge.
      [KeyLog.v]: every entry of the access log is hashed with an earlier one; it
      is one chain when the clock of the database advances with every insertion.
      [WalletExamples.v]: concrete runs.
    - Cache, [server/src/services/cache.service.ts]: [Cache.v] refines a map
      with expiry; [JsonParse.v] shows that what is written as JSON is read
      back.  Its clients are proved against [SharedCache]: feature flags
      ([FeatureFlag.v]: the cache cannot be observed, a rollout is stable) and
      game sessions ([GameSession.v]: calls one after the other answer exactly as
      one slot per session, across restarts).
    - Token buckets, [server/src/middleware/token-bucket-rate-limit.middleware.ts]:
      [TokenBucket.v].  For requests that do not overlap, over a store that keeps
      its buckets, the rate is bounded in every window, waiting as told helps,
      cleaning up cannot be observed.  A request reads and writes its bucket in
      two steps: requests that overlap between them, or a Redis that fails, get
      more ([overlapping_requests_overspend], [failing_redis_admits]).
    - Permissions, [server/src/middleware/rbac.middleware.ts]: [Rbac.v].  The
      recursion through the roles has fuel (size of the role table plus one,
      never exhausted because each unfolding visits a new role) and is shown to
      compute the closure of the inheritance relation; the guards decide by it.
    - Delegations and their log, [server/src/services/access-control.service.ts]:
      [AccessControl.v], a client of [Rbac.v].  Bounded uses, bounded log that
      refines the unbounded one, no escalation.
    - Account lockout, [server/src/services/account-lockout.service.ts]:
      [Lockout.v].
    - Tournaments, [server/src/services/tournament.service.ts] and
      [server/src/jobs/tournament.job.ts]: [Tournament.v] and [TournamentJob.v]
      have the methods, [TournamentInv.v] the invariant of the tables,
      [TournamentSpec.v] and [TournamentJobSpec.v] the theorems: invariant over
      all runs of service and job, shape of the brackets, registration, results
      that count once, status that never goes back, and runs in which the job
      cancels or blocks tournaments it should start.
    - Audit trail, [server/src/services/audit.service.ts]: [Json.v] (the hashed
      text is canonical and uniquely decodable on JSON values; undefined elements
      of arrays break it), [AuditTrail.v].
      The interface [AuditSink] says what writing an entry promises; the refund
      and match services are proved against it and the trail is an instance.
    - Anchoring, [server/src/services/audit-anchor.service.ts]: [AuditAnchor.v],
      with the number of hashes as fuel of the tree ([buildMerkleRoot_eq]); the
      loop runs log2 of that number of times ([merkle_terminates]).
    - Refunds, governance, matches: [Refund.v], [Governance.v],
      [MatchService.v] for the services of these names; the creation queue of
      the match service is a transition system between the points where the
      code waits, with an invariant over all interleavings.
    - Message store, [frontend/src/messages/messageStore.ts]:
      [MessageStore.v].  A pending message is always queued in memory, and in
      storage unless storage refused a write; a flush over a working socket
      delivers in order.
    - Achievements, [server/src/services/achievement.service.ts]:
      [Achievement.v], a client of the wallet through the
      interface [RewardSink], of which the wallet is an instance.  Rewards are
      paid once and only for unlocked achievements; a claimed one has been
      paid; progress of locked achievements is private.
    - Websocket pool, [server/src/services/websocketPool.service.ts]:
      [WebSocketPool.v].  Limits over all events, exact
      delivery while sockets keep their user, ordered delivery of the recent
      messages on return.
    - Shard routing, [server/src/services/database-sharding.service.ts]:
      [Sharding.v].  The 32-bit hash equals a polynomial hash modulo 2^32, the
      router's maps agree, routing is stable.
    - State machine hook, [frontend/src/hooks/useStateMachine.ts]:
      [StateMachine.v], with React's render as an explicit step.
    - Array library, [frontend/src/lib/array.ts]: [ArrayLib.v].
    - Object library, [frontend/src/lib/object.ts]: [ObjectLib.v].  Deep equality is equality of canonical texts, paths
      read back what was set, differences patch, merging is idempotent.
    - Offline queue, [frontend/src/lib/syncQueue.ts]: [SyncQueue.v].  Last write
      wins; a flush delivers in order and keeps what was refused.
    - Locks made of promises, as in [cross-game-asset.service.ts] and
      [game-session.service.ts]: [PromiseLock.v], a transition system of callers
      that wait for the promise stored under their key and of entries deleted at
      any time.  Callers that came after the last deletion take turns in their
      order; the removal of a game session lets others in.
    - Cross-game assets, [server/src/services/cross-game-asset.service.ts]:
      [CrossGameAsset.v].  Supply equals balances plus what bridges hold, if
      amounts and names are as they should be, which the code does not check; a
      bridge request is settled at most once.
    - Asynchronous helpers, [frontend/src/lib/async.ts]: [AsyncLib.v].  Retries settle, throttled calls are spaced, a memo
      table is least-recently-used and cannot be observed.
    - API keys, [server/src/services/api-gateway.service.ts] and its
      middleware: [ApiGateway.v].  Issued keys are accepted,
      revoked ones refused, each window of a key has a bounded number of calls.
    - Stores of the limiters, [server/src/middleware/rate-limit-redis.store.ts],
      [sliding-window-rate-limit.store.ts], [rate-limit-failover.ts]:
      [RateLimitStores.v].  The expiring counters of the sliding window answer as
      counters kept for ever, whichever commands fail; the failover counts every
      request.
      [AdaptiveRateLimit.v]: limits that follow load, tier and reputation.
    - Circuit breakers, [server/src/services/circuit-breaker.service.ts]:
      [CircuitBreaker.v].  The statistics refine a log of events per name, for
      any events of the package's breakers; calls reach the breaker of the name.
    - Read replicas, [server/src/services/read-replica.service.ts]:
      [ReadReplica.v], a transition system of reads, pins, timers, queries and
      shutdown.  Reads go where the last probes allow, take turns, and each
      address has exactly one probe.
    - Matchmaking quality, [server/src/services/matchmaking-quality.service.ts]:
      [MatchQuality.v].  Bounds, symmetry, the overlap of clusters as that of
      multisets, and when the score is full.
    - Optimistic state hook, [frontend/src/hooks/useOptimisticState.ts]:
      [OptimisticState.v], updates that overlap, with React's render as a step.
      The hook settles on the confirmed value; the runs show what it loses.
    - Response cache, [server/src/middleware/cache.middleware.ts]:
      [CacheMiddleware.v], a client of [SharedCache].  Bounded staleness and
      revalidation behind the CDN; the runs show what the other one changes.
    - Notifications and security incidents, the services of these names:
      [Notifications.v], [Incidents.v].  Pages, counts and statistics.
    - Request pipeline of the client, [frontend/src/lib/requestMiddleware.ts] and
      [apiMiddleware.ts]: [RequestPipeline.v] composes the middlewares as the
      client does, over a scripted network (number of fetches, headers, the
      contract of the circuit breaker); [RequestOverlap.v] has the two that share
      state as transition systems.
    - Responses in the client: [ResponseTransform.v]
      ([frontend/src/lib/responseTransformer.ts]): renaming keys and back, dates,
      dropped nulls.  [ResponseInterceptor.v] ([responseInterceptor.ts],
      [responseGovernance.ts]): the envelope, the policies and when they throw,
      the figures of the monitor.  [ApiClient.v] ([apiMiddleware.ts]): what a
      request sends and returns through the pipeline, a refresh included; the
      method that never returns.
    - Search, [server/src/services/search.service.ts]: [Search.v], the service
      against the interface of its two backends.  The store in memory answers as
      a catalogue; when the cluster fails its errors are not caught.
    - Transformations, [server/src/services/transformation.service.ts]:
      [Transformation.v].  The rules meant for a context are called in order of
      priority, with promises that nobody awaits.
    - Analytics, [server/src/services/analytics.service.ts]: [Analytics.v], the
      buffer of events and the figures computed from it.
    - Job queues, [server/src/services/queue.service.ts],
      [rabbitmq-queue.service.ts], [queue-monitoring.service.ts]: [JobQueue.v].
      The lists of Redis refine a queue of jobs whichever commands are refused,
      and every accepted job is accounted for; a message is settled once.
    - Tables, [frontend/src/hooks/useDataTable.ts], [usePaginatedQuery.ts]:
      [DataTable.v].  Rows wanted, their order and pages.
    - Notification center, [frontend/src/contexts/NotificationContext.tsx]:
      [NotificationCenter.v].  Tabs that are told the same show the same, one
      connection at a time, no id twice, toasts go.
    - Live matches, [frontend/src/hooks/useMatchWebSocket.ts]:
      [MatchSocket.v], one socket or one timer through all lives of a component.
    - Wallet of the client, [frontend/src/lib/wallet] and [useTxStatus.tsx]:
      [ClientWallet.v].  Amounts as text, what is signed and sent, confirmations,
      the entries and toasts of transactions.

    ** Statements and their conditions

    Where a theorem needs a condition that the code does not check, the
    condition is a hypothesis, is named in the comment of the theorem, and an
    example next to it runs the code without it.  Recursions with fuel: the
    roles (size of the table plus one), the Merkle tree (number of hashes), the
    digits in base 36 (sixty-four), the walks over JSON text (its length); each
    is shown to be enough where it is used.

    ** Limits

    Transactions are taken as isolated, and each call as running alone between
    its writes, except where the waits are explicit: the match queue, the
    promise locks, the read replicas, the optimistic hook, the middlewares of
    [RequestOverlap.v], the sockets, the token buckets, and the run in which two
    refreshes of one token race.  A call reads the clock once.  Upper case,
    lower case and white space are those of ASCII, key versions are below 2^53,
    and token buckets count in rationals instead of floating point numbers.
    Role names
    are looked up among the table's own keys, not those of [Object.prototype].
    Tournament counters do not overflow.  Dates are printed for the years 0 to
    9999.  Keys are compared bytewise.  Timers fire when they are due, a failed
    Redis command has no effect, and amounts of assets are integers.  Keys of
    plain objects are not array indices.

    ** Not modelled

    Of modelled files: the CSV text of [exportLogs], [cleanupOldTournaments] (it
    counts and logs), the mock anchor provider, the HTML of e-mails, listeners,
    logging, the request of [notifyWebhook], reputations in Redis, the parsing of
    cluster addresses, the text filters of moderation.  Of the rest:
    - services that put single statements of Prisma or calls of a package
      together ([kyc.service.ts], [profile.service.ts], the Stellar and Soroban
      clients, Kafka, secrets), since there is no rule of the program in them;
    - metrics, tracing, logs, health and analytics reports, which decide nothing;
    - controllers, routes, schemas, pages and components, which wire the modelled
      parts to third-party packages;
    - text, number and date formatting and form validation, which rest on
      regular expressions and the Unicode tables of the platform;
    - the Rust back end and the contracts, which are other programs. *)

From stdpp Require Import prelude gmap strings list pretty sorting relations.

#[global] Open Scope Z_scope.

(** ** Exceptions and the effect monad

    Every service method of the server is an [async] function that reads and
    writes shared state and may throw.  [M S A] is such a computation: it runs
    on a state [S] and always returns the state it leaves behind, together with
    a value or the exception it threw.  A throw does not roll the state back;
    only [transaction] does.  [UniqueConstraint] is Prisma's error P2002 with the
    columns of the violated constraint in [meta.target]. *)

Inductive exn : Type :=
| HttpError (status : Z) (message : string)
| JsError (message : string)
| PrismaError (code : string)
| UniqueConstraint (target : list string).

#[export] Instance exn_eq_dec : EqDecision exn.
Proof. solve_decision. Defined.

Inductive result (A : Type) : Type :=
| Ok (a : A)
| Throw (e : exn).
Arguments Ok {A} a.
Arguments Throw {A} e.

#[export] Instance result_eq_dec {A} `{EqDecision A} : EqDecision (result A).
Proof. solve_decision. Defined.

(** Synchronous code that may throw and touches no state. *)
#[export] Instance result_ret : MRet result := λ A a, Ok a.
#[export] Instance result_bind : MBind result := λ A B k m,
  match m with Ok a => k a | Throw e => Throw e end.

Definition M (S A : Type) : Type := S → S * result A.

Section monad.
Context {S : Type}.

#[export] Instance M_ret : MRet (M S) := λ A a s, (s, Ok a).
#[export] Instance M_bind : MBind (M S) := λ A B k m s,
  match m s with
  | (s', Ok a) => k a s'
  | (s', Throw e) => (s', Throw e)
  end.

Definition throw {A} (e : exn) : M S A := λ s, (s, Throw e).
Definition get : M S S := λ s, (s, Ok s).
Definition put (s' : S) : M S unit := λ _, (s', Ok tt).
Definition modify (f : S → S) : M S unit := λ s, (f s, Ok tt).
Definition gets {A} (f : S → A) : M S A := λ s, (s, Ok (f s)).

(** [prisma.$transaction(f)]: the writes of [f] are kept only when [f]
    returns; a throw inside [f] restores the state and is thrown again. *)
Definition transaction {A} (m : M S A) : M S A := λ s,
  match m s with
  | (s', Ok a) => (s', Ok a)
  | (_, Throw e) => (s, Throw e)
  end.

(** [try { m } catch (e) { h(e) }] *)
Definition try_catch {A} (m : M S A) (h : exn → M S A) : M S A := λ s,
  match m s with
  | (s', Ok a) => (s', Ok a)
  | (s', Throw e) => h e s'
  end.

(** [for (const x of l) await f(x)] *)
Fixpoint for_each {A} (f : A → M S unit) (l : list A) : M S unit :=
  match l with
  | [] => mret tt
  | x :: l' => f x ≫= λ _, for_each f l'
  end.

(** The array of the values [await f(x)] pushed by such a loop. *)
Fixpoint for_map {A B} (f : A → M S B) (l : list A) : M S (list B) :=
  match l with
  | [] => mret []
  | x :: l' => f x ≫= λ y, for_map f l' ≫= λ ys, mret (y :: ys)
  end.
End monad.

(** ** Postconditions of effectful computations

    [post m s Q E]: run from [s], [m] either returns [a] in a state with
    [Q s' a] or throws [e] in a state with [E s' e]. *)
Definition post {S A} (m : M S A) (s : S) (Q : S → A → Prop) (E : S → exn → Prop) : Prop :=
  match m s with
  | (s', Ok a) => Q s' a
  | (s', Throw e) => E s' e
  end.

Section post.
Context {S : Type}.
Implicit Types (s : S).

Lemma post_ret {A} (a : A) s Q E : Q s a → post (mret a : M S A) s Q E.
Proof. done. Qed.

Lemma post_throw {A} e s (Q : S → A → Prop) E : E s e → post (throw e) s Q E.
Proof. done. Qed.

Lemma post_get s (Q : S → S → Prop) E : Q s s → post get s Q E.
Proof. done. Qed.

Lemma post_gets {A} (f : S → A) s Q E : Q s (f s) → post (gets f) s Q E.
Proof. done. Qed.

Lemma post_put s s' Q E : Q s' tt → post (put s') s Q E.
Proof. done. Qed.

Lemma post_modify f s Q E : Q (f s) tt → post (modify f) s Q E.
Proof. done. Qed.

Lemma post_bind {A B} (m : M S A) (k : A → M S B) s Q E :
  post m s (λ s' a, post (k a) s' Q E) E → post (m ≫= k) s Q E.
Proof.
  unfold post, mbind, M_bind. destruct (m s) as [s' [a|e]]; done.
Qed.

Lemma post_mono {A} (m : M S A) s (Q Q' : S → A → Prop) (E E' : S → exn → Prop) :
  post m s Q E → (∀ s' a, Q s' a → Q' s' a) → (∀ s' e, E s' e → E' s' e) →
  post m s Q' E'.
Proof. unfold post. destruct (m s) as [s' [a|e]]; auto. Qed.

Lemma post_true {A} (m : M S A) s : post m s (λ _ _, True) (λ _ _, True).
Proof. unfold post. by destruct (m s) as [s' []]. Qed.

(** A handler that rethrows returns nothing. *)
Lemma post_rethrow {A B} (m : M S B) e s (Q : S → A → Prop) : post (_ ← m; throw e) s Q (λ _ _, True).
Proof. apply post_bind. eapply post_mono; [apply post_true|intros s' x _; by apply post_throw|done]. Qed.

Lemma post_transaction {A} (m : M S A) s Q (E : S → exn → Prop) :
  post m s Q (λ _ e, E s e) → post (transaction m) s Q E.
Proof. unfold post, transaction. destruct (m s) as [s' [a|e]]; auto. Qed.

Lemma post_try {A} (m : M S A) h s Q E :
  post m s Q (λ s' e, post (h e) s' Q E) → post (try_catch m h) s Q E.
Proof. unfold post, try_catch. destruct (m s) as [s' [a|e]]; auto. Qed.

Lemma post_and {A} (m : M S A) s (Q Q' : S → A → Prop) (E E' : S → exn → Prop) :
  post m s Q E → post m s Q' E' → post m s (λ s' a, Q s' a ∧ Q' s' a) (λ s' e, E s' e ∧ E' s' e).
Proof. unfold post. destruct (m s) as [s' [a|e]]; auto. Qed.

Lemma post_all {A X} (m : M S A) s (Q : X → S → A → Prop) (E : X → S → exn → Prop) :
  (∀ x, post m s (Q x) (E x)) → post m s (λ s' a, ∀ x, Q x s' a) (λ s' e, ∀ x, E x s' e).
Proof. unfold post. destruct (m s) as [s' [a|e]]; auto. Qed.

Lemma post_imp {A} (m : M S A) s (P : Prop) (Q : S → A → Prop) (E : S → exn → Prop) :
  (P → post m s Q E) → post m s (λ s' a, P → Q s' a) (λ s' e, P → E s' e).
Proof. unfold post. destruct (m s) as [s' [a|e]]; auto. Qed.

(** A loop keeps an invariant its body keeps, whatever it iterates over. *)
Lemma post_for_each {A} (f : A → M S unit) l (I : S → Prop) E s :
  I s →
  (∀ x s', x ∈ l → I s' → post (f x) s' (λ s'' _, I s'') E) →
  post (for_each f l) s (λ s' _, I s') E.
Proof.
  revert s. induction l as [|x l IH]; intros s Hs Hf; [done|]. cbn [for_each].
  apply post_bind. eapply post_mono; [apply Hf; [left|done]| |done].
  intros s' u Hs'. apply IH; [done|]. intros y s'' Hy. apply Hf. by right.
Qed.

Lemma post_for_map {A B} (f : A → M S B) l (I : S → Prop) E s :
  I s →
  (∀ x s', x ∈ l → I s' → post (f x) s' (λ s'' _, I s'') E) →
  post (for_map f l) s (λ s' _, I s') E.
Proof.
  revert s. induction l as [|x l IH]; intros s Hs Hf; [done|]. cbn [for_map].
  apply post_bind. eapply post_mono; [apply Hf; [left|done]| |done].
  intros s' y Hs'. apply post_bind. eapply post_mono; [apply IH; [done|]| |done].
  - intros z s'' Hz. apply Hf. by right.
  - intros s'' ys Hs''. by apply post_ret.
Qed.
End post.

Lemma post_ok {S A} (m : M S A) s s' a Q E :
  m s = (s', Ok a) → post m s Q E → Q s' a.
Proof. unfold post. by intros ->. Qed.

Lemma post_err {S A} (m : M S A) s s' e Q E :
  m s = (s', Throw e) → post m s Q E → E s' e.
Proof. unfold post. by intros ->. Qed.

(** A transaction that throws leaves the state it started from. *)
Lemma transaction_throw {S A} (m : M S A) s s' e :
  transaction m s = (s', Throw e) → s' = s.
Proof. unfold transaction. destruct (m s) as [s'' [a|e']]; congruence. Qed.

Create HintDb arenax discriminated.
#[export] Hint Resolve post_ret post_throw post_put post_modify : arenax.

(** [m_step] runs one statement of a computation under [post]. *)
Ltac m_step :=
  lazymatch goal with
  | |- post (mbind _ _) _ _ _ => apply post_bind
  | |- post (mret _) _ _ _ => apply post_ret
  | |- post (throw _) _ _ _ => apply post_throw
  | |- post get _ _ _ => apply post_get
  | |- post (gets _) _ _ _ => apply post_gets
  | |- post (put _) _ _ _ => apply post_put
  | |- post (modify _) _ _ _ => apply post_modify
  | |- post (transaction _) _ _ _ => apply post_transaction
  | |- post (try_catch _ _) _ _ _ => apply post_try
  | |- post (let x := _ in _) _ _ _ => cbv zeta
  end; cbv beta.

(** ** JavaScript [Map]: a finite map that remembers insertion order

    [set] on a present key updates the entry in place, on an absent key appends
    it; [delete] removes the entry.  Iteration follows the list. *)
Definition jsmap (V : Type) : Type := list (string * V).

Section jsmap.
Context {V : Type}.
Implicit Types (m : jsmap V) (k : string) (v : V).

Fixpoint map_get k m : option V :=
  match m with
  | [] => None
  | (k', v) :: m' => if bool_decide (k = k') then Some v else map_get k m'
  end.

Fixpoint map_set k v m : jsmap V :=
  match m with
  | [] => [(k, v)]
  | (k', v') :: m' =>
      if bool_decide (k = k') then (k, v) :: m' else (k', v') :: map_set k v m'
  end.

Fixpoint map_delete k m : jsmap V :=
  match m with
  | [] => []
  | (k', v') :: m' =>
      if bool_decide (k = k') then map_delete k m' else (k', v') :: map_delete k m'
  end.

Definition map_has k m : bool := bool_decide (is_Some (map_get k m)).
Definition map_keys m : list string := List.map fst m.
Definition map_values m : list V := List.map snd m.

Lemma map_get_set k k' v m :
  map_get k' (map_set k v m) = if bool_decide (k' = k) then Some v else map_get k' m.
Proof.
  induction m as [|[j w] m IH]; simpl; repeat case_bool_decide; simplify_eq/=;
    repeat case_bool_decide; by simplify_eq/=.
Qed.

Lemma map_get_delete k k' m :
  map_get k' (map_delete k m) = if bool_decide (k' = k) then None else map_get k' m.
Proof.
  induction m as [|[j w] m IH]; simpl; repeat case_bool_decide; simplify_eq/=;
    repeat case_bool_decide; by simplify_eq/=.
Qed.

Lemma map_get_set_eq k v m : map_get k (map_set k v m) = Some v.
Proof. rewrite map_get_set. by rewrite bool_decide_true. Qed.

Lemma map_get_set_ne k k' v m : k' ≠ k → map_get k' (map_set k v m) = map_get k' m.
Proof. intros. rewrite map_get_set. by rewrite bool_decide_false. Qed.

Lemma map_get_delete_eq k m : map_get k (map_delete k m) = None.
Proof. rewrite map_get_delete. by rewrite bool_decide_true. Qed.

Lemma map_get_delete_ne k k' m : k' ≠ k → map_get k' (map_delete k m) = map_get k' m.
Proof. intros. rewrite map_get_delete. by rewrite bool_decide_false. Qed.

Lemma map_get_elem k v m : map_get k m = Some v → (k, v) ∈ m.
Proof.
  induction m as [|[j w] m IH]; simpl; [done|]. case_bool_decide; simplify_eq.
  - intros [= ->]. left.
  - intros. right. auto.
Qed.

Lemma map_get_None k m : map_get k m = None ↔ k ∉ map_keys m.
Proof.
  induction m as [|[j w] m IH]; simpl; [set_solver|].
  destruct (decide (k = j)) as [<-|Hkj].
  - rewrite bool_decide_true by done. split; [done|]. intros []. left.
  - rewrite bool_decide_false by done. rewrite IH, not_elem_of_cons. tauto.
Qed.

Lemma map_keys_set k v m :
  map_keys (map_set k v m) =
    if map_has k m then map_keys m else map_keys m ++ [k].
Proof.
  unfold map_has, map_keys. induction m as [|[j w] m IH]; simpl; [done|].
  destruct (decide (k = j)) as [<-|Hkj].
  - rewrite !(bool_decide_true (k = k)) by done. by rewrite bool_decide_true by eauto.
  - rewrite !(bool_decide_false (k = j)) by done. simpl. rewrite IH.
    by case_bool_decide.
Qed.

Lemma map_keys_delete k m : map_keys (map_delete k m) = filter (.≠ k) (map_keys m).
Proof.
  unfold map_keys. induction m as [|[j w] m IH]; simpl; [done|].
  rewrite filter_cons. destruct (decide (k = j)) as [<-|Hkj].
  - rewrite bool_decide_true by done. rewrite decide_False by naive_solver. exact IH.
  - rewrite bool_decide_false by done. rewrite decide_True by done. simpl. by rewrite IH.
Qed.

Lemma map_set_nodup k v m : NoDup (map_keys m) → NoDup (map_keys (map_set k v m)).
Proof.
  intros Hm. rewrite map_keys_set. unfold map_has. case_bool_decide as Hk; [done|].
  apply NoDup_app. split_and!; [done| |apply NoDup_singleton].
  intros x Hx ->%list_elem_of_singleton.
  rewrite <- eq_None_not_Some, map_get_None in Hk. by apply Hk.
Qed.

Lemma map_delete_nodup k m : NoDup (map_keys m) → NoDup (map_keys (map_delete k m)).
Proof. rewrite map_keys_delete. apply NoDup_filter. Qed.

Lemma map_delete_length k m : (length (map_delete k m) ≤ length m)%nat.
Proof.
  induction m as [|[j w] m IH]; simpl; [done|]. case_bool_decide; simpl; lia.
Qed.

Lemma map_set_same k v m : map_get k m = Some v → map_set k v m = m.
Proof.
  induction m as [|[k' v'] m IH]; simpl; [done|]. case_bool_decide; intros H'; simplify_eq; [done|]. by rewrite IH.
Qed.

Lemma map_delete_absent k m : map_get k m = None → map_delete k m = m.
Proof. induction m as [|[k' v'] m IH]; simpl; [done|]. case_bool_decide; intros H'; [done|]. by rewrite IH. Qed.

Lemma map_has_get k m : map_has k m = match map_get k m with Some _ => true | None => false end.
Proof. unfold map_has. destruct (map_get k m); [by apply bool_decide_true|]. apply bool_decide_false. by intros [? ?]. Qed.

Lemma map_elem_get k v m : NoDup (map_keys m) → (k, v) ∈ m → map_get k m = Some v.
Proof.
  unfold map_keys. induction m as [|[j w] m IH]; simpl; [set_solver|].
  intros [Hj Hm]%NoDup_cons [[= <- <-]|Hin]%elem_of_cons.
  - by rewrite bool_decide_true.
  - case_bool_decide as E; [|auto]. subst. destruct Hj.
    apply list_elem_of_In. apply (in_map fst m (j, v)). by apply list_elem_of_In.
Qed.
End jsmap.

#[export] Hint Resolve map_set_nodup map_delete_nodup : arenax.

(** Two maps are equivalent when every lookup agrees: iteration order is
    forgotten. *)
#[export] Instance jsmap_equiv {V} : Equiv (jsmap V) :=
  λ m1 m2, ∀ k, map_get k m1 = map_get k m2.

#[export] Instance jsmap_equivalence {V} : Equivalence (≡@{jsmap V}).
Proof.
  split; [by intros m k|by intros m1 m2 H k; rewrite H|].
  by intros m1 m2 m3 H12 H23 k; rewrite H12, H23.
Qed.

#[export] Instance map_get_proper {V} k : Proper ((≡@{jsmap V}) ==> (=)) (map_get k).
Proof. by intros m1 m2 H. Qed.

#[export] Instance map_set_proper {V} k v : Proper ((≡@{jsmap V}) ==> (≡)) (map_set k v).
Proof. intros m1 m2 H k'. rewrite !map_get_set. by rewrite H. Qed.

#[export] Instance map_delete_proper {V} k : Proper ((≡@{jsmap V}) ==> (≡)) (map_delete k).
Proof. intros m1 m2 H k'. rewrite !map_get_delete. by rewrite H. Qed.

(** ** Sums *)

Definition zsum (l : list Z) : Z := foldr Z.add 0 l.

Lemma zsum_app l1 l2 : zsum (l1 ++ l2) = zsum l1 + zsum l2.
Proof. unfold zsum. induction l1; simpl; lia. Qed.

Lemma zsum_perm l1 l2 : l1 ≡ₚ l2 → zsum l1 = zsum l2.
Proof. unfold zsum. induction 1; simpl; lia. Qed.

(** The sum of [f] over the values of a finite map. *)
Definition map_zsum `{Countable K} {V} (f : V → Z) (m : gmap K V) : Z :=
  map_fold (λ _ v acc, f v + acc) 0 m.

Section map_zsum.
Context `{Countable K} {V : Type} (f : V → Z).
Implicit Types (m : gmap K V).

Lemma map_zsum_insert_None m k v :
  m !! k = None → map_zsum f (<[k := v]> m) = f v + map_zsum f m.
Proof.
  intros Hk. unfold map_zsum.
  rewrite (map_fold_insert_L (λ _ v acc, f v + acc) 0 k v m); [done| |done].
  intros; lia.
Qed.

(** Replacing (or adding) one value changes the sum by the difference. *)
Lemma map_zsum_insert m k v :
  map_zsum f (<[k := v]> m) = map_zsum f m - from_option f 0 (m !! k) + f v.
Proof.
  destruct (m !! k) as [w|] eqn:Hk; simpl.
  - rewrite <- (insert_delete_id m k w) at 2 by done.
    rewrite <- insert_delete_eq.
    rewrite !map_zsum_insert_None by apply lookup_delete_eq. lia.
  - rewrite map_zsum_insert_None by done. lia.
Qed.
End map_zsum.

(** ** Lists *)

Lemma SSorted_mono {A} (R R' : relation A) l :
  (∀ x y, R x y → R' x y) → StronglySorted R l → StronglySorted R' l.
Proof.
  intros HR. induction 1 as [|x l _ IH Hx]; constructor; [done|].
  eapply Forall_impl; eauto.
Qed.

Lemma elem_of_bfilter {A} (f : A → bool) l x : x ∈ List.filter f l ↔ f x = true ∧ x ∈ l.
Proof. rewrite !list_elem_of_In, filter_In. tauto. Qed.

Lemma bfilter_none {A} (f : A → bool) l : (∀ x, x ∈ l → f x = false) → List.filter f l = [].
Proof.
  induction l as [|x l IH]; intros H; [done|]. cbn [List.filter]. rewrite H by constructor. apply IH. intros y Hy. apply H. by constructor.
Qed.

Lemma bfilter_key_nodup {A B} (g : A → B) (f : A → bool) l : NoDup (g <$> l) → NoDup (g <$> List.filter f l).
Proof.
  induction l as [|x l IH]; intros Hnd; [constructor|]. rewrite fmap_cons in Hnd. inversion Hnd as [|? ? Hx Hnd']; subst.
  cbn [List.filter]. destruct (f x); [|by apply IH]. rewrite fmap_cons. constructor; [|by apply IH].
  intros (y & E & [_ Hy]%elem_of_bfilter)%list_elem_of_fmap. apply Hx. rewrite E. by apply list_elem_of_fmap_2.
Qed.

(** [arr.slice(0, e)]: a negative end counts from the end of the array. *)
Definition js_take {A} (e : Z) (l : list A) : list A :=
  take (Z.to_nat (if bool_decide (e < 0) then Z.max 0 (Z.of_nat (length l) + e) else e)) l.

(** [arr.slice(start, end)] *)
Definition js_slice {A} (start stop : Z) (l : list A) : list A :=
  let len := Z.of_nat (length l) in
  let clip z := if bool_decide (z < 0) then Z.max 0 (len + z) else Z.min z len in
  take (Z.to_nat (clip stop - clip start)) (drop (Z.to_nat (clip start)) l).

Lemma js_slice_page {A} (l : list A) (p n : nat) :
  js_slice (Z.of_nat p) (Z.of_nat p + Z.of_nat n) l = take n (drop p l).
Proof.
  unfold js_slice. cbv zeta. rewrite !bool_decide_false by lia.
  destruct (decide (p ≤ length l)%nat) as [Hle|Hgt].
  - rewrite (Z.min_l (Z.of_nat p)), Nat2Z.id by lia. destruct (decide (p + n ≤ length l)%nat).
    + rewrite Z.min_l by lia. f_equal. lia.
    + rewrite Z.min_r by lia. rewrite !take_ge; [done| |]; rewrite length_drop; lia.
  - rewrite (Z.min_r (Z.of_nat p)), Nat2Z.id by lia. rewrite !drop_ge by lia. by rewrite !take_nil.
Qed.

Lemma pages_take {A} (l : list A) (n m : nat) : concat ((λ k, take n (drop (k * n) l)) <$> seq 0 m) = take (m * n) l.
Proof.
  induction m as [|m IH]; [done|]. rewrite seq_S, fmap_app, concat_app, IH. cbn [fmap list_fmap concat].
  rewrite app_nil_r, take_take_drop. f_equal. lia.
Qed.

(** [arr.slice(-n)]: the last [n] elements; [slice(-0)] is the whole array. *)
Definition js_slice_last {A} (n : Z) (l : list A) : list A :=
  drop (Z.to_nat (if bool_decide (- n < 0) then Z.max 0 (Z.of_nat (length l) - n) else - n)) l.

Lemma js_slice_last_length {A} n (l : list A) :
  0 < n → Z.of_nat (length (js_slice_last n l)) = Z.min n (Z.of_nat (length l)).
Proof.
  intros Hn. unfold js_slice_last. rewrite length_drop, bool_decide_true by lia. lia.
Qed.

Lemma js_slice_last_suffix {A} n (l : list A) : js_slice_last n l `suffix_of` l.
Proof. unfold js_slice_last. eexists. symmetry. apply take_drop. Qed.

Lemma js_slice_last_app {A} (n : Z) (l k : list A) : 0 < n → js_slice_last n (js_slice_last n l ++ k) = js_slice_last n (l ++ k).
Proof.
  intros Hn. unfold js_slice_last. rewrite (bool_decide_true (- n < 0)) by lia. rewrite !length_app, length_drop.
  rewrite (drop_app (drop _ l) k), (drop_app l k), drop_drop, length_drop. f_equal; f_equal; lia.
Qed.

(** A window kept by [push] and a cut of the oldest over a limit. *)
Lemma js_slice_last_push {A} (n : nat) (x : A) (l : list A) :
  (0 < n)%nat → (length l ≤ n)%nat →
  (if bool_decide (Z.of_nat n < Z.of_nat (length (l ++ [x]))) then drop (length (l ++ [x]) - n) (l ++ [x]) else l ++ [x]) =
  js_slice_last (Z.of_nat n) (l ++ [x]).
Proof.
  intros Hn Hl. unfold js_slice_last. rewrite (bool_decide_true (- Z.of_nat n < 0)) by lia.
  destruct (bool_decide_reflect (Z.of_nat n < Z.of_nat (length (l ++ [x])))); [f_equal; lia|].
  by rewrite Z.max_l, drop_0 by lia.
Qed.

(** The counters of a tally kept in a map: [m.set(k, (m.get(k) ?? 0) + 1)]. *)
Definition tally (counts : jsmap Z) (k : string) : jsmap Z := map_set k (default 0 (map_get k counts) + 1) counts.

Definition occurrences (k : string) (l : list string) : Z := Z.of_nat (length (List.filter (λ x, bool_decide (x = k)) l)).

Lemma tally_all l counts k :
  map_get k (foldl tally counts l) =
  if bool_decide (k ∈ l) then Some (default 0 (map_get k counts) + occurrences k l) else map_get k counts.
Proof.
  revert counts. induction l as [|x l IH]; intros counts; cbn [foldl].
  { by rewrite bool_decide_false by apply not_elem_of_nil. }
  rewrite IH. unfold tally, occurrences. rewrite map_get_set. cbn [List.filter].
  destruct (decide (k = x)) as [->|Hne].
  - rewrite (bool_decide_true (x ∈ x :: l)), (bool_decide_true (x = x)) by (done || by left).
    cbn [from_option length id]. destruct (bool_decide_reflect (x ∈ l)); [f_equal; lia|].
    rewrite bfilter_none; [cbn; f_equal; lia|]. intros y Hy. apply bool_decide_false. by intros ->.
  - rewrite (bool_decide_false (k = x)), (bool_decide_false (x = k)) by congruence.
    rewrite (bool_decide_ext (k ∈ x :: l) (k ∈ l)) by (rewrite elem_of_cons; tauto). done.
Qed.

Lemma tally_nodup l counts : NoDup (map_keys counts) → NoDup (map_keys (foldl tally counts l)).
Proof. revert counts. induction l as [|x l IH]; intros counts Hnd; [done|]. apply IH. by apply map_set_nodup. Qed.

(** A tally from nothing is a list of the distinct keys with their numbers. *)
Lemma tally_spec l k n : (k, n) ∈ foldl tally [] l ↔ k ∈ l ∧ n = occurrences k l.
Proof.
  pose proof (tally_nodup l [] ltac:(constructor)) as Hnd. pose proof (tally_all l [] k) as Hget.
  cbn [map_get from_option id] in Hget. split.
  - intros Hin. apply map_elem_get in Hin; [|done]. rewrite Hin in Hget.
    destruct (bool_decide_reflect (k ∈ l)); [|done]. split; [done|]. injection Hget. lia.
  - intros [Hk ->]. apply map_get_elem. rewrite Hget, bool_decide_true by done. reflexivity.
Qed.

(** [new Set(arr)] spread back into an array: first occurrences, in order. *)
Section dedupe.
Context `{EqDecision A}.

Fixpoint dedupe_from (seen : list A) (l : list A) : list A :=
  match l with
  | [] => []
  | x :: l' => if decide (x ∈ seen) then dedupe_from seen l' else x :: dedupe_from (seen ++ [x]) l'
  end.
Definition dedupe (l : list A) : list A := dedupe_from [] l.

Lemma elem_of_dedupe_from seen l x : x ∈ dedupe_from seen l ↔ x ∈ l ∧ x ∉ seen.
Proof.
  revert seen. induction l as [|y l IH]; intros seen; simpl; [set_solver|].
  case_decide; [|rewrite elem_of_cons]; rewrite IH; destruct (decide (x = y)); set_solver.
Qed.

Lemma elem_of_dedupe l x : x ∈ dedupe l ↔ x ∈ l.
Proof. unfold dedupe. rewrite elem_of_dedupe_from. set_solver. Qed.

Lemma dedupe_from_nodup seen l : NoDup (dedupe_from seen l).
Proof.
  revert seen. induction l as [|y l IH]; intros seen; simpl; [constructor|].
  case_decide; [done|]. constructor; [|done]. rewrite elem_of_dedupe_from. set_solver.
Qed.

Lemma dedupe_nodup l : NoDup (dedupe l).
Proof. apply dedupe_from_nodup. Qed.
End dedupe.

Lemma tally_dedupe l : foldl tally [] l ≡ₚ (λ k, (k, occurrences k l)) <$> dedupe l.
Proof.
  apply NoDup_Permutation.
  - apply (NoDup_fmap_1 fst). apply (tally_nodup l []). constructor.
  - apply NoDup_fmap; [by intros x y [= ->]|apply dedupe_nodup].
  - intros [k n]. rewrite tally_spec, list_elem_of_fmap. setoid_rewrite elem_of_dedupe. naive_solver.
Qed.

(** [arr.sort(cmp)]: sorting is stable, so for a consistent comparison the
    result is the one of insertion from the right. *)
Section js_sort.
Context {A : Type} (cmp : A → A → Z).

Fixpoint js_insert (x : A) (l : list A) : list A :=
  match l with
  | [] => [x]
  | y :: l' => if bool_decide (cmp x y ≤ 0) then x :: y :: l' else y :: js_insert x l'
  end.
Definition js_sort (l : list A) : list A := foldr js_insert [] l.

Lemma js_insert_perm x l : js_insert x l ≡ₚ x :: l.
Proof.
  induction l as [|y l IH]; simpl; [done|]. case_bool_decide; [done|].
  rewrite IH. apply Permutation_swap.
Qed.

Lemma js_sort_perm l : js_sort l ≡ₚ l.
Proof. induction l as [|x l IH]; simpl; [done|]. by rewrite js_insert_perm, IH. Qed.

Context (cmp_total : ∀ x y, cmp x y ≤ 0 ∨ cmp y x ≤ 0)
        (cmp_trans : ∀ x y z, cmp x y ≤ 0 → cmp y z ≤ 0 → cmp x z ≤ 0).

Lemma js_insert_sorted x l :
  StronglySorted (λ a b, cmp a b ≤ 0) l → StronglySorted (λ a b, cmp a b ≤ 0) (js_insert x l).
Proof.
  induction 1 as [|y l Hl IH Hy]; simpl; [by repeat constructor|].
  case_bool_decide as Hxy.
  - constructor; [by constructor|]. constructor; [done|].
    eapply Forall_impl; [done|]. simpl. intros z Hz. eauto.
  - constructor; [done|]. rewrite js_insert_perm. constructor; [|done].
    destruct (cmp_total x y); [lia|done].
Qed.

Lemma js_sort_sorted l : StronglySorted (λ a b, cmp a b ≤ 0) (js_sort l).
Proof. induction l; simpl; [constructor|]. by apply js_insert_sorted. Qed.
End js_sort.

Lemma NoDup_snoc {A} (x : A) l : NoDup l → x ∉ l → NoDup (l ++ [x]).
Proof.
  intros Hl Hx. apply NoDup_app. split_and!; [done| |apply NoDup_singleton].
  by intros y Hy ->%list_elem_of_singleton.
Qed.

Lemma elem_of_snoc {A} (l : list A) x y : y ∈ l ++ [x] ↔ y ∈ l ∨ y = x.
Proof. by rewrite elem_of_app, list_elem_of_singleton. Qed.

(** A string used as a condition: the empty string is falsy. *)
Definition truthy_str (s : option string) : option string :=
  match s with Some t => if bool_decide (t = "") then None else Some t | None => None end.

(** ** Invariants of computations

    [preserves I m]: from a state with [I], [m] ends in a state with [I],
    whether it returns or throws. *)
Definition preserves {S A} (I : S → Prop) (m : M S A) : Prop :=
  ∀ s, I s → post m s (λ s' _, I s') (λ s' _, I s').

Section preserves.
Context {S : Type} (I : S → Prop).

Lemma preserves_ret {A} (a : A) : preserves I (mret a : M S A).
Proof. by intros s Hs. Qed.
Lemma preserves_throw {A} e : preserves I (throw e : M S A).
Proof. by intros s Hs. Qed.
Lemma preserves_gets {A} (f : S → A) : preserves I (gets f).
Proof. by intros s Hs. Qed.
Lemma preserves_get : preserves I get.
Proof. by intros s Hs. Qed.
Lemma preserves_put s : I s → preserves I (put s).
Proof. by intros Hs s0 Hs0. Qed.

Lemma preserves_bind {A B} (m : M S A) (k : A → M S B) :
  preserves I m → (∀ a, preserves I (k a)) → preserves I (m ≫= k).
Proof.
  intros Hm Hk s Hs. apply post_bind. eapply post_mono; [by apply Hm| |done].
  intros s' a Hs'. by apply Hk.
Qed.

(** After reading the state, the rest is only run from the state read. *)
Lemma preserves_get_bind {B} (k : S → M S B) :
  (∀ s, I s → post (k s) s (λ s' _, I s') (λ s' _, I s')) → preserves I (get ≫= k).
Proof. intros Hk s Hs. apply post_bind, post_get. by apply Hk. Qed.

Lemma preserves_for_each {A} (f : A → M S unit) l :
  (∀ x, x ∈ l → preserves I (f x)) → preserves I (for_each f l).
Proof.
  induction l as [|x l IH]; intros Hf; simpl; [apply preserves_ret|].
  apply preserves_bind; [apply Hf; left|]. intros _. apply IH. intros y Hy. apply Hf. by right.
Qed.

Lemma preserves_for_map {A B} (f : A → M S B) l :
  (∀ x, x ∈ l → preserves I (f x)) → preserves I (for_map f l).
Proof.
  induction l as [|x l IH]; intros Hf; simpl; [apply preserves_ret|].
  apply preserves_bind; [apply Hf; left|]. intros y. apply preserves_bind.
  - apply IH. intros z Hz. apply Hf. by right.
  - intros ys. apply preserves_ret.
Qed.

Lemma preserves_try {A} (m : M S A) h :
  preserves I m → (∀ e, preserves I (h e)) → preserves I (try_catch m h).
Proof.
  intros Hm Hh s Hs. apply post_try. eapply post_mono; [by apply Hm|done|]. intros s' e Hs'. by apply Hh.
Qed.

Lemma preserves_and {A} (J : S → Prop) (m : M S A) :
  preserves I m → preserves J m → preserves (λ s, I s ∧ J s) m.
Proof. intros Hi Hj s [Hs1 Hs2]. apply post_and; auto. Qed.

Lemma preserves_run {A} (m : M S A) s s' r : preserves I m → I s → m s = (s', r) → I s'.
Proof. intros Hm Hs Hr. specialize (Hm s Hs). unfold post in Hm. rewrite Hr in Hm. by destruct r. Qed.
End preserves.

(** ** Computations that move by the steps of a relation

    [guarded I R m]: from a state with [I], [m] ends in a state with [I] that is
    reached by steps of [R], whether it returns or throws. *)
Definition guarded {S A} (I : S → Prop) (R : relation S) (m : M S A) : Prop :=
  ∀ s, I s → post m s (λ s' _, I s' ∧ rtc R s s') (λ s' _, I s' ∧ rtc R s s').

Section guarded.
Context {S : Type} (I : S → Prop) (R : relation S) {A B : Type}.

Lemma guarded_ret (a : A) : guarded I R (mret a : M S A).
Proof. by intros s Hs. Qed.
Lemma guarded_throw e : guarded I R (throw e : M S A).
Proof. by intros s Hs. Qed.
Lemma guarded_gets (f : S → A) : guarded I R (gets f).
Proof. by intros s Hs. Qed.

(** The rest may use what the first part guarantees of its value. *)
Lemma guarded_bind_post (P : A → Prop) (m : M S A) (k : A → M S B) :
  guarded I R m → (∀ s, I s → post m s (λ _ a, P a) (λ _ _, True)) → (∀ a, P a → guarded I R (k a)) → guarded I R (m ≫= k).
Proof.
  intros Hm HP Hk s Hs. apply post_bind. eapply post_mono; [apply post_and; [by apply Hm|by apply HP]| |by intros ?? []].
  intros s1 a [[Hs1 R1] Ha]. eapply post_mono; [apply (Hk a Ha s1 Hs1)|..];
    intros s2 x [Hs2 R2]; (split; [exact Hs2|by etrans]).
Qed.

Lemma guarded_bind (m : M S A) (k : A → M S B) : guarded I R m → (∀ a, guarded I R (k a)) → guarded I R (m ≫= k).
Proof. intros Hm Hk. apply (guarded_bind_post (λ _, True)); [done| |by intros; apply Hk]. intros s _. apply post_true. Qed.

Lemma guarded_try (m : M S A) h : guarded I R m → (∀ e, guarded I R (h e)) → guarded I R (try_catch m h).
Proof.
  intros Hm Hh s Hs. apply post_try. eapply post_mono; [by apply Hm|done|]. intros s1 e [Hs1 R1].
  eapply post_mono; [apply (Hh e s1 Hs1)|..]; intros s2 x [Hs2 R2]; (split; [exact Hs2|by etrans]).
Qed.

Lemma guarded_transaction (m : M S A) : guarded I R m → guarded I R (transaction m).
Proof. intros Hm s Hs. apply post_transaction. eapply post_mono; [by apply Hm|done|]. by intros s1 e _. Qed.

(** A fact the steps keep may be added to the invariant. *)
Lemma guarded_and (F : S → Prop) (m : M S A) :
  (∀ s s', R s s' → F s → F s') → guarded I R m → guarded (λ s, I s ∧ F s) R m.
Proof.
  intros HF Hm s [Hs Fs].
  assert (∀ s', rtc R s s' → F s') as Hk.
  { intros s' Hr. clear Hs Hm. induction Hr as [|s1 s2 s3 Hr _ IH]; [done|]. apply IH. by eapply HF. }
  eapply post_mono; [by apply Hm|..]; intros s' x [Hs' Hr]; (split; [split; [exact Hs'|by apply Hk]|exact Hr]).
Qed.

Lemma guarded_run (m : M S A) s : guarded I R m → I s → I (m s).1 ∧ rtc R s (m s).1.
Proof. intros Hm Hs. specialize (Hm s Hs). unfold post in Hm. by destruct (m s) as [s' []]. Qed.
End guarded.

(** Goes through the statements of a computation, leaving its calls. *)
Ltac guarded_walk :=
  repeat (cbv beta zeta; lazymatch goal with
  | |- guarded _ _ (mbind _ _) => apply guarded_bind; [|intros ?]
  | |- guarded _ _ (mret _) => apply guarded_ret
  | |- guarded _ _ (throw _) => apply guarded_throw
  | |- guarded _ _ (gets _) => apply guarded_gets
  | |- guarded _ _ (try_catch _ _) => apply guarded_try; [|intros ?]
  | |- guarded _ _ (transaction _) => apply guarded_transaction
  | |- guarded _ _ (let (_, _) := ?x in _) => destruct x
  | |- guarded _ _ (match ?x with _ => _ end) => destruct x
  end).

#[export] Hint Resolve preserves_ret preserves_throw preserves_gets preserves_get : arenax.
#[export] Hint Resolve preserves_bind preserves_for_each preserves_for_map | 10 : arenax.

Lemma NoDup_key_inj {A B} (f : A → B) (l : list A) x y :
  NoDup (f <$> l) → x ∈ l → y ∈ l → f x = f y → x = y.
Proof.
  induction l as [|z l IH]; [set_solver|]. rewrite fmap_cons, NoDup_cons, !elem_of_cons.
  intros [Hz Hl] [->|Hx] [->|Hy] E; auto; destruct Hz; [rewrite E|rewrite <- E]; by apply list_elem_of_fmap_2.
Qed.

Lemma filter_none {A} (P : A → Prop) `{∀ x, Decision (P x)} l : (∀ x, x ∈ l → ¬ P x) → filter P l = [].
Proof.
  induction l as [|x l IH]; intros Hl; [done|]. rewrite filter_cons, decide_False by (apply Hl; left).
  apply IH. intros y Hy. apply Hl. by right.
Qed.
