(* ===== verification/JsText.v ===== *)
(** * JavaScript strings

    The string methods the services use, on sequences of bytes: [trim],
    [toLowerCase], [toUpperCase], [slice], [split], character classes, decimal
    numbers and dates.  Letters and white space are those of ASCII. *)

From Stdlib Require Import Ascii.
From stdpp Require Import prelude strings list pretty.
From S2P Require Import Prelude.

Definition chr (n : nat) : string := String (ascii_of_nat n) "".

(** ** Characters *)

Definition js_space (c : ascii) : bool := bool_decide (nat_of_ascii c ∈ [32; 9; 10; 11; 12; 13]%nat).
Definition lower (c : ascii) : ascii :=
  let n := nat_of_ascii c in if bool_decide (65 ≤ n ≤ 90)%nat then ascii_of_nat (n + 32) else c.
Definition upper (c : ascii) : ascii :=
  let n := nat_of_ascii c in if bool_decide (97 ≤ n ≤ 122)%nat then ascii_of_nat (n - 32) else c.
Definition is_digit (c : ascii) : bool := bool_decide (48 ≤ nat_of_ascii c ≤ 57)%nat.
Definition is_lower (c : ascii) : bool := bool_decide (97 ≤ nat_of_ascii c ≤ 122)%nat.

(** A fact about every character is decided by trying all of them. *)
Lemma ascii_forall (P : ascii → bool) :
  forallb P (List.map ascii_of_nat (List.seq 0 256)) = true → ∀ c, P c = true.
Proof.
  intros Hall c. rewrite forallb_forall in Hall. apply Hall. rewrite <- (ascii_nat_embedding c).
  apply in_map, in_seq. pose proof (nat_ascii_bounded c). lia.
Qed.

(** ** Methods *)

Fixpoint all_chars (f : ascii → bool) (s : string) : bool :=
  match s with EmptyString => true | String c s' => f c && all_chars f s' end.

(** [s.replace(/[^...]/g, '')] for the class [f] *)
Fixpoint str_filter (f : ascii → bool) (s : string) : string :=
  match s with
  | EmptyString => ""
  | String c s' => if f c then String c (str_filter f s') else str_filter f s'
  end.

(** [s.slice(0, n)] *)
Fixpoint str_take (n : nat) (s : string) : string :=
  match n, s with
  | S n', String c s' => String c (str_take n' s')
  | _, _ => ""
  end.

Fixpoint lowercase (s : string) : string :=
  match s with EmptyString => "" | String c s' => String (lower c) (lowercase s') end.
Fixpoint uppercase (s : string) : string :=
  match s with EmptyString => "" | String c s' => String (upper c) (uppercase s') end.

Fixpoint trim_left (s : string) : string :=
  match s with String c s' => if js_space c then trim_left s' else s | EmptyString => s end.
Fixpoint blank (s : string) : bool :=
  match s with EmptyString => true | String c s' => js_space c && blank s' end.
Fixpoint trim_right (s : string) : string :=
  match s with EmptyString => s | String c s' => if blank s then EmptyString else String c (trim_right s') end.
Definition trim (s : string) : string := trim_right (trim_left s).

Fixpoint str_contains (sub s : string) : bool :=
  String.prefix sub s || match s with EmptyString => false | String _ s' => str_contains sub s' end.

(** [s.split(c)] for a separator of one character; never empty. *)
Fixpoint split (c : ascii) (s : string) : list string :=
  match s with
  | EmptyString => [""]
  | String d s' =>
      if bool_decide (d = c) then "" :: split c s'
      else match split c s' with
           | p :: ps => String d p :: ps
           | [] => [String d ""]
           end
  end.

(** [s.split(c)[0]] *)
Definition split_head (c : ascii) (s : string) : string := hd "" (split c s).

(** ** Concatenation *)

Lemma app_cons c s t : String c s +:+ t = String c (s +:+ t).
Proof. done. Qed.

Lemma app_assoc_s (s t u : string) : (s +:+ t) +:+ u = s +:+ t +:+ u.
Proof. induction s as [|c s IH]; [done|]. rewrite !app_cons. by rewrite IH. Qed.

Lemma app_nil_s (s : string) : s +:+ "" = s.
Proof. induction s as [|c s IH]; [done|]. by rewrite app_cons, IH. Qed.

Lemma length_app_s s t : String.length (s +:+ t) = (String.length s + String.length t)%nat.
Proof. induction s as [|c s IH]; [done|]. rewrite app_cons. simpl. by rewrite IH. Qed.

(** ** Character classes and lengths *)

(** [s.startsWith] and [s.includes] *)
Lemma prefix_app (s t : string) : String.prefix s t ↔ ∃ v, t = s +:+ v.
Proof.
  revert t. induction s as [|c s IH]; intros t.
  { split; [intros _; by exists t|intros _; by destruct t]. }
  destruct t as [|c' t]; cbn [String.prefix]; [split; [done|by intros (v & Hv)]|].
  destruct (ascii_dec c c') as [<-|Hne].
  - rewrite IH. split; intros (v & Hv); exists v; [by rewrite Hv|by injection Hv].
  - split; [done|]. intros (v & Hv). by injection Hv.
Qed.

Lemma str_contains_spec (s t : string) : str_contains s t ↔ ∃ u v, t = u +:+ s +:+ v.
Proof.
  induction t as [|c t IH]; cbn [str_contains]; rewrite orb_True, prefix_app.
  - split; [intros [(v & Hv)|[]]; by exists "", v|]. intros ([|] & v & Hv); [left; by exists v|done].
  - rewrite IH. split.
    + intros [(v & Hv)|(u & v & Hv)]; [by exists "", v|]. exists (String c u), v. by rewrite Hv.
    + intros ([|c' u] & v & Hv); [left; by exists v|right]. injection Hv as _ Hv. by exists u, v.
Qed.

Lemma all_chars_app f s t : all_chars f (s +:+ t) = all_chars f s && all_chars f t.
Proof. induction s as [|c s IH]; [done|]. rewrite app_cons. simpl. by rewrite IH, andb_assoc. Qed.

Lemma all_chars_mono (f g : ascii → bool) s :
  (∀ c, f c → g c) → all_chars f s → all_chars g s.
Proof.
  intros Hfg. induction s as [|c s IH]; simpl; [done|]. rewrite !andb_True. naive_solver.
Qed.

Lemma all_chars_filter f s : all_chars f (str_filter f s).
Proof. induction s as [|c s IH]; simpl; [done|]. destruct (f c) eqn:E; simpl; [by rewrite E|done]. Qed.

Lemma all_chars_take f n s : all_chars f s → all_chars f (str_take n s).
Proof.
  revert n. induction s as [|c s IH]; intros [|n]; simpl; try done.
  rewrite !andb_True. naive_solver.
Qed.

Lemma length_str_take n s : String.length (str_take n s) = Nat.min n (String.length s).
Proof. revert n. induction s as [|c s IH]; intros [|n]; simpl; try done. by rewrite IH. Qed.

Lemma str_take_ge n s : (String.length s ≤ n)%nat → str_take n s = s.
Proof. revert n. induction s as [|c s IH]; intros [|n] Hn; simpl in *; try done; try lia. rewrite IH; [done|lia]. Qed.
#[export] Hint Resolve all_chars_filter all_chars_take : arenax.

(** ** Letter case and white space *)

Lemma lower_idem c : lower (lower c) = lower c.
Proof.
  assert (bool_decide (lower (lower c) = lower c) = true) as E; [|by apply bool_decide_eq_true in E].
  revert c. apply (ascii_forall (λ c, bool_decide (lower (lower c) = lower c))). by vm_compute.
Qed.

Lemma js_space_lower c : js_space (lower c) = js_space c.
Proof.
  assert (bool_decide (js_space (lower c) = js_space c) = true) as E; [|by apply bool_decide_eq_true in E].
  revert c. apply (ascii_forall (λ c, bool_decide (js_space (lower c) = js_space c))). by vm_compute.
Qed.

Lemma lowercase_idem s : lowercase (lowercase s) = lowercase s.
Proof. induction s as [|c s IH]; simpl; [done|]. by rewrite lower_idem, IH. Qed.

Lemma blank_lowercase s : blank (lowercase s) = blank s.
Proof. induction s as [|c s IH]; simpl; [done|]. by rewrite js_space_lower, IH. Qed.

Lemma trim_left_lowercase s : trim_left (lowercase s) = lowercase (trim_left s).
Proof. induction s as [|c s IH]; simpl; [done|]. rewrite js_space_lower. by destruct (js_space c). Qed.

Lemma trim_right_lowercase s : trim_right (lowercase s) = lowercase (trim_right s).
Proof.
  induction s as [|c s IH]; [done|]. cbn [lowercase trim_right]. change (String (lower c) (lowercase s)) with (lowercase (String c s)).
  rewrite blank_lowercase. destruct (blank _); [done|]. cbn [lowercase]. by rewrite IH.
Qed.

Lemma trim_lowercase s : trim (lowercase s) = lowercase (trim s).
Proof. unfold trim. by rewrite trim_left_lowercase, trim_right_lowercase. Qed.

Lemma trim_left_blank s : blank s → trim_left s = "".
Proof. induction s as [|c s IH]; simpl; [done|]. destruct (js_space c); simpl; [done|done]. Qed.

Lemma trim_left_right s : trim_left (trim_right s) = trim_right (trim_left s).
Proof.
  induction s as [|c s IH]; [done|]. cbn [trim_right]. destruct (blank (String c s)) eqn:Hb.
  - rewrite (trim_left_blank (String c s)); [done|]. by rewrite Hb.
  - cbn [trim_left]. destruct (js_space c) eqn:Hc; [done|]. cbn [trim_right]. by rewrite Hb.
Qed.

Lemma trim_left_idem s : trim_left (trim_left s) = trim_left s.
Proof. induction s as [|c s IH]; simpl; [done|]. destruct (js_space c) eqn:Hc; [done|]. simpl. by rewrite Hc. Qed.

Lemma blank_trim_right s : blank (trim_right s) = blank s.
Proof.
  induction s as [|c s IH]; [done|]. cbn [trim_right]. destruct (blank (String c s)) eqn:Hb; [done|].
  cbn [blank] in *. by rewrite IH.
Qed.

Lemma trim_right_idem s : trim_right (trim_right s) = trim_right s.
Proof.
  induction s as [|c s IH]; [done|]. cbn [trim_right]. destruct (blank (String c s)) eqn:Hb; [done|].
  cbn [trim_right]. assert (blank (String c (trim_right s)) = false) as ->.
  { cbn [blank] in *. by rewrite blank_trim_right. }
  by rewrite IH.
Qed.

Lemma trim_idem s : trim (trim s) = trim s.
Proof. unfold trim. by rewrite trim_left_right, trim_left_idem, trim_right_idem. Qed.

(** ** Decimal numbers *)

(** The value of a run of digits that follow a number. *)
Fixpoint number_from (acc : Z) (s : string) : Z :=
  match s with
  | EmptyString => acc
  | String c s' => number_from (10 * acc + (Z.of_nat (nat_of_ascii c) - 48)) s'
  end.

Lemma number_from_nonneg s acc : 0 ≤ acc → all_chars is_digit s → 0 ≤ number_from acc s.
Proof.
  revert acc. induction s as [|c s IH]; intros acc Ha; simpl; [done|]. rewrite andb_True.
  intros [Hc Hs]. apply IH; [|done]. unfold is_digit in Hc. apply bool_decide_unpack in Hc. lia.
Qed.

Lemma digit_char (n : N) : (n < 10)%N →
  is_digit (pretty_N_char n) ∧ Z.of_nat (nat_of_ascii (pretty_N_char n)) - 48 = Z.of_N n.
Proof.
  intros Hn. assert (n ∈ [0; 1; 2; 3; 4; 5; 6; 7; 8; 9]%N) as Hin by (rewrite !elem_of_cons; lia).
  repeat (apply elem_of_cons in Hin as [->|Hin]; [by vm_compute|]). by apply not_elem_of_nil in Hin.
Qed.

(** Printing a positive number in front of a text. *)
Lemma pretty_N_go_spec (n : N) s : (0 < n)%N →
  ∃ c t, pretty_N_go n s = String c (t +:+ s) ∧ is_digit c ∧ all_chars is_digit t ∧ c ≠ "0"%char ∧
    ∀ acc, number_from acc (pretty_N_go n s) = number_from (acc * 10 ^ Z.of_nat (S (String.length t)) + Z.of_N n) s.
Proof.
  revert s. induction n as [n IH] using (well_founded_induction N.lt_wf_0). intros s Hn.
  rewrite pretty_N_go_step by done. pose proof (N.mod_lt n 10 ltac:(lia)) as Hm.
  destruct (digit_char _ Hm) as [Hd Hv]. pose proof (N.div_mod n 10 ltac:(lia)) as Hdm.
  destruct (decide (n `div` 10 = 0)%N) as [Hz|Hz].
  - rewrite Hz, pretty_N_go_0. eexists _, "". split_and!; [done..| |].
    + intros E. assert (Z.of_N (n mod 10) = 0); [|lia]. rewrite <- Hv, E. done.
    + intros acc. simpl. f_equal. rewrite Hv. change (10 ^ 1) with 10. lia.
  - destruct (IH (n `div` 10)%N (N.div_lt n 10 ltac:(lia) ltac:(lia)) (String (pretty_N_char (n mod 10)) s) ltac:(lia))
      as (c & t & -> & Hc & Ht & Hne & Hnum).
    exists c, (t +:+ String (pretty_N_char (n mod 10)) ""). rewrite app_assoc_s. split_and!; [done..| | |].
    + rewrite all_chars_app, andb_True. split; [done|]. simpl. by rewrite andb_True.
    + done.
    + intros acc. rewrite Hnum. simpl. f_equal. rewrite length_app_s. simpl. rewrite Hv.
      rewrite Nat.add_1_r, (Nat2Z.inj_succ (S _)), Z.pow_succ_r by lia. lia.
Qed.

Lemma pretty_N_digits (n : N) : all_chars is_digit (pretty n : string).
Proof.
  unfold pretty, pretty_N. case_decide as Hn; [done|].
  destruct (pretty_N_go_spec n "" ltac:(lia)) as (c & t & -> & Hc & Ht & _). rewrite app_nil_s. simpl. by rewrite andb_True.
Qed.

Lemma pretty_nat_digits (n : nat) : all_chars is_digit (pretty n : string).
Proof. apply pretty_N_digits. Qed.

Lemma number_from_pretty (n : N) : number_from 0 (pretty n : string) = Z.of_N n.
Proof.
  unfold pretty, pretty_N. case_decide as Hn; [by subst|].
  destruct (pretty_N_go_spec n "" ltac:(lia)) as (c & t & _ & _ & _ & _ & ->). simpl. lia.
Qed.

Lemma number_from_bounds s acc : 0 ≤ acc → all_chars is_digit s →
  acc * 10 ^ Z.of_nat (String.length s) ≤ number_from acc s < (acc + 1) * 10 ^ Z.of_nat (String.length s).
Proof.
  revert acc. induction s as [|c s IH]; intros acc Ha; [simpl; lia|]. cbn [all_chars number_from String.length].
  rewrite andb_True. intros [Hc Hs]. unfold is_digit in Hc. apply bool_decide_unpack in Hc.
  specialize (IH (10 * acc + (Z.of_nat (nat_of_ascii c) - 48)) ltac:(lia) Hs).
  rewrite Nat2Z.inj_succ, Z.pow_succ_r by lia. set (p := 10 ^ _) in *. assert (0 < p) by (apply Z.pow_pos_nonneg; lia). nia.
Qed.

(** A number has [k] digits exactly when it lies between these powers. *)
Lemma pretty_length (n : N) (k : nat) : 10 ^ Z.of_nat k ≤ Z.of_N n < 10 ^ Z.of_nat (S k) →
  String.length (pretty n) = S k.
Proof.
  intros Hn. unfold pretty, pretty_N. assert (0 < 10 ^ Z.of_nat k) by (apply Z.pow_pos_nonneg; lia).
  rewrite decide_False by lia.
  destruct (pretty_N_go_spec n "" ltac:(lia)) as (c & t & E & Hc & Ht & Hne & Hnum). specialize (Hnum 0). rewrite E in *.
  rewrite app_nil_s in *. cbn [number_from String.length] in *. f_equal.
  assert (1 ≤ Z.of_nat (nat_of_ascii c) - 48 ≤ 9) as Hd.
  { unfold is_digit in Hc. apply bool_decide_unpack in Hc. assert (nat_of_ascii c ≠ 48%nat); [|lia]. intros E48.
    apply Hne. rewrite <- (ascii_nat_embedding c), E48. done. }
  pose proof (number_from_bounds t (10 * 0 + (Z.of_nat (nat_of_ascii c) - 48)) ltac:(lia) Ht) as Hb.
  rewrite Hnum in Hb. set (m := String.length t) in *. assert (0 < 10 ^ Z.of_nat m) by (apply Z.pow_pos_nonneg; lia).
  assert (10 ^ Z.of_nat m < 10 ^ Z.of_nat (S k)) as H1 by nia. apply Z.pow_lt_mono_r_iff in H1; [|lia..].
  assert (10 ^ Z.of_nat k < 10 ^ Z.of_nat (S m)) as H2 by (rewrite Nat2Z.inj_succ, Z.pow_succ_r by lia; nia).
  apply Z.pow_lt_mono_r_iff in H2; lia.
Qed.

(** ** Dates *)

Fixpoint pad_digits (width : nat) (n : Z) : string :=
  match width with
  | O => ""
  | S w => pad_digits w (n / 10) +:+ chr (48 + Z.to_nat (n mod 10))
  end.

(** [new Date(t).toISOString()] *)
Definition toISOString (t : Z) : string :=
  let days := t / 86400000 in
  let ms := t mod 86400000 in
  let z := days + 719468 in
  let era := z / 146097 in
  let doe := z mod 146097 in
  let yoe := (doe - doe / 1460 + doe / 36524 - doe / 146096) / 365 in
  let doy := doe - (365 * yoe + yoe / 4 - yoe / 100) in
  let mp := (5 * doy + 2) / 153 in
  let d := doy - (153 * mp + 2) / 5 + 1 in
  let m := if bool_decide (mp < 10) then mp + 3 else mp - 9 in
  let y := yoe + era * 400 + (if bool_decide (m ≤ 2) then 1 else 0) in
  pad_digits 4 y +:+ "-" +:+ pad_digits 2 m +:+ "-" +:+ pad_digits 2 d +:+ "T" +:+
  pad_digits 2 (ms / 3600000) +:+ ":" +:+ pad_digits 2 (ms / 60000 mod 60) +:+ ":" +:+
  pad_digits 2 (ms / 1000 mod 60) +:+ "." +:+ pad_digits 3 (ms mod 1000) +:+ "Z".
