(* ===== verification/JsInt.v ===== *)
(** * JavaScript integers

    The 32-bit integers of the bit operators, shifts, and [parseInt] with base
    ten.  A number is an integer or [None], which is [NaN]. *)

From Stdlib Require Import Ascii.
From stdpp Require Import prelude strings list pretty.
From S2P Require Import Prelude JsText.

(** ** 32 bits *)

(** The value of [x | 0]. *)
Definition to_int32 (x : Z) : Z := (x + 2 ^ 31) mod 2 ^ 32 - 2 ^ 31.

(** What the operators make of a number: [NaN] counts as 0. *)
Definition int32_of (x : option Z) : Z := to_int32 (default 0 x).

(** [x << k]: the distance is taken modulo 32. *)
Definition shift_left (x k : option Z) : Z := to_int32 (Z.shiftl (int32_of x) (int32_of k mod 32)).

(** [x & y] *)
Definition bit_and (x y : option Z) : Z := Z.land (int32_of x) (int32_of y).

(** [parseInt(text, 10)]: leading white space, a sign and a run of digits;
    [None] is [NaN]. *)
Definition digit_of (c : ascii) : option Z :=
  let n := Z.of_N (N_of_ascii c) in if bool_decide (48 ≤ n ≤ 57) then Some (n - 48) else None.

Fixpoint digits_from (acc : option Z) (s : string) : option Z :=
  match s with
  | String c s' =>
      match digit_of c with
      | Some d => digits_from (Some (10 * default 0 acc + d)) s'
      | None => acc
      end
  | EmptyString => acc
  end.

Fixpoint skip_space (s : string) : string :=
  match s with
  | String c s' =>
      let n := Z.of_N (N_of_ascii c) in
      if bool_decide (n = 32 ∨ 9 ≤ n ≤ 13) then skip_space s' else s
  | EmptyString => ""
  end.

Definition parseInt10 (s : string) : option Z :=
  match skip_space s with
  | String "-" s' => Z.opp <$> digits_from None s'
  | String "+" s' => digits_from None s'
  | s' => digits_from None s'
  end.

(** ** Facts *)

Definition int32 (x : Z) : Prop := - 2 ^ 31 ≤ x < 2 ^ 31.

Lemma to_int32_range x : int32 (to_int32 x).
Proof. unfold int32, to_int32. pose proof (Z.mod_pos_bound (x + 2 ^ 31) (2 ^ 32) ltac:(lia)). lia. Qed.

Lemma to_int32_id x : int32 x → to_int32 x = x.
Proof. unfold int32, to_int32. intros Hx. rewrite Z.mod_small; lia. Qed.

Lemma to_int32_mod x y : x mod 2 ^ 32 = y mod 2 ^ 32 → to_int32 x = to_int32 y.
Proof.
  unfold to_int32. intros E. f_equal. rewrite (Z.add_mod x), (Z.add_mod y), E by lia. done.
Qed.

Lemma to_int32_congr x : to_int32 x mod 2 ^ 32 = x mod 2 ^ 32.
Proof.
  unfold to_int32. rewrite Zminus_mod, Z.mod_mod, <- Zminus_mod by lia. f_equal. lia.
Qed.

(** Clearing the low bits of an integer. *)
Lemma land_high_bits x k : 0 ≤ k → Z.land x (- 2 ^ k) = x / 2 ^ k * 2 ^ k.
Proof.
  intros Hk. replace (- 2 ^ k) with (Z.lnot (Z.ones k)) by (rewrite Z.ones_equiv; unfold Z.lnot; lia).
  rewrite <- Z.ldiff_land, Z.ldiff_ones_r, Z.shiftl_mul_pow2, Z.shiftr_div_pow2 by done. done.
Qed.

(** Of two addresses of 32 bits the high bits agree as signed integers when
    they agree as unsigned ones. *)
Lemma to_int32_high_bits a b k : 0 ≤ k ≤ 31 → 0 ≤ a < 2 ^ 32 → 0 ≤ b < 2 ^ 32 →
  to_int32 a / 2 ^ k = to_int32 b / 2 ^ k ↔ a / 2 ^ k = b / 2 ^ k.
Proof.
  intros Hk Ha Hb. assert (0 < 2 ^ k) as Hp by (apply Z.pow_pos_nonneg; lia).
  assert (2 ^ 32 = 2 ^ (32 - k) * 2 ^ k) as Ek by (rewrite <- Z.pow_add_r by lia; f_equal; lia).
  assert (∀ x, 0 ≤ x < 2 ^ 32 → 0 ≤ x / 2 ^ 31 ≤ 1 ∧ 0 ≤ x / 2 ^ k < 2 ^ (32 - k) ∧
      x / 2 ^ 31 = x / 2 ^ k / 2 ^ (31 - k) ∧ to_int32 x / 2 ^ k = x / 2 ^ k - 2 ^ (32 - k) * (x / 2 ^ 31)) as Hdiv.
  { intros x Hx. split_and!.
    - apply Z.div_pos; lia.
    - enough (x / 2 ^ 31 < 2) by lia. apply Z.div_lt_upper_bound; lia.
    - apply Z.div_pos; lia.
    - apply Z.div_lt_upper_bound; lia.
    - rewrite Z.div_div, <- Z.pow_add_r by (try (apply Z.pow_pos_nonneg); lia). do 2 f_equal. lia.
    - destruct (decide (x < 2 ^ 31)).
      + rewrite to_int32_id by (unfold int32; lia). rewrite (Z.div_small x (2 ^ 31)) by lia. lia.
      + replace (x / 2 ^ 31) with 1 by (apply (Z.div_unique _ _ _ (x - 2 ^ 31)); lia).
        replace (to_int32 x) with (x + - 2 ^ (32 - k) * 2 ^ k); [rewrite Z.div_add by lia; lia|].
        unfold to_int32. rewrite <- (Z.mod_unique (x + 2 ^ 31) (2 ^ 32) 1 (x - 2 ^ 31)) by lia. lia. }
  destruct (Hdiv a Ha) as (? & ? & Ea & ->), (Hdiv b Hb) as (? & ? & Eb & ->). split; [nia|].
  intros E. by rewrite Ea, Eb, E.
Qed.

(** ** Reading what was printed *)

Lemma digit_of_digit c : is_digit c → digit_of c = Some (Z.of_nat (nat_of_ascii c) - 48).
Proof.
  unfold is_digit, digit_of. intros Hc%bool_decide_unpack. unfold nat_of_ascii in *. rewrite N_nat_Z in *.
  rewrite bool_decide_true; [done|]. lia.
Qed.

Lemma digits_from_number s acc : all_chars is_digit s → digits_from (Some acc) s = Some (number_from acc s).
Proof.
  revert acc. induction s as [|c s IH]; intros acc; simpl; [done|]. rewrite andb_True. intros [Hc Hs].
  rewrite digit_of_digit by done. by apply IH.
Qed.

Lemma pretty_N_head (n : N) : ∃ c s, (pretty n : string) = String c s ∧ is_digit c.
Proof.
  unfold pretty, pretty_N. case_decide; [by eexists _, _|].
  destruct (pretty_N_go_spec n "" ltac:(lia)) as (c & t & -> & Hc & _). by eexists _, _.
Qed.

Lemma digits_from_pretty (n : N) : digits_from None (pretty n) = Some (Z.of_N n).
Proof.
  rewrite <- number_from_pretty. pose proof (pretty_N_digits n) as Hd. destruct (pretty_N_head n) as (c & s & E & Hc). rewrite E in *.
  cbn [all_chars] in Hd. apply andb_True in Hd as [_ Hs]. cbn [digits_from number_from]. rewrite digit_of_digit by done.
  by rewrite digits_from_number.
Qed.

Lemma parseInt10_digits c s : is_digit c → parseInt10 (String c s) = digits_from None (String c s).
Proof.
  intros Hc. unfold parseInt10. assert (skip_space (String c s) = String c s) as ->.
  { simpl. rewrite bool_decide_false; [done|]. unfold is_digit in Hc. apply bool_decide_unpack in Hc. unfold nat_of_ascii in Hc. lia. }
  destruct c as [[] [] [] [] [] [] [] []]; done.
Qed.

Lemma parseInt10_pretty (n : N) : parseInt10 (pretty n) = Some (Z.of_N n).
Proof. rewrite <- digits_from_pretty. destruct (pretty_N_head n) as (c & s & -> & Hc). by apply parseInt10_digits. Qed.

Lemma parseInt10_pretty_Z (z : Z) : parseInt10 (pretty z) = Some z.
Proof.
  destruct z as [|p|p]; [done|apply (parseInt10_pretty (N.pos p))|]. change (pretty (Z.neg p)) with (String "-" (pretty (N.pos p))).
  change (parseInt10 (String "-" ?s)) with (Z.opp <$> digits_from None s). by rewrite digits_from_pretty.
Qed.
