(* ===== verification/JsBuffer.v ===== *)
(** * Encodings of byte buffers

    [Buffer.toString('hex')], [Buffer.toString('base64')] and
    [Buffer.from(text, 'base64')], with the round trip.  A buffer is a string of
    bytes.  Decoding skips characters outside the alphabet, accepts the
    URL-safe variants and stops at the padding, as Node does. *)

From Stdlib Require Import Ascii.
From stdpp Require Import prelude strings list.
From S2P Require Import Prelude JsText.

Definition byte (n : Z) : ascii := ascii_of_nat (Z.to_nat n).
Definition code (c : ascii) : Z := Z.of_nat (nat_of_ascii c).

Lemma byte_code c : byte (code c) = c.
Proof. unfold byte, code. rewrite Nat2Z.id. apply ascii_nat_embedding. Qed.

Lemma byte_cons n c s t : n = code c → s = t → String (byte n) s = String c t.
Proof. intros -> ->. by rewrite byte_code. Qed.

Lemma code_range c : 0 ≤ code c < 256.
Proof. unfold code. pose proof (nat_ascii_bounded c). lia. Qed.

(** ** Hexadecimal *)

Definition hex_digit (n : Z) : ascii := byte (if bool_decide (n < 10) then 48 + n else 87 + n).
Fixpoint to_hex (s : string) : string :=
  match s with
  | EmptyString => ""
  | String c s' => String (hex_digit (code c / 16)) (String (hex_digit (code c mod 16)) (to_hex s'))
  end.

(** ** Base64 *)

Definition b64_char (n : Z) : ascii :=
  byte (if bool_decide (n < 26) then 65 + n
        else if bool_decide (n < 52) then 71 + n
        else if bool_decide (n < 62) then n - 4
        else if bool_decide (n = 62) then 43 else 47).

Definition b64_value (c : ascii) : option Z :=
  let n := code c in
  if bool_decide (65 ≤ n ≤ 90) then Some (n - 65)
  else if bool_decide (97 ≤ n ≤ 122) then Some (n - 71)
  else if bool_decide (48 ≤ n ≤ 57) then Some (n + 4)
  else if bool_decide (n = 43 ∨ n = 45) then Some 62
  else if bool_decide (n = 47 ∨ n = 95) then Some 63 else None.

(** The numbers of six bits the bytes are split into. *)
Fixpoint sextets (s : string) : list Z :=
  match s with
  | EmptyString => []
  | String a EmptyString => [code a / 4; code a mod 4 * 16]
  | String a (String b EmptyString) => [code a / 4; code a mod 4 * 16 + code b / 16; code b mod 16 * 4]
  | String a (String b (String c s')) =>
      code a / 4 :: code a mod 4 * 16 + code b / 16 :: code b mod 16 * 4 + code c / 64 :: code c mod 64 :: sextets s'
  end.

Definition b64_text (l : list Z) : string := foldr (λ n s, String (b64_char n) s) "" l.

Definition padding (l : list Z) : string :=
  match Nat.modulo (length l) 4 with 2%nat => "==" | 3%nat => "=" | _ => "" end.

Definition to_base64 (s : string) : string := b64_text (sextets s) +:+ padding (sextets s).

Fixpoint read_sextets (s : string) : list Z :=
  match s with
  | EmptyString => []
  | String c s' =>
      if bool_decide (c = "="%char) then []
      else match b64_value c with Some n => n :: read_sextets s' | None => read_sextets s' end
  end.

Fixpoint join_sextets (l : list Z) : string :=
  match l with
  | w :: x :: y :: z :: l' =>
      String (byte (w * 4 + x / 16)) (String (byte (x mod 16 * 16 + y / 4)) (String (byte (y mod 4 * 64 + z)) (join_sextets l')))
  | [w; x; y] => String (byte (w * 4 + x / 16)) (String (byte (x mod 16 * 16 + y / 4)) "")
  | [w; x] => String (byte (w * 4 + x / 16)) ""
  | _ => ""
  end.

Definition from_base64 (s : string) : string := join_sextets (read_sextets s).

(** ** The round trip *)

Lemma string_ind3 (P : string → Prop) :
  P "" → (∀ a, P (String a "")) → (∀ a b, P (String a (String b ""))) →
  (∀ a b c s, P s → P (String a (String b (String c s)))) → ∀ s, P s.
Proof.
  intros H0 H1 H2 H3. fix go 1. intros [|a [|b [|c s]]]; [exact H0|exact (H1 a)|exact (H2 a b)|exact (H3 a b c s (go s))].
Qed.

Lemma sextets_range s : Forall (λ n, 0 ≤ n < 64) (sextets s).
Proof.
  induction s as [|a|a b|a b c s IH] using string_ind3; cbn [sextets]; [constructor|..];
    pose proof (code_range a); try pose proof (code_range b); try pose proof (code_range c);
    repeat constructor; try assumption; Z.div_mod_to_equations; lia.
Qed.

Lemma b64_value_char n : 0 ≤ n < 64 → b64_value (b64_char n) = Some n ∧ b64_char n ≠ "="%char ∧ b64_char n ≠ ":"%char.
Proof.
  intros Hn.
  assert (forallb (λ k, bool_decide (b64_value (b64_char k) = Some k) && negb (bool_decide (b64_char k = "="%char))
    && negb (bool_decide (b64_char k = ":"%char)))
    (Z.of_nat <$> seq 0 64)) as Hall by (by vm_compute).
  apply Is_true_true in Hall. rewrite forallb_forall in Hall. specialize (Hall n).
  rewrite !andb_true_iff, !negb_true_iff, bool_decide_eq_true, !bool_decide_eq_false in Hall.
  destruct Hall as [[? ?] ?]; [|done]. rewrite <- list_elem_of_In, list_elem_of_fmap.
  exists (Z.to_nat n). rewrite elem_of_seq. lia.
Qed.

Lemma read_sextets_text l r : Forall (λ n, 0 ≤ n < 64) l → read_sextets (b64_text l +:+ r) = l ++ read_sextets r.
Proof.
  induction 1 as [|n l Hn _ IH]; [done|]. cbn [b64_text foldr]. rewrite app_cons. cbn [read_sextets].
  destruct (b64_value_char n Hn) as (-> & ? & _). rewrite bool_decide_false by done.
  cbn [app]. f_equal. exact IH.
Qed.

Lemma join_sextets_eq s : join_sextets (sextets s) = s.
Proof.
  induction s as [|a|a b|a b c s IH] using string_ind3; cbn [sextets join_sextets]; [done|..];
    pose proof (code_range a); try pose proof (code_range b); try pose proof (code_range c); rewrite ?IH;
    repeat (apply byte_cons; [ Z.div_mod_to_equations; lia|]); reflexivity.
Qed.

Lemma from_to_base64 s : from_base64 (to_base64 s) = s.
Proof.
  unfold from_base64, to_base64. rewrite read_sextets_text by apply sextets_range.
  assert (read_sextets (padding (sextets s)) = []) as ->.
  { unfold padding. destruct (Nat.modulo _ _) as [|[|[|[|]]]]; reflexivity. }
  rewrite app_nil_r. apply join_sextets_eq.
Qed.
