(* ===== verification/Prisma.v ===== *)
(** * The database client as an interface

    The server talks to PostgreSQL through the generated Prisma client, whose
    code is not part of the repository.  The tables are ordinary state of each
    component (their columns come from [server/prisma/schema.prisma]); what the
    database decides on its own (generated ids, default timestamps, the order
    of the rows of a query) is the class [Prisma], with the documented
    guarantees as laws.  [DecimalJs] is the same for the decimal arithmetic that
    [Decimal] columns are computed with. *)

From stdpp Require Import prelude gmap strings list pretty sorting.
From S2P Require Import Prelude.

(** ** What the database chooses *)

Class Prisma : Type := {
  (** the [n]-th generated [uuid()] *)
  uuid : nat → string;
  (** the database clock at the [n]-th insertion: [@default(now())] *)
  db_now : nat → Z;
  (** the rows of a query, ordered by a comparison; [λ _ _, true] is a query
      without an [orderBy], whose order is unspecified *)
  order_by : ∀ {A : Type}, (A → A → bool) → list A → list A;
  uuid_inj : Inj (=) (=) uuid;
  uuid_nonempty : ∀ n, uuid n ≠ "";
  order_by_perm : ∀ A (leb : A → A → bool) l, order_by leb l ≡ₚ l;
  order_by_sorted : ∀ A (leb : A → A → bool) l,
    (∀ x y, leb x y ∨ leb y x) → (∀ x y z, leb x y → leb y z → leb x z) →
    StronglySorted leb (order_by leb l);
}.

#[export] Existing Instance uuid_inj.

(** A query without an [orderBy]. *)
Definition any_order `{Prisma} {A} (l : list A) : list A := order_by (λ _ _, true) l.

Lemma any_order_perm `{Prisma} {A} (l : list A) : any_order l ≡ₚ l.
Proof. apply order_by_perm. Qed.

Lemma elem_of_order_by `{Prisma} {A} (leb : A → A → bool) (l : list A) x :
  x ∈ order_by leb l ↔ x ∈ l.
Proof. by rewrite order_by_perm. Qed.

(** The newest of the rows inserted in order of time is the last one. *)
Lemma order_by_latest `{Prisma} {A} (time : A → Z) (l : list A) : StronglySorted (λ a b, time a < time b) l →
  head (order_by (λ a b, bool_decide (time b ≤ time a)) l) = last l.
Proof.
  set (newest a b := bool_decide (time b ≤ time a)). intros Hs. pose proof (order_by_perm _ newest l) as Hp.
  assert (StronglySorted newest (order_by newest l)) as Ho.
  { apply order_by_sorted; unfold newest; [intros x y|intros x y z]; rewrite !bool_decide_spec; lia. }
  destruct l as [|x l _] using rev_ind; [by apply Permutation_nil_r in Hp as ->|]. rewrite last_snoc.
  destruct (order_by newest (l ++ [x])) as [|h t]; [by apply Permutation_nil_l in Hp; destruct l|]. simpl. f_equal.
  assert (h ∈ l ++ [x]) as Hh by (rewrite <- Hp; left). assert (x ∈ h :: t) as Hx by (rewrite Hp; set_solver).
  apply elem_of_app in Hh as [Hh|Hh]; [|set_solver]. apply elem_of_cons in Hx as [Hx|Hx]; [done|exfalso].
  apply StronglySorted_inv in Ho as [_ Ho]. rewrite Forall_forall in Ho. specialize (Ho x Hx).
  unfold newest in Ho. apply bool_decide_unpack in Ho.
  apply StronglySorted_app in Hs as (Hs & _ & _). specialize (Hs h x Hh ltac:(set_solver)). lia.
Qed.

(** Lexicographic comparison of an [orderBy: [{a}, {b}]] list. *)
Definition lex_leb {A} (c1 : A → A → comparison) (leb2 : A → A → bool) (x y : A) : bool :=
  match c1 x y with Lt => true | Gt => false | Eq => leb2 x y end.

(** Error codes of the client. *)
Definition UniqueViolation : exn := PrismaError "P2002".
Definition ForeignKeyViolation : exn := PrismaError "P2003".
Definition ValueOutOfRange : exn := PrismaError "P2020".
Definition RecordNotFound : exn := PrismaError "P2025".

(** ** Decimal columns

    A [Decimal] of the ledger tables is stored in a [@db.Decimal(20, 7)] column:
    twenty digits, seven of them after the point.  It is represented by the
    number of units of 10^-7, so a value fits the column when it is below
    [dec_limit] in magnitude.  [dec_round] is the rounding of decimal.js
    to its default precision of twenty significant digits. *)
Definition dec_limit : Z := 10 ^ 20.

Class DecimalJs : Type := {
  dec_round : Z → Z;
  (** a result of at most twenty digits is exact *)
  dec_round_exact : ∀ z, Z.abs z < dec_limit → dec_round z = z;
  (** rounding does not cross the power of ten [dec_limit] *)
  dec_round_big : ∀ z, dec_limit ≤ Z.abs z → dec_limit ≤ Z.abs (dec_round z);
}.

Section decimal.
Context `{DecimalJs}.

Definition dec_plus (a b : Z) : Z := dec_round (a + b).
Definition dec_minus (a b : Z) : Z := dec_round (a - b).
Definition dec_lessThan (a b : Z) : bool := bool_decide (a < b).

(** Whether a value fits a [numeric(20, 7)] column. *)
Definition dec_fits (z : Z) : bool := bool_decide (Z.abs z < dec_limit).

Lemma dec_fits_Forall l : forallb dec_fits l = true ↔ Forall (λ z, Z.abs z < dec_limit) l.
Proof.
  rewrite forallb_forall, Forall_forall. unfold dec_fits.
  setoid_rewrite list_elem_of_In. by setoid_rewrite bool_decide_eq_true.
Qed.

(** A rounded result fits its column exactly when the exact one does. *)
Lemma dec_abs_round z : Z.abs (dec_round z) < dec_limit ↔ Z.abs z < dec_limit.
Proof.
  destruct (decide (Z.abs z < dec_limit)); [by rewrite dec_round_exact|].
  pose proof (dec_round_big z). lia.
Qed.

(** A result that fits its column was not rounded. *)
Lemma dec_round_id z : Z.abs (dec_round z) < dec_limit → dec_round z = z.
Proof. rewrite dec_abs_round. apply dec_round_exact. Qed.
End decimal.

(** ** Concrete instances, used to evaluate the model *)

Definition sort_rows {A} (leb : A → A → bool) (l : list A) : list A :=
  merge_sort (λ x y, Is_true (leb x y)) l.

#[export] Instance prisma_model : Prisma.
Proof.
  refine {| uuid := λ n, "id-" +:+ pretty n;
            db_now := λ n, Z.of_nat n;
            order_by := @sort_rows |}.
  - done.
  - intros. unfold sort_rows. apply merge_sort_Permutation.
  - intros A leb l Ht Htr. unfold sort_rows. apply StronglySorted_merge_sort; [intros ????; eauto|intros x y; apply Ht].
Defined.

(** Half-up rounding to twenty digits for sums of two column values. *)
Definition round_half_up (z : Z) : Z :=
  if bool_decide (Z.abs z < dec_limit) then z else Z.sgn z * (10 * ((Z.abs z + 5) / 10)).

#[export] Instance decimal_model : DecimalJs.
Proof.
  refine {| dec_round := round_half_up |}; unfold round_half_up.
  - intros z Hz. by rewrite bool_decide_true.
  - intros z Hz. rewrite bool_decide_false by lia.
    rewrite Z.abs_mul. assert (Z.abs (Z.sgn z) = 1) as -> by (unfold dec_limit in *; lia).
    assert (dec_limit = 10 * 10 ^ 19) as E by reflexivity.
    rewrite E in *. assert (10 ^ 19 ≤ (Z.abs z + 5) / 10); [|lia].
    apply Z.div_le_lower_bound; lia.
Defined.

(** ** Rows of a table identified by a unique column *)

Section rows.
Context {R : Type} (idf : R → string).
Implicit Types (l : list R) (r : R).

Definition row_find (i : string) l : option R := List.find (λ r, bool_decide (idf r = i)) l.

Definition row_update (i : string) (f : R → R) l : list R :=
  (λ r, if bool_decide (idf r = i) then f r else r) <$> l.

Lemma row_find_Some i l r : row_find i l = Some r → r ∈ l ∧ idf r = i.
Proof.
  unfold row_find. intros [Hin Hb]%find_some. rewrite list_elem_of_In.
  by apply bool_decide_eq_true in Hb.
Qed.

Lemma row_find_None i l : row_find i l = None ↔ i ∉ idf <$> l.
Proof.
  unfold row_find. induction l as [|r l IH]; simpl; [set_solver|].
  rewrite not_elem_of_cons. case_bool_decide; naive_solver.
Qed.

Lemma row_find_elem i l r : NoDup (idf <$> l) → r ∈ l → idf r = i → row_find i l = Some r.
Proof.
  unfold row_find. induction l as [|r' l IH]; simpl; [set_solver|].
  intros [Hn Hd]%NoDup_cons [->|Hin]%elem_of_cons Hi.
  - by rewrite bool_decide_true.
  - rewrite bool_decide_false; [by apply IH|]. intros E. apply Hn. rewrite E, <- Hi.
    by apply list_elem_of_fmap_2.
Qed.

Lemma row_find_app i l1 l2 :
  row_find i (l1 ++ l2) = match row_find i l1 with Some r => Some r | None => row_find i l2 end.
Proof. unfold row_find. induction l1; simpl; [done|]. by case_bool_decide. Qed.

Lemma row_update_ids i f l : (∀ r, idf (f r) = idf r) → idf <$> row_update i f l = idf <$> l.
Proof.
  intros Hf. unfold row_update. rewrite <- list_fmap_compose. apply list_fmap_ext.
  intros j r _. simpl. by case_bool_decide.
Qed.

Lemma row_find_update i j f l : (∀ r, idf (f r) = idf r) →
  row_find j (row_update i f l) =
    (λ r, if bool_decide (j = i) then f r else r) <$> row_find j l.
Proof.
  intros Hf. unfold row_find, row_update. induction l as [|r l IH]; simpl; [done|].
  destruct (decide (idf r = i)) as [<-|Hi].
  - rewrite (bool_decide_true (idf r = idf r)), Hf by done.
    destruct (decide (idf r = j)) as [<-|Hj].
    + by rewrite !bool_decide_true by done.
    + rewrite !(bool_decide_false (idf r = j)) by done. exact IH.
  - rewrite (bool_decide_false (idf r = i)) by done.
    destruct (decide (idf r = j)) as [<-|Hj].
    + rewrite !(bool_decide_true (idf r = idf r)) by done. simpl. by rewrite bool_decide_false.
    + rewrite !(bool_decide_false (idf r = j)) by done. exact IH.
Qed.

Lemma elem_of_row_update i f l r' :
  r' ∈ row_update i f l ↔ ∃ r, r ∈ l ∧ r' = if bool_decide (idf r = i) then f r else r.
Proof. unfold row_update. rewrite list_elem_of_fmap. naive_solver. Qed.

(** A property of every row survives an update that keeps it on the row it
    touches. *)
Lemma Forall_row_update (P : R → Prop) i f l :
  (∀ r, idf r = i → P r → P (f r)) → Forall P l → Forall P (row_update i f l).
Proof.
  intros Hf Hl. apply Forall_forall. intros r' (r & Hr & ->)%elem_of_row_update.
  rewrite Forall_forall in Hl. case_bool_decide; auto.
Qed.
End rows.
#[export] Hint Resolve Forall_row_update : arenax.

(** ** Generated ids *)

Section ids.
Context `{Prisma}.

(** An id generated before the [n]-th insertion. *)
Definition issued (n : nat) (i : string) : Prop := ∃ k, (k < n)%nat ∧ i = uuid k.

Lemma issued_mono n i : issued n i → issued (S n) i.
Proof. intros (k & ? & ?). exists k. split; [lia|done]. Qed.

Lemma issued_new n : issued (S n) (uuid n).
Proof. exists n. split; [lia|done]. Qed.

Lemma not_issued n : ¬ issued n (uuid n).
Proof. intros (k & Hk & E). apply (inj uuid) in E. lia. Qed.

Lemma Forall_issued_mono n l : Forall (issued n) l → Forall (issued (S n)) l.
Proof. intros Hl. eapply Forall_impl; [exact Hl|]. apply issued_mono. Qed.

Lemma fresh_snoc n (l : list string) : NoDup l → Forall (issued n) l → NoDup (l ++ [uuid n]).
Proof.
  intros Hl Hi. apply NoDup_app. split_and!; [done| |apply NoDup_singleton].
  intros x Hx ->%list_elem_of_singleton. rewrite Forall_forall in Hi. by apply (not_issued n), Hi.
Qed.

Lemma issued_snoc n l : Forall (issued n) l → Forall (issued (S n)) (l ++ [uuid n]).
Proof.
  intros Hl. apply Forall_app. split; [by apply Forall_issued_mono|].
  constructor; [apply issued_new|constructor].
Qed.
End ids.
#[export] Hint Resolve issued_new Forall_issued_mono fresh_snoc issued_snoc : arenax.
