(* ===== verification/Crypto.v ===== *)
(** * Cryptography and random numbers

    What the services take from Node's [crypto] module, from [Math.random] and
    from the packages [bcrypt] and [jsonwebtoken]: parameters, with the
    documented behaviour the code relies on as laws.  Random sources are
    sequences of readings, numbered in the order they are drawn. *)

From Stdlib Require Import Ascii.
From stdpp Require Import prelude strings list pretty.
From S2P Require Import Prelude JsText.

(** ** Hashes *)

(** [crypto.createHash('sha256').update(text).digest('hex')] *)
Class Sha256 := sha256_hex : string → string.

Definition collision `{Sha256} : Prop := ∃ s1 s2, s1 ≠ s2 ∧ sha256_hex s1 = sha256_hex s2.

(** Texts with one hash are equal, unless a collision has been found. *)
Lemma hash_inj `{Sha256} s1 s2 : sha256_hex s1 = sha256_hex s2 → collision ∨ s1 = s2.
Proof. intros E. destruct (decide (s1 = s2)); [by right|]. left. by exists s1, s2. Qed.

(** [crypto.timingSafeEqual] behind a test of the lengths *)
Definition constantTimeEquals (left right : string) : bool :=
  if negb (bool_decide (String.length left = String.length right)) then false
  else bool_decide (left = right).

Lemma constantTimeEquals_refl s : constantTimeEquals s s = true.
Proof. unfold constantTimeEquals. by rewrite !bool_decide_true. Qed.

Lemma constantTimeEquals_eq s t : constantTimeEquals s t = bool_decide (s = t).
Proof.
  unfold constantTimeEquals. destruct (decide (s = t)) as [->|Hne]; [by rewrite !bool_decide_true|].
  rewrite (bool_decide_false (s = t)) by done. by destruct (negb _).
Qed.

(** [bcrypt.hash(password, rounds)] draws a salt; a password matches the hashes
    made from it, and nothing matches the empty string. *)
Class Bcrypt := {
  bcrypt_hash : string → Z → nat → string;
  bcrypt_compare : string → string → bool;
  bcrypt_compare_hash : ∀ p r n, bcrypt_compare p (bcrypt_hash p r n) = true;
  bcrypt_compare_empty : ∀ p, bcrypt_compare p "" = false;
}.

(** ** Random readings *)

Definition hex_char (c : ascii) : bool :=
  is_digit c || bool_decide (97 ≤ nat_of_ascii c ≤ 102)%nat.
Definition uuid_char (c : ascii) : bool := hex_char c || bool_decide (c = "-"%char).

Class NodeRandom := {
  (** [crypto.randomBytes(k)] *)
  randomBytes : nat → nat → string;
  (** [crypto.randomUUID()] *)
  randomUUID : nat → string;
  (** [Math.random()] as the numerator of a fraction over 2^53 *)
  math_random : nat → Z;
  (** [crypto.randomInt(0, max)] *)
  randomInt : Z → nat → Z;
  randomUUID_inj : Inj (=) (=) randomUUID;
  randomUUID_chars : ∀ n, all_chars uuid_char (randomUUID n);
  randomUUID_head : ∀ n, all_chars hex_char (str_take 8 (randomUUID n)) ∧ (8 ≤ String.length (randomUUID n))%nat;
  math_random_range : ∀ n, 0 ≤ math_random n < 2 ^ 53;
  randomInt_range : ∀ max n, 0 < max → 0 ≤ randomInt max n < max;
}.
#[export] Existing Instance randomUUID_inj.

(** [Math.floor(Math.random() * 9000 + 1000)]; the product is taken exactly *)
Definition four_digits (reading : Z) : Z := reading * 9000 / 2 ^ 53 + 1000.

Lemma four_digits_range r : 0 ≤ r < 2 ^ 53 → 1000 ≤ four_digits r ≤ 9999.
Proof.
  intros Hr. unfold four_digits.
  assert (r * 9000 / 2 ^ 53 < 9000) by (apply Z.div_lt_upper_bound; lia).
  assert (0 ≤ r * 9000 / 2 ^ 53) by (apply Z.div_pos; lia). lia.
Qed.

(** ** Signed tokens *)

Record JwtOptions := mkJwtOptions { algorithm : string; expiresIn : string; subject : string }.

(** [jwt.sign(claims, key, options)] at an instant *)
Class JsonWebToken := jwt_sign : list (string * string) → string → JwtOptions → Z → string.

(** ** Concrete instances, used to evaluate the model *)

Definition sha_model : Sha256 := λ s, "#" +:+ s.

Definition bcrypt_model : Bcrypt.
Proof.
  refine {| bcrypt_hash := λ p _ _, "$" +:+ p; bcrypt_compare := λ p h, bool_decide (h = "$" +:+ p) |}.
  - intros. by rewrite bool_decide_true.
  - done.
Defined.

Definition random_model : NodeRandom.
Proof.
  refine {| randomBytes := λ k n, "r" +:+ pretty k +:+ "-" +:+ pretty n;
            randomUUID := λ n, "00000000-" +:+ pretty n;
            math_random := λ n, Z.of_nat n mod 2 ^ 53;
            randomInt := λ max n, Z.of_nat n mod max |}.
  - intros n. rewrite all_chars_app, andb_True. split; [done|].
    eapply all_chars_mono; [|apply pretty_nat_digits]. intros c Hc. unfold uuid_char, hex_char.
    rewrite !orb_True. by left; left.
  - intros n. split; [done|]. rewrite length_app_s. simpl. lia.
  - intros n. apply Z.mod_pos_bound. lia.
  - intros max n Hm. by apply Z.mod_pos_bound.
Defined.

Definition jwt_model : JsonWebToken := λ claims key o now, "jwt:" +:+ subject o.
