(* ===== verification/AuthConfig.v ===== *)
(** * Configuration of the tokens: [server/src/config/auth.config.ts]

    [buildAuthConfig] on the environment variables.  Files and paths are
    parameters.  [Number(digits)] is exact, so amounts are below 2^53. *)

From Stdlib Require Import Ascii.
From stdpp Require Import prelude strings list pretty.
From S2P Require Import Prelude JsText.

(** ** Durations *)

Definition durationUnitInMs (unit : ascii) : option Z :=
  match unit with
  | "s"%char => Some 1000
  | "m"%char => Some (60 * 1000)
  | "h"%char => Some (60 * 60 * 1000)
  | "d"%char => Some (24 * 60 * 60 * 1000)
  | _ => None
  end.

(** [value.match(/^(\d+)([smhd])$/)]: the digits and the unit *)
Fixpoint match_duration (value : string) : option (string * ascii) :=
  match value with
  | String c (String u EmptyString) =>
      if is_digit c && bool_decide (is_Some (durationUnitInMs u)) then Some (String c "", u) else None
  | String c s' =>
      if is_digit c then (λ m, (String c m.1, m.2)) <$> match_duration s' else None
  | EmptyString => None
  end.

Definition parseDurationToMs (value envName : string) : result Z :=
  match match_duration value with
  | None => Throw (JsError (envName +:+ " must match " +:+ chr 34 +:+ "<number><unit>" +:+ chr 34 +:+ " where unit is one of s,m,h,d"))
  | Some (amountRaw, unitRaw) => Ok (number_from 0 amountRaw * default 0 (durationUnitInMs unitRaw))
  end.

(** ** The environment *)

Record ProcessEnv := mkProcessEnv {
  ACCESS_TOKEN_TTL : option string;
  JWT_EXPIRES_IN : option string;
  REFRESH_TOKEN_TTL : option string;
  REFRESH_TOKEN_EXPIRES_IN : option string;
  JWT_PRIVATE_KEY : option string;
  JWT_PRIVATE_KEY_FILE : option string;
  JWT_PUBLIC_KEY : option string;
  JWT_PUBLIC_KEY_FILE : option string;
  JWT_SECRET : option string;
}.

Record AuthConfig := mkAuthConfig {
  accessTokenTtl : string;
  accessTokenTtlMs : Z;
  refreshTokenTtl : string;
  refreshTokenTtlMs : Z;
  jwtAlgorithm : string;
  signingKey : string;
  verificationKey : string;
}.

(** The file system: [fs.readFileSync] and [path]. *)
Class FileSystem := {
  readFileSync : string → result string;
  isAbsolute : string → bool;
  path_resolve : string → string;
}.

(** [text.replace(/\\n/g, '\n')] *)
Fixpoint unescape_newlines (s : string) : string :=
  match s with
  | String c s' =>
      match s' with
      | String "n" s'' =>
          if bool_decide (c = ascii_of_nat 92) then String (ascii_of_nat 10) (unescape_newlines s'')
          else String c (unescape_newlines s')
      | _ => String c (unescape_newlines s')
      end
  | EmptyString => ""
  end.

Section config.
Context `{FileSystem}.

(** [value && value.trim().length > 0] *)
Definition given (value : option string) : option string :=
  match value with Some v => if bool_decide (trim v = "") then None else Some v | None => None end.

Definition readKeyFromEnvOrFile (envValue envFilePath : option string) : result (option string) :=
  match given envValue with
  | Some v => Ok (Some (unescape_newlines v))
  | None =>
      match given envFilePath with
      | Some p =>
          let resolvedPath := if isAbsolute p then p else path_resolve p in
          text ← readFileSync resolvedPath; mret (Some text)
      | None => Ok None
      end
  end.

Definition MissingKey : exn :=
  JsError "Both JWT_PRIVATE_KEY/JWT_PUBLIC_KEY (or file variants) are required for RS256".
Definition MissingSecret : exn :=
  JsError "JWT_SECRET must be set and at least 32 characters when RS256 keys are not configured".

Definition buildAuthConfig (env : ProcessEnv) : result AuthConfig :=
  let accessTtl := default (default "15m" (truthy_str (JWT_EXPIRES_IN env))) (truthy_str (ACCESS_TOKEN_TTL env)) in
  let refreshTtl := default (default "7d" (truthy_str (REFRESH_TOKEN_EXPIRES_IN env))) (truthy_str (REFRESH_TOKEN_TTL env)) in
  privateKey ← readKeyFromEnvOrFile (JWT_PRIVATE_KEY env) (JWT_PRIVATE_KEY_FILE env);
  publicKey ← readKeyFromEnvOrFile (JWT_PUBLIC_KEY env) (JWT_PUBLIC_KEY_FILE env);
  match truthy_str privateKey, truthy_str publicKey with
  | Some private, Some public =>
      accessMs ← parseDurationToMs accessTtl "ACCESS_TOKEN_TTL";
      refreshMs ← parseDurationToMs refreshTtl "REFRESH_TOKEN_TTL";
      mret (mkAuthConfig accessTtl accessMs refreshTtl refreshMs "RS256" private public)
  | None, None =>
      match truthy_str (JWT_SECRET env) with
      | Some secret =>
          if bool_decide (String.length secret < 32)%nat then Throw MissingSecret else
          accessMs ← parseDurationToMs accessTtl "ACCESS_TOKEN_TTL";
          refreshMs ← parseDurationToMs refreshTtl "REFRESH_TOKEN_TTL";
          mret (mkAuthConfig accessTtl accessMs refreshTtl refreshMs "HS256" secret secret)
      | None => Throw MissingSecret
      end
  | _, _ => Throw MissingKey
  end.
End config.

(** ** What a configuration that was accepted guarantees *)

Lemma truthy_str_Some s t : truthy_str s = Some t → s = Some t ∧ t ≠ "".
Proof. destruct s as [u|]; simpl; [|done]. case_bool_decide; [done|]. by intros [= ->]. Qed.

Lemma match_duration_digits value d u : match_duration value = Some (d, u) →
  value = d +:+ String u "" ∧ d ≠ "" ∧ all_chars is_digit d ∧ is_Some (durationUnitInMs u).
Proof.
  revert d. induction value as [|c s IH]; intros d; [done|]. destruct s as [|c' s'].
  { simpl. by destruct (is_digit c). }
  assert (match_duration (String c (String c' s')) =
    match s' with
    | EmptyString => if is_digit c && bool_decide (is_Some (durationUnitInMs c')) then Some (String c "", c') else None
    | _ => if is_digit c then (λ m, (String c m.1, m.2)) <$> match_duration (String c' s') else None
    end) as -> by (by destruct s').
  assert (∀ m, (λ m : string * ascii, (String c m.1, m.2)) <$> m = Some (d, u) → is_digit c → m = match_duration (String c' s') →
    String c (String c' s') = d +:+ String u "" ∧ d ≠ "" ∧ all_chars is_digit d ∧ is_Some (durationUnitInMs u)) as Hrec.
  { intros [[d' u']|]; [|done]. intros [= <- <-] Hc E. destruct (IH d') as (Hv & ? & ? & ?); [done|].
    rewrite app_cons, <- Hv. split_and!; [done..| |done]. simpl. by rewrite andb_True. }
  destruct s' as [|c'' s''].
  - destruct (is_digit c) eqn:Hc; simpl; [|done]. case_bool_decide; [|done]. intros [= <- <-].
    split_and!; [done..| |done]. simpl. by rewrite Hc.
  - destruct (is_digit c) eqn:Hc; [|done]. intros E. by apply (Hrec _ E).
Qed.

(** A text of digits and a unit, and the milliseconds it stands for. *)
Definition lifetime (value : string) (ms : Z) : Prop :=
  ∃ d u k, value = d +:+ String u "" ∧ d ≠ "" ∧ all_chars is_digit d ∧ durationUnitInMs u = Some k ∧
    ms = number_from 0 d * k ∧ 0 ≤ ms.

Lemma parseDuration_ok value name ms : parseDurationToMs value name = Ok ms → lifetime value ms.
Proof.
  unfold parseDurationToMs, lifetime. destruct (match_duration value) as [[d u]|] eqn:Hm; [|done]. intros [= <-].
  apply match_duration_digits in Hm as (? & ? & Hd & [k Hk]). exists d, u, k. rewrite Hk. split_and!; try done.
  simpl. pose proof (number_from_nonneg d 0 ltac:(lia) Hd).
  assert (0 < k) by (unfold durationUnitInMs in Hk; repeat case_match; simplify_eq; lia). nia.
Qed.

Lemma config_with_lifetimes accessTtl refreshTtl al sk vk c :
  (accessMs ← parseDurationToMs accessTtl "ACCESS_TOKEN_TTL";
   refreshMs ← parseDurationToMs refreshTtl "REFRESH_TOKEN_TTL";
   mret (mkAuthConfig accessTtl accessMs refreshTtl refreshMs al sk vk)) = Ok c →
  jwtAlgorithm c = al ∧ signingKey c = sk ∧ verificationKey c = vk ∧
  lifetime (accessTokenTtl c) (accessTokenTtlMs c) ∧ lifetime (refreshTokenTtl c) (refreshTokenTtlMs c).
Proof.
  destruct (parseDurationToMs accessTtl _) as [m1|] eqn:H1; [|done]. cbn.
  destruct (parseDurationToMs refreshTtl _) as [m2|] eqn:H2; [|done]. cbn. intros [= <-].
  split_and!; [done..| |]; by eapply parseDuration_ok.
Qed.

(** An environment is accepted only with usable keys: either two non-empty
    keys and the algorithm RS256, or one shared secret of at least 32
    characters and HS256; and both lifetimes are then a decimal number with a
    unit, converted to a non-negative number of milliseconds. *)
Theorem auth_config_sound `{FileSystem} env c : buildAuthConfig env = Ok c →
  ((jwtAlgorithm c = "RS256" ∧ signingKey c ≠ "" ∧ verificationKey c ≠ "") ∨
   (jwtAlgorithm c = "HS256" ∧ signingKey c = verificationKey c ∧ JWT_SECRET env = Some (signingKey c) ∧
    (32 ≤ String.length (signingKey c))%nat)) ∧
  lifetime (accessTokenTtl c) (accessTokenTtlMs c) ∧ lifetime (refreshTokenTtl c) (refreshTokenTtlMs c).
Proof.
  unfold buildAuthConfig. intros Hc.
  destruct (readKeyFromEnvOrFile (JWT_PRIVATE_KEY env) _) as [pk|]; [|done]. cbn in Hc.
  destruct (readKeyFromEnvOrFile (JWT_PUBLIC_KEY env) _) as [pb|]; [|done]. cbn in Hc.
  destruct (truthy_str pk) as [k1|] eqn:E1, (truthy_str pb) as [k2|] eqn:E2; try done.
  - apply config_with_lifetimes in Hc as (-> & -> & -> & Ht). split; [|done]. left.
    by apply truthy_str_Some in E1 as [_ ?], E2 as [_ ?].
  - destruct (truthy_str (JWT_SECRET env)) as [sec|] eqn:Es; [|done]. case_bool_decide as Hl; [done|].
    apply config_with_lifetimes in Hc as (-> & -> & -> & Ht). split; [|done]. right.
    apply truthy_str_Some in Es as [? _]. split_and!; [done..|lia].
Qed.

(** An environment with a shared secret and the default lifetimes. *)
Definition no_files : FileSystem := Build_FileSystem (λ _, Throw (JsError "ENOENT")) (λ _, true) (λ p, p).
Definition secret_env : ProcessEnv :=
  mkProcessEnv None None None (Some "12h") None None None None (Some "0123456789abcdef0123456789abcdef").

Lemma auth_config_sound_witness : ∃ c, @buildAuthConfig no_files secret_env = Ok c ∧ refreshTokenTtlMs c = 43200000 ∧
  (32 ≤ String.length (signingKey c))%nat.
Proof.
  eexists. split; [reflexivity|]. split; [reflexivity|].
  destruct (@auth_config_sound no_files secret_env _ eq_refl) as [[(E & _)|(_ & _ & _ & Hl)] _]; [discriminate E|exact Hl].
Defined.
