(* ===== verification/Wallet.v ===== *)
(** * The wallet ledger: [server/src/services/wallet.service.ts]

    Balances per user and currency, escrow, and the journal of wallet
    transactions.  Each public method is one [transaction] over the tables
    [ledger] and [walletTransaction]; amounts are in units of 10^-7 (the
    resolution of the columns), sums go through the rounding of [DecimalJs] and
    every stored value must fit its column. *)

From stdpp Require Import prelude gmap strings list pretty sorting.
From S2P Require Import Prelude Prisma.

(** ** Data *)

Inductive Currency := XLM | USDC | AX.

Inductive TransactionType :=
| CREDIT | DEBIT | ESCROW_LOCK | ESCROW_RELEASE | ESCROW_SLASH
| PLATFORM_FEE | PRIZE_POOL_FUND.

#[export] Instance Currency_eq_dec : EqDecision Currency.
Proof. solve_decision. Defined.
#[export] Instance TransactionType_eq_dec : EqDecision TransactionType.
Proof. solve_decision. Defined.

Inductive LedgerKey :=
| xlmBalance | usdcBalance | axBalance
| xlmEscrowed | usdcEscrowed | axEscrowed.

#[export] Instance LedgerKey_eq_dec : EqDecision LedgerKey.
Proof. solve_decision. Defined.

Definition balanceKey (currency : Currency) : LedgerKey :=
  match currency with XLM => xlmBalance | USDC => usdcBalance | AX => axBalance end.

Definition escrowKey (currency : Currency) : LedgerKey :=
  match currency with XLM => xlmEscrowed | USDC => usdcEscrowed | AX => axEscrowed end.

(** A row of the table [Ledger]: its owner and its six decimal columns. *)
Record Ledger := mkLedger {
  ledger_userId : string;
  column : LedgerKey → Z;
}.

Definition set_column (k : LedgerKey) (v : Z) (l : Ledger) : Ledger :=
  mkLedger (ledger_userId l) (λ k', if decide (k' = k) then v else column l k').

Record WalletTransaction := mkWalletTransaction {
  tx_id : string;
  tx_userId : string;
  idempotencyKey : string;
  type : TransactionType;
  currency : Currency;
  amount : Z;
  balanceBefore : Z;
  balanceAfter : Z;
  escrowBefore : Z;
  escrowAfter : Z;
  matchId : option string;
  note : option string;
  createdAt : Z;
}.

Record DB := mkDB {
  users : gset string;
  ledger : gmap string Ledger;
  walletTransaction : list WalletTransaction;
  serial : nat;
}.

Section ops.
Context `{Prisma} `{DecimalJs}.

(** ** Queries on the two tables *)

Definition ledger_findUnique (userId : string) : M DB (option Ledger) :=
  gets (λ db, ledger db !! userId).

(** [ledger.create({ data: { userId } })]: [userId] is unique and references
    a user; the decimal columns default to 0. *)
Definition ledger_create (userId : string) : M DB Ledger :=
  db ← get;
  if decide (userId ∉ users db) then throw ForeignKeyViolation else
  if decide (is_Some (ledger db !! userId)) then throw UniqueViolation else
  let row := mkLedger userId (λ _, 0) in
  _ ← put (mkDB (users db) (<[userId := row]> (ledger db)) (walletTransaction db) (S (serial db)));
  mret row.

(** [ledger.update({ where: { userId }, data })] *)
Definition ledger_update (userId : string) (data : list (LedgerKey * Z)) : M DB unit :=
  db ← get;
  match ledger db !! userId with
  | None => throw RecordNotFound
  | Some row =>
      if forallb (λ kv, dec_fits kv.2) data then
        let row' := foldl (λ r kv, set_column kv.1 kv.2 r) row data in
        put (mkDB (users db) (<[userId := row']> (ledger db)) (walletTransaction db) (serial db))
      else throw ValueOutOfRange
  end.

Definition tx_find (key : string) (txs : list WalletTransaction) : option WalletTransaction :=
  List.find (λ t, bool_decide (idempotencyKey t = key)) txs.

Definition walletTransaction_findUnique (key : string) : M DB (option WalletTransaction) :=
  gets (λ db, tx_find key (walletTransaction db)).

Definition walletTransaction_create (userId key : string) (ty : TransactionType)
    (cur : Currency) (amt bBefore bAfter eBefore eAfter : Z)
    (match_ note_ : option string) : M DB WalletTransaction :=
  db ← get;
  if decide (userId ∉ users db) then throw ForeignKeyViolation else
  if tx_find key (walletTransaction db) is Some _ then throw UniqueViolation else
  if forallb dec_fits [amt; bBefore; bAfter; eBefore; eAfter] then
    let row := mkWalletTransaction (uuid (serial db)) userId key ty cur amt
                 bBefore bAfter eBefore eAfter match_ note_ (db_now (serial db)) in
    _ ← put (mkDB (users db) (ledger db) (walletTransaction db ++ [row]) (S (serial db)));
    mret row
  else throw ValueOutOfRange.

(** ** The service *)

Definition _getOrCreateLedgerTx (userId : string) : M DB Ledger :=
  existing ← ledger_findUnique userId;
  match existing with
  | Some row => mret row
  | None => ledger_create userId
  end.

Definition getOrCreateLedger (userId : string) : M DB Ledger :=
  transaction (
    existing ← ledger_findUnique userId;
    match existing with
    | Some row => mret row
    | None => ledger_create userId
    end).

Definition currencyName (cur : Currency) : string :=
  match cur with XLM => "XLM" | USDC => "USDC" | AX => "AX" end.

Definition _applyTransaction (userId : string) (cur : Currency) (amt : Z)
    (key : string) (ty : TransactionType) (note_ : option string) : M DB WalletTransaction :=
  transaction (
    existing ← walletTransaction_findUnique key;
    match existing with
    | Some t => mret t
    | None =>
        row ← _getOrCreateLedgerTx userId;
        let bKey := balanceKey cur in
        let eKey := escrowKey cur in
        let available := column row bKey in
        let escrowed := column row eKey in
        if bool_decide (ty = DEBIT) && dec_lessThan available amt
        then throw (HttpError 400 ("Insufficient " +:+ currencyName cur +:+ " balance"))
        else
        let newBalance := if decide (ty = CREDIT) then dec_plus available amt
                          else dec_minus available amt in
        _ ← ledger_update userId [(bKey, newBalance)];
        walletTransaction_create userId key ty cur amt available newBalance
          escrowed escrowed None note_
    end).

Definition credit (userId : string) (cur : Currency) (amt : Z) (key : string)
    (note_ : option string) : M DB WalletTransaction :=
  _applyTransaction userId cur amt key CREDIT note_.

Definition debit (userId : string) (cur : Currency) (amt : Z) (key : string)
    (note_ : option string) : M DB WalletTransaction :=
  _applyTransaction userId cur amt key DEBIT note_.

Definition lockFundsToEscrow (userId : string) (cur : Currency) (amt : Z)
    (match_ key : string) : M DB WalletTransaction :=
  transaction (
    existing ← walletTransaction_findUnique key;
    match existing with
    | Some t => mret t
    | None =>
        row ← _getOrCreateLedgerTx userId;
        let bKey := balanceKey cur in
        let eKey := escrowKey cur in
        let available := column row bKey in
        let escrowed := column row eKey in
        if dec_lessThan available amt
        then throw (HttpError 400 ("Insufficient " +:+ currencyName cur +:+ " balance for escrow"))
        else
        let newBalance := dec_minus available amt in
        let newEscrow := dec_plus escrowed amt in
        _ ← ledger_update userId [(bKey, newBalance); (eKey, newEscrow)];
        walletTransaction_create userId key ESCROW_LOCK cur amt available newBalance
          escrowed newEscrow (Some match_) None
    end).

Definition releaseEscrow (userId : string) (cur : Currency) (amt : Z)
    (match_ key : string) : M DB WalletTransaction :=
  transaction (
    existing ← walletTransaction_findUnique key;
    match existing with
    | Some t => mret t
    | None =>
        row ← _getOrCreateLedgerTx userId;
        let bKey := balanceKey cur in
        let eKey := escrowKey cur in
        let available := column row bKey in
        let escrowed := column row eKey in
        if dec_lessThan escrowed amt
        then throw (HttpError 400 ("Insufficient " +:+ currencyName cur +:+ " escrowed funds to release"))
        else
        let newBalance := dec_plus available amt in
        let newEscrow := dec_minus escrowed amt in
        _ ← ledger_update userId [(bKey, newBalance); (eKey, newEscrow)];
        walletTransaction_create userId key ESCROW_RELEASE cur amt available newBalance
          escrowed newEscrow (Some match_) None
    end).

Definition slashEscrow (userId : string) (cur : Currency) (amt : Z)
    (match_ key : string) (note_ : option string) : M DB WalletTransaction :=
  transaction (
    existing ← walletTransaction_findUnique key;
    match existing with
    | Some t => mret t
    | None =>
        row ← _getOrCreateLedgerTx userId;
        let bKey := balanceKey cur in
        let eKey := escrowKey cur in
        let available := column row bKey in
        let escrowed := column row eKey in
        if dec_lessThan escrowed amt
        then throw (HttpError 400 ("Insufficient " +:+ currencyName cur +:+ " escrowed funds to slash"))
        else
        let newEscrow := dec_minus escrowed amt in
        _ ← ledger_update userId [(eKey, newEscrow)];
        walletTransaction_create userId key ESCROW_SLASH cur amt available available
          escrowed newEscrow (Some match_) note_
    end).

Definition internalTransfer (fromUserId toUserId : string) (cur : Currency) (amt : Z)
    (ty : TransactionType) (key : string) (note_ : option string) : M DB WalletTransaction :=
  transaction (
    existing ← walletTransaction_findUnique (key +:+ ":debit");
    match existing with
    | Some t => mret t
    | None =>
        let bKey := balanceKey cur in
        let eKey := escrowKey cur in
        fromLedger ← _getOrCreateLedgerTx fromUserId;
        toLedger ← _getOrCreateLedgerTx toUserId;
        let fromAvailable := column fromLedger bKey in
        if dec_lessThan fromAvailable amt
        then throw (HttpError 400 ("Insufficient " +:+ currencyName cur +:+ " balance for transfer"))
        else
        let fromNewBalance := dec_minus fromAvailable amt in
        let toAvailable := column toLedger bKey in
        let toNewBalance := dec_plus toAvailable amt in
        _ ← ledger_update fromUserId [(bKey, fromNewBalance)];
        _ ← ledger_update toUserId [(bKey, toNewBalance)];
        _ ← walletTransaction_create fromUserId (key +:+ ":debit") ty cur amt
              fromAvailable fromNewBalance (column fromLedger eKey) (column fromLedger eKey)
              None note_;
        walletTransaction_create toUserId (key +:+ ":credit") CREDIT cur amt
          toAvailable toNewBalance (column toLedger eKey) (column toLedger eKey) None note_
    end).

(** [getTransactionHistory(userId, currency?)], newest first *)
Definition getTransactionHistory (userId : string) (cur : option Currency)
    : M DB (list WalletTransaction) :=
  gets (λ db,
    order_by (λ a b, bool_decide (createdAt b ≤ createdAt a))
      (List.filter (λ t, bool_decide (tx_userId t = userId) &&
                         match cur with Some c => bool_decide (currency t = c) | None => true end)
                   (walletTransaction db))).
End ops.

(** ** What one journal entry does to the tables *)

Section effect.
Context `{Prisma} `{DecimalJs}.

(** The ledger row a method works on: the stored one, or the zero row it
    creates. *)
Definition row_of (db : DB) (u : string) : Ledger := default (mkLedger u (λ _, 0)) (ledger db !! u).

Definition balance_of (db : DB) (u : string) (c : Currency) : Z := column (row_of db u) (balanceKey c).
Definition escrow_of (db : DB) (u : string) (c : Currency) : Z := column (row_of db u) (escrowKey c).

(** [entry db db' t]: [db'] is [db] with the journal entry [t] appended and
    its new balance and escrow stored in the ledger row of its user. *)
Record entry (db db' : DB) (t : WalletTransaction) : Prop := {
  entry_user : tx_userId t ∈ users db;
  entry_users : users db' = users db;
  entry_ledger : ∃ row', ledger db' = <[tx_userId t := row']> (ledger db) ∧
    ledger_userId row' = ledger_userId (row_of db (tx_userId t)) ∧
    ∀ k, column row' k =
      if decide (k = balanceKey (currency t)) then balanceAfter t else
      if decide (k = escrowKey (currency t)) then escrowAfter t else
      column (row_of db (tx_userId t)) k;
  entry_journal : walletTransaction db' = walletTransaction db ++ [t];
  entry_fresh : tx_find (idempotencyKey t) (walletTransaction db) = None;
  entry_before : balanceBefore t = balance_of db (tx_userId t) (currency t);
  entry_escrow_before : escrowBefore t = escrow_of db (tx_userId t) (currency t);
  entry_fits : Z.abs (balanceAfter t) < dec_limit;
  entry_escrow_fits : Z.abs (escrowAfter t) < dec_limit;
}.

(** The fields of a journal entry the methods decide. *)
Definition tx_is (t : WalletTransaction) (u key : string) (ty : TransactionType)
    (c : Currency) (a bB bA eB eA : Z) : Prop :=
  tx_userId t = u ∧ idempotencyKey t = key ∧ type t = ty ∧ currency t = c ∧ amount t = a ∧
  balanceBefore t = bB ∧ balanceAfter t = bA ∧ escrowBefore t = eB ∧ escrowAfter t = eA.

(** A method either replays the entry recorded under its key, changing
    nothing, or records a new entry [t] with [P]. *)
Definition outcome (key : string) (db db' : DB) (t : WalletTransaction) (P : Prop) : Prop :=
  (tx_find key (walletTransaction db) = Some t ∧ db' = db) ∨
  (tx_find key (walletTransaction db) = None ∧ entry db db' t ∧ P).

Lemma balance_escrow_ne c c' : balanceKey c ≠ escrowKey c'.
Proof. by destruct c, c'. Qed.

Lemma balanceKey_inj c c' : balanceKey c = balanceKey c' → c = c'.
Proof. by destruct c, c'. Qed.

Lemma escrowKey_inj c c' : escrowKey c = escrowKey c' → c = c'.
Proof. by destruct c, c'. Qed.

Lemma set_columns_userId data row :
  ledger_userId (foldl (λ r kv, set_column kv.1 kv.2 r) row data) = ledger_userId row.
Proof. revert row. induction data as [|kv data IH]; intros row; simpl; [done|]. by rewrite IH. Qed.

(** The steps the methods share. *)
Lemma post_getOrCreate u db Q E :
  (u ∉ users db → ledger db !! u = None → E db ForeignKeyViolation) →
  (∀ db', users db' = users db → walletTransaction db' = walletTransaction db →
    ledger db' = <[u := row_of db u]> (ledger db) →
    (u ∈ users db ∨ ledger db !! u ≠ None) →
    Q db' (row_of db u)) →
  post (_getOrCreateLedgerTx u) db Q E.
Proof.
  intros HE HQ. unfold _getOrCreateLedgerTx, ledger_findUnique, ledger_create, row_of in *.
  m_step. m_step. destruct (ledger db !! u) as [row|] eqn:Hu.
  - m_step. apply HQ; auto. by rewrite insert_id.
  - m_step. m_step. case_decide; [m_step; auto|].
    rewrite decide_False by (rewrite Hu; apply is_Some_None).
    m_step. m_step. m_step. apply HQ; simpl; auto.
Qed.

Lemma post_ledger_update u data db row (Q : DB → unit → Prop) (E : DB → exn → Prop) :
  ledger db !! u = Some row →
  (forallb (λ kv, dec_fits kv.2) data = false → E db ValueOutOfRange) →
  (forallb (λ kv, dec_fits kv.2) data = true →
    Q (mkDB (users db) (<[u := foldl (λ r kv, set_column kv.1 kv.2 r) row data]> (ledger db))
          (walletTransaction db) (serial db)) tt) →
  post (ledger_update u data) db Q E.
Proof.
  intros Hu HE HQ. unfold ledger_update. m_step. m_step. rewrite Hu.
  destruct (forallb _ data) eqn:?; m_step; auto.
Qed.

Lemma post_tx_create u key ty c a bB bA eB eA m n db Q E :
  (¬ (u ∈ users db ∧ tx_find key (walletTransaction db) = None ∧
      Forall (λ z, Z.abs z < dec_limit) [a; bB; bA; eB; eA]) → ∀ e, E db e) →
  (∀ t, u ∈ users db → tx_find key (walletTransaction db) = None →
    Forall (λ z, Z.abs z < dec_limit) [a; bB; bA; eB; eA] →
    t = mkWalletTransaction (uuid (serial db)) u key ty c a bB bA eB eA m n (db_now (serial db)) →
    Q (mkDB (users db) (ledger db) (walletTransaction db ++ [t]) (S (serial db))) t) →
  post (walletTransaction_create u key ty c a bB bA eB eA m n) db Q E.
Proof.
  intros HE HQ. unfold walletTransaction_create. m_step. m_step.
  case_decide as Hu; [m_step; naive_solver|].
  destruct (tx_find key (walletTransaction db)) eqn:Hf; [m_step; naive_solver|].
  destruct (forallb dec_fits _) eqn:Hfit; repeat m_step.
  - apply HQ; auto. by apply dec_fits_Forall.
  - apply HE. intros (_ & _ & Hall). apply dec_fits_Forall in Hall. congruence.
Qed.

(** What the tables must accept for an entry to be recorded. *)
Definition storable (db : DB) (u : string) (vals : list Z) : Prop :=
  u ∈ users db ∧ Forall (λ z, Z.abs z < dec_limit) vals.

(** The tail every single-user method runs: store the new columns, append the
    journal entry. *)
Lemma post_entry db u key ty c a nb ne m n data (Q : DB → WalletTransaction → Prop) (E : DB → exn → Prop) :
  let row := row_of db u in
  let eB := column row (escrowKey c) in
  tx_find key (walletTransaction db) = None →
  (∀ k, column (foldl (λ r kv, set_column kv.1 kv.2 r) row data) k =
    if decide (k = balanceKey c) then nb else if decide (k = escrowKey c) then ne else column row k) →
  (Forall (λ kv, kv.2 = nb ∨ kv.2 = ne) data) →
  (∀ db' e, ¬ storable db u [a; column row (balanceKey c); nb; eB; ne] → E db' e) →
  (forallb (λ kv, dec_fits kv.2) data = true → Z.abs nb < dec_limit → Z.abs ne < dec_limit →
    ∀ db' t, entry db db' t →
      tx_is t u key ty c a (column row (balanceKey c)) nb eB ne → Q db' t) →
  ∀ db1, users db1 = users db → walletTransaction db1 = walletTransaction db →
    ledger db1 = <[u := row]> (ledger db) →
  post (_ ← ledger_update u data;
        walletTransaction_create u key ty c a (column row (balanceKey c)) nb eB ne m n)
    db1 Q E.
Proof.
  intros row eB Hf Hcol Hdata HE HQ db1 Hu1 Ht1 Hl1. m_step.
  apply (post_ledger_update _ _ _ row); [by rewrite Hl1, lookup_insert_eq| |].
  { intros Hfit. apply HE. intros [_ Hall]. rewrite !Forall_cons in Hall.
    assert (forallb (λ kv, dec_fits kv.2) data = true); [|congruence].
    apply forallb_forall. intros kv Hkv%list_elem_of_In. rewrite Forall_forall in Hdata.
    unfold dec_fits. apply bool_decide_eq_true. destruct (Hdata kv Hkv) as [-> | ->]; tauto. }
  intros Hfit. apply post_tx_create; simpl.
  { intros Hbad e. apply HE. intros [Hu Hall]. apply Hbad. by rewrite Hu1, Ht1. }
  intros t Hu Hf' Hall Ht. rewrite !Forall_cons in Hall. destruct Hall as (_&_&Hb&_&He&_).
  assert (ledger_userId (foldl (λ r kv, set_column kv.1 kv.2 r) row data) = ledger_userId row) as Hid.
  { apply set_columns_userId. }
  apply HQ; [done..| |by subst t]. subst t. split; simpl; try done.
  - by rewrite <- Hu1.
  - eexists. split; [|split; [exact Hid|exact Hcol]].
    by rewrite Hl1, insert_insert_eq.
  - by rewrite Ht1.
Qed.

(** The frame of a single-user method: replay, or find the row and go on. *)
Lemma post_method (E : exn → Prop) key db (k : M DB WalletTransaction) (P : WalletTransaction → Prop) u body :
  k = transaction (
    existing ← walletTransaction_findUnique key;
    match existing with
    | Some t => mret t
    | None => row ← _getOrCreateLedgerTx u; body row
    end) →
  (u ∉ users db → ledger db !! u = None → E ForeignKeyViolation) →
  (tx_find key (walletTransaction db) = None → ∀ db1,
    users db1 = users db → walletTransaction db1 = walletTransaction db →
    ledger db1 = <[u := row_of db u]> (ledger db) →
    post (body (row_of db u)) db1 (λ db' t, entry db db' t ∧ P t) (λ _ e, E e)) →
  post k db (λ db' t, outcome key db db' t (P t)) (λ db' e, db' = db ∧ E e).
Proof.
  intros -> HE Hbody. m_step. unfold walletTransaction_findUnique. m_step. m_step. cbv beta.
  destruct (tx_find key (walletTransaction db)) as [t|] eqn:Hf.
  - m_step. left. auto.
  - m_step. apply post_getOrCreate; [auto|]. intros db1 Hu1 Ht1 Hl1 _.
    eapply post_mono; [by apply Hbody| |auto].
    intros db' t [He Hp]. right. auto.
Qed.

(** Storing both columns of a currency. *)
Lemma set2_column c nb ne r k :
  column (foldl (λ r kv, set_column kv.1 kv.2 r) r [(balanceKey c, nb); (escrowKey c, ne)]) k =
    if decide (k = balanceKey c) then nb else if decide (k = escrowKey c) then ne else column r k.
Proof.
  simpl. pose proof (balance_escrow_ne c c). repeat case_decide; congruence.
Qed.

(** Storing the escrow column only. *)
Lemma set1_escrow c ne r k :
  column (foldl (λ r kv, set_column kv.1 kv.2 r) r [(escrowKey c, ne)]) k =
    if decide (k = balanceKey c) then column r (balanceKey c)
    else if decide (k = escrowKey c) then ne else column r k.
Proof.
  simpl. pose proof (balance_escrow_ne c c). repeat case_decide; congruence.
Qed.

(** A comparison that let a method pass, or stopped it. *)
Lemma dec_lessThan_false a b : dec_lessThan a b = false → b ≤ a.
Proof. unfold dec_lessThan. rewrite bool_decide_eq_false. lia. Qed.

Lemma dec_lessThan_true a b : dec_lessThan a b = true → a < b.
Proof. unfold dec_lessThan. by rewrite bool_decide_eq_true. Qed.

(** Why a method rejects a call that is not a replay: the funds [have] are
    below the amount, or the tables do not accept the new values. *)
Definition rejected (db : DB) (u : string) (a have : Z) (msg : string) (vals : list Z) (e : exn) : Prop :=
  (have < a ∧ e = HttpError 400 msg) ∨ ¬ storable db u vals.

Ltac method_tac :=
  apply (post_method (rejected _ _ _ _ _ _) _ _ _ (λ t, _) _ _ eq_refl);
  [intros Hu _; right; by intros [? _]|]; intros Hf db1 Hu1 Ht1 Hl1; cbv zeta.

(** The rejection by the tables, with the rounding removed. *)
Ltac reject_tac :=
  intros ? ? Hbad; right; intros Hst; apply Hbad; revert Hst; unfold storable, dec_plus, dec_minus;
  rewrite !Forall_cons, ?dec_abs_round; tauto.

Lemma credit_post u c a key n db :
  post (credit u c a key n) db
    (λ db' t, outcome key db db' t (
      tx_is t u key CREDIT c a (balance_of db u c) (balance_of db u c + a)
        (escrow_of db u c) (escrow_of db u c)))
    (λ db' e, db' = db ∧
      ¬ storable db u [a; balance_of db u c; balance_of db u c + a; escrow_of db u c; escrow_of db u c]).
Proof.
  apply (post_method (λ _, ¬ storable _ _ _) _ _ _ (λ t, _) _ _ eq_refl);
    [intros Hu _ [? _]; done|]. intros Hf db1 Hu1 Ht1 Hl1. cbv zeta.
  rewrite decide_True by done. simpl.
  apply (post_entry db); [done| |by repeat constructor| | |done..].
  - intros k. simpl. repeat case_decide; congruence.
  - intros ?? Hbad Hst. apply Hbad. revert Hst. unfold storable, dec_plus.
    rewrite !Forall_cons, ?dec_abs_round. tauto.
  - intros _ Hnb _ db' t He Ht. split; [done|]. unfold dec_plus in *. by rewrite (dec_round_id _ Hnb) in Ht.
Qed.

Lemma debit_post u c a key n db :
  post (debit u c a key n) db
    (λ db' t, outcome key db db' t (a ≤ balance_of db u c ∧
      tx_is t u key DEBIT c a (balance_of db u c) (balance_of db u c - a)
        (escrow_of db u c) (escrow_of db u c)))
    (λ db' e, db' = db ∧ rejected db u a (balance_of db u c)
      ("Insufficient " +:+ currencyName c +:+ " balance")
      [a; balance_of db u c; balance_of db u c - a; escrow_of db u c; escrow_of db u c] e).
Proof.
  method_tac. rewrite bool_decide_true by done. simpl. destruct (dec_lessThan _ a) eqn:Hlt.
  { m_step. left. split; [by apply dec_lessThan_true|done]. }
  apply dec_lessThan_false in Hlt.
  apply (post_entry db); [done| |by repeat constructor|reject_tac| |done..].
  - intros k. simpl. repeat case_decide; congruence.
  - intros _ Hnb _ db' t He Ht. split_and!; [done..|]. unfold dec_minus in *. by rewrite (dec_round_id _ Hnb) in Ht.
Qed.

Lemma lock_post u c a m key db :
  post (lockFundsToEscrow u c a m key) db
    (λ db' t, outcome key db db' t (a ≤ balance_of db u c ∧
      tx_is t u key ESCROW_LOCK c a (balance_of db u c) (balance_of db u c - a)
        (escrow_of db u c) (escrow_of db u c + a)))
    (λ db' e, db' = db ∧ rejected db u a (balance_of db u c)
      ("Insufficient " +:+ currencyName c +:+ " balance for escrow")
      [a; balance_of db u c; balance_of db u c - a; escrow_of db u c; escrow_of db u c + a] e).
Proof.
  method_tac. destruct (dec_lessThan _ a) eqn:Hlt.
  { m_step. left. split; [by apply dec_lessThan_true|done]. }
  apply dec_lessThan_false in Hlt.
  apply (post_entry db); [done|apply set2_column|rewrite !Forall_cons; auto|reject_tac| |done..].
  intros _ Hnb Hne db' t He Ht. split_and!; [done..|]. unfold dec_plus, dec_minus in *. by rewrite (dec_round_id _ Hnb), (dec_round_id _ Hne) in Ht.
Qed.

Lemma release_post u c a m key db :
  post (releaseEscrow u c a m key) db
    (λ db' t, outcome key db db' t (a ≤ escrow_of db u c ∧
      tx_is t u key ESCROW_RELEASE c a (balance_of db u c) (balance_of db u c + a)
        (escrow_of db u c) (escrow_of db u c - a)))
    (λ db' e, db' = db ∧ rejected db u a (escrow_of db u c)
      ("Insufficient " +:+ currencyName c +:+ " escrowed funds to release")
      [a; balance_of db u c; balance_of db u c + a; escrow_of db u c; escrow_of db u c - a] e).
Proof.
  method_tac. destruct (dec_lessThan _ a) eqn:Hlt.
  { m_step. left. split; [by apply dec_lessThan_true|done]. }
  apply dec_lessThan_false in Hlt.
  apply (post_entry db); [done|apply set2_column|rewrite !Forall_cons; auto|reject_tac| |done..].
  intros _ Hnb Hne db' t He Ht. split_and!; [done..|]. unfold dec_plus, dec_minus in *. by rewrite (dec_round_id _ Hnb), (dec_round_id _ Hne) in Ht.
Qed.

Lemma slash_post u c a m key n db :
  post (slashEscrow u c a m key n) db
    (λ db' t, outcome key db db' t (a ≤ escrow_of db u c ∧
      tx_is t u key ESCROW_SLASH c a (balance_of db u c) (balance_of db u c)
        (escrow_of db u c) (escrow_of db u c - a)))
    (λ db' e, db' = db ∧ rejected db u a (escrow_of db u c)
      ("Insufficient " +:+ currencyName c +:+ " escrowed funds to slash")
      [a; balance_of db u c; balance_of db u c; escrow_of db u c; escrow_of db u c - a] e).
Proof.
  method_tac. destruct (dec_lessThan _ a) eqn:Hlt.
  { m_step. left. split; [by apply dec_lessThan_true|done]. }
  apply dec_lessThan_false in Hlt.
  apply (post_entry db); [done|apply set1_escrow|rewrite !Forall_cons; auto|reject_tac| |done..].
  intros _ Hnb Hne db' t He Ht. split_and!; [done..|]. unfold dec_plus, dec_minus in *. by rewrite (dec_round_id _ Hne) in Ht.
Qed.

(** An internal transfer between two users is two entries in a row. *)
Definition transfer_outcome (key : string) (db db' : DB) (t : WalletTransaction) (P : DB → WalletTransaction → Prop) : Prop :=
  (tx_find (key +:+ ":debit") (walletTransaction db) = Some t ∧ db' = db) ∨
  (tx_find (key +:+ ":debit") (walletTransaction db) = None ∧
    ∃ db1 t1, entry db db1 t1 ∧ entry db1 db' t ∧ P db1 t1).

Lemma transfer_post f g c a ty key n db :
  f ≠ g →
  post (internalTransfer f g c a ty key n) db
    (λ db' t, transfer_outcome key db db' t (λ _ t1,
      a ≤ balance_of db f c ∧
      tx_is t1 f (key +:+ ":debit") ty c a (balance_of db f c) (balance_of db f c - a)
        (escrow_of db f c) (escrow_of db f c) ∧
      tx_is t g (key +:+ ":credit") CREDIT c a (balance_of db g c) (balance_of db g c + a)
        (escrow_of db g c) (escrow_of db g c)))
    (λ db' _, db' = db).
Proof.
  intros Hfg. unfold internalTransfer, walletTransaction_findUnique. m_step. m_step. m_step.
  destruct (tx_find _ (walletTransaction db)) as [t|] eqn:Hf; [m_step; by left|].
  cbv zeta. m_step. apply post_getOrCreate; [done|]. intros db1 Hu1 Ht1 Hl1 _.
  m_step. apply post_getOrCreate; [done|]. intros db2 Hu2 Ht2 Hl2 _.
  assert (row_of db1 g = row_of db g) as Hg by (unfold row_of; by rewrite Hl1, lookup_insert_ne).
  rewrite Hg in *. clear Hg.
  destruct (dec_lessThan _ a) eqn:Hlt; [by m_step|]. apply dec_lessThan_false in Hlt.
  m_step. apply (post_ledger_update _ _ _ (row_of db f)); [|done|].
  { by rewrite Hl2, lookup_insert_ne, Hl1, lookup_insert_eq. }
  intros Hfit1. m_step. apply (post_ledger_update _ _ _ (row_of db g)); [|done|].
  { cbn [ledger]. by rewrite lookup_insert_ne, Hl2, lookup_insert_eq by done. }
  intros Hfit2. m_step. apply post_tx_create; [done|]. intros t1 Hu Hn1 Hall1 Et1.
  apply post_tx_create; [done|]. intros t Hug Hn2 Hall2 Et. cbn [users ledger walletTransaction serial] in *.
  assert (Hr : ∀ row', row_of (mkDB (users db) (<[f := row']> (ledger db)) (walletTransaction db ++ [t1]) 0) g = row_of db g).
  { intros. unfold row_of. simpl. by rewrite lookup_insert_ne. }
  rewrite !Forall_cons in Hall1, Hall2. destruct Hall1 as (_&_&Hb1&_&He1&_), Hall2 as (_&_&Hb2&_&He2&_).
  unfold dec_minus, dec_plus in *. clear Hfit1 Hfit2.
  pose proof (dec_round_id _ Hb1) as E1. rewrite E1 in *. pose proof (dec_round_id _ Hb2) as E2. rewrite E2 in *.
  right. split; [done|].
  exists (mkDB (users db) (<[f := set_column (balanceKey c) (column (row_of db f) (balanceKey c) - a) (row_of db f)]> (ledger db)) (walletTransaction db ++ [t1]) 0), t1.
  split_and!.
  - subst t1. split; simpl; try done; try (by rewrite <- Hu1, <- Hu2); try (by rewrite <- Ht1, <- Ht2).
    eexists. split_and!; [done..|]. intros k. simpl. repeat case_decide; congruence.
  - subst t1 t. split; simpl; try done.
    + by rewrite <- Hu1, <- Hu2.
    + by rewrite Hu2, Hu1.
    + exists (set_column (balanceKey c) (column (row_of db g) (balanceKey c) + a) (row_of db g)).
      rewrite Hr. split_and!; [|done|].
      * rewrite Hl2, Hl1. rewrite (insert_insert_ne _ f g) by done. by rewrite !insert_insert_eq.
      * intros k. simpl. repeat case_decide; congruence.
    + by rewrite Ht2, Ht1.
    + by rewrite Ht2, Ht1 in Hn2.
    + unfold balance_of. by rewrite Hr.
    + unfold escrow_of. by rewrite Hr.
  - done.
  - by subst t1.
  - by subst t.
Qed.
End effect.

(** ** Invariants of the ledger *)

(** What the journal says a column of a user's ledger holds: the sum of the
    changes of the entries of that user and currency. *)
Definition journal (f : WalletTransaction → Z) (u : string) (c : Currency)
    (txs : list WalletTransaction) : Z :=
  zsum (f <$> filter (λ t, tx_userId t = u ∧ currency t = c) txs).

Definition balance_change (t : WalletTransaction) : Z := balanceAfter t - balanceBefore t.
Definition escrow_change (t : WalletTransaction) : Z := escrowAfter t - escrowBefore t.

(** The books are sound: every row belongs to a user and holds values that fit its
    columns, idempotency keys are unique, and every balance and escrow is what the
    journal adds up to. *)
Record sound (db : DB) : Prop := {
  sound_user : ∀ u row, ledger db !! u = Some row → u ∈ users db;
  sound_fits : ∀ u k, Z.abs (column (row_of db u) k) < dec_limit;
  sound_keys : NoDup (idempotencyKey <$> walletTransaction db);
  sound_balance : ∀ u c, balance_of db u c = journal balance_change u c (walletTransaction db);
  sound_escrow : ∀ u c, escrow_of db u c = journal escrow_change u c (walletTransaction db);
}.

(** Nobody owes anything. *)
Definition solvent (db : DB) : Prop := ∀ u k, 0 ≤ column (row_of db u) k.

(** The ledger is well formed: the books are sound and nobody owes anything. *)
Record wf (db : DB) : Prop := { wf_sound : sound db; wf_solvent : solvent db }.

Lemma wf_bounds db : wf db → ∀ u k, 0 ≤ column (row_of db u) k < dec_limit.
Proof. intros [Hs Hn] u k. pose proof (sound_fits _ Hs u k). pose proof (Hn u k). lia. Qed.

(** Everything a currency holds, available or in escrow. *)
Definition supply (db : DB) (c : Currency) : Z :=
  map_zsum (λ row, column row (balanceKey c) + column row (escrowKey c)) (ledger db).

Lemma journal_snoc f u c txs t :
  journal f u c (txs ++ [t]) =
    journal f u c txs + (if decide (tx_userId t = u ∧ currency t = c) then f t else 0).
Proof.
  unfold journal. rewrite filter_app, fmap_app, zsum_app, filter_cons, filter_nil.
  case_decide; simpl; lia.
Qed.

Lemma tx_find_None key txs : tx_find key txs = None ↔ key ∉ idempotencyKey <$> txs.
Proof.
  unfold tx_find. induction txs as [|t txs IH]; simpl; [set_solver|].
  rewrite not_elem_of_cons, <- IH. case_bool_decide; naive_solver.
Qed.

Lemma tx_find_app key txs t :
  tx_find key (txs ++ [t]) =
    match tx_find key txs with
    | Some t' => Some t'
    | None => if decide (idempotencyKey t = key) then Some t else None
    end.
Proof.
  unfold tx_find. induction txs as [|t' txs IH]; simpl; [|by case_bool_decide].
  destruct (decide _); [by rewrite bool_decide_true|by rewrite bool_decide_false].
Qed.

Section entry.
Context (db db' : DB) (t : WalletTransaction) (He : entry db db' t).

Lemma entry_row_ne u : u ≠ tx_userId t → row_of db' u = row_of db u.
Proof.
  intros Hu. destruct (entry_ledger _ _ _ He) as (row' & Hl & _). unfold row_of.
  by rewrite Hl, lookup_insert_ne.
Qed.

Lemma entry_row_eq k :
  column (row_of db' (tx_userId t)) k =
    if decide (k = balanceKey (currency t)) then balanceAfter t else
    if decide (k = escrowKey (currency t)) then escrowAfter t else
    column (row_of db (tx_userId t)) k.
Proof.
  destruct (entry_ledger _ _ _ He) as (row' & Hl & _ & Hc). unfold row_of at 1.
  rewrite Hl, lookup_insert_eq. apply Hc.
Qed.

Lemma entry_balance u c :
  balance_of db' u c =
    balance_of db u c + (if decide (tx_userId t = u ∧ currency t = c) then balance_change t else 0).
Proof.
  unfold balance_of, balance_change. destruct (decide (tx_userId t = u)) as [<-|Hu].
  - rewrite entry_row_eq, (entry_before _ _ _ He). unfold balance_of.
    destruct (decide (currency t = c)) as [<-|Hc].
    + rewrite !decide_True by done. lia.
    + rewrite decide_False by (intros ?%balanceKey_inj; congruence).
      rewrite decide_False by apply balance_escrow_ne. rewrite decide_False by naive_solver. lia.
  - rewrite entry_row_ne by done. rewrite decide_False by naive_solver. lia.
Qed.

Lemma entry_escrow u c :
  escrow_of db' u c =
    escrow_of db u c + (if decide (tx_userId t = u ∧ currency t = c) then escrow_change t else 0).
Proof.
  unfold escrow_of, escrow_change. destruct (decide (tx_userId t = u)) as [<-|Hu].
  - rewrite entry_row_eq, (entry_escrow_before _ _ _ He). unfold escrow_of.
    rewrite decide_False by (intros E; by apply (balance_escrow_ne (currency t) c)).
    destruct (decide (currency t = c)) as [<-|Hc].
    + rewrite !decide_True by done. lia.
    + rewrite decide_False by (intros ?%escrowKey_inj; congruence).
      rewrite decide_False by naive_solver. lia.
  - rewrite entry_row_ne by done. rewrite decide_False by naive_solver. lia.
Qed.

(** An entry keeps the books sound. *)
Lemma entry_sound : sound db → sound db'.
Proof.
  intros Hwf. split.
  - intros u row Hu. rewrite (entry_users _ _ _ He).
    destruct (entry_ledger _ _ _ He) as (row' & Hl & _). rewrite Hl in Hu.
    apply lookup_insert_Some in Hu as [[<- _]|[_ Hu]]; [apply He|by eapply sound_user].
  - intros u k. destruct (decide (u = tx_userId t)) as [->|Hu].
    + rewrite entry_row_eq. pose proof (entry_fits _ _ _ He). pose proof (entry_escrow_fits _ _ _ He).
      repeat case_decide; [lia|lia|by apply sound_fits].
    + rewrite entry_row_ne by done. by apply sound_fits.
  - rewrite (entry_journal _ _ _ He), fmap_app. apply NoDup_app. split_and!.
    + by apply sound_keys.
    + pose proof (entry_fresh _ _ _ He) as Hf. rewrite tx_find_None in Hf. set_solver.
    + apply NoDup_singleton.
  - intros u c. rewrite entry_balance, (entry_journal _ _ _ He), journal_snoc.
    by rewrite (sound_balance _ Hwf).
  - intros u c. rewrite entry_escrow, (entry_journal _ _ _ He), journal_snoc.
    by rewrite (sound_escrow _ Hwf).
Qed.

(** An entry that leaves non-negative columns makes no debt. *)
Lemma entry_solvent : solvent db → 0 ≤ balanceAfter t → 0 ≤ escrowAfter t → solvent db'.
Proof.
  intros Hwf Hb Hs u k. destruct (decide (u = tx_userId t)) as [->|Hu].
  - rewrite entry_row_eq. repeat case_decide; [lia|lia|by apply Hwf].
  - rewrite entry_row_ne by done. by apply Hwf.
Qed.

Lemma entry_supply c :
  supply db' c = supply db c +
    (if decide (currency t = c) then balance_change t + escrow_change t else 0).
Proof.
  unfold supply. destruct (entry_ledger _ _ _ He) as (row' & Hl & _ & Hcol).
  rewrite Hl, map_zsum_insert, !Hcol.
  assert (from_option (λ row, column row (balanceKey c) + column row (escrowKey c)) 0
            (ledger db !! tx_userId t) = balance_of db (tx_userId t) c + escrow_of db (tx_userId t) c) as ->.
  { unfold balance_of, escrow_of, row_of. by destruct (ledger db !! _). }
  unfold balance_change, escrow_change. rewrite (entry_before _ _ _ He), (entry_escrow_before _ _ _ He).
  unfold balance_of, escrow_of.
  rewrite (decide_False (P := balanceKey c = escrowKey _)) by apply balance_escrow_ne.
  rewrite (decide_False (P := escrowKey c = balanceKey _)) by (intros E; by eapply balance_escrow_ne).
  destruct (decide (currency t = c)) as [<-|Hc].
  - rewrite !decide_True by done. lia.
  - rewrite !decide_False by (intros E; first [apply balanceKey_inj in E|apply escrowKey_inj in E]; congruence). lia.
Qed.
End entry.

(** ** What the wallet guarantees

    The theorems about [wallet.service.ts]: the ledger stays well formed under
    every sequence of calls, replays change nothing, money is only created and
    destroyed where it should be, and what each method does on every branch. *)

(** ** Calls as steps *)

Inductive wallet_op :=
| OpLedger (u : string)
| OpCredit (u : string) (c : Currency) (a : Z) (key : string) (n : option string)
| OpDebit (u : string) (c : Currency) (a : Z) (key : string) (n : option string)
| OpLock (u : string) (c : Currency) (a : Z) (m key : string)
| OpRelease (u : string) (c : Currency) (a : Z) (m key : string)
| OpSlash (u : string) (c : Currency) (a : Z) (m key : string) (n : option string)
| OpTransfer (f g : string) (c : Currency) (a : Z) (ty : TransactionType) (key : string) (n : option string).

(** The methods check neither of these: that the amount is not negative, and that
    a transfer is between two users. *)
Definition op_amount (op : wallet_op) : Z :=
  match op with
  | OpLedger _ => 0
  | OpCredit _ _ a _ _ | OpDebit _ _ a _ _ | OpLock _ _ a _ _ | OpRelease _ _ a _ _ | OpSlash _ _ a _ _ _ | OpTransfer _ _ _ a _ _ _ => a
  end.
Definition self_transfer (op : wallet_op) : bool := match op with OpTransfer f g _ _ _ _ _ => bool_decide (f = g) | _ => false end.

(** What a call that is not a replay adds to the supply of a currency. *)
Definition op_minted (op : wallet_op) (c : Currency) : Z :=
  match op with
  | OpCredit _ c' a _ _ => if decide (c' = c) then a else 0
  | OpDebit _ c' a _ _ | OpSlash _ c' a _ _ _ => if decide (c' = c) then - a else 0
  | OpTransfer f g c' a _ _ _ => if bool_decide (f = g) then if decide (c' = c) then a else 0 else 0
  | _ => 0
  end.

(** What entries of the journal add to the holdings in a currency. *)
Definition recorded (c : Currency) (txs : list WalletTransaction) : Z :=
  zsum ((λ t, if decide (currency t = c) then balance_change t + escrow_change t else 0) <$> txs).

Section spec.
Context `{Prisma} `{DecimalJs}.

Definition run_op (op : wallet_op) : M DB (option WalletTransaction) :=
  match op with
  | OpLedger u => _ ← getOrCreateLedger u; mret None
  | OpCredit u c a key n => t ← credit u c a key n; mret (Some t)
  | OpDebit u c a key n => t ← debit u c a key n; mret (Some t)
  | OpLock u c a m key => t ← lockFundsToEscrow u c a m key; mret (Some t)
  | OpRelease u c a m key => t ← releaseEscrow u c a m key; mret (Some t)
  | OpSlash u c a m key n => t ← slashEscrow u c a m key n; mret (Some t)
  | OpTransfer f g c a ty key n => t ← internalTransfer f g c a ty key n; mret (Some t)
  end.

(** Calls one after the other, whether they return or throw. *)
Definition run_ops (ops : list wallet_op) (db : DB) : DB := foldl (λ db op, (run_op op db).1) db ops.

(** A call changes nothing, creates an empty ledger row, or appends one or two
    journal entries; as long as amounts are not negative it makes no debt.  A
    transfer to oneself is apart: its entries cancel out, its ledger row does not. *)
Inductive effect (op : wallet_op) (db db' : DB) : Prop :=
| effect_none : db' = db → effect op db db'
| effect_row u : op = OpLedger u → u ∈ users db → ledger db !! u = None →
    db' = mkDB (users db) (<[u := mkLedger u (λ _, 0)]> (ledger db)) (walletTransaction db) (S (serial db)) →
    effect op db db'
| effect_one t : entry db db' t → self_transfer op = false →
    (0 ≤ op_amount op → solvent db → 0 ≤ balanceAfter t ∧ 0 ≤ escrowAfter t) →
    (∀ c, (if decide (currency t = c) then balance_change t + escrow_change t else 0) = op_minted op c) →
    effect op db db'
| effect_two db1 t1 t : entry db db1 t1 → entry db1 db' t → self_transfer op = false →
    (0 ≤ op_amount op → solvent db → (0 ≤ balanceAfter t1 ∧ 0 ≤ escrowAfter t1) ∧ 0 ≤ balanceAfter t ∧ 0 ≤ escrowAfter t) →
    currency t1 = currency t →
    balance_change t1 + escrow_change t1 + (balance_change t + escrow_change t) = 0 →
    (∀ c, op_minted op c = 0) →
    effect op db db'
| effect_self t1 t : self_transfer op = true → walletTransaction db' = walletTransaction db ++ [t1; t] →
    (∀ c, recorded c [t1; t] = 0 ∧ supply db' c = supply db c + op_minted op c) →
    effect op db db'.

Lemma post_call {A} (m : M DB A) (k : A → option WalletTransaction) db Q (E : DB → exn → Prop) (P : DB → Prop) :
  post m db Q E → (∀ db' e, E db' e → db' = db) → P db → (∀ db' a, Q db' a → P db') →
  post (a ← m; mret (k a)) db (λ db' _, P db') (λ db' _, P db').
Proof.
  intros Hm HE Hdb HP. m_step. eapply post_mono; [exact Hm| |].
  - intros db' a Ha. m_step. eauto.
  - by intros db' e ->%HE.
Qed.

Lemma post_getOrCreateLedger u db :
  post (getOrCreateLedger u) db
    (λ db' _, effect (OpLedger u) db db') (λ db' _, db' = db).
Proof.
  unfold getOrCreateLedger, ledger_findUnique, ledger_create. do 3 m_step.
  destruct (ledger db !! u) as [row|] eqn:Hu; [m_step; by constructor 1|].
  do 2 m_step. case_decide as Hus; [by m_step|].
  rewrite decide_False by (rewrite Hu; apply is_Some_None).
  repeat m_step. econstructor 2; [done..|]. done.
Qed.

Ltac solvency u c :=
  let Hok := fresh "Hok" in let Hs := fresh "Hs" in
  intros Hok Hs; pose proof (Hs u (balanceKey c)); pose proof (Hs u (escrowKey c)); unfold balance_of, escrow_of in *; cbn [op_amount] in Hok; try lia.

Ltac op_tac lem :=
  eapply post_call; [apply lem|by intros ?? []|by constructor 1|];
  intros db' t [[_ ->]|(_ & He & Hp & Ht)]; [by constructor 1|];
  destruct Ht as (Eu&_&_&Ec&_&Eb&Ea&Eeb&Eea).

(** What a transfer to oneself does: both rows are read before either is written. *)
Lemma self_transfer_post u c a ty key n db :
  post (internalTransfer u u c a ty key n) db (λ db' _, effect (OpTransfer u u c a ty key n) db db') (λ db' _, db' = db).
Proof.
  unfold internalTransfer, walletTransaction_findUnique. do 3 m_step.
  destruct (tx_find _ (walletTransaction db)) as [t|] eqn:Hf; [m_step; by constructor 1|]. cbv zeta.
  m_step. apply post_getOrCreate; [done|]. intros db1 Hu1 Ht1 Hl1 _.
  assert (row_of db1 u = row_of db u) as Hr by (unfold row_of; by rewrite Hl1, lookup_insert_eq).
  m_step. apply post_getOrCreate; [done|]. intros db2 Hu2 Ht2 Hl2 _. rewrite Hr in *.
  destruct (dec_lessThan _ a); [by m_step|].
  m_step. apply (post_ledger_update _ _ _ (row_of db u)); [by rewrite Hl2, lookup_insert_eq|done|]. intros _.
  m_step. eapply post_ledger_update; [apply lookup_insert_eq|done|]. intros _.
  m_step. apply post_tx_create; [done|]. intros t1 _ _ Hall1 E1. apply post_tx_create; [done|]. intros t2 _ _ Hall2 E2.
  rewrite !Forall_cons in Hall1, Hall2. destruct Hall1 as (_ & _ & Hb1 & _), Hall2 as (_ & _ & Hb2 & _). unfold dec_plus, dec_minus in *.
  pose proof (dec_round_id _ Hb1) as R1. pose proof (dec_round_id _ Hb2) as R2. cbn [users ledger walletTransaction serial] in *.
  apply (effect_self _ _ _ t1 t2); [by apply bool_decide_true|cbn; by rewrite Ht2, Ht1, <- (assoc_L (++))|]. intros c'. split.
  - subst t1 t2. unfold recorded, balance_change, escrow_change. cbn. rewrite R1, R2. repeat case_decide; lia.
  - unfold supply. cbn [ledger op_minted]. rewrite bool_decide_true by done. rewrite Hl2, Hl1, !insert_insert_eq, map_zsum_insert. cbn [column].
    assert (from_option (λ row, column row (balanceKey c') + column row (escrowKey c')) 0 (ledger db !! u) = balance_of db u c' + escrow_of db u c') as ->.
    { unfold balance_of, escrow_of, row_of. by destruct (ledger db !! _). }
    unfold balance_of, escrow_of. cbn. rewrite R2. rewrite !(decide_False (P := escrowKey _ = balanceKey _)) by (intros E; by eapply balance_escrow_ne).
    destruct (decide (c = c')) as [<-|Hc]; [rewrite !decide_True by done; lia|].
    rewrite !decide_False by (intros E; apply balanceKey_inj in E; congruence). lia.
Qed.

Lemma run_op_effect op db : post (run_op op) db (λ db' _, effect op db db') (λ db' _, effect op db db').
Proof.
  destruct op; unfold run_op; cbv beta iota.
  - eapply post_call; [apply post_getOrCreateLedger|done|by constructor 1|done].
  - eapply post_call; [apply credit_post|by intros ?? []|by constructor 1|].
    intros db' t [[_ ->]|(_ & He & Ht)]; [by constructor 1|].
    destruct Ht as (Eu&_&_&Ec&_&Eb&Ea&Eeb&Eea).
    econstructor 3; [done|done|solvency u c|].
    intros c'. unfold balance_change, escrow_change, op_minted. rewrite Ec. case_decide; lia.
  - op_tac debit_post. econstructor 3; [done|done|solvency u c|].
    intros c'. unfold balance_change, escrow_change, op_minted. rewrite Ec. case_decide; lia.
  - op_tac lock_post. econstructor 3; [done|done|solvency u c|].
    intros c'. unfold balance_change, escrow_change, op_minted. case_decide; lia.
  - op_tac release_post. econstructor 3; [done|done|solvency u c|].
    intros c'. unfold balance_change, escrow_change, op_minted. case_decide; lia.
  - op_tac slash_post. econstructor 3; [done|done|solvency u c|].
    intros c'. unfold balance_change, escrow_change, op_minted. rewrite Ec. case_decide; lia.
  - destruct (decide (f = g)) as [<-|Hfg].
    { eapply post_call; [apply self_transfer_post|done|by constructor 1|done]. }
    eapply post_call; [by apply transfer_post|done|by constructor 1|].
    intros db' t [[_ ->]|(_ & db1 & t1 & He1 & He2 & Hp & Ht1 & Ht)]; [by constructor 1|].
    destruct Ht1 as (_&_&_&Ec1&_&Eb1&Ea1&Eeb1&Eea1), Ht as (_&_&_&Ec&_&Eb&Ea&Eeb&Eea).
    econstructor 4; [done|done|by apply bool_decide_false| | | |].
    + solvency f c. pose proof (Hs g (balanceKey c)). pose proof (Hs g (escrowKey c)). lia.
    + congruence.
    + unfold balance_change, escrow_change. lia.
    + intros c'. unfold op_minted. by rewrite bool_decide_false.
Qed.

Lemma row_of_new db u v : ledger db !! u = None →
  row_of (mkDB (users db) (<[u := mkLedger u (λ _, 0)]> (ledger db)) (walletTransaction db) (S (serial db))) v = row_of db v.
Proof. intros Hn. unfold row_of. simpl. rewrite lookup_insert. case_decide; [subst; by rewrite Hn|done]. Qed.

Lemma row_sound db u : sound db → u ∈ users db → ledger db !! u = None →
  sound (mkDB (users db) (<[u := mkLedger u (λ _, 0)]> (ledger db)) (walletTransaction db) (S (serial db))).
Proof.
  intros Hwf Hu Hn. split; simpl; unfold balance_of, escrow_of.
  - intros v row Hv. apply lookup_insert_Some in Hv as [[<- _]|[_ Hv]]; [done|by eapply sound_user].
  - intros v k. rewrite row_of_new by done. by apply sound_fits.
  - by apply sound_keys.
  - intros. rewrite row_of_new by done. by apply sound_balance.
  - intros. rewrite row_of_new by done. by apply sound_escrow.
Qed.

Lemma effect_sound op db db' : self_transfer op = false → sound db → effect op db db' → sound db'.
Proof.
  intros Hd Hwf [->|u _ Hu Hn ->|t He _ _ _|db1 t1 t He1 He2 _ _ _ _ _|t1 t Hs _ _]; [done|by apply row_sound|..|congruence].
  - by eapply entry_sound.
  - eapply entry_sound; [done|by eapply entry_sound].
Qed.

Lemma effect_solvent op db db' : self_transfer op = false → 0 ≤ op_amount op → solvent db → effect op db db' → solvent db'.
Proof.
  intros Hd Ha Hwf [->|u _ Hu Hn ->|t He _ Hp _|db1 t1 t He1 He2 _ Hp _ _ _|t1 t Hs _ _]; [done|..|congruence].
  - intros v k. rewrite row_of_new by done. apply Hwf.
  - destruct (Hp Ha Hwf). by eapply entry_solvent.
  - destruct (Hp Ha Hwf) as [[??] [??]]. eapply entry_solvent; [done|by eapply entry_solvent|done|done].
Qed.

Lemma effect_supply op db db' c : effect op db db' → db' = db ∨
  supply db' c = supply db c + op_minted op c ∧
  ∃ new, walletTransaction db' = walletTransaction db ++ new ∧ recorded c new = if self_transfer op then 0 else op_minted op c.
Proof.
  intros [->|u -> Hu Hn ->|t He Hd Hs Hm|db1 t1 t He1 He2 Hd ? Ec Hz Hm|t1 t Hs Ht Hm]; [auto|right..].
  - split; [unfold supply; simpl; rewrite map_zsum_insert_None by done; simpl; lia|]. exists []. by rewrite app_nil_r.
  - split; [by rewrite (entry_supply _ _ _ He), Hm|]. exists [t]. rewrite (entry_journal _ _ _ He), Hd. split; [done|]. unfold recorded. cbn. rewrite Hm. lia.
  - split; [rewrite (entry_supply _ _ _ He2), (entry_supply _ _ _ He1), Hm, Ec; case_decide; lia|].
    exists [t1; t]. rewrite (entry_journal _ _ _ He2), (entry_journal _ _ _ He1), Hd, Hm, <- (assoc_L (++)). split; [done|].
    unfold recorded. cbn. rewrite Ec. case_decide; lia.
  - split; [apply Hm|]. exists [t1; t]. rewrite Hs. split; [done|apply Hm].
Qed.

Lemma run_effect op db : effect op db (run_op op db).1.
Proof. pose proof (run_op_effect op db) as Hp. unfold post in Hp. by destruct (run_op op db) as [db' [r|e]]. Qed.

(** The key a call is recorded under. *)
Definition op_key (op : wallet_op) : option string :=
  match op with
  | OpLedger _ => None
  | OpCredit _ _ _ key _ | OpDebit _ _ _ key _ | OpLock _ _ _ _ key
  | OpRelease _ _ _ _ key | OpSlash _ _ _ _ key _ => Some key
  | OpTransfer _ _ _ _ _ key _ => Some (key +:+ ":debit")
  end.

Lemma run_found op key t db :
  op_key op = Some key → tx_find key (walletTransaction db) = Some t →
  run_op op db = (db, Ok (Some t)).
Proof.
  intros Hk Hf. destruct op; simplify_eq/=;
    unfold credit, debit, _applyTransaction, lockFundsToEscrow, releaseEscrow, slashEscrow, internalTransfer,
      transaction, mbind, M_bind, walletTransaction_findUnique, gets; by rewrite Hf.
Qed.

Lemma entry_found db db' t : entry db db' t → tx_find (idempotencyKey t) (walletTransaction db') = Some t.
Proof.
  intros He. rewrite (entry_journal _ _ _ He), tx_find_app, (entry_fresh _ _ _ He). by rewrite decide_True.
Qed.

(** The entry a call returned or replayed is in the journal afterwards. *)
Lemma run_recorded op db db' r key :
  self_transfer op = false → op_key op = Some key → run_op op db = (db', Ok r) →
  ∃ t, tx_find key (walletTransaction db') = Some t ∧
    match op with OpTransfer _ _ _ _ _ _ _ => True | _ => r = Some t end.
Proof.
  intros Hok Hk Hrun.
  enough (post (run_op op) db (λ db' r, ∃ t, tx_find key (walletTransaction db') = Some t ∧
    match op with OpTransfer _ _ _ _ _ _ _ => True | _ => r = Some t end) (λ _ _, True)) as Hp
    by exact (post_ok _ _ _ _ _ _ Hrun Hp).
  clear Hrun. destruct op; simplify_eq/=; m_step; (eapply post_mono; [|intros ?? Hq; m_step; exact Hq|done]).
  6: { eapply post_mono; [apply transfer_post; exact (bool_decide_eq_false_1 _ Hok)| |done].
       intros db1 t [[Ht ->]|(_ & db2 & t1 & He1 & He2 & _ & (_&Ek&_) & _)]; [by eexists|].
       exists t1. split; [|done]. rewrite (entry_journal _ _ _ He2), tx_find_app, <- Ek.
       by rewrite (entry_found _ _ _ He1). }
  all: eapply post_mono; [first [apply credit_post|apply debit_post|apply lock_post|apply release_post|apply slash_post]| |done].
  all: intros db1 t [[Ht ->]|(_ & He & Hp)]; [by eexists|]; exists t; split; [|done].
  all: destruct_and?; unfold tx_is in *; destruct_and?; subst; by apply (entry_found _ _ _ He).
Qed.

Definition empty_db (us : gset string) : DB := mkDB us ∅ [] 0.

Lemma empty_wallet_wf us : wf (empty_db us).
Proof.
  assert (Hr : ∀ u, row_of (empty_db us) u = mkLedger u (λ _, 0)) by reflexivity.
  split; [split|].
  - intros u row Hu. cbn in Hu. by rewrite lookup_empty in Hu.
  - intros u k. rewrite Hr. cbn. unfold dec_limit. lia.
  - constructor.
  - intros u c. unfold balance_of. by rewrite Hr.
  - intros u c. unfold escrow_of. by rewrite Hr.
  - intros u k. by rewrite Hr.
Qed.

Lemma run_ops_sound ops db : Forall (λ op, self_transfer op = false) ops → sound db → sound (run_ops ops db).
Proof. intros Hd. revert db. induction Hd as [|op ops Hop _ IH]; intros db Hs; [done|]. apply IH. by eapply effect_sound, run_effect. Qed.

Lemma run_ops_solvent ops db : Forall (λ op, self_transfer op = false ∧ 0 ≤ op_amount op) ops → solvent db → solvent (run_ops ops db).
Proof. intros Hd. revert db. induction Hd as [|op ops [Hop Ha] _ IH]; intros db Hs; [done|]. apply IH. by eapply effect_solvent, run_effect. Qed.

(** C1: after any sequence of wallet calls without a transfer to oneself (failing
    calls included) from an empty ledger, every balance and escrow fits its column and
    is exactly what the journal of wallet transactions adds up to, and idempotency
    keys are unique; and when no amount is negative, which the methods do not check
    either, no balance or escrow is. *)
Theorem ledger_invariant us ops : Forall (λ op, self_transfer op = false) ops →
  sound (run_ops ops (empty_db us)) ∧ (Forall (λ op, 0 ≤ op_amount op) ops → solvent (run_ops ops (empty_db us))).
Proof.
  intros Hd. destruct (empty_wallet_wf us) as [Hs Hv]. split; [by apply run_ops_sound|]. intros Ha. apply run_ops_solvent; [|done].
  by apply Forall_and.
Qed.

(** Repeating a call that returned is a no-op: the second call leaves the
    database as it is and, for every method but [internalTransfer], returns
    the entry the first one returned. *)
Theorem replay_noop op db db' r key :
  self_transfer op = false → op_key op = Some key → run_op op db = (db', Ok r) →
  ∃ t, run_op op db' = (db', Ok (Some t)) ∧
    match op with OpTransfer _ _ _ _ _ _ _ => True | _ => r = Some t end.
Proof.
  intros Hok Hk Hrun. destruct (run_recorded op db db' r key Hok Hk Hrun) as (t & Ht & Hr).
  exists t. split; [by eapply run_found|done].
Qed.

(** A call that throws leaves every table as it was. *)
Theorem throw_atomic op db db' e : run_op op db = (db', Throw e) → db' = db.
Proof.
  assert (Ht : ∀ A (m : M DB A) (k : A → option WalletTransaction) e',
            (a ← transaction m; mret (k a)) db = (db', Throw e') → db' = db).
  { intros A m k e' Hm. unfold mbind, M_bind in Hm.
    destruct (transaction m db) as [db1 [a|e1]] eqn:Hr; [done|].
    apply transaction_throw in Hr. congruence. }
  destruct op; apply Ht.
Qed.

(** C12: a call either changes nothing or changes the total of each currency,
    available and escrowed, by exactly the amount credited, debited or slashed;
    locks, releases and transfers between two users conserve it, and a transfer to
    oneself adds its amount.  What is added is what the new entries of the journal
    say, except for a transfer to oneself, whose entries add up to nothing. *)
Theorem supply_accounting op db c :
  let db' := (run_op op db).1 in
  db' = db ∨
  supply db' c = supply db c + op_minted op c ∧
  ∃ new, walletTransaction db' = walletTransaction db ++ new ∧ recorded c new = if self_transfer op then 0 else op_minted op c.
Proof. apply effect_supply, run_effect. Qed.

Lemma bound_storable db u vals : u ∈ users db → Forall (λ z, Z.abs z < dec_limit) vals → storable db u vals.
Proof. by split. Qed.

(** What [debit] does with a fresh key for a known user: when the balance
    covers the amount it succeeds, lowers that balance and no other column and
    records the entry; otherwise it throws a 400 error and changes nothing. *)
Theorem debit_spec db u c a key n :
  wf db → u ∈ users db → tx_find key (walletTransaction db) = None → 0 ≤ a < dec_limit →
  if decide (a ≤ balance_of db u c) then
    ∃ db' t, debit u c a key n db = (db', Ok t) ∧ idempotencyKey t = key ∧ type t = DEBIT ∧
      walletTransaction db' = walletTransaction db ++ [t] ∧
      (∀ v d, balance_of db' v d =
        balance_of db v d - (if decide (v = u ∧ d = c) then a else 0)) ∧
      (∀ v d, escrow_of db' v d = escrow_of db v d)
  else debit u c a key n db =
    (db, Throw (HttpError 400 ("Insufficient " +:+ currencyName c +:+ " balance"))).
Proof.
  intros Hwf Hu Hf Ha.
  pose proof (wf_bounds db Hwf u (balanceKey c)) as Hb. pose proof (wf_bounds db Hwf u (escrowKey c)) as Hs.
  pose proof (debit_post u c a key n db) as Hp. unfold post in Hp.
  destruct (debit u c a key n db) as [db' [t|e]].
  - destruct Hp as [[Ht _]|(_ & He & Hle & Ht)]; [congruence|]. rewrite decide_True by done.
    exists db', t. destruct Ht as (Eu&Ek&Ety&Ec&_&Eb&Ea&Eeb&Eea). split_and!; [done..|apply He| |].
    + intros v d. rewrite (entry_balance _ _ _ He). unfold balance_change. rewrite Eb, Ea, Eu, Ec.
      do 2 case_decide; first [lia|naive_solver].
    + intros v d. rewrite (entry_escrow _ _ _ He). unfold escrow_change. rewrite Eeb, Eea. case_decide; lia.
  - destruct Hp as [-> [[Hlt ->]|Hns]]; [by rewrite decide_False by lia|].
    destruct Hns. apply bound_storable; [done|].
    unfold balance_of, escrow_of in *. rewrite !Forall_cons. split_and!; try lia. done.
Qed.

(** Locking funds into escrow and releasing the same amount is a round
    trip: the release always succeeds, and afterwards every balance and every
    escrow of every user is what it was before the lock. *)
Theorem lock_release_roundtrip db db1 u c a m k1 k2 t1 :
  wf db → 0 ≤ a → tx_find k1 (walletTransaction db) = None →
  lockFundsToEscrow u c a m k1 db = (db1, Ok t1) →
  tx_find k2 (walletTransaction db1) = None →
  ∃ db2 t2, releaseEscrow u c a m k2 db1 = (db2, Ok t2) ∧
    ∀ v d, balance_of db2 v d = balance_of db v d ∧ escrow_of db2 v d = escrow_of db v d.
Proof.
  intros Hwf Ha Hf1 Hlock Hf2.
  pose proof (post_ok _ _ _ _ _ _ Hlock (lock_post u c a m k1 db)) as [[Ht _]|(_ & He1 & Hle & Ht)]; [congruence|].
  destruct Ht as (Eu&_&_&Ec&_&Eb&Ea&Eeb&Eea).
  pose proof (wf_bounds db Hwf u (balanceKey c)) as Hb. pose proof (wf_bounds db Hwf u (escrowKey c)) as Hs.
  pose proof (entry_balance _ _ _ He1) as B1. pose proof (entry_escrow _ _ _ He1) as S1.
  pose proof (entry_escrow_fits _ _ _ He1) as Hfit.
  unfold balance_change, escrow_change in B1, S1. rewrite Eb, Ea, Eu, Ec in B1. rewrite Eeb, Eea, Eu, Ec in S1.
  pose proof (B1 u c) as B1u. pose proof (S1 u c) as S1u. rewrite decide_True in B1u, S1u by done.
  unfold balance_of, escrow_of in Hb, Hs.
  pose proof (release_post u c a m k2 db1) as Hp. unfold post in Hp.
  destruct (releaseEscrow u c a m k2 db1) as [db2 [t2|e]].
  - destruct Hp as [[Ht _]|(_ & He2 & _ & Ht)]; [congruence|]. exists db2, t2. split; [done|].
    destruct Ht as (Eu2&_&_&Ec2&_&Eb2&Ea2&Eeb2&Eea2). intros v d.
    rewrite (entry_balance _ _ _ He2), (entry_escrow _ _ _ He2). unfold balance_change, escrow_change.
    rewrite Eb2, Ea2, Eeb2, Eea2, Eu2, Ec2, B1, S1. case_decide; lia.
  - destruct Hp as [_ [[Hlt _]|Hns]]; [unfold escrow_of in *; lia|]. destruct Hns.
    apply bound_storable; [rewrite (entry_users _ _ _ He1), <- Eu; apply He1|].
    unfold balance_of, escrow_of in *. rewrite !Forall_cons. split_and!; try lia. done.
Qed.

(** A transfer from a user to himself is not neutral: with fresh keys and
    enough funds it adds the amount to the balance, because both ledger rows
    are read before either is written. *)
Theorem self_transfer_mints db db' u c a ty key n t :
  tx_find (key +:+ ":debit") (walletTransaction db) = None →
  internalTransfer u u c a ty key n db = (db', Ok t) →
  balance_of db' u c = balance_of db u c + a.
Proof.
  intros Hf Hrun. refine (post_ok _ _ _ _ (λ db' _, balance_of db' u c = balance_of db u c + a) (λ _ _, True) Hrun _).
  clear Hrun. unfold internalTransfer, walletTransaction_findUnique. do 3 m_step. rewrite Hf. cbv zeta.
  m_step. apply post_getOrCreate; [done|]. intros db1 Hu1 Ht1 Hl1 _.
  assert (row_of db1 u = row_of db u) as Hr by (unfold row_of; by rewrite Hl1, lookup_insert_eq).
  m_step. apply post_getOrCreate; [done|]. intros db2 Hu2 Ht2 Hl2 _. rewrite Hr in *.
  destruct (dec_lessThan _ a); [by m_step|].
  m_step. apply (post_ledger_update _ _ _ (row_of db u)); [by rewrite Hl2, lookup_insert_eq|done|]. intros _.
  m_step. eapply post_ledger_update; [apply lookup_insert_eq|done|]. intros Hfit.
  m_step. apply post_tx_create; [done|]. intros t1 _ _ _ _. apply post_tx_create; [done|]. intros t2 _ _ Hall _.
  rewrite !Forall_cons in Hall. destruct Hall as (_ & _ & Hb & _). unfold dec_plus in Hb |- *.
  unfold balance_of at 1, row_of at 1. simpl. rewrite lookup_insert_eq. simpl. rewrite decide_True by done.
  by apply dec_round_id.
Qed.

(** The transaction history of a user lists exactly the entries of that
    user (and currency, when one is given), newest first. *)
Theorem history_spec db u oc :
  ∃ l, getTransactionHistory u oc db = (db, Ok l) ∧
    (∀ t, t ∈ l ↔ t ∈ walletTransaction db ∧ tx_userId t = u ∧ (∀ c, oc = Some c → currency t = c)) ∧
    StronglySorted (λ a b, createdAt b ≤ createdAt a) l.
Proof.
  eexists. split; [reflexivity|]. split.
  - intros t. rewrite elem_of_order_by, elem_of_bfilter, andb_true_iff, bool_decide_eq_true.
    destruct oc as [c|]; [rewrite bool_decide_eq_true|]; naive_solver.
  - eapply SSorted_mono; [|apply (order_by_sorted _ (λ a b, bool_decide (createdAt b ≤ createdAt a)))].
    + intros a b. by rewrite bool_decide_spec.
    + intros a b. rewrite !bool_decide_spec. lia.
    + intros a b d. rewrite !bool_decide_spec. lia.
Qed.
End spec.

(** ** Witnesses *)

Section witnesses.
Definition db0 : DB := empty_db {["alice"; "bob"]}.
Definition db1 : DB := (run_op (OpCredit "alice" AX 500 "k1" None) db0).1.
Definition db2 : DB := (run_op (OpLock "alice" AX 200 "m1" "k2") db1).1.

Lemma ledger_invariant_witness :
  let ops := [OpCredit "alice" AX 500 "k1" None; OpLock "alice" AX 200 "m1" "k2"; OpDebit "alice" AX 900 "k3" None] in
  run_ops ops db0 = db2 ∧ sound db2 ∧ solvent db2 ∧ balance_of db2 "alice" AX = 300 ∧ escrow_of db2 "alice" AX = 200.
Proof.
  intros ops. split; [reflexivity|].
  destruct (ledger_invariant {["alice"; "bob"]} ops) as [Hs Hv]; [repeat constructor|].
  split; [exact Hs|]. split; [apply Hv; repeat constructor; cbn; lia|]. split; vm_compute; reflexivity.
Defined.

Lemma wf_db1 : wf db1.
Proof.
  destruct (empty_wallet_wf {["alice"; "bob"]}) as [Hs Hv].
  split; [apply (run_ops_sound [OpCredit "alice" AX 500 "k1" None])|apply (run_ops_solvent [OpCredit "alice" AX 500 "k1" None])]; try done;
    repeat constructor; cbn; lia.
Qed.

Lemma replay_noop_witness :
  ∃ t, run_op (OpLock "alice" AX 200 "m1" "k2") db2 = (db2, Ok (Some t)) ∧
    (run_op (OpLock "alice" AX 200 "m1" "k2") db1).2 = Ok (Some t).
Proof.
  destruct (replay_noop (OpLock "alice" AX 200 "m1" "k2") db1 db2 (tx_find "k2" (walletTransaction db2)) "k2") as (t & Ht & Hr).
  - done.
  - reflexivity.
  - reflexivity.
  - exists t. split; [exact Ht|]. rewrite <- Hr. reflexivity.
Defined.

Lemma throw_atomic_witness :
  run_op (OpDebit "alice" AX 501 "k9" None) db1 =
    ((run_op (OpDebit "alice" AX 501 "k9" None) db1).1, Throw (HttpError 400 "Insufficient AX balance")) ∧
  (run_op (OpDebit "alice" AX 501 "k9" None) db1).1 = db1.
Proof.
  split; [reflexivity|].
  eapply (throw_atomic (OpDebit "alice" AX 501 "k9" None)). reflexivity.
Defined.

Lemma debit_spec_witness :
  (∃ db' t, debit "alice" AX 120 "k3" None db1 = (db', Ok t) ∧ balance_of db' "alice" AX = 380) ∧
  debit "alice" AX 501 "k3" None db1 = (db1, Throw (HttpError 400 "Insufficient AX balance")).
Proof.
  split.
  - destruct (debit_spec db1 "alice" AX 120 "k3" None wf_db1) as (db' & t & Hd & _ & _ & _ & Hb & _).
    + by apply (bool_decide_unpack ("alice" ∈ users db1)).
    + reflexivity.
    + unfold dec_limit; lia.
    + exists db', t. split; [exact Hd|]. rewrite Hb. vm_compute. reflexivity.
  - apply (debit_spec db1 "alice" AX 501 "k3" None wf_db1).
    + by apply (bool_decide_unpack ("alice" ∈ users db1)).
    + reflexivity.
    + unfold dec_limit; lia.
Defined.

Lemma lock_release_roundtrip_witness :
  ∃ db3 t2, releaseEscrow "alice" AX 200 "m1" "k3" db2 = (db3, Ok t2) ∧ balance_of db3 "alice" AX = 500.
Proof.
  destruct (lockFundsToEscrow "alice" AX 200 "m1" "k2" db1) as [db2' [t1|e]] eqn:Hl; [|done].
  assert (db2' = db2) as -> by (unfold db2; cbn [run_op]; unfold mbind, M_bind; by rewrite Hl).
  destruct (lock_release_roundtrip db1 db2 "alice" AX 200 "m1" "k2" "k3" t1 wf_db1) as (db3 & t2 & Hr & Hv).
  - done.
  - reflexivity.
  - exact Hl.
  - reflexivity.
  - exists db3, t2. split; [exact Hr|]. destruct (Hv "alice" AX) as [-> _]. vm_compute. reflexivity.
Defined.

Lemma self_transfer_mints_witness :
  balance_of (internalTransfer "alice" "alice" AX 120 PLATFORM_FEE "k3" None db1).1 "alice" AX = 620.
Proof.
  destruct (internalTransfer "alice" "alice" AX 120 PLATFORM_FEE "k3" None db1) as [db' [t|e]] eqn:Hi; [|done].
  cbn [fst]. rewrite (self_transfer_mints db1 db' "alice" AX 120 PLATFORM_FEE "k3" None t).
  - vm_compute. reflexivity.
  - reflexivity.
  - exact Hi.
Defined.
End witnesses.
