(* ===== verification/Rbac.v ===== *)
(** * Roles and permissions: [server/src/middleware/rbac.middleware.ts]

    The role table, the resolution of a role's permissions through the roles it
    inherits from, and the Express guards built on it.  A role name is looked up
    among the table's own keys. *)

From stdpp Require Import prelude gmap strings list pretty sorting.
From S2P Require Import Prelude.

(** ** Data *)

Inductive Permission :=
| users_read | users_write | users_delete
| games_read | games_write | games_delete
| matches_read | matches_write
| tournaments_read | tournaments_write | tournaments_admin
| analytics_read | analytics_write | analytics_admin
| staking_read | staking_write | staking_admin
| assets_read | assets_write | assets_bridge
| system_read | system_write
| moderation_read | moderation_write
| payments_read | payments_write.

#[export] Instance Permission_eq_dec : EqDecision Permission.
Proof. solve_decision. Defined.

Definition permission_string (p : Permission) : string :=
  match p with
  | users_read => "users:read" | users_write => "users:write" | users_delete => "users:delete"
  | games_read => "games:read" | games_write => "games:write" | games_delete => "games:delete"
  | matches_read => "matches:read" | matches_write => "matches:write"
  | tournaments_read => "tournaments:read" | tournaments_write => "tournaments:write"
  | tournaments_admin => "tournaments:admin"
  | analytics_read => "analytics:read" | analytics_write => "analytics:write"
  | analytics_admin => "analytics:admin"
  | staking_read => "staking:read" | staking_write => "staking:write" | staking_admin => "staking:admin"
  | assets_read => "assets:read" | assets_write => "assets:write" | assets_bridge => "assets:bridge"
  | system_read => "system:read" | system_write => "system:write"
  | moderation_read => "moderation:read" | moderation_write => "moderation:write"
  | payments_read => "payments:read" | payments_write => "payments:write"
  end.

Record RoleDefinition := mkRole {
  name : string;
  permissions : list Permission;
  inheritsFrom : option (list string);
}.

Definition role_entry (n : string) (ps : list Permission) (parents : option (list string))
    : string * RoleDefinition := (n, mkRole n ps parents).

Definition roleDefinitions : jsmap RoleDefinition := [
  role_entry "USER" [games_read; matches_read; tournaments_read] None;
  role_entry "PLAYER" [games_read; matches_read; matches_write; tournaments_read; analytics_read]
    (Some ["USER"]);
  role_entry "MODERATOR" [moderation_read; moderation_write; users_read; games_read] (Some ["PLAYER"]);
  role_entry "SUPPORT" [users_read; moderation_read; analytics_read] (Some ["PLAYER"]);
  role_entry "GAME_DEVELOPER"
    [games_read; games_write; matches_read; matches_write; analytics_read; analytics_write]
    (Some ["PLAYER"]);
  role_entry "TOURNAMENT_ORGANIZER"
    [tournaments_read; tournaments_write; tournaments_admin; analytics_read] (Some ["PLAYER"]);
  role_entry "ANALYTICS_VIEWER" [analytics_read; analytics_admin] (Some ["PLAYER"]);
  role_entry "STAKING_MANAGER" [staking_read; staking_write; staking_admin] (Some ["PLAYER"]);
  role_entry "CROSS_GAME_ADMIN" [assets_read; assets_write; assets_bridge] (Some ["PLAYER"]);
  role_entry "OPERATOR"
    [users_read; users_write; games_read; games_write; matches_read; matches_write;
     tournaments_read; tournaments_write; tournaments_admin;
     analytics_read; analytics_write; analytics_admin;
     staking_read; staking_write; staking_admin; assets_read; assets_write; assets_bridge;
     moderation_read; moderation_write; payments_read; payments_write]
    (Some ["PLAYER"]);
  role_entry "ADMIN"
    [users_read; users_write; users_delete; games_read; games_write; games_delete;
     matches_read; matches_write; tournaments_read; tournaments_write; tournaments_admin;
     analytics_read; analytics_write; analytics_admin;
     staking_read; staking_write; staking_admin; assets_read; assets_write; assets_bridge;
     system_read; system_write; moderation_read; moderation_write; payments_read; payments_write]
    None ].

(** ** Resolution of a role

    The set [visited] is one mutable object shared by all recursive calls, so it
    is threaded through them.  The recursion descends only into roles of the
    table not visited before; [fuel] bounds its depth ([None] when it runs out). *)
Section resolve.
Context (roles : jsmap RoleDefinition).

(** [for (const parent of role.inheritsFrom) perms = [...perms, ...rec(parent)]] *)
Fixpoint resolve_parents (rec : string → list string → option (list Permission * list string))
    (parents : list string) (visited : list string) : option (list Permission * list string) :=
  match parents with
  | [] => Some ([], visited)
  | parent :: rest =>
      '(ps, visited1) ← rec parent visited;
      '(qs, visited2) ← resolve_parents rec rest visited1;
      Some (ps ++ qs, visited2)
  end.

Fixpoint resolve (fuel : nat) (roleName : string) (visited : list string)
    : option (list Permission * list string) :=
  match fuel with
  | O => None
  | S fuel' =>
      if decide (roleName ∈ visited) then Some ([], visited) else
      let visited1 := visited ++ [roleName] in
      match map_get roleName roles with
      | None => Some ([], visited1)
      | Some role =>
          match inheritsFrom role with
          | None => Some (dedupe (permissions role), visited1)
          | Some parents =>
              '(qs, visited2) ← resolve_parents (resolve fuel') parents visited1;
              Some (dedupe (permissions role ++ qs), visited2)
          end
      end
  end.

Definition resolvePermissions (roleName : string) : option (list Permission) :=
  fst <$> resolve (S (length roles)) roleName [].
End resolve.

Definition getRolePermissions (roleName : string) : list Permission :=
  default [] (resolvePermissions roleDefinitions roleName).

Definition hasPermission (roleName : string) (permission : Permission) : bool :=
  bool_decide (permission ∈ getRolePermissions roleName).

(** ** Guards *)

Record AuthenticatedUser := mkUser { user_id : string; user_role : string }.

(** What a guard does with the request: pass it on, or pass on an error. *)
Inductive mw_result := Next | NextError (e : exn).

Fixpoint join (sep : string) (l : list string) : string :=
  match l with
  | [] => ""
  | [s] => s
  | s :: l' => s +:+ sep +:+ join sep l'
  end.

Definition requirePermission (permission : Permission) (user : option AuthenticatedUser) : mw_result :=
  match user with
  | None => NextError (HttpError 401 "Unauthorized")
  | Some user =>
      if hasPermission (user_role user) permission then Next
      else NextError (HttpError 403 ("Missing permission: " +:+ permission_string permission))
  end.

Definition requireAnyPermission (ps : list Permission) (user : option AuthenticatedUser) : mw_result :=
  match user with
  | None => NextError (HttpError 401 "Unauthorized")
  | Some user =>
      if existsb (hasPermission (user_role user)) ps then Next
      else NextError (HttpError 403 ("Missing any of permissions: " +:+ join ", " (permission_string <$> ps)))
  end.

Definition requireAllPermissions (ps : list Permission) (user : option AuthenticatedUser) : mw_result :=
  match user with
  | None => NextError (HttpError 401 "Unauthorized")
  | Some user =>
      if forallb (hasPermission (user_role user)) ps then Next
      else NextError (HttpError 403 ("Missing all permissions: " +:+ join ", " (permission_string <$> ps)))
  end.

Definition requireRole (rs : list string) (user : option AuthenticatedUser) : mw_result :=
  match user with
  | None => NextError (HttpError 401 "Unauthorized")
  | Some user =>
      if bool_decide (user_role user ∈ rs) then Next
      else NextError (HttpError 403 ("Required role: " +:+ join " or " rs))
  end.

(** ** Correctness of the resolution *)

Section dfs.
Context (roles : jsmap RoleDefinition).

Definition inherits (r r' : string) : Prop :=
  ∃ role ps, map_get r roles = Some role ∧ inheritsFrom role = Some ps ∧ r' ∈ ps.

Definition grants (r : string) (p : Permission) : Prop :=
  ∃ role, map_get r roles = Some role ∧ p ∈ permissions role.

(** A traversal started at [starts] with [V] visited: it only adds roles
    reachable from [starts], it is closed under inheritance on what it adds,
    and it collects exactly the permissions of what it adds. *)
Record dfs (starts : list string) (V : list string) (P : list Permission) (V' : list string) : Prop := {
  dfs_mono : V ⊆ V';
  dfs_start : starts ⊆ V';
  dfs_reach : ∀ x, x ∈ V' → x ∉ V → ∃ r, r ∈ starts ∧ rtc inherits r x;
  dfs_closed : ∀ x y, x ∈ V' → x ∉ V → inherits x y → y ∈ V';
  dfs_perms : ∀ p, p ∈ P ↔ ∃ x, x ∈ V' ∧ x ∉ V ∧ grants x p;
}.

Lemma dfs_nil V : dfs [] V [] V.
Proof. split; set_solver. Qed.

Lemma dfs_cons r rest V P V1 Q V2 :
  dfs [r] V P V1 → dfs rest V1 Q V2 → dfs (r :: rest) V (P ++ Q) V2.
Proof.
  intros [M1 S1 R1 C1 P1] [M2 S2 R2 C2 P2]. split.
  - set_solver.
  - set_solver.
  - intros x Hx HV. destruct (decide (x ∈ V1)) as [H1|H1].
    + destruct (R1 x H1 HV) as (r' & ?%list_elem_of_singleton & ?). subst. set_solver.
    + destruct (R2 x Hx H1) as (r' & ? & ?). exists r'. set_solver.
  - intros x y Hx HV Hxy. destruct (decide (x ∈ V1)) as [H1|H1]; [|eauto].
    apply M2. eauto.
  - intros p. rewrite elem_of_app, P1, P2. split.
    + intros [(x & ? & ? & ?)|(x & ? & ? & ?)]; exists x; set_solver.
    + intros (x & Hx & HV & Hp). destruct (decide (x ∈ V1)); eauto.
Qed.

Lemma dfs_node r role V P V' :
  r ∉ V → map_get r roles = Some role → inheritsFrom role = Some P.1 →
  dfs P.1 (V ++ [r]) P.2 V' → dfs [r] V (dedupe (permissions role ++ P.2)) V'.
Proof.
  intros Hr Hrole Hinh [M1 S1 R1 C1 P1]. split.
  - set_solver.
  - set_solver.
  - intros x Hx HV. exists r. split; [set_solver|]. destruct (decide (x = r)) as [->|Hne]; [done|].
    destruct (R1 x Hx) as (c & Hc & Hrt); [set_solver|].
    eapply rtc_l; [|exact Hrt]. by exists role, P.1.
  - intros x y Hx HV Hxy. destruct (decide (x = r)) as [->|Hne].
    + destruct Hxy as (role' & ps & Hr' & Hps & Hy). apply S1. congruence.
    + apply (C1 x); [done|set_solver|done].
  - intros p. rewrite elem_of_dedupe, elem_of_app, P1. split.
    + intros [Hp|(x & Hx & HV & Hg)]; [exists r|exists x; set_solver].
      split_and!; [set_solver|done|]. by exists role.
    + intros (x & Hx & HV & Hg). destruct (decide (x = r)) as [->|Hne].
      * left. destruct Hg as (role' & ? & ?). congruence.
      * right. exists x. set_solver.
Qed.

(** A role without parents, or a name the table does not have. *)
Lemma dfs_leaf r V P :
  r ∉ V → (∀ y, ¬ inherits r y) → (∀ p, p ∈ P ↔ grants r p) → dfs [r] V P (V ++ [r]).
Proof.
  intros Hr Hi HP. split.
  - set_solver.
  - set_solver.
  - intros x Hx HV. exists r. assert (x = r) as -> by set_solver. split; [set_solver|done].
  - intros x y Hx HV Hxy. assert (x = r) as -> by set_solver. by destruct (Hi y).
  - intros p. rewrite HP. split; [intros; exists r; set_solver|].
    intros (x & Hx & HV & Hg). assert (x = r) as -> by set_solver. done.
Qed.

Lemma resolve_parents_dfs rec parents V P V' :
  (∀ r V P V', rec r V = Some (P, V') → dfs [r] V P V') →
  resolve_parents rec parents V = Some (P, V') → dfs parents V P V'.
Proof.
  intros Hrec. revert V P V'. induction parents as [|r rest IH]; intros V P V' Hr; simplify_eq/=.
  { apply dfs_nil. }
  destruct (rec r V) as [[ps V1]|] eqn:E1; simplify_eq/=.
  destruct (resolve_parents rec rest V1) as [[qs V2]|] eqn:E2; simplify_eq/=.
  eapply dfs_cons; eauto.
Qed.

Lemma resolve_dfs fuel r V P V' : resolve roles fuel r V = Some (P, V') → dfs [r] V P V'.
Proof.
  revert r V P V'. induction fuel as [|fuel IH]; intros r V P V' Hr; [done|]. cbn [resolve] in Hr.
  case_decide as HV.
  { simplify_eq. split; set_solver. }
  destruct (map_get r roles) as [role|] eqn:Hrole.
  - destruct (inheritsFrom role) as [parents|] eqn:Hinh.
    + destruct (resolve_parents _ parents _) as [[qs V2]|] eqn:E; simplify_eq/=.
      apply (dfs_node r role V (parents, qs)); [done..|]. by eapply resolve_parents_dfs.
    + simplify_eq. apply dfs_leaf; [done| |].
      * intros y (role' & ps & ? & ? & ?). congruence.
      * intros p. rewrite elem_of_dedupe. unfold grants. split; [eauto|].
        intros (role' & ? & ?). congruence.
  - simplify_eq. apply dfs_leaf; [done| |].
    + intros y (role' & ps & ? & ? & ?). congruence.
    + intros p. split; [set_solver|]. intros (role' & ? & ?). congruence.
Qed.

(** The roles of the table that a traversal may still descend into. *)
Definition unvisited (V : list string) : nat := length (filter (.∉ V) (map_keys roles)).

Lemma unvisited_mono V V' : V ⊆ V' → (unvisited V' ≤ unvisited V)%nat.
Proof.
  intros HV. unfold unvisited. induction (map_keys roles) as [|k ks IH]; [done|].
  rewrite !filter_cons. repeat case_decide; simpl; try lia. set_solver.
Qed.

Lemma unvisited_lt r V : r ∉ V → r ∈ map_keys roles → (unvisited (V ++ [r]) < unvisited V)%nat.
Proof.
  intros Hr. unfold unvisited. induction (map_keys roles) as [|k ks IH]; [set_solver|].
  intros [->|Hk]%elem_of_cons; rewrite !filter_cons.
  - rewrite decide_False by set_solver. rewrite decide_True by done. simpl.
    enough (length (filter (.∉ V ++ [k]) ks) ≤ length (filter (.∉ V) ks))%nat by lia.
    clear. induction ks as [|j ks IH]; [done|]. rewrite !filter_cons.
    repeat case_decide; simpl; try lia. set_solver.
  - specialize (IH Hk). repeat case_decide; simpl; try lia; set_solver.
Qed.

Lemma resolve_parents_total rec parents V n :
  (∀ r V P V', rec r V = Some (P, V') → dfs [r] V P V') →
  (∀ r V, (unvisited V ≤ n)%nat → is_Some (rec r V)) →
  (unvisited V ≤ n)%nat → is_Some (resolve_parents rec parents V).
Proof.
  intros Hdfs Hrec. revert V. induction parents as [|r rest IH]; intros V HV; simpl; [done|].
  destruct (Hrec r V HV) as [[ps V1] E1]. rewrite E1. simpl.
  destruct (IH V1) as [[qs V2] E2]; [|rewrite E2; simpl; eauto].
  etrans; [apply unvisited_mono|done]. eapply dfs_mono, Hdfs, E1.
Qed.

Lemma resolve_total fuel r V : (unvisited V < fuel)%nat → is_Some (resolve roles fuel r V).
Proof.
  revert r V. induction fuel as [|fuel IH]; intros r V HV; [lia|]. cbn [resolve].
  case_decide as Hr; [eauto|]. destruct (map_get r roles) as [role|] eqn:Hrole; [|eauto].
  destruct (inheritsFrom role) as [parents|]; [|eauto].
  assert (r ∈ map_keys roles) as Hk.
  { destruct (decide (r ∈ map_keys roles)) as [|Hn]; [done|]. apply map_get_None in Hn. congruence. }
  pose proof (unvisited_lt r V Hr Hk).
  destruct (resolve_parents_total (resolve roles fuel) parents (V ++ [r]) (pred fuel)) as [[qs V2] E].
  - intros. by eapply resolve_dfs.
  - intros. apply IH. lia.
  - lia.
  - rewrite E. simpl. eauto.
Qed.

Lemma closed_rtc (V' : list string) r x :
  (∀ a b, a ∈ V' → inherits a b → b ∈ V') → r ∈ V' → rtc inherits r x → x ∈ V'.
Proof. intros Hc Hr. induction 1; eauto. Qed.

(** C5: the permission resolution terminates on every role table, cyclic
    inheritance included, and returns without duplicates exactly the
    permissions of the role and of every role it transitively inherits from. *)
Theorem resolvePermissions_spec r :
  ∃ P, resolvePermissions roles r = Some P ∧ NoDup P ∧
    ∀ p, p ∈ P ↔ ∃ x, rtc inherits r x ∧ grants x p.
Proof.
  unfold resolvePermissions.
  destruct (resolve_total (S (length roles)) r []) as [[P V'] E].
  { unfold unvisited. pose proof (length_filter (.∉ []) (map_keys roles)) as Hl.
    unfold map_keys in *. rewrite length_map in Hl. lia. }
  exists P. rewrite E. split_and!; [done| |].
  - cbn [resolve] in E. rewrite decide_False in E by set_solver.
    repeat case_match; simplify_eq/=; [|apply dedupe_nodup|constructor].
    destruct (resolve_parents _ _ _) as [[qs V2]|]; simplify_eq/=. apply dedupe_nodup.
  - destruct (resolve_dfs _ _ _ _ _ E) as [_ Hs Hr Hc Hp]. intros p. rewrite Hp. split.
    + intros (x & Hx & HV & Hg). exists x. split; [|done].
      destruct (Hr x Hx HV) as (r' & ->%list_elem_of_singleton & ?). done.
    + intros (x & Hx & Hg). exists x. split_and!; [|set_solver|done].
      apply (closed_rtc V' r); [|set_solver|done]. intros a b Ha. apply Hc; [done|set_solver].
Qed.
End dfs.

(** ** The role table *)

Definition all_permissions : list Permission :=
  [users_read; users_write; users_delete; games_read; games_write; games_delete;
   matches_read; matches_write; tournaments_read; tournaments_write; tournaments_admin;
   analytics_read; analytics_write; analytics_admin; staking_read; staking_write; staking_admin;
   assets_read; assets_write; assets_bridge; system_read; system_write;
   moderation_read; moderation_write; payments_read; payments_write].

Lemma all_permissions_complete p : p ∈ all_permissions.
Proof. by destruct p; apply (bool_decide_unpack _). Qed.

(** Deciding a property of every permission by evaluation. *)
Lemma forall_permissions (P : Permission → bool) : forallb P all_permissions = true → ∀ p, P p = true.
Proof.
  rewrite forallb_forall. intros HP p. apply HP, list_elem_of_In, all_permissions_complete.
Qed.

(** The privilege order of the role table: ADMIN has every permission;
    OPERATOR has all of them but deleting users or games and system access;
    only ADMIN has those; and every role but the base role USER and the unknown
    names has at least the permissions of PLAYER. *)
Theorem role_table_order :
  (∀ p, hasPermission "ADMIN" p = true) ∧
  (∀ p, hasPermission "OPERATOR" p =
     negb (bool_decide (p ∈ [users_delete; games_delete; system_read; system_write]))) ∧
  (∀ r p, r ≠ "ADMIN" → p ∈ [users_delete; games_delete; system_read; system_write] →
     hasPermission r p = false) ∧
  (∀ r p, r ∈ map_keys roleDefinitions → r ≠ "USER" → hasPermission "PLAYER" p = true →
     hasPermission r p = true).
Proof.
  split_and!.
  - apply forall_permissions. vm_compute. reflexivity.
  - intros p. apply eqb_true_iff. revert p. apply forall_permissions. vm_compute. reflexivity.
  - intros r p Hr Hp. destruct (decide (r ∈ map_keys roleDefinitions)) as [Hk|Hk].
    + assert (Ht : forallb (λ r, bool_decide (r = "ADMIN") || forallb (λ p, negb (hasPermission r p))
                [users_delete; games_delete; system_read; system_write]) (map_keys roleDefinitions) = true)
        by (vm_compute; reflexivity).
      rewrite forallb_forall in Ht. specialize (Ht r (proj1 (list_elem_of_In _ _) Hk)).
      apply orb_true_iff in Ht as [Hb%bool_decide_eq_true|Ht]; [done|]. rewrite forallb_forall in Ht.
      apply negb_true_iff, Ht, list_elem_of_In, Hp.
    + unfold hasPermission, getRolePermissions, resolvePermissions. cbn [resolve].
      rewrite decide_False by set_solver. apply map_get_None in Hk. by rewrite Hk.
  - intros r p Hr Hu Hp.
    assert (Ht : forallb (λ r, bool_decide (r = "USER") ||
              forallb (λ p, implb (hasPermission "PLAYER" p) (hasPermission r p)) all_permissions)
              (map_keys roleDefinitions) = true) by (vm_compute; reflexivity).
    rewrite forallb_forall in Ht. specialize (Ht r (proj1 (list_elem_of_In _ _) Hr)).
    apply orb_true_iff in Ht as [Hb%bool_decide_eq_true|Ht]; [done|].
    pose proof (forall_permissions _ Ht p) as Hi. cbv beta in Hi. rewrite Hp in Hi. exact Hi.
Qed.

(** The guards let a request through exactly when it carries a user whose
    role is entitled: a request without a user is answered 401, one without the
    permissions 403, and in particular [requireAllPermissions] passes exactly
    when each single [requirePermission] passes. *)
Theorem guards_spec ps rs user :
  (∀ p, requirePermission p None = NextError (HttpError 401 "Unauthorized")) ∧
  (∀ p, requirePermission p (Some user) = Next ↔ p ∈ getRolePermissions (user_role user)) ∧
  (∀ p, requirePermission p (Some user) = Next ∨
        requirePermission p (Some user) = NextError (HttpError 403 ("Missing permission: " +:+ permission_string p))) ∧
  (requireAllPermissions ps (Some user) = Next ↔ ∀ p, p ∈ ps → requirePermission p (Some user) = Next) ∧
  (requireAnyPermission ps (Some user) = Next ↔ ∃ p, p ∈ ps ∧ requirePermission p (Some user) = Next) ∧
  (requireRole rs (Some user) = Next ↔ user_role user ∈ rs).
Proof.
  assert (Hp : ∀ p, requirePermission p (Some user) = Next ↔ hasPermission (user_role user) p = true).
  { intros p. simpl. by destruct (hasPermission _ p). }
  split_and!; [done| | | | |].
  - intros p. rewrite Hp. apply bool_decide_eq_true.
  - intros p. simpl. destruct (hasPermission _ p); auto.
  - setoid_rewrite Hp. simpl. destruct (forallb _ ps) eqn:E; split; try done.
    + intros _ p Hin. rewrite forallb_forall in E. by apply E, list_elem_of_In.
    + intros Hall. exfalso. apply not_true_iff_false in E. apply E, forallb_forall.
      intros p Hin. by apply Hall, list_elem_of_In.
  - setoid_rewrite Hp. simpl. destruct (existsb _ ps) eqn:E; split; try done.
    + intros _. apply existsb_exists in E as (p & Hin & HP). exists p. by rewrite list_elem_of_In.
    + intros (p & Hin & HP). exfalso. apply not_true_iff_false in E. apply E, existsb_exists.
      exists p. by rewrite <- list_elem_of_In.
  - simpl. by case_bool_decide.
Qed.
