(* ===== verification/AccessControl.v ===== *)
(** * Delegations and the audit log: [server/src/services/access-control.service.ts]

    The service keeps two module-level objects: the array [auditLog], bounded to
    [MAX_AUDIT_LOG_SIZE] entries, and the map [delegations].  An operation takes
    the successive readings of [Date.now()] and of the random id suffix as
    functions [clock] and [random] of the reading's number. *)

From stdpp Require Import prelude gmap strings list pretty sorting.
From S2P Require Import Prelude Rbac.

(** ** Data *)

Record AccessCheckResult := mkCheck {
  allowed : bool;
  check_role : string;
  check_permissions : list Permission;
  missingPermissions : option (list Permission);
}.

Record DelegationRecord := mkDelegation {
  id : string;
  delegatorId : string;
  delegateeId : string;
  role : string;
  deleg_permissions : list Permission;
  expiresAt : Z;
  maxUses : Z;
  currentUses : Z;
  deleg_createdAt : Z;
}.

Record AuditLogEntry := mkAudit {
  audit_id : string;
  actorId : string;
  action : string;
  targetId : option string;
  resource : string;
  details : string;
  timestamp : Z;
  ipAddress : option string;
}.

Record State := mkState {
  auditLog : list AuditLogEntry;
  delegations : jsmap DelegationRecord;
}.

Definition MAX_AUDIT_LOG_SIZE : Z := 10000.

(** ** Checks *)

Definition checkAccess (user : AuthenticatedUser) (permission : Permission) : AccessCheckResult :=
  let allowed := hasPermission (user_role user) permission in
  mkCheck allowed (user_role user) (getRolePermissions (user_role user))
    (if allowed then None else Some [permission]).

Definition checkMultiplePermissions (user : AuthenticatedUser) (ps : list Permission) : AccessCheckResult :=
  let userPerms := getRolePermissions (user_role user) in
  let missing := List.filter (λ p, negb (bool_decide (p ∈ userPerms))) ps in
  mkCheck (bool_decide (length missing = 0%nat)) (user_role user) userPerms
    (if bool_decide (0 < length missing)%nat then Some missing else None).

(** ** The audit log *)

Definition logAuditEntry (clock : nat → Z) (random : string)
    (actor act : string) (target : option string) (res det : string) (ip : option string)
    (st : State) : State :=
  let logEntry := mkAudit ("audit-" +:+ pretty (clock 0%nat) +:+ "-" +:+ random)
                    actor act target res det (clock 1%nat) ip in
  let pushed := auditLog st ++ [logEntry] in
  let log := if bool_decide (MAX_AUDIT_LOG_SIZE < Z.of_nat (length pushed))
             then drop (length pushed - Z.to_nat MAX_AUDIT_LOG_SIZE) pushed else pushed in
  mkState log (delegations st).

Record AuditFilters := mkFilters {
  f_actorId : option string;
  f_action : option string;
  f_limit : option Z;
}.

Definition getAuditLog (filters : option AuditFilters) (st : State) : list AuditLogEntry :=
  let entries := auditLog st in
  let entries := match filters ≫= λ f, truthy_str (f_actorId f) with
    | Some a => List.filter (λ e, bool_decide (actorId e = a)) entries
    | None => entries end in
  let entries := match filters ≫= λ f, truthy_str (f_action f) with
    | Some a => List.filter (λ e, bool_decide (action e = a)) entries
    | None => entries end in
  let entries := js_sort (λ a b, timestamp b - timestamp a) entries in
  js_take (default 100 (filters ≫= f_limit)) entries.

(** ** Delegations *)

Definition createDelegation (clock : nat → Z) (random : nat → string)
    (delegator : AuthenticatedUser) (delegatee roleName : string) (durationMs max : Z)
    (st : State) : State * option DelegationRecord :=
  let delegatorPerms := getRolePermissions (user_role delegator) in
  let targetRolePerms := getRolePermissions roleName in
  if forallb (λ p, bool_decide (p ∈ delegatorPerms)) targetRolePerms then
    let delegation := mkDelegation
      ("del-" +:+ pretty (clock 0%nat) +:+ "-" +:+ random 0%nat)
      (user_id delegator) delegatee roleName targetRolePerms
      (clock 1%nat + durationMs) max 0 (clock 2%nat) in
    let st1 := mkState (auditLog st) (map_set (id delegation) delegation (delegations st)) in
    (logAuditEntry (λ n, clock (3 + n)%nat) (random 1%nat) (user_id delegator) "delegation.created"
       (Some delegatee) "access-control" ("Delegated role " +:+ roleName +:+ " to " +:+ delegatee) None st1,
     Some delegation)
  else (st, None).

Definition revokeDelegation (clock : nat → Z) (random : string)
    (delegationId revokerId : string) (st : State) : State * bool :=
  match map_get delegationId (delegations st) with
  | None => (st, false)
  | Some delegation =>
      let st1 := mkState (auditLog st) (map_delete delegationId (delegations st)) in
      (logAuditEntry clock random revokerId "delegation.revoked" (Some (delegateeId delegation))
         "access-control" ("Revoked delegation " +:+ delegationId) None st1, true)
  end.

Definition useDelegation (now : Z) (delegationId : string) (st : State) : State * bool :=
  match map_get delegationId (delegations st) with
  | None => (st, false)
  | Some d =>
      if bool_decide (expiresAt d < now) then
        (mkState (auditLog st) (map_delete delegationId (delegations st)), false)
      else if bool_decide (0 < maxUses d) && bool_decide (maxUses d ≤ currentUses d) then (st, false)
      else
        let d' := mkDelegation (id d) (delegatorId d) (delegateeId d) (role d) (deleg_permissions d)
                    (expiresAt d) (maxUses d) (currentUses d + 1) (deleg_createdAt d) in
        (mkState (auditLog st) (map_set delegationId d' (delegations st)), true)
  end.

Definition getActiveDelegations (now : Z) (userId : string) (st : State) : list DelegationRecord :=
  List.filter (λ d, bool_decide (delegateeId d = userId) && bool_decide (now < expiresAt d))
    (map_values (delegations st)).

Definition getRoleInfo (roleName : string) : option RoleDefinition := map_get roleName roleDefinitions.

Definition getAllRoles : list string := map_keys roleDefinitions.

(** ** Operations as steps *)

Inductive ac_op :=
| OpAudit (clock : nat → Z) (random actor act : string) (target : option string) (res det : string) (ip : option string)
| OpCreate (clock : nat → Z) (random : nat → string) (delegator : AuthenticatedUser) (delegatee roleName : string) (durationMs max : Z)
| OpRevoke (clock : nat → Z) (random delegationId revokerId : string)
| OpUse (now : Z) (delegationId : string).

(** The boolean is the result of [useDelegation]. *)
Definition ac_run (op : ac_op) (st : State) : State * bool :=
  match op with
  | OpAudit c r a act t res det ip => (logAuditEntry c r a act t res det ip st, false)
  | OpCreate c r d e n ms mx => ((createDelegation c r d e n ms mx st).1, false)
  | OpRevoke c r i v => ((revokeDelegation c r i v st).1, false)
  | OpUse now i => useDelegation now i st
  end.

Definition ac_step (st st' : State) : Prop := ∃ op, st' = (ac_run op st).1.

(** The invariant: the log is bounded; a delegation is stored under its id,
    carries the permissions of its role and has not been used more often than
    it may be. *)
Record ac_wf (st : State) : Prop := {
  ac_log : Z.of_nat (length (auditLog st)) ≤ MAX_AUDIT_LOG_SIZE;
  ac_keys : NoDup (map_keys (delegations st));
  ac_deleg : ∀ i d, map_get i (delegations st) = Some d →
    id d = i ∧ deleg_permissions d = getRolePermissions (role d) ∧ 0 ≤ currentUses d ∧
    (0 < maxUses d → currentUses d ≤ maxUses d);
}.

Lemma log_length_bound c r a act t res det ip st :
  Z.of_nat (length (auditLog st)) ≤ MAX_AUDIT_LOG_SIZE →
  Z.of_nat (length (auditLog (logAuditEntry c r a act t res det ip st))) ≤ MAX_AUDIT_LOG_SIZE.
Proof.
  unfold logAuditEntry. cbn [auditLog]. rewrite !length_app. cbn [length]. intros Hl.
  case_bool_decide as Hb; [rewrite length_drop|]; rewrite ?length_app; cbn [length];
    unfold MAX_AUDIT_LOG_SIZE in *; lia.
Qed.

Lemma log_deleg c r a act t res det ip st :
  delegations (logAuditEntry c r a act t res det ip st) = delegations st.
Proof. done. Qed.

Lemma ac_wf_log c r a act t res det ip st : ac_wf st → ac_wf (logAuditEntry c r a act t res det ip st).
Proof. intros [Hl Hk Hd]. split; [by apply log_length_bound|done|done]. Qed.

Lemma ac_wf_set st i d :
  ac_wf st → id d = i → deleg_permissions d = getRolePermissions (role d) → 0 ≤ currentUses d →
  (0 < maxUses d → currentUses d ≤ maxUses d) →
  ac_wf (mkState (auditLog st) (map_set i d (delegations st))).
Proof.
  intros [Hl Hk Hd] Hi Hp Hu Hm. split; simpl; [done|by apply map_set_nodup|].
  intros j e. rewrite map_get_set. case_bool_decide; [naive_solver|apply Hd].
Qed.

Lemma ac_wf_delete st i : ac_wf st → ac_wf (mkState (auditLog st) (map_delete i (delegations st))).
Proof.
  intros [Hl Hk Hd]. split; simpl; [done|by apply map_delete_nodup|].
  intros j e. rewrite map_get_delete. case_bool_decide; [done|apply Hd].
Qed.

#[export] Hint Resolve ac_wf_log ac_wf_set ac_wf_delete : arenax.

Lemma ac_run_wf op st : ac_wf st → ac_wf (ac_run op st).1.
Proof.
  intros Hwf. destruct op; simpl.
  - auto with arenax.
  - unfold createDelegation. destruct (forallb _ _); [|done]. simpl. apply ac_wf_log, ac_wf_set; simpl; auto; lia.
  - unfold revokeDelegation. destruct (map_get _ _); simpl; auto with arenax.
  - unfold useDelegation. destruct (map_get _ _) as [d|] eqn:Hd; [|done].
    destruct (ac_deleg st Hwf _ _ Hd) as (Hi & Hp & Hu & Hm).
    case_bool_decide; simpl; [auto with arenax|].
    destruct (_ && _) eqn:Hb; simpl; [done|]. apply ac_wf_set; simpl; auto; [lia|].
    intros Hpos. rewrite bool_decide_true in Hb by done. simpl in Hb. apply bool_decide_eq_false in Hb. lia.
Qed.

(** In every state reachable by the operations of the service the audit
    log holds at most 10000 entries and every delegation is stored under its
    id, grants exactly the permissions of its role and has been used at most
    [maxUses] times when a limit is set. *)
Theorem access_invariant st : rtc ac_step (mkState [] []) st → ac_wf st.
Proof.
  assert (H0 : ac_wf (mkState [] [])) by (split; [done|constructor|done]).
  revert H0. generalize (mkState [] []) as st0. intros st0 H0 Hs. revert H0.
  induction Hs as [|s1 s2 s3 [op ->] _ IH]; [done|]. intros H1. by apply IH, ac_run_wf.
Qed.

Lemma access_invariant_witness :
  ac_wf (createDelegation (λ n, Z.of_nat n) (λ _, "x") (mkUser "a" "OPERATOR") "b" "PLAYER" 60 2 (mkState [] [])).1.
Proof.
  apply access_invariant. apply rtc_once.
  by exists (OpCreate (λ n, Z.of_nat n) (λ _, "x") (mkUser "a" "OPERATOR") "b" "PLAYER" 60 2).
Defined.

(** Delegation cannot escalate privileges: a delegation is created exactly
    when the delegator's role has every permission of the delegated role, and
    then each permission it carries is one the delegator has. *)
Theorem createDelegation_no_escalation clock random delegator delegatee roleName ms mx st :
  ((createDelegation clock random delegator delegatee roleName ms mx st).2 = None ↔
     ∃ p, hasPermission roleName p = true ∧ hasPermission (user_role delegator) p = false) ∧
  ∀ d, (createDelegation clock random delegator delegatee roleName ms mx st).2 = Some d →
    map_get (id d) (delegations (createDelegation clock random delegator delegatee roleName ms mx st).1) = Some d ∧
    ∀ p, p ∈ deleg_permissions d → hasPermission (user_role delegator) p = true.
Proof.
  unfold createDelegation, hasPermission. destruct (forallb _ _) eqn:Hall; simpl.
  - rewrite forallb_forall in Hall. split.
    + split; [done|]. intros (p & Hp & Hn). apply bool_decide_eq_true in Hp.
      rewrite Hall in Hn; [done|by apply list_elem_of_In].
    + intros d [= <-]. simpl. split; [by rewrite map_get_set_eq|].
      intros p Hp. by apply Hall, list_elem_of_In.
  - split; [|done]. split; [|done]. intros _.
    destruct (decide (Exists (λ p, p ∉ getRolePermissions (user_role delegator)) (getRolePermissions roleName))) as [He|Hn].
    + apply Exists_exists in He as (p & Hp & Hq). exists p.
      by rewrite bool_decide_eq_true, bool_decide_eq_false.
    + exfalso. apply not_true_iff_false in Hall. apply Hall, forallb_forall. intros p Hp%list_elem_of_In.
      apply bool_decide_eq_true. apply dec_stable. intros Hq. apply Hn, Exists_exists. eauto.
Qed.

(** Successful uses of the delegation [i] along a run. *)
Fixpoint uses (i : string) (ops : list ac_op) (st : State) : Z :=
  match ops with
  | [] => 0
  | op :: ops' =>
      let '(st', b) := ac_run op st in
      (match op with OpUse _ j => if b && bool_decide (j = i) then 1 else 0 | _ => 0 end) + uses i ops' st'
  end.

(** [op] does not issue the id [i] again. *)
Definition keeps_id (i : string) (op : ac_op) : Prop :=
  match op with
  | OpCreate clock random _ _ _ _ _ => "del-" +:+ pretty (clock 0%nat) +:+ "-" +:+ random 0%nat ≠ i
  | _ => True
  end.

(** What is left of a delegation after one operation. *)
Lemma ac_run_get op st i d' :
  keeps_id i op → map_get i (delegations (ac_run op st).1) = Some d' →
  ∃ d, map_get i (delegations st) = Some d ∧ maxUses d' = maxUses d ∧ expiresAt d' = expiresAt d ∧
    currentUses d' = currentUses d +
      match op with OpUse _ j => if (ac_run op st).2 && bool_decide (j = i) then 1 else 0 | _ => 0 end.
Proof.
  destruct op; simpl; intros Hk Hget.
  - eexists. split_and!; [exact Hget|done..|lia].
  - unfold createDelegation in Hget. destruct (forallb _ _); simpl in Hget.
    + rewrite map_get_set_ne in Hget by done. exists d'. split_and!; [done..|lia].
    + exists d'. split_and!; [done..|lia].
  - unfold revokeDelegation in Hget. destruct (map_get _ (delegations st)) eqn:E; simpl in Hget.
    + rewrite map_get_delete in Hget. case_bool_decide; [done|]. exists d'. split_and!; [done..|lia].
    + exists d'. split_and!; [done..|lia].
  - unfold useDelegation in *. destruct (map_get delegationId (delegations st)) as [d|] eqn:E; simpl in *.
    2: { exists d'. split_and!; [done..|lia]. }
    destruct (bool_decide (expiresAt d < now)) eqn:He; simpl in *.
    { rewrite map_get_delete in Hget. case_bool_decide; [done|]. exists d'. split_and!; [done..|lia]. }
    destruct (_ && _) eqn:Hb; simpl in *; [exists d'; split_and!; [done..|lia]|].
    rewrite map_get_set in Hget. destruct (decide (i = delegationId)) as [->|Hne].
    + rewrite bool_decide_true in Hget by done. simplify_eq/=. exists d.
      rewrite bool_decide_true by done. done.
    + rewrite bool_decide_false in Hget by done. rewrite bool_decide_false by done.
      exists d'. split_and!; [done..|lia].
Qed.

Lemma uses_gone i ops st :
  Forall (keeps_id i) ops → map_get i (delegations st) = None → uses i ops st = 0.
Proof.
  revert st. induction ops as [|op ops IH]; intros st Hall Hn; simpl; [done|].
  apply Forall_cons in Hall as [Hk Hall]. destruct (ac_run op st) as [st' b] eqn:E.
  rewrite IH; [|done|].
  - destruct op; try done. simpl in E. unfold useDelegation in E.
    destruct (decide (delegationId = i)) as [->|Hne].
    + rewrite Hn in E. by simplify_eq.
    + rewrite (bool_decide_false (delegationId = i)) by done. by rewrite andb_false_r.
  - destruct (map_get i (delegations st')) as [d'|] eqn:Hg; [|done].
    replace st' with (ac_run op st).1 in Hg by (by rewrite E).
    apply ac_run_get in Hg as (d & ? & _); [congruence|done].
Qed.

(** A delegation with a use limit is used at most that often: along any
    sequence of operations that does not issue the same id again, the number of
    successful uses is at most the uses it had left. *)
Theorem uses_bounded i ops st d :
  Forall (keeps_id i) ops → map_get i (delegations st) = Some d → 0 < maxUses d →
  currentUses d ≤ maxUses d → uses i ops st ≤ maxUses d - currentUses d.
Proof.
  revert st d. induction ops as [|op ops IH]; intros st d Hall Hd Hpos Hle; simpl; [lia|].
  apply Forall_cons in Hall as [Hk Hall]. destruct (ac_run op st) as [st' b] eqn:E.
  destruct (map_get i (delegations st')) as [d'|] eqn:Hd'.
  - pose proof Hd' as Hg. replace st' with (ac_run op st).1 in Hg by (by rewrite E).
    apply ac_run_get in Hg as (d0 & Hd0 & Hm & _ & Hc); [|done]. rewrite E in Hc. simpl in Hc.
    assert (d0 = d) as -> by congruence. specialize (IH st' d' Hall Hd' ltac:(lia)).
    assert (currentUses d' ≤ maxUses d'); [|destruct op; lia].
    destruct op; try lia. simpl in E. unfold useDelegation in E.
    destruct (decide (delegationId = i)) as [->|Hne]; [|rewrite (bool_decide_false (delegationId = i)), andb_false_r in Hc by done; lia].
    rewrite (bool_decide_true (i = i)) in Hc by done. rewrite Hd in E.
    destruct (bool_decide (expiresAt d < now)); simplify_eq/=; [lia|]. destruct (_ && _) eqn:Hb; simplify_eq/=; [lia|].
    rewrite (bool_decide_true (0 < maxUses d)) in Hb by done. simpl in Hb. apply bool_decide_eq_false in Hb.
    lia.
  - rewrite uses_gone by done. destruct op; try lia. simpl in E. unfold useDelegation in E.
    destruct (decide (delegationId = i)) as [->|Hne]; [|rewrite (bool_decide_false (delegationId = i)), andb_false_r by done; lia].
    rewrite Hd in E. repeat case_match; simplify_eq/=; try lia. by rewrite map_get_set_eq in Hd'.
Qed.

Definition st_demo : State :=
  (createDelegation (λ n, Z.of_nat n) (λ _, "x") (mkUser "a" "OPERATOR") "b" "PLAYER" 60 2 (mkState [] [])).1.

Lemma uses_bounded_witness :
  uses "del-0-x" [OpUse 5 "del-0-x"; OpUse 6 "del-0-x"; OpUse 7 "del-0-x"] st_demo ≤ 2 - 0 ∧
  uses "del-0-x" [OpUse 5 "del-0-x"; OpUse 6 "del-0-x"; OpUse 7 "del-0-x"] st_demo = 2.
Proof.
  split; [|vm_compute; reflexivity].
  apply (uses_bounded "del-0-x" _ st_demo
    (mkDelegation "del-0-x" "a" "b" "PLAYER" (getRolePermissions "PLAYER") 61 2 0 2)).
  - by repeat constructor.
  - vm_compute. reflexivity.
  - simpl; lia.
  - simpl; lia.
Defined.

(** The bounded audit log refines an unbounded one: as long as it holds the
    last 10000 entries of the full history, recording an entry keeps it so. *)
Theorem audit_log_refines clock random actor act target res det ip st full :
  auditLog st = js_slice_last MAX_AUDIT_LOG_SIZE full →
  ∃ e, actorId e = actor ∧ action e = act ∧ timestamp e = clock 1%nat ∧
    auditLog (logAuditEntry clock random actor act target res det ip st) =
      js_slice_last MAX_AUDIT_LOG_SIZE (full ++ [e]).
Proof.
  intros Hst. unfold logAuditEntry. simpl.
  exists (mkAudit ("audit-" +:+ pretty (clock 0%nat) +:+ "-" +:+ random) actor act target res det (clock 1%nat) ip).
  split_and!; [done..|]. rewrite Hst. unfold js_slice_last.
  set (e := mkAudit _ _ _ _ _ _ _ _). clearbody e.
  assert (MAX_AUDIT_LOG_SIZE = 10000) as -> by done.
  assert (Z.to_nat 10000 = N.to_nat 10000) as Hn by done. remember (N.to_nat 10000) as n eqn:En.
  assert (Z.of_nat n = 10000) as Hz by (subst n; by rewrite N_nat_Z). clear En.
  rewrite !length_app, length_drop, !(bool_decide_true (- 10000 < 0)), Hn by lia. cbn [length].
  case_bool_decide as Hb.
  - rewrite drop_app_le by (rewrite length_drop; lia).
    rewrite drop_app_le by lia. rewrite drop_drop. do 2 f_equal. lia.
  - rewrite (drop_app_le full) by lia. do 2 f_equal. lia.
Qed.

Lemma audit_log_refines_witness :
  ∃ e, actorId e = "a" ∧ action e = "login" ∧ timestamp e = 1 ∧
    auditLog (logAuditEntry Z.of_nat "r" "a" "login" None "auth" "" None (mkState [] [])) = js_slice_last MAX_AUDIT_LOG_SIZE ([] ++ [e]).
Proof. apply (audit_log_refines Z.of_nat "r" "a" "login" None "auth" "" None (mkState [] []) []). reflexivity. Defined.
