(* ===== verification/Lockout.v ===== *)
(** * Account lockout: [server/src/services/account-lockout.service.ts]

    The module-level map [failedAttempts] from "user:address" keys to attempt
    records, and the operations on it.  Instants are milliseconds; an operation
    takes the instant (or instants) at which it reads the clock. *)

From Stdlib Require Import Ascii.
From stdpp Require Import prelude gmap strings list pretty sorting.
From S2P Require Import Prelude.

(** ** Data and operations *)

Definition MAX_FAILED_ATTEMPTS : Z := 5.
Definition LOCKOUT_DURATION_MS : Z := 30 * 60 * 1000.

Record FailedAttempt := mkAttempt {
  userId : string;
  ipAddress : string;
  attempts : Z;
  lastAttemptAt : Z;
  lockedUntil : option Z;
}.

Abbreviation attempt_map := (jsmap FailedAttempt).

(** The body of the five-minute cleanup timer: collect the expired keys, then
    delete them. *)
Definition cleanupExpired (now : Z) (m : attempt_map) : attempt_map :=
  let expiredKeys := List.map fst (List.filter (λ kv,
    match lockedUntil kv.2 with Some t => bool_decide (t < now) | None => false end) m) in
  foldl (λ m key, map_delete key m) m expiredKeys.

Definition getAttemptKey (user ip : string) : string := user +:+ ":" +:+ ip.

Record FailedResult := mkFailedResult { locked : bool; remainingAttempts : Z }.

Definition recordFailedAttempt (now : Z) (user ip : string) (m : attempt_map) : attempt_map * FailedResult :=
  let key := getAttemptKey user ip in
  let existing := map_get key m in
  let n := from_option attempts 0 existing + 1 in
  let lock := bool_decide (MAX_FAILED_ATTEMPTS ≤ n) in
  let until := if lock then Some (now + LOCKOUT_DURATION_MS) else existing ≫= lockedUntil in
  (map_set key (mkAttempt user ip n now until) m,
   mkFailedResult lock (Z.max 0 (MAX_FAILED_ATTEMPTS - n))).

(** The check also removes a lockout that has expired. *)
Definition isAccountLocked (now : Z) (user ip : string) (m : attempt_map) : attempt_map * bool :=
  let key := getAttemptKey user ip in
  match map_get key m ≫= lockedUntil with
  | None => (m, false)
  | Some t => if bool_decide (t < now) then (map_delete key m, false) else (m, true)
  end.

Definition getLockoutRemainingSeconds (now : Z) (user ip : string) (m : attempt_map) : Z :=
  match map_get (getAttemptKey user ip) m ≫= lockedUntil with
  | None => 0
  | Some t => Z.max 0 ((t - now) / 1000)
  end.

Definition clearFailedAttempts (user ip : string) (m : attempt_map) : attempt_map :=
  map_delete (getAttemptKey user ip) m.

Definition checkAccountLockout (now now' : Z) (user ip : string) : M attempt_map unit :=
  l ← (λ m, let '(m', b) := isAccountLocked now user ip m in (m', Ok b));
  if l : bool then
    remainingSeconds ← gets (getLockoutRemainingSeconds now' user ip);
    throw (HttpError 429 ("Account locked due to too many failed attempts. Try again in "
                          +:+ pretty remainingSeconds +:+ " seconds."))
  else mret tt.

(** ** Operations as events *)

Inductive event :=
| Failed (now : Z) (user ip : string)
| Check (now : Z) (user ip : string)
| Success (user ip : string)
| Cleanup (now : Z).

Definition apply_event (ev : event) (m : attempt_map) : attempt_map :=
  match ev with
  | Failed now u a => (recordFailedAttempt now u a m).1
  | Check now u a => (isAccountLocked now u a m).1
  | Success u a => clearFailedAttempts u a m
  | Cleanup now => cleanupExpired now m
  end.

Definition run_events (evs : list event) (m : attempt_map) : attempt_map := foldl (λ m ev, apply_event ev m) m evs.

Lemma map_get_foldl_delete {V} (ks : list string) (m : jsmap V) k :
  map_get k (foldl (λ m key, map_delete key m) m ks) = if decide (k ∈ ks) then None else map_get k m.
Proof.
  revert m. induction ks as [|j ks IH]; intros m; simpl; [done|].
  rewrite IH, map_get_delete. destruct (decide (k = j)) as [->|Hne].
  - rewrite (decide_True (P := j ∈ j :: ks)), bool_decide_true by set_solver. by case_decide.
  - rewrite bool_decide_false by done. repeat case_decide; set_solver.
Qed.

Lemma cleanup_get now m key : NoDup (map_keys m) →
  map_get key (cleanupExpired now m) =
    match map_get key m with
    | Some a => match lockedUntil a with
                | Some t => if bool_decide (t < now) then None else Some a
                | None => Some a end
    | None => None
    end.
Proof.
  intros Hnd. unfold cleanupExpired. rewrite map_get_foldl_delete.
  assert (key ∈ List.map fst (List.filter (λ kv, match lockedUntil kv.2 with Some t => bool_decide (t < now) | None => false end) m) ↔
    ∃ a t, map_get key m = Some a ∧ lockedUntil a = Some t ∧ t < now) as Hin.
  { rewrite list_elem_of_In, in_map_iff. split.
    - intros ([k a] & <- & Hf). apply filter_In in Hf as [Hin Hl]. simpl in *.
      destruct (lockedUntil a) as [t|] eqn:Ht; [|done]. apply bool_decide_eq_true in Hl.
      exists a, t. split_and!; [|done..]. apply map_elem_get; [done|]. by apply list_elem_of_In.
    - intros (a & t & Hg & Ht & Hlt). exists (key, a). split; [done|]. apply filter_In. simpl.
      rewrite Ht, bool_decide_eq_true. split; [|done]. by apply list_elem_of_In, map_get_elem. }
  case_decide as Hd.
  - apply Hin in Hd as (a & t & -> & -> & Hlt). by rewrite bool_decide_true.
  - destruct (map_get key m) as [a|]; [|done]. destruct (lockedUntil a) as [t|] eqn:Ht; [|done].
    case_bool_decide; [|done]. exfalso. apply Hd, Hin. eauto.
Qed.

Lemma event_nodup ev m : NoDup (map_keys m) → NoDup (map_keys (apply_event ev m)).
Proof.
  intros Hm. destruct ev; simpl.
  - by apply map_set_nodup.
  - unfold isAccountLocked. repeat case_match; simplify_eq/=; auto with arenax.
  - by apply map_delete_nodup.
  - unfold cleanupExpired. generalize (List.map fst (List.filter (λ kv, match lockedUntil kv.2 with Some t => bool_decide (t < now) | None => false end) m)).
    intros ks. revert m Hm. induction ks; simpl; auto with arenax.
Qed.

(** ** The invariant *)

(** Every record is stored under its own key, counts at least one failure, and
    carries a lock exactly when it counts five or more, which then ends thirty
    minutes after its last failure. *)
Record lock_wf (m : attempt_map) : Prop := {
  lock_keys : NoDup (map_keys m);
  lock_record : ∀ key a, map_get key m = Some a →
    key = getAttemptKey (userId a) (ipAddress a) ∧ 1 ≤ attempts a ∧
    lockedUntil a = if bool_decide (MAX_FAILED_ATTEMPTS ≤ attempts a)
                    then Some (lastAttemptAt a + LOCKOUT_DURATION_MS) else None;
}.

Lemma lock_wf_delete key m : lock_wf m → lock_wf (map_delete key m).
Proof.
  intros [Hk Hr]. split; [by apply map_delete_nodup|]. intros k a. rewrite map_get_delete.
  case_bool_decide; [done|apply Hr].
Qed.
#[export] Hint Resolve lock_wf_delete : arenax.

Lemma event_wf ev m : lock_wf m → lock_wf (apply_event ev m).
Proof.
  intros Hwf. destruct ev as [now u ip|now u ip|u ip|now]; simpl.
  - destruct Hwf as [Hk Hr]. split; [by apply map_set_nodup|]. intros k a. rewrite map_get_set.
    case_bool_decide as E; [|apply Hr]. intros [= <-]. simpl. split_and!; [done| |].
    + destruct (map_get _ m) as [b|] eqn:Hb; simpl; [|lia]. destruct (Hr _ _ Hb) as (_ & ? & _). lia.
    + case_bool_decide as Hn; [done|]. destruct (map_get _ m) as [b|] eqn:Hb; simpl in *; [|done].
      destruct (Hr _ _ Hb) as (_ & _ & ->). rewrite bool_decide_false; [done|lia].
  - unfold isAccountLocked. repeat case_match; simplify_eq/=; auto with arenax.
  - unfold clearFailedAttempts. auto with arenax.
  - split; [by apply (event_nodup (Cleanup now)), lock_keys|]. intros k a.
    rewrite cleanup_get by apply Hwf. destruct (map_get k m) as [b|] eqn:Hb; [|done].
    intros Hc. assert (a = b) as -> by (repeat case_match; by simplify_eq). by apply Hwf.
Qed.

(** After any sequence of failures, checks, successes and cleanups, in any
    order and at any times, an account is locked only after at least five
    recorded failures, and its lock then ends exactly thirty minutes after the
    last of them. *)
Theorem lockout_invariant evs : lock_wf (run_events evs []).
Proof.
  assert (H0 : lock_wf []) by (split; [constructor|done]). revert H0. generalize ([] : attempt_map) as m.
  unfold run_events. induction evs as [|ev evs IH]; intros m Hm; simpl; [done|]. by apply IH, event_wf.
Qed.

(** ** How long a lock lasts *)

(** [ev] happens while a lock ending at [t] is in force and does not report a
    successful login for [key]. *)
Definition during (key : string) (t : Z) (ev : event) : Prop :=
  match ev with
  | Failed now _ _ => t - LOCKOUT_DURATION_MS ≤ now
  | Check now _ _ | Cleanup now => now ≤ t
  | Success u ip => getAttemptKey u ip ≠ key
  end.

Definition locked_at_least (key : string) (t : Z) (m : attempt_map) : Prop :=
  ∃ a t', map_get key m = Some a ∧ lockedUntil a = Some t' ∧ t ≤ t' ∧ MAX_FAILED_ATTEMPTS ≤ attempts a.

Lemma locked_event key t ev m :
  NoDup (map_keys m) → during key t ev → locked_at_least key t m → locked_at_least key t (apply_event ev m).
Proof.
  intros Hnd Hev (a & t' & Ha & Ht & Hle & Hn). destruct ev as [now u ip|now u ip|u ip|now]; simpl in *.
  - unfold recordFailedAttempt, locked_at_least. simpl. destruct (decide (getAttemptKey u ip = key)) as [<-|Hne].
    + rewrite map_get_set_eq, Ha. simpl. rewrite bool_decide_true by lia. do 2 eexists. split_and!; [done|done|simpl; lia..].
    + rewrite map_get_set_ne by done. eauto 10.
  - unfold isAccountLocked. destruct (decide (getAttemptKey u ip = key)) as [<-|Hne].
    + rewrite Ha. simpl. rewrite Ht, bool_decide_false by lia. exists a, t'. auto.
    + destruct (map_get (getAttemptKey u ip) m ≫= lockedUntil) as [s|]; [case_bool_decide|]; simpl;
        exists a, t'; rewrite ?map_get_delete_ne by done; auto.
  - exists a, t'. unfold clearFailedAttempts. rewrite map_get_delete_ne by done. auto.
  - exists a, t'. rewrite cleanup_get, Ha, Ht, bool_decide_false by (done || lia). auto.
Qed.

(** A locked account stays locked: if it is locked until [t], then whatever
    happens in the meantime, further failures, checks and cleanups of any
    account included, the check still reports it locked at every instant up to
    [t], as long as no successful login of that account clears it. *)
Theorem lock_persists evs m u ip t now a :
  lock_wf m → map_get (getAttemptKey u ip) m = Some a → lockedUntil a = Some t →
  Forall (during (getAttemptKey u ip) t) evs → now ≤ t →
  (isAccountLocked now u ip (run_events evs m)).2 = true.
Proof.
  intros Hwf Ha Ht Hevs Hnow.
  assert (locked_at_least (getAttemptKey u ip) t m) as Hl.
  { exists a, t. split_and!; [done|done|lia|]. destruct (lock_record m Hwf _ _ Ha) as (_ & _ & Hlk).
    rewrite Ht in Hlk. by case_bool_decide. }
  assert (locked_at_least (getAttemptKey u ip) t (run_events evs m)) as (b & t' & Hb & Ht' & Hle & _).
  { clear Ha Ht. pose proof (lock_keys _ Hwf) as Hnd. clear Hwf. revert m Hnd Hl. unfold run_events.
    induction Hevs as [|ev evs Hev _ IH]; intros m Hnd Hl; simpl; [done|].
    apply IH; [by apply event_nodup|by apply locked_event]. }
  unfold isAccountLocked. rewrite Hb. simpl. rewrite Ht', bool_decide_false by lia. done.
Qed.

(** Five failures in a row from an address without earlier failures lock the
    account, for exactly thirty minutes from the fifth: the check answers yes at
    every instant up to that moment and no after it, and the calls report
    4, 3, 2, 1, 0 remaining attempts. *)
Theorem five_failures_lock u ip t1 t2 t3 t4 t5 m :
  map_get (getAttemptKey u ip) m = None →
  let m' := run_events [Failed t1 u ip; Failed t2 u ip; Failed t3 u ip; Failed t4 u ip; Failed t5 u ip] m in
  (∀ now, (isAccountLocked now u ip m').2 = bool_decide (now ≤ t5 + LOCKOUT_DURATION_MS)) ∧
  (recordFailedAttempt t1 u ip m).2 = mkFailedResult false 4 ∧
  (recordFailedAttempt t5 u ip (run_events [Failed t1 u ip; Failed t2 u ip; Failed t3 u ip; Failed t4 u ip] m)).2
    = mkFailedResult true 0.
Proof.
  intros Hm. set (key := getAttemptKey u ip) in *. cbv zeta.
  unfold run_events, apply_event, recordFailedAttempt. cbn [foldl fst]. fold key.
  rewrite !map_get_set_eq, Hm. cbn. split_and!; [|done..].
  intros now. unfold isAccountLocked. fold key. rewrite map_get_set_eq. cbn.
  repeat case_bool_decide; simpl; first [done|lia].
Qed.

(** A string without a colon determines the split of "user:address". *)
Fixpoint colon_free (s : string) : bool :=
  match s with
  | EmptyString => true
  | String c s' => negb (bool_decide (c = ":"%char)) && colon_free s'
  end.

(** Accounts do not share a counter: for user ids without a colon (such as
    generated UUIDs) the key determines user and address, whatever colons the
    address has; with a colon in a user id it does not. *)
Theorem getAttemptKey_inj u u' ip ip' :
  colon_free u = true → colon_free u' = true → getAttemptKey u ip = getAttemptKey u' ip' → u = u' ∧ ip = ip'.
Proof.
  unfold getAttemptKey. revert u'. induction u as [|c u IH]; intros [|c' u'] H1 H2 He; simpl in *; simplify_eq; try done.
  apply andb_true_iff in H1 as [_ H1], H2 as [_ H2]. destruct (IH u') as [-> ->]; auto.
Qed.

Lemma lock_persists_witness :
  (isAccountLocked 1000 "u" "1.2.3.4" (run_events [Failed 700 "v" "::1"; Cleanup 900; Failed 950 "u" "1.2.3.4"]
    (run_events (replicate 5 (Failed 0 "u" "1.2.3.4")) []))).2 = true.
Proof.
  eapply (lock_persists _ _ _ _ 1800000).
  - split; [by apply (bool_decide_unpack _)|].
    intros key a Hg. apply map_get_elem in Hg. vm_compute in Hg. apply list_elem_of_singleton in Hg. by simplify_eq.
  - vm_compute. reflexivity.
  - vm_compute. reflexivity.
  - repeat constructor; vm_compute; congruence.
  - lia.
Defined.

Lemma five_failures_lock_witness :
  (isAccountLocked 1800010 "u" "::1" (run_events [Failed 1 "u" "::1"; Failed 2 "u" "::1"; Failed 3 "u" "::1"; Failed 4 "u" "::1"; Failed 10 "u" "::1"] [])).2 = true.
Proof.
  destruct (five_failures_lock "u" "::1" 1 2 3 4 10 []) as [Hl _]; [reflexivity|].
  rewrite Hl. vm_compute. reflexivity.
Defined.

Lemma getAttemptKey_inj_witness : "u1" = "u1" ∧ "::1" = "::1".
Proof. apply getAttemptKey_inj; reflexivity. Defined.
