(* ===== verification/Tournament.v ===== *)
(** * Tournaments: [server/src/services/tournament.service.ts]

    Registration, check-in, bracket generation, match results and progress.
    The four tables the service works on are lists of rows in creation order;
    the methods are not transactions, so a throw keeps the writes made before
    it.  Instants are milliseconds.  Column overflow is not modelled here (the
    counters are far from their limits). *)

From Stdlib Require Import Ascii.
From stdpp Require Import prelude gmap strings list pretty sorting.
From S2P Require Import Prelude JsText Prisma.

(** ** Data *)

Inductive TournamentFormat := SINGLE_ELIMINATION | DOUBLE_ELIMINATION | ROUND_ROBIN | SWISS.
Inductive TournamentStatus := PENDING | REGISTRATION_OPEN | REGISTRATION_CLOSED | IN_PROGRESS | COMPLETED | CANCELLED.
Inductive TournamentRound :=
| QUALIFICATION | ROUND_OF_64 | ROUND_OF_32 | ROUND_OF_16 | QUARTER_FINAL | SEMI_FINAL | FINAL | GRAND_FINAL.
Inductive MatchResultType := WIN | LOSS | DRAW | BYE | DISQUALIFIED.

#[export] Instance TournamentFormat_eq_dec : EqDecision TournamentFormat.
Proof. solve_decision. Defined.
#[export] Instance TournamentStatus_eq_dec : EqDecision TournamentStatus.
Proof. solve_decision. Defined.
#[export] Instance TournamentRound_eq_dec : EqDecision TournamentRound.
Proof. solve_decision. Defined.
#[export] Instance MatchResultType_eq_dec : EqDecision MatchResultType.
Proof. solve_decision. Defined.

(** JavaScript numbers that are not integers occur in one place, the prize
    percentages; [prize_share pool p] is the amount stored for
    [Number(pool) * p]. *)
Class Percentage := { percentage : Type; prize_share : Z → percentage → Z }.

Section data.
Context `{Percentage}.

Record TournamentConfig := mkConfig {
  c_name : string;
  c_description : option string;
  c_format : TournamentFormat;
  c_gameId : string;
  c_gameMode : string;
  c_maxPlayers : Z;
  c_minPlayers : option Z;
  c_entryFee : option Z;
  c_prizePool : option Z;
  c_prizeDistribution : option (list (string * percentage));
  c_registrationStart : Z;
  c_registrationEnd : Z;
  c_startDate : Z;
  c_endDate : option Z;
  c_checkInWindow : option Z;
}.

Record Tournament := mkTournament {
  t_id : string;
  t_name : string;
  t_description : option string;
  t_format : TournamentFormat;
  t_status : TournamentStatus;
  t_gameId : string;
  t_gameModeId : string;
  t_maxPlayers : Z;
  t_minPlayers : Z;
  t_entryFee : option Z;
  t_prizePool : Z;
  t_prizeDistribution : list (string * percentage);
  t_registrationStart : Z;
  t_registrationEnd : Z;
  t_startDate : Z;
  t_endDate : option Z;
  t_checkInWindow : Z;
  t_organizerId : string;
  t_currentRound : Z;
  t_totalRounds : Z;
}.
End data.

Record TournamentParticipant := mkParticipant {
  p_id : string;
  p_tournamentId : string;
  p_userId : string;
  p_seed : option Z;
  p_checkedIn : bool;
  p_checkedInAt : option Z;
  p_status : string;
  p_wins : Z;
  p_losses : Z;
  p_draws : Z;
  p_points : Z;
  p_prizeAmount : option Z;
}.

Record TournamentMatch := mkMatch {
  m_id : string;
  m_tournamentId : string;
  m_round : Z;
  m_roundName : TournamentRound;
  m_matchNumber : Z;
  m_playerAId : option string;
  m_playerBId : option string;
  m_winnerId : option string;
  m_playerAScore : Z;
  m_playerBScore : Z;
  m_resultType : option MatchResultType;
  m_status : string;
  m_completedAt : option Z;
}.

Record TournamentRegistration := mkRegistration {
  r_id : string;
  r_tournamentId : string;
  r_userId : string;
  r_status : string;
  r_waitlistPosition : option Z;
  r_paymentStatus : string;
}.

Record MatchResult := mkResult {
  res_matchId : string;
  res_playerAScore : Z;
  res_playerBScore : Z;
  res_winnerId : string;
  res_resultType : MatchResultType;
}.

Record Standing := mkStanding {
  s_rank : Z;
  s_participantId : string;
  s_userId : string;
  s_username : string;
  s_wins : Z;
  s_losses : Z;
  s_draws : Z;
  s_points : Z;
  s_status : string;
  s_prizeAmount : option Z;
}.

Section db.
Context `{Percentage}.

(** The users (with their names) and game modes a row may refer to, and the
    four tables of the service. *)
Record TDB := mkTDB {
  db_users : gmap string string;
  db_gameModes : gset string;
  tournament : list Tournament;
  tournamentParticipant : list TournamentParticipant;
  tournamentMatch : list TournamentMatch;
  tournamentRegistration : list TournamentRegistration;
  db_serial : nat;
}.

Definition set_tournament (l : list Tournament) (db : TDB) : TDB :=
  mkTDB (db_users db) (db_gameModes db) l (tournamentParticipant db) (tournamentMatch db)
    (tournamentRegistration db) (db_serial db).
Definition set_participant (l : list TournamentParticipant) (db : TDB) : TDB :=
  mkTDB (db_users db) (db_gameModes db) (tournament db) l (tournamentMatch db)
    (tournamentRegistration db) (db_serial db).
Definition set_match (l : list TournamentMatch) (db : TDB) : TDB :=
  mkTDB (db_users db) (db_gameModes db) (tournament db) (tournamentParticipant db) l
    (tournamentRegistration db) (db_serial db).
Definition set_registration (l : list TournamentRegistration) (db : TDB) : TDB :=
  mkTDB (db_users db) (db_gameModes db) (tournament db) (tournamentParticipant db) (tournamentMatch db)
    l (db_serial db).
Definition bump (db : TDB) : TDB :=
  mkTDB (db_users db) (db_gameModes db) (tournament db) (tournamentParticipant db) (tournamentMatch db)
    (tournamentRegistration db) (S (db_serial db)).
End db.

(** ** Library functions of JavaScript *)

(** [Math.ceil(Math.log2(n))] of an integer below 2^31; [None] is a result that
    is not a finite number ([-Infinity] or [NaN]). *)
Definition ceil_log2 (n : Z) : option Z := if bool_decide (1 ≤ n) then Some (Z.log2_up n) else None.

(** How often [for (let i = 0; i < Math.pow(2, r - 1); i++)] runs: [2^-1] is a
    half, so the body runs once for [r = 0], and never for [-Infinity]. *)
Definition pow2_pred_iterations (r : option Z) : nat :=
  match r with
  | None => 0
  | Some r => if bool_decide (1 ≤ r) then Z.to_nat (2 ^ (r - 1)) else 1
  end.

Fixpoint parse_digits (base : Z) (acc : option Z) (s : string) : option Z :=
  match s with
  | EmptyString => acc
  | String c s' =>
      let n := Z.of_nat (nat_of_ascii c) in
      let d := if bool_decide (48 ≤ n ≤ 57) then n - 48
               else if bool_decide (97 ≤ n ≤ 102) then n - 87
               else if bool_decide (65 ≤ n ≤ 70) then n - 55 else 99 in
      if bool_decide (d < base) then parse_digits base (Some (base * default 0 acc + d)) s' else acc
  end.

(** [parseInt(s)]; [None] is [NaN]. *)
Definition parseInt (s : string) : option Z :=
  let unsigned (s : string) :=
    match s with
    | String "0" (String "x" s') | String "0" (String "X" s') => parse_digits 16 None s'
    | _ => parse_digits 10 None s
    end in
  match trim_left s with
  | String "-" s' => Z.opp <$> unsigned s'
  | String "+" s' => unsigned s'
  | s' => unsigned s'
  end.

(** [value || fallback] for an optional number: 0 is falsy. *)
Definition or_default (d : Z) (v : option Z) : Z :=
  match v with Some n => if bool_decide (n = 0) then d else n | None => d end.

(** [[...participants].sort(() => Math.random() - 0.5)]: some rearrangement of
    the array, a different one at each call ([n] numbers the calls). *)
Class Shuffle := {
  shuffle : ∀ {A : Type}, nat → list A → list A;
  shuffle_perm : ∀ A n (l : list A), shuffle n l ≡ₚ l;
}.

(** ** The service *)

Section service.
Context `{Prisma} `{Percentage} `{Shuffle}.

Definition calculateTotalRounds (format : TournamentFormat) (players : Z) : option Z :=
  match format with
  | SINGLE_ELIMINATION => ceil_log2 players
  | DOUBLE_ELIMINATION => (λ r, r * 2 - 1) <$> ceil_log2 players
  | ROUND_ROBIN => Some (players - 1)
  | SWISS => ceil_log2 players
  end.

Definition getRoundName (round totalRounds : Z) : TournamentRound :=
  let roundsFromEnd := totalRounds - round + 1 in
  if bool_decide (roundsFromEnd = 1) then FINAL else
  if bool_decide (roundsFromEnd = 2) then SEMI_FINAL else
  if bool_decide (roundsFromEnd = 3) then QUARTER_FINAL else
  if bool_decide (roundsFromEnd = 4) then ROUND_OF_16 else
  if bool_decide (roundsFromEnd = 5) then ROUND_OF_32 else
  if bool_decide (roundsFromEnd = 6) then ROUND_OF_64 else
  QUALIFICATION.

(** *** Row operations *)

Definition tournament_update (i : string) (f : Tournament → Tournament) : M TDB unit :=
  db ← get;
  match row_find t_id i (tournament db) with
  | None => throw RecordNotFound
  | Some _ => put (set_tournament (row_update t_id i f (tournament db)) db)
  end.

Definition participant_update (i : string) (f : TournamentParticipant → TournamentParticipant)
    : M TDB TournamentParticipant :=
  db ← get;
  match row_find p_id i (tournamentParticipant db) with
  | None => throw RecordNotFound
  | Some p => _ ← put (set_participant (row_update p_id i f (tournamentParticipant db)) db); mret (f p)
  end.

Definition match_update (i : string) (f : TournamentMatch → TournamentMatch) : M TDB TournamentMatch :=
  db ← get;
  match row_find m_id i (tournamentMatch db) with
  | None => throw RecordNotFound
  | Some m => _ ← put (set_match (row_update m_id i f (tournamentMatch db)) db); mret (f m)
  end.

(** [tournamentMatch.create] with the columns the callers give; the others
    take their defaults. *)
Definition match_create (tournamentId : string) (round : Z) (roundName : TournamentRound)
    (matchNumber : Z) (playerAId playerBId winnerId : option string) (status : string)
    : M TDB TournamentMatch :=
  db ← get;
  let row := mkMatch (uuid (db_serial db)) tournamentId round roundName matchNumber
               playerAId playerBId winnerId 0 0 None status None in
  _ ← put (bump (set_match (tournamentMatch db ++ [row]) db));
  mret row.

(** *** Creation, registration, check-in *)

Definition createTournament (organizerId : string) (config : TournamentConfig) : M TDB Tournament :=
  if bool_decide (c_registrationEnd config ≤ c_registrationStart config)
  then throw (JsError "Registration start must be before registration end") else
  if bool_decide (c_startDate config ≤ c_registrationEnd config)
  then throw (JsError "Registration must end before tournament starts") else
  match calculateTotalRounds (c_format config) (c_maxPlayers config) with
  | None => throw (PrismaError "validation")
  | Some totalRounds =>
      db ← get;
      if bool_decide (c_gameMode config ∈ db_gameModes db ∧ is_Some (db_users db !! organizerId)) then
        let row := mkTournament (uuid (db_serial db)) (c_name config) (c_description config)
          (c_format config) PENDING (c_gameId config) (c_gameMode config) (c_maxPlayers config)
          (or_default 2 (c_minPlayers config))
          (match c_entryFee config with Some fee => if bool_decide (fee = 0) then None else Some fee | None => None end)
          (or_default 0 (c_prizePool config)) (default [] (c_prizeDistribution config))
          (c_registrationStart config) (c_registrationEnd config) (c_startDate config)
          (c_endDate config) (or_default 15 (c_checkInWindow config)) organizerId 0 totalRounds in
        _ ← put (bump (set_tournament (tournament db ++ [row]) db));
        mret row
      else throw ForeignKeyViolation
  end.

Definition createParticipant (tournamentId userId registrationId : string) : M TDB TournamentParticipant :=
  db ← get;
  if bool_decide (userId ∈ p_userId <$> filter (λ p, p_tournamentId p = tournamentId) (tournamentParticipant db))
  then throw UniqueViolation else
  let row := mkParticipant (uuid (db_serial db)) tournamentId userId None false None "REGISTERED"
               0 0 0 0 None in
  _ ← put (bump (set_participant (tournamentParticipant db ++ [row]) db));
  mret row.

Definition getNextWaitlistPosition (tournamentId : string) : M TDB Z :=
  gets (λ db, Z.of_nat (length (filter (λ r, r_tournamentId r = tournamentId ∧ r_status r = "WAITLIST")
                                  (tournamentRegistration db))) + 1).

Definition registration_create (tournamentId userId status : string) (pos : option Z) (paymentStatus : string)
    : M TDB TournamentRegistration :=
  db ← get;
  if bool_decide (db_users db !! userId = None) then throw ForeignKeyViolation else
  if bool_decide (userId ∈ r_userId <$> filter (λ r, r_tournamentId r = tournamentId) (tournamentRegistration db))
  then throw UniqueViolation else
  let row := mkRegistration (uuid (db_serial db)) tournamentId userId status pos paymentStatus in
  _ ← put (bump (set_registration (tournamentRegistration db ++ [row]) db));
  mret row.

Definition registerPlayer (now : Z) (tournamentId playerId : string) : M TDB TournamentRegistration :=
  db ← get;
  match row_find t_id tournamentId (tournament db) with
  | None => throw (JsError "Tournament not found")
  | Some t =>
      if bool_decide (now < t_registrationStart t)
      then throw (JsError "Registration has not started yet") else
      if bool_decide (t_registrationEnd t < now)
      then throw (JsError "Registration is closed") else
      if bool_decide (0 < length (filter (λ r, r_tournamentId r = tournamentId ∧ r_userId r = playerId)
                                    (tournamentRegistration db)))%nat
      then throw (JsError "Already registered for this tournament") else
      let participantCount := length (filter (λ p, p_tournamentId p = tournamentId ∧ p_status p ≠ "DISQUALIFIED")
                                        (tournamentParticipant db)) in
      let isFull := bool_decide (t_maxPlayers t ≤ Z.of_nat participantCount) in
      pos ← (if isFull then p ← getNextWaitlistPosition tournamentId; mret (Some p) else mret None);
      registration ← registration_create tournamentId playerId
        (if isFull then "WAITLIST" else "CONFIRMED") pos
        (if t_entryFee t is Some _ then "PENDING" else "PAID");
      _ ← (if negb isFull && negb (if t_entryFee t is Some _ then true else false)
           then _ ← createParticipant tournamentId playerId (r_id registration); mret tt
           else mret tt);
      mret registration
  end.

Definition checkInPlayer (now : Z) (tournamentId playerId : string) : M TDB TournamentParticipant :=
  db ← get;
  match List.find (λ p, bool_decide (p_tournamentId p = tournamentId) && bool_decide (p_userId p = playerId))
          (tournamentParticipant db) with
  | None => throw (JsError "Participant not found")
  | Some participant =>
      match row_find t_id tournamentId (tournament db) with
      | None => throw (JsError "Tournament not found")
      | Some t =>
          if bool_decide (t_startDate t < now) then throw (JsError "Tournament has already started") else
          participant_update (p_id participant) (λ p,
            mkParticipant (p_id p) (p_tournamentId p) (p_userId p) (p_seed p) true (Some now) "CHECKED_IN"
              (p_wins p) (p_losses p) (p_draws p) (p_points p) (p_prizeAmount p))
      end
  end.

(** *** Bracket generation *)

Definition generateSingleEliminationBracket (t : Tournament) (participants : list TournamentParticipant)
    : M TDB (list TournamentMatch) :=
  let playerCount := Z.of_nat (length participants) in
  let totalRounds := ceil_log2 playerCount in
  let total := default 0 totalRounds in
  first ← for_map (λ i,
    let playerA := p_id <$> participants !! (i * 2)%nat in
    let playerB := p_id <$> participants !! (i * 2 + 1)%nat in
    match_create (t_id t) 1 (getRoundName 1 total) (Z.of_nat i + 1) playerA playerB
      (match playerB with
       | None => playerA
       | Some _ => match playerA with None => playerB | Some _ => None end
       end)
      (match playerA, playerB with Some _, Some _ => "PENDING" | _, _ => "BYE" end))
    (seq 0 (pow2_pred_iterations totalRounds));
  rest ← for_map (λ ri,
    match_create (t_id t) ri.1 (getRoundName ri.1 total) (Z.of_nat ri.2 + 1) None None None "PENDING")
    (match totalRounds with
     | None => []
     | Some total =>
         seqZ 2 (total - 1) ≫= λ round, (λ i, (round, i)) <$> seq 0 (Z.to_nat (2 ^ (total - round)))
     end);
  mret (first ++ rest).

Definition generateDoubleEliminationBracket (t : Tournament) (participants : list TournamentParticipant)
    : M TDB (list TournamentMatch) :=
  let playerCount := Z.of_nat (length participants) in
  for_map (λ i,
    match_create (t_id t) 1 ROUND_OF_16 (Z.of_nat i + 1)
      (p_id <$> participants !! (i * 2)%nat) (p_id <$> participants !! (i * 2 + 1)%nat) None "PENDING")
    (seq 0 (pow2_pred_iterations (ceil_log2 playerCount))).

(** The pairs of the two nested loops, in order. *)
Fixpoint round_robin_pairs (ps : list TournamentParticipant) : list (TournamentParticipant * TournamentParticipant) :=
  match ps with
  | [] => []
  | p :: rest => ((λ q, (p, q)) <$> rest) ++ round_robin_pairs rest
  end.

Definition generateRoundRobinBracket (t : Tournament) (participants : list TournamentParticipant)
    : M TDB (list TournamentMatch) :=
  for_map (λ '(k, (p, q)),
    match_create (t_id t) 1 QUALIFICATION (Z.of_nat k + 1) (Some (p_id p)) (Some (p_id q)) None "PENDING")
    (imap pair (round_robin_pairs participants)).

(** [(shuffled[i], shuffled[i+1])] for [i = 0, 2, 4, ... < length - 1]. *)
Fixpoint adjacent_pairs {A} (l : list A) : list (A * A) :=
  match l with
  | a :: b :: rest => (a, b) :: adjacent_pairs rest
  | _ => []
  end.

Definition generateSwissBracket (t : Tournament) (participants : list TournamentParticipant)
    : M TDB (list TournamentMatch) :=
  let playerCount := Z.of_nat (length participants) in
  let totalRounds := default 0 (ceil_log2 playerCount) in
  for_map (λ '(round, (k, (p, q))),
    match_create (t_id t) round (getRoundName round totalRounds) (Z.of_nat k + 1)
      (Some (p_id p)) (Some (p_id q)) None "PENDING")
    (seqZ 1 totalRounds ≫= λ round,
      (λ kpq, (round, kpq)) <$> imap pair (adjacent_pairs (shuffle (Z.to_nat round) participants))).

Definition seed_leb (p q : TournamentParticipant) : bool :=
  match p_seed p, p_seed q with
  | _, None => true
  | None, Some _ => false
  | Some a, Some b => bool_decide (a ≤ b)
  end.

Definition generateBracket (tournamentId : string) : M TDB (list TournamentMatch) :=
  db ← get;
  match row_find t_id tournamentId (tournament db) with
  | None => throw (JsError "Tournament not found")
  | Some t =>
      let participants := order_by seed_leb
        (filter (λ p, p_tournamentId p = tournamentId ∧ p_status p = "CHECKED_IN") (tournamentParticipant db)) in
      if bool_decide (t_status t ≠ REGISTRATION_CLOSED)
      then throw (JsError "Tournament must be in REGISTRATION_CLOSED status") else
      let checkedInCount := Z.of_nat (length participants) in
      if bool_decide (checkedInCount < t_minPlayers t)
      then throw (JsError "Not enough players to start tournament") else
      matches ← (match t_format t with
        | SINGLE_ELIMINATION => generateSingleEliminationBracket t participants
        | DOUBLE_ELIMINATION => generateDoubleEliminationBracket t participants
        | ROUND_ROBIN => generateRoundRobinBracket t participants
        | SWISS => generateSwissBracket t participants
        end);
      _ ← tournament_update tournamentId (λ t,
        mkTournament (t_id t) (t_name t) (t_description t) (t_format t) IN_PROGRESS (t_gameId t) (t_gameModeId t)
          (t_maxPlayers t) (t_minPlayers t) (t_entryFee t) (t_prizePool t) (t_prizeDistribution t)
          (t_registrationStart t) (t_registrationEnd t) (t_startDate t) (t_endDate t) (t_checkInWindow t)
          (t_organizerId t) 1 (t_totalRounds t));
      mret matches
  end.

(** *** Results and progress *)

(** [data: { draws/wins/losses: { increment }, points: { increment } }] *)
Definition add_stats (wins losses draws points : Z) (p : TournamentParticipant) : TournamentParticipant :=
  mkParticipant (p_id p) (p_tournamentId p) (p_userId p) (p_seed p) (p_checkedIn p) (p_checkedInAt p) (p_status p)
    (p_wins p + wins) (p_losses p + losses) (p_draws p + draws) (p_points p + points) (p_prizeAmount p).

Definition update_stats_of (player : option string) (wins losses draws points : Z) : M TDB unit :=
  match player with
  | Some i => _ ← participant_update i (add_stats wins losses draws points); mret tt
  | None => mret tt
  end.

Definition updateParticipantStats (playerAId playerBId : option string) (result : MatchResult) : M TDB unit :=
  if bool_decide (res_resultType result = DRAW) then
    _ ← update_stats_of playerAId 0 0 1 1;
    update_stats_of playerBId 0 0 1 1
  else if bool_decide (Some (res_winnerId result) = playerAId) then
    _ ← update_stats_of playerAId 1 0 0 3;
    update_stats_of playerBId 0 1 0 0
  else if bool_decide (Some (res_winnerId result) = playerBId) then
    _ ← update_stats_of playerBId 1 0 0 3;
    update_stats_of playerAId 0 1 0 0
  else mret tt.

Definition standing_leb (p q : TournamentParticipant) : bool :=
  lex_leb (λ p q, Z.compare (p_points q) (p_points p))
    (lex_leb (λ p q, Z.compare (p_wins q) (p_wins p)) (λ p q, bool_decide (p_losses p ≤ p_losses q))) p q.

Definition standing_of (db : TDB) (index : nat) (p : TournamentParticipant) : Standing :=
  mkStanding (Z.of_nat index + 1) (p_id p) (p_userId p) (default "" (db_users db !! p_userId p))
    (p_wins p) (p_losses p) (p_draws p) (p_points p) (p_status p) (p_prizeAmount p).

Definition calculateStandings (tournamentId : string) : M TDB (list Standing) :=
  gets (λ db,
    let participants := order_by standing_leb
      (filter (λ p, p_tournamentId p = tournamentId) (tournamentParticipant db)) in
    imap (standing_of db) participants).

Definition generateNextRound (tournamentId : string) (nextRound : Z) : M TDB unit :=
  db ← get;
  match row_find t_id tournamentId (tournament db) with
  | None => mret tt
  | Some t =>
      let previousRoundMatches := any_order
        (filter (λ m, m_tournamentId m = tournamentId ∧ m_round m = nextRound - 1 ∧ m_status m = "COMPLETED")
           (tournamentMatch db)) in
      let winners := omap m_winnerId previousRoundMatches in
      for_each (λ '(k, (a, b)),
        _ ← match_create tournamentId nextRound (getRoundName nextRound (t_totalRounds t)) (Z.of_nat k + 1)
              (Some a) (Some b) None "PENDING"; mret tt)
        (imap pair (adjacent_pairs winners))
  end.

Definition set_prize (amount : Z) (status : string) (p : TournamentParticipant) : TournamentParticipant :=
  mkParticipant (p_id p) (p_tournamentId p) (p_userId p) (p_seed p) (p_checkedIn p) (p_checkedInAt p) status
    (p_wins p) (p_losses p) (p_draws p) (p_points p) (Some amount).

Definition completeTournament (now : Z) (tournamentId : string) : M TDB unit :=
  standings ← calculateStandings tournamentId;
  db ← get;
  _ ← (match row_find t_id tournamentId (tournament db) with
       | None => mret tt
       | Some t =>
           for_each (λ '(position, pct),
             match parseInt position ≫= λ rank, List.find (λ s, bool_decide (s_rank s = rank)) standings with
             | None => mret tt
             | Some s =>
                 _ ← participant_update (s_participantId s)
                       (set_prize (prize_share (t_prizePool t) pct)
                          (if bool_decide (s_rank s = 1) then "WINNER" else s_status s));
                 mret tt
             end) (t_prizeDistribution t)
       end);
  tournament_update tournamentId (λ t,
    mkTournament (t_id t) (t_name t) (t_description t) (t_format t) COMPLETED (t_gameId t) (t_gameModeId t)
      (t_maxPlayers t) (t_minPlayers t) (t_entryFee t) (t_prizePool t) (t_prizeDistribution t)
      (t_registrationStart t) (t_registrationEnd t) (t_startDate t) (Some now) (t_checkInWindow t)
      (t_organizerId t) (t_currentRound t) (t_totalRounds t)).

Definition updateTournamentProgress (now : Z) (tournamentId : string) : M TDB unit :=
  db ← get;
  match row_find t_id tournamentId (tournament db) with
  | None => throw (JsError "Tournament not found")
  | Some t =>
      let currentRoundMatches :=
        filter (λ m, m_tournamentId m = tournamentId ∧ m_round m = t_currentRound t) (tournamentMatch db) in
      let allCompleted := forallb (λ m, bool_decide (m_status m = "COMPLETED")) currentRoundMatches in
      if allCompleted && bool_decide (t_currentRound t < t_totalRounds t) then
        _ ← generateNextRound tournamentId (t_currentRound t + 1);
        tournament_update tournamentId (λ t',
          mkTournament (t_id t') (t_name t') (t_description t') (t_format t') (t_status t') (t_gameId t') (t_gameModeId t')
            (t_maxPlayers t') (t_minPlayers t') (t_entryFee t') (t_prizePool t') (t_prizeDistribution t')
            (t_registrationStart t') (t_registrationEnd t') (t_startDate t') (t_endDate t') (t_checkInWindow t')
            (t_organizerId t') (t_currentRound t + 1) (t_totalRounds t'))
      else if allCompleted && bool_decide (t_totalRounds t ≤ t_currentRound t) then
        completeTournament now tournamentId
      else mret tt
  end.

Definition checkRoundCompletion (now : Z) (tournamentId : string) (round : Z) : M TDB unit :=
  db ← get;
  let roundMatches := filter (λ m, m_tournamentId m = tournamentId ∧ m_round m = round) (tournamentMatch db) in
  if forallb (λ m, bool_decide (m_status m = "COMPLETED")) roundMatches
  then updateTournamentProgress now tournamentId
  else mret tt.

Definition complete_match (now : Z) (result : MatchResult) (m : TournamentMatch) : TournamentMatch :=
  mkMatch (m_id m) (m_tournamentId m) (m_round m) (m_roundName m) (m_matchNumber m)
    (m_playerAId m) (m_playerBId m) (Some (res_winnerId result))
    (res_playerAScore result) (res_playerBScore result) (Some (res_resultType result)) "COMPLETED" (Some now).

Definition handleMatchResult (now now' : Z) (tournamentId matchId : string) (result : MatchResult)
    : M TDB TournamentMatch :=
  db ← get;
  match row_find m_id matchId (tournamentMatch db) with
  | None => throw (JsError "Match not found")
  | Some m =>
      if bool_decide (m_status m = "COMPLETED") then throw (JsError "Match already completed") else
      if bool_decide (res_winnerId result ∈ p_id <$> tournamentParticipant db) then
        updatedMatch ← match_update matchId (complete_match now result);
        _ ← updateParticipantStats (m_playerAId m) (m_playerBId m) result;
        _ ← checkRoundCompletion now' tournamentId (m_round m);
        mret updatedMatch
      else throw ForeignKeyViolation
  end.

(** *** Queries *)

Definition bracket_leb (m n : TournamentMatch) : bool :=
  lex_leb (λ m n, Z.compare (m_round m) (m_round n)) (λ m n, bool_decide (m_matchNumber m ≤ m_matchNumber n)) m n.

Definition getTournamentBracket (tournamentId : string) : M TDB (list TournamentMatch) :=
  gets (λ db, order_by bracket_leb (filter (λ m, m_tournamentId m = tournamentId) (tournamentMatch db))).

Definition getTournament (tournamentId : string)
    : M TDB (option (Tournament * list TournamentParticipant * nat * nat)) :=
  gets (λ db, (λ t, (t, filter (λ p, p_tournamentId p = tournamentId) (tournamentParticipant db),
                     length (filter (λ m, m_tournamentId m = tournamentId) (tournamentMatch db)),
                     length (filter (λ r, r_tournamentId r = tournamentId) (tournamentRegistration db))))
              <$> row_find t_id tournamentId (tournament db)).

Record Page := mkPage {
  page_tournaments : list Tournament;
  page_page : Z;
  page_limit : Z;
  page_total : Z;
  page_totalPages : Z;
}.

(** The page and limit are positive (the defaults are 1 and 20). *)
Definition listTournaments (status : option TournamentStatus) (gameId : option string)
    (format : option TournamentFormat) (page limit : option Z) : M TDB Page :=
  gets (λ db,
    let page := default 1 page in
    let limit := default 20 limit in
    let where_ (t : Tournament) :=
      match status with Some s => bool_decide (t_status t = s) | None => true end &&
      match truthy_str gameId with Some g => bool_decide (t_gameId t = g) | None => true end &&
      match format with Some f => bool_decide (t_format t = f) | None => true end in
    let rows := List.filter where_ (tournament db) in
    mkPage (take (Z.to_nat limit) (drop (Z.to_nat ((page - 1) * limit))
              (order_by (λ a b, bool_decide (t_startDate b ≤ t_startDate a)) rows)))
      page limit (Z.of_nat (length rows)) (- ((- Z.of_nat (length rows)) / limit))).
End service.
