(* ===== verification/TournamentJob.v ===== *)
(** * The tournament job: [server/src/jobs/tournament.job.ts]

    The periodic maintenance that drives the status of the tournaments: it
    opens and closes registration by the clock, cancels or starts tournaments
    and disqualifies players who did not check in.  Each task catches what it
    throws; the writes made before the throw stay.  [cleanupOldTournaments] only
    counts and logs, so it is not here. *)

From stdpp Require Import prelude gmap strings list pretty sorting.
From S2P Require Import Prelude JsText Prisma Tournament.

Section job.
Context `{Prisma} `{Percentage} `{Shuffle}.

(** [tournament.update({ where: { id }, data: { status } })] *)
Definition set_status (s : TournamentStatus) (t : Tournament) : Tournament :=
  mkTournament (t_id t) (t_name t) (t_description t) (t_format t) s (t_gameId t) (t_gameModeId t)
    (t_maxPlayers t) (t_minPlayers t) (t_entryFee t) (t_prizePool t) (t_prizeDistribution t)
    (t_registrationStart t) (t_registrationEnd t) (t_startDate t) (t_endDate t) (t_checkInWindow t)
    (t_organizerId t) (t_currentRound t) (t_totalRounds t).

Definition generateBracketIfReady (tournamentId : string) : M TDB unit :=
  try_catch (
    db ← get;
    match row_find t_id tournamentId (tournament db) with
    | None => mret tt
    | Some t =>
        let participantCount := Z.of_nat (length
          (filter (λ p, p_tournamentId p = tournamentId ∧ p_status p = "REGISTERED") (tournamentParticipant db))) in
        if bool_decide (t_minPlayers t ≤ participantCount) then mret tt
        else tournament_update tournamentId (set_status CANCELLED)
    end) (λ _, mret tt).

(** The three loops of [updateTournamentStatuses], each over the rows its
    query returned. *)
Definition open_registration (now : Z) : M TDB unit :=
  pendingTournaments ← gets (λ db, any_order
    (filter (λ t, t_status t = PENDING ∧ t_registrationStart t ≤ now) (tournament db)));
  for_each (λ t, tournament_update (t_id t) (set_status REGISTRATION_OPEN)) pendingTournaments.

Definition close_registration (now : Z) : M TDB unit :=
  openTournaments ← gets (λ db, any_order
    (filter (λ t, t_status t = REGISTRATION_OPEN ∧ t_registrationEnd t ≤ now) (tournament db)));
  for_each (λ t,
    _ ← tournament_update (t_id t) (set_status REGISTRATION_CLOSED);
    generateBracketIfReady (t_id t)) openTournaments.

Definition start_tournaments (now : Z) : M TDB unit :=
  closedTournaments ← gets (λ db, any_order
    (filter (λ t, t_status t = REGISTRATION_CLOSED ∧ t_startDate t ≤ now) (tournament db)));
  for_each (λ t, _ ← generateBracket (t_id t); mret tt) closedTournaments.

Definition updateTournamentStatuses (now : Z) : M TDB unit :=
  try_catch (
    _ ← open_registration now;
    _ ← close_registration now;
    start_tournaments now) (λ _, mret tt).

(** [updateMany] of the participants who have not checked in. *)
Definition disqualify_absent (tid : string) (p : TournamentParticipant) : TournamentParticipant :=
  if bool_decide (p_tournamentId p = tid ∧ p_checkedIn p = false ∧ p_status p = "REGISTERED") then
    mkParticipant (p_id p) (p_tournamentId p) (p_userId p) (p_seed p) (p_checkedIn p) (p_checkedInAt p) "DISQUALIFIED"
      (p_wins p) (p_losses p) (p_draws p) (p_points p) (p_prizeAmount p)
  else p.

Definition processCheckInDeadline (now : Z) : M TDB unit :=
  try_catch (
    upcomingTournaments ← gets (λ db, any_order
      (filter (λ t, (t_status t = REGISTRATION_CLOSED ∨ t_status t = IN_PROGRESS) ∧
                    now ≤ t_startDate t ≤ now + 30 * 60 * 1000) (tournament db)));
    for_each (λ t,
      let checkInDeadline := t_startDate t - t_checkInWindow t * 60000 in
      if bool_decide (checkInDeadline ≤ now) then
        modify (λ db, set_participant (disqualify_absent (t_id t) <$> tournamentParticipant db) db)
      else mret tt) upcomingTournaments) (λ _, mret tt).

(** Each task reads the clock itself. *)
Definition runMaintenance (now1 now2 : Z) : M TDB unit :=
  _ ← updateTournamentStatuses now1;
  processCheckInDeadline now2.
End job.
