(* ===== verification/TournamentInv.v ===== *)
(** * Invariants of the tournament tables

    What every sequence of calls of [tournament.service.ts] and of runs of the
    tournament job keeps: unique ids, references to existing tournaments, one
    participant per tournament and user, no more participants than places while
    registration lasts, points that match the results, and a winner for every
    completed match.  The invariant carries the clock, which never goes back:
    players are only disqualified once registration is over. *)

From stdpp Require Import prelude gmap strings list pretty sorting.
From S2P Require Import Prelude JsText Prisma Tournament TournamentJob.

Section inv.
Context `{Prisma} `{Percentage} `{Shuffle}.

Definition participants_of (tid : string) (db : TDB) : list TournamentParticipant :=
  filter (λ p, p_tournamentId p = tid) (tournamentParticipant db).

Definition points_ok (p : TournamentParticipant) : Prop := p_points p = 3 * p_wins p + p_draws p.

(** The statuses only the closing of registration leads to. *)
Definition late (s : TournamentStatus) : Prop := s = REGISTRATION_CLOSED ∨ s = IN_PROGRESS ∨ s = CANCELLED.

(** Registration for a tournament is over at instant [c]. *)
Definition over (c : Z) (db : TDB) (tid : string) : Prop :=
  ∀ t, t ∈ tournament db → t_id t = tid → t_registrationEnd t ≤ c.

Record t_wf (c : Z) (db : TDB) : Prop := {
  w_tids : NoDup (t_id <$> tournament db);
  w_pids : NoDup (p_id <$> tournamentParticipant db);
  w_mids : NoDup (m_id <$> tournamentMatch db);
  w_issued : Forall (issued (db_serial db)) (t_id <$> tournament db) ∧
             Forall (issued (db_serial db)) (p_id <$> tournamentParticipant db) ∧
             Forall (issued (db_serial db)) (m_id <$> tournamentMatch db);
  w_fk : Forall (λ p, p_tournamentId p ∈ t_id <$> tournament db) (tournamentParticipant db);
  w_unique : NoDup ((λ p, (p_tournamentId p, p_userId p)) <$> tournamentParticipant db);
  w_points : Forall points_ok (tournamentParticipant db);
  w_late : Forall (λ t, late (t_status t) → t_registrationEnd t ≤ c) (tournament db);
  w_active : Forall (λ p, p_status p = "DISQUALIFIED" → over c db (p_tournamentId p)) (tournamentParticipant db);
  w_capacity : Forall (λ t, c < t_registrationEnd t →
                 Z.of_nat (length (participants_of (t_id t) db)) ≤ Z.max 0 (t_maxPlayers t)) (tournament db);
  w_winner : Forall (λ m, m_status m = "COMPLETED" → is_Some (m_winnerId m)) (tournamentMatch db);
}.

(** Time passing breaks nothing. *)
Lemma t_wf_mono c c' db : c ≤ c' → t_wf c db → t_wf c' db.
Proof.
  intros Hc [W1 W2 W3 W4 W5 W6 W7 W8 W9 W10 W11]. split; auto.
  - eapply Forall_impl; [exact W8|]. intros t Ht Hl. specialize (Ht Hl). lia.
  - eapply Forall_impl; [exact W9|]. intros p Hp Hd t Ht Hi. specialize (Hp Hd t Ht Hi). lia.
  - eapply Forall_impl; [exact W10|]. intros t Ht Hl. apply Ht. lia.
Qed.

(** Updating rows in place. *)
Lemma post_tournament_update c i f db :
  (∀ t, t_id (f t) = t_id t) → (∀ t, t_maxPlayers (f t) = t_maxPlayers t) →
  (∀ t, t_registrationEnd (f t) = t_registrationEnd t) →
  t_wf c db → (∀ t, t ∈ tournament db → t_id t = i → late (t_status (f t)) → t_registrationEnd t ≤ c) →
  post (tournament_update i f) db (λ db' _, t_wf c db') (λ db' _, t_wf c db').
Proof.
  intros Hid Hmax Hend Hwf Hlate. unfold tournament_update. m_step. m_step.
  destruct (row_find _ _ _) as [row|]; [|by m_step]. m_step.
  destruct Hwf as [W1 W2 W3 (I1 & I2 & I3) W4 W5 W6 W7 W8 W9 W10].
  split; simpl; rewrite ?row_update_ids by done; auto.
  - rewrite Forall_forall in W7 |- *. intros t' (t & Ht & ->)%elem_of_row_update.
    case_bool_decide; [rewrite Hend; eauto|by apply W7].
  - eapply Forall_impl; [exact W8|]. cbv beta. intros p Hp Hd t' (t & Ht & ->)%elem_of_row_update.
    specialize (Hp Hd t Ht). case_bool_decide; [by rewrite Hid, Hend|done].
  - apply Forall_row_update; [|done]. intros t' _. rewrite Hid, Hmax, Hend. done.
Qed.

Lemma preserves_tournament_update c i f :
  (∀ t, t_id (f t) = t_id t) → (∀ t, t_maxPlayers (f t) = t_maxPlayers t) →
  (∀ t, t_registrationEnd (f t) = t_registrationEnd t) → (∀ t, late (t_status (f t)) → late (t_status t)) →
  preserves (t_wf c) (tournament_update i f).
Proof.
  intros Hid Hmax Hend Hl db Hwf. apply post_tournament_update; auto. intros t Ht _ Hlt.
  pose proof (w_late c db Hwf) as W. rewrite Forall_forall in W. auto.
Qed.

Lemma over_tournament_update c tid i f db :
  (∀ t, t_id (f t) = t_id t) → (∀ t, t_registrationEnd (f t) = t_registrationEnd t) →
  over c db tid → over c (set_tournament (row_update t_id i f (tournament db)) db) tid.
Proof.
  intros Hid Hend Ho t' (t & Ht & ->)%elem_of_row_update. specialize (Ho t Ht).
  case_bool_decide; [by rewrite Hid, Hend|done].
Qed.

(** An in-place change of participants that keeps who takes part where. *)
Lemma wf_map_participants c (g : TournamentParticipant → TournamentParticipant) db :
  (∀ p, p_id (g p) = p_id p) → (∀ p, p_tournamentId (g p) = p_tournamentId p) →
  (∀ p, p_userId (g p) = p_userId p) → (∀ p, points_ok p → points_ok (g p)) →
  t_wf c db →
  (∀ p, p ∈ tournamentParticipant db → p_status (g p) = "DISQUALIFIED" →
     p_status p = "DISQUALIFIED" ∨ over c db (p_tournamentId p)) →
  t_wf c (set_participant (g <$> tournamentParticipant db) db).
Proof.
  intros Hid Htid Huid Hpts [W1 W2 W3 (I1 & I2 & I3) W4 W5 W6 W7 W8 W9 W10] Hst.
  assert (p_id <$> (g <$> tournamentParticipant db) = p_id <$> tournamentParticipant db) as Eid.
  { rewrite <- list_fmap_compose. apply list_fmap_ext. intros k p _. apply Hid. }
  split; simpl; rewrite ?Eid; auto.
  - apply Forall_fmap. eapply Forall_impl; [exact W4|]. intros p. simpl. by rewrite Htid.
  - enough ((λ p, (p_tournamentId p, p_userId p)) <$> (g <$> tournamentParticipant db) =
            (λ p, (p_tournamentId p, p_userId p)) <$> tournamentParticipant db) as -> by done.
    rewrite <- list_fmap_compose. apply list_fmap_ext. intros k p _. simpl. by rewrite Htid, Huid.
  - apply Forall_fmap. eapply Forall_impl; [exact W6|]. intros p. apply Hpts.
  - apply Forall_fmap. rewrite Forall_forall in W8 |- *. intros p Hp Hd. simpl in *. rewrite Htid.
    destruct (Hst p Hp Hd) as [Hd'|Ho]; [exact (W8 p Hp Hd')|exact Ho].
  - eapply Forall_impl; [exact W9|]. intros t Ht Hc. specialize (Ht Hc). revert Ht.
    unfold participants_of. simpl. enough (∀ l, length (filter (λ p, p_tournamentId p = t_id t) (g <$> l)) =
      length (filter (λ p, p_tournamentId p = t_id t) l)) as -> by done.
    clear -Htid. intros l. induction l as [|p l IH]; [done|]. rewrite fmap_cons, !filter_cons, Htid.
    case_decide; simpl; auto.
Qed.

Lemma post_participant_update c i f db :
  (∀ p, p_id (f p) = p_id p) → (∀ p, p_tournamentId (f p) = p_tournamentId p) →
  (∀ p, p_userId (f p) = p_userId p) → (∀ p, points_ok p → points_ok (f p)) →
  t_wf c db →
  (∀ p, p ∈ tournamentParticipant db → p_id p = i → p_status (f p) = "DISQUALIFIED" →
     p_status p = "DISQUALIFIED" ∨ over c db (p_tournamentId p)) →
  post (participant_update i f) db (λ db' _, t_wf c db') (λ db' _, t_wf c db').
Proof.
  intros Hid Htid Huid Hpts Hwf Hst. unfold participant_update. m_step. m_step.
  destruct (row_find _ _ _) as [row|]; [|by m_step]. m_step. m_step. m_step.
  apply wf_map_participants; [intros p; destruct (bool_decide _); auto..|done|].
  intros p Hp. case_bool_decide; auto.
Qed.

Lemma preserves_participant_update c i f :
  (∀ p, p_id (f p) = p_id p) → (∀ p, p_tournamentId (f p) = p_tournamentId p) →
  (∀ p, p_userId (f p) = p_userId p) → (∀ p, points_ok p → points_ok (f p)) →
  (∀ p, p_status (f p) = "DISQUALIFIED" → p_status p = "DISQUALIFIED") →
  preserves (t_wf c) (participant_update i f).
Proof. intros Hid Htid Huid Hpts Hst db Hwf. apply post_participant_update; auto. Qed.

Lemma preserves_match_update c i f :
  (∀ m, m_id (f m) = m_id m) → (∀ m, m_status (f m) = "COMPLETED" → is_Some (m_winnerId (f m))) →
  preserves (t_wf c) (match_update i f).
Proof.
  intros Hid Hw. unfold match_update. apply preserves_get_bind. intros db Hwf.
  destruct (row_find _ _ _) as [row|]; [|by m_step]. m_step. m_step. m_step.
  destruct Hwf as [W1 W2 W3 (I1 & I2 & I3) W4 W5 W6 W7 W8 W9 W10].
  split; simpl; rewrite ?row_update_ids by done; auto.
  apply Forall_row_update; auto.
Qed.

Lemma preserves_match_create c tid r rn n a b w s : s ≠ "COMPLETED" → preserves (t_wf c) (match_create tid r rn n a b w s).
Proof.
  intros Hs. unfold match_create. apply preserves_get_bind. intros db Hwf. cbv zeta. m_step. m_step. m_step.
  destruct Hwf as [W1 W2 W3 (I1 & I2 & I3) W4 W5 W6 W7 W8 W9 W10].
  split; simpl; rewrite ?fmap_app; simpl; auto using Forall_issued_mono, fresh_snoc, issued_snoc.
  apply Forall_app. split; [done|]. by repeat constructor.
Qed.

Lemma match_create_tournaments ts tid r rn n a b w s :
  preserves (λ db, tournament db = ts) (match_create tid r rn n a b w s).
Proof. unfold match_create. apply preserves_get_bind. intros db Hdb. cbv zeta. by repeat m_step. Qed.

Lemma wf_registration c l db : t_wf c db → t_wf c (bump (set_registration l db)).
Proof.
  intros [W1 W2 W3 (I1 & I2 & I3) W4 W5 W6 W7 W8 W9 W10]. split; simpl; auto using Forall_issued_mono.
Qed.

(** A new participant needs an existing tournament, and a free place while
    registration lasts. *)
Lemma post_createParticipant c tid u rid db t :
  t_wf c db → t ∈ tournament db → t_id t = tid →
  (c < t_registrationEnd t → Z.of_nat (length (participants_of tid db)) < t_maxPlayers t) →
  post (createParticipant tid u rid) db (λ db' _, t_wf c db') (λ db' _, t_wf c db').
Proof.
  intros Hwf Ht Hid Hcap. unfold createParticipant. m_step. m_step.
  case_bool_decide as Hu; [by m_step|]. m_step. m_step. m_step.
  destruct Hwf as [W1 W2 W3 (I1 & I2 & I3) W4 W5 W6 W7 W8 W9 W10].
  split; simpl; rewrite ?fmap_app; simpl; auto using Forall_issued_mono, fresh_snoc, issued_snoc.
  - apply Forall_app. split; [done|]. constructor; [|constructor]. simpl. subst tid. by apply list_elem_of_fmap_2.
  - apply NoDup_app. split_and!; [done| |apply NoDup_singleton].
    intros x Hx ->%list_elem_of_singleton. apply Hu. apply list_elem_of_fmap in Hx as (p & E & Hp).
    injection E as E1 E2. apply list_elem_of_fmap. exists p. split; [done|]. by apply list_elem_of_filter.
  - apply Forall_app. split; [done|]. by repeat constructor.
  - apply Forall_app. split; [done|]. by repeat constructor.
  - rewrite Forall_forall in W9 |- *. intros t' Ht' Hc. specialize (W9 t' Ht' Hc). unfold participants_of in *. simpl.
    rewrite filter_app, length_app, filter_cons, filter_nil. simpl. case_decide as E; simpl; [|lia].
    assert (t' = t) as -> by (apply (NoDup_key_inj t_id (tournament db)); congruence). subst tid.
    specialize (Hcap Hc). lia.
Qed.

Lemma preserves_createTournament c o cf : preserves (t_wf c) (createTournament o cf).
Proof.
  unfold createTournament. case_bool_decide; [auto with arenax|]. case_bool_decide; [auto with arenax|].
  destruct (calculateTotalRounds _ _) as [tr|]; [|auto with arenax].
  apply preserves_get_bind. intros db Hwf. case_bool_decide; [|by m_step]. cbv zeta. m_step. m_step. m_step.
  destruct Hwf as [W1 W2 W3 (I1 & I2 & I3) W4 W5 W6 W7 W8 W9 W10].
  assert (∀ p, p ∈ tournamentParticipant db → p_tournamentId p ≠ uuid (db_serial db)) as Hnew.
  { intros p Hp E. rewrite Forall_forall in W4. specialize (W4 p Hp). rewrite E in W4.
    rewrite Forall_forall in I1. by apply (not_issued (db_serial db)), I1. }
  split; simpl; rewrite ?fmap_app; simpl; auto using Forall_issued_mono, fresh_snoc, issued_snoc.
  - eapply Forall_impl; [exact W4|]. simpl. intros p Hp. set_solver.
  - apply Forall_app. split; [done|]. constructor; [|constructor]. simpl. unfold late. naive_solver.
  - rewrite Forall_forall in W8 |- *. intros p Hp Hd t [Ht| ->%list_elem_of_singleton]%elem_of_app; [by apply W8|].
    simpl. intros E. by destruct (Hnew p Hp).
  - apply Forall_app. split; [done|]. constructor; [|constructor]. simpl. intros _.
    unfold participants_of. simpl. rewrite filter_none; [simpl; lia|]. auto.
Qed.

(** The participants [registerPlayer] counts. *)
Definition active_of (tid : string) (db : TDB) : list TournamentParticipant :=
  filter (λ p, p_tournamentId p = tid ∧ p_status p ≠ "DISQUALIFIED") (tournamentParticipant db).

Lemma active_all c t db : t_wf c db → t ∈ tournament db → c < t_registrationEnd t →
  active_of (t_id t) db = participants_of (t_id t) db.
Proof.
  intros Hwf Ht Hc. pose proof (w_active c db Hwf) as Ha. unfold participants_of, active_of.
  induction Ha as [|p l Hp _ IH]; [done|]. rewrite !filter_cons, IH.
  destruct (decide (p_tournamentId p = t_id t)) as [E|E]; [|by rewrite decide_False by naive_solver].
  rewrite decide_True; [done|]. split; [done|]. intros Hd. specialize (Hp Hd t Ht (eq_sym E)). lia.
Qed.

(** Registration rows are only appended: the other tables stay. *)
Lemma post_registration_create tid u s pos pay db :
  post (registration_create tid u s pos pay) db
    (λ db' r, db' = bump (set_registration (tournamentRegistration db ++ [r]) db) ∧
       r_tournamentId r = tid ∧ r_userId r = u ∧ r_status r = s ∧ r_waitlistPosition r = pos ∧ r_paymentStatus r = pay)
    (λ db' _, db' = db).
Proof.
  unfold registration_create. m_step. m_step. case_bool_decide; [by m_step|]. case_bool_decide; [by m_step|].
  cbv zeta. repeat m_step. done.
Qed.

Lemma preserves_registerPlayer c tid u : preserves (t_wf c) (registerPlayer c tid u).
Proof.
  unfold registerPlayer. apply preserves_get_bind. intros db Hwf.
  destruct (row_find t_id tid (tournament db)) as [t|] eqn:Ht; [|by m_step].
  apply row_find_Some in Ht as [Hin Hid].
  case_bool_decide; [by m_step|]. case_bool_decide; [by m_step|]. case_bool_decide; [by m_step|]. cbv zeta.
  change (filter _ (tournamentParticipant db)) with (active_of tid db).
  destruct (bool_decide (t_maxPlayers t ≤ _)) eqn:Hfull; simpl negb.
  - m_step. m_step. unfold getNextWaitlistPosition. do 2 m_step.
    m_step. eapply post_mono; [apply post_registration_create| |by intros ?? ->].
    intros db' r [-> _]. repeat m_step. by apply wf_registration.
  - m_step. m_step. m_step. eapply post_mono; [apply post_registration_create| |by intros ?? ->].
    intros db' r [-> _]. apply bool_decide_eq_false in Hfull.
    m_step. destruct (t_entryFee t); simpl; [repeat m_step; by apply wf_registration|].
    m_step. eapply post_mono; [apply (post_createParticipant c _ _ _ _ t)| |done]; simpl; [by apply wf_registration|done..| |].
    + intros Hc. subst tid. rewrite (active_all c t db) in Hfull by done. unfold participants_of in *. simpl. lia.
    + intros db' p Hdb'. repeat m_step. done.
Qed.

Lemma preserves_checkInPlayer c tid u now : preserves (t_wf c) (checkInPlayer now tid u).
Proof.
  unfold checkInPlayer. apply preserves_get_bind. intros db Hwf.
  destruct (List.find _ _); [|by m_step]. destruct (row_find _ _ _); [|by m_step].
  case_bool_decide; [by m_step|]. by apply preserves_participant_update.
Qed.

(** The generators only create matches, none of them completed. *)
Lemma preserves_generate (I : TDB → Prop) t ps :
  (∀ tid r rn n a b w s, s ≠ "COMPLETED" → preserves I (match_create tid r rn n a b w s)) →
  preserves I (generateSingleEliminationBracket t ps) ∧ preserves I (generateDoubleEliminationBracket t ps) ∧
  preserves I (generateRoundRobinBracket t ps) ∧ preserves I (generateSwissBracket t ps).
Proof.
  intros HI. split_and!.
  - unfold generateSingleEliminationBracket. cbv zeta. apply preserves_bind.
    + apply preserves_for_map. intros i _. apply HI. by repeat case_match.
    + intros ms. apply preserves_bind; [|intros; auto with arenax].
      apply preserves_for_map. intros ri _. by apply HI.
  - apply preserves_for_map. intros i _. by apply HI.
  - apply preserves_for_map. intros [k [p q]] _. by apply HI.
  - apply preserves_for_map. intros [r [k [p q]]] _. by apply HI.
Qed.

Lemma preserves_generateBracket c tid : preserves (t_wf c) (generateBracket tid).
Proof.
  unfold generateBracket. apply preserves_get_bind. intros db Hwf.
  destruct (row_find _ _ _) as [t|] eqn:Ht; [|by m_step]. cbv zeta.
  case_bool_decide as Hs; [by m_step|]. case_bool_decide; [by m_step|].
  apply row_find_Some in Ht as [Hin Hid].
  m_step. eapply post_mono with (Q := λ db' _, t_wf c db' ∧ tournament db' = tournament db)
    (E := λ db' _, t_wf c db' ∧ tournament db' = tournament db); [| |by intros ?? []].
  - destruct (preserves_generate (λ db', t_wf c db' ∧ tournament db' = tournament db) t
      (order_by seed_leb (filter (λ p, p_tournamentId p = tid ∧ p_status p = "CHECKED_IN") (tournamentParticipant db))))
      as (G1 & G2 & G3 & G4).
    { intros. apply preserves_and; [by apply preserves_match_create|apply match_create_tournaments]. }
    destruct (t_format t); [apply G1|apply G2|apply G3|apply G4]; done.
  - intros db' ms [Hwf' Ets]. m_step. eapply post_mono; [apply (post_tournament_update c); try done| |done].
    + intros t' Ht' Hi _. rewrite Ets in Ht'.
      assert (t' = t) as -> by (apply (NoDup_key_inj t_id (tournament db)); [apply (w_tids c db Hwf)|congruence..]).
      pose proof (w_late c db Hwf) as W. rewrite Forall_forall in W. apply (W t Hin). by left.
    + intros db'' u Hwf''. by m_step.
Qed.

Lemma preserves_update_stats_of c o w l d pts :
  pts = 3 * w + d → preserves (t_wf c) (update_stats_of o w l d pts).
Proof.
  intros Hp. destruct o as [i|]; simpl; [|auto with arenax].
  apply preserves_bind; [|intros; auto with arenax]. apply preserves_participant_update; try done.
  intros p. unfold points_ok. simpl. lia.
Qed.

Lemma preserves_updateParticipantStats c a b r : preserves (t_wf c) (updateParticipantStats a b r).
Proof.
  unfold updateParticipantStats. destruct (bool_decide _); [|destruct (bool_decide _); [|destruct (bool_decide _)]].
  4: apply preserves_ret.
  all: apply preserves_bind; [|intros []]; by apply preserves_update_stats_of.
Qed.

Lemma preserves_generateNextRound c tid r : preserves (t_wf c) (generateNextRound tid r).
Proof.
  unfold generateNextRound. apply preserves_get_bind. intros db Hwf.
  destruct (row_find _ _ _) as [t|]; [|by m_step]. cbv zeta.
  refine (preserves_for_each (t_wf c) _ _ _ db Hwf). intros [k [a b]] _.
  apply preserves_bind; [by apply preserves_match_create|intros; auto with arenax].
Qed.

(** Prizes keep the status of the standings they were computed from, so only
    participants that were disqualified before are afterwards. *)
Lemma preserves_completeTournament c now tid : preserves (t_wf c) (completeTournament now tid).
Proof.
  intros db Hwf. unfold completeTournament, calculateStandings. m_step. m_step. m_step. m_step. m_step.
  set (who (db : TDB) := (λ p, (p_id p, p_tournamentId p)) <$> tournamentParticipant db).
  set (I db' := t_wf c db' ∧ tournament db' = tournament db ∧ who db' = who db).
  eapply post_mono with (Q := λ db' _, I db') (E := λ db' _, I db'); [| |by intros ?? []].
  - destruct (row_find _ _ _) as [t|]; [|by m_step].
    refine (preserves_for_each I _ _ _ db _); [|done]. intros [pos pct] _.
    destruct (parseInt pos ≫= _) as [s|] eqn:Hs; [|auto with arenax].
    apply preserves_bind; [|intros; auto with arenax].
    destruct (parseInt pos) as [rank|]; simplify_eq/=. apply find_some in Hs as [Hs _].
    apply list_elem_of_In, elem_of_lookup_imap in Hs as (k & q & -> & Hq).
    apply list_elem_of_lookup_2 in Hq. rewrite elem_of_order_by, list_elem_of_filter in Hq. destruct Hq as [Hqt Hq].
    intros db' (Hwf' & Ets & Ew). apply post_and.
    + apply post_participant_update; try done. intros p Hp Ei. simpl in *. case_bool_decide; [done|]. intros Hd. right.
      assert (p_tournamentId p = p_tournamentId q) as ->.
      { assert ((p_id p, p_tournamentId p) ∈ who db) as Hw.
        { rewrite <- Ew. apply list_elem_of_fmap. by exists p. }
        apply list_elem_of_fmap in Hw as (p' & [= E1 E2] & Hp').
        assert (p' = q) as -> by (apply (NoDup_key_inj p_id (tournamentParticipant db)); [apply (w_pids c db Hwf)|congruence..]).
        done. }
      unfold over. rewrite Ets. pose proof (w_active c db Hwf) as Ha. rewrite Forall_forall in Ha. exact (Ha q Hq Hd).
    + unfold participant_update. m_step. m_step. destruct (row_find _ _ _); [|by m_step]. m_step. m_step. m_step.
      split; [done|]. rewrite <- Ew. unfold who, row_update. simpl. rewrite <- list_fmap_compose. apply list_fmap_ext.
      intros j p _. simpl. by case_bool_decide.
  - intros db' u (Hdb' & _). apply preserves_tournament_update; try done. unfold late. naive_solver.
Qed.

Lemma preserves_updateTournamentProgress c now tid : preserves (t_wf c) (updateTournamentProgress now tid).
Proof.
  unfold updateTournamentProgress. apply preserves_get_bind. intros db Hwf.
  destruct (row_find _ _ _) as [t|]; [|by m_step]. cbv zeta.
  destruct (_ && _).
  - refine (preserves_bind (t_wf c) _ _ (preserves_generateNextRound _ _ _) _ db Hwf).
    intros []. by apply preserves_tournament_update.
  - destruct (_ && _); [by apply preserves_completeTournament|by m_step].
Qed.

Lemma preserves_handleMatchResult c now now' tid mid r : preserves (t_wf c) (handleMatchResult now now' tid mid r).
Proof.
  unfold handleMatchResult. apply preserves_get_bind. intros db Hwf.
  destruct (row_find _ _ _) as [m|]; [|by m_step]. case_bool_decide; [by m_step|].
  case_bool_decide; [|by m_step].
  refine (preserves_bind (t_wf c) _ _ _ _ db Hwf).
  - apply preserves_match_update; [done|]. intros m' _. by eexists.
  - intros um. apply preserves_bind; [apply preserves_updateParticipantStats|]. intros [].
    apply preserves_bind; [|intros; auto with arenax]. unfold checkRoundCompletion.
    apply preserves_get_bind. intros db1 Hwf1. cbv zeta. destruct (forallb _ _); [|by m_step].
    by apply preserves_updateTournamentProgress.
Qed.

(** ** The job *)

(** Moving the status of a tournament whose registration is over. *)
Lemma preserves_set_status c tid s :
  preserves (λ db, t_wf c db ∧ over c db tid) (tournament_update tid (set_status s)).
Proof.
  intros db [Hwf Ho]. apply post_and.
  - apply post_tournament_update; auto.
  - unfold tournament_update. m_step. m_step. destruct (row_find _ _ _); [|by m_step]. m_step.
    by apply over_tournament_update.
Qed.

Lemma over_set_status c tid i s : preserves (λ db, over c db tid) (tournament_update i (set_status s)).
Proof.
  unfold tournament_update. apply preserves_get_bind. intros db Ho. destruct (row_find _ _ _); [|by m_step]. m_step.
  by apply over_tournament_update.
Qed.

Lemma preserves_ready (I : TDB → Prop) tid :
  preserves I (tournament_update tid (set_status CANCELLED)) → preserves I (generateBracketIfReady tid).
Proof.
  intros HI db Hdb. unfold generateBracketIfReady. m_step. m_step. m_step.
  destruct (row_find _ _ _) as [t|]; [|by m_step]. cbv zeta. case_bool_decide; [by m_step|].
  eapply post_mono; [by apply HI|done|]. intros db' e Hdb'. by m_step.
Qed.

Lemma preserves_updateTournamentStatuses c : preserves (t_wf c) (updateTournamentStatuses c).
Proof.
  unfold updateTournamentStatuses. apply preserves_try; [|intros; auto with arenax].
  apply preserves_bind; [|intros _; apply preserves_bind; [|intros _]].
  - unfold open_registration. apply preserves_bind; [auto with arenax|]. intros ts.
    apply preserves_for_each. intros t _. apply preserves_tournament_update; try done. unfold late. naive_solver.
  - intros db Hwf. unfold close_registration. m_step. m_step.
    set (ts := any_order _). set (I db := t_wf c db ∧ ∀ t, t ∈ ts → over c db (t_id t)).
    eapply post_mono with (Q := λ db' _, I db') (E := λ db' _, I db'); [|by intros ?? []..].
    refine (preserves_for_each I _ _ _ db _).
    + intros t Ht. assert (∀ s, preserves I (tournament_update (t_id t) (set_status s))) as HI.
      { intros s db' [Hwf' Ho']. apply post_and.
        - eapply post_mono; [apply (preserves_set_status c); by auto|by intros ?? []..].
        - apply post_all. intros t'. apply post_imp. intros Ht'. apply over_set_status. auto. }
      apply preserves_bind; [apply HI|intros _; apply preserves_ready, HI].
    + split; [done|]. intros t Ht t' Ht' E. unfold ts in Ht. rewrite any_order_perm, list_elem_of_filter in Ht.
      destruct Ht as [[_ He] Ht].
      assert (t' = t) as -> by (apply (NoDup_key_inj t_id (tournament db)); [apply (w_tids c db Hwf)|done..]). done.
  - unfold start_tournaments. apply preserves_bind; [auto with arenax|]. intros ts.
    apply preserves_for_each. intros t _. apply preserves_bind; [apply preserves_generateBracket|auto with arenax].
Qed.

Lemma preserves_processCheckInDeadline c now : preserves (t_wf c) (processCheckInDeadline now).
Proof.
  unfold processCheckInDeadline. apply preserves_try; [|intros; auto with arenax].
  intros db Hwf. m_step. m_step. set (ts := any_order _).
  set (I db' := t_wf c db' ∧ tournament db' = tournament db).
  eapply post_mono with (Q := λ db' _, I db') (E := λ db' _, I db'); [|by intros ?? []..].
  refine (preserves_for_each I _ _ _ db _); [|done]. intros t Ht db' [Hwf' Ets]. cbv zeta.
  case_bool_decide; [|by m_step]. m_step. split; [|done].
  unfold ts in Ht. rewrite any_order_perm, list_elem_of_filter in Ht. destruct Ht as [[Hs _] Ht].
  apply wf_map_participants; try done; unfold disqualify_absent.
  1-4: intros p; by case_bool_decide.
  intros p Hp. case_bool_decide as Hq; [|by left]. intros _. right. destruct Hq as (-> & _ & _).
  intros t' Ht' E. rewrite Ets in Ht'.
  assert (t' = t) as -> by (apply (NoDup_key_inj t_id (tournament db)); [apply (w_tids c db Hwf)|done..]).
  pose proof (w_late c db Hwf) as W. rewrite Forall_forall in W. apply (W t Ht). unfold late. tauto.
Qed.
End inv.
