(* ===== verification/TournamentSpec.v ===== *)
(** * What the tournament service guarantees

    The invariant of the tables over arbitrary call sequences, the shape of the
    generated brackets, and the behaviour of registration, check-in and match
    results. *)

From stdpp Require Import prelude gmap strings list pretty sorting.
From S2P Require Import Prelude JsText Prisma Tournament TournamentJob TournamentInv.

(** ** Lists of slots *)

Lemma take_S_option {A} (n : nat) (l : list A) : take (S n) l = take n l ++ option_list (l !! n).
Proof.
  revert n. induction l as [|x l IH]; intros [|n]; simpl; try done. by rewrite IH.
Qed.

(** Reading an array two by two for [n] steps visits its first [2n] elements. *)
Lemma pairs_take {A} (l : list A) (n : nat) :
  (seq 0 n ≫= λ i, option_list (l !! (i * 2)%nat) ++ option_list (l !! (i * 2 + 1)%nat)) = take (n * 2) l.
Proof.
  induction n as [|n IH]; [done|]. rewrite seq_S, bind_app, IH. cbn [seq mbind list_bind]. rewrite app_nil_r. cbn [Nat.add].
  replace (S n * 2)%nat with (S (S (n * 2))) by lia. rewrite !take_S_option, <- app_assoc.
  by replace (n * 2 + 1)%nat with (S (n * 2)) by lia.
Qed.

Lemma length_filter_tagged (f : Z → nat) (rs : list Z) r :
  NoDup rs →
  length (filter (λ x : Z * nat, x.1 = r) (rs ≫= λ round, (λ i, (round, i)) <$> seq 0 (f round))) =
    if decide (r ∈ rs) then f r else 0%nat.
Proof.
  induction rs as [|q rs IH]; [done|]. intros [Hq Hrs]%NoDup_cons. rewrite bind_cons, filter_app, length_app, IH by done.
  assert (∀ n, filter (λ x : Z * nat, x.1 = r) ((λ i, (q, i)) <$> seq 0 n) = if decide (q = r) then (λ i, (q, i)) <$> seq 0 n else []) as ->.
  { intros n. generalize (seq 0 n). intros l. induction l as [|i l IHl]; [by destruct (decide (q = r))|].
    rewrite fmap_cons, filter_cons, IHl. cbn [fst]. by destruct (decide (q = r)). }
  destruct (decide (q = r)) as [->|Hne].
  - rewrite length_fmap, length_seq, (decide_False (P := r ∈ rs)), decide_True by set_solver. lia.
  - simpl. destruct (decide (r ∈ rs)); [rewrite decide_True by set_solver|rewrite decide_False by set_solver]; done.
Qed.

Lemma length_filter_imap {A B} (P : B → Prop) `{∀ x, Decision (P x)} (Q : A → Prop) `{∀ x, Decision (Q x)}
    (g : nat → A → B) l :
  (∀ j x, P (g j x) ↔ Q x) → length (filter P (imap g l)) = length (filter Q l).
Proof.
  revert g. induction l as [|x l IH]; intros g Hg; [done|]. rewrite imap_cons, !filter_cons.
  destruct (decide (Q x)) as [HQ|HQ].
  - rewrite decide_True by (by apply Hg). simpl. f_equal. apply IH. intros j y. apply Hg.
  - rewrite decide_False by (by rewrite Hg). apply IH. intros j y. apply Hg.
Qed.

Lemma filter_imap_all {A B} (P : B → Prop) `{∀ x, Decision (P x)} (g : nat → A → B) l :
  (∀ j x, P (g j x)) → filter P (imap g l) = imap g l.
Proof.
  revert g. induction l as [|x l IH]; intros g Hg; [done|]. rewrite imap_cons, filter_cons, decide_True by done.
  f_equal. apply IH. intros; apply Hg.
Qed.

Lemma filter_imap_none {A B} (P : B → Prop) `{∀ x, Decision (P x)} (g : nat → A → B) l :
  (∀ j x, x ∈ l → ¬ P (g j x)) → filter P (imap g l) = [].
Proof.
  revert g. induction l as [|x l IH]; intros g Hg; [done|]. rewrite imap_cons, filter_cons, decide_False by (apply Hg; left).
  apply IH. intros j y Hy. apply Hg. by right.
Qed.

(** Rounds of [2^(n-1)], ..., 2, 1 matches add up to [2^n - 1]. *)
Lemma length_rounds a (n : nat) :
  Z.of_nat (length (seqZ a (Z.of_nat n) ≫= λ round, (λ i, (round, i)) <$> seq 0 (Z.to_nat (2 ^ (a + Z.of_nat n - 1 - round))))) =
    2 ^ Z.of_nat n - 1.
Proof.
  revert a. induction n as [|n IH]; intros a; [done|].
  rewrite seqZ_cons by lia. replace (Z.pred (Z.of_nat (S n))) with (Z.of_nat n) by lia.
  rewrite bind_cons, length_app, length_fmap, length_seq, Nat2Z.inj_add.
  specialize (IH (Z.succ a)).
  replace (Z.succ a + Z.of_nat n - 1) with (a + Z.of_nat (S n) - 1) in IH by lia. rewrite IH.
  replace (a + Z.of_nat (S n) - 1 - a) with (Z.of_nat n) by lia.
  rewrite Z2Nat.id by (apply Z.pow_nonneg; lia).
  rewrite Nat2Z.inj_succ, Z.pow_succ_r by lia. lia.
Qed.

Section spec.
Context `{Prisma} `{Percentage} `{Shuffle}.

(** ** Calls as steps *)

Inductive t_op :=
| OpCreate (organizerId : string) (config : TournamentConfig)
| OpRegister (tid user : string)
| OpCheckIn (tid user : string)
| OpGenerate (tid : string)
| OpResult (tid mid : string) (result : MatchResult)
| OpProgress (tid : string)
| OpMaintenance.

(** A call that reads the clock at [now], and perhaps again at [now']. *)
Definition t_run (now now' : Z) (op : t_op) : M TDB unit :=
  match op with
  | OpCreate o c => _ ← createTournament o c; mret tt
  | OpRegister tid u => _ ← registerPlayer now tid u; mret tt
  | OpCheckIn tid u => _ ← checkInPlayer now tid u; mret tt
  | OpGenerate tid => _ ← generateBracket tid; mret tt
  | OpResult tid mid r => _ ← handleMatchResult now now' tid mid r; mret tt
  | OpProgress tid => updateTournamentProgress now tid
  | OpMaintenance => runMaintenance now now'
  end.

(** The clock and the tables; the clock does not go back. *)
Inductive t_step : Z * TDB → Z * TDB → Prop :=
| t_call c now now' op db db' r :
    c ≤ now → now ≤ now' → t_run now now' op db = (db', r) → t_step (c, db) (now', db').

Definition empty_tdb (us : gmap string string) (modes : gset string) : TDB := mkTDB us modes [] [] [] [] 0.

Lemma preserves_t_run now now' op : preserves (t_wf now) (t_run now now' op).
Proof.
  destruct op; simpl.
  - apply preserves_bind; [apply preserves_createTournament|auto with arenax].
  - apply preserves_bind; [apply preserves_registerPlayer|auto with arenax].
  - apply preserves_bind; [apply preserves_checkInPlayer|auto with arenax].
  - apply preserves_bind; [apply preserves_generateBracket|auto with arenax].
  - apply preserves_bind; [apply preserves_handleMatchResult|auto with arenax].
  - apply preserves_updateTournamentProgress.
  - apply preserves_bind; [apply preserves_updateTournamentStatuses|]. intros _. apply preserves_processCheckInDeadline.
Qed.

Lemma t_step_wf s s' : t_step s s' → t_wf s.1 s.2 → t_wf s'.1 s'.2.
Proof.
  intros [c now now' op db db' r Hc Hn Hr] Hwf. simpl in *. apply (t_wf_mono now); [done|].
  eapply preserves_run; [apply preserves_t_run| |exact Hr]. by apply (t_wf_mono c).
Qed.

Lemma t_steps_wf s s' : rtc t_step s s' → t_wf s.1 s.2 → t_wf s'.1 s'.2.
Proof. induction 1 as [|s1 s2 s3 Hs12 _ IH]; [done|]. intros Hwf. by eapply IH, t_step_wf. Qed.

Lemma empty_t_wf c us modes : t_wf c (empty_tdb us modes).
Proof. split; simpl; repeat constructor. Qed.

(** C4: after any sequence of tournament calls and job runs, failing ones
    included, ids are unique, each user takes part in a tournament at most
    once, no tournament has more participants than places while its
    registration lasts, nobody is disqualified before registration is over,
    every participant's points are three times the wins plus the draws, and
    every completed match has a winner. *)
Theorem tournament_invariant us modes c0 c db : rtc t_step (c0, empty_tdb us modes) (c, db) → t_wf c db.
Proof.
  intros Hs. exact (t_steps_wf _ _ Hs (empty_t_wf c0 us modes)).
Qed.

(** ** Brackets *)

(** A loop that creates one match per element appends the matches, each with
    the next id. *)
Lemma for_map_create {A} (f : A → M TDB TournamentMatch) (row : string → A → TournamentMatch) l db :
  (∀ x db, f x db = (bump (set_match (tournamentMatch db ++ [row (uuid (db_serial db)) x]) db),
                     Ok (row (uuid (db_serial db)) x))) →
  let ms := imap (λ k x, row (uuid (db_serial db + k)) x) l in
  for_map f l db =
    (mkTDB (db_users db) (db_gameModes db) (tournament db) (tournamentParticipant db) (tournamentMatch db ++ ms)
       (tournamentRegistration db) (db_serial db + length l), Ok ms).
Proof.
  intros Hf. revert db. induction l as [|x l IH]; intros db; cbv zeta.
  - simpl. unfold mret, M_ret. rewrite app_nil_r, Nat.add_0_r. by destruct db.
  - cbn [for_map]. unfold mbind, M_bind. rewrite Hf, IH. simpl. rewrite Nat.add_0_r, <- app_assoc. simpl.
    rewrite <- plus_n_Sm. unfold mret, M_ret.
    assert (imap (λ k y, row (uuid (S (db_serial db) + k)) y) l = imap ((λ k y, row (uuid (db_serial db + k)) y) ∘ S) l) as E.
    { apply imap_ext. intros i y _. unfold compose. do 2 f_equal. lia. }
    simpl in E. by rewrite E.
Qed.

Definition slots (m : TournamentMatch) : list string := option_list (m_playerAId m) ++ option_list (m_playerBId m).

(** The matches of a single elimination bracket as data. *)
Definition first_row (t : Tournament) (total : Z) (ps : list TournamentParticipant) (id : string) (i : nat) : TournamentMatch :=
  let playerA := p_id <$> ps !! (i * 2)%nat in
  let playerB := p_id <$> ps !! (i * 2 + 1)%nat in
  mkMatch id (t_id t) 1 (getRoundName 1 total) (Z.of_nat i + 1) playerA playerB
    (match playerB with None => playerA | Some _ => match playerA with None => playerB | Some _ => None end end)
    0 0 None (match playerA, playerB with Some _, Some _ => "PENDING" | _, _ => "BYE" end) None.

Definition later_row (t : Tournament) (total : Z) (id : string) (ri : Z * nat) : TournamentMatch :=
  mkMatch id (t_id t) ri.1 (getRoundName ri.1 total) (Z.of_nat ri.2 + 1) None None None 0 0 None "PENDING" None.

Lemma single_elimination_eval t ps db k :
  ceil_log2 (Z.of_nat (length ps)) = Some k →
  let later := seqZ 2 (k - 1) ≫= λ round, (λ i, (round, i)) <$> seq 0 (Z.to_nat (2 ^ (k - round))) in
  let n := pow2_pred_iterations (Some k) in
  let ms := imap (λ j i, first_row t k ps (uuid (db_serial db + j)) i) (seq 0 n) ++
            imap (λ j ri, later_row t k (uuid (db_serial db + n + j)) ri) later in
  ∃ db', generateSingleEliminationBracket t ps db = (db', Ok ms) ∧
    tournamentMatch db' = tournamentMatch db ++ ms ∧ tournamentParticipant db' = tournamentParticipant db.
Proof.
  intros Hk. cbv zeta. unfold generateSingleEliminationBracket. cbv zeta. rewrite Hk. cbn [default from_option].
  unfold mbind at 1, M_bind at 1. rewrite (for_map_create _ (first_row t k ps)) by done.
  unfold mbind at 1, M_bind at 1. rewrite (for_map_create _ (later_row t k)) by done.
  eexists. split; [cbn; by rewrite length_seq|]. simpl. by rewrite app_assoc.
Qed.

Lemma ceil_log2_ge2 n : (2 ≤ n)%nat →
  ∃ k, ceil_log2 (Z.of_nat n) = Some k ∧ 1 ≤ k ∧ 2 ^ (k - 1) < Z.of_nat n ≤ 2 ^ k.
Proof.
  intros Hn. unfold ceil_log2. rewrite bool_decide_true by lia. eexists. split; [done|].
  pose proof (Z.log2_up_spec (Z.of_nat n) ltac:(lia)) as Hs.
  pose proof (Z.log2_up_pos (Z.of_nat n) ltac:(lia)) as Hp.
  unfold Z.pred in Hs. split; [lia|]. replace (Z.log2_up (Z.of_nat n) - 1) with (Z.log2_up (Z.of_nat n) + -1) by lia. lia.
Qed.

Lemma first_round_slots t k ps (ids : nat → string) n :
  (imap (λ j i, first_row t k ps (ids j) i) (seq 0 n) ≫= slots) = take (n * 2) (p_id <$> ps).
Proof.
  rewrite <- pairs_take. generalize (seq 0 n) as l. intros l. revert ids.
  induction l as [|i l IH]; intros ids; [done|]. rewrite imap_cons, !bind_cons. f_equal.
  - unfold slots. simpl. by rewrite !list_lookup_fmap.
  - apply (IH (ids ∘ S)).
Qed.

(** C30: a single elimination bracket for two or more participants has the
    right shape: with [k] the least number of rounds that fits them, round [r]
    has [2^(k-r)] matches for each [r] from 1 to [k] and [2^k - 1] in all, and
    the first round seats every participant exactly once, in seeding order. *)
Theorem single_elimination_spec t ps db :
  (2 ≤ length ps)%nat →
  ∃ db' ms k, generateSingleEliminationBracket t ps db = (db', Ok ms) ∧
    tournamentMatch db' = tournamentMatch db ++ ms ∧
    2 ^ (k - 1) < Z.of_nat (length ps) ≤ 2 ^ k ∧
    Z.of_nat (length ms) = 2 ^ k - 1 ∧
    (∀ r, 1 ≤ r ≤ k → Z.of_nat (length (filter (λ m, m_round m = r) ms)) = 2 ^ (k - r)) ∧
    (filter (λ m, m_round m = 1) ms ≫= slots) = p_id <$> ps.
Proof.
  intros Hn. destruct (ceil_log2_ge2 _ Hn) as (k & Hk & Hk1 & Hb).
  destruct (single_elimination_eval t ps db k Hk) as (db' & Hg & Hm & _).
  do 3 eexists. split; [exact Hg|]. split; [exact Hm|]. split; [exact Hb|]. clear Hg Hm.
  set (n := pow2_pred_iterations (Some k)).
  assert (Z.of_nat n = 2 ^ (k - 1)) as Hnz.
  { unfold n, pow2_pred_iterations. rewrite bool_decide_true by lia. rewrite Z2Nat.id by (apply Z.pow_nonneg; lia). done. }
  assert (2 ^ k = 2 * 2 ^ (k - 1)) as Hpow by (rewrite <- Z.pow_succ_r by lia; f_equal; lia).
  split_and!.
  - rewrite length_app, !length_imap, length_seq, Nat2Z.inj_add, Hnz.
    pose proof (length_rounds 2 (Z.to_nat (k - 1))) as Hl. rewrite Z2Nat.id in Hl by lia.
    replace (2 + (k - 1) - 1) with k in Hl by lia. rewrite Hl. lia.
  - intros r Hr. rewrite filter_app, length_app.
    rewrite (length_filter_imap _ (λ x : Z * nat, x.1 = r)) by done.
    rewrite (length_filter_tagged (λ round, Z.to_nat (2 ^ (k - round)))) by apply NoDup_seqZ.
    destruct (decide (r = 1)) as [->|Hr1].
    + rewrite filter_imap_all by done. rewrite length_imap, length_seq, decide_False by (rewrite elem_of_seqZ; lia). lia.
    + rewrite filter_imap_none by (simpl; congruence). rewrite decide_True by (rewrite elem_of_seqZ; lia).
      simpl. rewrite Z2Nat.id by (apply Z.pow_nonneg; lia). done.
  - rewrite filter_app, filter_imap_all by done. rewrite filter_imap_none, app_nil_r.
    + rewrite (first_round_slots t k ps (λ j, uuid (db_serial db + j))). apply take_ge.
      rewrite length_fmap. lia.
    + intros j [r i] Hin. simpl. apply list_elem_of_bind in Hin as (r' & Hin & Hr').
      apply list_elem_of_fmap in Hin as (? & [= <- _] & _). apply elem_of_seqZ in Hr'. lia.
Qed.

(** Byes are not spread over the bracket: when at least two places of the
    first round stay free, its last match has no player at all and, although
    it is a bye, no winner, so nobody comes out of that part of the bracket. *)
Theorem single_elimination_empty_match t ps db k :
  ceil_log2 (Z.of_nat (length ps)) = Some k → 2 ≤ k → Z.of_nat (length ps) + 2 ≤ 2 ^ k →
  ∃ db' ms m, generateSingleEliminationBracket t ps db = (db', Ok ms) ∧ m ∈ ms ∧
    m_round m = 1 ∧ m_matchNumber m = 2 ^ (k - 1) ∧ m_status m = "BYE" ∧
    m_playerAId m = None ∧ m_playerBId m = None ∧ m_winnerId m = None.
Proof.
  intros Hk Hk2 Hfree. destruct (single_elimination_eval t ps db k Hk) as (db' & Hg & _ & _).
  assert (2 ^ k = 2 * 2 ^ (k - 1)) as Hpow by (rewrite <- Z.pow_succ_r by lia; f_equal; lia).
  assert (0 < 2 ^ (k - 1)) as Hpos by (apply Z.pow_pos_nonneg; lia).
  set (i := Z.to_nat (2 ^ (k - 1) - 1)).
  assert (ps !! (i * 2)%nat = None ∧ ps !! (i * 2 + 1)%nat = None) as [HA HB].
  { split; apply lookup_ge_None; unfold i; lia. }
  do 2 eexists. exists (first_row t k ps (uuid (db_serial db + i)) i). split; [exact Hg|]. split.
  - apply elem_of_app. left. apply (elem_of_lookup_imap_2 (λ j i, first_row t k ps (uuid (db_serial db + j)) i)).
    rewrite lookup_seq. split; [done|]. unfold pow2_pred_iterations. rewrite bool_decide_true by lia. unfold i. lia.
  - unfold first_row. rewrite HA, HB. simpl. split_and!; try done. unfold i. lia.
Qed.

(** ** Round robin *)

Definition meets (a b : string) (m : TournamentMatch) : Prop :=
  (m_playerAId m = Some a ∧ m_playerBId m = Some b) ∨ (m_playerAId m = Some b ∧ m_playerBId m = Some a).
#[export] Instance meets_dec a b m : Decision (meets a b m).
Proof. unfold meets. apply _. Defined.

Definition rr_row (t : Tournament) (id : string) (kpq : nat * (TournamentParticipant * TournamentParticipant)) : TournamentMatch :=
  let '(k, (p, q)) := kpq in
  mkMatch id (t_id t) 1 QUALIFICATION (Z.of_nat k + 1) (Some (p_id p)) (Some (p_id q)) None 0 0 None "PENDING" None.

Lemma round_robin_eval t ps db :
  let ms := imap (λ j x, rr_row t (uuid (db_serial db + j)) x) (imap pair (round_robin_pairs ps)) in
  ∃ db', generateRoundRobinBracket t ps db = (db', Ok ms) ∧ tournamentMatch db' = tournamentMatch db ++ ms.
Proof.
  cbv zeta. unfold generateRoundRobinBracket. rewrite (for_map_create _ (rr_row t)) by (by intros [k [p q]] ?).
  eexists. split; [done|]. done.
Qed.

Lemma length_rr_pairs ps : Z.of_nat (length (round_robin_pairs ps)) * 2 = Z.of_nat (length ps) * (Z.of_nat (length ps) - 1).
Proof.
  induction ps as [|p ps IH]; [done|]. simpl. rewrite length_app, length_fmap. nia.
Qed.

(** The pair of two distinct participants occurs once in the pair list. *)
Lemma rr_pairs_once (ps : list TournamentParticipant) a b :
  NoDup (p_id <$> ps) → a ∈ p_id <$> ps → b ∈ p_id <$> ps → a ≠ b →
  length (filter (λ pq, (p_id pq.1 = a ∧ p_id pq.2 = b) ∨ (p_id pq.1 = b ∧ p_id pq.2 = a)) (round_robin_pairs ps)) = 1%nat.
Proof.
  assert (Hone : ∀ (l : list TournamentParticipant) (x y : string) (p : TournamentParticipant),
    NoDup (p_id <$> l) → p_id p = x → x ≠ y →
    length (filter (λ pq : TournamentParticipant * TournamentParticipant,
        (p_id pq.1 = x ∧ p_id pq.2 = y) ∨ (p_id pq.1 = y ∧ p_id pq.2 = x)) ((λ q, (p, q)) <$> l)) =
      if decide (y ∈ p_id <$> l) then 1%nat else 0%nat).
  { intros l x y p Hl <- Hxy. induction l as [|q l IH]; [done|]. rewrite fmap_cons in Hl.
    apply NoDup_cons in Hl as [Hq Hl]. rewrite fmap_cons, filter_cons. cbn [fst snd].
    destruct (decide (p_id q = y)) as [<-|Hqy].
    - rewrite decide_True by auto. simpl. rewrite IH by done. rewrite decide_False by done.
      by rewrite decide_True by set_solver.
    - rewrite decide_False by naive_solver. rewrite IH by done.
      destruct (decide (y ∈ p_id <$> l)); [rewrite decide_True by set_solver|rewrite decide_False by set_solver]; done. }
  assert (Hswap : ∀ (l : list (TournamentParticipant * TournamentParticipant)) x y,
    length (filter (λ pq, (p_id pq.1 = x ∧ p_id pq.2 = y) ∨ (p_id pq.1 = y ∧ p_id pq.2 = x)) l) =
    length (filter (λ pq, (p_id pq.1 = y ∧ p_id pq.2 = x) ∨ (p_id pq.1 = x ∧ p_id pq.2 = y)) l)).
  { intros l x y. f_equal. apply list_filter_iff. tauto. }
  assert (Hnone : ∀ (l : list TournamentParticipant) x y, x ∉ p_id <$> l →
    filter (λ pq, (p_id pq.1 = x ∧ p_id pq.2 = y) ∨ (p_id pq.1 = y ∧ p_id pq.2 = x)) (round_robin_pairs l) = []).
  { intros l x y Hx. apply filter_none. induction l as [|p l IH]; simpl; [set_solver|].
    intros [u v] [Hin|Hin]%elem_of_app; [|apply IH; set_solver].
    apply list_elem_of_fmap in Hin as (q & [= -> ->] & Hq). simpl.
    intros [[E _]|[_ E]]; apply Hx; rewrite <- E; [left|right]; by apply list_elem_of_fmap_2. }
  induction ps as [|p ps IH]; [set_solver|]. rewrite fmap_cons. intros [Hp Hnd]%NoDup_cons Ha Hb Hab.
  simpl. rewrite filter_app, length_app.
  apply elem_of_cons in Ha as [Ha|Ha], Hb as [Hb|Hb]; try congruence.
  - rewrite (Hone ps a b p) by done. rewrite decide_True by done. rewrite Hnone by congruence. done.
  - rewrite Hswap, (Hone ps b a p) by done. rewrite decide_True by done. rewrite Hswap, Hnone by congruence. done.
  - rewrite IH by done. rewrite filter_none; [done|]. intros [u v] Hin. simpl.
    apply list_elem_of_fmap in Hin as (q & [= -> ->] & Hq).
    intros [[E _]|[E _]]; apply Hp; congruence.
Qed.

(** A round robin bracket lets every two participants meet exactly once:
    it has [n(n-1)/2] matches, and for two distinct participants exactly one
    of them is between the two. *)
Theorem round_robin_spec t ps db :
  NoDup (p_id <$> ps) →
  ∃ db' ms, generateRoundRobinBracket t ps db = (db', Ok ms) ∧
    tournamentMatch db' = tournamentMatch db ++ ms ∧
    Z.of_nat (length ms) * 2 = Z.of_nat (length ps) * (Z.of_nat (length ps) - 1) ∧
    ∀ a b, a ∈ p_id <$> ps → b ∈ p_id <$> ps → a ≠ b → length (filter (meets a b) ms) = 1%nat.
Proof.
  intros Hnd. destruct (round_robin_eval t ps db) as (db' & Hg & Hm).
  do 2 eexists. split; [exact Hg|]. split; [exact Hm|]. split; [rewrite !length_imap; apply length_rr_pairs|].
  intros a b Ha Hb Hab. rewrite <- (rr_pairs_once ps a b) by done.
  set (Q := λ pq : TournamentParticipant * TournamentParticipant, (p_id pq.1 = a ∧ p_id pq.2 = b) ∨ (p_id pq.1 = b ∧ p_id pq.2 = a)).
  rewrite (length_filter_imap _ (λ x : nat * (TournamentParticipant * TournamentParticipant), Q x.2)).
  - by rewrite (length_filter_imap _ Q).
  - intros j [k [p q]]. unfold meets, Q. simpl. naive_solver.
Qed.

(** ** Registration, check-in, results *)

Definition waitlist (tid : string) (db : TDB) : list TournamentRegistration :=
  filter (λ r, r_tournamentId r = tid ∧ r_status r = "WAITLIST") (tournamentRegistration db).

(** Registering a known user who has not registered, within the
    registration period: with no place left the player goes to the end of the
    waiting list and takes no place; with a place left the registration is
    confirmed, and the player takes the place at once exactly when there is no
    entry fee to pay first. *)
Theorem registerPlayer_spec now tid u db t :
  row_find t_id tid (tournament db) = Some t →
  t_registrationStart t ≤ now ≤ t_registrationEnd t → is_Some (db_users db !! u) →
  u ∉ r_userId <$> filter (λ r, r_tournamentId r = tid) (tournamentRegistration db) →
  u ∉ p_userId <$> participants_of tid db →
  ∃ db' r, registerPlayer now tid u db = (db', Ok r) ∧
    tournamentRegistration db' = tournamentRegistration db ++ [r] ∧
    r_tournamentId r = tid ∧ r_userId r = u ∧
    if decide (t_maxPlayers t ≤ Z.of_nat (length (active_of tid db))) then
      r_status r = "WAITLIST" ∧ r_waitlistPosition r = Some (Z.of_nat (length (waitlist tid db)) + 1) ∧
      tournamentParticipant db' = tournamentParticipant db
    else
      r_status r = "CONFIRMED" ∧ r_waitlistPosition r = None ∧
      match t_entryFee t with
      | Some _ => r_paymentStatus r = "PENDING" ∧ tournamentParticipant db' = tournamentParticipant db
      | None => r_paymentStatus r = "PAID" ∧ ∃ p, p_userId p = u ∧ p_tournamentId p = tid ∧ p_status p = "REGISTERED" ∧
                  tournamentParticipant db' = tournamentParticipant db ++ [p]
      end.
Proof.
  intros Ht [Hs He] [un Hu] Hreg Hpart.
  assert (filter (λ r, r_tournamentId r = tid ∧ r_userId r = u) (tournamentRegistration db) = []) as Hnone.
  { apply filter_none. intros r Hr [E1 E2]. apply Hreg. subst u. apply list_elem_of_fmap_2. by apply list_elem_of_filter. }
  unfold registerPlayer, getNextWaitlistPosition, registration_create, createParticipant.
  unfold mbind, M_bind, get, gets, put, mret, M_ret, throw. cbv beta. rewrite Ht.
  rewrite !(bool_decide_false (_ < _)), Hnone by lia. cbn [length]. rewrite (bool_decide_false (0 < 0)%nat) by lia.
  fold (active_of tid db).
  destruct (decide (t_maxPlayers t ≤ Z.of_nat (length (active_of tid db)))) as [Hfull|Hfree].
  - rewrite (bool_decide_true (t_maxPlayers t ≤ _)) by done. cbn.
    rewrite bool_decide_false by congruence. rewrite bool_decide_false by done. do 2 eexists. split; [done|]. done.
  - rewrite (bool_decide_false (t_maxPlayers t ≤ _)) by done. cbn.
    rewrite bool_decide_false by congruence. rewrite bool_decide_false by done.
    destruct (t_entryFee t); cbn; [do 2 eexists; split; [done|]; done|].
    rewrite bool_decide_false by done. do 2 eexists. split; [done|]. split_and!; try done.
    eexists. split_and!; [..|done]; done.
Qed.

(** Check-in ignores the check-in window: whatever the window is set to, a
    participant can check in at any moment up to the start, and the status
    becomes CHECKED_IN even for a participant who was disqualified. *)
Theorem checkIn_ignores_window now tid u db t p :
  row_find t_id tid (tournament db) = Some t → now ≤ t_startDate t →
  NoDup (p_id <$> tournamentParticipant db) →
  List.find (λ p, bool_decide (p_tournamentId p = tid) && bool_decide (p_userId p = u)) (tournamentParticipant db) = Some p →
  ∃ db' p', checkInPlayer now tid u db = (db', Ok p') ∧ p_id p' = p_id p ∧ p_status p' = "CHECKED_IN" ∧
    row_find p_id (p_id p) (tournamentParticipant db') = Some p'.
Proof.
  intros Ht Hnow Hnd Hp. unfold checkInPlayer, participant_update, mbind, M_bind, get, put, mret, M_ret, throw. cbv beta.
  rewrite Hp, Ht, bool_decide_false by lia.
  assert (row_find p_id (p_id p) (tournamentParticipant db) = Some p) as Hf.
  { apply row_find_elem; [done| |done]. apply find_some in Hp as [Hp _]. by apply list_elem_of_In. }
  rewrite Hf. do 2 eexists. split; [done|]. split_and!; [done..|].
  simpl. rewrite row_find_update by done. rewrite Hf. simpl. by rewrite bool_decide_true.
Qed.

(** A completed match stays completed, whatever the other steps write. *)
Definition done_match (mid : string) (db : TDB) : Prop :=
  ∃ m, row_find m_id mid (tournamentMatch db) = Some m ∧ m_status m = "COMPLETED".

Lemma preserves_done_tournament_update mid i f : preserves (done_match mid) (tournament_update i f).
Proof.
  unfold tournament_update. apply preserves_get_bind. intros db Hd. destruct (row_find t_id _ _); by m_step.
Qed.

Lemma preserves_done_participant_update mid i f : preserves (done_match mid) (participant_update i f).
Proof.
  unfold participant_update. apply preserves_get_bind. intros db Hd. destruct (row_find p_id _ _); repeat m_step; done.
Qed.

Lemma preserves_done_match_create mid tid r rn n a b w s : preserves (done_match mid) (match_create tid r rn n a b w s).
Proof.
  unfold match_create. apply preserves_get_bind. intros db (m & Hm & Hs). cbv zeta. repeat m_step.
  exists m. split; [|done]. simpl. by rewrite row_find_app, Hm.
Qed.

Hint Resolve preserves_done_tournament_update preserves_done_participant_update preserves_done_match_create : arenax.

Lemma preserves_done_stats mid a b r : preserves (done_match mid) (updateParticipantStats a b r).
Proof.
  assert (∀ o w l d pts, preserves (done_match mid) (update_stats_of o w l d pts)) as Hu.
  { intros [i|] w l d pts; simpl; auto with arenax. }
  unfold updateParticipantStats. destruct (bool_decide _); [|destruct (bool_decide _); [|destruct (bool_decide _)]].
  4: apply preserves_ret.
  all: apply preserves_bind; [|intros []]; apply Hu.
Qed.

Lemma preserves_done_progress mid now tid : preserves (done_match mid) (updateTournamentProgress now tid).
Proof.
  unfold updateTournamentProgress. apply preserves_get_bind. intros db Hd.
  destruct (row_find t_id _ _) as [t|]; [|by m_step]. cbv zeta.
  destruct (_ && bool_decide (t_currentRound t < _)); [|destruct (_ && _); [|by m_step]].
  - refine (preserves_bind _ _ _ _ _ db Hd); [|auto with arenax].
    unfold generateNextRound. apply preserves_bind; [auto with arenax|]. intros db1.
    destruct (row_find t_id _ _); [|auto with arenax]. apply preserves_for_each. intros [k [a b]] _. auto with arenax.
  - refine (preserves_bind _ _ _ _ _ db Hd); [unfold calculateStandings; auto with arenax|]. intros st.
    apply preserves_bind; [auto with arenax|]. intros db1. apply preserves_bind; [|auto with arenax].
    destruct (row_find t_id _ _); [|auto with arenax]. apply preserves_for_each. intros [pos pct] _.
    destruct (parseInt pos ≫= _); auto with arenax.
Qed.

Lemma preserves_done_round mid now tid round : preserves (done_match mid) (checkRoundCompletion now tid round).
Proof.
  unfold checkRoundCompletion. apply preserves_get_bind. intros db Hd. cbv zeta.
  destruct (forallb _ _); [by apply preserves_done_progress|by m_step].
Qed.

(** A match result counts once: the call that records it returns the
    completed match with the reported winner, and every later report for that
    match, by whoever and for whichever tournament, throws and changes
    nothing. *)
Theorem result_recorded_once now now' tid mid res db db' m now2 now2' tid2 res2 :
  handleMatchResult now now' tid mid res db = (db', Ok m) →
  m_status m = "COMPLETED" ∧ m_winnerId m = Some (res_winnerId res) ∧
  handleMatchResult now2 now2' tid2 mid res2 db' = (db', Throw (JsError "Match already completed")).
Proof.
  intros Hrun. enough (post (handleMatchResult now now' tid mid res) db
    (λ db' m, m_status m = "COMPLETED" ∧ m_winnerId m = Some (res_winnerId res) ∧ done_match mid db') (λ _ _, True)) as Hp.
  { apply (post_ok _ _ _ _ _ _ Hrun) in Hp as (Hs & Hw & m' & Hm' & Hc). split_and!; [done..|].
    unfold handleMatchResult, mbind, M_bind, get, throw. cbv beta. by rewrite Hm', bool_decide_true. }
  clear Hrun. unfold handleMatchResult. m_step. m_step. destruct (row_find m_id _ _) as [m0|]; [|by m_step].
  case_bool_decide; [by m_step|]. case_bool_decide; [|by m_step].
  m_step. unfold match_update. m_step. m_step. destruct (row_find m_id _ _) as [m1|] eqn:Hm1; [|by m_step].
  m_step. m_step. m_step.
  assert (done_match mid (set_match (row_update m_id mid (complete_match now res) (tournamentMatch db)) db)) as Hd.
  { exists (complete_match now res m1). simpl. rewrite row_find_update by done.
    rewrite Hm1. simpl. by rewrite bool_decide_true. }
  m_step. eapply post_mono; [by apply preserves_done_stats| |done]. intros db1 u1 Hd1.
  m_step. eapply post_mono; [by apply (preserves_done_round mid)| |done]. intros db2 u2 Hd2.
  m_step. done.
Qed.
End spec.
