(* ===== verification/TournamentJobSpec.v ===== *)
(** * The life of a tournament

    How the status of a tournament moves under the service and the job, two
    ways the job stops tournaments that could run, and concrete runs that
    exercise the theorems on tournaments. *)

From stdpp Require Import prelude gmap strings list pretty sorting.
From S2P Require Import Prelude JsText Prisma Tournament TournamentJob TournamentInv TournamentSpec.

Section life.
Context `{Prisma} `{Percentage} `{Shuffle}.

(** ** The status machine *)

Inductive moves : relation TournamentStatus :=
| mv_open : moves PENDING REGISTRATION_OPEN
| mv_close : moves REGISTRATION_OPEN REGISTRATION_CLOSED
| mv_cancel : moves REGISTRATION_CLOSED CANCELLED
| mv_start : moves REGISTRATION_CLOSED IN_PROGRESS
| mv_complete s : moves s COMPLETED.

(** Every tournament of [db0] is still in [db], further along. *)
Definition since (db0 db : TDB) : Prop :=
  ∀ i t, row_find t_id i (tournament db0) = Some t →
    ∃ t', row_find t_id i (tournament db) = Some t' ∧ rtc moves (t_status t) (t_status t').

Lemma since_refl db : since db db.
Proof. intros i t Ht. by exists t. Qed.

Lemma since_trans db1 db2 db3 : since db1 db2 → since db2 db3 → since db1 db3.
Proof.
  intros H12 H23 i t (t2 & Ht2 & R2)%H12. destruct (H23 i t2 Ht2) as (t3 & Ht3 & R3).
  exists t3. split; [done|by etrans].
Qed.

(** [advances m]: whatever the outcome of [m], statuses only move along. *)
Definition advances {A} (m : M TDB A) : Prop := ∀ db0, preserves (since db0) m.

Lemma advances_from {A} (m : M TDB A) :
  (∀ db, post m db (λ db' _, since db db') (λ db' _, since db db')) → advances m.
Proof.
  intros Hm db0 db Hdb. eapply post_mono; [apply Hm|..]; intros; by eapply since_trans.
Qed.

Lemma post_update_since db0 i f db :
  (∀ t, t_id (f t) = t_id t) → since db0 db →
  (∀ t t', row_find t_id i (tournament db0) = Some t → row_find t_id i (tournament db) = Some t' →
     rtc moves (t_status t) (t_status t') → rtc moves (t_status t) (t_status (f t'))) →
  post (tournament_update i f) db (λ db' _, since db0 db') (λ db' _, since db0 db').
Proof.
  intros Hid Hs Hf. unfold tournament_update. m_step. m_step. destruct (row_find t_id i (tournament db)) eqn:Hi; [|by m_step]. m_step.
  intros j t0 Ht0. destruct (Hs j t0 Ht0) as (t' & Ht' & R). simpl. rewrite row_find_update, Ht' by done.
  eexists. split; [done|]. case_bool_decide; [|done]. subst j. apply Hf; [done|congruence|]. exact R.
Qed.

Lemma advances_update i f :
  (∀ t, t_id (f t) = t_id t) → (∀ t, rtc moves (t_status t) (t_status (f t))) → advances (tournament_update i f).
Proof.
  intros Hid Hf db0 db Hs. apply post_update_since; auto. intros t t' _ _ R. by etrans.
Qed.

(** Computations that leave the tournament rows alone. *)
Lemma advances_same {A} (m : M TDB A) :
  (∀ ts, preserves (λ db, tournament db = ts) m) → advances m.
Proof.
  intros Hm. apply advances_from. intros db.
  eapply post_mono; [by apply (Hm (tournament db))|..]; intros db' ? E i t Ht; exists t; simpl in E; by rewrite E.
Qed.

Lemma same_participant_update ts i f : preserves (λ db, tournament db = ts) (participant_update i f).
Proof. unfold participant_update. apply preserves_get_bind. intros db Hdb. destruct (row_find _ _ _); by repeat m_step. Qed.

Lemma same_match_update ts i f : preserves (λ db, tournament db = ts) (match_update i f).
Proof. unfold match_update. apply preserves_get_bind. intros db Hdb. destruct (row_find _ _ _); by repeat m_step. Qed.

Lemma same_createParticipant ts tid u rid : preserves (λ db, tournament db = ts) (createParticipant tid u rid).
Proof. unfold createParticipant. apply preserves_get_bind. intros db Hdb. case_bool_decide; by repeat m_step. Qed.

Lemma same_registration_create ts tid u s pos pay :
  preserves (λ db, tournament db = ts) (registration_create tid u s pos pay).
Proof.
  unfold registration_create. apply preserves_get_bind. intros db Hdb. case_bool_decide; [by m_step|].
  case_bool_decide; by repeat m_step.
Qed.

Hint Resolve same_participant_update same_match_update same_createParticipant same_registration_create
  match_create_tournaments : arenax.

Lemma advances_register now tid u : advances (registerPlayer now tid u).
Proof.
  apply advances_same. intros ts. unfold registerPlayer. apply preserves_bind; [auto with arenax|]. intros db.
  destruct (row_find _ _ _) as [t|]; [|auto with arenax].
  do 3 (case_bool_decide; [auto with arenax|]). cbv zeta. apply preserves_bind.
  { case_bool_decide; [|auto with arenax]. unfold getNextWaitlistPosition. auto with arenax. }
  intros pos. apply preserves_bind; [auto with arenax|]. intros r.
  apply preserves_bind; [destruct (_ && _); auto with arenax|auto with arenax].
Qed.

Lemma advances_checkIn now tid u : advances (checkInPlayer now tid u).
Proof.
  apply advances_same. intros ts. unfold checkInPlayer. apply preserves_bind; [auto with arenax|]. intros db.
  destruct (List.find _ _); [|auto with arenax]. destruct (row_find _ _ _); [|auto with arenax].
  case_bool_decide; auto with arenax.
Qed.

Lemma advances_create o c : advances (createTournament o c).
Proof.
  apply advances_from. intros db. pose proof (since_refl db) as Hr. unfold createTournament.
  case_bool_decide; [by m_step|]. case_bool_decide; [by m_step|]. destruct (calculateTotalRounds _ _); [|by m_step].
  m_step. m_step. case_bool_decide; [|by m_step]. cbv zeta. m_step. m_step. m_step.
  intros i t Ht. exists t. split; [|done]. simpl. by rewrite row_find_app, Ht.
Qed.

Lemma advances_generateBracket tid : advances (generateBracket tid).
Proof.
  apply advances_from. intros db. pose proof (since_refl db) as Hr. unfold generateBracket. m_step. m_step.
  destruct (row_find t_id tid _) as [t|] eqn:Ht; [|by m_step]. cbv zeta.
  case_bool_decide as Hs; [by m_step|]. case_bool_decide; [by m_step|].
  m_step. eapply post_mono with (Q := λ db' _, tournament db' = tournament db) (E := λ db' _, tournament db' = tournament db).
  - destruct (preserves_generate (λ db', tournament db' = tournament db) t
      (order_by seed_leb (filter (λ p, p_tournamentId p = tid ∧ p_status p = "CHECKED_IN") (tournamentParticipant db))))
      as (G1 & G2 & G3 & G4); [auto with arenax|].
    destruct (t_format t); [apply G1|apply G2|apply G3|apply G4]; done.
  - intros db' ms E. m_step. eapply post_mono; [apply (post_update_since db); [done|..]| |done].
    + intros i t' Ht'. exists t'. by rewrite E.
    + intros t1 t2 Ht1 Ht2 _. simplify_eq. rewrite Hs. apply rtc_once, mv_start.
    + intros db'' u Hs'. by m_step.
  - intros db' e E i t' Ht'. exists t'. by rewrite E.
Qed.

Lemma advances_stats a b r : advances (updateParticipantStats a b r).
Proof.
  apply advances_same. intros ts. assert (∀ o w l d pts, preserves (λ db, tournament db = ts) (update_stats_of o w l d pts)) as Hu.
  { intros [i|] w l d pts; simpl; auto with arenax. }
  unfold updateParticipantStats. destruct (bool_decide _); [|destruct (bool_decide _); [|destruct (bool_decide _)]].
  4: apply preserves_ret.
  all: apply preserves_bind; [|intros []]; apply Hu.
Qed.

Lemma advances_progress now tid : advances (updateTournamentProgress now tid).
Proof.
  intros db0. unfold updateTournamentProgress. apply preserves_bind; [auto with arenax|]. intros db.
  destruct (row_find t_id _ _) as [t|]; [|auto with arenax]. cbv zeta.
  destruct (_ && bool_decide (t_currentRound t < _)); [|destruct (_ && _); [|auto with arenax]].
  - apply preserves_bind; [|intros _; by apply advances_update]. apply advances_same. intros ts.
    unfold generateNextRound. apply preserves_bind; [auto with arenax|]. intros db1.
    destruct (row_find t_id _ _); [|auto with arenax]. apply preserves_for_each. intros [k [a b]] _. auto with arenax.
  - unfold completeTournament, calculateStandings. apply preserves_bind; [auto with arenax|]. intros st.
    apply preserves_bind; [auto with arenax|]. intros db1. apply preserves_bind.
    + apply advances_same. intros ts. destruct (row_find t_id _ _); [|auto with arenax].
      apply preserves_for_each. intros [pos pct] _. destruct (parseInt pos ≫= _); auto with arenax.
    + intros _. apply advances_update; [done|]. intros t'. apply rtc_once, mv_complete.
Qed.

Lemma advances_result now now' tid mid r : advances (handleMatchResult now now' tid mid r).
Proof.
  intros db0. unfold handleMatchResult. apply preserves_bind; [auto with arenax|]. intros db.
  destruct (row_find m_id _ _) as [m|]; [|auto with arenax]. case_bool_decide; [auto with arenax|].
  case_bool_decide; [|auto with arenax]. apply preserves_bind; [apply advances_same; auto with arenax|]. intros um.
  apply preserves_bind; [apply advances_stats|]. intros _. apply preserves_bind; [|auto with arenax].
  unfold checkRoundCompletion. apply preserves_bind; [auto with arenax|]. intros db1. cbv zeta.
  destruct (forallb _ _); [apply advances_progress|auto with arenax].
Qed.

(** *** The job: rows are found by the ids of an earlier query *)

Definition keyed (db : TDB) : Prop := NoDup (t_id <$> tournament db).

Lemma keyed_update i f : (∀ t, t_id (f t) = t_id t) → preserves keyed (tournament_update i f).
Proof.
  intros Hid. unfold tournament_update. apply preserves_get_bind. intros db Hk.
  destruct (row_find _ _ _); m_step; [|done]. unfold keyed. simpl. by rewrite row_update_ids.
Qed.

(** A loop that moves the status of the tournaments of a query. *)
Lemma post_status_loop (P : Tournament → Prop) `{∀ t, Decision (P t)} (body : Tournament → M TDB unit) db (Q : TournamentStatus → Prop) :
  keyed db → (∀ t, P t → Q (t_status t)) →
  (∀ i db', (∀ t, row_find t_id i (tournament db) = Some t → Q (t_status t)) → since db db' → ∀ t, t_id t = i →
     post (body t) db' (λ db'' _, since db db'') (λ db'' _, since db db'')) →
  post (for_each body (any_order (filter P (tournament db)))) db (λ db' _, since db db') (λ db' _, since db db').
Proof.
  intros Hk HQ Hbody. apply post_for_each; [apply since_refl|]. intros t db' Ht Hs.
  rewrite any_order_perm, list_elem_of_filter in Ht. destruct Ht as [HP Ht].
  apply (Hbody (t_id t)); [|done..]. intros t' Ht'.
  assert (row_find t_id (t_id t) (tournament db) = Some t) as E by by apply row_find_elem. simplify_eq. auto.
Qed.

Lemma post_open now db : keyed db → post (open_registration now) db (λ db' _, since db db') (λ db' _, since db db').
Proof.
  intros Hk. unfold open_registration. m_step. m_step. apply (post_status_loop _ _ _ (.= PENDING)); [done|naive_solver|].
  intros i db' Hi Hs t <-. apply post_update_since; [done..|]. intros t1 t2 Ht1 _ _. rewrite (Hi t1 Ht1). apply rtc_once, mv_open.
Qed.

Lemma post_close now db : keyed db → post (close_registration now) db (λ db' _, since db db') (λ db' _, since db db').
Proof.
  intros Hk. unfold close_registration. m_step. m_step. apply (post_status_loop _ _ _ (.= REGISTRATION_OPEN)); [done|naive_solver|].
  intros i db' Hi Hs t <-. m_step. eapply post_mono; [apply (post_update_since db)| |done]; [done..| |].
  - intros t1 t2 Ht1 _ _. rewrite (Hi t1 Ht1). apply rtc_once, mv_close.
  - intros db'' u Hs''. apply (preserves_ready (since db)); [|done]. intros db3 Hs3. apply post_update_since; [done..|].
    intros t1 t2 Ht1 _ _. rewrite (Hi t1 Ht1). eapply rtc_l; [apply mv_close|]. apply rtc_once, mv_cancel.
Qed.

Lemma keyed_open now : preserves keyed (open_registration now).
Proof.
  unfold open_registration. apply preserves_bind; [auto with arenax|]. intros ts. apply preserves_for_each.
  intros t _. by apply keyed_update.
Qed.

Lemma post_statuses now db : keyed db →
  post (updateTournamentStatuses now) db (λ db' _, since db db') (λ db' _, since db db').
Proof.
  intros Hk. unfold updateTournamentStatuses. m_step. m_step.
  eapply post_mono; [apply post_and; [by apply post_open|by apply keyed_open]| |by intros ?? [? _]; m_step].
  intros db1 u1 [Hs1 Hk1]. m_step.
  eapply post_mono; [by apply post_close| |intros; m_step; by eapply since_trans].
  intros db2 u2 Hs2. unfold start_tournaments. m_step. m_step.
  eapply post_mono; [refine (preserves_for_each (since db) _ _ _ db2 _)|done|intros; by m_step].
  - intros t _. apply preserves_bind; [apply advances_generateBracket|auto with arenax].
  - by eapply since_trans.
Qed.

Lemma advances_deadline now : advances (processCheckInDeadline now).
Proof.
  apply advances_same. intros ts. unfold processCheckInDeadline. apply preserves_try; [|auto with arenax].
  apply preserves_bind; [auto with arenax|]. intros l. apply preserves_for_each. intros t _. cbv zeta.
  case_bool_decide; [|auto with arenax]. intros db Hdb. by m_step.
Qed.

Lemma advances_void {A} (m : M TDB A) : advances m → advances (_ ← m; mret tt).
Proof. intros Hm db0. apply preserves_bind; [apply Hm|auto with arenax]. Qed.

Lemma t_run_since now now' op db : keyed db →
  post (t_run now now' op) db (λ db' _, since db db') (λ db' _, since db db').
Proof.
  intros Hk. destruct op; cbn [t_run].
  - apply advances_void, since_refl. apply advances_create.
  - apply advances_void, since_refl. apply advances_register.
  - apply advances_void, since_refl. apply advances_checkIn.
  - apply advances_void, since_refl. apply advances_generateBracket.
  - apply advances_void, since_refl. apply advances_result.
  - apply advances_progress, since_refl.
  - unfold runMaintenance. m_step. eapply post_mono; [by apply post_statuses| |done].
    intros db' u Hs. by apply advances_deadline.
Qed.

(** A tournament is never lost and its status never goes back: along any
    run its status follows pending, open, closed and then in progress or
    cancelled, from where it stays but for completion. *)
Theorem status_progress us modes c0 c1 db1 c2 db2 i t :
  rtc t_step (c0, empty_tdb us modes) (c1, db1) → rtc t_step (c1, db1) (c2, db2) →
  row_find t_id i (tournament db1) = Some t →
  ∃ t', row_find t_id i (tournament db2) = Some t' ∧ rtc moves (t_status t) (t_status t').
Proof.
  intros H01 H12. enough (since db1 db2) as Hs by apply Hs.
  assert (t_wf c1 db1) as Hwf by exact (t_steps_wf _ _ H01 (empty_t_wf c0 us modes)).
  clear H01. change (since (c1, db1).2 (c2, db2).2). revert Hwf. change (t_wf (c1, db1).1 (c1, db1).2 → since (c1, db1).2 (c2, db2).2).
  induction H12 as [s|s1 s2 s3 Hs12 _ IH]; intros Hwf; [apply since_refl|].
  assert (t_wf s2.1 s2.2) as Hwf2 by by eapply t_step_wf.
  eapply since_trans; [|by apply IH]. destruct Hs12 as [c now now' op db db' r _ _ Hr]. simpl in *.
  pose proof (t_run_since now now' op db (w_tids _ _ Hwf)) as Hp. unfold post in Hp. rewrite Hr in Hp. by destruct r.
Qed.
(** ** Tournaments that could run but do not *)

(** The check made when registration closes counts the participants that
    are still REGISTERED: a tournament all of whose players have already
    checked in is cancelled, however many there are. *)
Theorem early_check_in_cancels tid db t :
  row_find t_id tid (tournament db) = Some t → 1 ≤ t_minPlayers t →
  Forall (λ p, p_status p = "CHECKED_IN") (participants_of tid db) →
  ∃ db', generateBracketIfReady tid db = (db', Ok tt) ∧
    row_find t_id tid (tournament db') = Some (set_status CANCELLED t).
Proof.
  intros Ht Hmin Hall. unfold generateBracketIfReady, try_catch, tournament_update, mbind, M_bind, get, put. cbv beta.
  rewrite Ht. rewrite filter_none; [|intros p Hp [E1 E2]].
  - cbn [length]. rewrite bool_decide_false by lia. cbv beta iota. rewrite ?Ht. eexists. split; [done|]. simpl.
    rewrite row_find_update, Ht by done. simpl. by rewrite bool_decide_true.
  - rewrite Forall_forall in Hall. assert (p_status p = "CHECKED_IN") as E; [|congruence].
    apply Hall. by apply list_elem_of_filter.
Qed.

(** One tournament with too few checked-in players blocks the others: when
    it comes first among the tournaments that are due, the run of the job
    starts none of them, whatever their players did. *)
Theorem short_tournament_blocks now db t rest :
  keyed db →
  any_order (filter (λ t, t_status t = REGISTRATION_CLOSED ∧ t_startDate t ≤ now) (tournament db)) = t :: rest →
  Z.of_nat (length (filter (λ p, p_tournamentId p = t_id t ∧ p_status p = "CHECKED_IN") (tournamentParticipant db)))
    < t_minPlayers t →
  start_tournaments now db = (db, Throw (JsError "Not enough players to start tournament")).
Proof.
  intros Hk Hq Hn. assert (t ∈ any_order (filter (λ t, t_status t = REGISTRATION_CLOSED ∧ t_startDate t ≤ now) (tournament db))) as Ht.
  { rewrite Hq. left. }
  rewrite any_order_perm, list_elem_of_filter in Ht. destruct Ht as [[Hs _] Ht].
  unfold start_tournaments, mbind, M_bind, gets, get, throw. cbv beta. rewrite Hq. cbn [for_each]. unfold mbind, M_bind.
  unfold generateBracket, mbind at 1, M_bind, get, throw. cbv beta.
  rewrite (row_find_elem t_id (t_id t) (tournament db) t) by done.
  rewrite bool_decide_false by naive_solver. cbv zeta. rewrite (Permutation_length (order_by_perm _ _ _)). by rewrite bool_decide_true.
Qed.
End life.

(** ** Concrete runs *)

(** Prizes in percent, and a sort that happens to keep the order. *)
#[export] Instance percent_model : Percentage := {| percentage := Z; prize_share pool p := pool * p / 100 |}.
#[export] Instance no_shuffle : Shuffle.
Proof. refine {| shuffle _ _ l := l |}. done. Defined.

Section witnesses.
Definition cup : TournamentConfig :=
  mkConfig "cup" None SINGLE_ELIMINATION "chess" "blitz" 4 None None (Some 1000) (Some [("1", 70); ("2", 30)])
    0 100 10000000 None None.
Definition w_users : gmap string string := {["alice" := "Alice"; "bob" := "Bob"; "carol" := "Carol"]}.

Definition t_after (c : Z) (op : t_op) (db : TDB) : TDB := (t_run c c op db).1.
Fixpoint t_runs (ops : list (Z * t_op)) (db : TDB) : TDB :=
  match ops with [] => db | (c, op) :: ops' => t_runs ops' (t_after c op db) end.

Fixpoint ordered (c : Z) (ops : list (Z * t_op)) : bool :=
  match ops with [] => true | (c', _) :: ops' => bool_decide (c ≤ c') && ordered c' ops' end.
Fixpoint last_time (c : Z) (ops : list (Z * t_op)) : Z :=
  match ops with [] => c | (c', _) :: ops' => last_time c' ops' end.

Lemma t_runs_steps c ops db : ordered c ops → rtc t_step (c, db) (last_time c ops, t_runs ops db).
Proof.
  revert c db. induction ops as [|[c' op] ops IH]; intros c db; simpl; [done|].
  intros [Hc%bool_decide_unpack Ho]%andb_True. eapply rtc_l; [|by apply IH].
  eapply (t_call c c' c' op db); [done..|]. unfold t_after. apply surjective_pairing.
Qed.

Definition tid : string := uuid 0.
Definition setup : list (Z * t_op) :=
  [(0, OpCreate "alice" cup); (5, OpMaintenance); (10, OpRegister tid "alice"); (20, OpRegister tid "bob")].
Definition playing : list (Z * t_op) :=
  [(100, OpMaintenance); (200, OpCheckIn tid "alice"); (300, OpCheckIn tid "bob"); (10000000, OpMaintenance)].

Definition db_open : TDB := t_runs setup (empty_tdb w_users {["blitz"]}).
Definition db_playing : TDB := t_runs playing db_open.

Definition w_cup : Tournament := default (mkTournament "" "" None SWISS PENDING "" "" 0 0 None 0 [] 0 0 0 None 0 "" 0 0)
  (row_find t_id tid (tournament db_open)).

Lemma setup_steps : rtc t_step (0, empty_tdb w_users {["blitz"]}) (20, db_open).
Proof. exact (t_runs_steps 0 setup _ I). Qed.
Lemma playing_steps : rtc t_step (20, db_open) (10000000, db_playing).
Proof. exact (t_runs_steps 20 playing db_open I). Qed.

Lemma tournament_invariant_witness :
  t_wf 10000000 db_playing ∧ t_status <$> tournament db_playing = [IN_PROGRESS] ∧ length (tournamentMatch db_playing) = 1%nat.
Proof.
  split; [|by vm_compute].
  apply (tournament_invariant w_users {["blitz"]} 0). etrans; [exact setup_steps|exact playing_steps].
Defined.

Lemma status_progress_witness :
  ∃ t', row_find t_id tid (tournament db_playing) = Some t' ∧ rtc moves REGISTRATION_OPEN (t_status t').
Proof.
  apply (status_progress w_users {["blitz"]} 0 20 db_open 10000000 db_playing tid w_cup setup_steps playing_steps).
  vm_compute. reflexivity.
Defined.

(** Three players for a tournament with id [tid], the first the best seed. *)
Definition w_player (i : string) : TournamentParticipant :=
  mkParticipant i tid i None true None "CHECKED_IN" 0 0 0 0 None.
Definition w_three : list TournamentParticipant := w_player <$> ["a"; "b"; "c"].
Lemma single_elimination_spec_witness :
  ∃ db' ms, generateSingleEliminationBracket w_cup w_three db_open = (db', Ok ms) ∧ length ms = 3%nat.
Proof.
  destruct (single_elimination_spec w_cup w_three db_open) as (db' & ms & k & Hg & _ & Hk & Hl & _).
  - simpl. lia.
  - exists db', ms. split; [exact Hg|]. simpl in Hk. assert (k = 2) as ->; [|lia].
    assert (1 < k) by (apply Z.lt_nge; intros Hle; pose proof (Z.pow_le_mono_r 2 k 1 ltac:(lia) Hle); lia).
    assert (k - 1 < 2) by (apply Z.lt_nge; intros Hle; pose proof (Z.pow_le_mono_r 2 2 (k - 1) ltac:(lia) Hle); lia). lia.
Defined.

Lemma single_elimination_empty_match_witness :
  ∃ db' ms m, generateSingleEliminationBracket w_cup (w_player <$> ["a"; "b"; "c"; "d"; "e"; "f"]) db_open = (db', Ok ms) ∧
    m ∈ ms ∧ m_matchNumber m = 4 ∧ m_winnerId m = None.
Proof.
  destruct (single_elimination_empty_match w_cup (w_player <$> ["a"; "b"; "c"; "d"; "e"; "f"]) db_open 3)
    as (db' & ms & m & Hg & Hm & _ & Hn & _ & _ & _ & Hw); [reflexivity|lia|simpl; lia|].
  exists db', ms, m. by split_and!.
Defined.

Lemma round_robin_spec_witness :
  ∃ db' ms, generateRoundRobinBracket w_cup w_three db_open = (db', Ok ms) ∧ length ms = 3%nat ∧
    length (filter (meets "c" "a") ms) = 1%nat.
Proof.
  destruct (round_robin_spec w_cup w_three db_open) as (db' & ms & Hg & _ & Hl & Ho).
  - apply (bool_decide_unpack (NoDup (p_id <$> w_three))). by vm_compute.
  - exists db', ms. split_and!; [exact Hg|change (length w_three) with 3%nat in Hl; lia|]. apply Ho; simpl; set_solver.
Defined.

Lemma registerPlayer_spec_witness :
  ∃ db' r, registerPlayer 30 tid "carol" db_open = (db', Ok r) ∧ r_status r = "CONFIRMED".
Proof.
  destruct (registerPlayer_spec 30 tid "carol" db_open w_cup) as (db' & r & Hr & _ & _ & _ & Hs).
  - reflexivity.
  - vm_compute. split; discriminate.
  - by eexists.
  - apply (bool_decide_unpack (_ ∉ _)). by vm_compute.
  - apply (bool_decide_unpack (_ ∉ _)). by vm_compute.
  - exists db', r. split; [exact Hr|]. rewrite decide_False in Hs by (vm_compute; congruence). exact (proj1 Hs).
Defined.

Lemma checkIn_ignores_window_witness :
  ∃ db' p', checkInPlayer 9999999 tid "alice" db_open = (db', Ok p') ∧ p_status p' = "CHECKED_IN".
Proof.
  destruct (checkIn_ignores_window 9999999 tid "alice" db_open w_cup
    (mkParticipant (uuid 2) tid "alice" None false None "REGISTERED" 0 0 0 0 None)) as (db' & p' & Hr & _ & Hs & _).
  - reflexivity.
  - vm_compute. discriminate.
  - apply (bool_decide_unpack (NoDup _)). by vm_compute.
  - reflexivity.
  - by exists db', p'.
Defined.

Definition w_final : string := default "" (m_id <$> tournamentMatch db_playing !! 0%nat).
Definition w_winner : string := default "" (tournamentMatch db_playing !! 0%nat ≫= m_playerBId).

Definition w_report : TDB * result TournamentMatch :=
  handleMatchResult 1 1 tid w_final (mkResult w_final 1 3 w_winner WIN) db_playing.
Definition w_match : TournamentMatch :=
  match w_report.2 with Ok m => m | Throw _ => mkMatch "" "" 0 FINAL 0 None None None 0 0 None "" None end.

Lemma w_report_ok : handleMatchResult 1 1 tid w_final (mkResult w_final 1 3 w_winner WIN) db_playing = (w_report.1, Ok w_match).
Proof. vm_compute. reflexivity. Qed.

Lemma result_recorded_once_witness :
  m_status w_match = "COMPLETED" ∧
  handleMatchResult 2 2 tid w_final (mkResult w_final 3 1 w_winner LOSS) w_report.1 =
    (w_report.1, Throw (JsError "Match already completed")).
Proof.
  split; [vm_compute; reflexivity|].
  exact (proj2 (proj2 (result_recorded_once 1 1 tid w_final (mkResult w_final 1 3 w_winner WIN) db_playing w_report.1 w_match
    2 2 tid (mkResult w_final 3 1 w_winner LOSS) w_report_ok))).
Defined.

(** The number of rounds comes from the places, not from the players: with two
    players for four places the only match is reported and nothing is left to
    report, yet the tournament waits for a second round that has no match. *)
Lemma half_filled_cup_stalls :
  (λ t, (t_status t, t_currentRound t)) <$> tournament w_report.1 = [(IN_PROGRESS, 2)] ∧
  m_status <$> tournamentMatch w_report.1 = ["COMPLETED"].
Proof. vm_compute. split; reflexivity. Qed.

(** The tournament a result is reported for is not compared with the match's
    own: the report completes a match of the first cup and moves the second
    one, still pending and without matches, into its first round. *)
Definition db_cross : TDB := t_after 10000001 (OpCreate "alice" cup) db_playing.
Definition tid2 : string := uuid (db_serial db_playing).

Lemma foreign_report_advances :
  (λ t, (t_id t, t_status t, t_currentRound t)) <$>
    tournament (handleMatchResult 2 2 tid2 w_final (mkResult w_final 1 3 w_winner WIN) db_cross).1 =
    [(tid, IN_PROGRESS, 1); (tid2, PENDING, 1)].
Proof. vm_compute. reflexivity. Qed.

Lemma early_check_in_cancels_witness :
  ∃ db', generateBracketIfReady tid (t_runs [(30, OpCheckIn tid "alice"); (40, OpCheckIn tid "bob")] db_open) = (db', Ok tt) ∧
    t_status <$> row_find t_id tid (tournament db') = Some CANCELLED.
Proof.
  destruct (early_check_in_cancels tid (t_runs [(30, OpCheckIn tid "alice"); (40, OpCheckIn tid "bob")] db_open) w_cup)
    as (db' & Hr & Hs).
  - reflexivity.
  - vm_compute. discriminate.
  - apply (bool_decide_unpack (Forall _ _)). by vm_compute.
  - exists db'. split; [exact Hr|]. by rewrite Hs.
Defined.

(** A second cup of the same organizer, with all its players checked in. *)
Definition db_two : TDB :=
  let closed := set_status REGISTRATION_CLOSED w_cup in
  let other := mkTournament "t2" "" None SINGLE_ELIMINATION REGISTRATION_CLOSED "" "" 4 2 None 0 [] 0 100 10000000 None 15 "alice" 0 2 in
  mkTDB w_users {["blitz"]} [closed; other]
    ((λ i, mkParticipant i "t2" i None true None "CHECKED_IN" 0 0 0 0 None) <$> ["a"; "b"]) [] [] 9.

Lemma short_tournament_blocks_witness :
  start_tournaments 10000000 db_two = (db_two, Throw (JsError "Not enough players to start tournament")).
Proof.
  eapply (short_tournament_blocks 10000000 db_two).
  - apply (bool_decide_unpack (NoDup (t_id <$> tournament db_two))). by vm_compute.
  - reflexivity.
  - vm_compute. reflexivity.
Defined.
End witnesses.
