(* ===== verification/Json.v ===== *)
(** * JSON values and their deterministic text

    The values audit entries carry, [JSON.stringify] of a string and
    [stableStringify] of [server/src/services/audit.service.ts], with the two
    facts hashing relies on: the text does not depend on the order of the keys,
    and equal texts come from equal values.  Strings are sequences of UTF-8
    bytes; keys are compared byte by byte, which is JavaScript's order for
    ASCII keys.  Numbers are given by their JavaScript text. *)

From Stdlib Require Import Ascii.
From stdpp Require Import prelude strings list sorting.
From S2P Require Import Prelude JsText Crypto.

Inductive json :=
| JUndefined
| JNull
| JBool (b : bool)
| JNum (text : string)
| JStr (s : string)
| JArr (l : list json)
| JObj (l : list (string * json)).

(** The induction principle with the elements of arrays and objects. *)
Section json_ind.
Context (P : json → Prop).
Context (Hundef : P JUndefined) (Hnull : P JNull) (Hbool : ∀ b, P (JBool b)) (Hnum : ∀ t, P (JNum t))
  (Hstr : ∀ s, P (JStr s)) (Harr : ∀ l, Forall P l → P (JArr l)) (Hobj : ∀ l, Forall (P ∘ snd) l → P (JObj l)).

Fixpoint json_induction (v : json) : P v :=
  match v with
  | JUndefined => Hundef
  | JNull => Hnull
  | JBool b => Hbool b
  | JNum t => Hnum t
  | JStr s => Hstr s
  | JArr l => Harr l ((fix go l := match l return Forall P l with
                       | [] => Forall_nil_2 _
                       | x :: l' => Forall_cons_2 _ _ _ (json_induction x) (go l')
                       end) l)
  | JObj l => Hobj l ((fix go l := match l return Forall (P ∘ snd) l with
                       | [] => Forall_nil_2 _
                       | x :: l' => Forall_cons_2 _ _ _ (json_induction x.2) (go l')
                       end) l)
  end.
End json_ind.

(** ** Text *)

Definition hex_digit (n : nat) : string := chr (if bool_decide (n < 10)%nat then 48 + n else 87 + n)%nat.

(** One character inside the quotes of [JSON.stringify(s)]. *)
Definition escape_char (c : ascii) : string :=
  let n := nat_of_ascii c in
  if bool_decide (n = 34)%nat then chr 92 +:+ chr 34 else
  if bool_decide (n = 92)%nat then chr 92 +:+ chr 92 else
  if bool_decide (n = 8)%nat then "\b" else
  if bool_decide (n = 9)%nat then "\t" else
  if bool_decide (n = 10)%nat then "\n" else
  if bool_decide (n = 12)%nat then "\f" else
  if bool_decide (n = 13)%nat then "\r" else
  if bool_decide (n < 32)%nat then "\u00" +:+ hex_digit (n / 16) +:+ hex_digit (n mod 16) else
  String c "".

Fixpoint escape (s : string) : string :=
  match s with
  | EmptyString => ""
  | String c s' => escape_char c +:+ escape s'
  end.

(** [JSON.stringify(s)] of a string *)
Definition json_quote (s : string) : string := chr 34 +:+ escape s +:+ chr 34.

(** [arr.join(',')] *)
Fixpoint join_comma (l : list string) : string :=
  match l with
  | [] => ""
  | [s] => s
  | s :: l' => s +:+ "," +:+ join_comma l'
  end.

Definition key_le {A} (p q : string * A) : Prop := (p.1 ≤ q.1)%string.
#[export] Instance key_le_dec {A} : RelDecision (@key_le A).
Proof. intros p q. unfold key_le. apply _. Defined.
#[export] Instance key_le_total {A} : Total (@key_le A).
Proof. intros p q. apply String.le_total. Qed.
#[export] Instance key_le_trans {A} : Transitive (@key_le A).
Proof. intros p q r. unfold key_le. apply transitivity. Qed.

(** [Object.keys(obj).sort()], each key with what belongs to it. *)
Definition sort_keys {A} (l : list (string * A)) : list (string * A) := merge_sort key_le l.

(** [JSON.stringify(undefined)] is [undefined], which a template writes as a word
    and [join] as the empty text. *)
Definition join_element (v : json) (text : string) : string := match v with JUndefined => "" | _ => text end.

Fixpoint stableStringify (value : json) : string :=
  match value with
  | JUndefined => "undefined"
  | JNull => "null"
  | JBool b => if b then "true" else "false"
  | JNum text => text
  | JStr s => json_quote s
  | JArr l => "[" +:+ join_comma ((λ x, join_element x (stableStringify x)) <$> l) +:+ "]"
  | JObj l => "{" +:+ join_comma ((λ kt, json_quote kt.1 +:+ ":" +:+ kt.2)
                         <$> sort_keys ((λ kv, (kv.1, stableStringify kv.2)) <$> l)) +:+ "}"
  end.

(** ** Key order does not matter *)

(** Keys of an object are unique, the text of a number is made of the characters
    numbers are written with, and no element of an array is [undefined], as in all
    that [JSON.parse] or a column returns. *)
Definition is_defined (v : json) : bool := match v with JUndefined => false | _ => true end.
Definition num_char (c : ascii) : bool :=
  let n := nat_of_ascii c in
  bool_decide (48 ≤ n ≤ 57)%nat || bool_decide (n = 43)%nat || bool_decide (n = 45)%nat ||
  bool_decide (n = 46)%nat || bool_decide (n = 101)%nat.

Fixpoint json_wf (v : json) : bool :=
  match v with
  | JNum t => negb (bool_decide (t = "")) && all_chars num_char t
  | JArr l => forallb is_defined l && forallb json_wf l
  | JObj l => bool_decide (NoDup (fst <$> l)) && forallb (λ kv, json_wf kv.2) l
  | _ => true
  end.

(** Every object with its keys in order. *)
Fixpoint canon (v : json) : json :=
  match v with
  | JArr l => JArr (canon <$> l)
  | JObj l => JObj (sort_keys ((λ kv, (kv.1, canon kv.2)) <$> l))
  | _ => v
  end.

(** The text of a value whose keys are in order already. *)
Fixpoint emit (v : json) : string :=
  match v with
  | JUndefined => "undefined"
  | JNull => "null"
  | JBool b => if b then "true" else "false"
  | JNum text => text
  | JStr s => json_quote s
  | JArr l => "[" +:+ join_comma (emit <$> l) +:+ "]"
  | JObj l => "{" +:+ join_comma ((λ kv, json_quote kv.1 +:+ ":" +:+ emit kv.2) <$> l) +:+ "}"
  end.

Lemma sort_keys_perm {A} (l : list (string * A)) : sort_keys l ≡ₚ l.
Proof. apply merge_sort_Permutation. Qed.

Lemma sort_keys_sorted {A} (l : list (string * A)) : StronglySorted key_le (sort_keys l).
Proof. apply (StronglySorted_merge_sort _). Qed.

(** Two orders of the same entries with unique keys sort to one list. *)
Lemma sort_keys_unique {A} (l1 l2 : list (string * A)) :
  NoDup (fst <$> l1) → l1 ≡ₚ l2 → StronglySorted key_le l2 → sort_keys l1 = l2.
Proof.
  intros Hnd Hp Hs. eapply StronglySorted_unique_strong; [|apply sort_keys_sorted|exact Hs|by rewrite sort_keys_perm].
  intros x1 x2 H1 H2 H12 H21. rewrite sort_keys_perm in H1. rewrite <- Hp in H2.
  apply (NoDup_key_inj fst l1); [done..|]. by apply (anti_symm String.le).
Qed.

Lemma sort_keys_map {A B} (f : A → B) (l : list (string * A)) :
  NoDup (fst <$> l) →
  sort_keys ((λ kv, (kv.1, f kv.2)) <$> l) = (λ kv, (kv.1, f kv.2)) <$> sort_keys l.
Proof.
  intros Hnd. apply sort_keys_unique.
  - by rewrite <- list_fmap_compose.
  - by rewrite sort_keys_perm.
  - pose proof (sort_keys_sorted l) as Hs. induction Hs as [|x l' _ IH Hx]; simpl; constructor; [done|].
    apply Forall_fmap. eapply Forall_impl; [exact Hx|]. done.
Qed.

Lemma stableStringify_canon v : json_wf v → stableStringify v = emit (canon v).
Proof.
  induction v as [| | | | |l IH|l IH] using json_induction; simpl; [done..| |].
  - intros [Hdef Hwf]%andb_True. do 3 f_equal. rewrite <- list_fmap_compose.
    induction IH as [|x l Hx _ IHl]; [done|]. simpl in *. apply andb_True in Hwf as [? ?], Hdef as [Hd ?]. f_equal; [|auto].
    rewrite <- Hx by done. by destruct x.
  - intros [Hnd%bool_decide_unpack Hwf]%andb_True. do 3 f_equal.
    assert ((λ kv : string * json, (kv.1, stableStringify kv.2)) <$> l =
            (λ kv, (kv.1, emit kv.2)) <$> ((λ kv, (kv.1, canon kv.2)) <$> l)) as ->.
    { clear Hnd. rewrite <- list_fmap_compose. induction IH as [|x l Hx _ IHl]; [done|].
      simpl in *. apply andb_True in Hwf as [? ?]. f_equal; [|auto]. f_equal. by apply Hx. }
    rewrite sort_keys_map by (by rewrite <- list_fmap_compose). by rewrite <- list_fmap_compose.
Qed.

(** ** Equal texts come from equal values *)

(** Reading one escaped character back. *)
Definition unhex (c : ascii) : nat :=
  let n := nat_of_ascii c in if bool_decide (n < 58)%nat then n - 48 else n - 87.

Definition unescape_char (s : string) : option (ascii * string) :=
  match s with
  | String c s' =>
      if bool_decide (nat_of_ascii c = 34)%nat then None else
      if bool_decide (nat_of_ascii c = 92)%nat then
        match s' with
        | String e s'' =>
            let n := nat_of_ascii e in
            if bool_decide (n = 98)%nat then Some (ascii_of_nat 8, s'') else
            if bool_decide (n = 116)%nat then Some (ascii_of_nat 9, s'') else
            if bool_decide (n = 110)%nat then Some (ascii_of_nat 10, s'') else
            if bool_decide (n = 102)%nat then Some (ascii_of_nat 12, s'') else
            if bool_decide (n = 114)%nat then Some (ascii_of_nat 13, s'') else
            if bool_decide (n = 117)%nat then
              match s'' with
              | String _ (String _ (String h (String l r))) => Some (ascii_of_nat (16 * unhex h + unhex l), r)
              | _ => None
              end
            else Some (e, s'')
        | EmptyString => None
        end
      else Some (c, s')
  | EmptyString => None
  end.

Lemma unescape_escape c s : unescape_char (escape_char c +:+ s) = Some (c, s).
Proof. destruct c as [[] [] [] [] [] [] [] []]; reflexivity. Qed.

Lemma escape_inj s1 s2 r1 r2 :
  escape s1 +:+ chr 34 +:+ r1 = escape s2 +:+ chr 34 +:+ r2 → s1 = s2 ∧ r1 = r2.
Proof.
  revert s2. induction s1 as [|c1 s1 IH]; intros [|c2 s2]; simpl; rewrite ?app_assoc_s; intros E.
  - by injection E.
  - exfalso. apply (f_equal unescape_char) in E. rewrite unescape_escape in E. discriminate.
  - exfalso. apply (f_equal unescape_char) in E. rewrite unescape_escape in E. discriminate.
  - pose proof (f_equal unescape_char E) as E'. rewrite !unescape_escape in E'. injection E' as -> E'.
    by destruct (IH s2 E') as [-> ->].
Qed.

Lemma json_quote_inj s1 s2 r1 r2 : json_quote s1 +:+ r1 = json_quote s2 +:+ r2 → s1 = s2 ∧ r1 = r2.
Proof.
  unfold json_quote. rewrite !app_assoc_s. intros E. injection E as E. by apply escape_inj.
Qed.

(** What may follow a value: the end, a comma or a closing bracket. *)
Definition delim (r : string) : Prop :=
  match r with EmptyString => True | String c _ => num_char c = false end.

Lemma num_inj t1 t2 r1 r2 :
  all_chars num_char t1 → all_chars num_char t2 → delim r1 → delim r2 → t1 +:+ r1 = t2 +:+ r2 → t1 = t2 ∧ r1 = r2.
Proof.
  revert t2. induction t1 as [|c t1 IH]; intros [|d t2]; simpl; intros H1 H2 D1 D2 E.
  - done.
  - exfalso. apply andb_True in H2 as [Hd _]. change ("" +:+ r1) with r1 in E. rewrite E in D1. simpl in D1.
    rewrite D1 in Hd. done.
  - exfalso. apply andb_True in H1 as [Hd _]. change ("" +:+ r2) with r2 in E. rewrite <- E in D2. simpl in D2.
    rewrite D2 in Hd. done.
  - injection E as -> E. apply andb_True in H1 as [_ H1], H2 as [_ H2]. destruct (IH t2 H1 H2 D1 D2 E) as [-> ->]. done.
Qed.

(** The first character of a text tells the kind of the value. *)
Definition kind (c : ascii) : nat :=
  let n := nat_of_ascii c in
  if bool_decide (n = 117)%nat then 0 else if bool_decide (n = 110)%nat then 1 else
  if bool_decide (n = 116)%nat then 2 else if bool_decide (n = 102)%nat then 3 else
  if bool_decide (n = 34)%nat then 4 else if bool_decide (n = 91)%nat then 5 else
  if bool_decide (n = 123)%nat then 6 else if num_char c then 7 else 8.

Definition kind_of (v : json) : nat :=
  match v with
  | JUndefined => 0 | JNull => 1 | JBool true => 2 | JBool false => 3 | JStr _ => 4 | JArr _ => 5 | JObj _ => 6 | JNum _ => 7
  end.

Lemma num_char_kind c : num_char c → kind c = 7%nat.
Proof. destruct c as [[] [] [] [] [] [] [] []]; vm_compute; intros H; try done; by destruct H. Qed.

Lemma emit_head v : json_wf v → ∃ c s, emit v = String c s ∧ kind c = kind_of v.
Proof.
  destruct v as [| |[]|t|s|l|l]; simpl; try (intros _; do 2 eexists; split; reflexivity).
  intros [Hne Ht]%andb_True. destruct t as [|c t]; [done|]. exists c, t. split; [done|].
  simpl in Ht. apply andb_True in Ht as [Hc _]. by apply num_char_kind.
Qed.

Lemma emit_kind v1 v2 r1 r2 : json_wf v1 → json_wf v2 → emit v1 +:+ r1 = emit v2 +:+ r2 → kind_of v1 = kind_of v2.
Proof.
  intros H1 H2. destruct (emit_head v1 H1) as (c1 & s1 & -> & <-), (emit_head v2 H2) as (c2 & s2 & -> & <-).
  intros E. by injection E as ->.
Qed.

(** [decodes f g x]: after the text [f x], what follows is determined. *)
Section join.
Context {A : Type} (text : A → string) (good : A → Prop).

Definition decodable (x : A) : Prop := good x → ∀ y r1 r2,
  good y → delim r1 → delim r2 → text x +:+ r1 = text y +:+ r2 → x = y ∧ r1 = r2.

(** What a list looks like after its first element. *)
Fixpoint join_tail (l : list A) : string :=
  match l with [] => "" | x :: l' => "," +:+ text x +:+ join_tail l' end.

Lemma join_comma_tail x l : join_comma (text <$> x :: l) = text x +:+ join_tail l.
Proof.
  revert x. induction l as [|y l IH]; intros x; simpl; [by rewrite app_nil_s|].
  do 2 f_equal. exact (IH y).
Qed.

Lemma join_tail_inj (close : ascii) l1 l2 r1 r2 :
  num_char close = false → close ≠ ascii_of_nat 44 →
  Forall decodable l1 → Forall good l1 → Forall good l2 →
  join_tail l1 +:+ String close r1 = join_tail l2 +:+ String close r2 → l1 = l2 ∧ r1 = r2.
Proof.
  intros Hc Hcomma Hd. revert l2. induction Hd as [|x l1 Hx _ IH]; intros [|y l2] H1 H2 E.
  - by injection E.
  - exfalso. injection E as E _. done.
  - exfalso. injection E as E _. by apply Hcomma.
  - cbn [join_tail] in E. rewrite !app_assoc_s in E. injection E as E.
    apply Forall_cons in H1 as [Gx H1], H2 as [Gy H2].
    assert (∀ l r, delim (join_tail l +:+ String close r)) as Hdl by (intros [|z l] r; [exact Hc|done]).
    destruct (Hx Gx y _ _ Gy (Hdl _ _) (Hdl _ _) E) as [-> E']. destruct (IH l2 H1 H2 E') as [-> ->]. done.
Qed.

Lemma join_inj (close : ascii) l1 l2 r1 r2 :
  num_char close = false → close ≠ ascii_of_nat 44 → (∀ x, good x → ∃ c s, text x = String c s ∧ c ≠ close) →
  Forall decodable l1 → Forall good l1 → Forall good l2 →
  join_comma (text <$> l1) +:+ String close r1 = join_comma (text <$> l2) +:+ String close r2 → l1 = l2 ∧ r1 = r2.
Proof.
  intros Hc Hcomma Hne Hd H1 H2.
  assert (Hempty : ∀ x l r s, good x → String close s ≠ join_comma (text <$> x :: l) +:+ String close r).
  { intros x l r s Gx E. rewrite join_comma_tail in E. destruct (Hne x Gx) as (c & t & Ht & Hcc). rewrite Ht in E.
    injection E as E _. by apply Hcc. }
  destruct l1 as [|x l1], l2 as [|y l2]; intros E.
  - by injection E.
  - apply Forall_cons in H2 as [Gy _]. by destruct (Hempty y l2 r2 r1 Gy E).
  - apply Forall_cons in H1 as [Gx _]. by destruct (Hempty x l1 r1 r2 Gx (eq_sym E)).
  - rewrite !join_comma_tail, !app_assoc_s in E.
    apply Forall_cons in Hd as [Hx Hd], H1 as [Gx H1], H2 as [Gy H2].
    assert (∀ l r, delim (join_tail l +:+ String close r)) as Hdl by (intros [|z l] r; [exact Hc|done]).
    destruct (Hx Gx y _ _ Gy (Hdl _ _) (Hdl _ _) E) as [-> E'].
    destruct (join_tail_inj close l1 l2 r1 r2 Hc Hcomma Hd H1 H2 E') as [-> ->]. done.
Qed.
End join.

Lemma forallb_Forall_s {A} (f : A → bool) l : forallb f l ↔ Forall (λ x, f x) l.
Proof.
  induction l as [|x l IH]; simpl; [by split|]. rewrite andb_True, IH. by rewrite Forall_cons.
Qed.

Lemma emit_no_close v (c : ascii) : json_wf v → kind c = 8%nat → ∃ d s, emit v = String d s ∧ d ≠ c.
Proof.
  intros Hwf Hc. destruct (emit_head v Hwf) as (d & s & Hd & Hk). exists d, s. split; [done|]. intros ->.
  rewrite Hc in Hk. by destruct v as [| |[]| | | |].
Qed.

Lemma emit_decodable v : decodable emit json_wf v.
Proof.
  induction v as [| |b|t|s|l IH|l IH] using json_induction; intros Hwf v2 r1 r2 Hwf2 D1 D2 E;
    pose proof (emit_kind _ _ _ _ Hwf Hwf2 E) as Hk.
  3: destruct b. all: destruct v2 as [| |[]|t2|s2|l2|l2]; try discriminate Hk; clear Hk; simpl in *.
  - by injection E.
  - by injection E.
  - by injection E.
  - by injection E.
  - apply andb_True in Hwf as [_ H1], Hwf2 as [_ H2]. by destruct (num_inj t t2 r1 r2 H1 H2 D1 D2 E) as [-> ->].
  - by destruct (json_quote_inj s s2 r1 r2 E) as [-> ->].
  - rewrite !app_assoc_s in E. injection E as E. apply andb_True in Hwf as [_ Hwf], Hwf2 as [_ Hwf2]. rewrite forallb_Forall_s in Hwf, Hwf2.
    destruct (join_inj emit json_wf (ascii_of_nat 93) l l2 r1 r2) as [-> ->]; [done|done| |done..].
    intros x Hx. by apply emit_no_close.
  - rewrite !app_assoc_s in E. injection E as E. apply andb_True in Hwf as [_ Hwf], Hwf2 as [_ Hwf2].
    rewrite forallb_Forall_s in Hwf, Hwf2.
    destruct (join_inj (λ kv : string * json, json_quote kv.1 +:+ ":" +:+ emit kv.2) (λ kv, json_wf kv.2) (ascii_of_nat 125) l l2 r1 r2)
      as [-> ->]; [done|done| |..|done].
    + intros x _. do 2 eexists. split; [reflexivity|done].
    + eapply Forall_impl; [exact IH|]. intros [k x] Hx Gx [k' y] q1 q2 Gy Q1 Q2 Eq. simpl in *.
      rewrite !app_assoc_s in Eq. destruct (json_quote_inj _ _ _ _ Eq) as [-> Eq']. injection Eq' as Eq'.
      by destruct (Hx Gx y q1 q2 Gy Q1 Q2 Eq') as [-> ->].
    + done.
    + done.
    + exact E.
Qed.

Lemma json_wf_canon v : json_wf v → json_wf (canon v).
Proof.
  induction v as [| | | | |l IH|l IH] using json_induction; simpl; [done..| |].
  - rewrite !andb_True, !forallb_Forall_s, !Forall_fmap. intros [Hdef Hl]. rewrite Forall_forall in IH, Hl. split.
    + eapply Forall_impl; [exact Hdef|]. intros x. by destruct x.
    + rewrite Forall_forall. intros x Hx. apply IH; auto.
  - intros [Hnd%bool_decide_unpack Hl]%andb_True. apply andb_True. split.
    + apply bool_decide_pack. rewrite sort_keys_perm. by rewrite <- list_fmap_compose.
    + rewrite forallb_Forall_s in Hl |- *. rewrite sort_keys_perm, Forall_fmap. rewrite Forall_forall in IH, Hl |- *.
      intros x Hx. apply IH; auto.
Qed.

(** Equal texts: equal values, up to the order of keys. *)
Lemma stableStringify_inj v1 v2 :
  json_wf v1 → json_wf v2 → stableStringify v1 = stableStringify v2 → canon v1 = canon v2.
Proof.
  intros H1 H2 E. rewrite !stableStringify_canon in E by done.
  apply (emit_decodable (canon v1) (json_wf_canon _ H1) (canon v2) "" "" (json_wf_canon _ H2) I I). by rewrite !app_nil_s.
Qed.

(** ** Reading values *)

(** [obj[key]] of a JSON value: anything but an object has no such property. *)
Definition json_prop (key : string) (v : json) : json :=
  match v with
  | JObj l => default JUndefined (map_get key l)
  | _ => JUndefined
  end.

(** [v ?? fallback] *)
Definition json_or (v fallback : json) : json :=
  match v with JUndefined | JNull => fallback | _ => v end.

(** ** Fields of a canonical object *)

Lemma map_get_perm {V} k (l1 l2 : jsmap V) : NoDup (fst <$> l1) → l1 ≡ₚ l2 → map_get k l1 = map_get k l2.
Proof.
  intros Hnd Hp. assert (NoDup (fst <$> l2)) as Hnd2 by (by rewrite <- Hp).
  destruct (map_get k l1) as [v|] eqn:E.
  - symmetry. apply map_elem_get; [done|]. rewrite <- Hp. by apply map_get_elem.
  - symmetry. rewrite map_get_None in E |- *. intros Hk. apply E. unfold map_keys in *.
    change (List.map fst l1) with (fst <$> l1). change (List.map fst l2) with (fst <$> l2) in Hk. by rewrite Hp.
Qed.

Lemma map_get_fmap {V W} (f : V → W) k (l : jsmap V) :
  map_get k ((λ kv, (kv.1, f kv.2)) <$> l) = f <$> map_get k l.
Proof. induction l as [|[k' v] l IH]; simpl; [done|]. by case_bool_decide. Qed.

Lemma canon_obj_field k l1 l2 :
  NoDup (fst <$> l1) → NoDup (fst <$> l2) → canon (JObj l1) = canon (JObj l2) →
  canon <$> map_get k l1 = canon <$> map_get k l2.
Proof.
  intros H1 H2 E. simpl in E. injection E as E.
  assert ((λ kv, (kv.1, canon kv.2)) <$> l1 ≡ₚ (λ kv, (kv.1, canon kv.2)) <$> l2) as Hp
    by (rewrite <- (sort_keys_perm (_ <$> l1)), E; apply sort_keys_perm).
  rewrite <- !map_get_fmap. apply map_get_perm; [by rewrite <- list_fmap_compose|done].
Qed.

(** Equal hashes: a collision, or the same canonical value. *)
Lemma hash_json_inj `{Sha256} v1 v2 : json_wf v1 → json_wf v2 →
  sha256_hex (stableStringify v1) = sha256_hex (stableStringify v2) → collision ∨ canon v1 = canon v2.
Proof. intros H1 H2 [Hc|E]%hash_inj; [by left|right]. by apply stableStringify_inj. Qed.
