(* ===== verification/JsonParse.v ===== *)
(** * [JSON.stringify] and [JSON.parse]

    The text of a value as [JSON.stringify] writes it, a parser for the grammar
    [JSON.parse] accepts, and their round trip.  The text JavaScript prints for
    a number literal is a parameter: it prints the literals [JSON.stringify]
    writes as they are.  Objects keep their keys in the order of the text (a key
    written twice keeps its first place and its last value). *)

From Stdlib Require Import Ascii.
From stdpp Require Import prelude strings list pretty.
From S2P Require Import Prelude JsText Json.

Definition is_undefined (v : json) : bool := match v with JUndefined => true | _ => false end.

(** [JSON.stringify]: properties that are [undefined] are left out, array
    elements that are become [null]. *)
Fixpoint json_text (v : json) : string :=
  match v with
  | JUndefined | JNull => "null"
  | JBool b => if b then "true" else "false"
  | JNum text => text
  | JStr s => json_quote s
  | JArr l => "[" +:+ join_comma (json_text <$> l) +:+ "]"
  | JObj l => "{" +:+ join_comma ((λ kv, json_quote kv.1 +:+ ":" +:+ kv.2)
                <$> omap (λ kv, let t := json_text kv.2 in if is_undefined kv.2 then None else Some (kv.1, t)) l) +:+ "}"
  end.

(** ** Tokens *)

Definition json_space (c : ascii) : bool := bool_decide (nat_of_ascii c ∈ [32; 9; 10; 13]%nat).
Fixpoint skip_ws (s : string) : string :=
  match s with String c s' => if json_space c then skip_ws s' else s | EmptyString => s end.

Fixpoint strip_prefix (p s : string) : option string :=
  match p, s with
  | EmptyString, _ => Some s
  | String a p', String b s' => if bool_decide (a = b) then strip_prefix p' s' else None
  | _, _ => None
  end.

Definition hex_value (c : ascii) : option Z :=
  let n := Z.of_nat (nat_of_ascii c) in
  if bool_decide (48 ≤ n ≤ 57) then Some (n - 48)
  else if bool_decide (97 ≤ n ≤ 102) then Some (n - 87)
  else if bool_decide (65 ≤ n ≤ 70) then Some (n - 55) else None.
Definition hex4 (a b c d : ascii) : option Z :=
  a ← hex_value a; b ← hex_value b; c ← hex_value c; d ← hex_value d;
  Some (16 * (16 * (16 * a + b) + c) + d).

(** The bytes of a code point. *)
Definition utf8 (n : Z) : string :=
  let byte k := String (ascii_of_nat (Z.to_nat k)) in
  if bool_decide (n < 128) then byte n ""
  else if bool_decide (n < 2048) then byte (192 + n / 64) (byte (128 + n mod 64) "")
  else if bool_decide (n < 65536) then
    byte (224 + n / 4096) (byte (128 + n / 64 mod 64) (byte (128 + n mod 64) ""))
  else byte (240 + n / 262144) (byte (128 + n / 4096 mod 64) (byte (128 + n / 64 mod 64) (byte (128 + n mod 64) ""))).

Definition simple_escape (e : ascii) : option ascii :=
  let n := nat_of_ascii e in
  if bool_decide (n ∈ [34; 92; 47]%nat) then Some e
  else if bool_decide (n = 98)%nat then Some (ascii_of_nat 8)
  else if bool_decide (n = 102)%nat then Some (ascii_of_nat 12)
  else if bool_decide (n = 110)%nat then Some (ascii_of_nat 10)
  else if bool_decide (n = 114)%nat then Some (ascii_of_nat 13)
  else if bool_decide (n = 116)%nat then Some (ascii_of_nat 9) else None.

Definition prepend (p : string) (o : option (string * string)) : option (string * string) :=
  (λ sr, (p +:+ sr.1, sr.2)) <$> o.

(** The rest of a string literal after its opening quote, and what follows. *)
Fixpoint parse_chars (s : string) : option (string * string) :=
  match s with
  | EmptyString => None
  | String c s' =>
      let n := nat_of_ascii c in
      if bool_decide (n = 34)%nat then Some ("", s')
      else if bool_decide (n < 32)%nat then None
      else if negb (bool_decide (n = 92)%nat) then prepend (String c "") (parse_chars s')
      else
        match s' with
        | EmptyString => None
        | String e s'' =>
            if negb (bool_decide (nat_of_ascii e = 117)%nat) then
              match simple_escape e with Some d => prepend (String d "") (parse_chars s'') | None => None end
            else
              match s'' with
              | String h1 (String h2 (String h3 (String h4 r))) =>
                  match hex4 h1 h2 h3 h4 with
                  | None => None
                  | Some hi =>
                      if negb (bool_decide (55296 ≤ hi < 56320)) then prepend (utf8 hi) (parse_chars r) else
                      match r with
                      | String b (String u (String k1 (String k2 (String k3 (String k4 r'))))) =>
                          match hex4 k1 k2 k3 k4 with
                          | Some lo =>
                              if bool_decide (nat_of_ascii b = 92 ∧ nat_of_ascii u = 117)%nat && bool_decide (56320 ≤ lo < 57344)
                              then prepend (utf8 (65536 + (hi - 55296) * 1024 + (lo - 56320))) (parse_chars r')
                              else prepend (utf8 hi) (parse_chars r)
                          | None => prepend (utf8 hi) (parse_chars r)
                          end
                      | _ => prepend (utf8 hi) (parse_chars r)
                      end
                  end
              | _ => None
              end
        end
  end.

(** ** Numbers *)

(** Drops a non-empty run of digits. *)
Fixpoint drop_digits (s : string) : string :=
  match s with String c s' => if is_digit c then drop_digits s' else s | EmptyString => s end.
Definition digits1 (s : string) : option string :=
  match s with String c s' => if is_digit c then Some (drop_digits s') else None | EmptyString => None end.

Definition drop_sign (chars : list ascii) (s : string) : string :=
  match s with String c s' => if bool_decide (c ∈ chars) then s' else s | EmptyString => s end.

(** A sign, an integer without leading zeros, a fraction and an exponent; only
    the integer is required. *)
Definition json_number (s : string) : bool :=
  let int (s : string) :=
    match s with String c s' => if bool_decide (c = "0"%char) then Some s' else digits1 s | EmptyString => None end in
  let frac (s : string) :=
    match s with String c s' => if bool_decide (c = "."%char) then digits1 s' else Some s | EmptyString => Some s end in
  let exp (s : string) :=
    match s with
    | String c s' => if bool_decide (c ∈ ["e"%char; "E"%char]) then digits1 (drop_sign ["+"%char; "-"%char] s') else Some s
    | EmptyString => Some s
    end in
  let rest := r ← int (drop_sign ["-"%char] s); r ← frac r; exp r in
  bool_decide (rest = Some "").

Definition number_char (c : ascii) : bool := num_char c || bool_decide (c = "E"%char).

Fixpoint take_number (s : string) : string * string :=
  match s with
  | String c s' => if number_char c then let '(t, r) := take_number s' in (String c t, r) else ("", s)
  | EmptyString => ("", "")
  end.

(** Numbers are 64-bit floats: how their texts are read and printed is a
    parameter, which is exact on the integers below 2^53. *)
Definition safe_int (z : Z) : Prop := Z.abs z < 2 ^ 53.

Class JsNumber := {
  (** [String(Number(text))] for the text of a number literal *)
  number_text : string → string;
  (** [Number(text)] when it is an integer *)
  number_int : string → option Z;
  number_text_pretty : ∀ z, safe_int z → number_text (pretty z) = pretty z;
  number_int_pretty : ∀ z, safe_int z → number_int (pretty z) = Some z;
}.

(** ** Values *)

Section parse.
Context `{JsNumber}.

(** An object literal: a repeated key keeps its place and takes the last value. *)
Definition object_of (members : list (string * json)) : json :=
  JObj (foldl (λ m kv, map_set kv.1 kv.2 m) [] members).

(** [fuel] bounds the calls, each of which consumes a character. *)
Fixpoint parse_value (fuel : nat) (s : string) {struct fuel} : option (json * string) :=
  match fuel with
  | O => None
  | S fuel =>
      match skip_ws s with
      | EmptyString => None
      | String c r =>
          if bool_decide (c = ascii_of_nat 34) then (λ sr, (JStr sr.1, sr.2)) <$> parse_chars r
          else if bool_decide (c = "["%char) then
            match skip_ws r with
            | String d r' =>
                if bool_decide (d = "]"%char) then Some (JArr [], r')
                else (λ lr, (JArr lr.1, lr.2)) <$> parse_elements fuel r
            | EmptyString => None
            end
          else if bool_decide (c = "{"%char) then
            match skip_ws r with
            | String d r' =>
                if bool_decide (d = "}"%char) then Some (JObj [], r')
                else (λ lr, (object_of lr.1, lr.2)) <$> parse_members fuel r
            | EmptyString => None
            end
          else if bool_decide (c = "n"%char) then (λ r, (JNull, r)) <$> strip_prefix "ull" r
          else if bool_decide (c = "t"%char) then (λ r, (JBool true, r)) <$> strip_prefix "rue" r
          else if bool_decide (c = "f"%char) then (λ r, (JBool false, r)) <$> strip_prefix "alse" r
          else
            let '(t, r') := take_number (String c r) in
            if json_number t then Some (JNum (number_text t), r') else None
      end
  end
with parse_elements (fuel : nat) (s : string) {struct fuel} : option (list json * string) :=
  match fuel with
  | O => None
  | S fuel =>
      '(v, r) ← parse_value fuel s;
      match skip_ws r with
      | String c r' =>
          if bool_decide (c = ","%char) then (λ lr, (v :: lr.1, lr.2)) <$> parse_elements fuel r'
          else if bool_decide (c = "]"%char) then Some ([v], r') else None
      | EmptyString => None
      end
  end
with parse_members (fuel : nat) (s : string) {struct fuel} : option (list (string * json) * string) :=
  match fuel with
  | O => None
  | S fuel =>
      match skip_ws s with
      | String q s' =>
          if negb (bool_decide (q = ascii_of_nat 34)) then None else
          '(k, r) ← parse_chars s';
          match skip_ws r with
          | String colon r =>
              if negb (bool_decide (colon = ":"%char)) then None else
              '(v, r) ← parse_value fuel r;
              match skip_ws r with
              | String c r' =>
                  if bool_decide (c = ","%char) then (λ lr, ((k, v) :: lr.1, lr.2)) <$> parse_members fuel r'
                  else if bool_decide (c = "}"%char) then Some ([(k, v)], r') else None
              | EmptyString => None
              end
          | EmptyString => None
          end
      | EmptyString => None
      end
  end.

(** [JSON.parse(s)]; [None] is a [SyntaxError]. *)
Definition JSON_parse (s : string) : option json :=
  '(v, r) ← parse_value (S (String.length s)) s;
  if bool_decide (skip_ws r = "") then Some v else None.
End parse.

(** ** The round trip *)

(** A value [JSON.stringify] writes without loss: nothing undefined, number
    literals that are printed as they are, no key twice. *)
Section round_trip.
Context `{JsNumber}.

Definition number_ok (t : string) : bool :=
  all_chars number_char t && json_number t && bool_decide (number_text t = t).

Fixpoint plain (v : json) : bool :=
  match v with
  | JUndefined => false
  | JNum t => number_ok t
  | JArr l => forallb plain l
  | JObj l => bool_decide (NoDup (fst <$> l)) && forallb (λ kv, plain kv.2) l
  | _ => true
  end.

(** What may follow a value in a text. *)
Definition stops (r : string) : Prop :=
  match r with EmptyString => True | String c _ => number_char c = false end.

Lemma parse_chars_escape s r : parse_chars (escape s +:+ chr 34 +:+ r) = Some (s, r).
Proof.
  induction s as [|c s IH]; [done|]. cbn [escape]. rewrite app_assoc_s.
  assert (∀ t, parse_chars (escape_char c +:+ t) = prepend (String c "") (parse_chars t)) as ->.
  { intros t. destruct c as [[] [] [] [] [] [] [] []]; reflexivity. }
  by rewrite IH.
Qed.

Lemma take_number_stop t r : all_chars number_char t → stops r → take_number (t +:+ r) = (t, r).
Proof.
  induction t as [|c t IH].
  - intros _ Hr. change ("" +:+ r) with r. destruct r as [|c r]; [done|]. simpl in *. by rewrite Hr.
  - rewrite app_cons. simpl. rewrite andb_True. intros [Hc Ht] Hr.
    destruct (number_char c); [|done]. by rewrite (IH Ht Hr).
Qed.

(** The calls needed to read the text of a value. *)
Fixpoint cost (v : json) : nat :=
  match v with
  | JArr l => S (list_sum ((λ x, S (cost x)) <$> l))
  | JObj l => S (list_sum ((λ kv, S (cost kv.2)) <$> l))
  | _ => 1
  end.

(** The character a text starts with decides which branch reads it. *)
Lemma number_head t : json_number t → all_chars number_char t →
  ∃ c s, t = String c s ∧ number_char c.
Proof. destruct t as [|c s]; [done|]. simpl. rewrite andb_True. intros _ [Hc _]. by exists c, s. Qed.

Lemma number_char_other c : number_char c →
  json_space c = false ∧ c ≠ ascii_of_nat 34 ∧ c ≠ "["%char ∧ c ≠ "{"%char ∧ c ≠ "n"%char ∧ c ≠ "t"%char ∧ c ≠ "f"%char ∧
  c ≠ "]"%char.
Proof. destruct c as [[] [] [] [] [] [] [] []]; vm_compute; intros Hc; try done; by destruct Hc. Qed.

(** No text of a value starts with white space or a closing bracket. *)
Lemma json_text_head v : plain v → ∃ c s, json_text v = String c s ∧ json_space c = false ∧ c ≠ "]"%char.
Proof.
  destruct v as [| |[]|t|s|l|l]; intros Hv; try (eexists _, _; split; [reflexivity|split; done]).
  simpl in Hv. unfold number_ok in Hv. rewrite !andb_True in Hv. destruct Hv as [[H1 H2] _].
  destruct (number_head t H2 H1) as (c & s & -> & Hc). exists c, s. split; [done|].
  by apply number_char_other in Hc as (? & _ & _ & _ & _ & _ & _ & ?).
Qed.

Lemma skip_ws_text v r : plain v → skip_ws (json_text v +:+ r) = json_text v +:+ r.
Proof. intros Hv. destruct (json_text_head v Hv) as (c & s & -> & Hc & _). rewrite app_cons. simpl. by rewrite Hc. Qed.

Lemma map_set_new {V} k (v : V) m : k ∉ map_keys m → map_set k v m = m ++ [(k, v)].
Proof.
  unfold map_keys. induction m as [|[j w] m IH]; simpl; [done|]. rewrite not_elem_of_cons. intros [Hne Hk].
  rewrite bool_decide_false by done. by rewrite IH.
Qed.

Lemma object_of_nodup (l : list (string * json)) : NoDup (fst <$> l) → object_of l = JObj l.
Proof.
  unfold object_of. intros Hl. f_equal.
  assert (∀ m : jsmap json, NoDup (fst <$> m ++ l) → foldl (λ m kv, map_set kv.1 kv.2 m) m l = m ++ l) as Hgo;
    [|by apply (Hgo [])]. clear Hl.
  induction l as [|[k v] l IH]; intros m Hm; simpl; [by rewrite app_nil_r|].
  rewrite map_set_new; [rewrite IH|]; rewrite <- ?(assoc_L (++)); [done|done|].
  rewrite fmap_app, NoDup_app in Hm. destruct Hm as (_ & Hm & _). intros Hk. apply (Hm k Hk). left.
Qed.

(** The reading of a value's text, as a property of the value. *)
Definition readable (v : json) : Prop := plain v → ∀ n r, stops r → (cost v ≤ n)%nat →
  parse_value n (json_text v +:+ r) = Some (v, r).

Lemma join_cons (t : string) ts : ts ≠ [] → join_comma (t :: ts) = t +:+ "," +:+ join_comma ts.
Proof. by destruct ts. Qed.

Lemma parse_elements_text l n r : l ≠ [] → Forall readable l → forallb plain l →
  (list_sum ((λ x, S (cost x)) <$> l) ≤ n)%nat →
  parse_elements n (join_comma (json_text <$> l) +:+ "]" +:+ r) = Some (l, r).
Proof.
  revert n. induction l as [|v l IH]; [done|]. intros [|n] _ [Hv Hl]%Forall_cons;
    cbn [forallb fmap list_fmap list_sum foldr]; rewrite andb_True; intros [Pv Pl] Hn; [lia|].
  cbn [parse_elements]. destruct l as [|w l].
  - cbn [fmap list_fmap join_comma]. rewrite (Hv Pv); [done..|]. simpl in Hn. lia.
  - rewrite join_cons, !app_assoc_s by done. specialize (IH n).
    set (rest := join_comma _ +:+ _) in *. rewrite (Hv Pv); [|done|lia].
    cbn [mbind option_bind]. change (skip_ws ("," +:+ rest)) with (String ","%char rest). cbn.
    rewrite IH; [done..|]. unfold list_sum. lia.
Qed.

Definition member_text (kv : string * json) : string := json_quote kv.1 +:+ ":" +:+ json_text kv.2.

Lemma json_text_obj l : forallb (λ kv, plain kv.2) l →
  json_text (JObj l) = "{" +:+ join_comma (member_text <$> l) +:+ "}".
Proof.
  intros Hl. cbn [json_text]. do 3 f_equal. induction l as [|[k v] l IH]; [done|]. simpl in *.
  rewrite andb_True in Hl. destruct Hl as [Hv Hl].
  assert (is_undefined v = false) as -> by (by destruct v). simpl. f_equal. by apply IH.
Qed.

Lemma parse_members_text l n r : l ≠ [] → Forall (readable ∘ snd) l → forallb (λ kv, plain kv.2) l →
  (list_sum ((λ kv, S (cost kv.2)) <$> l) ≤ n)%nat →
  parse_members n (join_comma (member_text <$> l) +:+ "}" +:+ r) = Some (l, r).
Proof.
  revert n. induction l as [|[k v] l IH]; [done|]. intros [|n] _ [Hv Hl]%Forall_cons; cbn [forallb fmap list_fmap list_sum foldr]; rewrite andb_True;
    intros [Pv Pl] Hn; [lia|]. unfold compose in Hv; cbn [snd] in *.
  assert (∀ t, parse_members (S n) (member_text (k, v) +:+ t) =
    '(v, r) ← parse_value n (json_text v +:+ t);
    match skip_ws r with
    | String c r' =>
        if bool_decide (c = ","%char) then (λ lr, ((k, v) :: lr.1, lr.2)) <$> parse_members n r'
        else if bool_decide (c = "}"%char) then Some ([(k, v)], r') else None
    | EmptyString => None
    end) as Hstep.
  { intros t. unfold member_text, json_quote. cbn [fst snd]. rewrite !app_assoc_s.
    pose proof (parse_chars_escape k (":" +:+ json_text v +:+ t)) as E. set (X := escape k +:+ _) in *.
    change (parse_members (S n) (chr 34 +:+ X)) with
      ('(k, r) ← parse_chars X;
       match skip_ws r with
       | String colon r =>
           if negb (bool_decide (colon = ":"%char)) then None else
           '(v, r) ← parse_value n r;
           match skip_ws r with
           | String c r' =>
               if bool_decide (c = ","%char) then (λ lr, ((k, v) :: lr.1, lr.2)) <$> parse_members n r'
               else if bool_decide (c = "}"%char) then Some ([(k, v)], r') else None
           | EmptyString => None
           end
       | EmptyString => None
       end). by rewrite E. }
  destruct l as [|w l].
  - cbn [fmap list_fmap join_comma]. rewrite Hstep, (Hv Pv); [done..|lia].
  - rewrite fmap_cons, join_cons, !app_assoc_s by done. specialize (IH n).
    set (rest := join_comma _ +:+ _) in *. rewrite Hstep, (Hv Pv); [|done|lia].
    cbn [mbind option_bind]. change (skip_ws ("," +:+ rest)) with (String ","%char rest). cbn.
    rewrite IH; [done..|]. unfold list_sum. lia.
Qed.

Lemma parse_value_text v : readable v.
Proof.
  induction v using json_induction; intros Pv [|n] r Hr Hn; try (simpl in *; done || lia).
  - by destruct b.
  - simpl in Pv. unfold number_ok in Pv. rewrite !andb_True in Pv. destruct Pv as [[Hc Hj] Ht].
    apply bool_decide_unpack in Ht. destruct (number_head t Hj Hc) as (c & s & -> & Hnc).
    pose proof (take_number_stop _ _ Hc Hr) as Htake.
    destruct (number_char_other c Hnc) as (Hs & ? & ? & ? & ? & ? & ? & _). rewrite app_cons in Htake.
    cbn [json_text]. rewrite app_cons. cbn [parse_value skip_ws]. rewrite Hs, !bool_decide_false, Htake by done.
    destruct (json_number _); [|done]. by rewrite Ht.
  - cbn [json_text]. unfold json_quote. rewrite !app_assoc_s. pose proof (parse_chars_escape s r) as E.
    set (X := escape s +:+ _) in *.
    change (parse_value (S n) (chr 34 +:+ X)) with ((λ sr, (JStr sr.1, sr.2)) <$> parse_chars X). by rewrite E.
  - destruct l as [|w l]; [done|]. pose proof (json_text_head w) as Hw. cbn [json_text plain cost] in *.
    rewrite !app_assoc_s. set (rest := join_comma _ +:+ _).
    change (parse_value (S n) ("[" +:+ rest)) with
      (match skip_ws rest with
       | String d r' =>
           if bool_decide (d = "]"%char) then Some (JArr [], r') else (λ lr, (JArr lr.1, lr.2)) <$> parse_elements n rest
       | EmptyString => None
       end).
    assert (∃ d s, skip_ws rest = String d s ∧ d ≠ "]"%char) as (d & s & -> & Hd).
    { destruct Hw as (d & s & E & Hs & Hd); [simpl in Pv; by apply andb_True in Pv as [? _]|].
      assert (∃ s', rest = String d s') as [s' ->].
      { unfold rest. rewrite fmap_cons. destruct (json_text <$> l); cbn [join_comma];
          rewrite E, ?app_assoc_s, app_cons; eauto. }
      exists d, s'. simpl. by rewrite Hs. }
    rewrite bool_decide_false by done. unfold rest. rewrite parse_elements_text; [done..|]. lia.
  - apply andb_True in Pv as [Hd%bool_decide_unpack Pl].
    rewrite json_text_obj, !app_assoc_s by done. cbn [cost] in Hn. destruct l as [|[k w] l]; [done|].
    set (rest := join_comma _ +:+ _).
    change (parse_value (S n) ("{" +:+ rest)) with
      (match skip_ws rest with
       | String d r' =>
           if bool_decide (d = "}"%char) then Some (JObj [], r') else (λ lr, (object_of lr.1, lr.2)) <$> parse_members n rest
       | EmptyString => None
       end).
    assert (∃ s, skip_ws rest = String (ascii_of_nat 34) s) as [s ->].
    { unfold rest. rewrite fmap_cons. destruct (member_text <$> l); cbn [join_comma]; eexists; reflexivity. }
    rewrite bool_decide_false by done. unfold rest. rewrite parse_members_text; [|done..|lia].
    cbn. by rewrite object_of_nodup.
Qed.

Lemma length_join_comma (l : list string) :
  (list_sum (String.length <$> l) + pred (length l) ≤ String.length (join_comma l))%nat.
Proof.
  induction l as [|t l IH]; [done|]. destruct l as [|t' l]; [simpl; lia|].
  rewrite join_cons, !length_app_s by done. cbn [fmap list_fmap list_sum foldr length pred] in *. simpl in *. lia.
Qed.

Lemma cost_length v : plain v → (cost v ≤ String.length (json_text v))%nat.
Proof.
  induction v using json_induction; intros Pv; try (simpl in *; done || lia).
  - destruct b; simpl; lia.
  - simpl in Pv. unfold number_ok in Pv. destruct t; [done|]. simpl. lia.
  - cbn [json_text cost plain] in *. rewrite !length_app_s. pose proof (length_join_comma (json_text <$> l)) as Hj.
    rewrite length_fmap in Hj. cbn [String.length].
    assert (list_sum ((λ x, S (cost x)) <$> l) ≤ length l + list_sum (String.length <$> (json_text <$> l)))%nat; [|lia].
    clear Hj. induction l as [|x l IH]; [done|]. apply Forall_cons in H0 as [Hx Hl]. simpl in Pv.
    apply andb_True in Pv as [Px Pl]. specialize (Hx Px). specialize (IH Hl Pl).
    rewrite !fmap_cons. cbn [list_sum foldr length]. unfold list_sum in IH. lia.
  - apply andb_True in Pv as [Hd%bool_decide_unpack Pl]. rewrite json_text_obj, !length_app_s by done.
    pose proof (length_join_comma (member_text <$> l)) as Hj. rewrite length_fmap in Hj. cbn [cost String.length].
    assert (list_sum ((λ kv, S (cost kv.2)) <$> l) ≤ length l + list_sum (String.length <$> (member_text <$> l)))%nat; [|lia].
    clear Hj Hd. induction l as [|x l IH]; [done|]. apply Forall_cons in H0 as [Hx Hl]. simpl in Pl.
    apply andb_True in Pl as [Px Pl]. specialize (Hx Px). specialize (IH Hl Pl).
    assert (String.length (json_text x.2) ≤ String.length (member_text x))%nat
      by (unfold member_text; rewrite !length_app_s; lia).
    rewrite !fmap_cons. cbn [list_sum foldr length]. unfold list_sum in IH. unfold compose in Hx. lia.
Qed.

(** [JSON.parse(JSON.stringify(v))] gives [v] back. *)
Lemma JSON_parse_text v : plain v → JSON_parse (json_text v) = Some v.
Proof.
  intros Pv. unfold JSON_parse. pose proof (cost_length v Pv).
  pose proof (parse_value_text v Pv (S (String.length (json_text v))) "" I ltac:(lia)) as E.
  rewrite app_nil_s in E. by rewrite E.
Qed.
End round_trip.

(** ** Integers *)

Lemma drop_digits_all s : all_chars is_digit s → drop_digits s = "".
Proof. induction s as [|c s IH]; simpl; [done|]. rewrite andb_True. intros [Hc Hs]. destruct (is_digit c); [by apply IH|done]. Qed.

Lemma is_digit_number c : is_digit c → number_char c.
Proof. destruct c as [[] [] [] [] [] [] [] []]; vm_compute; intros Hc; try done; by destruct Hc. Qed.

Lemma json_number_pos (p : positive) :
  ∃ c t, (pretty (N.pos p) : string) = String c t ∧ is_digit c ∧ all_chars is_digit t ∧ c ≠ "0"%char.
Proof.
  unfold pretty, pretty_N. rewrite decide_False by done.
  destruct (pretty_N_go_spec (N.pos p) "" ltac:(lia)) as (c & t & -> & Hc & Ht & Hne & _).
  rewrite app_nil_s. eauto 10.
Qed.

Lemma json_number_digits c t : is_digit c → all_chars is_digit t → c ≠ "0"%char →
  json_number (String c t) ∧ json_number (String "-" (String c t)).
Proof.
  intros Hc Ht Hne. assert (c ≠ "-"%char) as Hm by (by intros ->).
  assert (∀ s, drop_sign ["-"%char] s = String c t → json_number s) as Hs; [|split; apply Hs; [|done]].
  - intros s Hs. unfold json_number. rewrite Hs. cbn [digits1]. rewrite (bool_decide_false (c = "0"%char)) by done.
    destruct (is_digit c); [|done]. by rewrite drop_digits_all.
  - unfold drop_sign. by rewrite bool_decide_false by (by rewrite list_elem_of_singleton).
Qed.

Lemma number_ok_int `{JsNumber} z : safe_int z → number_ok (pretty z).
Proof.
  intros Hz. unfold number_ok. rewrite !andb_True. split; [|by apply bool_decide_pack, number_text_pretty].
  destruct z as [|p|p]; [done|..]; destruct (json_number_pos p) as (c & t & E & Hc & Ht & Hne);
    destruct (json_number_digits c t Hc Ht Hne) as [H1 H2];
    assert (all_chars number_char (String c t))
      by (eapply all_chars_mono; [apply is_digit_number|]; simpl; by rewrite andb_True).
  - change (pretty (Z.pos p)) with (pretty (N.pos p)). by rewrite E.
  - change (pretty (Z.neg p)) with (String "-" (pretty (N.pos p))). rewrite E. split; [|done].
    simpl in *. done.
Qed.

(** Decimal integers only. *)
Definition number_model : JsNumber.
Proof.
  refine {| number_text := λ t, t;
            number_int := λ t, match strip_prefix "-" t with
              | Some s => if all_chars is_digit s then Some (- number_from 0 s) else None
              | None => if all_chars is_digit t then Some (number_from 0 t) else None
              end |}; [done|].
  intros [|p|p] _; [done|..].
  - change (pretty (Z.pos p)) with (pretty (N.pos p)). pose proof (pretty_N_digits (N.pos p)) as Hd.
    pose proof (number_from_pretty (N.pos p)) as Hn. destruct (json_number_pos p) as (c & t & E & Hc & _).
    rewrite E in *. cbn [strip_prefix]. rewrite bool_decide_false by (by intros <-).
    destruct (all_chars is_digit (String c t)); [|done]. by rewrite Hn.
  - change (pretty (Z.neg p)) with (String "-" (pretty (N.pos p))). pose proof (pretty_N_digits (N.pos p)) as Hd.
    cbn [strip_prefix]. rewrite bool_decide_true by done.
    destruct (all_chars is_digit (pretty (N.pos p))); [|done]. by rewrite number_from_pretty.
Defined.
