(* ===== verification/Cache.v ===== *)
(** * The cache: [server/src/services/cache.service.ts]

    [CacheService] over a Redis backend, when there is one and it is ready, and
    an in-memory backend.  A backend is an interface: the in-memory one satisfies
    it; Redis is a parameter that may throw.  What the services that use the cache
    rely on is the class [SharedCache], which the service without Redis satisfies.
    Values are stored as JSON texts.  Times are milliseconds, time to live is in
    seconds.  Metrics and logging are left out. *)

From stdpp Require Import prelude gmap strings list.
From S2P Require Import Prelude JsText Crypto Json JsonParse.

(** ** Backends *)

(** [ICacheBackend] *)
Class ICacheBackend (B : Type) := {
  cb_get : Z → string → B → B * result (option string);
  cb_set : Z → string → string → Z → B → B * result unit;
  cb_delete : Z → string → B → B * result unit;
  cb_clear : Z → B → B * result unit;
}.

Record InMemoryEntry := mkEntry { value : string; expiry : Z }.
Notation InMemoryBackend := (gmap string InMemoryEntry).

Section memory.
Implicit Types (store : InMemoryBackend).

Definition memory_get (now : Z) (key : string) store : InMemoryBackend * option string :=
  match store !! key with
  | None => (store, None)
  | Some entry => if bool_decide (expiry entry < now) then (delete key store, None) else (store, Some (value entry))
  end.
Definition memory_set (now : Z) (key text : string) (ttlSeconds : Z) store : InMemoryBackend :=
  <[key := mkEntry text (now + ttlSeconds * 1000)]> store.
Definition memory_delete (key : string) store : InMemoryBackend := delete key store.
Definition memory_clear store : InMemoryBackend := ∅.
Definition evictExpired (now : Z) store : InMemoryBackend := filter (λ kv, ¬ expiry kv.2 < now) store.
Definition memory_size store : nat := size store.

(** What a reader finds at an instant. *)
Definition live (now : Z) store (key : string) : option string :=
  match store !! key with Some entry => if bool_decide (expiry entry < now) then None else Some (value entry) | None => None end.
End memory.

#[export] Instance InMemoryBackend_backend : ICacheBackend InMemoryBackend := {|
  cb_get now key store := let '(store, v) := memory_get now key store in (store, Ok v);
  cb_set now key text ttl store := (memory_set now key text ttl store, Ok tt);
  cb_delete now key store := (memory_delete key store, Ok tt);
  cb_clear now store := (memory_clear store, Ok tt);
|}.

(** ** The service *)

Section service.
Context `{JsNumber} {R : Type} `{ICacheBackend R}.

(** Redis with its [ready] flag, and the in-memory store. *)
Record CacheService := mkCache {
  redis : option (R * bool);
  memory : InMemoryBackend;
  defaultTTL : Z;
}.
Implicit Types (this : CacheService).

Definition redis_available this : option R := match redis this with Some (r, true) => Some r | _ => None end.
Definition set_redis (r : R) this : CacheService :=
  mkCache (match redis this with Some (_, ready) => Some (r, ready) | None => None end) (memory this) (defaultTTL this).
Definition set_memory (m : InMemoryBackend) this : CacheService := mkCache (redis this) m (defaultTTL this).

(** The events ['ready'], ['error'] and ['close'] of the client. *)
Definition set_ready (ready : bool) this : CacheService :=
  mkCache (match redis this with Some (r, _) => Some (r, ready) | None => None end) (memory this) (defaultTTL this).

(** [backend().get(key)] *)
Definition backend_get (now : Z) (key : string) this : CacheService * result (option string) :=
  match redis_available this with
  | Some r => let '(r, v) := cb_get now key r in (set_redis r this, v)
  | None => let '(m, v) := cb_get now key (memory this) in (set_memory m this, v)
  end.
Definition backend_set (now : Z) (key text : string) (ttl : Z) this : CacheService * result unit :=
  match redis_available this with
  | Some r => let '(r, v) := cb_set now key text ttl r in (set_redis r this, v)
  | None => let '(m, v) := cb_set now key text ttl (memory this) in (set_memory m this, v)
  end.

(** A cached [null] counts as a miss, as for the callers. *)
Definition not_null (v : json) : option json := match v with JNull => None | _ => Some v end.

Definition cache_get (now : Z) (key : string) this : CacheService * option json :=
  let '(this, raw) := backend_get now key this in
  (this, match raw with Ok (Some text) => JSON_parse text ≫= not_null | _ => None end).

Definition cache_set (now : Z) (key : string) (v : json) (ttl : option Z) this : CacheService :=
  (backend_set now key (json_text v) (default (defaultTTL this) ttl) this).1.

(** An operation on Redis, when it is available, and on the memory. *)
Definition both (f : R → R * result unit) (g : InMemoryBackend → InMemoryBackend * result unit) this : CacheService :=
  let this := match redis_available this with Some r => set_redis (f r).1 this | None => this end in
  set_memory (g (memory this)).1 this.

Definition cache_delete (now : Z) (key : string) this : CacheService := both (cb_delete now key) (cb_delete now key) this.
Definition cache_clear (now : Z) this : CacheService := both (cb_clear now) (cb_clear now) this.

(** Cache-aside, the loader being a computation on a state of its own. *)
Definition getOrSet {S} (now : Z) (key : string) (loader : M S json) (ttl : option Z) : M (CacheService * S) json :=
  λ '(this, s),
    let '(this, cached) := cache_get now key this in
    match cached with
    | Some v => ((this, s), Ok v)
    | None =>
        match loader s with
        | (s, Ok v) => ((cache_set now key v ttl this, s), Ok v)
        | (s, Throw e) => ((this, s), Throw e)
        end
    end.

Definition isRedisConnected this : bool := match redis this with Some (_, ready) => ready | None => false end.
Definition memorySize this : nat := memory_size (memory this).

(** The timer of the constructor. *)
Definition evict_timer (now : Z) this : CacheService := set_memory (evictExpired now (memory this)) this.
End service.

Arguments CacheService R : clear implicits.

(** ** What the users of the cache rely on

    The laws hold of the service of a server without Redis ([alone_cache]) and of
    the service whose Redis stays connected and does not fail ([online_cache]).  They
    do not hold when Redis fails or is away for a while: [cache_set] ignores the
    error of a write and [cache_delete] does not reach a Redis that is away
    ([deleted_value_returns], [failed_write_ignored]).  The theorems on the users of
    the cache are about the two cases in which the laws hold. *)

Class SharedCache `{JsNumber} (C : Type) := {
  sc_get : Z → string → C → C * option json;
  sc_set : Z → string → json → Z → C → C;
  sc_delete : Z → string → C → C;
  (** what a reader finds at an instant *)
  sc_view : Z → C → string → option json;
  sc_get_view : ∀ now key c, (sc_get now key c).2 = sc_view now c key;
  sc_get_keeps : ∀ now key c now' key', now ≤ now' → sc_view now' (sc_get now key c).1 key' = sc_view now' c key';
  sc_set_view : ∀ now key v ttl c now', 0 < ttl → plain v → v ≠ JNull → now ≤ now' ≤ now + ttl * 1000 → sc_view now' (sc_set now key v ttl c) key = Some v;
  sc_set_expires : ∀ now key v ttl c now', 0 < ttl → now + ttl * 1000 < now' → sc_view now' (sc_set now key v ttl c) key = None;
  sc_set_ne : ∀ now key v ttl c now' key', key ≠ key' → sc_view now' (sc_set now key v ttl c) key' = sc_view now' c key';
  sc_delete_view : ∀ now key c now', sc_view now' (sc_delete now key c) key = None;
  sc_delete_ne : ∀ now key c now' key', key ≠ key' → sc_view now' (sc_delete now key c) key' = sc_view now' c key';
  sc_view_earlier : ∀ now now' key c v, now ≤ now' → sc_view now' c key = Some v → sc_view now c key = Some v;
}.

(** The service of a server without Redis. *)
#[export] Instance no_redis : ICacheBackend Empty_set := {|
  cb_get _ _ (r : Empty_set) := match r with end; cb_set _ _ _ _ (r : Empty_set) := match r with end;
  cb_delete _ _ (r : Empty_set) := match r with end; cb_clear _ (r : Empty_set) := match r with end;
|}.
Definition alone (m : InMemoryBackend) : CacheService Empty_set := mkCache None m 300.

Section alone.
Context `{JsNumber}.
Implicit Types (m : InMemoryBackend).

Definition found (text : option string) : option json := match text with Some t => JSON_parse t ≫= not_null | None => None end.

Lemma alone_get now key m : cache_get now key (alone m) = (alone (memory_get now key m).1, found (live now m key)).
Proof.
  unfold cache_get, backend_get. simpl. unfold memory_get, live. destruct (m !! key) as [e|]; [|done]. by case_bool_decide.
Qed.

Lemma live_get now key m now' key' : now ≤ now' → live now' (memory_get now key m).1 key' = live now' m key'.
Proof.
  intros Hn. unfold memory_get. destruct (m !! key) as [e|] eqn:E; [|done]. case_bool_decide as He; [|done]. simpl. unfold live.
  destruct (decide (key = key')) as [<-|Hk]; [|by rewrite lookup_delete_ne]. rewrite lookup_delete_eq, E. by rewrite bool_decide_true by lia.
Qed.

Lemma live_set now key text ttl m now' key' : live now' (memory_set now key text ttl m) key' =
  if bool_decide (key = key') then if bool_decide (now + ttl * 1000 < now') then None else Some text else live now' m key'.
Proof.
  unfold live, memory_set. case_bool_decide as Hk; [subst; by rewrite lookup_insert_eq|]. by rewrite lookup_insert_ne.
Qed.

Lemma live_delete key m now' key' : live now' (memory_delete key m) key' = if bool_decide (key = key') then None else live now' m key'.
Proof. unfold live, memory_delete. case_bool_decide as Hk; [subst; by rewrite lookup_delete_eq|]. by rewrite lookup_delete_ne. Qed.

Lemma live_evict now m now' key : now ≤ now' → live now' (evictExpired now m) key = live now' m key.
Proof.
  intros Hn. unfold live, evictExpired. rewrite map_lookup_filter. destruct (m !! key) as [e|]; simpl; [|done].
  case_guard as Hg; simpl; [done|]. by rewrite bool_decide_true by lia.
Qed.

Lemma live_earlier now now' m key text : now ≤ now' → live now' m key = Some text → live now m key = Some text.
Proof.
  intros Hn. unfold live. destruct (m !! key) as [e|]; [|done]. case_bool_decide; [done|]. by rewrite bool_decide_false by lia.
Qed.

Lemma found_text v : plain v → v ≠ JNull → found (Some (json_text v)) = Some v.
Proof. intros Hp Hn. unfold found. rewrite JSON_parse_text by done. by destruct v. Qed.

#[export] Instance alone_cache : SharedCache InMemoryBackend.
Proof.
  refine {|
    sc_get now key m := let '(this, v) := cache_get now key (alone m) in (memory this, v);
    sc_set now key v ttl m := memory (cache_set now key v (Some ttl) (alone m));
    sc_delete now key m := memory (cache_delete now key (alone m));
    sc_view now m key := found (live now m key) |}.
  - intros now key m. by rewrite alone_get.
  - intros now key m now' key' Hn. rewrite alone_get. simpl. by rewrite live_get.
  - intros now key v ttl m now' _ Hp Hv Hn. simpl. rewrite live_set, bool_decide_true, bool_decide_false by first [done|lia].
    by apply found_text.
  - intros now key v ttl m now' _ Hn. simpl. by rewrite live_set, !bool_decide_true by done.
  - intros now key v ttl m now' key' Hk. simpl. by rewrite live_set, bool_decide_false.
  - intros now key m now'. simpl. by rewrite live_delete, bool_decide_true.
  - intros now key m now' key' Hk. simpl. by rewrite live_delete, bool_decide_false.
  - intros now now' key m v Hn. simpl. destruct (live now' m key) as [text|] eqn:E; [|done]. by rewrite (live_earlier _ _ _ _ _ Hn E).
Defined.

(** ** A run of the service against its specification *)

Inductive cache_op :=
| OGet (now : Z) (key : string)
| OSet (now : Z) (key : string) (v : json) (ttl : option Z)
| ODelete (now : Z) (key : string)
| OClear (now : Z)
| OEvict (now : Z).

Definition cop_time (o : cache_op) : Z := match o with OGet t _ | OSet t _ _ _ | ODelete t _ | OClear t | OEvict t => t end.

Definition cache_step (o : cache_op) (this : CacheService Empty_set) : CacheService Empty_set :=
  match o with
  | OGet now key => (cache_get now key this).1
  | OSet now key v ttl => cache_set now key v ttl this
  | ODelete now key => cache_delete now key this
  | OClear now => cache_clear now this
  | OEvict now => evict_timer now this
  end.

(** The operations in the order they happen, and what the last write of a key
    left behind: the newest operation is the last of the list. *)
Definition write_effect (key : string) (w : option (json * Z)) (o : cache_op) : option (json * Z) :=
  match o with
  | OSet now k v ttl => if bool_decide (k = key) then Some (v, now + default 300 ttl * 1000) else w
  | ODelete _ k => if bool_decide (k = key) then None else w
  | OClear _ => None
  | OGet _ _ | OEvict _ => w
  end.
Definition last_write (key : string) (ops : list cache_op) : option (json * Z) := foldl (write_effect key) None ops.

Definition expected (now : Z) (w : option (json * Z)) : option json :=
  match w with Some (v, e) => if bool_decide (e < now) then None else Some v | None => None end.

(** Operations with increasing times and values JSON can carry. *)
Fixpoint clocked (t : Z) (ops : list cache_op) (t' : Z) : Prop :=
  match ops with [] => t ≤ t' | o :: ops' => t ≤ cop_time o ∧ clocked (cop_time o) ops' t' end.
Definition storable (o : cache_op) : Prop := match o with OSet _ _ v _ => plain v ∧ v ≠ JNull | _ => True end.

Lemma alone_step o m : cache_step o (alone m) = alone (memory (cache_step o (alone m))).
Proof.
  destruct o; try done. simpl. by rewrite alone_get.
Qed.

Lemma clocked_le t ops t' : clocked t ops t' → t ≤ t'.
Proof. revert t. induction ops as [|o ops IH]; intros t; simpl; [done|]. intros [? ?%IH]. lia. Qed.

Lemma run_expected ops t t' m w key : clocked t ops t' → Forall storable ops →
  (∀ now, t ≤ now → found (live now m key) = expected now w) →
  ∃ m', foldl (flip cache_step) (alone m) ops = alone m' ∧ ∀ now, t' ≤ now →
    found (live now m' key) = expected now (foldl (write_effect key) w ops).
Proof.
  revert t m w. induction ops as [|o ops IH]; intros t m w; simpl.
  - intros Ht _ Hw. exists m. split; [done|]. intros now Hn. apply Hw. lia.
  - intros [Ht Hops] [Ho Hall]%Forall_cons Hw. rewrite alone_step. apply (IH (cop_time o)); [done..|]. clear IH.
    intros now Hn. destruct o as [t0 k|t0 k v ttl|t0 k|t0|t0]; simpl in *.
    + rewrite alone_get. simpl. rewrite live_get by done. apply Hw. lia.
    + rewrite live_set. case_bool_decide; [|apply Hw; lia]. unfold expected. case_bool_decide; [done|]. by apply found_text; apply Ho.
    + rewrite live_delete. case_bool_decide; [done|]. apply Hw. lia.
    + unfold live, memory_clear. by rewrite lookup_empty.
    + rewrite live_evict by done. apply Hw. lia.
Qed.

(** C19: the cache of a server without Redis is a map with expiry times: after
    any operations a read finds the value of the last write of its key, read
    back from its JSON text, unless it was deleted or cleared since or its time
    to live is over; reads and evictions of other or expired entries make no
    difference. *)
Theorem cache_refines_map ops t t' now key : clocked t ops t' → t' ≤ now → Forall storable ops →
  (cache_get now key (foldl (flip cache_step) (alone ∅) ops)).2 = expected now (last_write key ops).
Proof.
  intros Hops Hn Hs. destruct (run_expected ops t t' ∅ None key Hops Hs) as (m' & -> & Hm).
  - intros now0 _. unfold live. by rewrite lookup_empty.
  - rewrite alone_get. simpl. by apply Hm.
Qed.
End alone.

(** ** A Redis that stays connected *)

(** What Redis documents of GET, SET with EX and DEL, as long as no command fails:
    a key holds the text of its last SET until it is deleted or its time to live, which
    is positive, is over. *)
Class ReliableRedis (R : Type) `{ICacheBackend R} := {
  rr_view : Z → R → string → option string;
  rr_get_view : ∀ now key r, (cb_get now key r).2 = Ok (rr_view now r key);
  rr_get_keeps : ∀ now key r now' key', now ≤ now' → rr_view now' (cb_get now key r).1 key' = rr_view now' r key';
  rr_set_view : ∀ now key text ttl r now', 0 < ttl →
    rr_view now' (cb_set now key text ttl r).1 key = if bool_decide (now + ttl * 1000 < now') then None else Some text;
  rr_set_ne : ∀ now key text ttl r now' key', key ≠ key' → rr_view now' (cb_set now key text ttl r).1 key' = rr_view now' r key';
  rr_delete_view : ∀ now key r now' key',
    rr_view now' (cb_delete now key r).1 key' = if bool_decide (key = key') then None else rr_view now' r key';
  rr_view_earlier : ∀ now now' key r text, now ≤ now' → rr_view now' r key = Some text → rr_view now r key = Some text;
}.

Section online.
Context `{JsNumber} {R : Type} `{ReliableRedis R}.

(** The service whose Redis is connected; its memory is not read. *)
Definition online (c : R * InMemoryBackend) : CacheService R := mkCache (Some (c.1, true)) c.2 300.
Definition parts (c : R * InMemoryBackend) (this : CacheService R) : R * InMemoryBackend :=
  match redis this with Some (r, _) => (r, memory this) | None => c end.

Lemma online_get now key c :
  cache_get now key (online c) = (online ((cb_get now key c.1).1, c.2), found (rr_view now c.1 key)).
Proof.
  unfold cache_get, backend_get. simpl. pose proof (rr_get_view now key c.1) as Hv. destruct (cb_get now key c.1) as [r v]. simpl in *. subst v.
  by destruct (rr_view now c.1 key).
Qed.

Lemma online_set now key v ttl c : cache_set now key v (Some ttl) (online c) = online ((cb_set now key (json_text v) ttl c.1).1, c.2).
Proof. unfold cache_set, backend_set. simpl. by destruct (cb_set _ _ _ _ _). Qed.

Lemma online_delete now key c : cache_delete now key (online c) = online ((cb_delete now key c.1).1, memory_delete key c.2).
Proof. done. Qed.

Definition online_cache : SharedCache (R * InMemoryBackend).
Proof.
  refine {|
    sc_get now key c := let '(this, v) := cache_get now key (online c) in (parts c this, v);
    sc_set now key v ttl c := parts c (cache_set now key v (Some ttl) (online c));
    sc_delete now key c := parts c (cache_delete now key (online c));
    sc_view now c key := found (rr_view now c.1 key) |}.
  - intros now key c. by rewrite online_get.
  - intros now key c now' key' Hn. rewrite online_get. simpl. by rewrite rr_get_keeps.
  - intros now key v ttl c now' Ht Hp Hv Hn. rewrite online_set. simpl. rewrite rr_set_view, bool_decide_false by lia. by apply found_text.
  - intros now key v ttl c now' Ht Hn. rewrite online_set. simpl. by rewrite rr_set_view, bool_decide_true.
  - intros now key v ttl c now' key' Hk. rewrite online_set. simpl. by rewrite rr_set_ne.
  - intros now key c now'. rewrite online_delete. simpl. by rewrite rr_delete_view, bool_decide_true.
  - intros now key c now' key' Hk. rewrite online_delete. simpl. by rewrite rr_delete_view, bool_decide_false.
  - intros now now' key c v Hn. simpl. destruct (rr_view now' c.1 key) as [text|] eqn:E; [|done]. by rewrite (rr_view_earlier _ _ _ _ _ Hn E).
Defined.
End online.

(** The laws of such a Redis can be kept: by a store like the in-memory one. *)
#[export] Instance memory_as_redis : ReliableRedis InMemoryBackend.
Proof.
  refine {| rr_view := live |}.
  - intros now key m. simpl. unfold memory_get, live. destruct (m !! key) as [e|]; [|done]. by case_bool_decide.
  - intros now key m now' key' Hn. simpl. rewrite <- (live_get now key m now' key' Hn). by destruct (memory_get now key m).
  - intros now key text ttl m now' _. simpl. by rewrite live_set, bool_decide_true.
  - intros now key text ttl m now' key' Hk. simpl. by rewrite live_set, bool_decide_false.
  - intros now key m now' key'. simpl. apply live_delete.
  - intros now now' key m text. apply live_earlier.
Defined.

(** ** Redis that comes back *)

Section reconnect.
#[local] Existing Instance number_model.

(** A Redis server that behaves like a store of its own. *)
Definition with_redis : CacheService InMemoryBackend := mkCache (Some (∅, true)) ∅ 300.

(** A value that is deleted while Redis is not reachable is served again when
    the connection is back, although the deletion is meant to prevent that. *)
Theorem deleted_value_returns :
  let written := cache_set 0 "k" (JStr "old") None with_redis in
  let deleted := cache_delete 1000 "k" (set_ready false written) in
  (cache_get 2000 "k" deleted).2 = None ∧ (cache_get 3000 "k" (set_ready true deleted)).2 = Some (JStr "old").
Proof. by vm_compute. Qed.

(** A Redis that refuses writes: the write is lost and an older value stays. *)
Definition refusing : ICacheBackend InMemoryBackend := {|
  cb_get now key store := let '(store, v) := memory_get now key store in (store, Ok v);
  cb_set now key text ttl store := (store, Throw (JsError "OOM command not allowed"));
  cb_delete now key store := (store, Throw (JsError "READONLY"));
  cb_clear now store := (store, Throw (JsError "READONLY"));
|}.

Example failed_write_ignored :
  let written := cache_set 0 "k" (JStr "old") None with_redis in
  let again := @cache_set InMemoryBackend refusing 1000 "k" (JStr "new") None written in
  (cache_get 2000 "k" again).2 = Some (JStr "old") ∧ (cache_get 2000 "k" (@cache_delete _ refusing 1500 "k" again)).2 = Some (JStr "old").
Proof. by vm_compute. Qed.

Lemma cache_refines_map_witness :
  let ops := [OSet 0 "k" (JStr "v") (Some 10); OSet 1000 "k" (JObj [("n", JNum "3")]) None; OEvict 20000; OGet 21000 "k"] in
  (cache_get 300000 "k" (foldl (flip cache_step) (alone ∅) ops)).2 = expected 300000 (last_write "k" ops) ∧
  expected 300000 (last_write "k" ops) = Some (JObj [("n", JNum "3")]).
Proof.
  cbv zeta. split; [|by vm_compute]. apply (cache_refines_map _ 0 21000); [simpl; lia|lia|]. repeat constructor; discriminate.
Defined.
End reconnect.
