(* ===== verification/FeatureFlag.v ===== *)
(** * Feature flags: [server/src/services/feature-flag.service.ts]

    Flags are rows with a JSON column of rules, read through the cache of
    [Cache.v] (the class [SharedCache]) and written with a log entry each.  A flag
    is evaluated on the JSON object that the cache or the database returns.  A
    call reads the clock once.  The order of [listFlags] is the database's. *)

From Stdlib Require Import Ascii.
From stdpp Require Import prelude gmap strings list pretty.
From S2P Require Import Prelude JsText Prisma Crypto Json JsonParse Cache JsBuffer.

(** ** Rows *)

Record FeatureFlag := mkFlag {
  f_id : string;
  f_key : string;
  f_description : option string;
  f_isEnabled : bool;
  f_rules : json;
  f_createdAt : Z;
  f_updatedAt : Z;
}.

Record FeatureFlagAuditLog := mkFlagLog {
  fl_id : string;
  fl_flagId : string;
  fl_action : string;
  fl_changedBy : string;
  fl_changes : json;
  fl_createdAt : Z;
}.

Record EvaluationContext := mkContext {
  userId : option string;
  role : option string;
  email : option string;
  ip : option string;
}.

(** A row as the object [JSON.stringify] sees. *)
Definition flag_json (f : FeatureFlag) : json :=
  JObj [("id", JStr (f_id f)); ("key", JStr (f_key f));
        ("description", match f_description f with Some d => JStr d | None => JNull end);
        ("isEnabled", JBool (f_isEnabled f)); ("rules", f_rules f);
        ("createdAt", JStr (toISOString (f_createdAt f))); ("updatedAt", JStr (toISOString (f_updatedAt f)))].

(** ** Rules *)

(** A JSON value as a condition; the text of a number is normalised. *)
Definition json_truthy (v : json) : bool :=
  match v with
  | JUndefined | JNull => false
  | JBool b => b
  | JNum t => negb (bool_decide (t = "0"))
  | JStr s => negb (bool_decide (s = ""))
  | JArr _ | JObj _ => true
  end.

Definition TypeError : exn := JsError "TypeError".

(** [v.includes(x)] for a text [x]: of an array, or of a text *)
Definition includes (v : json) (x : string) : result bool :=
  match v with
  | JArr l => Ok (existsb (λ y, match y with JStr s => bool_decide (s = x) | _ => false end) l)
  | JStr s => Ok (str_contains x s)
  | _ => Throw TypeError
  end.

(** [parseInt(text, 16)]: the number of the leading hexadecimal digits *)
Fixpoint hex_from (acc : Z) (s : string) : Z :=
  match s with
  | String c s' => match hex_value c with Some d => hex_from (16 * acc + d) s' | None => acc end
  | EmptyString => acc
  end.
Definition parseInt16 (s : string) : option Z :=
  match s with String c _ => if bool_decide (is_Some (hex_value c)) then Some (hex_from 0 s) else None | EmptyString => None end.

(** [score < value] for a JSON number. *)
Class JsLess `{JsNumber} := {
  number_above : Z → string → bool;
  number_above_int : ∀ score t v, number_int t = Some v → number_above score t = bool_decide (score < v);
}.

Section evaluate.
Context `{Sha256} `{JsLess}.

(** The place of a user in the rollout of a flag, between 0 and 99. *)
Definition score (user key : string) : option Z :=
  (λ n, n mod 100) <$> parseInt16 (str_take 8 (sha256_hex (user +:+ "-" +:+ key))).

(** Whether one rule lets a context in.  The declared type of [value] is number. *)
Definition rule_matches (key : string) (context : EvaluationContext) (rule : json) : result bool :=
  match rule with
  | JUndefined | JNull => Throw TypeError
  | _ =>
      match json_prop "type" rule with
      | JStr "user" =>
          match json_truthy (json_prop "userIds" rule), truthy_str (userId context) with
          | true, Some u => includes (json_prop "userIds" rule) u
          | _, _ => Ok false
          end
      | JStr "role" =>
          match json_truthy (json_prop "roles" rule), truthy_str (role context) with
          | true, Some r => includes (json_prop "roles" rule) r
          | _, _ => Ok false
          end
      | JStr "email" =>
          match json_truthy (json_prop "domains" rule), truthy_str (email context) with
          | true, Some e =>
              match truthy_str (split "@"%char e !! 1%nat) with
              | Some domain => includes (json_prop "domains" rule) domain
              | None => Ok false
              end
          | _, _ => Ok false
          end
      | JStr "percentage" =>
          match json_prop "value" rule, truthy_str (userId context) with
          | JNum v, Some u => Ok (match score u key with Some n => number_above n v | None => false end)
          | _, _ => Ok false
          end
      | _ => Ok false
      end
  end.

Fixpoint eval_rules (key : string) (context : EvaluationContext) (rules : list json) : result bool :=
  match rules with
  | [] => Ok false
  | rule :: rules' => hit ← rule_matches key context rule; if (hit : bool) then Ok true else eval_rules key context rules'
  end.

(** [evaluate] on the flag that was found. *)
Definition eval_flag (key : string) (context : EvaluationContext) (flag : option json) : result bool :=
  match flag with
  | None => Ok false
  | Some flag =>
      if negb (json_truthy (json_prop "isEnabled" flag)) then Ok false else
      match json_prop "rules" flag with
      | JArr [] => Ok true
      | JArr rules => eval_rules key context rules
      | _ => Ok true
      end
  end.
End evaluate.

(** ** The service *)

Section service.
Context `{Prisma} `{Sha256} `{JsLess} {C : Type} `{!SharedCache C}.

Record FlagDB := mkFlagDB {
  featureFlag : list FeatureFlag;
  featureFlagAuditLog : list FeatureFlagAuditLog;
  ff_cache : C;
  ff_serial : nat;
}.
Implicit Types (db : FlagDB).

Definition set_flags l db : FlagDB := mkFlagDB l (featureFlagAuditLog db) (ff_cache db) (ff_serial db).
Definition set_logs l db : FlagDB := mkFlagDB (featureFlag db) l (ff_cache db) (ff_serial db).
Definition set_cache c db : FlagDB := mkFlagDB (featureFlag db) (featureFlagAuditLog db) c (ff_serial db).
Definition ff_next db : FlagDB := mkFlagDB (featureFlag db) (featureFlagAuditLog db) (ff_cache db) (S (ff_serial db)).

Definition getCacheKey (key : string) : string := "ff:" +:+ key.

Definition cache_lookup (now : Z) (key : string) : M FlagDB (option json) :=
  db ← get; let '(c, v) := sc_get now key (ff_cache db) in _ ← put (set_cache c db); mret v.
Definition cache_store (now : Z) (key : string) (v : json) (ttl : Z) : M FlagDB unit :=
  modify (λ db, set_cache (sc_set now key v ttl (ff_cache db)) db).
Definition cache_forget (now : Z) (key : string) : M FlagDB unit :=
  modify (λ db, set_cache (sc_delete now key (ff_cache db)) db).

Definition getFlag (now : Z) (key : string) : M FlagDB (option json) :=
  let cacheKey := getCacheKey key in
  cached ← cache_lookup now cacheKey;
  match cached with
  | Some v => mret (Some v)
  | None =>
      flag ← gets (λ db, row_find f_key key (featureFlag db));
      match flag with
      | Some flag => _ ← cache_store now cacheKey (flag_json flag) 300; mret (Some (flag_json flag))
      | None => mret None
      end
  end.

Definition evaluate (now : Z) (key : string) (context : EvaluationContext) : M FlagDB bool :=
  flag ← getFlag now key;
  match eval_flag key context flag with Ok b => mret b | Throw e => throw e end.

(** A log entry of a flag; the flag must exist. *)
Definition flag_log (flagId action changedBy : string) (changes : json) : M FlagDB unit :=
  db ← get;
  if bool_decide (flagId ∈ f_id <$> featureFlag db) then
    put (ff_next (set_logs (featureFlagAuditLog db ++ [mkFlagLog (uuid (ff_serial db)) flagId action changedBy changes (db_now (ff_serial db))]) db))
  else throw ForeignKeyViolation.

Definition changes (before after : json) : json := JObj [("before", before); ("after", after)].

Definition FlagNotFound (key : string) : exn := JsError ("Feature flag " +:+ key +:+ " not found").

Definition createFlag (now : Z) (key : string) (description : option string) (isEnabled : option bool) (rules : option json) (adminId : string)
    : M FlagDB FeatureFlag :=
  db ← get;
  let flag := mkFlag (uuid (ff_serial db)) key description (default false isEnabled) (default (JArr []) rules) (db_now (ff_serial db)) now in
  if bool_decide (key ∈ f_key <$> featureFlag db) then throw (UniqueConstraint ["key"]) else
  _ ← put (ff_next (set_flags (featureFlag db ++ [flag]) db));
  _ ← flag_log (f_id flag) "CREATE" adminId (changes JNull (flag_json flag));
  _ ← cache_store now (getCacheKey (f_key flag)) (flag_json flag) 300;
  mret flag.

(** The columns that are given are written. *)
Definition f_updated (now : Z) (description : option string) (isEnabled : option bool) (rules : option json) (f : FeatureFlag) : FeatureFlag :=
  mkFlag (f_id f) (f_key f) (match description with Some d => Some d | None => f_description f end)
    (default (f_isEnabled f) isEnabled) (default (f_rules f) rules) (f_createdAt f) now.

Definition updateFlag (now : Z) (key : string) (description : option string) (isEnabled : option bool) (rules : option json) (adminId : string)
    : M FlagDB FeatureFlag :=
  found ← gets (λ db, row_find f_key key (featureFlag db));
  match found with
  | None => throw (FlagNotFound key)
  | Some oldFlag =>
      let newFlag := f_updated now description isEnabled rules oldFlag in
      _ ← modify (λ db, set_flags (row_update f_key key (f_updated now description isEnabled rules) (featureFlag db)) db);
      _ ← flag_log (f_id oldFlag) "UPDATE" adminId (changes (flag_json oldFlag) (flag_json newFlag));
      _ ← cache_store now (getCacheKey key) (flag_json newFlag) 300;
      mret newFlag
  end.

(** The delete cascades to the log entries of the flag. *)
Definition flag_delete (flag : FeatureFlag) : M FlagDB unit :=
  modify (λ db, set_logs (List.filter (λ l, negb (bool_decide (fl_flagId l = f_id flag))) (featureFlagAuditLog db))
                  (set_flags (List.filter (λ f, negb (bool_decide (f_key f = f_key flag))) (featureFlag db)) db)).

Definition deleteFlag (now : Z) (key : string) (adminId : string) : M FlagDB unit :=
  found ← gets (λ db, row_find f_key key (featureFlag db));
  match found with
  | None => throw (FlagNotFound key)
  | Some flag =>
      _ ← flag_log (f_id flag) "DELETE" adminId (changes (flag_json flag) JNull);
      _ ← flag_delete flag;
      cache_forget now (getCacheKey key)
  end.

Definition getAuditLogs (key : string) : M FlagDB (list FeatureFlagAuditLog) :=
  found ← gets (λ db, row_find f_key key (featureFlag db));
  match found with
  | None => throw (FlagNotFound key)
  | Some flag =>
      gets (λ db, order_by (λ a b, bool_decide (fl_createdAt b ≤ fl_createdAt a))
                    (List.filter (λ l, bool_decide (fl_flagId l = f_id flag)) (featureFlagAuditLog db)))
  end.
End service.

(** ** What the feature flags guarantee

    Reading through the cache never shows an outdated flag, a percentage rollout
    is a fixed order of the users that is cut at the percentage, and deleting a
    flag deletes its log. *)

Section spec.
Context `{Prisma} `{Sha256} `{JsLess} {C : Type} `{!SharedCache C}.
Notation FlagDB := (@FlagDB C).
Implicit Types (db : FlagDB) (f : FeatureFlag) (t now : Z).

(** ** The cache shows the rows *)

Record coherent t db : Prop := {
  co_keys : NoDup (f_key <$> featureFlag db);
  co_plain : Forall (λ f, plain (f_rules f)) (featureFlag db);
  co_cache : ∀ now key v, t ≤ now → sc_view now (ff_cache db) (getCacheKey key) = Some v →
    ∃ f, row_find f_key key (featureFlag db) = Some f ∧ v = flag_json f;
}.

Lemma coherent_later t t' db : coherent t db → t ≤ t' → coherent t' db.
Proof. intros [? ? Hc] Ht. split; [done..|]. intros now key v Hn. apply Hc. lia. Qed.

Lemma getCacheKey_inj k k' : getCacheKey k = getCacheKey k' → k = k'.
Proof. unfold getCacheKey. change ("ff:" +:+ k) with (String "f" (String "f" (String ":" k))). change ("ff:" +:+ k') with (String "f" (String "f" (String ":" k'))). congruence. Qed.

Lemma flag_json_plain f : plain (f_rules f) → plain (flag_json f).
Proof.
  intros Hr. unfold flag_json. cbn [plain forallb fst snd]. rewrite !andb_True. split; [by apply (bool_decide_pack _); vm_compute; apply (bool_decide_unpack _); vm_compute|].
  by destruct (f_description f).
Qed.

(** Storing the row of a key brings the cache in step, when the other keys are. *)
Lemma store_coherent t now key f db : NoDup (f_key <$> featureFlag db) → Forall (λ f, plain (f_rules f)) (featureFlag db) →
  (∀ now key' v, t ≤ now → key' ≠ key → sc_view now (ff_cache db) (getCacheKey key') = Some v →
     ∃ f, row_find f_key key' (featureFlag db) = Some f ∧ v = flag_json f) →
  t ≤ now → row_find f_key key (featureFlag db) = Some f →
  coherent now (set_cache (sc_set now (getCacheKey key) (flag_json f) 300 (ff_cache db)) db).
Proof.
  intros Hk Hp Hc Ht Hf. split; [done..|]. intros now' key' v Hn. simpl.
  destruct (decide (key = key')) as [<-|Hne].
  - destruct (decide (now' ≤ now + 300 * 1000)).
    + rewrite sc_set_view by first [done|lia|apply flag_json_plain; apply row_find_Some in Hf as [Hin _]; rewrite Forall_forall in Hp; by apply Hp].
      intros [= <-]. eauto.
    + rewrite sc_set_expires by lia. done.
  - rewrite sc_set_ne by (by intros ?%getCacheKey_inj). apply Hc; [lia|done].
Qed.

Lemma lookup_coherent t now key db : coherent t db → t ≤ now → coherent now (set_cache (sc_get now key (ff_cache db)).1 db).
Proof.
  intros [Hk Hp Hc] Ht. split; [done..|]. intros now' key' v Hn. simpl. rewrite sc_get_keeps by done. apply Hc. lia.
Qed.

(** [getFlag] returns the row of the key. *)
Lemma getFlag_spec t now key db : coherent t db → t ≤ now → post (getFlag now key) db
  (λ db' v, coherent now db' ∧ featureFlag db' = featureFlag db ∧ featureFlagAuditLog db' = featureFlagAuditLog db ∧
            v = flag_json <$> row_find f_key key (featureFlag db)) (λ _ _, False).
Proof.
  intros Hco Ht. unfold getFlag, cache_lookup. cbv zeta. m_step. m_step. m_step. pose proof (sc_get_view now (getCacheKey key) (ff_cache db)) as Hv.
  pose proof (lookup_coherent t now (getCacheKey key) db Hco Ht) as Hco1.
  destruct (sc_get now (getCacheKey key) (ff_cache db)) as [c cached]. simpl in Hv, Hco1. repeat m_step.
  destruct cached as [v|].
  - m_step. split_and!; [done..|]. destruct (co_cache _ _ Hco now key v Ht (eq_sym Hv)) as (f & -> & ->). done.
  - m_step. m_step. simpl. destruct (row_find f_key key (featureFlag db)) as [f|] eqn:Hf; [|by m_step].
    unfold cache_store. m_step. m_step. m_step. split_and!; [|done..]. destruct Hco1 as [Hk Hp Hc].
    apply (store_coherent now now key f); try done. intros now' key' v Hn _. by apply Hc.
Qed.

(** ** Writing flags *)

Lemma flag_log_ok flagId action by_ ch db : flagId ∈ f_id <$> featureFlag db → post (flag_log flagId action by_ ch) db
  (λ db' _, ∃ l, db' = ff_next (set_logs (featureFlagAuditLog db ++ [l]) db)) (λ _ _, False).
Proof. intros Hid. unfold flag_log. m_step. m_step. rewrite bool_decide_true by done. m_step. eauto. Qed.

Notation keeps_coherent now m := (λ db, post m db (λ db' _, coherent now db') (λ db' _, coherent now db')).

Lemma createFlag_coherent t now key d e rules admin db : coherent t db → t ≤ now → plain (default (JArr []) rules) →
  keeps_coherent now (createFlag now key d e rules admin) db.
Proof.
  intros Hco Ht Hplain. unfold createFlag. m_step. m_step. cbv zeta. case_bool_decide as Hin; [m_step; by eapply coherent_later|].
  set (flag := mkFlag _ _ _ _ _ _ _). m_step. m_step. m_step. eapply post_mono; [apply flag_log_ok|intros db' _ [l ->]|done].
  { simpl. rewrite fmap_snoc, elem_of_app. right. by apply list_elem_of_singleton. }
  unfold cache_store. m_step. m_step. m_step. destruct Hco as [Hk Hp Hc]. apply (store_coherent t now key flag); simpl.
  - rewrite fmap_snoc. by apply NoDup_snoc.
  - apply Forall_app. split; [done|]. by constructor.
  - intros now' key' v Hn _ Hv. destruct (Hc now' key' v Hn Hv) as (f & Hf & ->). exists f. by rewrite row_find_app, Hf.
  - done.
  - rewrite row_find_app. assert (row_find f_key key (featureFlag db) = None) as -> by (by apply row_find_None).
    unfold row_find. simpl. by rewrite bool_decide_true.
Qed.

Lemma updateFlag_coherent t now key d e rules admin db : coherent t db → t ≤ now → (∀ r, rules = Some r → plain r) →
  keeps_coherent now (updateFlag now key d e rules admin) db.
Proof.
  intros Hco Ht Hplain. unfold updateFlag. m_step. m_step. destruct (row_find f_key key (featureFlag db)) as [old|] eqn:Hrow;
    [|m_step; by eapply coherent_later]. cbv zeta. set (g := f_updated now d e rules). m_step. m_step. m_step.
  assert (∀ f, f_key (g f) = f_key f) as Hg by done. assert (∀ f, f_id (g f) = f_id f) as Hgid by done.
  pose proof (row_find_Some _ _ _ _ Hrow) as [Hin Hkey].
  eapply post_mono; [apply flag_log_ok|intros db' _ [l ->]|done].
  { simpl. apply list_elem_of_fmap. exists (g old). split; [done|]. apply elem_of_row_update. exists old. split; [done|]. by rewrite bool_decide_true. }
  unfold cache_store. m_step. m_step. m_step. destruct Hco as [Hk Hp Hc]. apply (store_coherent t now key (g old)); simpl.
  - by rewrite row_update_ids.
  - apply Forall_row_update; [|done]. intros f _ Hf. unfold g, f_updated. simpl. destruct rules as [r|]; [by apply Hplain|done].
  - intros now' key' v Hn Hne Hv. destruct (Hc now' key' v Hn Hv) as (f & Hf & ->). exists f.
    rewrite row_find_update by done. rewrite Hf. simpl. by rewrite bool_decide_false.
  - done.
  - rewrite row_find_update by done. rewrite Hrow. simpl. by rewrite bool_decide_true.
Qed.

Lemma row_find_filter_key key key' (l : list FeatureFlag) : key' ≠ key →
  row_find f_key key' (List.filter (λ f, negb (bool_decide (f_key f = key))) l) = row_find f_key key' l.
Proof.
  intros Hne. unfold row_find. induction l as [|f l IH]; simpl; [done|]. case_bool_decide as Hk; simpl.
  - rewrite (bool_decide_false (f_key f = key')) by congruence. exact IH.
  - case_bool_decide; [done|exact IH].
Qed.

Lemma deleteFlag_coherent t now key admin db : coherent t db → t ≤ now → keeps_coherent now (deleteFlag now key admin) db.
Proof.
  intros Hco Ht. unfold deleteFlag. m_step. m_step. destruct (row_find f_key key (featureFlag db)) as [f|] eqn:Hrow;
    [|m_step; by eapply coherent_later]. pose proof (row_find_Some _ _ _ _ Hrow) as [Hin Hkey].
  m_step. eapply post_mono; [apply flag_log_ok; by apply list_elem_of_fmap_2|intros db' _ [l ->]|done].
  unfold flag_delete, cache_forget. repeat m_step. destruct Hco as [Hk Hp Hc]. rewrite Hkey. split; simpl.
  - eapply sublist_NoDup; [exact Hk|]. apply fmap_sublist. clear. induction (featureFlag db) as [|x l IH]; simpl; [done|].
    destruct (negb _); by constructor.
  - rewrite Forall_forall in Hp |- *. intros x. rewrite list_elem_of_In, List.filter_In, <- list_elem_of_In. intros [Hx _]. by apply Hp.
  - intros now' key' v Hn Hv. destruct (decide (key' = key)) as [->|Hne]; [by rewrite sc_delete_view in Hv|].
    rewrite sc_delete_ne in Hv by (by intros E%getCacheKey_inj). rewrite row_find_filter_key by done. apply (Hc now'); [lia|done].
Qed.

(** ** Runs *)

Inductive flag_call :=
| Evaluate (now : Z) (key : string) (context : EvaluationContext)
| Create (now : Z) (key : string) (description : option string) (isEnabled : option bool) (rules : option json) (admin : string)
| Update (now : Z) (key : string) (description : option string) (isEnabled : option bool) (rules : option json) (admin : string)
| Delete (now : Z) (key : string) (admin : string).

Definition flag_time (c : flag_call) : Z := match c with Evaluate t _ _ | Create t _ _ _ _ _ | Update t _ _ _ _ _ | Delete t _ _ => t end.

Definition flag_exec (c : flag_call) db : FlagDB :=
  match c with
  | Evaluate now key ctx => (evaluate now key ctx db).1
  | Create now key d e r admin => (createFlag now key d e r admin db).1
  | Update now key d e r admin => (updateFlag now key d e r admin db).1
  | Delete now key admin => (deleteFlag now key admin db).1
  end.
Definition flag_run (cs : list flag_call) db : FlagDB := foldl (λ db c, flag_exec c db) db cs.

(** Calls in the order of their times, with rules that came as JSON. *)
Fixpoint in_order t (cs : list flag_call) t' : Prop :=
  match cs with [] => t ≤ t' | c :: cs' => t ≤ flag_time c ∧ in_order (flag_time c) cs' t' end.
Definition rules_ok (c : flag_call) : Prop :=
  match c with Create _ _ _ _ (Some r) _ | Update _ _ _ _ (Some r) _ => plain r | _ => True end.

Lemma post_fst {S A} (m : M S A) s (P : S → Prop) : post m s (λ s' _, P s') (λ s' _, P s') → P (m s).1.
Proof. unfold post. by destruct (m s) as [s' []]. Qed.

Lemma evaluate_spec t now key ctx db : coherent t db → t ≤ now →
  coherent now (evaluate now key ctx db).1 ∧ (evaluate now key ctx db).2 = eval_flag key ctx (flag_json <$> row_find f_key key (featureFlag db)).
Proof.
  intros Hco Ht. pose proof (getFlag_spec t now key db Hco Ht) as Hg. unfold post in Hg. unfold evaluate, mbind, M_bind.
  destruct (getFlag now key db) as [db' [v|e]]; [|done]. destruct Hg as (Hco' & _ & _ & ->). by destruct (eval_flag _ _ _).
Qed.

Lemma exec_coherent c t db : coherent t db → t ≤ flag_time c → rules_ok c → coherent (flag_time c) (flag_exec c db).
Proof.
  intros Hco Ht Hr. destruct c as [now key ctx|now key d e r admin|now key d e r admin|now key admin]; simpl in *.
  - by apply (evaluate_spec t).
  - apply post_fst, (createFlag_coherent t); [done..|]. by destruct r.
  - apply post_fst, (updateFlag_coherent t); [done..|]. by intros r' ->.
  - by apply post_fst, (deleteFlag_coherent t).
Qed.

Lemma run_coherent cs t t' db : coherent t db → in_order t cs t' → Forall rules_ok cs → coherent t' (flag_run cs db).
Proof.
  unfold flag_run. revert t db. induction cs as [|c cs IH]; intros t db Hco; simpl; [intros Ht _; by eapply coherent_later|].
  intros [Ht Hcs] [Hr Hrs]%Forall_cons. apply (IH (flag_time c)); [by eapply exec_coherent|done..].
Qed.

(** C9: over a cache that keeps the laws of [SharedCache] (the memory of a server
    without Redis, or a Redis that stays connected and does not fail) the cache of
    flags cannot be told from the table: after any calls made one after the other with
    increasing times and JSON rules, and whatever the cache still holds, evaluating a
    flag gives the value of the row that is stored for its key, or false when there is
    none.  When Redis is away during an update, the deletion of the entry does not
    reach it and an old flag can be served ([deleted_value_returns]). *)
Theorem evaluate_uncached cs t t' now key ctx c0 : (∀ now key, sc_view now c0 key = None) →
  in_order t cs t' → t' ≤ now → Forall rules_ok cs →
  let db := flag_run cs (mkFlagDB [] [] c0 0) in
  (evaluate now key ctx db).2 = eval_flag key ctx (flag_json <$> row_find f_key key (featureFlag db)).
Proof.
  intros Hempty Hcs Hn Hr. cbv zeta. apply (evaluate_spec t'); [|done]. apply (run_coherent cs t t'); [|done..].
  split; simpl; [constructor|constructor|]. intros now' key' v _. by rewrite Hempty.
Qed.

(** ** Rollouts *)

Lemma score_range u key n : score u key = Some n → 0 ≤ n < 100.
Proof. unfold score. destruct (parseInt16 _) as [m|]; [|done]. intros [= <-]. apply Z.mod_pos_bound. lia. Qed.

Definition percentage_rule (v : Z) : json := JObj [("type", JStr "percentage"); ("value", JNum (pretty v))].

Lemma hex_char_value c : hex_char c → is_Some (hex_value c).
Proof. destruct c as [[] [] [] [] [] [] [] []]; vm_compute; intros Hc; try done; by eexists. Qed.

Lemma score_defined u key : (∀ s, all_chars hex_char (sha256_hex s) ∧ sha256_hex s ≠ "") → is_Some (score u key).
Proof.
  intros Hhex. unfold score, parseInt16. destruct (Hhex (u +:+ "-" +:+ key)) as [Hc Hn]. destruct (sha256_hex _) as [|c s]; [done|].
  simpl in Hc. apply andb_True in Hc as [Hc _]. cbn [str_take]. rewrite bool_decide_true by (by apply hex_char_value). by eexists.
Qed.

(** A percentage rollout is stable: every user has a place between 0 and 99
    that depends on the user and the flag only, and an enabled flag with that
    one rule is on for exactly the users whose place is below the percentage.
    So a user who is in stays in when the percentage grows, nobody is in at 0
    and everybody at 100.  SHA-256 in hexadecimal is taken to be a text of
    hexadecimal digits. *)
Theorem rollout_stable u key : (∀ s, all_chars hex_char (sha256_hex s) ∧ sha256_hex s ≠ "") → u ≠ "" →
  ∃ place, 0 ≤ place < 100 ∧ ∀ v f ctx, safe_int v → f_isEnabled f = true → f_rules f = JArr [percentage_rule v] → userId ctx = Some u →
    eval_flag key ctx (Some (flag_json f)) = Ok (bool_decide (place < v)).
Proof.
  intros Hhex Hu. destruct (score_defined u key Hhex) as [n Hn]. exists n. split; [by eapply score_range|].
  intros v f ctx Hv He Hr Hc. unfold eval_flag, flag_json. cbn [json_prop map_get]. rewrite !bool_decide_false, !bool_decide_true by done.
  simpl. rewrite He, Hr. simpl. rewrite Hc. simpl. rewrite bool_decide_false by done. rewrite Hn, (number_above_int _ _ v) by (by apply number_int_pretty).
  by case_bool_decide.
Qed.

(** ** Deletion *)

(** Deleting a flag also deletes its log, with the entry that records the
    deletion: nothing is left of who changed the flag. *)
Theorem delete_erases_log now key admin db db' : deleteFlag now key admin db = (db', Ok tt) →
  ∃ f, f ∈ featureFlag db ∧ f_key f = key ∧ ∀ l, l ∈ featureFlagAuditLog db' → fl_flagId l ≠ f_id f.
Proof.
  unfold deleteFlag, mbind, M_bind, gets. destruct (row_find f_key key (featureFlag db)) as [f|] eqn:Hrow; [|done].
  apply row_find_Some in Hrow as [Hin Hkey]. unfold flag_log, mbind, M_bind, get. case_bool_decide; [|done]. cbn.
  intros [= <-]. exists f. split_and!; [done..|]. intros l. cbn. rewrite list_elem_of_In, List.filter_In. intros [_ Hl].
  by case_bool_decide.
Qed.
End spec.

(** ** A run *)

Section witnesses.
#[local] Existing Instances sha_model number_model.
#[local] Instance less_model : JsLess.
Proof. refine {| number_above := λ s t, match number_int t with Some v => bool_decide (s < v) | None => false end |}. by intros s t v ->. Defined.

Definition ann : EvaluationContext := mkContext (Some "ann") None None None.
Definition flag_calls : list flag_call :=
  [Create 0 "new-ui" None (Some true) (Some (JArr [JObj [("type", JStr "user"); ("userIds", JArr [JStr "ann"])]])) "admin";
   Evaluate 10 "new-ui" ann; Update 20 "new-ui" None (Some false) None "admin"].

Lemma evaluate_uncached_witness :
  (evaluate 30 "new-ui" ann (flag_run flag_calls (mkFlagDB [] [] (∅ : InMemoryBackend) 0))).2 =
  eval_flag "new-ui" ann (flag_json <$> row_find f_key "new-ui" (featureFlag (flag_run flag_calls (mkFlagDB [] [] (∅ : InMemoryBackend) 0)))) ∧
  (evaluate 30 "new-ui" ann (flag_run flag_calls (mkFlagDB [] [] (∅ : InMemoryBackend) 0))).2 = Ok false.
Proof.
  split; [|by vm_compute].
  refine (evaluate_uncached flag_calls 0 20 30 "new-ui" ann (∅ : InMemoryBackend) _ _ _ _).
  - intros now key. simpl. unfold live. by rewrite lookup_empty.
  - simpl. lia.
  - lia.
  - repeat constructor.
Defined.

#[local] Instance hex_hash : Sha256 := λ s, to_hex s +:+ "0123456789abcdef".

Lemma to_hex_chars s : all_chars hex_char (to_hex s).
Proof.
  induction s as [|c s IH]; [done|]. cbn [to_hex all_chars].
  assert (hex_char (JsBuffer.hex_digit (code c / 16)) = true ∧ hex_char (JsBuffer.hex_digit (code c mod 16)) = true) as [-> ->]; [|done].
  clear. destruct c as [[] [] [] [] [] [] [] []]; vm_compute; split; reflexivity.
Qed.

Definition rollout_flag (v : Z) : FeatureFlag := mkFlag "id" "new-ui" None true (JArr [percentage_rule v]) 0 0.

Lemma rollout_stable_witness : ∃ place, 0 ≤ place < 100 ∧ eval_flag "new-ui" ann (Some (flag_json (rollout_flag 40))) = Ok (bool_decide (place < 40)).
Proof.
  destruct (rollout_stable (H0 := hex_hash) "ann" "new-ui") as (place & Hp & Hall).
  - intros s. change (sha256_hex s) with (to_hex s +:+ "0123456789abcdef"). split.
    + rewrite all_chars_app, andb_True. split; [apply to_hex_chars|by vm_compute].
    + by destruct (to_hex s).
  - done.
  - exists place. split; [exact Hp|]. exact (Hall 40 (rollout_flag 40) ann ltac:(by vm_compute) eq_refl eq_refl eq_refl).
Defined.
End witnesses.
