(* ===== verification/GameSession.v ===== *)
(** * Game sessions: [server/src/services/game-session.service.ts]

    A server keeps its sessions in a map and writes each of them to the shared
    cache (the class [SharedCache] of [Cache.v]), from which it takes the
    sessions it does not hold.  The lock of a session makes its operations run
    one after the other, so an operation is one step; a call reads the clock once.
    The values the players send are JSON. *)

From Stdlib Require Import Ascii.
From stdpp Require Import prelude gmap strings list pretty.
From S2P Require Import Prelude JsText Crypto Json JsonParse Cache.

Record GameSession := mkGame {
  g_id : string;
  players : list string;
  gameMode : string;
  settings : json;
  state : json;
  actions : list json;
  startedAt : Z;
  finishedAt : option Z;
}.

Definition STALE_TIMEOUT_MS : Z := 30 * 60 * 1000.
Definition SESSION_CACHE_TTL_SECONDS : Z := 3600.

(** [uuidv4()]: different at every call. *)
Class UuidV4 := { uuidv4 : nat → string; uuidv4_inj : Inj (=) (=) uuidv4 }.
#[export] Existing Instance uuidv4_inj.

(** ** Sessions as JSON *)

(** The object of a session; [finishedAt] is added when the game ends. *)
Definition session_fields (s : GameSession) : list (string * json) :=
  [("id", JStr (g_id s)); ("players", JArr (JStr <$> players s)); ("gameMode", JStr (gameMode s)); ("settings", settings s);
   ("state", state s); ("actions", JArr (actions s)); ("startedAt", JNum (pretty (startedAt s)))] ++
  match finishedAt s with Some t => [("finishedAt", JNum (pretty t))] | None => [] end.
Definition session_json (s : GameSession) : json := JObj (session_fields s).

Definition text_of (v : json) : option string := match v with JStr s => Some s | _ => None end.
Definition items_of (v : json) : option (list json) := match v with JArr l => Some l | _ => None end.

Section service.
Context `{JsNumber} `{UuidV4} {C : Type} `{!SharedCache C}.

Definition time_of (v : json) : option Z := match v with JNum t => number_int t | _ => None end.

(** A cached value read as a session: the cast of [cacheService.get<GameSession>]. *)
Definition session_of (v : json) : option GameSession :=
  i ← text_of (json_prop "id" v);
  ps ← items_of (json_prop "players" v) ≫= mapM text_of;
  mode ← text_of (json_prop "gameMode" v);
  acts ← items_of (json_prop "actions" v);
  started ← time_of (json_prop "startedAt" v);
  Some (mkGame i ps mode (json_prop "settings" v) (json_prop "state" v) acts started (time_of (json_prop "finishedAt" v))).

(** ** The state of a server *)

Record GameServer := mkServer {
  sessions : jsmap GameSession;
  sessionLocks : gset string;
  g_cache : C;
  g_serial : nat;
}.
Implicit Types (sv : GameServer).

Definition set_sessions m sv : GameServer := mkServer m (sessionLocks sv) (g_cache sv) (g_serial sv).
Definition set_locks l sv : GameServer := mkServer (sessions sv) l (g_cache sv) (g_serial sv).
Definition set_gcache c sv : GameServer := mkServer (sessions sv) (sessionLocks sv) c (g_serial sv).
Definition g_next sv : GameServer := mkServer (sessions sv) (sessionLocks sv) (g_cache sv) (S (g_serial sv)).

Definition getCacheKey (i : string) : string := "game:session:" +:+ i.
Definition getStateCacheKey (i : string) : string := "game:state:" +:+ i.

Definition store_session (s : GameSession) : M GameServer unit := modify (λ sv, set_sessions (map_set (g_id s) s (sessions sv)) sv).

Definition persistToCache (now : Z) (s : GameSession) : M GameServer unit :=
  modify (λ sv, set_gcache (sc_set now (getStateCacheKey (g_id s)) (state s) SESSION_CACHE_TTL_SECONDS
                  (sc_set now (getCacheKey (g_id s)) (session_json s) SESSION_CACHE_TTL_SECONDS (g_cache sv))) sv).

(** [withSessionLock(sessionId, fn)]: the lock is entered in the map. *)
Definition withSessionLock {A} (i : string) (fn : M GameServer A) : M GameServer A :=
  _ ← modify (λ sv, set_locks ({[i]} ∪ sessionLocks sv) sv); fn.

(** ** Operations *)

Definition createSession (now : Z) (ps : list string) (mode : string) (options : json) : M GameServer GameSession :=
  sv ← get;
  let s := mkGame (uuidv4 (g_serial sv)) ps mode options (JObj []) [] now None in
  _ ← put (g_next sv);
  _ ← store_session s;
  _ ← persistToCache now s;
  mret s.

Definition getSession (i : string) : M GameServer (option GameSession) := gets (λ sv, map_get i (sessions sv)).

(** A value in the cache that is no session cannot be told from one; it is left
    out here. *)
Definition getSessionAsync (now : Z) (i : string) : M GameServer (option GameSession) :=
  sv ← get;
  match map_get i (sessions sv) with
  | Some s => mret (Some s)
  | None =>
      let '(c, v) := sc_get now (getCacheKey i) (g_cache sv) in
      _ ← put (set_gcache c sv);
      match v ≫= session_of with
      | Some s => _ ← modify (λ sv, set_sessions (map_set i s (sessions sv)) sv); mret (Some s)
      | None => mret None
      end
  end.

Definition SessionNotFound : exn := JsError "Session not found".

(** The session of an operation, kept in the map and written to the cache. *)
Definition change_session (now : Z) (i : string) (f : GameSession → result GameSession) : M GameServer GameSession :=
  withSessionLock i
    (found ← getSessionAsync now i;
     match found with
     | None => throw SessionNotFound
     | Some s =>
         match f s with
         | Throw e => throw e
         | Ok s' =>
             _ ← modify (λ sv, set_sessions (map_set i s' (sessions sv)) sv);
             _ ← persistToCache now s';
             mret s'
         end
     end).

(** The own properties a spread copies: those of an object or an array. *)
Definition spread (v : json) : list (string * json) :=
  match v with JObj l => l | JArr l => imap (λ n x, (pretty n, x)) l | _ => [] end.
Definition merge (v w : json) : json := object_of (spread v ++ spread w).

Definition g_with_state (st : json) (s : GameSession) : GameSession :=
  mkGame (g_id s) (players s) (gameMode s) (settings s) st (actions s) (startedAt s) (finishedAt s).
Definition g_with_action (a : json) (s : GameSession) : GameSession :=
  mkGame (g_id s) (players s) (gameMode s) (settings s) (state s) (actions s ++ [a]) (startedAt s) (finishedAt s).
Definition g_finished (now : Z) (results : json) (s : GameSession) : GameSession :=
  mkGame (g_id s) (players s) (gameMode s) (settings s) results (actions s) (startedAt s) (Some now).

Definition updateGameState (now : Z) (i : string) (newState : json) : M GameServer GameSession :=
  change_session now i (λ s, Ok (g_with_state (merge (state s) newState) s)).

Definition action_json (playerId : string) (action : json) (now : Z) : json :=
  JObj [("playerId", JStr playerId); ("action", action); ("timestamp", JNum (pretty now))].

Definition NotAPlayer : exn := JsError "Player not part of this session".

Definition processPlayerAction (now : Z) (i playerId : string) (action : json) : M GameServer GameSession :=
  change_session now i (λ s,
    if bool_decide (playerId ∈ players s) then Ok (g_with_action (action_json playerId action now) s) else Throw NotAPlayer).

Definition finishGame (now : Z) (i : string) (results : json) : M GameServer GameSession :=
  change_session now i (λ s, Ok (g_finished now results s)).

Definition generateReplayData (now : Z) (i : string) : M GameServer (list json) :=
  withSessionLock i
    (found ← getSessionAsync now i;
     match found with None => throw SessionNotFound | Some s => mret (actions s) end).

Definition forget_cached (now : Z) (i : string) (c : C) : C := sc_delete now (getStateCacheKey i) (sc_delete now (getCacheKey i) c).

Definition removeSession (now : Z) (i : string) : M GameServer unit :=
  modify (λ sv, mkServer (map_delete i (sessions sv)) (sessionLocks sv ∖ {[i]}) (forget_cached now i (g_cache sv)) (g_serial sv)).

Definition getActiveSessionCount : M GameServer nat := gets (λ sv, length (sessions sv)).
Definition getActiveSessions : M GameServer (list GameSession) := gets (λ sv, List.map snd (sessions sv)).

(** The rejections of the calls are not observed. *)
Definition closeAllActiveSessions (now : Z) (reason : string) : M GameServer unit :=
  all ← getActiveSessions;
  for_each (λ s, try_catch (_ ← finishGame now (g_id s) (JObj [("error", JStr reason); ("closedGracefully", JBool true)]); mret tt)
                   (λ _, mret tt)) all.

Definition is_stale (now : Z) (s : GameSession) : bool :=
  match finishedAt s with Some t => negb (bool_decide (t = 0)) && bool_decide (STALE_TIMEOUT_MS < now - t) | None => false end.

(** The timer of [startCleanupInterval]. *)
Definition cleanup_sessions (now : Z) : M GameServer unit :=
  all ← gets (λ sv, sessions sv);
  for_each (λ kv, if is_stale now kv.2 then removeSession now kv.1 else mret tt) all.

Definition clearSessionStore : M GameServer unit := modify (λ sv, mkServer [] ∅ (g_cache sv) (g_serial sv)).
End service.

(** ** What the game sessions guarantee

    Behind the map of the server, the shared cache and restarts, a session
    behaves like one register: a call sees the session as the last call on it
    left it, or does not find it any more. *)

(** ** Sessions that JSON carries *)

Section json.
Context `{JsNumber}.

Definition time_ok (t : Z) : Prop := safe_int t.

Record session_ok (s : GameSession) : Prop := {
  so_settings : plain (settings s);
  so_state : plain (state s);
  so_actions : Forall (λ v, Is_true (plain v)) (actions s);
  so_started : safe_int (startedAt s);
  so_finished : ∀ t, finishedAt s = Some t → safe_int t;
}.

Lemma plain_int z : safe_int z → plain (JNum (pretty z)).
Proof. intros Hz. simpl. by apply number_ok_int. Qed.

Lemma forallb_plain l : Forall (λ v, Is_true (plain v)) l → forallb plain l = true.
Proof. intros Hl. apply Is_true_true. by apply forallb_Forall_s. Qed.

Lemma session_plain s : session_ok s → plain (session_json s).
Proof.
  intros [Hs Hst Ha Ht Hf]. unfold session_json. cbn [plain]. apply andb_True. split.
  - apply bool_decide_pack. unfold session_fields. destruct (finishedAt s); simpl; apply (bool_decide_unpack (NoDup _)); by vm_compute.
  - apply plain_int in Ht. simpl in Ht. apply Is_true_true in Hs, Hst, Ht. unfold session_fields. rewrite forallb_app. cbn [forallb snd plain].
    rewrite Hs, Hst, Ht, (forallb_plain _ Ha). assert (forallb plain (JStr <$> players s) = true) as -> by (induction (players s); done).
    destruct (finishedAt s) as [t|] eqn:E; [|done]. specialize (Hf t eq_refl). apply plain_int, Is_true_true in Hf. cbn [forallb snd]. by rewrite Hf.
Qed.

Lemma mapM_text_of ps : mapM text_of (JStr <$> ps) = Some ps.
Proof. induction ps as [|p ps IH]; [done|]. cbn. by rewrite IH. Qed.

(** Reading back what was written. *)
Lemma session_of_json s : session_ok s → session_of (session_json s) = Some s.
Proof.
  intros [_ _ _ Ht Hf].
  assert (json_prop "id" (session_json s) = JStr (g_id s) ∧ json_prop "players" (session_json s) = JArr (JStr <$> players s) ∧
    json_prop "gameMode" (session_json s) = JStr (gameMode s) ∧ json_prop "settings" (session_json s) = settings s ∧
    json_prop "state" (session_json s) = state s ∧ json_prop "actions" (session_json s) = JArr (actions s) ∧
    json_prop "startedAt" (session_json s) = JNum (pretty (startedAt s))) as (E1 & E2 & E3 & E4 & E5 & E6 & E7) by (by split_and!).
  unfold session_of. rewrite E1, E2, E3, E4, E5, E6, E7. cbn [text_of items_of mbind option_bind]. rewrite mapM_text_of.
  cbn [mbind option_bind time_of]. rewrite number_int_pretty by done. cbn [mbind option_bind]. clear - Hf.
  assert (time_of (json_prop "finishedAt" (session_json s)) = finishedAt s) as ->; [|by destruct s].
  unfold session_json, session_fields. destruct (finishedAt s) as [t|]; [|done]. apply (number_int_pretty t). by apply Hf.
Qed.
End json.

(** ** Values that operations build *)

Section plain.
Context `{JsNumber}.

Lemma map_set_fields k v (l : list (string * json)) : NoDup (fst <$> l) → Forall (λ kv, Is_true (plain kv.2)) l → plain v →
  NoDup (fst <$> map_set k v l) ∧ Forall (λ kv, Is_true (plain kv.2)) (map_set k v l).
Proof.
  intros Hn Hl Hv. split; [by apply (map_set_nodup k v l)|]. clear Hn. induction Hl as [|[k' v'] l Hx Hl IH]; simpl; [by repeat constructor|].
  case_bool_decide; constructor; done.
Qed.

Lemma object_plain l : Forall (λ kv, Is_true (plain kv.2)) l → plain (object_of l).
Proof.
  unfold object_of. intros Hl.
  assert (∀ acc, NoDup (fst <$> acc) → Forall (λ kv, Is_true (plain kv.2)) acc → plain (JObj (foldl (λ m kv, map_set kv.1 kv.2 m) acc l))) as Hgen.
  { induction Hl as [|[k v] l Hv Hl IH]; intros acc Hn Ha; simpl.
    - apply andb_True. split; [by apply bool_decide_pack|]. by apply forallb_Forall_s.
    - destruct (map_set_fields k v acc Hn Ha Hv). by apply IH. }
  apply Hgen; constructor.
Qed.

Lemma spread_plain v : plain v → Forall (λ kv, Is_true (plain kv.2)) (spread v).
Proof.
  destruct v as [| | | | |l|l]; simpl; intros Hv; try constructor.
  - rewrite forallb_Forall_s, Forall_forall in Hv. apply Forall_forall. intros kv Hkv.
    apply elem_of_lookup_imap in Hkv as (n & x & -> & Hx). simpl. apply Hv. by eapply list_elem_of_lookup_2.
  - apply andb_True in Hv as [_ Hv]. by rewrite forallb_Forall_s in Hv.
Qed.

Lemma merge_plain v w : plain v → plain w → plain (merge v w).
Proof. intros Hv Hw. apply object_plain, Forall_app. split; by apply spread_plain. Qed.

Lemma action_plain p a now : plain a → safe_int now → plain (action_json p a now).
Proof.
  intros Ha Hn. apply plain_int in Hn. unfold action_json. cbn [plain]. apply andb_True. split; [by vm_compute|].
  apply Is_true_true in Ha, Hn. cbn [forallb snd]. by rewrite Ha, Hn.
Qed.
End plain.

(** ** One register per session *)

Section registers.
Context `{JsNumber} `{UuidV4} {C : Type} `{!SharedCache C}.
Notation GameServer := (@GameServer C).
Implicit Types (sv : GameServer) (t now : Z).

(** ** The calls *)

Inductive game_call :=
| GCreate (now : Z) (ps : list string) (mode : string) (options : json)
| GUpdate (now : Z) (i : string) (newState : json)
| GAction (now : Z) (i playerId : string) (action : json)
| GFinish (now : Z) (i : string) (results : json)
| GReplay (now : Z) (i : string)
| GGet (now : Z) (i : string)
| GRemove (now : Z) (i : string)
| GCleanup (now : Z)
| GCloseAll (now : Z) (reason : string)
| GRestart (now : Z).

Inductive reply :=
| Session (r : result GameSession)
| Replay (r : result (list json))
| Found (s : option GameSession)
| Done.

Definition game_time (c : game_call) : Z :=
  match c with
  | GCreate t _ _ _ | GUpdate t _ _ | GAction t _ _ _ | GFinish t _ _ | GReplay t _ | GGet t _ | GRemove t _ | GCleanup t | GCloseAll t _
  | GRestart t => t
  end.

Definition game_exec (c : game_call) sv : GameServer * reply :=
  match c with
  | GCreate now ps mode options => let '(sv, r) := createSession now ps mode options sv in (sv, Session r)
  | GUpdate now i st => let '(sv, r) := updateGameState now i st sv in (sv, Session r)
  | GAction now i p a => let '(sv, r) := processPlayerAction now i p a sv in (sv, Session r)
  | GFinish now i r => let '(sv, r) := finishGame now i r sv in (sv, Session r)
  | GReplay now i => let '(sv, r) := generateReplayData now i sv in (sv, Replay r)
  | GGet now i => let '(sv, r) := getSessionAsync now i sv in (sv, Found (match r with Ok s => s | Throw _ => None end))
  | GRemove now i => ((removeSession now i sv).1, Done)
  | GCleanup now => ((cleanup_sessions now sv).1, Done)
  | GCloseAll now reason => ((closeAllActiveSessions now reason sv).1, Done)
  | GRestart now => ((clearSessionStore sv).1, Done)
  end.

Fixpoint game_run (cs : list game_call) sv : GameServer * list reply :=
  match cs with
  | [] => (sv, [])
  | c :: cs' => let '(sv, r) := game_exec c sv in let '(sv, rs) := game_run cs' sv in (sv, r :: rs)
  end.

Definition call_ok (c : game_call) : Prop :=
  safe_int (game_time c) ∧
  match c with GCreate _ _ _ v | GUpdate _ _ v | GAction _ _ _ v | GFinish _ _ v => plain v | _ => True end.

Fixpoint calls_in_order t (cs : list game_call) : Prop :=
  match cs with [] => True | c :: cs' => t ≤ game_time c ∧ calls_in_order (game_time c) cs' end.

(** ** The abstract machine

    One slot per session: the session, when it was last written, and whether the
    server has it at hand.  A session at hand is found; another one is found for an
    hour after it was written. *)

Record Slot := mkSlot { sl_session : GameSession; sl_written : Z; sl_held : bool }.
Record Registers := mkRegisters { slots : gmap string Slot; issued : gset string }.
Implicit Types (reg : Registers) (sl : Slot).

Definition fresh_enough now sl : bool := bool_decide (now ≤ sl_written sl + 3600000).
Definition look reg now (i : string) : option GameSession :=
  sl ← slots reg !! i; if sl_held sl || fresh_enough now sl then Some (sl_session sl) else None.

Definition on_slots (f : gmap string Slot → gmap string Slot) reg : Registers := mkRegisters (f (slots reg)) (issued reg).
Definition hold sl : Slot := mkSlot (sl_session sl) (sl_written sl) true.
Definition release sl : Slot := mkSlot (sl_session sl) (sl_written sl) false.
Definition touch now (i : string) : Registers → Registers :=
  on_slots (alter (λ sl, if fresh_enough now sl then hold sl else sl) i).
Definition write now (i : string) (s : GameSession) : Registers → Registers := on_slots (<[i := mkSlot s now true]>).
Definition issue (i : string) reg : Registers := mkRegisters (slots reg) ({[i]} ∪ issued reg).

(** What a call makes of the session it is on. *)
Definition effect (c : game_call) : option (string * (GameSession → result GameSession)) :=
  match c with
  | GUpdate now i st => Some (i, λ s, Ok (g_with_state (merge (state s) st) s))
  | GAction now i p a => Some (i, λ s, if bool_decide (p ∈ players s) then Ok (g_with_action (action_json p a now) s) else Throw NotAPlayer)
  | GFinish now i r => Some (i, λ s, Ok (g_finished now r s))
  | _ => None
  end.

Definition closing (reason : string) : json := JObj [("error", JStr reason); ("closedGracefully", JBool true)].
Definition close_slot now reason sl : Slot :=
  if sl_held sl then mkSlot (g_finished now (closing reason) (sl_session sl)) now true else sl.
Definition expendable now sl : bool := sl_held sl && is_stale now (sl_session sl).

(** The answer to a call and the registers after it; [new] is an id that was never
    given out. *)
Definition spec_exec (new : string) (c : game_call) reg : Registers * reply :=
  let now := game_time c in
  match effect c with
  | Some (i, f) =>
      match look reg now i with
      | None => (reg, Session (Throw SessionNotFound))
      | Some s => match f s with Ok s' => (write now i s' reg, Session (Ok s')) | Throw e => (touch now i reg, Session (Throw e)) end
      end
  | None =>
      match c with
      | GCreate now ps mode options =>
          let s := mkGame new ps mode options (JObj []) [] now None in (write now new s (issue new reg), Session (Ok s))
      | GReplay now i =>
          (touch now i reg, Replay (match look reg now i with Some s => Ok (actions s) | None => Throw SessionNotFound end))
      | GGet now i => (touch now i reg, Found (look reg now i))
      | GRemove now i => (on_slots (delete i) reg, Done)
      | GCleanup now => (on_slots (filter (λ kv, expendable now kv.2 = false)) reg, Done)
      | GCloseAll now reason => (on_slots (fmap (close_slot now reason)) reg, Done)
      | _ => (on_slots (fmap release) reg, Done)
      end
  end.

Inductive spec_run : Registers → list game_call → list reply → Registers → Prop :=
| spec_nil reg : spec_run reg [] [] reg
| spec_cons reg new c r reg' cs rs reg'' : new ∉ issued reg → spec_exec new c reg = (reg', r) → spec_run reg' cs rs reg'' →
    spec_run reg (c :: cs) (r :: rs) reg''.

(** ** The servers implement it *)

Record sim t reg sv : Prop := {
  sm_nodup : NoDup (map_keys (sessions sv));
  sm_map : ∀ i, map_get i (sessions sv) = sl ← slots reg !! i; if sl_held sl then Some (sl_session sl) else None;
  sm_cache : ∀ now i, t ≤ now → sc_view now (g_cache sv) (getCacheKey i) =
    sl ← slots reg !! i; if fresh_enough now sl then Some (session_json (sl_session sl)) else None;
  sm_slot : ∀ i sl, slots reg !! i = Some sl → g_id (sl_session sl) = i ∧ session_ok (sl_session sl) ∧ i ∈ issued reg;
  sm_issued : ∀ i, i ∈ issued reg → ∃ n, (n < g_serial sv)%nat ∧ i = uuidv4 n;
}.

Lemma sessionKey_inj i j : getCacheKey i = getCacheKey j → i = j.
Proof. unfold getCacheKey. intros E. by simplify_eq E. Qed.

Lemma cacheKeys_differ i j : getStateCacheKey i ≠ getCacheKey j.
Proof. unfold getCacheKey, getStateCacheKey. intros E. simplify_eq E. Qed.

Lemma sim_later t t' reg sv : sim t reg sv → t ≤ t' → sim t' reg sv.
Proof. intros [? ? Hc ? ?] Ht. split; [done..| |done|done]. intros now i Hn. apply Hc. lia. Qed.

Lemma sim_locks t reg l sv : sim t reg sv → sim t reg (set_locks l sv).
Proof. by intros []. Qed.

Lemma sim_fresh t reg sv : sim t reg sv → uuidv4 (g_serial sv) ∉ issued reg.
Proof. intros Hs Hi. destruct (sm_issued _ _ _ Hs _ Hi) as (n & Hn & E). apply (inj uuidv4) in E. lia. Qed.

(** Writing a session to the map and to the cache. *)
Lemma sim_write t now i s sv reg : sim t reg sv → t ≤ now → g_id s = i → session_ok s → i ∈ issued reg →
  sim now (write now i s reg)
    (set_gcache (sc_set now (getStateCacheKey i) (state s) SESSION_CACHE_TTL_SECONDS
       (sc_set now (getCacheKey i) (session_json s) SESSION_CACHE_TTL_SECONDS (g_cache sv)))
       (set_sessions (map_set i s (sessions sv)) sv)).
Proof.
  intros [Hn Hm Hc Hr Hi] Ht Hid Hok Hiss. split; simpl; [by apply map_set_nodup| | | |done].
  - intros j. rewrite map_get_set. case_bool_decide as E; [subst; by rewrite lookup_insert_eq|]. by rewrite lookup_insert_ne.
  - intros now' j Hn'. rewrite sc_set_ne by apply cacheKeys_differ. destruct (decide (i = j)) as [<-|Hij].
    + rewrite lookup_insert_eq. cbn [mbind option_bind sl_session]. unfold fresh_enough. cbn [sl_written].
      case_bool_decide; [apply sc_set_view; [done|by apply session_plain|done|unfold SESSION_CACHE_TTL_SECONDS; lia]|].
      apply sc_set_expires; [done|]. unfold SESSION_CACHE_TTL_SECONDS. lia.
    + rewrite sc_set_ne by (by intros ?%sessionKey_inj). rewrite lookup_insert_ne by done. apply Hc. lia.
  - intros j sl. rewrite lookup_insert_Some. intros [[<- <-]|[_ Hj]]; [done|by apply Hr].
Qed.

(** Taking a session into the map that the cache still has, or that the map has. *)
Lemma sim_hold now i sl sv reg : sim now reg sv → slots reg !! i = Some sl → fresh_enough now sl = true →
  sim now (touch now i reg) (set_sessions (map_set i (sl_session sl) (sessions sv)) sv).
Proof.
  intros [Hn Hm Hc Hr Hi] Hsl Hf. split; simpl; [by apply map_set_nodup| | | |done].
  - intros j. rewrite map_get_set. case_bool_decide as E; [subst; rewrite lookup_alter_eq, Hsl; simpl; by rewrite Hf|].
    by rewrite lookup_alter_ne.
  - intros now' j Hn'. rewrite Hc by done. destruct (decide (i = j)) as [<-|]; [|by rewrite lookup_alter_ne].
    rewrite lookup_alter_eq, Hsl. simpl. by rewrite Hf.
  - intros j sl'. destruct (decide (i = j)) as [<-|]; [|rewrite lookup_alter_ne by done; apply Hr].
    rewrite lookup_alter_eq, Hsl. simpl. rewrite Hf. intros [= <-]. exact (Hr i sl Hsl).
Qed.

Lemma touch_same now i reg : (∀ sl, slots reg !! i = Some sl → fresh_enough now sl = true → sl_held sl = true) → touch now i reg = reg.
Proof.
  intros Hs. destruct reg as [m iss]. unfold touch, on_slots. simpl in *. f_equal. apply map_eq. intros j.
  destruct (decide (i = j)) as [<-|]; [|by rewrite lookup_alter_ne]. rewrite lookup_alter_eq. destruct (m !! i) as [[s w h]|] eqn:E; [|done].
  specialize (Hs _ eq_refl). simpl. destruct (fresh_enough now _); [|done]. simpl in Hs. by rewrite Hs.
Qed.

Lemma getSessionAsync_sim t now i sv reg : sim t reg sv → t ≤ now → post (getSessionAsync now i) sv
  (λ sv' found, found = look reg now i ∧ sim now (touch now i reg) sv' ∧ g_serial sv' = g_serial sv) (λ _ _, False).
Proof.
  intros Hsim Ht. pose proof (sim_later t now reg sv Hsim Ht) as Hs. pose proof (sm_map _ _ _ Hs i) as Hm.
  unfold getSessionAsync. m_step. m_step. unfold look.
  destruct (map_get i (sessions sv)) as [s|] eqn:Eg.
  { m_step. destruct (slots reg !! i) as [[s' w []]|] eqn:E; try done. simpl in Hm. injection Hm as ->. split_and!; [done| |done].
    rewrite touch_same; [done|]. rewrite E. by intros ? [= <-]. }
  pose proof (sc_get_view now (getCacheKey i) (g_cache sv)) as Hv. pose proof (sc_get_keeps now (getCacheKey i) (g_cache sv)) as Hk.
  destruct (sc_get now (getCacheKey i) (g_cache sv)) as [c v]. simpl in Hv, Hk. m_step. m_step.
  assert (sim now reg (set_gcache c sv)) as Hs1.
  { destruct Hs as [? ? Hc ? ?]. split; simpl; [done..| |done|done]. intros now' j Hn. rewrite Hk by done. by apply Hc. }
  rewrite (sm_cache _ _ _ Hs now i ltac:(lia)) in Hv. subst v. destruct (slots reg !! i) as [[s w h]|] eqn:E; simpl in *.
  2:{ m_step. split_and!; [done| |done]. rewrite touch_same; [done|]. by rewrite E. }
  destruct h; [done|]. simpl. destruct (fresh_enough now (mkSlot s w false)) eqn:Ef; simpl.
  - destruct (sm_slot _ _ _ Hs i _ E) as (_ & Hok & _). simpl in Hok. rewrite session_of_json by done. m_step. m_step. m_step.
    split_and!; [done| |done]. exact (sim_hold now i _ _ reg Hs1 E Ef).
  - m_step. split_and!; [done| |done]. rewrite touch_same; [done|]. rewrite E, <- Ef. intros ? [= <-] Hf. by rewrite Ef in Hf.
Qed.

Lemma write_touch now i s reg : write now i s (touch now i reg) = write now i s reg.
Proof.
  unfold write, touch, on_slots. simpl. f_equal. apply map_eq. intros j.
  destruct (decide (i = j)) as [<-|]; [by rewrite !lookup_insert_eq|]. by rewrite !lookup_insert_ne, lookup_alter_ne.
Qed.

Lemma look_slot reg now i s : look reg now i = Some s → ∃ sl, slots reg !! i = Some sl ∧ s = sl_session sl.
Proof. unfold look. destruct (slots reg !! i) as [sl|]; [|done]. simpl. destruct (_ || _); [|done]. intros [= <-]. eauto. Qed.

(** An operation on one session. *)
Lemma change_session_sim t now i f sv reg : sim t reg sv → t ≤ now →
  (∀ s s', session_ok s → f s = Ok s' → g_id s' = g_id s ∧ session_ok s') →
  post (change_session now i f) sv
    (λ sv' s', ∃ s, look reg now i = Some s ∧ f s = Ok s' ∧ sim now (write now i s' reg) sv')
    (λ sv' e, match look reg now i with
              | None => e = SessionNotFound ∧ sim now reg sv'
              | Some s => f s = Throw e ∧ sim now (touch now i reg) sv'
              end).
Proof.
  intros Hsim Ht Hf. unfold change_session, withSessionLock. m_step. m_step. m_step.
  eapply post_mono; [apply (getSessionAsync_sim t); [by apply sim_locks|done]|intros sv1 found (-> & Hs1 & Hser)|done].
  destruct (look reg now i) as [s|] eqn:El.
  2:{ m_step. split; [done|]. rewrite touch_same in Hs1; [done|]. intros sl Hsl Hfr. unfold look in El. rewrite Hsl in El. simpl in El.
      rewrite Hfr in El. by rewrite orb_true_r in El. }
  destruct (look_slot _ _ _ _ El) as (sl & Hsl & ->). destruct (sm_slot _ _ _ Hsim i sl Hsl) as (Hid & Hok & Hiss).
  destruct (f (sl_session sl)) as [s'|e] eqn:E; [|by m_step]. destruct (Hf _ s' Hok E) as [Hid' Hok'].
  unfold persistToCache. repeat m_step. exists (sl_session sl). split_and!; [done..|]. rewrite <- write_touch.
  assert (g_id s' = i) as -> by congruence. apply (sim_write now now i s' sv1 (touch now i reg)); [done|lia|congruence|done|done].
Qed.

Lemma createSession_sim t now ps mode options sv reg : sim t reg sv → t ≤ now → plain options → safe_int now →
  let i := uuidv4 (g_serial sv) in let s := mkGame i ps mode options (JObj []) [] now None in
  post (createSession now ps mode options) sv (λ sv' s', s' = s ∧ sim now (write now i s (issue i reg)) sv') (λ _ _, False).
Proof.
  intros Hsim Ht Hp Hn i s. unfold createSession, store_session, persistToCache. m_step. m_step. cbv zeta. repeat m_step. simpl.
  fold i. fold s. split; [done|]. assert (sim now (issue i reg) (g_next sv)) as Hs1.
  { destruct (sim_later _ now _ _ Hsim Ht) as [Hnd Hmp Hc Hr Hi]. split; simpl; [done..| |].
    - intros j sl Hj. destruct (Hr j sl Hj) as (? & ? & ?). split_and!; [done..|]. set_solver.
    - intros j [->%elem_of_singleton|Hj]%elem_of_union; [exists (g_serial sv); split; [lia|done]|].
      destruct (Hi j Hj) as (n & ? & ?). exists n. split; [lia|done]. }
  apply (sim_write now now i s (g_next sv) (issue i reg)); [done|lia|done| |simpl; set_solver].
  split; simpl; [done|done|constructor|done|done].
Qed.

(** Forgetting a session, or all that is held in memory. *)
Lemma removeSession_sim t now i sv reg : sim t reg sv → t ≤ now → sim now (on_slots (delete i) reg) (removeSession now i sv).1.
Proof.
  intros [Hn Hm Hc Hr Hi] Ht. split; simpl; [by apply map_delete_nodup| | | |done].
  - intros j. rewrite map_get_delete. case_bool_decide; [subst; by rewrite lookup_delete_eq|]. by rewrite lookup_delete_ne.
  - intros now' j Hn'. unfold forget_cached. rewrite sc_delete_ne by apply cacheKeys_differ.
    destruct (decide (i = j)) as [<-|Hij]; [by rewrite sc_delete_view, lookup_delete_eq|].
    rewrite sc_delete_ne by (by intros ?%sessionKey_inj). rewrite lookup_delete_ne by done. apply Hc. lia.
  - intros j sl [_ Hj]%lookup_delete_Some. by apply Hr.
Qed.

Lemma clear_sim t now sv reg : sim t reg sv → t ≤ now → sim now (on_slots (fmap release) reg) (clearSessionStore sv).1.
Proof.
  intros [Hn Hm Hc Hr Hi] Ht. split; simpl; [constructor| | | |done].
  - intros j. rewrite lookup_fmap. by destruct (slots reg !! j).
  - intros now' j Hn'. rewrite lookup_fmap, Hc by lia. by destruct (slots reg !! j).
  - intros j sl. rewrite lookup_fmap. destruct (slots reg !! j) as [sl'|] eqn:E; [|done]. intros [= <-]. exact (Hr j sl' E).
Qed.

(** ** The timer and the end of all games *)

Definition drop_stale now reg (kv : string * GameSession) : Registers := if is_stale now kv.2 then on_slots (delete kv.1) reg else reg.

Lemma cleanup_loop now l sv reg : sim now reg sv →
  post (for_each (λ kv, if is_stale now kv.2 then removeSession now kv.1 else mret tt) l) sv
    (λ sv' _, sim now (foldl (drop_stale now) reg l) sv') (λ _ _, False).
Proof.
  revert sv reg. induction l as [|[i s] l IH]; intros sv reg Hs; [exact Hs|]. cbn [for_each foldl]. m_step. unfold drop_stale at 2. simpl.
  destruct (is_stale now s); [|m_step; by apply IH]. pose proof (removeSession_sim now now i sv reg Hs ltac:(lia)) as Hr.
  unfold removeSession in *. m_step. by apply IH.
Qed.

Lemma drop_stale_slots now l reg i : slots (foldl (drop_stale now) reg l) !! i =
  if existsb (λ kv, bool_decide (kv.1 = i) && is_stale now kv.2) l then None else slots reg !! i.
Proof.
  revert reg. induction l as [|[j s] l IH]; intros reg; simpl; [done|]. rewrite IH. unfold drop_stale. simpl.
  destruct (existsb _ l); [by rewrite orb_true_r|]. rewrite orb_false_r. destruct (is_stale now s); simpl; [|by rewrite andb_false_r].
  case_bool_decide; simpl; [subst; by rewrite lookup_delete_eq|by rewrite lookup_delete_ne].
Qed.

Lemma drop_stale_issued now l reg : issued (foldl (drop_stale now) reg l) = issued reg.
Proof. revert reg. induction l as [|[j s] l IH]; intros reg; simpl; [done|]. rewrite IH. unfold drop_stale. by destruct (is_stale _ _). Qed.

Lemma registers_eq reg reg' : issued reg = issued reg' → (∀ i, slots reg !! i = slots reg' !! i) → reg = reg'.
Proof. destruct reg, reg'. simpl. intros -> E. f_equal. by apply map_eq. Qed.

Lemma sim_entry t reg sv i s : sim t reg sv → (i, s) ∈ sessions sv ↔ ∃ sl, slots reg !! i = Some sl ∧ sl_held sl = true ∧ sl_session sl = s.
Proof.
  intros Hs. pose proof (sm_map _ _ _ Hs i) as Hm. split.
  - intros Hi%map_elem_get; [|by apply (sm_nodup _ _ _ Hs)]. rewrite Hi in Hm. destruct (slots reg !! i) as [[s' w []]|]; try done.
    injection Hm as ->. by eexists.
  - intros (sl & E & Hh & <-). rewrite E in Hm. simpl in Hm. rewrite Hh in Hm. by apply map_get_elem.
Qed.

Lemma cleanup_sim t now sv reg : sim t reg sv → t ≤ now →
  post (cleanup_sessions now) sv (λ sv' _, sim now (on_slots (filter (λ kv, expendable now kv.2 = false)) reg) sv') (λ _ _, False).
Proof.
  intros Hsim Ht. pose proof (sim_later _ _ _ _ Hsim Ht) as Hs. unfold cleanup_sessions. m_step. m_step.
  eapply post_mono; [by apply (cleanup_loop now (sessions sv) sv reg)| |done]. intros sv' u. simpl. refine (λ H1, _).
  assert (foldl (drop_stale now) reg (sessions sv) = on_slots (filter (λ kv, expendable now kv.2 = false)) reg) as <-; [|exact H1].
  apply registers_eq; [by rewrite drop_stale_issued|].
  intros i. rewrite drop_stale_slots. simpl. rewrite map_lookup_filter. destruct (slots reg !! i) as [sl|] eqn:E; simpl; [|by destruct (existsb _ _)].
  unfold expendable. destruct (existsb _ _) eqn:Hb.
  - apply existsb_exists in Hb as ([j s] & Hin%list_elem_of_In & [Hj%bool_decide_eq_true Hst]%andb_true_iff). simpl in *. subst j.
    apply (sim_entry _ _ _ _ _ Hs) in Hin as (sl' & E' & Hh & <-). rewrite E in E'. injection E' as <-. rewrite Hh, Hst. by case_guard.
  - case_guard as Hg; [done|]. apply not_false_is_true, andb_true_iff in Hg as [Hh Hst]. apply not_true_iff_false in Hb. destruct Hb.
    apply existsb_exists. exists (i, sl_session sl). split; [apply list_elem_of_In, (sim_entry _ _ _ _ _ Hs); eauto|].
    simpl. by rewrite bool_decide_true.
Qed.

Definition close_one now reason reg (s : GameSession) : Registers := write now (g_id s) (g_finished now (closing reason) s) reg.

Lemma finished_ok now reason s : safe_int now → session_ok s → session_ok (g_finished now (closing reason) s).
Proof. intros Hn [H1 H2 H3 H4 H5]. split; simpl; try done. by intros t [= <-]. Qed.

Lemma finish_held now reason s sl sv reg : sim now reg sv → safe_int now → slots reg !! g_id s = Some sl → sl_held sl = true → sl_session sl = s →
  post (try_catch (_ ← finishGame now (g_id s) (closing reason); mret tt) (λ _, mret tt)) sv
    (λ sv' _, sim now (close_one now reason reg s) sv') (λ _ _, False).
Proof.
  intros Hs Hn Hsl Hh Es. assert (look reg now (g_id s) = Some s) as Hl by (unfold look; rewrite Hsl; simpl; by rewrite Hh, Es).
  pose proof (change_session_sim now now (g_id s) (λ s, Ok (g_finished now (closing reason) s)) sv reg Hs ltac:(lia)) as Hc.
  unfold post, try_catch, finishGame, mbind, M_bind, mret, M_ret in *. destruct (change_session _ _ _ _) as [sv' [s'|e]].
  - destruct Hc as (s0 & Hl' & [= <-] & Hs'); [|rewrite Hl in Hl'; by injection Hl' as <-].
    intros s0 s1 Hok [= <-]. split; [done|]. by apply finished_ok.
  - rewrite Hl in Hc. destruct Hc as [Hc _]; [|done]. intros s0 s1 Hok [= <-]. split; [done|]. by apply finished_ok.
Qed.

Lemma close_loop now reason l sv reg : sim now reg sv → safe_int now → NoDup (g_id <$> l) →
  (∀ s, s ∈ l → ∃ sl, slots reg !! g_id s = Some sl ∧ sl_held sl = true ∧ sl_session sl = s) →
  post (for_each (λ s, try_catch (_ ← finishGame now (g_id s) (closing reason); mret tt) (λ _, mret tt)) l) sv
    (λ sv' _, sim now (foldl (close_one now reason) reg l) sv') (λ _ _, False).
Proof.
  revert sv reg. induction l as [|s l IH]; intros sv reg Hs Hn Hnd Hl; [exact Hs|]. cbn [for_each foldl]. m_step.
  destruct (Hl s ltac:(left)) as (sl & Hsl & Hh & Es). apply NoDup_cons in Hnd as [Hni Hnd].
  eapply post_mono; [by apply (finish_held now reason s sl sv reg)| |done]. intros sv1 u Hs1. apply IH; [done..|].
  intros s' Hs'. simpl. rewrite lookup_insert_ne; [apply Hl; by right|]. intros E. apply Hni. rewrite E. by apply list_elem_of_fmap_2.
Qed.

Lemma close_slots now reason l reg i : NoDup (g_id <$> l) → slots (foldl (close_one now reason) reg l) !! i =
  match list_find (λ s, g_id s = i) l with
  | Some (_, s) => Some (mkSlot (g_finished now (closing reason) s) now true)
  | None => slots reg !! i
  end.
Proof.
  revert reg. induction l as [|s l IH]; intros reg; simpl; [done|]. intros [Hni Hnd]%NoDup_cons. rewrite IH by done.
  case_decide as Hi.
  - destruct (list_find _ l) as [[k s']|] eqn:E.
    + apply list_find_Some in E as (Hk & Hs' & _). destruct Hni. rewrite Hi, <- Hs'. apply list_elem_of_fmap_2. by eapply list_elem_of_lookup_2.
    + simpl. by rewrite Hi, lookup_insert_eq.
  - destruct (list_find _ l) as [[k s']|]; simpl; [done|]. by rewrite lookup_insert_ne.
Qed.

Lemma close_issued now reason l reg : issued (foldl (close_one now reason) reg l) = issued reg.
Proof. revert reg. induction l as [|s l IH]; intros reg; simpl; [done|]. by rewrite IH. Qed.

Lemma active_ids t reg sv : sim t reg sv → g_id <$> (List.map snd (sessions sv)) = map_keys (sessions sv).
Proof.
  intros Hs. assert (∀ kv, kv ∈ sessions sv → g_id kv.2 = kv.1) as Hk.
  { intros [i s] (sl & E & _ & <-)%(sim_entry _ _ _ _ _ Hs). by apply (sm_slot _ _ _ Hs). }
  unfold map_keys. induction (sessions sv) as [|kv l IH]; [done|]. simpl. rewrite Hk by left. f_equal. apply IH. intros kv' Hkv. apply Hk. by right.
Qed.

Lemma active_elem t reg sv s : sim t reg sv → s ∈ List.map snd (sessions sv) ↔ ∃ sl, slots reg !! g_id s = Some sl ∧ sl_held sl = true ∧ sl_session sl = s.
Proof.
  intros Hs. split.
  - intros ([i s'] & <- & Hi%list_elem_of_In)%list_elem_of_In%in_map_iff. apply (sim_entry _ _ _ _ _ Hs) in Hi as (sl & E & Hh & Es). simpl.
    destruct (sm_slot _ _ _ Hs i sl E) as (Hid & _). exists sl. split; [by rewrite <- Es, Hid|done].
  - intros (sl & E & Hh & Es). apply list_elem_of_In, in_map_iff. exists (g_id s, s). split; [done|]. apply list_elem_of_In, (sim_entry _ _ _ _ _ Hs). eauto.
Qed.

Lemma closeAll_sim t now reason sv reg : sim t reg sv → t ≤ now → safe_int now →
  post (closeAllActiveSessions now reason) sv (λ sv' _, sim now (on_slots (fmap (close_slot now reason)) reg) sv') (λ _ _, False).
Proof.
  intros Hsim Ht Hn. pose proof (sim_later _ _ _ _ Hsim Ht) as Hs. unfold closeAllActiveSessions, getActiveSessions. m_step. m_step.
  assert (NoDup (g_id <$> List.map snd (sessions sv))) as Hnd by (rewrite (active_ids _ _ _ Hs); apply (sm_nodup _ _ _ Hs)).
  eapply post_mono; [apply (close_loop now reason (List.map snd (sessions sv)) sv reg); [done..|]| |done].
  { intros s Hs'. apply (active_elem _ _ _ _ Hs) in Hs'. done. }
  intros sv' u. simpl. intros H1.
  assert (foldl (close_one now reason) reg (List.map snd (sessions sv)) = on_slots (fmap (close_slot now reason)) reg) as <-; [|exact H1].
  apply registers_eq; [by rewrite close_issued|]. intros i. rewrite close_slots by done. simpl. rewrite lookup_fmap.
  destruct (list_find _ _) as [[k s]|] eqn:El.
  - apply list_find_Some in El as (Hk & <- & _). apply list_elem_of_lookup_2, (active_elem _ _ _ _ Hs) in Hk as (sl & -> & Hh & <-).
    simpl. unfold close_slot. by rewrite Hh.
  - apply list_find_None in El. destruct (slots reg !! i) as [sl|] eqn:E; [|done]. simpl. f_equal. unfold close_slot. destruct (sl_held sl) eqn:Eh; [|done].
    rewrite Forall_forall in El. destruct (sm_slot _ _ _ Hs i sl E) as (Hid & _). destruct (El (sl_session sl)); [|done].
    apply (active_elem _ _ _ _ Hs). rewrite Hid. eauto.
Qed.

Lemma effect_ok c i f s s' : call_ok c → effect c = Some (i, f) → session_ok s → f s = Ok s' → g_id s' = g_id s ∧ session_ok s'.
Proof.
  intros [Ht Hv] He [Hset Hst Ha Hs Hf]. destruct c; simpl in *; try done; injection He as <- <-.
  - intros [= <-]. split; [done|]. split; simpl; try done. by apply merge_plain.
  - case_bool_decide; [|done]. intros [= <-]. split; [done|]. split; simpl; try done. apply Forall_app. split; [done|].
    constructor; [|constructor]. by apply action_plain.
  - intros [= <-]. split; [done|]. split; simpl; try done. by intros t [= <-].
Qed.

Lemma change_step t new c i f sv reg : sim t reg sv → t ≤ game_time c → call_ok c → effect c = Some (i, f) →
  let '(sv', r) := change_session (game_time c) i f sv in ∃ reg', spec_exec new c reg = (reg', Session r) ∧ sim (game_time c) reg' sv'.
Proof.
  intros Hsim Ht Hok He. pose proof (change_session_sim t (game_time c) i f sv reg Hsim Ht (λ s s', effect_ok c i f s s' Hok He)) as Hp.
  unfold post in Hp. unfold spec_exec. rewrite He. destruct (change_session _ _ _ _) as [sv' [s'|e]].
  - destruct Hp as (s & -> & -> & Hsim'). by eexists.
  - destruct (look reg (game_time c) i) as [s|]; [destruct Hp as (-> & Hsim')|destruct Hp as (-> & Hsim')]; by eexists.
Qed.

Lemma game_exec_sim c t sv reg : sim t reg sv → t ≤ game_time c → call_ok c →
  let '(sv', r) := game_exec c sv in ∃ reg', spec_exec (uuidv4 (g_serial sv)) c reg = (reg', r) ∧ sim (game_time c) reg' sv'.
Proof.
  intros Hsim Ht Hok. destruct c as [now ps mode options|now i st|now i p a|now i r|now i|now i|now i|now|now reason|now]; cbn [game_exec].
  - destruct Hok as [Hn Hp]. pose proof (createSession_sim t now ps mode options sv reg Hsim Ht Hp Hn) as Hc. cbv zeta in Hc. unfold post in Hc.
    destruct (createSession _ _ _ _ _) as [sv' [s|e]]; [|done]. destruct Hc as (-> & Hsim'). by eexists.
  - pose proof (change_step t (uuidv4 (g_serial sv)) _ _ _ sv reg Hsim Ht Hok eq_refl) as Hc. unfold updateGameState. by destruct (change_session _ _ _ _).
  - pose proof (change_step t (uuidv4 (g_serial sv)) _ _ _ sv reg Hsim Ht Hok eq_refl) as Hc. unfold processPlayerAction. by destruct (change_session _ _ _ _).
  - pose proof (change_step t (uuidv4 (g_serial sv)) _ _ _ sv reg Hsim Ht Hok eq_refl) as Hc. unfold finishGame. by destruct (change_session _ _ _ _).
  - pose proof (getSessionAsync_sim t now i (set_locks ({[i]} ∪ sessionLocks sv) sv) reg ltac:(by apply sim_locks) Ht) as Hg. unfold post in Hg.
    unfold generateReplayData, withSessionLock, modify, mbind, M_bind. destruct (getSessionAsync _ _ _) as [sv' [o|e]]; [|done].
    destruct Hg as (-> & Hsim' & _). cbn [spec_exec effect game_time]. destruct (look reg now i); by eexists.
  - pose proof (getSessionAsync_sim t now i sv reg Hsim Ht) as Hg. unfold post in Hg. destruct (getSessionAsync _ _ _) as [sv' [o|e]]; [|done].
    destruct Hg as (-> & Hsim' & _). by eexists.
  - eexists. split; [reflexivity|]. by apply (removeSession_sim t).
  - eexists. split; [reflexivity|]. pose proof (cleanup_sim t now sv reg Hsim Ht) as Hc. unfold post in Hc.
    by destruct (cleanup_sessions now sv) as [sv' [u|e]].
  - eexists. split; [reflexivity|]. pose proof (closeAll_sim t now reason sv reg Hsim Ht (proj1 Hok)) as Hc. unfold post in Hc.
    by destruct (closeAllActiveSessions now reason sv) as [sv' [u|e]].
  - eexists. split; [reflexivity|]. by apply (clear_sim t).
Qed.

Lemma game_run_sim cs t sv reg : sim t reg sv → calls_in_order t cs → Forall call_ok cs → ∃ reg', spec_run reg cs (game_run cs sv).2 reg'.
Proof.
  revert t sv reg. induction cs as [|c cs IH]; intros t sv reg Hsim; simpl; [intros _ _; exists reg; constructor|].
  intros [Ht Hcs] [Hok Hall]%Forall_cons. pose proof (game_exec_sim c t sv reg Hsim Ht Hok) as He.
  destruct (game_exec c sv) as [sv1 r]. destruct He as (reg1 & Hstep & Hsim1). destruct (IH _ _ _ Hsim1 Hcs Hall) as (reg2 & Hrun).
  destruct (game_run cs sv1) as [sv2 rs]. exists reg2. econstructor; [by apply (sim_fresh t)|done|done].
Qed.

End registers.

(** ** Runs *)

Section runs.
#[local] Existing Instance number_model.
#[local] Instance uuid_model : UuidV4.
Proof. refine {| uuidv4 := λ n, "s" +:+ pretty n |}. Defined.

Notation server := (@GameServer InMemoryBackend).
Definition fresh_server : server := mkServer [] ∅ ∅ 0.

(** Another server of the cluster: an empty map and the same cache. *)
Definition peer (sv sv' : server) : server := mkServer (sessions sv) (sessionLocks sv) (g_cache sv') (g_serial sv').

Definition move : json := JObj [("x", JNum "1")].

(** An action is accepted after the game was finished. *)
Lemma finished_game_accepts_actions :
  ∃ rs s, (game_run [GCreate 0 ["ann"; "bob"] "duel" (JObj []); GFinish 10 "s0" (JStr "draw"); GAction 20 "s0" "ann" move] fresh_server).2 =
    rs ++ [Session (Ok s)] ∧ finishedAt s = Some 10 ∧ actions s = [action_json "ann" move 20].
Proof. eexists [_; _], _. split; [vm_compute; reflexivity|]. split; reflexivity. Qed.

(** Two servers that hold the same session overwrite each other's actions. *)
Definition server_a : server := (game_run [GCreate 0 ["ann"; "bob"] "duel" (JObj [])] fresh_server).1.
Definition server_b : server := (game_run [GAction 10 "s0" "bob" move] (peer fresh_server server_a)).1.
Definition server_a' : server := (game_run [GAction 20 "s0" "ann" move] (peer server_a server_b)).1.

Lemma peers_lose_actions : ∃ s, (game_run [GGet 5 "s0"; GAction 10 "s0" "bob" move] (peer fresh_server server_a)).2 !! 1%nat = Some (Session (Ok s)) ∧
  actions s = [action_json "bob" move 10] ∧
  ∃ s', (game_run [GRestart 30; GGet 30 "s0"] server_a').2 !! 1%nat = Some (Found (Some s')) ∧ actions s' = [action_json "ann" move 20].
Proof.
  eexists. split; [vm_compute; reflexivity|]. split; [reflexivity|]. eexists. split; [vm_compute; reflexivity|reflexivity].
Qed.

Definition duel : list game_call := [GCreate 0 ["ann"; "bob"] "duel" (JObj []); GAction 10 "s0" "bob" move; GRestart 20; GReplay 30 "s0"; GRemove 40 "s0"; GGet 50 "s0"].

Lemma no_entries now key : sc_view now (∅ : InMemoryBackend) key = None.
Proof. simpl. unfold live. by rewrite lookup_empty. Qed.

Ltac calls_fine := repeat first [apply Forall_cons; split|apply Forall_nil_2|split]; by vm_compute.


End runs.
