(* ===== verification/Encryption.v ===== *)
(** * Encryption of wallet secrets: [server/src/services/encryption.service.ts]

    The service keeps master keys by version and encrypts with the active one;
    an encrypted secret is a JSON text that names its key version.  Secrets from
    before the versions are three base64 texts joined by colons.  scrypt and
    AES-256-GCM are parameters; JSON, base64 and the masking of secrets in error
    messages are written out.  Key versions are integers below 2^53. *)

From Stdlib Require Import Ascii.
From stdpp Require Import prelude gmap strings list pretty.
From S2P Require Import Prelude JsText JsBuffer Crypto Json JsonParse.

Definition ALGORITHM : string := "aes-256-gcm".
Definition GCM_IV_BYTES : nat := 12.
Definition KEY_LENGTH : nat := 32.

(** Key derivation and authenticated encryption of Node's [crypto]: what was
    sealed under a key of 32 bytes opens under the same key and vector. *)
Class NodeCipher := {
  scryptSync : string → string → nat → string;
  gcm_seal : string → string → string → string * string;
  gcm_open : string → string → string → string → result string;
  scryptSync_length : ∀ secret salt n, String.length (scryptSync secret salt n) = n;
  gcm_open_seal : ∀ key iv text, String.length key = KEY_LENGTH →
    gcm_open key iv (gcm_seal key iv text).2 (gcm_seal key iv text).1 = Ok text;
}.

(** ** Data *)

Record EncryptedPayload := mkPayload {
  keyVersion : string;
  iv : string;
  authTag : string;
  ciphertext : string;
}.

Record DecryptionResult := mkDecryption {
  plainText : string;
  d_keyVersion : Z;
  usedLegacyFormat : bool;
}.

Record EncryptionService := mkService {
  masterKeys : gmap Z string;
  activeKeyVersion : Z;
  legacySecret : option string;
}.

Record WalletKeyEnv := mkKeyEnv {
  WALLET_MASTER_KEYS : option string;
  ENCRYPTION_SECRET : option string;
  WALLET_ACTIVE_MASTER_KEY_VERSION : option string;
}.

(** [typeof v === 'string'] and ['number'] *)
Definition as_string (v : option json) : option string := match v with Some (JStr s) => Some s | _ => None end.
Definition as_number (v : option json) : option string := match v with Some (JNum t) => Some t | _ => None end.

(** The payload a parsed value is, when it is one. *)
Definition isEncryptedPayload (value : json) : option EncryptedPayload :=
  match value with
  | JObj payload =>
      format ← as_string (map_get "format" payload);
      algorithm ← as_string (map_get "algorithm" payload);
      keyVersion ← as_number (map_get "keyVersion" payload);
      iv ← as_string (map_get "iv" payload);
      authTag ← as_string (map_get "authTag" payload);
      ciphertext ← as_string (map_get "ciphertext" payload);
      if bool_decide (format = "arenax-wallet-v1") && bool_decide (algorithm = ALGORITHM)
      then Some (mkPayload keyVersion iv authTag ciphertext) else None
  | _ => None
  end.

(** ** Masking *)

Definition base32_char (c : ascii) : bool :=
  bool_decide (65 ≤ nat_of_ascii c ≤ 90)%nat || bool_decide (50 ≤ nat_of_ascii c ≤ 55)%nat.

(** What follows [n] characters of the base32 alphabet. *)
Fixpoint base32_run (n : nat) (s : string) : option string :=
  match n, s with
  | O, _ => Some s
  | S n', String c s' => if base32_char c then base32_run n' s' else None
  | _, _ => None
  end.

(** [/S[A-Z2-7]{55}/] at the start of a text *)
Definition secret_here (s : string) : option string :=
  match s with String c s' => if bool_decide (c = "S"%char) then base32_run 55 s' else None | EmptyString => None end.

Fixpoint mask_from (fuel : nat) (s : string) : string :=
  match fuel, s with
  | S fuel', String c s' =>
      match secret_here s with
      | Some r => "[REDACTED_STELLAR_SECRET]" +:+ mask_from fuel' r
      | None => String c (mask_from fuel' s')
      end
  | _, _ => s
  end.
Definition mask (message : string) : string := mask_from (String.length message) message.

(** [error.message]; for an error of the database client its code stands for
    the text. *)
Definition error_message (e : exn) : string :=
  match e with JsError m => m | HttpError _ m => m | PrismaError c => c | UniqueConstraint _ => "P2002" end.

Definition maskError (e : exn) : string := mask (error_message e).

(** ** The service *)

Section service.
Context `{NodeCipher} `{NodeRandom} `{JsNumber}.
Implicit Types (this : EncryptionService).

Definition deriveKey (secret : string) (version : Z) : string :=
  scryptSync secret ("arenax-wallet-master-key:v" +:+ pretty version) KEY_LENGTH.

Definition TypeError : exn := JsError "TypeError".

(** [{ version, secret }] of the configured array.  The cast of the parsed value
    promises a number and a string; an entry without them is refused here. *)
Definition configured_entry (entry : json) : result (Z * string) :=
  match entry with
  | JObj fields =>
      match as_number (map_get "version" fields) ≫= number_int, as_string (map_get "secret" fields) with
      | Some version, Some secret => Ok (version, deriveKey secret version)
      | _, _ => Throw TypeError
      end
  | _ => Throw TypeError
  end.

Fixpoint map_result {A B} (f : A → result B) (l : list A) : result (list B) :=
  match l with
  | [] => Ok []
  | x :: l' => y ← f x; ys ← map_result f l'; mret (y :: ys)
  end.

Definition loadConfiguredKeys (env : WalletKeyEnv) : result (list (Z * string)) :=
  match truthy_str (WALLET_MASTER_KEYS env) with
  | Some configuredFromJson =>
      match JSON_parse configuredFromJson with
      | Some (JArr parsed) => map_result configured_entry parsed
      | Some _ => Throw TypeError
      | None => Throw (JsError "SyntaxError")
      end
  | None =>
      match truthy_str (ENCRYPTION_SECRET env) with
      | Some secret => Ok [(1, deriveKey secret 1)]
      | None => Ok []
      end
  end.

Definition max_version (versions : list Z) : Z :=
  match versions with v :: vs => foldl Z.max v vs | [] => 0 end.

(** [new EncryptionService()] *)
Definition constructor (env : WalletKeyEnv) : result EncryptionService :=
  configuredKeys ← loadConfiguredKeys env;
  let keys := foldl (λ m kv, <[kv.1 := kv.2]> m) (∅ : gmap Z string) configuredKeys in
  if bool_decide (configuredKeys = []) then
    Throw (JsError "Wallet encryption master keys are not configured. Set WALLET_MASTER_KEYS or ENCRYPTION_SECRET.")
  else
    let activeVersion :=
      match truthy_str (WALLET_ACTIVE_MASTER_KEY_VERSION env) with
      | Some text => number_int text
      | None => Some (max_version configuredKeys.*1)
      end in
    match activeVersion with
    | Some v =>
        if bool_decide (is_Some (keys !! v)) then Ok (mkService keys v (ENCRYPTION_SECRET env))
        else Throw (JsError "WALLET_ACTIVE_MASTER_KEY_VERSION must reference a configured wallet master key version.")
    | None => Throw (JsError "WALLET_ACTIVE_MASTER_KEY_VERSION must reference a configured wallet master key version.")
    end.

(** The version may come from a stored payload, where it is any number. *)
Definition getKeyByVersion this (version : string) : result string :=
  match number_int version ≫= λ v, masterKeys this !! v with
  | Some key => Ok key
  | None => Throw (JsError ("Wallet master key version " +:+ version +:+ " is not configured."))
  end.

Definition payload_json (p : EncryptedPayload) : json :=
  JObj [("format", JStr "arenax-wallet-v1"); ("algorithm", JStr ALGORITHM); ("keyVersion", JNum (keyVersion p));
        ("iv", JStr (iv p)); ("authTag", JStr (authTag p)); ("ciphertext", JStr (ciphertext p))].

(** The vector is the [n]-th random reading. *)
Definition encrypt this (n : nat) (text : string) (version : Z) : result string :=
  key ← getKeyByVersion this (pretty version);
  let iv := randomBytes GCM_IV_BYTES n in
  let '(ciphertext, tag) := gcm_seal key iv text in
  mret (json_text (payload_json (mkPayload (pretty version) (to_base64 iv) (to_base64 tag) (to_base64 ciphertext)))).

Definition tryParsePayload (encryptedData : string) : option EncryptedPayload :=
  JSON_parse encryptedData ≫= isEncryptedPayload.

Definition decryptPayload this (payload : EncryptedPayload) : result string :=
  key ← getKeyByVersion this (keyVersion payload);
  gcm_open key (from_base64 (iv payload)) (from_base64 (authTag payload)) (from_base64 (ciphertext payload)).

Definition decryptLegacyPayload this (encryptedData : string) : result string :=
  match truthy_str (legacySecret this) with
  | None => Throw (JsError "Legacy encrypted wallet secret encountered but ENCRYPTION_SECRET is unavailable.")
  | Some secret =>
      let parts := split ":"%char encryptedData in
      match truthy_str (parts !! 0%nat), truthy_str (parts !! 1%nat), truthy_str (parts !! 2%nat) with
      | Some ivBase64, Some authTagBase64, Some ciphertextBase64 =>
          gcm_open (deriveKey secret 1) (from_base64 ivBase64) (from_base64 authTagBase64) (from_base64 ciphertextBase64)
      | _, _, _ => Throw (JsError "Invalid encrypted wallet payload format.")
      end
  end.

Definition catch_masked {A} (r : result A) : result A :=
  match r with Ok a => Ok a | Throw e => Throw (JsError (maskError e)) end.

(** A payload that was decrypted named a configured, hence integral, version. *)
Definition decryptWithMetadata this (encryptedData : string) : result DecryptionResult :=
  catch_masked
    match tryParsePayload encryptedData with
    | Some payload =>
        text ← decryptPayload this payload;
        mret (mkDecryption text (default 0 (number_int (keyVersion payload))) false)
    | None =>
        text ← decryptLegacyPayload this encryptedData;
        mret (mkDecryption text 1 true)
    end.

Definition decrypt this (encryptedData : string) : result string :=
  d ← decryptWithMetadata this encryptedData; mret (plainText d).

Definition needsRotation this (encryptedData : string) : bool :=
  match tryParsePayload encryptedData with
  | None => true
  | Some payload => negb (bool_decide (number_int (keyVersion payload) = Some (activeKeyVersion this)))
  end.

Record Rotation := mkRotation { encrypted : string; previousVersion : Z; r_keyVersion : Z }.

Definition rotate this (n : nat) (encryptedData : string) : result Rotation :=
  decrypted ← decryptWithMetadata this encryptedData;
  text ← encrypt this n (plainText decrypted) (activeKeyVersion this);
  mret (mkRotation text (d_keyVersion decrypted) (activeKeyVersion this)).

Definition getActiveKeyVersion this : Z := activeKeyVersion this.
End service.

(** ** What the encryption service guarantees

    Decrypting undoes encrypting, with the version the text names; rotating
    keeps the secret and moves it to the active key; texts in the old format
    stay readable; no error message reveals a Stellar secret. *)

Section spec.
Context `{NodeCipher} `{NodeRandom} `{JsNumber}.
Implicit Types (this : EncryptionService).

(** What the constructor establishes: keys of 32 bytes, among them the active
    one. *)
Record service_wf this : Prop := {
  keys_length : ∀ v key, masterKeys this !! v = Some key → String.length key = KEY_LENGTH;
  active_key : is_Some (masterKeys this !! activeKeyVersion this);
}.

Lemma map_result_elem {A B} (f : A → result B) l ys y :
  map_result f l = Ok ys → y ∈ ys → ∃ x, x ∈ l ∧ f x = Ok y.
Proof.
  revert ys. induction l as [|x l IH]; intros ys; simpl; [intros [= <-]; by intros ?%not_elem_of_nil|].
  destruct (f x) as [z|] eqn:Hx; [|done]. cbn. destruct (map_result f l) as [zs|]; [|done]. cbn.
  intros [= <-] [->|Hy]%elem_of_cons; [exists x; split; [left|done]|].
  destruct (IH zs eq_refl Hy) as (x' & ? & ?). exists x'. split; [by right|done].
Qed.

Lemma loadConfiguredKeys_length env keys v key :
  loadConfiguredKeys env = Ok keys → (v, key) ∈ keys → String.length key = KEY_LENGTH.
Proof.
  unfold loadConfiguredKeys. destruct (truthy_str (WALLET_MASTER_KEYS env)) as [text|].
  - destruct (JSON_parse text) as [[| | | | |l|]|]; try done. intros Hl Hin.
    destruct (map_result_elem _ _ _ _ Hl Hin) as (entry & _ & He). unfold configured_entry in He.
    repeat case_match; simplify_eq. apply scryptSync_length.
  - destruct (truthy_str _); intros [= <-]; [|by intros ?%not_elem_of_nil].
    intros [= _ ->]%list_elem_of_singleton. apply scryptSync_length.
Qed.

Lemma foldl_insert_lookup (l : list (Z * string)) (m : gmap Z string) v key :
  foldl (λ m kv, <[kv.1 := kv.2]> m) m l !! v = Some key → (v, key) ∈ l ∨ m !! v = Some key.
Proof.
  revert m. induction l as [|[w k] l IH]; intros m; simpl; [by right|]. intros [Hin|Hm]%IH; [left; by right|].
  rewrite lookup_insert_Some in Hm. destruct Hm as [[-> ->]|[_ Hm]]; [left; left|by right].
Qed.

Lemma constructor_wf env this : constructor env = Ok this → service_wf this.
Proof.
  unfold constructor. destruct (loadConfiguredKeys env) as [keys|] eqn:Hl; [|done]. cbn [mbind result_bind].
  case_bool_decide; [done|]. destruct (match truthy_str _ with Some _ => _ | None => _ end) as [v|]; [|done].
  case_bool_decide as Hv; [|done]. intros [= <-]. split; [|done]. simpl. intros w key Hk.
  apply foldl_insert_lookup in Hk as [Hin|Hm]; [by eapply loadConfiguredKeys_length|]. by rewrite lookup_empty in Hm.
Qed.

(** ** The stored text *)

Lemma tryParse_payload p : number_ok (keyVersion p) → tryParsePayload (json_text (payload_json p)) = Some p.
Proof.
  intros Hn. unfold tryParsePayload. rewrite JSON_parse_text; [by destruct p|].
  cbn [plain payload_json forallb snd]. rewrite !andb_True. by split_and!.
Qed.

Lemma getKey_pretty this v key : safe_int v → masterKeys this !! v = Some key → getKeyByVersion this (pretty v) = Ok key.
Proof. intros Hv Hk. unfold getKeyByVersion. rewrite number_int_pretty by done. cbn. by rewrite Hk. Qed.

Lemma encrypt_ok this n text v key : safe_int v → masterKeys this !! v = Some key → String.length key = KEY_LENGTH →
  ∃ data p, encrypt this n text v = Ok data ∧ tryParsePayload data = Some p ∧ keyVersion p = pretty v ∧
    decryptPayload this p = Ok text.
Proof.
  intros Hv Hk Hlen. unfold encrypt. rewrite (getKey_pretty this v key) by done. cbn [mbind result_bind].
  pose proof (gcm_open_seal key (randomBytes GCM_IV_BYTES n) text Hlen) as Hopen.
  destruct (gcm_seal key _ text) as [ct tag]. simpl in Hopen. eexists _, _. split; [reflexivity|].
  rewrite tryParse_payload by (by apply number_ok_int). split_and!; [done..|].
  unfold decryptPayload. simpl. rewrite (getKey_pretty this v key) by done. cbn. by rewrite !from_to_base64.
Qed.

(** What a service encrypts under one of its keys it decrypts to the same
    text, reporting the version it was encrypted with. *)
Theorem decrypt_encrypt this n text v data : service_wf this → safe_int v →
  encrypt this n text v = Ok data → decryptWithMetadata this data = Ok (mkDecryption text v false).
Proof.
  intros Hwf Hv He. destruct (masterKeys this !! v) as [key|] eqn:Hk.
  - destruct (encrypt_ok this n text v key Hv Hk (keys_length _ Hwf _ _ Hk)) as (data' & p & He' & Hp & Hkv & Hd).
    assert (data = data') as -> by congruence. unfold decryptWithMetadata. rewrite Hp, Hd. cbn.
    by rewrite Hkv, number_int_pretty.
  - unfold encrypt, getKeyByVersion in He. rewrite number_int_pretty in He by done. cbn in He. by rewrite Hk in He.
Qed.

(** Rotating a text the service can decrypt always succeeds; the new text
    decrypts to the same secret under the active key and needs no rotation,
    and the version the old text was read with is reported. *)
Theorem rotation_keeps_secret env this n data d : constructor env = Ok this → safe_int (activeKeyVersion this) →
  decryptWithMetadata this data = Ok d →
  ∃ data', rotate this n data = Ok (mkRotation data' (d_keyVersion d) (activeKeyVersion this)) ∧
    decryptWithMetadata this data' = Ok (mkDecryption (plainText d) (activeKeyVersion this) false) ∧
    needsRotation this data' = false.
Proof.
  intros Hwf%constructor_wf Hv Hd. destruct (active_key _ Hwf) as [key Hk].
  destruct (encrypt_ok this n (plainText d) _ key Hv Hk (keys_length _ Hwf _ _ Hk)) as (data' & p & He & Hp & Hkv & Hdp).
  exists data'. unfold rotate. rewrite Hd. cbn [mbind result_bind]. rewrite He. cbn. split_and!; [done| |].
  - unfold decryptWithMetadata. rewrite Hp, Hdp. cbn. by rewrite Hkv, number_int_pretty.
  - unfold needsRotation. rewrite Hp, Hkv, number_int_pretty by done. by rewrite bool_decide_true.
Qed.

(** ** The old format *)

Definition not_colon (c : ascii) : bool := negb (bool_decide (c = ":"%char)).

(** The characters base64 texts are made of. *)
Definition b64_out (c : ascii) : bool := bool_decide (is_Some (b64_value c)) || bool_decide (c = "="%char).

Lemma b64_out_char c : b64_out c →
  not_colon c ∧ json_space c = false ∧ c ≠ ascii_of_nat 34 ∧ c ≠ "["%char ∧ c ≠ "{"%char.
Proof. destruct c as [[] [] [] [] [] [] [] []]; vm_compute; intros Hc; try done; by destruct Hc. Qed.

Lemma to_base64_out s : all_chars b64_out (to_base64 s).
Proof.
  unfold to_base64. rewrite all_chars_app, andb_True. split.
  - pose proof (sextets_range s) as Hl. induction Hl as [|n l Hn _ IH]; [done|]. cbn [b64_text foldr all_chars].
    rewrite andb_True. split; [|exact IH]. unfold b64_out. destruct (b64_value_char n Hn) as (-> & _). done.
  - unfold padding. destruct (Nat.modulo _ _) as [|[|[|[|]]]]; by vm_compute.
Qed.

Lemma to_base64_nonempty s : s ≠ "" → to_base64 s ≠ "".
Proof. intros Hs E. apply Hs. by rewrite <- (from_to_base64 s), E. Qed.

Lemma split_app s t : all_chars not_colon s → split ":"%char (s +:+ ":" +:+ t) = s :: split ":"%char t.
Proof.
  induction s as [|c s IH]; intros Hs.
  - change ("" +:+ ":" +:+ t) with (String ":"%char t). cbn [split]. by rewrite bool_decide_true.
  - simpl in Hs. apply andb_True in Hs as [Hc Hs]. rewrite app_cons. cbn [split]. rewrite (IH Hs).
    unfold not_colon in Hc. by destruct (bool_decide (c = ":"%char)).
Qed.

Lemma split_none s : all_chars not_colon s → split ":"%char s = [s].
Proof.
  induction s as [|c s IH]; intros Hs; [done|]. simpl in Hs. apply andb_True in Hs as [Hc Hs]. cbn [split].
  rewrite (IH Hs). unfold not_colon in Hc. by destruct (bool_decide (c = ":"%char)).
Qed.

Lemma skip_ws_spaces r : skip_ws r = "" → all_chars not_colon r.
Proof.
  induction r as [|c r IH]; simpl; [done|]. destruct (json_space c) eqn:Hc; [|done]. intros E. rewrite andb_True.
  split; [|by apply IH]. destruct (not_colon c) eqn:Hn; [done|]. unfold not_colon in Hn.
  apply negb_false_iff, bool_decide_eq_true in Hn. by subst.
Qed.

Lemma strip_prefix_app p s r : strip_prefix p s = Some r → s = p +:+ r.
Proof.
  revert s. induction p as [|c p IH]; intros [|d s]; simpl; intros E; simplify_eq; [done..|].
  case_bool_decide; [|done]. subst. rewrite app_cons. f_equal. by apply IH.
Qed.

Lemma take_number_app s t r : take_number s = (t, r) → s = t +:+ r ∧ all_chars number_char t.
Proof.
  revert t r. induction s as [|c s IH]; intros t r; simpl; [by intros [= <- <-]|].
  destruct (number_char c) eqn:Hc; [|by intros [= <- <-]]. destruct (take_number s) as [t' r'].
  intros [= <- <-]. destruct (IH t' r' eq_refl) as [-> Ht]. split; [done|]. simpl. by rewrite Hc.
Qed.

Lemma number_char_colon c : number_char c → not_colon c.
Proof. unfold not_colon. case_bool_decide as E; [subst; vm_compute; by intros []|done]. Qed.

(** A text that starts like base64 and has a colon is not JSON. *)
Lemma JSON_parse_legacy s t : all_chars b64_out s → s ≠ "" → JSON_parse (s +:+ ":" +:+ t) = None.
Proof.
  destruct s as [|c s]; [done|]. intros Hs _. simpl in Hs. apply andb_True in Hs as [Hc Hs].
  destruct (b64_out_char c Hc) as (_ & Hsp & ? & ? & ?). unfold JSON_parse.
  rewrite app_cons. set (X := s +:+ ":" +:+ t).
  assert (∀ p r, X = p +:+ r ∨ String c X = p +:+ r → all_chars not_colon p → skip_ws r ≠ "") as Hno.
  { intros p r Hpr Hp Hr%skip_ws_spaces.
    assert (all_chars not_colon X) as HX.
    { destruct Hpr as [->|E]; [by rewrite all_chars_app, andb_True|].
      assert (all_chars not_colon (String c X)) as HcX by (by rewrite E, all_chars_app, andb_True).
      simpl in HcX. by apply andb_True in HcX as [_ ?]. }
    unfold X in HX. rewrite !all_chars_app, !andb_True in HX. by destruct HX as (_ & [] & _). }
  cbn [parse_value skip_ws]. rewrite Hsp, !(bool_decide_false (c = _)) by done.
  repeat case_bool_decide; try (
    match goal with |- context [strip_prefix ?p X] => destruct (strip_prefix p X) as [r|] eqn:E; [|done];
      apply strip_prefix_app in E; cbn; rewrite bool_decide_false by (by eapply Hno; [left|]); done end).
  destruct (take_number (String c X)) as [num r] eqn:E. apply take_number_app in E as [E Hn].
  destruct (json_number num); [|done]. cbn. rewrite bool_decide_false; [done|].
  eapply Hno; [by right|]. eapply all_chars_mono; [apply number_char_colon|done].
Qed.

(** A secret sealed in the old format, under the key derived from the legacy
    secret, is still decrypted, and is reported as legacy with version 1 so
    that it is rotated. *)
Theorem legacy_readable this secret iv text ct tag : legacySecret this = Some secret → secret ≠ "" →
  gcm_seal (deriveKey secret 1) iv text = (ct, tag) → iv ≠ "" → tag ≠ "" → ct ≠ "" →
  let data := to_base64 iv +:+ ":" +:+ to_base64 tag +:+ ":" +:+ to_base64 ct in
  decryptWithMetadata this data = Ok (mkDecryption text 1 true) ∧ needsRotation this data = true.
Proof.
  intros Hl Hsec Hseal Hiv Htag Hct.
  pose proof (gcm_open_seal (deriveKey secret 1) iv text (scryptSync_length _ _ _)) as Hopen.
  rewrite Hseal in Hopen. simpl in Hopen.
  assert (∀ x, all_chars not_colon (to_base64 x)) as Hnc.
  { intros x. eapply all_chars_mono; [|apply to_base64_out]. intros c Hc. by apply b64_out_char in Hc as [? _]. }
  assert (∀ x, x ≠ "" → truthy_str (Some (to_base64 x)) = Some (to_base64 x)) as Htr.
  { intros x Hx. simpl. by rewrite bool_decide_false by (by apply to_base64_nonempty). }
  cbv zeta. unfold decryptWithMetadata, needsRotation, tryParsePayload.
  rewrite JSON_parse_legacy by (apply to_base64_out || by apply to_base64_nonempty). cbn [mbind option_bind]. split; [|done].
  unfold decryptLegacyPayload. rewrite Hl. simpl truthy_str at 1. rewrite bool_decide_false by done.
  rewrite !split_app, split_none by apply Hnc. cbn [lookup list_lookup]. rewrite !Htr by done.
  rewrite !from_to_base64, Hopen. done.
Qed.
End spec.

(** ** Masking *)

(** Masking only removes runs of base32 characters. *)
Lemma base32_run_mask f n s : is_Some (base32_run n (mask_from f s)) → is_Some (base32_run n s).
Proof.
  revert n s. induction f as [|f IH]; intros n s; [done|]. destruct s as [|c s]; [done|]. cbn [mask_from].
  destruct n as [|n]; [by eexists|]. destruct (secret_here (String c s)) as [r|].
  - change (base32_run (S n) ("[REDACTED_STELLAR_SECRET]" +:+ ?x)) with (@None string). by intros [].
  - simpl. destruct (base32_char c); [|done]. apply IH.
Qed.

(** [p] occurs nowhere in [s]. *)
Fixpoint nowhere (p : string → bool) (s : string) : bool :=
  negb (p s) && match s with EmptyString => true | String _ s' => nowhere p s' end.

Definition has_secret (s : string) : bool := bool_decide (is_Some (secret_here s)).

Lemma nowhere_redacted s : nowhere has_secret s → nowhere has_secret ("[REDACTED_STELLAR_SECRET]" +:+ s).
Proof. intros Hs. do 25 (rewrite app_cons; cbn [nowhere]; rewrite andb_True; split; [done|]). exact Hs. Qed.

(** No message that went through [maskError] contains a Stellar secret seed
    ([S] followed by 55 base32 characters), at any position. *)
Theorem masked_message_has_no_secret e : nowhere has_secret (maskError e).
Proof.
  unfold maskError, mask. generalize (error_message e). intros s. generalize (Nat.le_refl (String.length s)). generalize (String.length s) at 2 3. intros n.
  revert s. induction n as [|n IH]; intros s Hs; [destruct s; [done|simpl in Hs; lia]|].
  destruct s as [|c s]; [done|]. cbn [mask_from]. destruct (secret_here (String c s)) as [r|] eqn:Hr.
  - apply nowhere_redacted, IH. cbn [secret_here] in Hr. case_bool_decide; [|done].
    assert (∀ k s r, base32_run k s = Some r → String.length r ≤ String.length s)%nat as Hlen.
    { clear. induction k as [|k IH]; intros [|c s] r; simpl; intros E; simplify_eq; [done..|].
      destruct (base32_char c); [|done]. apply IH in E. lia. }
    apply Hlen in Hr. simpl in Hs. lia.
  - cbn [nowhere]. rewrite andb_True. split; [|apply IH; simpl in Hs; lia].
    unfold has_secret. rewrite bool_decide_false; [done|]. intros Hm. cbn [secret_here] in *.
    case_bool_decide; [|by destruct Hm]. apply base32_run_mask in Hm as [? Hm]. congruence.
Qed.

(** ** A service with two keys *)

Module TwoKeys.
Fixpoint repeat_char (c : ascii) (n : nat) : string :=
  match n with O => "" | S n' => String c (repeat_char c n') end.

Lemma repeat_char_length c n : String.length (repeat_char c n) = n.
Proof. induction n as [|n IH]; simpl; [done|]. by rewrite IH. Qed.

(** A cipher that leaves the text readable and authenticates key and vector. *)
#[export] Instance cipher_model : NodeCipher.
Proof.
  refine {| scryptSync := λ secret salt n, repeat_char "k"%char n;
            gcm_seal := λ key iv text, (text, key +:+ iv);
            gcm_open := λ key iv tag ct, if bool_decide (tag = key +:+ iv) then Ok ct
                          else Throw (JsError "Unsupported state or unable to authenticate data") |}.
  - intros. apply repeat_char_length.
  - intros. simpl. by rewrite bool_decide_true.
Defined.

#[export] Existing Instances random_model number_model.

Definition env : WalletKeyEnv := mkKeyEnv
  (Some (json_text (JArr [JObj [("version", JNum "1"); ("secret", JStr "old")];
                          JObj [("version", JNum "2"); ("secret", JStr "new")]])))
  (Some "legacy") None.

Definition service : EncryptionService :=
  Eval vm_compute in match constructor env with Ok this => this | Throw _ => mkService ∅ 0 None end.

Lemma service_built : constructor env = Ok service.
Proof. by vm_compute. Qed.

Definition old_data : string := Eval vm_compute in match encrypt service 7 "SECRET" 1 with Ok t => t | Throw _ => "" end.
End TwoKeys.

Section witnesses.
Import TwoKeys.

Lemma decrypt_encrypt_witness : service_wf service ∧ decryptWithMetadata service old_data = Ok (mkDecryption "SECRET" 1 false).
Proof.
  split; [exact (constructor_wf env service service_built)|].
  apply (decrypt_encrypt service 7 "SECRET" 1 old_data (constructor_wf env service service_built)); by vm_compute.
Defined.

Lemma rotation_keeps_secret_witness :
  needsRotation service old_data = true ∧
  ∃ data', rotate service 9 old_data = Ok (mkRotation data' 1 2) ∧
    decryptWithMetadata service data' = Ok (mkDecryption "SECRET" 2 false) ∧ needsRotation service data' = false.
Proof.
  split; [by vm_compute|].
  apply (rotation_keeps_secret env service 9 old_data (mkDecryption "SECRET" 1 false) service_built); by vm_compute.
Defined.

Lemma legacy_readable_witness :
  let data := to_base64 "iv" +:+ ":" +:+ to_base64 (deriveKey "legacy" 1 +:+ "iv") +:+ ":" +:+ to_base64 "SECRET" in
  decryptWithMetadata service data = Ok (mkDecryption "SECRET" 1 true) ∧ needsRotation service data = true.
Proof. apply (legacy_readable service "legacy" "iv" "SECRET" "SECRET" (deriveKey "legacy" 1 +:+ "iv")); by vm_compute. Defined.
End witnesses.
