(* ===== verification/Accounts.v ===== *)
(** * Accounts: the tables behind sign-in and wallet custody

    The rows of [User], [RefreshToken], [UserWallet], [WalletKeyAccessAudit] and
    [WalletRecoveryChallenge] in [server/prisma/schema.prisma], the database
    operations the services use on them with their unique and foreign-key
    constraints, random readings, and the e-mails of
    [server/src/services/email.service.ts] (recipient, subject and link; the
    HTML around them is left out).  A call reads the clock once. *)

From stdpp Require Import prelude strings list pretty.
From S2P Require Import Prelude JsText JsBuffer Prisma Crypto Json.

(** ** Rows *)

Record User := mkUser {
  u_id : string;
  u_email : string;
  u_username : string;
  u_passwordHash : string;
  u_role : string;
  u_isVerified : bool;
  u_bio : option string;
  u_socials : option json;
  u_walletAddress : option string;
  u_verificationToken : option string;
  u_verificationTokenExpires : option Z;
  u_passwordResetToken : option string;
  u_passwordResetExpires : option Z;
  u_provider : option string;
  u_providerId : option string;
  u_createdAt : Z;
  u_updatedAt : Z;
  u_deletedAt : option Z;
}.

Record RefreshToken := mkToken {
  t_id : string;
  t_userId : string;
  t_familyId : string;
  t_tokenHash : string;
  t_expiresAt : Z;
  t_revokedAt : option Z;
  t_parentTokenId : option string;
  t_replacedByTokenId : option string;
  t_createdAt : Z;
  t_updatedAt : Z;
}.

Record UserWallet := mkWallet {
  w_id : string;
  w_userId : string;
  w_publicKey : string;
  w_encryptedSecretKey : string;
  w_encryptionVersion : Z;
  w_lastRotatedAt : option Z;
  w_createdAt : Z;
  w_updatedAt : Z;
}.

Inductive WalletKeyAccessAction :=
| SIGN | EXPORT | RECOVERY_CHALLENGE_CREATED | RECOVERY_CHALLENGE_COMPLETED | ROTATION.

#[export] Instance WalletKeyAccessAction_eq_dec : EqDecision WalletKeyAccessAction.
Proof. solve_decision. Defined.

Definition action_string (a : WalletKeyAccessAction) : string :=
  match a with
  | SIGN => "SIGN" | EXPORT => "EXPORT" | RECOVERY_CHALLENGE_CREATED => "RECOVERY_CHALLENGE_CREATED"
  | RECOVERY_CHALLENGE_COMPLETED => "RECOVERY_CHALLENGE_COMPLETED" | ROTATION => "ROTATION"
  end.

Record WalletKeyAccessAudit := mkKeyAudit {
  k_id : string;
  k_walletId : string;
  k_actorUserId : option string;
  k_action : WalletKeyAccessAction;
  k_success : bool;
  k_requestId : option string;
  k_ipAddress : option string;
  k_userAgent : option string;
  k_reason : option string;
  k_keyVersion : option Z;
  k_metadata : option json;
  k_previousHash : option string;
  k_entryHash : string;
  k_createdAt : Z;
}.

Inductive ChallengeStatus := PENDING | COMPLETED | EXPIRED | CANCELLED.

#[export] Instance ChallengeStatus_eq_dec : EqDecision ChallengeStatus.
Proof. solve_decision. Defined.

Record WalletRecoveryChallenge := mkChallenge {
  c_id : string;
  c_userId : string;
  c_walletId : string;
  c_codeHash : string;
  c_expiresAt : Z;
  c_completedAt : option Z;
  c_status : ChallengeStatus;
  c_attempts : Z;
  c_maxAttempts : Z;
  c_requestId : option string;
  c_requestedFromIp : option string;
  c_requestedUserAgent : option string;
  c_lastAttemptAt : option Z;
  c_createdAt : Z;
  c_updatedAt : Z;
}.

Record Email := mkEmail { m_to : string; m_subject : string; m_url : string }.

(** The tables, the e-mails handed to the transport, the number of rows
    inserted and the number of random readings. *)
Record AccountDB := mkADB {
  users : list User;
  refreshTokens : list RefreshToken;
  userWallets : list UserWallet;
  keyAudits : list WalletKeyAccessAudit;
  challenges : list WalletRecoveryChallenge;
  outbox : list Email;
  serial : nat;
  draws : nat;
}.

Definition empty_accounts : AccountDB := mkADB [] [] [] [] [] [] 0 0.

Section updates.
Implicit Types (db : AccountDB).

Definition set_users l db : AccountDB :=
  mkADB l (refreshTokens db) (userWallets db) (keyAudits db) (challenges db) (outbox db) (serial db) (draws db).
Definition set_tokens l db : AccountDB :=
  mkADB (users db) l (userWallets db) (keyAudits db) (challenges db) (outbox db) (serial db) (draws db).
Definition set_wallets l db : AccountDB :=
  mkADB (users db) (refreshTokens db) l (keyAudits db) (challenges db) (outbox db) (serial db) (draws db).
Definition set_audits l db : AccountDB :=
  mkADB (users db) (refreshTokens db) (userWallets db) l (challenges db) (outbox db) (serial db) (draws db).
Definition set_challenges l db : AccountDB :=
  mkADB (users db) (refreshTokens db) (userWallets db) (keyAudits db) l (outbox db) (serial db) (draws db).
Definition set_outbox l db : AccountDB :=
  mkADB (users db) (refreshTokens db) (userWallets db) (keyAudits db) (challenges db) l (serial db) (draws db).
Definition next_serial db : AccountDB :=
  mkADB (users db) (refreshTokens db) (userWallets db) (keyAudits db) (challenges db) (outbox db) (S (serial db)) (draws db).
Definition next_draw db : AccountDB :=
  mkADB (users db) (refreshTokens db) (userWallets db) (keyAudits db) (challenges db) (outbox db) (serial db) (S (draws db)).
End updates.

(** The next reading of a random source. *)
Definition draw {A} (f : nat → A) : M AccountDB A :=
  db ← get; _ ← put (next_draw db); mret (f (draws db)).

Lemma post_draw {A} (f : nat → A) db Q E : Q (next_draw db) (f (draws db)) → post (draw f) db Q E.
Proof. done. Qed.

(** [m_step] and random readings. *)
Ltac a_step :=
  lazymatch goal with
  | |- post (draw _) _ _ _ => apply post_draw; cbv beta
  | _ => m_step
  end.

(** A synchronous call that may throw. *)
Definition of_result {A} (r : result A) : M AccountDB A :=
  match r with Ok a => mret a | Throw e => throw e end.

(** ** Users *)

Section tables.
Context `{Prisma}.

(** Whether another row has the value in a nullable unique column. *)
Definition taken {R A} `{EqDecision A} (col : R → option A) (others : list R) (r : R) : bool :=
  match col r with Some a => bool_decide (Some a ∈ col <$> others) | None => false end.

(** The first unique column in which a row clashes with another one. *)
Definition user_conflict (l : list User) (u : User) : option string :=
  let others := List.filter (λ v, negb (bool_decide (u_id v = u_id u))) l in
  if bool_decide (u_email u ∈ u_email <$> others) then Some "email"
  else if bool_decide (u_username u ∈ u_username <$> others) then Some "username"
  else if taken u_walletAddress others u then Some "walletAddress"
  else if taken u_verificationToken others u then Some "verificationToken"
  else if taken u_passwordResetToken others u then Some "passwordResetToken"
  else None.

Record NewUser := mkNewUser {
  n_email : string;
  n_username : string;
  n_passwordHash : string;
  n_role : option string;
  n_isVerified : bool;
  n_provider : option string;
  n_providerId : option string;
}.

Definition user_create (now : Z) (d : NewUser) : M AccountDB User :=
  db ← get;
  let u := mkUser (uuid (serial db)) (n_email d) (n_username d) (n_passwordHash d) (default "USER" (n_role d)) (n_isVerified d)
    None None None None None None None (Some (default "EMAIL" (n_provider d))) (n_providerId d) (db_now (serial db)) now None in
  match user_conflict (users db) u with
  | Some column => throw (UniqueConstraint [column])
  | None => _ ← put (next_serial (set_users (users db ++ [u]) db)); mret u
  end.

Definition user_update (now : Z) (i : string) (f : User → User) : M AccountDB User :=
  db ← get;
  match row_find u_id i (users db) with
  | None => throw RecordNotFound
  | Some u =>
      match user_conflict (users db) (f u) with
      | Some column => throw (UniqueConstraint [column])
      | None => _ ← put (set_users (row_update u_id i f (users db)) db); mret (f u)
      end
  end.

(** The columns [user.update] writes. *)
Definition u_with_address (now : Z) (a : string) (u : User) : User :=
  mkUser (u_id u) (u_email u) (u_username u) (u_passwordHash u) (u_role u) (u_isVerified u) (u_bio u) (u_socials u) (Some a)
    (u_verificationToken u) (u_verificationTokenExpires u) (u_passwordResetToken u) (u_passwordResetExpires u)
    (u_provider u) (u_providerId u) (u_createdAt u) now (u_deletedAt u).
Definition u_with_verification (now : Z) (verified : bool) (token : option string) (expires : option Z) (u : User) : User :=
  mkUser (u_id u) (u_email u) (u_username u) (u_passwordHash u) (u_role u) verified (u_bio u) (u_socials u)
    (u_walletAddress u) token expires (u_passwordResetToken u) (u_passwordResetExpires u)
    (u_provider u) (u_providerId u) (u_createdAt u) now (u_deletedAt u).
Definition u_with_reset (now : Z) (hash : string) (token : option string) (expires : option Z) (u : User) : User :=
  mkUser (u_id u) (u_email u) (u_username u) hash (u_role u) (u_isVerified u) (u_bio u) (u_socials u)
    (u_walletAddress u) (u_verificationToken u) (u_verificationTokenExpires u) token expires
    (u_provider u) (u_providerId u) (u_createdAt u) now (u_deletedAt u).
Definition u_with_provider (now : Z) (provider providerId : string) (u : User) : User :=
  mkUser (u_id u) (u_email u) (u_username u) (u_passwordHash u) (u_role u) true (u_bio u) (u_socials u)
    (u_walletAddress u) (u_verificationToken u) (u_verificationTokenExpires u) (u_passwordResetToken u) (u_passwordResetExpires u)
    (Some provider) (Some providerId) (u_createdAt u) now (u_deletedAt u).

(** ** Refresh tokens *)

Definition refreshToken_create (now : Z) (user family hash : string) (parent : option string) (expires : Z) : M AccountDB RefreshToken :=
  db ← get;
  let t := mkToken (uuid (serial db)) user family hash expires None parent None (db_now (serial db)) now in
  if bool_decide (hash ∈ t_tokenHash <$> refreshTokens db) then throw (UniqueConstraint ["tokenHash"])
  else if bool_decide (user ∈ u_id <$> users db) then
    _ ← put (next_serial (set_tokens (refreshTokens db ++ [t]) db)); mret t
  else throw ForeignKeyViolation.

Definition t_revoked (now : Z) (t : RefreshToken) : RefreshToken :=
  mkToken (t_id t) (t_userId t) (t_familyId t) (t_tokenHash t) (t_expiresAt t) (Some now) (t_parentTokenId t)
    (t_replacedByTokenId t) (t_createdAt t) now.
Definition t_replaced (now : Z) (next : string) (t : RefreshToken) : RefreshToken :=
  mkToken (t_id t) (t_userId t) (t_familyId t) (t_tokenHash t) (t_expiresAt t) (Some now) (t_parentTokenId t)
    (Some next) (t_createdAt t) now.

Definition refreshToken_update (i : string) (f : RefreshToken → RefreshToken) : M AccountDB unit :=
  db ← get;
  match row_find t_id i (refreshTokens db) with
  | None => throw RecordNotFound
  | Some _ => put (set_tokens (row_update t_id i f (refreshTokens db)) db)
  end.

(** ** Wallets *)

Definition userWallet_create (now : Z) (user publicKey secret : string) (version : Z) : M AccountDB UserWallet :=
  db ← get;
  let w := mkWallet (uuid (serial db)) user publicKey secret version (Some now) (db_now (serial db)) now in
  if bool_decide (user ∈ w_userId <$> userWallets db) then throw (UniqueConstraint ["userId"])
  else if bool_decide (publicKey ∈ w_publicKey <$> userWallets db) then throw (UniqueConstraint ["publicKey"])
  else if bool_decide (user ∈ u_id <$> users db) then
    _ ← put (next_serial (set_wallets (userWallets db ++ [w]) db)); mret w
  else throw ForeignKeyViolation.

Definition w_rotated (now : Z) (secret : string) (version : Z) (w : UserWallet) : UserWallet :=
  mkWallet (w_id w) (w_userId w) (w_publicKey w) secret version (Some now) (w_createdAt w) now.

Definition userWallet_update (i : string) (f : UserWallet → UserWallet) : M AccountDB UserWallet :=
  db ← get;
  match row_find w_id i (userWallets db) with
  | None => throw RecordNotFound
  | Some w => _ ← put (set_wallets (row_update w_id i f (userWallets db)) db); mret (f w)
  end.
End tables.

(** ** E-mails: [emailService] *)

(** The transport: whether the [n]-th message is accepted, and the base URL. *)
Class Mailer := { transport_error : nat → option exn; FRONTEND_URL : string }.

Section mail.
Context `{Mailer}.

Definition sendEmail (e : Email) : M AccountDB unit :=
  failure ← draw transport_error;
  match failure with
  | Some err => throw err
  | None => modify (λ db, set_outbox (outbox db ++ [e]) db)
  end.

Definition sendVerificationEmail (email token : string) : M AccountDB unit :=
  sendEmail (mkEmail email "Verify your ArenaX account" (FRONTEND_URL +:+ "/auth/verify-email?token=" +:+ token)).
Definition sendPasswordResetEmail (email token : string) : M AccountDB unit :=
  sendEmail (mkEmail email "Reset your ArenaX password" (FRONTEND_URL +:+ "/reset-password?token=" +:+ token)).
Definition sendWelcomeEmail (email username : string) : M AccountDB unit :=
  sendEmail (mkEmail email "Welcome to ArenaX!" FRONTEND_URL).
End mail.
