(* ===== verification/StellarWallet.v ===== *)
(** * Custody of Stellar wallets

    [server/src/services/stellar-wallet.service.ts] (wallets, access to their
    secrets, rotation of the master key) and the hash-chained log of key accesses
    of [server/src/services/wallet-audit.service.ts].  Key pairs come from the
    Stellar SDK, a parameter; the encryption service is an argument. *)

From stdpp Require Import prelude strings list pretty.
From S2P Require Import Prelude JsText JsBuffer Prisma Crypto Json JsonParse Encryption Accounts.

(** [Keypair.random()] *)
Record Keypair := mkKeypair { kp_publicKey : string; kp_secret : string }.
Class StellarSdk := keypair_random : nat → Keypair.

Record WalletAccessContext := mkAccess {
  actorUserId : option string;
  a_requestId : option string;
  a_ipAddress : option string;
  a_userAgent : option string;
  a_reason : option string;
  a_metadata : option (list (string * json));
}.

Definition no_context : WalletAccessContext := mkAccess None None None None None None.

Record WalletSummary := mkSummary {
  s_id : string;
  s_publicKey : string;
  s_encryptionVersion : Z;
  s_createdAt : Z;
  s_lastRotatedAt : option Z;
}.

Definition toWalletSummary (w : UserWallet) : WalletSummary :=
  mkSummary (w_id w) (w_publicKey w) (w_encryptionVersion w) (w_createdAt w) (w_lastRotatedAt w).

(** ** The log of key accesses *)

Section audit.
Context `{Prisma} `{Sha256}.

Record WalletAuditContext := mkAuditContext {
  x_walletId : string;
  x_actorUserId : option string;
  x_action : WalletKeyAccessAction;
  x_success : bool;
  x_requestId : option string;
  x_ipAddress : option string;
  x_userAgent : option string;
  x_reason : option string;
  x_keyVersion : option Z;
  x_metadata : option json;
}.

(** [value ?? null] *)
Definition or_null (v : option string) : json := match v with Some s => JStr s | None => JNull end.

(** The value whose text is hashed. *)
Definition audit_json (x : WalletAuditContext) (previousHash : option string) : json :=
  JObj [("walletId", JStr (x_walletId x)); ("actorUserId", or_null (x_actorUserId x));
        ("action", JStr (action_string (x_action x))); ("success", JBool (x_success x));
        ("requestId", or_null (x_requestId x)); ("ipAddress", or_null (x_ipAddress x));
        ("userAgent", or_null (x_userAgent x)); ("reason", or_null (x_reason x));
        ("keyVersion", match x_keyVersion x with Some v => JNum (pretty v) | None => JNull end);
        ("metadata", default JUndefined (x_metadata x)); ("previousHash", or_null previousHash)].

Definition audit_hash (x : WalletAuditContext) (previousHash : option string) : string :=
  sha256_hex (stableStringify (audit_json x previousHash)).

(** [findFirst({ orderBy: { createdAt: 'desc' } })] *)
Definition latest_audit (l : list WalletKeyAccessAudit) : option WalletKeyAccessAudit :=
  hd_error (order_by (λ a b, bool_decide (k_createdAt b ≤ k_createdAt a)) l).

Definition keyAudit_create (k : nat → WalletKeyAccessAudit) : M AccountDB unit :=
  db ← get;
  let row := k (serial db) in
  if bool_decide (k_entryHash row ∈ k_entryHash <$> keyAudits db) then throw (UniqueConstraint ["entryHash"])
  else if bool_decide (k_walletId row ∈ w_id <$> userWallets db) &&
          match k_actorUserId row with Some u => bool_decide (u ∈ u_id <$> users db) | None => true end
  then put (next_serial (set_audits (keyAudits db ++ [row]) db))
  else throw ForeignKeyViolation.

Definition record_access (x : WalletAuditContext) : M AccountDB unit :=
  previousEntry ← gets (λ db, latest_audit (keyAudits db));
  let previousHash := k_entryHash <$> previousEntry in
  let entryHash := audit_hash x previousHash in
  keyAudit_create (λ n, mkKeyAudit (uuid n) (x_walletId x) (x_actorUserId x) (x_action x) (x_success x) (x_requestId x)
    (x_ipAddress x) (x_userAgent x) (x_reason x) (x_keyVersion x) (x_metadata x) previousHash entryHash (db_now n)).
End audit.

(** ** Wallets *)

Section wallets.
Context `{Prisma} `{Sha256} `{NodeCipher} `{NodeRandom} `{JsNumber} `{StellarSdk}.
Context (encryptionService : EncryptionService).

Definition NoWallet (userId : string) : exn := JsError ("No wallet found for user " +:+ userId).

Definition getWalletByUserId (userId : string) : M AccountDB (option UserWallet) :=
  gets (λ db, row_find w_userId userId (userWallets db)).

Definition registerUserWallet (now : Z) (userId : string) : M AccountDB WalletSummary :=
  existingWallet ← getWalletByUserId userId;
  match existingWallet with
  | Some wallet => mret (toWalletSummary wallet)
  | None =>
      keypair ← draw keypair_random;
      n ← draw id;
      encryptedSecretKey ← of_result (encrypt encryptionService n (kp_secret keypair) (activeKeyVersion encryptionService));
      wallet ← userWallet_create now userId (kp_publicKey keypair) encryptedSecretKey (getActiveKeyVersion encryptionService);
      _ ← user_update now userId (u_with_address now (kp_publicKey keypair));
      mret (toWalletSummary wallet)
  end.

Definition ensureUserWallet (now : Z) (userId : string) : M AccountDB WalletSummary :=
  existingWallet ← getWalletByUserId userId;
  match existingWallet with
  | Some wallet => mret (toWalletSummary wallet)
  | None => registerUserWallet now userId
  end.

Definition getPublicKey (userId : string) : M AccountDB (option string) :=
  wallet ← getWalletByUserId userId; mret (w_publicKey <$> wallet).

Definition getWalletSummary (userId : string) : M AccountDB (option WalletSummary) :=
  wallet ← getWalletByUserId userId; mret (toWalletSummary <$> wallet).

(** The log entry of an access. *)
Definition access_entry (walletId userId : string) (action : WalletKeyAccessAction) (success : bool) (reason : option string)
    (version : Z) (metadata : option json) (context : WalletAccessContext) : WalletAuditContext :=
  mkAuditContext walletId (Some (default userId (actorUserId context))) action success (a_requestId context)
    (a_ipAddress context) (a_userAgent context) reason (Some version) metadata.

(** [{ ...(context.metadata ?? {}), [key]: value }] *)
Definition with_metadata (context : WalletAccessContext) (key : string) (value : json) : json :=
  JObj (map_set key value (default [] (a_metadata context))).

(** The lazy rotation of [decryptSecretForUser]. *)
Definition rotate_if_needed (now : Z) (userId : string) (wallet : UserWallet) (decryption : DecryptionResult)
    (context : WalletAccessContext) : M AccountDB unit :=
  if usedLegacyFormat decryption || negb (bool_decide (d_keyVersion decryption = getActiveKeyVersion encryptionService)) then
    n ← draw id;
    rotation ← of_result (rotate encryptionService n (w_encryptedSecretKey wallet));
    _ ← userWallet_update (w_id wallet) (w_rotated now (encrypted rotation) (r_keyVersion rotation));
    record_access (access_entry (w_id wallet) userId ROTATION true
      (Some "Lazy wallet master key rotation during secure access") (r_keyVersion rotation)
      (Some (JObj [("previousVersion", JNum (pretty (previousVersion rotation)))])) context)
  else mret tt.

(** The secret with the id and the public key of its wallet. *)
Definition decryptSecretForUser (now : Z) (userId : string) (action : WalletKeyAccessAction)
    (context : WalletAccessContext) : M AccountDB (string * string * string) :=
  found ← getWalletByUserId userId;
  match found with
  | None => throw (NoWallet userId)
  | Some wallet =>
      try_catch
        (decryption ← of_result (decryptWithMetadata encryptionService (w_encryptedSecretKey wallet));
         _ ← rotate_if_needed now userId wallet decryption context;
         _ ← record_access (access_entry (w_id wallet) userId action true (a_reason context)
               (getActiveKeyVersion encryptionService) (JObj <$> a_metadata context) context);
         mret (plainText decryption, w_id wallet, w_publicKey wallet))
        (λ error,
         _ ← record_access (access_entry (w_id wallet) userId action false
               (Some (default "Wallet secret access denied due to decryption failure" (truthy_str (a_reason context))))
               (w_encryptionVersion wallet) (Some (with_metadata context "error" (JStr (error_message error)))) context);
         throw error)
  end.

Definition rotateUserWallet (now : Z) (userId : string) (context : WalletAccessContext) : M AccountDB WalletSummary :=
  found ← getWalletByUserId userId;
  match found with
  | None => throw (NoWallet userId)
  | Some wallet =>
      if negb (needsRotation encryptionService (w_encryptedSecretKey wallet)) then mret (toWalletSummary wallet) else
      n ← draw id;
      rotation ← of_result (rotate encryptionService n (w_encryptedSecretKey wallet));
      updatedWallet ← userWallet_update (w_id wallet) (w_rotated now (encrypted rotation) (r_keyVersion rotation));
      _ ← record_access (access_entry (w_id wallet) userId ROTATION true
            (Some (default "Manual wallet master key rotation" (truthy_str (a_reason context)))) (r_keyVersion rotation)
            (Some (with_metadata context "previousVersion" (JNum (pretty (previousVersion rotation))))) context);
      mret (toWalletSummary updatedWallet)
  end.
End wallets.
