(* ===== verification/Auth.v ===== *)
(** * Sign-in and sessions: [server/src/services/auth.service.ts]

    Every function of the service, on the tables of [Accounts.v].  Refresh tokens
    are random texts of which the table keeps the hash; a token that is used is
    replaced by a successor of the same family.  A call reads the clock once
    ([now]).  The answers of the identity providers are arguments; the access
    token is whatever [jwt.sign] returns. *)

From Stdlib Require Import Ascii.
From stdpp Require Import prelude strings list pretty.
From S2P Require Import Prelude JsText JsBuffer Prisma Crypto AuthConfig Json JsonParse Encryption Accounts StellarWallet.

Definition BCRYPT_ROUNDS : Z := 12.
Definition MAX_USERNAME_LENGTH : nat := 24.
Definition MIN_USERNAME_LENGTH : nat := 3.
Definition MAX_USERNAME_ATTEMPTS : nat := 25.

(** ** Names and addresses *)

Definition normalizeEmail (email : string) : string := lowercase (trim email).

(** [[a-z0-9_]] *)
Definition name_char (c : ascii) : bool := is_lower c || is_digit c || bool_decide (c = "_"%char).

Definition sanitizeUsername (username : string) : string :=
  str_take MAX_USERNAME_LENGTH (str_filter name_char (lowercase (trim username))).

(** [value || fallback] *)
Definition or_else (value : option string) (fallback : string) : string := default fallback (truthy_str value).

Section auth.
Context `{Prisma} `{Sha256} `{Bcrypt} `{JsonWebToken} `{NodeCipher} `{NodeRandom} `{JsNumber} `{StellarSdk} `{Mailer}.
Context (encryptionService : EncryptionService) (authConfig : AuthConfig).

Definition toTokenHash (token : string) : string := sha256_hex token.

Definition buildUsernameBase (email : string) (username : option string) : M AccountDB string :=
  match truthy_str username with
  | Some name =>
      let sanitized := sanitizeUsername name in
      if bool_decide (String.length sanitized < MIN_USERNAME_LENGTH)%nat
      then throw (HttpError 400 ("username must contain at least " +:+ pretty MIN_USERNAME_LENGTH +:+ " characters"))
      else mret sanitized
  | None =>
      let localPart := or_else (Some (split_head "@"%char email)) "player" in
      let sanitizedLocalPart := sanitizeUsername localPart in
      if bool_decide (MIN_USERNAME_LENGTH ≤ String.length sanitizedLocalPart)%nat then mret sanitizedLocalPart else
      r ← draw math_random;
      mret ("player" +:+ pretty (four_digits r))
  end.

Definition buildCandidateUsername (base : string) (attempt : nat) : M AccountDB string :=
  match attempt with
  | O => mret base
  | S _ =>
      r ← draw math_random;
      let suffix := pretty (four_digits r) in
      let maxBaseLength := (MAX_USERNAME_LENGTH - String.length suffix)%nat in
      mret (str_take maxBaseLength base +:+ suffix)
  end.

Definition isUniqueConstraintError (error : exn) (field : option string) : bool :=
  match error with
  | UniqueConstraint target => match truthy_str field with Some f => bool_decide (f ∈ target) | None => true end
  | PrismaError code => bool_decide (code = "P2002") && bool_decide (truthy_str field = None)
  | _ => false
  end.

Record SafeUser := mkSafeUser {
  v_id : string;
  v_email : string;
  v_username : string;
  v_role : string;
  v_bio : option string;
  v_socials : option json;
  v_createdAt : Z;
  v_updatedAt : Z;
  v_isVerified : bool;
}.

Definition mapUserToSafeUser (user : User) : SafeUser :=
  mkSafeUser (u_id user) (u_email user) (u_username user) (u_role user) (u_bio user) (u_socials user) (u_createdAt user)
    (u_updatedAt user) (u_isVerified user).

(** ** Tokens *)

Definition createAccessToken (now : Z) (user : User) : string :=
  jwt_sign [("email", u_email user); ("username", u_username user); ("role", u_role user)] (signingKey authConfig)
    (mkJwtOptions (jwtAlgorithm authConfig) (accessTokenTtl authConfig) (u_id user)) now.

Definition generateRefreshToken : M AccountDB string := bytes ← draw (randomBytes 64); mret (to_hex bytes).

(** [updateMany({ where: { familyId, revokedAt: null } })] *)
Definition revokeTokenFamily (now : Z) (familyId : string) : M AccountDB unit :=
  modify (λ db, set_tokens ((λ t, if bool_decide (t_familyId t = familyId) && bool_decide (t_revokedAt t = None)
                                  then t_revoked now t else t) <$> refreshTokens db) db).

Definition createRefreshTokenRecord (now : Z) (userId familyId : string) (parentTokenId : option string)
    : M AccountDB (string * string) :=
  rawToken ← generateRefreshToken;
  record ← refreshToken_create now userId familyId (toTokenHash rawToken) parentTokenId (now + refreshTokenTtlMs authConfig);
  mret (rawToken, t_id record).

Record Tokens := mkTokens { accessToken : string; refreshToken : string; tk_accessTtl : string; tk_refreshTtl : string }.

(** Issues a pair of tokens; the parent, when there is one, is revoked and
    points to its successor. *)
Definition issueSessionTokens (now : Z) (user : User) (family parentTokenId : option string) : M AccountDB Tokens :=
  let access := createAccessToken now user in
  refresh ← transaction
    (familyId ← match truthy_str family with Some f => mret f | None => draw randomUUID end;
     '(token, recordId) ← createRefreshTokenRecord now (u_id user) familyId parentTokenId;
     _ ← match truthy_str parentTokenId with
         | Some parent => refreshToken_update parent (t_replaced now recordId)
         | None => mret tt
         end;
     mret token);
  mret (mkTokens access refresh (accessTokenTtl authConfig) (refreshTokenTtl authConfig)).

(** ** Registration *)

Record Session := mkSession { s_user : SafeUser; s_tokens : Tokens }.

Definition EmailInUse : exn := HttpError 409 "Email already in use".
Definition DAY_MS : Z := 24 * 60 * 60 * 1000.

(** A user and the wallet of the user, in one transaction. *)
Definition create_account (now : Z) (d : NewUser) : M AccountDB User :=
  transaction
    (user ← user_create now d;
     _ ← registerUserWallet encryptionService now (u_id user);
     mret user).

(** The sending of an e-mail whose failure is only logged. *)
Definition try_send (m : M AccountDB unit) : M AccountDB unit := try_catch m (λ _, mret tt).

(** What a successful attempt of the loop does after the insertion. *)
Definition finish_registration (now : Z) (normalizedEmail : string) (createdUser : User) : M AccountDB Session :=
  bytes ← draw (randomBytes 32);
  let verificationToken := to_hex bytes in
  _ ← user_update now (u_id createdUser)
        (λ u, u_with_verification now (u_isVerified u) (Some (toTokenHash verificationToken)) (Some (now + DAY_MS)) u);
  _ ← try_send (sendVerificationEmail normalizedEmail verificationToken);
  tokens ← issueSessionTokens now createdUser None None;
  mret (mkSession (mapUserToSafeUser createdUser) tokens).

Fixpoint register_loop (now : Z) (normalizedEmail passwordHash usernameBase : string) (attempt left : nat) : M AccountDB Session :=
  match left with
  | O => throw (HttpError 500 "Unable to generate a unique username")
  | S left' =>
      candidate ← buildCandidateUsername usernameBase attempt;
      try_catch
        (createdUser ← create_account now
           (mkNewUser normalizedEmail candidate passwordHash None false (Some "EMAIL") None);
         finish_registration now normalizedEmail createdUser)
        (λ error,
         if isUniqueConstraintError error (Some "email") then throw EmailInUse
         else if isUniqueConstraintError error (Some "username")
         then register_loop now normalizedEmail passwordHash usernameBase (S attempt) left'
         else throw error)
  end.

Definition registerUser (now : Z) (email password : string) (username : option string) : M AccountDB Session :=
  let normalizedEmail := normalizeEmail email in
  existingByEmail ← gets (λ db, row_find u_email normalizedEmail (users db));
  match existingByEmail with
  | Some _ => throw EmailInUse
  | None =>
      passwordHash ← draw (bcrypt_hash password BCRYPT_ROUNDS);
      usernameBase ← buildUsernameBase normalizedEmail username;
      register_loop now normalizedEmail passwordHash usernameBase 0 MAX_USERNAME_ATTEMPTS
  end.

(** ** Sessions *)

Definition loginUser (now : Z) (email password : string) : M AccountDB Session :=
  found ← gets (λ db, row_find u_email (normalizeEmail email) (users db));
  match found with
  | None => throw (HttpError 401 "Invalid credentials")
  | Some user =>
      if negb (bcrypt_compare password (u_passwordHash user)) then throw (HttpError 401 "Invalid credentials") else
      tokens ← issueSessionTokens now user None None;
      mret (mkSession (mapUserToSafeUser user) tokens)
  end.

Definition InvalidRefresh : exn := HttpError 401 "Invalid refresh token".
Definition ReuseDetected : exn := HttpError 401 "Refresh token reuse detected, please login again".
Definition RefreshExpired : exn := HttpError 401 "Refresh token expired".

(** [refreshToken.findUnique({ where: { tokenHash }, include: { user: true } })] *)
Definition find_token (token : string) : M AccountDB (option (RefreshToken * User)) :=
  gets (λ db,
    t ← row_find t_tokenHash (toTokenHash token) (refreshTokens db);
    u ← row_find u_id (t_userId t) (users db);
    Some (t, u)).

(** The part of [refreshSession] after the token was read. *)
Definition refresh_found (now : Z) (token : string) (stored : option (RefreshToken * User)) : M AccountDB Session :=
  match stored with
  | None => throw InvalidRefresh
  | Some (storedToken, user) =>
      if negb (constantTimeEquals (t_tokenHash storedToken) (toTokenHash token)) then throw InvalidRefresh else
      match t_revokedAt storedToken with
      | Some _ =>
          match truthy_str (t_replacedByTokenId storedToken) with
          | Some _ => _ ← revokeTokenFamily now (t_familyId storedToken); throw ReuseDetected
          | None => throw InvalidRefresh
          end
      | None =>
          if bool_decide (t_expiresAt storedToken ≤ now) then
            _ ← refreshToken_update (t_id storedToken) (t_revoked now); throw RefreshExpired
          else
            tokens ← issueSessionTokens now user (Some (t_familyId storedToken)) (Some (t_id storedToken));
            mret (mkSession (mapUserToSafeUser user) tokens)
      end
  end.

Definition refreshSession (now : Z) (token : string) : M AccountDB Session :=
  stored ← find_token token;
  refresh_found now token stored.

Definition logoutUser (now : Z) (token : string) : M AccountDB unit :=
  found ← gets (λ db, row_find t_tokenHash (toTokenHash token) (refreshTokens db));
  match found with
  | None => mret tt
  | Some storedToken =>
      if negb (constantTimeEquals (t_tokenHash storedToken) (toTokenHash token)) then mret tt else
      match t_revokedAt storedToken with
      | None => refreshToken_update (t_id storedToken) (t_revoked now)
      | Some _ => mret tt
      end
  end.

(** ** Identity providers *)

Inductive Provider := google | discord | twitch.
Definition provider_name (p : Provider) : string :=
  match p with google => "google" | discord => "discord" | twitch => "twitch" end.

(** The data of the providers' answers the code reads. *)
Record GoogleData := mkGoogle { g_email : option string; g_sub : string; g_name : option string }.
Record DiscordData := mkDiscord { d_email : option string; d_id : string; d_username : option string; d_global_name : option string }.
Record TwitchData := mkTwitch { w_email : option string; w_ident : string; w_login : option string }.

Class OAuth := {
  google_userinfo : string → result GoogleData;
  discord_me : string → result DiscordData;
  twitch_users : string → result (list TwitchData);
}.

Record Profile := mkProfile { p_email : string; p_username : option string; p_providerId : string }.

Definition NotAString : exn := JsError "TypeError".

Section social.
Context `{OAuth}.

(** A profile without an e-mail address fails when the address is used. *)
Definition validateGoogleToken (token : string) : result Profile :=
  d ← google_userinfo token;
  match g_email d with
  | None => Throw NotAString
  | Some email => mret (mkProfile email (Some (or_else (g_name d) (split_head "@"%char email))) (g_sub d))
  end.

Definition validateDiscordToken (token : string) : result Profile :=
  d ← discord_me token;
  mret (mkProfile (or_else (d_email d) (d_id d +:+ "@discord.local"))
    (Some (or_else (d_global_name d) (or_else (d_username d) ("discord_" +:+ d_id d)))) (d_id d)).

Definition validateTwitchToken (token : string) : result Profile :=
  l ← twitch_users token;
  match l with
  | [] => Throw NotAString
  | d :: _ => mret (mkProfile (or_else (w_email d) (w_ident d +:+ "@twitch.local"))
                (Some (or_else (w_login d) ("twitch_" +:+ w_ident d))) (w_ident d))
  end.

Fixpoint social_loop (now : Z) (d : string → NewUser) (usernameBase : string) (attempt left : nat) : M AccountDB (option User) :=
  match left with
  | O => mret None
  | S left' =>
      candidate ← buildCandidateUsername usernameBase attempt;
      try_catch
        (user ← create_account now (d candidate); mret (Some user))
        (λ error,
         if isUniqueConstraintError error (Some "email") then throw EmailInUse
         else if isUniqueConstraintError error (Some "username") then social_loop now d usernameBase (S attempt) left'
         else throw error)
  end.

(** The account of a profile: by provider id, else by e-mail, else a new one. *)
Definition social_account (now : Z) (provider : string) (profile : Profile) : M AccountDB (option User) :=
  let normalizedEmail := normalizeEmail (p_email profile) in
  byProvider ← gets (λ db, hd_error (any_order (List.filter
    (λ u, bool_decide (u_provider u = Some provider) && bool_decide (u_providerId u = Some (p_providerId profile))) (users db))));
  match byProvider with
  | Some user => mret (Some user)
  | None =>
      byEmail ← gets (λ db, row_find u_email normalizedEmail (users db));
      match byEmail with
      | Some user =>
          user ← user_update now (u_id user) (u_with_provider now provider (p_providerId profile));
          mret (Some user)
      | None =>
          usernameBase ← buildUsernameBase normalizedEmail (p_username profile);
          social_loop now (λ candidate, mkNewUser normalizedEmail candidate "" None true (Some provider) (Some (p_providerId profile)))
            usernameBase 0 MAX_USERNAME_ATTEMPTS
      end
  end.

Definition authenticateSocial (now : Z) (provider : Provider) (token : string) : M AccountDB Session :=
  userProfile ← of_result match provider with
                          | google => validateGoogleToken token
                          | discord => validateDiscordToken token
                          | twitch => validateTwitchToken token
                          end;
  user ← social_account now (uppercase (provider_name provider)) userProfile;
  match user with
  | None => throw (HttpError 500 "Unable to create user from social login")
  | Some user =>
      tokens ← issueSessionTokens now user None None;
      mret (mkSession (mapUserToSafeUser user) tokens)
  end.
End social.

Definition createGuestSession (now : Z) : M AccountDB Session :=
  guestId ← draw randomUUID;
  let guestEmail := "guest_" +:+ guestId +:+ "@arenax.gg" in
  let guestUsername := "guest_" +:+ str_take 8 guestId in
  user ← create_account now (mkNewUser guestEmail guestUsername "" (Some "GUEST") false None None);
  tokens ← issueSessionTokens now user None None;
  mret (mkSession (mapUserToSafeUser user) tokens).

(** ** Verification of addresses and password reset *)

Definition find_verification (hash : string) : M AccountDB (option User) :=
  gets (λ db, hd_error (any_order (List.filter (λ u, bool_decide (u_verificationToken u = Some hash)) (users db)))).
Definition find_reset (hash : string) : M AccountDB (option User) :=
  gets (λ db, hd_error (any_order (List.filter (λ u, bool_decide (u_passwordResetToken u = Some hash)) (users db)))).

(** [!expires || expires.getTime() <= Date.now()] *)
Definition is_expired (now : Z) (expires : option Z) : bool :=
  match expires with Some e => bool_decide (e ≤ now) | None => true end.

Definition verifyEmail (now : Z) (token : string) : M AccountDB string :=
  found ← find_verification (toTokenHash token);
  match found with
  | None => throw (HttpError 400 "Invalid verification token")
  | Some user =>
      if is_expired now (u_verificationTokenExpires user) then throw (HttpError 400 "Verification token has expired")
      else if u_isVerified user then throw (HttpError 400 "Email already verified")
      else
        _ ← user_update now (u_id user) (u_with_verification now true None None);
        _ ← try_send (sendWelcomeEmail (u_email user) (u_username user));
        mret "Email verified successfully"
  end.

Definition resendVerificationEmail (now : Z) (email : string) : M AccountDB string :=
  let normalizedEmail := normalizeEmail email in
  found ← gets (λ db, row_find u_email normalizedEmail (users db));
  match found with
  | None => mret "If the email exists, a verification link has been sent"
  | Some user =>
      if u_isVerified user then mret "Email already verified" else
      bytes ← draw (randomBytes 32);
      let verificationToken := to_hex bytes in
      _ ← user_update now (u_id user)
            (λ u, u_with_verification now (u_isVerified u) (Some (toTokenHash verificationToken)) (Some (now + DAY_MS)) u);
      _ ← try_send (sendVerificationEmail normalizedEmail verificationToken);
      mret "If the email exists, a verification link has been sent"
  end.

Definition forgotPassword (now : Z) (email : string) : M AccountDB string :=
  let normalizedEmail := normalizeEmail email in
  found ← gets (λ db, row_find u_email normalizedEmail (users db));
  match found with
  | None => mret "If the email exists, a reset link has been sent"
  | Some user =>
      bytes ← draw (randomBytes 32);
      let resetToken := to_hex bytes in
      _ ← user_update now (u_id user)
            (λ u, u_with_reset now (u_passwordHash u) (Some (toTokenHash resetToken)) (Some (now + DAY_MS)) u);
      _ ← try_send (sendPasswordResetEmail normalizedEmail resetToken);
      mret "If the email exists, a reset link has been sent"
  end.

Definition resetPassword (now : Z) (token newPassword : string) : M AccountDB string :=
  found ← find_reset (toTokenHash token);
  match found with
  | None => throw (HttpError 400 "Invalid reset token")
  | Some user =>
      if is_expired now (u_passwordResetExpires user) then throw (HttpError 400 "Reset token has expired") else
      passwordHash ← draw (bcrypt_hash newPassword BCRYPT_ROUNDS);
      _ ← user_update now (u_id user) (u_with_reset now passwordHash None None);
      mret "Password reset successfully"
  end.
End auth.
