(* ===== verification/Sessions.v ===== *)
(** * The session machine: what refresh tokens are meant to do

    An abstract machine over the table of refresh tokens, with four kinds of
    step: a new family is opened, the active token of a family is replaced by a
    successor, tokens are revoked, and everything else.  Its invariant and what
    revocation means are proved here; [AuthInv.v] shows that the sign-in service
    only moves by these steps. *)

From stdpp Require Import prelude strings list relations.
From S2P Require Import Prelude JsText Prisma Crypto Json Accounts.

(** The tokens, the ids of the users, and the counters of the database and of
    the random source. *)
Record Sessions := mkSessions {
  ss_tokens : list RefreshToken;
  ss_users : list string;
  ss_serial : nat;
  ss_draws : nat;
}.

Definition active (t : RefreshToken) : Prop := t_revokedAt t = None.

Definition revoke_where (now : Z) (P : RefreshToken → bool) (l : list RefreshToken) : list RefreshToken :=
  (λ t, if P t then t_revoked now t else t) <$> l.

(** The active token [p] replaced by [t]. *)
Definition rotate_token (now : Z) (p t : RefreshToken) (l : list RefreshToken) : list RefreshToken :=
  row_update t_id (t_id p) (t_replaced now (t_id t)) (l ++ [t]).

Section machine.
Context `{Prisma} `{NodeRandom}.
Implicit Types (s : Sessions) (t p : RefreshToken).

(** A row as it is inserted. *)
Record fresh_token s t : Prop := {
  ft_id : t_id t = uuid (ss_serial s);
  ft_user : t_userId t ∈ ss_users s;
  ft_hash : t_tokenHash t ∉ t_tokenHash <$> ss_tokens s;
  ft_active : active t;
  ft_unreplaced : t_replacedByTokenId t = None;
}.

Inductive sess_step s : Sessions → Prop :=
| Sess_other us n d :
    ss_users s ⊆ us → (ss_serial s ≤ n)%nat → (ss_draws s ≤ d)%nat → sess_step s (mkSessions (ss_tokens s) us n d)
| Sess_open t d :
    fresh_token s t → t_familyId t = randomUUID (ss_draws s) → t_parentTokenId t = None → (ss_draws s < d)%nat →
    sess_step s (mkSessions (ss_tokens s ++ [t]) (ss_users s) (S (ss_serial s)) d)
| Sess_rotate now p t d :
    p ∈ ss_tokens s → active p → now < t_expiresAt p →
    fresh_token s t → t_familyId t = t_familyId p → t_userId t = t_userId p → t_parentTokenId t = Some (t_id p) →
    (ss_draws s ≤ d)%nat →
    sess_step s (mkSessions (rotate_token now p t (ss_tokens s)) (ss_users s) (S (ss_serial s)) d)
| Sess_revoke now P :
    sess_step s (mkSessions (revoke_where now P (ss_tokens s)) (ss_users s) (ss_serial s) (ss_draws s)).

(** ** The invariant *)

Record sess_wf s : Prop := {
  sw_ids : NoDup (t_id <$> ss_tokens s);
  sw_issued : Forall (issued (ss_serial s)) (t_id <$> ss_tokens s);
  sw_hashes : NoDup (t_tokenHash <$> ss_tokens s);
  sw_family : ∀ t, t ∈ ss_tokens s → ∃ k, (k < ss_draws s)%nat ∧ t_familyId t = randomUUID k;
  sw_owner : ∀ t, t ∈ ss_tokens s → t_userId t ∈ ss_users s;
  sw_one_user : ∀ t t', t ∈ ss_tokens s → t' ∈ ss_tokens s → t_familyId t = t_familyId t' → t_userId t = t_userId t';
  sw_one_active : ∀ t t', t ∈ ss_tokens s → t' ∈ ss_tokens s → t_familyId t = t_familyId t' → active t → active t' → t = t';
  sw_replaced : ∀ t j, t ∈ ss_tokens s → t_replacedByTokenId t = Some j →
    ¬ active t ∧
    ∃ t', t' ∈ ss_tokens s ∧ t_id t' = j ∧ t_familyId t' = t_familyId t ∧ t_parentTokenId t' = Some (t_id t);
}.

Lemma issued_le m n i : issued m i → (m ≤ n)%nat → issued n i.
Proof. intros (k & Hk & ->) Hmn. exists k. split; [lia|done]. Qed.

Lemma fresh_id s t : sess_wf s → fresh_token s t → t_id t ∉ t_id <$> ss_tokens s.
Proof.
  intros Hw [Hid _ _ _ _] Hin. destruct Hw. rewrite Forall_forall in sw_issued0.
  apply (not_issued (ss_serial s)). rewrite <- Hid. by apply sw_issued0.
Qed.

Lemma wf_other s us n d : sess_wf s → ss_users s ⊆ us → (ss_serial s ≤ n)%nat → (ss_draws s ≤ d)%nat →
  sess_wf (mkSessions (ss_tokens s) us n d).
Proof.
  intros [] Hu Hn Hd. split; simpl; try done.
  - eapply Forall_impl; [done|]. intros i Hi. by eapply issued_le.
  - intros t (k & ? & ?)%sw_family0. exists k. split; [lia|done].
  - intros t Ht. by apply Hu, sw_owner0.
Qed.

Lemma wf_open s t d : sess_wf s → fresh_token s t → t_familyId t = randomUUID (ss_draws s) → t_parentTokenId t = None →
  (ss_draws s < d)%nat → sess_wf (mkSessions (ss_tokens s ++ [t]) (ss_users s) (S (ss_serial s)) d).
Proof.
  intros Hw Hf Hfam Hpar Hd. pose proof (fresh_id s t Hw Hf) as Hid. destruct Hf, Hw.
  assert (∀ x, x ∈ ss_tokens s → t_familyId x ≠ t_familyId t) as Hne.
  { intros x (k & Hk & E)%sw_family0. rewrite E, Hfam. intros Hinj%(inj randomUUID). lia. }
  split; simpl; rewrite ?fmap_snoc.
  - by apply NoDup_snoc.
  - rewrite ft_id0. by apply issued_snoc.
  - by apply NoDup_snoc.
  - intros x [(k & ? & ?)%sw_family0 | ->]%elem_of_snoc; [exists k; split; [lia|done]|]. exists (ss_draws s). by split.
  - intros x [?%sw_owner0 | ->]%elem_of_snoc; done.
  - intros x y [Hx | ->]%elem_of_snoc [Hy | ->]%elem_of_snoc E; try done; [by apply sw_one_user0|by apply Hne in Hx|].
    by apply Hne in Hy.
  - intros x y [Hx | ->]%elem_of_snoc [Hy | ->]%elem_of_snoc E; try done; [by apply sw_one_active0|by apply Hne in Hx|].
    by apply Hne in Hy.
  - intros x j [Hx | ->]%elem_of_snoc Hj; [|congruence].
    destruct (sw_replaced0 x j Hx Hj) as (? & y & Hy & ?). split; [done|]. exists y. split; [|done].
    apply elem_of_snoc. by left.
Qed.

Lemma rotate_col {A} (col : RefreshToken → A) now p t l : (∀ i x, col (t_replaced now i x) = col x) →
  col <$> rotate_token now p t l = (col <$> l) ++ [col t].
Proof.
  intros Hc. unfold rotate_token, row_update. rewrite <- list_fmap_compose, <- fmap_snoc. apply list_fmap_ext.
  intros _ x _. simpl. by case_bool_decide.
Qed.

(** What is in the table after a rotation. *)
Lemma elem_of_rotate now p t l x : NoDup (t_id <$> l) → p ∈ l → t_id t ∉ t_id <$> l →
  x ∈ rotate_token now p t l ↔ x = t_replaced now (t_id t) p ∨ (x ∈ l ∧ t_id x ≠ t_id p) ∨ x = t.
Proof.
  intros Hnd Hp Hfresh. unfold rotate_token. rewrite elem_of_row_update.
  assert (t_id t ≠ t_id p) as Hne by (intros E; apply Hfresh; rewrite E; by apply list_elem_of_fmap_2).
  split.
  - intros (y & [Hy| ->]%elem_of_snoc & ->); case_bool_decide as E; try done; [|by right; left|by right; right].
    left. f_equal. by eapply NoDup_key_inj.
  - intros [->|[[Hx Hne']| ->]].
    + exists p. rewrite elem_of_snoc. split; [by left|]. by rewrite bool_decide_true.
    + exists x. rewrite elem_of_snoc. split; [by left|]. by rewrite bool_decide_false.
    + exists t. rewrite elem_of_snoc. split; [by right|]. by rewrite bool_decide_false.
Qed.

Lemma wf_rotate s now p t d : sess_wf s → p ∈ ss_tokens s → active p → fresh_token s t →
  t_familyId t = t_familyId p → t_userId t = t_userId p → t_parentTokenId t = Some (t_id p) → (ss_draws s ≤ d)%nat →
  sess_wf (mkSessions (rotate_token now p t (ss_tokens s)) (ss_users s) (S (ss_serial s)) d).
Proof.
  intros Hw Hp Ha Hf Hfam Huser Hpar Hd. pose proof (fresh_id s t Hw Hf) as Hid. destruct Hf, Hw.
  pose proof (λ x, elem_of_rotate now p t (ss_tokens s) x sw_ids0 Hp Hid) as Hel.
  assert (∀ x, x ∈ rotate_token now p t (ss_tokens s) → ∃ y, y ∈ ss_tokens s ∧ t_familyId y = t_familyId x ∧ t_userId y = t_userId x) as Hold.
  { intros x [->|[[Hx _]| ->]]%Hel; [by exists p|by exists x|]. exists p. split_and!; [done|by symmetry..]. }
  split; simpl; rewrite ?rotate_col by done.
  - by apply NoDup_snoc.
  - rewrite ft_id0. by apply issued_snoc.
  - by apply NoDup_snoc.
  - intros x (y & Hy & <- & _)%Hold. destruct (sw_family0 y Hy) as (k & ? & ?). exists k. split; [lia|done].
  - intros x (y & Hy & _ & <-)%Hold. by apply sw_owner0.
  - intros x x' (y & Hy & <- & <-)%Hold (y' & Hy' & <- & <-)%Hold E. by apply sw_one_user0.
  - intros x x' Hx Hx' E A A'. apply Hel in Hx as [->|[[Hx Hne]| ->]]; [done|..];
      apply Hel in Hx' as [->|[[Hx' Hne']| ->]]; try done.
    + by apply sw_one_active0.
    + destruct Hne. assert (x = p) as -> by (apply sw_one_active0; congruence || done). done.
    + destruct Hne'. assert (x' = p) as -> by (apply sw_one_active0; congruence || done). done.
  - intros x j Hx Hj.
    assert (∀ y, y ∈ ss_tokens s → ∃ y', y' ∈ rotate_token now p t (ss_tokens s) ∧ t_id y' = t_id y ∧
      t_familyId y' = t_familyId y ∧ t_parentTokenId y' = t_parentTokenId y) as Hnew.
    { intros y Hy. destruct (decide (t_id y = t_id p)) as [E|E].
      - assert (y = p) as -> by (by eapply (NoDup_key_inj t_id)). exists (t_replaced now (t_id t) p). rewrite Hel. by split; [left|].
      - exists y. rewrite Hel. split; [right; left|]; done. }
    apply Hel in Hx as [->|[[Hx Hne]| ->]]; [| |congruence].
    + injection Hj as <-. split; [done|]. exists t. rewrite Hel. split_and!; [by right; right|done|done|done].
    + destruct (sw_replaced0 x j Hx Hj) as (? & y & Hy & <- & <- & <-). split; [done|].
      destruct (Hnew y Hy) as (y' & ? & ? & ? & ?). exists y'. done.
Qed.

Lemma revoke_col {A} (col : RefreshToken → A) now P l : (∀ x, col (t_revoked now x) = col x) →
  col <$> revoke_where now P l = col <$> l.
Proof.
  intros Hc. unfold revoke_where. rewrite <- list_fmap_compose. apply list_fmap_ext. intros _ x _. simpl. by case_match.
Qed.

Lemma elem_of_revoke now P l x : x ∈ revoke_where now P l → ∃ y, y ∈ l ∧ x = if P y then t_revoked now y else y.
Proof. unfold revoke_where. rewrite list_elem_of_fmap. naive_solver. Qed.

Lemma wf_revoke s now P : sess_wf s →
  sess_wf (mkSessions (revoke_where now P (ss_tokens s)) (ss_users s) (ss_serial s) (ss_draws s)).
Proof.
  intros []. split; simpl; rewrite ?revoke_col by done; try done.
  - intros x (y & Hy & ->)%elem_of_revoke. destruct (P y); exact (sw_family0 y Hy).
  - intros x (y & Hy & ->)%elem_of_revoke. destruct (P y); exact (sw_owner0 y Hy).
  - intros x x' (y & Hy & ->)%elem_of_revoke (y' & Hy' & ->)%elem_of_revoke.
    destruct (P y), (P y'); intros E; exact (sw_one_user0 y y' Hy Hy' E).
  - intros x x' (y & Hy & ->)%elem_of_revoke (y' & Hy' & ->)%elem_of_revoke.
    destruct (P y), (P y'); intros E A A'; try done. by apply sw_one_active0.
  - intros x j (y & Hy & ->)%elem_of_revoke Hj.
    assert (t_replacedByTokenId y = Some j) as Hj' by (by destruct (P y)).
    destruct (sw_replaced0 y j Hy Hj') as (Hna & z & Hz & ? & ? & ?). split; [by destruct (P y)|].
    exists (if P z then t_revoked now z else z). split; [|by destruct (P z), (P y)].
    unfold revoke_where. apply list_elem_of_fmap. by exists z.
Qed.

Lemma sess_step_wf s s' : sess_step s s' → sess_wf s → sess_wf s'.
Proof.
  intros [us n d|t d|now p t d|now P] Hw; [by apply wf_other|by apply wf_open|by eapply wf_rotate|by apply wf_revoke].
Qed.

Lemma steps_wf s s' : rtc sess_step s s' → sess_wf s → sess_wf s'.
Proof. induction 1; eauto using sess_step_wf. Qed.

(** ** What a token becomes *)

(** A row changes only by being revoked or replaced, once and for all. *)
Record later (t t' : RefreshToken) : Prop := {
  la_id : t_id t' = t_id t;
  la_hash : t_tokenHash t' = t_tokenHash t;
  la_family : t_familyId t' = t_familyId t;
  la_user : t_userId t' = t_userId t;
  la_expires : t_expiresAt t' = t_expiresAt t;
  la_revoked : ¬ active t → ¬ active t';
  la_replaced : ∀ j, ¬ active t → t_replacedByTokenId t = Some j → t_replacedByTokenId t' = Some j;
}.

#[export] Instance later_preorder : PreOrder later.
Proof.
  split; [intros t; by split|]. intros t1 t2 t3 [] []. split; try congruence; eauto.
Qed.

Lemma step_later s s' t : sess_step s s' → sess_wf s → t ∈ ss_tokens s → ∃ t', t' ∈ ss_tokens s' ∧ later t t'.
Proof.
  intros [us n d|x d Hf|now p x d Hp Ha _ Hf|now P] Hw Ht; simpl.
  - by exists t.
  - exists t. rewrite elem_of_snoc. by split; [left|].
  - pose proof (λ y, elem_of_rotate now p x (ss_tokens s) y (sw_ids _ Hw) Hp (fresh_id s x Hw Hf)) as Hel.
    destruct (decide (t_id t = t_id p)) as [E|E].
    + assert (t = p) as -> by (by eapply (NoDup_key_inj t_id); [apply sw_ids|..]).
      exists (t_replaced now (t_id x) p). rewrite Hel. split; [by left|]. by split.
    + exists t. rewrite Hel. by split; [right; left|].
  - exists (if P t then t_revoked now t else t). split; [|by destruct (P t)].
    unfold revoke_where. apply list_elem_of_fmap. by exists t.
Qed.

Lemma steps_later s s' t : rtc sess_step s s' → sess_wf s → t ∈ ss_tokens s → ∃ t', t' ∈ ss_tokens s' ∧ later t t'.
Proof.
  intros Hs. revert t. induction Hs as [s|s1 s2 s3 Hs _ IH]; intros t Hw Ht; [by exists t|].
  destruct (step_later _ _ _ Hs Hw Ht) as (t2 & Ht2 & L2).
  destruct (IH t2 (sess_step_wf _ _ Hs Hw) Ht2) as (t3 & Ht3 & L3). exists t3. split; [done|]. by etrans.
Qed.

(** ** Families *)

(** A family that has been opened and has no active token left. *)
Definition dead_family (f : string) s : Prop :=
  (∃ t, t ∈ ss_tokens s ∧ t_familyId t = f) ∧ ∀ t, t ∈ ss_tokens s → t_familyId t = f → ¬ active t.

Lemma step_dead f s s' : sess_step s s' → sess_wf s → dead_family f s → dead_family f s'.
Proof.
  intros Hs Hw [(t0 & Ht0 & Hf0) Hdead]. split.
  { destruct (step_later _ _ _ Hs Hw Ht0) as (t' & Ht' & L). exists t'. split; [done|]. by rewrite (la_family _ _ L). }
  destruct Hs as [us n d|x d Hf Hfam|now p x d Hp Ha _ Hf Hfam|now P]; simpl; [done|..].
  - intros t [Ht| ->]%elem_of_snoc E; [by apply (Hdead t)|]. exfalso.
    destruct (sw_family _ Hw t0 Ht0) as (k & Hk & Hk'). rewrite Hk', <- E, Hfam in Hf0.
    apply (inj randomUUID) in Hf0. lia.
  - intros t [->|[[Ht _]| ->]]%(elem_of_rotate _ _ _ _ _ (sw_ids _ Hw) Hp (fresh_id s x Hw Hf)) E; [done|by apply (Hdead t)|].
    destruct (Hdead p Hp); [congruence|done].
  - intros t (y & Hy & ->)%elem_of_revoke E. destruct (P y); [done|]. by apply (Hdead y).
Qed.

Lemma steps_dead f s s' : rtc sess_step s s' → sess_wf s → dead_family f s → dead_family f s'.
Proof. induction 1; eauto using sess_step_wf, step_dead. Qed.
End machine.
