(* ===== verification/AuthInv.v ===== *)
(** * The sign-in service moves by session steps

    Accounts stay well formed (unique ids, addresses and names, names of the
    right form), and every call of the service changes the refresh tokens only
    by steps of the session machine of [Sessions.v], whether it returns or
    throws. *)

From Stdlib Require Import Ascii.
From stdpp Require Import prelude strings list pretty relations.
From S2P Require Import Prelude JsText JsBuffer Prisma Crypto AuthConfig Json JsonParse Encryption Accounts StellarWallet Auth Sessions.

(** ** Users *)

(** A user name as the service makes them. *)
Definition username_ok (s : string) : Prop :=
  (MIN_USERNAME_LENGTH ≤ String.length s ≤ MAX_USERNAME_LENGTH)%nat ∧ all_chars name_char s.

Definition email_ok (s : string) : Prop := normalizeEmail s = s.

Lemma normalizeEmail_ok s : email_ok (normalizeEmail s).
Proof. unfold email_ok, normalizeEmail. by rewrite trim_lowercase, trim_idem, lowercase_idem. Qed.

(** Texts without capitals and spaces are already normal. *)
Definition settled (c : ascii) : bool := bool_decide (lower c = c) && negb (js_space c).

Lemma settled_email s : all_chars settled s → email_ok s.
Proof.
  intros Hs. unfold email_ok, normalizeEmail.
  assert (∀ s, all_chars settled s → trim_left s = s ∧ trim_right s = s ∧ lowercase s = s) as Hall.
  { clear. induction s as [|c s IH]; [done|]. cbn [all_chars]. rewrite andb_True. intros [Hc Hs].
    unfold settled in Hc. apply andb_True in Hc as [Hl%bool_decide_unpack Hsp].
    destruct (js_space c) eqn:E; [done|]. destruct (IH Hs) as (_ & Hr & Hlow).
    cbn [trim_left trim_right blank lowercase]. rewrite E. cbn [andb]. by rewrite Hr, Hlow, Hl. }
  destruct (Hall s Hs) as (E1 & E2 & E3). unfold trim. by rewrite E1, E2, E3.
Qed.

Lemma uuid_char_settled c : uuid_char c → settled c.
Proof. destruct c as [[] [] [] [] [] [] [] []]; vm_compute; intros Hc; try done; by destruct Hc. Qed.

Lemma hex_char_name c : hex_char c → name_char c.
Proof. destruct c as [[] [] [] [] [] [] [] []]; vm_compute; intros Hc; try done; by destruct Hc. Qed.

Lemma is_digit_name c : is_digit c → name_char c.
Proof. intros Hc. unfold name_char. rewrite !orb_True. by left; right. Qed.

Lemma four_digits_text r : 0 ≤ r < 2 ^ 53 →
  String.length (pretty (four_digits r)) = 4%nat ∧ all_chars name_char (pretty (four_digits r)).
Proof.
  intros Hr%four_digits_range. destruct (four_digits r) as [|p|p]; try lia.
  change (pretty (Z.pos p)) with (pretty (N.pos p)). split; [apply (pretty_length _ 3); simpl; lia|].
  eapply all_chars_mono; [apply is_digit_name|apply pretty_N_digits].
Qed.

Lemma sanitizeUsername_chars s :
  all_chars name_char (sanitizeUsername s) ∧ (String.length (sanitizeUsername s) ≤ MAX_USERNAME_LENGTH)%nat.
Proof. unfold sanitizeUsername. split; [auto with arenax|]. rewrite length_str_take. lia. Qed.

Lemma username_ok_suffix base suffix : username_ok base → String.length suffix = 4%nat → all_chars name_char suffix →
  username_ok (str_take (MAX_USERNAME_LENGTH - String.length suffix) base +:+ suffix).
Proof.
  unfold username_ok. intros [Hlen Hb] Hl Hs. rewrite length_app_s, length_str_take, Hl, all_chars_app, andb_True.
  unfold MIN_USERNAME_LENGTH, MAX_USERNAME_LENGTH in *. split; [lia|]. auto with arenax.
Qed.

Section inv.
Context `{Prisma} `{Sha256} `{Bcrypt} `{JsonWebToken} `{NodeCipher} `{NodeRandom} `{JsNumber} `{StellarSdk} `{Mailer}.
Context (enc : EncryptionService) (cfg : AuthConfig).
Implicit Types (db : AccountDB).

(** Two rows with the same pending verification or reset token. *)
Definition same_link (u v : User) : Prop :=
  (∃ h, u_verificationToken u = Some h ∧ u_verificationToken v = Some h) ∨
  (∃ h, u_passwordResetToken u = Some h ∧ u_passwordResetToken v = Some h).

Record users_wf db : Prop := {
  uw_ids : NoDup (u_id <$> users db);
  uw_issued : Forall (issued (serial db)) (u_id <$> users db);
  uw_emails : NoDup (u_email <$> users db);
  uw_names : NoDup (u_username <$> users db);
  uw_types : Forall (λ u, email_ok (u_email u) ∧ username_ok (u_username u)) (users db);
  uw_links : ∀ u v, u ∈ users db → v ∈ users db → same_link u v → u_id u = u_id v;
}.

Definition sessions db : Sessions := mkSessions (refreshTokens db) (u_id <$> users db) (serial db) (draws db).

Definition auth_wf db : Prop := users_wf db ∧ sess_wf (sessions db).

(** To a well-formed state by session steps. *)
Definition sess_move db db' : Prop := sess_step (sessions db) (sessions db').
Definition evolves db db' : Prop := auth_wf db' ∧ rtc sess_move db db'.

Lemma evolves_steps db db' : evolves db db' → rtc sess_step (sessions db) (sessions db').
Proof. intros [_ Hr]. by eapply (rtc_congruence sessions); [|exact Hr]. Qed.

Lemma evolves_refl db : auth_wf db → evolves db db.
Proof. by split. Qed.

Lemma evolves_step db db' : auth_wf db → users_wf db' → sess_step (sessions db) (sessions db') → evolves db db'.
Proof. intros Hw Hu Hs. split; [split; [done|]|by apply rtc_once]. destruct Hw. by eapply sess_step_wf. Qed.

(** Whether it returns or throws, the computation evolves the state. *)
Notation safe := (guarded auth_wf sess_move).

(** A step that leaves the tokens alone. *)
Lemma evolves_other db db' : auth_wf db → users_wf db' → refreshTokens db' = refreshTokens db → (u_id <$> users db) ⊆ (u_id <$> users db') →
  (serial db ≤ serial db')%nat → (draws db ≤ draws db')%nat → evolves db db'.
Proof.
  intros Hw Hu Ht Hsub Hs Hd. apply (evolves_step _ _ Hw); [done|].
  replace (sessions db') with (mkSessions (ss_tokens (sessions db)) (u_id <$> users db') (serial db') (draws db'))
    by (unfold sessions; simpl; by rewrite Ht). by constructor.
Qed.

Lemma users_wf_frame db db' : users_wf db → users db' = users db → (serial db ≤ serial db')%nat → users_wf db'.
Proof.
  intros [] Hu Hs. split; rewrite ?Hu; try done. eapply Forall_impl; [done|]. intros i Hi. by eapply issued_le.
Qed.

(** Anything that touches neither users nor tokens. *)
Lemma evolves_same db db' : auth_wf db → users db' = users db → refreshTokens db' = refreshTokens db →
  (serial db ≤ serial db')%nat → (draws db ≤ draws db')%nat → evolves db db'.
Proof.
  intros Hw Hu Ht Hs Hd. apply (evolves_other _ _ Hw); [by eapply users_wf_frame; [apply Hw|..]|done|by rewrite Hu|done|done].
Qed.

Lemma user_conflict_None l u : user_conflict l u = None →
  ∀ v, v ∈ l → u_id v ≠ u_id u → u_email v ≠ u_email u ∧ u_username v ≠ u_username u ∧ ¬ same_link v u.
Proof.
  unfold user_conflict. intros Hc v Hv Hne.
  assert (v ∈ List.filter (λ v, negb (bool_decide (u_id v = u_id u))) l) as Hin.
  { apply elem_of_bfilter. split; [|done]. by rewrite bool_decide_false. }
  set (others := List.filter _ l) in *.
  assert (∀ (col : User → option string) h, taken col others u = false → col v = Some h → col u = Some h → False) as Htaken.
  { intros col h Ht Ev Eu. unfold taken in Ht. rewrite Eu in Ht. apply bool_decide_eq_false in Ht.
    apply Ht. rewrite <- Ev. by apply list_elem_of_fmap_2. }
  case_bool_decide as He; [done|]. case_bool_decide as Hn; [done|].
  destruct (taken u_walletAddress others u); [done|]. destruct (taken u_verificationToken others u) eqn:Hver; [done|].
  destruct (taken u_passwordResetToken others u) eqn:Hres; [done|]. split_and!.
  - intros E. apply He. rewrite <- E. by apply list_elem_of_fmap_2.
  - intros E. apply Hn. rewrite <- E. by apply list_elem_of_fmap_2.
  - intros [(h & ? & ?)|(h & ? & ?)]; [by apply (Htaken u_verificationToken h)|by apply (Htaken u_passwordResetToken h)].
Qed.

Lemma user_create_wf now d : email_ok (n_email d) → username_ok (n_username d) → safe (user_create now d).
Proof.
  intros He Hn db Hw. unfold user_create. m_step. m_step. set (u := mkUser _ _ _ _ _ _ _ _ _ _ _ _ _ _ _ _ _ _).
  destruct (user_conflict (users db) u) eqn:Hc; [m_step; by apply evolves_refl|]. m_step. m_step. m_step.
  pose proof (proj1 Hw) as []. assert (u_id u ∉ u_id <$> users db) as Hfresh.
  { intros Hin. rewrite Forall_forall in uw_issued0. exact (not_issued _ (uw_issued0 _ Hin)). }
  assert (∀ v, v ∈ users db → u_email v ≠ u_email u ∧ u_username v ≠ u_username u) as Hno.
  { intros v Hv. edestruct (user_conflict_None _ _ Hc v Hv) as (? & ? & _); [|done]. intros E. apply Hfresh. rewrite <- E. by apply list_elem_of_fmap_2. }
  apply (evolves_other _ _ Hw); simpl; try done; try lia; [|rewrite fmap_app; set_solver].
  split; simpl; rewrite ?fmap_snoc.
  - by apply NoDup_snoc.
  - by apply issued_snoc.
  - apply NoDup_snoc; [done|]. intros (v & E & Hv)%list_elem_of_fmap. by destruct (Hno v Hv) as [[] _].
  - apply NoDup_snoc; [done|]. intros (v & E & Hv)%list_elem_of_fmap. by destruct (Hno v Hv) as [_ []].
  - apply Forall_app. split; [done|]. by apply Forall_singleton.
  - intros v w [Hv| ->]%elem_of_snoc [Hv'| ->]%elem_of_snoc Hl; [by apply uw_links0| | |done];
      by destruct Hl as [(h & ? & ?)|(h & ? & ?)].
Qed.

(** An update that changes neither the id nor the names. *)
Definition same_identity (f : User → User) : Prop :=
  ∀ u, u_id (f u) = u_id u ∧ u_email (f u) = u_email u ∧ u_username (f u) = u_username u.

Lemma row_update_col {A} (col : User → A) i f l : (∀ u, col (f u) = col u) → col <$> row_update u_id i f l = col <$> l.
Proof.
  intros Hf. unfold row_update. rewrite <- list_fmap_compose. apply list_fmap_ext. intros _ u _. simpl. by case_bool_decide.
Qed.

Lemma user_update_wf now i f : same_identity f → safe (user_update now i f).
Proof.
  intros Hf db Hw. unfold user_update. m_step. m_step.
  destruct (row_find u_id i (users db)) as [u|] eqn:Hrow; [|m_step; by apply evolves_refl].
  destruct (user_conflict _ _) eqn:Hc; [m_step; by apply evolves_refl|]. m_step. m_step. m_step. pose proof (proj1 Hw) as [].
  apply (evolves_other _ _ Hw); simpl; try done; [|rewrite row_update_col by apply Hf; set_solver].
  split; simpl; rewrite ?(row_update_col u_id), ?(row_update_col u_email), ?(row_update_col u_username) by apply Hf; try done.
  - apply Forall_row_update; [|done]. intros v _ Hv. by destruct (Hf v) as (_ & -> & ->).
  - apply row_find_Some in Hrow as [Hu Hid].
    assert (∀ v w, v ∈ users db → w ∈ users db → u_id v = i → u_id w ≠ i → ¬ same_link w (f v)) as Hno.
    { intros v w Hv Hw' Ev Ew. assert (v = u) as -> by (eapply (NoDup_key_inj u_id); [done..|congruence]).
      apply (user_conflict_None _ _ Hc w Hw'). destruct (Hf u) as [-> _]. congruence. }
    assert (∀ v w, same_link v w → same_link w v) as Hsym by (intros v w [(h & ? & ?)|(h & ? & ?)]; [left|right]; by exists h).
    intros x y (x0 & Hx & ->)%elem_of_row_update (y0 & Hy & ->)%elem_of_row_update.
    repeat case_bool_decide; intros Hl.
    + destruct (Hf x0) as [-> _], (Hf y0) as [-> _]. congruence.
    + exfalso. by apply (Hno x0 y0), Hsym.
    + exfalso. by apply (Hno y0 x0).
    + by apply uw_links0.
Qed.

(** ** The other tables *)

Lemma draw_wf {A} (f : nat → A) : safe (draw f).
Proof. intros db Hw. unfold draw. do 5 m_step. apply evolves_same; simpl; try done; lia. Qed.

Lemma of_result_wf {A} (r : result A) : safe (of_result r).
Proof. destruct r; [apply guarded_ret|apply guarded_throw]. Qed.

Lemma userWallet_create_wf now u pk sk v : safe (userWallet_create now u pk sk v).
Proof.
  intros db Hw. unfold userWallet_create. m_step. m_step.
  do 3 (case_bool_decide; [try (m_step; by apply evolves_refl)|]); [|m_step; by apply evolves_refl]. do 3 m_step. apply evolves_same; simpl; try done; lia.
Qed.

Lemma registerUserWallet_wf now u : safe (registerUserWallet enc now u).
Proof.
  unfold registerUserWallet, getWalletByUserId. apply guarded_bind; [apply guarded_gets|]. intros [w|]; [apply guarded_ret|].
  apply guarded_bind; [apply draw_wf|intros kp]. apply guarded_bind; [apply draw_wf|intros n].
  apply guarded_bind; [apply of_result_wf|intros data]. apply guarded_bind; [apply userWallet_create_wf|intros w].
  apply guarded_bind; [by apply user_update_wf|intros u']. apply guarded_ret.
Qed.

Lemma sendEmail_wf e : safe (sendEmail e).
Proof.
  unfold sendEmail. apply guarded_bind; [apply draw_wf|]. intros [err|]; [apply guarded_throw|].
  intros db Hw. m_step. apply evolves_same; simpl; try done; lia.
Qed.

Lemma try_send_wf m : safe m → safe (try_send m).
Proof. intros Hm. apply guarded_try; [done|]. intros e. apply guarded_ret. Qed.

Lemma create_account_wf now d : email_ok (n_email d) → username_ok (n_username d) → safe (create_account enc now d).
Proof.
  intros He Hn. unfold create_account. apply guarded_transaction. apply guarded_bind; [by apply user_create_wf|].
  intros u. apply guarded_bind; [apply registerUserWallet_wf|]. intros w. apply guarded_ret.
Qed.

(** ** Names *)

Lemma buildUsernameBase_wf email name : safe (buildUsernameBase email name).
Proof.
  unfold buildUsernameBase. destruct (truthy_str name) as [n|]; case_bool_decide;
    [apply guarded_throw|apply guarded_ret|apply guarded_ret|].
  apply guarded_bind; [apply draw_wf|]. intros r. apply guarded_ret.
Qed.

Lemma buildUsernameBase_ok email name db : post (buildUsernameBase email name) db (λ _ base, username_ok base) (λ _ _, True).
Proof.
  unfold buildUsernameBase. destruct (truthy_str name) as [n|].
  - pose proof (sanitizeUsername_chars n) as []. case_bool_decide as Hlen; m_step; [done|]. unfold username_ok. split; [lia|done].
  - cbv zeta. set (local := or_else _ _). pose proof (sanitizeUsername_chars local) as [].
    case_bool_decide as Hlen; [by m_step|]. m_step. apply post_draw. m_step.
    destruct (four_digits_text _ (math_random_range (draws db))) as [Hl Hc].
    split; [rewrite length_app_s, Hl; unfold MIN_USERNAME_LENGTH, MAX_USERNAME_LENGTH; simpl; lia|].
    rewrite all_chars_app, andb_True. by split; [vm_compute|].
Qed.

Lemma buildCandidateUsername_wf base attempt : safe (buildCandidateUsername base attempt).
Proof.
  destruct attempt; [apply guarded_ret|]. apply guarded_bind; [apply draw_wf|]. intros r. apply guarded_ret.
Qed.

Lemma buildCandidateUsername_ok base attempt db : username_ok base →
  post (buildCandidateUsername base attempt) db (λ _ c, username_ok c) (λ _ _, True).
Proof.
  intros Hb. unfold buildCandidateUsername. destruct attempt as [|k]; [by m_step|]. m_step. apply post_draw. m_step.
  destruct (four_digits_text _ (math_random_range (draws db))) as [Hl Hc]. by apply username_ok_suffix.
Qed.
End inv.

Notation safe := (guarded auth_wf sess_move).
