(* ===== verification/AuthSpec.v ===== *)
(** * What the sign-in service guarantees

    The effect of issuing tokens, the invariant over all runs of calls, the
    behaviour of refresh, logout, verification and reset, and what revocation
    means for the rest of a run. *)

From Stdlib Require Import Ascii.
From stdpp Require Import prelude strings list pretty relations.
From S2P Require Import Prelude JsText JsBuffer Prisma Crypto AuthConfig Json JsonParse Encryption Accounts StellarWallet Auth Sessions AuthInv.

Section spec.
Context `{Prisma} `{Sha256} `{Bcrypt} `{JsonWebToken} `{NodeCipher} `{NodeRandom} `{JsNumber} `{StellarSdk} `{Mailer} `{OAuth}.
Context (enc : EncryptionService) (cfg : AuthConfig).
Implicit Types (db : AccountDB).

(** ** Issuing tokens *)

(** The row inserted for a token. *)
Definition issued_row db (now : Z) (user : User) (family : string) (parent : option string) (raw : string) : RefreshToken :=
  mkToken (uuid (serial db)) (u_id user) family (toTokenHash raw) (now + refreshTokenTtlMs cfg) None parent None
    (db_now (serial db)) now.

Definition link_parent (now : Z) (parent : option string) (t : RefreshToken) (l : list RefreshToken) : list RefreshToken :=
  match truthy_str parent with Some p => row_update t_id p (t_replaced now (t_id t)) l | None => l end.

(** The state after tokens were issued. *)
Definition issued_state db (now : Z) (user : User) (family parent : option string) (raw : string) db' : Prop :=
  ∃ fam d, fam = default (randomUUID (draws db)) (truthy_str family) ∧ (draws db < d)%nat ∧
    toTokenHash raw ∉ t_tokenHash <$> refreshTokens db ∧ u_id user ∈ u_id <$> users db ∧
    db' = mkADB (users db)
      (link_parent now parent (issued_row db now user fam parent raw) (refreshTokens db ++ [issued_row db now user fam parent raw]))
      (userWallets db) (keyAudits db) (challenges db) (outbox db) (S (serial db)) d.

(** Why a token row may be refused. *)
Definition issue_error db (user : User) (parent : option string) (e : exn) : Prop :=
  e = UniqueConstraint ["tokenHash"] ∨ (e = ForeignKeyViolation ∧ u_id user ∉ u_id <$> users db) ∨
  (e = RecordNotFound ∧ ∃ p, truthy_str parent = Some p ∧ p ∉ t_id <$> refreshTokens db).

(** Tokens are issued as described, or nothing happens. *)
Lemma issue_spec now user family parent db :
  post (issueSessionTokens cfg now user family parent) db
    (λ db' tk, issued_state db now user family parent (refreshToken tk) db' ∧ accessToken tk = createAccessToken cfg now user)
    (λ db' e, db' = db ∧ issue_error db user parent e).
Proof.
  unfold issueSessionTokens. m_step. m_step.
  assert (∀ fam d db0, db0 = mkADB (users db) (refreshTokens db) (userWallets db) (keyAudits db) (challenges db) (outbox db) (serial db) d →
    fam = default (randomUUID (draws db)) (truthy_str family) → (draws db ≤ d)%nat →
    post ('(token, recordId) ← createRefreshTokenRecord cfg now (u_id user) fam parent;
          _ ← match truthy_str parent with
              | Some p => refreshToken_update p (t_replaced now recordId)
              | None => mret tt
              end;
          mret token) db0
      (λ db' raw, issued_state db now user family parent raw db') (λ _ e, db = db ∧ issue_error db user parent e)) as Hrest.
  { intros fam d db0 -> Hfam Hd. unfold createRefreshTokenRecord, generateRefreshToken, refreshToken_create.
    repeat a_step. simpl.
    case_bool_decide as Hh; [m_step; split; [done|by left]|].
    case_bool_decide as Hu; [|m_step; split; [done|by right; left]]. repeat m_step. simpl.
    set (raw := to_hex _) in *. destruct (truthy_str parent) as [p|] eqn:Hp.
    - unfold refreshToken_update. m_step. m_step. simpl. destruct (row_find _ _ _) eqn:Hrow.
      2:{ m_step. split; [done|]. right. right. split; [done|]. exists p. split; [done|].
          apply row_find_None in Hrow. intros Hin. apply Hrow. rewrite fmap_app. set_solver. }
      m_step. m_step.
      exists fam, (S d). split_and!; [done|lia|done|done|]. unfold link_parent. by rewrite Hp.
    - m_step. m_step. exists fam, (S d). split_and!; [done|lia|done|done|]. unfold link_parent. by rewrite Hp. }
  m_step. destruct (truthy_str family) as [f|] eqn:Hf.
  - m_step. eapply post_mono; [eapply (Hrest f (draws db) db); [by destruct db|done|lia]| |done].
    intros db' raw Hs. m_step. split; [exact Hs|done].
  - apply post_draw. eapply post_mono; [eapply (Hrest (randomUUID (draws db)) (S (draws db))); [by destruct db|done|lia]| |done].
    intros db' raw Hs. m_step. split; [exact Hs|done].
Qed.

Lemma users_wf_issue db user fam d l : auth_wf db →
  users_wf (mkADB (users db) l (userWallets db) (keyAudits db) (challenges db) (outbox db) (S (serial db)) d) ∧
  (u_id user ∈ u_id <$> users db → ∀ now parent raw, toTokenHash raw ∉ t_tokenHash <$> refreshTokens db →
   fresh_token (sessions db) (issued_row db now user fam parent raw)).
Proof.
  intros [Hu _]. split; [eapply users_wf_frame; simpl; try done; lia|]. intros Hin now parent raw Hh. by split.
Qed.

(** Opening a session. *)
Lemma issue_new_wf now user : safe (issueSessionTokens cfg now user None None).
Proof.
  intros db Hw. eapply post_mono; [apply issue_spec| |intros db' e [-> _]; by apply evolves_refl].
  intros db' tk [(fam & d & -> & Hd & Hh & Hu & ->) _]. simpl in *. unfold link_parent; simpl.
  edestruct (users_wf_issue db user (randomUUID (draws db)) d) as [Hwf Hf]; [done|].
  apply (evolves_step _ _ Hw); [exact Hwf|]. apply (Sess_open (sessions db)); [by apply Hf|done..].
Qed.

(** Replacing the active token of a session. *)
Lemma issue_rotate_evolves now db stored user db' raw : auth_wf db → stored ∈ refreshTokens db → active stored →
  now < t_expiresAt stored → u_id user = t_userId stored →
  issued_state db now user (Some (t_familyId stored)) (Some (t_id stored)) raw db' → evolves db db'.
Proof.
  intros Hw Hs Ha He Huser (fam & d & -> & Hd & Hh & Hu & ->).
  assert (truthy_str (Some (t_familyId stored)) = Some (t_familyId stored)) as ->.
  { destruct (sw_family _ (proj2 Hw) stored Hs) as (k & _ & ->). simpl. rewrite bool_decide_false; [done|].
    intros E. destruct (randomUUID_head k) as [_ Hlen]. rewrite E in Hlen. simpl in Hlen. lia. }
  assert (truthy_str (Some (t_id stored)) = Some (t_id stored)) as Hid.
  { assert (issued (serial db) (t_id stored)) as (k & _ & E).
    { pose proof (sw_issued _ (proj2 Hw)) as Hi. rewrite Forall_forall in Hi. by apply Hi, list_elem_of_fmap_2. }
    simpl. rewrite bool_decide_false; [done|]. rewrite E. apply uuid_nonempty. }
  simpl default. unfold link_parent. rewrite Hid.
  edestruct (users_wf_issue db user (t_familyId stored) d) as [Hwf Hf]; [done|].
  apply (evolves_step _ _ Hw); [exact Hwf|].
  apply (Sess_rotate (sessions db) now stored); [done..|by apply Hf|done|done|done|simpl; lia].
Qed.

Lemma refreshToken_update_wf i now : safe (refreshToken_update i (t_revoked now)).
Proof.
  intros db Hw. unfold refreshToken_update. m_step. m_step. destruct (row_find _ _ _); [|m_step; by apply evolves_refl].
  m_step. apply (evolves_step _ _ Hw); [destruct Hw; by eapply users_wf_frame|]. apply (Sess_revoke (sessions db)).
Qed.

Lemma revokeTokenFamily_wf now f : safe (revokeTokenFamily now f).
Proof.
  intros db Hw. unfold revokeTokenFamily. m_step. apply (evolves_step _ _ Hw); [destruct Hw; by eapply users_wf_frame|].
  apply (Sess_revoke (sessions db)).
Qed.

(** ** Every call *)

Lemma set_verification_wf now i v tok e : safe (user_update now i (λ u, u_with_verification now (v u) tok e u)).
Proof. by apply user_update_wf. Qed.

Lemma finish_registration_wf now email u : safe (finish_registration cfg now email u).
Proof.
  unfold finish_registration. apply guarded_bind; [apply draw_wf|intros bytes].
  apply guarded_bind; [apply set_verification_wf|intros u'].
  apply guarded_bind; [apply try_send_wf, sendEmail_wf|intros _]. apply guarded_bind; [apply issue_new_wf|intros tk]. apply guarded_ret.
Qed.

Lemma register_loop_wf now email hash base attempt left : email_ok email → username_ok base →
  safe (register_loop enc cfg now email hash base attempt left).
Proof.
  intros He Hb. revert attempt. induction left as [|left IH]; intros attempt; [apply guarded_throw|]. cbn [register_loop].
  apply (guarded_bind_post _ _ username_ok); [apply buildCandidateUsername_wf|intros; by apply buildCandidateUsername_ok|].
  intros c Hc. apply guarded_try.
  - apply guarded_bind; [by apply create_account_wf|]. intros u. apply finish_registration_wf.
  - intros e. repeat case_match; [apply guarded_throw|apply IH|apply guarded_throw].
Qed.

Lemma registerUser_wf now email pw name : safe (registerUser enc cfg now email pw name).
Proof.
  unfold registerUser. apply guarded_bind; [apply guarded_gets|]. intros [u|]; [apply guarded_throw|].
  apply guarded_bind; [apply draw_wf|intros hash].
  apply (guarded_bind_post _ _ username_ok); [apply buildUsernameBase_wf|intros; apply buildUsernameBase_ok|].
  intros base Hb. apply register_loop_wf; [apply normalizeEmail_ok|done].
Qed.

Lemma loginUser_wf now email pw : safe (loginUser cfg now email pw).
Proof.
  unfold loginUser. apply guarded_bind; [apply guarded_gets|]. intros [u|]; [|apply guarded_throw]. case_match; [apply guarded_throw|].
  apply guarded_bind; [apply issue_new_wf|]. intros tk. apply guarded_ret.
Qed.

(** What [find_token] found is in the tables. *)
Definition stored_in db (token : string) (t : RefreshToken) (u : User) : Prop :=
  t ∈ refreshTokens db ∧ t_tokenHash t = toTokenHash token ∧ u ∈ users db ∧ u_id u = t_userId t.

Lemma find_token_spec token db :
  post (find_token token) db (λ db' r, db' = db ∧ ∀ t u, r = Some (t, u) → stored_in db token t u) (λ _ _, False).
Proof.
  unfold find_token. m_step. split; [done|]. intros t u E.
  destruct (row_find t_tokenHash _ _) as [t'|] eqn:Ht; [|done]. simpl in E.
  destruct (row_find u_id _ _) as [u'|] eqn:Hu; [|done]. simplify_eq/=.
  apply row_find_Some in Ht as [? ?], Hu as [? ?]. done.
Qed.

Lemma refreshSession_wf now token : safe (refreshSession cfg now token).
Proof.
  intros db Hw. unfold refreshSession. m_step. eapply post_mono; [apply find_token_spec| |done].
  intros db' r [-> Hr]. destruct r as [[t u]|]; simpl; [|m_step; by apply evolves_refl].
  destruct (Hr t u eq_refl) as (Ht & _ & Hu & Hid). case_match; [m_step; by apply evolves_refl|].
  destruct (t_revokedAt t) eqn:Hrev.
  - destruct (truthy_str _); [|m_step; by apply evolves_refl].
    apply (guarded_bind _ _ _ _ (revokeTokenFamily_wf _ _)); [|done]. intros _. apply guarded_throw.
  - case_bool_decide as Hexp.
    + apply (guarded_bind _ _ _ _ (refreshToken_update_wf _ _)); [|done]. intros _. apply guarded_throw.
    + m_step. eapply post_mono; [apply issue_spec| |intros db' e [-> _]; by apply evolves_refl].
      intros db' tk [Hs _]. m_step. apply (issue_rotate_evolves now db t u db' (refreshToken tk)); try done; lia.
Qed.

Lemma logoutUser_wf now token : safe (logoutUser now token).
Proof.
  unfold logoutUser. apply guarded_bind; [apply guarded_gets|]. intros [t|]; [|apply guarded_ret]. case_match; [apply guarded_ret|].
  case_match; [apply guarded_ret|apply refreshToken_update_wf].
Qed.

Lemma social_loop_wf now d base attempt left : (∀ c, email_ok (n_email (d c)) ∧ n_username (d c) = c) → username_ok base →
  safe (social_loop enc now d base attempt left).
Proof.
  intros Hd Hb. revert attempt. induction left as [|left IH]; intros attempt; [apply guarded_ret|]. cbn [social_loop].
  apply (guarded_bind_post _ _ username_ok); [apply buildCandidateUsername_wf|intros; by apply buildCandidateUsername_ok|].
  intros c Hc. destruct (Hd c) as [? Hn]. apply guarded_try.
  - apply guarded_bind; [apply create_account_wf; [done|by rewrite Hn]|]. intros u. apply guarded_ret.
  - intros e. repeat case_match; [apply guarded_throw|apply IH|apply guarded_throw].
Qed.

Lemma authenticateSocial_wf now p token : safe (authenticateSocial enc cfg now p token).
Proof.
  unfold authenticateSocial. apply guarded_bind; [apply of_result_wf|intros prof]. apply guarded_bind.
  - unfold social_account. apply guarded_bind; [apply guarded_gets|]. intros [u|]; [apply guarded_ret|].
    apply guarded_bind; [apply guarded_gets|]. intros [u|].
    + apply guarded_bind; [by apply user_update_wf|]. intros u'. apply guarded_ret.
    + apply (guarded_bind_post _ _ username_ok); [apply buildUsernameBase_wf|intros; apply buildUsernameBase_ok|].
      intros base Hb. apply social_loop_wf; [|done]. intros c. split; [apply normalizeEmail_ok|done].
  - intros [u|]; [|apply guarded_throw]. apply guarded_bind; [apply issue_new_wf|]. intros tk. apply guarded_ret.
Qed.

Lemma guest_email_ok n : email_ok ("guest_" +:+ randomUUID n +:+ "@arenax.gg").
Proof.
  apply settled_email. rewrite !all_chars_app, !andb_True. split_and!; [by vm_compute| |by vm_compute].
  eapply all_chars_mono; [apply uuid_char_settled|apply randomUUID_chars].
Qed.

Lemma guest_name_ok n : username_ok ("guest_" +:+ str_take 8 (randomUUID n)).
Proof.
  destruct (randomUUID_head n) as [Hc Hl]. split.
  - rewrite length_app_s, length_str_take. change (String.length "guest_") with 6%nat.
    unfold MIN_USERNAME_LENGTH, MAX_USERNAME_LENGTH. lia.
  - rewrite all_chars_app, andb_True. split; [by vm_compute|]. eapply all_chars_mono; [apply hex_char_name|done].
Qed.

Lemma createGuestSession_wf now : safe (createGuestSession enc cfg now).
Proof.
  unfold createGuestSession.
  apply (guarded_bind_post _ _ (λ g, ∃ n, g = randomUUID n)); [apply draw_wf|intros db _; apply post_draw; eauto|].
  intros g [n ->]. apply guarded_bind; [apply create_account_wf; [apply guest_email_ok|apply guest_name_ok]|].
  intros u. apply guarded_bind; [apply issue_new_wf|]. intros tk. apply guarded_ret.
Qed.

Lemma verifyEmail_wf now token : safe (verifyEmail now token).
Proof.
  unfold verifyEmail. apply guarded_bind; [apply guarded_gets|]. intros [u|]; [|apply guarded_throw].
  case_match; [apply guarded_throw|]. case_match; [apply guarded_throw|]. apply guarded_bind; [by apply user_update_wf|intros u'].
  apply guarded_bind; [apply try_send_wf, sendEmail_wf|]. intros _. apply guarded_ret.
Qed.

Lemma resendVerificationEmail_wf now email : safe (resendVerificationEmail now email).
Proof.
  unfold resendVerificationEmail. apply guarded_bind; [apply guarded_gets|]. intros [u|]; [|apply guarded_ret].
  case_match; [apply guarded_ret|]. apply guarded_bind; [apply draw_wf|intros bytes].
  apply guarded_bind; [apply set_verification_wf|intros u'].
  apply guarded_bind; [apply try_send_wf, sendEmail_wf|]. intros _. apply guarded_ret.
Qed.

Lemma forgotPassword_wf now email : safe (forgotPassword now email).
Proof.
  unfold forgotPassword. apply guarded_bind; [apply guarded_gets|]. intros [u|]; [|apply guarded_ret].
  apply guarded_bind; [apply draw_wf|intros bytes]. apply guarded_bind; [by apply user_update_wf|intros u'].
  apply guarded_bind; [apply try_send_wf, sendEmail_wf|]. intros _. apply guarded_ret.
Qed.

Lemma resetPassword_wf now token pw : safe (resetPassword now token pw).
Proof.
  unfold resetPassword. apply guarded_bind; [apply guarded_gets|]. intros [u|]; [|apply guarded_throw].
  case_match; [apply guarded_throw|]. apply guarded_bind; [apply draw_wf|intros hash].
  apply guarded_bind; [by apply user_update_wf|]. intros u'. apply guarded_ret.
Qed.

(** ** Runs of calls *)

Inductive auth_call :=
| Register (now : Z) (email password : string) (username : option string)
| Login (now : Z) (email password : string)
| Refresh (now : Z) (token : string)
| Logout (now : Z) (token : string)
| Social (now : Z) (provider : Provider) (token : string)
| Guest (now : Z)
| Verify (now : Z) (token : string)
| Resend (now : Z) (email : string)
| Forgot (now : Z) (email : string)
| Reset (now : Z) (token password : string).

(** The state a call leaves, whatever it answers. *)
Definition exec (c : auth_call) db : AccountDB :=
  match c with
  | Register now e p n => (registerUser enc cfg now e p n db).1
  | Login now e p => (loginUser cfg now e p db).1
  | Refresh now t => (refreshSession cfg now t db).1
  | Logout now t => (logoutUser now t db).1
  | Social now p t => (authenticateSocial enc cfg now p t db).1
  | Guest now => (createGuestSession enc cfg now db).1
  | Verify now t => (verifyEmail now t db).1
  | Resend now e => (resendVerificationEmail now e db).1
  | Forgot now e => (forgotPassword now e db).1
  | Reset now t p => (resetPassword now t p db).1
  end.

Definition exec_all (cs : list auth_call) db : AccountDB := foldl (λ db c, exec c db) db cs.

Lemma safe_run {A} (m : M AccountDB A) db : safe m → auth_wf db → evolves db (m db).1.
Proof. apply guarded_run. Qed.

Lemma exec_evolves c db : auth_wf db → evolves db (exec c db).
Proof.
  intros Hw. destruct c; cbn [exec]; apply safe_run; try done.
  - apply registerUser_wf.
  - apply loginUser_wf.
  - apply refreshSession_wf.
  - apply logoutUser_wf.
  - apply authenticateSocial_wf.
  - apply createGuestSession_wf.
  - apply verifyEmail_wf.
  - apply resendVerificationEmail_wf.
  - apply forgotPassword_wf.
  - apply resetPassword_wf.
Qed.

Lemma exec_all_evolves cs db : auth_wf db → evolves db (exec_all cs db).
Proof.
  unfold exec_all. revert db. induction cs as [|c cs IH]; intros db Hw; [by apply evolves_refl|]. simpl.
  destruct (exec_evolves c db Hw) as [Hw' Hs]. destruct (IH _ Hw') as [Hw2 Hs2]. split; [done|]. by etrans.
Qed.

Lemma empty_wf : auth_wf empty_accounts.
Proof.
  split; split; simpl; first [apply NoDup_nil_2|apply Forall_nil_2|by intros ? ?%not_elem_of_nil|by intros ? ? ?%not_elem_of_nil].
Qed.
End spec.

(** ** What the sign-in service touches

    A property of computations that holds of the operations the service is
    made of holds of its ten calls.  The services that share the tables are
    proved against this interface. *)

Section footprint.
Context `{Prisma} `{Sha256} `{Bcrypt} `{JsonWebToken} `{NodeCipher} `{NodeRandom} `{JsNumber} `{StellarSdk} `{Mailer} `{OAuth}.
Context (enc : EncryptionService) (cfg : AuthConfig).

(** New accounts are users or guests; updates keep the id and the role. *)
Definition plain_role (d : NewUser) : Prop := n_role d = None ∨ n_role d = Some "GUEST".
Definition keeps_role (f : User → User) : Prop := ∀ u, u_id (f u) = u_id u ∧ u_role (f u) = u_role u.

Class AuthFootprint (I : AccountDB → Prop) (R : relation AccountDB) : Prop := {
  fp_draw : ∀ A (f : nat → A), guarded I R (draw f);
  fp_user_create : ∀ now d, plain_role d → guarded I R (user_create now d);
  fp_user_update : ∀ now i f, keeps_role f → guarded I R (user_update now i f);
  fp_sendEmail : ∀ e, guarded I R (sendEmail e);
  fp_issue : ∀ now u f p, guarded I R (issueSessionTokens cfg now u f p);
  fp_token_update : ∀ i f, guarded I R (refreshToken_update i f);
  fp_revoke : ∀ now f, guarded I R (revokeTokenFamily now f);
  fp_wallet : ∀ now u, guarded I R (registerUserWallet enc now u);
}.

Context (I : AccountDB → Prop) (R : relation AccountDB) `{!AuthFootprint I R}.

Lemma guarded_of_result {A} (r : result A) : guarded I R (of_result r).
Proof. destruct r; unfold of_result; guarded_walk. Qed.

Lemma fp_create_account now d : plain_role d → guarded I R (create_account enc now d).
Proof. intros Hd. unfold create_account. guarded_walk; [by apply fp_user_create|apply fp_wallet]. Qed.

Lemma fp_candidate base attempt : guarded I R (buildCandidateUsername base attempt).
Proof. unfold buildCandidateUsername. guarded_walk. apply fp_draw. Qed.

Lemma fp_base email name : guarded I R (buildUsernameBase email name).
Proof. unfold buildUsernameBase. guarded_walk. apply fp_draw. Qed.

Lemma fp_register_loop now email hash base attempt left : guarded I R (register_loop enc cfg now email hash base attempt left).
Proof.
  revert attempt. induction left as [|left IH]; intros attempt; [apply guarded_throw|]. cbn [register_loop].
  unfold finish_registration, try_send. guarded_walk;
    first [apply fp_candidate|apply fp_create_account; by left|apply fp_draw|by apply fp_user_update|apply fp_sendEmail|apply fp_issue|apply IH].
Qed.

Lemma fp_social_loop now d base attempt left : (∀ c, plain_role (d c)) → guarded I R (social_loop enc now d base attempt left).
Proof.
  intros Hd. revert attempt. induction left as [|left IH]; intros attempt; [apply guarded_ret|]. cbn [social_loop]. guarded_walk;
    first [apply fp_candidate|by apply fp_create_account|apply IH].
Qed.

Lemma fp_exec c db : I db → I (exec enc cfg c db) ∧ rtc R db (exec enc cfg c db).
Proof.
  destruct c; cbn [exec]; apply guarded_run;
    [unfold registerUser|unfold loginUser|unfold refreshSession, find_token, refresh_found|unfold logoutUser
    |unfold authenticateSocial, social_account|unfold createGuestSession|unfold verifyEmail, find_verification, try_send
    |unfold resendVerificationEmail, try_send|unfold forgotPassword, try_send|unfold resetPassword, find_reset];
    guarded_walk;
    first [apply fp_draw|apply fp_base|apply fp_register_loop|apply fp_issue|apply fp_revoke|apply fp_token_update
          |apply guarded_of_result|by apply fp_user_update|apply fp_social_loop; by left|apply fp_create_account; by right|apply fp_sendEmail].
Qed.
End footprint.
