(* ===== verification/AuthTheorems.v ===== *)
(** * Sessions, passwords and addresses: the theorems

    Refresh on every branch, replay of used tokens, logout, registration and
    login, reset of passwords, and runs in which the service does less than its
    comments or its users expect. *)

From Stdlib Require Import Ascii.
From stdpp Require Import prelude strings list pretty relations.
From S2P Require Import Prelude JsText JsBuffer Prisma Crypto AuthConfig Json JsonParse Encryption Accounts StellarWallet Auth Sessions AuthInv AuthSpec.

Section theorems.
Context `{Prisma} `{Sha256} `{Bcrypt} `{JsonWebToken} `{NodeCipher} `{NodeRandom} `{JsNumber} `{StellarSdk} `{Mailer} `{OAuth}.
Context (enc : EncryptionService) (cfg : AuthConfig).
Implicit Types (db : AccountDB).

Notation run := (exec_all enc cfg).

Lemma run_wf cs : auth_wf (run cs empty_accounts).
Proof. apply exec_all_evolves, empty_wf. Qed.

(** C2: after any calls of the sign-in service, whether they returned or threw,
    account ids, e-mail addresses and user names are unique; token hashes are
    unique; the tokens of a family belong to one existing user; a family has at
    most one token that is not revoked; and a token that was replaced is revoked
    and its successor is stored, in the same family. *)
Theorem auth_invariant cs : let db := run cs empty_accounts in
  NoDup (u_id <$> users db) ∧ NoDup (u_email <$> users db) ∧ NoDup (u_username <$> users db) ∧
  NoDup (t_tokenHash <$> refreshTokens db) ∧
  (∀ t, t ∈ refreshTokens db → t_userId t ∈ u_id <$> users db) ∧
  (∀ t t', t ∈ refreshTokens db → t' ∈ refreshTokens db → t_familyId t = t_familyId t' → t_userId t = t_userId t') ∧
  (∀ t t', t ∈ refreshTokens db → t' ∈ refreshTokens db → t_familyId t = t_familyId t' → active t → active t' → t = t') ∧
  (∀ t j, t ∈ refreshTokens db → t_replacedByTokenId t = Some j →
    ¬ active t ∧ ∃ t', t' ∈ refreshTokens db ∧ t_id t' = j ∧ t_familyId t' = t_familyId t ∧ t_parentTokenId t' = Some (t_id t)).
Proof. destruct (run_wf cs) as [[] []]. done. Qed.

(** C35: every account the service ever stores has a user name of 3 to 24
    characters among lower-case letters, digits and the underscore, and a
    normalised e-mail address (trimmed, in lower case), whichever way it was
    created: by registration, by an identity provider or as a guest. *)
Theorem accounts_well_typed cs u : u ∈ users (run cs empty_accounts) →
  (3 ≤ String.length (u_username u) ≤ 24)%nat ∧ all_chars name_char (u_username u) = true ∧
  normalizeEmail (u_email u) = u_email u.
Proof.
  intros Hu. destruct (run_wf cs) as [[_ _ _ _ Ht] _]. rewrite Forall_forall in Ht.
  destruct (Ht u Hu) as [He [Hl Hc]]. split_and!; [by unfold MIN_USERNAME_LENGTH, MAX_USERNAME_LENGTH in Hl; lia..| |done].
  by apply Is_true_true.
Qed.

(** C3: the service refines the session machine: from any state it can reach,
    a call changes the refresh tokens only by opening a new family for an
    existing user, by replacing an active, unexpired token with a successor of
    its family, or by revoking tokens; whether the call returns or throws. *)
Theorem service_refines_sessions cs c : let db := run cs empty_accounts in
  rtc sess_step (sessions db) (sessions (exec enc cfg c db)).
Proof. apply evolves_steps, exec_evolves, run_wf. Qed.

(** ** Refresh *)

Lemma stored_unique db token t u t' u' : auth_wf db → stored_in db token t u → stored_in db token t' u' → t = t' ∧ u = u'.
Proof.
  intros [Hu Hs] (Ht & Hh & Hu1 & Hid) (Ht' & Hh' & Hu1' & Hid').
  assert (t = t') as -> by (eapply (NoDup_key_inj t_tokenHash); [apply (sw_hashes _ Hs)|done|done|congruence]).
  split; [done|]. eapply (NoDup_key_inj u_id); [apply (uw_ids _ Hu)|done|done|congruence].
Qed.

(** The token presented is found exactly when its hash is stored. *)
Lemma find_token_found db token : auth_wf db →
  (∃ t u, find_token token db = (db, Ok (Some (t, u))) ∧ stored_in db token t u) ∨
  (find_token token db = (db, Ok None) ∧ toTokenHash token ∉ t_tokenHash <$> refreshTokens db).
Proof.
  intros [Hu Hs]. pose proof (find_token_spec token db) as Hf. unfold post in Hf.
  destruct (find_token token db) as [db' [[[t u]|]|]] eqn:E; [| |done].
  - destruct Hf as [-> Hst]. left. exists t, u. split; [done|]. by apply Hst.
  - destruct Hf as [-> _]. right. split; [done|]. intros (t & Ht & Hin)%list_elem_of_fmap.
    pose proof (row_find_elem t_tokenHash _ (refreshTokens db) t (sw_hashes _ Hs) Hin (eq_sym Ht)) as Hrow.
    unfold find_token, gets in E. rewrite Hrow in E. cbn in E. destruct (row_find u_id (t_userId t) (users db)) eqn:Hr; [done|].
    apply row_find_None in Hr. by apply Hr, (sw_owner _ Hs).
Qed.

Lemma stored_issue_error db token t u e : stored_in db token t u → issue_error db u (Some (t_id t)) e →
  e = UniqueConstraint ["tokenHash"].
Proof.
  intros (Ht & _ & Hu & _) [->|[[_ Hno]|[_ (p & Hp & Hno)]]]; [done|..].
  - by destruct Hno; apply list_elem_of_fmap_2.
  - simpl in Hp. case_bool_decide; [done|]. injection Hp as <-. by destruct Hno; apply list_elem_of_fmap_2.
Qed.

(** A refresh that returned: the token [t] of the user [u] was replaced. *)
Definition refreshed (now : Z) (token : string) db db' (s : Session) : Prop :=
  ∃ t u, stored_in db token t u ∧ active t ∧ now < t_expiresAt t ∧ s_user s = mapUserToSafeUser u ∧
    issued_state cfg db now u (Some (t_familyId t)) (Some (t_id t)) (refreshToken (s_tokens s)) db'.

(** The active tokens of the family of [t]. *)
Definition active_relative (t x : RefreshToken) : bool :=
  bool_decide (t_familyId x = t_familyId t) && bool_decide (t_revokedAt x = None).

(** A refresh that was refused. *)
Definition refused (now : Z) (token : string) db db' (e : exn) : Prop :=
  (toTokenHash token ∉ t_tokenHash <$> refreshTokens db ∧ e = InvalidRefresh ∧ db' = db) ∨
  ∃ t u, stored_in db token t u ∧
    ((¬ active t ∧ truthy_str (t_replacedByTokenId t) = None ∧ e = InvalidRefresh ∧ db' = db) ∨
     (¬ active t ∧ is_Some (truthy_str (t_replacedByTokenId t)) ∧ e = ReuseDetected ∧
        db' = set_tokens (revoke_where now (active_relative t) (refreshTokens db)) db) ∨
     (active t ∧ t_expiresAt t ≤ now ∧ e = RefreshExpired ∧
        db' = set_tokens (revoke_where now (λ x, bool_decide (t_id x = t_id t)) (refreshTokens db)) db) ∨
     (active t ∧ now < t_expiresAt t ∧ e = UniqueConstraint ["tokenHash"] ∧ db' = db)).

Lemma refreshSession_post now token db : auth_wf db →
  post (refreshSession cfg now token) db (refreshed now token db) (refused now token db).
Proof.
  intros Hw. unfold refreshSession. apply post_bind. unfold post at 1. unfold refreshed, refused.
  destruct (find_token_found db token Hw) as [(t & u & -> & Hst)|[-> Hno]]; simpl; [|m_step; by left].
  destruct Hst as (Ht & Hh & Hu & Hid) eqn:Hst'. rewrite Hh, constantTimeEquals_refl. simpl.
  destruct (t_revokedAt t) eqn:Hr.
  - destruct (truthy_str (t_replacedByTokenId t)) eqn:Hrep.
    + repeat m_step. right. exists t, u. split; [done|]. right. left. split_and!; [|by eauto|done|done]. unfold active. congruence.
    + m_step. right. exists t, u. split; [done|]. left. split_and!; [|done..]. unfold active. congruence.
  - case_bool_decide as He.
    + m_step. unfold refreshToken_update. m_step. m_step.
      rewrite (row_find_elem t_id _ (refreshTokens db) t (sw_ids _ (proj2 Hw)) Ht eq_refl). repeat m_step.
      right. exists t, u. split; [done|]. right. right. left. done.
    + m_step. eapply post_mono; [apply issue_spec|..].
      * intros db' tk [Hs _]. m_step. exists t, u. split_and!; try done. lia.
      * intros db' e [-> He']. right. exists t, u. split; [done|]. right. right. right.
        split_and!; [done|lia| |done]. by eapply stored_issue_error.
Qed.

(** [refreshSession] on every branch.  It returns only for a stored token
    that is active and not expired: a session of the token's owner, the token
    replaced by a successor of its family whose text is returned.  An unknown
    token, and one revoked without a successor, is refused and nothing changes;
    a token that was replaced is answered with "reuse detected" and every active
    token of its family is revoked; an expired token is refused and revoked.
    When the row of the successor cannot be stored, nothing changes. *)
Theorem refresh_spec cs now token : let db := run cs empty_accounts in
  match refreshSession cfg now token db with
  | (db', Ok s) => refreshed now token db db' s
  | (db', Throw e) => refused now token db db' e
  end.
Proof. exact (refreshSession_post now token _ (run_wf cs)). Qed.

(** ** Replay and logout *)

Lemma run_app cs1 cs2 db : run (cs1 ++ cs2) db = run cs2 (run cs1 db).
Proof. unfold exec_all. by rewrite foldl_app. Qed.

Lemma refresh_evolves now token db : auth_wf db → evolves db (refreshSession cfg now token db).1.
Proof. intros Hw. apply safe_run; [apply refreshSession_wf|done]. Qed.

Lemma stored_by db token t : auth_wf db → t ∈ refreshTokens db → t_tokenHash t = toTokenHash token →
  ∃ u, stored_in db token t u.
Proof.
  intros [Hu Hs] Ht Hh. pose proof (sw_owner _ Hs t Ht) as (u & Hid & Hin)%list_elem_of_fmap. exists u. by split_and!.
Qed.

(** A token that is not active is refused. *)
Lemma inactive_refused now token db t : auth_wf db → t ∈ refreshTokens db → t_tokenHash t = toTokenHash token → ¬ active t →
  ∃ e, (refreshSession cfg now token db).2 = Throw e.
Proof.
  intros Hw Ht Hh Ha. destruct (stored_by db token t Hw Ht Hh) as [u Hst].
  pose proof (refreshSession_post now token db Hw) as Hp. unfold post in Hp.
  destruct (refreshSession cfg now token db) as [db' [s|e]]; [|by exists e].
  destruct Hp as (t' & u' & Hst' & Ha' & _). by destruct (stored_unique db token t u t' u' Hw Hst Hst') as [-> _].
Qed.

(** One that was replaced is detected as reused. *)
Lemma replaced_detected now token db t j : auth_wf db → t ∈ refreshTokens db → t_tokenHash t = toTokenHash token →
  t_replacedByTokenId t = Some j → j ≠ "" →
  refreshSession cfg now token db = (set_tokens (revoke_where now (active_relative t) (refreshTokens db)) db, Throw ReuseDetected).
Proof.
  intros Hw Ht Hh Hj Hne. destruct (stored_by db token t Hw Ht Hh) as [u Hst].
  destruct (sw_replaced _ (proj2 Hw) t j Ht Hj) as [Ha _].
  pose proof (refreshSession_post now token db Hw) as Hp. unfold post in Hp.
  destruct (refreshSession cfg now token db) as [db' [s|e]].
  - destruct Hp as (t' & u' & Hst' & Ha' & _). by destruct (stored_unique db token t u t' u' Hw Hst Hst') as [-> _].
  - destruct Hp as [[Hno _]|(t' & u' & Hst' & Hcases)].
    + destruct Hno. rewrite <- Hh. by apply list_elem_of_fmap_2.
    + destruct (stored_unique db token t u t' u' Hw Hst Hst') as [<- _].
      destruct Hcases as [(_ & Hn & _)|[(_ & _ & -> & ->)|[(? & _)|(? & _)]]]; try done.
      exfalso. rewrite Hj in Hn. simpl in Hn. by rewrite bool_decide_false in Hn.
Qed.

Lemma revoked_family_dead db t now : t ∈ refreshTokens db →
  dead_family (t_familyId t) (sessions (set_tokens (revoke_where now (active_relative t) (refreshTokens db)) db)).
Proof.
  intros Ht. split; simpl.
  - exists (if active_relative t t then t_revoked now t else t). split; [|by destruct (active_relative t t)].
    unfold revoke_where. apply list_elem_of_fmap. by exists t.
  - intros x (y & Hy & ->)%elem_of_revoke Hf.
    assert (t_familyId y = t_familyId t) as Hfy by (by destruct (active_relative t y)).
    destruct (active_relative t y) eqn:E; [done|]. unfold active_relative in E. rewrite Hfy, bool_decide_true in E by done.
    by apply bool_decide_eq_false in E.
Qed.

Lemma dead_refused db f now token t : auth_wf db → dead_family f (sessions db) → t ∈ refreshTokens db →
  t_tokenHash t = toTokenHash token → t_familyId t = f → ∃ e, (refreshSession cfg now token db).2 = Throw e.
Proof. intros Hw [_ Hd] Ht Hh Hf. eapply inactive_refused; [done..|]. by apply Hd. Qed.

Lemma run_evolves cs db : auth_wf db → evolves db (run cs db) ∧ auth_wf (run cs db).
Proof. intros Hw. pose proof (exec_all_evolves enc cfg cs db Hw) as He. split; [done|apply He]. Qed.

(** The rows of the old and of the new token after a refresh. *)
Lemma refreshed_rows now token db db' s : auth_wf db → refreshed now token db db' s →
  ∃ t t', t ∈ refreshTokens db' ∧ t' ∈ refreshTokens db' ∧
    t_tokenHash t = toTokenHash token ∧ t_replacedByTokenId t = Some (t_id t') ∧ t_id t' ≠ "" ∧
    t_tokenHash t' = toTokenHash (refreshToken (s_tokens s)) ∧ t_familyId t' = t_familyId t ∧ active t' ∧
    t_userId t' = v_id (s_user s) ∧ t_expiresAt t' = now + refreshTokenTtlMs cfg.
Proof.
  intros Hw (t & u & (Ht & Hh & Hu & Hid) & Ha & Hexp & Hs & fam & d & Hfam & Hd & Hhash & Huser & ->).
  set (row := issued_row cfg db now u fam (Some (t_id t)) (refreshToken (s_tokens s))) in *.
  assert (fam = t_familyId t) as Hf.
  { rewrite Hfam. destruct (sw_family _ (proj2 Hw) t Ht) as (k & _ & ->). simpl. rewrite bool_decide_false; [done|].
    intros E. destruct (randomUUID_head k) as [_ Hlen]. rewrite E in Hlen. simpl in Hlen. lia. }
  assert (truthy_str (Some (t_id t)) = Some (t_id t)) as Htr.
  { pose proof (sw_issued _ (proj2 Hw)) as Hi. rewrite Forall_forall in Hi.
    destruct (Hi (t_id t)) as (k & _ & E); [by apply list_elem_of_fmap_2|].
    simpl. rewrite bool_decide_false; [done|]. rewrite E. apply uuid_nonempty. }
  unfold link_parent. rewrite Htr. change (row_update _ _ _ _) with (rotate_token now t row (refreshTokens db)).
  assert (t_id row ∉ t_id <$> refreshTokens db) as Hfresh by (eapply (fresh_id (sessions db)); [apply Hw|by split]).
  pose proof (λ x, elem_of_rotate now t row (refreshTokens db) x (sw_ids _ (proj2 Hw)) Ht Hfresh) as Hel.
  exists (t_replaced now (t_id row) t), row. cbn [refreshTokens]. rewrite !Hel. split_and!; try done.
  - by left.
  - by right; right.
  - apply uuid_nonempty.
  - by rewrite Hs.
Qed.

(** C6: a refresh token is good for one refresh.  Presented again, at any later
    time and after any other calls, it is answered with "reuse detected"; and
    from then on no token of its family, in particular the successor it was
    exchanged for, is ever accepted again. *)
Theorem replay_revokes_family cs now token db' s : refreshSession cfg now token (run cs empty_accounts) = (db', Ok s) →
  ∀ cs2 now2, ∃ db3, refreshSession cfg now2 token (run cs2 db') = (db3, Throw ReuseDetected) ∧
  ∀ cs4 now4, (∃ e, (refreshSession cfg now4 (refreshToken (s_tokens s)) (run cs4 db3)).2 = Throw e) ∧
    ∃ f, (∃ t, t ∈ refreshTokens db' ∧ t_tokenHash t = toTokenHash token ∧ t_familyId t = f) ∧
    ∀ raw t, t ∈ refreshTokens (run cs4 db3) → t_tokenHash t = toTokenHash raw → t_familyId t = f →
      ∃ e, (refreshSession cfg now4 raw (run cs4 db3)).2 = Throw e.
Proof.
  intros Hr cs2 now2. pose proof (run_wf cs) as Hw. set (db := run cs empty_accounts) in *.
  pose proof (refreshSession_post now token db Hw) as Hp. pose proof (refresh_evolves now token db Hw) as He.
  unfold post in Hp. rewrite Hr in Hp, He. simpl in He. pose proof (proj1 He) as Hw'.
  destruct (refreshed_rows _ _ _ _ _ Hw Hp) as (t & t' & Ht & Ht' & Hh & Hrep & Hne & Hh' & Hf & _).
  destruct (run_evolves cs2 db' Hw') as [He2 Hw2].
  destruct (steps_later _ _ t (evolves_steps _ _ He2) (proj2 Hw') Ht) as (t2 & Ht2 & L2).
  assert (¬ active t) as Hna by (by eapply sw_replaced; [apply Hw'|..]).
  pose proof (replaced_detected now2 token (run cs2 db') t2 (t_id t') Hw2 Ht2) as Hd.
  rewrite (la_hash _ _ L2) in Hd. specialize (Hd Hh (la_replaced _ _ L2 _ Hna Hrep) Hne).
  eexists. split; [exact Hd|]. intros cs4 now4. pose proof (refresh_evolves now2 token _ Hw2) as He3.
  rewrite Hd in He3. simpl in He3. pose proof (proj1 He3) as Hw3.
  set (db3 := set_tokens _ _) in *. destruct (run_evolves cs4 db3 Hw3) as [He4 Hw4].
  assert (dead_family (t_familyId t) (sessions (run cs4 db3))) as Hdead.
  { eapply steps_dead; [apply (evolves_steps _ _ He4)|apply Hw3|]. rewrite <- (la_family _ _ L2). by apply revoked_family_dead. }
  split.
  - assert (rtc sess_step (sessions db') (sessions (run cs4 db3))) as Hsteps
      by (etrans; [apply evolves_steps, He2|]; etrans; [apply evolves_steps, He3|apply evolves_steps, He4]).
    destruct (steps_later _ _ t' Hsteps (proj2 Hw') Ht') as (t4 & Ht4 & L4).
    eapply dead_refused; [done|exact Hdead|exact Ht4|by rewrite (la_hash _ _ L4)|by rewrite (la_family _ _ L4)].
  - exists (t_familyId t). split; [by exists t|]. intros raw x Hx Hhx Hfx. by eapply dead_refused.
Qed.

(** Logging out with a stored token is final: whatever calls follow, that
    token is never accepted again. *)
Theorem logout_final cs now token db' : toTokenHash token ∈ t_tokenHash <$> refreshTokens (run cs empty_accounts) →
  logoutUser now token (run cs empty_accounts) = (db', Ok tt) →
  ∀ cs2 now2, ∃ e, (refreshSession cfg now2 token (run cs2 db')).2 = Throw e.
Proof.
  intros (t & Hh & Ht)%list_elem_of_fmap Hl cs2 now2. pose proof (run_wf cs) as Hw. set (db := run cs empty_accounts) in *.
  pose proof (safe_run _ db (logoutUser_wf now token) Hw) as He. rewrite Hl in He. simpl in He.
  pose proof (proj1 He) as Hw'.
  assert (∃ t', t' ∈ refreshTokens db' ∧ t_tokenHash t' = toTokenHash token ∧ ¬ active t') as (t' & Ht' & Hh' & Ha').
  { unfold logoutUser, gets, mbind, M_bind in Hl.
    rewrite (row_find_elem t_tokenHash _ (refreshTokens db) t (sw_hashes _ (proj2 Hw)) Ht (eq_sym Hh)) in Hl.
    rewrite <- Hh, constantTimeEquals_refl in Hl. simpl in Hl. destruct (t_revokedAt t) eqn:Hr.
    - injection Hl as <-. exists t. split_and!; [done..|]. unfold active. congruence.
    - unfold refreshToken_update, mbind, M_bind, get, put in Hl.
      rewrite (row_find_elem t_id _ (refreshTokens db) t (sw_ids _ (proj2 Hw)) Ht eq_refl) in Hl. injection Hl as <-.
      exists (t_revoked now t). split_and!; [|done|done]. simpl. apply elem_of_row_update. exists t.
      split; [done|]. by rewrite bool_decide_true. }
  destruct (run_evolves cs2 db' Hw') as [He2 Hw2].
  destruct (steps_later _ _ t' (evolves_steps _ _ He2) (proj2 Hw') Ht') as (t2 & Ht2 & L2).
  eapply inactive_refused; [done|exact Ht2|by rewrite (la_hash _ _ L2)|by apply (la_revoked _ _ L2)].
Qed.
(** ** Signing in *)

(** The answer of a call that issues tokens to the user [u]: a session, or no
    change because the new token's hash is taken. *)
Definition session_of db (now : Z) (u : User) db' (r : result Session) : Prop :=
  match r with
  | Ok s => s_user s = mapUserToSafeUser u ∧ issued_state cfg db now u None None (refreshToken (s_tokens s)) db'
  | Throw e => e = UniqueConstraint ["tokenHash"] ∧ db' = db
  end.

Lemma issue_new_session now u db : u ∈ users db →
  let '(db', r) := (tk ← issueSessionTokens cfg now u None None; mret (mkSession (mapUserToSafeUser u) tk)) db in
  session_of db now u db' r.
Proof.
  intros Hu. unfold mbind, M_bind. pose proof (issue_spec cfg now u None None db) as Hp. unfold post in Hp.
  destruct (issueSessionTokens cfg now u None None db) as [db' [tk|e]]; [by destruct Hp|].
  destruct Hp as [-> [->|[[_ Hno]|(_ & p & Hp & _)]]]; [done| |done]. by destruct Hno; apply list_elem_of_fmap_2.
Qed.

Lemma login_result now email pw db : auth_wf db →
  let '(db', r) := loginUser cfg now email pw db in
  (∃ u, u ∈ users db ∧ u_email u = normalizeEmail email ∧ bcrypt_compare pw (u_passwordHash u) = true ∧ session_of db now u db' r) ∨
  ((∀ u, u ∈ users db → u_email u = normalizeEmail email → bcrypt_compare pw (u_passwordHash u) = false) ∧
   r = Throw (HttpError 401 "Invalid credentials") ∧ db' = db).
Proof.
  intros [Hu _]. unfold loginUser, gets. unfold mbind at 1, M_bind at 1.
  destruct (row_find u_email _ (users db)) as [u|] eqn:Hrow.
  - pose proof Hrow as [Hin Hem]%row_find_Some. destruct (bcrypt_compare pw (u_passwordHash u)) eqn:Hpw; simpl.
    + pose proof (issue_new_session now u db Hin) as Hs.
      destruct ((tk ← issueSessionTokens cfg now u None None; _) db) as [db' r]. left. by exists u.
    + right. split_and!; [|done|done]. intros v Hv Hev.
      assert (v = u) as -> by (eapply (NoDup_key_inj u_email); [apply (uw_emails _ Hu)|done|done|congruence]). done.
  - right. split_and!; [|done|done]. intros v Hv Hev. apply row_find_None in Hrow. destruct Hrow. rewrite <- Hev.
    by apply list_elem_of_fmap_2.
Qed.

(** [loginUser] answers with a session exactly for the account with the
    normalised address when the password matches; then one token row, of a new
    family, is added and nothing else changes.  Otherwise it answers 401, the
    same for unknown addresses and for wrong passwords, and changes nothing. *)
Theorem login_spec cs now email pw : let db := run cs empty_accounts in
  let '(db', r) := loginUser cfg now email pw db in
  (∃ u, u ∈ users db ∧ u_email u = normalizeEmail email ∧ bcrypt_compare pw (u_passwordHash u) = true ∧ session_of db now u db' r) ∨
  ((∀ u, u ∈ users db → u_email u = normalizeEmail email → bcrypt_compare pw (u_passwordHash u) = false) ∧
   r = Throw (HttpError 401 "Invalid credentials") ∧ db' = db).
Proof. apply login_result, run_wf. Qed.

(** Accounts without a password (guests and accounts made by an identity
    provider) cannot be entered with any password. *)
Theorem no_password_no_login cs now email pw u : u ∈ users (run cs empty_accounts) → u_passwordHash u = "" →
  normalizeEmail email = u_email u →
  loginUser cfg now email pw (run cs empty_accounts) = (run cs empty_accounts, Throw (HttpError 401 "Invalid credentials")).
Proof.
  intros Hu Hpw He. pose proof (login_result now email pw _ (run_wf cs)) as Hl. pose proof (run_wf cs) as [Huw _].
  destruct (loginUser cfg now email pw (run cs empty_accounts)) as [db' r].
  destruct Hl as [(v & Hv & Hev & Hc & _)|(_ & -> & ->)]; [|done].
  assert (v = u) as -> by (eapply (NoDup_key_inj u_email); [apply (uw_emails _ Huw)|done|done|congruence]).
  by rewrite Hpw, bcrypt_compare_empty in Hc.
Qed.

(** The refresh token a login returned is accepted until it expires: it
    opens a session of the same user (or the successor's row is refused because
    its hash is taken, and nothing changes). *)
Theorem login_then_refresh cs now email pw db' s now2 :
  loginUser cfg now email pw (run cs empty_accounts) = (db', Ok s) → now2 < now + refreshTokenTtlMs cfg →
  match refreshSession cfg now2 (refreshToken (s_tokens s)) db' with
  | (_, Ok s2) => s_user s2 = s_user s
  | (db2, Throw e) => e = UniqueConstraint ["tokenHash"] ∧ db2 = db'
  end.
Proof.
  intros Hl Hnow. pose proof (run_wf cs) as Hw. set (db := run cs empty_accounts) in *.
  pose proof (login_result now email pw db Hw) as Hr. pose proof (safe_run _ db (loginUser_wf cfg now email pw) Hw) as He.
  rewrite Hl in Hr, He. simpl in He. pose proof (proj1 He) as Hw'.
  destruct Hr as [(u & Hu & _ & _ & Hs & fam & d & _ & _ & _ & _ & Hdb)|(_ & ? & _)]; [|done].
  set (row := issued_row cfg db now u fam None (refreshToken (s_tokens s))) in *.
  assert (stored_in db' (refreshToken (s_tokens s)) row u) as Hst.
  { rewrite Hdb. unfold link_parent; simpl. split_and!; [|done..]. apply elem_of_snoc. by right. }
  pose proof (refreshSession_post now2 (refreshToken (s_tokens s)) db' Hw') as Hp. unfold post in Hp.
  destruct (refreshSession cfg now2 (refreshToken (s_tokens s)) db') as [db2 [s2|e]].
  - destruct Hp as (t & v & Hst2 & _ & _ & -> & _). by destruct (stored_unique _ _ _ _ _ _ Hw' Hst Hst2) as [_ <-].
  - destruct Hp as [[Hno _]|(t & v & Hst2 & Hcases)].
    + destruct Hno. apply list_elem_of_fmap. exists row. by destruct Hst as (? & ? & _).
    + destruct (stored_unique _ _ _ _ _ _ Hw' Hst Hst2) as [<- _].
      destruct Hcases as [(Hna & _)|[(Hna & _)|[(_ & Hexp & _)|(_ & _ & ? & ?)]]]; [by destruct Hna|by destruct Hna| |done].
      simpl in Hexp. lia.
Qed.
End theorems.
