(* ===== verification/AuthCredentials.v ===== *)
(** * Credentials: registration, reset and verification

    What registration stores, that the registered password opens the account,
    that a reset replaces the password and uses its token up, that a
    verification link works once; and runs in which sessions survive a reset,
    an address is revealed, two refreshes race and an account is linked by its
    address alone. *)

From Stdlib Require Import Ascii.
From stdpp Require Import prelude strings list pretty relations.
From S2P Require Import Prelude JsText JsBuffer Prisma Crypto AuthConfig Json JsonParse Encryption Accounts StellarWallet Auth Sessions AuthInv AuthSpec AuthTheorems.

Section credentials.
Context `{Prisma} `{Sha256} `{Bcrypt} `{JsonWebToken} `{NodeCipher} `{NodeRandom} `{JsNumber} `{StellarSdk} `{Mailer} `{OAuth}.
Context (enc : EncryptionService) (cfg : AuthConfig).
Implicit Types (db : AccountDB).

Notation run := (exec_all enc cfg).

(** What a user signs in with. *)
Definition credentials (u : User) : string * string * string * string :=
  (u_id u, u_email u, u_username u, u_passwordHash u).

Definition has_credentials (c : string * string * string * string) db : Prop := c ∈ credentials <$> users db.

(** ** Steps that keep the credentials *)

Lemma keep_draw {A} c (f : nat → A) : preserves (has_credentials c) (draw f).
Proof. intros db Hc. unfold draw. by do 5 m_step. Qed.

Lemma keep_of_result {A} c (r : result A) : preserves (has_credentials c) (of_result r).
Proof. destruct r; [apply preserves_ret|apply preserves_throw]. Qed.

Lemma keep_user_update c now i f : (∀ u, credentials (f u) = credentials u) → preserves (has_credentials c) (user_update now i f).
Proof.
  intros Hf db Hc. unfold user_update. m_step. m_step. destruct (row_find u_id i (users db)); [|by m_step].
  destruct (user_conflict _ _); [by m_step|]. repeat m_step. unfold has_credentials. simpl.
  by rewrite row_update_col.
Qed.

Lemma keep_wallet c now u pk sk v : preserves (has_credentials c) (userWallet_create now u pk sk v).
Proof.
  intros db Hc. unfold userWallet_create. m_step. m_step. do 3 (case_bool_decide; [by repeat m_step|]). by m_step.
Qed.

Lemma keep_registerUserWallet c now i : preserves (has_credentials c) (registerUserWallet enc now i).
Proof.
  unfold registerUserWallet, getWalletByUserId. apply preserves_bind; [apply preserves_gets|]. intros [w|]; [apply preserves_ret|].
  apply preserves_bind; [apply keep_draw|intros kp]. apply preserves_bind; [apply keep_draw|intros n].
  apply preserves_bind; [apply keep_of_result|intros data]. apply preserves_bind; [apply keep_wallet|intros w].
  apply preserves_bind; [by apply keep_user_update|intros u']. apply preserves_ret.
Qed.

Lemma keep_send c e : preserves (has_credentials c) (try_send (sendEmail e)).
Proof.
  apply preserves_try; [|intros; apply preserves_ret]. apply preserves_bind; [apply keep_draw|].
  intros [err|]; [apply preserves_throw|]. intros db Hc. by m_step.
Qed.

Lemma keep_issue c now u f p : preserves (has_credentials c) (issueSessionTokens cfg now u f p).
Proof.
  intros db Hc. eapply post_mono; [apply issue_spec|..]; [|by intros db' e [-> _]].
  intros db' tk [(fam & d & _ & _ & _ & _ & ->) _]. done.
Qed.

(** ** Registration *)

Lemma create_account_credentials now d db : post (create_account enc now d) db
  (λ db' u, has_credentials (u_id u, n_email d, n_username d, n_passwordHash d) db' ∧ u_username u = n_username d)
  (λ db' _, db' = db).
Proof.
  unfold create_account, user_create. m_step. m_step. m_step. m_step. destruct (user_conflict _ _); [by m_step|].
  m_step. m_step. m_step. set (u := mkUser _ _ _ _ _ _ _ _ _ _ _ _ _ _ _ _ _ _). m_step.
  eapply post_mono; [apply (keep_registerUserWallet (credentials u))|..]; [|by intros; m_step|done].
  unfold has_credentials. simpl. rewrite fmap_snoc. apply elem_of_snoc. by right.
Qed.

Lemma finish_credentials now email u c db : has_credentials c db → post (finish_registration cfg now email u) db
  (λ db' s, has_credentials c db' ∧ s_user s = mapUserToSafeUser u) (λ _ _, True).
Proof.
  intros Hc. unfold finish_registration. repeat a_step.
  eapply post_mono; [eapply (keep_user_update c); [done|exact Hc]| |done]. intros db1 u1 Hc1. m_step.
  eapply post_mono; [apply keep_send, Hc1| |done]. intros db2 [] Hc2. m_step.
  eapply post_mono; [apply keep_issue, Hc2| |done]. intros db3 tk Hc3. by m_step.
Qed.

(** The session belongs to a stored account with the address and the hash. *)
Lemma register_loop_credentials now email hash base attempt left db :
  post (register_loop enc cfg now email hash base attempt left) db
    (λ db' s, has_credentials (v_id (s_user s), email, v_username (s_user s), hash) db') (λ _ _, True).
Proof.
  revert attempt db. induction left as [|left IH]; intros attempt db; [by apply post_throw|]. cbn [register_loop]. m_step.
  eapply post_mono; [apply post_true| |done].
  intros db1 candidate _. m_step. m_step. eapply post_mono; [apply create_account_credentials|..].
  - intros db2 u [Hc Hn]. simpl in Hc, Hn. eapply post_mono; [apply (finish_credentials now email u _ db2 Hc)|..].
    + intros db3 s [Hc3 ->]. simpl. by rewrite Hn.
    + intros db3 e _. repeat case_match; [by m_step|apply IH|by m_step].
  - intros db2 e _. repeat case_match; [by m_step|apply IH|by m_step].
Qed.

Lemma registerUser_credentials now email pw name db : post (registerUser enc cfg now email pw name) db
  (λ db' s, ∃ n, has_credentials (v_id (s_user s), normalizeEmail email, v_username (s_user s), bcrypt_hash pw BCRYPT_ROUNDS n) db')
  (λ _ _, True).
Proof.
  unfold registerUser. m_step. m_step. destruct (row_find _ _ _); [by m_step|]. a_step. a_step. m_step.
  eapply post_mono; [apply post_true| |done].
  intros db1 base _. eapply post_mono; [apply register_loop_credentials| |done].
  intros db2 s Hc. eexists. exact Hc.
Qed.

(** C34: a registration that returned can be followed by a login: with the same
    password and any spelling of the address that normalises to the same text,
    the login opens a session of the registered user (or the new token's hash
    is taken and nothing changes). *)
Theorem register_then_login cs now email pw name db' s now2 email2 :
  registerUser enc cfg now email pw name (run cs empty_accounts) = (db', Ok s) → normalizeEmail email2 = normalizeEmail email →
  match loginUser cfg now2 email2 pw db' with
  | (_, Ok s2) => v_id (s_user s2) = v_id (s_user s) ∧ v_username (s_user s2) = v_username (s_user s) ∧
                  v_email (s_user s2) = normalizeEmail email
  | (db2, Throw e) => e = UniqueConstraint ["tokenHash"] ∧ db2 = db'
  end.
Proof.
  intros Hr Hem. pose proof (run_wf enc cfg cs) as Hw. set (db := run cs empty_accounts) in *.
  pose proof (registerUser_credentials now email pw name db) as Hp.
  pose proof (safe_run _ db (registerUser_wf enc cfg now email pw name) Hw) as He.
  unfold post in Hp. rewrite Hr in Hp, He. simpl in He. pose proof (proj1 He) as Hw'.
  destruct Hp as (n & (u & Hcred & Hu)%list_elem_of_fmap). injection Hcred as Hid Hemail Hname Hhash.
  pose proof (login_result cfg now2 email2 pw db' Hw') as Hl. destruct (loginUser cfg now2 email2 pw db') as [db2 r].
  destruct Hl as [(v & Hv & Hev & _ & Hs)|(Hno & _)].
  - assert (v = u) as -> by (eapply (NoDup_key_inj u_email); [apply (uw_emails _ (proj1 Hw'))|done|done|congruence]).
    destruct r as [s2|e]; [|by destruct Hs]. destruct Hs as [-> _]. simpl. split_and!; congruence.
  - specialize (Hno u Hu ltac:(congruence)). by rewrite <- Hhash, bcrypt_compare_hash in Hno.
Qed.

(** ** Reset and verification *)

Lemma hd_any_order {A} (f : A → bool) (l : list A) :
  match hd_error (any_order (List.filter f l)) with
  | Some x => x ∈ l ∧ f x = true
  | None => ∀ x, x ∈ l → f x = false
  end.
Proof.
  pose proof (any_order_perm (List.filter f l)) as Hp. destruct (any_order _) as [|x xs]; simpl.
  - apply Permutation_nil_l in Hp. intros x Hx. destruct (f x) eqn:E; [|done].
    assert (x ∈ List.filter f l) as Hin by (by apply elem_of_bfilter). rewrite <- Hp in Hin. by apply not_elem_of_nil in Hin.
  - assert (x ∈ List.filter f l) as [? ?]%elem_of_bfilter by (rewrite <- Hp; left). done.
Qed.

Lemma user_update_ok now i f db db' u' : user_update now i f db = (db', Ok u') →
  db' = set_users (row_update u_id i f (users db)) db.
Proof.
  unfold user_update, mbind, M_bind, get. destruct (row_find u_id i (users db)); [|done].
  destruct (user_conflict _ _); [done|]. cbn. by intros [= <- _].
Qed.

Definition InvalidReset : exn := HttpError 400 "Invalid reset token".

(** A reset that returned. *)
Lemma reset_ok now token pw db db' m : resetPassword now token pw db = (db', Ok m) →
  ∃ u n, u ∈ users db ∧ u_passwordResetToken u = Some (toTokenHash token) ∧ is_expired now (u_passwordResetExpires u) = false ∧
    users db' = row_update u_id (u_id u) (u_with_reset now (bcrypt_hash pw BCRYPT_ROUNDS n) None None) (users db) ∧
    refreshTokens db' = refreshTokens db.
Proof.
  unfold resetPassword, find_reset, gets. unfold mbind at 1, M_bind at 1.
  pose proof (hd_any_order (λ u, bool_decide (u_passwordResetToken u = Some (toTokenHash token))) (users db)) as Hhd.
  destruct (hd_error _) as [u|]; [|done]. destruct Hhd as [Hu Ht%bool_decide_eq_true].
  destruct (is_expired now (u_passwordResetExpires u)) eqn:He; [done|]. unfold draw, mbind, M_bind, get, put. cbn -[user_update].
  destruct (user_update now (u_id u) _ _) as [db1 [u1|e]] eqn:Hup; [|done]. intros [= <- <-].
  apply user_update_ok in Hup as ->. exists u, (draws db). done.
Qed.

(** A password reset that returned was made with the unexpired token of one
    account.  The token is used up: presenting it again is refused at once.
    The new password opens that account.  The refresh tokens are untouched, so
    sessions opened before the reset stay valid. *)
Theorem reset_password_spec cs now token pw db' m : resetPassword now token pw (run cs empty_accounts) = (db', Ok m) →
  (∀ now2 pw2, resetPassword now2 token pw2 db' = (db', Throw InvalidReset)) ∧
  refreshTokens db' = refreshTokens (run cs empty_accounts) ∧
  ∃ u, u ∈ users (run cs empty_accounts) ∧ u_passwordResetToken u = Some (toTokenHash token) ∧
    ∀ now2 email, normalizeEmail email = u_email u →
      match loginUser cfg now2 email pw db' with
      | (_, Ok s) => v_id (s_user s) = u_id u
      | (db2, Throw e) => e = UniqueConstraint ["tokenHash"] ∧ db2 = db'
      end.
Proof.
  intros Hr. pose proof (run_wf enc cfg cs) as Hw. set (db := run cs empty_accounts) in *.
  pose proof (safe_run _ db (resetPassword_wf now token pw) Hw) as He. rewrite Hr in He. simpl in He.
  pose proof (proj1 He) as Hw'. destruct (reset_ok _ _ _ _ _ _ Hr) as (u & n & Hu & Ht & _ & Hus & Hts).
  set (f := u_with_reset now _ None None) in *. split_and!; [|done|].
  - intros now2 pw2. unfold resetPassword, find_reset, gets. unfold mbind at 1, M_bind at 1.
    pose proof (hd_any_order (λ u, bool_decide (u_passwordResetToken u = Some (toTokenHash token))) (users db')) as Hhd.
    destruct (hd_error _) as [v|]; [|done]. exfalso. destruct Hhd as [Hv Hvt%bool_decide_eq_true].
    rewrite Hus, elem_of_row_update in Hv. destruct Hv as (v0 & Hv0 & ->). case_bool_decide as Hid; [done|]. destruct Hid.
    apply (uw_links _ (proj1 Hw) v0 u Hv0 Hu). right. by exists (toTokenHash token).
  - exists u. split_and!; [done..|]. intros now2 email Hem. pose proof (login_result cfg now2 email pw db' Hw') as Hl.
    assert (f u ∈ users db') as Hfu.
    { rewrite Hus. apply elem_of_row_update. exists u. by rewrite bool_decide_true. }
    destruct (loginUser cfg now2 email pw db') as [db2 r]. destruct Hl as [(v & Hv & Hev & _ & Hs)|(Hno & _)].
    + assert (v = f u) as ->.
      { eapply (NoDup_key_inj u_email); [apply (uw_emails _ (proj1 Hw'))|done|done|]. rewrite Hev. exact Hem. }
      destruct r as [s|e]; [|by destruct Hs]. by destruct Hs as [-> _].
    + specialize (Hno (f u) Hfu (eq_sym Hem)). simpl in Hno. by rewrite bcrypt_compare_hash in Hno.
Qed.

(** A verified address is answered differently from an unknown one. *)
Lemma resend_reveals_verified now email db u : auth_wf db → u ∈ users db → u_email u = normalizeEmail email → u_isVerified u = true →
  resendVerificationEmail now email db = (db, Ok "Email already verified").
Proof.
  intros Hw Hu He Hv. unfold resendVerificationEmail, gets. unfold mbind at 1, M_bind at 1.
  rewrite (row_find_elem u_email _ (users db) u (uw_emails _ (proj1 Hw)) Hu He). by rewrite Hv.
Qed.

Lemma verify_email_ok now token db db' m : verifyEmail now token db = (db', Ok m) →
  ∃ u, u ∈ users db ∧ u_verificationToken u = Some (toTokenHash token) ∧ u_isVerified u = false ∧
    is_expired now (u_verificationTokenExpires u) = false ∧
    users db' = row_update u_id (u_id u) (u_with_verification now true None None) (users db).
Proof.
  unfold verifyEmail, find_verification, gets. unfold mbind at 1, M_bind at 1.
  pose proof (hd_any_order (λ u, bool_decide (u_verificationToken u = Some (toTokenHash token))) (users db)) as Hhd.
  destruct (hd_error _) as [u|]; [|done]. destruct Hhd as [Hu Ht%bool_decide_eq_true].
  destruct (is_expired now (u_verificationTokenExpires u)) eqn:He; [done|]. destruct (u_isVerified u) eqn:Hv; [done|].
  unfold mbind at 1, M_bind at 1.
  destruct (user_update now (u_id u) _ _) as [db1 [u1|e]] eqn:Hup; [|done]. apply user_update_ok in Hup as ->.
  unfold try_send, try_catch, sendWelcomeEmail, sendEmail, draw, mbind, M_bind, get, put, modify. cbn.
  destruct (transport_error _); intros [= <- <-]; exists u; done.
Qed.

(** A verification link works once, for the account it was sent to: that
    account becomes verified, no other row changes, and presenting the token
    again is refused. *)
Theorem verify_email_spec cs now token db' m : verifyEmail now token (run cs empty_accounts) = (db', Ok m) →
  ∃ u, u ∈ users (run cs empty_accounts) ∧ u_verificationToken u = Some (toTokenHash token) ∧ u_isVerified u = false ∧
    users db' = row_update u_id (u_id u) (u_with_verification now true None None) (users (run cs empty_accounts)) ∧
    ∀ now2, verifyEmail now2 token db' = (db', Throw (HttpError 400 "Invalid verification token")).
Proof.
  intros Hr. pose proof (run_wf enc cfg cs) as Hw. set (db := run cs empty_accounts) in *.
  destruct (verify_email_ok _ _ _ _ _ Hr) as (u & Hu & Ht & Hv & _ & Hus). exists u. split_and!; [done..|]. intros now2.
  unfold verifyEmail, find_verification, gets. unfold mbind at 1, M_bind at 1.
  pose proof (hd_any_order (λ u, bool_decide (u_verificationToken u = Some (toTokenHash token))) (users db')) as Hhd.
  destruct (hd_error _) as [v|]; [|done]. exfalso. destruct Hhd as [Hin Hvt%bool_decide_eq_true].
  rewrite Hus, elem_of_row_update in Hin. destruct Hin as (v0 & Hv0 & ->). case_bool_decide as Hid; [done|]. destruct Hid.
  apply (uw_links _ (proj1 Hw) v0 u Hv0 Hu). left. by exists (toTokenHash token).
Qed.
End credentials.

(** ** Runs of the sign-in service

    Concrete instances of the parameters, runs on which the theorems are applied,
    and a run in which two refreshes of one token interleave. *)

Module AuthModel.
#[export] Existing Instances sha_model bcrypt_model jwt_model.
Export TwoKeys.
#[export] Instance stellar_model : StellarSdk := λ n, mkKeypair ("G" +:+ pretty n) ("S" +:+ pretty n).
#[export] Instance mailer_model : Mailer := {| transport_error := λ _, None; FRONTEND_URL := "https://arenax.gg" |}.
#[export] Instance oauth_model : OAuth := {|
  google_userinfo := λ token, Ok (mkGoogle (Some "Ann@Example.com") "g-1" (Some "Ann Onymous"));
  discord_me := λ token, Ok (mkDiscord (Some "ann@example.com") "d-1" (Some "mallory") None);
  twitch_users := λ token, Ok [] |}.

Definition config : AuthConfig := mkAuthConfig "15m" 900000 "7d" 604800000 "HS256" "key" "key".

Notation run := (exec_all service config).

(** Registration of one user, with its session. *)
Definition calls : list auth_call := [Register 1000 " Ann@Example.com" "correct horse" (Some "Ann.1")].
Definition one_user : AccountDB := Eval vm_compute in run calls empty_accounts.

Lemma one_user_eq : run calls empty_accounts = one_user.
Proof. by vm_compute. Qed.

Definition tokens_of (r : AccountDB * result Session) : string :=
  match r.2 with Ok s => refreshToken (s_tokens s) | Throw _ => "" end.

(** The token of a login after the registration. *)
Definition login_calls : list auth_call := calls ++ [Login 2000 "ann@example.com" "correct horse"].
Definition login_token : string := Eval vm_compute in tokens_of (loginUser config 2000 "ann@example.com" "correct horse" one_user).

(** The tokens of the links that are sent. *)
Definition reset_calls : list auth_call := calls ++ [Forgot 5000 "ann@example.com"].
Definition reset_token : string := Eval vm_compute in to_hex (randomBytes 32 (draws one_user)).
Definition verify_token : string :=
  Eval vm_compute in match users one_user with
                     | u :: _ => match u_verificationToken u with Some (String _ t) => t | _ => "" end
                     | [] => ""
                     end.
End AuthModel.

Section witnesses.
Import AuthModel.

Lemma accounts_well_typed_witness : ∃ u, u ∈ users (run calls empty_accounts) ∧ u_username u = "ann1" ∧
  (3 ≤ String.length (u_username u) ≤ 24)%nat.
Proof.
  assert (∃ u, u ∈ users (run calls empty_accounts) ∧ u_username u = "ann1") as (u & Hu & Hn).
  { eexists. split; [vm_compute; left|reflexivity]. }
  exists u. split_and!; [exact Hu|exact Hn| |]; apply (accounts_well_typed service config calls u Hu).
Defined.

Lemma replay_revokes_family_witness : ∃ db' s db3,
  refreshSession config 3000 login_token (run login_calls empty_accounts) = (db', Ok s) ∧
  refreshSession config 4000 login_token (run [Guest 3500] db') = (db3, Throw ReuseDetected) ∧
  ∃ e, (refreshSession config 5000 (refreshToken (s_tokens s)) (run [] db3)).2 = Throw e.
Proof.
  assert (∃ db' s, refreshSession config 3000 login_token (run login_calls empty_accounts) = (db', Ok s)) as (db' & s & Hr).
  { eexists _, _. vm_compute. reflexivity. }
  destruct (replay_revokes_family service config login_calls 3000 login_token db' s Hr [Guest 3500] 4000) as (db3 & Hd & Hall).
  destruct (Hall [] 5000) as [He _]. exists db', s, db3. split; [exact Hr|]. split; [exact Hd|exact He].
Defined.

Lemma logout_final_witness : ∃ db', logoutUser 3000 login_token (run login_calls empty_accounts) = (db', Ok tt) ∧
  ∃ e, (refreshSession config 5000 login_token (run [Guest 3500] db')).2 = Throw e.
Proof.
  assert (∃ db', logoutUser 3000 login_token (run login_calls empty_accounts) = (db', Ok tt)) as (db' & Hl).
  { eexists. vm_compute. reflexivity. }
  exists db'. split; [exact Hl|].
  refine (logout_final service config login_calls 3000 login_token db' _ Hl [Guest 3500] 5000).
  apply (bool_decide_unpack _). vm_compute. exact I.
Defined.

Lemma no_password_no_login_witness : ∃ u, u ∈ users (run [Guest 10] empty_accounts) ∧ u_passwordHash u = "" ∧
  (loginUser config 20 (u_email u) "" (run [Guest 10] empty_accounts)).2 = Throw (HttpError 401 "Invalid credentials").
Proof.
  assert (∃ u, u ∈ users (run [Guest 10] empty_accounts) ∧ u_passwordHash u = "" ∧ normalizeEmail (u_email u) = u_email u)
    as (u & Hu & Hp & He).
  { eexists. split; [vm_compute; left|split; reflexivity]. }
  exists u. split; [exact Hu|]. split; [exact Hp|].
  rewrite (no_password_no_login service config [Guest 10] 20 (u_email u) "" u Hu Hp He). reflexivity.
Defined.

Lemma login_then_refresh_witness : ∃ db' s, loginUser config 2000 "ANN@example.com" "correct horse" (run calls empty_accounts) = (db', Ok s) ∧
  match refreshSession config 3000 (refreshToken (s_tokens s)) db' with
  | (_, Ok s2) => s_user s2 = s_user s
  | (db2, Throw e) => e = UniqueConstraint ["tokenHash"] ∧ db2 = db'
  end.
Proof.
  assert (∃ db' s, loginUser config 2000 "ANN@example.com" "correct horse" (run calls empty_accounts) = (db', Ok s)) as (db' & s & Hl).
  { eexists _, _. vm_compute. reflexivity. }
  exists db', s. split; [exact Hl|].
  exact (login_then_refresh service config calls 2000 "ANN@example.com" "correct horse" db' s 3000 Hl eq_refl).
Defined.

Lemma register_then_login_witness : ∃ db' s, registerUser service config 1000 "Bob@x.org" "pass word" None (run calls empty_accounts) = (db', Ok s) ∧
  match loginUser config 2000 "bob@X.org " "pass word" db' with
  | (_, Ok s2) => v_id (s_user s2) = v_id (s_user s) ∧ v_username (s_user s2) = v_username (s_user s) ∧
                  v_email (s_user s2) = normalizeEmail "Bob@x.org"
  | (db2, Throw e) => e = UniqueConstraint ["tokenHash"] ∧ db2 = db'
  end.
Proof.
  assert (∃ db' s, registerUser service config 1000 "Bob@x.org" "pass word" None (run calls empty_accounts) = (db', Ok s)) as (db' & s & Hr).
  { eexists _, _. vm_compute. reflexivity. }
  exists db', s. split; [exact Hr|].
  exact (register_then_login service config calls 1000 "Bob@x.org" "pass word" None db' s 2000 "bob@X.org " Hr eq_refl).
Defined.

Lemma reset_password_spec_witness : ∃ db' m, resetPassword 6000 reset_token "new password" (run reset_calls empty_accounts) = (db', Ok m) ∧
  resetPassword 7000 reset_token "other password" db' = (db', Throw InvalidReset) ∧
  refreshTokens db' = refreshTokens (run reset_calls empty_accounts).
Proof.
  assert (∃ db' m, resetPassword 6000 reset_token "new password" (run reset_calls empty_accounts) = (db', Ok m)) as (db' & m & Hr).
  { eexists _, _. vm_compute. reflexivity. }
  destruct (reset_password_spec service config reset_calls 6000 reset_token "new password" db' m Hr) as (Honce & Hkeep & _).
  exists db', m. split; [exact Hr|]. split; [exact (Honce 7000 "other password")|exact Hkeep].
Defined.

Lemma verify_email_spec_witness : ∃ db' m, verifyEmail 6000 verify_token (run calls empty_accounts) = (db', Ok m) ∧
  verifyEmail 7000 verify_token db' = (db', Throw (HttpError 400 "Invalid verification token")).
Proof.
  assert (∃ db' m, verifyEmail 6000 verify_token (run calls empty_accounts) = (db', Ok m)) as (db' & m & Hr).
  { eexists _, _. vm_compute. reflexivity. }
  destruct (verify_email_spec service config calls 6000 verify_token db' m Hr) as (u & _ & _ & _ & _ & Honce).
  exists db', m. split; [exact Hr|exact (Honce 7000)].
Defined.

(** ** Runs the code allows *)

Definition family_of (t : RefreshToken) : string := t_familyId t.
Definition is_active (t : RefreshToken) : bool := bool_decide (t_revokedAt t = None).

(** The families of the active tokens. *)
Definition active_families (db : AccountDB) : list string := family_of <$> List.filter is_active (refreshTokens db).

(** Two refreshes with the same token, both reading it before either writes:
    both return a session, and the family has two active tokens.  The read and
    the rotation are not one transaction. *)
Lemma refresh_race : ∃ stored db1 s1 db2 s2, let db := run login_calls empty_accounts in
  find_token login_token db = (db, Ok stored) ∧
  refresh_found config 3000 login_token stored db = (db1, Ok s1) ∧
  refresh_found config 3001 login_token stored db1 = (db2, Ok s2) ∧
  NoDup (active_families db) ∧ ¬ NoDup (active_families db2).
Proof.
  eexists _, _, _, _, _. cbv zeta. split; [vm_compute; reflexivity|]. split; [vm_compute; reflexivity|].
  split; [vm_compute; reflexivity|]. split; apply (bool_decide_unpack _); by vm_compute.
Qed.

(** Whoever controls an account at a provider that reports the address of an
    existing user is signed in as that user, verified or not. *)
Lemma social_links_by_address : ∃ db' s, authenticateSocial service config 3000 discord "token" (run calls empty_accounts) = (db', Ok s) ∧
  v_username (s_user s) = "ann1" ∧ v_isVerified (s_user s) = true.
Proof. eexists _, _. split; [vm_compute; reflexivity|by vm_compute]. Qed.

(** A display name with fewer than three usable characters blocks the first
    sign-in through a provider, although the address would give a name. *)
Lemma short_display_name_rejected : ∀ db,
  (buildUsernameBase "wu.lei@example.com" (Some "Wu") db).2 = Throw (HttpError 400 "username must contain at least 3 characters") ∧
  (buildUsernameBase "wu.lei@example.com" None db).2 = Ok "wulei".
Proof. intros db. split; reflexivity. Qed.
End witnesses.
