(* ===== verification/WalletRecovery.v ===== *)
(** * Export of a wallet secret: [server/src/services/wallet-recovery.service.ts]

    A user proves the password, receives a challenge with a six-digit code, and
    exports the secret key with password and code.  The challenge allows five
    attempts within ten minutes. *)

From Stdlib Require Import Ascii.
From stdpp Require Import prelude strings list pretty.
From S2P Require Import Prelude JsText JsBuffer Prisma Crypto Json JsonParse Encryption Accounts StellarWallet.

Definition RECOVERY_CODE_DIGITS : nat := 6.
Definition RECOVERY_CODE_TTL_MS : Z := 10 * 60 * 1000.
Definition RECOVERY_CODE_MAX_ATTEMPTS : Z := 5.

(** [text.padStart(n, '0')] *)
Definition padStart (n : nat) (text : string) : string :=
  foldr (λ _ s, String "0"%char s) text (seq 0 (n - String.length text)).

Section recovery.
Context `{Prisma} `{Sha256} `{Bcrypt} `{NodeCipher} `{NodeRandom} `{JsNumber} `{StellarSdk}.
Context (encryptionService : EncryptionService) (production : bool).

Definition hashRecoveryCode (code : string) : string := sha256_hex code.

Definition generateRecoveryCode : M AccountDB string :=
  r ← draw (randomInt (10 ^ Z.of_nat RECOVERY_CODE_DIGITS));
  mret (padStart RECOVERY_CODE_DIGITS (pretty r)).

Record WalletRecoveryChallengeResult := mkChallengeResult {
  challengeId : string;
  cr_expiresAt : Z;
  deliveryChannel : string;
  verificationCode : option string;
}.

(** ** The table *)

Definition c_with_status (now : Z) (s : ChallengeStatus) (c : WalletRecoveryChallenge) : WalletRecoveryChallenge :=
  mkChallenge (c_id c) (c_userId c) (c_walletId c) (c_codeHash c) (c_expiresAt c) (c_completedAt c) s (c_attempts c) (c_maxAttempts c)
    (c_requestId c) (c_requestedFromIp c) (c_requestedUserAgent c) (c_lastAttemptAt c) (c_createdAt c) now.

(** An attempt: the counter grows by one. *)
Definition c_attempted (now : Z) (s : ChallengeStatus) (completed : option Z) (c : WalletRecoveryChallenge) : WalletRecoveryChallenge :=
  mkChallenge (c_id c) (c_userId c) (c_walletId c) (c_codeHash c) (c_expiresAt c) completed s (c_attempts c + 1) (c_maxAttempts c)
    (c_requestId c) (c_requestedFromIp c) (c_requestedUserAgent c) (Some now) (c_createdAt c) now.

Definition challenge_update (i : string) (f : WalletRecoveryChallenge → WalletRecoveryChallenge) : M AccountDB WalletRecoveryChallenge :=
  db ← get;
  match row_find c_id i (challenges db) with
  | None => throw RecordNotFound
  | Some c => _ ← put (set_challenges (row_update c_id i f (challenges db)) db); mret (f c)
  end.

(** [updateMany({ where: { userId, status: 'PENDING' } })] *)
Definition cancel_pending (now : Z) (userId : string) : M AccountDB unit :=
  modify (λ db, set_challenges ((λ c, if bool_decide (c_userId c = userId) && bool_decide (c_status c = PENDING)
                                      then c_with_status now CANCELLED c else c) <$> challenges db) db).

Definition challenge_create (now : Z) (userId walletId codeHash : string) (expiresAt : Z) (context : WalletAccessContext)
    : M AccountDB WalletRecoveryChallenge :=
  db ← get;
  let c := mkChallenge (uuid (serial db)) userId walletId codeHash expiresAt None PENDING 0 RECOVERY_CODE_MAX_ATTEMPTS
    (a_requestId context) (a_ipAddress context) (a_userAgent context) None (db_now (serial db)) now in
  if bool_decide (userId ∈ u_id <$> users db) && bool_decide (walletId ∈ w_id <$> userWallets db) then
    _ ← put (next_serial (set_challenges (challenges db ++ [c]) db)); mret c
  else throw ForeignKeyViolation.

(** [findFirst({ where: { userId, walletId, status: 'PENDING' }, orderBy: { createdAt: 'desc' } })] *)
Definition pending_challenge (userId walletId : string) (l : list WalletRecoveryChallenge) : option WalletRecoveryChallenge :=
  hd_error (order_by (λ a b, bool_decide (c_createdAt b ≤ c_createdAt a))
    (List.filter (λ c, bool_decide (c_userId c = userId) && bool_decide (c_walletId c = walletId)
                       && bool_decide (c_status c = PENDING)) l)).

(** ** Operations *)

(** The user of an id, with the right password. *)
Definition authenticate (userId password : string) : M AccountDB User :=
  found ← gets (λ db, row_find u_id userId (users db));
  match found with
  | None => throw (HttpError 404 "User not found")
  | Some user =>
      if negb (bcrypt_compare password (u_passwordHash user)) then throw (HttpError 401 "Invalid credentials") else mret user
  end.

Definition recovery_entry (walletId userId : string) (action : WalletKeyAccessAction) (success : bool) (reason : string)
    (metadata : json) (context : WalletAccessContext) : WalletAuditContext :=
  mkAuditContext walletId (Some userId) action success (a_requestId context) (a_ipAddress context) (a_userAgent context)
    (Some reason) None (Some metadata).

Definition createRecoveryChallenge (now : Z) (userId password : string) (context : WalletAccessContext)
    : M AccountDB WalletRecoveryChallengeResult :=
  _ ← authenticate userId password;
  walletSummary ← ensureUserWallet encryptionService now userId;
  found ← gets (λ db, row_find w_id (s_id walletSummary) (userWallets db));
  match found with
  | None => throw (HttpError 404 "Wallet not found")
  | Some wallet =>
      code ← generateRecoveryCode;
      let expiresAt := now + RECOVERY_CODE_TTL_MS in
      _ ← transaction
        (_ ← cancel_pending now userId;
         challenge_create now userId (w_id wallet) (hashRecoveryCode code) expiresAt context);
      challenge ← gets (λ db, pending_challenge userId (w_id wallet) (challenges db));
      match challenge with
      | None => throw (HttpError 500 "Unable to create wallet recovery challenge")
      | Some challenge =>
          _ ← record_access (recovery_entry (w_id wallet) userId RECOVERY_CHALLENGE_CREATED true
                "User initiated wallet recovery export flow" (JObj [("expiresAt", JStr (toISOString expiresAt))]) context);
          mret (mkChallengeResult (c_id challenge) expiresAt "email" (if production then None else Some code))
      end
  end.

(** A wrong code: the attempt is counted and logged. *)
Definition wrong_code (now : Z) (userId : string) (challenge : WalletRecoveryChallenge) (context : WalletAccessContext)
    : M AccountDB unit :=
  updatedChallenge ← challenge_update (c_id challenge)
    (λ c, c_attempted now (if bool_decide (c_maxAttempts challenge ≤ c_attempts challenge + 1) then CANCELLED else PENDING)
            (c_completedAt c) c);
  record_access (recovery_entry (c_walletId challenge) userId RECOVERY_CHALLENGE_COMPLETED false
    "Invalid wallet recovery verification code submitted"
    (JObj [("challengeId", JStr (c_id challenge)); ("attempts", JNum (pretty (c_attempts updatedChallenge)))]) context).

(** [{ ...context, actorUserId, reason, metadata: { ...metadata, challengeId } }] *)
Definition export_context (userId challengeId : string) (context : WalletAccessContext) : WalletAccessContext :=
  mkAccess (Some userId) (a_requestId context) (a_ipAddress context) (a_userAgent context)
    (Some "User exported Stellar secret key after MFA verification")
    (Some (map_set "challengeId" (JStr challengeId) (default [] (a_metadata context)))).

(** The public and the secret key. *)
Definition exportSecretKey (now : Z) (userId password challengeId code : string) (context : WalletAccessContext)
    : M AccountDB (string * string) :=
  _ ← authenticate userId password;
  found ← gets (λ db, row_find c_id challengeId (challenges db));
  match found with
  | None => throw (HttpError 404 "Recovery challenge not found")
  | Some challenge =>
      if negb (bool_decide (c_userId challenge = userId)) then throw (HttpError 404 "Recovery challenge not found")
      else if negb (bool_decide (c_status challenge = PENDING)) then throw (HttpError 400 "Recovery challenge is no longer active")
      else if bool_decide (c_expiresAt challenge ≤ now) then
        _ ← challenge_update (c_id challenge) (c_with_status now EXPIRED);
        throw (HttpError 400 "Recovery challenge has expired")
      else if bool_decide (c_maxAttempts challenge ≤ c_attempts challenge) then
        _ ← challenge_update (c_id challenge) (c_with_status now CANCELLED);
        throw (HttpError 429 "Recovery challenge attempt limit reached")
      else if negb (constantTimeEquals (c_codeHash challenge) (hashRecoveryCode code)) then
        _ ← wrong_code now userId challenge context;
        throw (HttpError 401 "Invalid recovery verification code")
      else
        '(secretKey, _, publicKey) ← decryptSecretForUser encryptionService now userId EXPORT (export_context userId challengeId context);
        _ ← challenge_update (c_id challenge) (c_attempted now COMPLETED (Some now));
        _ ← record_access (recovery_entry (c_walletId challenge) userId RECOVERY_CHALLENGE_COMPLETED true
              "Wallet recovery challenge satisfied and key export released" (JObj [("challengeId", JStr challengeId)]) context);
        mret (publicKey, secretKey)
  end.
End recovery.
