(* ===== verification/StellarWalletSpec.v ===== *)
(** * What wallet custody guarantees

    Whatever calls are made, sign-in included, no wallet is lost, every stored
    secret can be decrypted, and decrypts to the key it was created with; the
    log of key accesses only grows. *)

From Stdlib Require Import Ascii.
From stdpp Require Import prelude gmap strings list pretty relations.
From S2P Require Import Prelude JsText JsBuffer Prisma Crypto AuthConfig Json JsonParse Encryption Accounts StellarWallet Auth Sessions AuthInv AuthSpec WalletRecovery.

Section custody.
Context `{Prisma} `{Sha256} `{Bcrypt} `{JsonWebToken} `{NodeCipher} `{NodeRandom} `{JsNumber} `{StellarSdk} `{Mailer} `{OAuth}.
Context (enc : EncryptionService) (cfg : AuthConfig) (production : bool).
Context (enc_wf : service_wf enc) (enc_safe : safe_int (activeKeyVersion enc)).
Implicit Types (db : AccountDB) (w : UserWallet).

(** The secret behind an encrypted text. *)
Definition secret_text (data : string) : option string :=
  match decryptWithMetadata enc data with Ok d => Some (plainText d) | Throw _ => None end.

(** A wallet as its owner sees it. *)
Definition holding w : string * string * string * option string :=
  (w_id w, w_userId w, w_publicKey w, secret_text (w_encryptedSecretKey w)).
Definition holdings db : list (string * string * string * option string) := holding <$> userWallets db.

Record custody_wf db : Prop := {
  cw_ids : NoDup (w_id <$> userWallets db);
  cw_issued : Forall (issued (serial db)) (w_id <$> userWallets db);
  cw_users : NoDup (w_userId <$> userWallets db);
  cw_readable : ∀ w, w ∈ userWallets db → is_Some (secret_text (w_encryptedSecretKey w));
}.

(** Holdings and the log only grow. *)
Definition keeps db db' : Prop := holdings db `prefix_of` holdings db' ∧ keyAudits db `prefix_of` keyAudits db'.

Lemma keeps_all db db' : rtc keeps db db' → keeps db db'.
Proof.
  induction 1 as [|db1 db2 db3 [? ?] _ [? ?]]; [done|]. split; by etrans.
Qed.

Notation careful := (guarded custody_wf keeps).

Lemma custody_frame db db' : custody_wf db → userWallets db' = userWallets db → (serial db ≤ serial db')%nat →
  keyAudits db `prefix_of` keyAudits db' → custody_wf db' ∧ rtc keeps db db'.
Proof.
  intros [] Hw Hs Hk. split.
  - split; rewrite ?Hw; try done. eapply Forall_impl; [done|]. intros i Hi. by eapply issued_le.
  - apply rtc_once. split; [|done]. unfold holdings. by rewrite Hw.
Qed.

(** A step on the tables around the wallets. *)
Ltac frame := apply custody_frame; simpl; first [done|lia|by apply prefix_app_r].

Lemma careful_draw {A} (f : nat → A) : careful (draw f).
Proof. intros db Hc. unfold draw. repeat m_step. frame. Qed.

Lemma careful_user_create now d : careful (user_create now d).
Proof.
  intros db Hc. unfold user_create. m_step. m_step. destruct (user_conflict _ _); repeat m_step; frame.
Qed.

Lemma careful_user_update now i f : careful (user_update now i f).
Proof.
  intros db Hc. unfold user_update. m_step. m_step. destruct (row_find _ _ _); [|m_step; frame].
  destruct (user_conflict _ _); repeat m_step; frame.
Qed.

Lemma careful_sendEmail e : careful (sendEmail e).
Proof.
  unfold sendEmail. apply guarded_bind; [apply careful_draw|]. intros [err|]; [apply guarded_throw|].
  intros db Hc. m_step. frame.
Qed.

Lemma careful_issue now u f p : careful (issueSessionTokens cfg now u f p).
Proof.
  intros db Hc. eapply post_mono; [apply issue_spec|..]; [|by intros db' e [-> _]].
  intros db' tk [(fam & d & _ & _ & _ & _ & ->) _]. frame.
Qed.

Lemma careful_refreshToken_update i f : careful (refreshToken_update i f).
Proof. intros db Hc. unfold refreshToken_update. m_step. m_step. destruct (row_find _ _ _); m_step; frame. Qed.

Lemma careful_revokeTokenFamily now f : careful (revokeTokenFamily now f).
Proof. intros db Hc. unfold revokeTokenFamily. m_step. frame. Qed.

Lemma careful_record x : careful (record_access x).
Proof.
  unfold record_access. apply guarded_bind; [apply guarded_gets|]. intros prev. intros db Hc. unfold keyAudit_create.
  m_step. m_step. case_bool_decide; [m_step; frame|]. destruct (_ && _); m_step; frame.
Qed.

(** ** Wallets *)

Lemma careful_wallet_create now u pk data v : is_Some (secret_text data) → careful (userWallet_create now u pk data v).
Proof.
  intros Hd db Hc. unfold userWallet_create. m_step. m_step. case_bool_decide as Hu; [m_step; frame|].
  case_bool_decide; [m_step; frame|]. case_bool_decide; [|m_step; frame]. repeat m_step. destruct Hc. split.
  - split; simpl; rewrite ?fmap_snoc.
    + by apply fresh_snoc.
    + by apply issued_snoc.
    + by apply NoDup_snoc.
    + intros w [Hw| ->]%elem_of_snoc; [by apply cw_readable0|done].
  - apply rtc_once. split; [|done]. unfold holdings. simpl. rewrite fmap_snoc. by apply prefix_app_r.
Qed.

Lemma encrypt_readable n text data : encrypt enc n text (activeKeyVersion enc) = Ok data → secret_text data = Some text.
Proof.
  intros He. destruct (active_key _ enc_wf) as [key Hk].
  destruct (encrypt_ok enc n text _ key enc_safe Hk (keys_length _ enc_wf _ _ Hk)) as (data' & p & He' & Hp & _ & Hd).
  assert (data = data') as -> by congruence. unfold secret_text, decryptWithMetadata. by rewrite Hp, Hd.
Qed.

Lemma rotate_readable n data r : rotate enc n data = Ok r → secret_text (encrypted r) = secret_text data.
Proof.
  unfold rotate, secret_text at 2. destruct (decryptWithMetadata enc data) as [d|]; [|done]. cbn [mbind result_bind].
  destruct (encrypt enc n _ _) as [t|] eqn:He; [|done]. cbn. intros [= <-]. by apply encrypt_readable in He.
Qed.

Lemma careful_register now u : careful (registerUserWallet enc now u).
Proof.
  unfold registerUserWallet, getWalletByUserId. apply guarded_bind; [apply guarded_gets|]. intros [w|]; [apply guarded_ret|].
  apply guarded_bind; [apply careful_draw|intros kp]. apply guarded_bind; [apply careful_draw|intros n].
  apply (guarded_bind_post _ _ (λ data, is_Some (secret_text data))); [apply guarded_of_result|..].
  - intros db _. unfold of_result. destruct (encrypt _ _ _ _) eqn:He; m_step; [|done]. apply encrypt_readable in He. eauto.
  - intros data Hd. apply guarded_bind; [by apply careful_wallet_create|intros w].
    apply guarded_bind; [apply careful_user_update|]. intros u'. apply guarded_ret.
Qed.

(** Writing a text with the same secret to a wallet that is held. *)
Definition held w db : Prop := holding w ∈ holdings db.

Lemma held_kept w db db' : keeps db db' → held w db → held w db'.
Proof. intros [[k Hk] _]. unfold held. rewrite Hk, elem_of_app. by left. Qed.

Lemma careful_wallet_update w now data v : secret_text data = secret_text (w_encryptedSecretKey w) →
  guarded (λ db, custody_wf db ∧ held w db) keeps (userWallet_update (w_id w) (w_rotated now data v)).
Proof.
  intros Hd db [Hc Hw]. unfold userWallet_update. m_step. m_step.
  destruct (row_find _ _ _) as [w0|] eqn:Hrow; [|by m_step]. repeat m_step.
  assert (holding <$> row_update w_id (w_id w) (w_rotated now data v) (userWallets db) = holding <$> userWallets db) as Hh.
  { unfold row_update. rewrite <- list_fmap_compose. apply Forall_fmap_ext, Forall_forall. intros x Hx. simpl. case_bool_decide as E; [|done].
    unfold held, holdings in Hw. apply list_elem_of_fmap in Hw as (y & Hy & Hin). injection Hy as Hid _ _ Hs.
    assert (x = y) as -> by (eapply (NoDup_key_inj w_id); [apply (cw_ids _ Hc)|done|done|congruence]).
    unfold holding. simpl. congruence. }
  assert (keeps db (set_wallets (row_update w_id (w_id w) (w_rotated now data v) (userWallets db)) db)) as Hk.
  { split; [|done]. unfold holdings. simpl. by rewrite Hh. }
  split; [split; [|by eapply held_kept]|by apply rtc_once].
  destruct Hc. split; simpl; rewrite ?(row_update_ids w_id) by done; try done.
  - unfold row_update. rewrite <- list_fmap_compose.
    replace ((w_userId ∘ _) <$> userWallets db) with (w_userId <$> userWallets db); [done|].
    apply list_fmap_ext. intros _ x _. simpl. by case_bool_decide.
  - intros x Hx. assert (holding x ∈ holding <$> userWallets db) as (y & Hy & Hin)%list_elem_of_fmap.
    { rewrite <- Hh. by apply list_elem_of_fmap_2. }
    injection Hy as _ _ _ Hs. rewrite Hs. by apply cw_readable0.
Qed.

Lemma careful_held {A} w (m : M AccountDB A) : careful m → guarded (λ db, custody_wf db ∧ held w db) keeps m.
Proof. apply guarded_and. apply held_kept. Qed.

(** After looking a wallet up, it stays held. *)
Lemma careful_with_wallet {A} u (k : option UserWallet → M AccountDB A) :
  careful (k None) → (∀ w, guarded (λ db, custody_wf db ∧ held w db) keeps (k (Some w))) →
  careful (getWalletByUserId u ≫= k).
Proof.
  intros Hn Hs db Hc. unfold getWalletByUserId. m_step. m_step. destruct (row_find w_userId u _) as [w|] eqn:Hrow; [|by apply Hn].
  apply row_find_Some in Hrow as [Hw _]. eapply post_mono; [apply (Hs w)|..].
  - split; [done|]. by apply list_elem_of_fmap_2.
  - by intros db' x [[? _] ?].
  - by intros db' x [[? _] ?].
Qed.

(** A rotation of a held wallet, whatever follows. *)
Lemma careful_rotation {A} w n now (k : Rotation → UserWallet → M AccountDB A) :
  (∀ r w', careful (k r w')) →
  guarded (λ db, custody_wf db ∧ held w db) keeps
    (r ← of_result (rotate enc n (w_encryptedSecretKey w));
     w' ← userWallet_update (w_id w) (w_rotated now (encrypted r) (r_keyVersion r));
     k r w').
Proof.
  intros Hk. apply (guarded_bind_post _ _ (λ r, secret_text (encrypted r) = secret_text (w_encryptedSecretKey w))).
  - apply careful_held, guarded_of_result.
  - intros db _. unfold of_result. destruct (rotate _ _ _) eqn:Hr; m_step; [|done]. by eapply rotate_readable.
  - intros r Hr. apply guarded_bind; [by apply careful_wallet_update|]. intros w'. apply careful_held, Hk.
Qed.

Lemma careful_decryptSecret now u a ctx : careful (decryptSecretForUser enc now u a ctx).
Proof.
  unfold decryptSecretForUser. apply careful_with_wallet; [apply guarded_throw|]. intros w. apply guarded_try.
  - apply guarded_bind; [apply careful_held, guarded_of_result|intros d]. apply guarded_bind.
    + unfold rotate_if_needed. destruct (_ || _); [|apply guarded_ret].
      apply guarded_bind; [apply careful_held, careful_draw|intros n]. apply careful_rotation. intros r w'. apply careful_record.
    + intros _. apply careful_held. guarded_walk. apply careful_record.
  - intros e. apply careful_held. guarded_walk. apply careful_record.
Qed.

Lemma careful_rotateUserWallet now u ctx : careful (rotateUserWallet enc now u ctx).
Proof.
  unfold rotateUserWallet. apply careful_with_wallet; [apply guarded_throw|]. intros w. destruct (negb _); [apply guarded_ret|].
  apply guarded_bind; [apply careful_held, careful_draw|intros n]. apply careful_rotation. intros r w'. guarded_walk. apply careful_record.
Qed.

(** ** Recovery *)

Lemma careful_challenge_update i f : careful (challenge_update i f).
Proof. intros db Hc. unfold challenge_update. m_step. m_step. destruct (row_find _ _ _); repeat m_step; frame. Qed.

Lemma careful_authenticate u pw : careful (authenticate u pw).
Proof. unfold authenticate. guarded_walk. Qed.

Lemma careful_createRecoveryChallenge now u pw ctx : careful (createRecoveryChallenge enc production now u pw ctx).
Proof.
  unfold createRecoveryChallenge, ensureUserWallet, getWalletByUserId, generateRecoveryCode. guarded_walk;
    first [apply careful_authenticate|apply careful_register|apply careful_draw|apply careful_record|idtac].
  - intros db Hc. unfold cancel_pending. m_step. frame.
  - intros db Hc. unfold challenge_create. m_step. m_step. destruct (_ && _); repeat m_step; frame.
Qed.

Lemma careful_exportSecretKey now u pw c code ctx : careful (exportSecretKey enc now u pw c code ctx).
Proof.
  unfold exportSecretKey, wrong_code. guarded_walk;
    first [apply careful_authenticate|apply careful_challenge_update|apply careful_record|apply careful_decryptSecret].
Qed.

#[local] Instance careful_footprint : AuthFootprint enc cfg custody_wf keeps.
Proof.
  split; intros; [apply careful_draw|apply careful_user_create|apply careful_user_update|apply careful_sendEmail|apply careful_issue
    |apply careful_refreshToken_update|apply careful_revokeTokenFamily|apply careful_register].
Qed.

(** ** The whole system *)

Inductive wallet_call :=
| Ensure (now : Z) (user : string)
| Access (now : Z) (user : string) (action : WalletKeyAccessAction) (context : WalletAccessContext)
| RotateKey (now : Z) (user : string) (context : WalletAccessContext)
| Challenge (now : Z) (user password : string) (context : WalletAccessContext)
| Export (now : Z) (user password challenge code : string) (context : WalletAccessContext).

Definition exec_wallet (c : wallet_call) db : AccountDB :=
  match c with
  | Ensure now u => (ensureUserWallet enc now u db).1
  | Access now u a ctx => (decryptSecretForUser enc now u a ctx db).1
  | RotateKey now u ctx => (rotateUserWallet enc now u ctx db).1
  | Challenge now u pw ctx => (createRecoveryChallenge enc production now u pw ctx db).1
  | Export now u pw c code ctx => (exportSecretKey enc now u pw c code ctx db).1
  end.

(** A call of the sign-in service or of the wallet services. *)
Definition exec_system (c : auth_call + wallet_call) db : AccountDB :=
  match c with inl a => exec enc cfg a db | inr w => exec_wallet w db end.
Definition run_system (cs : list (auth_call + wallet_call)) db : AccountDB := foldl (λ db c, exec_system c db) db cs.

Lemma careful_wallet c db : custody_wf db → custody_wf (exec_wallet c db) ∧ rtc keeps db (exec_wallet c db).
Proof.
  destruct c; cbn [exec_wallet]; apply guarded_run;
    [|apply careful_decryptSecret|apply careful_rotateUserWallet|apply careful_createRecoveryChallenge|apply careful_exportSecretKey].
  unfold ensureUserWallet, getWalletByUserId. guarded_walk. apply careful_register.
Qed.

Lemma run_system_careful cs db : custody_wf db → custody_wf (run_system cs db) ∧ rtc keeps db (run_system cs db).
Proof.
  unfold run_system. revert db. induction cs as [|c cs IH]; intros db Hc; [done|]. simpl.
  assert (custody_wf (exec_system c db) ∧ rtc keeps db (exec_system c db)) as [Hc1 Hk1]
    by (destruct c; [by apply fp_exec; [apply careful_footprint|]|by apply careful_wallet]).
  destruct (IH _ Hc1) as [Hc2 Hk2]. split; [done|]. by etrans.
Qed.

Lemma empty_custody : custody_wf empty_accounts.
Proof. split; simpl; first [apply NoDup_nil_2|apply Forall_nil_2|by intros ? ?%not_elem_of_nil]. Qed.

Lemma run_system_app cs1 cs2 db : run_system (cs1 ++ cs2) db = run_system cs2 (run_system cs1 db).
Proof. unfold run_system. by rewrite foldl_app. Qed.
End custody.

(** ** Changing the master keys *)

Section rollout.
Context `{Prisma} `{Sha256} `{Bcrypt} `{JsonWebToken} `{NodeCipher} `{NodeRandom} `{JsNumber} `{StellarSdk} `{Mailer} `{OAuth}.
Context (cfg : AuthConfig) (production : bool).
Implicit Types (enc : EncryptionService) (db : AccountDB).

(** A configuration that still has the keys of an earlier one. *)
Definition extends enc enc' : Prop := masterKeys enc ⊆ masterKeys enc' ∧ legacySecret enc' = legacySecret enc.

Lemma secret_text_extends enc enc' data s : extends enc enc' → secret_text enc data = Some s → secret_text enc' data = Some s.
Proof.
  intros [Hk Hl]. unfold secret_text, decryptWithMetadata, decryptLegacyPayload, decryptPayload, getKeyByVersion. rewrite Hl.
  destruct (tryParsePayload data) as [p|]; [|done]. destruct (number_int (keyVersion p)) as [v|]; [|done]. cbn [mbind option_bind result_bind].
  destruct (masterKeys enc !! v) as [key|] eqn:E; [|done]. by rewrite (lookup_weaken _ _ _ _ E Hk).
Qed.

Lemma custody_extends enc enc' db : extends enc enc' → custody_wf enc db → custody_wf enc' db ∧ holdings enc' db = holdings enc db.
Proof.
  intros He [C1 C2 C3 C4]. assert (∀ w, w ∈ userWallets db → secret_text enc' (w_encryptedSecretKey w) = secret_text enc (w_encryptedSecretKey w)) as Hs.
  { intros w Hw. destruct (C4 w Hw) as [s Es]. rewrite Es. by eapply secret_text_extends. }
  split; [split; try done; intros w Hw; rewrite (Hs w Hw); by apply C4|].
  unfold holdings. apply Forall_fmap_ext, Forall_forall. intros w Hw. unfold holding. by rewrite (Hs w Hw).
Qed.

(** The server is started again and again, each time with its environment and
    followed by the calls made until the next start. *)
Record Deployment := mkDeployment { d_env : WalletKeyEnv; d_service : EncryptionService; d_calls : list (auth_call + wallet_call) }.

(** Every start succeeds, and keeps the keys configured before. *)
Fixpoint rollout enc (ds : list Deployment) : Prop :=
  match ds with
  | [] => True
  | d :: ds =>
      constructor (d_env d) = Ok (d_service d) ∧ safe_int (activeKeyVersion (d_service d)) ∧ extends enc (d_service d) ∧ rollout (d_service d) ds
  end.

Fixpoint run_rollout enc (ds : list Deployment) db : EncryptionService * AccountDB :=
  match ds with
  | [] => (enc, db)
  | d :: ds => run_rollout (d_service d) ds (run_system (d_service d) cfg production (d_calls d) db)
  end.

Lemma rollout_careful ds enc db : custody_wf enc db → rollout enc ds →
  let '(enc', db') := run_rollout enc ds db in
  custody_wf enc' db' ∧ holdings enc db `prefix_of` holdings enc' db' ∧ keyAudits db `prefix_of` keyAudits db'.
Proof.
  revert enc db. induction ds as [|d ds IH]; intros enc db Hc; [done|]. cbn [rollout run_rollout]. intros (Hb & Hs & He & Hr).
  destruct (custody_extends enc (d_service d) db He Hc) as [Hc' Eh].
  destruct (run_system_careful (d_service d) cfg production (constructor_wf _ _ Hb) Hs (d_calls d) db Hc') as [Hc1 [Hk1 Ha1]%keeps_all].
  specialize (IH (d_service d) _ Hc1 Hr). destruct (run_rollout _ _ _) as [enc' db']. destruct IH as (? & ? & ?).
  rewrite Eh in Hk1. split; [done|]. split; by etrans.
Qed.

Lemma rollout_service ds enc db : service_wf enc → safe_int (activeKeyVersion enc) → rollout enc ds →
  let enc' := (run_rollout enc ds db).1 in service_wf enc' ∧ safe_int (activeKeyVersion enc').
Proof.
  revert enc db. induction ds as [|d ds IH]; intros enc db Hw Hs; [done|]. cbn [rollout run_rollout]. intros (Hb & Hs' & _ & Hr).
  apply IH; [by eapply constructor_wf|done|done].
Qed.

(** What was rotated is sealed under the active key. *)
Lemma encrypt_current enc n text data : service_wf enc → safe_int (activeKeyVersion enc) →
  encrypt enc n text (activeKeyVersion enc) = Ok data → needsRotation enc data = false.
Proof.
  intros Hwf Hs He. destruct (active_key _ Hwf) as [key Hk].
  destruct (encrypt_ok enc n text _ key Hs Hk (keys_length _ Hwf _ _ Hk)) as (data' & p & He' & Hp & Hkv & _).
  assert (data = data') as -> by congruence. unfold needsRotation. rewrite Hp, Hkv, number_int_pretty by done. by rewrite bool_decide_true.
Qed.

Lemma record_wallets x db : post (record_access x) db (λ db' _, userWallets db' = userWallets db) (λ _ _, True).
Proof.
  unfold record_access, keyAudit_create. m_step. m_step. m_step. m_step. case_bool_decide; [by m_step|]. destruct (_ && _); by m_step.
Qed.

Lemma rotate_current enc now u ctx db : service_wf enc → safe_int (activeKeyVersion enc) → custody_wf enc db →
  post (rotateUserWallet enc now u ctx) db (λ db' _, ∀ w, w ∈ userWallets db' → w_userId w = u → needsRotation enc (w_encryptedSecretKey w) = false) (λ _ _, True).
Proof.
  intros Hwf Hs [C1 _ C3 _]. unfold rotateUserWallet, getWalletByUserId. m_step. m_step.
  destruct (row_find w_userId u _) as [w0|] eqn:Hrow; [|by m_step]. apply row_find_Some in Hrow as [Hw0 Hu0].
  destruct (negb (needsRotation enc (w_encryptedSecretKey w0))) eqn:En.
  { m_step. intros w Hw Hu. assert (w = w0) as -> by (eapply (NoDup_key_inj w_userId); [exact C3|done|done|congruence]). by destruct (needsRotation _ _). }
  unfold draw. do 6 m_step. unfold of_result. destruct (rotate enc _ _) as [r|] eqn:Er; [|by m_step]. m_step.
  assert (needsRotation enc (encrypted r) = false) as Hr.
  { unfold rotate in Er. destruct (decryptWithMetadata _ _) as [d|]; [|done]. cbn [mbind result_bind] in Er.
    destruct (encrypt enc _ _ _) as [t|] eqn:Et; [|done]. injection Er as <-. by eapply encrypt_current. }
  unfold userWallet_update. do 4 m_step.
  match goal with |- context [row_find w_id ?i ?l] => destruct (row_find w_id i l) as [w1|] end; [|by m_step]. do 4 m_step.
  eapply post_mono; [apply record_wallets| |done]. intros db' a Ew. m_step. rewrite Ew. cbn. intros w Hw Hu.
  unfold row_update in Hw. apply list_elem_of_fmap in Hw as (x & -> & Hx). case_bool_decide as E; [done|].
  destruct E. f_equal. eapply (NoDup_key_inj w_userId); [exact C3|done|done|congruence].
Qed.
End rollout.
(** C7: the server is started any number of times with configurations that keep
    the master keys of the ones before, and may add keys and name another active one;
    in between, calls of the sign-in and wallet services are made in any order and
    return or throw.  Then every user has at most one wallet, the secret of every
    stored wallet can be decrypted, no wallet ever disappears or changes its owner, its
    public key or its secret, rotations to another master key and failures half-way
    included, and the log of key accesses only grows.  A rotation that returns leaves
    the wallet under the active key, with the secret it had. *)
Theorem secrets_survive `{Prisma} `{Sha256} `{Bcrypt} `{JsonWebToken} `{NodeCipher} `{NodeRandom} `{JsNumber} `{StellarSdk} `{Mailer} `{OAuth}
    cfg production env enc cs ds :
  constructor env = Ok enc → safe_int (activeKeyVersion enc) → rollout enc ds →
  let db := run_system enc cfg production cs empty_accounts in
  let '(enc', db') := run_rollout cfg production enc ds db in
  NoDup (w_userId <$> userWallets db') ∧
  (∀ w, w ∈ userWallets db' → is_Some (secret_text enc' (w_encryptedSecretKey w))) ∧
  holdings enc db `prefix_of` holdings enc' db' ∧ keyAudits db `prefix_of` keyAudits db' ∧
  ∀ now u ctx db'' r, rotateUserWallet enc' now u ctx db' = (db'', Ok r) →
    holdings enc' db' `prefix_of` holdings enc' db'' ∧
    ∀ w, w ∈ userWallets db'' → w_userId w = u → needsRotation enc' (w_encryptedSecretKey w) = false.
Proof.
  intros Hb Hs Hr. cbv zeta. pose proof (constructor_wf _ _ Hb) as Hwf.
  destruct (run_system_careful enc cfg production Hwf Hs cs empty_accounts (empty_custody enc)) as [Hc _].
  assert (let enc' := (run_rollout cfg production enc ds (run_system enc cfg production cs empty_accounts)).1 in service_wf enc' ∧ safe_int (activeKeyVersion enc')) as [Hwf' Hs'].
  { by apply rollout_service. }
  pose proof (rollout_careful cfg production ds enc _ Hc Hr) as Hd. destruct (run_rollout _ _ _ _ _) as [enc' db']. destruct Hd as (Hc' & Hh & Ha).
  pose proof Hc' as [_ _ C3 C4]. split_and!; try done. intros now u ctx db'' r Hrot. split.
  - pose proof (careful_wallet enc' production Hwf' Hs' (RotateKey now u ctx) db' Hc') as [_ [Hk _]%keeps_all]. cbn [exec_wallet] in Hk. by rewrite Hrot in Hk.
  - exact (post_ok _ _ _ _ _ _ Hrot (rotate_current enc' now u ctx db' Hwf' Hs' Hc')).
Qed.
