(* ===== verification/WalletRecoverySpec.v ===== *)
(** * What the export of secrets guarantees

    One open challenge per user, five attempts, closed challenges stay closed;
    a secret is released only for the right password and the right code of an
    open challenge, which is then used up. *)

From Stdlib Require Import Ascii.
From stdpp Require Import prelude gmap strings list pretty relations.
From S2P Require Import Prelude JsText JsBuffer Prisma Crypto AuthConfig Json JsonParse Encryption Accounts StellarWallet Auth Sessions AuthInv AuthSpec WalletRecovery StellarWalletSpec.

Section recovery.
Context `{Prisma} `{Sha256} `{Bcrypt} `{JsonWebToken} `{NodeCipher} `{NodeRandom} `{JsNumber} `{StellarSdk} `{Mailer} `{OAuth}.
Context (enc : EncryptionService) (cfg : AuthConfig) (production : bool).
Implicit Types (db : AccountDB) (c : WalletRecoveryChallenge).

Record recovery_wf db : Prop := {
  rw_ids : NoDup (c_id <$> challenges db);
  rw_issued : Forall (issued (serial db)) (c_id <$> challenges db);
  rw_one : ∀ c c', c ∈ challenges db → c' ∈ challenges db → c_userId c = c_userId c' →
    c_status c = PENDING → c_status c' = PENDING → c = c';
  rw_attempts : ∀ c, c ∈ challenges db → c_maxAttempts c = RECOVERY_CODE_MAX_ATTEMPTS ∧ 0 ≤ c_attempts c ≤ c_maxAttempts c ∧
    (c_status c = PENDING → c_attempts c < c_maxAttempts c);
}.

(** A challenge that is open may close and count attempts; a closed one never
    changes. *)
Definition grown c c' : Prop :=
  c_id c' = c_id c ∧ c_userId c' = c_userId c ∧ c_walletId c' = c_walletId c ∧ c_codeHash c' = c_codeHash c ∧
  c_expiresAt c' = c_expiresAt c ∧ c_attempts c ≤ c_attempts c' ∧ (c_status c ≠ PENDING → c' = c).

Definition progress db db' : Prop := ∀ c, c ∈ challenges db → ∃ c', c' ∈ challenges db' ∧ grown c c'.

Lemma grown_refl c : grown c c.
Proof. unfold grown. split_and!; done || lia. Qed.

Lemma grown_trans c1 c2 c3 : grown c1 c2 → grown c2 c3 → grown c1 c3.
Proof.
  unfold grown. intros (? & ? & ? & ? & ? & ? & Hf) (? & ? & ? & ? & ? & ? & Hf'). split_and!; try congruence; [lia|].
  intros Hs. pose proof (Hf Hs) as E. subst c2. by apply Hf'.
Qed.

Lemma progress_all db db' : rtc progress db db' → progress db db'.
Proof.
  induction 1 as [db|db1 db2 db3 Hp _ IH]; intros c Hc; [exists c; split; [done|apply grown_refl]|].
  destruct (Hp c Hc) as (c2 & Hc2 & G2). destruct (IH c2 Hc2) as (c3 & Hc3 & G3). exists c3. split; [done|]. by eapply grown_trans.
Qed.

Notation orderly := (guarded recovery_wf progress).

(** ** Everything but the recovery service leaves the challenges alone *)

Definition untouched db db' : Prop := challenges db' = challenges db ∧ (serial db ≤ serial db')%nat.
Notation steady := (guarded (λ _ : AccountDB, True) untouched).

Lemma untouched_all db db' : rtc untouched db db' → untouched db db'.
Proof. unfold untouched. induction 1 as [|db1 db2 db3 [? ?] _ [? ?]]; [done|]. split; [congruence|lia]. Qed.

Ltac steady_step := split; [done|]; apply rtc_once; split; simpl; [done|lia].

Lemma steady_draw {A} (f : nat → A) : steady (draw f).
Proof. intros db _. unfold draw. repeat m_step. steady_step. Qed.
Lemma steady_user_create now d : steady (user_create now d).
Proof. intros db _. unfold user_create. m_step. m_step. destruct (user_conflict _ _); repeat m_step; steady_step. Qed.
Lemma steady_user_update now i f : steady (user_update now i f).
Proof.
  intros db _. unfold user_update. m_step. m_step. destruct (row_find _ _ _); [|m_step; steady_step].
  destruct (user_conflict _ _); repeat m_step; steady_step.
Qed.
Lemma steady_sendEmail e : steady (sendEmail e).
Proof.
  unfold sendEmail. apply guarded_bind; [apply steady_draw|]. intros [err|]; [apply guarded_throw|]. intros db _. m_step. steady_step.
Qed.
Lemma steady_issue now u f p : steady (issueSessionTokens cfg now u f p).
Proof.
  intros db _. eapply post_mono; [apply issue_spec|..]; [|by intros db' e [-> _]].
  intros db' tk [(fam & d & _ & _ & _ & _ & ->) _]. steady_step.
Qed.
Lemma steady_refreshToken_update i f : steady (refreshToken_update i f).
Proof. intros db _. unfold refreshToken_update. m_step. m_step. destruct (row_find _ _ _); m_step; steady_step. Qed.
Lemma steady_revokeTokenFamily now f : steady (revokeTokenFamily now f).
Proof. intros db _. unfold revokeTokenFamily. m_step. steady_step. Qed.
Lemma steady_record x : steady (record_access x).
Proof.
  unfold record_access. apply guarded_bind; [apply guarded_gets|]. intros prev db _. unfold keyAudit_create.
  m_step. m_step. case_bool_decide; [m_step; steady_step|]. destruct (_ && _); m_step; steady_step.
Qed.
Lemma steady_wallet_create now u pk data v : steady (userWallet_create now u pk data v).
Proof.
  intros db _. unfold userWallet_create. m_step. m_step. repeat (case_bool_decide; [repeat m_step; steady_step|]). m_step. steady_step.
Qed.
Lemma steady_wallet_update i f : steady (userWallet_update i f).
Proof. intros db _. unfold userWallet_update. m_step. m_step. destruct (row_find _ _ _); repeat m_step; steady_step. Qed.

Lemma steady_register now u : steady (registerUserWallet enc now u).
Proof.
  unfold registerUserWallet, getWalletByUserId. guarded_walk;
    first [apply steady_draw|apply guarded_of_result|apply steady_wallet_create|apply steady_user_update].
Qed.

Lemma steady_decryptSecret now u a ctx : steady (decryptSecretForUser enc now u a ctx).
Proof.
  unfold decryptSecretForUser, getWalletByUserId, rotate_if_needed. guarded_walk;
    first [apply steady_draw|apply guarded_of_result|apply steady_wallet_update|apply steady_record].
Qed.

Lemma steady_rotateUserWallet now u ctx : steady (rotateUserWallet enc now u ctx).
Proof.
  unfold rotateUserWallet, getWalletByUserId. guarded_walk;
    first [apply steady_draw|apply guarded_of_result|apply steady_wallet_update|apply steady_record].
Qed.

#[local] Instance steady_footprint : AuthFootprint enc cfg (λ _, True) untouched.
Proof.
  split; intros; [apply steady_draw|apply steady_user_create|apply steady_user_update|apply steady_sendEmail|apply steady_issue
    |apply steady_refreshToken_update|apply steady_revokeTokenFamily|apply steady_register].
Qed.

Lemma steady_auth (a : auth_call) db : untouched db (exec enc cfg a db).
Proof. apply untouched_all. by apply (fp_exec enc cfg (λ _, True) untouched). Qed.

Lemma untouched_wf db db' : recovery_wf db → untouched db db' → recovery_wf db' ∧ rtc progress db db'.
Proof.
  intros [] [Hc Hs]. split.
  - split; rewrite ?Hc; try done. eapply Forall_impl; [done|]. intros i Hi. by eapply issued_le.
  - apply rtc_once. intros c Hin. exists c. rewrite Hc. split; [done|apply grown_refl].
Qed.

Lemma steady_orderly {A} (m : M AccountDB A) : steady m → orderly m.
Proof.
  intros Hm db Hw. eapply post_mono; [by apply Hm|..]; intros db' x [_ Hu%untouched_all]; by apply untouched_wf.
Qed.

(** ** The recovery service *)

Lemma closed_wf (f : WalletRecoveryChallenge → WalletRecoveryChallenge) db :
  recovery_wf db → (∀ c, c ∈ challenges db → f c = c ∨
    (c_status c = PENDING ∧ grown c (f c) ∧ c_status (f c) ≠ PENDING ∧ c_maxAttempts (f c) = c_maxAttempts c ∧
     c_attempts (f c) ≤ c_maxAttempts c)) →
  recovery_wf (set_challenges (f <$> challenges db) db) ∧ progress db (set_challenges (f <$> challenges db) db).
Proof.
  intros [] Hf.
  assert (c_id <$> (f <$> challenges db) = c_id <$> challenges db) as Hids.
  { rewrite <- list_fmap_compose. apply Forall_fmap_ext, Forall_forall. intros c Hc. simpl. by destruct (Hf c Hc) as [->|(_ & [-> _] & _)]. }
  assert (∀ c, c ∈ challenges db → c_status (f c) = PENDING → f c = c) as Hopen
    by (intros c Hc Hs; by destruct (Hf c Hc) as [?|(_ & _ & ? & _)]).
  split; [split; simpl; rewrite ?Hids; try done|].
  - intros x y (c & -> & Hc)%list_elem_of_fmap (c' & -> & Hc')%list_elem_of_fmap E Hs Hs'.
    pose proof (Hopen c Hc Hs) as E1. pose proof (Hopen c' Hc' Hs') as E2. rewrite E1, E2 in *. by apply rw_one0.
  - intros x (c & -> & Hc)%list_elem_of_fmap. destruct (rw_attempts0 c Hc) as (Hm & Ha & Hp).
    destruct (Hf c Hc) as [->|(_ & (_ & _ & _ & _ & _ & Hle & _) & Hs & Hm' & Ha')]; [done|].
    rewrite Hm'. split_and!; [done|lia|lia|done].
  - intros c Hc. exists (f c). split; [by apply list_elem_of_fmap_2|].
    destruct (Hf c Hc) as [->|(_ & Hg & _)]; [apply grown_refl|done].
Qed.

(** Closing a challenge, or counting a wrong code. *)
Lemma challenge_update_orderly ch (f : WalletRecoveryChallenge → WalletRecoveryChallenge) db :
  recovery_wf db → ch ∈ challenges db → c_status ch = PENDING → grown ch (f ch) → c_maxAttempts (f ch) = c_maxAttempts ch →
  c_attempts (f ch) ≤ c_maxAttempts ch → (c_status (f ch) = PENDING → c_attempts (f ch) < c_maxAttempts ch) →
  (∀ c, c_id (f c) = c_id c) →
  let db' := set_challenges (row_update c_id (c_id ch) f (challenges db)) db in
  challenge_update (c_id ch) f db = (db', Ok (f ch)) ∧ recovery_wf db' ∧ progress db db'.
Proof.
  intros Hw Hch Hs Hg Hm Ha Hlt Hid. cbv zeta. pose proof Hw as [].
  assert (∀ c, c ∈ challenges db → c_id c = c_id ch → c = ch) as Heq by (intros c Hc E; by eapply (NoDup_key_inj c_id)).
  split; [|split].
  - unfold challenge_update, mbind, M_bind, get, put.
    by rewrite (row_find_elem c_id _ (challenges db) ch rw_ids0 Hch eq_refl).
  - split; simpl; rewrite ?(row_update_ids c_id) by done; try done.
    + intros x y (c & Hc & ->)%elem_of_row_update (c' & Hc' & ->)%elem_of_row_update.
      assert (c_userId (f ch) = c_userId ch) as Hu by apply Hg.
      destruct (decide (c_id c = c_id ch)) as [E|E], (decide (c_id c' = c_id ch)) as [E'|E'];
        rewrite ?(bool_decide_true _ E), ?(bool_decide_true _ E'), ?(bool_decide_false _ E), ?(bool_decide_false _ E');
        intros Eu Es Es'; try apply (Heq c Hc) in E as ->; try apply (Heq c' Hc') in E' as ->.
      * done.
      * exfalso. apply E'. f_equal. symmetry. apply rw_one0; [done|done|congruence|done|done].
      * exfalso. apply E. f_equal. apply rw_one0; [done|done|congruence|done|done].
      * by apply rw_one0.
    + intros x (c & Hc & ->)%elem_of_row_update. case_bool_decide as E; [|by apply rw_attempts0].
      rewrite (Heq c Hc E). destruct (rw_attempts0 ch Hch) as (? & ? & _). destruct Hg as (_ & _ & _ & _ & _ & ? & _).
      rewrite Hm. split_and!; [done|lia|lia|done].
  - intros c Hc. exists (if bool_decide (c_id c = c_id ch) then f c else c). split; [apply elem_of_row_update; by exists c|].
    case_bool_decide as E; [|apply grown_refl]. by rewrite (Heq c Hc E).
Qed.

Lemma orderly_open now u wid h e ctx :
  orderly (transaction (_ ← cancel_pending now u; challenge_create now u wid h e ctx)).
Proof.
  intros db Hw. m_step. m_step. unfold cancel_pending. m_step. 
  set (f := λ c, if bool_decide (c_userId c = u) && bool_decide (c_status c = PENDING) then c_with_status now CANCELLED c else c).
  destruct (closed_wf f db Hw) as [Hw1 Hp1].
  { intros c Hc. unfold f. destruct (bool_decide (c_userId c = u)) eqn:Eu; [|by left].
    destruct (decide (c_status c = PENDING)) as [Es|Es]; [rewrite (bool_decide_true _ Es)|left; by rewrite (bool_decide_false _ Es)].
    right. destruct (rw_attempts _ Hw c Hc) as (_ & Ha & _). unfold grown. simpl. split_and!; first [done|lia|by intros []]. }
  set (db1 := set_challenges (f <$> challenges db) db) in *.
  assert (∀ c, c ∈ challenges db1 → c_userId c = u → c_status c ≠ PENDING) as Hno.
  { intros x (c & -> & Hc)%list_elem_of_fmap. unfold f. case_bool_decide as Eu; simpl; [|done]. by case_bool_decide. }
  unfold challenge_create. m_step. m_step. destruct (_ && _); [|by m_step]. repeat m_step. clearbody db1. destruct Hw1. split.
  - split; simpl; rewrite ?fmap_snoc.
    + by apply fresh_snoc.
    + by apply issued_snoc.
    + intros x y [Hx| ->]%elem_of_snoc [Hy| ->]%elem_of_snoc E S1 S2; [by apply rw_one0|..]; try done;
        exfalso; by eapply Hno.
    + intros x [Hx| ->]%elem_of_snoc; [by apply rw_attempts0|]. simpl. unfold RECOVERY_CODE_MAX_ATTEMPTS. split_and!; done || lia.
  - eapply rtc_l; [exact Hp1|]. apply rtc_once. intros c Hc. exists c. simpl. rewrite elem_of_snoc.
    split; [by left|apply grown_refl].
Qed.

Lemma authenticate_spec u pw db : post (authenticate u pw) db
  (λ db' usr, db' = db ∧ usr ∈ users db ∧ u_id usr = u ∧ bcrypt_compare pw (u_passwordHash usr) = true) (λ db' _, db' = db).
Proof.
  unfold authenticate. m_step. m_step. destruct (row_find _ _ _) as [usr|] eqn:Hr; [|by m_step].
  apply row_find_Some in Hr as [? ?]. destruct (bcrypt_compare _ _) eqn:Hc; simpl; by m_step.
Qed.

Lemma orderly_authenticate u pw : orderly (authenticate u pw).
Proof. unfold authenticate. guarded_walk. Qed.

Lemma orderly_create now u pw ctx : orderly (createRecoveryChallenge enc production now u pw ctx).
Proof.
  unfold createRecoveryChallenge, ensureUserWallet, getWalletByUserId, generateRecoveryCode.
  apply guarded_bind; [apply orderly_authenticate|intros _].
  apply guarded_bind; [guarded_walk; apply steady_orderly, steady_register|intros summary].
  apply guarded_bind; [apply guarded_gets|]. intros [w|]; [|apply guarded_throw].
  apply guarded_bind; [guarded_walk; apply steady_orderly, steady_draw|intros code]. cbv zeta.
  apply guarded_bind; [apply orderly_open|intros _]. guarded_walk. apply steady_orderly, steady_record.
Qed.

(** ** Releasing a secret *)

Lemma decryptSecret_spec now u a ctx db : post (decryptSecretForUser enc now u a ctx) db
  (λ _ r, ∃ w, w ∈ userWallets db ∧ w_userId w = u ∧ secret_text enc (w_encryptedSecretKey w) = Some r.1.1 ∧ r.2 = w_publicKey w)
  (λ _ _, True).
Proof.
  unfold decryptSecretForUser, getWalletByUserId. m_step. m_step. destruct (row_find _ _ _) as [w|] eqn:Hr; [|by m_step].
  apply row_find_Some in Hr as [Hw Hu]. m_step. m_step.
  unfold of_result. destruct (decryptWithMetadata enc (w_encryptedSecretKey w)) as [d|e] eqn:Hd; [|m_step; apply post_rethrow].
  m_step. m_step. eapply post_mono; [apply post_true| |intros s' e _; apply post_rethrow]. intros s1 x _. m_step.
  eapply post_mono; [apply post_true| |intros s' e _; apply post_rethrow]. intros s2 y _. m_step.
  exists w. split_and!; [done|done| |done]. unfold secret_text. by rewrite Hd.
Qed.

(** The conditions under which the secret of [u] is released. *)
Definition released (now : Z) (u pw challenge code : string) db db' (keys : string * string) : Prop :=
  ∃ usr c w c',
    usr ∈ users db ∧ u_id usr = u ∧ bcrypt_compare pw (u_passwordHash usr) = true ∧
    c ∈ challenges db ∧ c_id c = challenge ∧ c_userId c = u ∧ c_status c = PENDING ∧ now < c_expiresAt c ∧
    c_attempts c < RECOVERY_CODE_MAX_ATTEMPTS ∧ c_codeHash c = hashRecoveryCode code ∧
    w ∈ userWallets db ∧ w_userId w = u ∧ keys.1 = w_publicKey w ∧ secret_text enc (w_encryptedSecretKey w) = Some keys.2 ∧
    c' ∈ challenges db' ∧ c_id c' = challenge ∧ c_status c' = COMPLETED.

Definition LimitReached : exn := HttpError 429 "Recovery challenge attempt limit reached".

Ltac closes := unfold grown; simpl; try case_bool_decide; repeat match goal with |- _ ∧ _ => split end; first [done|lia|by intros []].

Lemma export_post now u pw challenge code ctx db : recovery_wf db →
  post (exportSecretKey enc now u pw challenge code ctx) db
    (λ db' keys, (recovery_wf db' ∧ rtc progress db db') ∧ released now u pw challenge code db db' keys)
    (λ db' _, recovery_wf db' ∧ rtc progress db db').
Proof.
  intros Hw. unfold exportSecretKey. m_step. eapply post_mono; [apply authenticate_spec| |intros db' e ->; by split].
  intros db' usr (-> & Husr & Hid & Hpw). m_step. m_step.
  destruct (row_find c_id challenge (challenges db)) as [c|] eqn:Hr; [|m_step; by split].
  apply row_find_Some in Hr as [Hc Hcid]. case_bool_decide as Hu; simpl; [|m_step; by split].
  case_bool_decide as Hs; simpl; [|m_step; by split]. destruct (rw_attempts _ Hw c Hc) as (Hmax & Hrange & Hlt). specialize (Hlt Hs).
  case_bool_decide as He.
  { destruct (challenge_update_orderly c (c_with_status now EXPIRED) db Hw Hc Hs ltac:(closes) ltac:(done) ltac:(closes) ltac:(done)
      ltac:(done)) as (E & Hw' & Hp').
    m_step. unfold post at 1. rewrite E. cbv beta iota. m_step. split; [done|by apply rtc_once]. }
  rewrite bool_decide_false by lia. rewrite constantTimeEquals_eq. case_bool_decide as Hh; simpl.
  2:{ unfold wrong_code. m_step. m_step.
      destruct (challenge_update_orderly c (λ c0, c_attempted now (if bool_decide (c_maxAttempts c ≤ c_attempts c + 1) then CANCELLED else PENDING)
        (c_completedAt c0) c0) db Hw Hc Hs ltac:(closes) ltac:(done) ltac:(closes) ltac:(simpl; case_bool_decide; [done|lia])
        ltac:(done)) as (E & Hw' & Hp').
      unfold post at 1. rewrite E. cbv beta iota. eapply post_mono; [apply (steady_orderly _ (steady_record _)), Hw'|..].
      - intros db2 x [Hw2 Hp2]. m_step. split; [done|]. by eapply rtc_l.
      - intros db2 e [Hw2 Hp2]. split; [done|]. by eapply rtc_l. }
  m_step. eapply post_mono; [apply post_and; [apply decryptSecret_spec|apply (steady_decryptSecret _ _ _ _ db I)]|..].
  2:{ intros db' e [_ [_ Hun%untouched_all]]. by apply untouched_wf. }
  intros db1 [[sk wid] pk] [(w & Hwin & Hwu & Hsec & Hpk) [_ Hun%untouched_all]]. simpl in Hsec, Hpk.
  destruct (untouched_wf db db1 Hw Hun) as [Hw1 Hp1]. m_step.
  destruct (challenge_update_orderly c (c_attempted now COMPLETED (Some now)) db1 Hw1 ltac:(by rewrite (proj1 Hun)) Hs
    ltac:(closes) ltac:(done) ltac:(closes) ltac:(done) ltac:(done)) as (E & Hw2 & Hp2).
  unfold post at 1. rewrite E. cbv beta iota. set (db2 := set_challenges _ db1) in *. m_step.
  eapply post_mono; [apply (steady_record _ db2 I)|..].
  - intros db3 x [_ Hun3%untouched_all]. destruct (untouched_wf db2 db3 Hw2 Hun3) as [Hw3 Hp3]. m_step.
    split; [split; [done|]; etrans; [exact Hp1|]; by eapply rtc_l|].
    exists usr, c, w, (c_attempted now COMPLETED (Some now) c). rewrite <- Hcid.
    split_and!; try done; try lia. rewrite (proj1 Hun3). unfold db2. simpl. apply elem_of_row_update. exists c.
    rewrite (proj1 Hun). split; [done|]. by rewrite bool_decide_true.
  - intros db3 e [_ Hun3%untouched_all]. destruct (untouched_wf db2 db3 Hw2 Hun3) as [Hw3 Hp3].
    split; [done|]. etrans; [exact Hp1|]. by eapply rtc_l.
Qed.

(** ** Runs *)

Lemma export_orderly now u pw ch code ctx db : recovery_wf db →
  recovery_wf (exportSecretKey enc now u pw ch code ctx db).1 ∧ rtc progress db (exportSecretKey enc now u pw ch code ctx db).1.
Proof.
  intros Hw. pose proof (export_post now u pw ch code ctx db Hw) as Hp. unfold post in Hp.
  destruct (exportSecretKey enc now u pw ch code ctx db) as [db' [k|e]]; [by destruct Hp|done].
Qed.

Lemma steady_run {A} (m : M AccountDB A) db : steady m → recovery_wf db → recovery_wf (m db).1 ∧ rtc progress db (m db).1.
Proof. intros Hm Hw. apply guarded_run; [by apply steady_orderly|done]. Qed.

Lemma orderly_system x db : recovery_wf db →
  recovery_wf (exec_system enc cfg production x db) ∧ rtc progress db (exec_system enc cfg production x db).
Proof.
  intros Hw. destruct x as [a|w]; cbn [exec_system]; [apply untouched_wf; [done|apply steady_auth]|].
  destruct w; cbn [exec_wallet].
  - apply steady_run; [|done]. unfold ensureUserWallet, getWalletByUserId. guarded_walk. apply steady_register.
  - apply steady_run; [apply steady_decryptSecret|done].
  - apply steady_run; [apply steady_rotateUserWallet|done].
  - apply guarded_run; [apply orderly_create|done].
  - by apply export_orderly.
Qed.

Lemma run_system_orderly cs db : recovery_wf db →
  recovery_wf (run_system enc cfg production cs db) ∧ rtc progress db (run_system enc cfg production cs db).
Proof.
  unfold run_system. revert db. induction cs as [|x cs IH]; intros db Hw; [done|]. simpl.
  destruct (orderly_system x db Hw) as [Hw1 Hp1]. destruct (IH _ Hw1) as [Hw2 Hp2]. split; [done|]. by etrans.
Qed.

Lemma empty_recovery : recovery_wf empty_accounts.
Proof.
  split; simpl; first [apply NoDup_nil_2|apply Forall_nil_2|by intros ? ?%not_elem_of_nil|by intros ? ? ?%not_elem_of_nil].
Qed.

Lemma closed_refused now u pw code ctx db c : recovery_wf db → c ∈ challenges db → c_status c ≠ PENDING →
  ∃ e, (exportSecretKey enc now u pw (c_id c) code ctx db).2 = Throw e.
Proof.
  intros Hw Hc Hs. pose proof (export_post now u pw (c_id c) code ctx db Hw) as Hp. unfold post in Hp.
  destruct (exportSecretKey enc now u pw (c_id c) code ctx db) as [db' [k|e]]; [|by exists e].
  destruct Hp as [_ (_ & c1 & _ & _ & _ & _ & _ & Hc1 & Hid & _ & Hs1 & _)].
  assert (c1 = c) as -> by (eapply (NoDup_key_inj c_id); [apply (rw_ids _ Hw)|done|done|done]). done.
Qed.

Notation run := (run_system enc cfg production).

(** After any calls of the sign-in and wallet services, a user has at most
    one pending recovery challenge, every challenge has counted between zero and
    five attempts, and one that counts five is closed: a code can be guessed at
    most five times. *)
Theorem recovery_invariant cs : let db := run cs empty_accounts in
  (∀ c c', c ∈ challenges db → c' ∈ challenges db → c_userId c = c_userId c' →
     c_status c = PENDING → c_status c' = PENDING → c = c') ∧
  (∀ c, c ∈ challenges db → 0 ≤ c_attempts c ≤ 5 ∧ (c_attempts c = 5 → c_status c ≠ PENDING)).
Proof.
  destruct (run_system_orderly cs empty_accounts empty_recovery) as [[_ _ Hone Ha] _]. split; [exact Hone|].
  intros c Hc. destruct (Ha c Hc) as (Hm & Hr & Hlt). unfold RECOVERY_CODE_MAX_ATTEMPTS in Hm. split; [lia|].
  intros E Hs. specialize (Hlt Hs). lia.
Qed.

(** C18: a secret key is released only to who gives the user's password and the
    code of a pending, unexpired challenge of that user with attempts left; what
    is released is the public key of the user's wallet and the secret it
    decrypts to.  The challenge is used up: whatever happens afterwards, no
    export with it ever succeeds again. *)
Theorem export_once cs now u pw ch code ctx db' keys :
  exportSecretKey enc now u pw ch code ctx (run cs empty_accounts) = (db', Ok keys) →
  released now u pw ch code (run cs empty_accounts) db' keys ∧
  ∀ cs2 now2 u2 pw2 code2 ctx2, ∃ e, (exportSecretKey enc now2 u2 pw2 ch code2 ctx2 (run cs2 db')).2 = Throw e.
Proof.
  intros He. destruct (run_system_orderly cs empty_accounts empty_recovery) as [Hw _].
  pose proof (export_post now u pw ch code ctx _ Hw) as Hp. unfold post in Hp. rewrite He in Hp. destruct Hp as [[Hw' _] Hrel].
  split; [exact Hrel|]. destruct Hrel as (usr & c & w & c' & Hrel). intros cs2 now2 u2 pw2 code2 ctx2.
  assert (c' ∈ challenges db' ∧ c_id c' = ch ∧ c_status c' = COMPLETED) as (Hc' & Hid & Hs) by tauto.
  destruct (run_system_orderly cs2 db' Hw') as [Hw2 Hp2%progress_all]. destruct (Hp2 c' Hc') as (c2 & Hc2 & G).
  assert (c2 = c') as -> by (apply G; by rewrite Hs). rewrite <- Hid. apply closed_refused; [done..|]. by rewrite Hs.
Qed.
End recovery.
