(* ===== verification/KeyLog.v ===== *)
(** * The log of key accesses

    [server/src/services/wallet-audit.service.ts]: every entry carries the hash of
    its contents and of the entry before, so the hash of the newest entry pins
    the whole log; and no secret is returned without its entry. *)

From Stdlib Require Import Ascii.
From stdpp Require Import prelude gmap strings list pretty sorting relations.
From S2P Require Import Prelude JsText JsBuffer Prisma Crypto AuthConfig Json JsonParse Encryption Accounts StellarWallet Auth Sessions AuthInv AuthSpec WalletRecovery StellarWalletSpec.

Section log.
Context `{Prisma} `{Sha256} `{Bcrypt} `{JsonWebToken} `{NodeCipher} `{NodeRandom} `{JsNumber} `{StellarSdk} `{Mailer} `{OAuth}.
Implicit Types (db : AccountDB) (k : WalletKeyAccessAudit) (l : list WalletKeyAccessAudit).

(** What an entry says. *)
Definition contents k : WalletAuditContext :=
  mkAuditContext (k_walletId k) (k_actorUserId k) (k_action k) (k_success k) (k_requestId k) (k_ipAddress k) (k_userAgent k)
    (k_reason k) (k_keyVersion k) (k_metadata k).

(** The hashes of a log that starts after [prev]. *)
Fixpoint hash_chain (prev : option string) l : Prop :=
  match l with
  | [] => True
  | k :: l' => k_previousHash k = prev ∧ k_entryHash k = audit_hash (contents k) prev ∧ hash_chain (Some (k_entryHash k)) l'
  end.

Definition head_hash (prev : option string) l : option string :=
  match last l with Some k => Some (k_entryHash k) | None => prev end.

Lemma hash_chain_snoc prev l k : hash_chain prev (l ++ [k]) ↔
  hash_chain prev l ∧ k_previousHash k = head_hash prev l ∧ k_entryHash k = audit_hash (contents k) (head_hash prev l).
Proof.
  revert prev. induction l as [|x l IH]; intros prev; simpl; [unfold head_hash; simpl; tauto|].
  rewrite IH. assert (head_hash prev (x :: l) = head_hash (Some (k_entryHash x)) l) as ->; [|tauto].
  unfold head_hash. rewrite last_cons. by destruct (last l).
Qed.

(** Every entry is hashed with the hash of an earlier one, or it is a first one. *)
Definition linked_to l k : Prop :=
  k_entryHash k = audit_hash (contents k) (k_previousHash k) ∧
  (k_previousHash k = None ∨ ∃ p, p ∈ l ∧ k_previousHash k = Some (k_entryHash p)).
Definition linked l : Prop := ∀ i k, l !! i = Some k → linked_to (take i l) k.

Lemma log_linked_snoc l k : linked l → linked_to l k → linked (l ++ [k]).
Proof.
  intros Hl Hk i x Hx. destruct (decide (i < length l)%nat) as [Hi|Hi].
  - rewrite lookup_app_l in Hx by done. rewrite take_app_le by lia. by apply Hl.
  - assert (i = length l) as -> by (apply lookup_lt_Some in Hx; rewrite length_app in Hx; simpl in Hx; lia).
    rewrite lookup_app_r, Nat.sub_diag in Hx by lia. injection Hx as <-. by rewrite take_app_length.
Qed.

(** ** The hash of an entry pins what it is linked to *)

Definition content_wf (x : WalletAuditContext) : Prop := json_wf (default JUndefined (x_metadata x)).

(** The same entry, metadata up to the order of their keys. *)
Definition same_contents (x y : WalletAuditContext) : Prop :=
  (x_walletId x = x_walletId y ∧ x_actorUserId x = x_actorUserId y ∧ x_action x = x_action y ∧ x_success x = x_success y ∧
   x_requestId x = x_requestId y ∧ x_ipAddress x = x_ipAddress y ∧ x_userAgent x = x_userAgent y ∧ x_reason x = x_reason y) ∧
  x_keyVersion x = x_keyVersion y ∧ canon (default JUndefined (x_metadata x)) = canon (default JUndefined (x_metadata y)).

Lemma or_null_inj s1 s2 : canon (or_null s1) = canon (or_null s2) → s1 = s2.
Proof. destruct s1, s2; simpl; congruence. Qed.

Lemma version_inj (v1 v2 : option Z) :
  canon match v1 with Some v => JNum (pretty v) | None => JNull end =
  canon match v2 with Some v => JNum (pretty v) | None => JNull end → v1 = v2.
Proof. destruct v1, v2; simpl; try done. intros [= E%(inj pretty)]. by rewrite E. Qed.

Lemma action_string_inj a1 a2 : action_string a1 = action_string a2 → a1 = a2.
Proof. by destruct a1, a2. Qed.

Lemma or_null_wf s : json_wf (or_null s) = true.
Proof. by destruct s. Qed.

Lemma pretty_num_wf (z : Z) : json_wf (JNum (pretty z)) = true.
Proof.
  assert (∀ c, is_digit c → num_char c) as Hd.
  { intros c. unfold is_digit, num_char. cbv zeta. rewrite !orb_True. tauto. }
  assert (∀ p, all_chars num_char (pretty (N.pos p))) as Hn by (intros p; eapply all_chars_mono; [exact Hd|apply pretty_N_digits]).
  apply Is_true_true. simpl. destruct z as [|p|p]; [done|..].
  - change (pretty (Z.pos p)) with (pretty (N.pos p)). specialize (Hn p).
    destruct (json_number_pos p) as (c & t & E & _). rewrite E in *. exact Hn.
  - change (pretty (Z.neg p)) with ("-" +:+ pretty (N.pos p)). exact (Hn p).
Qed.

Lemma audit_json_wf x prev : content_wf x → json_wf (audit_json x prev).
Proof.
  unfold content_wf. intros Hx%Is_true_true. unfold audit_json.
  assert (json_wf match x_keyVersion x with Some v => JNum (pretty v) | None => JNull end = true) as Hv
    by (destruct (x_keyVersion x); [apply pretty_num_wf|done]).
  destruct (x_keyVersion x); cbn [json_wf fmap list_fmap fst snd forallb] in *; by rewrite !or_null_wf, Hx, ?Hv.
Qed.

Lemma audit_json_inj x y p q : canon (audit_json x p) = canon (audit_json y q) → same_contents x y ∧ p = q.
Proof.
  intros E. unfold audit_json in E.
  assert (NoDup ["walletId"; "actorUserId"; "action"; "success"; "requestId"; "ipAddress"; "userAgent"; "reason"; "keyVersion";
    "metadata"; "previousHash"]) as Hnd by (apply (bool_decide_unpack (NoDup _)); by vm_compute).
  match type of E with canon (JObj ?l1) = canon (JObj ?l2) =>
    pose proof (λ key, canon_obj_field key l1 l2 Hnd Hnd E) as F end. clear E Hnd.
  pose proof (F "walletId") as F1. pose proof (F "actorUserId") as F2. pose proof (F "action") as F3. pose proof (F "success") as F4.
  pose proof (F "requestId") as F5. pose proof (F "ipAddress") as F6. pose proof (F "userAgent") as F7. pose proof (F "reason") as F8.
  pose proof (F "keyVersion") as F9. pose proof (F "metadata") as F10. pose proof (F "previousHash") as F11. clear F.
  cbn [map_get bool_decide fmap option_fmap option_map] in *. simpl in F1, F3, F4.
  injection F1 as F1. injection F2 as F2. injection F3 as F3. injection F4 as F4. injection F5 as F5. injection F6 as F6.
  injection F7 as F7. injection F8 as F8. injection F9 as F9. injection F10 as F10. injection F11 as F11.
  split; [|by apply or_null_inj]. unfold same_contents.
  split_and!; auto using or_null_inj, version_inj, action_string_inj.
Qed.

Lemma audit_hash_inj x y p q : content_wf x → content_wf y → audit_hash x p = audit_hash y q → collision ∨ (same_contents x y ∧ p = q).
Proof.
  intros Hx Hy [Hc|E]%hash_json_inj; [by left| |by apply audit_json_wf..]. right. by apply audit_json_inj.
Qed.

(** Two entries that say the same, as do those they are linked to, and so on. *)
Inductive same_history l l' : WalletKeyAccessAudit → WalletKeyAccessAudit → Prop :=
| same_first k k' : same_contents (contents k) (contents k') → k_previousHash k = None → k_previousHash k' = None → same_history l l' k k'
| same_next k k' p p' : same_contents (contents k) (contents k') → p ∈ l → p' ∈ l' →
    k_previousHash k = Some (k_entryHash p) → k_previousHash k' = Some (k_entryHash p') → same_history l l' p p' → same_history l l' k k'.

Lemma history_pinned l l' : linked l → linked l' → Forall (content_wf ∘ contents) l → Forall (content_wf ∘ contents) l' →
  ∀ k k', k ∈ l → k' ∈ l' → k_entryHash k = k_entryHash k' → collision ∨ same_history l l' k k'.
Proof.
  intros Hl Hl' Wl Wl'. rewrite Forall_forall in Wl, Wl'. intros k k' [i Hi]%list_elem_of_lookup_1. revert i k k' Hi.
  induction i as [i IH] using lt_wf_ind. intros k k' Hi [i' Hi']%list_elem_of_lookup_1 E.
  destruct (Hl i k Hi) as [Hk Hp], (Hl' i' k' Hi') as [Hk' Hp']. rewrite Hk, Hk' in E.
  apply audit_hash_inj in E as [?|[Hs Ep]]; [by left| |apply Wl; by eapply list_elem_of_lookup_2|apply Wl'; by eapply list_elem_of_lookup_2].
  destruct Hp as [Hp|(p & Hin & Hp)], Hp' as [Hp'|(p' & Hin' & Hp')]; rewrite Hp, Hp' in Ep; try discriminate Ep; [right; by apply same_first|].
  injection Ep as Ep. apply elem_of_take in Hin as (j & Hj & Hlt). apply elem_of_take in Hin' as (j' & Hj' & _).
  destruct (IH j Hlt p p' Hj) as [?|Hh]; [by eapply list_elem_of_lookup_2|done|by left|right].
  apply (same_next _ _ k k' p p'); try done; by eapply list_elem_of_lookup_2.
Qed.

Lemma chain_pinned l l' : hash_chain None l → hash_chain None l' →
  Forall (content_wf ∘ contents) l → Forall (content_wf ∘ contents) l' → head_hash None l = head_hash None l' →
  collision ∨ Forall2 (λ a b, same_contents (contents a) (contents b) ∧ k_entryHash a = k_entryHash b) l l'.
Proof.
  revert l'. induction l as [|k l IH] using rev_ind; intros l' Hl Hl' Wl Wl' E.
  - right. destruct l' as [|k' l' _] using rev_ind; [done|]. unfold head_hash in E. by rewrite last_snoc in E.
  - destruct l' as [|k' l' _] using rev_ind; [unfold head_hash in E; by rewrite last_snoc in E|].
    apply hash_chain_snoc in Hl as (Hl & _ & Hk), Hl' as (Hl' & _ & Hk'). apply Forall_app in Wl as [Wl Wk], Wl' as [Wl' Wk'].
    rewrite Forall_singleton in Wk, Wk'. unfold head_hash in E. rewrite !last_snoc in E. injection E as E.
    pose proof E as E2. rewrite Hk, Hk' in E2. destruct (audit_hash_inj _ _ _ _ Wk Wk' E2) as [?|[Hs Hp]]; [by left|].
    destruct (IH l' Hl Hl' Wl Wl' Hp) as [?|Hf]; [by left|right]. apply Forall2_app; [done|]. constructor; [done|constructor].
Qed.

(** ** The log the services write *)

Context (enc : EncryptionService) (cfg : AuthConfig) (production : bool).

(** The clock of the database, which need not advance between two insertions. *)
Definition clock_advances : Prop := ∀ n m, (n < m)%nat → db_now n < db_now m.

Record log_wf db : Prop := {
  lw_linked : linked (keyAudits db);
  lw_issued : Forall (λ k, ∃ n, (n < serial db)%nat ∧ k_createdAt k = db_now n) (keyAudits db);
  lw_sorted : clock_advances → StronglySorted (λ a b, k_createdAt a < k_createdAt b) (keyAudits db);
  lw_chain : clock_advances → hash_chain None (keyAudits db);
}.

(** Nothing is removed from the log. *)
Definition appends db db' : Prop := keyAudits db `prefix_of` keyAudits db'.

Notation logs := (guarded log_wf appends).

Lemma log_frame db db' : log_wf db → keyAudits db' = keyAudits db → (serial db ≤ serial db')%nat → log_wf db' ∧ rtc appends db db'.
Proof.
  intros [] Hk Hs. split; [|apply rtc_once; unfold appends; by rewrite Hk]. split; rewrite Hk; try done.
  eapply Forall_impl; [done|]. intros k (n & Hn & E). exists n. split; [lia|done].
Qed.

Ltac log_frame := apply log_frame; simpl; first [done|lia].

Lemma logs_draw {A} (f : nat → A) : logs (draw f).
Proof. intros db Hw. unfold draw. repeat m_step. log_frame. Qed.
Lemma logs_user_create now d : logs (user_create now d).
Proof. intros db Hw. unfold user_create. m_step. m_step. destruct (user_conflict _ _); repeat m_step; log_frame. Qed.
Lemma logs_user_update now i f : logs (user_update now i f).
Proof.
  intros db Hw. unfold user_update. m_step. m_step. destruct (row_find _ _ _); [|m_step; log_frame].
  destruct (user_conflict _ _); repeat m_step; log_frame.
Qed.
Lemma logs_sendEmail e : logs (sendEmail e).
Proof.
  unfold sendEmail. apply guarded_bind; [apply logs_draw|]. intros [err|]; [apply guarded_throw|]. intros db Hw. m_step. log_frame.
Qed.
Lemma logs_issue now u f p : logs (issueSessionTokens cfg now u f p).
Proof.
  intros db Hw. eapply post_mono; [apply issue_spec|..]; [|by intros db' e [-> _]].
  intros db' tk [(fam & d & _ & _ & _ & _ & ->) _]. log_frame.
Qed.
Lemma logs_refreshToken_update i f : logs (refreshToken_update i f).
Proof. intros db Hw. unfold refreshToken_update. m_step. m_step. destruct (row_find _ _ _); m_step; log_frame. Qed.
Lemma logs_revokeTokenFamily now f : logs (revokeTokenFamily now f).
Proof. intros db Hw. unfold revokeTokenFamily. m_step. log_frame. Qed.
Lemma logs_wallet_create now u pk data v : logs (userWallet_create now u pk data v).
Proof.
  intros db Hw. unfold userWallet_create. m_step. m_step. repeat (case_bool_decide; [repeat m_step; log_frame|]). m_step. log_frame.
Qed.
Lemma logs_wallet_update i f : logs (userWallet_update i f).
Proof. intros db Hw. unfold userWallet_update. m_step. m_step. destruct (row_find _ _ _); repeat m_step; log_frame. Qed.
Lemma logs_register now u : logs (registerUserWallet enc now u).
Proof.
  unfold registerUserWallet, getWalletByUserId. guarded_walk;
    first [apply logs_draw|apply guarded_of_result|apply logs_wallet_create|apply logs_user_update].
Qed.
Lemma logs_challenge_update i f : logs (challenge_update i f).
Proof. intros db Hw. unfold challenge_update. m_step. m_step. destruct (row_find _ _ _); repeat m_step; log_frame. Qed.

#[local] Instance logs_footprint : AuthFootprint enc cfg log_wf appends.
Proof.
  split; intros; [apply logs_draw|apply logs_user_create|apply logs_user_update|apply logs_sendEmail|apply logs_issue
    |apply logs_refreshToken_update|apply logs_revokeTokenFamily|apply logs_register].
Qed.

Definition entry_of (n : nat) (prev : option string) (x : WalletAuditContext) : WalletKeyAccessAudit :=
  mkKeyAudit (uuid n) (x_walletId x) (x_actorUserId x) (x_action x) (x_success x) (x_requestId x)
    (x_ipAddress x) (x_userAgent x) (x_reason x) (x_keyVersion x) (x_metadata x) prev (audit_hash x prev) (db_now n).

(** The entry that is found: one of the newest, the last one if the clock advances. *)
Lemma latest_spec db : log_wf db →
  match latest_audit (keyAudits db) with Some p => p ∈ keyAudits db | None => True end ∧
  (clock_advances → k_entryHash <$> latest_audit (keyAudits db) = head_hash None (keyAudits db)).
Proof.
  intros [_ _ Hs _]. unfold latest_audit. split.
  - destruct (order_by _ (keyAudits db)) as [|p l] eqn:E; [done|]. simpl. rewrite <- (elem_of_order_by (λ a b, bool_decide (k_createdAt b ≤ k_createdAt a))), E. by left.
  - intros Hc. change (@hd_error WalletKeyAccessAudit) with (@head WalletKeyAccessAudit). rewrite (order_by_latest k_createdAt) by auto. unfold head_hash. by destruct (last _).
Qed.

(** An entry goes to the end of the log, linked to the one that was found. *)
Lemma record_spec x db : post (record_access x) db
  (λ db' _, db' = next_serial (set_audits (keyAudits db ++ [entry_of (serial db) (k_entryHash <$> latest_audit (keyAudits db)) x]) db))
  (λ db' _, db' = db).
Proof.
  unfold record_access. m_step. m_step. unfold keyAudit_create. m_step. m_step. case_bool_decide; [by m_step|]. destruct (_ && _); by m_step.
Qed.

Lemma contents_entry n prev x : contents (entry_of n prev x) = x.
Proof. by destruct x. Qed.

Lemma logs_record x : logs (record_access x).
Proof.
  intros db Hw. eapply post_mono; [apply record_spec| |by intros db' e ->]. intros db' _ ->.
  destruct (latest_spec db Hw) as [Hin Hhead]. destruct Hw as [Hl Hi Hs Hc]. split.
  - split; simpl.
    + apply log_linked_snoc; [done|]. split; [by rewrite contents_entry|]. cbn. destruct (latest_audit _) as [p|]; [right; by exists p|by left].
    + apply Forall_app. split; [|constructor; [|constructor]; exists (serial db); split; [lia|done]].
      eapply Forall_impl; [exact Hi|]. intros k (n & Hn & E). exists n. split; [lia|done].
    + intros Hclock. apply StronglySorted_app. split_and!; [|by apply Hs|by repeat constructor].
      intros a b Ha ->%list_elem_of_singleton. rewrite Forall_forall in Hi. destruct (Hi a Ha) as (n & Hn & ->). by apply Hclock.
    + intros Hclock. apply hash_chain_snoc. rewrite contents_entry, (Hhead Hclock). split; [by apply Hc|done].
  - apply rtc_once. unfold appends. simpl. by apply prefix_app_r.
Qed.

Lemma logs_rotate now u w d ctx : logs (rotate_if_needed enc now u w d ctx).
Proof.
  unfold rotate_if_needed. guarded_walk;
    first [apply logs_draw|apply guarded_of_result|apply logs_wallet_update|apply logs_record].
Qed.

Lemma logs_decryptSecret now u a ctx : logs (decryptSecretForUser enc now u a ctx).
Proof.
  unfold decryptSecretForUser, getWalletByUserId. guarded_walk; first [apply guarded_of_result|apply logs_rotate|apply logs_record].
Qed.

Lemma logs_wallet c db : log_wf db → log_wf (exec_wallet enc production c db) ∧ rtc appends db (exec_wallet enc production c db).
Proof.
  destruct c; cbn [exec_wallet]; apply guarded_run;
    [unfold ensureUserWallet, getWalletByUserId|apply logs_decryptSecret|unfold rotateUserWallet, getWalletByUserId
    |unfold createRecoveryChallenge, authenticate, ensureUserWallet, getWalletByUserId, generateRecoveryCode
    |unfold exportSecretKey, authenticate, wrong_code]; guarded_walk;
    first [apply logs_register|apply logs_draw|apply guarded_of_result|apply logs_wallet_update|apply logs_record
          |apply logs_decryptSecret|apply logs_challenge_update|idtac].
  - intros db0 Hw. unfold cancel_pending. m_step. log_frame.
  - intros db0 Hw. unfold challenge_create. m_step. m_step. destruct (_ && _); repeat m_step; log_frame.
Qed.

Lemma run_logs cs db : log_wf db → log_wf (run_system enc cfg production cs db).
Proof.
  unfold run_system. revert db. induction cs as [|c cs IH]; intros db Hw; [done|]. simpl. apply IH.
  destruct c; cbn [exec_system]; eapply proj1; [by apply fp_exec; [apply logs_footprint|]|by apply logs_wallet].
Qed.

Lemma empty_log : log_wf empty_accounts.
Proof. split; simpl; [by intros i k Hk; rewrite lookup_nil in Hk|constructor|constructor|done]. Qed.

Notation run := (run_system enc cfg production).

(** C17: the log of key accesses is tamper-evident.  After any calls of the
    sign-in and wallet services, whatever the clock of the database does, every entry
    is hashed with the hash of an earlier one or is a first one; an entry of any other
    such log that has the same hash says the same, as do the entries it is linked to
    one after the other, unless SHA-256 has a collision.  If the clock of the database
    advances with every insertion, the log is one chain, and another chain whose newest
    entry has the same hash has the same entries in the same order.  The metadata of the
    entries compared are JSON with unique keys. *)
Theorem key_log_tamper_evident cs l' :
  let l := keyAudits (run cs empty_accounts) in
  linked l ∧
  (Forall (content_wf ∘ contents) l → Forall (content_wf ∘ contents) l' →
   (linked l' → ∀ k k', k ∈ l → k' ∈ l' → k_entryHash k = k_entryHash k' → collision ∨ same_history l l' k k') ∧
   (clock_advances → hash_chain None l ∧
     (hash_chain None l' → head_hash None l = head_hash None l' →
      collision ∨ Forall2 (λ a b, same_contents (contents a) (contents b) ∧ k_entryHash a = k_entryHash b) l l'))).
Proof.
  cbv zeta. destruct (run_logs cs _ empty_log) as [Hl _ _ Hc]. split; [exact Hl|]. intros Wl Wl'. split.
  - intros Hl'. by apply history_pinned.
  - intros Hclock. split; [by apply Hc|]. intros Hl' E. apply chain_pinned; auto.
Qed.

(** No secret key is handed out, for signing or for export, without a trace:
    when an access returns a secret, it is the secret of the user's wallet and
    the newest entry of the log records the access as successful, with the
    action, the wallet and who asked. *)
Theorem release_logged cs now u a ctx db' secret wid pk :
  decryptSecretForUser enc now u a ctx (run cs empty_accounts) = (db', Ok (secret, wid, pk)) →
  ∃ k, last (keyAudits db') = Some k ∧ k_action k = a ∧ k_success k = true ∧ k_walletId k = wid ∧
    k_actorUserId k = Some (default u (actorUserId ctx)) ∧ k_entryHash k = audit_hash (contents k) (k_previousHash k).
Proof.
  intros E. pose proof (run_logs cs _ empty_log) as Hw. set (db := run cs empty_accounts) in *.
  set (Q := λ (db' : AccountDB) (r : string * string * string), ∃ k, last (keyAudits db') = Some k ∧ k_action k = a ∧
    k_success k = true ∧ k_walletId k = r.1.2 ∧ k_actorUserId k = Some (default u (actorUserId ctx)) ∧
    k_entryHash k = audit_hash (contents k) (k_previousHash k)).
  assert (post (decryptSecretForUser enc now u a ctx) db Q (λ _ _, True)) as Hp; [|unfold post in Hp; by rewrite E in Hp].
  unfold decryptSecretForUser, getWalletByUserId. m_step. m_step. destruct (row_find _ _ _) as [w|]; [|by m_step]. m_step.
  m_step. unfold of_result. destruct (decryptWithMetadata _ _) as [d|e]; [|m_step; apply post_rethrow].
  m_step. m_step. eapply post_mono; [apply (logs_rotate _ _ _ _ _ _ Hw)|intros db1 _ [Hw1 _]|intros s e _; apply post_rethrow].
  m_step. eapply post_mono; [apply record_spec|intros db2 _ ->|intros s e _; apply post_rethrow]. m_step.
  eexists. simpl. rewrite last_snoc. split; [done|]. by split_and!.
Qed.
End log.
