(* ===== verification/WalletExamples.v ===== *)
(** * Runs of the wallet services

    The theorems on custody, recovery and the access log applied to concrete runs. *)

From Stdlib Require Import Ascii.
From stdpp Require Import prelude gmap strings list pretty relations.
From S2P Require Import Prelude JsText JsBuffer Prisma Crypto AuthConfig Json JsonParse Encryption Accounts StellarWallet Auth AuthSpec AuthCredentials WalletRecovery StellarWalletSpec WalletRecoverySpec KeyLog.

Module WalletModel.
Export AuthModel.

Notation system := (run_system service config false).

(** A user with a wallet and an open challenge. *)
Definition prepared : list (auth_call + wallet_call) :=
  [inl (Register 1000 "ann@example.com" "correct horse" (Some "Ann.1"))].
Definition user : string := uuid 0.
Definition opened : list (auth_call + wallet_call) := prepared ++ [inr (Challenge 2000 user "correct horse" no_context)].

Definition challenge_of (r : AccountDB * result WalletRecoveryChallengeResult) : string * string :=
  match r.2 with Ok c => (challengeId c, default "" (verificationCode c)) | Throw _ => ("", "") end.
Definition challenge : string * string :=
  Eval vm_compute in challenge_of (createRecoveryChallenge service false 2000 user "correct horse" no_context (system prepared empty_accounts)).
End WalletModel.

Section witnesses.
Import WalletModel.

(** The server of the first key, and of both keys. *)
Lemma secrets_survive_witness :
  let one_key := mkKeyEnv (Some (json_text (JArr [JObj [("version", JNum "1"); ("secret", JStr "old")]]))) (Some "legacy") None in
  let first := match constructor one_key with Ok this => this | Throw _ => service end in
  let db := run_system first config false prepared empty_accounts in
  let db' := run_system service config false [inr (Access 4000 user SIGN no_context); inr (RotateKey 5000 user no_context)] db in
  (w_encryptionVersion <$> userWallets db) = [1] ∧ (w_encryptionVersion <$> userWallets db') = [2] ∧
  holdings first db `prefix_of` holdings service db'.
Proof.
  intros one_key first db db'. split; [vm_compute; reflexivity|]. split; [vm_compute; reflexivity|].
  pose proof (secrets_survive config false one_key first prepared
    [mkDeployment env service [inr (Access 4000 user SIGN no_context); inr (RotateKey 5000 user no_context)]]) as Hs.
  refine (proj1 (proj2 (proj2 (Hs _ _ _)))).
  - vm_compute. reflexivity.
  - apply (bool_decide_unpack _). by vm_compute.
  - split; [exact service_built|]. split; [apply (bool_decide_unpack _); by vm_compute|]. split; [|exact I].
    split; [|vm_compute; reflexivity]. apply (bool_decide_unpack _). vm_compute. exact I.
Defined.

Lemma export_once_witness : ∃ db' keys,
  exportSecretKey service 3000 user "correct horse" challenge.1 challenge.2 no_context (system opened empty_accounts) = (db', Ok keys) ∧
  ∃ e, (exportSecretKey service 4000 user "correct horse" challenge.1 challenge.2 no_context (system [] db')).2 = Throw e.
Proof.
  assert (∃ db' keys, exportSecretKey service 3000 user "correct horse" challenge.1 challenge.2 no_context
            (system opened empty_accounts) = (db', Ok keys)) as (db' & keys & He).
  { eexists _, _. vm_compute. reflexivity. }
  destruct (export_once service config false opened 3000 user "correct horse" challenge.1 challenge.2 no_context db' keys He) as [_ Hno].
  exists db', keys. split; [exact He|exact (Hno [] 4000 user "correct horse" challenge.2 no_context)].
Defined.

Lemma model_clock : ∀ n m, (n < m)%nat → db_now n < db_now m.
Proof. intros n m Hnm. simpl. lia. Qed.

Definition log : list WalletKeyAccessAudit := Eval vm_compute in keyAudits (system opened empty_accounts).

Lemma key_log_tamper_evident_witness : log ≠ [] ∧
  (collision ∨ Forall2 (λ a b, same_contents (contents a) (contents b) ∧ k_entryHash a = k_entryHash b) log log).
Proof.
  assert (keyAudits (system opened empty_accounts) = log) as El by (vm_compute; reflexivity).
  assert (Forall (content_wf ∘ contents) log) as Hwf by (repeat constructor).
  pose proof (key_log_tamper_evident service config false opened log) as [_ Ht]. rewrite El in Ht.
  split; [discriminate|]. destruct (proj2 (Ht Hwf Hwf) model_clock) as [Hc Hp]. exact (Hp Hc eq_refl).
Defined.

Lemma release_logged_witness : ∃ db' secret wid pk,
  decryptSecretForUser service 4000 user SIGN no_context (system opened empty_accounts) = (db', Ok (secret, wid, pk)) ∧
  ∃ k, last (keyAudits db') = Some k ∧ k_action k = SIGN.
Proof.
  assert (∃ db' secret wid pk, decryptSecretForUser service 4000 user SIGN no_context (system opened empty_accounts) =
            (db', Ok (secret, wid, pk))) as (db' & secret & wid & pk & He).
  { eexists _, _, _, _. vm_compute. reflexivity. }
  exists db', secret, wid, pk. split; [exact He|].
  destruct (release_logged service config false opened 4000 user SIGN no_context db' secret wid pk He) as (k & Hk & Ha & _).
  exists k. split; [exact Hk|exact Ha].
Defined.
End witnesses.
