(* ===== verification/AuditTrail.v ===== *)
(** * The audit trail: [server/src/services/audit.service.ts]

    Entries of the [auditLog] table with the hash each stores, the integrity
    check that recomputes the hashes, redaction, retention, search and replay.
    SHA-256 is a parameter ([Sha256]): theorems about hashes conclude with
    the alternative that two different texts with one hash have been found.
    Instants are milliseconds; [toISOString] is written out for the years 0 to
    9999.  Payloads are JSON data.  What other components rely on is the class
    [AuditSink]. *)

From Stdlib Require Import Ascii.
From stdpp Require Import prelude gmap strings list pretty sorting.
From S2P Require Import Prelude JsText Crypto Prisma Json.

(** ** What the audit trail promises to the services that write to it *)

Record LogAction := mkLogAction {
  la_adminId : string;
  la_action : string;
  la_targetType : string;
  la_targetId : string;
  la_details : option json;
  la_ipAddress : option string;
  la_userAgent : option string;
  la_requestId : option string;
  la_correlationId : option string;
  la_snapshotBefore : option json;
  la_snapshotAfter : option json;
}.

(** Who did what to what. *)
Definition trail_item : Type := string * string * string * string.
Definition la_item (d : LogAction) : trail_item := (la_adminId d, la_action d, la_targetType d, la_targetId d).

Class AuditSink (A : Type) := {
  audit_trail : A → list trail_item;
  audit_log : Z → LogAction → M A unit;
  audit_log_spec : ∀ now d a,
    post (audit_log now d) a (λ a' _, audit_trail a' = audit_trail a ++ [la_item d])
      (λ a' _, audit_trail a' = audit_trail a);
}.

(** ** Data *)

Inductive AuditStatus := SUCCESS | FAILED | CRITICAL.
Definition AuditStatus_string (s : AuditStatus) : string :=
  match s with SUCCESS => "SUCCESS" | FAILED => "FAILED" | CRITICAL => "CRITICAL" end.

Record AuditContext := mkContext {
  userId : string;
  role : option string;
  action : string;
  status : option AuditStatus;
  targetType : string;
  targetId : string;
  ipAddress : option string;
  userAgent : option string;
  requestId : option string;
  correlationId : option string;
  payloadBefore : option json;
  payloadAfter : option json;
  details : option json;
}.

Record AuditLog := mkLog {
  l_id : string;
  l_adminId : string;
  l_action : string;
  l_targetType : string;
  l_targetId : string;
  l_details : option json;
  l_requestId : option string;
  l_correlationId : option string;
  l_snapshotBefore : option json;
  l_snapshotAfter : option json;
  l_ipAddress : option string;
  l_userAgent : option string;
  l_entryHash : option string;
  l_previousHash : option string;
  l_anchoredAt : option Z;
  l_anchorTxId : option string;
  l_redactedAt : option Z;
  l_createdAt : Z;
}.

Record AuditDB := mkAuditDB { adb_users : gset string; auditLog : list AuditLog; adb_serial : nat }.

(** ** JavaScript *)

(** [String(v)] *)
Fixpoint json_String (v : json) : string :=
  match v with
  | JUndefined => "undefined"
  | JNull => "null"
  | JBool b => if b then "true" else "false"
  | JNum t => t
  | JStr s => s
  | JArr l => join_comma ((λ x, match x with JUndefined | JNull => "" | _ => json_String x end) <$> l)
  | JObj _ => "[object Object]"
  end.

(** [{ ...obj, key: v }]: a present key keeps its place. *)
Definition json_spread (v : option json) : list (string * json) :=
  match v with Some (JObj l) => l | _ => [] end.

Definition opt_json (v : option json) : json := default JUndefined v.
Definition opt_str (v : option string) : json := match truthy_str v with Some s => JStr s | None => JUndefined end.
Definition null_str (v : option string) : json := match v with Some s => JStr s | None => JNull end.

(** What a [Json] column holds after a value was written: properties that are
    [undefined] are left out, and [undefined] in an array is [null]. *)
Definition defined_prop (kv : string * json) : bool := match kv.2 with JUndefined => false | _ => true end.
Fixpoint json_column (v : json) : json :=
  match v with
  | JArr l => JArr ((λ x, match x with JUndefined => JNull | _ => json_column x end) <$> l)
  | JObj l => JObj (List.filter defined_prop ((λ kv, (kv.1, json_column kv.2)) <$> l))
  | _ => v
  end.

Section audit.
Context `{Prisma} `{Sha256}.

(** The object that is hashed, with the keys of the literal. *)
Definition hash_entry (userId_ role_ action_ : string) (status_ : json) (targetType_ targetId_ : string)
    (ip ua req corr : option string) (before after : json) (timestamp : string) (previousHash : option string) : json :=
  JObj [("userId", JStr userId_); ("role", JStr role_); ("action", JStr action_); ("status", status_);
        ("targetType", JStr targetType_); ("targetId", JStr targetId_);
        ("ipAddress", opt_str ip); ("userAgent", opt_str ua); ("requestId", opt_str req);
        ("correlationId", opt_str corr); ("payloadBefore", before); ("payloadAfter", after);
        ("timestamp", JStr timestamp); ("previousHash", null_str previousHash)].

Definition computeHash (entry : json) : string := sha256_hex (stableStringify entry).

(** ** Writing *)

Definition newest (l1 l2 : AuditLog) : bool := bool_decide (l_createdAt l2 ≤ l_createdAt l1).
Definition oldest (l1 l2 : AuditLog) : bool := bool_decide (l_createdAt l1 ≤ l_createdAt l2).

(** [now] is the server's clock, the row's [createdAt] the database's. *)
Definition log (now : Z) (ctx : AuditContext) : M AuditDB AuditLog :=
  db ← get;
  let timestamp := toISOString now in
  let status_ := default SUCCESS (status ctx) in
  let previous := head (order_by newest (auditLog db)) in
  let previousHash := previous ≫= l_entryHash in
  let actor_role := default "SYSTEM" (role ctx) in
  let entryHash := computeHash (hash_entry (userId ctx) actor_role (action ctx) (JStr (AuditStatus_string status_))
    (targetType ctx) (targetId ctx) (ipAddress ctx) (userAgent ctx) (requestId ctx) (correlationId ctx)
    (opt_json (payloadBefore ctx)) (opt_json (payloadAfter ctx)) timestamp previousHash) in
  if bool_decide (userId ctx ∈ adb_users db) then
    let record := mkLog (uuid (adb_serial db)) (userId ctx) (action ctx) (targetType ctx) (targetId ctx)
      (Some (json_column (JObj (map_set "_role" (JStr actor_role)
        (map_set "_status" (JStr (AuditStatus_string status_)) (json_spread (details ctx)))))))
      (requestId ctx) (correlationId ctx)
      (Some (json_column (default (JObj []) (payloadBefore ctx)))) (Some (json_column (default (JObj []) (payloadAfter ctx))))
      (ipAddress ctx) (userAgent ctx) (Some entryHash) previousHash None None None (db_now (adb_serial db)) in
    _ ← put (mkAuditDB (adb_users db) (auditLog db ++ [record]) (S (adb_serial db)));
    mret record
  else throw ForeignKeyViolation.

Definition logAction (now : Z) (data : LogAction) : M AuditDB AuditLog :=
  log now (mkContext (la_adminId data) None (la_action data) None (la_targetType data) (la_targetId data)
    (la_ipAddress data) (la_userAgent data) (la_requestId data) (la_correlationId data)
    (la_snapshotBefore data) (la_snapshotAfter data) (la_details data)).

Definition logAuthEvent (now : Z) (user act : string) (det : option json) (ip ua provider corr : option string)
    : M AuditDB AuditLog :=
  log now (mkContext user None ("AUTH_" +:+ act) None "USER" user ip ua None corr None None
    (Some (JObj (map_set "provider" (match provider with Some p => JStr p | None => JUndefined end) (json_spread det))))).

(** ** Reading *)

Record AuditSearchParams := mkSearch {
  q_userId : option string;
  q_action : option string;
  q_targetType : option string;
  q_targetId : option string;
  q_correlationId : option string;
  q_fromDate : option Z;
  q_toDate : option Z;
  q_limit : option Z;
  q_offset : option Z;
}.

Definition opt_test {A} (o : option A) (f : A → bool) : bool := match o with Some a => f a | None => true end.

Definition search_where (q : AuditSearchParams) (l : AuditLog) : bool :=
  opt_test (truthy_str (q_userId q)) (λ u, bool_decide (l_adminId l = u)) &&
  opt_test (truthy_str (q_action q)) (λ a, str_contains (lowercase a) (lowercase (l_action l))) &&
  opt_test (truthy_str (q_targetType q)) (λ t, bool_decide (l_targetType l = t)) &&
  opt_test (truthy_str (q_targetId q)) (λ t, bool_decide (l_targetId l = t)) &&
  opt_test (truthy_str (q_correlationId q)) (λ c, bool_decide (l_correlationId l = Some c)) &&
  opt_test (q_fromDate q) (λ d, bool_decide (d ≤ l_createdAt l)) &&
  opt_test (q_toDate q) (λ d, bool_decide (l_createdAt l ≤ d)).

(** The limit and offset are not negative. *)
Definition search (q : AuditSearchParams) : M AuditDB (nat * list AuditLog) :=
  gets (λ db,
    let rows := List.filter (search_where q) (auditLog db) in
    (length rows, take (Z.to_nat (Z.min (default 50 (q_limit q)) 500))
                    (drop (Z.to_nat (default 0 (q_offset q))) (order_by newest rows)))).

Definition listLogs (adminId act ttype tid : option string) : M AuditDB (list AuditLog) :=
  result ← search (mkSearch adminId act ttype tid None None None (Some 100) None); mret result.2.

Record ComplianceReport := mkCompliance {
  totalEvents : nat;
  byAction : jsmap Z;
  sensitiveEventCount : Z;
}.

Definition sensitiveActions : list string :=
  ["WALLET_TRANSACTION"; "WALLET_WITHDRAW"; "MANUAL_PAYOUT"; "DATA_DELETION_REQUEST"; "DATA_EXPORT"; "KYC_APPROVE"; "KYC_REJECT"].

Definition complianceReport (fromDate toDate : Z) : M AuditDB ComplianceReport :=
  gets (λ db,
    let logs := any_order (filter (λ l, fromDate ≤ l_createdAt l ≤ toDate) (auditLog db)) in
    mkCompliance (length logs)
      (foldl (λ m l, map_set (l_action l) (default 0 (map_get (l_action l) m) + 1) m) [] logs)
      (foldl (λ n l, if bool_decide (l_action l ∈ sensitiveActions) || bool_decide (is_Some (l_redactedAt l)) then n + 1 else n)
         0 logs)).

(** ** Redaction and retention *)

Definition redact (now : Z) (l : AuditLog) : AuditLog :=
  mkLog (l_id l) (l_adminId l) (l_action l) (l_targetType l) (l_targetId l) (Some (JObj [("_redacted", JBool true)]))
    (l_requestId l) (l_correlationId l) (Some (JObj [])) (Some (JObj [])) None None (l_entryHash l) (l_previousHash l)
    (l_anchoredAt l) (l_anchorTxId l) (Some now) (l_createdAt l).

Definition redactable (user : string) (l : AuditLog) : Prop := l_adminId l = user ∧ l_redactedAt l = None.
#[export] Instance redactable_dec user l : Decision (redactable user l).
Proof. unfold redactable. apply _. Defined.

Definition redactUser (now : Z) (user : string) : M AuditDB nat :=
  db ← get;
  _ ← put (mkAuditDB (adb_users db) ((λ l, if decide (redactable user l) then redact now l else l) <$> auditLog db) (adb_serial db));
  mret (length (filter (redactable user) (auditLog db))).

Definition retainedActions : list string :=
  ["WALLET_TRANSACTION"; "WALLET_WITHDRAW"; "MANUAL_PAYOUT"; "KYC_APPROVE"; "KYC_REJECT"].

Definition expired (cutoff : Z) (l : AuditLog) : Prop := l_createdAt l < cutoff ∧ l_action l ∉ retainedActions.
#[export] Instance expired_dec cutoff l : Decision (expired cutoff l).
Proof. unfold expired. apply _. Defined.

Definition applyRetentionPolicy (now retentionDays : Z) : M AuditDB nat :=
  let cutoff := now - retentionDays * 24 * 60 * 60 * 1000 in
  db ← get;
  _ ← put (mkAuditDB (adb_users db) (filter (λ l, ¬ expired cutoff l) (auditLog db)) (adb_serial db));
  mret (length (filter (expired cutoff) (auditLog db))).

(** ** Integrity *)

Record IntegrityReport := mkReport {
  ok : bool;
  totalChecked : nat;
  firstTamperedId : option string;
  message : string;
}.

Definition recomputed (l : AuditLog) : string :=
  let details_ := default (JObj []) (l_details l) in
  computeHash (hash_entry (l_adminId l) (json_String (json_or (json_prop "_role" details_) (JStr "SYSTEM"))) (l_action l)
    (json_or (json_prop "_status" details_) (JStr "SUCCESS")) (l_targetType l) (l_targetId l)
    (l_ipAddress l) (l_userAgent l) (l_requestId l) (l_correlationId l)
    (opt_json (l_snapshotBefore l)) (opt_json (l_snapshotAfter l)) (toISOString (l_createdAt l)) (l_previousHash l)).

Fixpoint verify_loop (checked : nat) (logs : list AuditLog) : IntegrityReport :=
  match logs with
  | [] => mkReport true checked None "Chain intact"
  | l :: logs' =>
      match truthy_str (l_entryHash l) with
      | None => verify_loop checked logs'
      | Some h =>
          if bool_decide (recomputed l ≠ h)
          then mkReport false checked (Some (l_id l)) ("Tampered record detected at id=" +:+ l_id l)
          else verify_loop (S checked) logs'
      end
  end.

Definition verifyIntegrity (limit : Z) : M AuditDB IntegrityReport :=
  gets (λ db, verify_loop 0 (take (Z.to_nat limit) (order_by oldest (auditLog db)))).

(** ** Replay *)

Definition replayEvents (ttype tid : string) : M AuditDB (list (string * string * json) * json) :=
  gets (λ db,
    let logs := order_by oldest (filter (λ l, l_targetType l = ttype ∧ l_targetId l = tid) (auditLog db)) in
    let snapshots := (λ l, (toISOString (l_createdAt l), l_action l, default JNull (l_snapshotAfter l))) <$> logs in
    (snapshots, match last snapshots with Some s => s.2 | None => JNull end)).

(** ** The implementation keeps the promise *)

Definition trail_of (db : AuditDB) : list trail_item :=
  (λ l, (l_adminId l, l_action l, l_targetType l, l_targetId l)) <$> auditLog db.

Lemma logAction_trail now d a :
  post (_ ← logAction now d; mret tt) a (λ a' _, trail_of a' = trail_of a ++ [la_item d]) (λ a' _, trail_of a' = trail_of a).
Proof.
  m_step. unfold logAction, log. m_step. m_step. cbv zeta. case_bool_decide; [|by m_step].
  m_step. m_step. m_step. m_step. unfold trail_of. simpl. by rewrite fmap_app.
Qed.

#[export] Instance audit_service : AuditSink AuditDB :=
  {| audit_trail := trail_of; audit_log now d := _ ← logAction now d; mret tt; audit_log_spec := logAction_trail |}.
End audit.

(** ** What the audit trail guarantees

    The text that is hashed determines the entry, so a changed entry is found
    unless SHA-256 has a collision; what the integrity check reports; how the
    entries are linked; and where the check disagrees with the service's own
    writes: entries without a payload, redaction, and deleted entries. *)

(** C13: the text an entry is hashed from is canonical and unambiguous on JSON
    values, that is values whose arrays hold no undefined element and whose objects
    hold each key once: two of them have the same text exactly when they are equal up
    to the order of the keys of their objects.  (An array that holds undefined has
    the text of another array: [undefined_elements_collide].) *)
Theorem stableStringify_spec v1 v2 :
  json_wf v1 → json_wf v2 → stableStringify v1 = stableStringify v2 ↔ canon v1 = canon v2.
Proof.
  intros H1 H2. split; [by apply stableStringify_inj|]. intros E. by rewrite !stableStringify_canon, E.
Qed.

(** The elements of an array are joined with commas, and join writes nothing for
    undefined. *)
Example undefined_elements_collide :
  stableStringify (JArr [JUndefined]) = stableStringify (JArr []) ∧ canon (JArr [JUndefined]) ≠ canon (JArr []).
Proof. split; [reflexivity|discriminate]. Qed.

Lemma opt_str_inj s1 s2 : canon (opt_str s1) = canon (opt_str s2) → truthy_str s1 = truthy_str s2.
Proof. unfold opt_str. destruct (truthy_str s1), (truthy_str s2); simpl; congruence. Qed.

Lemma null_str_inj s1 s2 : canon (null_str s1) = canon (null_str s2) → s1 = s2.
Proof. destruct s1, s2; simpl; congruence. Qed.

Section spec.
Context `{Prisma} `{Sha256}.

Lemma hash_entry_wf u r a st tt ti ip ua rq co b af ts ph :
  json_wf st → json_wf b → json_wf af → json_wf (hash_entry u r a st tt ti ip ua rq co b af ts ph).
Proof.
  intros Hs Hb Ha. unfold hash_entry. simpl. apply Is_true_true in Hs, Hb, Ha. rewrite Hs, Hb, Ha.
  assert (∀ s, json_wf (opt_str s) = true) as Ho by (intros s; unfold opt_str; by destruct (truthy_str s)).
  rewrite !Ho. by destruct ph.
Qed.

(** Equal hashes: a collision, or the same canonical entry. *)
Lemma computeHash_inj v1 v2 : json_wf v1 → json_wf v2 → computeHash v1 = computeHash v2 → collision ∨ canon v1 = canon v2.
Proof. apply hash_json_inj. Qed.

Lemma hash_entry_inj u r a st tt ti ip ua rq co b af ts ph u' r' a' st' tt' ti' ip' ua' rq' co' b' af' ts' ph' :
  canon (hash_entry u r a st tt ti ip ua rq co b af ts ph) =
    canon (hash_entry u' r' a' st' tt' ti' ip' ua' rq' co' b' af' ts' ph') →
  (u = u' ∧ r = r' ∧ a = a' ∧ canon st = canon st' ∧ tt = tt' ∧ ti = ti') ∧
  (truthy_str ip = truthy_str ip' ∧ truthy_str ua = truthy_str ua' ∧ truthy_str rq = truthy_str rq' ∧
   truthy_str co = truthy_str co') ∧
  canon b = canon b' ∧ canon af = canon af' ∧ ts = ts' ∧ ph = ph'.
Proof.
  intros E. unfold hash_entry in E.
  assert (NoDup ["userId"; "role"; "action"; "status"; "targetType"; "targetId"; "ipAddress"; "userAgent"; "requestId";
    "correlationId"; "payloadBefore"; "payloadAfter"; "timestamp"; "previousHash"]) as Hnd
    by (apply (bool_decide_unpack (NoDup _)); by vm_compute).
  match type of E with canon (JObj ?l1) = canon (JObj ?l2) =>
    pose proof (λ k, canon_obj_field k l1 l2 Hnd Hnd E) as F end. clear E Hnd.
  pose proof (F "userId") as F1. pose proof (F "role") as F2. pose proof (F "action") as F3. pose proof (F "status") as F4.
  pose proof (F "targetType") as F5. pose proof (F "targetId") as F6. pose proof (F "ipAddress") as F7.
  pose proof (F "userAgent") as F8. pose proof (F "requestId") as F9. pose proof (F "correlationId") as F10.
  pose proof (F "payloadBefore") as F11. pose proof (F "payloadAfter") as F12. pose proof (F "timestamp") as F13.
  pose proof (F "previousHash") as F14. clear F.
  cbn [map_get bool_decide fmap option_fmap option_map] in *. simpl in *. simplify_eq.
  split_and!; auto using opt_str_inj, null_str_inj.
Qed.

(** ** Tampering *)

Definition row_details (l : AuditLog) : json := default (JObj []) (l_details l).
Definition row_role (l : AuditLog) : string := json_String (json_or (json_prop "_role" (row_details l)) (JStr "SYSTEM")).
Definition row_status (l : AuditLog) : json := json_or (json_prop "_status" (row_details l)) (JStr "SUCCESS").

Definition row_wf (l : AuditLog) : Prop :=
  json_wf (row_details l) ∧ json_wf (opt_json (l_snapshotBefore l)) ∧ json_wf (opt_json (l_snapshotAfter l)).

(** The check of one entry: one without a hash is skipped. *)
Definition valid (l : AuditLog) : Prop := ∀ h, truthy_str (l_entryHash l) = Some h → recomputed l = h.

Definition same_content (l l' : AuditLog) : Prop :=
  (l_adminId l = l_adminId l' ∧ row_role l = row_role l' ∧ l_action l = l_action l' ∧
   canon (row_status l) = canon (row_status l') ∧ l_targetType l = l_targetType l' ∧ l_targetId l = l_targetId l') ∧
  (truthy_str (l_ipAddress l) = truthy_str (l_ipAddress l') ∧ truthy_str (l_userAgent l) = truthy_str (l_userAgent l') ∧
   truthy_str (l_requestId l) = truthy_str (l_requestId l') ∧
   truthy_str (l_correlationId l) = truthy_str (l_correlationId l')) ∧
  canon (opt_json (l_snapshotBefore l)) = canon (opt_json (l_snapshotBefore l')) ∧
  canon (opt_json (l_snapshotAfter l)) = canon (opt_json (l_snapshotAfter l')) ∧
  toISOString (l_createdAt l) = toISOString (l_createdAt l') ∧ l_previousHash l = l_previousHash l'.

Lemma json_prop_wf k v : json_wf v → json_wf (json_prop k v).
Proof.
  destruct v as [| | | | |l|l]; simpl; try done. intros [_ Hl]%andb_True. rewrite forallb_Forall_s, Forall_forall in Hl.
  destruct (map_get k l) as [v|] eqn:E; simpl; [|done]. apply map_get_elem in E. by apply (Hl (k, v)).
Qed.

Lemma row_status_wf l : json_wf (row_details l) → json_wf (row_status l).
Proof.
  intros Hd. unfold row_status, json_or. pose proof (json_prop_wf "_status" _ Hd). by destruct (json_prop _ _).
Qed.

Lemma recomputed_inj l l' : row_wf l → row_wf l' → recomputed l = recomputed l' → collision ∨ same_content l l'.
Proof.
  intros (D & B & A) (D' & B' & A') E.
  destruct (computeHash_inj _ _ (hash_entry_wf _ _ _ _ _ _ _ _ _ _ _ _ _ _ (row_status_wf _ D) B A)
    (hash_entry_wf _ _ _ _ _ _ _ _ _ _ _ _ _ _ (row_status_wf _ D') B' A') E) as [Hc|Hc]; [by left|right].
  by apply hash_entry_inj in Hc.
Qed.

(** C11: the stored hash pins the entry: if two versions of a row, whose JSON
    columns hold JSON (no undefined inside arrays, keys unique, as a JSON column of
    the database stores them), carry the same hash and both pass the check, either
    they agree on every hashed field (actor, role, action, status, target, addresses,
    ids, snapshots, time and the link to the entry before) or SHA-256 has a
    collision. *)
Theorem tamper_evident l l' h :
  row_wf l → row_wf l' → truthy_str (l_entryHash l) = Some h → l_entryHash l' = l_entryHash l →
  valid l → valid l' → collision ∨ same_content l l'.
Proof.
  intros Hw Hw' Hh Eh Hv Hv'. apply recomputed_inj; [done..|]. rewrite (Hv h Hh). symmetry. apply Hv'. by rewrite Eh.
Qed.

(** ** The integrity report *)

Definition hashed (l : AuditLog) : Prop := is_Some (truthy_str (l_entryHash l)).
#[export] Instance hashed_dec l : Decision (hashed l).
Proof. unfold hashed. apply _. Defined.

Lemma verify_loop_spec n logs :
  (Forall valid logs ∧ verify_loop n logs = mkReport true (n + length (filter hashed logs)) None "Chain intact") ∨
  (∃ pre l suf, logs = pre ++ l :: suf ∧ Forall valid pre ∧ ¬ valid l ∧
     verify_loop n logs = mkReport false (n + length (filter hashed pre)) (Some (l_id l))
                            ("Tampered record detected at id=" +:+ l_id l)).
Proof.
  revert n. induction logs as [|l logs IH]; intros n; simpl.
  { left. rewrite Nat.add_0_r. by split. }
  rewrite filter_cons. destruct (truthy_str (l_entryHash l)) as [h|] eqn:Hh.
  - assert (hashed l) as Hl by (by eexists). rewrite (decide_True (P := hashed l)) by done.
    destruct (decide (recomputed l = h)) as [E|E].
    + rewrite bool_decide_false by auto. assert (valid l) as Hv by (intros h' Hh'; congruence).
      destruct (IH (S n)) as [[Hf ->]|(pre & l' & suf & -> & Hf & Hn & ->)].
      * left. split; [by constructor|]. simpl. by rewrite <- plus_n_Sm.
      * right. exists (l :: pre), l', suf. split_and!; [done|by constructor|done|].
        rewrite filter_cons, decide_True by done. simpl. by rewrite <- plus_n_Sm.
    + rewrite bool_decide_true by done. right. exists [], l, logs. split_and!; [done|done| |simpl; by rewrite Nat.add_0_r].
      intros Hv. by apply E, Hv.
  - assert (¬ hashed l) as Hl by (unfold hashed; rewrite Hh; by intros []). rewrite (decide_False (P := hashed l)) by done.
    assert (valid l) as Hv by (intros h' Hh'; congruence).
    destruct (IH n) as [[Hf ->]|(pre & l' & suf & -> & Hf & Hn & ->)].
    + left. split; [by constructor|done].
    + right. exists (l :: pre), l', suf. split_and!; [done|by constructor|done|]. by rewrite filter_cons, decide_False.
Qed.

(** The integrity check walks the entries it reads in order of creation,
    changes nothing, and reports the first entry whose hash does not match,
    with the number of hashed entries before it; it reports an intact chain,
    with the number of hashed entries, exactly when there is none. *)
Theorem verifyIntegrity_spec limit db :
  let logs := take (Z.to_nat limit) (order_by oldest (auditLog db)) in
  ∃ r, verifyIntegrity limit db = (db, Ok r) ∧
    if ok r then Forall valid logs ∧ totalChecked r = length (filter hashed logs) ∧ firstTamperedId r = None
    else ∃ pre l suf, logs = pre ++ l :: suf ∧ Forall valid pre ∧ ¬ valid l ∧
           firstTamperedId r = Some (l_id l) ∧ totalChecked r = length (filter hashed pre).
Proof.
  intros logs. unfold verifyIntegrity, gets. eexists. split; [reflexivity|]. fold logs.
  destruct (verify_loop_spec 0 logs) as [[Hf ->]|(pre & l & suf & -> & Hf & Hn & ->)]; simpl; [done|].
  by exists pre, l, suf.
Qed.

Lemma verify_ok limit db :
  (length (auditLog db) ≤ Z.to_nat limit)%nat →
  Forall valid (auditLog db) → ∃ r, verifyIntegrity limit db = (db, Ok r) ∧ ok r = true.
Proof.
  intros Hl Hv. unfold verifyIntegrity, gets. eexists. split; [reflexivity|].
  assert (order_by oldest (auditLog db) ≡ₚ auditLog db) as Hp by apply order_by_perm.
  rewrite take_ge by (by rewrite Hp).
  destruct (verify_loop_spec 0 (order_by oldest (auditLog db))) as [[_ ->]|(pre & l & suf & E & _ & Hn & _)]; [done|].
  exfalso. apply Hn. rewrite <- Hp, E in Hv. apply Forall_app in Hv as [_ Hv]. by apply Forall_cons in Hv as [? _].
Qed.

(** Deleting entries goes unnoticed: the check does not compare the link
    of an entry with the entry before, so after the retention policy has
    removed entries from the middle of an intact chain the chain is still
    reported intact. *)
Theorem deletion_undetected limit db now days db' deleted :
  (length (auditLog db) ≤ Z.to_nat limit)%nat → Forall valid (auditLog db) →
  applyRetentionPolicy now days db = (db', Ok deleted) →
  ∃ r, verifyIntegrity limit db' = (db', Ok r) ∧ ok r = true.
Proof.
  intros Hl Hv E. unfold applyRetentionPolicy, mbind, M_bind, get, put, mret, M_ret in E. injection E as <- <-.
  apply verify_ok; simpl.
  - etrans; [apply length_filter|done].
  - rewrite Forall_forall in Hv |- *. intros x [_ Hx]%list_elem_of_filter. auto.
Qed.

(** ** Entries the service wrote itself *)

Definition ctx_wf (ctx : AuditContext) : Prop :=
  json_wf (opt_json (payloadBefore ctx)) ∧ json_wf (opt_json (payloadAfter ctx)) ∧ json_wf (opt_json (details ctx)).

(** What the column keeps is itself JSON. *)
Lemma json_column_keys l : fst <$> List.filter defined_prop ((λ kv, (kv.1, json_column kv.2)) <$> l) `sublist_of` fst <$> l.
Proof.
  induction l as [|[k v] l IH]; [done|]. simpl. destruct (defined_prop _); simpl; by constructor.
Qed.

Lemma json_column_wf v : json_wf v → json_wf (json_column v).
Proof.
  induction v as [| | | | |l IH|l IH] using json_induction; simpl; [done..| |].
  - rewrite !andb_True, !forallb_Forall_s, !Forall_fmap. intros [Hdef Hl]. rewrite Forall_forall in IH, Hl. split; rewrite Forall_forall; intros x Hx.
    + by destruct x.
    + specialize (IH x Hx (Hl x Hx)). by destruct x.
  - intros [Hnd%bool_decide_unpack Hl]%andb_True. apply andb_True. split.
    + apply bool_decide_pack. eapply sublist_NoDup; [exact Hnd|apply json_column_keys].
    + rewrite forallb_Forall_s in Hl |- *. rewrite Forall_forall in IH, Hl |- *.
      intros x [_ Hx]%elem_of_bfilter. apply list_elem_of_fmap in Hx as (y & -> & Hy). simpl. apply IH; auto.
Qed.

Lemma map_set_wf k v l : json_wf v → json_wf (JObj l) → json_wf (JObj (map_set k v l)).
Proof.
  intros Hv [Hnd%bool_decide_unpack Hl]%andb_True. apply andb_True. split.
  - apply bool_decide_pack. by apply map_set_nodup.
  - rewrite forallb_Forall_s in Hl |- *. clear Hnd. induction l as [|[k' v'] l IH]; simpl; [by repeat constructor|].
    apply Forall_cons in Hl as [Hx Hl]. case_bool_decide; constructor; auto.
Qed.

Lemma json_spread_wf d : json_wf (opt_json d) → json_wf (JObj (json_spread d)).
Proof. by destruct d as [[| | | | |l|l]|]. Qed.

Lemma log_row_wf now ctx db db' r : ctx_wf ctx → log now ctx db = (db', Ok r) → row_wf r.
Proof.
  intros (Hb & Ha & Hd). unfold log, mbind, M_bind, get, put, mret, M_ret, throw. case_bool_decide; [|done]. intros E.
  injection E as _ <-. unfold row_wf, row_details. cbn [l_details l_snapshotBefore l_snapshotAfter default opt_json from_option id].
  split_and!; [apply (json_column_wf (JObj _))|apply json_column_wf..].
  - apply map_set_wf; [done|]. apply map_set_wf; [done|]. by apply json_spread_wf.
  - by destruct (payloadBefore ctx).
  - by destruct (payloadAfter ctx).
Qed.

(** What the entry was hashed from. *)
Definition logged_entry (now : Z) (ctx : AuditContext) (prev : option string) : json :=
  hash_entry (userId ctx) (default "SYSTEM" (role ctx)) (action ctx) (JStr (AuditStatus_string (default SUCCESS (status ctx))))
    (targetType ctx) (targetId ctx) (ipAddress ctx) (userAgent ctx) (requestId ctx) (correlationId ctx)
    (opt_json (payloadBefore ctx)) (opt_json (payloadAfter ctx)) (toISOString now) prev.

Lemma log_hash now ctx db db' r : log now ctx db = (db', Ok r) →
  l_entryHash r = Some (computeHash (logged_entry now ctx (l_previousHash r))).
Proof.
  unfold log, mbind, M_bind, get, put, mret, M_ret, throw. case_bool_decide; [|done]. intros E. by injection E as _ <-.
Qed.

(** An entry that is logged without a payload (as every call through
    [logAction] without snapshots is) does not pass the integrity check,
    though nobody touched it: the hash is taken of an undefined payload and the
    check recomputes it from the empty object that was stored. *)
Theorem intact_entry_rejected now ctx db db' r :
  ctx_wf ctx → payloadBefore ctx = None → log now ctx db = (db', Ok r) →
  collision ∨ l_entryHash r ≠ Some (recomputed r).
Proof.
  intros Hwf Hb Hlog. destruct (decide (l_entryHash r = Some (recomputed r))) as [Hh|Hh]; [left|by right]. pose proof (log_row_wf _ _ _ _ _ Hwf Hlog) as (D & B & A). destruct Hwf as (Hcb & Hca & _).
  rewrite (log_hash _ _ _ _ _ Hlog) in Hh. injection Hh as Hh.
  destruct (computeHash_inj _ _ (hash_entry_wf _ _ _ (JStr _) _ _ _ _ _ _ _ _ _ _ I Hcb Hca)
    (hash_entry_wf _ _ _ _ _ _ _ _ _ _ _ _ _ _ (row_status_wf _ D) B A) Hh) as [Hc|Hc]; [done|exfalso].
  apply hash_entry_inj in Hc as (_ & _ & Hc & _). rewrite Hb in Hc. revert Hlog.
  unfold log, mbind, M_bind, get, put, mret, M_ret, throw. case_bool_decide; [|done]. intros E. injection E as _ <-.
  by rewrite Hb in Hc.
Qed.

Lemma json_prop_stored k v l : map_get k l = Some (JStr v) →
  json_prop k (JObj (List.filter defined_prop ((λ kv, (kv.1, json_column kv.2)) <$> l))) = JStr v.
Proof.
  simpl. induction l as [|[k' v'] l IH]; simpl; [done|]. case_bool_decide as E.
  - intros [= ->]. subst. simpl. by rewrite bool_decide_true.
  - intros Hg. destruct (defined_prop _); simpl; [rewrite bool_decide_false by done|]; auto.
Qed.

(** An entry logged with both payloads passes the check, provided the
    database stamps it with the instant the server hashed and the payloads
    have no undefined parts. *)
Theorem logged_entry_valid now ctx db db' r b a :
  payloadBefore ctx = Some b → payloadAfter ctx = Some a → json_column b = b → json_column a = a →
  db_now (adb_serial db) = now → log now ctx db = (db', Ok r) → l_entryHash r = Some (recomputed r).
Proof.
  intros Hb Ha Eb Ea Hnow. unfold log, mbind, M_bind, get, put, mret, M_ret, throw. case_bool_decide; [|done]. intros E.
  injection E as _ <-. rewrite Hb, Ha. unfold recomputed.
  cbn [l_entryHash l_adminId l_action l_targetType l_targetId l_details l_requestId l_correlationId l_snapshotBefore
       l_snapshotAfter l_ipAddress l_userAgent l_previousHash l_createdAt default opt_json from_option id].
  rewrite (json_prop_stored "_role" (default "SYSTEM" (role ctx))) by apply map_get_set_eq.
  rewrite (json_prop_stored "_status" (AuditStatus_string (default SUCCESS (status ctx)))).
  - by rewrite Eb, Ea, Hnow.
  - rewrite map_get_set_ne by done. apply map_get_set_eq.
Qed.

(** Redaction is reported as tampering: an entry with an address that
    passed the check does not pass it once its user has been redacted. *)
Theorem redaction_reported now l h ip :
  row_wf l → truthy_str (l_entryHash l) = Some h → truthy_str (l_ipAddress l) = Some ip →
  valid l → collision ∨ recomputed (redact now l) ≠ h.
Proof.
  intros Hw Hh Hip Hv. destruct (decide (recomputed (redact now l) = h)) as [Hv'|Hv']; [left|by right].
  destruct (recomputed_inj l (redact now l)) as [Hc|(_ & (E & _) & _)]; [done| | |done|].
  - unfold row_wf, row_details. simpl. done.
  - by rewrite (Hv h Hh).
  - rewrite Hip in E. discriminate.
Qed.

(** ** The chain *)

Inductive a_op := AOpLog (now : Z) (ctx : AuditContext) | AOpRedact (now : Z) (user : string).
Definition a_run (op : a_op) : M AuditDB unit :=
  match op with
  | AOpLog now ctx => _ ← log now ctx; mret tt
  | AOpRedact now user => _ ← redactUser now user; mret tt
  end.
Definition a_step (db db' : AuditDB) : Prop := ∃ op r, a_run op db = (db', r).

(** Each entry holds the hash of the one before it, the first one [prev]. *)
Fixpoint linked (prev : option string) (l : list AuditLog) : Prop :=
  match l with
  | [] => True
  | x :: l' => l_previousHash x = prev ∧ linked (l_entryHash x) l'
  end.

Definition last_hash (prev : option string) (l : list AuditLog) : option string :=
  match last l with Some x => l_entryHash x | None => prev end.

Lemma linked_snoc prev l x : linked prev l → l_previousHash x = last_hash prev l → linked prev (l ++ [x]).
Proof.
  revert prev. induction l as [|y l IH]; intros prev; simpl; [by intros _ ->|]. intros [Hy Hl] Hx. split; [done|].
  apply IH; [done|]. rewrite Hx. unfold last_hash. rewrite last_cons. by destruct (last l).
Qed.

Lemma linked_map prev (g : AuditLog → AuditLog) l :
  (∀ x, l_previousHash (g x) = l_previousHash x) → (∀ x, l_entryHash (g x) = l_entryHash x) →
  linked prev l → linked prev (g <$> l).
Proof.
  intros Hp He. revert prev. induction l as [|x l IH]; intros prev; simpl; [done|]. rewrite Hp, He. naive_solver.
Qed.

Record chained (db : AuditDB) : Prop := {
  ch_sorted : StronglySorted (λ a b, l_createdAt a < l_createdAt b) (auditLog db);
  ch_issued : Forall (λ l, ∃ k, (k < adb_serial db)%nat ∧ l_createdAt l = db_now k) (auditLog db);
  ch_linked : linked None (auditLog db);
}.

(** The newest entry is the last one written. *)
Lemma newest_last l : StronglySorted (λ a b, l_createdAt a < l_createdAt b) l → head (order_by newest l) = last l.
Proof. apply order_by_latest. Qed.

Lemma chained_log (Hclock : ∀ n m, (n < m)%nat → db_now n < db_now m) now ctx : preserves chained (log now ctx).
Proof.
  unfold log. apply preserves_get_bind. intros db [Hs Hi Hl]. cbv zeta. case_bool_decide; [|by m_step].
  m_step. m_step. m_step. split; simpl.
  - apply StronglySorted_app. split_and!; [|done|by repeat constructor].
    intros a b Ha ->%list_elem_of_singleton. simpl. rewrite Forall_forall in Hi. destruct (Hi a Ha) as (k & Hk & ->). auto.
  - apply Forall_app. split; [|constructor; [|constructor]; exists (adb_serial db); split; [lia|done]].
    eapply Forall_impl; [exact Hi|]. intros l (k & Hk & E). exists k. split; [lia|done].
  - apply linked_snoc; [done|]. simpl. rewrite newest_last by done. unfold last_hash. by destruct (last _).
Qed.

Lemma chained_redact now user : preserves chained (redactUser now user).
Proof.
  unfold redactUser. apply preserves_get_bind. intros db [Hs Hi Hl]. m_step. m_step. m_step.
  set (g l := if decide (redactable user l) then redact now l else l).
  assert (∀ x, l_createdAt (g x) = l_createdAt x) as Hg by (intros x; unfold g; by case_decide).
  split; simpl; fold g.
  - clear Hi Hl. induction Hs as [|x l Hs IH Hx]; simpl; constructor; [done|].
    apply Forall_fmap. eapply Forall_impl; [exact Hx|]. intros y. simpl. by rewrite !Hg.
  - apply Forall_fmap. eapply Forall_impl; [exact Hi|]. intros x. simpl. by rewrite Hg.
  - apply linked_map; [intros x; unfold g; by case_decide..|done].
Qed.

(** As long as entries are only added and redacted, each entry links to
    the hash of the entry written just before it, and the first to none, the
    database clock strictly increasing. *)
Theorem chain_links users db :
  (∀ n m, (n < m)%nat → db_now n < db_now m) →
  rtc a_step (mkAuditDB users [] 0) db → linked None (auditLog db).
Proof.
  intros Hclock Hs. enough (chained db) as [_ _ Hl] by done.
  assert (Hc0 : chained (mkAuditDB users [] 0)) by (split; simpl; by constructor).
  revert Hc0. induction Hs as [|db1 db2 db3 (op & r & Hr) _ IH]; [done|]. intros Hc. apply IH.
  eapply (preserves_run _ (a_run op)); [|exact Hc|exact Hr]. destruct op; simpl; apply preserves_bind; auto with arenax.
  - by apply chained_log.
  - apply chained_redact.
Qed.
End spec.

(** ** Concrete entries

    With the text itself as its hash there are no collisions. *)
Definition id_hash : Sha256 := λ s, s.

Section witnesses.
#[local] Existing Instance id_hash.

Lemma id_hash_inj : ¬ collision.
Proof. intros (s1 & s2 & Hne & E). by apply Hne. Qed.

Lemma stableStringify_spec_witness :
  stableStringify (JObj [("b", JNum "1"); ("a", JArr [JNull; JStr "x"])]) =
    stableStringify (JObj [("a", JArr [JNull; JStr "x"]); ("b", JNum "1")]).
Proof. apply stableStringify_spec; [vm_compute; exact I|vm_compute; exact I|vm_compute; reflexivity]. Defined.

Definition w_ctx (before : option json) : AuditContext :=
  mkContext "ann" None "KYC_APPROVE" None "USER" "u1" (Some "10.0.0.1") None None None before (Some (JObj [("kyc", JBool true)])) None.
Definition w_db0 : AuditDB := mkAuditDB {["ann"]} [] 0.
Definition w_empty : AuditLog := mkLog "" "" "" "" "" None None None None None None None None None None None None 0.
Definition w_written (before : option json) : AuditDB * AuditLog :=
  match log (db_now 0) (w_ctx before) w_db0 with (db, Ok l) => (db, l) | (db, Throw _) => (db, w_empty) end.
Definition w_row : AuditLog := (w_written (Some (JObj []))).2.
Definition w_db1 : AuditDB := (w_written (Some (JObj []))).1.

Lemma w_log_ok before : log (db_now 0) (w_ctx before) w_db0 = ((w_written before).1, Ok (w_written before).2).
Proof. reflexivity. Qed.

Lemma logged_entry_valid_witness : l_entryHash w_row = Some (recomputed w_row).
Proof.
  apply (logged_entry_valid (db_now 0) (w_ctx (Some (JObj []))) w_db0 w_db1 w_row (JObj []) (JObj [("kyc", JBool true)]));
    reflexivity.
Defined.

Lemma intact_entry_rejected_witness : l_entryHash (w_written None).2 ≠ Some (recomputed (w_written None).2).
Proof.
  destruct (intact_entry_rejected (db_now 0) (w_ctx None) w_db0 (w_written None).1 (w_written None).2) as [Hc|Hn].
  - split_and!; vm_compute; exact I.
  - reflexivity.
  - apply w_log_ok.
  - by destruct id_hash_inj.
  - exact Hn.
Defined.

Lemma w_row_wf : row_wf w_row.
Proof. split_and!; vm_compute; exact I. Qed.

Lemma w_row_valid : valid w_row.
Proof. intros h Hh. vm_compute in Hh. injection Hh as <-. vm_compute. reflexivity. Qed.

Definition w_hash : string := default "" (l_entryHash w_row).

(** The same entry after it was anchored: those columns are not hashed. *)
Definition w_anchored : AuditLog :=
  mkLog (l_id w_row) (l_adminId w_row) (l_action w_row) (l_targetType w_row) (l_targetId w_row) (l_details w_row)
    (l_requestId w_row) (l_correlationId w_row) (l_snapshotBefore w_row) (l_snapshotAfter w_row) (l_ipAddress w_row)
    (l_userAgent w_row) (l_entryHash w_row) (l_previousHash w_row) (Some 9) (Some "tx") None (l_createdAt w_row).

Lemma tamper_evident_witness : same_content w_row w_anchored.
Proof.
  destruct (tamper_evident w_row w_anchored w_hash) as [Hc|Hs];
    [exact w_row_wf|exact w_row_wf|vm_compute; reflexivity|reflexivity|exact w_row_valid|exact w_row_valid|
     by destruct id_hash_inj|exact Hs].
Defined.

Lemma redaction_reported_witness : recomputed (redact 7 w_row) ≠ w_hash.
Proof.
  destruct (redaction_reported 7 w_row w_hash "10.0.0.1") as [Hc|Hn];
    [exact w_row_wf|vm_compute; reflexivity|vm_compute; reflexivity|exact w_row_valid|by destruct id_hash_inj|exact Hn].
Defined.

Lemma deletion_undetected_witness :
  ∃ r, verifyIntegrity 100000 (applyRetentionPolicy (400 * 86400000) 365 w_db1).1 =
    ((applyRetentionPolicy (400 * 86400000) 365 w_db1).1, Ok r) ∧ ok r = true.
Proof.
  eapply (deletion_undetected 100000 w_db1 (400 * 86400000) 365).
  - change (length (auditLog w_db1)) with 1%nat. lia.
  - change (auditLog w_db1) with [w_row]. constructor; [exact w_row_valid|constructor].
  - reflexivity.
Defined.

Lemma chain_links_witness : linked None (auditLog (a_run (AOpRedact 5 "ann") w_db1).1).
Proof.
  apply (chain_links {["ann"]}).
  - intros n m Hnm. simpl. lia.
  - eapply rtc_l; [exists (AOpLog (db_now 0) (w_ctx (Some (JObj [])))); eexists; reflexivity|].
    apply rtc_once. exists (AOpRedact 5 "ann"). eexists. apply surjective_pairing.
Defined.
End witnesses.
