(* ===== verification/AuditAnchor.v ===== *)
(** * Anchoring the audit trail: [server/src/services/audit-anchor.service.ts]

    The Merkle root of a batch of entry hashes and the job that sends it to a
    ledger.  The ledger client is the class [AnchorProvider].  The loop over the
    layers of the tree is a recursion with the number of hashes as fuel; each
    layer is half as long as the one before, so it is enough
    ([buildMerkleRoot_eq]). *)

From stdpp Require Import prelude gmap strings list pretty sorting.
From S2P Require Import Prelude JsText Crypto Prisma Json AuditTrail.

(** [IBlockchainAnchorProvider.anchorHash(rootHash, { count })] *)
Class AnchorProvider := anchorHash : string → nat → result string.

Section anchor.
Context `{Prisma} `{Sha256} `{AnchorProvider}.

(** One run of the inner loop: a node for every two, the last one of an odd
    layer with itself. *)
Fixpoint next_layer (layer : list string) : list string :=
  match layer with
  | left_ :: right_ :: rest => sha256_hex (left_ +:+ right_) :: next_layer rest
  | [left_] => [sha256_hex (left_ +:+ left_)]
  | [] => []
  end.

Fixpoint merkle_loop (fuel : nat) (layer : list string) : string :=
  match fuel, layer with
  | _, [] => ""
  | _, [root] => root
  | O, _ => ""
  | S f, _ => merkle_loop f (next_layer layer)
  end.

Definition buildMerkleRoot (hashes : list string) : string := merkle_loop (length hashes) hashes.

Definition stamp (now : Z) (txId : string) (ids : list string) (l : AuditLog) : AuditLog :=
  if decide (l_id l ∈ ids) then
    mkLog (l_id l) (l_adminId l) (l_action l) (l_targetType l) (l_targetId l) (l_details l) (l_requestId l)
      (l_correlationId l) (l_snapshotBefore l) (l_snapshotAfter l) (l_ipAddress l) (l_userAgent l) (l_entryHash l)
      (l_previousHash l) (Some now) (Some txId) (l_redactedAt l) (l_createdAt l)
  else l.

Definition pending (db : AuditDB) : list AuditLog :=
  take 1000 (order_by oldest (filter (λ l, l_anchoredAt l = None ∧ l_entryHash l ≠ None) (auditLog db))).

Record AnchorResult := mkAnchor { anchored : nat; txId_ : option string; merkleRoot : option string }.

Definition anchorPending (now : Z) : M AuditDB AnchorResult :=
  db ← get;
  let batch := pending db in
  if bool_decide (length batch = 0)%nat then mret (mkAnchor 0 None None) else
  let hashes := (λ r, default "" (l_entryHash r)) <$> batch in
  let root := buildMerkleRoot hashes in
  match anchorHash root (length batch) with
  | Throw err => throw err
  | Ok txId =>
      let ids := l_id <$> batch in
      _ ← put (mkAuditDB (adb_users db) (stamp now txId ids <$> auditLog db) (adb_serial db));
      mret (mkAnchor (length ids) (Some txId) (Some root))
  end.

Definition verifyAnchor (auditLogId : string) : M AuditDB (bool * option string) :=
  gets (λ db,
    let entry := row_find l_id auditLogId (auditLog db) in
    (bool_decide (is_Some (entry ≫= l_anchoredAt)), entry ≫= l_anchorTxId)).

(** ** The Merkle tree *)

Lemma pair_ind {A} (P : list A → Prop) :
  P [] → (∀ x, P [x]) → (∀ x y l, P l → P (x :: y :: l)) → ∀ l, P l.
Proof.
  intros H0' H1' H2' l. enough (P l ∧ ∀ x, P (x :: l)) as [? _] by done. induction l as [|y l [IH1 IH2]]; auto.
Qed.

Lemma next_layer_length l : (length l ≤ 2 * length (next_layer l) ≤ length l + 1)%nat.
Proof. induction l as [|x|x y l IH] using pair_ind; simpl in *; lia. Qed.

Lemma next_layer_length_eq l1 l2 : length l1 = length l2 → length (next_layer l1) = length (next_layer l2).
Proof. intros E. pose proof (next_layer_length l1). pose proof (next_layer_length l2). lia. Qed.

(** More fuel than needed changes nothing. *)
Lemma merkle_loop_fuel l f1 f2 : (length l ≤ f1)%nat → (length l ≤ f2)%nat → merkle_loop f1 l = merkle_loop f2 l.
Proof.
  revert l f2. induction f1 as [|f1 IH]; intros l f2 H1' H2'.
  - destruct l; [by destruct f2|simpl in *; lia].
  - destruct l as [|x [|y l]]; [by destruct f2|by destruct f2|]. destruct f2 as [|f2]; [simpl in *; lia|].
    pose proof (next_layer_length (x :: y :: l)) as Hn.
    change (merkle_loop f1 (next_layer (x :: y :: l)) = merkle_loop f2 (next_layer (x :: y :: l))).
    apply IH; simpl length in *; lia.
Qed.

Lemma buildMerkleRoot_eq l : (2 ≤ length l)%nat → buildMerkleRoot l = buildMerkleRoot (next_layer l).
Proof.
  intros Hl. destruct l as [|x [|y l]]; [simpl in *; lia..|]. pose proof (next_layer_length (x :: y :: l)) as Hn.
  change (merkle_loop (S (length l)) (next_layer (x :: y :: l)) = buildMerkleRoot (next_layer (x :: y :: l))).
  unfold buildMerkleRoot. apply merkle_loop_fuel; [|done]. simpl length in *. lia.
Qed.

(** After [k] rounds of the loop, [2^k] hashes share a node. *)
Lemma layers_length k l : l ≠ [] →
  (length l ≤ 2 ^ k * length (Nat.iter k next_layer l) < length l + 2 ^ k)%nat.
Proof.
  intros Hl. assert (length l ≠ 0)%nat by (by destruct l). induction k as [|k IH]; [simpl; lia|].
  rewrite Nat.iter_succ, Nat.pow_succ_r'. pose proof (next_layer_length (Nat.iter k next_layer l)). nia.
Qed.

Lemma layers_root k l : (∀ j, j < k → 2 ≤ length (Nat.iter j next_layer l))%nat →
  buildMerkleRoot (Nat.iter k next_layer l) = buildMerkleRoot l.
Proof.
  induction k as [|k IH]; intros Hj; [done|]. rewrite Nat.iter_succ, <-buildMerkleRoot_eq by (apply Hj; lia).
  apply IH. intros j Hjk. apply Hj. lia.
Qed.

(** The loop of [buildMerkleRoot] stops: as long as it has run less than
    log2(n) times (rounded up) there are two nodes left and it goes on, and then
    exactly one node is left, which is the root that is returned. *)
Theorem merkle_terminates l : l ≠ [] →
  (∀ k, k < Nat.log2_up (length l) → 1 < length (Nat.iter k next_layer l))%nat ∧
  Nat.iter (Nat.log2_up (length l)) next_layer l = [buildMerkleRoot l].
Proof.
  intros Hl. assert (0 < length l)%nat as Hn by (destruct l; simpl in *; [done|lia]).
  assert (∀ k, k < Nat.log2_up (length l) → 1 < length (Nat.iter k next_layer l))%nat as Hgo.
  { intros k Hk. apply Nat.log2_up_lt_pow2 in Hk; [|done]. pose proof (layers_length k l Hl). nia. }
  split; [done|]. pose proof (layers_length (Nat.log2_up (length l)) l Hl) as Hlen.
  pose proof (proj2 (Nat.log2_up_le_pow2 (length l) _ Hn) (Nat.le_refl _)) as Hpow.
  rewrite <-(layers_root (Nat.log2_up (length l))) by (intros; apply Hgo; lia).
  destruct (Nat.iter (Nat.log2_up (length l)) next_layer l) as [|x [|y r]]; simpl in *; [lia|done|nia].
Qed.


Context (hash_length : nat).

Lemma app_eq_length (a b c d : string) : String.length a = String.length c → a +:+ b = c +:+ d → a = c ∧ b = d.
Proof.
  revert c. induction a as [|x a IH]; intros [|y c]; simpl; intros Hl E; try done.
  injection E as -> E. injection Hl as Hl. by destruct (IH c Hl E) as [-> ->].
Qed.

Lemma sha_pair_inj a b c d :
  String.length a = String.length c → sha256_hex (a +:+ b) = sha256_hex (c +:+ d) → collision ∨ (a = c ∧ b = d).
Proof.
  intros Hl E. destruct (decide (a +:+ b = c +:+ d)) as [E'|E']; [right; by apply app_eq_length|left].
  by exists (a +:+ b), (c +:+ d).
Qed.

Definition sized (s : string) : Prop := String.length s = hash_length.

Lemma next_layer_inj l1 l2 :
  Forall sized l1 → Forall sized l2 → length l1 = length l2 → next_layer l1 = next_layer l2 → collision ∨ l1 = l2.
Proof.
  revert l2. induction l1 as [|x|x y l IH] using pair_ind; intros [|x' [|y' l']] H1' H2' Hl E; try done; try (simpl in *; lia).
  - by right.
  - injection E as E. apply Forall_cons in H1' as [Sx _], H2' as [Sx' _].
    destruct (sha_pair_inj x x x' x') as [Hc|[-> _]]; [unfold sized in *; congruence|done|by left|by right].
  - apply Forall_cons in H1' as [Sx [Sy H1']%Forall_cons], H2' as [Sx' [Sy' H2']%Forall_cons]. injection E as E1 E2.
    destruct (sha_pair_inj x y x' y') as [Hc|[-> ->]]; [unfold sized in *; congruence|done|by left|].
    destruct (IH l' H1' H2') as [Hc| ->]; [simpl in *; lia|done|by left|by right].
Qed.

Lemma next_layer_sized l : (∀ s, sized (sha256_hex s)) → Forall sized (next_layer l).
Proof. intros Hs. induction l as [|x|x y l IH] using pair_ind; simpl; repeat constructor; auto. Qed.

(** The anchored root commits to the batch: two batches of the same size
    with the same root are the same batch in the same order, or SHA-256 has a
    collision (all digests having the same length). *)
Theorem merkle_binding l1 l2 :
  (∀ s, String.length (sha256_hex s) = hash_length) →
  Forall sized l1 → Forall sized l2 → length l1 = length l2 →
  buildMerkleRoot l1 = buildMerkleRoot l2 → collision ∨ l1 = l2.
Proof.
  intros Hs. remember (length l1) as n eqn:Hn. revert l1 l2 Hn.
  induction (lt_wf n) as [n _ IH]. intros l1 l2 Hn S1 S2 Hl E.
  destruct (decide (2 ≤ n)%nat) as [H2'|H2'].
  - rewrite !(buildMerkleRoot_eq l1), !(buildMerkleRoot_eq l2) in E by lia.
    destruct (IH (length (next_layer l1))) with (l1 := next_layer l1) (l2 := next_layer l2) as [Hc|E'];
      auto using next_layer_sized.
    + pose proof (next_layer_length l1). lia.
    + apply next_layer_length_eq. lia.
    + apply next_layer_inj; auto. lia.
  - right. destruct l1 as [|x [|? ?]], l2 as [|y [|? ?]]; simpl in *; try lia; [done|]. unfold buildMerkleRoot in E. simpl in E. by subst.
Qed.

(** An odd batch and the same batch with its last hash repeated have one
    root, so the root alone does not fix the number of entries. *)
Lemma merkle_odd_duplicate l x :
  Nat.even (length l) → l ≠ [] → buildMerkleRoot (l ++ [x]) = buildMerkleRoot (l ++ [x; x]).
Proof.
  intros He Hne. assert (0 < length l)%nat by (destruct l; simpl in *; [done|lia]).
  rewrite !(buildMerkleRoot_eq (l ++ _)) by (rewrite length_app; simpl; lia). f_equal. clear Hne.
  clear H2. induction l as [|y|y z l IH] using pair_ind; simpl in *; [done|done|]. f_equal. auto.
Qed.

(** Anchoring is all or nothing: an empty batch and a failing ledger
    change nothing, and otherwise the transaction id the ledger gave is
    stamped on the entries of the batch and on no other. *)
Theorem anchorPending_spec now db :
  match anchorPending now db with
  | (db', Throw e) => db' = db ∧ anchorHash (buildMerkleRoot ((λ r, default "" (l_entryHash r)) <$> pending db)) (length (pending db)) = Throw e
  | (db', Ok res) =>
      match txId_ res with
      | None => db' = db ∧ pending db = []
      | Some tx => anchored res = length (pending db) ∧
          merkleRoot res = Some (buildMerkleRoot ((λ r, default "" (l_entryHash r)) <$> pending db)) ∧
          auditLog db' = stamp now tx (l_id <$> pending db) <$> auditLog db
      end
  end.
Proof.
  unfold anchorPending, mbind, M_bind, get, put, mret, M_ret, throw. case_bool_decide as Hb; simpl.
  - split; [done|]. by apply length_zero_iff_nil.
  - destruct (anchorHash _ _) as [tx|e]; simpl; [|done]. by rewrite length_fmap.
Qed.
End anchor.

(** ** A concrete batch

    The last four characters of the padded text as a digest. *)
Definition last_four (s : string) : string :=
  let t := "0000" +:+ s in String.substring (String.length t - 4) 4 t.
Definition short_hash : Sha256 := last_four.

Lemma substring_length (n m : nat) (s : string) :
  (n + m ≤ String.length s)%nat → String.length (String.substring n m s) = m.
Proof.
  revert n m. induction s as [|c s IH]; intros [|n] [|m] Hl; simpl in *; try lia; auto.
  - f_equal. apply IH. lia.
  - apply (IH n 0%nat). lia.
  - apply (IH n (S m)). lia.
Qed.

Section witnesses.
#[local] Existing Instance short_hash.

Lemma short_hash_length s : String.length (sha256_hex s) = 4%nat.
Proof. unfold sha256_hex, short_hash, last_four. apply substring_length. simpl. lia. Qed.

Lemma merkle_binding_witness : collision ∨ ["aaaa"; "bbbb"; "cccc"] = ["aaaa"; "bbbb"; "cccc"].
Proof.
  apply (merkle_binding 4 ["aaaa"; "bbbb"; "cccc"] ["aaaa"; "bbbb"; "cccc"] short_hash_length);
    [by repeat constructor|by repeat constructor|reflexivity|reflexivity].
Defined.

(** Five hashes need three rounds. *)
Lemma merkle_terminates_witness : let l := ["aaaa"; "bbbb"; "cccc"; "dddd"; "eeee"] in
  length (Nat.iter 2 next_layer l) = 2%nat ∧ Nat.iter 3 next_layer l = [buildMerkleRoot l].
Proof.
  split; [vm_compute; reflexivity|]. apply (merkle_terminates ["aaaa"; "bbbb"; "cccc"; "dddd"; "eeee"]). discriminate.
Defined.
End witnesses.
