(* ===== verification/Refund.v ===== *)
(** * Refund requests: [server/src/services/refund.service.ts]

    The life of a refund request: it is created for a payment, reviewed by an
    operator along the transitions of [validateTransition], and approval refunds
    the payment at once.  Every change is written to the audit trail, which the
    component only knows through [AuditSink].  Columns the service neither
    reads nor writes are left out. *)

From Stdlib Require Import Ascii.
From stdpp Require Import prelude gmap strings list pretty sorting.
From S2P Require Import Prelude JsText Crypto Prisma Json AuditTrail.

(** ** Data *)

Inductive RefundStatus := REQUESTED | REVIEWING | APPROVED | REJECTED | PROCESSED.
#[export] Instance RefundStatus_eq_dec : EqDecision RefundStatus.
Proof. solve_decision. Defined.

Definition RefundStatus_string (s : RefundStatus) : string :=
  match s with
  | REQUESTED => "REQUESTED" | REVIEWING => "REVIEWING" | APPROVED => "APPROVED"
  | REJECTED => "REJECTED" | PROCESSED => "PROCESSED"
  end.

Record Payment := mkPayment { pay_id : string; pay_amount : string; pay_status : string }.

Record RefundRequest := mkRefund {
  rf_id : string;
  rf_paymentId : string;
  rf_amount : string;
  rf_status : RefundStatus;
  rf_reason : string;
  rf_operatorId : option string;
  rf_operatorNotes : option string;
  rf_createdAt : Z;
}.

Record RDB (A : Type) := mkRDB {
  r_users : gset string;
  payment : list Payment;
  refundRequest : list RefundRequest;
  r_audit : A;
  r_serial : nat;
}.
Arguments mkRDB {A}.
Arguments r_users {A}.
Arguments payment {A}.
Arguments refundRequest {A}.
Arguments r_audit {A}.
Arguments r_serial {A}.

(** ** [BigInt(text)] *)

Definition digit_value (c : ascii) : Z :=
  let n := Z.of_nat (nat_of_ascii c) in
  if bool_decide (48 ≤ n ≤ 57) then n - 48
  else if bool_decide (97 ≤ n ≤ 122) then n - 87
  else if bool_decide (65 ≤ n ≤ 90) then n - 55 else 99.

(** All of [s] read as digits, at least one. *)
Fixpoint digits (base acc : Z) (s : string) : option Z :=
  match s with
  | EmptyString => Some acc
  | String c s' => if bool_decide (digit_value c < base) then digits base (acc * base + digit_value c) s' else None
  end.
Definition digits1 (base : Z) (s : string) : option Z := if bool_decide (s = "") then None else digits base 0 s.

(** [None] is a [SyntaxError]; the empty text is zero. *)
Definition BigInt (text : string) : option Z :=
  match trim text with
  | EmptyString => Some 0
  | String "0" (String "x" s) | String "0" (String "X" s) => digits1 16 s
  | String "0" (String "o" s) | String "0" (String "O" s) => digits1 8 s
  | String "0" (String "b" s) | String "0" (String "B" s) => digits1 2 s
  | String "-" s => Z.opp <$> digits1 10 s
  | String "+" s => digits1 10 s
  | s => digits1 10 s
  end.

Definition NotABigInt : exn := JsError "SyntaxError".

(** ** Operations *)

Section refund.
Context `{Prisma} {A : Type} `{AuditSink A}.

Definition set_requests (l : list RefundRequest) (db : RDB A) : RDB A :=
  mkRDB (r_users db) (payment db) l (r_audit db) (r_serial db).
Definition set_payments (l : list Payment) (db : RDB A) : RDB A :=
  mkRDB (r_users db) l (refundRequest db) (r_audit db) (r_serial db).

(** A call of the audit service works on its own part of the state. *)
Definition on_audit {X} (m : M A X) : M (RDB A) X := λ db,
  let (a, r) := m (r_audit db) in (mkRDB (r_users db) (payment db) (refundRequest db) a (r_serial db), r).

Definition createRequest (paymentId amount reason : string) : M (RDB A) RefundRequest :=
  db ← get;
  match row_find pay_id paymentId (payment db) with
  | None => throw (JsError "Payment not found.")
  | Some p =>
      match BigInt amount, BigInt (pay_amount p) with
      | Some a, Some b =>
          if bool_decide (b < a) then throw (JsError "Refund amount exceeds original payment amount.") else
          let row := mkRefund (uuid (r_serial db)) paymentId amount REQUESTED reason None None (db_now (r_serial db)) in
          _ ← put (mkRDB (r_users db) (payment db) (refundRequest db ++ [row]) (r_audit db) (S (r_serial db)));
          mret row
      | _, _ => throw NotABigInt
      end
  end.

Definition transitions (current : RefundStatus) : list RefundStatus :=
  match current with
  | REQUESTED => [REVIEWING; REJECTED]
  | REVIEWING => [APPROVED; REJECTED]
  | APPROVED => [PROCESSED]
  | REJECTED => []
  | PROCESSED => []
  end.

Definition validateTransition (current next : RefundStatus) : M (RDB A) unit :=
  if bool_decide (next ∈ transitions current) then mret tt
  else throw (JsError ("Invalid refund state transition from " +:+ RefundStatus_string current +:+ " to " +:+
                       RefundStatus_string next +:+ ".")).

Definition request_update (i : string) (f : RefundRequest → RefundRequest) : M (RDB A) RefundRequest :=
  db ← get;
  match row_find rf_id i (refundRequest db) with
  | None => throw RecordNotFound
  | Some r => _ ← put (set_requests (row_update rf_id i f (refundRequest db)) db); mret (f r)
  end.

Definition set_refund_status (s : RefundStatus) (r : RefundRequest) : RefundRequest :=
  mkRefund (rf_id r) (rf_paymentId r) (rf_amount r) s (rf_reason r) (rf_operatorId r) (rf_operatorNotes r) (rf_createdAt r).

Definition mark_refunded (p : Payment) : Payment := mkPayment (pay_id p) (pay_amount p) "REFUNDED".

Definition handleApproval (request : RefundRequest) : M (RDB A) unit :=
  _ ← request_update (rf_id request) (set_refund_status PROCESSED);
  db ← get;
  match row_find pay_id (rf_paymentId request) (payment db) with
  | None => throw RecordNotFound
  | Some _ => put (set_payments (row_update pay_id (rf_paymentId request) mark_refunded (payment db)) db)
  end.

(** [data: { status, operatorId, operatorNotes: notes }]: a note that is
    undefined leaves the column as it is. *)
Definition review (s : RefundStatus) (operator : string) (notes : option string) (r : RefundRequest) : RefundRequest :=
  mkRefund (rf_id r) (rf_paymentId r) (rf_amount r) s (rf_reason r) (Some operator)
    (match notes with Some n => Some n | None => rf_operatorNotes r end) (rf_createdAt r).

Definition refund_log (id operatorId : string) (s previous : RefundStatus) (notes : option string) : LogAction :=
  mkLogAction operatorId ("REFUND_" +:+ RefundStatus_string s) "REFUND_REQUEST" id
    (Some (JObj [("previousStatus", JStr (RefundStatus_string previous));
                 ("notes", match notes with Some n => JStr n | None => JUndefined end)]))
    (Some "internal") None None None None None.

Definition updateStatus (now : Z) (id operatorId : string) (s : RefundStatus) (notes : option string)
    : M (RDB A) RefundRequest :=
  db ← get;
  match row_find rf_id id (refundRequest db) with
  | None => throw (JsError "Refund request not found.")
  | Some request =>
      _ ← validateTransition (rf_status request) s;
      if bool_decide (operatorId ∈ r_users db) then
        updatedRequest ← request_update id (review s operatorId notes);
        _ ← (if bool_decide (s = APPROVED) then handleApproval updatedRequest else mret tt);
        _ ← on_audit (audit_log now (refund_log id operatorId s (rf_status request) notes));
        mret updatedRequest
      else throw ForeignKeyViolation
  end.

Definition listRequests (where_ : RefundRequest → bool) : M (RDB A) (list RefundRequest) :=
  gets (λ db, order_by (λ a b, bool_decide (rf_createdAt b ≤ rf_createdAt a)) (List.filter where_ (refundRequest db))).

(** ** Invariant *)

(** A request is for a payment and for no more than it; between calls none is
    left APPROVED; a processed one was reviewed and its payment is refunded. *)
Definition request_ok (db : RDB A) (r : RefundRequest) : Prop :=
  (∃ p a b, row_find pay_id (rf_paymentId r) (payment db) = Some p ∧
     BigInt (rf_amount r) = Some a ∧ BigInt (pay_amount p) = Some b ∧ a ≤ b ∧
     (rf_status r = PROCESSED → pay_status p = "REFUNDED")) ∧
  rf_status r ≠ APPROVED ∧
  (rf_status r ≠ REQUESTED → is_Some (rf_operatorId r)).

Record r_wf (db : RDB A) : Prop := {
  rw_issued : ∀ r, r ∈ refundRequest db → ∃ k, (k < r_serial db)%nat ∧ rf_id r = uuid k;
  rw_nodup : NoDup (rf_id <$> refundRequest db);
  rw_ok : ∀ r, r ∈ refundRequest db → request_ok db r;
}.

Lemma preserves_createRequest paymentId amount reason : preserves r_wf (createRequest paymentId amount reason).
Proof.
  unfold createRequest. apply preserves_get_bind. intros db Hwf.
  destruct (row_find pay_id _ _) as [p|] eqn:Hp; [|by m_step].
  destruct (BigInt amount) as [a|] eqn:Ha; [|by m_step]. destruct (BigInt (pay_amount p)) as [b|] eqn:Hb; [|by m_step].
  case_bool_decide; [by m_step|]. cbv zeta. m_step. m_step. m_step. destruct Hwf as [Hi Hn Ho]. split; simpl.
  - intros r [Hr| ->%list_elem_of_singleton]%elem_of_app.
    + destruct (Hi r Hr) as (k & ? & ?). exists k. split; [lia|done].
    + exists (r_serial db). split; [lia|done].
  - rewrite fmap_app. apply NoDup_app. split_and!; [done| |apply NoDup_singleton].
    intros x Hx ->%list_elem_of_singleton. apply list_elem_of_fmap in Hx as (r & E & Hr).
    destruct (Hi r Hr) as (k & ? & Ek). simpl in E. rewrite Ek in E. apply (inj uuid) in E. lia.
  - intros r [Hr| ->%list_elem_of_singleton]%elem_of_app; [by apply Ho|]. split_and!; [|done|done].
    exists p, a, b. split_and!; [done..|lia|done].
Qed.

Lemma on_audit_frame {X} (m : M A X) db :
  post (on_audit m) db
    (λ db' _, refundRequest db' = refundRequest db ∧ payment db' = payment db ∧ r_serial db' = r_serial db ∧ r_users db' = r_users db)
    (λ db' _, refundRequest db' = refundRequest db ∧ payment db' = payment db ∧ r_serial db' = r_serial db ∧ r_users db' = r_users db).
Proof. unfold post, on_audit. by destruct (m (r_audit db)) as [a [x|e]]. Qed.

Lemma r_wf_frame db db' :
  refundRequest db' = refundRequest db → payment db' = payment db → r_serial db' = r_serial db → r_wf db → r_wf db'.
Proof.
  intros E1 E2 E3 [Hi Hn Ho]. split; rewrite ?E1, ?E3; auto. intros r Hr. unfold request_ok. rewrite E2. by apply Ho.
Qed.

(** What a review leaves of a request. *)
Definition reviewed (s : RefundStatus) (operator : string) (notes : option string) (r : RefundRequest) : RefundRequest :=
  if bool_decide (s = APPROVED) then set_refund_status PROCESSED (review s operator notes r) else review s operator notes r.

Definition after_review (id operatorId : string) (s : RefundStatus) (notes : option string) (r : RefundRequest) (db : RDB A) (a : A) : RDB A :=
  mkRDB (r_users db)
    (if bool_decide (s = APPROVED) then row_update pay_id (rf_paymentId r) mark_refunded (payment db) else payment db)
    (row_update rf_id id (reviewed s operatorId notes) (refundRequest db)) a (r_serial db).

Lemma row_update_compose {R} (idf : R → string) i (f g : R → R) l :
  (∀ r, idf (f r) = idf r) → row_update idf i g (row_update idf i f l) = row_update idf i (g ∘ f) l.
Proof.
  intros Hf. unfold row_update. rewrite <- list_fmap_compose. apply list_fmap_ext. intros k r _. simpl.
  destruct (decide (idf r = i)) as [E|E].
  - rewrite (bool_decide_true (idf r = i)) by done. by rewrite bool_decide_true by (by rewrite Hf).
  - rewrite (bool_decide_false (idf r = i)) by done. by rewrite bool_decide_false.
Qed.

Lemma row_update_ext {R} (idf : R → string) i (f g : R → R) l : (∀ r, f r = g r) → row_update idf i f l = row_update idf i g l.
Proof. intros E. unfold row_update. apply list_fmap_ext. intros k r _. case_bool_decide; auto. Qed.

(** The call, evaluated: either it is refused and nothing changes, or all of
    its effects happen before the audit call, whose outcome is the call's. *)
Lemma updateStatus_eval now id operatorId s notes db request :
  row_find rf_id id (refundRequest db) = Some request → s ∈ transitions (rf_status request) → operatorId ∈ r_users db →
  is_Some (row_find pay_id (rf_paymentId request) (payment db)) →
  updateStatus now id operatorId s notes db =
    let (a, res) := audit_log now (refund_log id operatorId s (rf_status request) notes) (r_audit db) in
    (after_review id operatorId s notes request db a,
     match res with Ok _ => Ok (review s operatorId notes request) | Throw e => Throw e end).
Proof.
  intros Hr Hs Ho [p Hp]. unfold updateStatus, validateTransition, request_update, handleApproval, on_audit.
  unfold mbind, M_bind, get, put, mret, M_ret, throw. rewrite Hr. rewrite (bool_decide_true (s ∈ _)), (bool_decide_true (operatorId ∈ _)) by done.
  rewrite Hr. unfold after_review, reviewed.
  pose proof (row_find_Some rf_id id (refundRequest db) request Hr) as [_ Hid].
  destruct (decide (s = APPROVED)) as [E|E].
  - rewrite !(bool_decide_true (s = APPROVED)) by done. unfold request_update, mbind, M_bind, get, put, mret, M_ret. simpl.
    rewrite Hid, row_find_update, Hr by done. cbn [fmap option_fmap option_map set_requests refundRequest payment r_users r_audit r_serial].
    rewrite Hp. simpl. rewrite row_update_compose by done.
    rewrite (row_update_ext _ _ (set_refund_status PROCESSED ∘ review s operatorId notes) (λ r, set_refund_status PROCESSED (review s operatorId notes r))) by done.
    by destruct (audit_log _ _ _) as [a [u|e]].
  - rewrite !(bool_decide_false (s = APPROVED)) by done. simpl. by destruct (audit_log _ _ _) as [a [u|e]].
Qed.

Lemma request_ok_updated db id operatorId s notes request a r :
  r_wf db → row_find rf_id id (refundRequest db) = Some request → s ∈ transitions (rf_status request) →
  r ∈ refundRequest db →
  request_ok (after_review id operatorId s notes request db a) (if bool_decide (rf_id r = id) then reviewed s operatorId notes r else r).
Proof.
  intros [Hi Hn Ho] Hreq Hs Hr. destruct (Ho r Hr) as ((p & x & y & Hp & Hx & Hy & Hle & Hst) & Hna & Hop).
  apply row_find_Some in Hreq as [Hin Hid].
  assert (∀ j q, row_find pay_id j (payment db) = Some q →
    ∃ q', row_find pay_id j (payment (after_review id operatorId s notes request db a)) = Some q' ∧ pay_amount q' = pay_amount q ∧
      (pay_status q = "REFUNDED" ∨ (s = APPROVED ∧ j = rf_paymentId request) → pay_status q' = "REFUNDED")) as Hpay.
  { intros j q Hq. unfold after_review. simpl. destruct (decide (s = APPROVED)) as [E|E].
    - rewrite bool_decide_true, row_find_update, Hq by done. eexists. split; [done|]. by case_bool_decide; split; naive_solver.
    - rewrite bool_decide_false by done. exists q. naive_solver. }
  destruct (Hpay _ _ Hp) as (p' & Hp' & Ea & Est).
  case_bool_decide as E.
  - assert (r = request) as -> by (apply (NoDup_key_inj rf_id (refundRequest db)); congruence).
    unfold reviewed. destruct (decide (s = APPROVED)) as [Es|Es].
    + rewrite bool_decide_true by done. split_and!; [|done|by eexists]. exists p', x, y. simpl. rewrite Ea. split_and!; auto.
    + rewrite bool_decide_false by done. split_and!; [|done|by eexists]. exists p', x, y. simpl. rewrite Ea. split_and!; auto.
      intros ->. exfalso. destruct (rf_status request); simpl in Hs; set_solver.
  - split_and!; [|done|done]. exists p', x, y. rewrite Ea. split_and!; auto.
Qed.

Lemma r_wf_after_review db id operatorId s notes request a :
  r_wf db → row_find rf_id id (refundRequest db) = Some request → s ∈ transitions (rf_status request) →
  r_wf (after_review id operatorId s notes request db a).
Proof.
  intros Hwf Hreq Hs. assert (∀ r, rf_id (reviewed s operatorId notes r) = rf_id r) as Hid.
  { intros r. unfold reviewed. by case_bool_decide. }
  split; simpl.
  - intros r' (r & Hr & ->)%elem_of_row_update. destruct (rw_issued db Hwf r Hr) as (k & ? & ?). exists k.
    case_bool_decide; rewrite ?Hid; done.
  - rewrite row_update_ids by done. apply (rw_nodup db Hwf).
  - intros r' (r & Hr & ->)%elem_of_row_update. by apply request_ok_updated.
Qed.

(** Refused calls change nothing. *)
Lemma updateStatus_refused now id operatorId s notes db :
  (∀ request, row_find rf_id id (refundRequest db) = Some request →
     ¬ (s ∈ transitions (rf_status request) ∧ operatorId ∈ r_users db)) →
  ∃ e, updateStatus now id operatorId s notes db = (db, Throw e).
Proof.
  intros Hno. unfold updateStatus, validateTransition, mbind, M_bind, get, mret, M_ret, throw.
  destruct (row_find _ _ _) as [request|]; [|by eexists]. specialize (Hno request eq_refl).
  case_bool_decide; [|by eexists]. rewrite bool_decide_false by naive_solver. by eexists.
Qed.

Lemma payment_exists db id request :
  r_wf db → row_find rf_id id (refundRequest db) = Some request → is_Some (row_find pay_id (rf_paymentId request) (payment db)).
Proof.
  intros Hwf [Hin _]%row_find_Some. destruct (rw_ok db Hwf _ Hin) as ((p & _ & _ & Hp & _) & _). by eexists.
Qed.

Lemma preserves_updateStatus now id operatorId s notes : preserves r_wf (updateStatus now id operatorId s notes).
Proof.
  intros db Hwf. unfold post.
  destruct (row_find rf_id id (refundRequest db)) as [request|] eqn:Hreq.
  - destruct (decide (s ∈ transitions (rf_status request) ∧ operatorId ∈ r_users db)) as [[Hs Hop]|Hno].
    + rewrite (updateStatus_eval now id operatorId s notes db request) by eauto using payment_exists.
      destruct (audit_log _ _ _) as [a [u|e]]; by apply r_wf_after_review.
    + destruct (updateStatus_refused now id operatorId s notes db) as [e ->]; [naive_solver|done].
  - destruct (updateStatus_refused now id operatorId s notes db) as [e ->]; [naive_solver|done].
Qed.

Inductive r_step (db : RDB A) : RDB A → Prop :=
| r_create p amount reason db' r : createRequest p amount reason db = (db', r) → r_step db db'
| r_update now id op s notes db' r : updateStatus now id op s notes db = (db', r) → r_step db db'.

(** Whatever sequence of calls is made, succeeding or not, every refund
    request belongs to a payment and asks for no more than it; none is left in
    APPROVED; a processed one has refunded its payment; and none has left
    REQUESTED without an operator. *)
Theorem refund_invariant users ps a db : rtc r_step (mkRDB users ps [] a 0) db → r_wf db.
Proof.
  intros Hs. assert (Hwf0 : r_wf (mkRDB users ps [] a 0)) by (split; simpl; [set_solver|constructor|set_solver]).
  revert Hwf0. induction Hs as [|db1 db2 db3 Hstep _ IH]; [done|]. intros Hwf. apply IH.
  destruct Hstep as [p amount reason db' r Hr|now id op s notes db' r Hr].
  - by eapply preserves_run; [apply preserves_createRequest| |].
  - by eapply preserves_run; [apply preserves_updateStatus| |].
Qed.

(** The life of a request, independently of the table of the code: it is
    reviewed, then approved or rejected, and processed once approved. *)
Inductive may_follow : RefundStatus → RefundStatus → Prop :=
| follow_review : may_follow REQUESTED REVIEWING
| follow_reject_request : may_follow REQUESTED REJECTED
| follow_approve : may_follow REVIEWING APPROVED
| follow_reject : may_follow REVIEWING REJECTED
| follow_process : may_follow APPROVED PROCESSED.

Lemma elem_of_transitions s s' : s' ∈ transitions s ↔ may_follow s s'.
Proof. split; [destruct s; simpl; set_solver by constructor|intros []; simpl; set_solver]. Qed.

#[export] Instance may_follow_dec s s' : Decision (may_follow s s').
Proof. refine (cast_if (decide (s' ∈ transitions s))); by rewrite <- elem_of_transitions. Defined.

(** A review follows the life of a request and is on record: with a
    known operator and a status that may follow the request takes the new status
    (approval goes on to PROCESSED and refunds the payment) and, when the call
    returns, exactly one entry with the operator, the status and the request
    has been added to the audit trail; any other review throws and changes
    nothing. *)
Theorem updateStatus_spec now id operatorId s notes db request :
  r_wf db → row_find rf_id id (refundRequest db) = Some request →
  if decide (may_follow (rf_status request) s ∧ operatorId ∈ r_users db) then
    ∃ db' res, updateStatus now id operatorId s notes db = (db', res) ∧
      rf_status <$> row_find rf_id id (refundRequest db') = Some (if decide (s = APPROVED) then PROCESSED else s) ∧
      (s = APPROVED → pay_status <$> row_find pay_id (rf_paymentId request) (payment db') = Some "REFUNDED") ∧
      (∀ r, res = Ok r → audit_trail (r_audit db') =
         audit_trail (r_audit db) ++ [(operatorId, "REFUND_" +:+ RefundStatus_string s, "REFUND_REQUEST", id)])
  else ∃ e, updateStatus now id operatorId s notes db = (db, Throw e).
Proof.
  intros Hwf Hreq. case_decide as Hok; rewrite <- elem_of_transitions in Hok; [|apply updateStatus_refused; intros r Hr; by simplify_eq].
  destruct Hok as [Hs Hop]. destruct (payment_exists db id request Hwf Hreq) as [p Hp].
  rewrite (updateStatus_eval now id operatorId s notes db request) by eauto.
  pose proof (audit_log_spec now (refund_log id operatorId s (rf_status request) notes) (r_audit db)) as Ha. unfold post in Ha.
  destruct (audit_log _ _ _) as [a res]. do 2 eexists. split; [done|].
  assert (∀ r, rf_id (reviewed s operatorId notes r) = rf_id r) as Hid by (intros r; unfold reviewed; by case_bool_decide).
  unfold after_review. simpl. split_and!.
  - rewrite row_find_update, Hreq by done. simpl. rewrite bool_decide_true by done. unfold reviewed.
    case_decide; [by rewrite bool_decide_true|by rewrite bool_decide_false].
  - intros ->. rewrite bool_decide_true, row_find_update, Hp by done. simpl. by rewrite bool_decide_true.
  - intros r Hres. destruct res; [|done]. by rewrite Ha.
Qed.
End refund.

(** ** Concrete requests, with the audit service itself as the trail *)

Section witnesses.
Definition plain_hash : Sha256 := λ s, s.
#[local] Existing Instance plain_hash.

Definition rdb0 : RDB AuditDB := mkRDB {["op"]} [mkPayment "p1" "100" "COMPLETED"] [] (mkAuditDB {["op"]} [] 0) 0.
Definition rdb1 : RDB AuditDB := (createRequest "p1" "60" "late" rdb0).1.
Definition rid : string := uuid 0.
Definition rdb2 : RDB AuditDB := (updateStatus 1 rid "op" REVIEWING None rdb1).1.

Lemma refund_invariant_witness : r_wf rdb2 ∧ rf_status <$> refundRequest rdb2 = [REVIEWING].
Proof.
  split; [|reflexivity]. apply (refund_invariant {["op"]} [mkPayment "p1" "100" "COMPLETED"] (mkAuditDB {["op"]} [] 0)).
  eapply rtc_l; [eapply (r_create rdb0 "p1" "60" "late"); apply surjective_pairing|].
  apply rtc_once. eapply (r_update rdb1 1 rid "op" REVIEWING None). apply surjective_pairing.
Defined.

Lemma r_wf_rdb2 : r_wf rdb2.
Proof.
  eapply (preserves_run r_wf (updateStatus 1 rid "op" REVIEWING None) rdb1); [apply preserves_updateStatus| |apply surjective_pairing].
  eapply (preserves_run r_wf (createRequest "p1" "60" "late") rdb0); [apply preserves_createRequest| |apply surjective_pairing].
  split; simpl; [set_solver|constructor|set_solver].
Qed.

Lemma updateStatus_spec_witness :
  ∃ db' res, updateStatus 2 rid "op" APPROVED None rdb2 = (db', res) ∧
    rf_status <$> row_find rf_id rid (refundRequest db') = Some PROCESSED ∧
    pay_status <$> row_find pay_id "p1" (payment db') = Some "REFUNDED".
Proof.
  pose proof (updateStatus_spec 2 rid "op" APPROVED None rdb2
    (default (mkRefund "" "" "" REQUESTED "" None None 0) (row_find rf_id rid (refundRequest rdb2))) r_wf_rdb2 eq_refl) as Hs.
  rewrite decide_True in Hs by (split; [constructor|apply (bool_decide_unpack (_ ∈ _)); by vm_compute]).
  destruct Hs as (db' & res & Hu & Hst & Hpay & _). exists db', res. split; [exact Hu|]. split; [exact Hst|exact (Hpay eq_refl)].
Defined.

(** Requests are checked against the payment one by one: two requests for the
    whole of one payment are both processed, so twice the payment goes back. *)
Definition review_to_end (i : string) (db : RDB AuditDB) : RDB AuditDB :=
  (updateStatus 2 i "op" APPROVED None (updateStatus 1 i "op" REVIEWING None db).1).1.
Definition refund_twice : RDB AuditDB :=
  review_to_end (uuid 1) (review_to_end (uuid 0)
    (createRequest "p1" "100" "again" (createRequest "p1" "100" "first" rdb0).1).1).

Lemma refunds_exceed_payment :
  (λ r, (rf_paymentId r, rf_amount r, rf_status r)) <$> refundRequest refund_twice =
    [("p1", "100", PROCESSED); ("p1", "100", PROCESSED)].
Proof. vm_compute. reflexivity. Qed.
End witnesses.
