(* ===== verification/Governance.v ===== *)
(** * Proposals and votes: [server/src/services/governance.service.ts]

    Multisig proposals: drafting, voting, approval at three votes, execution.
    Columns the service neither reads nor writes are left out. *)

From stdpp Require Import prelude gmap strings list pretty sorting.
From S2P Require Import Prelude JsText Prisma Json.

Inductive ProposalStatus := DRAFT | VOTING | APPROVED | EXECUTED | CANCELLED | FAILED.
#[export] Instance ProposalStatus_eq_dec : EqDecision ProposalStatus.
Proof. solve_decision. Defined.

Record Proposal := mkProposal {
  pr_id : string;
  pr_targetContract : string;
  pr_functionName : string;
  pr_args : json;
  pr_description : option string;
  pr_status : ProposalStatus;
  pr_proposerId : string;
  pr_executedAt : option Z;
  pr_createdAt : Z;
}.

Record Vote := mkVote {
  v_id : string;
  v_proposalId : string;
  v_voterId : string;
  v_signature : option string;
}.

Record GDB := mkGDB { g_users : gmap string string; proposal : list Proposal; vote : list Vote; g_serial : nat }.

Section governance.
Context `{Prisma}.

Definition set_proposals (l : list Proposal) (db : GDB) : GDB := mkGDB (g_users db) l (vote db) (g_serial db).

Definition createProposal (proposerId targetContract functionName : string) (args : option json) (description : option string)
    : M GDB Proposal :=
  db ← get;
  if bool_decide (is_Some (g_users db !! proposerId)) then
    let row := mkProposal (uuid (g_serial db)) targetContract functionName (default (JObj []) args) description DRAFT
                 proposerId None (db_now (g_serial db)) in
    _ ← put (mkGDB (g_users db) (proposal db ++ [row]) (vote db) (S (g_serial db)));
    mret row
  else throw ForeignKeyViolation.

Definition set_status (s : ProposalStatus) (p : Proposal) : Proposal :=
  mkProposal (pr_id p) (pr_targetContract p) (pr_functionName p) (pr_args p) (pr_description p) s (pr_proposerId p)
    (pr_executedAt p) (pr_createdAt p).

Definition proposal_update (i : string) (f : Proposal → Proposal) : M GDB Proposal :=
  db ← get;
  match row_find pr_id i (proposal db) with
  | None => throw RecordNotFound
  | Some p => _ ← put (set_proposals (row_update pr_id i f (proposal db)) db); mret (f p)
  end.

Definition startVoting (proposalId : string) : M GDB Proposal := proposal_update proposalId (set_status VOTING).

Definition votes_of (i : string) (db : GDB) : list Vote := filter (λ v, v_proposalId v = i) (vote db).

(** A vote row needs its proposal and its voter. *)
Definition vote_create (proposalId voterId : string) (signature : option string) : M GDB unit :=
  db ← get;
  if bool_decide (is_Some (row_find pr_id proposalId (proposal db)) ∧ is_Some (g_users db !! voterId)) then
    put (mkGDB (g_users db) (proposal db) (vote db ++ [mkVote (uuid (g_serial db)) proposalId voterId signature]) (S (g_serial db)))
  else throw ForeignKeyViolation.

Definition voteOnProposal (proposalId voterId : string) (signature : option string) : M GDB Proposal :=
  transaction (
    db ← get;
    if bool_decide (voterId ∈ v_voterId <$> votes_of proposalId db)
    then throw (JsError "User has already voted on this proposal") else
    _ ← vote_create proposalId voterId signature;
    db ← get;
    let voteCount := length (votes_of proposalId db) in
    match row_find pr_id proposalId (proposal db) with
    | None => throw (JsError "Proposal not found")
    | Some p =>
        if bool_decide (3 ≤ voteCount)%nat && bool_decide (pr_status p = VOTING)
        then proposal_update proposalId (set_status APPROVED)
        else mret p
    end).

Definition execute (now : Z) (p : Proposal) : Proposal :=
  mkProposal (pr_id p) (pr_targetContract p) (pr_functionName p) (pr_args p) (pr_description p) EXECUTED (pr_proposerId p)
    (Some now) (pr_createdAt p).

Definition executeProposal (now : Z) (proposalId : string) : M GDB Proposal :=
  db ← get;
  match row_find pr_id proposalId (proposal db) with
  | Some p =>
      if bool_decide (pr_status p ≠ APPROVED) then throw (JsError "Proposal must be APPROVED to be executed")
      else proposal_update proposalId (execute now)
  | None => throw (JsError "Proposal must be APPROVED to be executed")
  end.

(** The proposal with its votes, each with the voter's name, and the
    proposer's name. *)
Definition getProposal (proposalId : string) : M GDB (option (Proposal * list (Vote * option string) * option string)) :=
  gets (λ db, (λ p, (p, (λ v, (v, g_users db !! v_voterId v)) <$> any_order (votes_of proposalId db), g_users db !! pr_proposerId p))
              <$> row_find pr_id proposalId (proposal db)).

Definition listProposals : M GDB (list (Proposal * nat)) :=
  gets (λ db, (λ p, (p, length (votes_of (pr_id p) db)))
              <$> order_by (λ a b, bool_decide (pr_createdAt b ≤ pr_createdAt a)) (proposal db)).

(** ** Invariant *)

Record g_wf (db : GDB) : Prop := {
  gw_issued : Forall (λ p, ∃ k, (k < g_serial db)%nat ∧ pr_id p = uuid k) (proposal db);
  gw_ids : NoDup (pr_id <$> proposal db);
  gw_fk : Forall (λ v, v_proposalId v ∈ pr_id <$> proposal db ∧ is_Some (g_users db !! v_voterId v)) (vote db);
  gw_unique : NoDup ((λ v, (v_proposalId v, v_voterId v)) <$> vote db);
  gw_backed : Forall (λ p, pr_status p = APPROVED ∨ pr_status p = EXECUTED → (3 ≤ length (votes_of (pr_id p) db))%nat) (proposal db);
  gw_executed : Forall (λ p, pr_status p = EXECUTED → is_Some (pr_executedAt p)) (proposal db);
}.

Lemma preserves_createProposal u tc fn args d : preserves g_wf (createProposal u tc fn args d).
Proof.
  unfold createProposal. apply preserves_get_bind. intros db Hwf. case_bool_decide; [|by m_step]. cbv zeta.
  m_step. m_step. m_step. destruct Hwf as [W1 W2 W3 W4 W5 W6]. split; simpl; auto.
  - apply Forall_app. split; [|constructor; [|constructor]; exists (g_serial db); split; [lia|done]].
    eapply Forall_impl; [exact W1|]. intros p (k & ? & ?). exists k. split; [lia|done].
  - rewrite fmap_app. apply NoDup_app. split_and!; [done| |apply NoDup_singleton].
    intros x (p & -> & Hp)%list_elem_of_fmap E%list_elem_of_singleton. rewrite Forall_forall in W1.
    destruct (W1 p Hp) as (k & ? & Ek). simpl in E. rewrite Ek in E. apply (inj uuid) in E. lia.
  - eapply Forall_impl; [exact W3|]. intros v [Hv Hu]. split; [|done]. rewrite fmap_app. set_solver.
  - apply Forall_app. split; [done|]. constructor; [|constructor]. simpl. naive_solver.
  - apply Forall_app. split; [done|]. constructor; [|constructor]. simpl. naive_solver.
Qed.

Lemma post_proposal_update i f db :
  (∀ p, pr_id (f p) = pr_id p) → g_wf db →
  (∀ p, pr_status (f p) = APPROVED ∨ pr_status (f p) = EXECUTED → (3 ≤ length (votes_of i db))%nat) →
  (∀ p, pr_status (f p) = EXECUTED → is_Some (pr_executedAt (f p))) →
  post (proposal_update i f) db (λ db' _, g_wf db') (λ db' _, g_wf db').
Proof.
  intros Hid [W1 W2 W3 W4 W5 W6] Hb He. unfold proposal_update. m_step. m_step.
  destruct (row_find _ _ _) as [row|]; [|by m_step; split]. m_step. m_step. m_step. split; simpl; rewrite ?row_update_ids by done; auto.
  - apply Forall_row_update; [|done]. intros p _. by rewrite Hid.
  - apply Forall_row_update; [|done]. intros p Ep _ Hs. rewrite Hid, Ep. exact (Hb p Hs).
  - apply Forall_row_update; auto.
Qed.

Lemma votes_of_snoc i db v n :
  votes_of i (mkGDB (g_users db) (proposal db) (vote db ++ [v]) n) =
    votes_of i db ++ (if decide (v_proposalId v = i) then [v] else []).
Proof. unfold votes_of. simpl. by rewrite filter_app, filter_cons, filter_nil. Qed.

Lemma post_vote_create i u sig db :
  g_wf db → u ∉ v_voterId <$> votes_of i db →
  post (vote_create i u sig) db
    (λ db' _, g_wf db' ∧ proposal db' = proposal db ∧ g_users db' = g_users db ∧
       ∃ v, vote db' = vote db ++ [v] ∧ v_proposalId v = i ∧ v_voterId v = u ∧ v_signature v = sig)
    (λ db' _, g_wf db').
Proof.
  intros Hwf Hu. unfold vote_create. m_step. m_step. case_bool_decide as Hfk; [|by m_step]. destruct Hfk as [[p Hp] Hun].
  apply row_find_Some in Hp as [Hp Hpi]. m_step. split_and!; [|done|done|by eexists].
  destruct Hwf as [W1 W2 W3 W4 W5 W6]. split; simpl; auto.
  - eapply Forall_impl; [exact W1|]. intros q (k & ? & ?). exists k. split; [lia|done].
  - apply Forall_app. split; [done|]. constructor; [|constructor]. simpl. split; [|done]. subst i. by apply list_elem_of_fmap_2.
  - rewrite fmap_app. apply NoDup_app. split_and!; [done| |apply NoDup_singleton].
    intros x Hx ->%list_elem_of_singleton. apply Hu. simpl in Hx. apply list_elem_of_fmap in Hx as (v & E & Hv).
    injection E as E1 E2. apply list_elem_of_fmap. exists v. split; [done|]. by apply list_elem_of_filter.
  - eapply Forall_impl; [exact W5|]. intros q Hq Hs. rewrite votes_of_snoc, length_app. specialize (Hq Hs). lia.
Qed.

Lemma preserves_vote i u sig : preserves g_wf (voteOnProposal i u sig).
Proof.
  intros db Hwf. unfold voteOnProposal. m_step. m_step. m_step. case_bool_decide as Hu; [by m_step|].
  m_step. eapply post_mono; [by apply post_vote_create| |by auto].
  intros db' _ (Hwf' & _). m_step. m_step. destruct (row_find _ _ _) as [p|]; [|by m_step].
  destruct (bool_decide (3 ≤ _)%nat && _) eqn:Hb; [|by m_step].
  apply andb_true_iff in Hb as [Hc%bool_decide_eq_true _].
  eapply post_mono; [apply post_proposal_update; [done|exact Hwf'|by intros|done]|done|by auto].
Qed.

Lemma preserves_startVoting i : preserves g_wf (startVoting i).
Proof.
  intros db Hwf. apply post_proposal_update; [done|done|simpl; naive_solver|done].
Qed.

Lemma preserves_execute now i : preserves g_wf (executeProposal now i).
Proof.
  unfold executeProposal. apply preserves_get_bind. intros db Hwf.
  destruct (row_find pr_id i (proposal db)) as [p|] eqn:Hp; [|by m_step]. case_bool_decide as Hs; [by m_step|].
  apply post_proposal_update; [done|done| |by eexists]. intros _ _.
  apply row_find_Some in Hp as [Hin <-]. pose proof (gw_backed db Hwf) as W. rewrite Forall_forall in W. auto.
Qed.

Inductive g_step (db : GDB) : GDB → Prop :=
| g_create u tc fn args d db' r : createProposal u tc fn args d db = (db', r) → g_step db db'
| g_start i db' r : startVoting i db = (db', r) → g_step db db'
| g_vote i u sig db' r : voteOnProposal i u sig db = (db', r) → g_step db db'
| g_execute now i db' r : executeProposal now i db = (db', r) → g_step db db'.

(** After any sequence of calls nobody has voted twice on a proposal,
    every vote is by a known user on a known proposal, and a proposal that is
    approved or executed has the votes of at least three different users. *)
Theorem governance_invariant users db :
  rtc g_step (mkGDB users [] [] 0) db →
  g_wf db ∧
  ∀ p, p ∈ proposal db → pr_status p = APPROVED ∨ pr_status p = EXECUTED →
    ∃ voters, NoDup voters ∧ length voters = 3%nat ∧ ∀ u, u ∈ voters → ∃ v, v ∈ vote db ∧ v_proposalId v = pr_id p ∧ v_voterId v = u.
Proof.
  intros Hs. assert (g_wf db) as Hwf.
  { assert (Hwf0 : g_wf (mkGDB users [] [] 0)) by (split; simpl; constructor).
    revert Hwf0. induction Hs as [|db1 db2 db3 Hstep _ IH]; [done|]. intros Hwf. apply IH.
    destruct Hstep; (eapply preserves_run; [|exact Hwf|eassumption]);
      auto using preserves_createProposal, preserves_startVoting, preserves_vote, preserves_execute. }
  split; [done|]. intros p Hp Hst. pose proof (gw_backed db Hwf) as W. rewrite Forall_forall in W. specialize (W p Hp Hst).
  exists (take 3 (v_voterId <$> votes_of (pr_id p) db)). split_and!.
  - eapply sublist_NoDup; [|apply sublist_take]. apply (NoDup_fmap_1 (pair (pr_id p))).
    rewrite <- list_fmap_compose. eapply sublist_NoDup; [apply (gw_unique db Hwf)|].
    unfold votes_of. generalize (vote db). intros l. induction l as [|v l IH]; [done|]. rewrite filter_cons.
    case_decide as E; simpl; [rewrite E|]; by constructor.
  - rewrite length_take, length_fmap. lia.
  - intros u Hu. assert (u ∈ v_voterId <$> votes_of (pr_id p) db) as Hu'.
    { rewrite <- (take_drop 3 (v_voterId <$> _)). apply elem_of_app. by left. }
    apply list_elem_of_fmap in Hu' as (v & -> & Hv). apply list_elem_of_filter in Hv as [? ?]. by exists v.
Qed.

(** Voting, on every branch: a second vote and a vote without a proposal
    or a known user throw and leave no trace; otherwise the vote is recorded
    and the proposal becomes approved exactly when it is open for voting and
    this makes at least three votes. *)
Theorem vote_spec i u sig db :
  g_wf db →
  match row_find pr_id i (proposal db) with
  | None => ∃ e, voteOnProposal i u sig db = (db, Throw e)
  | Some p =>
      if decide (is_Some (g_users db !! u) ∧ u ∉ v_voterId <$> votes_of i db) then
        ∃ db' p', voteOnProposal i u sig db = (db', Ok p') ∧
          length (votes_of i db') = S (length (votes_of i db)) ∧ u ∈ v_voterId <$> votes_of i db' ∧
          row_find pr_id i (proposal db') = Some p' ∧
          p' = if decide (pr_status p = VOTING ∧ (2 ≤ length (votes_of i db))%nat) then set_status APPROVED p else p
      else ∃ e, voteOnProposal i u sig db = (db, Throw e)
  end.
Proof.
  intros Hwf. unfold voteOnProposal, vote_create, proposal_update, transaction, mbind, M_bind, get, put, mret, M_ret, throw.
  destruct (row_find pr_id i (proposal db)) as [p|] eqn:Hp.
  2: { destruct (bool_decide (u ∈ _)); [by eexists|]. rewrite bool_decide_false by (intros [[? ?] _]; congruence). by eexists. }
  case_decide as Hok.
  2: { case_bool_decide as Hu; [by eexists|]. rewrite bool_decide_false by naive_solver. by eexists. }
  destruct Hok as [Hu Hnew]. rewrite bool_decide_false by done. rewrite bool_decide_true by (split; [by eexists|done]).
  cbn [proposal g_users]. rewrite Hp, votes_of_snoc. simpl v_proposalId. rewrite decide_True by done.
  rewrite length_app. cbn [length].
  destruct (decide (pr_status p = VOTING ∧ (2 ≤ length (votes_of i db))%nat)) as [[Hv Hn]|Hno].
  - rewrite (bool_decide_true (3 ≤ _)%nat), (bool_decide_true (pr_status p = VOTING)) by (done || lia). cbn [andb].
    cbn [proposal]. rewrite Hp. do 2 eexists. split; [done|]. split_and!; [| | |done].
    + unfold set_proposals, votes_of. cbn [vote]. rewrite filter_app, length_app, filter_cons, decide_True by done. simpl. lia.
    + unfold set_proposals, votes_of. cbn [vote]. rewrite filter_app, fmap_app, filter_cons, decide_True by done. simpl. set_solver.
    + simpl. rewrite row_find_update, Hp by done. simpl. by rewrite bool_decide_true.
  - assert (bool_decide (3 ≤ length (votes_of i db) + 1)%nat && bool_decide (pr_status p = VOTING) = false) as ->.
    { apply andb_false_iff. repeat case_bool_decide; try tauto. exfalso. apply Hno. split; [done|lia]. }
    do 2 eexists. split; [done|]. split_and!; [| |done|done].
    + unfold votes_of. cbn [vote]. rewrite filter_app, length_app, filter_cons, decide_True by done. simpl. lia.
    + unfold votes_of. cbn [vote]. rewrite filter_app, fmap_app, filter_cons, decide_True by done. simpl. set_solver.
Qed.

(** An executed proposal can be executed again: voting can be started on
    it like on a draft, one more vote approves it, and it is executed a second
    time. *)
Theorem executed_runs_again now i u db p :
  g_wf db → row_find pr_id i (proposal db) = Some p → pr_status p = EXECUTED →
  is_Some (g_users db !! u) → u ∉ v_voterId <$> votes_of i db →
  ∃ db1 db2 db3 p1 p2 p3, startVoting i db = (db1, Ok p1) ∧ voteOnProposal i u None db1 = (db2, Ok p2) ∧
    executeProposal now i db2 = (db3, Ok p3) ∧ pr_status p3 = EXECUTED ∧ pr_executedAt p3 = Some now.
Proof.
  intros Hwf Hp Hs Hu Hnew.
  assert (3 ≤ length (votes_of i db))%nat as Hn.
  { apply row_find_Some in Hp as [Hin <-]. pose proof (gw_backed db Hwf) as W. rewrite Forall_forall in W. auto. }
  set (db1 := set_proposals (row_update pr_id i (set_status VOTING) (proposal db)) db).
  set (db2 := set_proposals (row_update pr_id i (set_status APPROVED) (proposal db1))
                (mkGDB (g_users db) (proposal db1) (vote db ++ [mkVote (uuid (g_serial db)) i u None]) (S (g_serial db)))).
  assert (row_find pr_id i (proposal db1) = Some (set_status VOTING p)) as Hp1.
  { simpl. rewrite row_find_update, Hp by done. simpl. by rewrite bool_decide_true. }
  assert (row_find pr_id i (proposal db2) = Some (set_status APPROVED p)) as Hp2.
  { unfold db2. simpl proposal. change (row_update pr_id i (set_status VOTING) (proposal db)) with (proposal db1).
    rewrite row_find_update, Hp1 by done. simpl. by rewrite bool_decide_true. }
  exists db1, db2. eexists _, (set_status VOTING p), (set_status APPROVED p), (execute now p). split_and!.
  - unfold startVoting, proposal_update, mbind, M_bind, get, put, mret, M_ret. by rewrite Hp.
  - unfold voteOnProposal, vote_create, proposal_update, transaction, mbind, M_bind, get, put, mret, M_ret, throw.
    change (votes_of i db1) with (votes_of i db). change (g_users db1) with (g_users db).
    rewrite bool_decide_false by done. rewrite bool_decide_true by (rewrite Hp1; split; [by eexists|done]).
    rewrite votes_of_snoc. change (votes_of i db1) with (votes_of i db). cbn [proposal g_users vote]. rewrite Hp1.
    rewrite length_app, bool_decide_true by lia. cbn [andb pr_status set_status].
    rewrite bool_decide_true by done. cbn [proposal]. rewrite Hp1. done.
  - unfold executeProposal, proposal_update, mbind, M_bind, get, put, mret, M_ret, throw. rewrite Hp2.
    rewrite bool_decide_false by (simpl; auto). rewrite Hp2. reflexivity.
  - done.
  - done.
Qed.
End governance.

(** ** A concrete vote *)

Section witnesses.
Definition gdb0 : GDB := mkGDB {["a" := "A"; "b" := "B"; "c" := "C"; "d" := "D"]} [] [] 0.
Definition gid : string := uuid 0.
Definition gdb1 : GDB := (startVoting gid (createProposal "a" "token" "mint" None None gdb0).1).1.
Definition gdb2 : GDB := (voteOnProposal gid "b" None (voteOnProposal gid "a" None gdb1).1).1.
Definition gdb3 : GDB := (executeProposal 5 gid (voteOnProposal gid "c" None gdb2).1).1.

Lemma gdb2_steps : rtc g_step gdb0 gdb2.
Proof.
  eapply rtc_l; [eapply g_create, surjective_pairing|]. eapply rtc_l; [eapply g_start, surjective_pairing|].
  eapply rtc_l; [eapply g_vote, surjective_pairing|]. apply rtc_once. eapply g_vote, surjective_pairing.
Qed.

Lemma gdb3_steps : rtc g_step gdb0 gdb3.
Proof.
  etrans; [exact gdb2_steps|]. eapply rtc_l; [eapply g_vote, surjective_pairing|].
  apply rtc_once. eapply g_execute, surjective_pairing.
Qed.

Lemma governance_invariant_witness : g_wf gdb3 ∧ pr_status <$> proposal gdb3 = [EXECUTED].
Proof. split; [|vm_compute; reflexivity]. apply (governance_invariant (g_users gdb0) gdb3). exact gdb3_steps. Defined.

Lemma g_wf_steps db : rtc g_step gdb0 db → g_wf db.
Proof.
  assert (Hwf0 : g_wf gdb0) by (split; simpl; constructor).
  intros Hs. revert Hwf0. induction Hs as [|db1 db2 db3 Hstep _ IH]; [done|]. intros Hwf. apply IH.
  destruct Hstep; (eapply preserves_run; [|exact Hwf|eassumption]);
    auto using preserves_createProposal, preserves_startVoting, preserves_vote, preserves_execute.
Qed.

Lemma vote_spec_witness : ∃ e, voteOnProposal gid "b" None gdb2 = (gdb2, Throw e).
Proof.
  pose proof (vote_spec gid "b" None gdb2 (g_wf_steps _ gdb2_steps)) as Hs.
  destruct (row_find pr_id gid (proposal gdb2)) as [p|]; [|exact Hs].
  rewrite decide_False in Hs; [exact Hs|]. intros [_ Hn]. apply Hn. apply (bool_decide_unpack (_ ∈ _)). by vm_compute.
Defined.

Lemma executed_runs_again_witness :
  ∃ db1 db2 db3 p1 p2 p3, startVoting gid gdb3 = (db1, Ok p1) ∧ voteOnProposal gid "d" None db1 = (db2, Ok p2) ∧
    executeProposal 9 gid db2 = (db3, Ok p3) ∧ pr_status p3 = EXECUTED ∧ pr_executedAt p3 = Some 9.
Proof.
  eapply (executed_runs_again 9 gid "d" gdb3 _ (g_wf_steps _ gdb3_steps)).
  - vm_compute. reflexivity.
  - reflexivity.
  - by eexists.
  - apply (bool_decide_unpack (_ ∉ _)). by vm_compute.
Defined.
End witnesses.
