(* ===== verification/MatchService.v ===== *)
(** * Matches and disputes: [server/src/services/match.service.ts]

    The creation queue with its bound, its concurrency limit and its back-off
    under load, as steps between the points where the code waits; and the
    match and dispute tables.  A CPU reading is a parameter of the step that
    takes it.  The audit trail is known through [AuditSink]. *)

From Stdlib Require Import QArith.
From stdpp Require Import prelude gmap strings list pretty sorting.
From S2P Require Import Prelude JsText Crypto Prisma Json AuditTrail.

Open Scope Z_scope.

(** ** Tables *)

Inductive MatchStatus := CREATED | STARTED | COMPLETED | DISPUTED | FINALIZED.
#[export] Instance MatchStatus_eq_dec : EqDecision MatchStatus.
Proof. solve_decision. Defined.

Record Match := mkMatch {
  mt_id : string;
  mt_onChainId : string;
  mt_playerAId : string;
  mt_playerBId : string;
  mt_winnerId : option string;
  mt_status : MatchStatus;
  mt_endedAt : option Z;
}.

Record Dispute := mkDispute {
  d_id : string;
  d_matchId : string;
  d_reporterId : string;
  d_reason : string;
  d_evidenceUrls : list string;
  d_status : string;
  d_resolution : option string;
  d_resolvedById : option string;
  d_resolvedAt : option Z;
  d_createdAt : Z;
}.

Record MDB (A : Type) := mkMDB {
  md_users : gset string;
  match_ : list Match;
  dispute : list Dispute;
  md_serial : nat;
  md_audit : A;
}.
Arguments mkMDB {A}.
Arguments md_users {A}.
Arguments match_ {A}.
Arguments dispute {A}.
Arguments md_serial {A}.
Arguments md_audit {A}.

Section tables.
Context `{Prisma} {A : Type} `{AuditSink A}.

Definition on_audit {X} (m : M A X) : M (MDB A) X := λ db,
  let (a, r) := m (md_audit db) in (mkMDB (md_users db) (match_ db) (dispute db) (md_serial db) a, r).

(** [prisma.$transaction]: a throw takes back the writes made through the
    transaction; the audit service writes through its own connection. *)
Definition db_transaction {X} (m : M (MDB A) X) : M (MDB A) X := λ db,
  match m db with
  | (db', Ok x) => (db', Ok x)
  | (db', Throw e) => (mkMDB (md_users db) (match_ db) (dispute db) (md_serial db) (md_audit db'), Throw e)
  end.

Definition executeCreateMatch (playerAId playerBId onChainId : string) : M (MDB A) Match :=
  db ← get;
  if bool_decide (onChainId ∈ mt_onChainId <$> match_ db) then throw UniqueViolation else
  let row := mkMatch (uuid (md_serial db)) onChainId playerAId playerBId None CREATED None in
  _ ← put (mkMDB (md_users db) (match_ db ++ [row]) (dispute db) (S (md_serial db)) (md_audit db));
  mret row.

Definition match_update (i : string) (f : Match → Match) : M (MDB A) Match :=
  db ← get;
  match row_find mt_id i (match_ db) with
  | None => throw RecordNotFound
  | Some m => _ ← put (mkMDB (md_users db) (row_update mt_id i f (match_ db)) (dispute db) (md_serial db) (md_audit db)); mret (f m)
  end.

Definition score (now : Z) (winnerId : string) (m : Match) : Match :=
  mkMatch (mt_id m) (mt_onChainId m) (mt_playerAId m) (mt_playerBId m) (Some winnerId) COMPLETED (Some now).
Definition set_match_status (s : MatchStatus) (m : Match) : Match :=
  mkMatch (mt_id m) (mt_onChainId m) (mt_playerAId m) (mt_playerBId m) (mt_winnerId m) s (mt_endedAt m).
Definition finalize (winnerId : option string) (m : Match) : Match :=
  mkMatch (mt_id m) (mt_onChainId m) (mt_playerAId m) (mt_playerBId m) winnerId FINALIZED (mt_endedAt m).

Definition reportScore (now : Z) (matchId winnerId : string) : M (MDB A) Match := match_update matchId (score now winnerId).

Definition raiseDispute (matchId reporterId reason : string) (evidenceUrls : list string) : M (MDB A) Dispute :=
  db_transaction (
    _ ← match_update matchId (set_match_status DISPUTED);
    db ← get;
    if bool_decide (reporterId ∈ md_users db) then
      let row := mkDispute (uuid (md_serial db)) matchId reporterId reason evidenceUrls "OPEN" None None None (db_now (md_serial db)) in
      _ ← put (mkMDB (md_users db) (match_ db) (dispute db ++ [row]) (S (md_serial db)) (md_audit db));
      mret row
    else throw ForeignKeyViolation).

Definition dispute_update (i : string) (f : Dispute → Dispute) : M (MDB A) Dispute :=
  db ← get;
  match row_find d_id i (dispute db) with
  | None => throw RecordNotFound
  | Some d => _ ← put (mkMDB (md_users db) (match_ db) (row_update d_id i f (dispute db)) (md_serial db) (md_audit db)); mret (f d)
  end.

Inductive Verdict := RESOLVED | DISMISSED.
#[export] Instance Verdict_eq_dec : EqDecision Verdict.
Proof. solve_decision. Defined.
Definition Verdict_string (v : Verdict) : string := match v with RESOLVED => "RESOLVED" | DISMISSED => "DISMISSED" end.

(** A resolution that is undefined leaves the column as it is. *)
Definition resolve (now : Z) (admin : string) (v : Verdict) (resolution : option string) (d : Dispute) : Dispute :=
  mkDispute (d_id d) (d_matchId d) (d_reporterId d) (d_reason d) (d_evidenceUrls d) (Verdict_string v)
    (match resolution with Some r => Some r | None => d_resolution d end) (Some admin) (Some now) (d_createdAt d).

Definition verdict_log (d : Dispute) (admin : string) (v : Verdict) (resolution override : option string) : LogAction :=
  mkLogAction admin (match v with RESOLVED => "DISPUTE_RESOLVED" | DISMISSED => "DISPUTE_DISMISSED" end) "MATCH" (d_matchId d)
    (Some (JObj [("disputeId", JStr (d_id d));
                 ("resolution", match resolution with Some r => JStr r | None => JUndefined end);
                 ("winnerOverrideId", match override with Some r => JStr r | None => JUndefined end)]))
    None None None None None None.

Definition resolveDispute (now now' : Z) (disputeId adminId : string) (v : Verdict) (resolution winnerOverrideId : option string)
    : M (MDB A) Dispute :=
  db_transaction (
    db ← get;
    match row_find d_id disputeId (dispute db) with
    | None => throw (JsError "Dispute not found")
    | Some d =>
        let m := row_find mt_id (d_matchId d) (match_ db) in
        if bool_decide (adminId ∈ md_users db) then
          updatedDispute ← dispute_update disputeId (resolve now adminId v resolution);
          _ ← (if bool_decide (v = RESOLVED)
               then match_update (d_matchId d) (finalize (match truthy_str winnerOverrideId with Some w => Some w | None => m ≫= mt_winnerId end))
               else match_update (d_matchId d) (set_match_status FINALIZED));
          _ ← on_audit (audit_log now' (verdict_log d adminId v resolution winnerOverrideId));
          mret updatedDispute
        else throw ForeignKeyViolation
    end).

Definition listOpenDisputes : M (MDB A) (list (Dispute * option Match)) :=
  gets (λ db, (λ d, (d, row_find mt_id (d_matchId d) (match_ db)))
              <$> order_by (λ a b, bool_decide (d_createdAt a ≤ d_createdAt b)) (filter (λ d, d_status d = "OPEN") (dispute db))).

Lemma match_update_eval i f db :
  match_update i f db =
    match row_find mt_id i (match_ db) with
    | None => (db, Throw RecordNotFound)
    | Some m => (mkMDB (md_users db) (row_update mt_id i f (match_ db)) (dispute db) (md_serial db) (md_audit db), Ok (f m))
    end.
Proof. unfold match_update, mbind, M_bind, get, put, mret, M_ret. by destruct (row_find _ _ _). Qed.

Lemma dispute_update_eval i f db :
  dispute_update i f db =
    match row_find d_id i (dispute db) with
    | None => (db, Throw RecordNotFound)
    | Some d => (mkMDB (md_users db) (match_ db) (row_update d_id i f (dispute db)) (md_serial db) (md_audit db), Ok (f d))
    end.
Proof. unfold dispute_update, mbind, M_bind, get, put, mret, M_ret. by destruct (row_find _ _ _). Qed.

(** Resolving a dispute, on every branch: an unknown dispute, a dispute
    whose match is gone and an unknown admin throw without touching the
    tables; otherwise, when the call returns, the dispute carries the verdict
    and the admin, its match is final with the override as winner if one was
    given in a resolution and the winner it had if not, and the trail has one
    entry for it. *)
Theorem resolveDispute_spec now now' i admin v resolution override db :
  match resolveDispute now now' i admin v resolution override db with
  | (db', Throw _) => match_ db' = match_ db ∧ dispute db' = dispute db
  | (db', Ok d') =>
      ∃ d m, row_find d_id i (dispute db) = Some d ∧ row_find mt_id (d_matchId d) (match_ db) = Some m ∧
        d' = resolve now admin v resolution d ∧ row_find d_id i (dispute db') = Some d' ∧
        (∃ m', row_find mt_id (d_matchId d) (match_ db') = Some m' ∧ mt_status m' = FINALIZED ∧
           mt_winnerId m' = match v, truthy_str override with RESOLVED, Some w => Some w | _, _ => mt_winnerId m end) ∧
        audit_trail (md_audit db') = audit_trail (md_audit db) ++ [la_item (verdict_log d admin v resolution override)]
  end.
Proof.
  unfold resolveDispute, db_transaction, mbind, M_bind, get, throw.
  destruct (row_find d_id i (dispute db)) as [d|] eqn:Hd; [|done]. case_bool_decide; [|done].
  rewrite dispute_update_eval, Hd. set (f := if bool_decide (v = RESOLVED) then _ else _).
  assert (∃ g, f = match_update (d_matchId d) g ∧ (∀ m, mt_id (g m) = mt_id m) ∧ (∀ m, mt_status (g m) = FINALIZED) ∧
    ∀ m, row_find mt_id (d_matchId d) (match_ db) = Some m → mt_winnerId (g m) =
      match v, truthy_str override with RESOLVED, Some w => Some w | _, _ => mt_winnerId m end) as (g & -> & Hid & Hfin & Hwin).
  { unfold f. destruct v.
    - rewrite bool_decide_true by done. eexists. split; [done|]. split_and!; [done|done|]. intros m Hm. simpl. rewrite Hm.
      by destruct (truthy_str override).
    - rewrite bool_decide_false by done. eexists. split; [done|]. by split_and!. }
  rewrite match_update_eval. cbn [match_ md_users md_audit md_serial dispute].
  destruct (row_find mt_id (d_matchId d) (match_ db)) as [m|] eqn:Hm; [|done]. unfold on_audit. cbn [md_audit].
  pose proof (audit_log_spec now' (verdict_log d admin v resolution override) (md_audit db)) as Ha. unfold post in Ha.
  destruct (audit_log _ _ _) as [a [u|e]]; cbn [match_ md_users md_audit md_serial dispute mret M_ret]; [|done].
  exists d, m. split_and!; try done.
  - rewrite row_find_update, Hd by done. simpl. by rewrite bool_decide_true.
  - exists (g m). rewrite row_find_update, Hm by done. simpl. rewrite bool_decide_true by done. split_and!; auto.
Qed.

(** A result can be reported for a match that is final: nothing looks at the
    status, and the match is completed again with the new winner. *)
Lemma final_match_reopened now i w db m :
  row_find mt_id i (match_ db) = Some m → mt_status m = FINALIZED →
  ∃ db' m', reportScore now i w db = (db', Ok m') ∧ mt_status m' = COMPLETED ∧ mt_winnerId m' = Some w.
Proof.
  intros Hm _. unfold reportScore, match_update, mbind, M_bind, get, put, mret, M_ret. rewrite Hm. by do 2 eexists.
Qed.
End tables.

(** ** The creation queue *)

Record MatchRequest := mkRequest { rq_playerAId : string; rq_playerBId : string; rq_onChainId : string }.

Definition CONCURRENCY_LIMIT : nat := 5.
Definition QUEUE_LIMIT : nat := 100.

(** The static fields, with the requests whose database call is under way and
    the log of what became of the others; [isProcessingQueue] stays set only
    while the loop waits for its timer. *)
Record Queue := mkQueue {
  creationQueue : list MatchRequest;
  isProcessingQueue : bool;
  activeProcesses : nat;
  running : list MatchRequest;
  started : list MatchRequest;
  settled : list MatchRequest;
  rejected : list MatchRequest;
}.

Definition exceeds (load limit : Q) : bool := negb (Qle_bool load limit).

(** The [while] loop: [cpu k] is the reading of its [k]-th round.  It ends when
    the queue is empty or five calls run, and waits when the load is high. *)
Fixpoint queue_loop (cpu : nat → Q) (queue : list MatchRequest) (active : nat) (run start : list MatchRequest)
    : list MatchRequest * bool * nat * list MatchRequest * list MatchRequest :=
  match queue with
  | [] => ([], false, active, run, start)
  | request :: rest =>
      if bool_decide (active < CONCURRENCY_LIMIT)%nat then
        if exceeds (cpu 0%nat) 95 then (queue, true, active, run, start)
        else queue_loop (λ k, cpu (S k)) rest (S active) (run ++ [request]) (start ++ [request])
      else (queue, false, active, run, start)
  end.

Definition run_loop (cpu : nat → Q) (s : Queue) : Queue :=
  let '(q, p, a, r, st) := queue_loop cpu (creationQueue s) (activeProcesses s) (running s) (started s) in
  mkQueue q p a r st (settled s) (rejected s).

Definition processQueue (cpu : nat → Q) (s : Queue) : Queue := if isProcessingQueue s then s else run_loop cpu s.

(** [createMatch] up to its first wait. *)
Definition createMatch (cpuLoad : Q) (cpu : nat → Q) (request : MatchRequest) (s : Queue) : Queue :=
  if exceeds cpuLoad 90 || bool_decide (0 < length (creationQueue s))%nat || bool_decide (CONCURRENCY_LIMIT ≤ activeProcesses s)%nat then
    if bool_decide (QUEUE_LIMIT ≤ length (creationQueue s))%nat
    then mkQueue (creationQueue s) (isProcessingQueue s) (activeProcesses s) (running s) (started s) (settled s) (rejected s ++ [request])
    else processQueue cpu (mkQueue (creationQueue s ++ [request]) (isProcessingQueue s) (activeProcesses s) (running s)
                             (started s) (settled s) (rejected s))
  else mkQueue (creationQueue s) (isProcessingQueue s) (S (activeProcesses s)) (running s ++ [request])
         (started s ++ [request]) (settled s) (rejected s).

(** The database call of the [i]-th running request ends, either way. *)
Definition finish (cpu : nat → Q) (i : nat) (s : Queue) : Queue :=
  match running s !! i with
  | None => s
  | Some request =>
      processQueue cpu (mkQueue (creationQueue s) (isProcessingQueue s) (pred (activeProcesses s)) (delete i (running s))
                          (started s) (settled s ++ [request]) (rejected s))
  end.

(** The timer of a waiting loop fires. *)
Definition resume (cpu : nat → Q) (s : Queue) : Queue := if isProcessingQueue s then run_loop cpu s else s.

Definition queue0 : Queue := mkQueue [] false 0 [] [] [] [].

Inductive q_event :=
| EvCreate (cpuLoad : Q) (cpu : nat → Q) (request : MatchRequest)
| EvFinish (cpu : nat → Q) (i : nat)
| EvTimer (cpu : nat → Q).

Definition q_run (s : Queue) (e : q_event) : Queue :=
  match e with
  | EvCreate load cpu r => createMatch load cpu r s
  | EvFinish cpu i => finish cpu i s
  | EvTimer cpu => resume cpu s
  end.

Definition requests (es : list q_event) : list MatchRequest :=
  es ≫= λ e, match e with EvCreate _ _ r => [r] | _ => [] end.

(** What holds between events; [arrived] are the requests so far. *)
Record q_wf (arrived : list MatchRequest) (s : Queue) : Prop := {
  qw_active : activeProcesses s = length (running s);
  qw_limit : (activeProcesses s ≤ CONCURRENCY_LIMIT)%nat;
  qw_bound : (length (creationQueue s) ≤ QUEUE_LIMIT)%nat;
  qw_started : started s ≡ₚ running s ++ settled s;
  qw_order : (started s ++ creationQueue s) `sublist_of` arrived;
  qw_all : started s ++ creationQueue s ++ rejected s ≡ₚ arrived;
  qw_waiting : isProcessingQueue s → creationQueue s ≠ [];
  qw_work : isProcessingQueue s = false → creationQueue s ≠ [] → activeProcesses s = CONCURRENCY_LIMIT;
}.

Lemma queue_loop_spec cpu q a r st q' p' a' r' st' :
  (a ≤ CONCURRENCY_LIMIT)%nat → a = length r →
  queue_loop cpu q a r st = (q', p', a', r', st') →
  ∃ moved, q = moved ++ q' ∧ r' = r ++ moved ∧ st' = st ++ moved ∧ a' = length r' ∧ (a' ≤ CONCURRENCY_LIMIT)%nat ∧
    (p' → q' ≠ []) ∧ (p' = false → q' ≠ [] → a' = CONCURRENCY_LIMIT).
Proof.
  revert cpu a r st. induction q as [|x q IH]; intros cpu a r st Ha Hr E; simpl in E.
  - simplify_eq. exists []. rewrite !app_nil_r. by split_and!.
  - case_bool_decide as Hlt.
    + destruct (exceeds _ _).
      * simplify_eq. exists []. rewrite !app_nil_r. split_and!; naive_solver.
      * apply IH in E as (mv & -> & -> & -> & -> & Hle & H1 & H2); [|lia|rewrite length_app; simpl; lia].
        exists (x :: mv). rewrite <- !app_assoc in *. by split_and!.
    + simplify_eq. exists []. rewrite !app_nil_r. split_and!; auto. intros _ _. lia.
Qed.

(** The loop keeps what holds, but for the work the caller left to it. *)
Lemma run_loop_wf arrived cpu s :
  activeProcesses s = length (running s) → (activeProcesses s ≤ CONCURRENCY_LIMIT)%nat →
  (length (creationQueue s) ≤ QUEUE_LIMIT)%nat → started s ≡ₚ running s ++ settled s →
  (started s ++ creationQueue s) `sublist_of` arrived → started s ++ creationQueue s ++ rejected s ≡ₚ arrived →
  q_wf arrived (run_loop cpu s).
Proof.
  intros Ha Hl Hb Hst Ho Hall. unfold run_loop.
  destruct (queue_loop _ _ _ _ _) as [[[[q p] a] r] st] eqn:E.
  apply queue_loop_spec in E as (mv & Eq & -> & -> & -> & Hle & H1 & H2); [|done..].
  rewrite Eq in *. rewrite length_app in Hb. split; simpl; auto.
  - lia.
  - rewrite Hst, <- !app_assoc. apply Permutation_app_head, Permutation_app_comm.
  - by rewrite <- app_assoc.
  - by rewrite <- !app_assoc in *.
Qed.

Lemma processQueue_wf arrived cpu s :
  activeProcesses s = length (running s) → (activeProcesses s ≤ CONCURRENCY_LIMIT)%nat →
  (length (creationQueue s) ≤ QUEUE_LIMIT)%nat → started s ≡ₚ running s ++ settled s →
  (started s ++ creationQueue s) `sublist_of` arrived → started s ++ creationQueue s ++ rejected s ≡ₚ arrived →
  (isProcessingQueue s → creationQueue s ≠ []) → q_wf arrived (processQueue cpu s).
Proof.
  intros Ha Hl Hb Hst Ho Hall Hw. unfold processQueue. destruct (isProcessingQueue s) eqn:Hp; [|by apply run_loop_wf].
  split; auto; rewrite Hp; naive_solver.
Qed.

Lemma q_run_wf arrived s e : q_wf arrived s → q_wf (arrived ++ requests [e]) (q_run s e).
Proof.
  intros [Ha Hl Hb Hst Ho Hall Hw Hk]. destruct e as [load cpu r|cpu i|cpu]; simpl; rewrite ?app_nil_r.
  - unfold createMatch. destruct (exceeds load 90 || _ || _) eqn:Hc.
    + clear Hc. case_bool_decide as Hfull.
      * split; simpl; auto.
        -- by apply sublist_inserts_r.
        -- rewrite <- Hall. by rewrite <- !app_assoc.
      * apply processQueue_wf; simpl; auto.
        -- rewrite length_app. simpl. lia.
        -- rewrite app_assoc. by apply sublist_app.
        -- rewrite <- Hall, <- !app_assoc. do 2 apply Permutation_app_head. apply Permutation_app_comm.
        -- by destruct (creationQueue s).
    + apply orb_false_iff in Hc as [Hc Hc3%bool_decide_eq_false]. apply orb_false_iff in Hc as [_ Hc2%bool_decide_eq_false].
      assert (creationQueue s = []) as Hq by (destruct (creationQueue s); simpl in *; [done|lia]). rewrite Hq in *.
      split; simpl; rewrite ?Hq; auto.
      * rewrite length_app. simpl. lia.
      * lia.
      * rewrite Hst, <- !app_assoc. apply Permutation_app_head, Permutation_app_comm.
      * rewrite app_nil_r in *. by apply sublist_app.
      * rewrite <- Hall. simpl. rewrite <- !app_assoc. apply Permutation_app_head, Permutation_app_comm.
      * naive_solver.
  - unfold finish. destruct (running s !! i) as [r|] eqn:Hr; [|by split].
    pose proof (lookup_lt_Some _ _ _ Hr) as Hlt. apply processQueue_wf; simpl; auto.
    + rewrite length_delete by eauto. lia.
    + lia.
    + rewrite Hst. rewrite (delete_Permutation (running s) i r Hr) at 1. simpl. rewrite app_assoc. apply Permutation_cons_append.
  - unfold resume. destruct (isProcessingQueue s) eqn:Hp; [by apply run_loop_wf|]. split; auto; rewrite Hp; naive_solver.
Qed.

(** C16: under every interleaving of arriving requests, finishing calls and timers,
    and whatever the load: at most five calls run and at most a hundred requests
    wait; no request is lost, duplicated or served out of turn: those started and
    those waiting are the accepted requests in order of arrival, the others were
    turned away; and requests wait only while five calls run or the loop sleeps
    because the load was above 95, when slots may be free. *)
Theorem queue_invariant es : q_wf (requests es) (foldl q_run queue0 es).
Proof.
  induction es as [|e es IH] using rev_ind.
  - split; simpl; auto; naive_solver lia.
  - rewrite foldl_app. simpl. unfold requests. rewrite bind_app. by apply q_run_wf.
Qed.
