(* ===== verification/MessageStore.v ===== *)
(** * The message store: [frontend/src/messages/messageStore.ts]

    Optimistic sending with an offline queue, flushed on reconnection, and the
    copy kept in the browser's storage.  The socket is an oracle that says for
    each send whether it was accepted; [ms_outbox] records what it accepted.
    Ids come from [generateId], a parameter that never repeats itself.  Calling
    the listeners has no effect on the store and is left out; the clock reads of
    one call are one instant. *)

From stdpp Require Import prelude gmap strings list pretty.
From S2P Require Import Prelude JsText Json.

(** ** Data *)

Inductive MessageStatus := pending | sent | delivered | failed.
#[export] Instance MessageStatus_eq_dec : EqDecision MessageStatus.
Proof. solve_decision. Defined.

Inductive MessageType := text | image | system | score_report.

Inductive ConnectionStatus := idle | connecting | connected | reconnecting | offline | closed.
#[export] Instance ConnectionStatus_eq_dec : EqDecision ConnectionStatus.
Proof. solve_decision. Defined.

Record ChatMessage := mkChat {
  cm_id : string;
  cm_conversationId : string;
  cm_senderId : string;
  cm_senderName : string;
  cm_content : string;
  cm_type : MessageType;
  cm_status : MessageStatus;
  cm_optimistic : option bool;
  cm_createdAt : Z;
  cm_metadata : option json;
}.

Record Conversation := mkConvo {
  cv_id : string;
  cv_name : string;
  cv_participants : list string;
  cv_lastMessage : option ChatMessage;
  cv_unreadCount : Z;
  cv_updatedAt : Z;
}.

Record QueuedMessage := mkQueued {
  qm_id : string;
  qm_conversationId : string;
  qm_content : string;
  qm_type : MessageType;
  qm_senderId : string;
  qm_senderName : string;
  qm_queuedAt : Z;
  qm_attempts : Z;
  qm_metadata : option json;
}.

Inductive EventType := EvSent | EvDelivered | EvFailed | EvQueued | EvFlushed | EvDropped.
#[export] Instance EventType_eq_dec : EqDecision EventType.
Proof. solve_decision. Defined.

Record MessageAnalyticsEvent := mkEvent {
  ev_type : EventType;
  ev_conversationId : option string;
  ev_messageId : option string;
  ev_queueLength : option nat;
  ev_timestamp : Z;
}.

(** What the browser's storage holds under the three keys. *)
Record PersistedStore := mkStored {
  stored_messages : jsmap (list ChatMessage);
  stored_queue : list QueuedMessage;
  stored_conversations : jsmap Conversation;
}.

Record Store := mkStore {
  messages : jsmap (list ChatMessage);
  queue : list QueuedMessage;
  conversations : jsmap Conversation;
  connectionStatus : ConnectionStatus;
  has_sendFn : bool;
  msgEvents : list MessageAnalyticsEvent;
  storage : PersistedStore;
  ms_outbox : list string;
  ms_sends : nat;
  ms_ids : nat;
  ms_writes : nat;
}.

Definition MAX_PERSISTED_MESSAGES : Z := 500.

(** [generateId()], whether the [n]-th call of the send function was accepted, and
    whether the [n]-th write to the browser's storage was: a write over the quota is
    refused, and the store goes on without it. *)
Class MessageEnv := {
  generateId : nat → string;
  generateId_inj : Inj (=) (=) generateId;
  socket_accepts : nat → bool;
  storage_accepts : nat → bool;
}.
#[export] Existing Instance generateId_inj.

(** ** Field updates *)

Definition set_messages (m : jsmap (list ChatMessage)) (s : Store) : Store :=
  mkStore m (queue s) (conversations s) (connectionStatus s) (has_sendFn s) (msgEvents s) (storage s) (ms_outbox s) (ms_sends s) (ms_ids s) (ms_writes s).
Definition set_queue (q : list QueuedMessage) (s : Store) : Store :=
  mkStore (messages s) q (conversations s) (connectionStatus s) (has_sendFn s) (msgEvents s) (storage s) (ms_outbox s) (ms_sends s) (ms_ids s) (ms_writes s).
Definition set_conversations (c : jsmap Conversation) (s : Store) : Store :=
  mkStore (messages s) (queue s) c (connectionStatus s) (has_sendFn s) (msgEvents s) (storage s) (ms_outbox s) (ms_sends s) (ms_ids s) (ms_writes s).
Definition set_status (c : ConnectionStatus) (s : Store) : Store :=
  mkStore (messages s) (queue s) (conversations s) c (has_sendFn s) (msgEvents s) (storage s) (ms_outbox s) (ms_sends s) (ms_ids s) (ms_writes s).
Definition set_events (e : list MessageAnalyticsEvent) (s : Store) : Store :=
  mkStore (messages s) (queue s) (conversations s) (connectionStatus s) (has_sendFn s) e (storage s) (ms_outbox s) (ms_sends s) (ms_ids s) (ms_writes s).
(** ** Operations *)

Section store.
Context `{MessageEnv}.

(** [localStorage.setItem] within [try]. *)
Definition write_storage (p : PersistedStore) (s : Store) : Store :=
  mkStore (messages s) (queue s) (conversations s) (connectionStatus s) (has_sendFn s) (msgEvents s)
    (if storage_accepts (ms_writes s) then p else storage s) (ms_outbox s) (ms_sends s) (ms_ids s) (S (ms_writes s)).

Definition persistMessages (s : Store) : Store :=
  write_storage (mkStored ((λ kv, (kv.1, js_slice_last MAX_PERSISTED_MESSAGES kv.2)) <$> messages s)
    (stored_queue (storage s)) (stored_conversations (storage s))) s.
Definition persistQueue (s : Store) : Store :=
  write_storage (mkStored (stored_messages (storage s)) (queue s) (stored_conversations (storage s))) s.
Definition persistConversations (s : Store) : Store :=
  write_storage (mkStored (stored_messages (storage s)) (stored_queue (storage s)) (conversations s)) s.

(** [new MessageStore()] over what [loadFromStorage] reads. *)
Definition newStore (p : PersistedStore) : Store :=
  mkStore (stored_messages p) (stored_queue p) (stored_conversations p) idle false [] p [] 0 0 0.

Definition trackMsgEvent (now : Z) (t : EventType) (cid mid : option string) (len : option nat) (s : Store) : Store :=
  set_events (take 300 (mkEvent t cid mid len now :: msgEvents s)) s.

Definition count_events (t : EventType) (s : Store) : nat := length (filter (λ e, ev_type e = t) (msgEvents s)).
(** The delivery rate is [delivered / sent], or 1 when nothing was sent. *)
Definition getMessageDeliveryStats (s : Store) : nat * nat * nat :=
  (count_events EvSent s, count_events EvDelivered s, count_events EvFailed s).

Definition with_status (st : MessageStatus) (m : ChatMessage) : ChatMessage :=
  mkChat (cm_id m) (cm_conversationId m) (cm_senderId m) (cm_senderName m) (cm_content m) (cm_type m) st (cm_optimistic m)
    (cm_createdAt m) (cm_metadata m).
Definition confirmed (m : ChatMessage) : ChatMessage :=
  mkChat (cm_id m) (cm_conversationId m) (cm_senderId m) (cm_senderName m) (cm_content m) (cm_type m) delivered (Some false)
    (cm_createdAt m) (cm_metadata m).

(** [updated[idx] = f(updated[idx])] at the first message with an id. *)
Fixpoint update_first (i : string) (f : ChatMessage → ChatMessage) (l : list ChatMessage) : list ChatMessage :=
  match l with
  | [] => []
  | m :: l' => if bool_decide (cm_id m = i) then f m :: l' else m :: update_first i f l'
  end.

Definition updateMessageStatus (cid mid : string) (st : MessageStatus) (s : Store) : Store :=
  match map_get cid (messages s) with
  | None => s
  | Some msgs =>
      if bool_decide (mid ∈ cm_id <$> msgs)
      then persistMessages (set_messages (map_set cid (update_first mid (with_status st) msgs) (messages s)) s)
      else s
  end.

Definition addMessageToStore (msg : ChatMessage) (s : Store) : Store :=
  let existing := default [] (map_get (cm_conversationId msg) (messages s)) in
  let s := persistMessages (set_messages (map_set (cm_conversationId msg) (existing ++ [msg]) (messages s)) s) in
  match map_get (cm_conversationId msg) (conversations s) with
  | None => s
  | Some convo =>
      persistConversations (set_conversations (map_set (cm_conversationId msg)
        (mkConvo (cv_id convo) (cv_name convo) (cv_participants convo) (Some msg)
           (cv_unreadCount convo + (if bool_decide (cm_optimistic msg = Some true) then 0 else 1)) (cm_createdAt msg))
        (conversations s)) s)
  end.

(** One call of the send function. *)
Definition call_send (mid : string) (s : Store) : Store * bool :=
  let ok := socket_accepts (ms_sends s) in
  (mkStore (messages s) (queue s) (conversations s) (connectionStatus s) (has_sendFn s) (msgEvents s) (storage s)
     (if ok then ms_outbox s ++ [mid] else ms_outbox s) (S (ms_sends s)) (ms_ids s) (ms_writes s), ok).

Record SendParams := mkSend {
  sp_conversationId : string;
  sp_content : string;
  sp_type : option MessageType;
  sp_senderId : string;
  sp_senderName : string;
  sp_metadata : option json;
}.

Definition enqueue (now : Z) (i : string) (p : SendParams) (s : Store) : Store :=
  persistQueue (set_queue (queue s ++ [mkQueued i (sp_conversationId p) (sp_content p) (default text (sp_type p)) (sp_senderId p)
                                         (sp_senderName p) now 0 (sp_metadata p)]) s).

Definition sendMessage (now : Z) (p : SendParams) (s : Store) : Store * ChatMessage :=
  let i := generateId (ms_ids s) in
  let s := mkStore (messages s) (queue s) (conversations s) (connectionStatus s) (has_sendFn s) (msgEvents s) (storage s)
             (ms_outbox s) (ms_sends s) (S (ms_ids s)) (ms_writes s) in
  let message := mkChat i (sp_conversationId p) (sp_senderId p) (sp_senderName p) (sp_content p) (default text (sp_type p))
                   pending (Some true) now (sp_metadata p) in
  let s := addMessageToStore message s in
  (if bool_decide (connectionStatus s = connected) && has_sendFn s then
     let (s, ok) := call_send i s in
     if ok then
       trackMsgEvent now EvSent (Some (sp_conversationId p)) (Some i) None (updateMessageStatus (sp_conversationId p) i sent s)
     else enqueue now i p s
   else
     let s := enqueue now i p s in
     trackMsgEvent now EvQueued (Some (sp_conversationId p)) (Some i) (Some (length (queue s))) s,
   message).

Definition receiveMessage (now : Z) (msg : ChatMessage) (s : Store) : Store :=
  if bool_decide (cm_id msg = "") || bool_decide (cm_conversationId msg = "") then s else
  let existing := default [] (map_get (cm_conversationId msg) (messages s)) in
  persistMessages (
    if bool_decide (cm_id msg ∈ cm_id <$> existing) then
      trackMsgEvent now EvDelivered (Some (cm_conversationId msg)) (Some (cm_id msg)) None
        (set_messages (map_set (cm_conversationId msg) (update_first (cm_id msg) confirmed existing) (messages s)) s)
    else addMessageToStore (with_status delivered msg) s).

Definition retry (q : QueuedMessage) : QueuedMessage :=
  mkQueued (qm_id q) (qm_conversationId q) (qm_content q) (qm_type q) (qm_senderId q) (qm_senderName q) (qm_queuedAt q)
    (qm_attempts q + 1) (qm_metadata q).

(** The loop of [flushQueue]; [n] counts what was flushed. *)
Fixpoint flush_loop (now : Z) (n : nat) (toFlush : list QueuedMessage) (s : Store) : nat * Store :=
  match toFlush with
  | [] => (n, s)
  | item :: rest =>
      if bool_decide (3 ≤ qm_attempts item) then
        flush_loop now n rest (trackMsgEvent now EvDropped (Some (qm_conversationId item)) (Some (qm_id item)) None
          (updateMessageStatus (qm_conversationId item) (qm_id item) failed s))
      else
        let (s, ok) := call_send (qm_id item) s in
        if ok then flush_loop now (S n) rest (updateMessageStatus (qm_conversationId item) (qm_id item) sent s)
        else flush_loop now n rest (set_queue (queue s ++ [retry item]) s)
  end.

Definition flushQueue (now : Z) (s : Store) : Store :=
  if negb (has_sendFn s) || bool_decide (length (queue s) = 0)%nat then s else
  let '(flushed, s) := flush_loop now 0 (queue s) (set_queue [] s) in
  let s := persistQueue s in
  if bool_decide (0 < flushed)%nat then trackMsgEvent now EvFlushed None None (Some flushed) s else s.

Definition setConnectionStatus (now : Z) (c : ConnectionStatus) (s : Store) : Store :=
  let s := set_status c s in
  if bool_decide (c = connected) then flushQueue now s else s.

Definition setSendFunction (s : Store) : Store :=
  mkStore (messages s) (queue s) (conversations s) (connectionStatus s) true (msgEvents s) (storage s) (ms_outbox s) (ms_sends s) (ms_ids s) (ms_writes s).

Definition upsertConversation (convo : Conversation) (s : Store) : Store :=
  persistConversations (set_conversations (map_set (cv_id convo) convo (conversations s)) s).

Definition markConversationRead (cid : string) (s : Store) : Store :=
  match map_get cid (conversations s) with
  | None => s
  | Some c =>
      persistConversations (set_conversations (map_set cid
        (mkConvo (cv_id c) (cv_name c) (cv_participants c) (cv_lastMessage c) 0 (cv_updatedAt c)) (conversations s)) s)
  end.

Definition clearConversation (cid : string) (s : Store) : Store :=
  persistMessages (set_messages (map_delete cid (messages s)) s).

Definition getMessages (cid : string) (s : Store) : list ChatMessage := default [] (map_get cid (messages s)).
Definition getAllConversations (s : Store) : list Conversation :=
  js_sort (λ a b, cv_updatedAt b - cv_updatedAt a) (map_values (conversations s)).
Definition getQueue (s : Store) : list QueuedMessage := queue s.
Definition getConnectionStatus (s : Store) : ConnectionStatus := connectionStatus s.
Definition getTotalUnread (s : Store) : Z := foldl (λ n c, n + cv_unreadCount c) 0 (map_values (conversations s)).
End store.

(** ** No message is lost

    What holds of the message store between calls, and what a flush delivers. *)

(** ** Updating one message of a conversation *)

Lemma update_first_ids i f l : (∀ m, cm_id (f m) = cm_id m) → cm_id <$> update_first i f l = cm_id <$> l.
Proof. intros Hf. induction l as [|m l IH]; [done|]. cbn [update_first]. case_bool_decide; by rewrite !fmap_cons, ?Hf, ?IH. Qed.

Lemma elem_of_update_first i f l m' :
  NoDup (cm_id <$> l) → m' ∈ update_first i f l →
  (m' ∈ l ∧ cm_id m' ≠ i) ∨ ∃ m, m ∈ l ∧ cm_id m = i ∧ m' = f m.
Proof.
  induction l as [|m l IH]; simpl; [set_solver|]. intros [Hm Hl]%NoDup_cons. case_bool_decide as E.
  - intros [->|Hin]%elem_of_cons; [right; exists m; set_solver|]. left. split; [by right|]. intros Ei.
    apply Hm. rewrite E, <- Ei. by apply list_elem_of_fmap_2.
  - intros [->|Hin]%elem_of_cons; [left; split; [left|done]|].
    destruct (IH Hl Hin) as [[? ?]|(m0 & ? & ? & ?)]; [left; split; [by right|done]|right; exists m0; set_solver].
Qed.

Lemma Forall_sublist_of {A} (P : A → Prop) l1 l2 : Forall P l2 → l1 `sublist_of` l2 → Forall P l1.
Proof.
  intros Hl Hs. revert Hl. induction Hs as [|x l1 l2 _ IH|x l1 l2 _ IH]; [done| |]; intros [? ?]%Forall_cons; [constructor|]; auto.
Qed.

Section spec.
Context `{MessageEnv}.

(** [inv pool s]: every message still pending belongs to an entry of [pool],
    the entries that wait for another try. *)
Record inv (pool : list QueuedMessage) (s : Store) : Prop := {
  iv_ids : NoDup (qm_id <$> pool);
  iv_issued : Forall (λ q, ∃ k, (k < ms_ids s)%nat ∧ qm_id q = generateId k) pool;
  iv_attempts : Forall (λ q, 0 ≤ qm_attempts q ≤ 3) pool;
  iv_nodup : ∀ cid msgs, map_get cid (messages s) = Some msgs → NoDup (cm_id <$> msgs);
  iv_pending : ∀ cid msgs m, map_get cid (messages s) = Some msgs → m ∈ msgs → cm_status m = pending →
    ∃ q, q ∈ pool ∧ qm_id q = cm_id m ∧ qm_conversationId q = cid;
  iv_future : ∀ cid msgs m k, map_get cid (messages s) = Some msgs → m ∈ msgs → (ms_ids s ≤ k)%nat → cm_id m ≠ generateId k;
}.

(** What storage holds, as long as every write so far was accepted. *)
Definition writes_accepted (s : Store) : Prop := ∀ k, (k < ms_writes s)%nat → storage_accepts k = true.
Definition messages_synced (s : Store) : Prop := writes_accepted s →
  ∀ cid, map_get cid (stored_messages (storage s)) = js_slice_last MAX_PERSISTED_MESSAGES <$> map_get cid (messages s).
Definition queue_synced (s : Store) : Prop := writes_accepted s → stored_queue (storage s) = queue s.

Definition ms_wf (s : Store) : Prop := inv (queue s) s ∧ messages_synced s ∧ queue_synced s.

(** The invariant only looks at these parts of the store. *)
Lemma inv_frame pool s s' :
  messages s' = messages s → ms_ids s' = ms_ids s → inv pool s → inv pool s'.
Proof. intros E1 E2 [I1 I2 I3 I4 I5 I6]. split; rewrite ?E1, ?E2; auto. Qed.

Lemma map_get_fmap_value {V W} (f : V → W) k (l : jsmap V) : map_get k ((λ kv, (kv.1, f kv.2)) <$> l) = f <$> map_get k l.
Proof. induction l as [|[k' v] l IH]; simpl; [done|]. by case_bool_decide. Qed.

(** Replacing the messages of one conversation and storing the result. *)
Lemma inv_set_conversation pool pool' s cid msgs :
  inv pool s → pool' `sublist_of` pool ∨ pool' = pool →
  NoDup (cm_id <$> msgs) → (∀ m k, m ∈ msgs → (ms_ids s ≤ k)%nat → cm_id m ≠ generateId k) →
  (∀ m, m ∈ msgs → cm_status m = pending → ∃ q, q ∈ pool' ∧ qm_id q = cm_id m ∧ qm_conversationId q = cid) →
  (∀ cid' l m, cid' ≠ cid → map_get cid' (messages s) = Some l → m ∈ l → cm_status m = pending →
     ∃ q, q ∈ pool' ∧ qm_id q = cm_id m ∧ qm_conversationId q = cid') →
  inv pool' (persistMessages (set_messages (map_set cid msgs (messages s)) s)).
Proof.
  intros [I1 I2 I3 I4 I5 I6] Hsub Hnd Hfut Hpen Hother.
  assert (pool' `sublist_of` pool) as Hs by (destruct Hsub as [?| ->]; done).
  split; simpl.
  - eapply sublist_NoDup; [exact I1|]. by apply fmap_sublist.
  - by eapply Forall_sublist_of.
  - by eapply Forall_sublist_of.
  - intros cid' l. rewrite map_get_set. case_bool_decide; [by intros [= <-]|apply I4].
  - intros cid' l m. rewrite map_get_set. case_bool_decide as E; [intros [= <-]; subst; apply Hpen|by apply Hother].
  - intros cid' l m k. rewrite map_get_set. case_bool_decide; [intros [= <-]; apply Hfut|apply I6].
Qed.

(** A queued message whose status moves on leaves the pool. *)
Lemma inv_settle q pool s st :
  inv (q :: pool) s → st ≠ pending → inv pool (updateMessageStatus (qm_conversationId q) (qm_id q) st s).
Proof.
  intros Hinv Hst. pose proof Hinv as [I1 I2 I3 I4 I5 I6].
  assert (Hweak : (∀ cid l m, map_get cid (messages s) = Some l → m ∈ l → cm_status m = pending →
      ¬ (cm_id m = qm_id q ∧ cid = qm_conversationId q)) → inv pool s).
  { intros Hno. rewrite fmap_cons in I1. apply NoDup_cons in I1 as [_ I1]. apply Forall_cons in I2 as [_ I2], I3 as [_ I3]. split; auto.
    intros cid l m Hl Hm Hp. destruct (I5 cid l m Hl Hm Hp) as (q' & [->|Hq]%elem_of_cons & E1 & E2); [|by exists q'].
    destruct (Hno cid l m Hl Hm Hp). by split. }
  unfold updateMessageStatus. destruct (map_get _ (messages s)) as [msgs|] eqn:Hmsgs.
  - case_bool_decide as Hin.
    + apply (inv_set_conversation (q :: pool)); [done|left; by constructor| | | |].
      * rewrite update_first_ids by done. by eapply I4.
      * intros m' k Hm' Hk. destruct (elem_of_update_first _ _ _ _ (I4 _ _ Hmsgs) Hm') as [[Hm _]|(m & Hm & _ & ->)]; exact (I6 _ _ _ k Hmsgs Hm Hk).
      * intros m' Hm' Hp. destruct (elem_of_update_first _ _ _ _ (I4 _ _ Hmsgs) Hm') as [[Hm Hne]|(m & _ & _ & ->)]; [|done].
        destruct (I5 _ _ _ Hmsgs Hm Hp) as (q' & [->|Hq]%elem_of_cons & E1 & E2); [by destruct Hne|by exists q'].
      * intros cid l m Hne Hl Hm Hp. destruct (I5 _ _ _ Hl Hm Hp) as (q' & [->|Hq]%elem_of_cons & E1 & E2); [by destruct Hne|by exists q'].
    + apply Hweak. intros cid l m Hl Hm _ [E ->]. simplify_eq. apply Hin. rewrite <- E. by apply list_elem_of_fmap_2.
  - apply Hweak. intros cid l m Hl _ _ [_ ->]. congruence.
Qed.

(** ** What storage holds *)

Lemma accepted_write p s : writes_accepted (write_storage p s) → writes_accepted s ∧ storage_accepts (ms_writes s) = true.
Proof. intros Ha. split; [intros k Hk|]; apply Ha; simpl; lia. Qed.

Lemma accepted_back s s' : (ms_writes s ≤ ms_writes s')%nat → writes_accepted s' → writes_accepted s.
Proof. intros E Ha k Hk. apply Ha. lia. Qed.

(** The parts of a store that tell what storage should hold. *)
Definition same_copy (s s' : Store) : Prop :=
  messages s' = messages s ∧ queue s' = queue s ∧ storage s' = storage s ∧ ms_writes s' = ms_writes s.

Lemma same_copy_synced s s' : same_copy s s' → (messages_synced s → messages_synced s') ∧ (queue_synced s → queue_synced s').
Proof.
  intros (E1 & E2 & E3 & E4). unfold messages_synced, queue_synced, writes_accepted. rewrite E1, E2, E3, E4. done.
Qed.

Lemma persistMessages_synced s : messages_synced (persistMessages s) ∧ (queue_synced s → queue_synced (persistMessages s)).
Proof.
  split; [intros [_ Hok]%accepted_write cid|intros Hs [Ha Hok]%accepted_write]; simpl; rewrite Hok; simpl;
    [apply map_get_fmap_value|by apply Hs].
Qed.

Lemma persistQueue_synced s : queue_synced (persistQueue s) ∧ (messages_synced s → messages_synced (persistQueue s)).
Proof.
  split; [intros [_ Hok]%accepted_write|intros Hs [Ha Hok]%accepted_write]; simpl; rewrite Hok; simpl;
    [done|by apply Hs].
Qed.

Lemma persistConversations_synced s :
  (messages_synced s → messages_synced (persistConversations s)) ∧ (queue_synced s → queue_synced (persistConversations s)).
Proof. split; intros Hs [Ha Hok]%accepted_write; simpl; rewrite Hok; simpl; by apply Hs. Qed.

Lemma update_synced cid i st s :
  (messages_synced s → messages_synced (updateMessageStatus cid i st s)) ∧ (queue_synced s → queue_synced (updateMessageStatus cid i st s)).
Proof.
  unfold updateMessageStatus. destruct (map_get _ _); [|done]. case_bool_decide; [|done].
  destruct (persistMessages_synced (set_messages (map_set cid (update_first i (with_status st) l) (messages s)) s)) as [H1 H2].
  split; [by intros _|exact H2].
Qed.

Lemma add_synced msg s : messages_synced (addMessageToStore msg s) ∧ (queue_synced s → queue_synced (addMessageToStore msg s)).
Proof.
  unfold addMessageToStore. set (s1 := set_messages _ s). destruct (persistMessages_synced s1) as [H1 H2].
  destruct (map_get _ (conversations _)); [|split; [exact H1|exact H2]].
  set (s2 := set_conversations _ _). destruct (persistConversations_synced s2) as [H3 H4].
  destruct (same_copy_synced (persistMessages s1) s2) as [H5 H6]; [done|]. split; [auto|]. intros Hq. apply H4, H6, H2. exact Hq.
Qed.

Lemma send_synced mid s : (messages_synced s → messages_synced (call_send mid s).1) ∧ (queue_synced s → queue_synced (call_send mid s).1).
Proof. by apply same_copy_synced. Qed.

Lemma flush_loop_synced now n l s : messages_synced s → messages_synced (flush_loop now n l s).2.
Proof.
  revert n s. induction l as [|item l IH]; intros n s Hs; simpl; [done|]. case_bool_decide.
  - apply IH. eapply same_copy_synced; [|by apply (update_synced (qm_conversationId item) (qm_id item) failed)]. done.
  - destruct (send_synced (qm_id item) s) as [H1 _]. specialize (H1 Hs). unfold call_send in H1. simpl in H1.
    destruct (socket_accepts _); apply IH; [by apply update_synced|exact H1].
Qed.

(** What a well-formed store is only depends on these parts. *)
Lemma ms_wf_same s s' : same_copy s s' → ms_ids s' = ms_ids s → ms_wf s → ms_wf s'.
Proof.
  intros Hc Ei (Hi & Hm & Hq). destruct (same_copy_synced s s' Hc) as [H1 H2]. destruct Hc as (E1 & E2 & _).
  split_and!; auto. rewrite E2. by eapply inv_frame.
Qed.

(** ** Flushing *)

Lemma queue_update cid i st s : queue (updateMessageStatus cid i st s) = queue s.
Proof. unfold updateMessageStatus. destruct (map_get _ _); [|done]. by case_bool_decide. Qed.

Lemma flush_loop_inv now n toFlush s :
  inv (toFlush ++ queue s) s → inv (queue (flush_loop now n toFlush s).2) (flush_loop now n toFlush s).2.
Proof.
  revert n s. induction toFlush as [|item rest IH]; intros n s Hinv; simpl; [done|]. simpl in Hinv.
  case_bool_decide as Hatt.
  - apply IH. simpl. rewrite queue_update.
    eapply (inv_frame _ (updateMessageStatus (qm_conversationId item) (qm_id item) failed s)); [done..|].
    by apply inv_settle.
  - unfold call_send. destruct (socket_accepts (ms_sends s)).
    + apply IH. rewrite queue_update. apply inv_settle; [|done]. by eapply inv_frame; [..|exact Hinv].
    + apply IH. simpl. destruct Hinv as [I1 I2 I3 I4 I5 I6].
      assert (rest ++ queue s ++ [retry item] ≡ₚ retry item :: rest ++ queue s) as Hp
        by (rewrite app_assoc; symmetry; apply Permutation_cons_append).
      apply Forall_cons in I2 as [Q2 I2], I3 as [Q3 I3].
      split; simpl; rewrite ?Hp; auto.
      * constructor; [|done]. simpl. lia.
      * intros cid l m Hl Hm Hpd. destruct (I5 cid l m Hl Hm Hpd) as (q & [->|Hq]%elem_of_cons & E1 & E2).
        -- exists (retry item). rewrite Hp. split; [left|done].
        -- exists q. rewrite Hp. split; [by right|done].
Qed.

Lemma flush_wf now s : ms_wf s → ms_wf (flushQueue now s).
Proof.
  intros (Hinv & Hm & Hq). unfold flushQueue. destruct (_ || _); [done|].
  pose proof (flush_loop_inv now 0 (queue s) (set_queue [] s)) as Hl. rewrite app_nil_r in Hl.
  specialize (Hl ltac:(by eapply inv_frame; [..|exact Hinv])).
  pose proof (flush_loop_synced now 0 (queue s) (set_queue [] s) Hm) as Hm1. destruct (flush_loop _ _ _ _) as [n s1]. simpl in Hl, Hm1.
  destruct (persistQueue_synced s1) as [H1 H2].
  assert (ms_wf (persistQueue s1)) as Hw by (split_and!; [by eapply inv_frame; [..|exact Hl]|auto|done]).
  case_bool_decide; [|done]. by eapply ms_wf_same; [| |exact Hw].
Qed.

(** ** The other operations *)

Lemma queue_add msg s : queue (addMessageToStore msg s) = queue s.
Proof. unfold addMessageToStore. simpl. by destruct (map_get _ _). Qed.
Lemma ids_add msg s : ms_ids (addMessageToStore msg s) = ms_ids s.
Proof. unfold addMessageToStore. simpl. by destruct (map_get _ _). Qed.

(** Adding a message with a new id; if it is pending its entry joins the pool. *)
Lemma inv_add pool s msg :
  inv pool s → cm_id msg ∉ cm_id <$> getMessages (cm_conversationId msg) s →
  (∀ k, (ms_ids s ≤ k)%nat → cm_id msg ≠ generateId k) →
  (cm_status msg = pending → ∃ q, q ∈ pool ∧ qm_id q = cm_id msg ∧ qm_conversationId q = cm_conversationId msg) →
  inv pool (addMessageToStore msg s).
Proof.
  intros Hinv Hnew Hfut Hpen. pose proof Hinv as [I1 I2 I3 I4 I5 I6]. unfold getMessages in Hnew.
  assert (inv pool (persistMessages (set_messages
    (map_set (cm_conversationId msg) (default [] (map_get (cm_conversationId msg) (messages s)) ++ [msg]) (messages s)) s))) as Hi.
  { apply (inv_set_conversation pool); [done|by right| | | |eauto].
    - rewrite fmap_app. apply NoDup_app. split_and!; [|set_solver|apply NoDup_singleton].
      destruct (map_get _ _) eqn:E; simpl; [by eapply I4|constructor].
    - intros m k [Hm| ->%list_elem_of_singleton]%elem_of_app Hk; [|by apply Hfut].
      destruct (map_get _ _) eqn:E; simpl in Hm; [exact (I6 _ _ _ k E Hm Hk)|set_solver].
    - intros m [Hm| ->%list_elem_of_singleton]%elem_of_app Hp; [|by apply Hpen].
      destruct (map_get _ _) eqn:E; simpl in Hm; [exact (I5 _ _ _ E Hm Hp)|set_solver]. }
  unfold addMessageToStore. simpl. destruct (map_get _ (conversations s)); [|exact Hi]. by eapply inv_frame; [..|exact Hi].
Qed.

Lemma inv_perm pool pool' s : pool ≡ₚ pool' → inv pool s → inv pool' s.
Proof.
  intros Hp [I1 I2 I3 I4 I5 I6]. split; rewrite <- ?Hp; auto.
  intros cid l m Hl Hm Hpd. destruct (I5 cid l m Hl Hm Hpd) as (q & Hq & ?). exists q. by rewrite <- Hp.
Qed.

Definition next_id (s : Store) : Store :=
  mkStore (messages s) (queue s) (conversations s) (connectionStatus s) (has_sendFn s) (msgEvents s) (storage s)
    (ms_outbox s) (ms_sends s) (S (ms_ids s)) (ms_writes s).

(** An entry for the id just generated. *)
Lemma inv_grow pool s q :
  inv pool s → qm_id q = generateId (ms_ids s) → qm_attempts q = 0 → inv (pool ++ [q]) (next_id s).
Proof.
  intros [I1 I2 I3 I4 I5 I6] Hq Ha. split; simpl; auto.
  - rewrite fmap_app. apply NoDup_app. split_and!; [done| |apply NoDup_singleton].
    intros x (q' & -> & Hq')%list_elem_of_fmap E%list_elem_of_singleton. rewrite Forall_forall in I2.
    destruct (I2 q' Hq') as (k & Hk & Ek). rewrite Ek, Hq in E. apply (inj generateId) in E. lia.
  - apply Forall_app. split; [eapply Forall_impl; [exact I2|]; intros q' (k & ? & ?); exists k; split; [lia|done]|].
    constructor; [exists (ms_ids s); split; [lia|done]|constructor].
  - apply Forall_app. split; [done|]. constructor; [lia|constructor].
  - intros cid l m Hl Hm Hp. destruct (I5 cid l m Hl Hm Hp) as (q' & ? & ?). exists q'. set_solver.
  - intros cid l m k Hl Hm Hk. apply (I6 cid l m k Hl Hm). lia.
Qed.

Lemma sendMessage_wf now p s : ms_wf s → ms_wf (sendMessage now p s).1.
Proof.
  intros (Hinv & Hms & Hqs). unfold sendMessage. fold (next_id s). set (i := generateId (ms_ids s)).
  set (msg := mkChat i _ _ _ _ _ pending _ _ _).
  set (q := mkQueued i (sp_conversationId p) (sp_content p) (default text (sp_type p)) (sp_senderId p) (sp_senderName p) now 0 (sp_metadata p)).
  assert (inv (queue s ++ [q]) (addMessageToStore msg (next_id s))) as Hadd.
  { apply inv_add.
    - by apply inv_grow.
    - unfold getMessages. simpl. destruct (map_get _ _) as [l|] eqn:El; simpl; [|set_solver].
      intros (m & E & Hm)%list_elem_of_fmap. apply (iv_future _ _ Hinv _ _ m (ms_ids s) El Hm); [lia|done].
    - simpl. intros k Hk E. apply (inj generateId) in E. lia.
    - intros _. exists q. set_solver. }
  assert (queue (addMessageToStore msg (next_id s)) = queue s) as Hq by exact (queue_add msg (next_id s)).
  destruct (add_synced msg (next_id s)) as [Hm1 Hq1]. specialize (Hq1 Hqs).
  cbn [fst]. set (s1 := addMessageToStore msg (next_id s)) in *.
  assert (∀ s2, same_copy s1 s2 → ms_ids s2 = ms_ids s1 → ms_wf (enqueue now i p s2)) as Henq.
  { intros s2 Hc E2. destruct (same_copy_synced s1 s2 Hc) as [Hm2 _]. destruct Hc as (E1 & E4 & _).
    unfold enqueue. fold q. destruct (persistQueue_synced (set_queue (queue s2 ++ [q]) s2)) as [H3 H4]. split_and!; [|exact (H4 (Hm2 Hm1))|exact H3].
    simpl. rewrite E4, Hq. by eapply inv_frame; [..|exact Hadd]. }
  destruct (bool_decide _ && _).
  - unfold call_send. destruct (socket_accepts (ms_sends s1)); [|by apply Henq]. set (s2 := mkStore _ _ _ _ _ _ _ _ _ _ _).
    destruct (update_synced (sp_conversationId p) i sent s2) as [H3 H4].
    eapply (ms_wf_same (updateMessageStatus (sp_conversationId p) i sent s2)); [done|done|]. split_and!; [|exact (H3 Hm1)|exact (H4 Hq1)].
    rewrite queue_update. simpl. rewrite Hq. apply (inv_settle q); [|done].
    eapply inv_perm; [|by eapply inv_frame; [..|exact Hadd]]. symmetry. apply Permutation_cons_append.
  - eapply ms_wf_same; [| |apply (Henq s1); done]; done.
Qed.

Lemma receiveMessage_wf now msg s :
  (∀ k, (ms_ids s ≤ k)%nat → cm_id msg ≠ generateId k) → ms_wf s → ms_wf (receiveMessage now msg s).
Proof.
  intros Hfut (Hinv & Hms & Hqs). unfold receiveMessage. destruct (_ || _); [done|]. cbv zeta. case_bool_decide as Hin.
  - set (s1 := trackMsgEvent _ _ _ _ _ _). destruct (persistMessages_synced s1) as [H1 H2]. split_and!; [|exact H1|exact (H2 Hqs)].
    destruct (map_get (cm_conversationId msg) (messages s)) as [l|] eqn:El; simpl in Hin; [|set_solver].
    eapply (inv_frame _ (persistMessages (set_messages
      (map_set (cm_conversationId msg) (update_first (cm_id msg) confirmed l) (messages s)) s))); [done..|].
    pose proof Hinv as [I1 I2 I3 I4 I5 I6]. apply (inv_set_conversation (queue s)); [done|by right| | | |eauto].
    + rewrite update_first_ids by done. by eapply I4.
    + intros m' k Hm' Hk. destruct (elem_of_update_first _ _ _ _ (I4 _ _ El) Hm') as [[Hm _]|(m & Hm & _ & ->)]; exact (I6 _ _ _ k El Hm Hk).
    + intros m' Hm' Hp. destruct (elem_of_update_first _ _ _ _ (I4 _ _ El) Hm') as [[Hm _]|(m & _ & _ & ->)]; [|done].
      exact (I5 _ _ _ El Hm Hp).
  - destruct (add_synced (with_status delivered msg) s) as [_ Hq1].
    destruct (persistMessages_synced (addMessageToStore (with_status delivered msg) s)) as [H1 H2]. split_and!; [|exact H1|exact (H2 (Hq1 Hqs))].
    eapply (inv_frame _ (addMessageToStore (with_status delivered msg) s)); [done..|].
    cbn [persistMessages write_storage queue]. rewrite queue_add. by apply inv_add.
Qed.

Lemma slice_last_idem {A} n (l : list A) : 0 < n → js_slice_last n (js_slice_last n l) = js_slice_last n l.
Proof.
  intros Hn. pose proof (js_slice_last_length n l Hn) as Hl. unfold js_slice_last at 1.
  rewrite bool_decide_true by lia. replace (Z.to_nat _) with 0%nat by lia. done.
Qed.

(** Opening the page again: the store is read back from storage. *)
Definition reload (s : Store) : Store :=
  let s' := newStore (storage s) in
  mkStore (messages s') (queue s') (conversations s') (connectionStatus s') (has_sendFn s') (msgEvents s') (storage s')
    (ms_outbox s) (ms_sends s) (ms_ids s) (ms_writes s).

Lemma reload_wf s : writes_accepted s → ms_wf s → ms_wf (reload s).
Proof.
  intros Ha ([I1 I2 I3 I4 I5 I6] & Hms & Hqs). specialize (Hms Ha). specialize (Hqs Ha).
  assert (Hget : ∀ cid l, map_get cid (stored_messages (storage s)) = Some l →
    ∃ l0, map_get cid (messages s) = Some l0 ∧ l = js_slice_last MAX_PERSISTED_MESSAGES l0).
  { intros cid l Hl. rewrite Hms in Hl. destruct (map_get cid (messages s)) as [l0|]; simplify_eq/=. by exists l0. }
  assert (Hsub : ∀ l0 (m : ChatMessage), m ∈ js_slice_last MAX_PERSISTED_MESSAGES l0 → m ∈ l0).
  { intros l0 m Hm. destruct (js_slice_last_suffix MAX_PERSISTED_MESSAGES l0) as [k E]. rewrite E. apply elem_of_app. by right. }
  unfold reload. split_and!; [|intros _ cid; simpl|done].
  - simpl. rewrite Hqs. split; simpl; auto.
    + intros cid l (l0 & Hl0 & ->)%Hget. destruct (js_slice_last_suffix MAX_PERSISTED_MESSAGES l0) as [k E].
      pose proof (I4 cid l0 Hl0) as Hnd. rewrite E, fmap_app in Hnd. by apply NoDup_app in Hnd as (_ & _ & ?).
    + intros cid l m (l0 & Hl0 & ->)%Hget Hm. by apply (I5 cid l0), Hsub.
    + intros cid l m k (l0 & Hl0 & ->)%Hget Hm. by apply (I6 cid l0), Hsub.
  - rewrite !Hms. destruct (map_get cid (messages s)); simpl; [|done]. by rewrite slice_last_idem.
Qed.

(** What happens on one page: the calls of the store.  A message that comes in does
    not carry an id the page has not made yet. *)
Inductive page_step (s : Store) : Store → Prop :=
| s_send now p : page_step s (sendMessage now p s).1
| s_receive now msg : (∀ k, (ms_ids s ≤ k)%nat → cm_id msg ≠ generateId k) → page_step s (receiveMessage now msg s)
| s_flush now : page_step s (flushQueue now s)
| s_status now c : page_step s (setConnectionStatus now c s)
| s_sendFn : page_step s (setSendFunction s)
| s_upsert c : page_step s (upsertConversation c s)
| s_read cid : page_step s (markConversationRead cid s)
| s_clear cid : page_step s (clearConversation cid s).

(** And the page may be opened again, from a storage that took every write. *)
Inductive s_step (s : Store) : Store → Prop :=
| s_page s' : page_step s s' → s_step s s'
| s_reload : writes_accepted s → s_step s (reload s).

Lemma page_step_wf s s' : page_step s s' → ms_wf s → ms_wf s'.
Proof.
  intros [] Hwf.
  - by apply sendMessage_wf.
  - by apply receiveMessage_wf.
  - by apply flush_wf.
  - assert (ms_wf (set_status c s)) as Hs by (by eapply ms_wf_same; [| |exact Hwf]).
    unfold setConnectionStatus. case_bool_decide; [by apply flush_wf|done].
  - by eapply ms_wf_same; [| |exact Hwf].
  - destruct Hwf as (Hi & Hm & Hq). unfold upsertConversation. set (s1 := set_conversations _ s).
    destruct (persistConversations_synced s1) as [H1 H2]. split_and!; [by eapply inv_frame; [..|exact Hi]|exact (H1 Hm)|exact (H2 Hq)].
  - unfold markConversationRead. destruct (map_get _ _); [|done]. destruct Hwf as (Hi & Hm & Hq). set (s1 := set_conversations _ s).
    destruct (persistConversations_synced s1) as [H1 H2]. split_and!; [by eapply inv_frame; [..|exact Hi]|exact (H1 Hm)|exact (H2 Hq)].
  - destruct Hwf as ([I1 I2 I3 I4 I5 I6] & Hm & Hq). unfold clearConversation. set (s1 := set_messages _ s).
    destruct (persistMessages_synced s1) as [H1 H2]. split_and!; [|exact H1|exact (H2 Hq)]. simpl. split; simpl; auto.
    + intros cid' l. rewrite map_get_delete. case_bool_decide; [done|apply I4].
    + intros cid' l m. rewrite map_get_delete. case_bool_decide; [done|apply I5].
    + intros cid' l m k. rewrite map_get_delete. case_bool_decide; [done|apply I6].
Qed.

Definition empty_store : Store := newStore (mkStored [] [] []).

Lemma empty_store_wf : ms_wf empty_store.
Proof. split_and!; [|done|done]. split; simpl; try done; by constructor. Qed.

Lemma s_steps_wf s : rtc s_step empty_store s → ms_wf s.
Proof.
  intros Hs. pose proof empty_store_wf as Hwf. revert Hwf. induction Hs as [|s1 s2 s3 H12 _ IH]; [done|].
  intros Hwf. apply IH. destruct H12 as [s2 Hp|Ha]; [by eapply page_step_wf|by apply reload_wf].
Qed.

(** C15: no outgoing message is lost.  After any sequence of sends, receipts,
    connection changes, flushes and other calls, in which any write to the browser's
    storage may be refused, and page reloads at moments up to which storage took every
    write, a message that still shows as pending is in the queue in memory, for the
    conversation it shows in; the queue holds each message once and after at most three
    failed tries.  If storage took every write so far, the queue and the last 500
    messages of every conversation are in storage too.  (A reload after a refused write
    strands a message: [refused_write_strands].) *)
Theorem no_message_lost s :
  rtc s_step empty_store s →
  (∀ cid m, m ∈ getMessages cid s → cm_status m = pending →
     ∃ q, q ∈ queue s ∧ qm_id q = cm_id m ∧ qm_conversationId q = cid) ∧
  NoDup (qm_id <$> queue s) ∧ Forall (λ q, 0 ≤ qm_attempts q ≤ 3) (queue s) ∧
  (writes_accepted s → stored_queue (storage s) = queue s ∧
     ∀ cid, map_get cid (stored_messages (storage s)) = js_slice_last MAX_PERSISTED_MESSAGES <$> map_get cid (messages s)).
Proof.
  intros ([I1 I2 I3 I4 I5 I6] & Hm & Hq)%s_steps_wf. split_and!; [|done|done|by intros Ha; split; [apply Hq|apply Hm]].
  unfold getMessages. intros cid m. destruct (map_get cid (messages s)) eqn:E; simpl; [by eapply I5|set_solver].
Qed.

(** ** What a flush sends *)

Definition sendable (q : QueuedMessage) : Prop := qm_attempts q < 3.
#[export] Instance sendable_dec q : Decision (sendable q).
Proof. unfold sendable. apply _. Defined.

Lemma update_frame cid i st s :
  ms_outbox (updateMessageStatus cid i st s) = ms_outbox s ∧ ms_sends (updateMessageStatus cid i st s) = ms_sends s.
Proof. unfold updateMessageStatus. destruct (map_get _ _); [|done]. by case_bool_decide. Qed.

Lemma flush_loop_accepts now n l s :
  (∀ k, (ms_sends s ≤ k)%nat → socket_accepts k = true) →
  queue (flush_loop now n l s).2 = queue s ∧
  ms_outbox (flush_loop now n l s).2 = ms_outbox s ++ (qm_id <$> filter sendable l).
Proof.
  revert n s. induction l as [|q l IH]; intros n s Hok; simpl; [by rewrite app_nil_r|].
  rewrite filter_cons. case_bool_decide as Ha.
  - rewrite (decide_False (P := sendable q)) by (unfold sendable; lia).
    destruct (update_frame (qm_conversationId q) (qm_id q) failed s) as [Eo Es].
    destruct (IH n (trackMsgEvent now EvDropped (Some (qm_conversationId q)) (Some (qm_id q)) None
      (updateMessageStatus (qm_conversationId q) (qm_id q) failed s))) as [-> ->].
    { simpl. by rewrite Es. }
    simpl. by rewrite queue_update, Eo.
  - rewrite (decide_True (P := sendable q)) by (unfold sendable; lia). rewrite Hok by done.
    set (s1 := mkStore _ _ _ _ _ _ _ _ _ _ _). destruct (update_frame (qm_conversationId q) (qm_id q) sent s1) as [Eo Es].
    destruct (IH (S n) (updateMessageStatus (qm_conversationId q) (qm_id q) sent s1)) as [-> ->].
    { rewrite Es. simpl. intros k Hk. apply Hok. lia. }
    rewrite queue_update, Eo. simpl. by rewrite <- app_assoc.
Qed.

(** A flush over a working socket empties the queue: it hands over, in the
    order they were queued, all messages but those that failed three times
    already, and afterwards no message of any conversation is pending. *)
Theorem flush_delivers now s :
  ms_wf s → has_sendFn s = true → (∀ k, (ms_sends s ≤ k)%nat → socket_accepts k = true) →
  queue (flushQueue now s) = [] ∧
  ms_outbox (flushQueue now s) = ms_outbox s ++ (qm_id <$> filter sendable (queue s)) ∧
  ∀ cid m, m ∈ getMessages cid (flushQueue now s) → cm_status m ≠ pending.
Proof.
  intros Hwf Hfn Hok. destruct (flush_wf now s Hwf) as [Hinv _]. split_and!.
  3: { intros cid m Hm Hp. enough (queue (flushQueue now s) = []) as Hq.
       - unfold getMessages in Hm. destruct (map_get cid _) eqn:E; simpl in Hm; [|set_solver].
         destruct (iv_pending _ _ Hinv _ _ _ E Hm Hp) as (q & Hin & _). rewrite Hq in Hin. set_solver.
       - clear Hinv Hm. unfold flushQueue. rewrite Hfn. simpl. case_bool_decide as Hl; [by apply length_zero_iff_nil|].
         destruct (flush_loop_accepts now 0 (queue s) (set_queue [] s) Hok) as [E _].
         destruct (flush_loop _ _ _ _) as [n s1]. simpl in E. by case_bool_decide. }
  all: clear Hinv; unfold flushQueue; rewrite Hfn; simpl; case_bool_decide as Hl.
  - by apply length_zero_iff_nil.
  - destruct (flush_loop_accepts now 0 (queue s) (set_queue [] s) Hok) as [E _].
    destruct (flush_loop _ _ _ _) as [n s1]. simpl in E. by case_bool_decide.
  - apply length_zero_iff_nil in Hl as ->. by rewrite app_nil_r.
  - destruct (flush_loop_accepts now 0 (queue s) (set_queue [] s) Hok) as [_ E].
    destruct (flush_loop _ _ _ _) as [n s1]. simpl in E. by case_bool_decide.
Qed.
End spec.

(** ** A concrete session: one message written offline, delivered later *)

#[export] Program Instance session_env : MessageEnv :=
  {| generateId n := "m" +:+ pretty n; socket_accepts _ := true; storage_accepts _ := true |}.

Section witnesses.
Definition w_params : SendParams := mkSend "c1" "hi" None "u1" "Ann" None.
Definition w_offline : Store := (sendMessage 1 w_params (setSendFunction empty_store)).1.

Lemma w_offline_steps : rtc s_step empty_store w_offline.
Proof. eapply rtc_l; [apply s_page, s_sendFn|]. apply rtc_once, s_page, s_send. Qed.

Lemma no_message_lost_witness :
  cm_status <$> getMessages "c1" w_offline = [pending] ∧ ∃ q, q ∈ queue w_offline ∧ qm_id q = generateId 0 ∧ qm_conversationId q = "c1".
Proof.
  split; [reflexivity|]. destruct (no_message_lost w_offline w_offline_steps) as [Hp _].
  apply (Hp "c1" (mkChat (generateId 0) "c1" "u1" "Ann" "hi" text pending (Some true) 1 None)); [|reflexivity].
  apply list_elem_of_In. vm_compute. by left.
Defined.

(** The storage takes the messages and then no more: the queue is not stored, and
    after a reload the message shows as pending and nothing will send it. *)
Definition full_env : MessageEnv :=
  {| generateId n := "m" +:+ pretty n; generateId_inj := session_env.(generateId_inj); socket_accepts _ := true; storage_accepts n := bool_decide (n < 1)%nat |}.

Example refused_write_strands :
  let s := (@sendMessage full_env 1 w_params empty_store).1 in
  queue s ≠ [] ∧ cm_status <$> getMessages "c1" (reload s) = [pending] ∧ queue (reload s) = [].
Proof. split_and!; [vm_compute; discriminate|reflexivity|reflexivity]. Qed.

Lemma flush_delivers_witness :
  ms_outbox (flushQueue 2 w_offline) = [generateId 0] ∧ cm_status <$> getMessages "c1" (flushQueue 2 w_offline) = [sent].
Proof.
  split; [|vm_compute; reflexivity].
  destruct (flush_delivers 2 w_offline (s_steps_wf _ w_offline_steps)) as (_ & Ho & _); [reflexivity|done|].
  rewrite Ho. vm_compute. reflexivity.
Defined.
End witnesses.
