(* ===== verification/ArrayLib.v ===== *)
(** * The array library: [frontend/src/lib/array.ts]

    Pure functions on arrays.  Keys and elements are compared with [===], here
    decidable equality; numbers are integers, and means and medians rationals.
    Loops over an index that does not move by one are recursions with the
    length as fuel, which the loop cannot exceed. *)

From Stdlib Require Import QArith.
From stdpp Require Import prelude strings list sorting.
From S2P Require Import Prelude.

Open Scope Z_scope.

(** What [unique] asks of a value: [typeof v === "object"] and its JSON text. *)
Class JsValue (T : Type) := { is_object : T → bool; json_text : T → string }.

(** ** Filtering and partitioning *)

Section filtering.
Context {T : Type}.

(** [arr.filter] with a set of the keys seen. *)
Fixpoint filter_seen `{EqDecision K} (keyFn : T → K) (seen : list K) (arr : list T) : list T :=
  match arr with
  | [] => []
  | item :: rest =>
      if bool_decide (keyFn item ∈ seen) then filter_seen keyFn seen rest
      else item :: filter_seen keyFn (keyFn item :: seen) rest
  end.

Definition uniqueBy `{EqDecision K} (arr : list T) (keyFn : T → K) : list T := filter_seen keyFn [] arr.

Definition unique `{EqDecision T} `{JsValue T} (arr : list T) : list T :=
  match arr with
  | [] => []
  | first :: _ => if is_object first then filter_seen json_text [] arr else dedupe arr
  end.

Definition partition (arr : list T) (predicate : T → nat → bool) : list T * list T :=
  foldl (λ '(pass, fail) '(i, item), if predicate item i then (pass ++ [item], fail) else (pass, fail ++ [item]))
    ([], []) (imap pair arr).

(** [truthy] is the condition [Boolean(item)]. *)
Definition compact (truthy : T → bool) (arr : list T) : list T := List.filter truthy arr.
End filtering.

(** ** Chunking and grouping *)

Section grouping.
Context {T : Type}.

Fixpoint chunk_loop (fuel : nat) (size : nat) (arr : list T) : list (list T) :=
  match fuel, arr with
  | _, [] => []
  | O, _ => []
  | S f, _ => take size arr :: chunk_loop f size (drop size arr)
  end.
Definition chunk (arr : list T) (size : Z) : list (list T) :=
  if bool_decide (size ≤ 0) then [] else chunk_loop (length arr) (Z.to_nat size) arr.

(** [map.set(key, [...(map.get(key) ?? []), item])]: a new key goes last. *)
Fixpoint push_group `{EqDecision K} (key : K) (item : T) (m : list (K * list T)) : list (K * list T) :=
  match m with
  | [] => [(key, [item])]
  | (k, g) :: m' => if bool_decide (k = key) then (k, g ++ [item]) :: m' else (k, g) :: push_group key item m'
  end.
Definition groupBy `{EqDecision K} (arr : list T) (keyFn : T → K) : list (K * list T) :=
  foldl (λ m item, push_group (keyFn item) item m) [] arr.
Definition groupByObject (arr : list T) (keyFn : T → string) : jsmap (list T) :=
  foldl (λ obj item, map_set (keyFn item) (default [] (map_get (keyFn item) obj) ++ [item]) obj) [] arr.
End grouping.

(** ** Sorting and shuffling *)

Section sorting.
Context {T : Type}.

Definition compare_by {K} (lt : K → K → bool) (keyFn : T → K) (a b : T) : Z :=
  if lt (keyFn a) (keyFn b) then -1 else if lt (keyFn b) (keyFn a) then 1 else 0.
Definition sortBy {K} (lt : K → K → bool) (arr : list T) (keyFn : T → K) : list T := js_sort (compare_by lt keyFn) arr.
Definition sortByDesc {K} (lt : K → K → bool) (arr : list T) (keyFn : T → K) : list T :=
  js_sort (λ a b, compare_by lt keyFn b a) arr.

(** [[copy[i], copy[j]] = [copy[j], copy[i]]] *)
Definition swap (i j : nat) (l : list T) : list T :=
  match l !! i, l !! j with Some x, Some y => <[i := y]> (<[j := x]> l) | _, _ => l end.

(** [random i] is [Math.floor(Math.random() * (i + 1))]. *)
Fixpoint shuffle_loop (random : nat → nat) (i : nat) (copy : list T) : list T :=
  match i with
  | O => copy
  | S i' => shuffle_loop random i' (swap i (random i) copy)
  end.
Definition shuffle (random : nat → nat) (arr : list T) : list T := shuffle_loop random (pred (length arr)) arr.
End sorting.

(** ** Set operations, selection, aggregation *)

Section sets.
Context {T : Type} `{EqDecision T} `{JsValue T}.

Definition intersection_ (arr1 arr2 : list T) : list T := unique (List.filter (λ x, bool_decide (x ∈ arr2)) arr1).
Definition difference_ (arr1 arr2 : list T) : list T := List.filter (λ x, negb (bool_decide (x ∈ arr2))) arr1.
Definition symmetricDifference (arr1 arr2 : list T) : list T := difference_ arr1 arr2 ++ difference_ arr2 arr1.
Definition union_ (arr1 arr2 : list T) : list T := unique (arr1 ++ arr2).

(** [index] is [Math.floor(Math.random() * arr.length)]. *)
Definition sample (index : nat) (arr : list T) : option T := arr !! index.
Definition sampleSize (random : nat → nat) (arr : list T) (n : Z) : list T :=
  js_take (Z.min n (Z.of_nat (length arr))) (shuffle random arr).
Definition find_ (arr : list T) (predicate : T → bool) : option T := List.find predicate arr.

Fixpoint findLast_loop (predicate : T → bool) (arr : list T) (i : nat) : option T :=
  match i with
  | O => None
  | S i' => match arr !! i' with
            | Some x => if predicate x then Some x else findLast_loop predicate arr i'
            | None => findLast_loop predicate arr i'
            end
  end.
Definition findLast (arr : list T) (predicate : T → bool) : option T := findLast_loop predicate arr (length arr).

Definition sum (arr : list Z) : Z := foldl (λ acc n, acc + n) 0 arr.
Definition sumBy (arr : list T) (keyFn : T → Z) : Z := foldl (λ acc item, acc + keyFn item) 0 arr.

(** [None] is the infinity of an empty array. *)
Definition min_ (arr : list Z) : option Z := match arr with [] => None | x :: l => Some (foldl Z.min x l) end.
Definition max_ (arr : list Z) : option Z := match arr with [] => None | x :: l => Some (foldl Z.max x l) end.

Definition minBy (arr : list T) (keyFn : T → Z) : option T :=
  match arr with
  | [] => None
  | x :: l => Some (foldl (λ minItem item, if bool_decide (keyFn item < keyFn minItem) then item else minItem) x l)
  end.
Definition maxBy (arr : list T) (keyFn : T → Z) : option T :=
  match arr with
  | [] => None
  | x :: l => Some (foldl (λ maxItem item, if bool_decide (keyFn maxItem < keyFn item) then item else maxItem) x l)
  end.

Definition mean (arr : list Z) : Q := if bool_decide (length arr = 0)%nat then 0%Q else (inject_Z (sum arr) / inject_Z (Z.of_nat (length arr)))%Q.
Definition median (arr : list Z) : Q :=
  if bool_decide (length arr = 0)%nat then 0%Q else
  let sorted := js_sort (λ a b, a - b) arr in
  let mid := (length sorted / 2)%nat in
  if bool_decide (length sorted mod 2 = 0)%nat
  then (inject_Z (default 0 (sorted !! (mid - 1)%nat) + default 0 (sorted !! mid))%Z / 2)%Q
  else inject_Z (default 0 (sorted !! mid)).

Definition countBy (arr : list T) (predicate : T → bool) : nat := length (List.filter predicate arr).
Definition every (arr : list T) (predicate : T → bool) : bool := forallb predicate arr.
Definition some (arr : list T) (predicate : T → bool) : bool := existsb predicate arr.
Definition none (arr : list T) (predicate : T → bool) : bool := negb (existsb predicate arr).
Definition repeat_ (value : T) (n : nat) : list T := replicate n value.
End sets.

(** ** Flattening and ranges *)

(** An array whose elements are values or arrays. *)
Inductive nested (T : Type) := Leaf (x : T) | Node (l : list (nested T)).
Arguments Leaf {T}.
Arguments Node {T}.

Definition flatten {T} (arr : list (nested T)) : list (nested T) :=
  arr ≫= λ v, match v with Leaf x => [Leaf x] | Node l => l end.
Fixpoint leaves {T} (v : nested T) : list T :=
  match v with Leaf x => [x] | Node l => l ≫= leaves end.
Definition flattenDeep {T} (arr : list (nested T)) : list T := arr ≫= leaves.

(** One push per round; the fuel bounds the number of rounds. *)
Fixpoint range_loop (fuel : nat) (go : Z → bool) (step i : Z) : list Z :=
  match fuel with
  | O => []
  | S f => if go i then i :: range_loop f go step (i + step) else []
  end.
Definition range (start end_ step : Z) : list Z :=
  let fuel := Z.to_nat (Z.abs (end_ - start)) in
  if bool_decide (0 < step) then range_loop fuel (λ i, bool_decide (i < end_)) step start
  else if bool_decide (step < 0) then range_loop fuel (λ i, bool_decide (end_ < i)) step start
  else [].

(** ** Theorems *)

Lemma chunk_loop_fuel {T} (fuel : nat) (size : nat) (arr : list T) :
  (0 < size)%nat → (length arr ≤ fuel)%nat →
  concat (chunk_loop fuel size arr) = arr ∧
  Forall (λ c, (1 ≤ length c ≤ size)%nat) (chunk_loop fuel size arr) ∧
  (∀ i c, chunk_loop fuel size arr !! i = Some c → is_Some (chunk_loop fuel size arr !! S i) → length c = size).
Proof.
  intros Hs. revert arr. induction fuel as [|f IH]; intros arr Hl.
  - destruct arr; [|simpl in *; lia]. split_and!; [done|constructor|intros; simplify_eq/=].
  - destruct arr as [|x arr]; [split_and!; [done|constructor|intros; simplify_eq/=]|].
    assert (length (drop size (x :: arr)) ≤ f)%nat as Hd by (rewrite length_drop; simpl in *; lia).
    destruct (IH _ Hd) as (Hc & Hf & Hn). cbn [chunk_loop]. split_and!.
    + cbn [concat]. rewrite Hc. apply take_drop.
    + constructor; [|done]. rewrite length_take. simpl. lia.
    + intros [|i] c; simpl; [|apply Hn]. intros [= <-] Hi. rewrite length_take.
      destruct (drop size (x :: arr)) as [|y r] eqn:E; [destruct f; simpl in Hi; by destruct Hi|].
      apply (f_equal length) in E. rewrite length_drop in E. simpl in *. lia.
Qed.

(** Chunking cuts an array into consecutive pieces that put together give the
    array back; no piece is empty or longer than the size, and all but the last
    have exactly the size. *)
Theorem chunk_spec {T} (arr : list T) (size : Z) :
  0 < size →
  concat (chunk arr size) = arr ∧
  Forall (λ c, 1 ≤ Z.of_nat (length c) ≤ size) (chunk arr size) ∧
  (∀ i c, chunk arr size !! i = Some c → is_Some (chunk arr size !! S i) → Z.of_nat (length c) = size).
Proof.
  intros Hs. unfold chunk. rewrite bool_decide_false by lia.
  destruct (chunk_loop_fuel (length arr) (Z.to_nat size) arr) as (Hc & Hf & Hn); [lia|lia|]. split_and!; [done| |].
  - eapply Forall_impl; [exact Hf|]. simpl. lia.
  - intros i c Hi Hi'. specialize (Hn i c Hi Hi'). lia.
Qed.

(** *** Grouping *)

Section group_lemmas.
Context {T K : Type} `{EqDecision K}.

Definition get_group (k : K) (m : list (K * list T)) : list T := default [] (snd <$> List.find (λ kg, bool_decide (kg.1 = k)) m).

Lemma push_group_keys k x (m : list (K * list T)) :
  (push_group k x m).*1 = if decide (k ∈ m.*1) then m.*1 else m.*1 ++ [k].
Proof.
  induction m as [|[k' g] m IH]; [done|]. cbn [push_group]. case_bool_decide as E.
  - subst. rewrite decide_True by (simpl; left). done.
  - rewrite !fmap_cons, IH. simpl. destruct (decide (k ∈ m.*1)); [rewrite decide_True by (right; done)|rewrite decide_False by set_solver]; done.
Qed.

Lemma push_group_get k k' x m : get_group k' (push_group k x m) = get_group k' m ++ (if decide (k = k') then [x] else []).
Proof.
  unfold get_group. induction m as [|[k0 g] m IH]; simpl.
  - case_bool_decide as E; [by rewrite decide_True|by rewrite decide_False].
  - case_bool_decide as E; simpl.
    + subst k0. case_bool_decide as E'; simpl; [by rewrite decide_True|]. rewrite decide_False by done. by rewrite app_nil_r.
    + case_bool_decide as E'; simpl; [|exact IH]. rewrite decide_False by congruence. by rewrite app_nil_r.
Qed.

Lemma groupBy_snoc (keyFn : T → K) arr x : groupBy (arr ++ [x]) keyFn = push_group (keyFn x) x (groupBy arr keyFn).
Proof. unfold groupBy. by rewrite foldl_app. Qed.

Lemma dedupe_from_snoc seen (l : list K) k :
  dedupe_from seen (l ++ [k]) = dedupe_from seen l ++ (if decide (k ∈ seen ∨ k ∈ l) then [] else [k]).
Proof.
  revert seen. induction l as [|y l IH]; intros seen; simpl.
  - destruct (decide (k ∈ seen)); [rewrite decide_True by auto|rewrite decide_False by set_solver]; done.
  - destruct (decide (y ∈ seen)) as [Hy|Hy]; rewrite IH; [|rewrite <- app_comm_cons]; do 2 f_equal; apply decide_ext; set_solver.
Qed.
End group_lemmas.

(** Grouping keeps everything and every order: the groups come in the order
    in which their keys first occur, each key once, and the group of a key is the
    list of all elements with that key, in the order of the array. *)
Theorem groupBy_spec {T K} `{EqDecision K} (arr : list T) (keyFn : T → K) :
  (groupBy arr keyFn).*1 = dedupe (keyFn <$> arr) ∧
  ∀ k, get_group k (groupBy arr keyFn) = filter (λ x, keyFn x = k) arr.
Proof.
  induction arr as [|x arr IH] using rev_ind; [done|]. destruct IH as [IHk IHg]. rewrite groupBy_snoc. split.
  - rewrite push_group_keys, IHk, fmap_app. unfold dedupe. simpl. rewrite dedupe_from_snoc.
    destruct (decide (keyFn x ∈ dedupe_from [] (keyFn <$> arr))) as [Hin|Hin]; rewrite elem_of_dedupe_from in Hin.
    + rewrite decide_True by set_solver. by rewrite app_nil_r.
    + rewrite decide_False by set_solver. done.
  - intros k. rewrite push_group_get, IHg, filter_app, filter_cons, filter_nil. by case_decide.
Qed.

(** *** Shuffling *)

Section shuffle_lemmas.
Context {T : Type}.

Lemma swap_perm i j (l : list T) : swap i j l ≡ₚ l.
Proof.
  unfold swap. destruct (l !! i) as [x|] eqn:Hi; [|done]. destruct (l !! j) as [y|] eqn:Hj; [|done].
  by apply Permutation_insert_swap.
Qed.

Lemma swap_length i j (l : list T) : length (swap i j l) = length l.
Proof. by rewrite swap_perm. Qed.

Lemma swap_at i j (l : list T) y : (i < length l)%nat → l !! j = Some y → swap i j l !! i = Some y.
Proof.
  intros Hi Hj. unfold swap. destruct (lookup_lt_is_Some_2 l i Hi) as [x ->]. rewrite Hj.
  apply list_lookup_insert_eq. by rewrite length_insert.
Qed.

Lemma swap_drop n i j (l : list T) : (i < n)%nat → (j < n)%nat → drop n (swap i j l) = drop n l.
Proof.
  intros Hi Hj. unfold swap. destruct (l !! i), (l !! j); try done. by rewrite !drop_insert_lt by done.
Qed.

Lemma shuffle_loop_perm random i (l : list T) : shuffle_loop random i l ≡ₚ l.
Proof. revert l. induction i as [|i IH]; intros l; simpl; [done|]. by rewrite IH, swap_perm. Qed.

Lemma shuffle_loop_ext r1 r2 i (l : list T) :
  (∀ k, (k ≤ i)%nat → r1 k = r2 k) → shuffle_loop r1 i l = shuffle_loop r2 i l.
Proof. revert l. induction i as [|i IH]; intros l Hr; simpl; [done|]. rewrite Hr by lia. apply IH. intros. apply Hr. lia. Qed.

(** From a copy that is right beyond [i], the loop can reach the target. *)
Lemma shuffle_loop_reaches i (copy target : list T) :
  (i < length copy)%nat → copy ≡ₚ target → drop (S i) copy = drop (S i) target →
  ∃ random, (∀ k, (random k ≤ k)%nat) ∧ shuffle_loop random i copy = target.
Proof.
  revert copy. induction i as [|i IH]; intros copy Hi Hp Hd.
  - exists (λ _, 0%nat). split; [intros; lia|]. simpl. destruct copy as [|x c]; [simpl in *; lia|].
    destruct target as [|y t]; [by apply Permutation_nil_r in Hp|]. rewrite !skipn_cons, !drop_0 in Hd. subst c.
    f_equal. change (x :: t) with ([x] ++ t) in Hp. change (y :: t) with ([y] ++ t) in Hp.
    apply Permutation_app_inv_r in Hp. by apply Permutation_singleton_inj in Hp.
  - assert (length target = length copy) as Hlen by (by rewrite Hp).
    assert (take (S (S i)) copy ≡ₚ take (S (S i)) target) as Ht.
    { apply (Permutation_app_inv_r (drop (S (S i)) copy)). rewrite Hd at 2. by rewrite !take_drop. }
    destruct (lookup_lt_is_Some_2 target (S i)) as [y Hy]; [lia|].
    assert (y ∈ take (S (S i)) copy) as Hin.
    { rewrite Ht. apply (list_elem_of_lookup_2 _ (S i)). rewrite lookup_take_lt by lia. done. }
    apply list_elem_of_lookup in Hin as [j Hj].
    assert (j < S (S i))%nat as Hji by (apply lookup_lt_Some in Hj; rewrite length_take in Hj; lia).
    rewrite lookup_take_lt in Hj by lia.
    destruct (IH (swap (S i) j copy)) as (r & Hr & Hloop).
    + rewrite swap_length. lia.
    + by rewrite swap_perm.
    + rewrite (drop_S _ y (S i)) by (apply swap_at; [lia|done]). rewrite (drop_S target y (S i)) by done.
      f_equal. rewrite swap_drop by lia. exact Hd.
    + exists (λ k, if decide (k = S i) then j else r k). split.
      * intros k. case_decide; [lia|apply Hr].
      * cbn [shuffle_loop]. rewrite decide_True by done. rewrite <- Hloop. apply shuffle_loop_ext.
        intros k Hk. by rewrite decide_False by lia.
Qed.
End shuffle_lemmas.

(** Shuffling rearranges the array whatever the random numbers are, and
    every rearrangement can come out of it. *)
Theorem shuffle_spec {T} (arr target : list T) :
  (∀ random, shuffle random arr ≡ₚ arr) ∧
  (target ≡ₚ arr → ∃ random, (∀ i, (random i ≤ i)%nat) ∧ shuffle random arr = target).
Proof.
  split; [intros random; apply shuffle_loop_perm|]. intros Hp. unfold shuffle.
  destruct arr as [|x arr]; [apply Permutation_nil_r in Hp as ->; by exists (λ _, 0%nat); split; [intros; lia|]|].
  apply shuffle_loop_reaches; [simpl; lia|done|].
  assert (length target = S (length arr)) as Hl by (by rewrite Hp). simpl pred.
  rewrite !drop_ge; [done|lia|simpl; lia].
Qed.

(** ** Concrete arrays *)

Section witnesses.
Lemma chunk_spec_witness : concat (chunk [1; 2; 3; 4; 5] 2) = [1; 2; 3; 4; 5] ∧ length (chunk [1; 2; 3; 4; 5] 2) = 3%nat.
Proof. split; [|reflexivity]. apply (chunk_spec [1; 2; 3; 4; 5] 2). lia. Defined.

Lemma shuffle_spec_witness : ∃ random, (∀ i, (random i ≤ i)%nat) ∧ shuffle random [1; 2; 3] = [3; 1; 2].
Proof. apply (shuffle_spec [1; 2; 3] [3; 1; 2]). apply (bool_decide_unpack (_ ≡ₚ _)). by vm_compute. Defined.
End witnesses.
