(* ===== verification/Achievement.v ===== *)
(** * Achievements: [server/src/services/achievement.service.ts]

    The catalog of achievements, the progress of the players, unlocking and the
    payment of rewards.  The wallet is known only through [RewardSink]: a credit
    with an idempotency key is recorded at most once.  The wallet service is an
    instance.  The methods are not transactions, so a throw keeps the writes
    made before it.  Generated ids and [randomUUID()] come from one source of
    fresh ids; the clock reads of one call are one instant. *)

From Stdlib Require Import QArith Qround.
From stdpp Require Import prelude gmap strings list pretty sorting.
From S2P Require Import Prelude JsText Prisma Wallet Json.

#[global] Open Scope Z_scope.

(** ** What paying a reward promises *)

Definition payment_record : Type := string * (string * Currency * Z).

Class RewardSink (W : Type) := {
  (** [wallet.credit(userId, currency, amount, idempotencyKey, note)] *)
  reward_credit : string → Currency → Z → string → option string → M W unit;
  (** the payments on record: key, user, currency and amount *)
  paid : W → list payment_record;
  (** a key on record is not paid again, another is recorded; a throw changes
      nothing *)
  reward_credit_spec : ∀ u c a key n w,
    post (reward_credit u c a key n) w
      (λ w' _, (key ∈ (paid w).*1 ∧ w' = w) ∨ (key ∉ (paid w).*1 ∧ paid w' = paid w ++ [(key, (u, c, a))]))
      (λ w' _, w' = w);
}.

(** [new Decimal(text)], in units of 10^-7; [None] for a text it rejects with an
    error.  Texts with more than seven decimals are not modelled. *)
Class DecimalText := decimal_text : string → option Z.

(** How PostgreSQL and [localeCompare] order names. *)
Class Collation := {
  db_name_leb : string → string → bool;
  localeCompare : string → string → Z;
}.

(** ** Data *)

Inductive AchievementCategory := COMBAT | SOCIAL | PROGRESSION | SEASONAL.

Record AchievementCatalogEntry := mkEntry {
  e_key : string;
  e_name : string;
  e_description : string;
  e_category : AchievementCategory;
  e_targetValue : Z;
  e_eventTypes : list string;
  e_rewards : json;
  e_hidden : bool;
  e_sortOrder : Z;
}.

Definition ACHIEVEMENT_CATALOG : list AchievementCatalogEntry :=
  [mkEntry "first_victory" "First Victory" "Win your first ranked match." COMBAT 1 ["MATCH_WON"]
     (JObj [("grants", JArr [JObj [("currency", JStr "AX"); ("amount", JStr "5")]]); ("badge", JStr "first_victory")]) false 10;
   mkEntry "battle_hardened" "Battle Hardened" "Complete 10 matches." PROGRESSION 10 ["MATCH_COMPLETED"]
     (JObj [("grants", JArr [JObj [("currency", JStr "AX"); ("amount", JStr "10")]]); ("badge", JStr "battle_hardened")]) false 20;
   mkEntry "arena_veteran" "Arena Veteran" "Complete 50 matches." PROGRESSION 50 ["MATCH_COMPLETED"]
     (JObj [("grants", JArr [JObj [("currency", JStr "AX"); ("amount", JStr "25")]]); ("badge", JStr "arena_veteran")]) false 30;
   mkEntry "public_face" "Public Face" "Add a bio or social link to your profile." SOCIAL 1 ["PROFILE_UPDATED"]
     (JObj [("badge", JStr "public_face")]) false 40;
   mkEntry "verified_competitor" "Verified Competitor" "Complete identity verification." PROGRESSION 1 ["KYC_APPROVED"]
     (JObj [("badge", JStr "verified_competitor")]) false 50;
   mkEntry "season_champion" "Season Champion" "Participate in a seasonal spotlight event." SEASONAL 1 ["SEASONAL_ACTIVE"]
     (JObj [("badge", JStr "season_champion")]) true 60].

Record Achievement := mkAchievement { a_id : string; a_entry : AchievementCatalogEntry }.
Definition a_targetValue (a : Achievement) : Z := e_targetValue (a_entry a).

Record PlayerAchievement := mkPlayerAchievement {
  pa_id : string;
  pa_userId : string;
  pa_achievementId : string;
  pa_progress : Z;
  pa_unlockedAt : option Z;
  pa_rewardClaimedAt : option Z;
}.

Record AchievementNotification := mkNotification {
  an_id : string;
  an_userId : string;
  an_achievementId : string;
  an_type : string;
  an_payload : json;
  an_createdAt : Z;
}.

Record AchievementShare := mkShare {
  as_id : string;
  as_userId : string;
  as_achievementId : string;
  as_shareSlug : string;
  as_caption : option string;
  as_platform : option string;
  as_createdAt : Z;
}.

Inductive GameEventType := MATCH_WON | MATCH_COMPLETED | PROFILE_UPDATED | KYC_APPROVED | SEASONAL_ACTIVE.
#[export] Instance GameEventType_eq_dec : EqDecision GameEventType.
Proof. solve_decision. Defined.

Definition GameEventType_string (t : GameEventType) : string :=
  match t with
  | MATCH_WON => "MATCH_WON" | MATCH_COMPLETED => "MATCH_COMPLETED" | PROFILE_UPDATED => "PROFILE_UPDATED"
  | KYC_APPROVED => "KYC_APPROVED" | SEASONAL_ACTIVE => "SEASONAL_ACTIVE"
  end.

Record GameEvent := mkGameEvent {
  ge_type : GameEventType;
  ge_playerId : string;
  ge_payload : jsmap json;
  ge_traceId : option string;
}.

Record RewardGrant := mkGrant { rg_currency : Currency; rg_amount : string }.

Record ADB (W : Type) := mkADB {
  ad_users : gset string;
  achievement : list Achievement;
  playerAchievement : list PlayerAchievement;
  achievementNotification : list AchievementNotification;
  achievementShare : list AchievementShare;
  ad_wallet : W;
  ad_serial : nat;
}.
Arguments mkADB {W}.
Arguments ad_users {W}. Arguments achievement {W}. Arguments playerAchievement {W}.
Arguments achievementNotification {W}. Arguments achievementShare {W}. Arguments ad_wallet {W}. Arguments ad_serial {W}.

(** ** Reward grants *)

Section grants.
Context `{DecimalText}.

Definition currency_of (s : string) : option Currency :=
  if bool_decide (s = "XLM") then Some XLM else
  if bool_decide (s = "USDC") then Some USDC else
  if bool_decide (s = "AX") then Some AX else None.

(** One iteration of the loop of [parseGrants]: the grant it pushes, if any. *)
Definition parse_item (item : json) : result (option RewardGrant) :=
  match item with
  | JObj g =>
      match map_get "currency" g, map_get "amount" g with
      | Some (JStr c), Some (JStr amount) =>
          match currency_of c with
          | None => Ok None
          | Some cur =>
              match decimal_text amount with
              | None => Throw (JsError ("[DecimalError] Invalid argument: " +:+ amount))
              | Some dec => Ok (if bool_decide (0 < dec) then Some (mkGrant cur amount) else None)
              end
          end
      | _, _ => Ok None
      end
  | _ => Ok None
  end.

Fixpoint parse_items (raw : list json) : result (list RewardGrant) :=
  match raw with
  | [] => Ok []
  | item :: rest =>
      match parse_item item with
      | Throw e => Throw e
      | Ok g =>
          match parse_items rest with
          | Throw e => Throw e
          | Ok out => Ok (option_list g ++ out)
          end
      end
  end.

Definition parseGrants (rewards : json) : result (list RewardGrant) :=
  match rewards with
  | JObj l => match map_get "grants" l with Some (JArr raw) => parse_items raw | _ => Ok [] end
  | _ => Ok []
  end.
End grants.

Definition is_true_prop (k : string) (payload : jsmap json) : bool :=
  match map_get k payload with Some (JBool b) => b | _ => false end.

Definition progressDeltaForAchievement (a : Achievement) (event : GameEvent) : Z :=
  if bool_decide (GameEventType_string (ge_type event) ∈ e_eventTypes (a_entry a)) then
    match ge_type event with
    | MATCH_WON => if is_true_prop "won" (ge_payload event) then 1 else 0
    | MATCH_COMPLETED => 1
    | PROFILE_UPDATED =>
        if is_true_prop "hasBio" (ge_payload event) || is_true_prop "hasSocialLinks" (ge_payload event) then 1 else 0
    | KYC_APPROVED => 1
    | SEASONAL_ACTIVE => 1
    end
  else 0.

(** ** The service *)

Section service.
Context `{Prisma} `{DecimalText} `{Collation} {W : Type} `{RewardSink W}.
Notation ADB := (ADB W).

Definition of_result {S A} (r : result A) : M S A := λ s, (s, r).

Definition set_achievement (l : list Achievement) (n : nat) (db : ADB) : ADB :=
  mkADB (ad_users db) l (playerAchievement db) (achievementNotification db) (achievementShare db) (ad_wallet db) n.
Definition set_progress (l : list PlayerAchievement) (n : nat) (db : ADB) : ADB :=
  mkADB (ad_users db) (achievement db) l (achievementNotification db) (achievementShare db) (ad_wallet db) n.
Definition on_wallet {X} (m : M W X) : M ADB X := λ db,
  let (w, r) := m (ad_wallet db) in
  (mkADB (ad_users db) (achievement db) (playerAchievement db) (achievementNotification db) (achievementShare db) w (ad_serial db), r).

(** [achievement.upsert]: the update writes every column but id and key. *)
Definition achievement_upsert (entry : AchievementCatalogEntry) : M ADB unit :=
  db ← get;
  let keyf := λ a, e_key (a_entry a) in
  match row_find keyf (e_key entry) (achievement db) with
  | Some _ => put (set_achievement (row_update keyf (e_key entry) (λ a, mkAchievement (a_id a) entry) (achievement db)) (ad_serial db) db)
  | None => put (set_achievement (achievement db ++ [mkAchievement (uuid (ad_serial db)) entry]) (S (ad_serial db)) db)
  end.

Definition syncCatalog : M ADB unit := for_each achievement_upsert ACHIEVEMENT_CATALOG.

Definition getAchievementById (achievementId : string) : M ADB Achievement :=
  db ← get;
  match row_find a_id achievementId (achievement db) with
  | None => throw (HttpError 404 "Achievement not found")
  | Some a => mret a
  end.

Definition calculateRewards (achievementId : string) : M ADB (list RewardGrant) :=
  a ← getAchievementById achievementId; of_result (parseGrants (e_rewards (a_entry a))).

(** [where: { userId_achievementId: { userId, achievementId } }] *)
Definition at_pair (userId achievementId : string) (r : PlayerAchievement) : bool :=
  bool_decide (pa_userId r = userId ∧ pa_achievementId r = achievementId).

Definition playerAchievement_findUnique (userId achievementId : string) : M ADB (option PlayerAchievement) :=
  gets (λ db, List.find (at_pair userId achievementId) (playerAchievement db)).

Definition update_pair (userId achievementId : string) (f : PlayerAchievement → PlayerAchievement) (l : list PlayerAchievement) :=
  (λ r, if at_pair userId achievementId r then f r else r) <$> l.

Definition playerAchievement_upsert (userId achievementId : string) (progress : Z) (unlockedAt : option Z)
    (update : PlayerAchievement → PlayerAchievement) : M ADB unit :=
  db ← get;
  match List.find (at_pair userId achievementId) (playerAchievement db) with
  | Some _ => put (set_progress (update_pair userId achievementId update (playerAchievement db)) (ad_serial db) db)
  | None =>
      if bool_decide (userId ∈ ad_users db ∧ achievementId ∈ a_id <$> achievement db) then
        put (set_progress (playerAchievement db ++
          [mkPlayerAchievement (uuid (ad_serial db)) userId achievementId progress unlockedAt None]) (S (ad_serial db)) db)
      else throw ForeignKeyViolation
  end.

Definition playerAchievement_update (userId achievementId : string) (f : PlayerAchievement → PlayerAchievement) : M ADB unit :=
  db ← get;
  match List.find (at_pair userId achievementId) (playerAchievement db) with
  | Some _ => put (set_progress (update_pair userId achievementId f (playerAchievement db)) (ad_serial db) db)
  | None => throw RecordNotFound
  end.

Definition with_progress (n : Z) (r : PlayerAchievement) : PlayerAchievement :=
  mkPlayerAchievement (pa_id r) (pa_userId r) (pa_achievementId r) n (pa_unlockedAt r) (pa_rewardClaimedAt r).
Definition unlocked_with (n : Z) (at_ : Z) (r : PlayerAchievement) : PlayerAchievement :=
  mkPlayerAchievement (pa_id r) (pa_userId r) (pa_achievementId r) n (Some at_) (pa_rewardClaimedAt r).
Definition claimed_at (at_ : Z) (r : PlayerAchievement) : PlayerAchievement :=
  mkPlayerAchievement (pa_id r) (pa_userId r) (pa_achievementId r) (pa_progress r) (pa_unlockedAt r) (Some at_).

(** [playerAchievement.update({ where: { id }, data: { rewardClaimedAt } })] *)
Definition claim (now : Z) (id : string) : M ADB unit :=
  db ← get;
  match row_find pa_id id (playerAchievement db) with
  | Some _ => put (set_progress (row_update pa_id id (claimed_at now) (playerAchievement db)) (ad_serial db) db)
  | None => throw RecordNotFound
  end.

Definition createUnlockNotification (now : Z) (playerId achievementId achievementName : string) : M ADB unit :=
  db ← get;
  let recent := head (order_by (λ a b, bool_decide (an_createdAt b ≤ an_createdAt a))
    (filter (λ n, an_userId n = playerId ∧ an_achievementId n = achievementId ∧ an_type n = "UNLOCKED") (achievementNotification db))) in
  if (if recent is Some n then bool_decide (now - an_createdAt n < 5000) else false) then mret tt else
  if bool_decide (playerId ∈ ad_users db ∧ achievementId ∈ a_id <$> achievement db) then
    put (mkADB (ad_users db) (achievement db) (playerAchievement db)
      (achievementNotification db ++ [mkNotification (uuid (ad_serial db)) playerId achievementId "UNLOCKED"
         (JObj [("title", JStr "Achievement unlocked"); ("achievementName", JStr achievementName)]) (db_now (ad_serial db))])
      (achievementShare db) (ad_wallet db) (S (ad_serial db)))
  else throw ForeignKeyViolation.

Definition reward_key (achievementId playerId : string) (g : RewardGrant) : string :=
  "achievement-reward:" +:+ achievementId +:+ ":" +:+ playerId +:+ ":" +:+ currencyName (rg_currency g) +:+ ":" +:+ rg_amount g.

Definition pay_grant (playerId achievementId name : string) (g : RewardGrant) : M ADB unit :=
  match decimal_text (rg_amount g) with
  | None => throw (JsError ("[DecimalError] Invalid argument: " +:+ rg_amount g))
  | Some dec => on_wallet (reward_credit playerId (rg_currency g) dec (reward_key achievementId playerId g)
                             (Some ("Achievement reward: " +:+ name)))
  end.

Definition unlockAchievement (now : Z) (playerId achievementId : string) : M ADB unit :=
  a ← getAchievementById achievementId;
  row ← playerAchievement_findUnique playerId achievementId;
  if (if row ≫= pa_rewardClaimedAt is Some _ then true else false) then mret tt else
  let earned := bool_decide (a_targetValue a ≤ from_option pa_progress 0 row) in
  _ ← (if negb earned then
         playerAchievement_upsert playerId achievementId (a_targetValue a) (Some now)
           (unlocked_with (a_targetValue a) (default now (row ≫= pa_unlockedAt)))
       else if row ≫= pa_unlockedAt is Some _ then mret tt
       else playerAchievement_update playerId achievementId (unlocked_with (a_targetValue a) now));
  row ← playerAchievement_findUnique playerId achievementId;
  match row with
  | Some (mkPlayerAchievement id _ _ _ (Some _) None) =>
      _ ← createUnlockNotification now playerId achievementId (e_name (a_entry a));
      grants ← of_result (parseGrants (e_rewards (a_entry a)));
      if bool_decide (length grants = 0)%nat then claim now id else
      try_catch (
        _ ← for_each (pay_grant playerId achievementId (e_name (a_entry a))) grants;
        claim now id) (λ _, mret tt)
  | _ => mret tt
  end.

(** [updateProgress]; a number that is not finite is [None]. *)
Definition updateProgress (now : Z) (playerId achievementId : string) (progress : option Q) : M ADB unit :=
  match progress with
  | Some p =>
      if bool_decide (Qnum p < 0) then throw (HttpError 400 "progress must be a non-negative number") else
      a ← getAchievementById achievementId;
      let capped := Z.min (Qfloor p) (a_targetValue a) in
      _ ← playerAchievement_upsert playerId achievementId capped None (with_progress capped);
      if bool_decide (a_targetValue a ≤ capped) then unlockAchievement now playerId achievementId else mret tt
  | None => throw (HttpError 400 "progress must be a non-negative number")
  end.

(** The body of the loop of [checkAchievements]. *)
Definition check_one (now : Z) (playerId : string) (event : GameEvent) (a : Achievement) : M ADB unit :=
  let delta := progressDeltaForAchievement a event in
  if bool_decide (delta ≤ 0) then mret tt else
  row ← playerAchievement_findUnique playerId (a_id a);
  if row ≫= pa_unlockedAt is Some _ then mret tt else
  let current := from_option pa_progress 0 row in
  let next := Z.min (current + delta) (a_targetValue a) in
  _ ← playerAchievement_upsert playerId (a_id a) next None (with_progress next);
  if bool_decide (a_targetValue a ≤ next) then unlockAchievement now playerId (a_id a) else mret tt.

Definition checkAchievements (now : Z) (playerId : string) (event : GameEvent) : M ADB unit :=
  achievements ← gets (λ db, any_order
    (filter (λ a, GameEventType_string (ge_type event) ∈ e_eventTypes (a_entry a)) (achievement db)));
  for_each (check_one now playerId event) achievements.

Definition shareAchievement (playerId achievementId : string) (caption platform : option string) : M ADB AchievementShare :=
  _ ← getAchievementById achievementId;
  row ← playerAchievement_findUnique playerId achievementId;
  match row ≫= pa_unlockedAt with
  | None => throw (HttpError 400 "Achievement must be unlocked before sharing")
  | Some _ =>
      db ← get;
      let share := mkShare (uuid (ad_serial db)) playerId achievementId (uuid (S (ad_serial db))) caption platform (db_now (ad_serial db)) in
      _ ← put (mkADB (ad_users db) (achievement db) (playerAchievement db) (achievementNotification db)
                 (achievementShare db ++ [share]) (ad_wallet db) (S (S (ad_serial db))));
      mret share
  end.

(** ** Queries *)

Record AchievementStats := mkAchievementStats {
  st_achievementId : string;
  st_playersWithProgress : nat;
  st_unlockedCount : nat;
  st_averageProgress : option Q;
  st_maxProgress : option Z;
}.

Definition getAchievementStats (achievementId : string) : M ADB AchievementStats :=
  _ ← getAchievementById achievementId;
  db ← get;
  let rows := filter (λ r, pa_achievementId r = achievementId) (playerAchievement db) in
  let progress := pa_progress <$> rows in
  mret (mkAchievementStats achievementId
    (length (filter (λ r, 0 < pa_progress r) rows)) (length (filter (λ r, is_Some (pa_unlockedAt r)) rows))
    (match progress with [] => None | _ => Some (inject_Z (zsum progress) / inject_Z (Z.of_nat (length progress)))%Q end)
    (match progress with [] => None | n :: l => Some (foldr Z.max n l) end)).

(** [orderBy: [{ sortOrder: 'asc' }, { name: 'asc' }]] *)
Definition catalog_leb : Achievement → Achievement → bool :=
  lex_leb (λ a b, Z.compare (e_sortOrder (a_entry a)) (e_sortOrder (a_entry b)))
    (λ a b, db_name_leb (e_name (a_entry a)) (e_name (a_entry b))).

Definition hidden_ (b : bool) (a : Achievement) : Prop := e_hidden (a_entry a) = b.
#[export] Instance hidden_dec b a : Decision (hidden_ b a).
Proof. unfold hidden_. apply _. Defined.

Definition listAchievements (includeHidden : bool) : M ADB (list Achievement) :=
  _ ← syncCatalog;
  gets (λ db, order_by catalog_leb (if includeHidden then achievement db else filter (hidden_ false) (achievement db))).

Record AchievementView := mkView {
  av_achievement : Achievement;
  av_progress : option Z;
  av_unlockedAt : option Z;
  av_progressHidden : bool;
}.

(** [new Map(rows.map(r => [r.achievementId, r])).get(id)]: the last row wins. *)
Definition by_achievement (rows : list PlayerAchievement) (id : string) : option PlayerAchievement :=
  map_get id (foldl (λ m r, map_set (pa_achievementId r) r m) [] rows).

Definition view_of (viewerIsOwner : bool) (row : option PlayerAchievement) (a : Achievement) : AchievementView :=
  let unlocked := if row ≫= pa_unlockedAt is Some _ then true else false in
  let progressHidden := negb viewerIsOwner && negb unlocked in
  mkView a (if progressHidden then None else Some (from_option pa_progress 0 row))
    (if unlocked then row ≫= pa_unlockedAt else None) progressHidden.

Definition view_cmp (a b : AchievementView) : Z :=
  let x := a_entry (av_achievement a) in let y := a_entry (av_achievement b) in
  if bool_decide (e_sortOrder x ≠ e_sortOrder y) then e_sortOrder x - e_sortOrder y else localeCompare (e_name x) (e_name y).

(** [viewerId && viewerId === playerId] *)
Definition is_owner (playerId : string) (viewerId : option string) : bool :=
  match truthy_str viewerId with Some v => bool_decide (v = playerId) | None => false end.

Definition getPlayerAchievements (playerId : string) (viewerId : option string) : M ADB (bool * list AchievementView) :=
  _ ← syncCatalog;
  db ← get;
  if bool_decide (playerId ∈ ad_users db) then
    let viewerIsOwner := is_owner playerId viewerId in
    let catalog := order_by catalog_leb (filter (hidden_ false) (achievement db)) in
    let rows := any_order (filter (λ r, pa_userId r = playerId) (playerAchievement db)) in
    let achievements := (λ a, view_of viewerIsOwner (by_achievement rows (a_id a)) a) <$> catalog in
    mret (viewerIsOwner,
      if viewerIsOwner then
        let hiddenCatalog := order_by catalog_leb (filter (hidden_ true) (achievement db)) in
        js_sort view_cmp (achievements ++
          ((λ a, let row := by_achievement rows (a_id a) in
                 mkView a (Some (from_option pa_progress 0 row)) (row ≫= pa_unlockedAt) false) <$> hiddenCatalog))
      else achievements)
  else throw (HttpError 404 "Player not found").
End service.

(** ** The wallet pays rewards *)

Section wallet_sink.
Context `{Prisma} `{DecimalJs}.

Definition tx_record (t : WalletTransaction) : payment_record :=
  (idempotencyKey t, (tx_userId t, currency t, amount t)).

#[export] Instance wallet_sink : RewardSink DB.
Proof.
  refine {| reward_credit := λ u c a key n, credit u c a key n ≫= λ _, mret tt;
            paid := λ db, tx_record <$> walletTransaction db |}.
  intros u c a key n db. m_step. eapply post_mono; [apply credit_post| |by intros ?? []].
  intros db' t [[Hf ->]|(Hf & He & Ht)]; m_step; rewrite <- list_fmap_compose; [left|right].
  - split; [|done]. destruct (decide (key ∈ idempotencyKey <$> walletTransaction db)) as [|Hn]; [done|].
    apply tx_find_None in Hn. congruence.
  - split; [by apply tx_find_None|]. rewrite (entry_journal _ _ _ He), fmap_app. simpl.
    destruct Ht as (<- & <- & _ & <- & <- & _). done.
Defined.
End wallet_sink.

(** ** What the achievement service guarantees

    Progress stays within its target, a reward is paid once and only for an
    unlocked achievement, a claimed reward has been paid, and the progress of a
    locked achievement is not shown to others. *)

Section spec.
Context `{Prisma} `{DecimalText} `{Collation} {W : Type} `{RewardSink W}.
Notation ADB := (ADB W).
Implicit Types (db : ADB) (r : PlayerAchievement) (a : Achievement).

(** ** The invariant *)

Definition pair_of r : string * string := (pa_userId r, pa_achievementId r).

(** Progress lies between zero and the target; a claimed reward belongs to an
    unlocked achievement and all its grants are on record. *)
Definition row_ok (us : gset string) (achs : list Achievement) (keys : list string) r : Prop :=
  pa_userId r ∈ us ∧
  ∃ a, a ∈ achs ∧ a_id a = pa_achievementId r ∧ 0 ≤ pa_progress r ≤ a_targetValue a ∧
    (is_Some (pa_rewardClaimedAt r) → is_Some (pa_unlockedAt r) ∧
      ∃ gs, parseGrants (e_rewards (a_entry a)) = Ok gs ∧
        ∀ g, g ∈ gs → reward_key (a_id a) (pa_userId r) g ∈ keys).

(** A payment is a grant of an achievement its user has unlocked. *)
Definition payment_ok (achs : list Achievement) (rows : list PlayerAchievement) (p : payment_record) : Prop :=
  ∃ a r gs g dec, a ∈ achs ∧ r ∈ rows ∧ pa_achievementId r = a_id a ∧ is_Some (pa_unlockedAt r) ∧
    parseGrants (e_rewards (a_entry a)) = Ok gs ∧ g ∈ gs ∧ decimal_text (rg_amount g) = Some dec ∧
    p = (reward_key (a_id a) (pa_userId r) g, (pa_userId r, rg_currency g, dec)).

Record ach_wf (paid0 : list payment_record) db : Prop := {
  aw_ids : NoDup (a_id <$> achievement db);
  aw_issued : Forall (issued (ad_serial db)) (a_id <$> achievement db);
  aw_catalog : Forall (λ a, a_entry a ∈ ACHIEVEMENT_CATALOG) (achievement db);
  aw_pids : NoDup (pa_id <$> playerAchievement db);
  aw_pissued : Forall (issued (ad_serial db)) (pa_id <$> playerAchievement db);
  aw_pairs : NoDup (pair_of <$> playerAchievement db);
  aw_rows : Forall (row_ok (ad_users db) (achievement db) (paid (ad_wallet db)).*1) (playerAchievement db);
  aw_paid : ∃ extra, paid (ad_wallet db) = paid0 ++ extra ∧ NoDup extra.*1 ∧
              (∀ k, k ∈ extra.*1 → k ∉ paid0.*1) ∧
              Forall (payment_ok (achievement db) (playerAchievement db)) extra;
}.

(** ** Preservation *)

Lemma row_ok_mono us achs achs' keys keys' r :
  achs ⊆ achs' → keys ⊆ keys' → row_ok us achs keys r → row_ok us achs' keys' r.
Proof.
  intros Ha Hk (Hu & a & Hin & Hid & Hp & Hc). split; [done|]. exists a. split_and!; [by apply Ha|done|lia|lia|].
  intros Hs. destruct (Hc Hs) as (Hl & gs & Hg & Hall). eauto 6.
Qed.

Lemma payment_ok_mono achs achs' rows rows' p :
  achs ⊆ achs' → (∀ r, r ∈ rows → ∃ r', r' ∈ rows' ∧ pair_of r' = pair_of r ∧ (is_Some (pa_unlockedAt r) → is_Some (pa_unlockedAt r'))) →
  payment_ok achs rows p → payment_ok achs' rows' p.
Proof.
  intros Ha Hr (a & r & gs & g & dec & Ha1 & Hr1 & Hi & Hu1 & Hg & Hin1 & Hd & ->).
  destruct (Hr r Hr1) as (r' & Hin & [= E1 E2] & Hu).
  exists a, r', gs, g, dec. rewrite E1, E2. eauto 10.
Qed.

(** Rows rewritten in place. *)
Lemma wf_map_rows paid0 db (f : PlayerAchievement → PlayerAchievement) :
  ach_wf paid0 db →
  (∀ r, pa_id (f r) = pa_id r) → (∀ r, pair_of (f r) = pair_of r) →
  (∀ r, is_Some (pa_unlockedAt r) → is_Some (pa_unlockedAt (f r))) →
  (∀ r, r ∈ playerAchievement db → row_ok (ad_users db) (achievement db) (paid (ad_wallet db)).*1 r →
        row_ok (ad_users db) (achievement db) (paid (ad_wallet db)).*1 (f r)) →
  ach_wf paid0 (set_progress (f <$> playerAchievement db) (ad_serial db) db).
Proof.
  intros [I1 I2 I3 I4 I5 I6 I7 (ex & P1 & P2 & P3 & P4)] Hid Hpair Hun Hok.
  assert (E1 : pa_id <$> (f <$> playerAchievement db) = pa_id <$> playerAchievement db)
    by (rewrite <- list_fmap_compose; apply list_fmap_ext; intros; apply Hid).
  assert (E2 : pair_of <$> (f <$> playerAchievement db) = pair_of <$> playerAchievement db)
    by (rewrite <- list_fmap_compose; apply list_fmap_ext; intros; apply Hpair).
  split; simpl; rewrite ?E1, ?E2; auto.
  - rewrite Forall_forall in I7 |- *. intros r' (r & -> & Hr)%list_elem_of_fmap. auto.
  - exists ex. split_and!; auto. eapply Forall_impl; [exact P4|]. intros p. apply payment_ok_mono; [done|].
    intros r Hr. exists (f r). split; [by apply list_elem_of_fmap_2|]. auto.
Qed.

(** A new row for a pair that has none. *)
Lemma wf_new_row paid0 db u i n un a :
  ach_wf paid0 db → u ∈ ad_users db → a ∈ achievement db → a_id a = i → 0 ≤ n ≤ a_targetValue a →
  (u, i) ∉ pair_of <$> playerAchievement db →
  ach_wf paid0 (set_progress (playerAchievement db ++
    [mkPlayerAchievement (uuid (ad_serial db)) u i n un None]) (S (ad_serial db)) db).
Proof.
  intros [I1 I2 I3 I4 I5 I6 I7 (ex & P1 & P2 & P3 & P4)] Hu Ha Hi Hn Hnew.
  split; simpl; rewrite ?fmap_app; simpl; auto with arenax.
  - apply NoDup_app. split_and!; [done| |apply NoDup_singleton]. by intros x Hx ->%list_elem_of_singleton.
  - apply Forall_app. split; [done|]. apply Forall_singleton. split; [done|]. exists a.
    split_and!; try done; simpl; try lia. by intros [? [=]].
  - exists ex. split_and!; auto. eapply Forall_impl; [exact P4|]. intros p. apply payment_ok_mono; [done|].
    intros r Hr. exists r. rewrite elem_of_app. auto.
Qed.

(** A credit: recorded once, for a grant of an unlocked achievement. *)
Lemma wf_wallet paid0 db w p :
  ach_wf paid0 db → paid w = paid (ad_wallet db) ++ [p] → p.1 ∉ (paid (ad_wallet db)).*1 →
  payment_ok (achievement db) (playerAchievement db) p →
  ach_wf paid0 (mkADB (ad_users db) (achievement db) (playerAchievement db) (achievementNotification db)
    (achievementShare db) w (ad_serial db)).
Proof.
  intros [I1 I2 I3 I4 I5 I6 I7 (ex & P1 & P2 & P3 & P4)] Hw Hp Hok. split; simpl; auto.
  - eapply Forall_impl; [exact I7|]. intros r. apply row_ok_mono; [done|]. rewrite Hw, fmap_app. set_solver.
  - rewrite P1, fmap_app, not_elem_of_app in Hp. destruct Hp as [Hp0 Hpe].
    exists (ex ++ [p]). rewrite Hw, P1, fmap_app. simpl. split_and!.
    + by rewrite app_assoc.
    + apply NoDup_app. split_and!; [done| |apply NoDup_singleton]. by intros x Hx ->%list_elem_of_singleton.
    + intros k [Hk|Hk]%elem_of_app; [by apply P3|]. by apply list_elem_of_singleton in Hk as ->.
    + apply Forall_app. by rewrite Forall_singleton.
Qed.

(** The tables the invariant does not speak about. *)
Lemma wf_frame paid0 db ns sh n :
  ach_wf paid0 db → (ad_serial db ≤ n)%nat →
  ach_wf paid0 (mkADB (ad_users db) (achievement db) (playerAchievement db) ns sh (ad_wallet db) n).
Proof.
  intros [I1 I2 I3 I4 I5 I6 I7 I8] Hn. split; simpl; auto.
  - eapply Forall_impl; [exact I2|]. intros i (k & ? & ?). exists k. split; [lia|done].
  - eapply Forall_impl; [exact I5|]. intros i (k & ? & ?). exists k. split; [lia|done].
Qed.

Lemma catalog_key_inj e e' : e ∈ ACHIEVEMENT_CATALOG → e' ∈ ACHIEVEMENT_CATALOG → e_key e = e_key e' → e = e'.
Proof.
  intros He He' Hk.
  repeat (apply elem_of_cons in He as [->|He]; [|]); [..|by apply elem_of_nil in He];
  repeat (apply elem_of_cons in He' as [->|He']; [|]); try done; by apply elem_of_nil in He'.
Qed.

Lemma preserves_upsert_entry paid0 e : e ∈ ACHIEVEMENT_CATALOG → preserves (ach_wf paid0) (achievement_upsert e).
Proof.
  intros He. apply preserves_get_bind. intros db Hwf. cbv zeta.
  pose proof Hwf as [I1 I2 I3 I4 I5 I6 I7 (ex & P1 & P2 & P3 & P4)].
  destruct (row_find _ _ _) as [row|] eqn:Hf; m_step.
  - assert (row_update (λ a, e_key (a_entry a)) (e_key e) (λ a, mkAchievement (a_id a) e) (achievement db) = achievement db) as ->.
    { unfold row_update. rewrite <- (list_fmap_id (achievement db)) at 2. apply list_fmap_ext. intros j a Ha.
      case_bool_decide as Hk; [|done]. rewrite Forall_forall in I3. destruct a as [i e']. unfold id. simpl in *. f_equal.
      apply catalog_key_inj; [done| |done]. apply (I3 (mkAchievement i e')). by eapply list_elem_of_lookup_2. }
    by split; simpl; eauto 10.
  - split; simpl; rewrite ?fmap_app; simpl; auto with arenax.
    + apply Forall_app. by rewrite Forall_singleton.
    + eapply Forall_impl; [exact I7|]. intros r. apply row_ok_mono; set_solver.
    + exists ex. split_and!; auto. eapply Forall_impl; [exact P4|]. intros p. apply payment_ok_mono; [set_solver|eauto].
Qed.

Lemma preserves_sync paid0 : preserves (ach_wf paid0) syncCatalog.
Proof. apply preserves_for_each. intros e He. by apply preserves_upsert_entry. Qed.

Lemma target_positive paid0 db a : ach_wf paid0 db → a ∈ achievement db → 1 ≤ a_targetValue a.
Proof.
  intros Hwf Ha. pose proof (aw_catalog _ _ Hwf) as Hc. rewrite Forall_forall in Hc. specialize (Hc a Ha).
  unfold a_targetValue. assert (Forall (λ e, 1 ≤ e_targetValue e) ACHIEVEMENT_CATALOG) as Hf by (repeat constructor; simpl; lia).
  rewrite Forall_forall in Hf. by apply Hf.
Qed.

(** The achievement a row belongs to is the one with its id. *)
Lemma row_ok_at us achs keys r a :
  NoDup (a_id <$> achs) → a ∈ achs → pa_achievementId r = a_id a → row_ok us achs keys r →
  pa_userId r ∈ us ∧ 0 ≤ pa_progress r ≤ a_targetValue a ∧
  (is_Some (pa_rewardClaimedAt r) → is_Some (pa_unlockedAt r) ∧
     ∃ gs, parseGrants (e_rewards (a_entry a)) = Ok gs ∧ ∀ g, g ∈ gs → reward_key (a_id a) (pa_userId r) g ∈ keys).
Proof.
  intros Hnd Ha Hi (Hu & a' & Ha' & Hi' & Hp & Hc).
  assert (a' = a) as -> by (eapply (NoDup_key_inj a_id); eauto; congruence). done.
Qed.

Lemma row_ok_progress us achs keys r a n un cl :
  NoDup (a_id <$> achs) → a ∈ achs → pa_achievementId r = a_id a → row_ok us achs keys r → 0 ≤ n ≤ a_targetValue a →
  (is_Some (pa_unlockedAt r) → is_Some un) →
  (is_Some cl → is_Some (pa_rewardClaimedAt r) ∨ is_Some un ∧
     ∃ gs, parseGrants (e_rewards (a_entry a)) = Ok gs ∧ ∀ g, g ∈ gs → reward_key (a_id a) (pa_userId r) g ∈ keys) →
  row_ok us achs keys (mkPlayerAchievement (pa_id r) (pa_userId r) (pa_achievementId r) n un cl).
Proof.
  intros Hnd Ha Hi Hr Hn Hun Hcl. destruct (row_ok_at _ _ _ _ _ Hnd Ha Hi Hr) as (Hu & _ & Hc).
  split; [done|]. exists a. split_and!; try done; simpl; try lia.
  intros [Hs|[Hs Hg]]%Hcl; [destruct (Hc Hs) as [Hl Hg]|]; eauto.
Qed.

Lemma at_pair_true u i r : at_pair u i r = true ↔ pair_of r = (u, i).
Proof. unfold at_pair, pair_of. rewrite bool_decide_eq_true. naive_solver. Qed.

Lemma find_pair_None u i l : List.find (at_pair u i) l = None ↔ (u, i) ∉ pair_of <$> l.
Proof.
  induction l as [|r l IH]; simpl; [set_solver|]. rewrite not_elem_of_cons.
  destruct (at_pair u i r) eqn:E; [apply at_pair_true in E; naive_solver|].
  rewrite <- IH. assert (pair_of r ≠ (u, i)) by (rewrite <- at_pair_true; congruence). naive_solver.
Qed.

Lemma find_pair_Some u i l r : List.find (at_pair u i) l = Some r → r ∈ l ∧ pair_of r = (u, i).
Proof. intros [Hin Hb]%find_some. by rewrite list_elem_of_In, <- at_pair_true. Qed.

(** Changing the row of one pair, in a way its achievement allows. *)
Lemma wf_update_pair paid0 db u a f :
  ach_wf paid0 db → a ∈ achievement db →
  (∀ r, pa_id (f r) = pa_id r) → (∀ r, pair_of (f r) = pair_of r) →
  (∀ r, is_Some (pa_unlockedAt r) → is_Some (pa_unlockedAt (f r))) →
  (∀ r, pa_achievementId r = a_id a → row_ok (ad_users db) (achievement db) (paid (ad_wallet db)).*1 r →
        row_ok (ad_users db) (achievement db) (paid (ad_wallet db)).*1 (f r)) →
  ach_wf paid0 (set_progress (update_pair u (a_id a) f (playerAchievement db)) (ad_serial db) db).
Proof.
  intros Hwf Ha Hid Hp Hu Hok. apply (wf_map_rows paid0 db (λ r, if at_pair u (a_id a) r then f r else r)); [done|..];
    intros r; destruct (at_pair u (a_id a) r) eqn:E; auto.
  intros _. apply Hok. apply at_pair_true in E. unfold pair_of in E. congruence.
Qed.

Lemma find_pair_fmap u i (g : PlayerAchievement → PlayerAchievement) l :
  (∀ r, pair_of (g r) = pair_of r) → List.find (at_pair u i) (g <$> l) = g <$> List.find (at_pair u i) l.
Proof.
  intros Hg. induction l as [|r l IH]; [done|]. simpl.
  assert (at_pair u i (g r) = at_pair u i r) as ->; [|by destruct (at_pair u i r)].
  apply eq_true_iff_eq. by rewrite !at_pair_true, Hg.
Qed.

Lemma find_update_pair u i f l :
  (∀ r, pair_of (f r) = pair_of r) → List.find (at_pair u i) (update_pair u i f l) = f <$> List.find (at_pair u i) l.
Proof.
  intros Hf. unfold update_pair. rewrite find_pair_fmap by (intros r; by destruct (at_pair u i r)).
  destruct (List.find (at_pair u i) l) as [r|] eqn:E; [|done]. apply find_some in E as [_ E]. simpl. by rewrite E.
Qed.

Definition same_catalog db db' : Prop := achievement db' = achievement db ∧ ad_users db' = ad_users db.

(** The row of a pair after an upsert. *)
Definition upserted (u i : string) (n : Z) (un : option Z) (f : PlayerAchievement → PlayerAchievement) db : PlayerAchievement :=
  from_option f (mkPlayerAchievement (uuid (ad_serial db)) u i n un None) (List.find (at_pair u i) (playerAchievement db)).

Lemma post_upsert paid0 db u a n un f :
  ach_wf paid0 db → a ∈ achievement db → 0 ≤ n ≤ a_targetValue a →
  (∀ r, pa_id (f r) = pa_id r) → (∀ r, pair_of (f r) = pair_of r) →
  (∀ r, is_Some (pa_unlockedAt r) → is_Some (pa_unlockedAt (f r))) →
  (∀ r, pa_achievementId r = a_id a → row_ok (ad_users db) (achievement db) (paid (ad_wallet db)).*1 r →
        row_ok (ad_users db) (achievement db) (paid (ad_wallet db)).*1 (f r)) →
  post (playerAchievement_upsert u (a_id a) n un f) db
    (λ db' _, ach_wf paid0 db' ∧ same_catalog db db' ∧
       List.find (at_pair u (a_id a)) (playerAchievement db') = Some (upserted u (a_id a) n un f db))
    (λ db' _, ach_wf paid0 db' ∧ u ∉ ad_users db).
Proof.
  intros Hwf Ha Hn Hid Hp Hu Hok. unfold playerAchievement_upsert, upserted. m_step. m_step.
  destruct (List.find _ _) as [r|] eqn:Hf.
  - m_step. split_and!; [by apply wf_update_pair|done..|]. simpl. by rewrite find_update_pair, Hf.
  - case_bool_decide as Hfk; m_step.
    + split_and!; [|done..|].
      * apply (wf_new_row _ _ _ _ _ _ a); try done; [by destruct Hfk|]. by apply find_pair_None.
      * simpl. apply find_pair_None in Hf. induction (playerAchievement db) as [|r l IH]; simpl in *.
        -- unfold at_pair. simpl. by rewrite bool_decide_true.
        -- destruct (at_pair u (a_id a) r) eqn:E; [|apply IH; set_solver].
           apply at_pair_true in E. rewrite E in Hf. set_solver.
    + split; [done|]. intros Hin. apply Hfk. split; [done|]. by apply list_elem_of_fmap_2.
Qed.

Lemma post_with_progress paid0 db u a n :
  ach_wf paid0 db → a ∈ achievement db → 0 ≤ n ≤ a_targetValue a →
  post (playerAchievement_upsert u (a_id a) n None (with_progress n)) db
    (λ db' _, ach_wf paid0 db' ∧ same_catalog db db' ∧
       List.find (at_pair u (a_id a)) (playerAchievement db') = Some (upserted u (a_id a) n None (with_progress n) db))
    (λ db' _, ach_wf paid0 db' ∧ u ∉ ad_users db).
Proof.
  intros Hwf Ha Hn. apply post_upsert; auto. intros r Hi Hr.
  apply (row_ok_progress _ _ _ _ a); auto. apply (aw_ids _ _ Hwf).
Qed.

Lemma wf_unlocked_with paid0 db a t r :
  ach_wf paid0 db → a ∈ achievement db → pa_achievementId r = a_id a →
  row_ok (ad_users db) (achievement db) (paid (ad_wallet db)).*1 r →
  row_ok (ad_users db) (achievement db) (paid (ad_wallet db)).*1 (unlocked_with (a_targetValue a) t r).
Proof.
  intros Hwf Ha Hi Hr. apply (row_ok_progress _ _ _ _ a); auto.
  - apply (aw_ids _ _ Hwf).
  - pose proof (target_positive _ _ _ Hwf Ha). lia.
Qed.

(** ** Paying and claiming *)

(** The wallet accepts every credit. *)
Definition accepts : Prop := ∀ u c n key t w, ∃ w', reward_credit u c n key t w = (w', Ok tt).

(** The unlocked row of a player in a state with the same catalog. *)
Definition unlocked_row u a db db' : Prop :=
  same_catalog db db' ∧ ∃ r, List.find (at_pair u (a_id a)) (playerAchievement db') = Some r ∧ is_Some (pa_unlockedAt r).

Lemma post_pay paid0 db u a gs g :
  ach_wf paid0 db → a ∈ achievement db → parseGrants (e_rewards (a_entry a)) = Ok gs → g ∈ gs →
  is_Some (decimal_text (rg_amount g)) → unlocked_row u a db db →
  post (pay_grant u (a_id a) (e_name (a_entry a)) g) db
    (λ db' _, ach_wf paid0 db' ∧ same_catalog db db' ∧ playerAchievement db' = playerAchievement db ∧
       (paid (ad_wallet db)).*1 ⊆ (paid (ad_wallet db')).*1 ∧ reward_key (a_id a) u g ∈ (paid (ad_wallet db')).*1)
    (λ db' _, db' = db ∧ ¬ accepts).
Proof.
  intros Hwf Ha Hgs Hg [dec Hd] (_ & r & Hr & Hun). unfold pay_grant. rewrite Hd. unfold on_wallet, post.
  pose proof (reward_credit_spec u (rg_currency g) dec (reward_key (a_id a) u g)
    (Some ("Achievement reward: " +:+ e_name (a_entry a))) (ad_wallet db)) as Hs. unfold post in Hs.
  destruct (reward_credit _ _ _ _ _ _) as [w [[]|e]] eqn:E.
  - destruct Hs as [[Hk ->]|[Hk Hw]]; [by destruct db|].
    apply find_pair_Some in Hr as [Hin Hp]. split_and!; try done; simpl.
    + apply (wf_wallet _ _ _ _ Hwf Hw); [done|]. exists a, r, gs, g, dec. unfold pair_of in Hp. simplify_eq. naive_solver.
    + rewrite Hw, fmap_app. set_solver.
    + rewrite Hw, fmap_app. set_solver.
  - split; [rewrite Hs; by destruct db|]. intros Hacc. destruct (Hacc u (rg_currency g) dec (reward_key (a_id a) u g)
      (Some ("Achievement reward: " +:+ e_name (a_entry a))) (ad_wallet db)) as [w' Hw']. congruence.
Qed.

Lemma parse_items_decimal raw gs g : parse_items raw = Ok gs → g ∈ gs → is_Some (decimal_text (rg_amount g)).
Proof.
  revert gs. induction raw as [|item raw IH]; intros gs; simpl; [intros [= <-]; set_solver|].
  destruct (parse_item item) as [o|] eqn:Ho; [|done]. destruct (parse_items raw) as [out|] eqn:Hout; [|done].
  intros [= <-] [Hg|Hg]%elem_of_app; [|by eapply IH]. destruct o as [g'|]; simpl in Hg; [|set_solver].
  apply list_elem_of_singleton in Hg as ->. unfold parse_item in Ho. repeat case_match; simplify_eq; simpl; eauto.
Qed.

Lemma parseGrants_decimal rewards gs g : parseGrants rewards = Ok gs → g ∈ gs → is_Some (decimal_text (rg_amount g)).
Proof. unfold parseGrants. repeat case_match; try (intros [= <-]; set_solver). apply parse_items_decimal. Qed.

Lemma same_catalog_trans db1 db2 db3 : same_catalog db1 db2 → same_catalog db2 db3 → same_catalog db1 db3.
Proof. unfold same_catalog. intros [-> ->] [-> ->]. done. Qed.

Lemma post_pay_all paid0 u a gs gs' db :
  ach_wf paid0 db → a ∈ achievement db → parseGrants (e_rewards (a_entry a)) = Ok gs → gs' ⊆ gs → unlocked_row u a db db →
  post (for_each (pay_grant u (a_id a) (e_name (a_entry a))) gs') db
    (λ db' _, ach_wf paid0 db' ∧ same_catalog db db' ∧ playerAchievement db' = playerAchievement db ∧
       (paid (ad_wallet db)).*1 ⊆ (paid (ad_wallet db')).*1 ∧
       ∀ g, g ∈ gs' → reward_key (a_id a) u g ∈ (paid (ad_wallet db')).*1)
    (λ db' _, ach_wf paid0 db' ∧ same_catalog db db' ∧ playerAchievement db' = playerAchievement db ∧ ¬ accepts).
Proof.
  intros Hwf Ha Hgs. revert db Hwf Ha. induction gs' as [|g gs' IH]; intros db Hwf Ha Hsub Hrow; simpl.
  { m_step. split_and!; try done. set_solver. }
  assert (Hg : g ∈ gs) by set_solver. m_step.
  eapply post_mono; [apply (post_pay paid0 db u a gs g); eauto using parseGrants_decimal| |].
  - intros db1 [] (Hwf1 & Hs1 & Hr1 & Hk1 & Hkey). pose proof Hs1 as [Ea Eu].
    eapply post_mono; [apply IH; rewrite ?Ea; auto; [set_solver|]| |]; cbv beta.
    + destruct Hrow as (_ & Hrow). split; [done|]. by rewrite Hr1.
    + intros db2 _ (Hwf2 & Hs2 & Hr2 & Hk2 & Hkeys). split_and!; eauto using same_catalog_trans; [congruence|set_solver|].
      intros g' [->|Hg']%elem_of_cons; [by apply Hk2|by apply Hkeys].
    + intros db2 _ (Hwf2 & Hs2 & Hr2 & Hacc). split_and!; eauto using same_catalog_trans. congruence.
  - intros db1 _ [-> Hacc]. done.
Qed.

Lemma post_claim paid0 now u a r gs db :
  ach_wf paid0 db → a ∈ achievement db → List.find (at_pair u (a_id a)) (playerAchievement db) = Some r →
  is_Some (pa_unlockedAt r) → parseGrants (e_rewards (a_entry a)) = Ok gs →
  (∀ g, g ∈ gs → reward_key (a_id a) u g ∈ (paid (ad_wallet db)).*1) →
  post (claim now (pa_id r)) db
    (λ db' _, ach_wf paid0 db' ∧ same_catalog db db' ∧
       List.find (at_pair u (a_id a)) (playerAchievement db') = Some (claimed_at now r))
    (λ _ _, False).
Proof.
  intros Hwf Ha Hf Hun Hgs Hkeys. apply find_pair_Some in Hf as Hr. destruct Hr as [Hr Hp].
  unfold claim. m_step. m_step. rewrite (row_find_elem pa_id (pa_id r) _ r) by (done || apply (aw_pids _ _ Hwf)). m_step.
  split_and!; try done; simpl.
  - apply (wf_map_rows paid0 db (λ r', if bool_decide (pa_id r' = pa_id r) then claimed_at now r' else r')); [done|..];
      intros r'; case_bool_decide as Hid; auto.
    intros Hin Hok. assert (r' = r) as -> by (eapply (NoDup_key_inj pa_id); eauto; apply (aw_pids _ _ Hwf)).
    unfold pair_of in Hp. injection Hp as Hu Hi.
    pose proof (row_ok_at _ _ _ _ _ (aw_ids _ _ Hwf) Ha Hi Hok) as (_ & Hpr & _).
    apply (row_ok_progress _ _ _ _ a); auto; [apply (aw_ids _ _ Hwf)|]. intros _. right. split; [done|]. rewrite Hu. eauto.
  - unfold row_update. rewrite find_pair_fmap by (intros r'; by case_bool_decide). rewrite Hf. simpl. by rewrite bool_decide_true.
Qed.

Lemma post_notification paid0 now u a name db :
  ach_wf paid0 db → a ∈ achievement db →
  post (createUnlockNotification now u (a_id a) name) db
    (λ db' _, ach_wf paid0 db' ∧ same_catalog db db' ∧ playerAchievement db' = playerAchievement db)
    (λ db' _, ach_wf paid0 db' ∧ u ∉ ad_users db).
Proof.
  intros Hwf Ha. unfold createUnlockNotification. m_step. m_step. cbv zeta.
  destruct (if head _ is Some _ then _ else _); [by m_step|]. case_bool_decide as Hfk; m_step.
  - split_and!; [apply wf_frame; [done|lia]|done..].
  - split; [done|]. intros Hu. apply Hfk. split; [done|]. by apply list_elem_of_fmap_2.
Qed.

(** ** Unlocking *)

Definition unlock_ok (paid0 : list payment_record) u a db db' : Prop :=
  ach_wf paid0 db' ∧ same_catalog db db' ∧
  ∃ r, List.find (at_pair u (a_id a)) (playerAchievement db') = Some r ∧ is_Some (pa_unlockedAt r) ∧
    (accepts → is_Some (pa_rewardClaimedAt r)).

Definition unlock_refused (paid0 : list payment_record) u a db db' : Prop :=
  ach_wf paid0 db' ∧ ¬ (u ∈ ad_users db ∧ ∃ gs, parseGrants (e_rewards (a_entry a)) = Ok gs).

(** From the second look at the row on. *)
Lemma post_distribute paid0 now u a r db :
  ach_wf paid0 db → a ∈ achievement db → List.find (at_pair u (a_id a)) (playerAchievement db) = Some r →
  is_Some (pa_unlockedAt r) →
  post (_ ← createUnlockNotification now u (a_id a) (e_name (a_entry a));
        grants ← of_result (parseGrants (e_rewards (a_entry a)));
        if bool_decide (length grants = 0)%nat then claim now (pa_id r) else
        try_catch (
          _ ← for_each (pay_grant u (a_id a) (e_name (a_entry a))) grants;
          claim now (pa_id r)) (λ _, mret tt)) db
    (λ db' _, unlock_ok paid0 u a db db') (λ db' _, unlock_refused paid0 u a db db').
Proof.
  intros Hwf Ha Hf Hun. m_step. eapply post_mono; [by apply post_notification| |].
  2:{ intros db1 _ [Hwf1 Hu]. split; [done|]. by intros [? _]. }
  intros db1 _ (Hwf1 & Hs1 & Hr1). pose proof Hs1 as [Ea Eu]. rewrite <- Hr1 in Hf. rewrite <- Ea in Ha. m_step.
  destruct (parseGrants (e_rewards (a_entry a))) as [gs|e] eqn:Hgs; unfold of_result, post at 1.
  2:{ split; [done|]. intros [_ [gs Hg]]. congruence. }
  assert (Hclaim : ∀ db2, ach_wf paid0 db2 → same_catalog db1 db2 → playerAchievement db2 = playerAchievement db1 →
    (∀ g, g ∈ gs → reward_key (a_id a) u g ∈ (paid (ad_wallet db2)).*1) →
    post (claim now (pa_id r)) db2 (λ db' _, unlock_ok paid0 u a db db') (λ _ _, False)).
  { intros db2 Hwf2 Hs2 Hr2 Hk. pose proof Hs2 as [Ea2 _].
    eapply post_mono; [apply (post_claim paid0 now u a r gs); rewrite ?Ea2, ?Hr2; auto| |done].
    intros db3 _ (Hwf3 & Hs3 & Hf3). split_and!; [done|eauto using same_catalog_trans..|]. exists (claimed_at now r). eauto. }
  case_bool_decide as Hlen.
  - eapply post_mono; [apply Hclaim; try done|done|done]. intros g Hg. by destruct gs; [apply elem_of_nil in Hg|].
  - m_step. m_step. eapply post_mono; [eapply (post_pay_all paid0 u a gs); eauto; split; eauto; done| |].
    + intros db2 _ (Hwf2 & Hs2 & Hr2 & _ & Hk). eapply post_mono; [by apply Hclaim|done|done].
    + intros db2 _ (Hwf2 & Hs2 & Hr2 & Hacc). m_step. split_and!; [done|eauto using same_catalog_trans..|].
      exists r. rewrite Hr2. done.
Qed.

Lemma post_unlock paid0 now u a db :
  ach_wf paid0 db → a ∈ achievement db →
  post (unlockAchievement now u (a_id a)) db
    (λ db' _, unlock_ok paid0 u a db db') (λ db' _, unlock_refused paid0 u a db db').
Proof.
  intros Hwf Ha. pose proof (target_positive _ _ _ Hwf Ha) as Ht.
  unfold unlockAchievement, getAchievementById. m_step. m_step. m_step.
  rewrite (row_find_elem a_id (a_id a) _ a) by (done || apply (aw_ids _ _ Hwf)). m_step.
  unfold playerAchievement_findUnique. m_step. m_step.
  set (row := List.find (at_pair u (a_id a)) (playerAchievement db)).
  assert (Hok : ∀ r, row = Some r → row_ok (ad_users db) (achievement db) (paid (ad_wallet db)).*1 r ∧ pair_of r = (u, a_id a)).
  { intros r [Hr Hp]%find_pair_Some. split; [|done]. pose proof (aw_rows _ _ Hwf) as Hrows. rewrite Forall_forall in Hrows. auto. }
  destruct (row ≫= pa_rewardClaimedAt) as [t|] eqn:Hcl.
  { m_step. destruct row as [r|] eqn:Hrow; [|done]. destruct (Hok r eq_refl) as [Hr [= _ Hi]].
    destruct (row_ok_at _ _ _ _ _ (aw_ids _ _ Hwf) Ha Hi Hr) as (_ & _ & Hc). destruct Hc as [Hun _]; [simpl in Hcl; by rewrite Hcl|].
    split_and!; [done..|]. exists r. split_and!; [done..|]. intros _. simpl in Hcl. by rewrite Hcl. }
  cbv zeta. m_step.
  eapply (post_mono _ _ (λ db' _, ach_wf paid0 db' ∧ same_catalog db db' ∧
    ∃ r, List.find (at_pair u (a_id a)) (playerAchievement db') = Some r ∧ is_Some (pa_unlockedAt r)) _
    (λ db' _, ach_wf paid0 db' ∧ u ∉ ad_users db)).
  3:{ intros db' _ [Hwf' Hu]. split; [done|]. by intros [? _]. }
  - case_bool_decide as Hearned; simpl.
    + destruct row as [r|] eqn:Hrow; simpl in *; [|lia]. destruct (pa_unlockedAt r) as [t|] eqn:Hun.
      { m_step. split_and!; [done..|]. exists r. by rewrite Hun. }
      unfold playerAchievement_update. m_step. m_step. fold row. rewrite Hrow. m_step. split_and!; [|done..|].
      * apply wf_update_pair; auto. intros r' Hi Hr'. by eapply wf_unlocked_with.
      * simpl. rewrite find_update_pair by done. fold row. rewrite Hrow. simpl. eauto.
    + eapply post_mono; [apply (post_upsert paid0 db u a); [done|done|lia|done|done|by intros; eexists|]| |done].
      * intros r Hi Hr. by eapply wf_unlocked_with.
      * intros db' _ (Hwf' & Hs' & Hf'). split_and!; [done..|]. rewrite Hf'. eexists. split; [done|].
        unfold upserted. destruct (List.find _ _); simpl; eauto.
  - intros db1 _ (Hwf1 & Hs1 & r & Hf1 & Hun1). m_step. m_step. rewrite Hf1. pose proof Hs1 as [Ea Eu].
    destruct r as [id u' i' n [un|] [cl|]]; simpl in Hun1; try by destruct Hun1.
    { m_step. split_and!; [done..|]. eexists. split_and!; [done|done|by eexists]. }
    rewrite <- Ea in Ha. pose proof (post_distribute paid0 now u a _ db1 Hwf1 Ha Hf1 Hun1) as Hd. cbn [pa_id] in Hd.
    eapply post_mono; [exact Hd| |].
    + intros db2 _ (Hwf2 & Hs2 & Hr2). split_and!; [done|eauto using same_catalog_trans..].
    + intros db2 _ [Hwf2 Hn]. split; [done|]. by rewrite <- Eu.
Qed.

Lemma unlock_missing now u i db :
  i ∉ a_id <$> achievement db → unlockAchievement now u i db = (db, Throw (HttpError 404 "Achievement not found")).
Proof.
  intros Hi. apply row_find_None in Hi. unfold unlockAchievement, getAchievementById, mbind, M_bind, get. by rewrite Hi.
Qed.

Lemma preserves_unlock paid0 now u i : preserves (ach_wf paid0) (unlockAchievement now u i).
Proof.
  intros db Hwf. destruct (decide (i ∈ a_id <$> achievement db)) as [(a & -> & Ha)%list_elem_of_fmap|Hi].
  - eapply post_mono; [by apply post_unlock|by intros ?? []|by intros ?? []].
  - unfold post. by rewrite unlock_missing.
Qed.

Lemma preserves_get_by_id paid0 i : preserves (ach_wf paid0) (getAchievementById i).
Proof. apply preserves_get_bind. intros db Hwf. destruct (row_find _ _ _); by m_step. Qed.

(** Writing a progress value and unlocking when it reaches the target. *)
Lemma post_write_progress paid0 now u a n db :
  ach_wf paid0 db → a ∈ achievement db → 0 ≤ n ≤ a_targetValue a →
  post (_ ← playerAchievement_upsert u (a_id a) n None (with_progress n);
        if bool_decide (a_targetValue a ≤ n) then unlockAchievement now u (a_id a) else mret tt) db
    (λ db' _, ach_wf paid0 db' ∧ same_catalog db db') (λ db' _, ach_wf paid0 db').
Proof.
  intros Hwf Ha Hn. m_step. eapply post_mono; [by apply post_with_progress| |by intros ?? []].
  intros db1 _ (Hwf1 & Hs1 & _). pose proof Hs1 as [Ea _]. case_bool_decide; [|by m_step].
  eapply post_mono; [apply (post_unlock paid0 now u a db1 Hwf1); by rewrite Ea| |by intros ?? []].
  intros db2 _ (Hwf2 & Hs2 & _). eauto using same_catalog_trans.
Qed.

Lemma preserves_updateProgress paid0 now u i p : preserves (ach_wf paid0) (updateProgress now u i p).
Proof.
  destruct p as [p|]; [|apply preserves_throw]. unfold updateProgress. case_bool_decide as Hp; [apply preserves_throw|].
  intros db Hwf. unfold getAchievementById. m_step. m_step. m_step.
  destruct (row_find a_id i (achievement db)) as [a|] eqn:Hf; m_step; [|done].
  apply row_find_Some in Hf as [Ha <-]. cbv zeta. pose proof (target_positive _ _ _ Hwf Ha).
  assert (0 ≤ Qfloor p) by (rewrite <- (Qfloor_Z 0); apply Qfloor_resp_le; unfold Qle; simpl; lia).
  eapply post_mono; [apply post_write_progress; [done|done|lia]|by intros ?? []|done].
Qed.

Lemma progress_delta_nonneg a e : 0 ≤ progressDeltaForAchievement a e.
Proof. unfold progressDeltaForAchievement. repeat case_match; lia. Qed.

Lemma post_check_one paid0 now u e a db :
  ach_wf paid0 db → a ∈ achievement db →
  post (check_one now u e a) db (λ db' _, ach_wf paid0 db' ∧ same_catalog db db') (λ db' _, ach_wf paid0 db').
Proof.
  intros Hwf Ha. unfold check_one. cbv zeta. case_bool_decide as Hd; [by m_step|].
  unfold playerAchievement_findUnique. m_step. m_step. destruct (_ ≫= pa_unlockedAt) eqn:Hun; [by m_step|].
  apply post_write_progress; [done|done|]. pose proof (target_positive _ _ _ Hwf Ha).
  assert (0 ≤ from_option pa_progress 0 (List.find (at_pair u (a_id a)) (playerAchievement db))); [|lia].
  destruct (List.find _ _) as [r|] eqn:Hf; simpl; [|done]. apply find_pair_Some in Hf as [Hr [= _ Hi]].
  pose proof (aw_rows _ _ Hwf) as Hrows. rewrite Forall_forall in Hrows.
  apply (row_ok_at _ _ _ _ _ (aw_ids _ _ Hwf) Ha Hi (Hrows r Hr)).
Qed.

Lemma preserves_check paid0 now u e : preserves (ach_wf paid0) (checkAchievements now u e).
Proof.
  intros db Hwf. unfold checkAchievements. m_step. m_step.
  eapply post_mono; [apply (post_for_each _ _ (λ db', ach_wf paid0 db' ∧ same_catalog db db') (λ db' _, ach_wf paid0 db'))| |done];
    [done| |by intros ? ? []].
  intros a db1 Ha [Hwf1 [Ea Eu]]. apply elem_of_order_by, list_elem_of_filter in Ha as [_ Ha]. rewrite <- Ea in Ha.
  eapply post_mono; [by apply post_check_one| |done].
  intros db2 _ [Hwf2 Hs2]. split; [done|]. by eapply same_catalog_trans.
Qed.

Lemma preserves_share paid0 u i c p : preserves (ach_wf paid0) (shareAchievement u i c p).
Proof.
  apply preserves_bind; [apply preserves_get_by_id|]. intros a. apply preserves_bind; [apply preserves_gets|]. intros row.
  destruct (row ≫= pa_unlockedAt); [|apply preserves_throw]. intros db Hwf. m_step. m_step. cbv zeta. m_step. m_step. m_step.
  apply wf_frame; [done|lia].
Qed.

Lemma preserves_views paid0 u v : preserves (ach_wf paid0) (getPlayerAchievements u v).
Proof.
  apply preserves_bind; [apply preserves_sync|]. intros _ db Hwf. m_step. m_step. case_bool_decide; by m_step.
Qed.

(** ** Runs of the service *)

Inductive ach_call :=
| CallSync
| CallUnlock (now : Z) (playerId achievementId : string)
| CallProgress (now : Z) (playerId achievementId : string) (progress : option Q)
| CallEvent (now : Z) (playerId : string) (event : GameEvent)
| CallShare (playerId achievementId : string) (caption platform : option string)
| CallViews (playerId : string) (viewerId : option string)
| CallList (includeHidden : bool).

Definition void {X} (m : M ADB X) : M ADB unit := _ ← m; mret tt.

Definition run_ach (c : ach_call) : M ADB unit :=
  match c with
  | CallSync => syncCatalog
  | CallUnlock now u i => unlockAchievement now u i
  | CallProgress now u i p => updateProgress now u i p
  | CallEvent now u e => checkAchievements now u e
  | CallShare u i c p => void (shareAchievement u i c p)
  | CallViews u v => void (getPlayerAchievements u v)
  | CallList b => void (listAchievements b)
  end.

Inductive ach_step : ADB → ADB → Prop :=
| ach_calls c db db' res : run_ach c db = (db', res) → ach_step db db'.

Lemma preserves_run_ach paid0 c : preserves (ach_wf paid0) (run_ach c).
Proof.
  destruct c; simpl; auto using preserves_sync, preserves_unlock, preserves_updateProgress, preserves_check;
    (apply preserves_bind; [|intros; apply preserves_ret]).
  - apply preserves_share.
  - apply preserves_views.
  - apply preserves_bind; [apply preserves_sync|]. intros _. apply preserves_gets.
Qed.

Lemma hidden_split l : filter (hidden_ false) l ++ filter (hidden_ true) l ≡ₚ l.
Proof.
  induction l as [|a l IH]; [done|]. rewrite !filter_cons. destruct (e_hidden (a_entry a)) eqn:E.
  - rewrite decide_False, decide_True by (unfold hidden_; congruence). rewrite <- Permutation_middle. by f_equiv.
  - rewrite decide_True, decide_False by (unfold hidden_; congruence). simpl. by f_equiv.
Qed.

Lemma ach_wf_empty us w : ach_wf (paid w) (mkADB us [] [] [] [] w 0).
Proof. split; simpl; try constructor. exists []. rewrite app_nil_r. split_and!; [done|constructor|set_solver|constructor]. Qed.

Lemma ach_wf_steps paid0 db db' : rtc ach_step db db' → ach_wf paid0 db → ach_wf paid0 db'.
Proof.
  induction 1 as [|db1 db2 db3 [c d d' res Hr] _ IH]; [done|]. intros Hwf. apply IH.
  by eapply (preserves_run (ach_wf paid0) (run_ach c)); [apply preserves_run_ach| |].
Qed.

(** ** What the service guarantees *)

(** C14: over any calls of the service, failing ones included, a player has one
    row per achievement with progress between zero and the target; the payments
    made are grants of achievements their player has unlocked, each idempotency
    key paid once; and a reward marked as claimed has all its grants on
    record. *)
Theorem rewards_invariant us w db :
  rtc ach_step (mkADB us [] [] [] [] w 0) db →
  NoDup (pair_of <$> playerAchievement db) ∧
  Forall (row_ok (ad_users db) (achievement db) (paid (ad_wallet db)).*1) (playerAchievement db) ∧
  ∃ extra, paid (ad_wallet db) = paid w ++ extra ∧ NoDup extra.*1 ∧
    Forall (payment_ok (achievement db) (playerAchievement db)) extra.
Proof.
  intros Hs. destruct (ach_wf_steps (paid w) _ _ Hs (ach_wf_empty us w)) as [_ _ _ _ _ I6 I7 (ex & P1 & P2 & _ & P4)].
  eauto 10.
Qed.

(** Unlocking an achievement for a known player whose rewards can be read
    always succeeds: the row is unlocked afterwards, and when the wallet accepts
    the credits every grant is on record and the reward is claimed; from then
    on unlocking it again changes nothing. *)
Theorem unlock_spec paid0 now u a gs db :
  ach_wf paid0 db → a ∈ achievement db → u ∈ ad_users db → parseGrants (e_rewards (a_entry a)) = Ok gs →
  ∃ db' r, unlockAchievement now u (a_id a) db = (db', Ok tt) ∧
    List.find (at_pair u (a_id a)) (playerAchievement db') = Some r ∧ is_Some (pa_unlockedAt r) ∧
    (accepts → is_Some (pa_rewardClaimedAt r) ∧
       (∀ g, g ∈ gs → reward_key (a_id a) u g ∈ (paid (ad_wallet db')).*1) ∧
       ∀ now', unlockAchievement now' u (a_id a) db' = (db', Ok tt)).
Proof.
  intros Hwf Ha Hu Hgs. pose proof (post_unlock paid0 now u a db Hwf Ha) as Hp. unfold post in Hp.
  destruct (unlockAchievement now u (a_id a) db) as [db' [[]|e]]; [|destruct Hp as [_ []]; eauto].
  destruct Hp as (Hwf' & [Ea _] & r & Hf & Hun & Hcl). exists db', r. split_and!; [done..|]. intros Hacc.
  specialize (Hcl Hacc). rewrite <- Ea in Ha. split_and!; [done| |].
  - apply find_pair_Some in Hf as [Hr [= <- Hi]]. pose proof (aw_rows _ _ Hwf') as Hrows. rewrite Forall_forall in Hrows.
    destruct (row_ok_at _ _ _ _ _ (aw_ids _ _ Hwf') Ha Hi (Hrows r Hr)) as (_ & _ & Hc).
    destruct (Hc Hcl) as (_ & gs' & Hgs' & Hk). intros g Hg. apply Hk. congruence.
  - intros now'. destruct Hcl as [t Hcl]. unfold unlockAchievement, getAchievementById, playerAchievement_findUnique, mbind, M_bind, get, gets, mret, M_ret.
    rewrite (row_find_elem a_id (a_id a) _ a), Hf by (done || apply (aw_ids _ _ Hwf')). simpl. by rewrite Hcl.
Qed.

(** Others see the progress of an achievement only once it is unlocked, and
    never a hidden achievement; the player sees every achievement, each once,
    always with the progress. *)
Theorem views_private u v db db' owner views :
  getPlayerAchievements u v db = (db', Ok (owner, views)) →
  owner = is_owner u v ∧
  if owner then av_achievement <$> views ≡ₚ achievement db' ∧ Forall (λ x, is_Some (av_progress x)) views
  else ∀ x, x ∈ views → e_hidden (a_entry (av_achievement x)) = false ∧
    (is_Some (av_progress x) → is_Some (av_unlockedAt x)).
Proof.
  unfold getPlayerAchievements, mbind, M_bind. destruct (syncCatalog db) as [db1 [[]|e]]; [|done].
  unfold get. case_bool_decide; [|done]. intros [= <- <- Hv]. split; [done|].
  set (rows := any_order _) in Hv. destruct (is_owner u v).
  - subst views. split.
    2:{ rewrite js_sort_perm. apply Forall_app. split; apply Forall_fmap, Forall_true; by eexists. }
    rewrite js_sort_perm, fmap_app, <- !list_fmap_compose. unfold compose, view_of. cbv zeta. simpl.
    rewrite !list_fmap_id, !order_by_perm. apply hidden_split.
  - subst views. intros x (a & -> & Ha)%list_elem_of_fmap. apply elem_of_order_by, list_elem_of_filter in Ha as [Hh _].
    split; [done|]. unfold view_of. cbv zeta. simpl. destruct (by_achievement rows (a_id a) ≫= pa_unlockedAt); simpl; [by eexists|by intros []].
Qed.
End spec.

(** ** Concrete players *)

Section witnesses.
(** The texts of the catalog. *)
Definition catalog_text : DecimalText := λ s,
  if bool_decide (s = "5") then Some 50000000 else
  if bool_decide (s = "10") then Some 100000000 else
  if bool_decide (s = "25") then Some 250000000 else None.
Definition bytewise : Collation :=
  {| db_name_leb := String.leb; localeCompare := λ s t, match String.compare s t with Lt => -1 | Eq => 0 | Gt => 1 end |}.
#[local] Existing Instance catalog_text.
#[local] Existing Instance bytewise.

(** A wallet that only keeps the record and takes every credit. *)
Definition ledger_book : RewardSink (list payment_record).
Proof.
  refine {| reward_credit := λ u c a key n w, (if decide (key ∈ w.*1) then w else w ++ [(key, (u, c, a))], Ok tt);
            paid := λ w, w |}.
  intros u c a key n w. unfold post. simpl. case_decide; auto.
Defined.

Definition won : GameEvent := mkGameEvent MATCH_WON "u" [("won", JBool true)] None.
Definition player_db : ADB DB := mkADB {["u"]} [] [] [] [] (mkDB {["u"]} ∅ [] 0) 0.
Definition synced : ADB DB := (run_ach CallSync player_db).1.
Definition victorious : ADB DB := (run_ach (CallEvent 7 "u" won) synced).1.
Definition replayed : ADB DB := (run_ach (CallUnlock 9 "u" (uuid 0)) victorious).1.

Lemma replayed_steps : rtc ach_step player_db replayed.
Proof.
  eapply rtc_l; [eapply (ach_calls CallSync); apply surjective_pairing|].
  eapply rtc_l; [eapply (ach_calls (CallEvent 7 "u" won)); apply surjective_pairing|].
  apply rtc_once. eapply (ach_calls (CallUnlock 9 "u" (uuid 0))). apply surjective_pairing.
Qed.

Lemma rewards_invariant_witness :
  NoDup (pair_of <$> playerAchievement replayed) ∧
  paid (ad_wallet replayed) = [("achievement-reward:id-0:u:AX:5", ("u", AX, 50000000))] ∧
  ∃ extra, paid (ad_wallet replayed) = paid (ad_wallet player_db) ++ extra ∧ NoDup extra.*1.
Proof.
  destruct (rewards_invariant {["u"]} (mkDB {["u"]} ∅ [] 0) replayed replayed_steps) as (Hn & _ & ex & E & Hd & _).
  split; [exact Hn|]. split; [vm_compute; reflexivity|]. exists ex. split; [exact E|exact Hd].
Defined.

#[local] Existing Instance ledger_book.
Definition book_db : ADB (list payment_record) := (run_ach CallSync (mkADB {["u"]} [] [] [] [] [] 0)).1.
Definition first_victory : Achievement := mkAchievement (uuid 0) (default (mkEntry "" "" "" COMBAT 0 [] JNull false 0) (head ACHIEVEMENT_CATALOG)).

Lemma unlock_spec_witness :
  ∃ db' r, unlockAchievement 3 "u" (a_id first_victory) book_db = (db', Ok tt) ∧
    List.find (at_pair "u" (a_id first_victory)) (playerAchievement db') = Some r ∧ is_Some (pa_rewardClaimedAt r) ∧
    ∀ now', unlockAchievement now' "u" (a_id first_victory) db' = (db', Ok tt).
Proof.
  destruct (unlock_spec (paid []) 3 "u" first_victory [mkGrant AX "5"] book_db) as (db' & r & Hu & Hf & _ & Hacc).
  - eapply (preserves_run (ach_wf (paid [])) (run_ach CallSync)); [apply preserves_run_ach| |apply surjective_pairing].
    apply (ach_wf_empty {["u"]} []).
  - apply list_elem_of_lookup. exists 0%nat. vm_compute. reflexivity.
  - set_solver.
  - vm_compute. reflexivity.
  - exists db', r. split; [exact Hu|]. split; [exact Hf|]. destruct Hacc as (Hc & _ & Ha); [|auto].
    intros u c n key t w. by eexists.
Defined.

Lemma views_private_witness :
  Forall (λ x, e_hidden (a_entry (av_achievement x)) = false ∧ (is_Some (av_progress x) → is_Some (av_unlockedAt x)))
    (match (getPlayerAchievements "u" (Some "v") victorious).2 with Ok (_, vs) => vs | Throw _ => [] end).
Proof.
  destruct (views_private "u" (Some "v") victorious (getPlayerAchievements "u" (Some "v") victorious).1 false
    (match (getPlayerAchievements "u" (Some "v") victorious).2 with Ok (_, vs) => vs | Throw _ => [] end)) as [_ Hv].
  - vm_compute. reflexivity.
  - apply Forall_forall. exact Hv.
Defined.
End witnesses.
