(* ===== verification/PromiseLock.v ===== *)
(** * Locks made of promises

    Two services serialise their calls per key with a map of promises:
    [withUserLock] of [server/src/services/cross-game-asset.service.ts] and
    [withSessionLock] of [server/src/services/game-session.service.ts].  A call
    waits for the promise it finds under its key, puts its own promise there, and
    settles it when its function has returned or thrown.  The first deletes the
    entry when it is still its own ([tidy]).  The second leaves it; the clean-up
    timer, the removal of a session and [clearSessionStore] delete entries at any
    time ([forget]), also while calls of the key run or wait.

    The number of times a key was forgotten is kept beside the state of the code,
    and every call carries the number it found: only what is stated reads them.

    Promises are numbered in the order in which they are made, one per call.
    The state machine has a step for every point at which a call can wait. *)

From stdpp Require Import prelude gmap strings list.
From S2P Require Import Prelude.

Inductive Phase := Waiting | Running | Done.

#[export] Instance Phase_eq_dec : EqDecision Phase.
Proof. solve_decision. Defined.

(** A call: its key and how often it had been forgotten, the promise it awaits
    ([None] is [Promise.resolve()]) and how far it is. *)
Record Call := mkCall { c_key : string; c_epoch : nat; c_awaits : option nat; c_phase : Phase }.

(** The map of locks, the settled promises, the calls so far and the keys
    forgotten; the promise of the [n]-th call has number [n]. *)
Record Locks := mkLocks { lock_map : jsmap nat; settled : gset nat; calls : list Call; forgets : list string }.

Definition no_locks : Locks := mkLocks [] ∅ [] [].

Definition with_phase (p : Phase) (c : Call) : Call := mkCall (c_key c) (c_epoch c) (c_awaits c) p.

(** How often a key was forgotten. *)
Definition epoch (key : string) (s : Locks) : nat := length (List.filter (λ k, bool_decide (k = key)) (forgets s)).

(** Up to the first [await]: the old promise is read and the new one entered. *)
Definition enter (key : string) (s : Locks) : Locks :=
  let existingLock := map_get key (lock_map s) in
  mkLocks (map_set key (length (calls s)) (lock_map s)) (settled s) (calls s ++ [mkCall key (epoch key s) existingLock Waiting]) (forgets s).

Definition is_settled (s : Locks) (p : option nat) : bool :=
  match p with None => true | Some n => bool_decide (n ∈ settled s) end.

(** The awaited promise is settled and the function starts. *)
Definition start (n : nat) (s : Locks) : option Locks :=
  match calls s !! n with
  | Some c =>
      if bool_decide (c_phase c = Waiting) && is_settled s (c_awaits c)
      then Some (mkLocks (lock_map s) (settled s) (alter (with_phase Running) n (calls s)) (forgets s)) else None
  | None => None
  end.

(** The function has returned or thrown: [finally] settles the promise, and
    [withUserLock] deletes the entry of the map when it is still this one. *)
Definition finish (tidy : bool) (n : nat) (s : Locks) : option Locks :=
  match calls s !! n with
  | Some c =>
      if bool_decide (c_phase c = Running) then
        let locks := if tidy && bool_decide (map_get (c_key c) (lock_map s) = Some n)
                     then map_delete (c_key c) (lock_map s) else lock_map s in
        Some (mkLocks locks ({[n]} ∪ settled s) (alter (with_phase Done) n (calls s)) (forgets s))
      else None
  | None => None
  end.

(** [sessionLocks.delete(id)] *)
Definition forget (key : string) (s : Locks) : Locks := mkLocks (map_delete key (lock_map s)) (settled s) (calls s) (key :: forgets s).

(** [may_forget] says when an entry may be deleted. *)
Inductive lock_step (tidy : bool) (may_forget : string → Locks → Prop) : Locks → Locks → Prop :=
| step_enter key s : lock_step tidy may_forget s (enter key s)
| step_start n s s' : start n s = Some s' → lock_step tidy may_forget s s'
| step_finish n s s' : finish tidy n s = Some s' → lock_step tidy may_forget s s'
| step_forget key s : may_forget key s → lock_step tidy may_forget s (forget key s).

(** No call of the key runs or waits. *)
Definition idle (key : string) (s : Locks) : Prop := ∀ j d, calls s !! j = Some d → c_key d = key → c_phase d = Done.

(** ** The invariant *)

(** Calls that share a lock: of one key, and not forgotten in between. *)
Definition lock_of (c : Call) : string * nat := (c_key c, c_epoch c).
Definition current (key : string) (s : Locks) : string * nat := (key, epoch key s).

(** The calls of a lock below [j] are over. *)
Definition done_before (s : Locks) (l : string * nat) (j : nat) : Prop :=
  ∀ i c, (i < j)%nat → calls s !! i = Some c → lock_of c = l → c_phase c = Done.

(** [n] is the newest call of a lock below [j]. *)
Definition newest (s : Locks) (l : string * nat) (j n : nat) : Prop :=
  (n < j)%nat ∧ (∃ c, calls s !! n = Some c ∧ lock_of c = l) ∧
  ∀ i c, (n < i < j)%nat → calls s !! i = Some c → lock_of c ≠ l.

Record lock_inv (tidy : bool) (s : Locks) : Prop := {
  li_settled n : n ∈ settled s ↔ ∃ c, calls s !! n = Some c ∧ c_phase c = Done;
  li_epoch j c : calls s !! j = Some c → (c_epoch c ≤ epoch (c_key c) s)%nat;
  li_epochs i j c d : (i < j)%nat → calls s !! i = Some c → calls s !! j = Some d → c_key c = c_key d → (c_epoch c ≤ c_epoch d)%nat;
  li_awaits j c : calls s !! j = Some c →
    match c_awaits c with
    | None => done_before s (lock_of c) j
    | Some i => newest s (lock_of c) j i
    end;
  li_map key :
    match map_get key (lock_map s) with
    | None => done_before s (current key s) (length (calls s))
    | Some n => newest s (current key s) (length (calls s)) n ∧ (tidy = true → n ∉ settled s)
    end;
  li_order j c : calls s !! j = Some c → c_phase c ≠ Waiting → done_before s (lock_of c) j
}.

Lemma lock_inv_empty tidy : lock_inv tidy no_locks.
Proof.
  split; simpl; intros.
  - split; [set_solver|]. intros (c & Hc & _). by destruct n.
  - by destruct j.
  - by destruct j.
  - by destruct j.
  - intros i c Hi Hc. by destruct i.
  - by destruct j.
Qed.

(** ** Entering *)

Lemma lookup_snoc {A} (l : list A) x j y :
  (l ++ [x]) !! j = Some y ↔ l !! j = Some y ∨ (j = length l ∧ y = x).
Proof.
  rewrite lookup_app_Some. split.
  - intros [H|[Hl H]]; [by left|]. apply list_lookup_singleton_Some in H as [Hj ->]. right. split; [lia|done].
  - intros [H|[-> ->]]; [by left|]. right. rewrite Nat.sub_diag. auto.
Qed.

Lemma lookup_below {A} (l : list A) j y : l !! j = Some y → (j < length l)%nat.
Proof. apply lookup_lt_Some. Qed.

Lemma done_before_enter key l s j : (j ≤ length (calls s))%nat → done_before s l j → done_before (enter key s) l j.
Proof.
  intros Hj H i c Hi Hc Hk. simpl in Hc. apply lookup_snoc in Hc as [Hc|[-> _]]; [by eapply H|lia].
Qed.

Lemma newest_enter key l s j n : (j ≤ length (calls s))%nat → newest s l j n → newest (enter key s) l j n.
Proof.
  intros Hj (Hn & (c & Hc & Hk) & H). split; [done|]. split.
  - exists c. split; [|done]. apply lookup_snoc. by left.
  - intros i d Hi Hd. apply lookup_snoc in Hd as [Hd|[-> _]]; [by eapply H|lia].
Qed.

Lemma lock_inv_enter tidy key s : lock_inv tidy s → lock_inv tidy (enter key s).
Proof.
  intros Hs. assert (length (calls (enter key s)) = S (length (calls s))) as Hlen by (simpl; rewrite length_app; simpl; lia).
  split.
  - intros n. simpl. rewrite (li_settled _ _ Hs). split; intros (c & Hc & Hp); exists c.
    + split; [|done]. apply lookup_snoc. by left.
    + apply lookup_snoc in Hc as [Hc|[_ ->]]; [done|discriminate].
  - intros j c Hc. simpl in Hc. apply lookup_snoc in Hc as [Hc|[-> ->]]; [exact (li_epoch _ _ Hs j c Hc)|done].
  - intros i j c d Hij Hc Hd. simpl in Hc, Hd. apply lookup_snoc in Hc as [Hc|[-> ->]]; apply lookup_snoc in Hd as [Hd|[-> ->]].
    + by eapply (li_epochs _ _ Hs i j).
    + intros Hk. cbn [c_key c_epoch] in *. rewrite <- Hk. by eapply li_epoch.
    + apply lookup_below in Hd. lia.
    + lia.
  - intros j c Hc. simpl in Hc. apply lookup_snoc in Hc as [Hc|[-> ->]].
    + pose proof (lookup_below _ _ _ Hc). pose proof (li_awaits _ _ Hs _ _ Hc) as Hw.
      destruct (c_awaits c); [apply newest_enter|apply done_before_enter]; auto with lia.
    + simpl. pose proof (li_map _ _ Hs key) as Hm.
      destruct (map_get key (lock_map s)); [apply newest_enter|apply done_before_enter]; try done. apply Hm.
  - intros k. rewrite Hlen. simpl. rewrite map_get_set. change (current k (enter key s)) with (current k s). case_bool_decide as Hk; [subst k|].
    + split.
      * split; [lia|]. split; [|intros; lia]. eexists. split; [apply lookup_snoc; right; done|done].
      * intros _ Hin. apply (li_settled _ _ Hs) in Hin as (c & Hc & _). apply lookup_below in Hc. lia.
    + pose proof (li_map _ _ Hs k) as Hm. destruct (map_get k (lock_map s)) as [n|].
      * destruct Hm as [(Hn & Hc & Hi) Ht]. split; [|done]. split; [lia|]. split.
        { destruct Hc as (c & Hc & Hkc). exists c. split; [apply lookup_snoc; by left|done]. }
        intros i c Hr Hci. apply lookup_snoc in Hci as [Hci|[-> ->]]; [|intros [= E _]; by apply Hk].
        eapply Hi; [|done]. apply lookup_below in Hci. lia.
      * intros i c Hi Hci Hkc. apply lookup_snoc in Hci as [Hci|[-> ->]]; [|injection Hkc as E _; by destruct Hk].
        eapply Hm; [|done..]. by eapply lookup_below.
  - intros j c Hc Hp. simpl in Hc. apply lookup_snoc in Hc as [Hc|[-> ->]]; [|done].
    apply done_before_enter; [apply lookup_below in Hc; lia|]. by eapply li_order.
Qed.

(** ** Forgetting *)

(** A forgotten key starts a new lock, which no call has yet. *)
Lemma lock_inv_forget tidy key s : lock_inv tidy s → lock_inv tidy (forget key s).
Proof.
  intros Hs. assert (∀ k, epoch k (forget key s) = (if bool_decide (key = k) then 1 else 0) + epoch k s)%nat as Hep.
  { intros k. unfold epoch. cbn [forget forgets List.filter]. by case_bool_decide. }
  split; [apply Hs| |apply Hs|apply Hs| |apply Hs].
  - intros j c Hc. rewrite Hep. pose proof (li_epoch _ _ Hs j c Hc). lia.
  - intros k. unfold current. rewrite Hep. cbn [forget lock_map calls]. rewrite map_get_delete.
    destruct (bool_decide_reflect (key = k)) as [->|Hne].
    + rewrite bool_decide_true by done. intros i c Hi Hc [= Ek Ee]. pose proof (li_epoch _ _ Hs i c Hc) as He. rewrite Ek in He. lia.
    + rewrite bool_decide_false by done. exact (li_map _ _ Hs k).
Qed.

(** ** Starting and finishing *)

Lemma alter_phase_lookup (p : Phase) n j c (l : list Call) :
  alter (with_phase p) n l !! j = Some c ↔
  ∃ d, l !! j = Some d ∧ c = if bool_decide (j = n) then with_phase p d else d.
Proof.
  destruct (decide (j = n)) as [->|Hj].
  - rewrite bool_decide_true by done. rewrite list_lookup_alter_eq, fmap_Some. naive_solver.
  - rewrite bool_decide_false by done. rewrite list_lookup_alter_ne by done. naive_solver.
Qed.

Section change.
Context (s : Locks) (n : nat) (p : Phase) (locks : jsmap nat) (st : gset nat).
Let s' := mkLocks locks st (alter (with_phase p) n (calls s)) (forgets s).

Lemma newest_alter l j i : newest s l j i → newest s' l j i.
Proof.
  intros (Hn & (c & Hc & Hk) & H). split; [done|]. split.
  - eexists. split; [apply alter_phase_lookup; eauto|]. by case_bool_decide.
  - intros x d Hx (d' & Hd & ->)%alter_phase_lookup. case_bool_decide; by eapply (H x d').
Qed.

(** A change of phase that leaves done calls done keeps the order. *)
Lemma done_before_alter l j : (p = Done ∨ (∀ c, calls s !! n = Some c → c_phase c ≠ Done)) →
  done_before s l j → done_before s' l j.
Proof.
  intros Hp H i c Hi (d & Hd & ->)%alter_phase_lookup. case_bool_decide; subst; simpl; intros Hk; [|by eapply H].
  destruct Hp as [->|Hp]; [done|]. destruct (Hp d Hd). by eapply H.
Qed.

Lemma epoch_alter : (∀ j c, calls s !! j = Some c → (c_epoch c ≤ epoch (c_key c) s)%nat) →
  ∀ j c, calls s' !! j = Some c → (c_epoch c ≤ epoch (c_key c) s')%nat.
Proof. intros He j c (d & Hd & ->)%alter_phase_lookup. specialize (He j d Hd). by case_bool_decide. Qed.

Lemma epochs_alter : (∀ i j c d, (i < j)%nat → calls s !! i = Some c → calls s !! j = Some d → c_key c = c_key d → (c_epoch c ≤ c_epoch d)%nat) →
  ∀ i j c d, (i < j)%nat → calls s' !! i = Some c → calls s' !! j = Some d → c_key c = c_key d → (c_epoch c ≤ c_epoch d)%nat.
Proof.
  intros He i j c d Hij (c' & Hc & ->)%alter_phase_lookup (d' & Hd & ->)%alter_phase_lookup. specialize (He i j c' d' Hij Hc Hd). by do 2 case_bool_decide.
Qed.

(** What a call waits for stays below it. *)
Lemma awaits_alter : (p = Done ∨ (∀ c, calls s !! n = Some c → c_phase c ≠ Done)) →
  (∀ j c, calls s !! j = Some c → match c_awaits c with None => done_before s (lock_of c) j | Some i => newest s (lock_of c) j i end) →
  ∀ j c, calls s' !! j = Some c → match c_awaits c with None => done_before s' (lock_of c) j | Some i => newest s' (lock_of c) j i end.
Proof.
  intros Hp Hw j c (d & Hd & ->)%alter_phase_lookup. specialize (Hw j d Hd).
  assert (lock_of (if bool_decide (j = n) then with_phase p d else d) = lock_of d) as -> by by case_bool_decide.
  assert (c_awaits (if bool_decide (j = n) then with_phase p d else d) = c_awaits d) as -> by by case_bool_decide.
  destruct (c_awaits d); [by apply newest_alter|by apply done_before_alter].
Qed.
End change.

Lemma lock_inv_start tidy n s s' : lock_inv tidy s → start n s = Some s' → lock_inv tidy s'.
Proof.
  intros Hs Hst. unfold start in Hst. destruct (calls s !! n) as [c|] eqn:Hn; [|done].
  destruct (bool_decide_reflect (c_phase c = Waiting)) as [Hw|]; [|done]. simpl in Hst.
  destruct (is_settled s (c_awaits c)) eqn:Ha; [|done]. injection Hst as <-.
  assert (∀ c, calls s !! n = Some c → c_phase c ≠ Done) as Hnd by (intros d Hd; simplify_eq; by rewrite Hw).
  assert (done_before s (lock_of c) n) as Hdone.
  { pose proof (li_awaits _ _ Hs _ _ Hn) as Hc. destruct (c_awaits c) as [i|]; [|done].
    apply bool_decide_eq_true in Ha. apply (li_settled _ _ Hs) in Ha as (d & Hd & Hp).
    destruct Hc as (Hi & (d' & Hd' & Hk) & Hbetween). assert (d' = d) as -> by congruence.
    assert (done_before s (lock_of d) i) as Hb by (eapply li_order; [done..|by rewrite Hp]).
    intros x e Hx He Hke. destruct (decide (x < i)%nat); [eapply Hb; [done..|congruence]|].
    destruct (decide (x = i)) as [->|]; [congruence|]. destruct (Hbetween x e); [lia|done|congruence]. }
  split.
  - intros m. simpl. rewrite (li_settled _ _ Hs). split.
    + intros (d & Hd & Hp). exists d. split; [|done]. apply alter_phase_lookup. exists d. split; [done|].
      case_bool_decide; [|done]. subst. by destruct (Hnd d Hd).
    + intros (d & (d' & Hd & ->)%alter_phase_lookup & Hp). case_bool_decide; [done|eauto].
  - apply epoch_alter, Hs.
  - apply epochs_alter, Hs.
  - apply awaits_alter; [by right|apply Hs].
  - intros k. simpl. rewrite length_alter. pose proof (li_map _ _ Hs k) as Hm.
    destruct (map_get k (lock_map s)); [split; [apply newest_alter|]; by destruct Hm|]. apply done_before_alter; auto.
  - intros j d Hd Hp. simpl in Hd. apply alter_phase_lookup in Hd as (d' & Hd & ->).
    apply done_before_alter; [by auto|]. case_bool_decide; simplify_eq; simpl in *; [done|]. by eapply li_order.
Qed.

Lemma lock_inv_finish tidy n s s' : lock_inv tidy s → finish tidy n s = Some s' → lock_inv tidy s'.
Proof.
  intros Hs Hst. unfold finish in Hst. destruct (calls s !! n) as [c|] eqn:Hn; [|done].
  destruct (bool_decide_reflect (c_phase c = Running)) as [Hr|]; [|done]. injection Hst as <-.
  assert (done_before s (lock_of c) n) as Hdone by (eapply li_order; [done..|by rewrite Hr]).
  split.
  - intros m. simpl. rewrite elem_of_union, elem_of_singleton, (li_settled _ _ Hs). setoid_rewrite alter_phase_lookup. split.
    + intros [->|(d & Hd & Hp)].
      * exists (with_phase Done c). split; [|done]. exists c. by rewrite bool_decide_true.
      * exists (if bool_decide (m = n) then with_phase Done d else d). split; [eauto|]. by case_bool_decide.
    + intros (d & (d' & Hd & ->) & Hp). case_bool_decide; [by left|]. right. eauto.
  - apply epoch_alter, Hs.
  - apply epochs_alter, Hs.
  - apply awaits_alter; [by left|apply Hs].
  - intros k. simpl. rewrite length_alter. set (s' := mkLocks _ _ _ _). change (current k s') with (current k s). pose proof (li_map _ _ Hs k) as Hm.
    assert (map_get k (lock_map s) ≠ Some n ∨ tidy = false →
      match map_get k (lock_map s) with
      | Some m => newest s (current k s) (length (calls s)) m ∧ (tidy = true → m ∉ {[n]} ∪ settled s)
      | None => done_before s (current k s) (length (calls s)) end) as Hkeep.
    { destruct (map_get k (lock_map s)) as [m|]; [|done]. destruct Hm as [Hm1 Hm2]. intros Hne. split; [done|].
      intros Ht. specialize (Hm2 Ht). destruct Hne as [Hne|]; [|congruence]. intros [->%elem_of_singleton|]%elem_of_union; congruence. }
    assert (∀ m, map_get k (lock_map s) = Some m → m = n → lock_of c = current k s) as Hkey.
    { intros m Hk ->. rewrite Hk in Hm. destruct Hm as [(_ & (d & Hd & Hkd) & _) _]. congruence. }
    unfold s'. destruct (tidy && bool_decide (map_get (c_key c) (lock_map s) = Some n)) eqn:Htidy.
    + apply andb_prop in Htidy as [-> Hown%bool_decide_eq_true]. rewrite map_get_delete. case_bool_decide as Hk.
      * subst k. specialize (Hkey n Hown eq_refl). rewrite Hown in Hm. destruct Hm as [(_ & _ & Hlast) _]. intros i d Hi (d' & Hd & ->)%alter_phase_lookup.
        case_bool_decide as E; [done|]. intros Hkd. destruct (decide (i < n)%nat); [eapply Hdone; [done..|congruence]|]. destruct (Hlast i d'); [lia|done|done].
      * specialize (Hkeep ltac:(left; intros E; apply Hk; specialize (Hkey n E eq_refl); by injection Hkey)).
        destruct (map_get k (lock_map s)); [split; [apply newest_alter|]; by destruct Hkeep|]. apply done_before_alter; auto.
    + specialize (Hkeep ltac:(destruct tidy; [left|by right]; intros E; pose proof (Hkey _ E eq_refl) as [= Ek _]; simpl in Htidy;
        rewrite Ek in Htidy;
        apply bool_decide_eq_false in Htidy; congruence)).
      destruct (map_get k (lock_map s)); [split; [apply newest_alter|]; by destruct Hkeep|]. apply done_before_alter; auto.
  - intros j d Hd Hp. simpl in Hd. apply alter_phase_lookup in Hd as (d' & Hd & ->).
    apply done_before_alter; [by auto|]. case_bool_decide; simplify_eq; simpl in *; [done|]. by eapply li_order.
Qed.

Lemma lock_inv_step tidy may s s' : lock_step tidy may s s' → lock_inv tidy s → lock_inv tidy s'.
Proof. intros [key t|n t t' Ht|n t t' Ht|key t _] Hs; eauto using lock_inv_enter, lock_inv_start, lock_inv_finish, lock_inv_forget. Qed.

Lemma lock_inv_reach tidy may s : rtc (lock_step tidy may) no_locks s → lock_inv tidy s.
Proof.
  enough (∀ t, rtc (lock_step tidy may) t s → lock_inv tidy t → lock_inv tidy s) by eauto using lock_inv_empty.
  induction 1; eauto using lock_inv_step.
Qed.

(** Calls of a lock that was forgotten are over, when keys are forgotten idle only. *)
Definition old_done (s : Locks) : Prop := ∀ j c, calls s !! j = Some c → (c_epoch c < epoch (c_key c) s)%nat → c_phase c = Done.

Lemma old_done_step tidy may s s' : (∀ key s, may key s → idle key s) → lock_step tidy may s s' → old_done s → old_done s'.
Proof.
  intros Hmay Hst Hs. destruct Hst as [key s|n s s' Ht|n s s' Ht|key s Hm].
  - intros j c Hc. apply lookup_snoc in Hc as [Hc|[-> ->]]; [exact (Hs j c Hc)|]. change (epoch (c_key _) _) with (epoch key s). cbn [c_epoch]. lia.
  - unfold start in Ht. destruct (calls s !! n) as [d|] eqn:Hn; [|done]. destruct (bool_decide_reflect (c_phase d = Waiting)) as [Hw|]; [|done].
    destruct (is_settled _ _); [|done]. injection Ht as <-. intros j c (e & He & ->)%alter_phase_lookup.
    case_bool_decide as Ej; [|exact (Hs j e He)]. subst j. intros Hlt. specialize (Hs n e He Hlt). congruence.
  - unfold finish in Ht. destruct (calls s !! n) as [d|] eqn:Hn; [|done]. destruct (bool_decide (c_phase d = Running)); [|done].
    injection Ht as <-. intros j c (e & He & ->)%alter_phase_lookup. case_bool_decide as Ej; [done|]. exact (Hs j e He).
  - intros j c Hc Hlt. destruct (decide (c_key c = key)) as [Hk|Hk]; [by eapply Hmay|]. apply (Hs j c Hc).
    unfold epoch in Hlt. cbn [forget forgets List.filter] in Hlt. by rewrite bool_decide_false in Hlt by congruence.
Qed.

(** Somebody among the calls up to [j] can go on. *)
Lemma lock_progress tidy s : lock_inv tidy s → ∀ j d, calls s !! j = Some d → c_phase d ≠ Done →
  ∃ i c, (i ≤ j)%nat ∧ calls s !! i = Some c ∧ lock_of c = lock_of d ∧ (c_phase c = Running ∨ is_Some (start i s)).
Proof.
  intros Hs j. induction (lt_wf j) as [j _ IH]. intros d Hd Hp.
  destruct (c_phase d) eqn:Hph; [|by exists j, d; auto|done].
  assert (is_settled s (c_awaits d) = true → is_Some (start j s)) as Hgo.
  { intros E. unfold start. rewrite Hd, Hph, E. simpl. eauto. }
  pose proof (li_awaits _ _ Hs _ _ Hd) as Hw. destruct (c_awaits d) as [i|]; [|exists j, d; split_and!; [done..|right; by apply Hgo]].
  destruct Hw as (Hi & (c & Hc & Hk) & _). destruct (decide (c_phase c = Done)) as [Hcd|Hcd].
  - exists j, d. split_and!; [done..|]. right. apply Hgo. simpl. apply bool_decide_eq_true, (li_settled _ _ Hs). eauto.
  - destruct (IH i Hi c Hc Hcd) as (i' & c' & Hi' & Hc' & Hk' & Hr). exists i', c'. split_and!; [lia|done|congruence|done].
Qed.

(** C36: a promise lock is a first-come, first-served lock until its key is
    forgotten.  However calls arrive, start and finish and entries are deleted, a
    call that runs or has run has all earlier calls of its key behind it that came
    after the key was last forgotten, so at most one of them runs and they run in
    the order of the calls; while a call is not over, some such call that came no
    later runs or can start.  If keys are only forgotten while no call of theirs
    runs or waits, or never, as by [withUserLock], this holds of all calls of a
    key; and [withUserLock] keeps no entry in its map for a key all of whose calls
    are over. *)
Theorem lock_serialises tidy may_forget s : rtc (lock_step tidy may_forget) no_locks s →
  (∀ i j c d, (i < j)%nat → calls s !! i = Some c → calls s !! j = Some d → c_key c = c_key d → c_epoch c = c_epoch d →
     c_phase d ≠ Waiting → c_phase c = Done) ∧
  (∀ j d, calls s !! j = Some d → c_phase d ≠ Done →
     ∃ i c, (i ≤ j)%nat ∧ calls s !! i = Some c ∧ c_key c = c_key d ∧ c_epoch c = c_epoch d ∧ (c_phase c = Running ∨ is_Some (start i s))) ∧
  ((∀ key s, may_forget key s → idle key s) →
     ∀ i j c d, (i < j)%nat → calls s !! i = Some c → calls s !! j = Some d → c_key c = c_key d → c_phase d ≠ Waiting → c_phase c = Done) ∧
  (tidy = true → ∀ key, idle key s → map_get key (lock_map s) = None).
Proof.
  intros Hr. pose proof (lock_inv_reach _ _ _ Hr) as Hs.
  assert (∀ i j c d, (i < j)%nat → calls s !! i = Some c → calls s !! j = Some d → c_key c = c_key d → c_epoch c = c_epoch d →
    c_phase d ≠ Waiting → c_phase c = Done) as Hord.
  { intros i j c d Hij Hc Hd Hk He Hp. eapply (li_order _ _ Hs j d); [done..|]. unfold lock_of. congruence. }
  split_and!; [exact Hord| | |].
  - intros j d Hd Hp. destruct (lock_progress _ _ Hs j d Hd Hp) as (i & c & ? & ? & [= ? ?] & ?). by exists i, c.
  - intros Hmay. assert (old_done s) as Hold.
    { clear Hord Hs. assert (old_done no_locks) as H0 by by intros [|j].
      revert H0. induction Hr as [|t t' t'' Ht _ IH]; [done|]. intros H1. apply IH. by eapply old_done_step. }
    intros i j c d Hij Hc Hd Hk Hp. pose proof (li_epochs _ _ Hs i j c d Hij Hc Hd Hk). pose proof (li_epoch _ _ Hs j d Hd) as Hle. rewrite <- Hk in Hle.
    destruct (decide (c_epoch c = c_epoch d)) as [He|He]; [by eapply Hord|]. apply (Hold i c Hc). lia.
  - intros -> key Hall. pose proof (li_map _ _ Hs key) as Hm. destruct (map_get key (lock_map s)) as [n|]; [|done].
    destruct Hm as [(_ & (c & Hc & [= Hk _]) & _) Hn]. destruct Hn; [done|]. apply (li_settled _ _ Hs). eauto.
Qed.

(** ** Runs *)

Inductive event := Enter (key : string) | Start (n : nat) | Finish (n : nat) | Forget (key : string).

Definition lock_exec (tidy : bool) (e : event) (s : Locks) : option Locks :=
  match e with Enter key => Some (enter key s) | Start n => start n s | Finish n => finish tidy n s | Forget key => Some (forget key s) end.

Definition lock_run (tidy : bool) (es : list event) (s : Locks) : option Locks :=
  foldl (λ o e, o ≫= lock_exec tidy e) (Some s) es.

Lemma lock_run_reach tidy es s s' : lock_run tidy es s = Some s' → rtc (lock_step tidy (λ _ _, True)) s s'.
Proof.
  revert s. induction es as [|e es IH]; intros s; [intros [= ->]; constructor|]. unfold lock_run. simpl.
  destruct (lock_exec tidy e s) as [t|] eqn:E; [|clear; induction es; simpl; auto; discriminate].
  intros H. eapply rtc_l; [|by apply IH]. destruct e; simpl in E; [injection E as <-| | |injection E as <-]; by econstructor.
Qed.

(** Four calls, two of them by one user; the second has waited for the first, and
    the fourth came after the lock was forgotten. *)
Definition four_calls : list event :=
  [Enter "ann"; Enter "bob"; Enter "ann"; Start 0; Start 1; Finish 0; Start 2; Forget "ann"; Enter "ann"].

Definition two_running : Locks :=
  mkLocks [("bob", 1%nat); ("ann", 3%nat)] {[0%nat]}
    [mkCall "ann" 0 None Done; mkCall "bob" 0 None Running; mkCall "ann" 0 (Some 0%nat) Running; mkCall "ann" 1 None Waiting] ["ann"].

Lemma lock_serialises_witness : lock_run true four_calls no_locks = Some two_running ∧
  ∃ i c, (i ≤ 3)%nat ∧ calls two_running !! i = Some c ∧ c_key c = "ann" ∧ c_epoch c = 1%nat ∧ (c_phase c = Running ∨ is_Some (start i two_running)).
Proof.
  assert (lock_run true four_calls no_locks = Some two_running) as Hrun by (vm_compute; reflexivity).
  split; [exact Hrun|]. destruct (lock_serialises true _ two_running (lock_run_reach _ _ _ _ Hrun)) as (_ & Hgo & _).
  apply (Hgo 3%nat (mkCall "ann" 1 None Waiting)); [reflexivity|discriminate].
Defined.

(** Deleting the entry while a call runs, as the removal of a game session does,
    lets the next call of the key run at the same time. *)
Lemma forgotten_lock_overlaps :
  calls <$> lock_run false [Enter "game"; Start 0; Forget "game"; Enter "game"; Start 1] no_locks =
  Some [mkCall "game" 0 None Running; mkCall "game" 1 None Running].
Proof. vm_compute. reflexivity. Qed.
