(* ===== verification/CrossGameAsset.v ===== *)
(** * Cross-game assets: [server/src/services/cross-game-asset.service.ts]

    Definitions of assets, balances per owner and asset, and requests to move
    assets to another chain, which lock them first.  The maps of the service hold
    objects that the methods change in place; since every access goes through the
    maps, a change is [map_set] of the entry.  Amounts are integers.  The random
    part of a request id is an argument.  [transferAssetSync] runs
    [transferAsset], which does not wait, under the lock of [PromiseLock.v]. *)

From Stdlib Require Import Ascii.
From stdpp Require Import prelude gmap strings list pretty sorting.
From S2P Require Import Prelude JsText.

Inductive AssetKind := nft | currency | achievement | cosmetic.
Inductive AssetRarity := common | uncommon | rare | epic | legendary.

#[export] Instance AssetKind_eq_dec : EqDecision AssetKind.
Proof. solve_decision. Defined.

Record AssetDefinition := mkAsset {
  ad_assetId : string; ad_kind : AssetKind; ad_rarity : AssetRarity; ad_name : string; compatibleGames : list Z;
  maxSupply : Z; currentSupply : Z; isTransferable : bool; isTradeable : bool; ad_createdAt : Z }.

Record AssetBalance := mkBalance {
  b_owner : string; b_assetId : string; b_amount : Z; nftSerial : option Z; acquiredAt : Z; b_sourceGameId : Z; b_version : Z }.

Inductive BridgeStatus := pending | confirmed | completed | failed | cancelled.

#[export] Instance BridgeStatus_eq_dec : EqDecision BridgeStatus.
Proof. solve_decision. Defined.

Record BridgeRequest := mkRequest {
  r_requestId : string; r_owner : string; r_assetId : string; r_amount : Z; sourceChain : string; targetChain : string;
  r_sourceGameId : Z; targetGameId : Z; r_status : BridgeStatus; r_createdAt : Z; completedAt : option Z }.

Record ChainConfig := mkChain {
  chainId : string; chainName : string; bridgeContract : string; chainActive : bool; maxBridgeAmount : Z; bridgeFeeBps : Z; cooldownSecs : Z }.

(** The maps of [CrossGameAssetService]. *)
Record Service := mkService {
  assets : jsmap AssetDefinition; balances : jsmap AssetBalance; bridgeRequests : jsmap BridgeRequest; chains : jsmap ChainConfig }.

Definition new_service : Service := mkService [] [] [] [].

Definition set_balances (m : jsmap AssetBalance) (s : Service) : Service := mkService (assets s) m (bridgeRequests s) (chains s).
Definition set_requests (m : jsmap BridgeRequest) (s : Service) : Service := mkService (assets s) (balances s) m (chains s).

Definition registerAsset (asset : AssetDefinition) (s : Service) : Service :=
  mkService (map_set (ad_assetId asset) asset (assets s)) (balances s) (bridgeRequests s) (chains s).

Definition getAsset (assetId : string) (s : Service) : option AssetDefinition := map_get assetId (assets s).
Definition getAllAssets (s : Service) : list AssetDefinition := map_values (assets s).

Definition balance_key (owner assetId : string) : string := owner +:+ ":" +:+ assetId.

(** [(version || 1) + 1] *)
Definition next_version (v : Z) : Z := (if bool_decide (v = 0) then 1 else v) + 1.

Definition b_moved (delta : Z) (b : AssetBalance) : AssetBalance :=
  mkBalance (b_owner b) (b_assetId b) (b_amount b + delta) (nftSerial b) (acquiredAt b) (b_sourceGameId b) (next_version (b_version b)).

(** Adding to a balance, or opening it. *)
Definition credit (now : Z) (owner assetId : string) (amount game : Z) (m : jsmap AssetBalance) : jsmap AssetBalance :=
  let key := balance_key owner assetId in
  match map_get key m with
  | Some existing => map_set key (b_moved amount existing) m
  | None => map_set key (mkBalance owner assetId amount None now game 1) m
  end.

(** Taking from a balance that covers the amount; an empty one is removed. *)
Definition debit (key : string) (amount : Z) (b : AssetBalance) (m : jsmap AssetBalance) : jsmap AssetBalance :=
  let b' := b_moved (- amount) b in
  let m' := map_set key b' m in
  if bool_decide (b_amount b' = 0) then map_delete key m' else m'.

Definition ad_minted (amount : Z) (a : AssetDefinition) : AssetDefinition :=
  mkAsset (ad_assetId a) (ad_kind a) (ad_rarity a) (ad_name a) (compatibleGames a) (maxSupply a) (currentSupply a + amount)
    (isTransferable a) (isTradeable a) (ad_createdAt a).

Definition mintAsset (now : Z) (assetId to_ : string) (amount sourceGameId : Z) (s : Service) : Service * option AssetBalance :=
  match map_get assetId (assets s) with
  | None => (s, None)
  | Some asset =>
      if bool_decide (0 < maxSupply asset) && bool_decide (maxSupply asset < currentSupply asset + amount) then (s, None)
      else if negb (bool_decide (sourceGameId ∈ compatibleGames asset)) then (s, None)
      else
        let bs := credit now to_ assetId amount sourceGameId (balances s) in
        (mkService (map_set assetId (ad_minted amount asset) (assets s)) bs (bridgeRequests s) (chains s),
         map_get (balance_key to_ assetId) bs)
  end.

Definition transferAsset (now : Z) (from_ to_ assetId : string) (amount fromGameId toGameId : Z) (s : Service) : Service * bool :=
  match map_get assetId (assets s) with
  | None => (s, false)
  | Some asset =>
      if negb (isTransferable asset) then (s, false)
      else if negb (bool_decide (toGameId ∈ compatibleGames asset)) then (s, false)
      else
        let fromKey := balance_key from_ assetId in
        match map_get fromKey (balances s) with
        | None => (s, false)
        | Some fromBalance =>
            if bool_decide (b_amount fromBalance < amount) then (s, false)
            else (set_balances (credit now to_ assetId amount fromGameId (debit fromKey amount fromBalance (balances s))) s, true)
        end
  end.

Definition requestId (now : Z) (suffix : string) : string := "bridge-" +:+ pretty now +:+ "-" +:+ suffix.

Definition initiateBridge (now : Z) (suffix owner assetId : string) (amount : Z) (target : string) (sourceGameId targetGameId : Z)
    (s : Service) : Service * option BridgeRequest :=
  match map_get assetId (assets s) with
  | None => (s, None)
  | Some asset =>
      if negb (isTransferable asset) then (s, None) else
      match map_get target (chains s) with
      | None => (s, None)
      | Some chain =>
          if negb (chainActive chain) then (s, None)
          else if bool_decide (0 < maxBridgeAmount chain) && bool_decide (maxBridgeAmount chain < amount) then (s, None)
          else
            let key := balance_key owner assetId in
            match map_get key (balances s) with
            | None => (s, None)
            | Some balance =>
                if bool_decide (b_amount balance < amount) then (s, None)
                else
                  let request := mkRequest (requestId now suffix) owner assetId amount "stellar" target sourceGameId targetGameId pending now None in
                  (set_requests (map_set (requestId now suffix) request (bridgeRequests s)) (set_balances (debit key amount balance (balances s)) s),
                   Some request)
            end
      end
  end.

Definition r_ended (st : BridgeStatus) (now : Z) (r : BridgeRequest) : BridgeRequest :=
  mkRequest (r_requestId r) (r_owner r) (r_assetId r) (r_amount r) (sourceChain r) (targetChain r) (r_sourceGameId r) (targetGameId r)
    st (r_createdAt r) (Some now).

Definition completeBridge (now : Z) (id : string) (s : Service) : Service * bool :=
  match map_get id (bridgeRequests s) with
  | None => (s, false)
  | Some request =>
      if negb (bool_decide (r_status request = pending)) then (s, false)
      else (set_requests (map_set id (r_ended completed now request) (bridgeRequests s)) s, true)
  end.

(** The locked assets go back to their owner. *)
Definition refund_request (now : Z) (id : string) (request : BridgeRequest) (st : BridgeStatus) (s : Service) : Service :=
  set_requests (map_set id (r_ended st now request) (bridgeRequests s))
    (set_balances (credit now (r_owner request) (r_assetId request) (r_amount request) (r_sourceGameId request) (balances s)) s).

Definition failBridge (now : Z) (id : string) (s : Service) : Service * bool :=
  match map_get id (bridgeRequests s) with
  | None => (s, false)
  | Some request =>
      if negb (bool_decide (r_status request = pending)) then (s, false)
      else (refund_request now id request failed s, true)
  end.

Definition cancelBridge (now : Z) (id ownerId : string) (s : Service) : Service * bool :=
  match map_get id (bridgeRequests s) with
  | None => (s, false)
  | Some request =>
      if negb (bool_decide (r_owner request = ownerId)) then (s, false)
      else if negb (bool_decide (r_status request = pending)) then (s, false)
      else (refund_request now id request cancelled s, true)
  end.

Definition registerChain (chain : ChainConfig) (s : Service) : Service :=
  mkService (assets s) (balances s) (bridgeRequests s) (map_set (chainId chain) chain (chains s)).

Definition getChain (id : string) (s : Service) : option ChainConfig := map_get id (chains s).
Definition getSupportedChains (s : Service) : list ChainConfig := List.filter chainActive (map_values (chains s)).
Definition getPlayerInventory (player : string) (s : Service) : list AssetBalance :=
  List.filter (λ b, bool_decide (b_owner b = player)) (map_values (balances s)).

(** ** Analytics *)

Definition kind_name (k : AssetKind) : string :=
  match k with nft => "nft" | currency => "currency" | achievement => "achievement" | cosmetic => "cosmetic" end.

(** [counts[key] = (counts[key] || 0) + n] for every entry. *)
Definition tally (entries : list (string * Z)) : jsmap Z :=
  foldl (λ counts '(key, n), map_set key (default 0 (map_get key counts) + n) counts) [] entries.

Definition is_status (st : BridgeStatus) (r : BridgeRequest) : bool := bool_decide (r_status r = st).

Record AssetAnalytics := mkAnalytics {
  totalAssetsRegistered : nat; totalMinted : Z; totalTransferred : nat; totalBridged : nat; activeBridgeRequests : nat;
  bridgeVolumeByChain : jsmap Z; assetSupplyByType : jsmap Z; topAssetsByVolume : list (string * Z) }.

Definition getAnalytics (s : Service) : AssetAnalytics :=
  let allAssets := map_values (assets s) in
  let allBridges := map_values (bridgeRequests s) in
  mkAnalytics (length allAssets) (zsum (currentSupply <$> allAssets))
    (length (List.filter (is_status completed) allBridges)) (length (List.filter (is_status completed) allBridges))
    (length (List.filter (is_status pending) allBridges))
    (tally ((λ r, (targetChain r, r_amount r)) <$> List.filter (is_status completed) allBridges))
    (tally ((λ a, (kind_name (ad_kind a), currentSupply a)) <$> allAssets))
    ((λ a, (ad_assetId a, currentSupply a)) <$> take 10 (js_sort (λ a b, currentSupply b - currentSupply a) allAssets)).

(** ** Cross-game assets: conservation

    Over any calls with non-negative amounts, the supply of an asset is what its
    owners hold plus what bridge requests have locked or carried away. *)

(** ** Sums over maps *)

Definition msum {V} (f : V → Z) (m : jsmap V) : Z := zsum (f <$> map_values m).

Lemma msum_cons {V} (f : V → Z) k v m : msum f ((k, v) :: m) = f v + msum f m.
Proof. reflexivity. Qed.

Lemma msum_set {V} (f : V → Z) k v m : msum f (map_set k v m) = msum f m - from_option f 0 (map_get k m) + f v.
Proof.
  induction m as [|[j w] m IH]; [unfold msum; simpl; lia|]. simpl. case_bool_decide; rewrite !msum_cons; [simpl; lia|].
  rewrite IH. lia.
Qed.

Lemma msum_delete {V} (f : V → Z) k m : NoDup (map_keys m) → msum f (map_delete k m) = msum f m - from_option f 0 (map_get k m).
Proof.
  induction m as [|[j w] m IH]; [unfold msum; simpl; lia|]. simpl. intros [Hj Hm]%NoDup_cons.
  case_bool_decide as E; rewrite !msum_cons, IH by done.
  - subst. rewrite (proj2 (map_get_None j m)) by done. simpl. lia.
  - lia.
Qed.

Lemma map_set_elem {V} k v j w (m : jsmap V) : (j, w) ∈ map_set k v m → (j, w) = (k, v) ∨ (j, w) ∈ m.
Proof.
  induction m as [|[i x] m IH]; simpl; [rewrite list_elem_of_singleton; auto|]. case_bool_decide; rewrite !elem_of_cons; naive_solver.
Qed.

Lemma map_delete_elem {V} k j w (m : jsmap V) : (j, w) ∈ map_delete k m → (j, w) ∈ m.
Proof. induction m as [|[i x] m IH]; simpl; [done|]. case_bool_decide; rewrite ?elem_of_cons; naive_solver. Qed.

(** ** Keys *)

(** No colon: the owner can be read back from the key of a balance. *)
Definition plain (s : string) : Prop := all_chars (λ c, negb (bool_decide (c = ":"%char))) s = true.

Lemma balance_key_inj o1 a1 o2 a2 : plain o1 → plain o2 → balance_key o1 a1 = balance_key o2 a2 → o1 = o2 ∧ a1 = a2.
Proof.
  unfold balance_key, plain. revert o2. induction o1 as [|c o1 IH]; intros [|d o2]; cbn [all_chars]; intros H1 H2 E.
  - injection E as E. done.
  - simpl in E. injection E as <- _. discriminate H2.
  - simpl in E. injection E as -> _. discriminate H1.
  - simpl in E. injection E as <- E. apply andb_prop in H1 as [_ H1], H2 as [_ H2]. by destruct (IH o2 H1 H2 E) as [-> ->].
Qed.

(** ** The invariant *)

Definition balance_wf (m : jsmap AssetBalance) : Prop := NoDup (map_keys m) ∧
  ∀ k b, (k, b) ∈ m → k = balance_key (b_owner b) (b_assetId b) ∧ plain (b_owner b) ∧ 0 ≤ b_amount b.

Definition part (id : string) (b : AssetBalance) : Z := if bool_decide (b_assetId b = id) then b_amount b else 0.

Definition at_stake (id : string) (r : BridgeRequest) : Z :=
  if bool_decide (r_assetId r = id) && bool_decide (r_status r = pending ∨ r_status r = completed) then r_amount r else 0.

Lemma at_stake_live id r : r_status r = pending ∨ r_status r = completed →
  at_stake id r = if bool_decide (r_assetId r = id) then r_amount r else 0.
Proof. intros H. unfold at_stake. by rewrite (bool_decide_true (_ ∨ _)), andb_true_r. Qed.

Lemma at_stake_over id r : r_status r = failed ∨ r_status r = cancelled → at_stake id r = 0.
Proof. intros H. unfold at_stake. rewrite (bool_decide_false (_ ∨ _)) by (destruct H as [-> | ->]; by intros [?|?]). by rewrite andb_false_r. Qed.

(** What owners hold of an asset, what requests have locked or carried away,
    and the supply on record. *)
Definition held (id : string) (s : Service) : Z := msum (part id) (balances s).
Definition bridged (id : string) (s : Service) : Z := msum (at_stake id) (bridgeRequests s).
Definition supply (id : string) (s : Service) : Z := from_option currentSupply 0 (map_get id (assets s)).

Definition balance_of (owner id : string) (s : Service) : Z := from_option b_amount 0 (map_get (balance_key owner id) (balances s)).

Record assets_inv (s : Service) : Prop := {
  ai_balances : balance_wf (balances s);
  ai_requests id r : (id, r) ∈ bridgeRequests s → plain (r_owner r) ∧ 0 ≤ r_amount r;
  ai_supply id : supply id s = held id s + bridged id s;
  ai_cap id a : map_get id (assets s) = Some a → 0 < maxSupply a → currentSupply a ≤ maxSupply a
}.

Lemma part_get m o a id b : balance_wf m → plain o → map_get (balance_key o a) m = Some b →
  b_owner b = o ∧ b_assetId b = a ∧ part id b = (if bool_decide (a = id) then b_amount b else 0) ∧ 0 ≤ b_amount b.
Proof.
  intros [_ Hm] Ho Hb. apply map_get_elem, Hm in Hb as (E & Hp & Hn). apply balance_key_inj in E as [-> ->]; try done.
Qed.

Lemma balance_wf_set m o a b : balance_wf m → plain o → b_owner b = o → b_assetId b = a → 0 ≤ b_amount b →
  balance_wf (map_set (balance_key o a) b m).
Proof.
  intros [Hd Hm] Ho <- <- Hb. split; [by apply map_set_nodup|]. intros k c [[= -> ->]|Hc]%map_set_elem; auto.
Qed.

Lemma balance_wf_delete m k : balance_wf m → balance_wf (map_delete k m).
Proof. intros [Hd Hm]. split; [by apply map_delete_nodup|]. intros j b Hb%map_delete_elem. auto. Qed.

Lemma credit_wf now o a amt g m : balance_wf m → plain o → 0 ≤ amt → balance_wf (credit now o a amt g m).
Proof.
  intros Hm Ho Ha. unfold credit. destruct (map_get _ m) as [b|] eqn:Hb; [|by apply balance_wf_set].
  destruct (part_get m o a a b Hm Ho Hb) as (? & ? & _ & ?). apply balance_wf_set; simpl; auto with lia.
Qed.

Lemma credit_sum now o a amt g m id : balance_wf m → plain o →
  msum (part id) (credit now o a amt g m) = msum (part id) m + if bool_decide (a = id) then amt else 0.
Proof.
  intros Hm Ho. unfold credit. destruct (map_get _ m) as [b|] eqn:Hb; rewrite msum_set, Hb; simpl.
  - destruct (part_get m o a id b Hm Ho Hb) as (? & <- & -> & _). unfold part. simpl. case_bool_decide; lia.
  - unfold part. simpl. case_bool_decide; lia.
Qed.

Lemma debit_wf o a amt b m : balance_wf m → plain o → map_get (balance_key o a) m = Some b → amt ≤ b_amount b →
  balance_wf (debit (balance_key o a) amt b m).
Proof.
  intros Hm Ho Hb Ha. destruct (part_get m o a a b Hm Ho Hb) as (? & ? & _ & ?). unfold debit.
  assert (balance_wf (map_set (balance_key o a) (b_moved (- amt) b) m)) by (apply balance_wf_set; simpl; auto with lia).
  case_bool_decide; [by apply balance_wf_delete|done].
Qed.

Lemma debit_sum o a amt b m id : balance_wf m → plain o → map_get (balance_key o a) m = Some b →
  msum (part id) (debit (balance_key o a) amt b m) = msum (part id) m - if bool_decide (a = id) then amt else 0.
Proof.
  intros Hm Ho Hb. destruct (part_get m o a id b Hm Ho Hb) as (? & Ha & Hp & _). unfold debit.
  assert (msum (part id) (map_set (balance_key o a) (b_moved (- amt) b) m) =
    msum (part id) m - if bool_decide (a = id) then amt else 0) as E.
  { rewrite msum_set, Hb. simpl. rewrite Hp. unfold part. simpl. rewrite Ha. case_bool_decide; lia. }
  cbv zeta. destruct (bool_decide_reflect (b_amount (b_moved (- amt) b) = 0)) as [Hz|]; [|exact E]. rewrite msum_delete by apply map_set_nodup, Hm. rewrite map_get_set_eq, E. cbn [from_option].
  assert (part id (b_moved (- amt) b) = 0) as -> by (unfold part; rewrite Hz; by destruct (bool_decide (b_assetId _ = id))). lia.
Qed.

(** ** Calls *)

Inductive asset_call :=
| RegisterAsset (a : AssetDefinition)
| MintAsset (now : Z) (id to_ : string) (amount game : Z)
| TransferAsset (now : Z) (from_ to_ id : string) (amount g1 g2 : Z)
| InitiateBridge (now : Z) (suffix owner id : string) (amount : Z) (target : string) (g1 g2 : Z)
| CompleteBridge (now : Z) (rid : string)
| FailBridge (now : Z) (rid : string)
| CancelBridge (now : Z) (rid owner : string)
| RegisterChain (c : ChainConfig).

Definition asset_exec (c : asset_call) (s : Service) : Service :=
  match c with
  | RegisterAsset a => registerAsset a s
  | MintAsset now id to_ amount game => (mintAsset now id to_ amount game s).1
  | TransferAsset now from_ to_ id amount g1 g2 => (transferAsset now from_ to_ id amount g1 g2 s).1
  | InitiateBridge now suffix owner id amount target g1 g2 => (initiateBridge now suffix owner id amount target g1 g2 s).1
  | CompleteBridge now rid => (completeBridge now rid s).1
  | FailBridge now rid => (failBridge now rid s).1
  | CancelBridge now rid owner => (cancelBridge now rid owner s).1
  | RegisterChain c => registerChain c s
  end.

(** Amounts are not negative, names of owners have no colon, assets are
    registered once and with no supply, random ids are new. *)
Definition asset_call_ok (c : asset_call) (s : Service) : Prop :=
  match c with
  | RegisterAsset a => map_get (ad_assetId a) (assets s) = None ∧ currentSupply a = 0
  | MintAsset _ _ to_ amount _ => plain to_ ∧ 0 ≤ amount
  | TransferAsset _ from_ to_ _ amount _ _ => plain from_ ∧ plain to_ ∧ 0 ≤ amount
  | InitiateBridge now suffix owner _ amount _ _ _ => plain owner ∧ 0 ≤ amount ∧ map_get (requestId now suffix) (bridgeRequests s) = None
  | _ => True
  end.

Fixpoint asset_run (cs : list asset_call) (s : Service) : Service :=
  match cs with [] => s | c :: cs => asset_run cs (asset_exec c s) end.

Fixpoint asset_run_ok (cs : list asset_call) (s : Service) : Prop :=
  match cs with [] => True | c :: cs => asset_call_ok c s ∧ asset_run_ok cs (asset_exec c s) end.

Lemma assets_inv_new : assets_inv new_service.
Proof.
  split; simpl; [split; simpl; [constructor|]|..|done|done]; intros ?? H; by apply elem_of_nil in H.
Qed.

Lemma mint_inv now id to_ amount game s : assets_inv s → plain to_ → 0 ≤ amount → assets_inv (mintAsset now id to_ amount game s).1.
Proof.
  intros Hs Hto Ha. unfold mintAsset. destruct (map_get id (assets s)) as [a|] eqn:Hid; [|done].
  destruct (bool_decide (0 < maxSupply a) && bool_decide (maxSupply a < currentSupply a + amount)) eqn:Hcap; [done|].
  rewrite andb_false_iff, !bool_decide_eq_false in Hcap.
  destruct (bool_decide (game ∈ _)); [|done]. simpl. destruct Hs as [Hb Hr Hsup Hc]. split; simpl.
  - by apply credit_wf.
  - done.
  - intros i. specialize (Hsup i). unfold supply, held, bridged in *. simpl. rewrite map_get_set, credit_sum by done.
    destruct (decide (i = id)) as [->|Hi].
    + rewrite !bool_decide_true by done. rewrite Hid in Hsup. simpl in *. lia.
    + rewrite !bool_decide_false by congruence. lia.
  - intros i b. rewrite map_get_set. case_bool_decide; [|by apply Hc]. intros [= <-]. simpl. intros Hpos.
    lia.
Qed.

Lemma transfer_inv now from_ to_ id amount g1 g2 s : assets_inv s → plain from_ → plain to_ → 0 ≤ amount →
  assets_inv (transferAsset now from_ to_ id amount g1 g2 s).1.
Proof.
  intros Hs Hf Hto Ha. unfold transferAsset. destruct (map_get id (assets s)) as [a|] eqn:Hid; [|done].
  destruct (isTransferable a); [|done]. simpl. case_bool_decide; [|done]. simpl.
  destruct (map_get (balance_key from_ id) (balances s)) as [b|] eqn:Hbal; [|done]. case_bool_decide; [done|]. simpl.
  destruct Hs as [Hb Hr Hsup Hc]. assert (balance_wf (debit (balance_key from_ id) amount b (balances s))) by (apply debit_wf; auto with lia).
  split; simpl; [by apply credit_wf|done| |done].
  intros i. specialize (Hsup i). unfold supply, held, bridged in *. simpl. rewrite credit_sum, debit_sum by done. lia.
Qed.

Lemma bridge_inv now suffix owner id amount target g1 g2 s :
  assets_inv s → plain owner → 0 ≤ amount → map_get (requestId now suffix) (bridgeRequests s) = None →
  assets_inv (initiateBridge now suffix owner id amount target g1 g2 s).1.
Proof.
  intros Hs Ho Ha Hnew. unfold initiateBridge. destruct (map_get id (assets s)) as [a|] eqn:Hid; [|done].
  destruct (isTransferable a); [|done]. simpl. destruct (map_get target (chains s)) as [c|]; [|done].
  destruct (chainActive c); [|done]. simpl. destruct (_ && _); [done|].
  destruct (map_get (balance_key owner id) (balances s)) as [b|] eqn:Hbal; [|done]. case_bool_decide; [done|]. cbn [fst].
  destruct Hs as [Hb Hr Hsup Hc]. split; simpl; [apply debit_wf; auto with lia| | |done].
  - intros i r [[= -> ->]|Hin]%map_set_elem; simpl; eauto.
  - intros i. specialize (Hsup i). unfold supply, held, bridged in *. simpl. rewrite debit_sum, msum_set, Hnew by done.
    rewrite at_stake_live by (simpl; auto). simpl. lia.
Qed.

Lemma refund_inv now rid r st s : assets_inv s → map_get rid (bridgeRequests s) = Some r → r_status r = pending →
  st = failed ∨ st = cancelled → assets_inv (refund_request now rid r st s).
Proof.
  intros [Hb Hr Hsup Hc] Hrid Hp Hst. destruct (Hr rid r (map_get_elem _ _ _ Hrid)) as [Ho Ha]. split; simpl; [by apply credit_wf| | |done].
  - intros i q [[= -> ->]|Hin]%map_set_elem; simpl; eauto.
  - intros i. specialize (Hsup i). unfold supply, held, bridged in *. simpl. rewrite credit_sum, msum_set, Hrid by done.
    simpl. rewrite (at_stake_live i r), at_stake_over by (simpl; naive_solver). lia.
Qed.

Lemma complete_inv now rid s : assets_inv s → assets_inv (completeBridge now rid s).1.
Proof.
  intros Hs. unfold completeBridge. destruct (map_get rid (bridgeRequests s)) as [r|] eqn:Hrid; [|done].
  case_bool_decide as Hp; [|done]. simpl. destruct Hs as [Hb Hr Hsup Hc]. split; simpl; [done| | |done].
  - intros i q [[= -> ->]|Hin]%map_set_elem; [|by eauto]. by apply (Hr rid r), map_get_elem.
  - intros i. specialize (Hsup i). unfold supply, held, bridged in *. simpl. rewrite msum_set, Hrid.
    simpl. rewrite !at_stake_live by (simpl; auto). simpl. lia.
Qed.

Lemma asset_exec_inv c s : assets_inv s → asset_call_ok c s → assets_inv (asset_exec c s).
Proof.
  intros Hs Hc. destruct c; simpl in *; destruct_and?; eauto using mint_inv, transfer_inv, bridge_inv, complete_inv.
  - destruct Hs as [Hb Hr Hsup Hcap]. split; simpl; [done..| |].
    + intros i. specialize (Hsup i). unfold supply, held, bridged in *. simpl. rewrite map_get_set. case_bool_decide; [subst|done].
      rewrite H in Hsup. simpl in *. lia.
    + intros i b. rewrite map_get_set. case_bool_decide; [intros [= <-]; lia|]. apply Hcap.
  - unfold failBridge. destruct (map_get rid (bridgeRequests s)) as [r|] eqn:Hrid; [|done]. case_bool_decide; [|done].
    apply refund_inv; auto.
  - unfold cancelBridge. destruct (map_get rid (bridgeRequests s)) as [r|] eqn:Hrid; [|done]. case_bool_decide; [|done].
    case_bool_decide; [|done]. apply refund_inv; auto.
  - by destruct Hs.
Qed.

Lemma asset_run_inv cs s : assets_inv s → asset_run_ok cs s → assets_inv (asset_run cs s).
Proof.
  revert s. induction cs as [|c cs IH]; simpl; [done|]. intros s Hs [Hc Hcs]. apply IH; [by apply asset_exec_inv|done].
Qed.

(** C33: no asset is lost or made up.  After any calls (amounts not negative,
    owners without a colon in their names, every asset registered once with no
    supply, new request ids), the supply on record of every asset is the sum of
    the balances of its owners and of the amounts in requests that are pending
    or completed; no balance is negative; and a limited supply is within its
    limit. *)
Theorem asset_conservation cs : asset_run_ok cs new_service →
  let s := asset_run cs new_service in
  ∀ id, supply id s = held id s + bridged id s ∧ (∀ owner, 0 ≤ balance_of owner id s) ∧
    ∀ a, getAsset id s = Some a → 0 < maxSupply a → currentSupply a ≤ maxSupply a.
Proof.
  intros Hcs s id. destruct (asset_run_inv cs new_service assets_inv_new Hcs) as [[_ Hb] Hr Hsup Hcap].
  split_and!; [apply Hsup| |apply Hcap]. intros owner. unfold balance_of.
  destruct (map_get _ _) as [b|] eqn:E; simpl; [|done]. by apply map_get_elem, Hb in E as (_ & _ & ?).
Qed.

(** ** The life of a request *)

Definition same_order (r r' : BridgeRequest) : Prop :=
  r_owner r' = r_owner r ∧ r_assetId r' = r_assetId r ∧ r_amount r' = r_amount r.

Definition request_step (r r' : BridgeRequest) : Prop :=
  same_order r r' ∧ (r_status r ≠ pending → r' = r).

Lemma request_step_refl r : request_step r r.
Proof. done. Qed.

Lemma request_step_ended st now r : r_status r = pending → request_step r (r_ended st now r).
Proof. intros H. split; [done|]. by intros []. Qed.

Lemma request_step_trans r1 r2 r3 : request_step r1 r2 → request_step r2 r3 → request_step r1 r3.
Proof.
  intros [(? & ? & ?) Hs1] [(? & ? & ?) Hs2]. split; [repeat split; congruence|].
  intros H'. specialize (Hs1 H'). subst r2. auto.
Qed.

Lemma set_request_step rid r' (s : Service) i r :
  (∀ q, map_get rid (bridgeRequests s) = Some q → request_step q r') →
  map_get i (bridgeRequests s) = Some r → ∃ q, map_get i (map_set rid r' (bridgeRequests s)) = Some q ∧ request_step r q.
Proof. intros Hr Hi. rewrite map_get_set. case_bool_decide; subst; eauto using request_step_refl. Qed.

Lemma asset_exec_request c s i r : asset_call_ok c s → map_get i (bridgeRequests s) = Some r →
  ∃ r', map_get i (bridgeRequests (asset_exec c s)) = Some r' ∧ request_step r r'.
Proof.
  intros Hc Hr. destruct c; simpl in *; eauto using request_step_refl.
  - unfold mintAsset. repeat case_match; simpl; eauto using request_step_refl.
  - unfold transferAsset. repeat case_match; simpl; eauto using request_step_refl.
  - unfold initiateBridge. repeat case_match; simpl; eauto using request_step_refl.
    destruct Hc as (_ & _ & Hnew). apply set_request_step; [congruence|done].
  - unfold completeBridge. destruct (map_get rid _) as [q|] eqn:Hq; [|eauto using request_step_refl].
    case_bool_decide; simpl; [|eauto using request_step_refl]. apply set_request_step; [|done].
    intros q' Hq'. simplify_eq. by apply request_step_ended.
  - unfold failBridge. destruct (map_get rid _) as [q|] eqn:Hq; [|eauto using request_step_refl].
    case_bool_decide; simpl; [|eauto using request_step_refl]. apply set_request_step; [|done].
    intros q' Hq'. simplify_eq. by apply request_step_ended.
  - unfold cancelBridge. destruct (map_get rid _) as [q|] eqn:Hq; [|eauto using request_step_refl].
    case_bool_decide; [|eauto using request_step_refl]. case_bool_decide; simpl; [|eauto using request_step_refl].
    apply set_request_step; [|done]. intros q' Hq'. simplify_eq. by apply request_step_ended.
Qed.

Lemma asset_run_request cs s i r : asset_run_ok cs s → map_get i (bridgeRequests s) = Some r →
  ∃ r', map_get i (bridgeRequests (asset_run cs s)) = Some r' ∧ request_step r r'.
Proof.
  revert s r. induction cs as [|c cs IH]; simpl; [eauto using request_step_refl|]. intros s r [Hc Hcs] Hr.
  destruct (asset_exec_request c s i r Hc Hr) as (r1 & H1 & S1). destruct (IH _ _ Hcs H1) as (r2 & H2 & S2).
  eauto using request_step_trans.
Qed.

Lemma initiate_success now suffix owner id amount target g1 g2 s s1 r :
  initiateBridge now suffix owner id amount target g1 g2 s = (s1, Some r) →
  ∃ b, map_get (balance_key owner id) (balances s) = Some b ∧ amount ≤ b_amount b ∧
    r = mkRequest (requestId now suffix) owner id amount "stellar" target g1 g2 pending now None ∧
    s1 = set_requests (map_set (requestId now suffix) r (bridgeRequests s))
           (set_balances (debit (balance_key owner id) amount b (balances s)) s).
Proof.
  unfold initiateBridge. destruct (map_get id (assets s)) as [a|]; [|done]. destruct (isTransferable a); [|done].
  destruct (map_get target (chains s)) as [c|]; [|done]. destruct (chainActive c); [|done]. simpl. destruct (_ && _); [done|].
  destruct (map_get (balance_key owner id) (balances s)) as [b|]; [|done]. case_bool_decide; [done|].
  intros [= <- <-]. exists b. split_and!; [done|lia|done|done].
Qed.

Lemma debit_get key amt b m : from_option b_amount 0 (map_get key (debit key amt b m)) = b_amount b - amt.
Proof.
  unfold debit. cbv zeta. case_bool_decide as Hz; simpl in Hz.
  - rewrite map_get_delete_eq. simpl. lia.
  - rewrite map_get_set_eq. simpl. lia.
Qed.

Lemma settled_refused rid r s t o : map_get rid (bridgeRequests s) = Some r → r_status r ≠ pending →
  completeBridge t rid s = (s, false) ∧ failBridge t rid s = (s, false) ∧ cancelBridge t rid o s = (s, false).
Proof.
  intros Hr Hp. unfold completeBridge, failBridge, cancelBridge. rewrite Hr, (bool_decide_false (r_status r = pending)) by done.
  simpl. split_and!; [done..|]. by case_bool_decide.
Qed.

(** A bridge request is settled once.  When initiating it succeeded, the
    amount has left the balance of its owner.  Whatever calls follow, the request
    stays on record with its owner, asset and amount; and once it is completed,
    failed or cancelled no call changes it and every attempt to settle it again
    is refused without an effect. *)
Theorem bridge_settled_once cs now suffix owner id amount target g1 g2 s1 r cs' :
  let s := asset_run cs new_service in
  asset_run_ok cs new_service → asset_call_ok (InitiateBridge now suffix owner id amount target g1 g2) s →
  initiateBridge now suffix owner id amount target g1 g2 s = (s1, Some r) → asset_run_ok cs' s1 →
  balance_of owner id s1 = balance_of owner id s - amount ∧
  ∃ r', map_get (requestId now suffix) (bridgeRequests (asset_run cs' s1)) = Some r' ∧
    r_owner r' = owner ∧ r_assetId r' = id ∧ r_amount r' = amount ∧
    (r_status r' ≠ pending → ∀ cs2, asset_run_ok cs2 (asset_run cs' s1) → let s2 := asset_run cs2 (asset_run cs' s1) in
       map_get (requestId now suffix) (bridgeRequests s2) = Some r' ∧
       ∀ t o, completeBridge t (requestId now suffix) s2 = (s2, false) ∧ failBridge t (requestId now suffix) s2 = (s2, false) ∧
         cancelBridge t (requestId now suffix) o s2 = (s2, false)).
Proof.
  intros s Hcs Hok Hinit Hcs'. apply initiate_success in Hinit as (b & Hb & _ & -> & ->). split.
  - unfold balance_of. simpl. by rewrite debit_get, Hb.
  - destruct (asset_run_request cs' _ (requestId now suffix) _ Hcs' (map_get_set_eq _ _ _)) as (r' & Hr' & (Ho & Hi & Ha) & _).
    exists r'. split_and!; [done..|]. intros Hp cs2 Hcs2 s2.
    destruct (asset_run_request cs2 _ _ _ Hcs2 Hr') as (r2 & Hr2 & _ & Hsame). rewrite Hsame in Hr2 by done.
    split; [done|]. intros t o. by apply (settled_refused _ r').
Qed.

(** ** Runs *)

Definition gold : AssetDefinition := mkAsset "gold" currency common "Gold" [1; 2] 1000 0 true true 0.
Definition ethereum : ChainConfig := mkChain "eth" "Ethereum" "0x0" true 0 0 0.
Definition asset_calls : list asset_call :=
  [RegisterAsset gold; RegisterChain ethereum; MintAsset 1 "gold" "ann" 100 1; TransferAsset 2 "ann" "bob" "gold" 30 1 2].

Lemma asset_conservation_witness : let s := asset_run asset_calls new_service in
  balance_of "ann" "gold" s = 70 ∧ supply "gold" s = held "gold" s + bridged "gold" s.
Proof.
  split; [vm_compute; reflexivity|].
  apply (asset_conservation asset_calls); vm_compute; repeat split; discriminate.
Defined.

Lemma bridge_settled_once_witness : ∃ s1 r, 
  initiateBridge 3 "x" "ann" "gold" 70 "eth" 1 1 (asset_run asset_calls new_service) = (s1, Some r) ∧
  balance_of "ann" "gold" s1 = 0.
Proof.
  eexists _, _. split; [vm_compute; reflexivity|].
  eapply (bridge_settled_once asset_calls 3 "x" "ann" "gold" 70 "eth" 1 1 _ _ []);
    [vm_compute; repeat split; discriminate|vm_compute; repeat split; discriminate|vm_compute; reflexivity|exact I].
Defined.

(** A transfer of a negative amount is not refused: it takes assets from the
    account it is sent to. *)
Lemma negative_transfer_steals : let s := asset_run asset_calls new_service in
  let '(s', ok) := transferAsset 3 "bob" "ann" "gold" (-70) 1 1 s in
  ok = true ∧ balance_of "bob" "gold" s' = 100 ∧ balance_of "ann" "gold" s' = 0.
Proof. vm_compute. repeat split. Qed.

(** Owners whose names contain a colon can share a balance with others. *)
Lemma colliding_owners : balance_key "a:b" "c" = balance_key "a" "b:c".
Proof. reflexivity. Qed.
