(* ===== verification/WebSocketPool.v ===== *)
(** * The websocket pool: [server/src/services/websocketPool.service.ts]

    Live connections, the sockets of each user, and the queue of messages for
    users who are offline.  The three maps are the state; what the service asks
    of socket.io (emitting, disconnecting) is recorded in order in two logs.
    The handlers [init] installs are one operation each.  [disconnect(true)] is
    a request here; the disconnect event it causes is an event of its own.
    The state is the one after [init], so there is a server to emit to; logging
    and the memory alert have no effect on it. *)

From stdpp Require Import prelude gmap strings list pretty sorting.
From S2P Require Import Prelude JsText Json.

Definition MESSAGE_TTL_MS : Z := 5 * 60 * 1000.
Definition MAX_QUEUE_SIZE : nat := 100.
Definition HEARTBEAT_INTERVAL_MS : Z := 30000.
Definition HEARTBEAT_TIMEOUT_INTERVALS : Z := 2.
Definition MAX_CONNECTIONS_PER_USER : nat := 10.
Definition MAX_TOTAL_CONNECTIONS : nat := 1000.

Record QueuedMessage := mkQueued { q_event : string; q_data : json; q_queuedAt : Z }.

Record ConnectionStats := mkStats {
  cs_socketId : string;
  cs_userId : option string;
  cs_connectedAt : Z;
  cs_lastSeenAt : Z;
  cs_messagesSent : Z;
  cs_rooms : list string;
}.

(** Where an event is emitted to. *)
Inductive target := ToSocket (id : string) | ToRoom (room : string) | ToAll.

Record Pool := mkPool {
  offlineQueue : jsmap (list QueuedMessage);
  connections : jsmap ConnectionStats;
  userSockets : jsmap (list string);
  emitted : list (target * string * json);
  disconnecting : list string;
}.

Definition empty_pool : Pool := mkPool [] [] [] [] [].

Definition set_connections (m : jsmap ConnectionStats) (p : Pool) : Pool :=
  mkPool (offlineQueue p) m (userSockets p) (emitted p) (disconnecting p).
Definition set_userSockets (m : jsmap (list string)) (p : Pool) : Pool :=
  mkPool (offlineQueue p) (connections p) m (emitted p) (disconnecting p).
Definition set_offlineQueue (m : jsmap (list QueuedMessage)) (p : Pool) : Pool :=
  mkPool m (connections p) (userSockets p) (emitted p) (disconnecting p).
Definition emit_to (t : target) (event : string) (data : json) (p : Pool) : Pool :=
  mkPool (offlineQueue p) (connections p) (userSockets p) (emitted p ++ [(t, event, data)]) (disconnecting p).
Definition disconnect (socketId : string) (p : Pool) : Pool :=
  mkPool (offlineQueue p) (connections p) (userSockets p) (emitted p) (disconnecting p ++ [socketId]).

(** [set.add(x)] and [set.delete(x)] on a [Set] of strings. *)
Definition set_add (x : string) (l : list string) : list string := if decide (x ∈ l) then l else l ++ [x].
Definition set_remove (x : string) (l : list string) : list string := filter (.≠ x) l.

(** [const stats = connections.get(id); if (stats) ...] *)
Definition on_stats (socketId : string) (f : ConnectionStats → ConnectionStats) (p : Pool) : Pool :=
  match map_get socketId (connections p) with
  | Some stats => set_connections (map_set socketId (f stats) (connections p)) p
  | None => p
  end.

Definition with_user (u : string) (s : ConnectionStats) : ConnectionStats :=
  mkStats (cs_socketId s) (Some u) (cs_connectedAt s) (cs_lastSeenAt s) (cs_messagesSent s) (cs_rooms s).
Definition with_rooms (f : list string → list string) (s : ConnectionStats) : ConnectionStats :=
  mkStats (cs_socketId s) (cs_userId s) (cs_connectedAt s) (cs_lastSeenAt s) (cs_messagesSent s) (f (cs_rooms s)).
Definition seen_at (now : Z) (s : ConnectionStats) : ConnectionStats :=
  mkStats (cs_socketId s) (cs_userId s) (cs_connectedAt s) now (cs_messagesSent s) (cs_rooms s).
Definition one_more (s : ConnectionStats) : ConnectionStats :=
  mkStats (cs_socketId s) (cs_userId s) (cs_connectedAt s) (cs_lastSeenAt s) (cs_messagesSent s + 1) (cs_rooms s).

(** ** Connections *)

Definition _registerConnection (now : Z) (socketId : string) (p : Pool) : Pool :=
  set_connections (map_set socketId (mkStats socketId None now now 0 []) (connections p)) p.

Definition _associateUser (socketId userId : string) (p : Pool) : Pool :=
  let p := on_stats socketId (with_user userId) p in
  set_userSockets (map_set userId (set_add socketId (default [] (map_get userId (userSockets p)))) (userSockets p)) p.

Definition _deregisterConnection (socketId : string) (p : Pool) : Pool :=
  let p :=
    match truthy_str (map_get socketId (connections p) ≫= cs_userId) with
    | Some u =>
        match map_get u (userSockets p) with
        | Some sockets =>
            let sockets := set_remove socketId sockets in
            set_userSockets (if bool_decide (length sockets = 0)%nat then map_delete u (userSockets p)
                             else map_set u sockets (userSockets p)) p
        | None => p
        end
    | None => p
    end in
  set_connections (map_delete socketId (connections p)) p.

(** ** Offline queue *)

Definition is_fresh (now : Z) (m : QueuedMessage) : Prop := now - q_queuedAt m < MESSAGE_TTL_MS.
#[export] Instance is_fresh_dec now m : Decision (is_fresh now m).
Proof. unfold is_fresh. apply _. Defined.

Definition _enqueue (now : Z) (userId event : string) (data : json) (p : Pool) : Pool :=
  let queue := default [] (map_get userId (offlineQueue p)) in
  let queue := if bool_decide (MAX_QUEUE_SIZE ≤ length queue)%nat then tail queue else queue in
  set_offlineQueue (map_set userId (queue ++ [mkQueued event data now]) (offlineQueue p)) p.

Definition emit_all (socketId : string) (l : list QueuedMessage) (p : Pool) : Pool :=
  foldl (λ p m, emit_to (ToSocket socketId) (q_event m) (q_data m) p) p l.

Definition _flushOfflineQueue (now : Z) (socketId userId : string) (p : Pool) : Pool :=
  match map_get userId (offlineQueue p) with
  | None | Some [] => p
  | Some queue =>
      emit_all socketId (filter (is_fresh now) queue) (set_offlineQueue (map_delete userId (offlineQueue p)) p)
  end.

(** ** Sending *)

Definition send_one (event : string) (data : json) (p : Pool) (socketId : string) : Pool :=
  on_stats socketId one_more (emit_to (ToSocket socketId) event data p).

Definition sendToUser (now : Z) (userId event : string) (data : json) (p : Pool) : Pool * bool :=
  match map_get userId (userSockets p) with
  | Some ((_ :: _) as sockets) => (foldl (send_one event data) p sockets, true)
  | _ => (_enqueue now userId event data p, false)
  end.

Definition broadcastToRoom (room event : string) (data : json) (p : Pool) : Pool := emit_to (ToRoom room) event data p.
Definition broadcastToAll (event : string) (data : json) (p : Pool) : Pool := emit_to ToAll event data p.

(** ** The handlers and timers [init] installs *)

Definition error_message (text : string) : json := JObj [("message", JStr text)].

Definition onConnection (now : Z) (socketId : string) (p : Pool) : Pool :=
  if bool_decide (MAX_TOTAL_CONNECTIONS ≤ length (connections p))%nat then
    disconnect socketId (emit_to (ToSocket socketId) "error" (error_message "Server at maximum capacity") p)
  else _registerConnection now socketId p.

Definition onAuthenticate (now : Z) (socketId userId : string) (p : Pool) : Pool :=
  if (if map_get userId (userSockets p) is Some sockets then bool_decide (MAX_CONNECTIONS_PER_USER ≤ length sockets)%nat else false) then
    disconnect socketId (emit_to (ToSocket socketId) "error" (error_message "Maximum connections per user exceeded") p)
  else _flushOfflineQueue now socketId userId (_associateUser socketId userId p).

Definition onJoinRoom (socketId room : string) (p : Pool) : Pool := on_stats socketId (with_rooms (set_add room)) p.
Definition onLeaveRoom (socketId room : string) (p : Pool) : Pool := on_stats socketId (with_rooms (set_remove room)) p.
Definition onPong (now : Z) (socketId : string) (p : Pool) : Pool := on_stats socketId (seen_at now) p.
Definition onDisconnect (socketId : string) (p : Pool) : Pool := _deregisterConnection socketId p.

Definition _startHeartbeat (now : Z) (p : Pool) : Pool :=
  let staleThreshold := now - HEARTBEAT_INTERVAL_MS * HEARTBEAT_TIMEOUT_INTERVALS in
  foldl (λ p e, if bool_decide (cs_lastSeenAt e.2 < staleThreshold) then disconnect e.1 p
                else emit_to (ToSocket e.1) "ping" JUndefined p) p (connections p).

Definition _cleanupStaleQueuedMessages (now : Z) (p : Pool) : Pool :=
  foldl (λ p e,
    let fresh := filter (is_fresh now) e.2 in
    if bool_decide (0 < length e.2 - length fresh)%nat then
      set_offlineQueue (if bool_decide (length fresh = 0)%nat then map_delete e.1 (offlineQueue p)
                        else map_set e.1 fresh (offlineQueue p)) p
    else p) p (offlineQueue p).

Record PoolStats := mkPoolStats { totalConnections : nat; uniqueUsers : nat; offlineQueueSize : nat }.

Definition getStats (p : Pool) : PoolStats :=
  mkPoolStats (length (connections p)) (length (userSockets p))
    (foldl (λ s q, (s + length q)%nat) 0%nat (map_values (offlineQueue p))).

Definition destroy (live : list string) (p : Pool) : Pool :=
  mkPool [] [] [] (emitted p) (disconnecting p ++ live).

(** ** Events *)

Inductive pool_event :=
| EvConnect (now : Z) (socketId : string)
| EvAuthenticate (now : Z) (socketId userId : string)
| EvJoin (socketId room : string)
| EvLeave (socketId room : string)
| EvPong (now : Z) (socketId : string)
| EvDisconnect (socketId : string)
| EvSend (now : Z) (userId event : string) (data : json)
| EvBroadcast (room : option string) (event : string) (data : json)
| EvHeartbeat (now : Z)
| EvCleanup (now : Z).

Definition run_pool (e : pool_event) (p : Pool) : Pool :=
  match e with
  | EvConnect now s => onConnection now s p
  | EvAuthenticate now s u => onAuthenticate now s u p
  | EvJoin s r => onJoinRoom s r p
  | EvLeave s r => onLeaveRoom s r p
  | EvPong now s => onPong now s p
  | EvDisconnect s => onDisconnect s p
  | EvSend now u ev d => (sendToUser now u ev d p).1
  | EvBroadcast (Some r) ev d => broadcastToRoom r ev d p
  | EvBroadcast None ev d => broadcastToAll ev d p
  | EvHeartbeat now => _startHeartbeat now p
  | EvCleanup now => _cleanupStaleQueuedMessages now p
  end.

(** socket.io gives each connection an id of its own, and events of a socket
    arrive while its listeners are installed. *)
Definition possible (e : pool_event) (p : Pool) : Prop :=
  match e with
  | EvConnect _ s => map_get s (connections p) = None ∧ ∀ u l, map_get u (userSockets p) = Some l → s ∉ l
  | EvAuthenticate _ s _ | EvJoin s _ | EvLeave s _ | EvPong _ s | EvDisconnect s => is_Some (map_get s (connections p))
  | _ => True
  end.

Inductive pool_step : Pool → Pool → Prop :=
| pool_does e p : possible e p → pool_step p (run_pool e p).

(** A socket that authenticates does so as one user, with a name. *)
Definition one_user (e : pool_event) (p : Pool) : Prop :=
  match e with
  | EvAuthenticate _ s u => u ≠ "" ∧ ∀ st u', map_get s (connections p) = Some st → cs_userId st = Some u' → u' = u
  | _ => True
  end.

Inductive honest_step : Pool → Pool → Prop :=
| honest_does e p : possible e p → one_user e p → honest_step p (run_pool e p).

(** ** What the websocket pool guarantees

    The limits hold over all events; the sockets of a user are the live
    connections authenticated as that user, as long as no socket changes its
    user; the offline queue is the end of what was sent, and a user who comes
    back receives the recent part of it in order. *)

(** ** The limits *)

Record pool_wf (p : Pool) : Prop := {
  pw_ckeys : NoDup (map_keys (connections p));
  pw_ukeys : NoDup (map_keys (userSockets p));
  pw_qkeys : NoDup (map_keys (offlineQueue p));
  pw_total : (length (connections p) ≤ MAX_TOTAL_CONNECTIONS)%nat;
  pw_sets : ∀ u l, map_get u (userSockets p) = Some l → NoDup l ∧ (1 ≤ length l ≤ MAX_CONNECTIONS_PER_USER)%nat;
  pw_queues : ∀ u q, map_get u (offlineQueue p) = Some q → (1 ≤ length q ≤ MAX_QUEUE_SIZE)%nat;
  pw_conns : ∀ s st, map_get s (connections p) = Some st → cs_socketId st = s ∧ NoDup (cs_rooms st) ∧
    ∀ u, cs_userId st = Some u → ∃ l, map_get u (userSockets p) = Some l ∧ s ∈ l;
}.

(** The three maps are unchanged. *)
Definition same_maps (p p' : Pool) : Prop :=
  offlineQueue p' = offlineQueue p ∧ connections p' = connections p ∧ userSockets p' = userSockets p.

Lemma same_maps_wf p p' : same_maps p p' → pool_wf p → pool_wf p'.
Proof. intros (E1 & E2 & E3) [W1 W2 W3 W4 W5 W6 W7]. split; rewrite ?E1, ?E2, ?E3; auto. Qed.

Lemma emit_all_frame s l p : same_maps p (emit_all s l p) ∧
  emitted (emit_all s l p) = emitted p ++ ((λ m, (ToSocket s, q_event m, q_data m)) <$> l).
Proof.
  unfold emit_all. revert p. induction l as [|m l IH]; intros p; simpl; [by rewrite app_nil_r|].
  destruct (IH (emit_to (ToSocket s) (q_event m) (q_data m) p)) as [(E1 & E2 & E3) E4].
  split; [by split_and!|]. rewrite E4. simpl. by rewrite <- app_assoc.
Qed.

Lemma map_set_length {V} k (v : V) m : map_get k m = None → length (map_set k v m) = S (length m).
Proof.
  intros Hk. assert (length (map_keys (map_set k v m)) = S (length (map_keys m))) as E.
  { rewrite map_keys_set. unfold map_has. rewrite Hk, bool_decide_false by (by intros []). rewrite length_app. simpl. lia. }
  unfold map_keys in E. by rewrite !length_map in E.
Qed.

Lemma map_set_length_present {V} k (v : V) m : is_Some (map_get k m) → length (map_set k v m) = length m.
Proof.
  intros Hk. assert (length (map_keys (map_set k v m)) = length (map_keys m)) as E
    by (rewrite map_keys_set; unfold map_has; by rewrite bool_decide_true).
  unfold map_keys in E. by rewrite !length_map in E.
Qed.

(** Changing the record of one connection. *)
Lemma on_stats_wf s f p :
  (∀ st, cs_socketId (f st) = cs_socketId st) →
  (∀ st, NoDup (cs_rooms st) → NoDup (cs_rooms (f st))) →
  (∀ st u, cs_userId (f st) = Some u → cs_userId st = Some u ∨ ∃ l, map_get u (userSockets p) = Some l ∧ s ∈ l) →
  pool_wf p → pool_wf (on_stats s f p).
Proof.
  intros Hid Hr Hu Hwf. unfold on_stats. destruct (map_get s (connections p)) as [st|] eqn:Hs; [|done].
  pose proof Hwf as [W1 W2 W3 W4 W5 W6 W7]. split; simpl; auto with arenax.
  - by rewrite map_set_length_present.
  - intros s' st'. rewrite map_get_set. case_bool_decide as E; [|by apply W7]. subst s'. intros [= <-].
    destruct (W7 s st Hs) as (Hi & Hn & Hc). split_and!; [congruence|auto|].
    intros u [Hu'|Hu']%Hu; auto.
Qed.

Lemma set_add_nodup x l : NoDup l → NoDup (set_add x l).
Proof.
  unfold set_add. case_decide; [done|]. intros. apply NoDup_app. split_and!; [done| |apply NoDup_singleton].
  by intros y Hy ->%list_elem_of_singleton.
Qed.

Lemma elem_of_set_add x y l : y ∈ set_add x l ↔ y = x ∨ y ∈ l.
Proof. unfold set_add. case_decide; set_solver. Qed.

Lemma set_remove_nodup x l : NoDup l → NoDup (set_remove x l).
Proof. apply NoDup_filter. Qed.

Lemma elem_of_set_remove x y l : y ∈ set_remove x l ↔ y ≠ x ∧ y ∈ l.
Proof. unfold set_remove. by rewrite list_elem_of_filter. Qed.

#[export] Hint Resolve set_add_nodup set_remove_nodup : arenax.

Lemma onConnection_wf now s p : map_get s (connections p) = None → pool_wf p → pool_wf (onConnection now s p).
Proof.
  intros Hs Hwf. unfold onConnection. case_bool_decide as Hn; [by eapply same_maps_wf; [|done]|].
  destruct Hwf as [W1 W2 W3 W4 W5 W6 W7]. split; simpl; auto with arenax.
  - rewrite map_set_length by done. lia.
  - intros s' st. rewrite map_get_set. case_bool_decide as E; [|by apply W7]. subst s'. intros [= <-].
    split_and!; [done|constructor|done].
Qed.

Lemma associate_wf s u p :
  pool_wf p → (∀ l, map_get u (userSockets p) = Some l → length l < MAX_CONNECTIONS_PER_USER)%nat → pool_wf (_associateUser s u p).
Proof.
  intros Hwf Hl. set (l := default [] (map_get u (userSockets p))).
  assert (Hdl : NoDup l ∧ (length l < MAX_CONNECTIONS_PER_USER)%nat).
  { unfold l. destruct (map_get u (userSockets p)) as [l'|] eqn:E; simpl.
    - split; [apply (pw_sets p Hwf u l' E)|by apply Hl].
    - split; [constructor|unfold MAX_CONNECTIONS_PER_USER; lia]. }
  assert (Hset : pool_wf (set_userSockets (map_set u (set_add s l) (userSockets p)) p)).
  { pose proof Hwf as [W1 W2 W3 W4 W5 W6 W7]. split; simpl; auto with arenax.
    - intros u' l'. rewrite map_get_set. case_bool_decide; [|by apply W5]. intros [= <-]. destruct Hdl as [Hd Hlt].
      split; [by apply set_add_nodup|]. unfold set_add. case_decide as Hin; [destruct l; [set_solver|simpl in *; lia]|].
      rewrite length_app. simpl. lia.
    - intros s' st Hs'. destruct (W7 s' st Hs') as (Hi & Hr & Hc). split_and!; [done..|]. intros u' Hu'.
      destruct (Hc u' Hu') as (l' & Hl' & Hin). rewrite map_get_set. case_bool_decide as E; [|eauto]. subst u'.
      exists (set_add s l). split; [done|]. apply elem_of_set_add. right. unfold l. by rewrite Hl'. }
  unfold _associateUser. cbv zeta.
  assert (userSockets (on_stats s (with_user u) p) = userSockets p) as -> by (unfold on_stats; by destruct (map_get s _)).
  fold l. eapply same_maps_wf; [|eapply (on_stats_wf s (with_user u)); [done|done| |exact Hset]].
  - unfold on_stats. simpl. by destruct (map_get s (connections p)).
  - intros st u' [= <-]. right. simpl. rewrite map_get_set_eq. eexists. split; [done|]. apply elem_of_set_add. by left.
Qed.

Lemma deregister_sets s p u l :
  map_get u (userSockets (_deregisterConnection s p)) = Some l →
  map_get u (userSockets p) = Some l ∨
  ∃ l0, map_get u (userSockets p) = Some l0 ∧ l = set_remove s l0 ∧ l ≠ [] ∧
    truthy_str (map_get s (connections p) ≫= cs_userId) = Some u.
Proof.
  unfold _deregisterConnection. cbv zeta. simpl. destruct (truthy_str _) as [v|] eqn:Hv; [|by left].
  destruct (map_get v (userSockets p)) as [l0|] eqn:Hl0; [|by left]. simpl. case_bool_decide as Hn.
  - rewrite map_get_delete. case_bool_decide; [done|by left].
  - rewrite map_get_set. case_bool_decide as E; [|by left]. subst u. intros [= <-]. right. exists l0.
    split_and!; [done|done| |done]. intros E. apply Hn. by rewrite E.
Qed.

Lemma deregister_keeps s s' p u l :
  map_get u (userSockets p) = Some l → s' ∈ l → s' ≠ s →
  ∃ l', map_get u (userSockets (_deregisterConnection s p)) = Some l' ∧ s' ∈ l'.
Proof.
  intros Hl Hin Hne. unfold _deregisterConnection. cbv zeta. simpl. destruct (truthy_str _) as [v|]; [|eauto].
  destruct (map_get v (userSockets p)) as [l0|] eqn:Hl0; [|eauto]. simpl.
  assert (Hs' : v = u → s' ∈ set_remove s l0) by (intros ->; simplify_eq; by apply elem_of_set_remove).
  case_bool_decide as Hn; [rewrite map_get_delete|rewrite map_get_set]; case_bool_decide as E; eauto.
  destruct (set_remove s l0); [|done]. specialize (Hs' (eq_sym E)). by apply elem_of_nil in Hs'.
Qed.

Lemma deregister_connections s p : connections (_deregisterConnection s p) = map_delete s (connections p).
Proof. unfold _deregisterConnection. cbv zeta. simpl. repeat case_match; done. Qed.

Lemma deregister_queue s p : offlineQueue (_deregisterConnection s p) = offlineQueue p.
Proof. unfold _deregisterConnection. cbv zeta. simpl. repeat case_match; done. Qed.

Lemma onDisconnect_wf s p : pool_wf p → pool_wf (onDisconnect s p).
Proof.
  intros Hwf. unfold onDisconnect. pose proof Hwf as [W1 W2 W3 W4 W5 W6 W7].
  split; rewrite ?deregister_connections, ?deregister_queue; auto with arenax.
  - unfold _deregisterConnection. cbv zeta. simpl. repeat case_match; simpl; auto with arenax.
  - pose proof (map_delete_length s (connections p)). lia.
  - intros u l [Hl|(l0 & Hl0 & -> & Hne & _)]%deregister_sets; [by apply (W5 u)|]. destruct (W5 u l0 Hl0) as [Hn Hlen].
    split; [by apply set_remove_nodup|]. unfold set_remove in *. pose proof (length_filter (.≠ s) l0).
    destruct (filter _ l0); [done|]. simpl in *. lia.
  - intros s' st. rewrite map_get_delete. case_bool_decide as E; [done|]. intros Hs'. destruct (W7 s' st Hs') as (Hi & Hr & Hc).
    split_and!; [done..|]. intros u Hu. destruct (Hc u Hu) as (l & Hl & Hin). by eapply deregister_keeps.
Qed.

Lemma queue_wf p m :
  pool_wf p → NoDup (map_keys m) → (∀ u q, map_get u m = Some q → (1 ≤ length q ≤ MAX_QUEUE_SIZE)%nat) → pool_wf (set_offlineQueue m p).
Proof. intros [W1 W2 W3 W4 W5 W6 W7] Hm Hq. by split. Qed.

Lemma pool_flush_wf now s u p : pool_wf p → pool_wf (_flushOfflineQueue now s u p).
Proof.
  intros Hwf. unfold _flushOfflineQueue. destruct (map_get u (offlineQueue p)) as [[|m q]|]; [done| |done].
  eapply same_maps_wf; [apply emit_all_frame|]. apply queue_wf; [done|apply map_delete_nodup, (pw_qkeys p Hwf)|].
  intros u' q'. rewrite map_get_delete. case_bool_decide; [done|]. exact (pw_queues p Hwf u' q').
Qed.

Lemma onAuthenticate_wf now s u p : pool_wf p → pool_wf (onAuthenticate now s u p).
Proof.
  intros Hwf. unfold onAuthenticate. destruct (map_get u (userSockets p)) as [l|] eqn:Hl.
  - case_bool_decide; [by eapply same_maps_wf; [|done]|]. apply pool_flush_wf, associate_wf; [done|]. intros l' Hl'. simplify_eq. lia.
  - apply pool_flush_wf, associate_wf; [done|]. intros l'. by rewrite Hl.
Qed.

Lemma enqueue_wf now u ev d p : pool_wf p → pool_wf (_enqueue now u ev d p).
Proof.
  intros Hwf. unfold _enqueue. cbv zeta. apply queue_wf; [done|apply map_set_nodup, (pw_qkeys p Hwf)|].
  intros u' q'. rewrite map_get_set. case_bool_decide; [|exact (pw_queues p Hwf u' q')]. intros [= <-].
  rewrite length_app. simpl.
  assert ((length (default [] (map_get u (offlineQueue p))) ≤ MAX_QUEUE_SIZE)%nat).
  { destruct (map_get u (offlineQueue p)) as [q|] eqn:E; simpl; [by apply (pw_queues p Hwf u)|lia]. }
  case_bool_decide; [|lia]. destruct (default [] _); simpl in *; unfold MAX_QUEUE_SIZE in *; lia.
Qed.

Lemma send_all_wf ev d l p : pool_wf p → pool_wf (foldl (send_one ev d) p l).
Proof.
  revert p. induction l as [|s l IH]; intros p Hwf; [done|]. simpl. apply IH. unfold send_one.
  apply on_stats_wf; auto. by eapply same_maps_wf; [|done].
Qed.

Lemma sendToUser_wf now u ev d p : pool_wf p → pool_wf (sendToUser now u ev d p).1.
Proof.
  intros Hwf. unfold sendToUser. destruct (map_get u (userSockets p)) as [[|s l]|]; simpl fst; auto using enqueue_wf.
  by apply (send_all_wf ev d (s :: l)).
Qed.

Lemma heartbeat_frame now p : same_maps p (_startHeartbeat now p).
Proof.
  unfold _startHeartbeat. cbv zeta. generalize (connections p). intros l. revert p.
  induction l as [|e l IH]; intros p; [done|]. simpl. set (p1 := if bool_decide _ then _ else _).
  destruct (IH p1) as (E1 & E2 & E3). unfold p1 in *. split_and!; [rewrite E1|rewrite E2|rewrite E3]; by case_bool_decide.
Qed.

Lemma cleanup_wf now p : pool_wf p → pool_wf (_cleanupStaleQueuedMessages now p).
Proof.
  intros Hwf. unfold _cleanupStaleQueuedMessages.
  assert (Hq : Forall (λ e, (length e.2 ≤ MAX_QUEUE_SIZE)%nat) (offlineQueue p)).
  { apply Forall_forall. intros [u q] Hin. apply (map_elem_get _ _ _ (pw_qkeys p Hwf)) in Hin. apply (pw_queues p Hwf u q Hin). }
  revert Hq. generalize (offlineQueue p). intros l. revert p Hwf. induction l as [|[u q] l IH]; intros p Hwf Hq; [done|].
  apply Forall_cons in Hq as [Hlen Hq]. simpl in *. apply IH; [|done]. case_bool_decide as Hd; [|done].
  apply queue_wf; [done| |].
  - case_bool_decide; [apply map_delete_nodup|apply map_set_nodup]; apply (pw_qkeys p Hwf).
  - intros u' q'. case_bool_decide as Hn; [rewrite map_get_delete|rewrite map_get_set];
      (case_bool_decide; [|exact (pw_queues p Hwf u' q')]); [done|]. intros [= <-].
    pose proof (length_filter (is_fresh now) q). lia.
Qed.

Lemma run_pool_wf e p : possible e p → pool_wf p → pool_wf (run_pool e p).
Proof.
  intros Hp Hwf. destruct e as [now s|now s u|s r|s r|now s|s|now u ev d|[r|] ev d|now|now]; simpl in *.
  - apply onConnection_wf; [by destruct Hp|done].
  - by apply onAuthenticate_wf.
  - apply on_stats_wf; simpl; auto with arenax.
  - apply on_stats_wf; simpl; auto with arenax.
  - apply on_stats_wf; simpl; auto.
  - by apply onDisconnect_wf.
  - by apply sendToUser_wf.
  - by eapply same_maps_wf; [|done].
  - by eapply same_maps_wf; [|done].
  - by eapply same_maps_wf; [apply heartbeat_frame|].
  - by apply cleanup_wf.
Qed.

Lemma empty_pool_wf : pool_wf empty_pool.
Proof. split; simpl; try constructor; try done. unfold MAX_TOTAL_CONNECTIONS. lia. Qed.

(** Over any sequence of events there are at most a thousand connections, at
    most ten sockets per user and at most a hundred queued messages per user;
    no set or queue is left empty, and an authenticated connection is among the
    sockets of its user. *)
Theorem pool_invariant p : rtc pool_step empty_pool p → pool_wf p.
Proof.
  intros Hs. generalize empty_pool_wf. induction Hs as [|p1 p2 p3 [e p0 Hp] _ IH]; [done|].
  intros Hwf. apply IH. by apply run_pool_wf.
Qed.

(** ** Sockets and connections agree *)

Record agree (p : Pool) : Prop := {
  ag_live : ∀ u l s, map_get u (userSockets p) = Some l → s ∈ l →
    ∃ st, map_get s (connections p) = Some st ∧ cs_userId st = Some u;
  ag_named : ∀ s st, map_get s (connections p) = Some st → cs_userId st ≠ Some "";
}.

Lemma same_maps_agree p p' : same_maps p p' → agree p → agree p'.
Proof. intros (E1 & E2 & E3) [A1 A2]. split; rewrite ?E2, ?E3; auto. Qed.

Lemma on_stats_agree s f p : (∀ st, cs_userId (f st) = cs_userId st) → agree p → agree (on_stats s f p).
Proof.
  intros Hf Ha. unfold on_stats. destruct (map_get s (connections p)) as [st|] eqn:Hs; [|done]. destruct Ha as [A1 A2].
  split; simpl.
  - intros u l s' Hl Hin. destruct (A1 u l s' Hl Hin) as (st' & Hs' & Hu). rewrite map_get_set.
    case_bool_decide as E; [|eauto]. subst s'. simplify_eq. eexists. split; [done|]. by rewrite Hf.
  - intros s' st'. rewrite map_get_set. case_bool_decide; [|by apply A2]. intros [= <-]. rewrite Hf. by apply (A2 s).
Qed.

Lemma associate_agree s u p : is_Some (map_get s (connections p)) → one_user (EvAuthenticate 0 s u) p → agree p → agree (_associateUser s u p).
Proof.
  intros [st Hs] [Hne Hone] [A1 A2]. unfold _associateUser, on_stats. rewrite Hs. cbv zeta. simpl. split; simpl.
  - intros u' l s'. rewrite !map_get_set. intros Hl Hin.
    destruct (decide (s' = s)) as [->|Hs'].
    + rewrite bool_decide_true by done. eexists. split; [done|]. simpl. case_bool_decide as E; [by subst|].
      destruct (A1 u' l s Hl Hin) as (st' & Hst' & Hu'). simplify_eq. f_equal. symmetry. by eapply Hone.
    + rewrite bool_decide_false by done. case_bool_decide as E; [|by apply (A1 u' l)]. subst u'. injection Hl as <-.
      apply elem_of_set_add in Hin as [->|Hin]; [done|]. destruct (map_get u (userSockets p)) as [l0|] eqn:El; simpl in Hin.
      * by apply (A1 u l0).
      * by apply elem_of_nil in Hin.
  - intros s' st'. rewrite map_get_set. case_bool_decide; [|by apply A2]. intros [= <-]. simpl. congruence.
Qed.

Lemma queue_agree m p : agree p → agree (set_offlineQueue m p).
Proof. intros [A1 A2]. by split. Qed.

Lemma flush_agree now s u p : agree p → agree (_flushOfflineQueue now s u p).
Proof.
  intros Ha. unfold _flushOfflineQueue. destruct (map_get u (offlineQueue p)) as [[|m q]|]; [done| |done].
  eapply same_maps_agree; [apply emit_all_frame|]. by apply queue_agree.
Qed.

Lemma deregister_own s p u l :
  truthy_str (map_get s (connections p) ≫= cs_userId) = Some u →
  map_get u (userSockets (_deregisterConnection s p)) = Some l → s ∉ l.
Proof.
  intros Hu. unfold _deregisterConnection. rewrite Hu. cbv zeta. destruct (map_get u (userSockets p)) as [l0|] eqn:Hl0; simpl; [|congruence].
  case_bool_decide; [by rewrite map_get_delete_eq|]. rewrite map_get_set_eq. intros [= <-] Hin. by apply elem_of_set_remove in Hin as [[] _].
Qed.

Lemma disconnect_agree s p : agree p → agree (onDisconnect s p).
Proof.
  intros [A1 A2]. unfold onDisconnect. split; rewrite deregister_connections.
  - intros u l s' Hl Hin. rewrite map_get_delete.
    assert (Hold : ∃ l0, map_get u (userSockets p) = Some l0 ∧ s' ∈ l0).
    { apply deregister_sets in Hl as [Hl|(l0 & Hl0 & -> & _)]; [eauto|]. apply elem_of_set_remove in Hin as [_ Hin]. eauto. }
    destruct Hold as (l0 & Hl0 & Hin0). destruct (A1 u l0 s' Hl0 Hin0) as (st & Hst & Hu).
    case_bool_decide as E; [|eauto]. subst s'. destruct (deregister_own s p u l); [|done|done].
    rewrite Hst. simpl. rewrite Hu. simpl. rewrite bool_decide_false; [done|]. intros ->. by apply (A2 s st).
  - intros s' st. rewrite map_get_delete. case_bool_decide; [done|]. apply A2.
Qed.

Lemma send_all_agree ev d l p : agree p → agree (foldl (send_one ev d) p l).
Proof.
  revert p. induction l as [|s l IH]; intros p Ha; [done|]. simpl. apply IH. apply on_stats_agree; [done|].
  by eapply same_maps_agree; [|done].
Qed.

Lemma cleanup_agree now p : agree p → agree (_cleanupStaleQueuedMessages now p).
Proof.
  unfold _cleanupStaleQueuedMessages. generalize (offlineQueue p). intros l. revert p.
  induction l as [|[u q] l IH]; intros p Ha; [done|]. simpl. apply IH. case_bool_decide; [by apply queue_agree|done].
Qed.

Lemma run_pool_agree e p : possible e p → one_user e p → agree p → agree (run_pool e p).
Proof.
  intros Hp Ho Ha. destruct e as [now s|now s u|s r|s r|now s|s|now u ev d|[r|] ev d|now|now]; simpl in Hp |- *;
    try (by apply on_stats_agree); try (by eapply same_maps_agree; [|done]).
  - unfold onConnection. case_bool_decide; [by eapply same_maps_agree; [|done]|]. destruct Hp as [Hs Hnew], Ha as [A1 A2]. split; simpl.
    + intros u l s' Hl Hin. rewrite map_get_set_ne; [by apply (A1 u l)|]. intros ->. by eapply Hnew.
    + intros s' st. rewrite map_get_set. case_bool_decide; [by intros [= <-]|apply A2].
  - unfold onAuthenticate. destruct (if map_get u _ is Some _ then _ else _); [by eapply same_maps_agree; [|done]|].
    by apply flush_agree, associate_agree.
  - by apply disconnect_agree.
  - unfold sendToUser. destruct (map_get u (userSockets p)) as [[|s l]|]; simpl fst; [by apply queue_agree| |by apply queue_agree].
    by apply (send_all_agree ev d (s :: l)).
  - by eapply same_maps_agree; [apply heartbeat_frame|].
  - by apply cleanup_agree.
Qed.

Lemma send_all_emitted ev d l p :
  emitted (foldl (send_one ev d) p l) = emitted p ++ ((λ s, (ToSocket s, ev, d)) <$> l).
Proof.
  revert p. induction l as [|s l IH]; intros p; simpl; [by rewrite app_nil_r|]. rewrite IH.
  assert (emitted (send_one ev d p s) = emitted p ++ [(ToSocket s, ev, d)]) as ->; [|by rewrite <- app_assoc].
  unfold send_one, on_stats. by destruct (map_get s _).
Qed.

(** C31: when every socket keeps the user it authenticated as, a message to a user
    goes to exactly the live connections of that user, once each; when there is
    none, nothing is emitted and the message is the last of the user's queue. *)
Theorem delivery_exact p now u ev d :
  rtc honest_step empty_pool p →
  ∃ sockets, NoDup sockets ∧
    (∀ s, s ∈ sockets ↔ ∃ st, map_get s (connections p) = Some st ∧ cs_userId st = Some u) ∧
    emitted (sendToUser now u ev d p).1 = emitted p ++ ((λ s, (ToSocket s, ev, d)) <$> sockets) ∧
    ((sendToUser now u ev d p).2 = true ↔ sockets ≠ []) ∧
    (sockets = [] → ∃ q, map_get u (offlineQueue (sendToUser now u ev d p).1) = Some (q ++ [mkQueued ev d now])).
Proof.
  intros Hs. assert (Hinv : pool_wf p ∧ agree p).
  { assert (H0 : pool_wf empty_pool ∧ agree empty_pool) by (split; [apply empty_pool_wf|by split]). revert H0.
    induction Hs as [|p1 p2 p3 [e p0 Hp Ho] _ IH]; [done|]. intros [Hwf Ha]. apply IH.
    split; [by apply run_pool_wf|by apply run_pool_agree]. }
  destruct Hinv as [Hwf [A1 A2]]. exists (default [] (map_get u (userSockets p))).
  assert (Hiff : ∀ s, s ∈ default [] (map_get u (userSockets p)) ↔ ∃ st, map_get s (connections p) = Some st ∧ cs_userId st = Some u).
  { intros s. split.
    - destruct (map_get u (userSockets p)) as [l|] eqn:Hl; simpl; [by apply A1|by intros ?%elem_of_nil].
    - intros (st & Hst & Hu). destruct (pw_conns p Hwf s st Hst) as (_ & _ & Hc). destruct (Hc u Hu) as (l & Hl & Hin). by rewrite Hl. }
  unfold sendToUser in *. destruct (map_get u (userSockets p)) as [l|] eqn:Hl; simpl in *.
  - destruct (pw_sets p Hwf u l Hl) as [Hn Hlen]. destruct l as [|s l]; [simpl in Hlen; lia|]. cbn [fst snd].
    split_and!; [done|done|exact (send_all_emitted ev d (s :: l) p)|naive_solver|done].
  - split_and!; [constructor|done|by rewrite app_nil_r|naive_solver|]. intros _. unfold _enqueue. simpl. rewrite map_get_set_eq. eauto.
Qed.

(** ** The offline queue *)

Lemma js_slice_last_drop {A} (n : nat) (l : list A) : (0 < n)%nat → js_slice_last (Z.of_nat n) l = drop (length l - n) l.
Proof. intros Hn. unfold js_slice_last. rewrite bool_decide_true by lia. f_equal. lia. Qed.

Lemma slice_last_push (n : nat) {A} (q : list A) x : (0 < n)%nat →
  (let s := js_slice_last (Z.of_nat n) q in if bool_decide (n ≤ length s)%nat then tail s else s) ++ [x] =
  js_slice_last (Z.of_nat n) (q ++ [x]).
Proof.
  intros Hn. cbv zeta. rewrite !js_slice_last_drop, length_drop, length_app by done. simpl.
  case_bool_decide as Hl.
  - rewrite drop_app_le by lia. f_equal. replace (length q + 1 - n)%nat with (length q - n + 1)%nat by lia.
    rewrite <- (drop_drop q 1). by destruct (drop (length q - n) q).
  - replace (length q - n)%nat with 0%nat by lia. by replace (length q + 1 - n)%nat with 0%nat by lia.
Qed.

Definition send_queued (u : string) (p : Pool) (m : QueuedMessage) : Pool :=
  (sendToUser (q_queuedAt m) u (q_event m) (q_data m) p).1.

Lemma send_queued_offline u ms q p :
  map_get u (userSockets p) = None →
  default [] (map_get u (offlineQueue p)) = js_slice_last (Z.of_nat MAX_QUEUE_SIZE) q →
  let p' := foldl (send_queued u) p ms in
  userSockets p' = userSockets p ∧ emitted p' = emitted p ∧ connections p' = connections p ∧
  default [] (map_get u (offlineQueue p')) = js_slice_last (Z.of_nat MAX_QUEUE_SIZE) (q ++ ms).
Proof.
  revert q p. induction ms as [|m ms IH]; intros q p Hu Hq; simpl; [by rewrite app_nil_r|].
  assert (E : send_queued u p m = _enqueue (q_queuedAt m) u (q_event m) (q_data m) p) by (unfold send_queued, sendToUser; by rewrite Hu).
  destruct (IH (q ++ [m]) (send_queued u p m)) as (E1 & E2 & E3 & E4); [by rewrite E| |].
  - rewrite E. unfold _enqueue. simpl. rewrite map_get_set_eq, Hq. simpl.
    rewrite <- (slice_last_push MAX_QUEUE_SIZE) by (unfold MAX_QUEUE_SIZE; lia). by destruct m.
  - rewrite E1, E2, E3, E4, <- app_assoc. by rewrite E.
Qed.

(** Messages sent to a user who is offline wait for the next socket that
    authenticates as the user: it receives the last hundred of them that are
    younger than five minutes, in the order they were sent, and the queue is
    gone. *)
Theorem offline_delivery p now s u ms :
  map_get u (userSockets p) = None → map_get u (offlineQueue p) = None →
  let p' := onAuthenticate now s u (foldl (send_queued u) p ms) in
  emitted p' = emitted p ++ ((λ m, (ToSocket s, q_event m, q_data m)) <$>
                              filter (is_fresh now) (js_slice_last (Z.of_nat MAX_QUEUE_SIZE) ms)) ∧
  default [] (map_get u (offlineQueue p')) = [].
Proof.
  intros Hu Hq. cbv zeta. destruct (send_queued_offline u ms [] p Hu) as (E1 & E2 & E3 & E4); [by rewrite Hq|].
  set (p1 := foldl (send_queued u) p ms) in *. simpl in E4. unfold onAuthenticate. rewrite E1, Hu.
  assert (Ea : offlineQueue (_associateUser s u p1) = offlineQueue p1 ∧ emitted (_associateUser s u p1) = emitted p1)
    by (unfold _associateUser, on_stats; by destruct (map_get s (connections p1))).
  destruct Ea as [Ea1 Ea2]. unfold _flushOfflineQueue. rewrite Ea1.
  destruct (map_get u (offlineQueue p1)) as [[|m q]|] eqn:Hq1; simpl in E4.
  - rewrite <- E4, Ea2, Ea1, E2, Hq1. by rewrite app_nil_r.
  - rewrite <- E4. destruct (emit_all_frame s (filter (is_fresh now) (m :: q))
      (set_offlineQueue (map_delete u (offlineQueue p1)) (_associateUser s u p1))) as [(F1 & _ & _) F4].
    rewrite F4, F1. cbn [emitted offlineQueue set_offlineQueue]. rewrite Ea2, E2, map_get_delete_eq. done.
  - rewrite <- E4, Ea2, Ea1, E2, Hq1. by rewrite app_nil_r.
Qed.

(** A socket that authenticates as a second user stays among the sockets of the
    first when it disconnects: messages to the first user are emitted to the
    dead socket, reported as delivered, and not queued. *)
Theorem reauthentication_loses_messages :
  let p := run_pool (EvDisconnect "s") (run_pool (EvAuthenticate 2 "s" "bob") (run_pool (EvAuthenticate 1 "s" "ann")
             (run_pool (EvConnect 0 "s") empty_pool))) in
  rtc pool_step empty_pool p ∧ connections p = [] ∧
  (sendToUser 3 "ann" "hi" JNull p).2 = true ∧ offlineQueue (sendToUser 3 "ann" "hi" JNull p).1 = [].
Proof.
  cbv zeta. split_and!; [|reflexivity..].
  eapply rtc_l; [apply (pool_does (EvConnect 0 "s")); by split|].
  eapply rtc_l; [apply (pool_does (EvAuthenticate 1 "s" "ann")); by eexists|].
  eapply rtc_l; [apply (pool_does (EvAuthenticate 2 "s" "bob")); by eexists|].
  apply rtc_once. apply (pool_does (EvDisconnect "s")). by eexists.
Qed.

(** ** Concrete runs *)

Definition one_online : Pool := run_pool (EvAuthenticate 1 "s" "ann") (run_pool (EvConnect 0 "s") empty_pool).

Lemma one_online_honest : rtc honest_step empty_pool one_online.
Proof.
  eapply rtc_l; [apply (honest_does (EvConnect 0 "s")); by split|].
  apply rtc_once. apply (honest_does (EvAuthenticate 1 "s" "ann")); [by eexists|]. split; [done|].
  intros st u'. simpl. by intros [= <-].
Qed.

Lemma pool_invariant_witness : pool_wf one_online ∧ map_get "ann" (userSockets one_online) = Some ["s"].
Proof.
  split; [|reflexivity]. apply pool_invariant.
  eapply rtc_l; [apply (pool_does (EvConnect 0 "s")); by split|].
  apply rtc_once. apply (pool_does (EvAuthenticate 1 "s" "ann")). by eexists.
Defined.

Lemma delivery_exact_witness :
  ∃ sockets, (∀ s, s ∈ sockets ↔ ∃ st, map_get s (connections one_online) = Some st ∧ cs_userId st = Some "ann") ∧
    emitted (sendToUser 5 "ann" "hi" JNull one_online).1 = emitted one_online ++ ((λ s, (ToSocket s, "hi", JNull)) <$> sockets).
Proof. destruct (delivery_exact one_online 5 "ann" "hi" JNull one_online_honest) as (l & _ & Hl & He & _). by exists l. Defined.

Lemma offline_delivery_witness :
  emitted (onAuthenticate 300004 "s" "ann" (foldl (send_queued "ann") empty_pool
    [mkQueued "a" JNull 1; mkQueued "b" JNull 5; mkQueued "c" JNull 6])) =
  [(ToSocket "s", "b", JNull); (ToSocket "s", "c", JNull)].
Proof.
  destruct (offline_delivery empty_pool 300004 "s" "ann" [mkQueued "a" JNull 1; mkQueued "b" JNull 5; mkQueued "c" JNull 6])
    as [He _]; [reflexivity|reflexivity|]. rewrite He. vm_compute. reflexivity.
Defined.
