(* ===== verification/Sharding.v ===== *)
(** * Shard routing: [server/src/services/database-sharding.service.ts]

    The router from records to shards with its cache of database clients, and
    the three ways a record's shard is chosen.  A client is known by its number
    and the address it was created for.  Text is ASCII, so that a character is
    one code unit; numbers in records are given by their JavaScript text. *)

From Stdlib Require Import Ascii.
From stdpp Require Import prelude gmap strings list pretty sorting.
From S2P Require Import Prelude JsText JsInt Json JsonParse.

(** ** Shard keys *)

(** A record: its properties in order. *)
Definition record_ : Type := jsmap json.

(** The interface [ShardKey]: [None] stands for [undefined]; a [userId] is a string
    when there is one, as the code assumes; the second argument
    is the reading of [Math.floor(Math.random() * 100000)]. *)
Class ShardKey (K : Type) := resolve : K → Z → record_ → option string.

(** [(hash << 5) - hash + code], then [hash |= 0] *)
Definition hash_step (hash : Z) (c : ascii) : Z := to_int32 (to_int32 (Z.shiftl hash 5) - hash + Z.of_N (N_of_ascii c)).

Definition text_hash (raw : string) : Z := foldl hash_step 0 (String.list_ascii_of_string raw).

Record HashShardKey := mkHashKey { hk_shards : list string }.

#[export] Instance HashShardKey_resolve : ShardKey HashShardKey := λ k _ record,
  let raw := json_text (JObj record) in
  let hash := text_hash raw in
  if bool_decide (length (hk_shards k) = 0)%nat then None
  else hk_shards k !! Z.to_nat (Z.abs hash mod Z.of_nat (length (hk_shards k))).

Record UserIdShardKey := mkUserIdKey { uk_mapping : jsmap (list string); uk_defaultShard : string }.

#[export] Instance UserIdShardKey_resolve : ShardKey UserIdShardKey := λ k _ record,
  match map_get "userId" record with
  | Some (JStr userId) =>
      if bool_decide (userId = "") then Some (uk_defaultShard k) else
      match List.find (λ e, existsb (λ prefix, String.prefix prefix userId) e.2) (uk_mapping k) with
      | Some e => Some e.1
      | None => Some (uk_defaultShard k)
      end
  | _ => Some (uk_defaultShard k)
  end.

Record range_ := mkRange { rg_min : Z; rg_max : Z; rg_shardId : string }.
Record RangeShardKey := mkRangeKey { rk_ranges : list range_; rk_fallback : string }.

#[export] Instance RangeShardKey_resolve : ShardKey RangeShardKey := λ k random record,
  let id := match map_get "id" record with Some (JStr s) => parseInt10 s | _ => Some random end in
  match id with
  | None => Some (rk_fallback k)
  | Some id =>
      match List.find (λ r, bool_decide (rg_min r ≤ id ≤ rg_max r)) (rk_ranges k) with
      | Some r => Some (rg_shardId r)
      | None => Some (rk_fallback k)
      end
  end.

(** ** The router *)

Inductive ShardStatus := active | inactive | maintenance.
#[export] Instance ShardStatus_eq_dec : EqDecision ShardStatus.
Proof. solve_decision. Defined.

Record ShardConfig := mkShard {
  sc_id : string;
  sc_datasourceUrl : string;
  sc_weight : option Z;
  sc_region : option string;
  sc_status : option ShardStatus;
}.

Record Client := mkClient { cl_number : nat; cl_url : string }.
#[export] Instance Client_eq_dec : EqDecision Client.
Proof. solve_decision. Defined.

Record ShardHealth := mkHealth { sh_shardId : string; sh_healthy : bool; sh_latencyMs : option Z; sh_lastChecked : Z }.
Record RebalancePlan := mkPlan { fromShard : string; toShard : string; model : string; estimatedRows : Z }.

Record Router := mkRouter {
  shards : jsmap ShardConfig;
  clients : jsmap Client;
  health : jsmap ShardHealth;
  created : nat;
}.

Definition empty_router : Router := mkRouter [] [] [] 0.

Definition registerShard (now : Z) (config : ShardConfig) (r : Router) : Router :=
  mkRouter
    (map_set (sc_id config) (mkShard (sc_id config) (sc_datasourceUrl config) (sc_weight config) (sc_region config)
                               (Some (default active (sc_status config)))) (shards r))
    (clients r)
    (map_set (sc_id config) (mkHealth (sc_id config) true None now) (health r)) (created r).

Definition registerShards (now : Z) (configs : list ShardConfig) (r : Router) : Router :=
  foldl (λ r c, registerShard now c r) r configs.

(** The client of a shard, created on first use. *)
Definition client_of (config : ShardConfig) (shardId : string) : M Router Client :=
  r ← get;
  match map_get shardId (clients r) with
  | Some client => mret client
  | None =>
      let client := mkClient (created r) (sc_datasourceUrl config) in
      _ ← put (mkRouter (shards r) (map_set shardId client (clients r)) (health r) (S (created r)));
      mret client
  end.

Definition no_shard (shardId : string) : exn :=
  let quote := String (ascii_of_nat 34) "" in
  JsError ("Shard " +:+ quote +:+ shardId +:+ quote +:+ " not found or inactive").

Definition route `{ShardKey K} (k : K) (random : Z) (record : record_) : M Router (string * Client) :=
  r ← get;
  match resolve k random record with
  | None => throw (no_shard "undefined")
  | Some shardId =>
      match map_get shardId (shards r) with
      | None => throw (no_shard shardId)
      | Some config =>
          if bool_decide (sc_status config = Some inactive) then throw (no_shard shardId) else
          client ← client_of config shardId;
          mret (shardId, client)
      end
  end.

Definition listShards (r : Router) : list ShardConfig := map_values (shards r).
Definition getActiveShardCount (r : Router) : nat :=
  length (filter (λ s, sc_status s ≠ Some inactive) (map_values (shards r))).
Definition getHealth (r : Router) : list ShardHealth := map_values (health r).

(** The client is looked up and stored again before each call of [fn]. *)
Definition forEachShard {T} (fn : Client → string → M Router T) : M Router (list T) :=
  activeShards ← gets (λ r, filter (λ s, sc_status s = Some active ∨ sc_status s = Some maintenance) (map_values (shards r)));
  for_map (λ config, client ← client_of config (sc_id config); fn client (sc_id config)) activeShards.

(** [SELECT 1] on a client: its latency, or an error. *)
Definition checkHealth (ping : Client → option Z) (now : Z) : M Router (list ShardHealth) :=
  forEachShard (λ client shardId,
    let h := match ping client with
             | Some latencyMs => mkHealth shardId true (Some latencyMs) now
             | None => mkHealth shardId false None now
             end in
    _ ← modify (λ r, mkRouter (shards r) (clients r) (map_set shardId h (health r)) (created r));
    mret h).

Definition planRebalance (model_ : string) (r : Router) : list RebalancePlan :=
  let activeShards := filter (λ s, sc_status s = Some active) (map_values (shards r)) in
  omap (λ i, match activeShards !! i, activeShards !! S i with
             | Some a, Some b => Some (mkPlan (sc_id a) (sc_id b) model_ 0)
             | _, _ => None
             end) (seq 0 (length activeShards - 1)).

Definition disconnect (r : Router) : Router :=
  mkRouter (shards r) (foldl (λ m id, map_delete id m) (clients r) (map_keys (clients r))) (health r) (created r).

(** ** Bounds of the hash *)

Lemma text_hash_range raw : int32 (text_hash raw).
Proof.
  unfold text_hash. assert (H0 : int32 0) by (unfold int32; lia). revert H0. generalize 0.
  induction (String.list_ascii_of_string raw) as [|c l IH]; intros h Hh; [done|]. simpl. apply IH, to_int32_range.
Qed.

(** The loop computes the polynomial hash with base 31, modulo 2^32. *)
Definition poly_hash (codes : list Z) : Z := foldl (λ h c, 31 * h + c) 0 codes.

Lemma hash_step_poly h x c : h mod 2 ^ 32 = x mod 2 ^ 32 → hash_step h c mod 2 ^ 32 = (31 * x + Z.of_N (N_of_ascii c)) mod 2 ^ 32.
Proof.
  intros E. unfold hash_step. rewrite to_int32_congr, Z.shiftl_mul_pow2 by lia.
  rewrite Z.add_mod, Zminus_mod, to_int32_congr, <- Zminus_mod, <- Z.add_mod by lia.
  replace (h * 2 ^ 5 - h + Z.of_N (N_of_ascii c)) with (31 * h + Z.of_N (N_of_ascii c)) by lia.
  rewrite Z.add_mod, Z.mul_mod, E, <- Z.mul_mod, <- Z.add_mod by lia. done.
Qed.

Lemma text_hash_poly raw :
  text_hash raw = to_int32 (poly_hash ((λ c, Z.of_N (N_of_ascii c)) <$> String.list_ascii_of_string raw)).
Proof.
  rewrite <- (to_int32_id (text_hash raw)) by apply text_hash_range. apply to_int32_mod. unfold text_hash, poly_hash.
  assert (E : 0 mod 2 ^ 32 = 0 mod 2 ^ 32) by done. revert E. generalize 0 at 1 3. generalize 0.
  induction (String.list_ascii_of_string raw) as [|c l IH]; intros x h E; [done|]. simpl. apply IH. by apply hash_step_poly.
Qed.

(** Hashing sends every record to one of the shards it was given: the one
    whose index is the base-31 polynomial hash of the record's JSON text, taken
    as a signed 32-bit integer, in absolute value and modulo the number of
    shards. *)
Theorem hash_routing k random record :
  hk_shards k ≠ [] →
  let codes := (λ c, Z.of_N (N_of_ascii c)) <$> String.list_ascii_of_string (json_text (JObj record)) in
  ∃ shardId, resolve k random record = Some shardId ∧
    hk_shards k !! Z.to_nat (Z.abs (to_int32 (poly_hash codes)) mod Z.of_nat (length (hk_shards k))) = Some shardId.
Proof.
  intros Hne. cbv zeta. rewrite <- text_hash_poly. unfold resolve, HashShardKey_resolve. cbv zeta.
  assert (0 < length (hk_shards k))%nat by (destruct (hk_shards k); [done|simpl; lia]).
  rewrite bool_decide_false by lia.
  pose proof (Z.mod_pos_bound (Z.abs (text_hash (json_text (JObj record)))) (Z.of_nat (length (hk_shards k))) ltac:(lia)).
  destruct (lookup_lt_is_Some_2 (hk_shards k)
    (Z.to_nat (Z.abs (text_hash (json_text (JObj record))) mod Z.of_nat (length (hk_shards k))))) as [id Hid]; [lia|eauto].
Qed.

(** ** The router's maps *)

Record router_wf (r : Router) : Prop := {
  ro_keys : NoDup (map_keys (shards r)) ∧ NoDup (map_keys (clients r)) ∧ NoDup (map_keys (health r));
  ro_ids : ∀ i c, map_get i (shards r) = Some c → sc_id c = i ∧ is_Some (sc_status c);
  ro_health : ∀ i, is_Some (map_get i (health r)) ↔ is_Some (map_get i (shards r));
  ro_clients : ∀ i c, map_get i (clients r) = Some c → is_Some (map_get i (shards r)) ∧ (cl_number c < created r)%nat;
  ro_distinct : ∀ i j c d, map_get i (clients r) = Some c → map_get j (clients r) = Some d → cl_number c = cl_number d → i = j;
}.

Lemma register_wf now c r : router_wf r → router_wf (registerShard now c r).
Proof.
  intros [(K1 & K2 & K3) Hi Hh Hc Hd]. split; simpl; auto with arenax.
  - intros i c'. rewrite map_get_set. case_bool_decide as E; [|apply Hi]. intros [= <-]. simpl. eauto.
  - intros i. rewrite !map_get_set. case_bool_decide; [|apply Hh]. split; eauto.
  - intros i c' Hg. rewrite map_get_set. destruct (Hc i c' Hg) as [Hs Hn]. case_bool_decide; eauto.
Qed.

Lemma foldl_delete_none {V} (l : list string) (m : jsmap V) i :
  map_get i (foldl (λ m id, map_delete id m) m l) = if decide (i ∈ l) then None else map_get i m.
Proof.
  revert m. induction l as [|j l IH]; intros m; cbn [foldl]; [by rewrite decide_False by set_solver|]. rewrite IH, map_get_delete.
  repeat case_decide; try case_bool_decide; set_solver.
Qed.

Lemma disconnect_empty r : NoDup (map_keys (clients r)) → clients (disconnect r) = [].
Proof.
  intros Hn. unfold disconnect. simpl.
  assert (Hall : ∀ i, map_get i (foldl (λ m id, map_delete id m) (clients r) (map_keys (clients r))) = None).
  { intros i. rewrite foldl_delete_none. case_decide as Hi; [done|]. by apply map_get_None. }
  destruct (foldl _ _ _) as [|[i c] m]; [done|]. specialize (Hall i). simpl in Hall. by rewrite bool_decide_true in Hall.
Qed.

Lemma disconnect_wf r : router_wf r → router_wf (disconnect r).
Proof.
  intros [(K1 & K2 & K3) Hi Hh Hc Hd]. pose proof (disconnect_empty r K2) as E.
  split; rewrite ?E; simpl; auto; [|done|done]. split_and!; [done|constructor|done].
Qed.

Lemma client_of_post config i r :
  router_wf r → is_Some (map_get i (shards r)) →
  post (client_of config i) r
    (λ r' c, router_wf r' ∧ shards r' = shards r ∧ map_get i (clients r') = Some c ∧
       (∀ c0, map_get i (clients r) = Some c0 → r' = r ∧ c = c0))
    (λ _ _, False).
Proof.
  intros Hwf Hs. unfold client_of. m_step. m_step. destruct (map_get i (clients r)) as [c|] eqn:Hg.
  { m_step. split_and!; try done. by intros c0 [= <-]. }
  cbv zeta. m_step. m_step. m_step. destruct Hwf as [(K1 & K2 & K3) Hi Hh Hc Hd].
  split_and!; [|done|cbn [clients]; by rewrite map_get_set_eq|done]. split; simpl; auto with arenax.
  - intros j c. rewrite map_get_set. case_bool_decide as E; [subst; intros [= <-]; split; [done|simpl; lia]|].
    intros Hj. destruct (Hc j c Hj). split; [done|lia].
  - intros j j' c d. rewrite !map_get_set. repeat case_bool_decide; simplify_eq; auto; intros Hj Hj' En; simplify_eq; simpl in En.
    + destruct (Hc _ _ Hj') as [_ Hn]. lia.
    + destruct (Hc _ _ Hj) as [_ Hn]. lia.
    + eauto.
Qed.

Lemma forEachShard_preserves {T} (fn : Client → string → M Router T) S0 :
  (∀ c i r, router_wf r → shards r = S0 → is_Some (map_get i S0) →
     post (fn c i) r (λ r' _, router_wf r' ∧ shards r' = S0) (λ r' _, router_wf r')) →
  ∀ r, router_wf r → shards r = S0 → post (forEachShard fn) r (λ r' _, router_wf r') (λ r' _, router_wf r').
Proof.
  intros Hfn r Hwf HS. unfold forEachShard. m_step. m_step.
  eapply post_mono; [apply (post_for_map _ _ (λ r', router_wf r' ∧ shards r' = S0) (λ r' _, router_wf r'))| |done]; [done| |by intros ?? []].
  intros config r1 [_ Hin]%list_elem_of_filter [Hwf1 HS1]. m_step.
  assert (His : is_Some (map_get (sc_id config) S0)).
  { unfold map_values in Hin. apply list_elem_of_In, in_map_iff in Hin as ([i c] & Hc & Hin). simpl in Hc. subst config. apply list_elem_of_In in Hin.
    apply (map_elem_get _ _ _ (proj1 (ro_keys r Hwf))) in Hin as Hg. destruct (ro_ids r Hwf i c Hg) as [-> _]. rewrite <- HS. eauto. }
  eapply post_mono; [apply client_of_post; [done|by rewrite HS1]| |done].
  intros r2 c (Hwf2 & HS2 & _). apply Hfn; [done|congruence|done].
Qed.

(** ** Calls *)

Inductive router_step `{ShardKey K} (k : K) : Router → Router → Prop :=
| step_register now c r : router_step k r (registerShard now c r)
| step_route random record r r' res : route k random record r = (r', res) → router_step k r r'
| step_health ping now r r' res : checkHealth ping now r = (r', res) → router_step k r r'
| step_disconnect r : router_step k r (disconnect r).

Lemma route_wf `{ShardKey K} (k : K) random record : preserves router_wf (route k random record).
Proof.
  intros r Hwf. unfold route. m_step. m_step. destruct (resolve k random record) as [i|]; [|by m_step].
  destruct (map_get i (shards r)) as [config|] eqn:Hi; [|by m_step]. case_bool_decide; [by m_step|]. m_step.
  eapply post_mono; [apply client_of_post; [done|by rewrite Hi]| |done]. intros r' c (Hwf' & _). by m_step.
Qed.

Lemma checkHealth_wf ping now : preserves router_wf (checkHealth ping now).
Proof.
  intros r Hwf. apply (forEachShard_preserves _ (shards r)); [|done|done].
  intros c i r1 Hwf1 HS Hi. cbv zeta. m_step. m_step. m_step. split; [|done]. rewrite <- HS in Hi.
  destruct Hwf1 as [(K1 & K2 & K3) Hid Hh Hc Hd]. split; simpl; auto with arenax.
  intros j. rewrite map_get_set. case_bool_decide as E; [subst j|apply Hh]. split; eauto.
Qed.

(** Over any calls of a router, each registered shard has one configuration
    with a status and one health record, clients exist only for registered
    shards, and no two shards share a client. *)
Theorem router_invariant `{ShardKey K} (k : K) r : rtc (router_step k) empty_router r → router_wf r.
Proof.
  intros Hs. assert (H0 : router_wf empty_router) by (split; simpl; [repeat constructor|done..]). revert H0.
  induction Hs as [|r1 r2 r3 Hstep _ IH]; [done|]. intros Hwf. apply IH. destruct Hstep as [now c r|random record r r' res Hr|ping now r r' res Hr|r].
  - by apply register_wf.
  - eapply (preserves_run router_wf); [apply (route_wf k random record)|done|done].
  - eapply (preserves_run router_wf); [apply (checkHealth_wf ping now)|done|done].
  - by apply disconnect_wf.
Qed.

(** A record whose shard is registered and not inactive is routed to that
    shard's client, and routing it again gives the same client and changes
    nothing; every other record is refused without a change. *)
Theorem route_stable `{ShardKey K} (k : K) random record r :
  router_wf r →
  match resolve k random record ≫= λ i, c ← map_get i (shards r); if bool_decide (sc_status c = Some inactive) then None else Some i with
  | Some i => ∃ r' client, route k random record r = (r', Ok (i, client)) ∧ shards r' = shards r ∧
      map_get i (clients r') = Some client ∧ route k random record r' = (r', Ok (i, client))
  | None => ∃ e, route k random record r = (r, Throw e)
  end.
Proof.
  intros Hwf. unfold route, mbind, M_bind, get, option_bind.
  destruct (resolve k random record) as [i|] eqn:Hr; [|by eexists].
  destruct (map_get i (shards r)) as [config|] eqn:Hi; [|by eexists]. case_bool_decide as Hst; [by eexists|].
  pose proof (client_of_post config i r Hwf ltac:(by rewrite Hi)) as Hp. unfold post in Hp.
  destruct (client_of config i r) as [r1 [c|e]]; [|done]. destruct Hp as (Hwf1 & HS & Hc & _).
  exists r1, c. split_and!; [done..|]. rewrite HS, Hi, bool_decide_false by done.
  pose proof (client_of_post config i r1 Hwf1 ltac:(by rewrite HS, Hi)) as Hp. unfold post in Hp.
  destruct (client_of config i r1) as [r2 [c2|e]]; [|done]. destruct Hp as (_ & _ & _ & Hsame).
  by destruct (Hsame c Hc) as [-> ->].
Qed.

(** The whole text of the record is hashed: writing its properties in another
    order, or changing one of them, moves it to another shard. *)
Definition three : HashShardKey := mkHashKey ["s0"; "s1"; "s2"].

Theorem hash_moves_records :
  resolve three 0 [("userId", JStr "u1"); ("id", JNum "8")] ≠ resolve three 0 [("id", JNum "8"); ("userId", JStr "u1")] ∧
  resolve three 0 [("userId", JStr "u1"); ("score", JNum "8")] ≠ resolve three 0 [("userId", JStr "u1"); ("score", JNum "9")].
Proof. split; vm_compute; congruence. Qed.

(** A shard that is registered again with another address keeps the client of
    the old one. *)
Definition by_user : UserIdShardKey := mkUserIdKey [("s1", ["a"])] "s0".
Definition at_url (url : string) : ShardConfig := mkShard "s1" url None None None.
Definition routed : Router := (route by_user 0 [("userId", JStr "ann")] (registerShard 0 (at_url "db1") empty_router)).1.

Theorem reregistered_keeps_client :
  (route by_user 0 [("userId", JStr "ann")] (registerShard 1 (at_url "db2") routed)).2 = Ok ("s1", mkClient 0 "db1").
Proof. vm_compute. reflexivity. Qed.

(** ** Concrete routers *)

Lemma hash_routing_witness :
  ∃ shardId, resolve three 0 [("id", JNum "8")] = Some shardId ∧ shardId = "s2".
Proof.
  destruct (hash_routing three 0 [("id", JNum "8")]) as (i & Hi & E); [done|]. exists i. split; [exact Hi|].
  vm_compute in E. by injection E as <-.
Defined.

Lemma router_invariant_witness : router_wf routed ∧ map_get "s1" (clients routed) = Some (mkClient 0 "db1").
Proof.
  split; [|reflexivity]. apply (router_invariant by_user). eapply rtc_l; [apply (step_register by_user 0 (at_url "db1"))|].
  apply rtc_once. eapply (step_route by_user 0 [("userId", JStr "ann")]). apply surjective_pairing.
Defined.

Lemma route_stable_witness :
  ∃ r' client, route by_user 0 [("userId", JStr "abe")] routed = (r', Ok ("s1", client)) ∧
    route by_user 0 [("userId", JStr "abe")] r' = (r', Ok ("s1", client)).
Proof.
  destruct (route_stable by_user 0 [("userId", JStr "abe")] routed) as (r' & c & Hr & _ & _ & Hr').
  - eapply (preserves_run router_wf); [apply (route_wf by_user 0 [("userId", JStr "ann")])| |apply surjective_pairing].
    apply register_wf. split; simpl; [repeat constructor|done..].
  - by exists r', c.
Defined.

(** ** The registry of routers: [DatabaseShardingService]

    Routers are objects their callers hold on to: a router is a place in a
    store, and the registry knows places by name. *)

(** [results] are thrown away: the method only says what to call instead. *)
Definition aggregateAll : M Router unit :=
  _ ← forEachShard (λ client _, mret client);
  throw (JsError "Use forEachShard() for shard-wide aggregation.").

Record Registry (K : Type) := mkRegistry { objects : list (K * Router); routers : jsmap nat; defaultShardKey : option K }.
Arguments mkRegistry {K}.
Arguments objects {K}.
Arguments routers {K}.
Arguments defaultShardKey {K}.

Section registry.
Context {K : Type} `{ShardKey K}.

Definition new_registry : Registry K := mkRegistry [] [] None.

Definition initRouter (name : string) (shardKey : K) : M (Registry K) nat := λ s,
  (mkRegistry (objects s ++ [(shardKey, empty_router)]) (map_set name (length (objects s)) (routers s)) (defaultShardKey s),
   Ok (length (objects s))).

Definition getRouter (name : string) : M (Registry K) nat :=
  s ← get;
  match map_get name (routers s) with
  | Some i => mret i
  | None => throw (JsError ("Shard router " +:+ chr 34 +:+ name +:+ chr 34 +:+ " not initialized"))
  end.

Definition setDefaultShardKey (shardKey : K) (s : Registry K) : Registry K := mkRegistry (objects s) (routers s) (Some shardKey).

(** A call of a method of a router. *)
Definition on_router {A} (i : nat) (m : K → M Router A) : M (Registry K) (option A) := λ s,
  match objects s !! i with
  | None => (s, Ok None)
  | Some (k, r) =>
      let '(r', res) := m k r in
      (mkRegistry (<[i := (k, r')]> (objects s)) (routers s) (defaultShardKey s),
       match res with Ok a => Ok (Some a) | Throw e => Throw e end)
  end.

Definition healthCheckAll (ping : Client → option Z) (now : Z) : M (Registry K) (jsmap (option (list ShardHealth))) :=
  rs ← gets routers;
  for_map (λ nr, h ← on_router nr.2 (λ _, checkHealth ping now); mret (nr.1, h)) rs.

Definition disconnectAll : M (Registry K) unit :=
  rs ← gets routers;
  for_each (λ i, _ ← on_router i (λ _, modify disconnect); mret tt) (map_values rs).

(** ** What the registry keeps *)

Record registry_wf (s : Registry K) : Prop := {
  rg_objects : Forall (λ kr, router_wf kr.2) (objects s);
  rg_routers : ∀ name i, (name, i) ∈ routers s → (i < length (objects s))%nat;
  rg_names : NoDup (map_keys (routers s)) }.

Lemma on_router_wf {A} i (m : K → M Router A) : (∀ k, preserves router_wf (m k)) → preserves registry_wf (on_router i m).
Proof.
  intros Hm s [Ho Hr Hn]. unfold post, on_router. destruct (objects s !! i) as [[k r]|] eqn:Hi; [|done].
  assert (router_wf r) as Hwf by (rewrite Forall_forall in Ho; apply (Ho (k, r)); by eapply list_elem_of_lookup_2).
  pose proof (preserves_run router_wf (m k) r (m k r).1 (m k r).2 (Hm k) Hwf ltac:(by destruct (m k r))) as Hwf'.
  destruct (m k r) as [r' res]. cbn [fst] in Hwf'.
  assert (registry_wf (mkRegistry (<[i := (k, r')]> (objects s)) (routers s) (defaultShardKey s))) as Hs'.
  { constructor; cbn [objects routers]; [by apply Forall_insert|intros name j Hj; rewrite length_insert; by eapply Hr|done]. }
  by destruct res.
Qed.

Lemma disconnect_preserves : preserves router_wf (modify disconnect).
Proof. intros r Hr. by apply disconnect_wf. Qed.

Lemma initRouter_wf name k : preserves registry_wf (initRouter name k).
Proof.
  intros s [Ho Hr Hn]. constructor; cbn [objects routers].
  - apply Forall_app. split; [done|]. constructor; [|constructor]. split; simpl; [repeat constructor|done..].
  - intros n i Hi. rewrite length_app. cbn. apply map_elem_get in Hi; [|by apply map_set_nodup]. rewrite map_get_set in Hi.
    destruct (bool_decide (n = name)); [simplify_eq; lia|]. apply map_get_elem in Hi. specialize (Hr _ _ Hi). lia.
  - by apply map_set_nodup.
Qed.

Inductive registry_step : Registry K → Registry K → Prop :=
| reg_init name k s : registry_step s (initRouter name k s).1
| reg_default k s : registry_step s (setDefaultShardKey k s)
| reg_register i now c s : registry_step s (on_router i (λ _, modify (registerShard now c)) s).1
| reg_route i random record s : registry_step s (on_router i (λ k, route k random record) s).1
| reg_health i ping now s : registry_step s (on_router i (λ _, checkHealth ping now) s).1
| reg_disconnect i s : registry_step s (on_router i (λ _, modify disconnect) s).1
| reg_aggregate i s : registry_step s (on_router i (λ _, aggregateAll) s).1
| reg_health_all ping now s : registry_step s (healthCheckAll ping now s).1
| reg_disconnect_all s : registry_step s (disconnectAll s).1.

Lemma aggregateAll_wf : preserves router_wf aggregateAll.
Proof.
  intros r Hwf. unfold aggregateAll. m_step. eapply post_mono; [apply (forEachShard_preserves _ (shards r)); [|done|done]| |done].
  - intros c i r1 Hwf1 HS Hi. by m_step.
  - intros r' l Hwf'. by m_step.
Qed.

Lemma preserves_post {S A} (I : S → Prop) (m : M S A) s : preserves I m → I s → I (m s).1.
Proof. intros Hm Hs. apply (preserves_run I m s (m s).1 (m s).2 Hm Hs). by destruct (m s). Qed.

Lemma healthCheckAll_wf ping now : preserves registry_wf (healthCheckAll ping now).
Proof.
  unfold healthCheckAll. apply preserves_bind; [apply preserves_gets|]. intros rs. apply preserves_for_map. intros nr _.
  apply preserves_bind; [|intros h; apply preserves_ret]. apply on_router_wf. intros k. apply checkHealth_wf.
Qed.

Lemma disconnectAll_wf : preserves registry_wf disconnectAll.
Proof.
  unfold disconnectAll. apply preserves_bind; [apply preserves_gets|]. intros rs. apply preserves_for_each. intros i _.
  apply preserves_bind; [|intros h; apply preserves_ret]. apply on_router_wf. intros k. apply disconnect_preserves.
Qed.

(** Whatever is called on the registry and on the routers it handed out, every
    router keeps its invariant and every name leads to a router. *)
Theorem registry_invariant s : rtc registry_step new_registry s → registry_wf s.
Proof.
  intros Hs. assert (registry_wf new_registry) as H0 by (constructor; [constructor|by intros name i ?%not_elem_of_nil|constructor]).
  revert H0. induction Hs as [|s1 s2 s3 Hstep _ IH]; [done|]. intros Hwf. apply IH.
  destruct Hstep; try (apply preserves_post; [|done]).
  - apply initRouter_wf.
  - by destruct Hwf.
  - apply on_router_wf. intros k r Hr. by apply register_wf.
  - apply on_router_wf. intros k. apply route_wf.
  - apply on_router_wf. intros k. apply checkHealth_wf.
  - apply on_router_wf. intros k. apply disconnect_preserves.
  - apply on_router_wf. intros k. apply aggregateAll_wf.
  - apply healthCheckAll_wf.
  - apply disconnectAll_wf.
Qed.
End registry.

Example registry_invariant_witness :
  let s := (initRouter "users" by_user (new_registry (K := UserIdShardKey))).1 in
  let s1 := (on_router 0 (λ _, modify (registerShard 0 (at_url "db1"))) s).1 in
  let s2 := (on_router 0 (λ k, route k 0 [("userId", JStr "ann")]) s1).1 in
  registry_wf s2 ∧ (λ kr, clients kr.2) <$> objects s2 = [[("s1", mkClient 0 "db1")]].
Proof.
  split; [|reflexivity]. apply registry_invariant. eapply rtc_l; [apply (reg_init "users" by_user)|].
  eapply rtc_l; [apply (reg_register 0 0 (at_url "db1"))|]. apply rtc_once. apply (reg_route 0 0 [("userId", JStr "ann")]).
Defined.

(** A name that is initialised again: the connections of its first router are
    beyond the reach of the shutdown. *)
Example replaced_router_stays_connected :
  let s := (initRouter "users" by_user (new_registry (K := UserIdShardKey))).1 in
  let s := (on_router 0 (λ _, modify (registerShard 0 (at_url "db1"))) s).1 in
  let s := (on_router 0 (λ k, route k 0 [("userId", JStr "ann")]) s).1 in
  let s := (initRouter "users" by_user s).1 in
  let s := (disconnectAll s).1 in
  (λ kr, clients kr.2) <$> objects s = [[("s1", mkClient 0 "db1")]; []].
Proof. reflexivity. Qed.
