(* ===== verification/StateMachine.v ===== *)
(** * The state machine hook: [frontend/src/hooks/useStateMachine.ts]

    A finite state machine kept by React.  [send] works on the state of the last
    render and dispatches an action; the actions dispatched since then are
    applied in order by the next render.  The hook between two renders is
    therefore the rendered state with the queue of its actions.  The callbacks
    of the configuration are not run; their calls are recorded in order.  The
    history stamps of one render are one instant. *)

From stdpp Require Import prelude gmap strings list pretty sorting relations.
From S2P Require Import Prelude JsText Json.

(** ** Types *)

Record Transition := mkTransition {
  tr_target : string;
  tr_guard : option (json → bool);
  tr_action : bool;
}.

Definition TransitionMap : Type := jsmap (jsmap Transition).

Record StateConfig := mkConfig {
  cf_transitions : TransitionMap;
  cf_onEnter : bool;
  cf_onExit : bool;
  cf_historyLimit : option Z;
}.

Record HistoryEntry := mkHistory { h_from : string; h_to : string; h_event : string; h_timestamp : Z }.

Record MachineState := mkMachine { current : string; history : list HistoryEntry }.

Inductive MachineAction := TRANSITION (from to event : string) | RESET (initial : string).

(** The calls of the configuration's callbacks. *)
Inductive callback := OnExit (state : string) (context : json) | Action (from to : string) (context : json) | OnEnter (state : string) (context : json).

Definition machineReducer (now : Z) (state : MachineState) (action : MachineAction) (historyLimit : Z) : MachineState :=
  match action with
  | TRANSITION from to event => mkMachine to (js_slice_last historyLimit (history state ++ [mkHistory from to event now]))
  | RESET initial => mkMachine initial []
  end.

(** ** The hook *)

Record Hook := mkHook {
  machineState : MachineState;
  dispatched : list MachineAction;
  callbacks : list callback;
}.

Section hook.
Context (config : StateConfig) (initialState : string).

Definition historyLimit : Z := default 20 (cf_historyLimit config).

Definition useStateMachine : Hook := mkHook (mkMachine initialState []) [] [].

(** The next render applies what was dispatched. *)
Definition render (now : Z) (h : Hook) : Hook :=
  mkHook (foldl (λ s a, machineReducer now s a historyLimit) (machineState h) (dispatched h)) [] (callbacks h).

(** The transition [send] would take; [null] stands for a missing context. *)
Definition enabled (from event : string) (context : json) : option Transition :=
  match map_get from (cf_transitions config) ≫= map_get event with
  | None => None
  | Some t => if (if tr_guard t is Some g then negb (g context) else false) then None else Some t
  end.

Definition send (event : string) (context : json) (h : Hook) : Hook * bool :=
  let from := current (machineState h) in
  match enabled from event context with
  | None => (h, false)
  | Some t =>
      let to := tr_target t in
      (mkHook (machineState h) (dispatched h ++ [TRANSITION from to event])
         (callbacks h ++
          (if cf_onExit config then [OnExit from context] else []) ++
          (if tr_action t then [Action from to context] else []) ++
          (if cf_onEnter config then [OnEnter to context] else [])), true)
  end.

Definition can (event : string) (context : json) (h : Hook) : bool :=
  if enabled (current (machineState h)) event context is Some _ then true else false.

Definition is_ (state : string) (h : Hook) : bool := bool_decide (current (machineState h) = state).

Definition availableEvents (h : Hook) : list string :=
  match map_get (current (machineState h)) (cf_transitions config) with Some m => map_keys m | None => [] end.

Definition reset (h : Hook) : Hook :=
  mkHook (machineState h) (dispatched h ++ [RESET initialState]) (callbacks h).

(** ** One event per render *)

(** A transition of the configuration. *)
Definition allowed (from event to : string) : Prop := ∃ context t, enabled from event context = Some t ∧ tr_target t = to.

Inductive turn : Hook → Hook → Prop :=
| turn_send now event context h : turn h (render now (send event context h).1)
| turn_reset now h : turn h (render now (reset h)).

(** The history reads as a walk through the configuration that ends in the
    current state. *)
Fixpoint walk (l : list HistoryEntry) (last : string) : Prop :=
  match l with
  | [] => True
  | e :: l' => allowed (h_from e) (h_event e) (h_to e) ∧ h_to e = match l' with [] => last | e' :: _ => h_from e' end ∧ walk l' last
  end.

Lemma walk_snoc l s e : walk l s → h_from e = s → allowed (h_from e) (h_event e) (h_to e) → walk (l ++ [e]) (h_to e).
Proof.
  intros Hw He Ha. induction l as [|x l IH]; simpl in *; [done|]. destruct Hw as (H1 & H2 & H3). split_and!; [done| |auto].
  destruct l; simpl in *; congruence.
Qed.

Lemma walk_drop n l s : walk l s → walk (drop n l) s.
Proof. revert l. induction n as [|n IH]; intros [|e l]; simpl; auto. intros (_ & _ & Hw). auto. Qed.

Record machine_ok (h : Hook) : Prop := {
  mo_idle : dispatched h = [];
  mo_walk : walk (history (machineState h)) (current (machineState h));
  mo_bound : 0 < historyLimit → Z.of_nat (length (history (machineState h))) ≤ historyLimit;
  mo_reach : rtc (λ s s', ∃ event, allowed s event s') initialState (current (machineState h));
}.

Lemma turn_ok h h' : turn h h' → machine_ok h → machine_ok h'.
Proof.
  intros Ht [Hi Hw Hb Hr]. destruct Ht as [now event context h|now h]; unfold send, reset, render.
  - destruct (enabled _ event context) as [t|] eqn:He; simpl; rewrite Hi; simpl; [|by split].
    assert (Ha : allowed (current (machineState h)) event (tr_target t)) by (by exists context, t).
    split; simpl; [done| | |].
    + unfold js_slice_last. apply walk_drop.
      by apply (walk_snoc _ _ (mkHistory (current (machineState h)) (tr_target t) event now) Hw).
    + intros Hl. rewrite js_slice_last_length by done. lia.
    + eapply rtc_r; [exact Hr|]. by exists event.
  - rewrite Hi. simpl. split; simpl; [done|done|lia|constructor].
Qed.

Lemma machine_reaches h : rtc turn useStateMachine h → machine_ok h.
Proof.
  intros Hs. assert (H0 : machine_ok useStateMachine) by (split; simpl; [done|done|lia|constructor]). revert H0.
  induction Hs as [|h1 h2 h3 Ht _ IH]; [done|]. intros H1. apply IH. by eapply turn_ok.
Qed.

(** When the component renders between events, the machine only moves along
    the transitions of its configuration: its state is reachable from the
    initial one, its history is a walk that ends in it, and a positive limit
    bounds the history. *)
Theorem machine_invariant h :
  rtc turn useStateMachine h →
  walk (history (machineState h)) (current (machineState h)) ∧
  (0 < historyLimit → Z.of_nat (length (history (machineState h))) ≤ historyLimit) ∧
  rtc (λ s s', ∃ event, allowed s event s') initialState (current (machineState h)).
Proof. intros [_ Hw Hb Hr]%machine_reaches. done. Qed.

(** [can] predicts [send]: an event fires exactly when it can, then the next
    render is in the target state and the callbacks have run in the order exit,
    action, entry; an event that does not fire changes nothing. *)
Theorem send_spec now event context h :
  dispatched h = [] →
  if can event context h then
    ∃ t, enabled (current (machineState h)) event context = Some t ∧ (send event context h).2 = true ∧
      current (machineState (render now (send event context h).1)) = tr_target t ∧
      event ∈ availableEvents h ∧
      ∃ calls, callbacks (send event context h).1 = callbacks h ++ calls ∧
        calls `sublist_of` [OnExit (current (machineState h)) context; Action (current (machineState h)) (tr_target t) context; OnEnter (tr_target t) context]
  else send event context h = (h, false).
Proof.
  intros Hi. unfold can, send. destruct (enabled (current (machineState h)) event context) as [t|] eqn:He; [|done].
  exists t. cbv zeta. simpl. rewrite Hi. split_and!; [done..| |].
  - unfold availableEvents, enabled in *. destruct (map_get (current (machineState h)) (cf_transitions config)) as [m|]; simpl in He; [|done].
    destruct (map_get event m) as [t'|] eqn:Hm; [|done]. destruct (decide (event ∈ map_keys m)) as [|Hn]; [done|].
    apply map_get_None in Hn. congruence.
  - eexists. split; [done|]. destruct (cf_onExit config), (tr_action t), (cf_onEnter config); simpl; repeat constructor.
Qed.
End hook.

(** ** The match flow *)

Definition plain (target : string) : Transition := mkTransition target None false.

Definition MATCH_FLOW_CONFIG : StateConfig :=
  mkConfig
    [("idle", [("LOAD", plain "loading")]);
     ("loading", [("LOADED", plain "active"); ("LOAD_FAIL", plain "error")]);
     ("active", [("REPORT", plain "reporting"); ("DISPUTE", plain "disputed"); ("COMPLETE", plain "completed")]);
     ("reporting", [("REPORT_SUBMITTED", plain "active"); ("DISPUTE", plain "disputed")]);
     ("disputed", [("RESOLVE", plain "active"); ("COMPLETE", plain "completed")]);
     ("completed", []);
     ("error", [("RETRY", plain "loading"); ("RESET", plain "idle")])]
    false false None.

Definition flow_states : list string := map_keys (cf_transitions MATCH_FLOW_CONFIG).

(** Events sent one per render. *)
Definition play (events : list string) (h : Hook) : Hook :=
  foldl (λ h e, render MATCH_FLOW_CONFIG 0 (send MATCH_FLOW_CONFIG e JNull h).1) h events.

Definition flow_next (s event : string) : string :=
  from_option tr_target s (enabled MATCH_FLOW_CONFIG s event JNull).

Lemma play_current events h :
  dispatched h = [] → current (machineState (play events h)) = foldl flow_next (current (machineState h)) events.
Proof.
  revert h. induction events as [|e events IH]; intros h Hi; [done|]. simpl. rewrite IH by done. f_equal.
  unfold flow_next, send. destruct (enabled _ _ e JNull); simpl; by rewrite Hi.
Qed.

Lemma play_turns events h : rtc (turn MATCH_FLOW_CONFIG "idle") h (play events h).
Proof.
  revert h. induction events as [|e events IH]; intros h; [constructor|]. simpl. eapply rtc_l; [|apply IH]. constructor.
Qed.

(** A way to the end from every state. *)
Definition way_out (s : string) : list string :=
  if bool_decide (s = "idle") then ["LOAD"; "LOADED"; "COMPLETE"] else
  if bool_decide (s = "loading") then ["LOADED"; "COMPLETE"] else
  if bool_decide (s = "reporting") then ["REPORT_SUBMITTED"; "COMPLETE"] else
  if bool_decide (s = "error") then ["RETRY"; "LOADED"; "COMPLETE"] else ["COMPLETE"].

Lemma way_out_completes : Forall (λ s, foldl flow_next s (way_out s) = "completed") flow_states.
Proof. repeat (constructor; [vm_compute; reflexivity|]). constructor. Qed.

Lemma targets_known : Forall (λ e, Forall (λ t, tr_target t.2 ∈ flow_states) e.2) (cf_transitions MATCH_FLOW_CONFIG).
Proof. apply (bool_decide_unpack _). vm_compute. exact I. Qed.

Lemma allowed_known s e s' : allowed MATCH_FLOW_CONFIG s e s' → s' ∈ flow_states.
Proof.
  intros (c & t & He & <-). unfold enabled in He. destruct (map_get s (cf_transitions MATCH_FLOW_CONFIG)) as [m|] eqn:Hm; [|done].
  destruct (map_get e m) as [t'|] eqn:Ht; simpl in He; rewrite Ht in He; [|done].
  assert (t' = t) as -> by (by destruct (if tr_guard t' is Some g then negb (g c) else false); simplify_eq).
  pose proof targets_known as Hk. rewrite Forall_forall in Hk. specialize (Hk _ (map_get_elem _ _ _ Hm)).
  rewrite Forall_forall in Hk. exact (Hk _ (map_get_elem _ _ _ Ht)).
Qed.

(** A match flow never gets stuck: from whatever state events have brought it
    to, some sequence of events completes the match, and once completed it
    takes no event at all. *)
Theorem match_flow_completes h :
  rtc (turn MATCH_FLOW_CONFIG "idle") (useStateMachine "idle") h →
  (∃ events, rtc (turn MATCH_FLOW_CONFIG "idle") h (play events h) ∧ current (machineState (play events h)) = "completed") ∧
  (current (machineState h) = "completed" → ∀ event context, send MATCH_FLOW_CONFIG event context h = (h, false)).
Proof.
  intros Hs. pose proof (machine_reaches _ _ _ Hs) as Hm. destruct Hm as [Hi _ _ Hr]. split.
  - exists (way_out (current (machineState h))). split; [apply play_turns|]. rewrite play_current by done.
    assert (Hk : current (machineState h) ∈ flow_states).
    { apply rtc_inv_r in Hr as [<-|(s & _ & e & Ha)]; [|by eapply allowed_known]. apply (bool_decide_unpack _). vm_compute. exact I. }
    pose proof way_out_completes as Hw. rewrite Forall_forall in Hw. by apply Hw.
  - intros Hc event context. unfold send. rewrite Hc. done.
Qed.

(** The state of [send] is the one of the last render: two events sent before
    the next render are both checked against it, so a report followed by a
    completion goes through although a reporting match cannot be completed. *)
Theorem stale_send_skips_states :
  let h := play ["LOAD"; "LOADED"] (useStateMachine "idle") in
  let h' := render MATCH_FLOW_CONFIG 0 (send MATCH_FLOW_CONFIG "COMPLETE" JNull (send MATCH_FLOW_CONFIG "REPORT" JNull h).1).1 in
  current (machineState h') = "completed" ∧
  current (machineState (play ["REPORT"; "COMPLETE"] h)) = "reporting".
Proof. vm_compute. done. Qed.

(** A limit of zero keeps the whole history, because [slice(-0)] does. *)
Theorem zero_limit_unbounded :
  let config := mkConfig (cf_transitions MATCH_FLOW_CONFIG) false false (Some 0) in
  length (history (machineState (render config 0 (send config "LOAD" JNull (useStateMachine "idle")).1))) = 1%nat.
Proof. vm_compute. done. Qed.

(** ** Concrete flows *)

Definition disputed_flow : Hook := play ["LOAD"; "LOADED"; "DISPUTE"] (useStateMachine "idle").

Lemma machine_invariant_witness :
  walk MATCH_FLOW_CONFIG (history (machineState disputed_flow)) (current (machineState disputed_flow)) ∧
  current (machineState disputed_flow) = "disputed".
Proof. split; [|reflexivity]. apply (machine_invariant MATCH_FLOW_CONFIG "idle"), play_turns. Defined.

Lemma send_spec_witness :
  ∃ t, enabled MATCH_FLOW_CONFIG "idle" "LOAD" JNull = Some t ∧
    current (machineState (render MATCH_FLOW_CONFIG 0 (send MATCH_FLOW_CONFIG "LOAD" JNull (useStateMachine "idle")).1)) = tr_target t.
Proof.
  destruct (send_spec MATCH_FLOW_CONFIG 0 "LOAD" JNull (useStateMachine "idle") eq_refl) as (t & He & _ & Hc & _).
  exists t. split; [exact He|exact Hc].
Defined.

Lemma match_flow_completes_witness :
  ∃ events, current (machineState (play events (play ["LOAD"; "LOAD_FAIL"] (useStateMachine "idle")))) = "completed".
Proof.
  destruct (match_flow_completes (play ["LOAD"; "LOAD_FAIL"] (useStateMachine "idle"))) as [(es & _ & Hc) _]; [apply play_turns|].
  exists es. exact Hc.
Defined.
