(* ===== verification/TokenBucket.v ===== *)
(** * Token buckets: [server/src/middleware/token-bucket-rate-limit.middleware.ts]

    A bucket, the limiter with its escalations, the in-memory store, the Redis store
    and the four configured limiters.  A request is two steps, before and after the
    awaits on the store.  The guarantees hold for requests handled one after the other
    over a store that keeps what is written, as the in-memory store does; requests that
    overlap, or a Redis that fails, let more through, which is shown by runs.  Numbers
    are exact rationals and a request reads the clock once.  Logging and metrics are
    left out. *)

From Stdlib Require Import QArith Qround Qminmax Lqa.
From stdpp Require Import prelude gmap strings list.
From S2P Require Import Prelude.
Open Scope Z_scope.

(** ** Data *)

Record TokenBucketConfig := mkBucketConfig {
  capacity : Q;
  refillRate : Q;
  cost : option Q;
  identifier : option string;
}.

Record TokenBucketState := mkBucketState { tokens : Q; lastRefill : Z }.

Record Escalation := mkEscalation { threshold : Z; multiplier : Q; durationMs : Z }.
Record EscalationEntry := mkEscalationEntry { expiresAt : Z; e_multiplier : Q }.

Definition cost_of (c : TokenBucketConfig) : Q := default 1%Q (cost c).

(** ** Stores *)

(** [ITokenBucketStore] *)
Class ITokenBucketStore (S : Type) := {
  bs_empty : S;
  bs_get : string → S → option TokenBucketState;
  bs_set : string → TokenBucketState → S → S;
  bs_delete : string → S → S;
  bs_cleanup : Z → Z → S → S;
}.

(** A store that keeps what is written: the in-memory store does, the Redis store
    does not when Redis fails. *)
Class KeepingStore (S : Type) := {
  bs_ops :: ITokenBucketStore S;
  bs_get_empty : ∀ i, bs_get i bs_empty = None;
  bs_get_set : ∀ i st s, bs_get i (bs_set i st s) = Some st;
  bs_get_set_ne : ∀ i j st s, i ≠ j → bs_get j (bs_set i st s) = bs_get j s;
  bs_get_delete : ∀ i s, bs_get i (bs_delete i s) = None;
  bs_get_delete_ne : ∀ i j s, i ≠ j → bs_get j (bs_delete i s) = bs_get j s;
  bs_get_cleanup : ∀ now maxAge i s, bs_get i (bs_cleanup now maxAge s) =
    match bs_get i s with
    | Some st => if bool_decide (lastRefill st < now - maxAge) then None else Some st
    | None => None
    end;
}.

(** [InMemoryTokenBucketStore] *)
Definition InMemoryTokenBucketStore : Type := gmap string TokenBucketState.
Definition InMemory_get (i : string) (store : InMemoryTokenBucketStore) : option TokenBucketState := store !! i.
Definition InMemory_set (i : string) (st : TokenBucketState) (store : InMemoryTokenBucketStore) : InMemoryTokenBucketStore := <[i := st]> store.
Definition InMemory_delete (i : string) (store : InMemoryTokenBucketStore) : InMemoryTokenBucketStore := delete i store.
Definition InMemory_cleanup (now maxAge : Z) (store : InMemoryTokenBucketStore) : InMemoryTokenBucketStore :=
  let cutoff := now - maxAge in
  filter (λ kv, ¬ lastRefill kv.2 < cutoff) store.
Definition InMemory_size (store : InMemoryTokenBucketStore) : nat := size store.

Definition InMemory_operations : ITokenBucketStore InMemoryTokenBucketStore := {|
  bs_empty := ∅;
  bs_get := InMemory_get; bs_set := InMemory_set; bs_delete := InMemory_delete; bs_cleanup := InMemory_cleanup;
|}.

#[export] Program Instance InMemory_store : KeepingStore InMemoryTokenBucketStore := {| bs_ops := InMemory_operations |}.
Next Obligation. done. Qed.
Next Obligation. intros. apply lookup_insert_eq. Qed.
Next Obligation. intros. by apply lookup_insert_ne. Qed.
Next Obligation. intros. apply lookup_delete_eq. Qed.
Next Obligation. intros. by apply lookup_delete_ne. Qed.
Next Obligation.
  intros now maxAge i s. cbn [bs_get bs_cleanup InMemory_operations]. unfold InMemory_cleanup, InMemory_get, InMemoryTokenBucketStore in *. rewrite map_lookup_filter.
  destruct (s !! i) as [st|]; simpl; [|done]. case_bool_decide; by case_guard.
Qed.

(** [RedisTokenBucketStore]: Redis is a parameter, and each command may throw.  The
    fields of a hash are the texts of two numbers, which are read back exactly; they
    are kept as numbers.  The buckets expire after an hour without a write. *)
Class RedisHashes (R : Type) := {
  rh_none : R;
  rh_hgetall : string → R → result (option TokenBucketState);
  rh_hset_expire : string → TokenBucketState → Z → R → R * result unit;
  rh_keys : string → R → result (list string);
  rh_hget_lastRefill : string → R → result (option Z);
  rh_del : list string → R → R * result unit;
}.

Section redis_store.
Context {R : Type} `{RedisHashes R} (prefix : string).

Definition Redis_get (i : string) (r : R) : option TokenBucketState :=
  match rh_hgetall (prefix +:+ i) r with Ok data => data | Throw _ => None end.
Definition Redis_set (i : string) (st : TokenBucketState) (r : R) : R := (rh_hset_expire (prefix +:+ i) st 3600 r).1.
Definition Redis_delete (i : string) (r : R) : R := (rh_del [prefix +:+ i] r).1.

(** The keys to delete; a command that throws ends the loop. *)
Fixpoint old_keys (cutoff : Z) (keys : list string) (r : R) : result (list string) :=
  match keys with
  | [] => Ok []
  | key :: keys' =>
      match rh_hget_lastRefill key r with
      | Throw e => Throw e
      | Ok t =>
          match old_keys cutoff keys' r with
          | Throw e => Throw e
          | Ok ks => Ok (if match t with Some t => bool_decide (t < cutoff) | None => false end then key :: ks else ks)
          end
      end
  end.

Definition Redis_cleanup (now maxAge : Z) (r : R) : R :=
  match rh_keys (prefix +:+ "*") r with
  | Throw _ => r
  | Ok keys => match old_keys (now - maxAge) keys r with Ok (k :: ks) => (rh_del (k :: ks) r).1 | _ => r end
  end.

Definition Redis_store : ITokenBucketStore R := {|
  bs_empty := rh_none;
  bs_get := Redis_get; bs_set := Redis_set; bs_delete := Redis_delete; bs_cleanup := Redis_cleanup;
|}.
End redis_store.

(** ** The bucket *)

Record TokenBucket := mkBucket {
  b_state : TokenBucketState;
  b_capacity : Q;
  b_refillRate : Q;
  b_cost : Q;
}.

Definition new_TokenBucket (initialState : TokenBucketState) (config : TokenBucketConfig) : TokenBucket :=
  mkBucket initialState (capacity config) (refillRate config) (cost_of config).

Definition with_state (b : TokenBucket) (st : TokenBucketState) : TokenBucket :=
  mkBucket st (b_capacity b) (b_refillRate b) (b_cost b).

Definition refill (now : Z) (b : TokenBucket) : TokenBucket :=
  let elapsedSec := (inject_Z (now - lastRefill (b_state b)) / 1000)%Q in
  let newTokens := Qmin (b_capacity b) (tokens (b_state b) + elapsedSec * b_refillRate b)%Q in
  with_state b (mkBucketState newTokens now).

Definition tryConsume (now : Z) (c : Q) (b : TokenBucket) : TokenBucket * bool :=
  let b := refill now b in
  if Qle_bool c (tokens (b_state b)) then (with_state b (mkBucketState (tokens (b_state b) - c)%Q (lastRefill (b_state b))), true)
  else (b, false).

Definition remainingTokens (now : Z) (b : TokenBucket) : Q := tokens (b_state (refill now b)).

Definition timeUntilRefillMs (now : Z) (b : TokenBucket) : Z :=
  let b := refill now b in
  if Qle_bool (b_cost b) (tokens (b_state b)) then 0 else
  let deficit := (b_cost b - tokens (b_state b))%Q in
  Qceiling (deficit / b_refillRate b * 1000)%Q.

Definition getState (now : Z) (b : TokenBucket) : TokenBucketState := b_state (refill now b).

(** ** The limiter *)

Record Request := mkRequest { req_user_id : option string; req_ip : option string }.

Definition defaultIdentifier (req : Request) : string :=
  match truthy_str (req_user_id req) with
  | Some i => "user:" +:+ i
  | None => "ip:" +:+ default "unknown" (req_ip req)
  end.

(** The answer of the middleware: [next()] with its headers, or 429. *)
Inductive Answer :=
| Next (limit : Q) (remaining : Z)
| TooMany (limit : Q) (retryAfter : Z) (escalated : bool).

Definition allowed (a : Answer) : bool := match a with Next _ _ => true | TooMany _ _ _ => false end.

Section limiter.
Context {S : Type} `{ITokenBucketStore S}.
Context (config : TokenBucketConfig) (escalation : option Escalation).

Record TokenBucketRateLimiter := mkLimiter {
  store : S;
  escalations : gmap string EscalationEntry;
  violations : gmap string Z;
}.

Implicit Types (this : TokenBucketRateLimiter).

Definition new_TokenBucketRateLimiter : TokenBucketRateLimiter := mkLimiter bs_empty ∅ ∅.

Definition set_store (s : S) this : TokenBucketRateLimiter := mkLimiter s (escalations this) (violations this).

Definition resolveEffectiveConfig (now : Z) (i : string) this : TokenBucketConfig :=
  match escalations this !! i with
  | Some esc =>
      if bool_decide (now < expiresAt esc) then
        mkBucketConfig (inject_Z (Qfloor (capacity config * e_multiplier esc)%Q)) (refillRate config * e_multiplier esc)%Q
          (Some (cost_of config)) (identifier config)
      else config
  | None => config
  end.

Definition maybeEscalate (now : Z) (i : string) (n : Z) this : TokenBucketRateLimiter * bool :=
  match escalation with
  | None => (this, false)
  | Some esc =>
      if bool_decide (n < threshold esc) then (this, false) else
      let enter := (mkLimiter (store this) (<[i := mkEscalationEntry (now + durationMs esc) (multiplier esc)]> (escalations this))
                      (violations this), true) in
      match escalations this !! i with
      | Some existing => if bool_decide (now < expiresAt existing) then (this, true) else enter
      | None => enter
      end
  end.

(** [bucket] of the store, or a new full one. *)
Definition load_bucket (now : Z) (i : string) (effective : TokenBucketConfig) this : TokenBucketRateLimiter * TokenBucketState :=
  match bs_get i (store this) with
  | Some bucket => (this, bucket)
  | None => let bucket := mkBucketState (capacity effective) now in (set_store (bs_set i bucket (store this)) this, bucket)
  end.

(** Before and after the awaits on the store: other requests may run in between. *)
Definition arrive (now : Z) (i : string) this : TokenBucketRateLimiter * (TokenBucketConfig * TokenBucketState) :=
  let effective := resolveEffectiveConfig now i this in
  let '(this, bucket) := load_bucket now i effective this in
  (this, (effective, bucket)).

Definition proceed (now : Z) (i : string) (arrived : TokenBucketConfig * TokenBucketState) this : TokenBucketRateLimiter * Answer :=
  let '(effective, bucket) := arrived in
  let '(tokenBucket, consumed) := tryConsume now (cost_of effective) (new_TokenBucket bucket effective) in
  if consumed then
    (set_store (bs_set i (getState now tokenBucket) (store this)) this,
     Next (capacity effective) (Qfloor (remainingTokens now tokenBucket)))
  else
    let n := default 0 (violations this !! i) + 1 in
    let this := mkLimiter (store this) (escalations this) (<[i := n]> (violations this)) in
    let '(this, escalated) := maybeEscalate now i n this in
    (this, TooMany (capacity effective) (Qceiling (inject_Z (timeUntilRefillMs now tokenBucket) / 1000)%Q) escalated).

(** A request that is handled at one go. *)
Definition middleware (now : Z) (i : string) this : TokenBucketRateLimiter * Answer :=
  let '(this, arrived) := arrive now i this in proceed now i arrived this.

Definition reset (i : string) this : TokenBucketRateLimiter :=
  mkLimiter (bs_delete i (store this)) (delete i (escalations this)) (delete i (violations this)).

Definition cleanup (now : Z) this : TokenBucketRateLimiter := set_store (bs_cleanup now 60000 (store this)) this.

(** ** Runs, one operation after the other *)

Inductive limiter_op :=
| Incoming (now : Z) (i : string)
| Cleanup (now : Z)
| Reset (now : Z) (i : string).

Definition op_time (o : limiter_op) : Z := match o with Incoming t _ | Cleanup t | Reset t _ => t end.

Definition limiter_step (o : limiter_op) this : TokenBucketRateLimiter * list (string * Answer) :=
  match o with
  | Incoming now i => let '(this, a) := middleware now i this in (this, [(i, a)])
  | Cleanup now => (cleanup now this, [])
  | Reset _ i => (reset i this, [])
  end.

Fixpoint limiter_run (ops : list limiter_op) this : TokenBucketRateLimiter * list (string * Answer) :=
  match ops with
  | [] => (this, [])
  | o :: ops' =>
      let '(this, l1) := limiter_step o this in
      let '(this, l2) := limiter_run ops' this in (this, l1 ++ l2)
  end.
End limiter.

Arguments TokenBucketRateLimiter S : clear implicits.

(** ** The configured limiters *)

Definition authTokenBucketLimiter : TokenBucketConfig * option Escalation :=
  (mkBucketConfig 5 (5 / 60) None (Some "auth"), Some (mkEscalation 3 (1 # 10) 300000)).
Definition paymentTokenBucketLimiter : TokenBucketConfig * option Escalation :=
  (mkBucketConfig 10 (10 / 60) None (Some "payment"), Some (mkEscalation 5 (2 # 10) 600000)).
Definition gameActionTokenBucketLimiter : TokenBucketConfig * option Escalation :=
  (mkBucketConfig 30 (30 / 60) None (Some "game-action"), Some (mkEscalation 10 (5 # 10) 300000)).
Definition generalTokenBucketLimiter : TokenBucketConfig * option Escalation :=
  (mkBucketConfig 100 (100 / 60) None (Some "general"), Some (mkEscalation 20 (3 # 10) 300000)).

(** ** What the token bucket limiter guarantees

    When requests are handled one after the other over a store that keeps what is
    written, with clean-ups and escalations in between, a client is let
    through at most as often as a full bucket and the refill allow; a client
    that waits as long as the answer says is let through; and the clean-up of
    old buckets cannot be observed. *)

(** ** Rationals *)

Lemma Qmin_cases (a b : Q) : (a <= b /\ Qmin a b == a \/ b < a /\ Qmin a b == b)%Q.
Proof. destruct (Q.min_spec a b) as [[? ?]|[? ?]]; [left; split; [lra|done]|]. destruct (Qlt_le_dec b a); [right|left]; split; lra. Qed.

(** Splits on every minimum and closes linear goals. *)
Ltac qmin :=
  repeat match goal with
  | |- context [Qmin ?a ?b] => destruct (Qmin_cases a b) as [[? ?]|[? ?]]; generalize dependent (Qmin a b); intros
  | _ : context [Qmin ?a ?b] |- _ => destruct (Qmin_cases a b) as [[? ?]|[? ?]]; generalize dependent (Qmin a b); intros
  end; try lra.

Lemma Qscale (a m : Q) : (0 <= a)%Q → (0 <= m <= 1)%Q → (0 <= a * m <= a)%Q.
Proof. intros Ha [Hm0 Hm1]. split; [by apply Qmult_le_0_compat|]. pose proof (Qmult_le_0_compat a (1 - m) Ha ltac:(lra)). lra. Qed.

Definition seconds (t : Z) : Q := (inject_Z t / 1000)%Q.

Lemma seconds_sub t t' t'' : (seconds (t'' - t) == seconds (t' - t) + seconds (t'' - t'))%Q.
Proof.
  unfold seconds. assert (t'' - t = (t' - t) + (t'' - t')) as -> by lia. rewrite inject_Z_plus. field.
Qed.

Lemma seconds_nonneg t : 0 ≤ t → (0 <= seconds t)%Q.
Proof. intros Ht. unfold seconds. apply Qle_shift_div_l; [done|]. rewrite Qmult_0_l. change 0%Q with (inject_Z 0). by rewrite <- Zle_Qle. Qed.

Section spec.
Context {S : Type} `{KeepingStore S}.
Context (config : TokenBucketConfig) (escalation : option Escalation).
Notation cap := (capacity config).
Notation rate := (refillRate config).
Notation price := (cost_of config).
Notation new_TokenBucketRateLimiter := (new_TokenBucketRateLimiter (S := S)).
Notation limiter_step := (limiter_step config escalation).
Notation limiter_run := (limiter_run config escalation).
Notation Limiter := (TokenBucketRateLimiter S).
Implicit Types (this : Limiter) (i : string) (t now : Z).

(** The configuration: nothing is negative, escalation only tightens, and a
    bucket that is cleaned up after a minute would have been full. *)
Record sane : Prop := {
  sn_cap : (0 <= cap)%Q;
  sn_rate : (0 <= rate)%Q;
  sn_price : (0 <= price)%Q;
  sn_minute : (cap <= 60 * rate)%Q;
  sn_multiplier : ∀ e, escalation = Some e → (0 <= multiplier e <= 1)%Q;
}.
Context (config_sane : sane).

(** ** What a bucket is worth at an instant *)

Definition avail (st : option TokenBucketState) t : Q :=
  match st with
  | None => cap
  | Some st => Qmin cap (tokens st + seconds (t - lastRefill st) * rate)%Q
  end.

Definition bucket_ok t (st : option TokenBucketState) : Prop :=
  match st with None => True | Some st => (0 <= tokens st <= cap)%Q ∧ lastRefill st ≤ t end.

Lemma avail_cap st t : (avail st t <= cap)%Q.
Proof. destruct st as [st|]; simpl; [|lra]. qmin. Qed.

Lemma avail_later st t t' : bucket_ok t st → t ≤ t' →
  (avail st t' == Qmin cap (avail st t + seconds (t' - t) * rate))%Q.
Proof.
  pose proof (sn_rate config_sane) as Hr. pose proof (sn_cap config_sane) as Hc.
  intros Hok Ht. pose proof (seconds_nonneg (t' - t) ltac:(lia)) as Hs. assert (0 <= seconds (t' - t) * rate)%Q as Hp by nra.
  destruct st as [st|]; simpl; [|qmin].
  assert (tokens st + seconds (t' - lastRefill st) * rate == (tokens st + seconds (t - lastRefill st) * rate) + seconds (t' - t) * rate)%Q
    as -> by (rewrite (seconds_sub (lastRefill st) t t'); ring).
  generalize dependent (tokens st + seconds (t - lastRefill st) * rate)%Q. generalize dependent (seconds (t' - t) * rate)%Q. intros. qmin.
Qed.

(** ** One request *)

Definition esc_ok this : Prop := ∀ i e, escalations this !! i = Some e → (0 <= e_multiplier e <= 1)%Q.

Record limiter_wf t this : Prop := {
  lm_buckets : ∀ i, bucket_ok t (bs_get i (store this));
  lm_escalations : esc_ok this;
}.

Lemma bucket_later t t' st : bucket_ok t st → t ≤ t' → bucket_ok t' st.
Proof. destruct st; simpl; [|done]. intros [? ?] ?. split; [done|lia]. Qed.

Lemma wf_later t t' this : limiter_wf t this → t ≤ t' → limiter_wf t' this.
Proof. intros [Hb He] Ht. split; [|done]. intros i. by eapply bucket_later. Qed.

Lemma Qfloor_nonneg (q : Q) : (0 <= q)%Q → (0 <= inject_Z (Qfloor q))%Q.
Proof. intros Hq. change 0%Q with (inject_Z 0). rewrite <- Zle_Qle. apply (Qfloor_resp_le 0 q Hq). Qed.

Lemma effective_ok now i this : esc_ok this →
  let e := resolveEffectiveConfig config now i this in
  cost_of e = price ∧ (0 <= capacity e <= cap)%Q ∧ (0 <= refillRate e <= rate)%Q.
Proof.
  destruct config_sane as [Hc Hr Hp _ _]. intros He. cbv zeta. unfold resolveEffectiveConfig.
  destruct (escalations this !! i) as [e|] eqn:E; [|repeat split; lra]. specialize (He _ _ E).
  case_bool_decide; [|repeat split; lra]. cbn [cost_of cost capacity refillRate default from_option]. pose proof (Qfloor_le (cap * e_multiplier e)).
  pose proof (Qscale cap (e_multiplier e) Hc He). pose proof (Qscale rate (e_multiplier e) Hr He).
  pose proof (Qfloor_nonneg (cap * e_multiplier e) ltac:(lra)). split_and!; first [done|lra].
Qed.

Lemma seconds_0 t : (seconds (t - t) == 0)%Q.
Proof. rewrite Z.sub_diag. done. Qed.

(** The bucket a request works on, after the refill. *)
Definition filled now (e : TokenBucketConfig) (st : TokenBucketState) : Q :=
  Qmin (capacity e) (tokens st + seconds (now - lastRefill st) * refillRate e)%Q.

Definition loaded now (e : TokenBucketConfig) (st : option TokenBucketState) : TokenBucketState :=
  default (mkBucketState (capacity e) now) st.

Lemma filled_range now t e st : bucket_ok t st → t ≤ now → (0 <= capacity e <= cap)%Q → (0 <= refillRate e <= rate)%Q →
  (0 <= filled now e (loaded now e st) <= avail st now)%Q ∧ (filled now e (loaded now e st) <= capacity e)%Q.
Proof.
  intros Hok Ht Hc Hr. destruct st as [st|]; simpl in *.
  - destruct Hok as [Htk Hl]. pose proof (seconds_nonneg (now - lastRefill st) ltac:(lia)). unfold filled.
    assert (0 <= seconds (now - lastRefill st) * refillRate e <= seconds (now - lastRefill st) * rate)%Q by nra. qmin.
  - unfold filled. simpl. assert (seconds (now - now) * refillRate e == 0)%Q as E by (rewrite seconds_0; ring). qmin.
Qed.

Lemma refill_again now b : (tokens (b_state b) <= b_capacity b)%Q → lastRefill (b_state b) = now →
  (tokens (b_state (refill now b)) == tokens (b_state b))%Q.
Proof.
  intros Hc <-. cbn. fold (seconds (lastRefill (b_state b) - lastRefill (b_state b))).
  pose proof (seconds_0 (lastRefill (b_state b))) as E. assert (seconds (lastRefill (b_state b) - lastRefill (b_state b)) * b_refillRate b == 0)%Q
    by (rewrite E; ring). qmin.
Qed.

Lemma load_bucket_eq now i e this : load_bucket now i e this =
  (match bs_get i (store this) with Some _ => this | None => set_store (bs_set i (loaded now e None) (store this)) this end,
   loaded now e (bs_get i (store this))).
Proof. unfold load_bucket. by destruct (bs_get i (store this)). Qed.

Lemma load_bucket_others now i e this j : i ≠ j →
  bs_get j (store (load_bucket now i e this).1) = bs_get j (store this).
Proof. intros Hij. unfold load_bucket. destruct (bs_get i (store this)); [done|]. simpl. by apply bs_get_set_ne. Qed.

Lemma maybeEscalate_store now i n this : store (maybeEscalate escalation now i n this).1 = store this.
Proof.
  unfold maybeEscalate. destruct escalation as [e|]; [|done]. case_bool_decide; [done|].
  destruct (escalations this !! i); [case_bool_decide|]; done.
Qed.

Lemma maybeEscalate_ok now i n this : esc_ok this → esc_ok (maybeEscalate escalation now i n this).1.
Proof.
  pose proof (sn_multiplier config_sane) as Hm. intros He. unfold maybeEscalate.
  destruct escalation as [e|]; [|done]. case_bool_decide; [done|].
  assert (∀ v, esc_ok (mkLimiter (store this) (<[i := mkEscalationEntry (now + durationMs e) (multiplier e)]> (escalations this)) v)) as Hnew.
  { intros v j e'. simpl. rewrite lookup_insert_Some. intros [[<- <-]|[_ ?]]; [by apply Hm|by eapply He]. }
  destruct (escalations this !! i); [case_bool_decide|]; simpl; auto.
Qed.

(** A request works on the bucket of its client only, and pays for itself. *)
Lemma middleware_spec t now i this : limiter_wf t this → t ≤ now →
  let '(this', a) := middleware config escalation now i this in
  limiter_wf now this' ∧ (∀ j, i ≠ j → bs_get j (store this') = bs_get j (store this)) ∧
  (avail (bs_get i (store this')) now + (if allowed a then price else 0) <= avail (bs_get i (store this)) now)%Q.
Proof.
  intros Hwf Ht. pose proof (wf_later _ _ _ Hwf Ht) as [Hb He]. destruct (effective_ok now i this He) as (Hp & Hc & Hr).
  pose proof (sn_price config_sane) as Hprice. unfold middleware, arrive, proceed. set (e := resolveEffectiveConfig config now i this) in *.
  pose proof (filled_range now now e _ (Hb i) (Z.le_refl _) Hc Hr) as [Hf Hfc].
  pose proof (load_bucket_others now i e this) as Hothers. rewrite load_bucket_eq in *. set (st := loaded now e (bs_get i (store this))) in *.
  set (this1 := match bs_get i (store this) with Some _ => this | None => _ end) in *. simpl in Hothers.
  assert (escalations this1 = escalations this) as Eesc by (unfold this1; by destruct (bs_get i (store this))).
  unfold tryConsume. cbn [refill new_TokenBucket b_state b_capacity b_refillRate tokens lastRefill with_state].
  fold (seconds (now - lastRefill st)). fold (filled now e st). rewrite Hp.
  destruct (Qle_bool price (filled now e st)) eqn:Hq.
  - apply Qle_bool_iff in Hq. set (b := with_state _ _). cbv beta iota.
    assert (tokens (getState now b) == filled now e st - price)%Q as Etok by (apply refill_again; [cbn; lra|done]).
    split_and!.
    + split; [|unfold esc_ok; simpl; by rewrite Eesc]. intros j. simpl. destruct (decide (i = j)) as [<-|Hij].
      * rewrite bs_get_set. split; [|simpl; lia]. rewrite Etok. lra.
      * rewrite bs_get_set_ne, Hothers by done. apply Hb.
    + intros j Hij. simpl. by rewrite bs_get_set_ne, Hothers.
    + simpl. rewrite bs_get_set. cbn [avail]. rewrite Etok. pose proof (seconds_0 now) as E0.
      assert (seconds (now - lastRefill (getState now b)) * rate == 0)%Q as E1 by (cbn [getState refill with_state b_state lastRefill]; rewrite E0; ring).
      qmin.
  - cbv beta iota zeta. set (this2 := mkLimiter _ _ _). set (n := default 0 _ + 1).
    pose proof (maybeEscalate_store now i n this2) as Est. pose proof (maybeEscalate_ok now i n this2) as Eok.
    destruct (maybeEscalate escalation now i n this2) as [this3 esc]. simpl in Est, Eok. rewrite !Est. cbn [allowed].
    assert (bs_get i (store this1) = Some st) as Hi.
    { unfold this1, st, loaded. destruct (bs_get i (store this)) eqn:E; [by rewrite E|]. simpl. apply bs_get_set. }
    split_and!.
    + split; [|apply Eok; unfold esc_ok; simpl; by rewrite Eesc]. rewrite Est. intros j. simpl. destruct (decide (i = j)) as [<-|Hij].
      * rewrite Hi. specialize (Hb i). unfold st, loaded. destruct (bs_get i (store this)); [done|]. simpl. split; [done|lia].
      * rewrite Hothers by done. apply Hb.
    + intros j Hij. simpl. by apply Hothers.
    + simpl. rewrite Hi. unfold st, loaded. destruct (bs_get i (store this)) as [st0|]; simpl; [lra|].
      assert (seconds (now - now) * rate == 0)%Q as E1 by (rewrite seconds_0; ring). qmin.
Qed.

(** ** Runs *)

(** The operations happen in order between two instants. *)
Fixpoint timed t (ops : list limiter_op) t' : Prop :=
  match ops with [] => t ≤ t' | o :: ops' => t ≤ op_time o ∧ timed (op_time o) ops' t' end.

Definition is_admission i (r : string * Answer) : bool := bool_decide (r.1 = i) && allowed r.2.
Definition admitted i (l : list (string * Answer)) : Z := Z.of_nat (length (List.filter (is_admission i) l)).

Lemma admitted_app i l1 l2 : admitted i (l1 ++ l2) = admitted i l1 + admitted i l2.
Proof. unfold admitted. rewrite List.filter_app, length_app. lia. Qed.

Definition cleaned now (st : option TokenBucketState) : option TokenBucketState :=
  match st with Some st => if bool_decide (lastRefill st < now - 60000) then None else Some st | None => None end.

Lemma avail_cleanup t st now : bucket_ok t st → t ≤ now → (avail (cleaned now st) now == avail st now)%Q.
Proof.
  intros Hok Ht. unfold cleaned. destruct st as [st|]; [|done]. case_bool_decide as Hold; [|done]. destruct Hok as [Htk Hl]. cbn [avail].
  pose proof (sn_minute config_sane) as Hmin. pose proof (sn_rate config_sane) as Hr.
  assert (60 <= seconds (now - lastRefill st))%Q.
  { unfold seconds. apply Qle_shift_div_l; [done|]. change (60 * 1000)%Q with (inject_Z 60000). rewrite <- Zle_Qle. lia. }
  assert (60 * rate <= seconds (now - lastRefill st) * rate)%Q by (apply Qmult_le_compat_r; done). qmin.
Qed.

Lemma step_limiter_wf o t this : limiter_wf t this → t ≤ op_time o → limiter_wf (op_time o) (limiter_step o this).1.
Proof.
  intros Hwf Ht. destruct o as [now i|now|now i]; simpl in *.
  - pose proof (middleware_spec t now i this Hwf Ht) as Hm. destruct (middleware _ _ _ _ _) as [this' a]. by destruct Hm.
  - pose proof (wf_later _ _ _ Hwf Ht) as [Hb He]. split; [|done]. intros i. simpl. rewrite bs_get_cleanup. specialize (Hb i).
    destruct (bs_get i (store this)); [|done]. by case_bool_decide.
  - pose proof (wf_later _ _ _ Hwf Ht) as [Hb He]. split.
    + intros j. simpl. destruct (decide (i = j)) as [<-|Hij]; [by rewrite bs_get_delete|]. rewrite bs_get_delete_ne by done. apply Hb.
    + intros j e. simpl. intros [_ ?]%lookup_delete_Some. by eapply He.
Qed.

(** What a client gets out of a step comes out of the bucket. *)
Lemma step_pays o t i this : limiter_wf t this → t ≤ op_time o → (∀ now, o ≠ Reset now i) →
  (inject_Z (admitted i (limiter_step o this).2) * price + avail (bs_get i (store (limiter_step o this).1)) (op_time o)
   <= avail (bs_get i (store this)) (op_time o))%Q.
Proof.
  intros Hwf Ht Hno. destruct o as [now j|now|now j]; simpl in *.
  - pose proof (middleware_spec t now j this Hwf Ht) as Hm. destruct (middleware _ _ _ _ _) as [this' a]. destruct Hm as (_ & Hoth & Hpay).
    unfold admitted, is_admission. simpl. case_bool_decide as E; simpl.
    + subst j. destruct (allowed a); simpl in *; [change (inject_Z (Z.of_nat 1)) with 1%Q|change (inject_Z (Z.of_nat 0)) with 0%Q]; lra.
    + rewrite Hoth by done. change (inject_Z (Z.of_nat 0)) with 0%Q. lra.
  - rewrite bs_get_cleanup. fold (cleaned now (bs_get i (store this))).
    rewrite (avail_cleanup t) by (by first [apply (lm_buckets _ _ Hwf)|idtac]). change (inject_Z (admitted i [])) with 0%Q. lra.
  - rewrite bs_get_delete_ne by (intros ->; by destruct (Hno now)). change (inject_Z (admitted i [])) with 0%Q. lra.
Qed.

Lemma run_limiter_wf ops t t' this : limiter_wf t this → timed t ops t' → limiter_wf t' (limiter_run ops this).1.
Proof.
  revert t this. induction ops as [|o ops IH]; intros t this Hwf; simpl; [intros Ht; by eapply wf_later|].
  intros [Ht Hops]. pose proof (step_limiter_wf o t this Hwf Ht) as Hwf1. destruct (limiter_step o this) as [this1 l1]. simpl in Hwf1.
  specialize (IH _ _ Hwf1 Hops). by destruct (limiter_run ops this1).
Qed.

Lemma run_pays ops t t' i this : limiter_wf t this → timed t ops t' → (∀ now, Reset now i ∉ ops) →
  (inject_Z (admitted i (limiter_run ops this).2) * price <= avail (bs_get i (store this)) t + seconds (t' - t) * rate)%Q.
Proof.
  revert t this. induction ops as [|o ops IH]; intros t this Hwf; simpl.
  - intros Ht _. change (inject_Z (admitted i [])) with 0%Q. pose proof (seconds_nonneg (t' - t) ltac:(lia)). pose proof (sn_rate config_sane).
    pose proof (Qmult_le_0_compat (seconds (t' - t)) rate ltac:(done) ltac:(done)).
    pose proof (filled_range t t config (bs_get i (store this)) (lm_buckets _ _ Hwf i) (Z.le_refl _)) as Hf.
    pose proof (sn_cap config_sane). destruct Hf as [Hf _]; [lra..|]. lra.
  - intros [Ht Hops] Hno. assert (∀ now, o ≠ Reset now i) as Ho by (intros now ->; apply (Hno now); left).
    assert (∀ now, Reset now i ∉ ops) as Hno' by (intros now Hin; apply (Hno now); by right).
    pose proof (step_pays o t i this Hwf Ht Ho) as Hpay. pose proof (step_limiter_wf o t this Hwf Ht) as Hwf1.
    pose proof (avail_later _ t (op_time o) (lm_buckets _ _ Hwf i) Ht) as Hlater.
    destruct (limiter_step o this) as [this1 l1]. simpl in *. specialize (IH _ _ Hwf1 Hops Hno').
    destruct (limiter_run ops this1) as [this2 l2]. simpl in *. rewrite admitted_app, inject_Z_plus.
    rewrite (seconds_sub t (op_time o) t'). qmin.
Qed.

Lemma new_wf t : limiter_wf t new_TokenBucketRateLimiter.
Proof. split; [|by intros ? ?]. intros i. simpl. by rewrite bs_get_empty. Qed.

(** ** Clients that are not escalated *)

(** An escalated client has reached the threshold. *)
Definition entries_ok this : Prop := ∀ i e, escalations this !! i = Some e →
  ∃ esc, escalation = Some esc ∧ threshold esc ≤ default 0 (violations this !! i).

Lemma filled_avail now st : (filled now config (loaded now config st) == avail st now)%Q.
Proof.
  destruct st as [st|]; [done|]. unfold filled. simpl.
  assert (seconds (now - now) * rate == 0)%Q by (rewrite seconds_0; ring). qmin.
Qed.

Lemma Qle_bool_eq (a b c : Q) : (b == c)%Q → Qle_bool a b = Qle_bool a c.
Proof. intros E. apply eq_true_iff_eq. rewrite !Qle_bool_iff. by rewrite E. Qed.

(** Whether a request is admitted depends on the worth of the bucket only. *)
Lemma middleware_allowed now i this : resolveEffectiveConfig config now i this = config →
  allowed (middleware config escalation now i this).2 = Qle_bool price (avail (bs_get i (store this)) now).
Proof.
  intros Ee. unfold middleware, arrive, proceed. rewrite Ee, load_bucket_eq. rewrite <- (Qle_bool_eq price _ _ (filled_avail now (bs_get i (store this)))).
  unfold tryConsume. cbn [refill new_TokenBucket b_state b_capacity b_refillRate tokens lastRefill with_state].
  set (st := loaded now config (bs_get i (store this))). fold (seconds (now - lastRefill st)). fold (filled now config st).
  destruct (Qle_bool price (filled now config st)); [done|]. cbv zeta. by destruct (maybeEscalate _ _ _ _ _).
Qed.

(** What is left of a step for a client that does not call. *)
Lemma step_idle o t i this : limiter_wf t this → t ≤ op_time o → (∀ now, o ≠ Incoming now i) →
  (avail (bs_get i (store this)) (op_time o) <= avail (bs_get i (store (limiter_step o this).1)) (op_time o))%Q ∧
  (escalations this !! i = None → escalations (limiter_step o this).1 !! i = None).
Proof.
  intros Hwf Ht Hno. destruct o as [now j|now|now j]; simpl in *.
  - assert (j ≠ i) as Hij by (intros ->; by destruct (Hno now)).
    pose proof (middleware_spec t now j this Hwf Ht) as Hm.
    assert (escalations (middleware config escalation now j this).1 !! i = escalations this !! i) as He.
    { unfold middleware, arrive, proceed. rewrite load_bucket_eq. destruct (tryConsume _ _ _) as [b []]; simpl.
      - by destruct (bs_get j (store this)).
      - set (this1 := mkLimiter _ _ _). assert (escalations this1 = escalations this) as E by (unfold this1; by destruct (bs_get j (store this))).
        clearbody this1. unfold maybeEscalate. destruct escalation as [e|]; [|by rewrite <- E]. case_bool_decide; [by rewrite <- E|].
        destruct (escalations this1 !! j); [case_bool_decide|]; cbn [fst escalations]; rewrite ?lookup_insert_ne by done; by rewrite E. }
    destruct (middleware _ _ _ _ _) as [this' a]. destruct Hm as (_ & Hoth & _). simpl in *. rewrite Hoth by done.
    split; [lra|]. by rewrite He.
  - rewrite bs_get_cleanup. fold (cleaned now (bs_get i (store this))). split; [|done].
    rewrite (avail_cleanup t) by (by first [apply (lm_buckets _ _ Hwf)|idtac]). lra.
  - destruct (decide (j = i)) as [->|Hij].
    + rewrite bs_get_delete, lookup_delete_eq. split; [apply avail_cap|done].
    + rewrite bs_get_delete_ne, lookup_delete_ne by done. split; [lra|done].
Qed.

Lemma run_idle ops t t' i this : limiter_wf t this → timed t ops t' → (∀ now, Incoming now i ∉ ops) → escalations this !! i = None →
  (Qmin cap (avail (bs_get i (store this)) t + seconds (t' - t) * rate) <= avail (bs_get i (store (limiter_run ops this).1)) t')%Q ∧
  escalations (limiter_run ops this).1 !! i = None.
Proof.
  revert t this. induction ops as [|o ops IH]; intros t this Hwf; simpl.
  - intros Ht _ He. split; [|done]. rewrite (avail_later _ t t' (lm_buckets _ _ Hwf i) Ht). lra.
  - intros [Ht Hops] Hno He. assert (∀ now, o ≠ Incoming now i) as Ho by (intros now ->; apply (Hno now); left).
    assert (∀ now, Incoming now i ∉ ops) as Hno' by (intros now Hin; apply (Hno now); by right).
    destruct (step_idle o t i this Hwf Ht Ho) as [Hidle Hesc]. specialize (Hesc He). pose proof (step_limiter_wf o t this Hwf Ht) as Hwf1.
    pose proof (avail_later _ t (op_time o) (lm_buckets _ _ Hwf i) Ht) as Hlater.
    destruct (limiter_step o this) as [this1 l1]. simpl in *. destruct (IH _ _ Hwf1 Hops Hno' Hesc) as [IHa IHe].
    destruct (limiter_run ops this1) as [this2 l2]. simpl in *. split; [|done]. rewrite (seconds_sub t (op_time o) t').
    assert (op_time o ≤ t') as Ht'. { clear -Hops. revert Hops. generalize (op_time o). induction ops as [|o' ops IH]; simpl; [done|]. intros z [? ?%IH]. lia. }
    pose proof (Qmult_le_0_compat _ _ (seconds_nonneg (t' - op_time o) ltac:(lia)) (sn_rate config_sane)).
    rewrite Hlater in Hidle. eapply Qle_trans; [|exact IHa]. clear IHa IH Hlater.
    assert (seconds (op_time o - t) * rate + seconds (t' - op_time o) * rate == (seconds (op_time o - t) + seconds (t' - op_time o)) * rate)%Q by ring.
    qmin.
Qed.

(** ** Waiting as long as the answer says *)

Lemma middleware_entries now i this : entries_ok this → entries_ok (middleware config escalation now i this).1.
Proof.
  intros Hen. unfold middleware, arrive, proceed. rewrite load_bucket_eq. destruct (tryConsume _ _ _) as [b []]; simpl.
  { intros j e. simpl. by destruct (bs_get i (store this)); apply Hen. }
  set (this1 := match bs_get i (store this) with Some _ => this | None => _ end).
  assert (escalations this1 = escalations this ∧ violations this1 = violations this) as [Ee Ev] by (unfold this1; by destruct (bs_get i (store this))).
  set (n := default 0 (violations this1 !! i) + 1).
  assert (∀ j e, escalations this !! j = Some e → ∃ esc, escalation = Some esc ∧ threshold esc ≤ default 0 (<[i := n]> (violations this1) !! j)) as Hold.
  { intros j e Hj. destruct (Hen _ _ Hj) as (esc & -> & Hth). exists esc. split; [done|]. rewrite Ev. destruct (decide (i = j)) as [<-|Hij].
    - rewrite lookup_insert_eq. simpl. unfold n. rewrite Ev. lia.
    - by rewrite lookup_insert_ne. }
  unfold maybeEscalate, entries_ok. destruct escalation as [esc|] eqn:Eesc; simpl; rewrite Ee; [|exact Hold].
  case_bool_decide as Hn; simpl; [exact Hold|].
  assert (∀ j e, (<[i := mkEscalationEntry (now + durationMs esc) (multiplier esc)]> (escalations this)) !! j = Some e →
    ∃ esc', Some esc = Some esc' ∧ threshold esc' ≤ default 0 (<[i := n]> (violations this1) !! j)) as Hnew.
  { intros j e. rewrite lookup_insert_Some. intros [[<- _]|[_ Hj]]; [|by eapply Hold]. exists esc. rewrite lookup_insert_eq. split; [done|simpl; lia]. }
  destruct (escalations this !! i) as [e|]; [case_bool_decide|]; simpl; [exact Hold|exact Hnew|exact Hnew].
Qed.

Lemma run_entries ops this : entries_ok this → entries_ok (limiter_run ops this).1.
Proof.
  revert this. induction ops as [|o ops IH]; intros this Hen; [done|]. simpl.
  assert (entries_ok (limiter_step o this).1) as Hen1.
  { destruct o as [now i|now|now i]; simpl; [|exact Hen|].
    - pose proof (middleware_entries now i this Hen). by destruct (middleware _ _ _ _ _).
    - intros j e. simpl. intros [Hij Hj]%lookup_delete_Some. rewrite lookup_delete_ne by done. by eapply Hen. }
  destruct (limiter_step o this) as [this1 l1]. specialize (IH this1 Hen1). by destruct (limiter_run ops this1).
Qed.

Lemma seconds_thousand r : (seconds (r * 1000) == inject_Z r)%Q.
Proof. unfold seconds. rewrite inject_Z_mult. change (inject_Z 1000) with 1000%Q. field. Qed.

Lemma Qle_bool_false (a b : Q) : Qle_bool a b = false → (b < a)%Q.
Proof. intros E. apply Qnot_le_lt. rewrite <- Qle_bool_iff. by rewrite E. Qed.

(** After the seconds of the answer the bucket holds the cost again. *)
Lemma timeUntil_enough now b : (0 < b_refillRate b)%Q → lastRefill (b_state b) = now → (tokens (b_state b) <= b_capacity b)%Q →
  (tokens (b_state b) < b_cost b)%Q →
  (b_cost b <= tokens (b_state b) + seconds (Qceiling (inject_Z (timeUntilRefillMs now b) / 1000) * 1000) * b_refillRate b)%Q.
Proof.
  intros Hr Hl Hc Hx. pose proof (refill_again now b Hc Hl) as Ex. rewrite seconds_thousand.
  set (w := timeUntilRefillMs now b). pose proof (Qle_ceiling (inject_Z w / 1000)) as Hce.
  assert (b_cost b - tokens (b_state b) <= inject_Z w / 1000 * b_refillRate b)%Q as Hd.
  { unfold w, timeUntilRefillMs. rewrite (Qle_bool_eq _ _ _ Ex).
    destruct (Qle_bool _ _) eqn:Eq; [apply Qle_bool_iff in Eq; change (b_cost (refill now b)) with (b_cost b) in Eq; lra|].
    set (d := (b_cost (refill now b) - tokens (b_state (refill now b)))%Q).
    assert (d == b_cost b - tokens (b_state b))%Q as Ed by (unfold d; rewrite Ex; done). rewrite <- Ed.
    change (b_refillRate (refill now b)) with (b_refillRate b). pose proof (Qle_ceiling (d / b_refillRate b * 1000)) as Hq.
    set (c := inject_Z (Qceiling (d / b_refillRate b * 1000))) in *.
    assert (d == d / b_refillRate b * 1000 / 1000 * b_refillRate b)%Q as E by (field; lra). rewrite E at 1.
    apply Qmult_le_compat_r; [|lra]. unfold Qdiv at 1 3. apply Qmult_le_compat_r; [exact Hq|done]. }
  pose proof (Qmult_le_compat_r _ _ (b_refillRate b) Hce ltac:(lra)). lra.
Qed.

(** A refusal without escalation: the client is not escalated, its bucket is
    worth less than the cost, and the answer covers what is missing. *)
Lemma refusal_spec t now i this this' limit r : limiter_wf t this → entries_ok this → t ≤ now → (0 < rate)%Q →
  middleware config escalation now i this = (this', TooMany limit r false) →
  escalations this' !! i = None ∧ (price <= avail (bs_get i (store this')) now + seconds (r * 1000) * rate)%Q.
Proof.
  intros Hwf Hen Ht Hrate Hm. pose proof (wf_later _ _ _ Hwf Ht) as [Hb He]. pose proof (middleware_entries now i this Hen) as Hen'. rewrite Hm in Hen'.
  assert (escalations this' !! i = None ∧ resolveEffectiveConfig config now i this = config) as [Hnone Ee].
  { revert Hm. unfold middleware, arrive, proceed. rewrite load_bucket_eq. destruct (tryConsume _ _ _) as [b []]; [done|]. cbv zeta.
    set (this1 := match bs_get i (store this) with Some _ => this | None => _ end).
    assert (escalations this1 = escalations this ∧ violations this1 = violations this) as [Ee Ev] by (unfold this1; by destruct (bs_get i (store this))).
    unfold maybeEscalate, resolveEffectiveConfig. cbn [escalations]. rewrite Ee. destruct escalation as [esc|] eqn:Eesc.
    - case_bool_decide as Hn.
      + intros [= <- _ _]. simpl. destruct (escalations this !! i) as [e|] eqn:Ei; [|done].
        destruct (Hen _ _ Ei) as (esc' & E' & Hth). rewrite Ev in Hn. assert (esc' = esc) as -> by congruence. lia.
      + destruct (escalations this !! i) as [e|]; [case_bool_decide|]; done.
    - intros [= <- _ _]. simpl. destruct (escalations this !! i) as [e|] eqn:Ei; [|done].
      destruct (Hen _ _ Ei) as (esc' & ? & _). congruence. }
  split; [done|]. revert Hm. unfold middleware, arrive, proceed. rewrite Ee, load_bucket_eq. unfold tryConsume.
  cbn [refill new_TokenBucket b_state b_capacity b_refillRate tokens lastRefill with_state].
  set (st := loaded now config (bs_get i (store this))). fold (seconds (now - lastRefill st)). fold (filled now config st).
  destruct (Qle_bool price (filled now config st)) eqn:Hq; [done|]. cbv beta iota zeta.
  set (this1 := match bs_get i (store this) with Some _ => this | None => _ end).
  assert (bs_get i (store this1) = Some st) as Hi.
  { unfold this1, st, loaded. destruct (bs_get i (store this)) eqn:E; [by rewrite E|]. simpl. apply bs_get_set. }
  set (b := refill now (new_TokenBucket st config)). set (this2 := mkLimiter _ _ _). set (n := default 0 _ + 1).
  pose proof (maybeEscalate_store now i n this2) as Est. destruct (maybeEscalate escalation now i n this2) as [this3 esc]. simpl in Est.
  intros [= <- _ <- _]. rewrite Est, Hi. change (avail (Some st) now) with (filled now config st).
  pose proof (filled_range now now config _ (Hb i) (Z.le_refl _)) as [_ Hfc]; [pose proof (sn_cap config_sane); lra..|]. fold st in Hfc.
  pose proof (timeUntil_enough now b) as Hw. cbn in Hw. apply Hw; [done|done|done|]. by apply Qle_bool_false.
Qed.

(** A client that is refused without being escalated and then waits for the
    seconds the answer names is let through, whatever other clients do and
    whenever old buckets are cleaned up in between (the refill rate being
    positive and the cost no more than the capacity). *)
Theorem retry_admits ops t0 now i this' limit r ops' now' :
  (0 < rate)%Q → (price <= cap)%Q → timed t0 ops now →
  middleware config escalation now i (limiter_run ops new_TokenBucketRateLimiter).1 = (this', TooMany limit r false) →
  timed now ops' now' → (∀ t, Incoming t i ∉ ops') → now + r * 1000 ≤ now' →
  allowed (middleware config escalation now' i (limiter_run ops' this').1).2 = true.
Proof.
  intros Hrate Hprice Hops Hm Hops' Hno Hwait. pose proof (run_limiter_wf ops t0 now _ (new_wf t0) Hops) as Hwf.
  pose proof (run_entries ops new_TokenBucketRateLimiter ltac:(by intros ? ?)) as Hen.
  destruct (refusal_spec now now i _ this' limit r Hwf Hen (Z.le_refl _) Hrate Hm) as [Hnone Henough].
  pose proof (middleware_spec now now i _ Hwf (Z.le_refl _)) as Hspec. rewrite Hm in Hspec. destruct Hspec as (Hwf' & _).
  destruct (run_idle ops' now now' i this' Hwf' Hops' Hno Hnone) as [Hav Hnone'].
  rewrite middleware_allowed by (unfold resolveEffectiveConfig; by rewrite Hnone'). apply Qle_bool_iff.
  assert (seconds (r * 1000) * rate <= seconds (now' - now) * rate)%Q.
  { apply Qmult_le_compat_r; [|lra]. unfold seconds, Qdiv. apply Qmult_le_compat_r; [|done]. rewrite <- Zle_Qle. lia. }
  qmin.
Qed.

(** ** Cleaning up *)

(** The answer to a client whose bucket is worth [x]. *)
Definition answer_of (x : Q) : Answer :=
  if Qle_bool price x then Next cap (Qfloor (x - price))
  else TooMany cap (Qceiling (inject_Z (Qceiling ((price - x) / rate * 1000)) / 1000)) false.

#[local] Instance answer_of_proper : Proper (Qeq ==> eq) answer_of.
Proof. intros x y E. unfold answer_of. rewrite (Qle_bool_eq _ _ _ E). destruct (Qle_bool price y); f_equal; by rewrite E. Qed.

Lemma middleware_unescalated now i this : escalation = None → escalations this = ∅ → bucket_ok now (bs_get i (store this)) →
  let '(this', a) := middleware config escalation now i this in
  let x := avail (bs_get i (store this)) now in
  a = answer_of x ∧ (avail (bs_get i (store this')) now == if allowed a then x - price else x)%Q ∧ escalations this' = ∅ ∧
  violations this' = if allowed a then violations this else <[i := default 0 (violations this !! i) + 1]> (violations this).
Proof.
  intros En Hesc Hb. pose proof (sn_price config_sane) as Hp. pose proof (sn_cap config_sane) as Hc. pose proof (sn_rate config_sane) as Hr.
  assert (resolveEffectiveConfig config now i this = config) as Ee by (unfold resolveEffectiveConfig; by rewrite Hesc, lookup_empty).
  unfold middleware, arrive, proceed. rewrite Ee, load_bucket_eq. unfold tryConsume.
  cbn [refill new_TokenBucket b_state b_capacity b_refillRate tokens lastRefill with_state].
  set (st := loaded now config (bs_get i (store this))). fold (seconds (now - lastRefill st)). fold (filled now config st).
  pose proof (filled_avail now (bs_get i (store this))) as Ef. fold st in Ef.
  pose proof (filled_range now now config _ Hb (Z.le_refl _)) as [Hf Hfc]; [lra..|]. fold st in Hf, Hfc.
  set (this1 := match bs_get i (store this) with Some _ => this | None => _ end).
  assert (escalations this1 = ∅ ∧ violations this1 = violations this) as [E1 E2] by (unfold this1; by destruct (bs_get i (store this))).
  assert (bs_get i (store this1) = Some st) as Hi.
  { unfold this1, st, loaded. destruct (bs_get i (store this)) eqn:E; [by rewrite E|]. simpl. apply bs_get_set. }
  unfold answer_of. cbv zeta. rewrite <- (Qle_bool_eq price _ _ Ef).
  destruct (Qle_bool price (filled now config st)) eqn:Hq; cbv beta iota.
  - apply Qle_bool_iff in Hq. set (b := with_state _ _). cbn [allowed store set_store escalations violations].
    assert (tokens (b_state (refill now b)) == filled now config st - price)%Q as Et by (apply refill_again; [cbn; lra|done]).
    split_and!; [f_equal; unfold remainingTokens; by rewrite Et, Ef| |done|done]. rewrite <- Ef, bs_get_set. cbn [avail]. unfold getState at 1. rewrite Et.
    cbn [getState refill with_state b_state lastRefill]. assert (seconds (now - now) * rate == 0)%Q by (rewrite seconds_0; ring). qmin.
  - unfold maybeEscalate. rewrite En. cbn [allowed store escalations violations]. rewrite Hi, E1, E2.
    split_and!; [|exact Ef|done|done]. f_equal. rewrite <- Ef. unfold timeUntilRefillMs.
    pose proof (refill_again now (refill now (new_TokenBucket st config)) Hfc eq_refl) as Et.
    rewrite (Qle_bool_eq _ _ _ Et). change (b_cost _) with price. cbn [refill new_TokenBucket b_state b_capacity b_refillRate tokens with_state] in Et |- *.
    fold (seconds (now - lastRefill st)) in *. fold (filled now config st) in *. rewrite Hq. by rewrite Et.
Qed.

(** Two limiters whose buckets are worth the same. *)
Record alike t this1 this2 : Prop := {
  al_wf1 : limiter_wf t this1;
  al_wf2 : limiter_wf t this2;
  al_avail : ∀ i, (avail (bs_get i (store this1)) t == avail (bs_get i (store this2)) t)%Q;
  al_esc1 : escalations this1 = ∅;
  al_esc2 : escalations this2 = ∅;
  al_violations : violations this1 = violations this2;
}.

Lemma alike_later t t' this1 this2 : alike t this1 this2 → t ≤ t' → alike t' this1 this2.
Proof.
  intros [W1 W2 Ha ? ? ?] Ht. split; try done; try by eapply wf_later. intros i.
  rewrite (avail_later _ t t' (lm_buckets _ _ W1 i) Ht), (avail_later _ t t' (lm_buckets _ _ W2 i) Ht). by rewrite (Ha i).
Qed.

Lemma alike_request t now i this1 this2 : escalation = None → alike t this1 this2 → t ≤ now →
  (middleware config escalation now i this1).2 = (middleware config escalation now i this2).2 ∧
  alike now (middleware config escalation now i this1).1 (middleware config escalation now i this2).1.
Proof.
  intros En Hal Ht. destruct (alike_later _ _ _ _ Hal Ht) as [W1 W2 Ha E1 E2 Ev].
  pose proof (middleware_unescalated now i this1 En E1 (lm_buckets _ _ W1 i)) as U1.
  pose proof (middleware_unescalated now i this2 En E2 (lm_buckets _ _ W2 i)) as U2.
  pose proof (middleware_spec now now i this1 W1 (Z.le_refl _)) as S1. pose proof (middleware_spec now now i this2 W2 (Z.le_refl _)) as S2.
  destruct (middleware _ _ now i this1) as [n1 a1], (middleware _ _ now i this2) as [n2 a2].
  destruct U1 as (-> & A1 & X1 & V1), U2 as (-> & A2 & X2 & V2), S1 as (W1' & O1 & _), S2 as (W2' & O2 & _).
  pose proof (answer_of_proper _ _ (Ha i)) as Ea. simpl. split; [done|]. rewrite Ea in V1, A1. split; try done; [|by rewrite V1, V2, Ev].
  intros j. destruct (decide (i = j)) as [<-|Hij]; [|rewrite O1, O2 by done; apply Ha]. rewrite A1, A2. destruct (allowed _); by rewrite (Ha i).
Qed.

Lemma alike_cleanup t now this1 this2 : alike t this1 this2 → t ≤ now → alike now (cleanup now this1) this2.
Proof.
  intros Hal Ht. destruct (alike_later _ _ _ _ Hal Ht) as [W1 W2 Ha E1 E2 Ev].
  split; try done; [exact (step_limiter_wf (Cleanup now) now this1 W1 (Z.le_refl _))|]. intros i. simpl. rewrite bs_get_cleanup.
  fold (cleaned now (bs_get i (store this1))). rewrite (avail_cleanup now) by first [apply (lm_buckets _ _ W1)|lia]. apply Ha.
Qed.

Lemma alike_reset t i this1 this2 : alike t this1 this2 → alike t (reset i this1) (reset i this2).
Proof.
  intros [W1 W2 Ha E1 E2 Ev]. split; try (exact (step_limiter_wf (Reset t i) t _ W1 (Z.le_refl _))); try (exact (step_limiter_wf (Reset t i) t _ W2 (Z.le_refl _)));
    simpl; rewrite ?E1, ?E2, ?Ev, ?delete_empty; try done.
  intros j. destruct (decide (i = j)) as [<-|Hij]; [by rewrite !bs_get_delete|]. by rewrite !bs_get_delete_ne.
Qed.

Definition not_cleanup (o : limiter_op) : bool := match o with Cleanup _ => false | _ => true end.

Lemma alike_run ops t t' this1 this2 : escalation = None → alike t this1 this2 → timed t ops t' →
  (limiter_run ops this1).2 = (limiter_run (List.filter not_cleanup ops) this2).2.
Proof.
  intros En. revert t this1 this2. induction ops as [|o ops IH]; intros t this1 this2 Hal; [done|]. intros [Ht Hops].
  destruct o as [now i|now|now i]; simpl in *.
  - destruct (alike_request t now i this1 this2 En Hal Ht) as [Ea Hn].
    destruct (middleware _ _ now i this1) as [n1 a1], (middleware _ _ now i this2) as [n2 a2]. simpl in *. subst a2.
    specialize (IH now n1 n2 Hn Hops). destruct (limiter_run ops n1), (limiter_run _ n2). simpl in *. by rewrite IH.
  - specialize (IH now (cleanup now this1) this2 (alike_cleanup t now _ _ Hal Ht) Hops). by destruct (limiter_run ops _).
  - specialize (IH now (reset i this1) (reset i this2) (alike_reset now i _ _ (alike_later _ _ _ _ Hal Ht)) Hops).
    by destruct (limiter_run ops _), (limiter_run _ (reset i this2)).
Qed.

(** Without escalation the clean-up of old buckets cannot be observed: the
    answers to all requests are those of a limiter that never cleans up. *)
Theorem cleanup_invisible ops t t' : escalation = None → timed t ops t' →
  (limiter_run ops new_TokenBucketRateLimiter).2 = (limiter_run (List.filter not_cleanup ops) new_TokenBucketRateLimiter).2.
Proof. intros En Hops. apply (alike_run ops t t'); [done| |done]. split; try done; apply new_wf. Qed.
End spec.

(** C10: over a store that keeps what is written (the in-memory store), with requests
    of all clients handled one after the other, clean-ups, resets of other clients and
    escalations in between, and a configuration in which nothing is negative,
    escalation only tightens and a minute refills a bucket (the four configured
    limiters are such), in every window of time a client is let through at most as
    often as a full bucket and the refill during the window allow: the number of
    admissions times the cost is at most the capacity plus the refill rate times the
    seconds of the window.  Requests that overlap on Redis, or a Redis that fails, do
    not keep the bound ([overlapping_requests_overspend], [failing_redis_admits]). *)
Theorem rate_bound {S} `{KeepingStore S} config escalation ops ops' t0 t1 t2 i : sane config escalation →
  timed t0 ops t1 → timed t1 ops' t2 → (∀ now, Reset now i ∉ ops') →
  let this := (limiter_run config escalation ops (new_TokenBucketRateLimiter (S := S))).1 in
  (inject_Z (admitted i (limiter_run config escalation ops' this).2) * cost_of config <=
   capacity config + refillRate config * seconds (t2 - t1))%Q.
Proof.
  intros Hs H1 H2 Hno. cbv zeta. pose proof (run_limiter_wf config escalation Hs ops t0 t1 _ (new_wf config t0) H1) as Hwf.
  pose proof (run_pays config escalation Hs ops' t1 t2 i _ Hwf H2 Hno) as Hpay.
  match type of Hpay with context [avail config ?s t1] => pose proof (avail_cap config s t1) end. lra.
Qed.

(** ** The configured limiters *)

Lemma configured_sane c : c ∈ [authTokenBucketLimiter; paymentTokenBucketLimiter; gameActionTokenBucketLimiter; generalTokenBucketLimiter] →
  sane c.1 c.2.
Proof.
  intros Hc. repeat (apply elem_of_cons in Hc as [->|Hc]; [split; first [by vm_compute|intros e [= <-]; split; by vm_compute]|]). by apply not_elem_of_nil in Hc.
Qed.

(** The limiter of the sign-in routes: while a client is escalated its capacity
    is a tenth of five, rounded down to zero, so every request is refused, also
    one that waits as long as the answer says. *)
Theorem auth_escalation_blocks {S} `{KeepingStore S} now i (this : TokenBucketRateLimiter S) e :
  escalations this !! i = Some e → e_multiplier e = (1 # 10)%Q → now < expiresAt e →
  allowed (middleware authTokenBucketLimiter.1 authTokenBucketLimiter.2 now i this).2 = false.
Proof.
  intros He Hm Ht. unfold middleware, arrive, proceed, resolveEffectiveConfig. rewrite He, bool_decide_true, Hm by done. rewrite load_bucket_eq.
  set (st := loaded _ _ _). unfold tryConsume. cbn [refill new_TokenBucket b_state b_capacity b_refillRate tokens lastRefill with_state].
  match goal with |- context [Qle_bool ?c (Qmin ?a ?b)] => assert (Qle_bool c (Qmin a b) = false) as -> end.
  { match goal with |- Qle_bool ?c (Qmin ?a ?b) = false => destruct (Qle_bool c (Qmin a b)) eqn:E; [|done]; apply Qle_bool_iff in E;
      assert (a == 0)%Q by reflexivity; assert (c == 1)%Q by reflexivity; revert E; generalize dependent a; generalize dependent c; intros; exfalso; qmin end. }
  cbv zeta. by destruct (maybeEscalate _ _ _ _ _).
Qed.

Section witnesses.
Notation auth := authTokenBucketLimiter.
Notation run_auth := (limiter_run (S := InMemoryTokenBucketStore) auth.1 auth.2).

(** Seven requests of one client within six seconds. *)
Definition burst : list limiter_op := (λ n, Incoming (1000 * Z.of_nat n) "user:ann") <$> seq 1 7.

Lemma burst_timed : timed 0 burst 8000.
Proof. unfold burst. simpl. lia. Qed.

Lemma rate_bound_witness : admitted "user:ann" (run_auth burst new_TokenBucketRateLimiter).2 = 5 ∧
  (inject_Z (admitted "user:ann" (run_auth burst new_TokenBucketRateLimiter).2) * cost_of auth.1 <=
   capacity auth.1 + refillRate auth.1 * seconds (8000 - 0))%Q.
Proof.
  split; [by vm_compute|].
  apply (rate_bound (S := InMemoryTokenBucketStore) auth.1 auth.2 [] burst 0 0 8000 "user:ann");
    [apply configured_sane; left|simpl; lia|exact burst_timed|].
  intros now. unfold burst. simpl. rewrite !elem_of_cons, elem_of_nil. intuition discriminate.
Defined.

(** A Redis that is up or down. *)
#[local] Instance switched : RedisHashes (bool * gmap string TokenBucketState) := {|
  rh_none := (true, ∅);
  rh_hgetall k r := if r.1 then Ok (r.2 !! k) else Throw (JsError "Connection is closed.");
  rh_hset_expire k st _ r := if r.1 then ((r.1, <[k := st]> r.2), Ok tt) else (r, Throw (JsError "Connection is closed."));
  rh_keys _ r := if r.1 then Ok (map_to_list r.2).*1 else Throw (JsError "Connection is closed.");
  rh_hget_lastRefill k r := if r.1 then Ok (lastRefill <$> r.2 !! k) else Throw (JsError "Connection is closed.");
  rh_del ks r := if r.1 then ((r.1, foldr delete r.2 ks), Ok tt) else (r, Throw (JsError "Connection is closed."));
|}.
#[local] Instance shared : ITokenBucketStore (bool * gmap string TokenBucketState) := Redis_store "tb:auth:".

(** Two requests that overlap spend the same token: both read the bucket before
    either of them writes it. *)
Example overlapping_requests_overspend :
  let one := mkBucketConfig 1 0 None None in
  let '(this, a) := arrive one 1000 "user:ann" new_TokenBucketRateLimiter in
  let '(this, b) := arrive one 1001 "user:ann" this in
  let '(this, ra) := proceed None 1002 "user:ann" a this in
  let '(this, rb) := proceed None 1003 "user:ann" b this in
  allowed ra = true ∧ allowed rb = true ∧ allowed (middleware one None 1004 "user:ann" this).2 = false.
Proof. by vm_compute. Qed.

(** While Redis is down every request finds a full bucket. *)
Example failing_redis_admits :
  let down := mkLimiter (false, ∅) ∅ ∅ in
  Forall (λ r, allowed r.2 = true) (limiter_run auth.1 auth.2 (burst ++ burst) down).2 ∧
  length (limiter_run auth.1 auth.2 (burst ++ burst) down).2 = 14%nat.
Proof. split; [apply (bool_decide_unpack _); by vm_compute|by vm_compute]. Qed.

Definition refused : TokenBucketRateLimiter InMemoryTokenBucketStore * Answer :=
  Eval vm_compute in middleware auth.1 auth.2 5500 "user:ann" (run_auth (take 5 burst) new_TokenBucketRateLimiter).1.

Lemma retry_admits_witness : refused.2 = TooMany 5 8 false ∧
  allowed (middleware auth.1 auth.2 13500 "user:ann" (run_auth [Cleanup 9000] refused.1).1).2 = true.
Proof.
  split; [by vm_compute|].
  refine (retry_admits auth.1 auth.2 (configured_sane auth _) (take 5 burst) 0 5500 "user:ann" refused.1 5 8 [Cleanup 9000] 13500
    _ _ _ _ _ _ _).
  - left.
  - by vm_compute.
  - by vm_compute.
  - unfold burst. simpl. lia.
  - by vm_compute.
  - simpl. lia.
  - intros t. rewrite list_elem_of_singleton. discriminate.
  - lia.
Defined.

Lemma cleanup_invisible_witness :
  (limiter_run (S := InMemoryTokenBucketStore) auth.1 None (burst ++ [Cleanup 90000; Incoming 100000 "user:ann"]) new_TokenBucketRateLimiter).2 =
  (limiter_run (S := InMemoryTokenBucketStore) auth.1 None (burst ++ [Incoming 100000 "user:ann"]) new_TokenBucketRateLimiter).2.
Proof.
  refine (cleanup_invisible auth.1 None _ (burst ++ [Cleanup 90000; Incoming 100000 "user:ann"]) 0 100000 eq_refl _).
  - destruct (configured_sane auth ltac:(left)). by split.
  - unfold burst. simpl. lia.
Defined.
End witnesses.
