(* ===== verification/AsyncLib.v ===== *)
(** * Asynchronous helpers: [frontend/src/lib/async.ts]

    Timers are part of the state: the instant at which a pending timer is due.
    A run is a sequence of calls and timer callbacks with the instants at which
    they happen; a callback happens when its timer is due or later.  What a
    function is called with is recorded as a trace of invocations.  Delays are
    rationals in [retry], integers elsewhere. *)

From stdpp Require Import prelude gmap strings list pretty sorting.
From Stdlib Require Import QArith Qminmax Lqa.
From S2P Require Import Prelude.

#[local] Open Scope Z_scope.

(** ** [retry] *)

Record RetryOptions := mkRetry {
  attempts : Z; delayMs : Q; exponential : bool; maxDelayMs : Q; jitter : Q; shouldRetry : option (exn → Z → bool) }.

(** The default options. *)
Definition default_retry : RetryOptions := mkRetry 3 300 true 30000 (1 # 10) None.

(** [onRetry(err, attempt, wait)], and then the wait. *)
Record Wait := mkWait { wt_error : exn; wt_attempt : Z; wt_delay : Q }.

(** The promise of [retry]: a value, or the last error ([undefined] when [fn]
    was never called). *)
Inductive settled (T : Type) := Resolved (v : T) | Rejected (e : option exn).
Arguments Resolved {T} v.
Arguments Rejected {T} e.

Section retry.
Context {T : Type} (options : RetryOptions).
(** What the [n]-th call of [fn] gives, and the [n]-th random number. *)
Context (fn : Z → result T) (random : Z → Q).

Definition base_delay (attempt : Z) : Q :=
  if exponential options then Qmin (delayMs options * inject_Z (2 ^ (attempt - 1))) (maxDelayMs options) else delayMs options.

Definition wait_for (attempt : Z) : Q :=
  let base := base_delay attempt in
  Qmin (base + base * jitter options * random attempt) (maxDelayMs options).

(** The loop from [attempt] on; [fuel] counts the attempts that are left. *)
Fixpoint retry_loop (fuel : nat) (attempt : Z) (lastError : option exn) : settled T * list Wait :=
  match fuel with
  | O => (Rejected lastError, [])
  | S fuel' =>
      match fn attempt with
      | Ok v => (Resolved v, [])
      | Throw err =>
          if bool_decide (attempt = attempts options) then (Rejected (Some err), [])
          else if match shouldRetry options with Some p => negb (p err attempt) | None => false end then (Rejected (Some err), [])
          else
            let '(r, ws) := retry_loop fuel' (attempt + 1) (Some err) in
            (r, mkWait err attempt (wait_for attempt) :: ws)
      end
  end.

Definition retry : settled T * list Wait := retry_loop (Z.to_nat (attempts options)) 1 None.
End retry.

(** ** [debounce] *)

Section debounce.
Context {A : Type} (waitMs : Z) (leading : bool).

Record Debounced := mkDebounced { d_timer : option Z; lastArgs : option (list A) }.

Definition new_debounced : Debounced := mkDebounced None None.

(** The calls of [fn] a step makes. *)
Definition debounced (now : Z) (args : list A) (s : Debounced) : Debounced * list (list A) :=
  (mkDebounced (Some (now + waitMs)) (Some args),
   if bool_decide (d_timer s = None) && leading then [args] else []).

(** The callback of the timer. *)
Definition debounce_fire (s : Debounced) : Debounced * list (list A) :=
  (mkDebounced None (lastArgs s),
   if leading then [] else match lastArgs s with Some args => [args] | None => [] end).

Definition debounce_cancel : Debounced := mkDebounced None None.

Definition debounce_flush (args : list A) (s : Debounced) : Debounced * list (list A) :=
  (mkDebounced None None, [if bool_decide (length args = 0)%nat then default [] (lastArgs s) else args]).
End debounce.

(** ** [throttle] *)

Section throttle.
Context {A : Type} (limitMs : Z).

Record Throttled := mkThrottled { lastCall : Z; t_timer : option Z; trailingArgs : option (list A) }.

Definition new_throttled : Throttled := mkThrottled 0 None None.

Definition throttled (now : Z) (args : list A) (s : Throttled) : Throttled * list (list A) :=
  let elapsed := now - lastCall s in
  if bool_decide (limitMs ≤ elapsed) then (mkThrottled now (t_timer s) (trailingArgs s), [args])
  else
    (mkThrottled (lastCall s)
       (match t_timer s with None => Some (now + (limitMs - elapsed)) | Some due => Some due end) (Some args), []).

(** The callback of the timer. *)
Definition throttle_fire (now : Z) (s : Throttled) : Throttled * list (list A) :=
  match trailingArgs s with
  | Some args => (mkThrottled now None None, [args])
  | None => (mkThrottled now None None, [])
  end.

Definition throttle_cancel (s : Throttled) : Throttled := mkThrottled (lastCall s) None None.
End throttle.

(** ** [memoize] *)

Section memoize.
Context {A V : Type} (keyFn : A → string) (ttlMs : option Z) (maxSize : option nat).
(** What [fn] returns for [args] when it is called at an instant. *)
Context (fn : Z → A → V).

Record Entry := mkEntry { e_value : V; e_expiry : option Z }.

Definition memo_cache : Type := jsmap Entry.

Definition entry_valid (now : Z) (e : Entry) : bool :=
  match e_expiry e with None => true | Some t => bool_decide (now < t) end.

(** [cache.keys().next().value], deleted. *)
Definition drop_oldest (cache : memo_cache) : memo_cache :=
  match cache with (k, _) :: _ => map_delete k cache | [] => [] end.

(** [fn] is called and its result stored. *)
Definition memo_miss (now : Z) (key : string) (args : A) (cache : memo_cache) : memo_cache * V :=
  let result := fn now args in
  let cache' := match maxSize with
                | Some n => if bool_decide (n ≤ length cache)%nat then drop_oldest cache else cache
                | None => cache
                end in
  (map_set key (mkEntry result ((λ ttl, now + ttl) <$> ttlMs)) cache', result).

(** The second component is the value, the third tells whether [fn] was called. *)
Definition memoized (now : Z) (args : A) (cache : memo_cache) : memo_cache * V * bool :=
  let key := keyFn args in
  match map_get key cache with
  | Some entry =>
      if entry_valid now entry then (map_set key entry (map_delete key cache), e_value entry, false)
      else (memo_miss now key args (map_delete key cache), true)
  | None => (memo_miss now key args cache, true)
  end.

Definition memo_clear : memo_cache := [].
Definition memo_size (cache : memo_cache) : nat := length cache.
End memoize.

(** ** [withTimeout] *)

(** [promise] settles at an instant with a value or an error, or never; both
    callbacks clear the timer and the first to settle decides. *)
Definition withTimeout {T} (start ms : Z) (promise : option (Z * result T)) (timeoutError : Z → exn) : Z * result T :=
  match promise with
  | Some (t, r) => if bool_decide (t < start + ms) then (t, r) else (start + ms, Throw (timeoutError ms))
  | None => (start + ms, Throw (timeoutError ms))
  end.

Definition TimeoutError (ms : Z) : exn := JsError ("Operation timed out after " +:+ pretty ms +:+ "ms").

(** ** [batchCalls] *)

Section batch.
Context {T : Type} (windowMs : Z).

(** The deferred promise that callers share, numbered, with the instant its
    timer is due; the promises that are settled; the number of the next one. *)
Record Batch := mkBatch { b_pending : option (nat * Z); b_settled : list (nat * result T); b_next : nat }.

Definition new_batch : Batch := mkBatch None [] 0.

(** A call returns the number of the promise it is given. *)
Definition batched (now : Z) (s : Batch) : Batch * nat :=
  match b_pending s with
  | Some (p, _) => (s, p)
  | None => (mkBatch (Some (b_next s, now + windowMs)) (b_settled s) (S (b_next s)), b_next s)
  end.

(** The callback of the timer takes the pending promise and calls [fn]; [r] is
    what [fn] gives, with which the promise is settled. *)
Definition batch_fire (r : result T) (s : Batch) : Batch :=
  match b_pending s with
  | Some (p, _) => mkBatch None (b_settled s ++ [(p, r)]) (b_next s)
  | None => s
  end.
End batch.

(** ** Asynchronous helpers: what they guarantee

    [retry] settles after a bounded number of calls, [throttle] spaces them,
    [memoize] is a least-recently-used cache that cannot be told from the
    function it wraps. *)

(** ** [retry] *)

Section retry_spec.
Context {T : Type} (o : RetryOptions) (fn : Z → result T) (random : Z → Q).

Definition gives_up (e : exn) (attempt : Z) : bool :=
  match shouldRetry o with Some p => negb (p e attempt) | None => false end.

(** The attempts from [a] on, as the waits and the outcome tell them. *)
Definition retry_from (a : Z) (last : option exn) (r : settled T) (ws : list Wait) : Prop :=
  (∀ i w, ws !! i = Some w → let n := a + Z.of_nat i in
     wt_attempt w = n ∧ fn n = Throw (wt_error w) ∧ n < attempts o ∧ gives_up (wt_error w) n = false ∧ wt_delay w = wait_for o random n) ∧
  let n := a + Z.of_nat (length ws) in
  match r with
  | Resolved v => fn n = Ok v ∧ n ≤ attempts o
  | Rejected e => (∃ err, e = Some err ∧ fn n = Throw err ∧ n ≤ attempts o ∧ (n = attempts o ∨ gives_up err n = true)) ∨
                  (attempts o < a ∧ e = last ∧ ws = [])
  end.

Lemma retry_loop_spec fuel a last : 1 ≤ a → attempts o = a + Z.of_nat fuel - 1 ∨ (fuel = O ∧ attempts o < a) →
  let '(r, ws) := retry_loop o fn random fuel a last in retry_from a last r ws.
Proof.
  revert a last. induction fuel as [|fuel IH]; intros a last Ha Hf; cbn [retry_loop].
  { split; [by intros i w|]. right. split_and!; [lia|done|done]. }
  destruct (fn a) as [v|err] eqn:Hfn.
  { split; [by intros i w|]. cbv zeta. simpl. rewrite Z.add_0_r. split; [done|lia]. }
  case_bool_decide as Hlast.
  { split; [by intros i w|]. cbv zeta. simpl. rewrite Z.add_0_r. left. exists err. split_and!; [done..|lia|by left]. }
  change (match shouldRetry o with Some p => negb (p err a) | None => false end) with (gives_up err a).
  destruct (gives_up err a) eqn:Hg.
  { split; [by intros i w|]. cbv zeta. simpl. rewrite Z.add_0_r. left. exists err. split_and!; [done..|lia|by right]. }
  specialize (IH (a + 1) (Some err) ltac:(lia)). destruct (retry_loop o fn random fuel (a + 1) (Some err)) as [r ws].
  destruct fuel as [|fuel]; [lia|]. specialize (IH ltac:(lia)). destruct IH as [Hw Hr]. split.
  - intros [|i] w; cbn [lookup list_lookup].
    + intros [= <-]. cbv zeta. simpl. rewrite Z.add_0_r. split_and!; [done..|lia|done|done].
    + intros Hi. specialize (Hw i w Hi). cbv zeta in *. by replace (a + Z.of_nat (S i)) with (a + 1 + Z.of_nat i) by lia.
  - cbv zeta in *. cbn [length]. replace (a + Z.of_nat (S (length ws))) with (a + 1 + Z.of_nat (length ws)) by lia.
    destruct r as [v|e]; [done|]. destruct Hr as [Hr|(Hlt & _)]; [by left|lia].
Qed.
End retry_spec.

(** A wait is within the limits: not above the cap, and when the delay does not
    exceed the cap, not below the planned delay. *)
Lemma wait_for_bounds o random n : (0 <= delayMs o)%Q → (0 <= jitter o)%Q → (0 <= maxDelayMs o)%Q → (0 <= random n <= 1)%Q →
  (0 <= wait_for o random n <= maxDelayMs o)%Q ∧ (Qmin (base_delay o n) (maxDelayMs o) <= wait_for o random n)%Q.
Proof.
  intros Hd Hj Hm [Hr _]. unfold wait_for. cbv zeta. set (b := base_delay o n).
  assert (0 <= b)%Q as Hb.
  { unfold b, base_delay. destruct (exponential o); [|done]. apply Q.min_glb; [|done].
    apply Qmult_le_0_compat; [done|]. change 0%Q with (inject_Z 0). rewrite <-Zle_Qle. apply Z.pow_nonneg. lia. }
  assert (0 <= b * jitter o * random n)%Q as Hadd by (repeat apply Qmult_le_0_compat; done).
  split_and!.
  - apply Q.min_glb; [lra|done].
  - apply Q.le_min_r.
  - apply Q.min_le_compat; lra.
Qed.

(** C28: [retry] settles.  It calls [fn] at most [attempts] times: every call
    but the last failed, was not the last allowed one and was worth retrying, and
    was followed by a wait within the cap; the last one gave the value that is
    returned, or the error that is thrown, because it was the last allowed or not
    worth retrying.  Only when no attempt is allowed at all nothing is called. *)
Theorem retry_settles {T} (o : RetryOptions) (fn : Z → result T) (random : Z → Q) :
  (0 <= delayMs o)%Q → (0 <= jitter o)%Q → (0 <= maxDelayMs o)%Q → (∀ n, 0 <= random n <= 1)%Q →
  let '(r, ws) := retry o fn random in
  (∀ i w, ws !! i = Some w → let n := 1 + Z.of_nat i in
     fn n = Throw (wt_error w) ∧ n < attempts o ∧ gives_up o (wt_error w) n = false ∧ (0 <= wt_delay w <= maxDelayMs o)%Q) ∧
  let n := 1 + Z.of_nat (length ws) in
  match r with
  | Resolved v => fn n = Ok v ∧ n ≤ attempts o
  | Rejected (Some e) => fn n = Throw e ∧ n ≤ attempts o ∧ (n = attempts o ∨ gives_up o e n = true)
  | Rejected None => attempts o < 1 ∧ ws = []
  end.
Proof.
  intros Hd Hj Hm Hr. pose proof (retry_loop_spec o fn random (Z.to_nat (attempts o)) 1 None ltac:(lia) ltac:(lia)) as H.
  unfold retry. destruct (retry_loop _ _ _ _ _ _) as [r ws]. destruct H as [Hw Ho]. split.
  - intros i w Hi. cbv zeta. destruct (Hw i w Hi) as (_ & ? & ? & ? & ->). split_and!; [done..| |]; apply wait_for_bounds; auto.
  - cbv zeta in *. destruct r as [v|[e|]]; [done| |].
    + destruct Ho as [(err & [= <-] & ? & ? & ?)|(_ & [=] & _)]. done.
    + destruct Ho as [(err & [=] & _)|(? & _ & ?)]. done.
Qed.

Definition flaky (n : Z) : result string := if bool_decide (n < 3) then Throw (JsError "timeout") else Ok "data".

Lemma retry_settles_witness : ∃ ws, retry default_retry flaky (λ _, 1 # 2) = (Resolved "data", ws) ∧ length ws = 2%nat ∧
  flaky 3 = Ok "data" ∧ 3 ≤ 3.
Proof.
  eexists. split; [vm_compute; reflexivity|]. split; [reflexivity|].
  apply (retry_settles default_retry flaky (λ _, 1 # 2)); [discriminate..|]. intros n. split; discriminate.
Defined.

(** ** [debounce] *)

Section debounce_spec.
Context {A : Type} (waitMs : Z) (leading : bool).

Inductive d_event := DCall (now : Z) (args : list A) | DFire (now : Z) | DCancel | DFlush (args : list A).

Definition d_enabled (e : d_event) (s : Debounced (A := A)) : Prop :=
  match e with DFire now => ∃ due, d_timer s = Some due ∧ due ≤ now | _ => True end.

Definition d_step (e : d_event) (s : Debounced) : Debounced * list (list A) :=
  match e with
  | DCall now args => debounced waitMs leading now args s
  | DFire _ => debounce_fire leading s
  | DCancel => (debounce_cancel, [])
  | DFlush args => debounce_flush args s
  end.

(** The calls of [fn] along a run, oldest first. *)
Fixpoint d_run (es : list d_event) (s : Debounced) : Debounced * list (list A) :=
  match es with
  | [] => (s, [])
  | e :: es => let '(s1, out1) := d_step e s in let '(s2, out2) := d_run es s1 in (s2, out1 ++ out2)
  end.

Lemma d_run_snoc es e s : d_run (es ++ [e]) s =
  let '(s1, out1) := d_run es s in let '(s2, out2) := d_step e s1 in (s2, out1 ++ out2).
Proof.
  revert s. induction es as [|x es IH]; intros s; simpl.
  - destruct (d_step e s). by rewrite app_nil_r.
  - destruct (d_step x s) as [s1 o1]. rewrite IH. destruct (d_run es s1) as [s2 o2]. destruct (d_step e s2). by rewrite app_assoc.
Qed.

(** The timer can fire exactly when the last thing that happened is a call that
    is [waitMs] old; it then calls [fn] with the arguments of that call (without
    [leading]) or not at all (with it). *)
Lemma debounce_last_call es now : let s := (d_run es new_debounced).1 in
  (d_enabled (DFire now) s ↔ ∃ es' t args, es = es' ++ [DCall t args] ∧ t + waitMs ≤ now) ∧
  ∀ es' t args, es = es' ++ [DCall t args] → (d_step (DFire now) s).2 = if leading then [] else [args].
Proof.
  cbv zeta. destruct es as [|e es _] using rev_ind.
  { simpl. split; [split; [by intros (due & [=] & _)|by intros ([|? ?] & t & args & [=] & _)]|by intros [|? ?] t args [=]]. }
  rewrite d_run_snoc. destruct (d_run es new_debounced) as [s o]. destruct e as [t args|t| |args]; simpl; split;
    try (intros es' t' args' [_ [=]]%app_inj_tail; by subst).
  1: { split; [intros (due & [= <-] & ?); eauto|]. intros (es' & t' & args' & [_ [= <- <-]]%app_inj_tail & ?). eauto. }
  all: split; [by intros (due & [=] & _)|]; by intros (es' & t' & args' & [_ [=]]%app_inj_tail & _).
Qed.

(** [flush] is documented to invoke the pending call, if any; it calls [fn] also
    when nothing is pending. *)
Lemma flush_without_pending : (d_run [DFlush []] new_debounced).2 = [[]].
Proof. reflexivity. Qed.
End debounce_spec.

(** ** [throttle] *)

Section throttle_spec.
Context {A : Type} (limitMs : Z).

Inductive t_event := TCall (now : Z) (args : list A) | TFire (now : Z) | TCancel (now : Z).

Definition t_time (e : t_event) : Z := match e with TCall now _ | TFire now | TCancel now => now end.

Definition t_step (e : t_event) (s : Throttled (A := A)) : Throttled * list (list A) :=
  match e with
  | TCall now args => throttled limitMs now args s
  | TFire now => throttle_fire now s
  | TCancel _ => (throttle_cancel s, [])
  end.

(** A timer fires when it is due; [punctual] when it has fired before anything
    else happens at or after that instant. *)
Definition t_enabled (e : t_event) (s : Throttled (A := A)) : Prop :=
  match e with TFire now => ∃ due, t_timer s = Some due ∧ due ≤ now | _ => True end.

Definition punctual (e : t_event) (s : Throttled (A := A)) : Prop :=
  match e, t_timer s with TFire _, _ => True | _, Some due => t_time e < due | _, None => True end.

(** Runs with the instants and arguments of the calls of [fn]. *)
Inductive t_run : list t_event → Throttled → list (Z * list A) → Prop :=
| t_run_nil : t_run [] new_throttled []
| t_run_snoc es s out e : t_run es s out → 0 ≤ t_time e → Forall (λ e', t_time e' ≤ t_time e) es → t_enabled e s → punctual e s →
    t_run (es ++ [e]) (t_step e s).1 (out ++ ((λ args, (t_time e, args)) <$> (t_step e s).2)).

Record throttle_inv (s : Throttled (A := A)) (out : list (Z * list A)) : Prop := {
  ti_timer due : t_timer s = Some due → due = lastCall s + limitMs;
  ti_args : is_Some (trailingArgs s) ↔ is_Some (t_timer s);
  ti_last : lastCall s = default 0 (fst <$> last out);
  ti_spaced : StronglySorted (λ x y, x.1 + limitMs ≤ y.1) out
}.

Lemma spaced_snoc (out : list (Z * list A)) t args : (∀ x, x ∈ out → x.1 + limitMs ≤ t) → StronglySorted (λ x y, x.1 + limitMs ≤ y.1) out →
  StronglySorted (λ x y, x.1 + limitMs ≤ y.1) (out ++ [(t, args)]).
Proof.
  intros Ht Hs. induction Hs as [|x out Hs IH Hx]; simpl; [repeat constructor|]. constructor.
  - apply IH. intros y Hy. apply Ht. by right.
  - apply Forall_app. split; [done|]. constructor; [|done]. apply Ht. left.
Qed.

Lemma spaced_last (out : list (Z * list A)) t : 0 ≤ limitMs → StronglySorted (λ x y, x.1 + limitMs ≤ y.1) out →
  default 0 (fst <$> last out) + limitMs ≤ t → ∀ x, x ∈ out → x.1 + limitMs ≤ t.
Proof.
  intros Hl Hs. induction Hs as [|x out Hs IH Hx]; simpl; [intros _ x Hx; by apply elem_of_nil in Hx|].
  intros Ht y [->|Hy]%elem_of_cons; destruct out as [|z out]; simpl in *; [done| |by apply elem_of_nil in Hy|by apply IH].
  specialize (IH Ht z ltac:(left)). apply Forall_cons in Hx as [Hx _]. lia.
Qed.

Lemma throttle_inv_step e s out : 0 ≤ limitMs → throttle_inv s out → t_enabled e s → punctual e s →
  throttle_inv (t_step e s).1 (out ++ ((λ args, (t_time e, args)) <$> (t_step e s).2)).
Proof.
  intros Hl [Ht Ha Hlast Hs] He Hp. destruct e as [now args|now|now]; simpl in *.
  - unfold throttled. cbv zeta. case_bool_decide as Hel; simpl.
    + split; simpl.
      * intros due Hd. rewrite Hd in Hp. specialize (Ht due Hd). lia.
      * done.
      * by rewrite last_snoc.
      * apply spaced_snoc; [|done]. apply spaced_last; [done..|lia].
    + rewrite app_nil_r. split; simpl; [|split; [|eauto]|done|done].
      * destruct (t_timer s) eqn:Hd; [intros ? [= <-]; auto|]. intros due [= <-]. lia.
      * by destruct (t_timer s); eauto.
  - destruct He as (due & Hd & Hle). specialize (Ht due Hd). destruct (proj2 Ha ltac:(by rewrite Hd)) as [args Hargs].
    unfold throttle_fire. rewrite Hargs. simpl. split; simpl; [done|split; by intros []|by rewrite last_snoc|].
    apply spaced_snoc; [|done]. apply spaced_last; [done..|lia].
  - rewrite app_nil_r. split; simpl; [done|split; by intros []|done|done].
Qed.

Lemma throttle_inv_run es s out : 0 ≤ limitMs → t_run es s out → throttle_inv s out.
Proof.
  intros Hl. induction 1; [|by apply throttle_inv_step]. split; simpl; [done|split; by intros []|done|constructor].
Qed.

Lemma throttle_lastCall es s out t : t_run es s out → 0 ≤ t → Forall (λ e, t_time e ≤ t) es → lastCall s ≤ t.
Proof.
  induction 1 as [|es s out e Hrun IH H0 Htimes He Hp]; [done|]. intros Ht [Hes [Hle _]%Forall_cons]%Forall_app.
  specialize (IH Ht Hes). destruct e as [now args|now|now]; simpl in *; [unfold throttled|unfold throttle_fire|]; cbv zeta; repeat case_match; simpl in *; lia.
Qed.

(** With timers that fire on time, the throttled function calls [fn] with
    at least [limitMs] between two calls, and no burst is lost: right after a
    call, either [fn] has just been called with its arguments, or a timer is
    pending, due at most [limitMs] later, that will call [fn] with them. *)
Theorem throttle_spaces es s out now args : 0 < limitMs → t_run (es ++ [TCall now args]) s out →
  StronglySorted (λ x y, x.1 + limitMs ≤ y.1) out ∧
  (last out = Some (now, args) ∨
   ∃ due, t_timer s = Some due ∧ due ≤ now + limitMs ∧ ∀ t, (t_step (TFire t) s).2 = [args]).
Proof.
  intros Hl Hrun. split; [apply (ti_spaced s out); eapply throttle_inv_run; [lia|done]|].
  inversion Hrun as [E|es' s' out' e Hrun' H0 Htimes _ Hp E]; [by destruct es|]. apply app_inj_tail in E as [-> ->]. subst. simpl in *.
  pose proof (throttle_inv_run _ _ _ ltac:(lia) Hrun') as [Ht _ Hlast _].
  unfold throttled. cbv zeta. case_bool_decide as Hel; simpl; [left; by rewrite last_snoc|]. right.
  assert (lastCall s' ≤ now) as Hc by (by eapply throttle_lastCall).
  destruct (t_timer s') as [due|] eqn:Hd.
  - exists due. split_and!; [done|specialize (Ht due eq_refl); lia|done].
  - eexists. split_and!; [done|lia|done].
Qed.
End throttle_spec.

(** Three calls in a burst: the first at once, the last when the timer fires. *)
Definition burst : list (t_event (A := Z)) := [TCall 1000 [1]; TCall 1010 [2]; TCall 1020 [3]].

Lemma throttle_spaces_witness : ∃ s out, t_run 100 burst s out ∧
  (last out = Some (1020, [3]) ∨ ∃ due, t_timer s = Some due ∧ due ≤ 1120 ∧ ∀ t, (t_step 100 (TFire t) s).2 = [[3]]).
Proof.
  assert (∃ s out, t_run 100 burst s out) as (s & out & Hrun).
  { eexists _, _. apply (t_run_snoc 100 [TCall 1000 [1]; TCall 1010 [2]]); [apply (t_run_snoc 100 [TCall 1000 [1]]);
      [apply (t_run_snoc 100 []); [constructor|..]|..]|..]; try (by repeat constructor); by vm_compute. }
  exists s, out. split; [exact Hrun|].
  apply (throttle_spaces 100 [TCall 1000 [1]; TCall 1010 [2]] s out 1020 [3]); [lia|exact Hrun].
Defined.

(** A timer that is late by an instant: a call at the instant it is due runs at
    once and the timer calls [fn] again, with no time in between. *)
Lemma late_timer_double_call :
  let s1 := (throttled 100 1000 [1] new_throttled).1 in
  let s2 := (throttled 100 1010 [2] s1).1 in
  let '(s3, out3) := throttled 100 1100 [3] s2 in
  t_timer s3 = Some 1100 ∧ out3 = [[3]] ∧ (throttle_fire 1100 s3).2 = [[2]].
Proof. vm_compute. repeat split. Qed.

(** ** [memoize] *)

(** The keys used so far, each once, by the time of their last use. *)
Definition use (U : list string) (k : string) : list string := filter (.≠ k) U ++ [k].
Definition uses (ks : list string) : list string := foldl use [] ks.

Definition newest {A} (n : nat) (l : list A) : list A := drop (length l - n) l.

Lemma newest_app {A} n (P X : list A) : length X = n ∨ (P = [] ∧ (length X ≤ n)%nat) → newest n (P ++ X) = X.
Proof.
  unfold newest. rewrite length_app. intros [<-|[-> H]].
  - by rewrite Nat.add_sub, drop_app_length.
  - simpl. replace (length X - n)%nat with 0%nat by lia. done.
Qed.

Lemma newest_split {A} n (l : list A) : ∃ P, l = P ++ newest n l ∧
  ((length (newest n l) = n) ∨ (P = [] ∧ (length (newest n l) < n)%nat)).
Proof.
  exists (take (length l - n) l). unfold newest. rewrite take_drop, length_drop. split; [done|].
  destruct (decide (n ≤ length l)%nat); [left; lia|]. right. replace (length l - n)%nat with 0%nat by lia. split; [done|lia].
Qed.

Lemma use_nodup U k : NoDup U → NoDup (use U k).
Proof.
  intros H. apply NoDup_app. split_and!; [by apply NoDup_filter| |apply NoDup_singleton].
  intros x [Hx _]%list_elem_of_filter ->%list_elem_of_singleton. done.
Qed.

Lemma uses_nodup ks : NoDup (uses ks).
Proof. unfold uses. induction ks as [|k ks IH] using rev_ind; [constructor|]. rewrite foldl_snoc. by apply use_nodup. Qed.

Lemma filter_ne_id (l : list string) k : k ∉ l → filter (.≠ k) l = l.
Proof.
  induction l as [|x l IH]; [done|]. rewrite not_elem_of_cons. intros [Hx Hl]. rewrite filter_cons_True by done. by rewrite IH.
Qed.

Lemma filter_ne_length (l : list string) k : NoDup l → k ∈ l → S (length (filter (.≠ k) l)) = length l.
Proof.
  induction 1 as [|x l Hx Hl IH]; [by intros ?%elem_of_nil|]. rewrite elem_of_cons, filter_cons.
  destruct (decide (x ≠ k)) as [Hne|Heq]; simpl.
  - intros [->|Hk]; [done|]. by rewrite IH.
  - intros _. rewrite filter_ne_id; [done|]. intros Hk. apply Heq. intros ->. done.
Qed.

(** Using a key that is among the newest moves it to the end. *)
Lemma newest_use_hit n U k : NoDup U → k ∈ newest n U → use (newest n U) k = newest n (use U k).
Proof.
  intros Hd Hk. destruct (newest_split n U) as (P & HU & Hlen). set (N := newest n U) in *. unfold use at 2.
  rewrite HU in Hd. apply NoDup_app in Hd as (_ & HPN & HN). rewrite HU, filter_app, (filter_ne_id P k) by (intros HP; by apply (HPN k)).
  rewrite <-app_assoc, newest_app; [done|]. rewrite length_app. simpl. rewrite Nat.add_1_r, filter_ne_length by done.
  destruct Hlen as [|[-> ?]]; [by left|right; split; [done|lia]].
Qed.

(** Using another key pushes the oldest one out when there is no room. *)
Lemma newest_use_miss n U k : (0 < n)%nat → k ∉ newest n U →
  (if bool_decide (n ≤ length (newest n U))%nat then tail (newest n U) else newest n U) ++ [k] = newest n (use U k).
Proof.
  intros Hn Hk. destruct (newest_split n U) as (P & HU & Hlen). set (N := newest n U) in *. unfold use.
  rewrite HU, filter_app, (filter_ne_id N k) by done. case_bool_decide as Hr.
  - destruct Hlen as [Hlen|[_ ?]]; [|lia]. destruct N as [|x N']; [simpl in *; lia|]. simpl in *.
    replace ((filter (.≠ k) P ++ x :: N') ++ [k]) with ((filter (.≠ k) P ++ [x]) ++ (N' ++ [k])) by (by rewrite <-!app_assoc).
    rewrite newest_app; [done|]. left. rewrite length_app. simpl. lia.
  - destruct Hlen as [|[-> ?]]; [lia|]. simpl. symmetry. apply (newest_app n [] (N ++ [k])). right. rewrite length_app. simpl. split; [done|lia].
Qed.

Section memoize_spec.
Context {A V : Type} (keyFn : A → string) (fn : Z → A → V).

Section cache_steps.
Context (ttl : option Z) (maxSize : option nat).
Notation cache := (memo_cache (V := V)).

Definition m_step (c : cache) (call : Z * A) : cache := (memoized keyFn ttl maxSize fn call.1 call.2 c).1.1.
Definition m_run (calls : list (Z * A)) : cache := foldl m_step [] calls.

Lemma map_keys_append k v (c : cache) : map_get k c = None → map_keys (map_set k v c) = map_keys c ++ [k].
Proof. intros H. rewrite map_keys_set. unfold map_has. by rewrite H. Qed.

Lemma map_keys_touch k v (c : cache) : map_keys (map_set k v (map_delete k c)) = use (map_keys c) k.
Proof. rewrite map_keys_append by apply map_get_delete_eq. by rewrite map_keys_delete. Qed.

Lemma map_keys_drop_oldest (c : cache) : NoDup (map_keys c) → map_keys (drop_oldest c) = tail (map_keys c).
Proof.
  destruct c as [|[k v] c]; [done|]. cbn [map_keys List.map fst]. intros [Hk _]%NoDup_cons.
  cbn [drop_oldest]. rewrite map_keys_delete. cbn [map_keys List.map fst tail]. rewrite filter_cons_False by (by intros []).
  by apply filter_ne_id.
Qed.

Lemma map_get_drop_oldest k (c : cache) : map_get k c = None → map_get k (drop_oldest c) = None.
Proof. destruct c as [|[j v] c]; [done|]. intros H. cbn [drop_oldest]. rewrite map_get_delete. by case_bool_decide. Qed.

Lemma length_map_keys (c : cache) : length (map_keys c) = length c.
Proof. apply length_map. Qed.

(** A property of all entries is kept when the entries [fn] makes have it. *)
Lemma m_run_entries (P : string → Entry → Prop) calls :
  (∀ now args, (now, args) ∈ calls → P (keyFn args) (mkEntry (fn now args) ((λ t, now + t) <$> ttl))) →
  ∀ k e, map_get k (m_run calls) = Some e → P k e.
Proof.
  unfold m_run. induction calls as [|[now args] calls IH] using rev_ind; intros HP; [done|]. rewrite foldl_snoc.
  specialize (IH ltac:(intros; apply HP; set_solver)). assert (P (keyFn args) (mkEntry (fn now args) ((λ t, now + t) <$> ttl))) as Hnew
    by (apply HP; set_solver). set (c := foldl m_step [] calls) in *.
  assert (∀ d : cache, (∀ k e, map_get k d = Some e → P k e) → ∀ k e,
    map_get k (memo_miss ttl maxSize fn now (keyFn args) args d).1 = Some e → P k e) as Hmiss.
  { intros d Hd k e. unfold memo_miss. cbn [fst]. rewrite map_get_set. case_bool_decide; [intros [= <-]; by subst|].
    destruct maxSize as [n|]; [|by apply Hd]. case_bool_decide; [|by apply Hd]. destruct d as [|[j w] d']; [done|]. cbn [drop_oldest].
    rewrite map_get_delete. case_bool_decide; [done|]. by apply Hd. }
  intros k e. unfold m_step, memoized. cbn [fst snd]. destruct (map_get (keyFn args) c) as [x|] eqn:Hx; [|by apply Hmiss].
  destruct (entry_valid now x); cbn [fst].
  - rewrite map_get_set. case_bool_decide; [intros [= <-]; subst; by apply IH|]. rewrite map_get_delete. case_bool_decide; [done|]. apply IH.
  - apply Hmiss. intros k' e'. rewrite map_get_delete. case_bool_decide; [done|]. apply IH.
Qed.

Lemma m_step_nodup c call : NoDup (map_keys c) → NoDup (map_keys (m_step c call)).
Proof.
  intros Hc. destruct call as [now args]. unfold m_step, memoized. cbn [fst snd].
  assert (∀ d : cache, NoDup (map_keys d) → NoDup (map_keys (memo_miss ttl maxSize fn now (keyFn args) args d).1)) as Hmiss.
  { intros d Hd. unfold memo_miss. cbn [fst]. apply map_set_nodup. destruct maxSize as [n|]; [|done]. case_bool_decide; [|done].
    destruct d as [|[j w] d']; [done|]. by apply map_delete_nodup. }
  destruct (map_get (keyFn args) c) as [x|]; [|by apply Hmiss].
  destruct (entry_valid now x); cbn [fst]; [by apply map_set_nodup, map_delete_nodup|by apply Hmiss, map_delete_nodup].
Qed.

Lemma m_run_nodup calls : NoDup (map_keys (m_run calls)).
Proof. unfold m_run. induction calls as [|x calls IH] using rev_ind; [constructor|]. rewrite foldl_snoc. by apply m_step_nodup. Qed.
End cache_steps.

(** One call on a cache whose entries do not expire. *)
Lemma memoized_keys n now args (c : memo_cache (V := V)) : NoDup (map_keys c) → (∀ k e, map_get k c = Some e → e_expiry e = None) →
  (memoized keyFn None (Some n) fn now args c).2 = bool_decide (keyFn args ∉ map_keys c) ∧
  map_keys (m_step None (Some n) c (now, args)) =
    if bool_decide (keyFn args ∈ map_keys c) then use (map_keys c) (keyFn args)
    else (if bool_decide (n ≤ length (map_keys c))%nat then tail (map_keys c) else map_keys c) ++ [keyFn args].
Proof.
  intros Hd Hexp. unfold m_step, memoized. cbn [fst snd]. set (k := keyFn args). destruct (map_get k c) as [x|] eqn:Hx.
  - assert (k ∈ map_keys c) as Hk by (apply dec_stable; rewrite <-map_get_None; congruence).
    unfold entry_valid. rewrite (Hexp k x Hx). cbn [fst snd]. rewrite bool_decide_false, bool_decide_true by auto. split; [done|]. apply map_keys_touch.
  - assert (k ∉ map_keys c) as Hk by (by apply map_get_None). cbn [fst snd]. rewrite bool_decide_true, (bool_decide_false (k ∈ _)) by done.
    split; [done|]. unfold memo_miss. cbn [fst]. rewrite length_map_keys. case_bool_decide.
    + rewrite map_keys_append by (by apply map_get_drop_oldest). by rewrite map_keys_drop_oldest.
    + by rewrite map_keys_append.
Qed.

Lemma m_run_keys n calls : (0 < n)%nat → map_keys (m_run None (Some n) calls) = newest n (uses (keyFn ∘ snd <$> calls)).
Proof.
  intros Hn. induction calls as [|[now args] calls IH] using rev_ind; [done|].
  rewrite fmap_app. unfold uses. cbn [fmap list_fmap]. rewrite foldl_snoc. fold (uses (keyFn ∘ snd <$> calls)).
  unfold m_run. rewrite foldl_snoc. fold (m_run None (Some n) calls).
  destruct (memoized_keys n now args (m_run None (Some n) calls)) as [_ ->].
  { apply m_run_nodup. }
  { apply (m_run_entries None (Some n) (λ _ e, e_expiry e = None)). done. }
  rewrite IH. cbn [compose snd]. case_bool_decide.
  - apply newest_use_hit; [apply uses_nodup|done].
  - by apply newest_use_miss.
Qed.

(** Without a time to live and with room for [n] results, the memoized
    function is a least-recently-used cache: after any calls it keeps the results
    for the [n] keys used last, in the order of their last use, and it calls [fn]
    exactly for the keys that are not among them. *)
Theorem memoize_lru n calls now args : (0 < n)%nat →
  let seen := newest n (uses (keyFn ∘ snd <$> calls)) in
  let c := m_run None (Some n) calls in
  map_keys c = seen ∧ (memoized keyFn None (Some n) fn now args c).2 = bool_decide (keyFn args ∉ seen).
Proof.
  intros Hn. cbv zeta. pose proof (m_run_keys n calls Hn) as Hkeys. split; [done|]. rewrite <-Hkeys.
  apply memoized_keys; [apply m_run_nodup|]. by apply (m_run_entries None (Some n) (λ _ e, e_expiry e = None)).
Qed.

(** Memoizing cannot be told from calling: when [fn] depends neither on the
    time nor on more of its arguments than the key shows, every answer is the
    one [fn] gives, with any time to live and any size. *)
Theorem memoize_transparent (f : A → V) ttl maxSize calls now args : (∀ t a, fn t a = f a) →
  (∀ a b, keyFn a = keyFn b → f a = f b) →
  (memoized keyFn ttl maxSize fn now args (m_run ttl maxSize calls)).1.2 = f args.
Proof.
  intros Hfn Hkey. unfold memoized. destruct (map_get (keyFn args) _) as [e|] eqn:He; [|apply Hfn].
  destruct (entry_valid now e); [|apply Hfn]. cbn [fst snd].
  refine (m_run_entries ttl maxSize (λ k e, ∀ a, keyFn a = k → e_value e = f a) calls _ _ _ He args eq_refl).
  intros t a _ b E. simpl. rewrite Hfn. by apply Hkey.
Qed.
End memoize_spec.

Lemma memoize_lru_witness : let calls := [(1, "a"); (2, "b"); (3, "a"); (4, "c")] in
  map_keys (m_run id (λ _ s, String.length s) None (Some 2%nat) calls) = ["a"; "c"] ∧
  (memoized id None (Some 2%nat) (λ _ s, String.length s) 5 "b" (m_run id (λ _ s, String.length s) None (Some 2%nat) calls)).2 = true.
Proof. apply (memoize_lru id (λ _ s, String.length s) 2 [(1, "a"); (2, "b"); (3, "a"); (4, "c")] 5 "b"). lia. Defined.

Lemma memoize_transparent_witness : let calls := [(1, "a"); (2, "bb")] in
  (memoized id (Some 10) (Some 1%nat) (λ _ s, String.length s) 3 "bb" (m_run id (λ _ s, String.length s) (Some 10) (Some 1%nat) calls)).1.2 = 2%nat.
Proof. apply (memoize_transparent id (λ _ s, String.length s) String.length); [reflexivity|intros a b E; exact (f_equal String.length E)]. Defined.

(** A size of zero still keeps one result. *)
Lemma memoize_size_zero : memo_size (m_run id (λ _ s, String.length s) None (Some 0%nat) [(1, "a")]) = 1%nat.
Proof. reflexivity. Qed.

(** ** [batchCalls] *)

Section batch_spec.
Context {T : Type} (windowMs : Z).

Inductive b_event := BCall (now : Z) | BFire (r : result T).

Definition b_step (s : Batch (T := T)) (e : b_event) : Batch :=
  match e with BCall now => (batched windowMs now s).1 | BFire r => batch_fire r s end.

Definition b_run (es : list b_event) : Batch := foldl b_step new_batch es.

Definition given (es : list b_event) (now : Z) : nat := (batched windowMs now (b_run es)).2.

(** Every promise is settled once, in the order in which they were made, and
    the one that is not is pending; a call is given the pending promise, so calls
    between two invocations of [fn] share one. *)
Lemma batch_shared es now : let s := b_run es in
  (b_settled s).*1 = seq 0 (length (b_settled s)) ∧
  match b_pending s with
  | Some (p, _) => p = length (b_settled s) ∧ b_next s = S p ∧ given es now = p ∧ given (es ++ [BCall now]) now = p
  | None => b_next s = length (b_settled s) ∧ given es now = length (b_settled s)
  end.
Proof.
  assert (let s := b_run es in (b_settled s).*1 = seq 0 (length (b_settled s)) ∧
    match b_pending s with Some (p, _) => p = length (b_settled s) ∧ b_next s = S p | None => b_next s = length (b_settled s) end) as H.
  { unfold b_run. induction es as [|e es IH] using rev_ind; [done|]. rewrite foldl_snoc. cbv zeta in *. destruct IH as [Hs Hp].
    set (s := foldl b_step new_batch es) in *. destruct e as [t|r]; simpl; unfold batched, batch_fire;
      destruct (b_pending s) as [[p due]|] eqn:E; simpl; rewrite ?E; try done.
    destruct Hp as [-> Hn]. rewrite fmap_app, length_app, Hs. simpl. rewrite seq_app. split; [done|]. lia. }
  cbv zeta in *. destruct H as [Hs Hp]. split; [done|]. unfold given, b_run in *. rewrite foldl_snoc. simpl. unfold batched in *.
  destruct (b_pending (foldl b_step new_batch es)) as [[p due]|] eqn:E; simpl; [|split; [done|congruence]].
  rewrite E. simpl. destruct Hp. done.
Qed.
End batch_spec.
