(* ===== verification/ApiGateway.v ===== *)
(** * API keys: [server/src/services/api-gateway.service.ts] and
    [server/src/middleware/api-gateway.middleware.ts]

    Keys are stored as hashes in a table; the service also keeps a map of the
    keys it made, which no method reads except for counting, and the requests per
    key.  The middleware authenticates requests and limits them per key. *)

From Stdlib Require Import Ascii.
From stdpp Require Import prelude gmap strings list pretty sorting.
From S2P Require Import Prelude JsText JsBuffer Crypto Prisma.

(** ** Data *)

Record ApiKey := mkApiKey {
  ak_id : string; ak_key : string; ak_name : string; ak_userId : string; ak_isActive : bool;
  ak_expiresAt : option Z; ak_createdAt : Z; ak_updatedAt : Z }.

Record ApiKeyData := mkKeyData {
  kd_id : string; keyPrefix : string; kd_name : string; kd_userId : string; kd_permissions : list string; kd_isActive : bool;
  kd_expiresAt : option Z; kd_createdAt : Z; lastUsedAt : option Z }.

Record UsageRecord := mkUsage { us_timestamp : Z; us_endpoint : string; us_method : string; us_statusCode : Z }.

(** The ids of the users, the table of keys, the fields of the service, and
    the numbers of the next row and of the next random reading. *)
Record Gateway := mkGateway {
  gw_users : list string; apiKeys : list ApiKey; keyCache : jsmap (ApiKeyData * string); usageStore : jsmap (list UsageRecord);
  gw_serial : nat; gw_draws : nat }.

Definition maxUsageRecords : nat := 10000.

Definition set_keys (l : list ApiKey) (g : Gateway) : Gateway :=
  mkGateway (gw_users g) l (keyCache g) (usageStore g) (gw_serial g) (gw_draws g).
Definition set_key_cache (m : jsmap (ApiKeyData * string)) (g : Gateway) : Gateway :=
  mkGateway (gw_users g) (apiKeys g) m (usageStore g) (gw_serial g) (gw_draws g).
Definition set_usage (m : jsmap (list UsageRecord)) (g : Gateway) : Gateway :=
  mkGateway (gw_users g) (apiKeys g) (keyCache g) m (gw_serial g) (gw_draws g).

Section gateway.
Context `{Prisma} `{Sha256} `{NodeRandom}.

(** ** Making keys *)

(** [Buffer.toString('base64url')] *)
Definition url_char (c : ascii) : ascii :=
  if bool_decide (c = "+"%char) then "-"%char else if bool_decide (c = "/"%char) then "_"%char else c.

Fixpoint map_chars (f : ascii → ascii) (s : string) : string :=
  match s with EmptyString => "" | String c s' => String (f c) (map_chars f s') end.

Definition to_base64url (bytes : string) : string :=
  map_chars url_char (str_filter (λ c, negb (bool_decide (c = "="%char))) (to_base64 bytes)).

Definition generateApiKey : M Gateway (string * string * string) :=
  g ← get;
  _ ← put (mkGateway (gw_users g) (apiKeys g) (keyCache g) (usageStore g) (gw_serial g) (S (gw_draws g)));
  let raw := "ax_" +:+ to_base64url (randomBytes 32 (gw_draws g)) in
  mret (raw, sha256_hex raw, str_take 10 raw).

(** [prisma.apiKey.create] *)
Definition apiKey_create (now : Z) (hash name userId : string) (expiresAt : option Z) : M Gateway ApiKey :=
  g ← get;
  let k := mkApiKey (uuid (gw_serial g)) hash name userId true expiresAt (db_now (gw_serial g)) now in
  if bool_decide (hash ∈ ak_key <$> apiKeys g) then throw (UniqueConstraint ["key"])
  else if bool_decide (userId ∈ gw_users g) then
    _ ← put (mkGateway (gw_users g) (apiKeys g ++ [k]) (keyCache g) (usageStore g) (S (gw_serial g)) (gw_draws g)); mret k
  else throw ForeignKeyViolation.

Definition ak_touched (now : Z) (k : ApiKey) : ApiKey :=
  mkApiKey (ak_id k) (ak_key k) (ak_name k) (ak_userId k) (ak_isActive k) (ak_expiresAt k) (ak_createdAt k) now.
Definition ak_deactivated (now : Z) (k : ApiKey) : ApiKey :=
  mkApiKey (ak_id k) (ak_key k) (ak_name k) (ak_userId k) false (ak_expiresAt k) (ak_createdAt k) now.

(** [prisma.apiKey.update({ where: { id } })] *)
Definition apiKey_update (id : string) (f : ApiKey → ApiKey) : M Gateway unit :=
  g ← get;
  match row_find ak_id id (apiKeys g) with
  | None => throw RecordNotFound
  | Some _ => put (set_keys (row_update ak_id id f (apiKeys g)) g)
  end.

(** The entry of the map for a new key. *)
Definition cached_key (k : ApiKey) (prefix : string) (permissions : list string) : ApiKeyData :=
  mkKeyData (ak_id k) prefix (ak_name k) (ak_userId k) permissions (ak_isActive k) (ak_expiresAt k) (ak_createdAt k) None.

Definition createKey (now : Z) (name userId : string) (permissions : list string) (expiresInDays : Z) : M Gateway (string * string * string) :=
  '(raw, hash, prefix) ← generateApiKey;
  apiKey ← apiKey_create now hash name userId (if bool_decide (0 < expiresInDays) then Some (now + expiresInDays * 86400000) else None);
  _ ← modify (λ g, set_key_cache (map_set (ak_id apiKey) (cached_key apiKey prefix permissions, hash) (keyCache g)) g);
  _ ← apiKey_update (ak_id apiKey) (ak_touched now);
  mret (ak_id apiKey, raw, name).

(** ** Checking keys *)

Inductive KeyCheck := ValidKey (d : ApiKeyData) | InvalidKey (error : string).

(** A row as the callers of the service see it. *)
Definition public_key (r : ApiKey) : ApiKeyData :=
  mkKeyData (ak_id r) (str_take 10 (ak_key r)) (ak_name r) (ak_userId r) [] (ak_isActive r) (ak_expiresAt r) (ak_createdAt r) None.

(** [findFirst({ where: { key, isActive: true } })]; the column is unique *)
Definition find_active (hash : string) (l : list ApiKey) : option ApiKey :=
  List.find (λ r, bool_decide (ak_key r = hash) && ak_isActive r) l.

(** The update of [updatedAt] may fail without a consequence. *)
Definition validateKey (now : Z) (rawKey : string) : M Gateway KeyCheck :=
  found ← gets (λ g, find_active (sha256_hex rawKey) (apiKeys g));
  match found with
  | None => mret (InvalidKey "Invalid API key")
  | Some record =>
      if match ak_expiresAt record with Some t => bool_decide (t < now) | None => false end then mret (InvalidKey "API key has expired")
      else
        _ ← try_catch (apiKey_update (ak_id record) (ak_touched now)) (λ _, mret tt);
        mret (ValidKey (public_key record))
  end.

Definition newest_key (a b : ApiKey) : bool := bool_decide (ak_createdAt b ≤ ak_createdAt a).

Definition listKeys (userId : string) : M Gateway (list ApiKeyData) :=
  gets (λ g, public_key <$> order_by newest_key (List.filter (λ r, bool_decide (ak_userId r = userId) && ak_isActive r) (apiKeys g))).

Definition adminListAllKeys : M Gateway (list ApiKeyData) :=
  gets (λ g, public_key <$> order_by newest_key (List.filter ak_isActive (apiKeys g))).

(** ** Revoking and rotating *)

Definition KeyNotFound : exn := JsError "API key not found".

Definition revokeKey (now : Z) (keyId userId : string) : M Gateway unit :=
  found ← gets (λ g, row_find ak_id keyId (apiKeys g));
  match found with
  | None => throw KeyNotFound
  | Some record =>
      if negb (bool_decide (ak_userId record = userId)) then throw KeyNotFound
      else
        _ ← apiKey_update keyId (ak_deactivated now);
        modify (λ g, set_key_cache (map_delete keyId (keyCache g)) g)
  end.

Definition rotateKey (now : Z) (keyId userId : string) : M Gateway string :=
  _ ← revokeKey now keyId userId;
  '(raw, hash, prefix) ← generateApiKey;
  found ← gets (λ g, row_find ak_id keyId (apiKeys g));
  match found with
  | None => throw (JsError "Original key not found")
  | Some record =>
      newKey ← apiKey_create now hash (ak_name record +:+ " (rotated)") (ak_userId record) (ak_expiresAt record);
      _ ← modify (λ g, set_key_cache (map_set (ak_id newKey) (cached_key newKey prefix [], hash) (keyCache g)) g);
      mret raw
  end.

(** ** Usage *)

(** [splice(0, length - max)] when there are more than [max]. *)
Definition keep_last {A} (max : nat) (l : list A) : list A := drop (length l - max) l.

Definition trackUsage (now : Z) (keyId endpoint method : string) (statusCode : Z) (g : Gateway) : Gateway :=
  let records := default [] (map_get keyId (usageStore g)) ++ [mkUsage now endpoint method statusCode] in
  set_usage (map_set keyId (if bool_decide (maxUsageRecords < length records)%nat then keep_last maxUsageRecords records else records)
               (usageStore g)) g.

Record KeyUsage := mkKeyUsage {
  ku_keyId : string; totalRequests : nat; last24h : nat; topEndpoints : list (string * Z); recentRequests : list UsageRecord }.

Definition endpoint_counts (records : list UsageRecord) : jsmap Z :=
  foldl (λ m r, map_set (us_endpoint r) (default 0 (map_get (us_endpoint r) m) + 1) m) [] records.

Definition getKeyUsage (now : Z) (keyId : string) (g : Gateway) : KeyUsage :=
  let records := default [] (map_get keyId (usageStore g)) in
  mkKeyUsage keyId (length records) (length (List.filter (λ r, bool_decide (now - us_timestamp r < 86400000)) records))
    (take 10 (js_sort (λ a b, b.2 - a.2) (endpoint_counts records))) (keep_last 50 records).

Definition getKeyAnalytics (g : Gateway) : nat * nat * nat * jsmap nat :=
  (length (keyCache g), length (keyCache g), foldr Nat.add 0%nat (length <$> map_values (usageStore g)),
   (λ '(k, records), (k, length records)) <$> usageStore g).

(** [adminUpdatePermissions] only logs. *)
Definition adminUpdatePermissions (keyId : string) (permissions : list string) (g : Gateway) : Gateway := g.

(** ** Middleware *)

Record ApiKeyInfo := mkInfo { in_keyId : string; in_keyPrefix : string; in_name : string; in_userId : string; in_permissions : list string }.

(** The header is absent or empty, or names a key. *)
Definition apiKeyAuth (now : Z) (header : option string) : M Gateway ApiKeyInfo :=
  match header with
  | None | Some "" => throw (HttpError 401 "API key is required. Provide it via the X-API-Key header.")
  | Some apiKey =>
      result ← validateKey now apiKey;
      match result with
      | InvalidKey error => throw (HttpError 401 error)
      | ValidKey d => mret (mkInfo (kd_id d) (keyPrefix d) (kd_name d) (kd_userId d) (kd_permissions d))
      end
  end.

(** The permissions are not looked at. *)
Definition requireApiPermission (permissions : list string) (info : option ApiKeyInfo) : result unit :=
  match info with None => Throw (HttpError 401 "API key authentication required") | Some _ => Ok tt end.

(** After the response has been sent. *)
Definition trackApiUsage (now : Z) (info : option ApiKeyInfo) (url method : string) (statusCode : Z) (g : Gateway) : Gateway :=
  match info with
  | Some i => if bool_decide (in_keyId i = "") then g else trackUsage now (in_keyId i) url method statusCode g
  | None => g
  end.
End gateway.

(** ** The limiter per key *)

Definition RATE_LIMIT_WINDOW : Z := 60000.
Definition RATE_LIMIT_MAX : Z := 100.

Record LimitEntry := mkLimit { le_count : Z; windowStart : Z }.

(** [rateLimitStore] *)
Notation limit_store := (gmap string LimitEntry).

Definition RateLimited (retryAfter : Z) : exn :=
  HttpError 429 ("Rate limit exceeded. Retry after " +:+ pretty retryAfter +:+ " seconds.").

(** [Math.ceil(ms / 1000)] *)
Definition ceil_seconds (ms : Z) : Z := - (- ms / 1000).

Definition apiKeyRateLimiter (now : Z) (keyId : option string) (store : limit_store) : limit_store * result unit :=
  match truthy_str keyId with
  | None => (store, Ok tt)
  | Some k =>
      let entry := match store !! k with
                   | Some e => if bool_decide (RATE_LIMIT_WINDOW ≤ now - windowStart e) then mkLimit 0 now else e
                   | None => mkLimit 0 now
                   end in
      let entry := mkLimit (le_count entry + 1) (windowStart entry) in
      (<[k := entry]> store,
       if bool_decide (RATE_LIMIT_MAX < le_count entry)
       then Throw (RateLimited (ceil_seconds (windowStart entry + RATE_LIMIT_WINDOW - now))) else Ok tt)
  end.

(** ** API keys: what they guarantee

    A key is accepted from its creation until it expires or is revoked, and
    never afterwards; the limiter lets at most two windows' worth of requests
    through in the time of one. *)

Section keys.
Context `{Prisma} `{Sha256} `{NodeRandom}.

(** ** The table *)

Definition gw_inv (g : Gateway) : Prop :=
  NoDup (ak_key <$> apiKeys g) ∧ NoDup (ak_id <$> apiKeys g) ∧ ∀ r, r ∈ apiKeys g → ∃ n, (n < gw_serial g)%nat ∧ ak_id r = uuid n.

Lemma gw_inv_start us : gw_inv (mkGateway us [] [] [] 0 0).
Proof. split_and!; [constructor..|]. by intros r ?%elem_of_nil. Qed.

(** What calls do to a row: they never change what it names nor switch it on
    again, and switch it off only when its id is in [off]. *)
Definition row_le (off : string → Prop) (r r' : ApiKey) : Prop :=
  ak_id r' = ak_id r ∧ ak_key r' = ak_key r ∧ ak_userId r' = ak_userId r ∧ ak_expiresAt r' = ak_expiresAt r ∧
  (ak_isActive r' = true → ak_isActive r = true) ∧ (¬ off (ak_id r) → ak_isActive r' = ak_isActive r).

Definition key_step (off : string → Prop) (g g' : Gateway) : Prop := ∀ r, r ∈ apiKeys g → ∃ r', r' ∈ apiKeys g' ∧ row_le off r r'.

Lemma row_le_refl off r : row_le off r r.
Proof. done. Qed.

Lemma row_le_trans off r1 r2 r3 : row_le off r1 r2 → row_le off r2 r3 → row_le off r1 r3.
Proof.
  intros (E1 & ? & ? & ? & Ha1 & Hb1) (E2 & ? & ? & ? & Ha2 & Hb2). split_and!; [congruence..|auto|].
  intros Hn. rewrite Hb2 by congruence. auto.
Qed.

Lemma key_step_same off g g' : apiKeys g' = apiKeys g → key_step off g g'.
Proof. intros E r Hr. rewrite E. eauto using row_le_refl. Qed.

Lemma key_steps off g g' : rtc (key_step off) g g' → key_step off g g'.
Proof.
  induction 1 as [|g1 g2 g3 H12 _ IH]; [by apply key_step_same|]. intros r Hr. destruct (H12 r Hr) as (r2 & Hr2 & S12).
  destruct (IH r2 Hr2) as (r3 & Hr3 & S23). eauto using row_le_trans.
Qed.

Definition key_safe {A} (off : string → Prop) (m : M Gateway A) : Prop := guarded gw_inv (key_step off) m.

Lemma key_safe_same {A} off (m : M Gateway A) :
  (∀ g, apiKeys (m g).1 = apiKeys g ∧ gw_serial (m g).1 = gw_serial g) → key_safe off m.
Proof.
  intros Hm g Hg. specialize (Hm g). unfold post. destruct (m g) as [g' r]. simpl in Hm. destruct Hm as [Hk Hs].
  assert (gw_inv g' ∧ rtc (key_step off) g g') by (split; [unfold gw_inv; by rewrite Hk, Hs|apply rtc_once; by apply key_step_same]).
  by destruct r.
Qed.

Lemma create_safe off now hash name user e : key_safe off (apiKey_create now hash name user e).
Proof.
  intros g Hg. unfold apiKey_create. repeat m_step. case_bool_decide as Hh; [by m_step|]. case_bool_decide; [|by m_step].
  repeat m_step. destruct Hg as (Hk & Hi & Hn).
  assert (uuid (gw_serial g) ∉ ak_id <$> apiKeys g) as Hfresh.
  { intros (r & E & Hr)%list_elem_of_fmap. destruct (Hn r Hr) as (n & Hlt & E'). rewrite E' in E. apply (inj uuid) in E. lia. }
  split.
  - split_and!; simpl; [rewrite fmap_app; by apply NoDup_snoc..|].
    intros r [Hr| ->]%elem_of_snoc; [|exists (gw_serial g); split; [lia|done]]. destruct (Hn r Hr) as (n & ? & ?). exists n. split; [lia|done].
  - apply rtc_once. intros r Hr. exists r. split; [apply elem_of_snoc; by left|apply row_le_refl].
Qed.

Lemma update_safe (off : string → Prop) id f : (∀ r, ak_id r = id → row_le off r (f r)) → (∀ r, ak_id (f r) = ak_id r) → (∀ r, ak_key (f r) = ak_key r) →
  key_safe off (apiKey_update id f).
Proof.
  intros Hf Hid Hkey g Hg. unfold apiKey_update. repeat m_step. destruct (row_find _ _ _); [|by m_step]. m_step.
  destruct Hg as (Hk & Hi & Hn). split.
  - assert (ak_key <$> row_update ak_id id f (apiKeys g) = ak_key <$> apiKeys g) as Ek.
    { unfold row_update. rewrite <-list_fmap_compose. apply list_fmap_ext. intros j r _. simpl. by case_bool_decide. }
    unfold gw_inv. simpl. rewrite Ek, row_update_ids by done. split_and!; [done..|].
    intros r (q & Hq & ->)%elem_of_row_update. destruct (Hn q Hq) as (n & ? & E). exists n. split; [done|]. case_bool_decide; by rewrite ?Hid.
  - apply rtc_once. intros r Hr. eexists. split; [apply elem_of_row_update; eauto|]. case_bool_decide; [by apply Hf|apply row_le_refl].
Qed.

Lemma touch_safe off id now : key_safe off (apiKey_update id (ak_touched now)).
Proof. by apply update_safe. Qed.

Lemma generate_safe off : key_safe off generateApiKey.
Proof. by apply key_safe_same. Qed.

Lemma createKey_safe off now name user perms days : key_safe off (createKey now name user perms days).
Proof.
  unfold createKey. apply guarded_bind; [apply generate_safe|]. intros [[raw hash] prefix].
  apply guarded_bind; [apply create_safe|]. intros k. apply guarded_bind; [by apply key_safe_same|]. intros _.
  apply guarded_bind; [apply touch_safe|]. intros _. apply guarded_ret.
Qed.

Lemma validateKey_safe off now raw : key_safe off (validateKey now raw).
Proof.
  unfold validateKey. apply guarded_bind; [apply guarded_gets|]. intros [r|]; [|apply guarded_ret].
  destruct (match ak_expiresAt r with _ => _ end); [apply guarded_ret|].
  apply guarded_bind; [|intros; apply guarded_ret]. apply guarded_try; [apply touch_safe|]. intros. apply guarded_ret.
Qed.

Lemma revokeKey_safe (off : string → Prop) now id user : off id → key_safe off (revokeKey now id user).
Proof.
  intros Hoff. unfold revokeKey. apply guarded_bind; [apply guarded_gets|]. intros [r|]; [|apply guarded_throw].
  destruct (negb _); [apply guarded_throw|]. apply guarded_bind; [|intros; by apply key_safe_same].
  apply update_safe; [|done..]. intros q <-. split_and!; try done.
Qed.

Lemma rotateKey_safe (off : string → Prop) now id user : off id → key_safe off (rotateKey now id user).
Proof.
  intros Hoff. unfold rotateKey. apply guarded_bind; [by apply revokeKey_safe|]. intros _.
  apply guarded_bind; [apply generate_safe|]. intros [[raw hash] prefix]. apply guarded_bind; [apply guarded_gets|].
  intros [r|]; [|apply guarded_throw]. apply guarded_bind; [apply create_safe|]. intros k.
  apply guarded_bind; [by apply key_safe_same|]. intros _. apply guarded_ret.
Qed.

(** ** Calls *)

Inductive gw_call :=
| CreateKey (now : Z) (name user : string) (permissions : list string) (days : Z)
| ValidateKeyCall (now : Z) (raw : string)
| RevokeKey (now : Z) (id user : string)
| RotateKey (now : Z) (id user : string)
| TrackUsage (now : Z) (id endpoint method : string) (status : Z).

Definition gw_exec (c : gw_call) (g : Gateway) : Gateway :=
  match c with
  | CreateKey now name user perms days => (createKey now name user perms days g).1
  | ValidateKeyCall now raw => (validateKey now raw g).1
  | RevokeKey now id user => (revokeKey now id user g).1
  | RotateKey now id user => (rotateKey now id user g).1
  | TrackUsage now id endpoint method status => trackUsage now id endpoint method status g
  end.

Definition gw_run (cs : list gw_call) (g : Gateway) : Gateway := foldl (flip gw_exec) g cs.

(** The ids a call may switch off. *)
Definition switches_off (c : gw_call) (i : string) : Prop :=
  match c with RevokeKey _ id _ | RotateKey _ id _ => i = id | _ => False end.

Lemma gw_exec_step (off : string → Prop) c g : (∀ i, switches_off c i → off i) → gw_inv g →
  gw_inv (gw_exec c g) ∧ rtc (key_step off) g (gw_exec c g).
Proof.
  intros Hoff Hg. destruct c; simpl in *.
  - by apply (guarded_run _ _ _ _ (createKey_safe off now name user permissions days)).
  - by apply (guarded_run _ _ _ _ (validateKey_safe off now raw)).
  - apply (guarded_run _ _ _ _ (revokeKey_safe off now id user (Hoff _ eq_refl)) Hg).
  - apply (guarded_run _ _ _ _ (rotateKey_safe off now id user (Hoff _ eq_refl)) Hg).
  - split; [done|]. apply rtc_once. by apply key_step_same.
Qed.

Lemma gw_run_step (off : string → Prop) cs g : (∀ c i, c ∈ cs → switches_off c i → off i) → gw_inv g →
  gw_inv (gw_run cs g) ∧ key_step off g (gw_run cs g).
Proof.
  intros Hoff Hg. enough (gw_inv (gw_run cs g) ∧ rtc (key_step off) g (gw_run cs g)) as [? ?] by (split; [done|by apply key_steps]).
  revert g Hg. induction cs as [|c cs IH]; intros g Hg; [done|]. simpl.
  destruct (gw_exec_step off c g) as [H1' H2']; [intros i; apply Hoff; left|done|].
  destruct (IH ltac:(intros c' i Hc; apply Hoff; by right) _ H1') as [H3' H4']. split; [done|]. by etrans.
Qed.

Lemma find_active_row l r : NoDup (ak_key <$> l) → r ∈ l → find_active (ak_key r) l = if ak_isActive r then Some r else None.
Proof.
  unfold find_active. induction l as [|q l IH]; [by intros _ ?%elem_of_nil|]. cbn [List.find fmap list_fmap].
  intros [Hq Hl]%NoDup_cons [->|Hr]%elem_of_cons.
  - rewrite bool_decide_true by done. simpl. destruct (ak_isActive q); [done|].
    destruct (List.find _ l) as [x|] eqn:E; [|done]. apply find_some in E as [Hx [Hk _]%andb_prop]. apply bool_decide_eq_true in Hk.
    destruct Hq. rewrite <-Hk. by apply list_elem_of_fmap_2, list_elem_of_In.
  - rewrite bool_decide_false; [by apply IH|]. intros E. destruct Hq. rewrite E. by apply list_elem_of_fmap_2.
Qed.

(** ** Revocation *)

Lemma revokeKey_ok now id user g g' : revokeKey now id user g = (g', Ok tt) →
  ∃ r, r ∈ apiKeys g ∧ ak_id r = id ∧ ak_userId r = user ∧ ak_deactivated now r ∈ apiKeys g'.
Proof.
  unfold revokeKey, mbind, M_bind, gets. cbn. destruct (row_find ak_id id (apiKeys g)) as [r|] eqn:E; [|done].
  apply row_find_Some in E as [Hr Hid]. case_bool_decide; [|done]. unfold apiKey_update, mbind, M_bind, get, put, modify. simpl.
  destruct (row_find ak_id id (apiKeys g)); [|done]. intros [= <-]. exists r. split_and!; [done..|]. simpl.
  apply elem_of_row_update. exists r. split; [done|]. by rewrite bool_decide_true.
Qed.

Lemma inactive_key_refused now raw g r : NoDup (ak_key <$> apiKeys g) → r ∈ apiKeys g → ak_key r = sha256_hex raw → ak_isActive r = false →
  validateKey now raw g = (g, Ok (InvalidKey "Invalid API key")).
Proof.
  intros Hk Hr Hkey Ha. unfold validateKey, mbind, M_bind, gets. rewrite <-Hkey, (find_active_row _ r) by done. by rewrite Ha.
Qed.

(** Revoking a key is final: only its owner can revoke it, and whatever
    calls follow, the key, and any text with its hash, is never accepted again. *)
Theorem revoked_key_refused us cs now id user g' :
  let g := gw_run cs (mkGateway us [] [] [] 0 0) in
  revokeKey now id user g = (g', Ok tt) →
  ∃ r, r ∈ apiKeys g ∧ ak_id r = id ∧ ak_userId r = user ∧
    ∀ raw cs2 now2, sha256_hex raw = ak_key r →
      validateKey now2 raw (gw_run cs2 g') = (gw_run cs2 g', Ok (InvalidKey "Invalid API key")).
Proof.
  intros g Hrev. pose proof (gw_run_step (λ _, True) cs _ ltac:(done) (gw_inv_start us)) as [Hg _].
  destruct (gw_exec_step (λ _, True) (RevokeKey now id user) g ltac:(done) Hg) as [Hg' _]. simpl in Hg'. rewrite Hrev in Hg'. simpl in Hg'.
  destruct (revokeKey_ok _ _ _ _ _ Hrev) as (r & Hr & Hid & Hu & Hr'). exists r. split_and!; [done..|]. intros raw cs2 now2 Hraw.
  destruct (gw_run_step (λ _, True) cs2 g' ltac:(done) Hg') as [(Hk & _ & _) Hstep].
  destruct (Hstep _ Hr') as (r2 & Hr2 & Hid2 & Hkey2 & _ & _ & Hact & _).
  apply (inactive_key_refused now2 raw _ r2); [done..|simpl in Hkey2; congruence|]. destruct (ak_isActive r2); [by discriminate Hact|done].
Qed.

(** ** Creation *)

Lemma apiKey_create_ok now hash name user e g g' k : apiKey_create now hash name user e g = (g', Ok k) →
  k = mkApiKey (uuid (gw_serial g)) hash name user true e (db_now (gw_serial g)) now ∧ k ∈ apiKeys g'.
Proof.
  unfold apiKey_create, mbind, M_bind, get, put. cbn. case_bool_decide; [done|]. case_bool_decide; [|done]. intros [= <- <-].
  split; [done|]. simpl. apply elem_of_snoc. by right.
Qed.

Lemma createKey_ok now name user perms days g g' id raw n : createKey now name user perms days g = (g', Ok (id, raw, n)) →
  ∃ r, r ∈ apiKeys g' ∧ ak_id r = id ∧ ak_key r = sha256_hex raw ∧ ak_userId r = user ∧ ak_isActive r = true ∧
    ak_expiresAt r = if bool_decide (0 < days) then Some (now + days * 86400000) else None.
Proof.
  unfold createKey, generateApiKey, mbind, M_bind, get, put. cbn -[apiKey_create apiKey_update].
  destruct (apiKey_create _ _ _ _ _ _) as [g1 [k|]] eqn:E; [|done]. apply apiKey_create_ok in E as [Ek Hk].
  unfold apiKey_update, mbind, M_bind, get, put, modify. cbn -[row_find]. destruct (row_find ak_id (ak_id k) _); [|done]. intros [= <- <- <- <-].
  exists (ak_touched now k). split; [|by rewrite Ek]. simpl. apply elem_of_row_update. exists k. split; [done|]. by rewrite bool_decide_true.
Qed.

Lemma active_accepted now raw g r : NoDup (ak_key <$> apiKeys g) → r ∈ apiKeys g → ak_key r = sha256_hex raw → ak_isActive r = true →
  match ak_expiresAt r with
  | Some t => if bool_decide (t < now) then validateKey now raw g = (g, Ok (InvalidKey "API key has expired"))
              else ∃ g', validateKey now raw g = (g', Ok (ValidKey (public_key r)))
  | None => ∃ g', validateKey now raw g = (g', Ok (ValidKey (public_key r)))
  end.
Proof.
  intros Hk Hr Hkey Ha.
  assert (∃ g', validateKey now raw g = if match ak_expiresAt r with Some t => bool_decide (t < now) | None => false end
    then (g, Ok (InvalidKey "API key has expired")) else (g', Ok (ValidKey (public_key r)))) as [g' E].
  { unfold validateKey, mbind, M_bind, gets. rewrite <-Hkey, (find_active_row _ r) by done. rewrite Ha.
    destruct (match ak_expiresAt r with Some t => bool_decide (t < now) | None => false end); [by exists g|]. unfold try_catch, mret, M_ret.
    destruct (apiKey_update _ _ g) as [g1 [[]|e]]; eauto. }
  rewrite E. destruct (ak_expiresAt r); [|eauto]. case_bool_decide; eauto.
Qed.

(** A new key works until it expires or is revoked: whatever other calls
    are made, the text that was returned is accepted as the key of its owner as
    long as its lifetime lasts (for ever, when none was asked for), and afterwards
    answered with "expired". *)
Theorem created_key_accepted us cs now name user perms days g' id raw n cs2 now2 :
  createKey now name user perms days (gw_run cs (mkGateway us [] [] [] 0 0)) = (g', Ok (id, raw, n)) →
  (∀ c, c ∈ cs2 → ¬ switches_off c id) →
  (0 < days → now2 ≤ now + days * 86400000) →
  ∃ g'' d, validateKey now2 raw (gw_run cs2 g') = (g'', Ok (ValidKey d)) ∧ kd_id d = id ∧ kd_userId d = user.
Proof.
  intros Hc Hoff Hlife. pose proof (gw_run_step (λ _, True) cs _ ltac:(done) (gw_inv_start us)) as [Hg _].
  destruct (gw_exec_step (λ _, True) (CreateKey now name user perms days) _ ltac:(done) Hg) as [Hg' _]. simpl in Hg'. rewrite Hc in Hg'. simpl in Hg'.
  destruct (createKey_ok _ _ _ _ _ _ _ _ _ _ Hc) as (r & Hr & Hid & Hkey & Hu & Ha & He).
  destruct (gw_run_step (λ i, i ≠ id) cs2 g') as [(Hk & _ & _) Hstep]; [intros c i Hin Hsw ->; by apply (Hoff c)|done|].
  destruct (Hstep r Hr) as (r2 & Hr2 & Hid2 & Hkey2 & Hu2 & He2 & _ & Ha2). assert (ak_isActive r2 = true) as Ha' by (rewrite Ha2; [done|intros Hn; by apply Hn]).
  pose proof (active_accepted now2 raw _ r2 Hk Hr2 ltac:(congruence) Ha') as Hv. rewrite He2, He in Hv.
  case_bool_decide as Hd.
  - rewrite bool_decide_false in Hv by lia. destruct Hv as [g'' Hv]. exists g'', (public_key r2). simpl. split_and!; congruence.
  - destruct Hv as [g'' Hv]. exists g'', (public_key r2). simpl. split_and!; congruence.
Qed.
End keys.

(** ** Usage is bounded *)

Lemma trackUsage_bound now id e m st g k l : map_get k (usageStore (trackUsage now id e m st g)) = Some l →
  (∀ l0, map_get k (usageStore g) = Some l0 → (length l0 ≤ maxUsageRecords)%nat) → (length l ≤ maxUsageRecords)%nat.
Proof.
  unfold trackUsage. cbv zeta. simpl. rewrite map_get_set. case_bool_decide; [|by eauto]. intros [= <-] _. subst.
  unfold keep_last. case_bool_decide; [rewrite length_drop; lia|lia].
Qed.

(** ** The limiter *)

Definition admitted_by (r : result unit) : bool := match r with Ok _ => true | Throw _ => false end.

(** The answers to the requests of a key at the given instants. *)
Fixpoint limiter_answers (key : string) (times : list Z) (store : limit_store) : nat :=
  match times with
  | [] => 0
  | now :: times =>
      let '(store, r) := apiKeyRateLimiter now (Some key) store in
      ((if admitted_by r then 1 else 0) + limiter_answers key times store)%nat
  end.

Section limiter.
Context (key : string).

(** How many requests the entry of the key still lets through. *)
Definition left_over (store : limit_store) : Z :=
  match store !! key with Some e => Z.max 0 (RATE_LIMIT_MAX - le_count e) | None => RATE_LIMIT_MAX end.

Lemma limiter_step now store : truthy_str (Some key) = Some key →
  let '(store', r) := apiKeyRateLimiter now (Some key) store in
  match store !! key with
  | Some e => if bool_decide (RATE_LIMIT_WINDOW ≤ now - windowStart e) then store' !! key = Some (mkLimit 1 now) ∧ admitted_by r = true
              else store' !! key = Some (mkLimit (le_count e + 1) (windowStart e)) ∧ admitted_by r = bool_decide (le_count e < RATE_LIMIT_MAX)
  | None => store' !! key = Some (mkLimit 1 now) ∧ admitted_by r = true
  end.
Proof.
  intros Ht. unfold apiKeyRateLimiter. rewrite Ht. destruct (store !! key) as [e|]; [case_bool_decide|]; simpl; rewrite lookup_insert_eq;
    (split; [done|]); [done| |done]. case_bool_decide; simpl; symmetry; [apply bool_decide_eq_false|apply bool_decide_eq_true]; lia.
Qed.

(** Without a new window at most what is left over is let through. *)
Lemma limiter_one_window times store : truthy_str (Some key) = Some key →
  (∀ e, store !! key = Some e → Forall (λ t, t - windowStart e < RATE_LIMIT_WINDOW) times) → is_Some (store !! key) →
  Z.of_nat (limiter_answers key times store) ≤ left_over store.
Proof.
  intros Ht. revert store. induction times as [|now times IH]; intros store He [e E]; cbn [limiter_answers].
  { unfold left_over. rewrite E. lia. }
  pose proof (limiter_step now store Ht) as Hs. destruct (apiKeyRateLimiter now (Some key) store) as [store' r]. rewrite E in Hs.
  destruct (proj1 (Forall_cons _ _ _) (He e E)) as [Hnow Hrest]. rewrite bool_decide_false in Hs by lia. destruct Hs as [E' Hr].
  specialize (IH store'). rewrite E' in IH. specialize (IH ltac:(intros e' [= <-]; done) ltac:(eauto)).
  unfold left_over in *. rewrite E, Hr. rewrite E' in IH. simpl in IH. case_bool_decide; lia.
Qed.
End limiter.

(** Within the time of one window a key gets at most two windows' worth of
    requests through, from whatever state the limiter is in. *)
Theorem key_rate_bound key t times store : key ≠ "" → (∀ e, store !! key = Some e → 0 ≤ le_count e) →
  Forall (λ now, t ≤ now < t + RATE_LIMIT_WINDOW) times →
  Z.of_nat (limiter_answers key times store) ≤ 2 * RATE_LIMIT_MAX.
Proof.
  intros Hkey Hc Ht. assert (truthy_str (Some key) = Some key) as Htr by (simpl; by rewrite bool_decide_false).
  enough (Z.of_nat (limiter_answers key times store) ≤ left_over key store + RATE_LIMIT_MAX) as Hle.
  { unfold left_over, RATE_LIMIT_MAX in *. destruct (store !! key) as [e|]; [specialize (Hc e eq_refl)|]; lia. }
  clear Hc. revert store. induction Ht as [|now times Hnow Ht IH]; intros store; cbn [limiter_answers].
  { unfold left_over, RATE_LIMIT_MAX. destruct (store !! key); lia. }
  pose proof (limiter_step key now store Htr) as Hs. destruct (apiKeyRateLimiter now (Some key) store) as [store' r].
  assert (store' !! key = Some (mkLimit 1 now) → Z.of_nat (limiter_answers key times store') ≤ RATE_LIMIT_MAX - 1) as Hnew.
  { intros E. pose proof (limiter_one_window key times store' Htr) as Hw. rewrite E in Hw.
    assert (Forall (λ t', t' - now < RATE_LIMIT_WINDOW) times) as Hin by (eapply Forall_impl; [exact Ht|]; intros; simpl in *; lia).
    specialize (Hw ltac:(by intros e [= <-]) ltac:(eauto)). unfold left_over, RATE_LIMIT_MAX in *. rewrite E in Hw. simpl in Hw. lia. }
  unfold left_over, RATE_LIMIT_MAX in *. destruct (store !! key) as [e|]; [case_bool_decide|]; destruct Hs as [E Hr]; rewrite Hr.
  - specialize (Hnew E). lia.
  - specialize (IH store'). rewrite E in IH. simpl in IH. case_bool_decide; lia.
  - specialize (Hnew E). lia.
Qed.

(** ** Runs *)

Section runs.
#[local] Existing Instance sha_model.
#[local] Existing Instance random_model.

Definition no_keys : Gateway := mkGateway ["ann"; "bob"] [] [] [] 0 0.
Definition key_calls : list gw_call := [CreateKey 1000 "bot" "ann" ["read"] 30; ValidateKeyCall 2000 "ax_"].

Lemma revoked_key_refused_witness : ∃ g' r, revokeKey 5000 (uuid 0) "ann" (gw_run key_calls no_keys) = (g', Ok tt) ∧
  r ∈ apiKeys (gw_run key_calls no_keys) ∧
  ∀ raw cs2 now2, sha256_hex raw = ak_key r → validateKey now2 raw (gw_run cs2 g') = (gw_run cs2 g', Ok (InvalidKey "Invalid API key")).
Proof.
  eexists. assert (revokeKey 5000 (uuid 0) "ann" (gw_run key_calls no_keys) = (_, Ok tt)) as Hrev by (vm_compute; reflexivity).
  destruct (revoked_key_refused ["ann"; "bob"] key_calls 5000 (uuid 0) "ann" _ Hrev) as (r & Hr & _ & _ & Href).
  exists r. split; [exact Hrev|]. split; [exact Hr|exact Href].
Defined.

Lemma created_key_accepted_witness : ∃ g' id raw n, createKey 3000 "bot" "bob" [] 1 (gw_run key_calls no_keys) = (g', Ok (id, raw, n)) ∧
  ∃ g'' d, validateKey 86403000 raw (gw_run [RevokeKey 4000 (uuid 0) "ann"] g') = (g'', Ok (ValidKey d)) ∧ kd_id d = id ∧ kd_userId d = "bob".
Proof.
  eexists _, _, _, _. assert (createKey 3000 "bot" "bob" [] 1 (gw_run key_calls no_keys) = (_, Ok (_, _, _))) as Hc by (vm_compute; reflexivity).
  split; [exact Hc|]. apply (created_key_accepted ["ann"; "bob"] key_calls 3000 "bot" "bob" [] 1 _ _ _ _ [RevokeKey 4000 (uuid 0) "ann"] 86403000 Hc).
  - intros c [->|[]%elem_of_nil]%elem_of_cons. vm_compute. discriminate.
  - lia.
Defined.
End runs.

Lemma key_rate_bound_witness : Z.of_nat (limiter_answers "k" (replicate 150 1000) ∅) = 100 ∧
  Z.of_nat (limiter_answers "k" (replicate 150 1000) ∅) ≤ 200.
Proof.
  split; [vm_compute; reflexivity|].
  apply (key_rate_bound "k" 1000 (replicate 150 1000) ∅); [discriminate|intros e; rewrite lookup_empty; discriminate|].
  apply Forall_replicate. vm_compute. split; [discriminate|reflexivity].
Defined.

(** Two hundred requests get through around the start of a window. *)
Lemma burst_at_boundary : let times := [0] ++ replicate 99 59999 ++ replicate 101 60000 in
  limiter_answers "k" times ∅ = 200%nat.
Proof. vm_compute. reflexivity. Qed.

(** The permissions a route asks for are not looked at, and those a key was made
    with are not stored. *)
Lemma permissions_ignored info : requireApiPermission ["admin"] (Some info) = Ok tt.
Proof. reflexivity. Qed.

Lemma permissions_not_stored `{Prisma} r : kd_permissions (public_key r) = [].
Proof. reflexivity. Qed.
