(* ===== verification/RateLimitStores.v ===== *)
(** * Stores of the request limiters

    [server/src/middleware/rate-limit-redis.store.ts],
    [server/src/middleware/sliding-window-rate-limit.store.ts] and
    [server/src/middleware/rate-limit-failover.ts].

    Redis is a parameter: counters with an expiry that reads take into account,
    and commands that may fail, without an effect, at any call.  A request passes
    when the number of hits the store reports is at most the limit; that is the
    documented behaviour of the package the stores are made for. *)

From Stdlib Require Import Ascii.
From stdpp Require Import prelude gmap strings list pretty.
From S2P Require Import Prelude JsText.

(** ** Redis *)

(** A value with the instant it expires at, if any. *)
Definition stored : Type := option (Z * option Z).

(** What is left of a value at an instant. *)
Definition alive (now : Z) (x : stored) : stored :=
  match x with Some (v, Some e) => if bool_decide (now < e) then x else None | _ => x end.

Class Redis (R : Type) := {
  (** does the [n]-th command fail? *)
  redis_fails : nat → bool;
  look : Z → R → string → stored;
  store_at : Z → string → stored → R → R;
  keys_of : Z → R → list string;
  look_alive : ∀ now r k, alive now (look now r k) = look now r k;
  look_later : ∀ now now' r k, now ≤ now' → look now' r k = alive now' (look now r k);
  look_store : ∀ now r k k' x, look now (store_at now k x r) k' = if bool_decide (k' = k) then alive now x else look now r k';
  keys_of_spec : ∀ now r k, k ∈ keys_of now r ↔ is_Some (look now r k);
}.

(** The contents and the number of commands so far. *)
Record RedisState (R : Type) := mkRedis { redis : R; commands : nat }.
Arguments mkRedis {R}. Arguments redis {R}. Arguments commands {R}.

Definition ConnectionLost : exn := JsError "Connection is closed.".

Section commands.
Context `{Redis R}.

(** A command: it fails, or runs on the contents and answers. *)
Definition command {A} (f : R → R * A) : M (RedisState R) A := λ s,
  if redis_fails (commands s) then (mkRedis (redis s) (S (commands s)), Throw ConnectionLost)
  else let '(r, a) := f (redis s) in (mkRedis r (S (commands s)), Ok a).

Definition value_of (x : stored) : Z := match x with Some (v, _) => v | None => 0 end.
Definition expiry_of (x : stored) : option Z := match x with Some (_, e) => e | None => None end.

(** [INCR] and [DECR] keep the time to live. *)
Definition add_to (now delta : Z) (k : string) (r : R) : R * Z :=
  let x := look now r k in
  (store_at now k (Some (value_of x + delta, expiry_of x)) r, value_of x + delta).
Definition incr (now : Z) (k : string) : M (RedisState R) Z := command (add_to now 1 k).
Definition decr (now : Z) (k : string) : M (RedisState R) Z := command (add_to now (-1) k).

(** [PEXPIRE]; [EXPIRE] takes seconds *)
Definition set_expiry (now ms : Z) (k : string) (r : R) : R :=
  match look now r k with Some (v, _) => store_at now k (Some (v, Some (now + ms))) r | None => r end.
Definition expire (now seconds : Z) (k : string) : M (RedisState R) unit := command (λ r, (set_expiry now (seconds * 1000) k r, tt)).

(** [PTTL]: -2 without a key, -1 without an expiry *)
Definition pttl (now : Z) (k : string) : M (RedisState R) Z := command (λ r,
  (r, match look now r k with None => -2 | Some (_, None) => -1 | Some (_, Some e) => e - now end)).

Definition del (now : Z) (ks : list string) : M (RedisState R) unit := command (λ r, (foldr (λ k, store_at now k None) r ks, tt)).

(** [KEYS prefix*], for a prefix without characters of the pattern syntax *)
Definition keys (now : Z) (prefix : string) : M (RedisState R) (list string) :=
  command (λ r, (r, List.filter (String.prefix prefix) (keys_of now r))).

(** [resetAll] of both stores, each with its own prefix *)
Definition resetAll (keyPrefix : string) (now : Z) : M (RedisState R) unit :=
  try_catch
    (ks ← keys now keyPrefix;
     match ks with [] => mret tt | _ => del now ks end)
    (λ _, mret tt).

(** [Math.ceil(a / b)] *)
Definition ceil_div (a b : Z) : Z := - (- a / b).

(** ** [RedisRateLimitStore]: a counter per window *)

Record IncrementResponse := mkResponse { totalHits : Z; resetTime : Z }.

Section fixed.
Context (keyPrefix : string) (windowMs : Z).

Definition fixed_increment (now : Z) (key : string) : M (RedisState R) IncrementResponse :=
  let redisKey := keyPrefix +:+ key in
  let ttlSeconds := ceil_div windowMs 1000 in
  try_catch
    (count ← incr now redisKey;
     _ ← (if bool_decide (count = 1) then expire now ttlSeconds redisKey else mret tt);
     ttl ← pttl now redisKey;
     mret (mkResponse count (if bool_decide (0 < ttl) then now + ttl else now + windowMs)))
    (λ _, mret (mkResponse 1 (now + windowMs))).

Definition fixed_decrement (now : Z) (key : string) : M (RedisState R) unit :=
  let redisKey := keyPrefix +:+ key in
  try_catch
    (count ← decr now redisKey;
     if bool_decide (count ≤ 0) then del now [redisKey] else mret tt)
    (λ _, mret tt).

Definition fixed_resetKey (now : Z) (key : string) : M (RedisState R) unit :=
  try_catch (del now [keyPrefix +:+ key]) (λ _, mret tt).
End fixed.

(** ** [SlidingWindowRateLimitStore]: two weighted counters *)

Section sliding.
Context (keyPrefix : string) (windowMs : Z).

Definition window_id (now : Z) : Z := now / windowMs.

Definition window_key (key : string) (windowId : Z) : string := keyPrefix +:+ key +:+ ":" +:+ "w:" +:+ pretty windowId.

(** The script: one command that increments the current counter, sets its
    expiry when it is new, and reads the previous one. *)
Definition incrementAndReadPrevious (now : Z) (currentRedisKey previousRedisKey : string) (ttlMs : Z) : M (RedisState R) (Z * Z) :=
  command (λ r,
    let '(r, current) := add_to now 1 currentRedisKey r in
    let r := if bool_decide (current = 1) then set_expiry now ttlMs currentRedisKey r else r in
    (r, (current, value_of (look now r previousRedisKey)))).

(** [Math.ceil(current + previous * overlap)], the overlap being
    [(windowMs - elapsed) / windowMs] *)
Definition estimate (now current previous : Z) : Z :=
  let elapsed := now - window_id now * windowMs in
  current + ceil_div (previous * Z.max 0 (windowMs - elapsed)) windowMs.

Definition sliding_increment (now : Z) (key : string) : M (RedisState R) IncrementResponse :=
  let windowId := window_id now in
  try_catch
    ('(current, previous) ← incrementAndReadPrevious now (window_key key windowId) (window_key key (windowId - 1)) (windowMs * 2);
     mret (mkResponse (estimate now current previous) ((windowId + 1) * windowMs)))
    (λ _, mret (mkResponse 1 (now + windowMs))).

Definition sliding_decrement (now : Z) (key : string) : M (RedisState R) unit :=
  let currentRedisKey := window_key key (window_id now) in
  try_catch
    (count ← decr now currentRedisKey;
     if bool_decide (count ≤ 0) then del now [currentRedisKey] else mret tt)
    (λ _, mret tt).

Definition sliding_resetKey (now : Z) (key : string) : M (RedisState R) unit :=
  try_catch (del now [window_key key (window_id now); window_key key (window_id now - 1)]) (λ _, mret tt).
End sliding.
End commands.

(** ** [FailoverStore] *)

(** The part of the interface [Store] the wrapper uses: what an operation does
    to a store and whether it throws. *)
Section failover.
Context {P F : Type} (healthCheckIntervalMs : Z).

Record Failover := mkFailover { primary : P; fallback : F; isPrimaryHealthy : bool; lastHealthCheck : Z }.

Definition set_healthy (b : bool) (s : Failover) : Failover := mkFailover (primary s) (fallback s) b (lastHealthCheck s).
Definition set_primary (p : P) (s : Failover) : Failover := mkFailover p (fallback s) (isPrimaryHealthy s) (lastHealthCheck s).
Definition set_fallback (f : F) (s : Failover) : Failover := mkFailover (primary s) f (isPrimaryHealthy s) (lastHealthCheck s).

(** [check] is what [healthCheckFn] gives at this call, [None] without one. *)
Definition ensurePrimaryHealthy (now : Z) (check : option (result bool)) (s : Failover) : Failover :=
  if bool_decide (now - lastHealthCheck s < healthCheckIntervalMs) then s
  else
    let s := mkFailover (primary s) (fallback s) (isPrimaryHealthy s) now in
    match check with
    | Some (Ok b) => set_healthy b s
    | Some (Throw _) => set_healthy false s
    | None => s
    end.

(** [increment], [decrement], [resetKey] and [resetAll] have this shape: the operation on
    the active store, and on the fallback when that throws. *)
Definition with_failover {A} (now : Z) (check : option (result bool)) (op_primary : M P A) (op_fallback : M F A) : M Failover A := λ s,
  let s := ensurePrimaryHealthy now check s in
  let on_fallback (s : Failover) : Failover * result A :=
    let '(f, r) := op_fallback (fallback s) in (set_fallback f s, r) in
  if isPrimaryHealthy s then
    match op_primary (primary s) with
    | (p, Ok a) => (set_healthy true (set_primary p s), Ok a)
    | (p, Throw _) => on_fallback (set_healthy false (set_primary p s))
    end
  else
    match on_fallback s with
    | (s, Ok a) => (set_healthy true s, Ok a)
    | (s, Throw _) => on_fallback s
    end.
End failover.
Arguments Failover P F : clear implicits.

(** ** Stores of the request limiters: what they count

    The two counters of the sliding window are the numbers of hits in the
    current and the previous window; the wrapper counts every request while the
    primary store throws; the Redis stores never throw, so it does not notice
    when Redis is down. *)

(** ** Keys of windows *)

Definition no_colon (c : ascii) : bool := negb (bool_decide (c = ":"%char)).

Lemma no_colon_pretty (z : Z) : all_chars no_colon (pretty z) = true.
Proof.
  assert (∀ n : N, all_chars no_colon (pretty n) = true) as Hn.
  { intros n. apply Is_true_true. eapply all_chars_mono; [|apply pretty_N_digits]. intros c Hc. unfold no_colon, is_digit in *.
    apply bool_decide_unpack in Hc. apply Is_true_true, negb_true_iff, bool_decide_eq_false. intros ->. vm_compute in Hc. lia. }
  destruct z as [|p|p]; [reflexivity|apply (Hn (Npos p))|]. change (pretty (Z.neg p)) with ("-" +:+ pretty (Npos p)).
  rewrite all_chars_app. by rewrite Hn.
Qed.

(** What follows the last colon, and what precedes it. *)
Lemma split_last_colon s1 d1 s2 d2 : all_chars no_colon d1 = true → all_chars no_colon d2 = true →
  s1 +:+ ":" +:+ d1 = s2 +:+ ":" +:+ d2 → s1 = s2 ∧ d1 = d2.
Proof.
  assert (∀ s d d', all_chars no_colon d' = true → d' ≠ s +:+ ":" +:+ d) as Hno.
  { intros s d d' Hd ->. rewrite !all_chars_app in Hd. simpl in Hd. by rewrite andb_false_r in Hd. }
  intros H1 H2. revert s2. induction s1 as [|c s1 IH]; intros [|c2 s2] E; simpl in E.
  - injection E as E. by split.
  - injection E as _ E. by destruct (Hno s2 d2 d1 H1).
  - injection E as _ E. by destruct (Hno s1 d1 d2 H2).
  - injection E as <- E. by destruct (IH s2 E) as [-> ->].
Qed.

Lemma app_cancel_r (s t u : string) : s +:+ u = t +:+ u → s = t.
Proof.
  revert t. induction s as [|c s IH]; intros [|d t] E; [done| | |].
  - apply (f_equal String.length) in E. rewrite !length_app_s in E. simpl in E. lia.
  - apply (f_equal String.length) in E. rewrite !length_app_s in E. simpl in E. lia.
  - simpl in E. injection E as -> E. f_equal. by apply IH.
Qed.

Lemma app_cancel_l (p s t : string) : p +:+ s = p +:+ t → s = t.
Proof. induction p as [|c p IH]; [done|]. intros E. simpl in E. injection E as E. auto. Qed.

Lemma window_key_inj pre k1 w1 k2 w2 : window_key pre k1 w1 = window_key pre k2 w2 → k1 = k2 ∧ w1 = w2.
Proof.
  unfold window_key. intros E%app_cancel_l.
  assert (∀ k (w : Z), k +:+ ":" +:+ "w:" +:+ pretty w = (k +:+ ":w") +:+ ":" +:+ pretty w) as Hs by (intros; by rewrite app_assoc_s).
  rewrite !Hs in E. apply split_last_colon in E as [E1 E2]; [|apply no_colon_pretty..].
  split; [by apply app_cancel_r in E1|by apply (inj pretty)].
Qed.

(** ** The sliding window *)

Section sliding_spec.
Context `{Redis R} (pre : string) (W : Z) (HW : 0 < W).

(** *** What is counted

    Calls of the store with their instants; a command may fail at any of them. *)
Inductive Op := Increment (key : string) | Decrement (key : string) | ResetKey (key : string).

(** Numbers of the hits of every key in every window, without an expiry or
    names, and of the commands sent so far. *)
Record Tally := mkTally { sent : nat; count : string → Z → Z }.

Definition set_count (key : string) (w n : Z) (c : string → Z → Z) : string → Z → Z :=
  λ key' w', if bool_decide (key' = key ∧ w' = w) then n else c key' w'.

(** A failed increment counts nothing and answers one; a decrement that leaves
    nothing sends a second command, to forget the counter. *)
Definition count_op (now : Z) (op : Op) (t : Tally) : Tally * option Z :=
  let w := window_id W now in
  let n := sent t in
  let c := count t in
  match op with
  | Increment key =>
      if redis_fails n then (mkTally (S n) c, Some 1)
      else (mkTally (S n) (set_count key w (c key w + 1) c), Some (estimate W now (c key w + 1) (c key (w - 1))))
  | Decrement key =>
      if redis_fails n then (mkTally (S n) c, None)
      else if bool_decide (1 < c key w) then (mkTally (S n) (set_count key w (c key w - 1) c), None)
      else (mkTally (S (S n)) (set_count key w (if redis_fails (S n) then c key w - 1 else 0) c), None)
  | ResetKey key =>
      (mkTally (S n) (if redis_fails n then c else set_count key w 0 (set_count key (w - 1) 0 c)), None)
  end.

(** The number of hits the store reports, for an increment. *)
Definition exec (now : Z) (op : Op) (s : RedisState R) : RedisState R * option Z :=
  match op with
  | Increment key =>
      let '(s, r) := sliding_increment pre W now key s in (s, match r with Ok x => Some (totalHits x) | Throw _ => None end)
  | Decrement key => ((sliding_decrement pre W now key s).1, None)
  | ResetKey key => ((sliding_resetKey pre W now key s).1, None)
  end.

Fixpoint run {S} (f : Z → Op → S → S * option Z) (ops : list (Z * Op)) (s : S) : S * list (option Z) :=
  match ops with
  | [] => (s, [])
  | (now, op) :: ops => let '(s1, x) := f now op s in let '(s2, xs) := run f ops s1 in (s2, x :: xs)
  end.

Fixpoint in_order (t : Z) (ops : list (Z * Op)) : Prop :=
  match ops with [] => True | (now, _) :: ops => t ≤ now ∧ in_order now ops end.

(** *** The counters of Redis *)

(** A counter of a window that may still matter holds the count, and does not
    expire before the window after it is over. *)
Definition holds (n w : Z) (x : stored) : Prop :=
  match x with None => n = 0 | Some (v, e) => v = n ∧ ∀ t, e = Some t → (w + 2) * W ≤ t end.

Definition counts (T : Z) (c : string → Z → Z) (r : R) : Prop := ∀ key w, T < (w + 2) * W → holds (c key w) w (look T r (window_key pre key w)).

Lemma holds_value n w x : holds n w x → value_of x = n.
Proof. by destruct x as [[v e]|]; [intros [-> _]|intros ->]. Qed.

Lemma counts_later T T' c r : T ≤ T' → counts T c r → counts T' c r.
Proof.
  intros HT Hc key w Hw. specialize (Hc key w ltac:(lia)). rewrite (look_later T T') by done.
  destruct (look T r _) as [[v [e|]]|]; try done. destruct Hc as [-> He]. specialize (He e eq_refl). cbn [alive]. rewrite bool_decide_true by lia.
  split; [done|]. by intros t [= <-].
Qed.

Lemma window_id_bounds now : window_id W now * W ≤ now < (window_id W now + 1) * W.
Proof. unfold window_id. pose proof (Z.div_mod now W ltac:(lia)). pose proof (Z.mod_pos_bound now W HW). lia. Qed.

(** One counter is changed. *)
Lemma counts_set T c r r' key w n :
  counts T c r → (∀ k, k ≠ window_key pre key w → look T r' k = look T r k) → holds n w (look T r' (window_key pre key w)) →
  counts T (set_count key w n c) r'.
Proof.
  intros Hc Hother Hn key' w' Hw. unfold set_count. destruct (bool_decide_reflect (key' = key ∧ w' = w)) as [[-> ->]|Hne]; [done|].
  rewrite Hother; [by apply Hc|]. intros E. apply window_key_inj in E as [-> ->]. by apply Hne.
Qed.

Lemma add_to_look now delta k r : let r' := (add_to now delta k r).1 in
  look now r' k = alive now (Some (value_of (look now r k) + delta, expiry_of (look now r k))) ∧ ∀ k', k' ≠ k → look now r' k' = look now r k'.
Proof. cbn. split; [|intros k' Hk]; by rewrite look_store, ?(bool_decide_true (k = k)), ?bool_decide_false. Qed.

(** The current counter after an addition to it. *)
Lemma add_current now delta c key r : counts now c r →
  let w := window_id W now in
  let r' := (add_to now delta (window_key pre key w) r).1 in
  holds (c key w + delta) w (look now r' (window_key pre key w)) ∧ ∀ k, k ≠ window_key pre key w → look now r' k = look now r k.
Proof.
  intros Hc w r'. destruct (add_to_look now delta (window_key pre key w) r) as [E Hother]. fold r' in E. split; [|exact Hother].
  pose proof (window_id_bounds now) as Hw. fold w in Hw. specialize (Hc key w ltac:(lia)). rewrite E, (holds_value _ _ _ Hc).
  destruct (look now r _) as [[v [e|]]|]; [|done..]. destruct Hc as [_ He]. specialize (He e eq_refl). cbn [expiry_of alive].
  rewrite bool_decide_true by lia. split; [done|]. by intros t [= <-].
Qed.

(** Hits are answered right and counted. *)
Lemma increment_counts now key c s : counts now c (redis s) →
  (exec now (Increment key) s).2 = (count_op now (Increment key) (mkTally (commands s) c)).2 ∧
  commands (exec now (Increment key) s).1 = sent (count_op now (Increment key) (mkTally (commands s) c)).1 ∧
  counts now (count (count_op now (Increment key) (mkTally (commands s) c)).1) (redis (exec now (Increment key) s).1).
Proof.
  intros Hc. set (w := window_id W now). pose proof (window_id_bounds now) as Hw. fold w in Hw.
  destruct (add_current now 1 c key (redis s) Hc) as [Hn Hother]. fold w in Hn, Hother. cbn [exec count_op sent count]. fold w.
  unfold sliding_increment, try_catch, incrementAndReadPrevious, command, mbind, M_bind. destruct (redis_fails (commands s)); [by split_and!|].
  fold w. pose proof (holds_value _ _ _ (Hc key w ltac:(lia))) as Hv. set (K := window_key pre key w) in *.
  assert (add_to now 1 K (redis s) = ((add_to now 1 K (redis s)).1, c key w + 1)) as -> by (unfold add_to; cbn; by rewrite Hv).
  set (r1 := (add_to now 1 K (redis s)).1) in *. cbn beta iota.
  set (r2 := if bool_decide (c key w + 1 = 1) then set_expiry now (W * 2) K r1 else r1).
  assert (holds (c key w + 1) w (look now r2 K) ∧ ∀ k, k ≠ K → look now r2 k = look now (redis s) k) as [Hn2 Hother2].
  { unfold r2. destruct (bool_decide (c key w + 1 = 1)); [|done]. unfold set_expiry.
    destruct (look now r1 K) as [[v e]|] eqn:E; [|by rewrite E]. destruct Hn as [-> _].
    split; [|intros k Hk; rewrite look_store, bool_decide_false by done; by apply Hother].
    rewrite look_store, bool_decide_true by done. cbn [alive]. rewrite bool_decide_true by lia. split; [done|]. intros t [= <-]. lia. }
  clearbody r2. cbn. split_and!; [|done|by eapply counts_set].
  do 2 f_equal. fold K in Hother2. rewrite Hother2 by (intros E; apply window_key_inj in E as [_ E]; lia). apply (holds_value _ (w - 1)), Hc. lia.
Qed.

Lemma look_del now ks (r : R) k :
  look now (foldr (λ k, store_at now k None) r ks) k = if bool_decide (k ∈ ks) then None else look now r k.
Proof.
  induction ks as [|k' ks IH]; cbn [foldr]; [by rewrite bool_decide_false by apply not_elem_of_nil|].
  rewrite look_store. destruct (bool_decide_reflect (k = k')) as [->|Hne]; [by rewrite bool_decide_true by left|].
  rewrite IH. rewrite (bool_decide_ext (k ∈ k' :: ks) (k ∈ ks)) by (rewrite elem_of_cons; tauto). done.
Qed.

Lemma decrement_counts now key c s : counts now c (redis s) →
  commands (exec now (Decrement key) s).1 = sent (count_op now (Decrement key) (mkTally (commands s) c)).1 ∧
  counts now (count (count_op now (Decrement key) (mkTally (commands s) c)).1) (redis (exec now (Decrement key) s).1).
Proof.
  intros Hc. set (w := window_id W now). pose proof (window_id_bounds now) as Hw. fold w in Hw.
  destruct (add_current now (-1) c key (redis s) Hc) as [Hn Hother]. fold w in Hn, Hother. cbn [exec count_op sent count]. fold w.
  unfold sliding_decrement, try_catch, decr, command, mbind, M_bind. destruct (redis_fails (commands s)); [by split_and!|].
  fold w. pose proof (holds_value _ _ _ (Hc key w ltac:(lia))) as Hv. set (K := window_key pre key w) in *.
  assert (add_to now (-1) K (redis s) = ((add_to now (-1) K (redis s)).1, c key w - 1)) as -> by (unfold add_to; cbn; by rewrite Hv).
  set (r1 := (add_to now (-1) K (redis s)).1) in *. cbn beta iota.
  destruct (bool_decide_reflect (1 < c key w)) as [H1|H1].
  { rewrite bool_decide_false by lia. cbn. split; [done|]. by eapply counts_set. }
  rewrite bool_decide_true by lia. unfold del, command. cbn [redis commands]. destruct (redis_fails (S (commands s))); cbn; (split; [done|]); eapply counts_set; try done.
  - intros k Hk. rewrite look_store, bool_decide_false by done. by apply Hother.
  - fold K. by rewrite look_store, bool_decide_true.
Qed.

Lemma reset_counts now key c s : counts now c (redis s) →
  commands (exec now (ResetKey key) s).1 = sent (count_op now (ResetKey key) (mkTally (commands s) c)).1 ∧
  counts now (count (count_op now (ResetKey key) (mkTally (commands s) c)).1) (redis (exec now (ResetKey key) s).1).
Proof.
  intros Hc. cbn [exec count_op sent count]. unfold sliding_resetKey, try_catch, del, command.
  destruct (redis_fails (commands s)); [by split|]. cbn [fst redis commands foldr]. split; [done|]. set (w := window_id W now).
  apply (counts_set _ _ (store_at now (window_key pre key (w - 1)) None (redis s))).
  - apply (counts_set _ _ (redis s)); [done| |by rewrite look_store, bool_decide_true].
    intros k Hk. by rewrite look_store, bool_decide_false.
  - intros k Hk. by rewrite look_store, bool_decide_false.
  - by rewrite look_store, bool_decide_true.
Qed.

Lemma exec_counts now op c s : counts now c (redis s) →
  let t := (count_op now op (mkTally (commands s) c)).1 in
  (exec now op s).2 = (count_op now op (mkTally (commands s) c)).2 ∧ commands (exec now op s).1 = sent t ∧ counts now (count t) (redis (exec now op s).1).
Proof.
  intros Hc. destruct op as [key|key|key]; [by apply increment_counts| |].
  - split; [|by apply decrement_counts]. cbn. repeat case_match; done.
  - split; [done|by apply reset_counts].
Qed.

Lemma run_counts t ops c s : counts t c (redis s) → in_order t ops → (run exec ops s).2 = (run count_op ops (mkTally (commands s) c)).2.
Proof.
  revert t c s. induction ops as [|[now op] ops IH]; intros t c s Hc Ho; [done|]. destruct Ho as [Ht Ho].
  destruct (exec_counts now op c s (counts_later _ _ _ _ Ht Hc)) as (Ex & En & Hc1). cbn [run].
  destruct (exec now op s) as [s1 x], (count_op now op (mkTally (commands s) c)) as [[n1 c1] y]. cbn [fst snd sent count] in *. subst x n1.
  specialize (IH now _ s1 Hc1 Ho). destruct (run exec ops s1), (run count_op ops _). cbn [snd] in *. by rewrite IH.
Qed.

(** *** Hits only *)

(** The hits of a key in a window. *)
Definition hits (log : list (Z * string)) (key : string) (w : Z) : Z :=
  Z.of_nat (length (filter (λ h, h.2 = key ∧ window_id W h.1 = w) log)).

Lemma hits_nonneg log key w : 0 ≤ hits log key w.
Proof. unfold hits. lia. Qed.

Lemma hits_snoc log now k key w : hits (log ++ [(now, k)]) key w = hits log key w + if bool_decide (k = key ∧ window_id W now = w) then 1 else 0.
Proof.
  unfold hits. rewrite filter_app, length_app, filter_cons, filter_nil. simpl.
  destruct (decide (k = key ∧ window_id W now = w)) as [Hd|Hd]; [rewrite bool_decide_true by done|rewrite bool_decide_false by done]; simpl; lia.
Qed.

(** What a hit is answered, by the log before it. *)
Definition expected_hits (before : list (Z * string)) (now : Z) (key : string) : Z :=
  let w := window_id W now in estimate W now (hits before key w + 1) (hits before key (w - 1)).

Fixpoint expected (before log : list (Z * string)) : list Z :=
  match log with
  | [] => []
  | (now, key) :: log => expected_hits before now key :: expected (before ++ [(now, key)]) log
  end.

Definition as_ops (log : list (Z * string)) : list (Z * Op) := (λ h, (h.1, Increment h.2)) <$> log.

Lemma count_hits n before c log : (∀ n, redis_fails n = false) → (∀ key w, c key w = hits before key w) →
  (run count_op (as_ops log) (mkTally n c)).2 = Some <$> expected before log.
Proof.
  intros Hup. revert n before c. induction log as [|[now key] log IH]; intros n before c Hc; [done|].
  cbn [as_ops fmap list_fmap List.map run count_op fst snd sent count expected]. rewrite Hup. fold (as_ops log).
  specialize (IH (S n) (before ++ [(now, key)]) (set_count key (window_id W now) (c key (window_id W now) + 1) c)).
  destruct (run count_op _ _). cbn [snd] in *. rewrite IH; [by rewrite !Hc|]. intros key' w. rewrite hits_snoc. unfold set_count. rewrite Hc.
  destruct (bool_decide_reflect (key' = key ∧ w = window_id W now)) as [[-> ->]|Hne]; [by rewrite bool_decide_true|].
  rewrite bool_decide_false by naive_solver. rewrite Hc. lia.
Qed.


(** Within one window at most [limit] hits of a key are let through. *)
Definition passed (limit : Z) (log : list (Z * string)) (answers : list Z) (key : string) (w : Z) : Z :=
  Z.of_nat (length (filter (λ x, (x.1.2 = key ∧ window_id W x.1.1 = w) ∧ x.2 ≤ limit) (zip log answers))).

Lemma estimate_ge now c p : 0 ≤ p → c ≤ estimate W now c p.
Proof.
  intros Hp. unfold estimate, ceil_div. cbv zeta. set (x := p * _).
  assert (0 ≤ x) by (unfold x; apply Z.mul_nonneg_nonneg; lia). pose proof (Z.div_le_upper_bound (- x) W 0 HW ltac:(lia)). lia.
Qed.

Lemma window_limit limit before log key w : 0 ≤ limit →
  passed limit log (expected before log) key w ≤ Z.max 0 (limit - hits before key w).
Proof.
  intros Hl. revert before. induction log as [|[now k] log IH]; intros before; [unfold passed; simpl; lia|].
  specialize (IH (before ++ [(now, k)])). unfold passed in *. cbn [expected zip zip_with]. rewrite filter_cons. rewrite hits_snoc in IH. simpl in *.
  assert (hits before k (window_id W now) + 1 ≤ expected_hits before now k) as He by (apply estimate_ge, hits_nonneg).
  pose proof (hits_nonneg before key w).
  destruct (decide ((k = key ∧ window_id W now = w) ∧ expected_hits before now k ≤ limit)) as [[Hk Hle]|Hno].
  - rewrite bool_decide_true in IH by done. destruct Hk as [<- <-]. cbn [length]. lia.
  - case_bool_decide; lia.
Qed.
End sliding_spec.

(** ** The wrapper *)

Section failover_spec.
Context {P F A : Type} (interval : Z) (opP : Z → string → M P A) (opF : Z → string → M F A).

(** Requests with their instants and what the health check, if one is due,
    gives. *)
Definition request : Type := Z * option (result bool) * string.

Fixpoint failover_run (reqs : list request) (s : Failover P F) : Failover P F * list (result A) :=
  match reqs with
  | [] => (s, [])
  | (now, check, key) :: reqs =>
      let '(s1, r) := with_failover interval now check (opP now key) (opF now key) s in
      let '(s2, rs) := failover_run reqs s1 in (s2, r :: rs)
  end.

Fixpoint store_run {S} (op : Z → string → M S A) (reqs : list request) (s : S) : S * list (result A) :=
  match reqs with
  | [] => (s, [])
  | (now, _, key) :: reqs => let '(s1, r) := op now key s in let '(s2, rs) := store_run op reqs s1 in (s2, r :: rs)
  end.

Lemma ensure_stores now check (s : Failover P F) :
  primary (ensurePrimaryHealthy interval now check s) = primary s ∧ fallback (ensurePrimaryHealthy interval now check s) = fallback s.
Proof. unfold ensurePrimaryHealthy. case_bool_decide; [done|]. by destruct check as [[[]|]|]. Qed.

(** One request while the primary store throws. *)
Lemma failover_step_down now check key s f' a : (∃ p e, opP now key (primary s) = (p, Throw e)) → opF now key (fallback s) = (f', Ok a) →
  ∃ s', with_failover interval now check (opP now key) (opF now key) s = (s', Ok a) ∧ fallback s' = f'.
Proof.
  intros (p & e & Hp) Hf. unfold with_failover. cbv zeta. destruct (ensure_stores now check s) as [E1 E2].
  destruct (isPrimaryHealthy _).
  - rewrite E1, Hp. simpl. rewrite E2, Hf. eauto.
  - rewrite E2, Hf. simpl. eauto.
Qed.

(** While the primary store throws and the fallback works, requests are
    counted as by the fallback alone: each once, whatever the health checks say
    and however the wrapper switches. *)
Theorem failover_counts_all reqs s : (∀ now key p, ∃ p' e, opP now key p = (p', Throw e)) →
  (∀ now key f, ∃ f' a, opF now key f = (f', Ok a)) →
  (failover_run reqs s).2 = (store_run opF reqs (fallback s)).2 ∧ fallback (failover_run reqs s).1 = (store_run opF reqs (fallback s)).1.
Proof.
  intros Hp Hf. revert s. induction reqs as [|[[now check] key] reqs IH]; intros s; [done|]. cbn [failover_run store_run].
  destruct (Hf now key (fallback s)) as (f' & a & E). destruct (failover_step_down now check key s f' a (Hp now key (primary s)) E) as (s1 & E1 & Es).
  rewrite E1, E. specialize (IH s1). rewrite Es in IH. destruct (failover_run reqs s1) as [s2 rs], (store_run opF reqs f') as [f2 rs'].
  simpl in *. destruct IH as [-> ->]. done.
Qed.

(** A primary store that works and is found healthy is the only one used. *)
Lemma failover_primary_only reqs s : (∀ now key p, ∃ p' a, opP now key p = (p', Ok a)) → isPrimaryHealthy s = true →
  Forall (λ q : request, q.1.2 = None ∨ q.1.2 = Some (Ok true)) reqs →
  (failover_run reqs s).2 = (store_run opP reqs (primary s)).2 ∧ fallback (failover_run reqs s).1 = fallback s.
Proof.
  intros Hp. revert s. induction reqs as [|[[now check] key] reqs IH]; intros s Hh Hc; [done|]. apply Forall_cons in Hc as [Hc Hcs].
  cbn [failover_run store_run]. destruct (Hp now key (primary s)) as (p' & a & E). unfold with_failover. cbv zeta.
  destruct (ensure_stores now check s) as [E1 E2].
  assert (isPrimaryHealthy (ensurePrimaryHealthy interval now check s) = true) as ->.
  { unfold ensurePrimaryHealthy. case_bool_decide; [done|]. simpl in Hc. by destruct Hc as [-> | ->]. }
  rewrite E1, E. set (s1 := set_healthy true _). specialize (IH s1 eq_refl Hcs). unfold s1 in IH at 2 4. simpl in IH.
  destruct (failover_run reqs s1) as [s2 rs], (store_run opP reqs p') as [p2 rs']. simpl in *. destruct IH as [-> ->]. by rewrite E2.
Qed.
End failover_spec.

(** ** Reset *)

(** A reset whose commands reach Redis forgets every key with the prefix of the
    store and no other; one whose commands fail changes nothing.  It never
    throws. *)
Theorem reset_all_spec `{Redis R} pre now (s : RedisState R) :
  let '(s', res) := resetAll pre now s in
  res = Ok tt ∧
  (redis_fails (commands s) = false → redis_fails (S (commands s)) = false →
   ∀ k, look now (redis s') k = if String.prefix pre k then None else look now (redis s) k) ∧
  (redis_fails (commands s) = true ∨ redis_fails (S (commands s)) = true → redis s' = redis s).
Proof.
  unfold resetAll, try_catch, keys, del, command, mbind, M_bind. destruct (redis_fails (commands s)) eqn:F1; [by split_and!|].
  assert (∀ k, k ∈ List.filter (String.prefix pre) (keys_of now (redis s)) ↔ String.prefix pre k = true ∧ is_Some (look now (redis s) k)) as Hk.
  { intros k. rewrite elem_of_bfilter, keys_of_spec. done. }
  destruct (List.filter (String.prefix pre) (keys_of now (redis s))) as [|k0 ks] eqn:Eks.
  - split_and!; [done| |done]. intros _ _ k. cbn [redis mret M_ret fst]. destruct (String.prefix pre k) eqn:Ep; [|done].
    destruct (look now (redis s) k) eqn:El; [|done]. exfalso. apply (not_elem_of_nil k), Hk. by rewrite El.
  - cbn [commands redis]. destruct (redis_fails (S (commands s))) eqn:F2; [by split_and!|]. split_and!; [done| |by intros [?|?]].
    intros _ _ k. cbn [redis]. rewrite look_del. destruct (String.prefix pre k) eqn:Ep.
    + destruct (bool_decide_reflect (k ∈ k0 :: ks)) as [|Hn]; [done|]. destruct (look now (redis s) k) eqn:El; [|done].
      exfalso. apply Hn, Hk. by rewrite El.
    + rewrite bool_decide_false; [done|]. intros [Hp _]%Hk. congruence.
Qed.

(** ** Redis down *)

(** The Redis store answers every request as the first one, and does not throw,
    when no command reaches Redis. *)
Lemma fixed_increment_down `{Redis R} pre W now key (s : RedisState R) : (∀ n, redis_fails n = true) →
  ∃ s', fixed_increment pre W now key s = (s', Ok (mkResponse 1 (now + W))).
Proof. intros Hd. unfold fixed_increment, try_catch, incr, command, mbind, M_bind. rewrite Hd. eauto. Qed.

(** So the wrapper does not fall back: until the next health check every request
    is answered as the first of its window, and is let through. *)
Lemma redis_down_unlimited `{Redis R} {F} pre W interval (opF : Z → string → M F IncrementResponse) reqs (s : Failover (RedisState R) F) :
  (∀ n, redis_fails n = true) → isPrimaryHealthy s = true → Forall (λ q : request, q.1.1 - lastHealthCheck s < interval) reqs →
  Forall (λ r, ∃ t, r = Ok (mkResponse 1 t)) (failover_run interval (fixed_increment pre W) opF reqs s).2.
Proof.
  intros Hd. revert s. induction reqs as [|[[now check] key] reqs IH]; intros s Hh Ht; [constructor|]. apply Forall_cons in Ht as [Ht Hts].
  cbn [failover_run]. unfold with_failover, ensurePrimaryHealthy. cbv zeta. simpl in Ht. rewrite bool_decide_true by done. rewrite Hh.
  destruct (fixed_increment_down pre W now key (primary s) Hd) as (p & ->). set (s1 := set_healthy true _).
  specialize (IH s1 eq_refl Hts). destruct (failover_run _ _ _ reqs s1) as [s2 rs]. constructor; [eauto|exact IH].
Qed.

(** And after a health check that failed, the first request that the fallback
    counts makes the wrapper take Redis for healthy again. *)
Lemma fallback_marks_healthy : let s := mkFailover tt 0 false 0 in
  isPrimaryHealthy (with_failover 30000 1 None (λ p, (p, Throw ConnectionLost)) (λ n, (n + 1, Ok (n + 1))) s).1 = true.
Proof. reflexivity. Qed.

(** ** A concrete Redis *)

Definition redis_model (up : bool) : Redis (gmap string (Z * option Z)).
Proof.
  refine {| redis_fails := λ _, negb up; look := λ now r k, alive now (r !! k);
            store_at := λ now k x r, match x with Some v => <[k := v]> r | None => delete k r end;
            keys_of := λ now r, fst <$> filter (λ kv, is_Some (alive now (Some kv.2))) (map_to_list r) |}.
  - intros now r k. destruct (r !! k) as [[v [e|]]|]; simpl; [|done|done]. case_bool_decide as E; simpl; [by rewrite bool_decide_true|done].
  - intros now now' r k Hn. destruct (r !! k) as [[v [e|]]|]; simpl; [|done|done].
    destruct (bool_decide_reflect (now < e)); simpl; [done|]. by rewrite bool_decide_false by lia.
  - intros now r k k' x. case_bool_decide; subst; destruct x as [v|];
      [by rewrite lookup_insert_eq|by rewrite lookup_delete_eq|by rewrite lookup_insert_ne|by rewrite lookup_delete_ne].
  - intros now r k. rewrite list_elem_of_fmap. split.
    + intros ([k' v] & -> & [Ha Hin]%list_elem_of_filter). apply elem_of_map_to_list in Hin. cbn in *. by rewrite Hin.
    + destruct (r !! k) as [v|] eqn:E; [|by intros [? ?]]. intros Ha. exists (k, v). split; [done|]. apply list_elem_of_filter.
      split; [done|]. by apply elem_of_map_to_list.
Defined.

(** The same, of which one command fails. *)
Definition redis_failing_at (i : nat) : Redis (gmap string (Z * option Z)) :=
  let up := redis_model true in
  {| redis_fails := λ n, bool_decide (n = i); look := @look _ up; store_at := @store_at _ up; keys_of := @keys_of _ up;
     look_alive := @look_alive _ up; look_later := @look_later _ up; look_store := @look_store _ up; keys_of_spec := @keys_of_spec _ up |}.

Section runs.
#[local] Existing Instance redis_model.

Definition six_hits : list (Z * string) := [(59000, "a"); (59000, "a"); (59500, "b"); (61000, "a"); (75000, "a"); (119000, "a")].

(** A request that is taken back, one whose command fails, and a reset. *)
Definition six_calls : list (Z * Op) :=
  [(59000, Increment "a"); (59100, Increment "a"); (59200, Decrement "a"); (59300, Increment "a"); (61000, Increment "a"); (62000, ResetKey "a"); (63000, Increment "a")].


Lemma failover_counts_all_witness : let reqs := [(1, Some (Ok true), "a"); (2, None, "a"); (40000, Some (Ok false), "a")] in
  (failover_run 30000 (λ _ _ p, (p, Throw ConnectionLost)) (λ _ _ n, (n + 1, Ok (n + 1))) reqs (mkFailover tt 0 true 0)).2 = [Ok 1; Ok 2; Ok 3].
Proof.
  apply (failover_counts_all 30000 (λ _ _ p, (p, Throw ConnectionLost)) (λ _ _ n, (n + 1, Ok (n + 1)))
    [(1, Some (Ok true), "a"); (2, None, "a"); (40000, Some (Ok false), "a")] (mkFailover tt 0 true 0)); eauto.
Defined.

(** Nearly twice the limit still gets through within one window's time: a
    hundred hits at the end of a window and ninety-six in the next, 59 seconds
    after them. *)
Lemma sliding_burst : let log := replicate 100 (59000, "a") ++ replicate 100 (117900, "a") in
  length (List.filter (λ h, bool_decide (h ≤ 100)) (expected 60000 [] log)) = 196%nat.
Proof. vm_compute. reflexivity. Qed.
End runs.
