(* ===== verification/AdaptiveRateLimit.v ===== *)
(** * Adaptive limits: [server/src/middleware/adaptiveRateLimit.middleware.ts]

    The limit of a request depends on the load of the last second and on the
    tier of the user; it is meant to depend on the reputation of the address.
    Scores and multipliers are rationals.  The reputations kept in Redis are not
    modelled, the map that is used without Redis is. *)

From stdpp Require Import prelude gmap strings list.
From Stdlib Require Import QArith Qround Qminmax Lqa.
From S2P Require Import Prelude.

#[local] Open Scope Z_scope.

Definition HIGH_LOAD_THRESHOLD_RPS : Z := 5000.
Definition CRITICAL_LOAD_THRESHOLD_RPS : Z := 15000.
Definition HIGH_LOAD_MULTIPLIER : Q := 1 # 2.
Definition CRITICAL_LOAD_MULTIPLIER : Q := 1 # 5.
Definition NORMAL_MULTIPLIER : Q := 1.
Definition ABUSE_THRESHOLD : Q := 2 # 5.
Definition ABUSE_PENALTY_MULTIPLIER : Q := 3 # 10.

(** [TIER_MULTIPLIERS[tier] ?? 1] *)
Definition tier_multiplier (tier : string) : Q :=
  if bool_decide (tier = "enterprise") then 10 else if bool_decide (tier = "premium") then 3 else 1.

(** The variables of the module. *)
Record Load := mkLoad { requestCount : Z; currentLoadMultiplier : Q; currentRps : Z; ipReputationFallback : gmap string Q }.

Definition new_load : Load := mkLoad 0 NORMAL_MULTIPLIER 0 ∅.

(** The timer that runs every second. *)
Definition load_tick (s : Load) : Load :=
  let rps := requestCount s in
  mkLoad 0
    (if bool_decide (CRITICAL_LOAD_THRESHOLD_RPS ≤ rps) then CRITICAL_LOAD_MULTIPLIER
     else if bool_decide (HIGH_LOAD_THRESHOLD_RPS ≤ rps) then HIGH_LOAD_MULTIPLIER else NORMAL_MULTIPLIER)
    rps (ipReputationFallback s).

Definition setIpReputation (ip : string) (score : Q) (s : Load) : Load :=
  mkLoad (requestCount s) (currentLoadMultiplier s) (currentRps s) (<[ip := Qmax 0 (Qmin 1 score)]> (ipReputationFallback s)).

Definition getIpReputation (ip : string) (s : Load) : Q := default 1%Q (ipReputationFallback s !! ip).

Definition stats_tier (s : Load) : string :=
  if Qeq_bool (currentLoadMultiplier s) CRITICAL_LOAD_MULTIPLIER then "critical"
  else if Qeq_bool (currentLoadMultiplier s) HIGH_LOAD_MULTIPLIER then "high" else "normal".

(** A comparison whose left side is a promise: the promise is converted to a
    text that is no number, and the comparison is false. *)
Definition promise_less {A} (promise : A) (x : Q) : bool := false.

Record Caller := mkCaller { cl_userId : option string; cl_tier : option string; cl_role : option string; cl_ip : option string }.

(** [limit(req)]: the reputation is the promise of an [async] function. *)
Definition limit (baseLimit : Z) (req : Caller) (s : Load) : Load * Z :=
  let s := mkLoad (requestCount s + 1) (currentLoadMultiplier s) (currentRps s) (ipReputationFallback s) in
  let tierMult := tier_multiplier (default "free" (cl_tier req)) in
  let repScore := getIpReputation (default "" (cl_ip req)) s in
  let repMult := if promise_less repScore ABUSE_THRESHOLD then ABUSE_PENALTY_MULTIPLIER else 1%Q in
  (s, Z.max 1 (Qfloor (inject_Z baseLimit * currentLoadMultiplier s * tierMult * repMult))).

Definition keyGenerator (req : Caller) : string :=
  match truthy_str (cl_userId req) with Some u => "user:" +:+ u | None => "ip:" +:+ default "unknown" (cl_ip req) end.

Definition skip (req : Caller) : bool := bool_decide (cl_role req = Some "ADMIN").

(** ** What holds *)

Inductive load_event := Request (base : Z) (req : Caller) | Tick | SetReputation (ip : string) (score : Q).

Definition load_step (s : Load) (e : load_event) : Load :=
  match e with Request base req => (limit base req s).1 | Tick => load_tick s | SetReputation ip score => setIpReputation ip score s end.

Definition load_run (es : list load_event) : Load := foldl load_step new_load es.

Definition multiplier_of (rps : Z) : Q :=
  if bool_decide (CRITICAL_LOAD_THRESHOLD_RPS ≤ rps) then CRITICAL_LOAD_MULTIPLIER
  else if bool_decide (HIGH_LOAD_THRESHOLD_RPS ≤ rps) then HIGH_LOAD_MULTIPLIER else NORMAL_MULTIPLIER.

Lemma load_run_multiplier es : let s := load_run es in currentLoadMultiplier s = multiplier_of (currentRps s) ∧ 0 ≤ requestCount s ∧ 0 ≤ currentRps s.
Proof.
  cbv zeta. unfold load_run. induction es as [|e es IH] using rev_ind; [split; [reflexivity|simpl; lia]|]. rewrite foldl_snoc.
  set (s := foldl load_step new_load es) in *. destruct e; simpl; split; try tauto; lia.
Qed.

Lemma multiplier_range rps : (1 # 5 <= multiplier_of rps <= 1)%Q.
Proof. unfold multiplier_of. repeat case_bool_decide; split; discriminate. Qed.

Lemma tier_range tier : (1 <= tier_multiplier tier <= 10)%Q.
Proof. unfold tier_multiplier. repeat case_bool_decide; split; discriminate. Qed.

(** Whatever the load, a caller gets at least one request per window, at least a
    fifth of the base limit (rounded down) and at most ten times the base. *)
Lemma adaptive_limit_bounds es base req : 0 ≤ base → let l := (limit base req (load_run es)).2 in
  1 ≤ l ∧ base / 5 ≤ l ≤ Z.max 1 (10 * base).
Proof.
  intros Hb. cbv zeta. destruct (load_run_multiplier es) as [Hm _]. unfold limit, promise_less. cbn [snd currentLoadMultiplier]. rewrite Hm.
  pose proof (multiplier_range (currentRps (load_run es))) as [Hm1 Hm2]. pose proof (tier_range (default "free" (cl_tier req))) as [Ht1 Ht2].
  set (mu := multiplier_of _) in *. set (ti := tier_multiplier _) in *. assert (0 <= inject_Z base)%Q as Hb' by (change 0%Q with (inject_Z 0); by rewrite <-Zle_Qle).
  assert (1 # 5 <= mu * ti <= 10)%Q as [Hx1 Hx2] by (split; nra). set (x := (mu * ti)%Q) in *.
  assert (inject_Z base * mu * ti * 1 == inject_Z base * x)%Q as Ex by (unfold x; ring).
  assert (inject_Z base * (1 # 5) <= inject_Z base * mu * ti * 1)%Q as Hlo by (rewrite Ex; nra).
  assert (inject_Z base * mu * ti * 1 <= inject_Z (10 * base))%Q as Hhi by (rewrite Ex, inject_Z_mult; change (inject_Z 10) with 10%Q; nra).
  apply Qfloor_resp_le in Hlo, Hhi. rewrite Qfloor_Z in Hhi.
  assert (Qfloor (inject_Z base * (1 # 5)) = base / 5) as E by (unfold Qfloor, inject_Z, Qmult; simpl; by rewrite Z.mul_1_r).
  rewrite E in Hlo. lia.
Qed.

(** The reputation of an address has no influence on the limit. *)
Lemma reputation_ignored base req ip score s : (limit base req (setIpReputation ip score s)).2 = (limit base req s).2.
Proof. reflexivity. Qed.
