(* ===== verification/ObjectLib.v ===== *)
(** * Object library

    [frontend/src/lib/object.ts]: deep merge, equality and difference, access by
    path, and the transformations of objects.

    Values are the plain data these functions are made for: JSON values,
    [undefined] and dates.  Objects are association lists of their own
    enumerable keys in order of creation, so keys are not array indices and not
    [__proto__], and nothing is read from a prototype.  Arrays are dense.  No
    object occurs twice in a value, nor in two arguments of a call: [===] on
    objects is false.  ([deepEqual_refl] shows that this changes no answer
    unless a value has a NaN in it.) *)

From Stdlib Require Import Ascii.
From stdpp Require Import prelude strings list pretty.
From S2P Require Import Prelude JsText Json.

(** A number is given by its text, a date by its [getTime()], [None] for NaN. *)
Inductive value :=
| VUndefined
| VNull
| VBool (b : bool)
| VNum (text : string)
| VStr (s : string)
| VDate (time : option Z)
| VArr (l : list value)
| VObj (l : jsmap value).

(** The induction principle with the elements of arrays and objects. *)
Section value_ind.
Context (P : value → Prop).
Context (Hundef : P VUndefined) (Hnull : P VNull) (Hbool : ∀ b, P (VBool b)) (Hnum : ∀ t, P (VNum t))
  (Hstr : ∀ s, P (VStr s)) (Hdate : ∀ t, P (VDate t)) (Harr : ∀ l, Forall P l → P (VArr l)) (Hobj : ∀ l, Forall (P ∘ snd) l → P (VObj l)).

Fixpoint value_induction (v : value) : P v :=
  match v with
  | VUndefined => Hundef
  | VNull => Hnull
  | VBool b => Hbool b
  | VNum t => Hnum t
  | VStr s => Hstr s
  | VDate t => Hdate t
  | VArr l => Harr l ((fix go l := match l return Forall P l with
                       | [] => Forall_nil_2 _
                       | x :: l' => Forall_cons_2 _ _ _ (value_induction x) (go l')
                       end) l)
  | VObj l => Hobj l ((fix go l := match l return Forall (P ∘ snd) l with
                       | [] => Forall_nil_2 _
                       | x :: l' => Forall_cons_2 _ _ _ (value_induction x.2) (go l')
                       end) l)
  end.
End value_ind.

(** ** What the language does with values *)

(** [typeof v === "object" && v !== null] *)
Definition is_object (v : value) : bool :=
  match v with VDate _ | VArr _ | VObj _ => true | _ => false end.

(** [Array.isArray(v)] *)
Definition is_array (v : value) : bool := match v with VArr _ => true | _ => false end.

(** [a === b] *)
Definition strict_equal (a b : value) : bool :=
  match a, b with
  | VUndefined, VUndefined | VNull, VNull => true
  | VBool x, VBool y => bool_decide (x = y)
  | VNum x, VNum y => bool_decide (x = y) && negb (bool_decide (x = "NaN"))
  | VStr x, VStr y => bool_decide (x = y)
  | _, _ => false
  end.

(** The text of an index. *)
Definition index_text (i : nat) : string := pretty i.

(** The index a key of an array stands for, below a bound. *)
Fixpoint index_below (key : string) (n : nat) : option nat :=
  match n with
  | O => None
  | S n => if bool_decide (index_text n = key) then Some n else index_below key n
  end.

(** [v[key]] of an object *)
Definition prop (key : string) (v : value) : value :=
  match v with
  | VObj l => default VUndefined (map_get key l)
  | VArr l =>
      if bool_decide (key = "length") then VNum (index_text (length l))
      else default VUndefined (i ← index_below key (length l); l !! i)
  | _ => VUndefined
  end.

(** [Object.keys(v)] *)
Definition own_keys (v : value) : list string :=
  match v with
  | VArr l => index_text <$> seq 0 (length l)
  | VObj l => map_keys l
  | _ => []
  end.

(** [{ ...v }] of an object that is no array *)
Definition spread (v : value) : jsmap value := match v with VObj l => l | _ => [] end.

(** [Object.fromEntries] *)
Definition fromEntries {V} (l : list (string * V)) : jsmap V := foldl (λ m kv, map_set kv.1 kv.2 m) [] l.

(** ** [deepMerge] *)

(** [deepMerge(target, source)] for [output = { ...target }]; the condition of
    the recursive call is that both sides are objects and no arrays. *)
Fixpoint deepMerge (target source : value) : value :=
  let step (output : jsmap value) (kv : string * value) : jsmap value :=
    let '(key, srcVal) := kv in
    let tgtVal := default VUndefined (map_get key output) in
    if is_object srcVal && negb (is_array srcVal) && is_object tgtVal && negb (is_array tgtVal)
    then map_set key (deepMerge tgtVal srcVal) output
    else map_set key srcVal output in
  VObj (match source with
        | VObj l => foldl step (spread target) l
        | _ => spread target
        end).

(** ** [deepEqual] *)

Fixpoint deepEqual (a b : value) {struct a} : bool :=
  if strict_equal a b then true
  else match a, b with
  | VDate (Some t1), VDate (Some t2) => bool_decide (t1 = t2)
  | VDate _, VDate _ => false
  | _, _ =>
      if negb (is_object a) || negb (is_object b) then false
      else if negb (bool_decide (is_array a = is_array b)) then false
      else if negb (bool_decide (length (own_keys a) = length (own_keys b))) then false
      else match a with
      | VArr l => (fix every (i : nat) (l : list value) := match l with
                   | [] => true
                   | x :: l' => deepEqual x (prop (index_text i) b) && every (S i) l'
                   end) O l
      | VObj l => (fix every (l : jsmap value) := match l with
                   | [] => true
                   | (key, x) :: l' => deepEqual x (prop key b) && every l'
                   end) l
      | _ => true
      end
  end.

(** ** [shallowDiff] *)

Record DeepDiffResult := mkDiff {
  added : jsmap value;
  removed : jsmap value;
  changed : jsmap (value * value);
}.

(** One round of the loop; the sets of keys are given by the two objects. *)
Definition diff_step (prev next : jsmap value) (d : DeepDiffResult) (key : string) : DeepDiffResult :=
  match map_get key prev, map_get key next with
  | None, v => mkDiff (map_set key (default VUndefined v) (added d)) (removed d) (changed d)
  | Some v, None => mkDiff (added d) (map_set key v (removed d)) (changed d)
  | Some v, Some w =>
      if negb (deepEqual v w) then mkDiff (added d) (removed d) (map_set key (v, w) (changed d)) else d
  end.

Definition shallowDiff (prev next : jsmap value) : DeepDiffResult :=
  foldl (diff_step prev next) (mkDiff [] [] []) (dedupe (map_keys prev ++ map_keys next)).

(** ** [pick] and [omit] *)

Definition pick (obj : jsmap value) (keys : list string) : jsmap value :=
  foldl (λ result key, match map_get key obj with Some v => map_set key v result | None => result end) [] keys.

Definition omit (obj : jsmap value) (keys : list string) : jsmap value :=
  foldl (λ result key, map_delete key result) obj keys.

(** ** [getIn] and [setIn] *)

Definition dot : ascii := "."%char.

Fixpoint get_path (segments : list string) (current defaultValue : value) : value :=
  match segments with
  | [] => match current with VUndefined => defaultValue | _ => current end
  | seg :: rest => if is_object current then get_path rest (prop seg current) defaultValue else defaultValue
  end.

Definition getIn (obj : jsmap value) (path : string) (defaultValue : value) : value :=
  get_path (split dot path) (VObj obj) defaultValue.

(** [current[key] = v].  [None] when that leaves the data described here: an
    array with a hole or with a key that is no index, a date with a key. *)
Definition write (key : string) (v : value) (current : value) : option value :=
  match current with
  | VObj l => Some (VObj (map_set key v l))
  | VArr l =>
      match index_below key (S (length l)) with
      | Some i => Some (VArr (if bool_decide (i = length l) then l ++ [v] else <[i := v]> l))
      | None => None
      end
  | _ => None
  end.

(** The loop goes down the path and assigns the last segment; an object below
    is changed in place, which is writing it back. *)
Fixpoint set_path (segments : list string) (v : value) (current : value) : option value :=
  match segments with
  | [] => Some v
  | seg :: rest =>
      let child := match rest with
                   | [] => VUndefined
                   | _ => if is_object (prop seg current) then prop seg current else VObj []
                   end in
      child' ← set_path rest v child;
      write seg child' current
  end.

(** The result of cloning first is the same: values are not shared. *)
Definition setIn (obj : jsmap value) (path : string) (v : value) : option (jsmap value) :=
  spread <$> set_path (split dot path) v (VObj obj).

(** ** Inversion and transformation *)

Definition invertObject (obj : jsmap string) : jsmap string := fromEntries ((λ kv, (kv.2, kv.1)) <$> obj).

Definition mapValues {T U} (obj : jsmap T) (fn : T → string → U) : jsmap U :=
  foldl (λ result kv, map_set kv.1 (fn kv.2 kv.1) result) [] obj.

Definition filterObject {T} (obj : jsmap T) (predicate : T → string → bool) : jsmap T :=
  fromEntries (List.filter (λ kv, predicate kv.2 kv.1) obj).

Definition compactObject (obj : jsmap value) : jsmap value :=
  filterObject obj (λ v _, match v with VNull | VUndefined => false | _ => true end).

(** ** Inspection *)

Definition shallowEqual (a b : jsmap value) : bool :=
  bool_decide (length (map_keys a) = length (map_keys b)) &&
  forallb (λ k, strict_equal (default VUndefined (map_get k a)) (default VUndefined (map_get k b))) (map_keys a).

Definition isEmpty (obj : value) : bool := bool_decide (length (own_keys obj) = O).

Definition isPlainObject (v : value) : bool := match v with VObj _ => true | _ => false end.

(** ** What the object library guarantees

    [deepEqual] decides equality up to the order of keys, and so agrees with
    comparing the canonical texts of the audit trail; a difference patches the
    old object into the new one; what is set at a path is read back and nothing
    else moves; merging is stable.  Undefined properties, NaN and dates are
    where the functions part from what they are meant to do. *)

(** ** Keys of arrays *)

Lemma index_text_inj i j : index_text i = index_text j → i = j.
Proof. apply (inj pretty). Qed.

Lemma index_below_Some key n i : index_below key n = Some i → (i < n)%nat ∧ index_text i = key.
Proof. induction n as [|n IH]; simpl; [done|]. case_bool_decide; intros E; [injection E as <-; auto|]. destruct (IH E). auto with lia. Qed.

Lemma index_below_text i n : (i < n)%nat → index_below (index_text i) n = Some i.
Proof.
  induction n as [|n IH]; simpl; [lia|]. intros Hi. case_bool_decide as E.
  - by apply index_text_inj in E as ->.
  - apply IH. destruct (decide (i = n)) as [->|]; [done|lia].
Qed.

Lemma index_below_le key n m i : index_below key n = Some i → (n ≤ m)%nat → index_below key m = Some i.
Proof. intros [Hi <-]%index_below_Some ?. apply index_below_text. lia. Qed.

Lemma index_below_S key n i : index_below key (S n) = Some i → i ≠ n → index_below key n = Some i.
Proof. intros [? <-]%index_below_Some ?. apply index_below_text. lia. Qed.

Lemma index_text_length i : index_text i ≠ "length".
Proof. intros E. pose proof (pretty_nat_digits i) as Hd. change (pretty i) with (index_text i) in Hd. by rewrite E in Hd. Qed.

Lemma prop_index i l : prop (index_text i) (VArr l) = default VUndefined (l !! i).
Proof.
  simpl. rewrite bool_decide_false by apply index_text_length. destruct (decide (i < length l)%nat) as [Hi|Hi].
  - by rewrite index_below_text.
  - rewrite lookup_ge_None_2 by lia. destruct (index_below _ _) as [j|] eqn:E; [|done].
    apply index_below_Some in E as [? ?%index_text_inj]. lia.
Qed.

(** ** [deepEqual] *)

(** What holds of a value and of everything in it. *)
Section everywhere.
Context (P : value → Prop).

Fixpoint everywhere (v : value) : Prop :=
  P v ∧ match v with
  | VArr l => (fix all l := match l with [] => True | x :: l' => everywhere x ∧ all l' end) l
  | VObj l => (fix all (l : jsmap value) := match l with [] => True | (_, x) :: l' => everywhere x ∧ all l' end) l
  | _ => True
  end.

Lemma everywhere_arr l : everywhere (VArr l) ↔ P (VArr l) ∧ Forall everywhere l.
Proof. simpl. apply and_iff_compat_l. induction l as [|x l IH]; [by rewrite Forall_nil|]. by rewrite Forall_cons, IH. Qed.

Lemma everywhere_obj l : everywhere (VObj l) ↔ P (VObj l) ∧ Forall (everywhere ∘ snd) l.
Proof. simpl. apply and_iff_compat_l. induction l as [|[k x] l IH]; [by rewrite Forall_nil|]. by rewrite Forall_cons, IH. Qed.

Lemma everywhere_here v : everywhere v → P v.
Proof. destruct v; simpl; tauto. Qed.

Lemma everywhere_prop l k v : everywhere (VObj l) → map_get k l = Some v → everywhere v.
Proof. rewrite everywhere_obj, Forall_forall. intros [_ H] Hk%map_get_elem. apply (H _ Hk). Qed.
End everywhere.

(** No NaN, no invalid date, unique keys. *)
Definition regular : value → Prop := everywhere (λ v,
  match v with VNum t => t ≠ "NaN" | VDate t => is_Some t | VObj l => NoDup (map_keys l) | _ => True end).

Lemma deepEqual_arr l l' : deepEqual (VArr l) (VArr l') = true ↔ Forall2 (λ x y, deepEqual x y = true) l l'.
Proof.
  simpl. rewrite !length_fmap, !length_seq. destruct (bool_decide_reflect (length l = length l')) as [El|El]; simpl.
  2: { split; [done|]. intros ?%Forall2_length. done. }
  assert (∀ pre, (fix every (i : nat) (l : list value) := match l with
      | [] => true | x :: l'' => deepEqual x (prop (index_text i) (VArr (pre ++ l'))) && every (S i) l'' end) (length pre) l = true
      ↔ Forall2 (λ x y, deepEqual x y = true) l l') as Hev.
  { clear -El. revert l' El. induction l as [|x l IH]; intros [|y l'] El pre; simpl in El; try discriminate El; [by rewrite Forall2_nil|].
    rewrite prop_index, list_lookup_middle by done. rewrite andb_true_iff, Forall2_cons. simpl.
    specialize (IH l' ltac:(lia) (pre ++ [y])). rewrite <- app_assoc, length_app in IH. simpl in IH.
    rewrite Nat.add_1_r in IH. by rewrite IH. }
  apply (Hev []).
Qed.

Lemma deepEqual_obj l l' : deepEqual (VObj l) (VObj l') = true ↔
  length l = length l' ∧ Forall (λ kv, deepEqual kv.2 (default VUndefined (map_get kv.1 l')) = true) l.
Proof.
  simpl. unfold map_keys. rewrite !length_map. destruct (bool_decide_reflect (length l = length l')) as [El|El]; simpl; [|naive_solver].
  assert (∀ l, (fix every (l : jsmap value) := match l with
      | [] => true | (key, x) :: l'' => deepEqual x (prop key (VObj l')) && every l'' end) l = true
      ↔ Forall (λ kv, deepEqual kv.2 (default VUndefined (map_get kv.1 l')) = true) l) as Hev.
  { clear. intros l. induction l as [|[k x] l IH]; [by rewrite Forall_nil|]. by rewrite andb_true_iff, Forall_cons, IH. }
  split; [|naive_solver]. intros H. split; [done|]. by apply Hev.
Qed.

Lemma deepEqual_refl v : regular v → deepEqual v v = true.
Proof.
  induction v as [| |b|t|s|[t|]|l IH|l IH] using value_induction; intros Hr; simpl; try done.
  - by rewrite bool_decide_true.
  - rewrite bool_decide_true by done. by rewrite bool_decide_false by exact (proj1 Hr).
  - by rewrite bool_decide_true.
  - by rewrite bool_decide_true.
  - by destruct Hr as [[] _].
  - apply everywhere_arr in Hr as [_ Hr]. apply deepEqual_arr. induction IH as [|x l Hx _ IHl]; [constructor|].
    apply Forall_cons in Hr as [? ?]. constructor; auto.
  - apply everywhere_obj in Hr as [Hnd Hr]. apply deepEqual_obj. split; [done|].
    apply Forall_forall. intros [k x] Hin. simpl. rewrite (map_elem_get k x l) by done. simpl.
    rewrite Forall_forall in IH, Hr. apply (IH (k, x)); [done|]. by apply (Hr (k, x)).
Qed.

(** ** Comparing values and comparing texts *)

Fixpoint embed (v : json) : value :=
  match v with
  | JUndefined => VUndefined
  | JNull => VNull
  | JBool b => VBool b
  | JNum t => VNum t
  | JStr s => VStr s
  | JArr l => VArr (embed <$> l)
  | JObj l => VObj ((λ kv, (kv.1, embed kv.2)) <$> l)
  end.

(** No property of an object is [undefined]. *)
Fixpoint no_undefined (v : json) : bool :=
  match v with
  | JArr l => forallb no_undefined l
  | JObj l => forallb (λ kv, match kv.2 with JUndefined => false | _ => no_undefined kv.2 end) l
  | _ => true
  end.

Definition canon_entry (kv : string * json) : string * json := (kv.1, canon kv.2).

Lemma canon_obj_eq (l l' : list (string * json)) : NoDup (map_keys l) → NoDup (map_keys l') →
  canon (JObj l) = canon (JObj l') ↔ canon_entry <$> l ≡ₚ canon_entry <$> l'.
Proof.
  intros H1 H2. simpl. fold canon_entry. split.
  - intros [= E]. by rewrite <- (sort_keys_perm (canon_entry <$> l)), E, sort_keys_perm.
  - intros Hp. f_equal. apply sort_keys_unique; [|by rewrite sort_keys_perm|apply sort_keys_sorted].
    by rewrite <- list_fmap_compose.
Qed.

Lemma canon_entry_nodup (l : list (string * json)) : NoDup (map_keys l) → NoDup (canon_entry <$> l).
Proof. intros H. apply (NoDup_fmap_1 fst). by rewrite <- list_fmap_compose. Qed.

Lemma canon_obj_sub (l l' : list (string * json)) : NoDup (map_keys l) → NoDup (map_keys l') →
  canon (JObj l) = canon (JObj l') ↔
  length l = length l' ∧ Forall (λ kv, ∃ y, map_get kv.1 l' = Some y ∧ canon kv.2 = canon y) l.
Proof.
  intros H1 H2. rewrite canon_obj_eq by done. split.
  - intros Hp. split; [by rewrite <- (length_fmap canon_entry l), Hp, length_fmap|].
    apply Forall_forall. intros [k x] Hin. simpl.
    assert (canon_entry (k, x) ∈ canon_entry <$> l') as ([k' y] & E & Hy)%list_elem_of_fmap
      by (rewrite <- Hp; by apply list_elem_of_fmap_2).
    injection E as <- E. exists y. split; [by apply map_elem_get|done].
  - intros [El Hall]. apply submseteq_length_Permutation; [|by rewrite !length_fmap, El].
    apply NoDup_submseteq; [by apply canon_entry_nodup|]. intros kx (kv & -> & Hin)%list_elem_of_fmap.
    rewrite Forall_forall in Hall. destruct (Hall _ Hin) as (y & Hy & Ey).
    apply list_elem_of_fmap. exists (kv.1, y). unfold canon_entry. simpl. rewrite Ey. split; [done|]. by apply map_get_elem.
Qed.

Lemma embed_get k (l : list (string * json)) : map_get k ((λ kv, (kv.1, embed kv.2)) <$> l) = embed <$> map_get k l.
Proof. apply map_get_fmap. Qed.

(** Equality up to the order of keys.  Only the left value needs defined properties. *)
Lemma deepEqual_canon a b : json_wf a → json_wf b → no_undefined a → deepEqual (embed a) (embed b) = true ↔ canon a = canon b.
Proof.
  revert b. induction a as [| |x|t|s|l IH|l IH] using json_induction; intros b Ha Hb Hu.
  1-2: destruct b; simpl; split; done.
  1-3: destruct b; simpl; try (split; discriminate).
  - case_bool_decide; split; congruence.
  - case_bool_decide as E; simpl; [|split; congruence]. subst. rewrite bool_decide_false; [done|]. by intros ->.
  - case_bool_decide; split; congruence.
  - destruct b as [| | | | |l'|l']; try (split; discriminate). cbn [embed]. rewrite deepEqual_arr, Forall2_fmap.
    simpl in Ha, Hb, Hu. apply andb_True in Ha as [_ Ha], Hb as [_ Hb]. rewrite forallb_Forall_s in Ha, Hb, Hu. simpl. split.
    + intros H. f_equal. revert Ha Hb Hu IH. induction H as [|x y l l' Hxy _ IHl]; intros Ha Hb Hu IH; [done|].
      rewrite !Forall_cons in *. simpl. f_equal; [naive_solver|naive_solver].
    + intros [= E]. revert l' Hb E. induction IH as [|x l Hx _ IHl]; intros [|y l'] Hb E; try discriminate E; [constructor|].
      injection E as Exy E. rewrite !Forall_cons in *. constructor; naive_solver.
  - destruct b as [| | | | |l'|l']; try (split; discriminate). cbn [embed]. rewrite deepEqual_obj, !length_fmap.
    simpl in Ha, Hb, Hu. apply andb_True in Ha as [Hd%bool_decide_unpack Ha]. apply andb_True in Hb as [Hd'%bool_decide_unpack Hb].
    rewrite forallb_Forall_s in Ha, Hb, Hu. rewrite canon_obj_sub by done. apply and_iff_compat_l.
    rewrite Forall_fmap, !Forall_forall. rewrite Forall_forall in IH, Ha, Hb, Hu. apply forall_proper. intros [k x].
    assert (∀ P Q R : Prop, (P → (Q ↔ R)) → (P → Q) ↔ (P → R)) as Himp by tauto. apply Himp. intros Hin. simpl. rewrite embed_get.
    specialize (IH _ Hin). specialize (Ha _ Hin). specialize (Hu _ Hin). simpl in *.
    destruct (map_get k l') as [y|] eqn:Ey; simpl.
    + rewrite IH; [naive_solver|done| |by destruct x]. apply map_get_elem in Ey. apply (Hb _ Ey).
    + split; [|naive_solver]. by destruct x.
Qed.

(** [deepEqual] on JSON values agrees with comparing the texts the audit
    trail hashes: the value of an object is its properties, in any order.  The
    properties of the first value must not be [undefined]. *)
Theorem deepEqual_texts a b : json_wf a → json_wf b → no_undefined a →
  deepEqual (embed a) (embed b) = true ↔ stableStringify a = stableStringify b.
Proof.
  intros Ha Hb Hu. rewrite deepEqual_canon by done. split.
  - intros E. by rewrite !stableStringify_canon, E.
  - by apply stableStringify_inj.
Qed.

Definition ex_a : json := JObj [("id", JNum "1"); ("tags", JArr [JStr "x"; JNull])].
Definition ex_b : json := JObj [("tags", JArr [JStr "x"; JNull]); ("id", JNum "1")].

Lemma deepEqual_texts_witness : deepEqual (embed ex_a) (embed ex_b) = true ∧ ex_a ≠ ex_b.
Proof. split; [|done]. apply (proj2 (deepEqual_texts ex_a ex_b I I I)). vm_compute. reflexivity. Defined.

(** An undefined property equals a missing one, so objects with different keys
    are equal, in one direction only. *)
Lemma undefined_property_equal :
  deepEqual (VObj [("a", VUndefined)]) (VObj [("b", VNum "1")]) = true ∧
  deepEqual (VObj [("b", VNum "1")]) (VObj [("a", VUndefined)]) = false ∧
  shallowEqual [("a", VUndefined)] [("b", VNum "1")] = true.
Proof. done. Qed.

(** A date equals an empty object. *)
Lemma date_equals_empty t : deepEqual (VDate (Some t)) (VObj []) = true.
Proof. done. Qed.

(** ** Paths *)

Lemma prop_write key v cur cur' : write key v cur = Some cur' → is_object cur' ∧ prop key cur' = v.
Proof.
  destruct cur as [| | | | | |l|l]; try done; unfold write.
  - destruct (index_below key (S (length l))) as [i|] eqn:Ei; [|done]. intros [= <-]. split; [done|].
    apply index_below_Some in Ei as [Hi <-]. rewrite prop_index. case_bool_decide as E.
    + by rewrite E, list_lookup_middle.
    + rewrite list_lookup_insert_eq; [done|lia].
  - intros [= <-]. split; [done|]. simpl. by rewrite map_get_set_eq.
Qed.

Lemma prop_write_ne key key' v cur cur' : write key v cur = Some cur' → key' ≠ key → key' ≠ "length" →
  prop key' cur' = prop key' cur.
Proof.
  destruct cur as [| | | | | |l|l]; try done; unfold write.
  - destruct (index_below key (S (length l))) as [i|] eqn:Ei; [|done]. intros [= <-] Hk Hl.
    apply index_below_Some in Ei as [Hi <-]. simpl. rewrite !bool_decide_false by done. case_bool_decide as E.
    + rewrite length_app, Nat.add_1_r. simpl. rewrite bool_decide_false by (subst i; congruence).
      destruct (index_below key' (length l)) as [j|] eqn:Ej; [|done]. simpl.
      apply index_below_Some in Ej as [? _]. by rewrite lookup_app_l by lia.
    + rewrite length_insert. destruct (index_below key' (length l)) as [j|] eqn:Ej; [|done]. simpl.
      apply index_below_Some in Ej as [? <-]. rewrite list_lookup_insert_ne; [done|]. by intros ->.
  - intros [= <-] Hk _. simpl. by rewrite map_get_set_ne.
Qed.

Lemma write_object key v cur cur' : write key v cur = Some cur' → is_object cur.
Proof. by destruct cur. Qed.

Lemma get_path_defined v d : v ≠ VUndefined → get_path [] v d = v.
Proof. by destruct v. Qed.

Lemma get_set_path p v cur cur' d : v ≠ VUndefined → set_path p v cur = Some cur' → get_path p cur' d = v.
Proof.
  intros Hv. revert cur cur'. induction p as [|seg p IH]; intros cur cur' E.
  - injection E as <-. by apply get_path_defined.
  - simpl in E. apply bind_Some in E as (child & Hc & Hw). apply prop_write in Hw as [Ho Hp].
    simpl. destruct (is_object cur'); [|done]. rewrite Hp. by eapply IH.
Qed.

(** The paths part before either of them ends. *)
Fixpoint diverge (p q : list string) : bool :=
  match p, q with
  | s :: p', t :: q' => if bool_decide (s = t) then diverge p' q' else true
  | _, _ => false
  end.

(** Nothing is found under a value that is no object. *)
Lemma get_path_no_object q v d : q ≠ [] → is_object v = false → get_path q v d = d.
Proof. destruct q; [done|]. simpl. by intros _ ->. Qed.

Lemma get_path_empty q d : q ≠ [] → get_path q (VObj []) d = d.
Proof. destruct q as [|s [|t q]]; done. Qed.

Lemma get_set_path_ne p q v cur cur' d : set_path p v cur = Some cur' → diverge p q → "length" ∉ q →
  get_path q cur' d = get_path q cur d.
Proof.
  revert q cur cur'. induction p as [|s p IH]; intros [|t q] cur cur' E Hd Hl; try done.
  cbn [set_path] in E. apply bind_Some in E as (child & Hc & Hw).
  pose proof (write_object _ _ _ _ Hw) as Ho. destruct (prop_write _ _ _ _ Hw) as [Ho' Hp].
  simpl in Hd |- *. destruct (is_object cur), (is_object cur'); try done.
  case_bool_decide as Est; [|by rewrite (prop_write_ne _ _ _ _ _ Hw) by set_solver].
  subst t. rewrite Hp. destruct p as [|s' p]; [done|]. assert (q ≠ []) by (by destruct q).
  rewrite (IH q _ _ Hc Hd) by set_solver. destruct (is_object (prop s cur)) eqn:Hx; [done|].
  by rewrite get_path_empty, get_path_no_object.
Qed.

(** Where only plain objects are on the way, [setIn] gives an object. *)
Definition objects_only : value → Prop := everywhere (λ v, match v with VArr _ | VDate _ => False | _ => True end).

Lemma objects_only_prop key v : objects_only v → objects_only (prop key v).
Proof.
  intros H. destruct v as [| | | | | |l|l]; try done; [by destruct H|]. simpl.
  destruct (map_get key l) as [x|] eqn:E; [by eapply everywhere_prop|done].
Qed.

Lemma set_path_total p v l : objects_only (VObj l) → ∃ cur', set_path p v (VObj l) = Some cur'.
Proof.
  revert l. induction p as [|s p IH]; intros l Hl; [by eexists|]. cbn [set_path].
  match goal with |- ∃ _, (set_path p v ?c ≫= _) = _ => destruct (set_path p v c) as [x|] eqn:E end; [by eexists|].
  exfalso. destruct p as [|s' p]; [done|]. pose proof (objects_only_prop s _ Hl) as Hp.
  destruct (is_object (prop s (VObj l))) eqn:Ho.
  - destruct (prop s (VObj l)) as [| | | | | |l'|l']; try done; [by destruct Hp|by destruct Hp|].
    destruct (IH l' Hp). congruence.
  - destruct (IH [] ltac:(done)). congruence.
Qed.

Lemma set_path_obj p v l cur' : set_path p v (VObj l) = Some cur' → p ≠ [] → VObj (spread cur') = cur'.
Proof. destruct p; [done|]. cbn [set_path]. intros (x & _ & [= <-])%bind_Some _. done. Qed.

Lemma split_not_nil c s : split c s ≠ [].
Proof. induction s as [|a s IH]; simpl; [done|]. case_bool_decide; [done|]. by destruct (split c s). Qed.

(** C: what [setIn] writes at a path, [getIn] reads there; every path that parts
    from it still leads to what it led to before.  When no array or date is in
    the object, [setIn] has a result. *)
Theorem setIn_getIn obj path v d : v ≠ VUndefined →
  (objects_only (VObj obj) → is_Some (setIn obj path v)) ∧
  ∀ obj', setIn obj path v = Some obj' →
    getIn obj' path d = v ∧
    ∀ path', diverge (split dot path) (split dot path') → "length" ∉ split dot path' →
      getIn obj' path' d = getIn obj path' d.
Proof.
  intros Hv. unfold setIn, getIn. split.
  - intros H. destruct (set_path_total (split dot path) v obj H) as [x ->]. by eexists.
  - intros obj' (cur' & E & ->)%fmap_Some.
    rewrite (set_path_obj _ _ _ _ E) by apply split_not_nil. split; [by eapply get_set_path|].
    intros path' Hd Hl. by eapply get_set_path_ne.
Qed.

Definition ex_obj : jsmap value := [("a", VObj [("b", VNum "1")]); ("c", VArr [VNull])].

Lemma setIn_getIn_witness : ∃ obj', setIn ex_obj "a.x.y" (VBool true) = Some obj' ∧ getIn obj' "a.x.y" VNull = VBool true ∧ getIn obj' "a.b" VNull = VNum "1".
Proof.
  eexists. split; [vm_compute; reflexivity|].
  destruct (proj2 (setIn_getIn ex_obj "a.x.y" (VBool true) VNull ltac:(discriminate)) _ eq_refl) as [H1 H2].
  split; [exact H1|]. rewrite H2; [vm_compute; reflexivity|vm_compute; exact I|].
  apply (bool_decide_unpack _). vm_compute. exact I.
Defined.

(** ** [shallowDiff] *)

(** The entries of [m2] over those of [m1]. *)
Definition override {V} (m1 m2 : jsmap V) : jsmap V := foldl (λ m kv, map_set kv.1 kv.2 m) m1 m2.

Lemma override_get {V} (m1 m2 : jsmap V) k : NoDup (map_keys m2) →
  map_get k (override m1 m2) = match map_get k m2 with Some v => Some v | None => map_get k m1 end.
Proof.
  unfold override. revert m1. induction m2 as [|[k' v] m2 IH]; intros m1 Hnd; [done|]. simpl in Hnd |- *.
  apply NoDup_cons in Hnd as [Hk Hnd]. rewrite IH by done. rewrite map_get_set. case_bool_decide as E; [|done].
  subst k'. by rewrite (proj2 (map_get_None k m2)).
Qed.

Lemma omit_get obj keys k : map_get k (omit obj keys) = if decide (k ∈ keys) then None else map_get k obj.
Proof.
  unfold omit. revert obj. induction keys as [|k' keys IH]; intros obj; cbn [foldl]; [by rewrite decide_False by set_solver|].
  rewrite IH, map_get_delete. unfold bool_decide; repeat case_decide; set_solver.
Qed.

(** What a difference says of each key. *)
Definition key_added (prev next : jsmap value) (k : string) : option value :=
  match map_get k prev with None => Some (default VUndefined (map_get k next)) | Some _ => None end.
Definition key_removed (prev next : jsmap value) (k : string) : option value :=
  match map_get k prev, map_get k next with Some v, None => Some v | _, _ => None end.
Definition key_changed (prev next : jsmap value) (k : string) : option (value * value) :=
  match map_get k prev, map_get k next with Some v, Some w => if deepEqual v w then None else Some (v, w) | _, _ => None end.

Ltac by_key Hold Hnew :=
  first [ apply Hold; [by auto|unfold key_added, key_removed, key_changed; repeat case_match; simplify_eq; congruence]
        | apply Hnew; [by auto|unfold key_added, key_removed, key_changed; repeat case_match; simplify_eq; congruence] ].

Lemma diff_fold prev next ks : let d := foldl (diff_step prev next) (mkDiff [] [] []) ks in
  (∀ k, map_get k (added d) = if decide (k ∈ ks) then key_added prev next k else None) ∧
  (∀ k, map_get k (removed d) = if decide (k ∈ ks) then key_removed prev next k else None) ∧
  (∀ k, map_get k (changed d) = if decide (k ∈ ks) then key_changed prev next k else None) ∧
  NoDup (map_keys (added d)) ∧ NoDup (map_keys (changed d)).
Proof.
  induction ks as [|x ks IH] using rev_ind; intros d; subst d.
  - split_and!; cbn [foldl added removed changed map_get]; try (intros k; by rewrite decide_False by set_solver); constructor.
  - rewrite foldl_snoc. destruct (foldl _ _ ks) as [ad re ch]. cbn [added removed changed] in IH. destruct IH as (Ha & Hr & Hc & Hn1 & Hn2).
    assert (∀ {W} (m : jsmap W) (f : string → option W) k, map_get k m = (if decide (k ∈ ks) then f k else None) → f x = None →
      map_get k m = if decide (k ∈ ks ++ [x]) then f k else None) as Hold.
    { intros W m f k -> Hx. repeat case_decide; try done; [set_solver|]. assert (k = x) as -> by set_solver. done. }
    assert (∀ {W} (m : jsmap W) (f : string → option W) k w, map_get k m = (if decide (k ∈ ks) then f k else None) → f x = Some w →
      map_get k (map_set x w m) = if decide (k ∈ ks ++ [x]) then f k else None) as Hnew.
    { intros W m f k w E Hx. rewrite map_get_set. case_bool_decide as Ek.
      - subst k. by rewrite decide_True by set_solver.
      - rewrite E. repeat case_decide; set_solver. }
    unfold diff_step. destruct (map_get x prev) as [v|] eqn:Ep; [destruct (map_get x next) as [w|] eqn:En|].
    + destruct (deepEqual v w) eqn:Ed; cbn [negb added removed changed]; split_and!; auto with arenax; intros k.
      all: by_key Hold Hnew.
    + cbn [added removed changed]; split_and!; auto with arenax; intros k.
      all: by_key Hold Hnew.
    + cbn [added removed changed]; split_and!; auto with arenax; intros k.
      all: by_key Hold Hnew.
Qed.

Lemma shallowDiff_get prev next k : let d := shallowDiff prev next in
  map_get k (added d) = match map_get k prev with None => map_get k next | Some _ => None end ∧
  map_get k (removed d) = key_removed prev next k ∧ map_get k (changed d) = key_changed prev next k.
Proof.
  intros d. subst d. unfold shallowDiff. set (ks := dedupe _).
  destruct (diff_fold prev next ks) as (-> & -> & -> & _).
  assert (k ∈ ks ↔ ¬ (map_get k prev = None ∧ map_get k next = None)) as Hk.
  { unfold ks. rewrite elem_of_dedupe, elem_of_app, !map_get_None. destruct (decide (k ∈ map_keys prev)), (decide (k ∈ map_keys next)); tauto. }
  unfold key_added, key_removed, key_changed. case_decide as Hd; rewrite Hk in Hd.
  - destruct (map_get k prev), (map_get k next); try done. by exfalso; apply Hd.
  - destruct (map_get k prev), (map_get k next); try done; exfalso; apply Hd; naive_solver.
Qed.

(** The object a difference makes of another: without what was removed, with
    what was changed and added. *)
Definition patch (prev : jsmap value) (d : DeepDiffResult) : jsmap value :=
  override (override (omit prev (map_keys (removed d))) ((λ kv, (kv.1, kv.2.2)) <$> (changed d : list _))) (added d).

(** C: the difference of two objects patches the first into the second: both
    then have the same keys, with the values of the second, except where
    [deepEqual] found no difference and the old value stays. *)
Theorem shallowDiff_patches prev next k :
  match map_get k (patch prev (shallowDiff prev next)), map_get k next with
  | Some v, Some w => v = w ∨ map_get k prev = Some v ∧ deepEqual v w = true
  | None, None => True
  | _, _ => False
  end.
Proof.
  pose proof (diff_fold prev next (dedupe (map_keys prev ++ map_keys next))) as (_ & _ & _ & Hn1 & Hn2).
  fold (shallowDiff prev next) in Hn1, Hn2. destruct (shallowDiff_get prev next k) as (Ha & Hr & Hc).
  assert (map_get k (omit prev (map_keys (removed (shallowDiff prev next)))) =
          match key_removed prev next k with Some _ => None | None => map_get k prev end) as Ho.
  { rewrite omit_get, <- Hr. case_decide as Hd.
    - destruct (map_get k (removed _)) eqn:E; [done|]. by apply map_get_None in E.
    - by rewrite (proj2 (map_get_None _ _) Hd). }
  unfold patch. rewrite override_get, Ha by done. rewrite override_get by (unfold map_keys; by rewrite <- list_fmap_compose).
  rewrite map_get_fmap, Hc, Ho. unfold key_changed, key_removed.
  destruct (map_get k prev) as [v|], (map_get k next) as [w|]; simpl; auto. destruct (deepEqual v w) eqn:E; simpl; auto.
Qed.

(** ** [deepMerge] *)

(** Objects that are no arrays are merged, everything else is replaced. *)
Definition merge_prop (tgtVal srcVal : value) : value :=
  if is_object srcVal && negb (is_array srcVal) && is_object tgtVal && negb (is_array tgtVal)
  then deepMerge tgtVal srcVal else srcVal.

Definition merge_step (output : jsmap value) (kv : string * value) : jsmap value :=
  map_set kv.1 (merge_prop (default VUndefined (map_get kv.1 output)) kv.2) output.

Lemma deepMerge_obj target l : deepMerge target (VObj l) = VObj (foldl merge_step (spread target) l).
Proof.
  cbn [deepMerge]. f_equal. generalize (spread target). induction l as [|[k v] l IH]; intros m; [done|]. cbn [foldl].
  rewrite IH. unfold merge_step at 3. simpl. unfold merge_prop. by destruct (_ && _).
Qed.

Lemma merge_get l m k : NoDup (map_keys l) →
  map_get k (foldl merge_step m l) =
  match map_get k l with Some v => Some (merge_prop (default VUndefined (map_get k m)) v) | None => map_get k m end.
Proof.
  revert m. induction l as [|[k' v] l IH]; intros m Hnd; [done|]. simpl in Hnd |- *. apply NoDup_cons in Hnd as [Hk Hnd].
  rewrite IH by done. unfold merge_step. simpl. rewrite map_get_set. case_bool_decide as E; [|done].
  subst k'. by rewrite (proj2 (map_get_None k l)).
Qed.

(** Merging what an object has already changes nothing. *)
Lemma merge_fixed l m : (∀ k v, (k, v) ∈ l → ∃ w, map_get k m = Some w ∧ merge_prop w v = w) → foldl merge_step m l = m.
Proof.
  induction l as [|[k v] l IH]; intros H; [done|]. cbn [foldl].
  destruct (H k v) as (w & Ew & Ev); [set_solver|]. unfold merge_step at 2. simpl. rewrite Ew. simpl. rewrite Ev, map_set_same by done.
  apply IH. intros. apply H. set_solver.
Qed.

(** Without dates and with unique keys. *)
Definition mergeable : value → Prop := everywhere (λ v, match v with VDate _ => False | VObj l => NoDup (map_keys l) | _ => True end).

Lemma merge_prop_self v : mergeable v → merge_prop v v = v.
Proof.
  induction v as [| | | | | |l IH|l IH] using value_induction; intros Hm; try done; [by destruct Hm|].
  change (merge_prop (VObj l) (VObj l)) with (deepMerge (VObj l) (VObj l)). rewrite deepMerge_obj. f_equal. apply merge_fixed.
  apply everywhere_obj in Hm as [Hnd Hm]. rewrite Forall_forall in IH, Hm.
  intros k v Hin. exists v. split; [by apply map_elem_get|]. apply (IH _ Hin), (Hm _ Hin).
Qed.

Lemma merge_prop_idem t v : mergeable v → merge_prop (merge_prop t v) v = merge_prop t v.
Proof.
  revert t. induction v as [| |b|n|s|d|l IH|l IH] using value_induction; intros t Hm; try done; [by destruct Hm|].
  destruct (is_object t && negb (is_array t)) eqn:Et.
  - assert (merge_prop t (VObj l) = deepMerge t (VObj l)) as -> by (unfold merge_prop; simpl; by rewrite Et).
    rewrite deepMerge_obj. change (merge_prop (VObj ?x) (VObj l)) with (deepMerge (VObj x) (VObj l)).
    rewrite deepMerge_obj. f_equal. simpl. apply merge_fixed. apply everywhere_obj in Hm as [Hnd Hm].
    rewrite Forall_forall in IH, Hm. intros k v Hin. rewrite merge_get, (map_elem_get k v l) by done. eexists. split; [done|].
    apply (IH _ Hin), (Hm _ Hin).
  - assert (merge_prop t (VObj l) = VObj l) as -> by (unfold merge_prop; simpl; by rewrite Et). by apply merge_prop_self.
Qed.

(** C: [deepMerge] keeps every key of the target, takes the value of the source
    where it has one and merges where both have plain objects; merging the same
    source once more changes nothing. *)
Theorem deepMerge_spec target source : mergeable (VObj source) →
  ∃ output, deepMerge (VObj target) (VObj source) = VObj output ∧
  (∀ k, map_get k output = match map_get k source with
                           | Some v => Some (merge_prop (default VUndefined (map_get k target)) v)
                           | None => map_get k target end) ∧
  deepMerge (VObj output) (VObj source) = VObj output.
Proof.
  intros Hm. pose proof (merge_prop_idem (VObj target) (VObj source) Hm) as Hi.
  change (merge_prop (VObj target) (VObj source)) with (deepMerge (VObj target) (VObj source)) in Hi.
  rewrite deepMerge_obj in *. eexists. split; [done|]. split; [|exact Hi].
  intros k. apply merge_get. apply everywhere_obj in Hm. apply Hm.
Qed.

Lemma deepMerge_spec_witness : ∃ output,
  deepMerge (VObj ex_obj) (VObj [("a", VObj [("x", VNull)])]) = VObj output ∧ deepMerge (VObj output) (VObj [("a", VObj [("x", VNull)])]) = VObj output.
Proof.
  destruct (deepMerge_spec ex_obj [("a", VObj [("x", VNull)])]) as (o & H1 & _ & H2); [|by exists o].
  repeat split; try exact I; (apply (bool_decide_unpack _); vm_compute; exact I).
Defined.

(** A date merged over a date is lost. *)
Lemma merge_loses_dates t1 t2 :
  deepMerge (VObj [("at", VDate (Some t1))]) (VObj [("at", VDate (Some t2))]) = VObj [("at", VObj [])].
Proof. done. Qed.

(** ** Inverting, picking, mapping *)

Lemma fromEntries_nodup {V} (l : list (string * V)) : NoDup (l.*1) → fromEntries l = l.
Proof.
  unfold fromEntries. assert (∀ pre, NoDup (pre.*1 ++ l.*1) → foldl (λ m kv, map_set kv.1 kv.2 m) pre l = pre ++ l) as H; [|apply (H [])].
  induction l as [|[k v] l IH]; intros pre Hnd; simpl; [by rewrite app_nil_r|].
  assert (map_set k v pre = pre ++ [(k, v)]) as ->.
  { apply NoDup_app in Hnd as (_ & Hd & _). assert (k ∉ pre.*1) as Hk by (intros Hk; apply (Hd k Hk); simpl; set_solver).
    clear -Hk. induction pre as [|[k' v'] pre IH]; simpl; [done|]. rewrite bool_decide_false by set_solver. rewrite IH by set_solver. done. }
  rewrite IH; [by rewrite <- app_assoc|]. rewrite fmap_app, <- app_assoc. exact Hnd.
Qed.

(** Inverting twice gives the object back, when no value occurs twice. *)
Lemma invertObject_twice (obj : list (string * string)) : NoDup (obj.*1) → NoDup (obj.*2) → invertObject (invertObject obj) = obj.
Proof.
  intros H1 H2. unfold invertObject. rewrite (fromEntries_nodup (_ <$> obj)) by (by rewrite <- list_fmap_compose).
  rewrite <- list_fmap_compose, fromEntries_nodup; rewrite <- ?list_fmap_compose; [|done].
  rewrite <- (list_fmap_id obj) at 2. apply list_fmap_ext. by intros ? [].
Qed.

(** [pick] and [omit] of the same keys share out the properties. *)
Lemma pick_omit_get obj keys k :
  map_get k (pick obj keys) = (if decide (k ∈ keys) then map_get k obj else None) ∧
  map_get k (omit obj keys) = (if decide (k ∈ keys) then None else map_get k obj).
Proof.
  split; [|apply omit_get]. unfold pick. induction keys as [|x keys IH] using rev_ind; [by rewrite decide_False by set_solver|].
  rewrite foldl_snoc. destruct (map_get x obj) as [v|] eqn:Ex.
  - rewrite map_get_set, IH. unfold bool_decide. repeat case_decide; subst; set_solver.
  - rewrite IH. repeat case_decide; try done; [set_solver|]. assert (k = x) as -> by set_solver. done.
Qed.
