(* ===== verification/IpWhitelist.v ===== *)
(** * IP whitelist: [server/src/middleware/ip-whitelist.middleware.ts]

    The list of addresses and networks read from the environment, the test of an
    address against a network on 32-bit integers, and the middleware.  Read as
    an unsigned integer, an address is in a network when their leading bits
    agree; the code computes with signed integers and masks.

    [Number(text)] is modelled for decimal digits and blank texts; what it makes
    of other texts, an integer or NaN, is a parameter.  Numbers are below 2^53. *)

From Stdlib Require Import Ascii.
From stdpp Require Import prelude strings list pretty.
From S2P Require Import Prelude JsText JsInt Json.

Section whitelist.
Context (number_of_other_text : string → option Z).

(** [Number(text)] *)
Definition Number (s : string) : option Z :=
  if blank s then Some 0
  else if all_chars is_digit s then Some (number_from 0 s)
  else number_of_other_text s.

(** [process.env.ADMIN_IP_WHITELIST] and whether [NODE_ENV] is ['production'] *)
Record Env := mkEnv { ADMIN_IP_WHITELIST : option string; production : bool }.

Definition parseIpWhitelist (env : Env) : list string :=
  match ADMIN_IP_WHITELIST env with
  | None | Some EmptyString => []
  | Some whitelistEnv => List.filter (λ ip, negb (bool_decide (ip = ""))) (trim <$> split ","%char whitelistEnv)
  end.

(** [(p[0] << 24) + (p[1] << 16) + (p[2] << 8) + p[3]]; a missing part is
    [undefined], which counts as NaN. *)
Definition ip_number (ip : string) : option Z :=
  let parts := Number <$> split "."%char ip in
  let part i := mjoin (parts !! i) in
  last ← part 3%nat;
  Some (shift_left (part 0%nat) (Some 24) + shift_left (part 1%nat) (Some 16) + shift_left (part 2%nat) (Some 8) + last).

Definition isIpInCidr (ip cidr : string) : bool :=
  let parts := split "/"%char cidr in
  let network := default "" (parts !! 0%nat) in
  match parts !! 1%nat with
  | None | Some EmptyString => bool_decide (ip = network)
  | Some prefixLength =>
      let prefix := parseInt10 prefixLength in
      let mask := shift_left (Some 4294967295) ((λ p, 32 - p) <$> prefix) in
      bool_decide (bit_and (ip_number ip) (Some mask) = bit_and (ip_number network) (Some mask))
  end.

Definition isIpWhitelisted (env : Env) (ip : string) (whitelist : list string) : bool :=
  match whitelist with
  | [] => negb (production env)
  | _ => existsb (λ whitelistedIp,
           if str_contains "/" whitelistedIp then isIpInCidr ip whitelistedIp else bool_decide (ip = whitelistedIp)) whitelist
  end.

(** [clientIp.replace(/^::ffff:/, '')] *)
Definition normalizedIp (clientIp : string) : string :=
  if String.prefix "::ffff:" clientIp then String.substring 7 (String.length clientIp - 7) clientIp else clientIp.

(** [a || b] for texts *)
Definition text_or (a b : option string) : option string :=
  match a with None | Some EmptyString => b | _ => a end.

Definition requireIpWhitelist (env : Env) (whitelist : option (list string)) (req_ip remoteAddress : option string) : result unit :=
  let effectiveWhitelist := match whitelist with Some l => l | None => parseIpWhitelist env end in
  let clientIp := default "unknown" (text_or (text_or req_ip remoteAddress) (Some "unknown")) in
  if negb (isIpWhitelisted env (normalizedIp clientIp) effectiveWhitelist)
  then Throw (HttpError 403 "Access denied: IP address not whitelisted")
  else Ok tt.

(** ** Addresses *)

Record Address := mkAddress { oct1 : Z; oct2 : Z; oct3 : Z; oct4 : Z }.

#[export] Instance Address_eq_dec : EqDecision Address.
Proof. solve_decision. Defined.

Definition octet (z : Z) : Prop := 0 ≤ z < 256.
Definition address_ok (a : Address) : Prop := octet (oct1 a) ∧ octet (oct2 a) ∧ octet (oct3 a) ∧ octet (oct4 a).

Definition dotted (a : Address) : string :=
  pretty (oct1 a) +:+ "." +:+ pretty (oct2 a) +:+ "." +:+ pretty (oct3 a) +:+ "." +:+ pretty (oct4 a).

Definition address_value (a : Address) : Z := oct1 a * 2 ^ 24 + oct2 a * 2 ^ 16 + oct3 a * 2 ^ 8 + oct4 a.

(** An entry of the list: an address, or a network with its number of leading bits. *)
Inductive entry := Single (a : Address) | Network (a : Address) (bits : Z).

Definition entry_text (e : entry) : string :=
  match e with Single a => dotted a | Network a bits => dotted a +:+ "/" +:+ pretty bits end.

Definition entry_ok (e : entry) : Prop :=
  match e with Single a => address_ok a | Network a bits => address_ok a ∧ 1 ≤ bits ≤ 32 end.

Definition covers (e : entry) (ip : Address) : Prop :=
  match e with
  | Single a => a = ip
  | Network a bits => address_value a / 2 ^ (32 - bits) = address_value ip / 2 ^ (32 - bits)
  end.

#[export] Instance covers_dec e ip : Decision (covers e ip).
Proof. destruct e; simpl; apply _. Defined.

(** ** Texts *)

Definition other_than (c d : ascii) : bool := negb (bool_decide (d = c)).

Lemma split_sep c s t : all_chars (other_than c) s → split c (s +:+ String c t) = s :: split c t.
Proof.
  induction s as [|d s IH]; simpl; [by rewrite bool_decide_true|]. rewrite andb_True. intros [Hd Hs].
  unfold other_than in Hd. case_bool_decide as E; [done|]. by rewrite IH.
Qed.

Lemma split_end c s : all_chars (other_than c) s → split c s = [s].
Proof.
  induction s as [|d s IH]; simpl; [done|]. rewrite andb_True. intros [Hd Hs].
  unfold other_than in Hd. case_bool_decide as E; [done|]. by rewrite IH.
Qed.

Lemma pretty_nonneg (z : Z) : 0 ≤ z → (pretty z : string) = pretty (Z.to_N z).
Proof. by destruct z. Qed.

Lemma digits_other c s : is_digit c = false → all_chars is_digit s → all_chars (other_than c) s.
Proof. intros Hc. apply all_chars_mono. intros d Hd. unfold other_than. case_bool_decide; [|done]. subst. by rewrite Hc in Hd. Qed.

Lemma pretty_other c (z : Z) : is_digit c = false → 0 ≤ z → all_chars (other_than c) (pretty z).
Proof. intros Hc Hz. rewrite pretty_nonneg by done. apply digits_other; [done|]. apply pretty_N_digits. Qed.

Lemma pretty_not_blank (z : Z) : 0 ≤ z → blank (pretty z) = false.
Proof.
  intros Hz. rewrite pretty_nonneg by done. unfold pretty, pretty_N. case_decide; [done|].
  destruct (pretty_N_go_spec (Z.to_N z) "" ltac:(lia)) as (c & t & -> & Hc & _). simpl.
  assert (js_space c = false) as ->; [|done]. unfold is_digit in Hc. apply bool_decide_unpack in Hc.
  unfold js_space. apply bool_decide_eq_false. rewrite !elem_of_cons. set_solver by lia.
Qed.

Lemma Number_pretty (z : Z) : 0 ≤ z → Number (pretty z) = Some z.
Proof.
  intros Hz. unfold Number. rewrite pretty_not_blank by done. rewrite pretty_nonneg by done.
  pose proof (pretty_N_digits (Z.to_N z)) as Hd. destruct (all_chars is_digit (pretty (Z.to_N z))); [|done].
  rewrite number_from_pretty. f_equal. lia.
Qed.

Lemma dotted_split a : address_ok a →
  split "."%char (dotted a) = [pretty (oct1 a); pretty (oct2 a); pretty (oct3 a); pretty (oct4 a)].
Proof.
  unfold address_ok, octet, dotted. intros (? & ? & ? & ?).
  repeat match goal with |- context ["." +:+ ?x] => change ("." +:+ x) with (String "."%char x) end.
  rewrite !split_sep by (apply pretty_other; [done|lia]). rewrite split_end by (apply pretty_other; [done|lia]). done.
Qed.

Lemma shift_octet z k : octet z → 0 ≤ k ≤ 16 → shift_left (Some z) (Some k) = z * 2 ^ k.
Proof.
  unfold octet, shift_left, int32_of, default, id. intros Hz Hk.
  rewrite (to_int32_id z), (to_int32_id k) by (unfold int32; lia). rewrite (Z.mod_small k), Z.shiftl_mul_pow2 by lia. apply to_int32_id. unfold int32.
  assert (2 ^ k ≤ 2 ^ 16) by (apply Z.pow_le_mono_r; lia). assert (0 < 2 ^ k) by (apply Z.pow_pos_nonneg; lia). nia.
Qed.

Lemma ip_number_dotted a : address_ok a → int32_of (ip_number (dotted a)) = to_int32 (address_value a).
Proof.
  intros Ha. unfold ip_number. rewrite dotted_split by done. simpl.
  destruct Ha as (H1 & H2 & H3 & H4). rewrite !Number_pretty by (unfold octet in *; lia). simpl.
  rewrite (shift_octet (oct2 a)), (shift_octet (oct3 a)) by (done || lia). unfold int32_of. simpl. apply to_int32_mod.
  unfold shift_left, int32_of. simpl. rewrite (to_int32_id (oct1 a)) by (unfold int32, octet in *; lia).
  change (to_int32 24 mod 32) with 24. rewrite Z.shiftl_mul_pow2 by lia.
  rewrite <- !Z.add_assoc, Z.add_mod, to_int32_congr, <- Z.add_mod by lia. f_equal. unfold address_value. lia.
Qed.

Lemma mask_value bits : 1 ≤ bits ≤ 32 → shift_left (Some 4294967295) (Some (32 - bits)) = - 2 ^ (32 - bits).
Proof.
  intros Hb. unfold shift_left, int32_of. simpl. change (to_int32 4294967295) with (-1).
  rewrite (to_int32_id (32 - bits)) by (unfold int32; lia). rewrite Z.mod_small by lia.
  rewrite Z.shiftl_mul_pow2 by lia. rewrite to_int32_id; [lia|]. unfold int32.
  assert (2 ^ (32 - bits) ≤ 2 ^ 31) by (apply Z.pow_le_mono_r; lia). assert (0 < 2 ^ (32 - bits)) by (apply Z.pow_pos_nonneg; lia). lia.
Qed.

Lemma address_value_range a : address_ok a → 0 ≤ address_value a < 2 ^ 32.
Proof. unfold address_ok, octet, address_value. lia. Qed.

Lemma dotted_no_slash a : address_ok a → all_chars (other_than "/"%char) (dotted a).
Proof.
  unfold address_ok, octet, dotted. intros (? & ? & ? & ?). rewrite !all_chars_app, !andb_True.
  split_and!; try done; apply pretty_other; (done || lia).
Qed.

(** A network is recognised by its leading bits. *)
Lemma isIpInCidr_network ip a bits : address_ok ip → address_ok a → 1 ≤ bits ≤ 32 →
  isIpInCidr (dotted ip) (entry_text (Network a bits)) = true ↔ covers (Network a bits) ip.
Proof.
  intros Hip Ha Hb. unfold isIpInCidr, entry_text. change ("/" +:+ ?x) with (String "/"%char x). rewrite split_sep by (by apply dotted_no_slash).
  rewrite split_end by (apply pretty_other; [done|lia]). simpl. rewrite (pretty_nonneg bits) by lia.
  pose proof (parseInt10_pretty (Z.to_N bits)) as Hp. destruct (pretty (Z.to_N bits)) as [|c s]; [done|].
  rewrite Hp. simpl. rewrite Z2N.id by lia. rewrite mask_value by done. rewrite bool_decide_eq_true.
  unfold bit_and. rewrite !ip_number_dotted by done. unfold int32_of, default, id.
  assert (0 < 2 ^ (32 - bits)) by (apply Z.pow_pos_nonneg; lia).
  assert (2 ^ (32 - bits) ≤ 2 ^ 31) by (apply Z.pow_le_mono_r; lia).
  rewrite (to_int32_id (- 2 ^ (32 - bits))) by (unfold int32; lia). rewrite !land_high_bits by lia.
  rewrite Z.mul_cancel_r by lia. rewrite to_int32_high_bits by (try (by apply address_value_range); lia). naive_solver.
Qed.

Lemma dotted_inj a b : address_ok a → address_ok b → dotted a = dotted b → a = b.
Proof.
  intros Ha Hb E. pose proof (dotted_split a Ha) as Hs. rewrite E, dotted_split in Hs by done. injection Hs as E1 E2 E3 E4.
  destruct a, b; simpl in *. f_equal; by apply (inj pretty).
Qed.

Lemma contains_char c s : str_contains (String c "") s = negb (all_chars (other_than c) s).
Proof.
  induction s as [|d s IH]; [done|]. cbn [str_contains all_chars]. rewrite IH. change (other_than c d) with (negb (bool_decide (d = c))). simpl.
  destruct (ascii_dec c d) as [->|Hne]; [rewrite bool_decide_true by done; by destruct s|]. rewrite (bool_decide_false (d = c)) by congruence. done.
Qed.

Lemma all_chars_eq f s : all_chars f s → all_chars f s = true.
Proof. by destruct (all_chars f s). Qed.

(** One entry decides by what it stands for. *)
Lemma entry_decides e ip : entry_ok e → address_ok ip →
  (if str_contains "/" (entry_text e) then isIpInCidr (dotted ip) (entry_text e) else bool_decide (dotted ip = entry_text e)) =
  bool_decide (covers e ip).
Proof.
  intros He Hip. rewrite contains_char. destruct e as [a|a bits]; simpl in He.
  - cbn [entry_text]. rewrite (all_chars_eq _ _ (dotted_no_slash a He)). simpl. apply bool_decide_ext. split; [|by intros ->].
    intros E. symmetry. by apply dotted_inj.
  - destruct He as [Ha Hb]. assert (all_chars (other_than "/"%char) (entry_text (Network a bits)) = false) as ->.
    { unfold entry_text. rewrite all_chars_app. change ("/" +:+ ?x) with (String "/"%char x). cbn [all_chars].
      unfold other_than at 2. rewrite bool_decide_true by done. apply andb_false_r. }
    cbn [negb]. apply eq_bool_prop_intro. rewrite bool_decide_spec, Is_true_true. by apply isIpInCidr_network.
Qed.

(** ** The list in the environment *)

Definition entry_char (c : ascii) : bool := is_digit c || bool_decide (c = "."%char) || bool_decide (c = "/"%char).

Lemma digits_entry s : all_chars is_digit s → all_chars entry_char s.
Proof. apply all_chars_mono. intros c Hc. unfold entry_char. by rewrite Is_true_true in Hc; rewrite Hc. Qed.

Lemma pretty_entry (z : Z) : 0 ≤ z → all_chars entry_char (pretty z).
Proof. intros Hz. rewrite pretty_nonneg by done. apply digits_entry, pretty_N_digits. Qed.

Lemma dotted_chars a : address_ok a → all_chars entry_char (dotted a).
Proof.
  unfold address_ok, octet, dotted. intros (? & ? & ? & ?). rewrite !all_chars_app, !andb_True.
  split_and!; try done; apply pretty_entry; lia.
Qed.

Lemma entry_text_chars e : entry_ok e → all_chars entry_char (entry_text e) ∧ entry_text e ≠ "".
Proof.
  destruct e as [a|a bits]; simpl; intros He.
  - split; [by apply dotted_chars|]. intros E. pose proof (dotted_split a He) as Hs. by rewrite E in Hs.
  - destruct He as [Ha Hb]. rewrite !all_chars_app, !andb_True. split_and!; [by apply dotted_chars|done|apply pretty_entry; lia|].
    intros E. pose proof (dotted_split a Ha) as Hs. by destruct (dotted a).
Qed.

Lemma trim_id s : all_chars entry_char s → trim s = s.
Proof.
  assert (∀ c, entry_char c → js_space c = false) as Hsp.
  { intros c Hc. unfold entry_char in Hc. rewrite !orb_True in Hc. destruct Hc as [[Hc|Hc]|Hc]; apply bool_decide_unpack in Hc; [|by subst..].
    unfold js_space. apply bool_decide_eq_false. rewrite !elem_of_cons. set_solver by lia. }
  intros Hs. unfold trim. assert (trim_left s = s) as ->.
  { destruct s as [|c s]; [done|]. simpl in *. apply andb_True in Hs as [Hc _]. by rewrite Hsp. }
  induction s as [|c s IH]; [done|]. simpl in Hs |- *. apply andb_True in Hs as [Hc Hs]. rewrite Hsp by done. simpl. by rewrite IH.
Qed.

Lemma split_list l : l ≠ [] → Forall (λ s, all_chars entry_char s) l → split ","%char (join_comma l) = l.
Proof.
  assert (∀ s, all_chars entry_char s → all_chars (other_than ","%char) s) as Hc.
  { intros s. apply all_chars_mono. intros c Hc. unfold other_than. case_bool_decide; [by subst|done]. }
  intros Hne Hl. induction Hl as [|s l Hs Hl IH]; [done|]. destruct l as [|t l]; [by apply split_end, Hc|].
  change (join_comma (s :: t :: l)) with (s +:+ String ","%char (join_comma (t :: l))). rewrite split_sep by (by apply Hc).
  by rewrite IH.
Qed.

Lemma parse_listed es prod : es ≠ [] → Forall entry_ok es →
  parseIpWhitelist (mkEnv (Some (join_comma (entry_text <$> es))) prod) = entry_text <$> es.
Proof.
  intros Hne Hes. assert (Forall (λ s, all_chars entry_char s ∧ s ≠ "") (entry_text <$> es)) as Hc.
  { apply Forall_fmap. eapply Forall_impl; [exact Hes|]. apply entry_text_chars. }
  assert (split ","%char (join_comma (entry_text <$> es)) = entry_text <$> es) as Hsp.
  { apply split_list; [by destruct es|]. eapply Forall_impl; [exact Hc|]. by intros ? []. }
  unfold parseIpWhitelist. simpl. destruct (join_comma (entry_text <$> es)) as [|c s] eqn:Ej.
  { exfalso. simpl in Hsp. destruct es as [|e es]; [done|]. injection Hsp as E _.
    apply Forall_cons in Hc as [[_ H] _]. congruence. }
  rewrite Hsp. clear -Hc number_of_other_text. induction Hc as [|s l [Hs Hne] _ IH]; [done|]. rewrite fmap_cons, trim_id by done. cbn [List.filter].
  rewrite bool_decide_false by done. cbn [negb]. by rewrite IH.
Qed.

Lemma substring_full s : String.substring 0 (String.length s) s = s.
Proof. induction s as [|c s IH]; simpl; [done|]. by rewrite IH. Qed.

Lemma normalizedIp_mapped s : normalizedIp ("::ffff:" +:+ s) = s.
Proof. unfold normalizedIp. simpl. rewrite Nat.sub_0_r. destruct s; apply substring_full. Qed.

Lemma normalizedIp_dotted a : address_ok a → normalizedIp (dotted a) = dotted a.
Proof.
  intros Ha. unfold normalizedIp. pose proof (dotted_chars a Ha) as Hc. destruct (dotted a) as [|c s]; [done|].
  cbn [all_chars] in Hc. apply andb_True in Hc as [Hc _]. cbn [String.prefix]. destruct (ascii_dec ":" c) as [<-|]; [|done].
  exfalso. vm_compute in Hc. done.
Qed.

(** C: the whitelist of the environment admits an IPv4 client, written plainly or
    as an IPv6 address, exactly when an entry is its address or a network whose
    leading bits it shares; every other client gets a 403.  Networks have 1 to
    32 bits. *)
Theorem admin_whitelist es ip clientIp prod remote :
  es ≠ [] → Forall entry_ok es → address_ok ip → clientIp = dotted ip ∨ clientIp = "::ffff:" +:+ dotted ip →
  requireIpWhitelist (mkEnv (Some (join_comma (entry_text <$> es))) prod) None (Some clientIp) remote =
  if bool_decide (Exists (λ e, covers e ip) es) then Ok tt
  else Throw (HttpError 403 "Access denied: IP address not whitelisted").
Proof.
  intros Hne Hes Hip Hc. unfold requireIpWhitelist. rewrite parse_listed by done.
  assert (normalizedIp (default "unknown" (text_or (text_or (Some clientIp) remote) (Some "unknown"))) = dotted ip) as ->.
  { destruct Hc as [->| ->]; [|apply normalizedIp_mapped]. rewrite <- (normalizedIp_dotted ip Hip) at 2.
    pose proof (dotted_split ip Hip) as Hs. by destruct (dotted ip). }
  assert (isIpWhitelisted (mkEnv (Some (join_comma (entry_text <$> es))) prod) (dotted ip) (entry_text <$> es) =
          bool_decide (Exists (λ e, covers e ip) es)) as ->; [|by case_bool_decide].
  unfold isIpWhitelisted. destruct es as [|e es]; [done|]. rewrite fmap_cons. revert Hes. rewrite <- fmap_cons. generalize (e :: es).
  intros l Hl. induction Hl as [|x l Hx _ IH]; [done|]. cbn [existsb fmap list_fmap]. rewrite entry_decides, IH by done.
  apply eq_bool_prop_intro. rewrite orb_True, !bool_decide_spec, Exists_cons. done.
Qed.
End whitelist.

Definition ex_list : list entry := [Single (mkAddress 192 168 1 1); Network (mkAddress 172 16 0 0) 12].

Lemma admin_whitelist_witness :
  requireIpWhitelist (λ _, None) (mkEnv (Some "192.168.1.1,172.16.0.0/12") true) None (Some "::ffff:172.31.7.9") None = Ok tt ∧
  requireIpWhitelist (λ _, None) (mkEnv (Some "192.168.1.1,172.16.0.0/12") true) None (Some "172.32.0.1") None =
    Throw (HttpError 403 "Access denied: IP address not whitelisted").
Proof.
  split.
  - refine (admin_whitelist (λ _, None) ex_list (mkAddress 172 31 7 9) _ true None _ _ _ _);
      [discriminate|repeat constructor; simpl; lia|repeat constructor; simpl; lia|right; reflexivity].
  - refine (admin_whitelist (λ _, None) ex_list (mkAddress 172 32 0 1) _ true None _ _ _ _);
      [discriminate|repeat constructor; simpl; lia|repeat constructor; simpl; lia|left; reflexivity].
Defined.

(** The distance of a shift is taken modulo 32: a network of 0 bits, which
    should hold every address, holds one; a network of 33 bits holds half of
    all addresses. *)
Lemma zero_bits_network f : isIpInCidr f "8.8.8.8" "0.0.0.0/0" = false ∧ isIpInCidr f "8.8.8.8" "1.2.3.4/33" = true.
Proof. done. Qed.

(** A text that is no IPv4 address counts as the address 0. *)
Lemma text_in_network : isIpInCidr (λ _, None) "2001:db8::1" "0.0.0.0/8" = true.
Proof. done. Qed.
