(* ===== verification/RequestTokens.v ===== *)
(** * Tokens and signatures of requests

    [server/src/middleware/csrf.middleware.ts] and
    [server/src/middleware/signature.middleware.ts].

    CSRF tokens live in a map that is cleaned now and then; nobody can tell when
    it was, because a token that has expired is refused anyway.  Signatures are
    keyed hashes of the instant and the body.  The keyed hash is a parameter.
    A middleware answers with [Next], a reply with a status and a code, or an
    exception. *)

From Stdlib Require Import Ascii.
From stdpp Require Import prelude strings list pretty.
From S2P Require Import Prelude JsText JsInt JsBuffer Crypto IpWhitelist.

(** ** Buffers *)

Definition hex_value (c : ascii) : option Z :=
  let n := code c in
  if bool_decide (48 ≤ n ≤ 57) then Some (n - 48)
  else if bool_decide (97 ≤ n ≤ 102) then Some (n - 87)
  else if bool_decide (65 ≤ n ≤ 70) then Some (n - 55) else None.

(** [Buffer.from(text, 'hex')]: pairs of digits up to the first that is none. *)
Fixpoint from_hex (s : string) : string :=
  match s with
  | String a (String b s') =>
      match hex_value a, hex_value b with
      | Some x, Some y => String (byte (16 * x + y)) (from_hex s')
      | _, _ => ""
      end
  | _ => ""
  end.

Definition RangeError : exn := JsError "Input buffers must have the same byte length".

(** [crypto.timingSafeEqual(a, b)] *)
Definition timingSafeEqual (a b : string) : result bool :=
  if bool_decide (String.length a = String.length b) then Ok (bool_decide (a = b)) else Throw RangeError.

Lemma hex_value_digit n : 0 ≤ n < 16 → hex_value (JsBuffer.hex_digit n) = Some n.
Proof.
  intros Hn. assert (n ∈ [0;1;2;3;4;5;6;7;8;9;10;11;12;13;14;15]) as Hin by (rewrite !elem_of_cons; lia).
  repeat (apply elem_of_cons in Hin as [->|Hin]; [by vm_compute|]). by apply not_elem_of_nil in Hin.
Qed.

Lemma from_to_hex s t : from_hex (to_hex s +:+ t) = s +:+ from_hex t.
Proof.
  induction s as [|c s IH]; [done|]. pose proof (code_range c) as Hc. cbn [to_hex]. rewrite !app_cons. cbn [from_hex].
  rewrite !hex_value_digit by (Z.div_mod_to_equations; lia). rewrite IH. apply byte_cons; [|done]. Z.div_mod_to_equations; lia.
Qed.

Inductive outcome := Next | Reply (status : Z) (code : string).

(** ** CSRF tokens *)

Record Csrf := mkCsrf { csrfTokens : jsmap (string * Z); draws : nat }.

Section csrf.
Context `{NodeRandom}.

Definition CSRF_TOKEN_LENGTH : nat := 32.
Definition LIFETIME : Z := 24 * 60 * 60 * 1000.

(** The timer: every entry that has expired is deleted. *)
Definition cleanup (now : Z) (s : Csrf) : Csrf :=
  mkCsrf (foldl (λ (m : jsmap (string * Z)) kv, if bool_decide (kv.2.2 < now) then map_delete kv.1 m else m) (csrfTokens s) (csrfTokens s)) (draws s).

Definition generateCsrfToken (now : Z) (sessionId : string) : M Csrf string :=
  s ← get;
  let token := to_hex (randomBytes CSRF_TOKEN_LENGTH (draws s)) in
  let expiresAt := now + LIFETIME in
  _ ← put (mkCsrf (map_set sessionId (token, expiresAt) (csrfTokens s)) (S (draws s)));
  mret token.

Definition validateCsrfToken (now : Z) (sessionId token : string) : M Csrf bool :=
  s ← get;
  match map_get sessionId (csrfTokens s) with
  | None => mret false
  | Some (stored, expiresAt) =>
      if bool_decide (expiresAt < now)
      then (_ ← put (mkCsrf (map_delete sessionId (csrfTokens s)) (draws s)); mret false)
      else match timingSafeEqual (from_hex stored) (from_hex token) with Ok b => mret b | Throw e => throw e end
  end.

Definition revokeCsrfToken (sessionId : string) (s : Csrf) : Csrf := mkCsrf (map_delete sessionId (csrfTokens s)) (draws s).

(** What the middleware reads of a request. *)
Record Request := mkRequest {
  method : string;
  sessionId : option string;
  requestId : option string;
  csrf_header : option string;
  csrf_body : option string;
}.

Definition requireCsrfToken (now : Z) (req : Request) : M Csrf outcome :=
  if bool_decide (method req ∈ ["GET"; "HEAD"; "OPTIONS"]) then mret Next
  else
    let sid := default "unknown" (text_or (text_or (sessionId req) (requestId req)) (Some "unknown")) in
    match text_or (text_or (csrf_header req) (csrf_body req)) None with
    | None => mret (Reply 403 "CSRF_TOKEN_MISSING")
    | Some csrfToken =>
        ok ← validateCsrfToken now sid csrfToken;
        mret (if negb ok then Reply 403 "CSRF_TOKEN_INVALID" else Next)
    end.

(** [uuid] is the reading of [crypto.randomUUID()]. *)
Definition addCsrfToken (now : Z) (uuid : string) (req : Request) : M Csrf string :=
  generateCsrfToken now (default uuid (text_or (text_or (sessionId req) (requestId req)) (Some uuid))).

(** ** The tokens as a history *)

Inductive csrf_call := Generate (sid : string) | Validate (sid token : string) | Revoke (sid : string) | Cleanup.

Definition exec (t : Z) (c : csrf_call) (s : Csrf) : Csrf :=
  match c with
  | Generate sid => (generateCsrfToken t sid s).1
  | Validate sid token => (validateCsrfToken t sid token s).1
  | Revoke sid => revokeCsrfToken sid s
  | Cleanup => cleanup t s
  end.

Definition run (cs : list (Z * csrf_call)) : Csrf := foldl (λ s c, exec c.1 c.2 s) (mkCsrf [] 0) cs.

(** The history without deletions: for each session the bytes of the last token
    and when it expires, until it is revoked. *)
Definition issue (st : (string → option (string * Z)) * nat) (tc : Z * csrf_call) : (string → option (string * Z)) * nat :=
  let '(f, n) := st in
  match tc.2 with
  | Generate sid => (λ k, if bool_decide (k = sid) then Some (randomBytes CSRF_TOKEN_LENGTH n, tc.1 + LIFETIME) else f k, S n)
  | Revoke sid => (λ k, if bool_decide (k = sid) then None else f k, n)
  | _ => st
  end.

Definition issued (cs : list (Z * csrf_call)) : (string → option (string * Z)) * nat := foldl issue (λ _, None, O) cs.

Definition expires_by (now : Z) (x : option (string * Z)) : option (string * Z) :=
  match x with Some (_, e) => if bool_decide (e < now) then None else x | None => None end.

Fixpoint in_order (t : Z) (cs : list (Z * csrf_call)) : bool :=
  match cs with [] => true | c :: cs' => bool_decide (t ≤ c.1) && in_order c.1 cs' end.

(** The map at an instant: what was issued, less some of what has expired. *)
Definition matches (t : Z) (s : Csrf) (h : (string → option (string * Z)) * nat) : Prop :=
  draws s = h.2 ∧ NoDup (map_keys (csrfTokens s)) ∧
  ∀ sid, map_get sid (csrfTokens s) = (λ x, (to_hex x.1, x.2)) <$> h.1 sid ∨
         map_get sid (csrfTokens s) = None ∧ ∃ b e, h.1 sid = Some (b, e) ∧ e < t.

Lemma csrf_cleanup_get now (l m : jsmap (string * Z)) k : NoDup (map_keys l) →
  map_get k (foldl (λ (m : jsmap (string * Z)) kv, if bool_decide (kv.2.2 < now) then map_delete kv.1 m else m) m l) =
  match map_get k l with Some (_, e) => if bool_decide (e < now) then None else map_get k m | None => map_get k m end.
Proof.
  revert m. induction l as [|[k' [v e]] l IH]; intros m Hnd; [done|]. simpl in Hnd |- *. apply NoDup_cons in Hnd as [Hk Hnd].
  rewrite IH by done. destruct (bool_decide_reflect (k = k')) as [E|E].
  - subst k'. rewrite (proj2 (map_get_None k l)) by done. destruct (bool_decide (e < now)); [by rewrite map_get_delete_eq|done].
  - destruct (bool_decide (e < now)); [rewrite map_get_delete_ne by done|]; done.
Qed.

Lemma csrf_cleanup_nodup now (l m : jsmap (string * Z)) : NoDup (map_keys m) →
  NoDup (map_keys (foldl (λ (m : jsmap (string * Z)) kv, if bool_decide (kv.2.2 < now) then map_delete kv.1 m else m) m l)).
Proof. revert m. induction l as [|kv l IH]; intros m Hm; [done|]. simpl. apply IH. case_bool_decide; [by apply map_delete_nodup|done]. Qed.

Lemma exec_matches t t' c s h : matches t s h → t ≤ t' → matches t' (exec t' c s) (issue h (t', c)).
Proof.
  intros (Hd & Hn & Hm) Ht. destruct h as [f n]. simpl in Hd. subst n.
  assert (∀ sid, map_get sid (csrfTokens s) = (λ x, (to_hex x.1, x.2)) <$> f sid ∨
            map_get sid (csrfTokens s) = None ∧ ∃ b e, f sid = Some (b, e) ∧ e < t') as Hm'.
  { intros sid. destruct (Hm sid) as [?|(? & b & e & ? & ?)]; [by left|right]. split; [done|]. exists b, e. split; [done|lia]. }
  clear Hm. destruct c as [sid|sid token|sid|]; cbn [exec issue snd].
  - unfold generateCsrfToken, mbind, M_bind, get, put. simpl. split_and!; [done|by apply map_set_nodup|].
    intros k. simpl. rewrite map_get_set. case_bool_decide; [by left|apply Hm'].
  - unfold validateCsrfToken, mbind, M_bind, get, put. destruct (map_get sid (csrfTokens s)) as [[st e]|] eqn:E; [|by split_and!].
    case_bool_decide as He; [|destruct (timingSafeEqual _ _); by split_and!]. simpl. split_and!; [done|by apply map_delete_nodup|].
    intros k. simpl. rewrite map_get_delete. case_bool_decide as Hk; [|apply Hm']. subst k. right. split; [done|].
    destruct (Hm' sid) as [Hs|[Hs _]]; rewrite E in Hs; [|done]. destruct (f sid) as [[b e']|]; [|done]. injection Hs as -> ->. eauto.
  - split_and!; [done|by apply map_delete_nodup|]. intros k. simpl. rewrite map_get_delete. case_bool_decide; [by left|apply Hm'].
  - split_and!; [done|by apply csrf_cleanup_nodup|]. intros k. simpl. rewrite csrf_cleanup_get by done.
    destruct (Hm' k) as [Hs|(Hs & b & e & Hf & He)]; rewrite Hs.
    + destruct (f k) as [[b e]|] eqn:Ef; [|by left]. simpl. case_bool_decide; [right; eauto|]. by left.
    + right. eauto.
Qed.

Lemma run_matches cs t : in_order t cs = true → matches (default t (last (fst <$> cs))) (run cs) (issued cs).
Proof.
  unfold run, issued. assert (∀ s h t, matches t s h → in_order t cs = true →
    matches (default t (last (fst <$> cs))) (foldl (λ s c, exec c.1 c.2 s) s cs) (foldl issue h cs)) as Hgen.
  { induction cs as [|[t' c] cs IH]; intros s h t0 Hm Ho; [done|]. cbn [in_order] in Ho. apply andb_true_iff in Ho as [Ht Ho].
    apply bool_decide_eq_true in Ht. simpl in Ht, Ho. cbn [foldl]. specialize (IH _ _ t' (exec_matches t0 t' c s h Hm Ht) Ho).
    rewrite fmap_cons, last_cons. simpl. by destruct (last _). }
  intros Ho. apply Hgen; [|done]. split_and!; [done|constructor|]. intros sid. by left.
Qed.

(** C: a CSRF token is accepted exactly when it reads as the bytes last issued to
    the session, has not been revoked and is at most a day old; whether expired
    tokens have been deleted cannot be observed.  A token of another length
    makes the check throw. *)
Theorem csrf_validates cs t now sid token : in_order t cs = true → default t (last (fst <$> cs)) ≤ now →
  (validateCsrfToken now sid token (run cs)).2 =
  match expires_by now ((issued cs).1 sid) with
  | Some (bytes, _) => timingSafeEqual bytes (from_hex token)
  | None => Ok false
  end.
Proof.
  intros Ho Ht. destruct (run_matches cs t Ho) as (_ & _ & Hm). specialize (Hm sid).
  unfold validateCsrfToken, mbind, M_bind, get, put. destruct Hm as [Hs|(Hs & b & e & Hf & He)]; rewrite Hs.
  - destruct ((issued cs).1 sid) as [[b e]|]; [|done]. simpl. case_bool_decide; [done|].
    pose proof (from_to_hex b "") as Hx. rewrite !app_nil_s in Hx. rewrite Hx. by destruct (timingSafeEqual _ _).
  - rewrite Hf. simpl. by rewrite bool_decide_true by lia.
Qed.
End csrf.

(** ** Signatures *)

(** [crypto.createHmac('sha256', secret).update(message).digest()] *)
Class Hmac := {
  hmac_sha256 : string → string → string;
  hmac_length : ∀ secret message, String.length (hmac_sha256 secret message) = 32%nat;
}.

Section signature.
Context `{Hmac}.

Definition SIGNATURE_TOLERANCE_MS : Z := 5 * 60 * 1000.

Definition signed_message (payload : string) (timestamp : Z) : string := pretty timestamp +:+ "." +:+ payload.

Definition generateSignature (payload secret : string) (timestamp : Z) : string :=
  to_hex (hmac_sha256 secret (signed_message payload timestamp)).

Definition validateSignature (now : Z) (payload signature secret : string) (timestamp : Z) : result bool :=
  if bool_decide (SIGNATURE_TOLERANCE_MS < Z.abs (now - timestamp)) then Ok false
  else timingSafeEqual (from_hex signature) (from_hex (generateSignature payload secret timestamp)).

(** [payload] is [JSON.stringify(req.body)]. *)
Definition requireSignature (secret : string) (now : Z) (signature timestampHeader : option string) (payload : string) : result outcome :=
  match truthy_str signature, truthy_str timestampHeader with
  | Some signature, Some header =>
      match parseInt10 header with
      | None => Throw (HttpError 400 "Invalid timestamp format")
      | Some timestamp =>
          ok ← validateSignature now payload signature secret timestamp;
          if negb ok then Throw (HttpError 401 "Invalid request signature") else Ok Next
      end
  | _, _ => Throw (HttpError 401 "Missing signature headers")
  end.

(** [SENSITIVE_OPERATION_SECRET] and whether [NODE_ENV] is ['production']:
    building the middleware may throw. *)
Definition requireSensitiveOperationSignature (env_secret : option string) (production : bool)
    : result (Z → option string → option string → string → result outcome) :=
  match truthy_str env_secret with
  | None =>
      if negb production then Ok (λ _ _ _ _, Ok Next)
      else Throw (JsError "SENSITIVE_OPERATION_SECRET environment variable is required in production")
  | Some secret => Ok (requireSignature secret)
  end.

Lemma pretty_no_dot (z : Z) : all_chars (other_than "."%char) (pretty z).
Proof.
  assert (∀ n : N, all_chars (other_than "."%char) (pretty n)) as Hn by (intros n; apply digits_other; [done|apply pretty_N_digits]).
  destruct z as [|p|p]; [done|apply (Hn (N.pos p))|apply (Hn (N.pos p))].
Qed.

(** The instant and the body can be read off a signed message. *)
Lemma signed_message_inj p1 t1 p2 t2 : signed_message p1 t1 = signed_message p2 t2 → p1 = p2 ∧ t1 = t2.
Proof.
  unfold signed_message. change ("." +:+ p1) with (String "." p1). change ("." +:+ p2) with (String "." p2). intros E.
  assert (t1 = t2) as <-.
  { pose proof (split_sep "."%char _ p1 (pretty_no_dot t1)) as H1. rewrite E, split_sep in H1 by apply pretty_no_dot.
    injection H1 as H1 _. symmetry. by apply (inj pretty). }
  split; [|done]. revert E. generalize (pretty t1 : string). intros s. induction s as [|c s IH]; simpl; intros [= E]; [done|by apply IH].
Qed.

(** The middleware compares the bytes with those of the keyed hash. *)
Lemma requireSignature_passes secret now signature header payload :
  requireSignature secret now signature header payload = Ok Next ↔
  ∃ s h t, signature = Some s ∧ s ≠ "" ∧ header = Some h ∧ h ≠ "" ∧ parseInt10 h = Some t ∧ Z.abs (now - t) ≤ SIGNATURE_TOLERANCE_MS ∧
    from_hex s = hmac_sha256 secret (signed_message payload t).
Proof.
  assert (∀ o : option string, (∃ s, truthy_str o = Some s ∧ o = Some s ∧ s ≠ "") ∨ (truthy_str o = None ∧ ∀ s, o = Some s → s = "")) as Htr.
  { intros [[|c s]|]; simpl; [right; split; [done|by intros ? [= <-]]|left; by eexists|by right]. }
  unfold requireSignature. destruct (Htr signature) as [(s & -> & -> & Hs)|[-> Hs]].
  2: { split; [done|]. intros (s & h & t & E & Hne & _). by rewrite (Hs s E) in Hne. }
  destruct (Htr header) as [(h & -> & -> & Hh)|[-> Hh]].
  2: { split; [done|]. intros (s' & h & t & _ & _ & E & Hne & _). by rewrite (Hh h E) in Hne. }
  destruct (parseInt10 h) as [t|] eqn:Et; [|split; [done|]; naive_solver congruence].
  unfold validateSignature, generateSignature. pose proof (from_to_hex (hmac_sha256 secret (signed_message payload t)) "") as Hx.
  rewrite !app_nil_s in Hx. rewrite Hx. unfold timingSafeEqual. case_bool_decide as Ht; simpl.
  { split; [done|]. intros (s' & h' & t' & _ & _ & [= <-] & _ & E & Hle & _). rewrite Et in E. injection E as <-. lia. }
  split.
  - destruct (bool_decide _); [|done]. simpl. case_bool_decide as E; [|done]. intros _. exists s, h, t. split_and!; try done. lia.
  - intros (s' & h' & t' & [= <-] & _ & [= <-] & _ & E & _ & Heq). rewrite Et in E. injection E as <-.
    rewrite Heq. by rewrite !bool_decide_true.
Qed.

(** C: a request signed with the secret passes for five minutes around its
    instant; and when two requests pass with the same signature bytes, their
    bodies and instants are the same, or the keyed hash has a collision. *)
Theorem signature_binds secret payload t now h :
  parseInt10 h = Some t → h ≠ "" →
  (Z.abs (now - t) ≤ SIGNATURE_TOLERANCE_MS → requireSignature secret now (Some (generateSignature payload secret t)) (Some h) payload = Ok Next) ∧
  ∀ s now' h' t' payload', parseInt10 h' = Some t' →
    from_hex s = from_hex (generateSignature payload secret t) → requireSignature secret now' (Some s) (Some h') payload' = Ok Next →
    (payload' = payload ∧ t' = t) ∨ ∃ m1 m2, m1 ≠ m2 ∧ hmac_sha256 secret m1 = hmac_sha256 secret m2.
Proof.
  intros Ht Hne. pose proof (from_to_hex (hmac_sha256 secret (signed_message payload t)) "") as Hx. rewrite !app_nil_s in Hx. split.
  - intros Hle. apply requireSignature_passes. exists (generateSignature payload secret t), h, t. split_and!; try done.
    unfold generateSignature. pose proof (hmac_length secret (signed_message payload t)) as Hl. intros E.
    destruct (hmac_sha256 secret (signed_message payload t)); [done|discriminate E].
  - intros s now' h' t' payload' Ht' Hs Hp. apply requireSignature_passes in Hp as (s2 & h2 & t2 & [= <-] & _ & [= <-] & _ & E2 & _ & Heq).
    rewrite Ht' in E2. injection E2 as <-. unfold generateSignature in Hs. rewrite Hs, Hx in Heq.
    destruct (decide (signed_message payload t = signed_message payload' t')) as [E|Hn].
    + apply signed_message_inj in E as [-> ->]. by left.
    + right. by eexists _, _.
Qed.
End signature.

(** ** Runs *)

Section examples.
#[local] Existing Instance random_model.

Fixpoint pad (n : nat) (s : string) : string :=
  match n, s with O, _ => "" | S n', EmptyString => String "0" (pad n' "") | S n', String c s' => String c (pad n' s') end.

Lemma pad_length n s : String.length (pad n s) = n.
Proof. revert s. induction n as [|n IH]; intros [|c s]; simpl; auto. Qed.

#[local] Instance pad_hmac : Hmac := {| hmac_sha256 secret m := pad 32 (m +:+ secret); hmac_length secret m := pad_length _ _ |}.

Lemma signature_binds_witness : requireSignature "k" 1000 (Some (generateSignature "{}" "k" 500)) (Some "500") "{}" = Ok Next.
Proof. apply (proj1 (signature_binds "k" "{}" 500 1000 "500" eq_refl ltac:(discriminate))). vm_compute. discriminate. Defined.

Definition visits : list (Z * csrf_call) := [(0, Generate "s1"); (10, Generate "s2"); (20, Cleanup); (30, Revoke "s2")].
Definition token1 : string := Eval vm_compute in to_hex (randomBytes 32 0).

Lemma csrf_validates_witness : (validateCsrfToken 1000 "s1" token1 (run visits)).2 = Ok true ∧
  (validateCsrfToken 1000 "s2" token1 (run visits)).2 = Ok false.
Proof.
  split; (etrans; [exact (csrf_validates visits 0 1000 _ token1 eq_refl ltac:(vm_compute; discriminate))|vm_compute; reflexivity]).
Defined.

(** A token that is too short is answered with an exception, not with a 403;
    and text after the digits of a token is ignored. *)
Lemma short_token_throws : (validateCsrfToken 1000 "s1" "abcd" (run visits)).2 = Throw RangeError.
Proof. by vm_compute. Qed.

Lemma trailing_text_ignored : (validateCsrfToken 1000 "s1" (token1 +:+ "-anything") (run visits)).2 = Ok true.
Proof. by vm_compute. Qed.

(** Without a session the token is kept under the id of its request, which the
    next request does not have. *)
Lemma token_of_other_request : let visit id tok := mkRequest "POST" None (Some id) tok None in
  let '(s, r) := addCsrfToken 0 "u" (visit "req-1" None) (mkCsrf [] 0) in
  match r with
  | Ok tok => (requireCsrfToken 1 (visit "req-2" (Some tok)) s).2 = Ok (Reply 403 "CSRF_TOKEN_INVALID")
  | Throw _ => False
  end.
Proof. by vm_compute. Qed.
End examples.
