(* ===== verification/AuthMiddleware.v ===== *)
(** * Authenticated requests: [server/src/middleware/auth.middleware.ts]

    The middleware in front of the routes: the JWT strategy, [authenticateJWT],
    its optional variant and the guards on roles and scopes.  The tokens come
    from the sign-in service of [Auth.v]; the packages [passport-jwt] and
    [jsonwebtoken] are parameters with their documented behaviour.  A middleware
    either throws what it hands to [next], or passes the request on.

    A session's access token opens the routes until it expires, for the account
    as it is in the database at that moment; nothing the sign-in service does
    changes a role. *)

From Stdlib Require Import Ascii.
From stdpp Require Import prelude strings list pretty relations.
From S2P Require Import Prelude JsText JsInt JsBuffer Prisma Crypto AuthConfig Json JsonParse Encryption Accounts StellarWallet Auth Sessions AuthInv AuthSpec AuthTheorems AuthCredentials.

(** [passport-jwt]: the token of a header, and the subject of a token that
    verifies with a key, one of some algorithms and a tolerance in seconds.
    Times in tokens are whole seconds; a text like [15m] is a lifetime as in
    the configuration. *)
Class PassportJwt `{JsonWebToken} := {
  fromAuthHeaderAsBearerToken : option string → option string;
  jwt_verify : string → string → list string → Z → Z → option string;
  (** the key a signature made with another is verified with *)
  key_pair : string → string → string → Prop;
  bearer_signed : ∀ claims key o now,
    fromAuthHeaderAsBearerToken (Some ("Bearer " +:+ jwt_sign claims key o now)) = Some (jwt_sign claims key o now);
  secret_pair : ∀ key, key_pair "HS256" key key;
  verify_signed : ∀ claims key key' o now now' tolerance ms,
    key_pair (algorithm o) key key' → lifetime (expiresIn o) ms →
    jwt_verify (jwt_sign claims key o now) key' [algorithm o] tolerance now' =
      if bool_decide (now' / 1000 < now / 1000 + ms / 1000 + tolerance) then Some (subject o) else None;
}.

Record AuthenticatedUser := mkAuthUser { a_id : string; a_email : string; a_username : string; a_role : string }.

Record Request := mkRequest { authorization : option string; req_user : option AuthenticatedUser }.

Definition Unauthorized : exn := HttpError 401 "Unauthorized".
Definition Forbidden : exn := HttpError 403 "Forbidden".

(** ** The strategy *)

Section middleware.
Context `{PassportJwt} (authConfig : AuthConfig).

(** [findUnique] is the query of the database client, which may throw. *)
Definition jwt_callback (findUnique : string → result (option User)) (sub : string) : result (option AuthenticatedUser) :=
  match findUnique sub with
  | Ok None => Ok None
  | Ok (Some user) => Ok (Some (mkAuthUser (u_id user) (u_email user) (u_username user) (u_role user)))
  | Throw error => Throw error
  end.

(** What [passport.authenticate('jwt')] hands to its callback: an error, a user
    or [false]. *)
Definition jwt_strategy (findUnique : string → result (option User)) (now : Z) (req : Request) : result (option AuthenticatedUser) :=
  match fromAuthHeaderAsBearerToken (authorization req) with
  | None => Ok None
  | Some token =>
      match jwt_verify token (verificationKey authConfig) [jwtAlgorithm authConfig] 30 now with
      | None => Ok None
      | Some sub => jwt_callback findUnique sub
      end
  end.

Definition set_user (u : AuthenticatedUser) (req : Request) : Request := mkRequest (authorization req) (Some u).

Definition authenticateJWT (findUnique : string → result (option User)) (now : Z) (req : Request) : result Request :=
  match jwt_strategy findUnique now req with
  | Throw err => Throw err
  | Ok None => Throw Unauthorized
  | Ok (Some user) => Ok (set_user user req)
  end.

Definition optionalAuthenticateJWT (findUnique : string → result (option User)) (now : Z) (req : Request) : result Request :=
  match jwt_strategy findUnique now req with
  | Throw err => Throw err
  | Ok None => Ok req
  | Ok (Some user) => Ok (set_user user req)
  end.
End middleware.

(** ** Guards *)

Definition restrictTo (roles : list string) (req : Request) : result Request :=
  match req_user req with
  | None => Throw Unauthorized
  | Some user => if negb (bool_decide (a_role user ∈ roles)) then Throw Forbidden else Ok req
  end.

Definition roleScopes : jsmap (list string) := [
  ("ADMIN", ["USERS:WRITE"; "GAMES:WRITE"; "MODERATION:REVIEW"; "SYSTEM:READ"; "SYSTEM:WRITE"; "PAYMENTS:WRITE";
             "DISPUTES:WRITE"; "KYC:WRITE"; "REFUNDS:WRITE"]);
  ("MODERATOR", ["MODERATION:REVIEW"; "USERS:READ"]);
  ("SUPPORT", ["USERS:READ"; "DISPUTES:READ"])].

Definition restrictToScope (requiredScope : string) (req : Request) : result Request :=
  match req_user req with
  | None => Throw Unauthorized
  | Some user =>
      if bool_decide (a_role user = "ADMIN") then Ok req
      else
        let scopes := default [] (map_get (a_role user) roleScopes) in
        if negb (bool_decide (requiredScope ∈ scopes)) then Throw Forbidden else Ok req
  end.

Definition restrictToScopes (requiredScopes : list string) (requireAll : bool) (req : Request) : result Request :=
  match req_user req with
  | None => Throw Unauthorized
  | Some user =>
      if bool_decide (a_role user = "ADMIN") then Ok req
      else
        let scopes := default [] (map_get (a_role user) roleScopes) in
        if requireAll
        then (if negb (forallb (λ scope, bool_decide (scope ∈ scopes)) requiredScopes) then Throw Forbidden else Ok req)
        else (if negb (existsb (λ scope, bool_decide (scope ∈ scopes)) requiredScopes) then Throw Forbidden else Ok req)
  end.

(** The table of users as the client reads it. *)
Definition user_query (db : AccountDB) (id : string) : result (option User) := Ok (row_find u_id id (users db)).

(** ** Roles *)

Section roles.
Context `{Prisma} `{Sha256} `{Bcrypt} `{JsonWebToken} `{NodeCipher} `{NodeRandom} `{JsNumber} `{StellarSdk} `{Mailer} `{OAuth}.
Context (enc : EncryptionService) (cfg : AuthConfig).

Definition roles (db : AccountDB) : list (string * string) := (λ u, (u_id u, u_role u)) <$> users db.

(** Accounts are only added, as users or guests, and their roles stay. *)
Definition roles_grow (db db' : AccountDB) : Prop :=
  ∃ new, roles db' = roles db ++ new ∧ Forall (λ r, r.2 = "USER" ∨ r.2 = "GUEST") new.

#[local] Instance roles_grow_preorder : PreOrder roles_grow.
Proof.
  split.
  - intros db. exists []. by rewrite app_nil_r.
  - intros a b c (n1 & E1 & Hn1) (n2 & E2 & Hn2). exists (n1 ++ n2). rewrite E2, E1, app_assoc. split; [done|]. by apply Forall_app.
Qed.

Lemma roles_grow_all db db' : rtc roles_grow db db' → roles_grow db db'.
Proof. induction 1 as [|a b c Hab _ IH]; [done|]. by etrans. Qed.

Notation tame := (guarded (λ _ : AccountDB, True) roles_grow).

Lemma roles_frame db db' : users db' = users db → True ∧ rtc roles_grow db db'.
Proof. intros E. split; [done|]. apply rtc_once. exists []. unfold roles. by rewrite E, app_nil_r. Qed.

Ltac role_frame := apply roles_frame; reflexivity.

Lemma tame_draw {A} (f : nat → A) : tame (draw f).
Proof. intros db _. unfold draw. repeat m_step. role_frame. Qed.

Lemma tame_user_create now d : plain_role d → tame (user_create now d).
Proof.
  intros Hd db _. unfold user_create. m_step. m_step. destruct (user_conflict _ _); repeat m_step; [role_frame|].
  split; [done|]. apply rtc_once. eexists [_]. unfold roles. simpl. rewrite fmap_app. split; [done|]. constructor; [|done].
  simpl. destruct Hd as [->| ->]; simpl; auto.
Qed.

Lemma tame_user_update now i f : keeps_role f → tame (user_update now i f).
Proof.
  intros Hf db _. unfold user_update. m_step. m_step. destruct (row_find _ _ _); [|m_step; role_frame].
  destruct (user_conflict _ _); repeat m_step; [role_frame|]. split; [done|]. apply rtc_once. exists []. rewrite app_nil_r.
  split; [|done]. unfold roles. simpl. unfold row_update. rewrite <- list_fmap_compose. apply list_fmap_ext. intros _ x _. simpl.
  destruct (Hf x). case_bool_decide; congruence.
Qed.

Lemma tame_sendEmail e : tame (sendEmail e).
Proof.
  unfold sendEmail. apply guarded_bind; [apply tame_draw|]. intros [err|]; [apply guarded_throw|]. intros db _. m_step. role_frame.
Qed.

Lemma tame_issue now u f p : tame (issueSessionTokens cfg now u f p).
Proof.
  intros db _. eapply post_mono; [apply issue_spec|..]; [|by intros db' e [-> _]].
  intros db' tk [(fam & d & _ & _ & _ & _ & ->) _]. role_frame.
Qed.

Lemma tame_refreshToken_update i f : tame (refreshToken_update i f).
Proof. intros db _. unfold refreshToken_update. m_step. m_step. destruct (row_find _ _ _); m_step; role_frame. Qed.

Lemma tame_revokeTokenFamily now f : tame (revokeTokenFamily now f).
Proof. intros db _. unfold revokeTokenFamily. m_step. role_frame. Qed.

Lemma tame_register now u : tame (registerUserWallet enc now u).
Proof.
  unfold registerUserWallet, getWalletByUserId. guarded_walk;
    first [apply tame_draw|apply guarded_of_result|by apply tame_user_update|idtac].
  intros db _. unfold userWallet_create. m_step. m_step. repeat (case_bool_decide; [repeat m_step; role_frame|]). m_step. role_frame.
Qed.

#[local] Instance tame_footprint : AuthFootprint enc cfg (λ _, True) roles_grow.
Proof.
  split; intros; [apply tame_draw|by apply tame_user_create|by apply tame_user_update|apply tame_sendEmail|apply tame_issue
    |apply tame_refreshToken_update|apply tame_revokeTokenFamily|apply tame_register].
Qed.

Lemma exec_roles cs db : roles_grow db (exec_all enc cfg cs db).
Proof.
  unfold exec_all. revert db. induction cs as [|c cs IH]; intros db; [done|]. cbn [foldl]. etrans; [|apply IH].
  apply roles_grow_all. by apply (fp_exec enc cfg (λ _, True) roles_grow).
Qed.
End roles.

(** ** Sessions open routes *)

Section sessions.
Context `{Prisma} `{Sha256} `{Bcrypt} `{PassportJwt} `{NodeCipher} `{NodeRandom} `{JsNumber} `{StellarSdk} `{Mailer} `{OAuth}.
Context (enc : EncryptionService) (cfg : AuthConfig).

Notation run := (exec_all enc cfg).

Lemma issue_access now u f p db db' tk : issueSessionTokens cfg now u f p db = (db', Ok tk) → accessToken tk = createAccessToken cfg now u.
Proof.
  unfold issueSessionTokens. cbv zeta. unfold mbind at 1, M_bind at 1. destruct (transaction _ db) as [d [t|e]]; [|done].
  by intros [= _ <-].
Qed.

Lemma login_access now email pw db db' s : loginUser cfg now email pw db = (db', Ok s) →
  ∃ u, u ∈ users db ∧ u_id u = v_id (s_user s) ∧ accessToken (s_tokens s) = createAccessToken cfg now u.
Proof.
  unfold loginUser, gets. unfold mbind at 1, M_bind at 1. destruct (row_find u_email _ (users db)) as [u|] eqn:Hrow; [|done].
  destruct (negb _); [done|]. unfold mbind, M_bind.
  destruct (issueSessionTokens cfg now u None None db) as [d [tk|e]] eqn:Hi; [|done]. intros [= _ <-].
  exists u. apply row_find_Some in Hrow as [Hin _]. split_and!; [done..|]. by eapply issue_access.
Qed.

Definition bearer (token : string) : Request := mkRequest (Some ("Bearer " +:+ token)) None.

(** A token of the configured service, presented to the middleware. *)
Lemma access_token_verified now u findUnique now' : key_pair (jwtAlgorithm cfg) (signingKey cfg) (verificationKey cfg) →
  lifetime (accessTokenTtl cfg) (accessTokenTtlMs cfg) →
  jwt_strategy cfg findUnique now' (bearer (createAccessToken cfg now u)) =
  if bool_decide (now' / 1000 < now / 1000 + accessTokenTtlMs cfg / 1000 + 30) then jwt_callback findUnique (u_id u) else Ok None.
Proof.
  intros Hk Hl. unfold jwt_strategy, bearer, createAccessToken. cbn [authorization]. rewrite bearer_signed.
  set (o := mkJwtOptions _ _ _). change [jwtAlgorithm cfg] with [algorithm o]. rewrite (verify_signed _ _ _ o _ _ _ _ Hk Hl).
  by case_bool_decide.
Qed.

(** C: with the access token of a login, requests are authenticated as that
    account for the lifetime of the token and thirty seconds, whatever calls of
    the sign-in service happen in between; the role they get is the one the
    account had at the login, and guards decide by it.  Later the answer is 401. *)
Theorem session_opens_routes `{FileSystem} env cs now email pw db db' s cs2 now' allowed :
  buildAuthConfig env = Ok cfg → (jwtAlgorithm cfg = "RS256" → key_pair "RS256" (signingKey cfg) (verificationKey cfg)) →
  db = run cs empty_accounts → loginUser cfg now email pw db = (db', Ok s) →
  ∃ u, u ∈ users db ∧ u_id u = v_id (s_user s) ∧
  match authenticateJWT cfg (user_query (run cs2 db')) now' (bearer (accessToken (s_tokens s))) with
  | Ok req => now' / 1000 < now / 1000 + accessTokenTtlMs cfg / 1000 + 30 ∧
      (∃ a, req_user req = Some a ∧ a_id a = u_id u ∧ a_role a = u_role u) ∧
      restrictTo allowed req = if bool_decide (u_role u ∈ allowed) then Ok req else Throw Forbidden
  | Throw e => now / 1000 + accessTokenTtlMs cfg / 1000 + 30 ≤ now' / 1000 ∧ e = Unauthorized
  end.
Proof.
  intros Hcfg Hrs -> Hlog. destruct (login_access _ _ _ _ _ _ Hlog) as (u & Hu & Hid & Hat). exists u. split_and!; [done..|].
  apply auth_config_sound in Hcfg as [Halg [Hlife _]].
  assert (key_pair (jwtAlgorithm cfg) (signingKey cfg) (verificationKey cfg)) as Hk.
  { destruct Halg as [(E & _)|(E & -> & _)]; rewrite E; [by apply Hrs|apply secret_pair]. }
  unfold authenticateJWT. rewrite Hat, access_token_verified by done. case_bool_decide as Ht; [|split; [lia|done]].
  assert (∃ v, row_find u_id (u_id u) (users (run cs2 db')) = Some v ∧ u_role v = u_role u) as (v & Hv & Hrole).
  { assert (run cs2 db' = run (Login now email pw :: cs2) (run cs empty_accounts)) as -> by (unfold exec_all at 2; cbn [foldl exec]; by rewrite Hlog).
    destruct (exec_roles enc cfg (Login now email pw :: cs2) (run cs empty_accounts)) as (new & E & _).
    assert ((u_id u, u_role u) ∈ roles (run (Login now email pw :: cs2) (run cs empty_accounts))) as (v & Ev & Hv)%list_elem_of_fmap.
    { rewrite E. apply elem_of_app. left. by apply (list_elem_of_fmap_2 (λ u, (u_id u, u_role u))). }
    injection Ev as Ei Er. exists v. split; [|done]. apply row_find_elem; [|done|done].
    destruct (exec_all_evolves enc cfg (Login now email pw :: cs2) _ (run_wf enc cfg cs)) as [Hw _]. apply (uw_ids _ (proj1 Hw)). }
  unfold jwt_callback, user_query. rewrite Hv. apply row_find_Some in Hv as [_ Hvid]. split_and!; [done|by eexists|].
  unfold restrictTo. simpl. rewrite Hrole. by case_bool_decide.
Qed.
End sessions.

(** Sign-in does not escalate: no sequence of calls changes the role of an
    account, and the accounts it adds are users and guests. *)
Section escalation.
Context `{Prisma} `{Sha256} `{Bcrypt} `{JsonWebToken} `{NodeCipher} `{NodeRandom} `{JsNumber} `{StellarSdk} `{Mailer} `{OAuth}.
Context (enc : EncryptionService) (cfg : AuthConfig).

(** C: no sequence of calls of the sign-in service changes the role of an
    account or makes one that is more than a user or a guest. *)
Theorem sign_in_keeps_roles cs db :
  (∀ u, u ∈ users db → ∃ u', u' ∈ users (exec_all enc cfg cs db) ∧ u_id u' = u_id u ∧ u_role u' = u_role u) ∧
  (∀ u', u' ∈ users (exec_all enc cfg cs db) → u_role u' = "USER" ∨ u_role u' = "GUEST" ∨
    ∃ u, u ∈ users db ∧ u_id u = u_id u' ∧ u_role u = u_role u').
Proof.
  destruct (exec_roles enc cfg cs db) as (new & E & Hnew). unfold roles in E. rewrite Forall_forall in Hnew. split.
  - intros u Hu. assert ((u_id u, u_role u) ∈ roles (exec_all enc cfg cs db)) as (v & Ev & Hv)%list_elem_of_fmap.
    { unfold roles. rewrite E. apply elem_of_app. left. by apply (list_elem_of_fmap_2 (λ u, (u_id u, u_role u))). }
    injection Ev as ? ?. by exists v.
  - intros v Hv. assert ((u_id v, u_role v) ∈ (λ u, (u_id u, u_role u)) <$> users (exec_all enc cfg cs db)) as Hin
      by (by apply (list_elem_of_fmap_2 (λ u, (u_id u, u_role u)))).
    rewrite E in Hin. apply elem_of_app in Hin as [(u & Eu & Hu)%list_elem_of_fmap|Hin].
    + injection Eu as ? ?. right. right. by exists u.
    + apply Hnew in Hin as [Hr|Hr]; simpl in Hr; auto.
Qed.
End escalation.

(** ** Concrete tokens

    A token is the second it expires at and its subject. *)

Fixpoint cut_dot (s : string) : string * string :=
  match s with
  | EmptyString => ("", "")
  | String c s' => if bool_decide (c = "."%char) then ("", s') else let '(a, b) := cut_dot s' in (String c a, b)
  end.

Definition ttl_ms (text : string) : Z := match parseDurationToMs text "" with Ok ms => ms | Throw _ => 0 end.

Lemma lifetime_ms text ms : lifetime text ms → ttl_ms text = ms.
Proof.
  intros (d & u & k & -> & Hne & Hd & Hu & -> & _). unfold ttl_ms, parseDurationToMs.
  assert (match_duration (d +:+ String u "") = Some (d, u)) as ->; [|by rewrite Hu].
  induction d as [|c d IH]; [done|]. clear Hne. cbn [all_chars] in Hd. apply andb_True in Hd as [Hc Hd].
  destruct d as [|c' d].
  - simpl. rewrite Hu. by destruct (is_digit c).
  - specialize (IH ltac:(done) Hd). change (match_duration (String c (String c' d) +:+ String u "")) with
      (match (d +:+ String u "") with
       | EmptyString => if is_digit c && bool_decide (is_Some (durationUnitInMs c')) then Some (String c "", c') else None
       | _ => if is_digit c then (λ m, (String c m.1, m.2)) <$> match_duration (String c' d +:+ String u "") else None
       end).
    rewrite IH. destruct (is_digit c); [|done]. by destruct d.
Qed.

Section examples.
Import AuthModel.

#[local] Instance dated_jwt : JsonWebToken := λ claims key o now,
  pretty (now / 1000 + ttl_ms (expiresIn o) / 1000) +:+ "." +:+ subject o.

Definition dated_verify (token : string) (key : string) (algorithms : list string) (tolerance now : Z) : option string :=
  let '(exp, sub) := cut_dot token in
  e ← parseInt10 exp;
  if bool_decide (now / 1000 < e + tolerance) then Some sub else None.

Definition strip_bearer (header : option string) : option string :=
  match header with
  | Some h => if String.prefix "Bearer " h then Some (String.substring 7 (String.length h - 7) h) else None
  | None => None
  end.

Lemma cut_dot_app a b : all_chars (λ c, negb (bool_decide (c = "."%char))) a → cut_dot (a +:+ String "." b) = (a, b).
Proof.
  induction a as [|c a IH]; simpl; [done|]. rewrite andb_True. intros [Hc Ha]. case_bool_decide; [done|]. by rewrite IH.
Qed.

Lemma pretty_dotless (z : Z) : all_chars (λ c, negb (bool_decide (c = "."%char))) (pretty z).
Proof.
  assert (∀ n : N, all_chars (λ c, negb (bool_decide (c = "."%char))) (pretty n)) as Hn.
  { intros n. eapply all_chars_mono; [|apply pretty_N_digits]. intros c Hc. case_bool_decide; [by subst|done]. }
  destruct z as [|p|p]; [done|apply (Hn (N.pos p))|apply (Hn (N.pos p))].
Qed.

Lemma substring_all s : String.substring 0 (String.length s) s = s.
Proof. induction s as [|c s IH]; simpl; [done|]. by rewrite IH. Qed.

#[local] Instance dated_passport : PassportJwt.
Proof.
  refine {| fromAuthHeaderAsBearerToken := strip_bearer; jwt_verify := dated_verify; key_pair := λ _ k k', k = k' |}.
  - intros. set (t := jwt_sign _ _ _ _). unfold strip_bearer. simpl. rewrite Nat.sub_0_r. destruct t; [done|]. by rewrite substring_all.
  - done.
  - intros claims key key' o now now' tolerance ms _ Hl. unfold jwt_sign, dated_jwt, dated_verify.
    change ("." +:+ subject o) with (String "." (subject o)). rewrite cut_dot_app by apply pretty_dotless.
    rewrite parseInt10_pretty_Z, (lifetime_ms _ _ Hl). simpl. done.
Defined.

#[local] Existing Instance no_files.

Definition secret_config : AuthConfig := Eval vm_compute in
  match buildAuthConfig secret_env with Ok c => c | Throw _ => config end.

Definition ann : AccountDB := exec_all service secret_config calls empty_accounts.

Lemma session_opens_routes_witness : ∃ db' s,
  loginUser secret_config 2000 "ann@example.com" "correct horse" ann = (db', Ok s) ∧
  (match authenticateJWT secret_config (user_query db') 600000 (bearer (accessToken (s_tokens s))) with
   | Ok req => restrictTo ["ADMIN"] req = Throw Forbidden
   | Throw _ => False
   end) ∧
  authenticateJWT secret_config (user_query db') 3600000 (bearer (accessToken (s_tokens s))) = Throw Unauthorized.
Proof.
  destruct (loginUser secret_config 2000 "ann@example.com" "correct horse" ann) as [db' [s|e]] eqn:E; [|vm_compute in E; discriminate E].
  exists db', s. split; [reflexivity|].
  assert (jwtAlgorithm secret_config = "RS256" → key_pair "RS256" (signingKey secret_config) (verificationKey secret_config)) as Hrs by discriminate.
  assert (buildAuthConfig secret_env = Ok secret_config) as Hc by (vm_compute; reflexivity).
  assert (∀ u, u ∈ users ann → u_role u = "USER") as Hrole.
  { intros u Hu. assert (u_role <$> users ann = ["USER"]) as E' by (vm_compute; reflexivity).
    apply (list_elem_of_fmap_2 u_role) in Hu. rewrite E' in Hu. by apply list_elem_of_singleton in Hu. }
  split.
  - destruct (session_opens_routes service secret_config secret_env calls 2000 _ _ ann db' s [] 600000 ["ADMIN"] Hc Hrs eq_refl E)
      as (u & Hu & _ & Hm). change (exec_all service secret_config [] db') with db' in Hm.
    destruct (authenticateJWT _ _ _ _); [|vm_compute in Hm; destruct Hm as [Hm _]; by contradiction Hm].
    destruct Hm as (_ & _ & ->). by rewrite (Hrole u Hu).
  - destruct (session_opens_routes service secret_config secret_env calls 2000 _ _ ann db' s [] 3600000 ["ADMIN"] Hc Hrs eq_refl E)
      as (u & Hu & _ & Hm). change (exec_all service secret_config [] db') with db' in Hm.
    destruct (authenticateJWT _ _ _ _); [vm_compute in Hm; by destruct Hm as [Hm _]|]. by destruct Hm as [_ ->].
Defined.
End examples.
