(* ===== verification/PaymentMonitor.v ===== *)
(** * Payment monitor: [server/src/services/payment-monitor.worker.ts]

    The worker that polls pending payments, asks for their status and retries
    with exponential backoff until it gives up.  The clock is read once per
    poll; random readings are numbered as in [Crypto.v].  The status check of
    the code is a placeholder that always answers PENDING, so the worker is
    modelled for any check, with the code's as [checkExternalStatus].

    However the check answers, no payment is tried more than five times and
    every payment is settled after enough polls. *)

From stdpp Require Import prelude strings list pretty.
From S2P Require Import Prelude Prisma Crypto.

Inductive PaymentStatus := PENDING | COMPLETED | FAILED | DEAD_LETTER.
#[export] Instance PaymentStatus_eq_dec : EqDecision PaymentStatus.
Proof. solve_decision. Defined.

(** The columns of a payment the worker reads and writes. *)
Record Payment := mkPayment {
  p_id : string;
  p_status : PaymentStatus;
  p_txHash : option string;
  p_retryCount : Z;
  p_nextRetryAt : option Z;
  p_lastError : option string;
  p_updatedAt : Z;
}.

Record PaymentDB := mkPaymentDB { payments : list Payment; draws : nat }.

Inductive ExternalStatus := SUCCESS | TX_FAILED | STILL_PENDING.

Definition MAX_RETRIES : Z := 5.
Definition INITIAL_BACKOFF_MS : Z := 60000.

(** [prisma.payment.update({ where: { id }, data })] *)
Definition payment_update (id : string) (data : Payment → Payment) : M PaymentDB unit :=
  s ← get;
  match row_find p_id id (payments s) with
  | None => throw RecordNotFound
  | Some _ => put (mkPaymentDB (row_update p_id id data (payments s)) (draws s))
  end.

(** [Math.random()] as a fraction over 2^53 *)
Definition draw_random `{NodeRandom} : M PaymentDB Z :=
  s ← get; _ ← put (mkPaymentDB (payments s) (S (draws s))); mret (math_random (draws s)).

Section worker.
Context `{Prisma} `{NodeRandom}.

Definition markAsFailed (now : Z) (id reason : string) : M PaymentDB unit :=
  payment_update id (λ p, mkPayment (p_id p) FAILED (p_txHash p) (p_retryCount p) (p_nextRetryAt p) (Some reason) now).

(** A column set to [undefined] keeps its value; an empty message is falsy. *)
Definition handleRetry (now : Z) (payment : Payment) (error : option string) : M PaymentDB unit :=
  let retryCount := p_retryCount payment + 1 in
  if bool_decide (MAX_RETRIES ≤ retryCount) then
    payment_update (p_id payment) (λ p, mkPayment (p_id p) DEAD_LETTER (p_txHash p) (p_retryCount p) (p_nextRetryAt p)
      (Some (default "Max retries exceeded." (truthy_str error))) now)
  else
    let backoffMs := INITIAL_BACKOFF_MS * 2 ^ (retryCount - 1) in
    reading ← draw_random;
    let nextRetryAt := now + backoffMs + reading * 5000 / 2 ^ 53 in
    payment_update (p_id payment) (λ p, mkPayment (p_id p) (p_status p) (p_txHash p) retryCount (Some nextRetryAt)
      (match error with Some _ => error | None => p_lastError p end) now).

(** [error.message] *)
Definition message_of (e : exn) : string :=
  match e with HttpError _ m => m | JsError m => m | PrismaError c => c | UniqueConstraint _ => "P2002" end.

Definition checkExternalStatus (txHash : string) : result ExternalStatus := Ok STILL_PENDING.

Section check.
Context (check : string → result ExternalStatus).

Definition reconcilePayment (now : Z) (payment : Payment) : M PaymentDB unit :=
  try_catch
    (match truthy_str (p_txHash payment) with
     | None => markAsFailed now (p_id payment) "Missing transaction hash."
     | Some txHash =>
         status ← (match check txHash with Ok st => mret st | Throw e => throw e end);
         match status with
         | SUCCESS => payment_update (p_id payment) (λ p, mkPayment (p_id p) COMPLETED (p_txHash p) (p_retryCount p) (p_nextRetryAt p) (p_lastError p) now)
         | TX_FAILED => markAsFailed now (p_id payment) "External transaction failed."
         | STILL_PENDING => handleRetry now payment None
         end
     end)
    (λ error, handleRetry now payment (Some (message_of error))).

(** Pending, and without a time for the next try or with one that has come. *)
Definition due (now : Z) (p : Payment) : bool :=
  bool_decide (p_status p = PENDING) && match p_nextRetryAt p with None => true | Some t => bool_decide (t ≤ now) end.

Definition processPendingPayments (now : Z) : M PaymentDB unit :=
  pendingPayments ← gets (λ s, take 50 (any_order (List.filter (due now) (payments s))));
  for_each (reconcilePayment now) pendingPayments.
End check.

(** ** How often a payment is tried *)

(** Ids are unique and a pending payment has been tried less than five times. *)
Definition payments_ok (s : PaymentDB) : Prop :=
  NoDup (p_id <$> payments s) ∧ Forall (λ p, p_status p = PENDING → 0 ≤ p_retryCount p < MAX_RETRIES) (payments s).

(** The tries left. *)
Definition tries (p : Payment) : nat :=
  if bool_decide (p_status p = PENDING) then Z.to_nat (MAX_RETRIES - p_retryCount p) else O.

Definition total_tries (s : PaymentDB) : nat := sum_list_with tries (payments s).

(** A row that was pending is settled or has been tried once more. *)
Definition tried (p p' : Payment) : Prop :=
  p_id p' = p_id p ∧ (p_status p' ≠ PENDING ∨ p_status p' = PENDING ∧ p_retryCount p' = p_retryCount p + 1 ∧ p_retryCount p' < MAX_RETRIES).

(** What a step does to the table: one row changes. *)
Definition row_step (p : Payment) (s s' : PaymentDB) : Prop :=
  ∃ f, payments s' = row_update p_id (p_id p) f (payments s) ∧ tried p (f p) ∧ ∀ r, p_id (f r) = p_id r.

Lemma update_step id f s p : row_find p_id id (payments s) = Some p →
  payment_update id f s = (mkPaymentDB (row_update p_id id f (payments s)) (draws s), Ok tt).
Proof. intros E. unfold payment_update, mbind, M_bind, get, put. by rewrite E. Qed.

Lemma handleRetry_step now p e s : row_find p_id (p_id p) (payments s) = Some p → p_status p = PENDING →
  ∃ s', handleRetry now p e s = (s', Ok tt) ∧ row_step p s s'.
Proof.
  intros Hp Hs. unfold handleRetry. cbv zeta. case_bool_decide as Hr.
  - eexists. split; [by erewrite update_step|]. eexists. split; [done|]. split; [|done]. split; [done|]. by left.
  - unfold mbind, M_bind, draw_random, get, put. simpl.
    erewrite (update_step _ _ (mkPaymentDB (payments s) (S (draws s)))) by exact Hp. eexists. split; [done|]. eexists. split; [done|].
    split; [|done]. split; [done|]. right. simpl. split_and!; [done|done|lia].
Qed.

Lemma reconcile_step check now p s : row_find p_id (p_id p) (payments s) = Some p → p_status p = PENDING →
  ∃ s', reconcilePayment check now p s = (s', Ok tt) ∧ row_step p s s'.
Proof.
  intros Hp Hs. unfold reconcilePayment, try_catch. destruct (truthy_str (p_txHash p)) as [h|].
  - unfold mbind at 1, M_bind at 1. destruct (check h) as [[]|e].
    + simpl. erewrite update_step by exact Hp. eexists. split; [done|]. eexists. split; [done|]. split; [|done]. split; [done|]. by left.
    + simpl. unfold markAsFailed. erewrite update_step by exact Hp. eexists. split; [done|]. eexists. split; [done|]. split; [|done]. split; [done|]. by left.
    + simpl. destruct (handleRetry_step now p None s Hp Hs) as (s' & -> & Hst). by exists s'.
    + simpl. by apply handleRetry_step.
  - unfold markAsFailed. erewrite update_step by exact Hp. eexists. split; [done|]. eexists. split; [done|]. split; [|done]. split; [done|]. by left.
Qed.

Lemma row_update_middle (f : Payment → Payment) l1 p l2 : NoDup (p_id <$> l1 ++ p :: l2) →
  row_update p_id (p_id p) f (l1 ++ p :: l2) = l1 ++ f p :: l2.
Proof.
  rewrite fmap_app, fmap_cons, NoDup_app, NoDup_cons. intros (_ & Hd & Hp & _).
  assert (∀ l, p_id p ∉ p_id <$> l → row_update p_id (p_id p) f l = l) as Hsame.
  { intros l Hl. unfold row_update. rewrite <- (list_fmap_id l) at 2. apply list_fmap_ext. intros i r Hr%list_elem_of_lookup_2. simpl.
    rewrite bool_decide_false; [done|]. intros E. apply Hl. rewrite <- E. by apply list_elem_of_fmap_2. }
  unfold row_update at 1. rewrite fmap_app, fmap_cons. rewrite bool_decide_true by done.
  f_equal; [apply Hsame|f_equal; apply Hsame; done]. intros Hin. apply (Hd _ Hin). left.
Qed.

Lemma tries_drop p p' : p_status p = PENDING → 0 ≤ p_retryCount p < MAX_RETRIES → tried p p' →
  (tries p' < tries p)%nat ∧ (p_status p' = PENDING → 0 ≤ p_retryCount p' < MAX_RETRIES).
Proof.
  intros Hs Hr [_ Hc]. unfold tries. rewrite (bool_decide_true (p_status p = PENDING)) by done.
  unfold MAX_RETRIES in *. destruct Hc as [Hc|(Hc & E & Hlt)].
  - rewrite bool_decide_false by done. split; [lia|done].
  - rewrite bool_decide_true by done. rewrite E in *. lia.
Qed.

Lemma row_step_ok p s s' : payments_ok s → p ∈ payments s → p_status p = PENDING → row_step p s s' →
  payments_ok s' ∧ (total_tries s' < total_tries s)%nat ∧ p_id <$> payments s' = p_id <$> payments s ∧
  (∀ q, q ∈ payments s → p_id q ≠ p_id p → q ∈ payments s').
Proof.
  intros [Hnd Hall] Hin Hs (f & E & Ht & Hid). unfold payments_ok, total_tries. rewrite E. rewrite row_update_ids by done.
  apply list_elem_of_split in Hin as (l1 & l2 & Hl). rewrite Hl in *. rewrite row_update_middle by done.
  rewrite Forall_app, Forall_cons in *. destruct Hall as (H1 & Hp & H2). destruct (tries_drop _ _ Hs (Hp Hs) Ht) as [Hlt Hok].
  split_and!; try done.
  - rewrite !sum_list_with_app. simpl. lia.
  - intros q. rewrite !elem_of_app, !elem_of_cons. naive_solver.
Qed.

(** The loop over some of the pending rows. *)
Lemma reconcile_all check now ps : ∀ s, payments_ok s → NoDup (p_id <$> ps) → Forall (λ p, p ∈ payments s ∧ p_status p = PENDING) ps →
  ∃ s', for_each (reconcilePayment check now) ps s = (s', Ok tt) ∧ payments_ok s' ∧ (total_tries s' + length ps ≤ total_tries s)%nat ∧
    p_id <$> payments s' = p_id <$> payments s.
Proof.
  induction ps as [|p ps IH]; intros s Hok Hnd Hps.
  - exists s. split_and!; try done. simpl. lia.
  - apply NoDup_cons in Hnd as [Hp Hnd]. apply Forall_cons in Hps as [[Hin Hs] Hps].
    assert (row_find p_id (p_id p) (payments s) = Some p) as Hrow by (apply row_find_elem; [apply Hok|done|done]).
    destruct (reconcile_step check now p s Hrow Hs) as (s1 & E1 & Hst).
    destruct (row_step_ok p s s1 Hok Hin Hs Hst) as (Hok1 & Hlt & Hids & Hkeep).
    destruct (IH s1 Hok1 Hnd) as (s' & E' & Hok' & Hle & Hids').
    { eapply Forall_impl; [apply Forall_and; split; [exact Hps|]|].
      - apply Forall_forall. intros q Hq. exact (list_elem_of_fmap_2 p_id _ _ Hq).
      - intros q [[Hq Hqs] Hqi]. split; [|done]. apply Hkeep; [done|]. intros E. apply Hp. by rewrite <- E. }
    exists s'. cbn [for_each]. unfold mbind, M_bind. rewrite E1. split_and!; [done|done|simpl; lia|congruence].
Qed.

Lemma poll_step check now s : payments_ok s → ∃ s', processPendingPayments check now s = (s', Ok tt) ∧ payments_ok s' ∧
  (total_tries s' + Nat.min 50 (length (List.filter (due now) (payments s))) ≤ total_tries s)%nat ∧ p_id <$> payments s' = p_id <$> payments s.
Proof.
  intros Hok. unfold processPendingPayments, gets. unfold mbind, M_bind.
  set (dues := List.filter (due now) (payments s)). set (ps := take 50 (any_order dues)).
  assert (ps `sublist_of` any_order dues) as Hsub by apply sublist_take.
  assert (length ps = Nat.min 50 (length dues)) as Hlen by (unfold ps; by rewrite length_take, any_order_perm).
  rewrite <- Hlen. apply reconcile_all; [done| |].
  - assert (NoDup (p_id <$> dues)) as Hnd.
    { eapply sublist_NoDup; [exact (proj1 Hok)|]. apply fmap_sublist. unfold dues. clear. induction (payments s) as [|x l IH]; simpl; [done|].
      destruct (due now x); [by apply sublist_skip|by apply sublist_cons]. }
    eapply sublist_NoDup; [|apply fmap_sublist, Hsub]. by rewrite any_order_perm.
  - apply Forall_forall. intros p Hp. pose proof (elem_of_sublist _ _ _ Hp Hsub) as Hin. rewrite any_order_perm in Hin.
    unfold dues in Hin. rewrite list_elem_of_In, filter_In, <- list_elem_of_In in Hin. destruct Hin as [Hin Hd]. split; [done|].
    unfold due in Hd. apply andb_true_iff in Hd as [Hd _]. by apply bool_decide_eq_true in Hd.
Qed.

(** Polls, each with the clock and the answers of the check. *)
Definition poll_all (polls : list (Z * (string → result ExternalStatus))) (s : PaymentDB) : PaymentDB :=
  foldl (λ s poll, (processPendingPayments poll.2 poll.1 s).1) s polls.

(** How many of the polls found work. *)
Fixpoint busy_polls (polls : list (Z * (string → result ExternalStatus))) (s : PaymentDB) : nat :=
  match polls with
  | [] => O
  | poll :: rest =>
      ((if bool_decide (List.filter (due poll.1) (payments s) = []) then O else 1) +
       busy_polls rest (processPendingPayments poll.2 poll.1 s).1)%nat
  end.

Lemma total_tries_bound s : payments_ok s → (total_tries s ≤ 5 * length (payments s))%nat.
Proof.
  intros [_ Hall]. unfold total_tries. induction Hall as [|p l Hp _ IH]; [done|]. simpl.
  assert (tries p ≤ 5)%nat; [|lia]. unfold tries. case_bool_decide as E; [|lia]. specialize (Hp E). unfold MAX_RETRIES in *. lia.
Qed.

Lemma busy_bound polls s : payments_ok s → payments_ok (poll_all polls s) ∧
  (total_tries (poll_all polls s) + busy_polls polls s ≤ total_tries s)%nat.
Proof.
  revert s. induction polls as [|poll polls IH]; intros s Hok; [simpl; split; [done|lia]|].
  destruct (poll_step poll.2 poll.1 s Hok) as (s' & E & Hok' & Hle & _). destruct (IH s' Hok') as [Hok2 Hle2].
  unfold poll_all in *. cbn [foldl busy_polls]. rewrite E. simpl. split; [done|]. case_bool_decide as Hd; [lia|].
  destruct (List.filter _ (payments s)); [done|]. simpl in Hle. lia.
Qed.

(** C: the worker gives up.  Whatever the checks answer, throw or claim, a poll
    always returns, and at most five polls per payment find anything to do. *)
Theorem worker_terminates polls s : payments_ok s →
  (∀ now check, ∃ s', processPendingPayments check now s = (s', Ok tt)) ∧ (busy_polls polls s ≤ 5 * length (payments s))%nat.
Proof.
  intros Hok. split.
  - intros now check. destruct (poll_step check now s Hok) as (s' & -> & _). by exists s'.
  - pose proof (total_tries_bound s Hok). destruct (busy_bound polls s Hok). lia.
Qed.

(** Every poll comes after the times set for the next try. *)
Fixpoint late (polls : list (Z * (string → result ExternalStatus))) (s : PaymentDB) : bool :=
  match polls with
  | [] => true
  | poll :: rest =>
      forallb (λ p, match p_nextRetryAt p with Some t => bool_decide (t ≤ poll.1) | None => true end) (payments s) &&
      late rest (processPendingPayments poll.2 poll.1 s).1
  end.

Lemma late_busy polls s : payments_ok s → late polls s = true →
  (∀ p, p ∈ payments (poll_all polls s) → p_status p ≠ PENDING) ∨ (length polls ≤ busy_polls polls s)%nat.
Proof.
  revert s. induction polls as [|poll polls IH]; intros s Hok Hl; [by right|]. cbn [late] in Hl. apply andb_true_iff in Hl as [Hl Hrest].
  destruct (poll_step poll.2 poll.1 s Hok) as (s' & E & Hok' & Hle & _).
  unfold poll_all in *. cbn [foldl busy_polls]. rewrite E in *. simpl in *.
  destruct (IH s' Hok' Hrest) as [Hd|Hb]; [by left|]. case_bool_decide as Hd; [|right; lia]. left.
  assert (Forall (λ p, p_status p ≠ PENDING) (payments s)) as Hnone.
  { apply Forall_forall. intros p Hp Hs. assert (p ∈ []) as Hin; [|by apply not_elem_of_nil in Hin]. rewrite <- Hd.
    rewrite list_elem_of_In, filter_In, <- list_elem_of_In. split; [done|]. unfold due. rewrite bool_decide_true by done.
    rewrite forallb_forall in Hl. apply Hl. by rewrite <- list_elem_of_In. }
  intros p Hp Hs. destruct (busy_bound polls s' Hok') as [[_ Hall] Htot].
  assert (total_tries s = 0)%nat as Hz.
  { unfold total_tries. clear -Hnone. induction Hnone as [|q l Hq _ IH]; [done|]. simpl. unfold tries at 1. by rewrite bool_decide_false. }
  assert (total_tries (foldl (λ s poll, (processPendingPayments poll.2 poll.1 s).1) s' polls) = 0)%nat as Hz' by (unfold poll_all in *; lia).
  rewrite Forall_forall in Hall. specialize (Hall p Hp Hs). apply list_elem_of_split in Hp as (l1 & l2 & El).
  unfold total_tries in Hz'. rewrite El, sum_list_with_app in Hz'. simpl in Hz'. unfold tries in Hz' at 2.
  rewrite bool_decide_true in Hz' by done. unfold MAX_RETRIES in *. lia.
Qed.

(** C39: c: every payment is settled.  After more than five polls per payment, each
    made once the times set for the next tries have come, no payment is pending,
    however many there are and whatever the checks answer. *)
Theorem payments_settle polls s : payments_ok s → late polls s = true → (5 * length (payments s) < length polls)%nat →
  ∀ p, p ∈ payments (poll_all polls s) → p_status p ≠ PENDING.
Proof.
  intros Hok Hl Hn. destruct (late_busy polls s Hok Hl) as [Hd|Hb]; [done|]. exfalso.
  pose proof (total_tries_bound s Hok). destruct (busy_bound polls s Hok). lia.
Qed.

(** The times of the next tries double, up to five seconds. *)
Lemma backoff_doubles now p s s' : 0 ≤ p_retryCount p < 4 → row_find p_id (p_id p) (payments s) = Some p →
  handleRetry now p None s = (s', Ok tt) →
  ∃ q t, q ∈ payments s' ∧ p_id q = p_id p ∧ p_nextRetryAt q = Some t ∧
    now + 60000 * 2 ^ p_retryCount p ≤ t < now + 60000 * 2 ^ p_retryCount p + 5000.
Proof.
  intros Hr Hp. unfold handleRetry. cbv zeta. rewrite bool_decide_false by (unfold MAX_RETRIES; lia).
  unfold mbind, M_bind, draw_random, get, put. simpl.
  erewrite (update_step _ _ (mkPaymentDB (payments s) (S (draws s)))) by exact Hp. intros [= <-].
  eexists _, _. split; [apply elem_of_row_update; exists p; split; [by apply row_find_Some in Hp as [? _]|by rewrite bool_decide_true]|].
  simpl. split_and!; try done; replace (p_retryCount p + 1 - 1) with (p_retryCount p) by lia; unfold INITIAL_BACKOFF_MS.
  all: pose proof (math_random_range (draws s)).
  - assert (0 ≤ math_random (draws s) * 5000 / 2 ^ 53) by (apply Z.div_pos; lia). lia.
  - assert (math_random (draws s) * 5000 / 2 ^ 53 < 5000) by (apply Z.div_lt_upper_bound; lia). lia.
Qed.

(** The check of the code never lets a payment complete. *)
Definition completed (s : PaymentDB) (id : string) : Prop := ∃ q, q ∈ payments s ∧ p_id q = id ∧ p_status q = COMPLETED.

Lemma update_completed id f s i : (∀ r, p_id (f r) = p_id r ∧ (p_status (f r) = p_status r ∨ p_status (f r) ≠ COMPLETED)) →
  completed (payment_update id f s).1 i → completed s i.
Proof.
  intros Hf. unfold payment_update, mbind, M_bind, get, put. destruct (row_find _ _ _); [|done]. simpl.
  intros (q & (r & Hr & E)%elem_of_row_update & Hi & Hc). exists r. destruct (Hf r) as [Hid Hs]. case_bool_decide; subst; naive_solver congruence.
Qed.

Lemma placeholder_never_completes now p s i : completed (reconcilePayment checkExternalStatus now p s).1 i → completed s i.
Proof.
  assert (∀ e s, completed (handleRetry now p e s).1 i → completed s i) as Hretry.
  { intros e s0. unfold handleRetry. cbv zeta. case_bool_decide; [by apply update_completed; auto|].
    unfold mbind, M_bind, draw_random, get, put. simpl. intros Hc. apply update_completed in Hc; [done|]. auto. }
  unfold reconcilePayment, try_catch. destruct (truthy_str (p_txHash p)).
  - unfold mbind, M_bind. simpl. destruct (handleRetry now p None s) as [s1 [|e]] eqn:E.
    + intros Hc. apply (Hretry None). by rewrite E.
    + intros Hc%Hretry. apply (Hretry None). by rewrite E.
  - destruct (markAsFailed _ _ _ s) as [s1 [|e]] eqn:E; simpl; [|intros Hc%Hretry; revert Hc]; change s1 with (s1, @Throw unit RecordNotFound).1.
    all: intros Hc; eapply (update_completed _ _ s); [|unfold markAsFailed in E; rewrite E; exact Hc]; simpl; auto.
Qed.
End worker.

(** ** A run *)

Section examples.
#[local] Existing Instance random_model.

Definition two_payments : PaymentDB := mkPaymentDB
  [mkPayment "p1" PENDING (Some "tx1") 0 None None 0; mkPayment "p2" PENDING None 0 None None 0] 0.

Definition hourly (n : nat) : list (Z * (string → result ExternalStatus)) :=
  (λ i, (3600000 * Z.of_nat i, checkExternalStatus)) <$> seq 0 n.

Lemma two_payments_ok : payments_ok two_payments.
Proof. split; [by apply (bool_decide_unpack _); vm_compute|]. repeat constructor; unfold MAX_RETRIES; simpl; lia. Qed.

Lemma payments_settle_witness : (∀ p, p ∈ payments (poll_all (hourly 11) two_payments) → p_status p ≠ PENDING) ∧
  p_status <$> payments (poll_all (hourly 11) two_payments) = [DEAD_LETTER; FAILED].
Proof.
  split; [|vm_compute; reflexivity]. apply (payments_settle (hourly 11) two_payments two_payments_ok); [|simpl; lia].
  vm_compute. reflexivity.
Defined.

Lemma worker_terminates_witness : (busy_polls (hourly 20) two_payments ≤ 10)%nat ∧ busy_polls (hourly 20) two_payments = 5%nat.
Proof. split; [exact (proj2 (worker_terminates (hourly 20) two_payments two_payments_ok))|vm_compute; reflexivity]. Defined.
End examples.
