(* ===== verification/Admin.v ===== *)
(** * Administration: [server/src/services/admin.service.ts]

    Bans, the configuration of the game and the moderation queue.  The service
    keeps bans twice, in the table and in a map in memory; the map agrees with
    the table as long as the service runs and nobody is banned twice at once.

    The webhook calls are fire and forget and left out, as are the listing of
    users, the health report and [reportContent], which calls the text filters.
    Durations are whole hours. *)

From Stdlib Require Import Ascii.
From stdpp Require Import prelude strings list pretty.
From S2P Require Import Prelude JsText Prisma.

(** ** Data *)

Record BanUserPayload := mkPayload { userId : string; reason : string; duration : option Z }.

Record GameConfig := mkConfig {
  maintenanceMode : bool;
  maxPlayersPerMatch : Z;
  minPlayersToStart : Z;
  matchTimeout : Z;
  dailyMatchLimit : Z;
}.

(** [Partial<GameConfig>] *)
Record ConfigUpdate := mkUpdate {
  c_maintenanceMode : option bool;
  c_maxPlayersPerMatch : option Z;
  c_minPlayersToStart : option Z;
  c_matchTimeout : option Z;
  c_dailyMatchLimit : option Z;
}.

Record Ban := mkBan { b_id : string; b_userId : string; b_reason : string; b_bannedAt : Z; b_unbannedAt : option Z }.

Inductive ModerationStatus := PENDING | REVIEWED | ACTIONED.
#[export] Instance ModerationStatus_eq_dec : EqDecision ModerationStatus.
Proof. solve_decision. Defined.

Record ModerationItem := mkItem {
  i_id : string;
  i_type : string;
  i_reportedUserId : string;
  i_content : string;
  i_reportedAt : Z;
  i_status : ModerationStatus;
  i_reviewedAt : option Z;
  i_actionTaken : option string;
}.

(** The tables the service uses, the role of each user among them, and what it
    keeps in memory. *)
Record AdminState := mkAdmin {
  user_roles : jsmap string;
  bans : list Ban;
  gameConfigs : list (string * GameConfig);
  moderationItems : list ModerationItem;
  auditRows : list (string * string * string);
  serial : nat;
  inMemoryGameConfig : GameConfig;
  bannedUsers : jsmap (string * option Z);
}.

Definition default_config : GameConfig := mkConfig false 8 2 3600 100.

Definition set_bans (bs : list Ban) (s : AdminState) : AdminState :=
  mkAdmin (user_roles s) bs (gameConfigs s) (moderationItems s) (auditRows s) (serial s) (inMemoryGameConfig s) (bannedUsers s).
Definition set_memory (m : jsmap (string * option Z)) (s : AdminState) : AdminState :=
  mkAdmin (user_roles s) (bans s) (gameConfigs s) (moderationItems s) (auditRows s) (serial s) (inMemoryGameConfig s) m.
Definition set_configs (cs : list (string * GameConfig)) (s : AdminState) : AdminState :=
  mkAdmin (user_roles s) (bans s) cs (moderationItems s) (auditRows s) (serial s) (inMemoryGameConfig s) (bannedUsers s).
Definition set_items (is_ : list ModerationItem) (s : AdminState) : AdminState :=
  mkAdmin (user_roles s) (bans s) (gameConfigs s) is_ (auditRows s) (serial s) (inMemoryGameConfig s) (bannedUsers s).
Definition set_audit (rows : list (string * string * string)) (s : AdminState) : AdminState :=
  mkAdmin (user_roles s) (bans s) (gameConfigs s) (moderationItems s) rows (serial s) (inMemoryGameConfig s) (bannedUsers s).
Definition next_serial (s : AdminState) : AdminState :=
  mkAdmin (user_roles s) (bans s) (gameConfigs s) (moderationItems s) (auditRows s) (S (serial s)) (inMemoryGameConfig s) (bannedUsers s).
Definition set_default (c : GameConfig) (s : AdminState) : AdminState :=
  mkAdmin (user_roles s) (bans s) (gameConfigs s) (moderationItems s) (auditRows s) (serial s) c (bannedUsers s).

Section admin.
Context `{Prisma}.

(** ** Bans *)

(** [auditLog]: the row refers to the user with the id [adminId]. *)
Definition auditLog (adminId action target : string) : M AdminState bool :=
  s ← get;
  if map_has adminId (user_roles s)
  then (_ ← put (next_serial (set_audit (auditRows s ++ [(adminId, action, target)]) s)); mret true)
  else throw ForeignKeyViolation.

Definition ban_create (u r : string) (unbannedAt : option Z) : M AdminState unit :=
  modify (λ s, next_serial (set_bans (bans s ++ [mkBan (uuid (serial s)) u r (db_now (serial s)) unbannedAt]) s)).

Definition banUser (now : Z) (payload : BanUserPayload) : M AdminState bool :=
  let u := userId payload in let r := reason payload in
  if bool_decide (u = "" ∨ r = "") then throw (JsError "userId and reason are required")
  else if bool_decide (String.length (trim r) < 5)%nat then throw (JsError "reason must be at least 5 characters")
  else if match duration payload with Some d => bool_decide (24 * 30 < d) | None => false end
  then throw (JsError "duration cannot exceed 30 days")
  else
    target ← gets (λ s, map_get u (user_roles s));
    match target with
    | None => throw (JsError "user not found")
    | Some role =>
        if bool_decide (role = "ADMIN" ∨ role = "MODERATOR") then throw (JsError "cannot ban a user with elevated privileges")
        else
          let unbannedAt := match duration payload with
                            | Some d => if bool_decide (d = 0) then None else Some (now + d * 60 * 60 * 1000)
                            | None => None end in
          _ ← ban_create u r unbannedAt;
          _ ← modify (λ s, set_memory (map_set u (r, unbannedAt) (bannedUsers s)) s);
          _ ← try_catch (auditLog "system" "ban_user" u) (λ _, mret true);
          mret true
    end.

(** [unbannedAt] is null or later *)
Definition active_ban (now : Z) (b : Ban) : bool :=
  match b_unbannedAt b with None => true | Some t => bool_decide (now < t) end.

Definition latest_ban (a b : Ban) : bool := bool_decide (b_bannedAt b ≤ b_bannedAt a).

Definition unbanUser (now : Z) (u : string) : M AdminState bool :=
  activeBan ← gets (λ s, head (order_by latest_ban (List.filter (λ b, bool_decide (b_userId b = u) && active_ban now b) (bans s))));
  match activeBan with
  | None => throw (JsError "User is not banned")
  | Some b =>
      _ ← modify (λ s, set_bans (row_update b_id (b_id b) (λ r, mkBan (b_id r) (b_userId r) (b_reason r) (b_bannedAt r) (Some now)) (bans s)) s);
      _ ← modify (λ s, set_memory (map_delete u (bannedUsers s)) s);
      _ ← try_catch (auditLog "system" "unban_user" u) (λ _, mret true);
      mret true
  end.

Definition isUserBanned (now : Z) (u : string) : M AdminState bool :=
  s ← get;
  match map_get u (bannedUsers s) with
  | None => mret false
  | Some (_, unbannedAt) =>
      if match unbannedAt with Some t => bool_decide (t < now) | None => false end
      then (_ ← put (set_memory (map_delete u (bannedUsers s)) s); mret false)
      else mret true
  end.

Definition getBanInfo (u : string) : M AdminState (option (string * option Z)) := gets (λ s, map_get u (bannedUsers s)).

(** ** Configuration *)

Definition findFirst_config : M AdminState (option (string * GameConfig)) := gets (λ s, head (any_order (gameConfigs s))).

Definition getGameConfig : M AdminState GameConfig :=
  cfg ← findFirst_config;
  match cfg with
  | Some (_, c) => mret c
  | None => gets inMemoryGameConfig
  end.

(** The fields of an update over a configuration. *)
Definition merge_config (u : ConfigUpdate) (c : GameConfig) : GameConfig :=
  mkConfig (default (maintenanceMode c) (c_maintenanceMode u)) (default (maxPlayersPerMatch c) (c_maxPlayersPerMatch u))
    (default (minPlayersToStart c) (c_minPlayersToStart u)) (default (matchTimeout c) (c_matchTimeout u))
    (default (dailyMatchLimit c) (c_dailyMatchLimit u)).

(** [n && n < 2] and the like: zero counts as not given. *)
Definition given_number (n : option Z) : option Z := match n with Some z => if bool_decide (z = 0) then None else Some z | None => None end.

Definition updateGameConfig (config : ConfigUpdate) : M AdminState GameConfig :=
  if match given_number (c_maxPlayersPerMatch config) with Some z => bool_decide (z < 2) | None => false end
  then throw (JsError "maxPlayersPerMatch must be at least 2")
  else
    s ← get;
    let maxPlayers := default (maxPlayersPerMatch (inMemoryGameConfig s)) (c_maxPlayersPerMatch config) in
    if match given_number (c_minPlayersToStart config) with Some z => bool_decide (maxPlayers < z) | None => false end
    then throw (JsError "minPlayersToStart cannot exceed maxPlayersPerMatch")
    else
      existing ← findFirst_config;
      match existing with
      | Some (id, c) =>
          let updated := merge_config config c in
          _ ← modify (λ s, set_configs (row_update fst id (λ r, (r.1, updated)) (gameConfigs s)) s);
          mret updated
      | None =>
          let created := merge_config config default_config in
          _ ← modify (λ s, next_serial (set_configs (gameConfigs s ++ [(uuid (serial s), created)]) s));
          mret created
      end.

Definition toggleMaintenanceMode (enabled : bool) : M AdminState bool :=
  _ ← modify (λ s, let c := inMemoryGameConfig s in
        set_default (mkConfig enabled (maxPlayersPerMatch c) (minPlayersToStart c) (matchTimeout c) (dailyMatchLimit c)) s);
  mret true.

(** ** Moderation *)

Definition newest_item (a b : ModerationItem) : bool := bool_decide (i_reportedAt b ≤ i_reportedAt a).

Definition getModerationQueue : M AdminState (list ModerationItem) :=
  gets (λ s, order_by newest_item (List.filter (λ i, bool_decide (i_status i = PENDING)) (moderationItems s))).

Inductive ReviewAction := approve | reject | remove.

Definition action_text (a : ReviewAction) : string :=
  match a with approve => "approve" | reject => "reject" | remove => "removed" end.

Definition reviewContent (now : Z) (contentId : string) (action : ReviewAction) : M AdminState bool :=
  existing ← gets (λ s, row_find i_id contentId (moderationItems s));
  match existing with
  | None => throw (JsError "Content not found in moderation queue")
  | Some _ =>
      _ ← modify (λ s, set_items (row_update i_id contentId (λ i, mkItem (i_id i) (i_type i) (i_reportedUserId i) (i_content i)
            (i_reportedAt i) REVIEWED (Some now) (Some (action_text action))) (moderationItems s)) s);
      mret true
  end.
End admin.

(** ** What administration guarantees

    Staff cannot be banned; the map in memory answers as the table does while
    nobody is banned twice at once; reviewed content leaves the queue; an update
    of the configuration is read back.  The runs at the end show where the two
    copies of the bans and of the configuration come apart. *)

Section spec.
Context `{Prisma}.
Implicit Types s : AdminState.

Inductive admin_call :=
| BanUser (payload : BanUserPayload)
| UnbanUser (u : string)
| IsUserBanned (u : string)
| UpdateConfig (c : ConfigUpdate)
| Toggle (enabled : bool)
| Review (contentId : string) (action : ReviewAction).

(** A call at an instant, whether it returns or throws. *)
Definition exec (t : Z) (c : admin_call) s : AdminState :=
  match c with
  | BanUser p => (banUser t p s).1
  | UnbanUser u => (unbanUser t u s).1
  | IsUserBanned u => (isUserBanned t u s).1
  | UpdateConfig c => (updateGameConfig c s).1
  | Toggle b => (toggleMaintenanceMode b s).1
  | Review i a => (reviewContent t i a s).1
  end.

Definition exec_all (cs : list (Z * admin_call)) s : AdminState := foldl (λ s c, exec c.1 c.2 s) s cs.

(** Time does not go back, and nobody is banned under an active ban. *)
Fixpoint careful (t : Z) (cs : list (Z * admin_call)) s : bool :=
  match cs with
  | [] => true
  | (t', c) :: rest =>
      bool_decide (t ≤ t') &&
      match c with
      | BanUser p => negb (existsb (λ b, bool_decide (b_userId b = userId p) && active_ban t' b) (bans s))
      | _ => true
      end && careful t' rest (exec t' c s)
  end.

Definition last_time (t : Z) (cs : list (Z * admin_call)) : Z := default t (last (fst <$> cs)).

(** ** The two copies *)

Definition ended (t : Z) (b : Ban) : Prop := ∃ x, b_unbannedAt b = Some x ∧ x ≤ t.

Definition agree (t : Z) s : Prop := ∀ u,
  match map_get u (bannedUsers s) with
  | Some (_, e) => ∃ b, b ∈ bans s ∧ b_userId b = u ∧ b_unbannedAt b = e ∧
                   ∀ b', b' ∈ bans s → b_userId b' = u → b' = b ∨ ended t b'
  | None => ∀ b, b ∈ bans s → b_userId b = u → ended t b
  end.

Record admin_wf (t : Z) s : Prop := {
  aw_ids : NoDup (b_id <$> bans s);
  aw_issued : Forall (issued (serial s)) (b_id <$> bans s);
  aw_agree : agree t s;
  aw_staff : ∀ b, b ∈ bans s → ∃ role, map_get (b_userId b) (user_roles s) = Some role ∧ role ≠ "ADMIN" ∧ role ≠ "MODERATOR";
}.

Lemma ended_mono t t' b : t ≤ t' → ended t b → ended t' b.
Proof. intros Ht (x & E & Hx). exists x. split; [done|lia]. Qed.

Lemma ended_active t b : ended t b ↔ active_ban t b = false.
Proof.
  unfold ended, active_ban. destruct (b_unbannedAt b) as [x|]; [|naive_solver]. rewrite bool_decide_eq_false. naive_solver lia.
Qed.

Lemma agree_mono t t' s : t ≤ t' → agree t s → agree t' s.
Proof.
  intros Ht Ha u. specialize (Ha u). destruct (map_get u (bannedUsers s)) as [[r e]|].
  - destruct Ha as (b & Hb & Hu & He & Ho). exists b. split_and!; try done. intros b' Hb' Hu'.
    destruct (Ho b' Hb' Hu'); [by left|right]. by eapply ended_mono.
  - intros b Hb Hu. by eapply ended_mono, Ha.
Qed.

(** Calls that touch neither copy. *)
Lemma admin_wf_frame t t' s s' : admin_wf t s → t ≤ t' → bans s' = bans s → bannedUsers s' = bannedUsers s → user_roles s' = user_roles s →
  (serial s ≤ serial s')%nat → admin_wf t' s'.
Proof.
  intros [Hi Hs Ha Hst] Ht Eb Em Er Hse. split; rewrite ?Eb, ?Er; try done.
  - eapply Forall_impl; [exact Hs|]. intros i (k & Hk & E). exists k. split; [lia|done].
  - pose proof (agree_mono t t' s Ht Ha) as Ha'. unfold agree in *. intros u. rewrite Eb, Em. apply Ha'.
Qed.

Lemma auditLog_frame a b c s : let s' := (try_catch (auditLog a b c) (λ _, mret true) s).1 in
  bans s' = bans s ∧ bannedUsers s' = bannedUsers s ∧ user_roles s' = user_roles s ∧ (serial s ≤ serial s')%nat ∧
  ∃ v, (try_catch (auditLog a b c) (λ _, mret true) s).2 = Ok v.
Proof.
  unfold try_catch, auditLog, mbind, M_bind, get, put, throw. destruct (map_has a (user_roles s)); simpl; split_and!; eauto; lia.
Qed.

(** What a call of [banUser] leaves. *)
Lemma banUser_result t p s : (∃ e, banUser t p s = (s, Throw e)) ∨
  ∃ s' role e, banUser t p s = (s', Ok true) ∧ map_get (userId p) (user_roles s) = Some role ∧ role ≠ "ADMIN" ∧ role ≠ "MODERATOR" ∧
    bans s' = bans s ++ [mkBan (uuid (serial s)) (userId p) (reason p) (db_now (serial s)) e] ∧
    bannedUsers s' = map_set (userId p) (reason p, e) (bannedUsers s) ∧ user_roles s' = user_roles s ∧ (serial s < serial s')%nat.
Proof.
  destruct (banUser t p s) as [s' r] eqn:E. revert E. unfold banUser. cbv zeta.
  case_bool_decide; [intros [= <- <-]; left; by eexists|]. case_bool_decide; [intros [= <- <-]; left; by eexists|].
  destruct (match duration p with Some d => bool_decide (24 * 30 < d) | None => false end); [intros [= <- <-]; left; by eexists|].
  unfold gets. unfold mbind at 1, M_bind at 1. destruct (map_get (userId p) (user_roles s)) as [role|] eqn:Er; [|intros [= <- <-]; left; by eexists].
  case_bool_decide as Hst; [intros [= <- <-]; left; by eexists|]. set (unb := match duration p with Some d => _ | None => _ end).
  unfold mbind, M_bind, ban_create, modify. cbv beta iota. match goal with |- context [try_catch ?m ?h ?s1] => set (s2 := s1) end.
  destruct (auditLog_frame "system" "ban_user" (userId p) s2) as (Eb & Em & Eu & Hs & v & Ev).
  destruct (try_catch (auditLog "system" "ban_user" (userId p)) _ s2) as [s3 r3]. simpl in *. subst r3. intros [= <- <-]. right.
  eexists _, role, unb. split; [done|]. rewrite Eb, Em, Eu. simpl. split_and!; try done; naive_solver.
Qed.

Lemma ban_wf t t' p s : admin_wf t s → t ≤ t' → existsb (λ b, bool_decide (b_userId b = userId p) && active_ban t' b) (bans s) = false →
  admin_wf t' (banUser t' p s).1.
Proof.
  intros Hw Ht Hno. destruct (banUser_result t' p s) as [[e ->]|(s' & role & e & -> & Er & Hr1 & Hr2 & Eb & Em & Eu & Hs)];
    [by eapply admin_wf_frame|]. simpl. destruct Hw as [Hi Hse Ha Hst]. split; rewrite ?Eb, ?Eu.
  - rewrite fmap_app, NoDup_app. split_and!; [done| |apply NoDup_singleton]. intros i Hin Hi'. apply list_elem_of_singleton in Hi' as ->.
    rewrite Forall_forall in Hse. by apply (not_issued (serial s)), Hse.
  - rewrite fmap_app, Forall_app. split.
    + eapply Forall_impl; [exact Hse|]. intros i (k & Hk & E). exists k. split; [lia|done].
    + constructor; [|done]. exists (serial s). simpl. split; [lia|done].
  - assert (∀ b, b ∈ bans s → b_userId b = userId p → ended t' b) as Hend.
    { intros b Hb Hu. apply ended_active. destruct (active_ban t' b) eqn:E; [|done]. exfalso.
      assert (existsb (λ b, bool_decide (b_userId b = userId p) && active_ban t' b) (bans s) = true); [|congruence].
      apply existsb_exists. exists b. rewrite <- list_elem_of_In, bool_decide_true, E by done. done. }
    intros u. rewrite Em, Eb, map_get_set. case_bool_decide as Hu.
    + subst u. eexists. split; [apply elem_of_app; right; by left|]. split_and!; try done.
      intros b' [Hb'|Hb']%elem_of_app Hu'; [right; by apply Hend|left]. by apply list_elem_of_singleton in Hb'.
    + pose proof (agree_mono t t' s Ht Ha u) as Hau. destruct (map_get u (bannedUsers s)) as [[r e']|].
      * destruct Hau as (b & Hb & Hbu & He & Ho). exists b. split_and!; [apply elem_of_app; by left|done|done|].
        intros b' [Hb'|Hb']%elem_of_app Hu'; [by apply Ho|]. apply list_elem_of_singleton in Hb'. subst b'. simpl in Hu'. congruence.
      * intros b [Hb|Hb]%elem_of_app Hbu; [by apply Hau|]. apply list_elem_of_singleton in Hb. subst b. simpl in Hbu. congruence.
  - intros b [Hb|Hb]%elem_of_app; [by apply Hst|]. apply list_elem_of_singleton in Hb. subst b. simpl. eauto.
Qed.

Definition lift (t : Z) (r : Ban) : Ban := mkBan (b_id r) (b_userId r) (b_reason r) (b_bannedAt r) (Some t).

Lemma unbanUser_result t u s : (∃ e, unbanUser t u s = (s, Throw e) ∧ ∀ b, b ∈ bans s → b_userId b = u → ended t b) ∨
  ∃ s' b, unbanUser t u s = (s', Ok true) ∧ b ∈ bans s ∧ b_userId b = u ∧ active_ban t b = true ∧
    bans s' = row_update b_id (b_id b) (lift t) (bans s) ∧ bannedUsers s' = map_delete u (bannedUsers s) ∧
    user_roles s' = user_roles s ∧ (serial s ≤ serial s')%nat.
Proof.
  destruct (unbanUser t u s) as [s' r] eqn:E. revert E.
  unfold unbanUser, gets. unfold mbind at 1, M_bind at 1. set (l := List.filter _ (bans s)).
  assert (∀ b, b ∈ order_by latest_ban l ↔ b ∈ bans s ∧ b_userId b = u ∧ active_ban t b = true) as Hl.
  { intros b. rewrite elem_of_order_by. unfold l. rewrite list_elem_of_In, filter_In, <- list_elem_of_In, andb_true_iff, bool_decide_eq_true. done. }
  destruct (order_by latest_ban l) as [|b bs]; simpl.
  - intros [= <- <-]. left. eexists. split; [done|]. intros b Hb Hu. apply ended_active. destruct (active_ban t b) eqn:Ea; [|done].
    assert (b ∈ []) as Hin by (by apply Hl). by apply not_elem_of_nil in Hin.
  - destruct (proj1 (Hl b) (list_elem_of_here _ _)) as (Hb & Hu & Ha).
    unfold mbind, M_bind, modify. cbv beta iota. match goal with |- context [try_catch ?m ?h ?s1] => set (s2 := s1) end.
    destruct (auditLog_frame "system" "unban_user" u s2) as (Eb & Em & Eu & Hs & v & Ev).
    destruct (try_catch (auditLog "system" "unban_user" u) _ s2) as [s3 r3]. simpl in *. subst r3. intros [= <- <-]. right.
    eexists _, b. split; [done|]. rewrite Eb, Em, Eu. by split_and!.
Qed.

Lemma unban_wf t t' u s : admin_wf t s → t ≤ t' → admin_wf t' (unbanUser t' u s).1.
Proof.
  intros Hw Ht. destruct (unbanUser_result t' u s) as [(e & -> & _)|(s' & b & -> & Hb & Hu & Hact & Eb & Em & Eu & Hs)]; [by eapply admin_wf_frame|].
  simpl. destruct Hw as [Hi Hse Ha Hst]. pose proof (agree_mono t t' s Ht Ha) as Ha'.
  assert (∀ r, r ∈ bans s' ↔ ∃ r0, r0 ∈ bans s ∧ r = if bool_decide (b_id r0 = b_id b) then lift t' r0 else r0) as Hin.
  { intros r. rewrite Eb. apply elem_of_row_update. }
  assert (∀ r0, r0 ∈ bans s → b_id r0 = b_id b → r0 = b) as Hone by (intros r0 Hr0 E; by apply (NoDup_key_inj b_id (bans s))).
  assert (∀ b', b' ∈ bans s → b_userId b' = u → b' = b ∨ ended t' b') as Hothers.
  { specialize (Ha' u). destruct (map_get u (bannedUsers s)) as [[r e]|]; [|intros b' ? ?; right; by apply Ha'].
    destruct Ha' as (b1 & Hb1 & Hu1 & He1 & Ho). intros b' Hb' Hu'.
    assert (b = b1) as -> by (destruct (Ho b Hb Hu) as [?|He]; [done|]; apply ended_active in He; congruence). by apply Ho. }
  split; rewrite ?Eu.
  - rewrite Eb, row_update_ids by done. done.
  - rewrite Eb, row_update_ids by done. eapply Forall_impl; [exact Hse|]. intros i (k & Hk & E). exists k. split; [lia|done].
  - intros v. rewrite Em, map_get_delete. case_bool_decide as Hv.
    + subst v. intros r (r0 & Hr0 & ->)%Hin Hru. case_bool_decide as Eid.
      * exists t'. split; [done|lia].
      * destruct (Hothers r0 Hr0 Hru) as [->|?]; done.
    + specialize (Ha' v). destruct (map_get v (bannedUsers s)) as [[r e]|].
      * destruct Ha' as (b1 & Hb1 & Hu1 & He1 & Ho). exists b1. split_and!; try done.
        { apply Hin. exists b1. rewrite bool_decide_false; [done|]. intros E. apply Hv. by rewrite <- Hu1, (Hone b1 Hb1 E). }
        intros b' (r0 & Hr0 & ->)%Hin. case_bool_decide as Eid; [|by apply Ho]. simpl. rewrite (Hone r0 Hr0 Eid). congruence.
      * intros b' (r0 & Hr0 & ->)%Hin. case_bool_decide as Eid; [|by apply Ha']. simpl. rewrite (Hone r0 Hr0 Eid). congruence.
  - intros r (r0 & Hr0 & ->)%Hin. case_bool_decide; [apply (Hst r0 Hr0)|by apply Hst].
Qed.

(** [isUserBanned] forgets a ban that has run out. *)
Lemma isUserBanned_result t u s : isUserBanned t u s =
  match map_get u (bannedUsers s) with
  | Some (_, Some x) => if bool_decide (x < t) then (set_memory (map_delete u (bannedUsers s)) s, Ok false) else (s, Ok true)
  | Some (_, None) => (s, Ok true)
  | None => (s, Ok false)
  end.
Proof. unfold isUserBanned, mbind, M_bind, get, put. destruct (map_get u (bannedUsers s)) as [[r [x|]]|]; try done. by case_bool_decide. Qed.

Lemma isUserBanned_wf t t' u s : admin_wf t s → t ≤ t' → admin_wf t' (isUserBanned t' u s).1.
Proof.
  intros Hw Ht. rewrite isUserBanned_result. destruct (map_get u (bannedUsers s)) as [[r [x|]]|] eqn:Em; try (by eapply admin_wf_frame).
  case_bool_decide as Hx; [|by eapply admin_wf_frame]. simpl. destruct Hw as [Hi Hse Ha Hst]. split; try done.
  pose proof (agree_mono t t' s Ht Ha) as Ha'. intros v. simpl. rewrite map_get_delete. case_bool_decide as Hv; [|apply Ha'].
  subst v. specialize (Ha' u). rewrite Em in Ha'. destruct Ha' as (b & Hb & Hu & He & Ho). intros b' Hb' Hu'.
  destruct (Ho b' Hb' Hu') as [->|?]; [|done]. exists x. split; [done|lia].
Qed.

Lemma exec_wf t t' c s : admin_wf t s → t ≤ t' →
  (match c with BanUser p => negb (existsb (λ b, bool_decide (b_userId b = userId p) && active_ban t' b) (bans s)) | _ => true end) = true →
  admin_wf t' (exec t' c s).
Proof.
  intros Hw Ht Hc. destruct c as [p|u|u|c|b|i a]; cbn [exec].
  - apply (ban_wf t); [done..|]. by apply negb_true_iff in Hc.
  - by apply (unban_wf t).
  - by apply (isUserBanned_wf t).
  - assert (∃ cs, (updateGameConfig c s).1 = s ∨ (updateGameConfig c s).1 = set_configs cs s ∨ (updateGameConfig c s).1 = next_serial (set_configs cs s)) as (cs & [->|[->| ->]]).
    { unfold updateGameConfig, findFirst_config, gets, modify. destruct (match given_number (c_maxPlayersPerMatch c) with Some _ => _ | None => _ end); [by exists []; left|].
      unfold mbind, M_bind, get. cbv zeta. destruct (match given_number (c_minPlayersToStart c) with Some _ => _ | None => _ end); [by exists []; left|].
      destruct (head _) as [[id c0]|]; simpl; eexists; right; [by left|by right]. }
    all: eapply admin_wf_frame; simpl; eauto.
  - by eapply admin_wf_frame.
  - unfold reviewContent, gets, modify, mbind, M_bind. destruct (row_find _ _ _); simpl; by eapply admin_wf_frame.
Qed.

Lemma careful_wf cs : ∀ t s, admin_wf t s → careful t cs s = true → admin_wf (last_time t cs) (exec_all cs s).
Proof.
  induction cs as [|[t' c] cs IH]; intros t s Hw Hc; [done|]. cbn [careful] in Hc. rewrite !andb_true_iff, bool_decide_eq_true in Hc.
  destruct Hc as [[Ht Hb] Hr]. unfold exec_all in *. cbn [foldl]. specialize (IH t' _ (exec_wf t t' c s Hw Ht Hb) Hr).
  unfold last_time in *. rewrite fmap_cons, last_cons. simpl. by destruct (last _).
Qed.

(** A service that has just started, on a table without bans. *)
Definition fresh s : Prop := bans s = [] ∧ bannedUsers s = [].

Lemma fresh_wf t s : fresh s → admin_wf t s.
Proof.
  intros [Eb Em]. split; rewrite ?Eb; [constructor|constructor| |].
  - intros u. rewrite Em, Eb. simpl. intros b Hb. by apply not_elem_of_nil in Hb.
  - intros b Hb. by apply not_elem_of_nil in Hb.
Qed.

(** C: while the service runs and nobody is banned under an active ban, the map
    in memory answers for the table: a user with an active ban is reported as
    banned, and one reported as banned has a ban that has not ended before that
    instant.  No ban in the table is of staff. *)
Theorem bans_agree cs s t now u : fresh s → careful t cs s = true → last_time t cs ≤ now →
  let s' := exec_all cs s in
  ∃ answer, (isUserBanned now u s').2 = Ok answer ∧
    (∀ b, b ∈ bans s' → b_userId b = u → active_ban now b = true → answer = true) ∧
    (answer = true → ∃ b, b ∈ bans s' ∧ b_userId b = u ∧ match b_unbannedAt b with Some x => now ≤ x | None => True end) ∧
    (∀ b, b ∈ bans s' → map_get (b_userId b) (user_roles s') ≠ Some "ADMIN" ∧ map_get (b_userId b) (user_roles s') ≠ Some "MODERATOR").
Proof.
  intros Hf Hc Ht s'. assert (admin_wf now s') as Hw.
  { eapply admin_wf_frame; [apply (careful_wf cs t s (fresh_wf t s Hf) Hc)|done..]. }
  pose proof (aw_agree _ _ Hw u) as Ha. rewrite isUserBanned_result.
  assert (∀ b, b ∈ bans s' → map_get (b_userId b) (user_roles s') ≠ Some "ADMIN" ∧ map_get (b_userId b) (user_roles s') ≠ Some "MODERATOR") as Hst.
  { intros b Hb. destruct (aw_staff _ _ Hw b Hb) as (role & -> & ? & ?). split; congruence. }
  destruct (map_get u (bannedUsers s')) as [[r [x|]]|].
  - destruct Ha as (b0 & Hb0 & Hu0 & He0 & Ho). case_bool_decide as Hx; eexists; (split; [done|]); (split_and!; [|try done|done]).
    + intros b Hb Hu Hact. destruct (Ho b Hb Hu) as [->|He]; [|apply ended_active in He; congruence].
      unfold active_ban in Hact. rewrite He0, bool_decide_eq_true in Hact. lia.
    + done.
    + intros _. exists b0. rewrite He0. split_and!; [done..|lia].
  - destruct Ha as (b0 & Hb0 & Hu0 & He0 & Ho). exists true. split_and!; try done. intros _. exists b0. by rewrite He0.
  - exists false. split_and!; try done. intros b Hb Hu Hact. specialize (Ha b Hb Hu). apply ended_active in Ha. congruence.
Qed.
End spec.

(** ** Configuration *)

Section config.
Context `{Prisma}.

(** C: an update of the configuration that is accepted is what is read back: the
    given fields are new, the others as they were read before or, the first
    time, the defaults of the table.  There is never more than one row. *)
Theorem config_read_back s c s' r : (length (gameConfigs s) ≤ 1)%nat → updateGameConfig c s = (s', Ok r) →
  (length (gameConfigs s') ≤ 1)%nat ∧ getGameConfig s' = (s', Ok r) ∧
  r = merge_config c (match gameConfigs s with (_, old) :: _ => old | [] => default_config end).
Proof.
  assert (∀ x : string * GameConfig, any_order [x] = [x]) as Hone.
  { intros x. apply Permutation_singleton_r. apply any_order_perm. }
  assert (any_order (@nil (string * GameConfig)) = []) as Hnil by apply Permutation_nil_r, any_order_perm.
  intros Hlen. unfold updateGameConfig, findFirst_config, gets, modify.
  destruct (match given_number (c_maxPlayersPerMatch c) with Some _ => _ | None => _ end); [done|].
  unfold mbind, M_bind, get. cbv zeta. destruct (match given_number (c_minPlayersToStart c) with Some _ => _ | None => _ end); [done|].
  destruct (gameConfigs s) as [|[id old] [|x l]] eqn:Es; [| |simpl in Hlen; lia].
  - rewrite Hnil. simpl. intros [= <- <-]. simpl. split_and!; [rewrite Es; simpl; lia| |done].
    unfold getGameConfig, findFirst_config, gets, mbind, M_bind. simpl. rewrite ?Es. simpl. by rewrite Hone.
  - rewrite Hone. simpl. intros [= <- <-]. simpl. rewrite Es. split_and!; [simpl; lia| |done].
    unfold getGameConfig, findFirst_config, gets, mbind, M_bind. simpl. rewrite ?Es. simpl. rewrite bool_decide_true by done.
    by rewrite Hone.
Qed.
End config.

(** ** Runs *)

Definition start : AdminState :=
  mkAdmin [("u1", "USER"); ("boss", "ADMIN")] [] [] [] [] 0 default_config [].

Definition week : BanUserPayload := mkPayload "u1" "cheating in ranked" (Some 168).
Definition for_good : BanUserPayload := mkPayload "u1" "cheating again" None.

Definition story : list (Z * admin_call) := [(0, BanUser week); (1000, BanUser (mkPayload "boss" "impolite" None)); (2000, IsUserBanned "u1")].

Lemma bans_agree_witness : ∃ answer, (isUserBanned 3000 "u1" (exec_all story start)).2 = Ok answer ∧ answer = true.
Proof.
  destruct (bans_agree story start 0 3000 "u1") as (a & Ha & Hact & _); [by split|vm_compute; reflexivity|vm_compute; discriminate|].
  exists a. split; [exact Ha|]. apply (Hact (mkBan "id-0" "u1" "cheating in ranked" 0 (Some 604800000))); [vm_compute; left|reflexivity|vm_compute; reflexivity].
Defined.

Definition four_players : ConfigUpdate := mkUpdate None (Some 4) None None None.
Definition six_to_start : ConfigUpdate := mkUpdate None None (Some 6) None None.

Lemma config_read_back_witness : ∃ s' r, updateGameConfig four_players start = (s', Ok r) ∧ getGameConfig s' = (s', Ok r) ∧ maxPlayersPerMatch r = 4.
Proof.
  eexists _, _. split; [vm_compute; reflexivity|]. split; [|reflexivity].
  refine (proj1 (proj2 (config_read_back start four_players _ _ _ _))); [simpl; lia|vm_compute; reflexivity].
Defined.

(** Two bans at once: lifting one ends the newer row only, and the map forgets
    the user, whose first ban is still active. *)
Lemma second_ban_survives : let s := exec_all [(0, BanUser for_good); (1, BanUser week); (2, UnbanUser "u1")] start in
  (isUserBanned 3 "u1" s).2 = Ok false ∧ active_ban 3 <$> bans s = [true; false].
Proof. vm_compute. done. Qed.

(** A restart forgets every ban. *)
Lemma restart_forgets : let s := exec_all [(0, BanUser for_good)] start in
  (isUserBanned 1 "u1" (set_memory [] s)).2 = Ok false ∧ active_ban 1 <$> bans s = [true].
Proof. vm_compute. done. Qed.

(** The smallest number of players may exceed the largest: it is compared with
    the number in memory, not with the one in the table. *)
Lemma min_above_max : let s := exec_all [(0, UpdateConfig four_players); (1, UpdateConfig six_to_start)] start in
  (getGameConfig s).2 = Ok (mkConfig false 4 6 3600 100).
Proof. vm_compute. done. Qed.

(** Zero counts as not given, and is stored. *)
Lemma zero_players : (updateGameConfig (mkUpdate None (Some 0) None None None) start).2 = Ok (mkConfig false 0 2 3600 100).
Proof. vm_compute. done. Qed.

(** Maintenance mode is switched in memory only: with a row in the table the
    switch has no effect on what is read. *)
Lemma maintenance_unseen : let s := exec_all [(0, UpdateConfig four_players); (1, Toggle true)] start in
  (getGameConfig s).2 = Ok (mkConfig false 4 2 3600 100).
Proof. vm_compute. done. Qed.

(** The audit entry of a ban names the admin [system]; without such a user the
    insertion fails and the failure is dropped. *)
Lemma bans_unaudited : bans (exec_all [(0, BanUser week)] start) ≠ [] ∧ auditRows (exec_all [(0, BanUser week)] start) = [].
Proof. vm_compute. done. Qed.
