(* ===== verification/SyncQueue.v ===== *)
(** * Offline queue: [frontend/src/lib/syncQueue.ts]

    Mutations made offline are kept in IndexedDB, one per address and method,
    and replayed in chronological order.  The storage is taken to work; an
    enqueue runs alone, but the page may enqueue while a flush waits for an
    answer: [meanwhile] is what happens to the stored queue during each request.

    Without interference a flush delivers in order and keeps exactly what was
    not accepted; with it, what was enqueued meanwhile is overwritten. *)

From stdpp Require Import prelude strings list pretty sorting.
From S2P Require Import Prelude.

Record SyncItem := mkItem {
  item_id : string;
  url : string;
  method : string;
  body : option string;
  headers : jsmap string;
  timestamp : Z;
}.

#[export] Instance SyncItem_eq_dec : EqDecision SyncItem.
Proof. solve_decision. Defined.

(** [Omit<SyncItem, "id" | "timestamp">] *)
Record NewItem := mkNew { n_url : string; n_method : string; n_body : option string; n_headers : jsmap string }.

(** The stored value, [None] before the first write. *)
Definition readQueue (stored : option (list SyncItem)) : list SyncItem := default [] stored.
Definition writeQueue (queue : list SyncItem) : option (list SyncItem) := Some queue.

Definition same_target (u m : string) (q : SyncItem) : bool := bool_decide (url q = u) && bool_decide (method q = m).

(** [queue.splice(idx, 1, entry)] at the first match, or [queue.push(entry)] *)
Fixpoint replace_or_push (entry : SyncItem) (queue : list SyncItem) : list SyncItem :=
  match queue with
  | [] => [entry]
  | q :: queue' => if same_target (url entry) (method entry) q then entry :: queue' else q :: replace_or_push entry queue'
  end.

(** [uuid] is the reading of [crypto.randomUUID()]. *)
Definition enqueueSync (uuid : string) (now : Z) (item : NewItem) (stored : option (list SyncItem)) : option (list SyncItem) :=
  let queue := readQueue stored in
  let entry := mkItem uuid (n_url item) (n_method item) (n_body item) (n_headers item) now in
  writeQueue (replace_or_push entry queue).

(** ** Flushing *)

Inductive Response := Status (code : Z) | NetworkError.

(** [res.ok || res.status === 409] *)
Definition accepted (r : Response) : bool :=
  match r with Status c => bool_decide (200 ≤ c ≤ 299) || bool_decide (c = 409) | NetworkError => false end.

Record Sent := mkSent { s_url : string; s_method : string; s_body : option string; s_headers : jsmap string }.

Definition request (token : option string) (item : SyncItem) : Sent :=
  let hs := foldl (λ m kv, map_set kv.1 kv.2 m) [("Content-Type", "application/json")] (headers item) in
  let hs := match truthy_str token with Some t => map_set "Authorization" ("Bearer " +:+ t) hs | None => hs end in
  mkSent (url item) (method item) (body item) hs.

Section flush.
Context (token : option string) (fetch : SyncItem → Response).
Context (meanwhile : nat → option (list SyncItem) → option (list SyncItem)).

(** The loop over the copy: what is left of it, the queue in memory, the stored
    queue, the number of the request. *)
Fixpoint flush_loop (n : nat) (items queue : list SyncItem) (stored : option (list SyncItem)) : option (list SyncItem) * list Sent :=
  match items with
  | [] => (stored, [])
  | item :: rest =>
      let stored := meanwhile n stored in
      match fetch item with
      | NetworkError => (stored, [request token item])
      | r =>
          let '(stored, sent) :=
            if accepted r then
              let queue := List.filter (λ q, negb (bool_decide (item_id q = item_id item))) queue in
              flush_loop (S n) rest queue (writeQueue queue)
            else flush_loop (S n) rest queue stored in
          (stored, request token item :: sent)
      end
  end.

Definition flushSyncQueue (stored : option (list SyncItem)) : option (list SyncItem) * list Sent :=
  let queue := js_sort (λ a b, timestamp a - timestamp b) (readQueue stored) in
  flush_loop 0 queue queue stored.
End flush.

Definition getSyncQueueLength (stored : option (list SyncItem)) : nat := length (readQueue stored).

(** ** One mutation per target *)

Definition target (q : SyncItem) : string * string := (url q, method q).

(** The queue as a map: the item of a target. *)
Definition pending (queue : list SyncItem) (k : string * string) : option SyncItem := List.find (λ q, bool_decide (target q = k)) queue.

Lemma same_target_eq u m q : same_target u m q = bool_decide (target q = (u, m)).
Proof.
  unfold same_target, target. apply eq_bool_prop_intro. rewrite andb_True, !bool_decide_spec. split; [by intros [-> ->]|by intros [= -> ->]].
Qed.

Lemma pending_replace e queue k : pending (replace_or_push e queue) k = if bool_decide (target e = k) then Some e else pending queue k.
Proof.
  induction queue as [|q queue IH]; cbn [replace_or_push]; [done|]. rewrite same_target_eq. change (url e, method e) with (target e).
  destruct (bool_decide_reflect (target q = target e)) as [Eq|Eq]; unfold pending in *; cbn [List.find].
  - rewrite Eq. by case_bool_decide.
  - rewrite IH. destruct (bool_decide_reflect (target q = k)) as [Ek|Ek]; [|done]. rewrite bool_decide_false by congruence. done.
Qed.

Lemma target_replaced e queue x : x ∈ target <$> replace_or_push e queue → x = target e ∨ x ∈ target <$> queue.
Proof.
  induction queue as [|q queue IH]; cbn [replace_or_push].
  - intros Hx%list_elem_of_singleton. by left.
  - rewrite same_target_eq. destruct (bool_decide _); rewrite !fmap_cons, !elem_of_cons; naive_solver.
Qed.

Lemma targets_replace e queue : NoDup (target <$> queue) → NoDup (target <$> replace_or_push e queue).
Proof.
  induction queue as [|q queue IH]; cbn [replace_or_push]; intros Hnd; [apply NoDup_singleton|]. rewrite same_target_eq.
  rewrite fmap_cons, NoDup_cons in Hnd. destruct Hnd as [Hq Hnd]. change (url e, method e) with (target e).
  destruct (bool_decide_reflect (target q = target e)) as [Eq|Eq]; rewrite fmap_cons, NoDup_cons; [by rewrite <- Eq|].
  split; [|by apply IH]. by intros [?|?]%target_replaced.
Qed.

(** Enqueues in order, with the readings they make. *)
Definition enqueue_all (calls : list (string * Z * NewItem)) (stored : option (list SyncItem)) : option (list SyncItem) :=
  foldl (λ st c, enqueueSync c.1.1 c.1.2 c.2 st) stored calls.

Definition entry_of (c : string * Z * NewItem) : SyncItem :=
  mkItem c.1.1 (n_url c.2) (n_method c.2) (n_body c.2) (n_headers c.2) c.1.2.

(** C: last write wins.  After any enqueues there is one item per address and
    method, and it is that of the last call for it. *)
Theorem last_write_wins calls stored k : NoDup (target <$> readQueue stored) →
  NoDup (target <$> readQueue (enqueue_all calls stored)) ∧
  pending (readQueue (enqueue_all calls stored)) k =
  match last (filter (λ e, target e = k) (entry_of <$> calls)) with Some e => Some e | None => pending (readQueue stored) k end.
Proof.
  intros Hnd. unfold enqueue_all. induction calls as [|c calls [IHn IHp]] using rev_ind; [done|].
  rewrite foldl_snoc. set (st := foldl _ stored calls) in *.
  change (readQueue (enqueueSync c.1.1 c.1.2 c.2 st)) with (replace_or_push (entry_of c) (readQueue st)).
  split; [by apply targets_replace|]. rewrite pending_replace, IHp, fmap_app, filter_app.
  rewrite fmap_cons, filter_cons. change (entry_of <$> []) with (@nil SyncItem). rewrite filter_nil.
  destruct (bool_decide_reflect (target (entry_of c) = k)) as [E|E].
  - rewrite decide_True by done. by rewrite last_snoc.
  - rewrite decide_False by done. by rewrite app_nil_r.
Qed.

(** ** A flush alone *)

Section alone.
Context (token : option string) (fetch : SyncItem → Response).

Notation flush := (flushSyncQueue token fetch (λ _ st, st)).

(** The items that are sent: up to the first network error. *)
Fixpoint attempted (items : list SyncItem) : list SyncItem :=
  match items with
  | [] => []
  | i :: rest => match fetch i with NetworkError => [i] | _ => i :: attempted rest end
  end.

Definition delivered (items : list SyncItem) : list SyncItem := List.filter (λ i, accepted (fetch i)) (attempted items).

Definition without (D queue : list SyncItem) : list SyncItem :=
  List.filter (λ q, negb (bool_decide (item_id q ∈ item_id <$> D))) queue.

Lemma delivered_cons i items : delivered (i :: items) =
  match fetch i with NetworkError => [] | Status c => if accepted (Status c) then i :: delivered items else delivered items end.
Proof. unfold delivered. cbn [attempted]. destruct (fetch i) eqn:E; cbn [List.filter]; by rewrite E. Qed.

Lemma without_cons i D queue : without D (List.filter (λ q, negb (bool_decide (item_id q = item_id i))) queue) = without (i :: D) queue.
Proof.
  unfold without. induction queue as [|q l IH]; [done|]. cbn [List.filter].
  rewrite (bool_decide_ext (item_id q ∈ item_id <$> i :: D) (item_id q = item_id i ∨ item_id q ∈ item_id <$> D)) by (rewrite fmap_cons; apply elem_of_cons).
  rewrite bool_decide_or. destruct (bool_decide (item_id q = item_id i)); simpl; [done|]. destruct (bool_decide (item_id q ∈ _)); simpl; [done|]. by rewrite IH.
Qed.

Lemma without_nil queue : without [] queue = queue.
Proof.
  unfold without. induction queue as [|q l IH]; [done|]. cbn [List.filter]. rewrite bool_decide_false by apply not_elem_of_nil.
  cbn [negb]. by rewrite IH.
Qed.

Lemma without_unique D queue : NoDup (item_id <$> queue) → D ⊆ queue → without D queue = filter (λ q, q ∉ D) queue.
Proof.
  intros Hnd HD. unfold without. assert (∀ q, q ∈ queue → item_id q ∈ item_id <$> D ↔ q ∈ D) as Hid.
  { intros q Hq. split; [|apply list_elem_of_fmap_2]. intros (d & E & Hd)%list_elem_of_fmap.
    assert (q = d) as ->; [|done]. apply (NoDup_key_inj item_id queue); [done|done|by apply HD|done]. }
  clear Hnd HD. induction queue as [|q l IH]; [done|]. rewrite filter_cons. cbn [List.filter].
  rewrite IH by (intros; apply Hid; by right). specialize (Hid q (list_elem_of_here _ _)).
  destruct (bool_decide_reflect (item_id q ∈ item_id <$> D)); cbn [negb].
  - by rewrite decide_False by tauto.
  - by rewrite decide_True by tauto.
Qed.

Lemma attempted_sub items : attempted items ⊆ items.
Proof.
  induction items as [|i items IH]; [done|]. cbn [attempted]. destruct (fetch i); set_solver.
Qed.

Lemma delivered_sub items : delivered items ⊆ items.
Proof. intros x Hx. unfold delivered in Hx. rewrite list_elem_of_In, filter_In, <- list_elem_of_In in Hx. destruct Hx as [Hx _]. revert Hx. apply attempted_sub. Qed.

Lemma flush_loop_spec n items queue stored : flush_loop token fetch (λ _ st, st) n items queue stored =
  ((if bool_decide (length (delivered items) = O) then stored else Some (without (delivered items) queue)), request token <$> attempted items).
Proof.
  revert n queue stored. induction items as [|i items IH]; intros n queue stored; [done|]. rewrite delivered_cons.
  cbn [flush_loop attempted]. destruct (fetch i) as [c|]; [|done]. destruct (accepted (Status c)); rewrite IH; [|done].
  rewrite without_cons. unfold writeQueue. cbn [length]. rewrite (bool_decide_false (S _ = O)) by done. rewrite fmap_cons. f_equal.
  case_bool_decide as E; [|done]. apply nil_length_inv in E. rewrite E, <- without_cons. by rewrite without_nil.
Qed.

(** C: a flush that runs alone sends the queued mutations in chronological
    order, all of them or up to the first network error, and afterwards the
    stored queue holds exactly those that were not accepted. *)
Theorem flush_spec stored : NoDup (item_id <$> readQueue stored) →
  let '(stored', sent) := flush stored in
  ∃ items, items ≡ₚ readQueue stored ∧ StronglySorted (λ a b, timestamp a - timestamp b ≤ 0) items ∧
    (∃ rest, items = attempted items ++ rest ∧ (rest = [] ∨ ∃ i, last (attempted items) = Some i ∧ fetch i = NetworkError)) ∧
    sent = request token <$> attempted items ∧
    readQueue stored' ≡ₚ filter (λ q, q ∉ delivered items) (readQueue stored).
Proof.
  intros Hnd. unfold flushSyncQueue. cbv zeta. set (items := js_sort _ _). rewrite flush_loop_spec.
  pose proof (js_sort_perm (λ a b, timestamp a - timestamp b) (readQueue stored)) as Hp. fold items in Hp.
  exists items. split_and!; [done| | |done|].
  - apply js_sort_sorted; simpl; lia.
  - clear. induction items as [|i items (rest & E & Hr)]; [by exists []; split; [|left]|]. cbn [attempted]. destruct (fetch i) as [c|] eqn:Ef.
    + exists rest. split; [simpl; by rewrite <- E|]. destruct Hr as [->|(j & Hj & Hf)]; [by left|right]. exists j. split; [|done].
      rewrite last_cons, Hj. done.
    + exists items. split; [done|]. right. by exists i.
  - assert (without (delivered items) items ≡ₚ filter (λ q, q ∉ delivered items) (readQueue stored)) as Hw.
    { rewrite without_unique; [by rewrite Hp| |apply delivered_sub]. by rewrite Hp. }
    case_bool_decide as Ed; [|exact Hw]. apply nil_length_inv in Ed. rewrite Ed in *. rewrite without_nil in Hw. by rewrite <- Hw, Hp.
Qed.
End alone.

(** ** Runs *)

Definition score (n : string) : NewItem := mkNew "/api/matches/1/report" "POST" (Some n) [].
Definition profile : NewItem := mkNew "/api/profile" "PUT" None [].
Definition calls : list (string * Z * NewItem) := [("a", 1, score "10"); ("b", 2, profile); ("c", 3, score "20")].

Lemma last_write_wins_witness : pending (readQueue (enqueue_all calls None)) ("/api/matches/1/report", "POST") = Some (entry_of ("c", 3, score "20")).
Proof. exact (proj2 (last_write_wins calls None ("/api/matches/1/report", "POST") NoDup_nil_2)). Defined.

Lemma flush_spec_witness : ∃ items, items ≡ₚ readQueue (enqueue_all calls None) ∧
  (flushSyncQueue None (λ _, Status 200) (λ _ st, st) (enqueue_all calls None)).2 = request None <$> attempted (λ _, Status 200) items ∧
  url <$> items = ["/api/profile"; "/api/matches/1/report"].
Proof.
  assert (NoDup (item_id <$> readQueue (enqueue_all calls None))) as Hnd by (apply (bool_decide_unpack _); vm_compute; exact I).
  pose proof (flush_spec None (λ _, Status 200) (enqueue_all calls None) Hnd) as H.
  destruct (flushSyncQueue None (λ _, Status 200) (λ _ st, st) (enqueue_all calls None)) as [st sent] eqn:E.
  destruct H as (items & Hp & _ & (rest & Hi & Hr) & -> & _). exists items. split_and!; [exact Hp|reflexivity|].
  assert (request None <$> attempted (λ _, Status 200) items = request None <$> items) as Ha
    by (f_equal; clear; induction items as [|x l IH]; [reflexivity|simpl; by rewrite IH]).
  assert (s_url <$> (flushSyncQueue None (λ _, Status 200) (λ _ st, st) (enqueue_all calls None)).2 = ["/api/profile"; "/api/matches/1/report"]) as Hc
    by (vm_compute; reflexivity).
  rewrite E in Hc. cbn [snd] in Hc. rewrite Ha, <- list_fmap_compose in Hc. exact Hc.
Defined.

(** What is enqueued while a request is under way is overwritten when the
    request is accepted: a mutation is lost without being sent. *)
Lemma flush_loses_enqueued :
  let add n st := if bool_decide (n = 0%nat) then enqueueSync "new" 9 profile st else st in
  let '(stored, sent) := flushSyncQueue None (λ _, Status 200) add (enqueueSync "old" 1 (score "10") None) in
  readQueue stored = [] ∧ s_url <$> sent = ["/api/matches/1/report"].
Proof. vm_compute. done. Qed.

(** A mutation the server keeps refusing stays in the queue for good. *)
Lemma refused_stays : (flushSyncQueue None (λ _, Status 400) (λ _ st, st) (enqueueSync "a" 1 (score "10") None)).1 =
  enqueueSync "a" 1 (score "10") None.
Proof. done. Qed.
