(* ===== verification/CircuitBreaker.v ===== *)
(** * Circuit breakers: [server/src/services/circuit-breaker.service.ts]

    The service keeps a breaker of the package [opossum] per name and counts the
    events the breakers emit.  The package is not modelled: a breaker is an
    object with a number, the calls made on it are kept in order in [issued],
    and the events it emits are inputs ([emit]), in any order.  The listeners
    belong to the object and remember only its name.  The share of errors is
    computed with rationals. *)

From stdpp Require Import prelude gmap strings list.
From Stdlib Require Import QArith Qround Lqa.
From S2P Require Import Prelude.

#[local] Open Scope Z_scope.

Inductive CircuitState := CLOSED | OPEN | HALF_OPEN.

#[export] Instance CircuitState_eq_dec : EqDecision CircuitState.
Proof. solve_decision. Defined.

Record CircuitStats := mkStats {
  state : CircuitState; failures : Z; successes : Z; timeouts : Z; rejects : Z; fallbacks : Z; percentageError : Z }.

#[export] Instance CircuitStats_eq_dec : EqDecision CircuitStats.
Proof. solve_decision. Defined.

(** What a breaker of the package is made with. *)
Record Options := mkOptions {
  o_timeout : Z; o_errorThresholdPercentage : Z; o_resetTimeout : Z; o_rollingCountTimeout : Z;
  o_rollingCountBuckets : Z; o_name : string }.

(** What a breaker emits. *)
Inductive Event := Success | Failure | Timeout | Reject | Opened | HalfOpened | Closed.

#[export] Instance Event_eq_dec : EqDecision Event.
Proof. solve_decision. Defined.

(** Calls that leave the service. *)
Inductive Issued := Fire (b : nat) (args : list string) | Open (b : nat) | Close (b : nat) | Shutdown (b : nat)
  | RecordError (what severity : string).

Section service.
(** Functions that are called through a breaker or instead of it. *)
Context {Fn : Type}.

(** [CircuitBreakerOptions]: every field may be missing. *)
Record CircuitBreakerOptions := mkBreakerOptions {
  errorThresholdPercentage : option Z; resetTimeout : option Z; rollingCountTimeout : option Z;
  halfOpenMaxRequests : option Z; rollingCountBuckets : option Z; bo_name : option string;
  fallback : option Fn; timeout : option Z }.

Definition no_options : CircuitBreakerOptions := mkBreakerOptions None None None None None None None None.

(** A breaker: what it was made with, the name its listeners remember and the
    fallback set on it. *)
Record Breaker := mkBreaker { b_fn : Fn; b_options : Options; b_listens : string; b_fallback : option Fn }.

(** The maps of the service, the breakers made so far (the object with number
    [n] is the [n]-th) and the calls that left it. *)
Record Service := mkService { objects : list Breaker; breakers : jsmap nat; stats : jsmap CircuitStats; issued : list Issued }.

Definition new_service : Service := mkService [] [] [] [].

Definition set_stats (name : string) (st : CircuitStats) (s : Service) : Service :=
  mkService (objects s) (breakers s) (map_set name st (stats s)) (issued s).

Definition issue (c : Issued) (s : Service) : Service :=
  mkService (objects s) (breakers s) (stats s) (issued s ++ [c]).

Definition breaker_options (name : string) (opts : CircuitBreakerOptions) : Options :=
  mkOptions (default 5000 (timeout opts)) (default 50 (errorThresholdPercentage opts))
    (default 30000 (resetTimeout opts)) (default 60000 (rollingCountTimeout opts))
    (default 10 (rollingCountBuckets opts)) (default name (bo_name opts)).

Definition initializeStats (name : string) (s : Service) : Service :=
  set_stats name (mkStats CLOSED 0 0 0 0 0 0) s.

Definition create (name : string) (fn : Fn) (opts : CircuitBreakerOptions) (s : Service) : Service * nat :=
  match map_get name (breakers s) with
  | Some b => (s, b)
  | None =>
      let b := length (objects s) in
      let breaker := mkBreaker fn (breaker_options name opts) name (fallback opts) in
      (initializeStats name (mkService (objects s ++ [breaker]) (map_set name b (breakers s)) (stats s) (issued s)), b)
  end.

Definition quoted (name : string) : string :=
  let q := String (Ascii.ascii_of_nat 34) "" in q +:+ name +:+ q.

Definition not_found (name : string) : exn := JsError ("Circuit breaker " +:+ quoted name +:+ " not found.").
Definition create_first (name : string) : exn := JsError ("Circuit breaker " +:+ quoted name +:+ " not found. Create it first.").

(** [this.breakers.get(name)], or the error of the method. *)
Definition the_breaker (e : exn) (name : string) : M Service nat :=
  s ← get; match map_get name (breakers s) with Some b => mret b | None => throw e end.

Definition fire (name : string) (args : list string) : M Service unit :=
  b ← the_breaker (create_first name) name; modify (issue (Fire b args)).

Definition trip (name : string) : M Service unit :=
  b ← the_breaker (not_found name) name; modify (issue (Open b)).

Definition close (name : string) : M Service unit :=
  b ← the_breaker (not_found name) name; modify (issue (Close b)).

(** A copy of the entry. *)
Definition getStats (name : string) : M Service CircuitStats :=
  s ← get; match map_get name (stats s) with Some st => mret st | None => throw (not_found name) end.

Fixpoint collect_stats (names : list string) (out : jsmap CircuitStats) : M Service (jsmap CircuitStats) :=
  match names with
  | [] => mret out
  | name :: names => st ← getStats name; collect_stats names (map_set name st out)
  end.

Definition getAllStats : M Service (jsmap CircuitStats) :=
  s ← get; collect_stats (map_keys (breakers s)) [].

Definition destroy (name : string) (s : Service) : Service :=
  match map_get name (breakers s) with
  | None => s
  | Some b => mkService (objects s) (map_delete name (breakers s)) (map_delete name (stats s)) (issued s ++ [Shutdown b])
  end.

(** [Math.round] of [100 * failures / total]. *)
Definition error_percentage (successes failures : Z) : Z :=
  let total := successes + failures in
  if bool_decide (total = 0) then 0 else Qfloor (inject_Z failures / inject_Z total * 100 + (1 # 2)).

Definition updatePercentageError (st : CircuitStats) : CircuitStats :=
  mkStats (state st) (failures st) (successes st) (timeouts st) (rejects st) (fallbacks st)
    (error_percentage (successes st) (failures st)).

Definition recordSuccess (name : string) (s : Service) : Service :=
  match map_get name (stats s) with
  | None => s
  | Some st => set_stats name (updatePercentageError (mkStats (state st) (failures st) (successes st + 1) (timeouts st)
      (rejects st) (fallbacks st) (percentageError st))) s
  end.

Definition recordFailure (name : string) (s : Service) : Service :=
  match map_get name (stats s) with
  | None => s
  | Some st => set_stats name (updatePercentageError (mkStats (state st) (failures st + 1) (successes st) (timeouts st)
      (rejects st) (fallbacks st) (percentageError st))) s
  end.

Definition recordTimeout (name : string) (s : Service) : Service :=
  match map_get name (stats s) with
  | None => s
  | Some st => issue (RecordError "circuit_breaker_timeout" "high")
      (set_stats name (updatePercentageError (mkStats (state st) (failures st + 1) (successes st) (timeouts st + 1)
         (rejects st) (fallbacks st) (percentageError st))) s)
  end.

Definition recordReject (name : string) (s : Service) : Service :=
  match map_get name (stats s) with
  | None => s
  | Some st => issue (RecordError "circuit_breaker_reject" "medium")
      (set_stats name (mkStats (state st) (failures st) (successes st) (timeouts st)
         (rejects st + 1) (fallbacks st) (percentageError st)) s)
  end.

(** The listeners [create] puts on a breaker. *)
Definition listener (name : string) (ev : Event) : M Service unit :=
  match ev with
  | Success => modify (recordSuccess name)
  | Failure => modify (recordFailure name)
  | Timeout => modify (recordTimeout name)
  | Reject => modify (recordReject name)
  | Opened => _ ← getStats name; modify (issue (RecordError "circuit_breaker" "high"))
  | HalfOpened | Closed => mret tt
  end.

(** Breaker [b] emits an event. *)
Definition emit (b : nat) (ev : Event) : M Service unit :=
  s ← get; match objects s !! b with Some br => listener (b_listens br) ev | None => mret tt end.

(** [ExternalServiceConfig] *)
Definition service_config (t threshold reset rolling : Z) (name : string) : CircuitBreakerOptions :=
  mkBreakerOptions (Some threshold) (Some reset) (Some rolling) None None (Some name) None (Some t).

Definition ExternalServiceConfig : list (string * CircuitBreakerOptions) :=
  [("blockchain-rpc", service_config 10000 30 15000 30000 "blockchain-rpc");
   ("email-provider", service_config 5000 40 60000 60000 "email-provider");
   ("payment-gateway", service_config 8000 20 30000 30000 "payment-gateway");
   ("notification-service", service_config 5000 50 10000 30000 "notification-service");
   ("analytics-service", service_config 3000 60 10000 30000 "analytics-service")].

(** ** The calls of a run *)

Inductive circuit_op :=
| OpCreate (name : string) (fn : Fn) (opts : CircuitBreakerOptions) | OpFire (name : string) (args : list string)
| OpTrip (name : string) | OpClose (name : string) | OpDestroy (name : string) | OpEmit (b : nat) (ev : Event).

Definition circuit_step (s : Service) (op : circuit_op) : Service :=
  match op with
  | OpCreate name fn opts => (create name fn opts s).1
  | OpFire name args => (fire name args s).1
  | OpTrip name => (trip name s).1
  | OpClose name => (close name s).1
  | OpDestroy name => destroy name s
  | OpEmit b ev => (emit b ev s).1
  end.

Definition circuit_run (ops : list circuit_op) : Service := foldl circuit_step new_service ops.

(** ** The contract: a log of events per name

    The counters are meant to be those of the events since the breaker was
    made.  [Logs] keeps these events; it also keeps which name every object
    listens for. *)
Record Logs := mkLogs { l_names : list string; l_events : jsmap (list Event) }.

Definition log_step (l : Logs) (op : circuit_op) : Logs :=
  match op with
  | OpCreate name _ _ =>
      if map_has name (l_events l) then l else mkLogs (l_names l ++ [name]) (map_set name [] (l_events l))
  | OpDestroy name => mkLogs (l_names l) (map_delete name (l_events l))
  | OpEmit b ev =>
      match l_names l !! b with
      | Some name => match map_get name (l_events l) with
                     | Some evs => mkLogs (l_names l) (map_set name (evs ++ [ev]) (l_events l))
                     | None => l
                     end
      | None => l
      end
  | _ => l
  end.

Definition log_run (ops : list circuit_op) : Logs := foldl log_step (mkLogs [] []) ops.

Definition count (ev : Event) (evs : list Event) : Z := Z.of_nat (length (filter (.= ev) evs)).

(** The statistics of a log. *)
Definition summary (evs : list Event) : CircuitStats :=
  let failed := count Failure evs + count Timeout evs in
  mkStats CLOSED failed (count Success evs) (count Timeout evs) (count Reject evs) 0
    (error_percentage (count Success evs) failed).

Definition summaries (m : jsmap (list Event)) : jsmap CircuitStats := List.map (λ kv, (kv.1, summary kv.2)) m.

Lemma count_snoc ev evs e : count ev (evs ++ [e]) = count ev evs + (if bool_decide (e = ev) then 1 else 0).
Proof.
  unfold count. rewrite filter_app, length_app. cbn [filter list_filter].
  destruct (decide (e = ev)); [rewrite bool_decide_true by done | rewrite bool_decide_false by done]; simpl; lia.
Qed.

Lemma summaries_get k m : map_get k (summaries m) = summary <$> map_get k m.
Proof. induction m as [|[k' v] m IH]; simpl; [done|]. case_bool_decide; auto. Qed.

Lemma summaries_set k v m : summaries (map_set k v m) = map_set k (summary v) (summaries m).
Proof. induction m as [|[k' v'] m IH]; simpl; [done|]. case_bool_decide; simpl; [done|]. by rewrite IH. Qed.

Lemma summaries_delete k m : summaries (map_delete k m) = map_delete k (summaries m).
Proof. induction m as [|[k' v'] m IH]; simpl; [done|]. case_bool_decide; simpl; [done|]. by rewrite IH. Qed.

Lemma summaries_keys m : map_keys (summaries m) = map_keys m.
Proof. unfold map_keys, summaries. by rewrite map_map. Qed.

Lemma same_keys_get {V W} k (m : jsmap V) (m' : jsmap W) : map_keys m = map_keys m' → map_get k m = None ↔ map_get k m' = None.
Proof. intros E. by rewrite !map_get_None, E. Qed.

Lemma keys_set_known {V} k (v : V) m w : map_get k m = Some w → map_keys (map_set k v m) = map_keys m.
Proof. intros Hg. by rewrite map_keys_set, map_has_get, Hg. Qed.

(** One event: the statistics of the longer log. *)
Definition counted (ev : Event) (st : CircuitStats) : CircuitStats :=
  match ev with
  | Success => updatePercentageError (mkStats (state st) (failures st) (successes st + 1) (timeouts st) (rejects st) (fallbacks st) (percentageError st))
  | Failure => updatePercentageError (mkStats (state st) (failures st + 1) (successes st) (timeouts st) (rejects st) (fallbacks st) (percentageError st))
  | Timeout => updatePercentageError (mkStats (state st) (failures st + 1) (successes st) (timeouts st + 1) (rejects st) (fallbacks st) (percentageError st))
  | Reject => mkStats (state st) (failures st) (successes st) (timeouts st) (rejects st + 1) (fallbacks st) (percentageError st)
  | _ => st
  end.

Lemma counted_summary ev evs : counted ev (summary evs) = summary (evs ++ [ev]).
Proof.
  unfold summary; rewrite !count_snoc; destruct ev; cbn [counted];
    repeat (rewrite bool_decide_true by done || rewrite bool_decide_false by done);
    unfold updatePercentageError; cbn [state failures successes timeouts rejects fallbacks percentageError];
    rewrite ?Z.add_0_r, ?(Z.add_assoc _ _ 1), <- ?(Z.add_assoc _ 1 _), ?(Z.add_comm 1), ?Z.add_assoc; done.
Qed.

(** The service follows the logs. *)
Definition follows (s : Service) (l : Logs) : Prop :=
  stats s = summaries (l_events l) ∧ b_listens <$> objects s = l_names l ∧
  map_keys (breakers s) = map_keys (stats s) ∧ NoDup (map_keys (stats s)).

(** The runs of the methods that look a name up. *)
Lemma getStats_run name (s : Service) :
  getStats name s = (s, match map_get name (stats s) with Some st => Ok st | None => Throw (not_found name) end).
Proof. unfold getStats, get. cbv [mbind M_bind]. by destruct (map_get name (stats s)). Qed.

Lemma the_breaker_run e name (s : Service) :
  the_breaker e name s = (s, match map_get name (breakers s) with Some b => Ok b | None => Throw e end).
Proof. unfold the_breaker, get. cbv [mbind M_bind]. by destruct (map_get name (breakers s)). Qed.

(** What an event leaves behind when its name is known, and when it is not. *)
Lemma listener_counts name ev (s : Service) st : map_get name (stats s) = Some st →
  let s' := (listener name ev s).1 in
  stats s' = map_set name (counted ev st) (stats s) ∧ objects s' = objects s ∧ breakers s' = breakers s.
Proof.
  intros Hst. destruct ev; cbn [listener]; unfold recordSuccess, recordFailure, recordTimeout, recordReject, modify;
    cbv [mbind M_bind]; rewrite ?getStats_run, ?Hst; cbn; rewrite ?(map_set_same _ _ _ Hst); done.
Qed.

Lemma listener_unknown name ev (s : Service) : map_get name (stats s) = None → (listener name ev s).1 = s.
Proof.
  intros Hst. destruct ev; cbn [listener]; unfold recordSuccess, recordFailure, recordTimeout, recordReject, modify;
    cbv [mbind M_bind]; rewrite ?getStats_run, ?Hst; done.
Qed.

Lemma follows_create name fn opts s l : follows s l → follows (create name fn opts s).1 (log_step l (OpCreate name fn opts)).
Proof.
  intros (Hs & Ho & Hk & Hnd). cbn. unfold create. rewrite map_has_get.
  assert (map_get name (breakers s) = None ↔ map_get name (l_events l) = None) as Hiff.
  { rewrite (same_keys_get name _ _ Hk), Hs, summaries_get. by destruct (map_get name (l_events l)). }
  destruct (map_get name (breakers s)) eqn:Eb, (map_get name (l_events l)) eqn:El;
    [by split_and! | naive_solver | naive_solver |].
  split_and!; cbn [stats objects breakers issued l_events l_names fst initializeStats set_stats].
  - by rewrite Hs, summaries_set.
  - by rewrite fmap_app, Ho.
  - apply (same_keys_get name _ _ Hk) in Eb as Es. by rewrite !map_keys_set, !map_has_get, Eb, Es, Hk.
  - by apply map_set_nodup.
Qed.

Lemma follows_destroy name s l : follows s l → follows (destroy name s) (log_step l (OpDestroy name)).
Proof.
  intros (Hs & Ho & Hk & Hnd). cbn. unfold destroy. destruct (map_get name (breakers s)) eqn:Eb.
  - split_and!; cbn [stats objects breakers issued l_events l_names fst initializeStats set_stats]; [by rewrite Hs, summaries_delete | done | by rewrite !map_keys_delete, Hk | by apply map_delete_nodup].
  - assert (map_get name (l_events l) = None) as El.
    { apply (same_keys_get name _ _ Hk) in Eb. rewrite Hs, summaries_get in Eb. by destruct (map_get name (l_events l)). }
    split_and!; cbn [stats objects breakers issued l_events l_names fst initializeStats set_stats]; try done. by rewrite map_delete_absent.
Qed.

Lemma follows_emit b ev s l : follows s l → follows (emit b ev s).1 (log_step l (OpEmit b ev)).
Proof.
  intros (Hs & Ho & Hk & Hnd). cbn [log_step]. unfold emit, get. cbv [mbind M_bind]. rewrite <- Ho, list_lookup_fmap.
  destruct (objects s !! b) as [br|]; cbn [fmap option_fmap option_map]; [|by split_and!].
  destruct (map_get (b_listens br) (l_events l)) as [evs|] eqn:El.
  - assert (map_get (b_listens br) (stats s) = Some (summary evs)) as Est by (by rewrite Hs, summaries_get, El).
    destruct (listener_counts _ ev _ _ Est) as (E1 & E2 & E3).
    split_and!; cbn [stats objects breakers issued l_events l_names fst initializeStats set_stats].
    + by rewrite E1, summaries_set, Hs, counted_summary.
    + by rewrite E2.
    + by rewrite E1, E3, (keys_set_known _ _ _ _ Est).
    + rewrite E1. by apply map_set_nodup.
  - rewrite listener_unknown by (by rewrite Hs, summaries_get, El). by split_and!.
Qed.

Lemma the_breaker_call e name c s l : follows s l →
  follows ((b ← the_breaker e name; modify (issue (c b))) s).1 l.
Proof. intros (Hs & Ho & Hk & Hnd). cbv [mbind M_bind]. rewrite the_breaker_run. destruct (map_get name (breakers s)); cbn; by split_and!. Qed.

Lemma follows_step op s l : follows s l → follows (circuit_step s op) (log_step l op).
Proof.
  intros H. destruct op as [name fn opts|name args|name|name|name|b ev].
  - by apply follows_create.
  - by apply (the_breaker_call _ _ (λ b, Fire b args)).
  - by apply the_breaker_call.
  - by apply the_breaker_call.
  - by apply follows_destroy.
  - by apply follows_emit.
Qed.

Lemma follows_run ops : follows (circuit_run ops) (log_run ops).
Proof.
  unfold circuit_run, log_run. assert (follows new_service (mkLogs [] [])) as H0 by (split_and!; constructor).
  revert H0. generalize new_service (mkLogs [] []). induction ops as [|op ops IH]; intros s l H0; [done|].
  cbn [foldl]. apply IH. by apply follows_step.
Qed.

(** ** The percentage *)

Lemma count_nonneg ev evs : 0 ≤ count ev evs.
Proof. unfold count. lia. Qed.

(** The nearest integer: doubled and without division. *)
Lemma error_percentage_nearest su fa : 0 ≤ su → 0 ≤ fa → su + fa ≠ 0 →
  let p := error_percentage su fa in
  (2 * p - 1) * (su + fa) ≤ 200 * fa < (2 * p + 1) * (su + fa).
Proof.
  intros Hs Hf Ht. unfold error_percentage. rewrite bool_decide_false by done. cbv zeta.
  set (q := (inject_Z fa / inject_Z (su + fa) * 100 + (1 # 2))%Q).
  assert (inject_Z (2 * (su + fa)) * q == inject_Z (200 * fa + (su + fa)))%Q as Hq.
  { unfold q. rewrite !inject_Z_plus, !inject_Z_mult, !inject_Z_plus. field.
    rewrite <- inject_Z_plus. intros E. apply Ht. apply (proj1 (inject_Z_injective (su + fa) 0)). exact E. }
  assert (0 < inject_Z (2 * (su + fa)))%Q as Hpos.
  { change 0%Q with (inject_Z 0). rewrite <- Zlt_Qlt. lia. }
  pose proof (Qfloor_le q) as Hlo. pose proof (Qlt_floor q) as Hhi.
  assert (inject_Z (2 * (su + fa) * Qfloor q) <= inject_Z (200 * fa + (su + fa)))%Q as H1.
  { rewrite <- Hq, inject_Z_mult. apply Qmult_le_l; done. }
  assert (inject_Z (200 * fa + (su + fa)) < inject_Z (2 * (su + fa) * (Qfloor q + 1)))%Q as H2.
  { rewrite <- Hq, (inject_Z_mult (2 * (su + fa)) (Qfloor q + 1)). apply Qmult_lt_l; done. }
  rewrite <- Zle_Qle in H1. rewrite <- Zlt_Qlt in H2. lia.
Qed.

Lemma error_percentage_bounds su fa : 0 ≤ su → 0 ≤ fa → 0 ≤ error_percentage su fa ≤ 100.
Proof.
  intros Hs Hf. destruct (decide (su + fa = 0)) as [Ht|Ht].
  - unfold error_percentage. rewrite bool_decide_true by done. lia.
  - pose proof (error_percentage_nearest su fa Hs Hf Ht) as [H1 H2]. cbv zeta in *. nia.
Qed.

(** ** What the service guarantees *)

(** The statistics under a name are, after any calls and events, those of
    the events received since the breaker was made, and there are statistics for
    exactly the names that have a breaker. *)
Theorem statistics_exact ops :
  let s := circuit_run ops in
  stats s = summaries (l_events (log_run ops)) ∧ map_keys (breakers s) = map_keys (stats s).
Proof. destruct (follows_run ops) as (H1 & _ & H3 & _). done. Qed.

Lemma collect_stats_all (s : Service) names out :
  NoDup names → (∀ k, k ∈ names → is_Some (map_get k (stats s)) ∧ map_get k out = None) →
  ∃ res, collect_stats names out s = (s, Ok res) ∧ map_keys res = map_keys out ++ names ∧
    ∀ k, map_get k res = if bool_decide (k ∈ names) then map_get k (stats s) else map_get k out.
Proof.
  intros Hnd. revert out. induction names as [|n names IH]; intros out Hall.
  - exists out. split_and!; [done | by rewrite app_nil_r | done].
  - inversion Hnd as [|? ? Hn Hnd']; subst.
    destruct (Hall n) as [[st Est] Hout]; [constructor|].
    cbn [collect_stats]. cbv [mbind M_bind]. rewrite getStats_run, Est.
    destruct (IH Hnd' (map_set n st out)) as (res & E & Hkeys & Hget).
    { intros k Hk. split; [apply Hall; by constructor|]. rewrite map_get_set_ne; [|by intros ->].
      apply Hall. by constructor. }
    exists res. split_and!; [done | by rewrite Hkeys, map_keys_set, map_has_get, Hout, <- app_assoc |].
    intros k. rewrite Hget. destruct (decide (k = n)) as [->|Hne].
    + rewrite (bool_decide_true (n ∈ n :: names)) by constructor. by rewrite bool_decide_false, map_get_set_eq.
    + rewrite map_get_set_ne by done. rewrite (bool_decide_ext (k ∈ n :: names) (k ∈ names)) by set_solver. done.
Qed.
(** [getAllStats] never throws: it lists every breaker in the order of
    the map with the statistics [getStats] returns for it, each with a percentage
    between 0 and 100. *)
Theorem all_stats ops :
  let s := circuit_run ops in
  ∃ out, getAllStats s = (s, Ok out) ∧ map_keys out = map_keys (breakers s) ∧
    ∀ name st, map_get name out = Some st → getStats name s = (s, Ok st) ∧ 0 ≤ percentageError st ≤ 100.
Proof.
  cbv zeta. destruct (follows_run ops) as (Hs & _ & Hk & Hnd). set (s := circuit_run ops) in *.
  destruct (collect_stats_all s (map_keys (breakers s)) []) as (out & E & Hkeys & Hget).
  { by rewrite Hk. }
  { intros k Hin. split; [|done]. rewrite Hk in Hin. apply not_eq_None_Some. rewrite map_get_None. intros Hno. by apply Hno. }
  exists out. split_and!; [exact E | done |].
  intros name st Est. rewrite Hget in Est. destruct (bool_decide_reflect (name ∈ map_keys (breakers s))) as [Hin|_]; [|done].
  split; [by rewrite getStats_run, Est|].
  rewrite Hs, summaries_get in Est. destruct (map_get name (l_events (log_run ops))) as [evs|]; cbn in Est; [|done].
  injection Est as <-. apply error_percentage_bounds; [apply count_nonneg|].
  pose proof (count_nonneg Failure evs). pose proof (count_nonneg Timeout evs). lia.
Qed.

(** The statistics never report an open circuit or a fallback. *)
Theorem state_never_changes ops name st :
  map_get name (stats (circuit_run ops)) = Some st → state st = CLOSED ∧ fallbacks st = 0.
Proof.
  destruct (follows_run ops) as (Hs & _). rewrite Hs, summaries_get.
  destruct (map_get name _); cbn; intros E; by simplify_eq.
Qed.

(** The name a breaker is stored under is the one its listeners remember, so a
    breaker's events are counted under its own name as long as it is there. *)
Definition wired (s : Service) : Prop :=
  ∀ name b, map_get name (breakers s) = Some b → ∃ br, objects s !! b = Some br ∧ b_listens br = name.

Lemma wired_step op s : wired s → wired (circuit_step s op).
Proof.
  intros H. destruct op as [name fn opts|name args|name|name|name|b ev]; cbn [circuit_step].
  - unfold create. destruct (map_get name (breakers s)) as [b0|] eqn:Eb; [exact H|].
    intros n b. cbn [fst initializeStats set_stats breakers objects]. rewrite map_get_set.
    destruct (bool_decide_reflect (n = name)) as [->|Hne]; intros Hb.
    + injection Hb as <-. eexists. rewrite lookup_app_r by lia. by rewrite Nat.sub_diag.
    + destruct (H n b Hb) as (br & Hbr & Hl). exists br. split; [by apply lookup_app_l_Some | done].
  - unfold fire. cbv [mbind M_bind]. rewrite the_breaker_run. destruct (map_get name (breakers s)); exact H.
  - unfold trip. cbv [mbind M_bind]. rewrite the_breaker_run. destruct (map_get name (breakers s)); exact H.
  - unfold close. cbv [mbind M_bind]. rewrite the_breaker_run. destruct (map_get name (breakers s)); exact H.
  - unfold destroy. destruct (map_get name (breakers s)) as [b0|]; [|exact H].
    intros n b. cbn [breakers objects]. rewrite map_get_delete. case_bool_decide; [done|apply H].
  - unfold emit, get. cbv [mbind M_bind]. destruct (objects s !! b) as [br|]; [|exact H].
    destruct (map_get (b_listens br) (stats s)) as [st|] eqn:Est.
    + destruct (listener_counts _ ev _ _ Est) as (_ & E2 & E3). unfold wired. by rewrite E2, E3.
    + by rewrite listener_unknown.
Qed.

Lemma wired_run ops : wired (circuit_run ops).
Proof.
  unfold circuit_run. assert (wired new_service) as H0 by done.
  revert H0. generalize new_service. induction ops as [|op ops IH]; intros s H0; [done|].
  cbn [foldl]. apply IH. by apply wired_step.
Qed.

(** Calling through a name: after any calls and events, a name whose
    breaker exists passes the call on to the breaker that was made under this
    name and to no other; a name without one throws and passes nothing on;
    making it again returns the breaker that is there, whatever its function and
    options. *)
Theorem fire_reaches_breaker ops name args fn opts :
  let s := circuit_run ops in
  match map_get name (breakers s) with
  | Some b => (∃ br, objects s !! b = Some br ∧ b_listens br = name) ∧
      fire name args s = (issue (Fire b args) s, Ok tt) ∧ create name fn opts s = (s, b)
  | None => fire name args s = (s, Throw (create_first name)) ∧
      let '(s', b) := create name fn opts s in fire name args s' = (issue (Fire b args) s', Ok tt) ∧ b = length (objects s)
  end.
Proof.
  cbv zeta. pose proof (wired_run ops) as Hw. set (s := circuit_run ops) in *.
  destruct (map_get name (breakers s)) as [b|] eqn:Eb.
  - split_and!; [by apply Hw | | unfold create; by rewrite Eb].
    unfold fire. cbv [mbind M_bind]. by rewrite the_breaker_run, Eb.
  - split; [unfold fire; cbv [mbind M_bind]; by rewrite the_breaker_run, Eb|].
    unfold create. rewrite Eb. split; [|done]. unfold fire. cbv [mbind M_bind]. rewrite the_breaker_run.
    cbn [initializeStats set_stats breakers]. by rewrite map_get_set_eq.
Qed.

(** The number of requests allowed while half open never reaches the breaker. *)
Lemma half_open_ignored name opts n :
  breaker_options name opts = breaker_options name (mkBreakerOptions (errorThresholdPercentage opts) (resetTimeout opts)
    (rollingCountTimeout opts) n (rollingCountBuckets opts) (bo_name opts) (fallback opts) (timeout opts)).
Proof. done. Qed.
End service.

(** ** Runs *)

(** A call that ends after its breaker was destroyed is counted for the breaker
    that has taken its name. *)
Example late_event_counted :
  map_get "rpc" (stats (circuit_run [OpCreate "rpc" tt no_options; OpDestroy "rpc"; OpCreate "rpc" tt no_options; OpEmit 0 Failure]))
  = Some (mkStats CLOSED 1 0 0 0 0 100).
Proof. vm_compute. reflexivity. Qed.

(** The configured circuits: the listed settings, 10 buckets. *)
Example configured_options :
  map (λ kv, breaker_options (Fn := unit) kv.1 kv.2) ExternalServiceConfig =
  [mkOptions 10000 30 15000 30000 10 "blockchain-rpc"; mkOptions 5000 40 60000 60000 10 "email-provider";
   mkOptions 8000 20 30000 30000 10 "payment-gateway"; mkOptions 5000 50 10000 30000 10 "notification-service";
   mkOptions 3000 60 10000 30000 10 "analytics-service"].
Proof. vm_compute. reflexivity. Qed.

(** Three successes, one failure and one timeout: 40 percent. *)
Example two_of_five :
  stats (circuit_run [OpCreate "rpc" tt no_options; OpEmit 0 Success; OpEmit 0 Timeout; OpEmit 0 Success; OpEmit 0 Failure;
    OpEmit 0 Reject; OpEmit 0 Opened; OpEmit 0 Success]) = [("rpc", mkStats CLOSED 2 3 1 1 0 40)].
Proof. vm_compute. reflexivity. Qed.

Example state_never_changes_witness :
  state (mkStats CLOSED 0 1 0 0 0 0) = CLOSED ∧ fallbacks (mkStats CLOSED 0 1 0 0 0 0) = 0.
Proof.
  apply (state_never_changes [OpCreate "rpc" tt no_options; OpEmit 0 Success] "rpc"). vm_compute. reflexivity.
Defined.
