(* ===== verification/ReadReplica.v ===== *)
(** * Read replicas: [server/src/services/read-replica.service.ts]

    The router sends reads to the healthy replicas in turn and everything else
    to the primary.  Each replica has a probe: a timer that, when it fires, sends
    a query, and when the query ends notes the outcome and sets the next timer.
    The timers that are pending and the queries that are under way are part of
    the state, so that reads, pins, probes and the shutdown may come in any
    order.  Clients of the database are names; a query succeeds or fails as the
    event that ends it says. *)

From stdpp Require Import prelude gmap strings list.
From Stdlib Require Import Ascii.
From S2P Require Import Prelude JsText.

#[local] Open Scope Z_scope.

Definition PROBE_INTERVAL_MS : Z := 30000.
Definition OFFLINE_PROBE_MS : Z := 60000.

(** The client of the primary, and the one made for the replica at a position. *)
Inductive Client := PrimaryClient | ReplicaClient (position : nat).

#[export] Instance Client_eq_dec : EqDecision Client.
Proof. solve_decision. Defined.

Record Replica := mkReplica { url : string; client : Client; healthy : bool; lastProbeAt : Z; lagMs : option Z }.

#[export] Instance Replica_eq_dec : EqDecision Replica.
Proof. solve_decision. Defined.

Definition parseReplicaUrls (raw : option string) : list string :=
  match truthy_str raw with
  | None => []
  | Some raw => List.filter (λ s, bool_decide (0 < String.length s)%nat) (trim <$> split ","%char raw)
  end.

(** A pending timer: its number, the position of its replica and its delay. *)
Record Timer := mkTimer { t_id : nat; t_replica : nat; t_delay : Z }.

(** The router, with the timers that are pending, the number of timers made so
    far and the queries under way (position of the replica, start). *)
Record Router := mkRouter {
  primary_url : string; replicas : list Replica; writePin : Z; cursor : Z; probes : jsmap nat;
  timers : list Timer; made : nat; in_flight : list (nat * Z) }.

(** [this.probes.set(url, setTimeout(tick, delay))] *)
Definition schedule (i : nat) (u : string) (delay : Z) (s : Router) : Router :=
  mkRouter (primary_url s) (replicas s) (writePin s) (cursor s) (map_set u (made s) (probes s))
    (timers s ++ [mkTimer (made s) i delay]) (S (made s)) (in_flight s).

Definition startProbe (s : Router) (i : nat) : Router :=
  match replicas s !! i with
  | None => s
  | Some r => if map_has (url r) (probes s) then s else schedule i (url r) 0 s
  end.

(** [tick] up to its [await]. *)
Definition tick_starts (t : nat) (now : Z) (s : Router) : Router :=
  match List.filter (λ p, bool_decide (t_id p = t)) (timers s) with
  | p :: _ =>
      mkRouter (primary_url s) (replicas s) (writePin s) (cursor s) (probes s)
        (List.filter (λ p, negb (bool_decide (t_id p = t))) (timers s)) (made s) (in_flight s ++ [(t_replica p, now)])
  | [] => s
  end.

Definition probed (ok : bool) (startedAt now : Z) (r : Replica) : Replica :=
  mkReplica (url r) (client r) ok now (if ok then Some (now - startedAt) else lagMs r).

(** [tick] after its [await]: the query of the replica at [i] has ended. *)
Definition tick_ends (i : nat) (ok : bool) (now : Z) (s : Router) : Router :=
  match List.filter (λ q, bool_decide (q.1 = i)) (in_flight s), replicas s !! i with
  | (_, startedAt) :: _, Some r =>
      schedule i (url r) (if ok then PROBE_INTERVAL_MS else OFFLINE_PROBE_MS)
        (mkRouter (primary_url s) (<[i := probed ok startedAt now r]> (replicas s)) (writePin s) (cursor s) (probes s)
           (timers s) (made s) (List.filter (λ q, negb (bool_decide (q.1 = i))) (in_flight s)))
  | _, _ => s
  end.

Definition new_router (purl : string) (rs : list Replica) : Router :=
  foldl startProbe (mkRouter purl rs 0 0 [] [] 0 []) (seq 0 (length rs)).

Definition set_cursor (c : Z) (s : Router) : Router :=
  mkRouter (primary_url s) (replicas s) (writePin s) c (probes s) (timers s) (made s) (in_flight s).

Definition set_pin (n : Z) (s : Router) : Router :=
  mkRouter (primary_url s) (replicas s) n (cursor s) (probes s) (timers s) (made s) (in_flight s).

Definition healthy_replicas (s : Router) : list Replica := List.filter healthy (replicas s).

Definition read (s : Router) : Router * Client :=
  if bool_decide (0 < writePin s) then (s, PrimaryClient) else
  let hs := healthy_replicas s in
  let n := Z.of_nat (length hs) in
  if bool_decide (n = 0) then (s, PrimaryClient) else
  match hs !! Z.to_nat (cursor s `mod` n) with
  | Some pick => (set_cursor ((cursor s + 1) `mod` n) s, client pick)
  | None => (s, PrimaryClient)
  end.

Definition write (s : Router) : Client := PrimaryClient.

(** [withWritePin] before and after it awaits its function, which may throw. *)
Definition pin (s : Router) : Router := set_pin (writePin s + 1) s.
Definition unpin (s : Router) : Router := set_pin (writePin s - 1) s.

(** The timers stop, and the clients that are asked to disconnect. *)
Definition disconnectAll (s : Router) : Router * list Client :=
  (mkRouter (primary_url s) (replicas s) (writePin s) (cursor s) []
     (List.filter (λ p, negb (bool_decide (t_id p ∈ map_values (probes s)))) (timers s)) (made s) (in_flight s),
   client <$> replicas s).

Definition snapshot (s : Router) : string * list (string * bool * option Z) :=
  (primary_url s, (λ r, (url r, healthy r, lagMs r)) <$> replicas s).

Definition buildReadReplicaRouter (purl : string) (replicaUrls : list string) : Router :=
  new_router purl (imap (λ i u, mkReplica u (ReplicaClient i) true 0 None) replicaUrls).

(** [activeRouter], the variable of the module. *)
Definition getReadReplicaRouter (activeRouter : option Router) : option Router := activeRouter.
Definition setReadReplicaRouter (router activeRouter : option Router) : option Router := router.

(** ** Everything that can happen to a router *)

Inductive router_event :=
| Read | Pin | Unpin (call : nat) | TimerFires (t : nat) (now : Z) | QueryEnds (i : nat) (ok : bool) (now : Z) | Disconnect.

(** The router, the calls of [withWritePin] that have not returned (numbered in
    order), how many there were, and the outcomes of the probes so far, latest
    first. *)
Record World := mkWorld { router : Router; pinned : list nat; pin_calls : nat; outcomes : list (nat * bool) }.

Definition world_step (w : World) (e : router_event) : World :=
  match e with
  | Read => mkWorld (read (router w)).1 (pinned w) (pin_calls w) (outcomes w)
  | Pin => mkWorld (pin (router w)) (pinned w ++ [pin_calls w]) (S (pin_calls w)) (outcomes w)
  | Unpin c => if bool_decide (c ∈ pinned w)
               then mkWorld (unpin (router w)) (filter (.≠ c) (pinned w)) (pin_calls w) (outcomes w) else w
  | TimerFires t now => mkWorld (tick_starts t now (router w)) (pinned w) (pin_calls w) (outcomes w)
  | QueryEnds i ok now =>
      mkWorld (tick_ends i ok now (router w)) (pinned w) (pin_calls w)
        (if bool_decide (i ∈ (in_flight (router w)).*1) then (i, ok) :: outcomes w else outcomes w)
  | Disconnect => mkWorld (disconnectAll (router w)).1 (pinned w) (pin_calls w) (outcomes w)
  end.

Definition world_run (purl : string) (urls : list string) (es : list router_event) : World :=
  foldl world_step (mkWorld (buildReadReplicaRouter purl urls) [] 0 []) es.

Fixpoint reads (k : nat) (s : Router) : Router * list Client :=
  match k with O => (s, []) | S k => let '(s1, c) := read s in let '(s2, cs) := reads k s1 in (s2, c :: cs) end.

(** The position of the first replica with each address. *)
Definition owners (urls : list string) : list nat :=
  List.filter (λ i, match urls !! i with Some u => negb (bool_decide (u ∈ take i urls)) | None => false end) (seq 0 (length urls)).

(** What the last probe of a replica said; it counts as healthy before. *)
Definition last_outcome (i : nat) (l : list (nat * bool)) : bool :=
  match List.filter (λ o, bool_decide (o.1 = i)) l with (_, ok) :: _ => ok | [] => true end.

(** ** Turns *)

Lemma read_turn s pick : writePin s ≤ 0 →
  let n := Z.of_nat (length (healthy_replicas s)) in
  healthy_replicas s !! Z.to_nat (cursor s `mod` n) = Some pick →
  read s = (set_cursor ((cursor s + 1) `mod` n) s, client pick).
Proof.
  intros Hp n Hpick. unfold read. rewrite bool_decide_false by lia. cbv zeta. fold n.
  assert (0 < n). { subst n. destruct (healthy_replicas s); [done|]. cbn [length]. lia. }
  rewrite bool_decide_false by lia. by rewrite Hpick.
Qed.

Lemma reads_length k s : length (reads k s).2 = k.
Proof.
  revert s. induction k as [|k IH]; intros s; [done|]. cbn [reads]. destruct (read s) as [s1 c].
  specialize (IH s1). destruct (reads k s1) as [s2 cs]. cbn in *. by rewrite IH.
Qed.

Lemma reads_lookup k s j : writePin s ≤ 0 → healthy_replicas s ≠ [] → (j < k)%nat →
  let n := Z.of_nat (length (healthy_replicas s)) in
  (reads k s).2 !! j = client <$> healthy_replicas s !! Z.to_nat ((cursor s + Z.of_nat j) `mod` n).
Proof.
  revert s j. induction k as [|k IH]; intros s j Hp Hne Hj n; [lia|].
  assert (0 < n) by (subst n; destruct (healthy_replicas s); [done|cbn [length]; lia]).
  assert (is_Some (healthy_replicas s !! Z.to_nat (cursor s `mod` n))) as [pick Hpick].
  { apply lookup_lt_is_Some. pose proof (Z.mod_pos_bound (cursor s) n). lia. }
  cbn [reads]. rewrite (read_turn s pick Hp Hpick). fold n.
  specialize (IH (set_cursor ((cursor s + 1) `mod` n) s)).
  destruct (reads k _) as [s2 cs] eqn:E. cbn [snd] in *. destruct j as [|j].
  - cbn. by rewrite Z.add_0_r, Hpick.
  - cbn [lookup list_lookup]. etransitivity; [apply (IH j); [done|done|lia]|]. cbn [cursor set_cursor].
    change (healthy_replicas (set_cursor _ s)) with (healthy_replicas s). fold n.
    rewrite Zplus_mod_idemp_l. do 3 f_equal. f_equal. lia.
Qed.

(** A round of reads goes through the healthy replicas from the cursor on. *)
Lemma reads_round s : writePin s ≤ 0 → healthy_replicas s ≠ [] → 0 ≤ cursor s →
  (reads (length (healthy_replicas s)) s).2 = rotate (Z.to_nat (cursor s)) (client <$> healthy_replicas s).
Proof.
  intros Hp Hne Hc. apply list_eq. intros j.
  destruct (decide (j < length (healthy_replicas s))%nat) as [Hj|Hj].
  - rewrite reads_lookup by done. rewrite lookup_rotate_r by (by rewrite length_fmap).
    rewrite list_lookup_fmap, length_fmap. unfold rotate_nat_add. do 3 f_equal.
    by rewrite Z2Nat.id by done.
  - rewrite !lookup_ge_None_2; [done|rewrite length_rotate, length_fmap; lia|rewrite reads_length; lia].
Qed.

Lemma rotate_Permutation {A} n (l : list A) : rotate n l ≡ₚ l.
Proof. unfold rotate. rewrite Permutation_app_comm. by rewrite take_drop. Qed.

(** ** The invariant *)

(** [stopped] are the probes that [disconnectAll] has stopped. *)
Record router_inv (urls : list string) (stopped : list nat) (s : Router) : Prop := {
  ri_urls : url <$> replicas s = urls;
  ri_clients : ∀ i r, replicas s !! i = Some r → client r = ReplicaClient i;
  ri_probes : (t_replica <$> timers s) ++ (in_flight s).*1 ++ stopped ≡ₚ owners urls;
  ri_listed : ∀ p r, p ∈ timers s → replicas s !! t_replica p = Some r → map_get (url r) (probes s) = Some (t_id p);
  ri_fresh : ∀ p, p ∈ timers s → (t_id p < made s)%nat;
  ri_ids : NoDup (t_id <$> timers s);
  ri_cursor : 0 ≤ cursor s }.

Lemma owners_nodup urls : NoDup (owners urls).
Proof.
  unfold owners. generalize (λ i, match urls !! i with Some u => negb (bool_decide (u ∈ take i urls)) | None => false end).
  intros f. apply NoDup_ListNoDup, List.NoDup_filter, seq_NoDup.
Qed.

Lemma elem_of_owners urls i : i ∈ owners urls ↔ ∃ u, urls !! i = Some u ∧ u ∉ take i urls.
Proof.
  unfold owners. rewrite elem_of_bfilter, elem_of_seq. split.
  - intros [H _]. destruct (urls !! i) as [u|]; [|done]. exists u. split; [done|].
    destruct (bool_decide_reflect (u ∈ take i urls)); done.
  - intros (u & Hu & Hni). rewrite Hu, bool_decide_false by done. split; [done|]. apply lookup_lt_Some in Hu. lia.
Qed.

(** Two positions with the same address are not both first. *)
Lemma owners_distinct urls i j u : i ∈ owners urls → j ∈ owners urls → urls !! i = Some u → urls !! j = Some u → i = j.
Proof.
  rewrite !elem_of_owners. intros (u1 & Hi & Hi') (u2 & Hj & Hj') E1 E2. simplify_eq.
  destruct (Nat.lt_trichotomy i j) as [Hlt|[->|Hlt]]; [|done|]; exfalso.
  - apply Hj'. apply list_elem_of_lookup. exists i. by rewrite lookup_take_lt.
  - apply Hi'. apply list_elem_of_lookup. exists j. by rewrite lookup_take_lt.
Qed.

(** The constructor, after its first [k] turns. *)
Definition started (purl : string) (rs : list Replica) (k : nat) : Router :=
  foldl startProbe (mkRouter purl rs 0 0 [] [] 0 []) (seq 0 k).

Definition owner (urls : list string) (i : nat) : bool :=
  match urls !! i with Some u => negb (bool_decide (u ∈ take i urls)) | None => false end.

Record starting (purl : string) (rs : list Replica) (k : nat) (s : Router) : Prop := {
  st_frame : replicas s = rs ∧ writePin s = 0 ∧ cursor s = 0 ∧ in_flight s = [];
  st_timers : t_replica <$> timers s = List.filter (owner (url <$> rs)) (seq 0 k);
  st_seen : ∀ u, is_Some (map_get u (probes s)) ↔ u ∈ take k (url <$> rs);
  st_listed : ∀ p r, p ∈ timers s → rs !! t_replica p = Some r → map_get (url r) (probes s) = Some (t_id p);
  st_fresh : ∀ p, p ∈ timers s → (t_id p < made s)%nat;
  st_ids : NoDup (t_id <$> timers s) }.

Lemma started_ok purl rs k : (k ≤ length rs)%nat → starting purl rs k (started purl rs k).
Proof.
  induction k as [|k IH]; intros Hk.
  - split; cbn; try done; [|intros ? ? []%elem_of_nil|intros ? []%elem_of_nil|constructor].
    intros u. split; [by intros [? ?]|by intros ?%elem_of_nil].
  - specialize (IH ltac:(lia)). unfold started in *. rewrite seq_S, foldl_app. cbn [foldl plus].
    set (s := foldl startProbe _ (seq 0 k)) in *. destruct IH as [(Hr & Hw & Hc & Hf) Ht Hseen Hl Hfr Hid].
    destruct (lookup_lt_is_Some_2 rs k ltac:(lia)) as [r Er].
    assert ((url <$> rs) !! k = Some (url r)) as Eu by (by rewrite list_lookup_fmap, Er).
    unfold startProbe. rewrite Hr, Er. unfold map_has.
    destruct (bool_decide_reflect (is_Some (map_get (url r) (probes s)))) as [Hin|Hout].
    + split; try done.
      * rewrite Ht, seq_S, List.filter_app. cbn [List.filter plus]. unfold owner at 3. rewrite Eu, bool_decide_true by (by apply Hseen).
        by rewrite app_nil_r.
      * intros u. rewrite Hseen, (take_S_r _ _ _ Eu), elem_of_snoc. split; [by left|].
        intros [?| ->]; [done|by apply Hseen].
    + split; cbn [schedule replicas writePin cursor in_flight timers probes made]; try done.
      * rewrite fmap_app, Ht, seq_S, List.filter_app. cbn [List.filter plus]. unfold owner at 3.
        by rewrite Eu, bool_decide_false by (by rewrite <- Hseen).
      * intros u. rewrite map_get_set, (take_S_r _ _ _ Eu), elem_of_snoc.
        destruct (bool_decide_reflect (u = url r)) as [->|Hne]; [by split; [right|eauto]|]. rewrite Hseen. naive_solver.
      * intros p r' [Hp| ->]%elem_of_snoc Hr'.
        -- rewrite map_get_set_ne; [by apply Hl|]. intros E. apply Hout. rewrite <- E. eauto.
        -- cbn in Hr'. simplify_eq. by rewrite map_get_set_eq.
      * intros p [Hp| ->]%elem_of_snoc; [apply Hfr in Hp; lia|cbn; lia].
      * rewrite fmap_app. apply NoDup_snoc; [done|]. cbn. intros (p & Ep & Hp)%list_elem_of_fmap.
        apply Hfr in Hp. lia.
Qed.

Lemma url_build urls : url <$> imap (λ i u, mkReplica u (ReplicaClient i) true 0 None) urls = urls.
Proof. rewrite fmap_imap. unfold compose. cbn. apply list_eq. intros i. rewrite list_lookup_imap. by destruct (urls !! i). Qed.

Lemma router_inv_init purl urls : router_inv urls [] (buildReadReplicaRouter purl urls).
Proof.
  unfold buildReadReplicaRouter, new_router. set (rs := imap _ urls).
  assert (url <$> rs = urls) as Hu by apply url_build.
  pose proof (started_ok purl rs (length rs) (le_n _)) as [(Hr & Hw & Hc & Hf) Ht _ Hl Hfr Hid]. unfold started in *.
  split; try done.
  - by rewrite Hr.
  - rewrite Hr. intros i r. unfold rs. rewrite list_lookup_imap. destruct (urls !! i); cbn; intros; by simplify_eq.
  - rewrite Hf, fmap_nil, !app_nil_r, Ht, Hu. change (owners urls) with (List.filter (owner urls) (seq 0 (length urls))).
    by rewrite <- (length_fmap url rs), Hu.
  - by rewrite Hr.
  - by rewrite Hc.
Qed.

(** Steps that leave the probes alone. *)
Lemma router_inv_frame urls st s s' :
  router_inv urls st s → replicas s' = replicas s → probes s' = probes s → timers s' = timers s → made s' = made s →
  in_flight s' = in_flight s → 0 ≤ cursor s' → router_inv urls st s'.
Proof. intros [] E1 E2 E3 E4 E5 E6. split; rewrite ?E1, ?E2, ?E3, ?E4, ?E5; done. Qed.

Lemma read_frame s : let s' := (read s).1 in
  replicas s' = replicas s ∧ probes s' = probes s ∧ timers s' = timers s ∧ made s' = made s ∧ in_flight s' = in_flight s ∧
  writePin s' = writePin s ∧ (0 ≤ cursor s → 0 ≤ cursor s').
Proof.
  unfold read. case_bool_decide; [done|]. cbv zeta. case_bool_decide; [done|].
  destruct (healthy_replicas s !! _) as [p|]; cbn; [|done]. split_and!; try done. intros _. apply Z.mod_pos_bound. lia.
Qed.

(** The element with a key, and the others. *)
Lemma key_split {A} (f : A → nat) (l : list A) k x xs :
  NoDup (f <$> l) → List.filter (λ y, bool_decide (f y = k)) l = x :: xs →
  f x = k ∧ l ≡ₚ x :: List.filter (λ y, negb (bool_decide (f y = k))) l.
Proof.
  revert x xs. induction l as [|y l IH]; intros x xs Hnd; [done|]. rewrite fmap_cons in Hnd.
  inversion Hnd as [|? ? Hy Hnd']; subst. cbn [List.filter].
  destruct (bool_decide_reflect (f y = k)) as [E|E]; cbn [negb]; intros Hf.
  - injection Hf as <- _. split; [done|]. f_equiv. clear IH Hnd Hnd'. subst k. induction l as [|y' l IH]; [done|].
    rewrite fmap_cons in Hy. apply not_elem_of_cons in Hy as [H1 H2]. cbn [List.filter].
    rewrite bool_decide_false by congruence. cbn [negb]. f_equiv. by apply IH.
  - destruct (IH x xs Hnd' Hf) as [Hx Hperm]. split; [done|]. rewrite Hperm at 1. apply Permutation_swap.
Qed.

Lemma router_inv_tick_starts urls st t now s : router_inv urls st s → router_inv urls st (tick_starts t now s).
Proof.
  intros H. unfold tick_starts. destruct (List.filter _ (timers s)) as [|p ps] eqn:E; [done|].
  destruct H as [Hu Hcl Hp Hl Hf Hid Hc]. destruct (key_split t_id _ _ _ _ Hid E) as [_ Hsp].
  set (rest := List.filter (λ p, negb _) (timers s)) in *.
  assert (∀ q, q ∈ rest → q ∈ timers s) as Hsub by (intros q Hq; rewrite Hsp; apply elem_of_cons; by right).
  split; cbn; try done.
  - rewrite <- Hp, Hsp. rewrite fmap_cons, fmap_app, fmap_cons, fmap_nil. cbn [fst]. solve_Permutation.
  - intros q r Hq. by apply Hl, Hsub.
  - intros q Hq. by apply Hf, Hsub.
  - rewrite Hsp, fmap_cons in Hid. by inversion Hid.
Qed.

Lemma router_inv_tick_ends urls st i ok now s : router_inv urls st s → router_inv urls st (tick_ends i ok now s).
Proof.
  intros H. unfold tick_ends. destruct (List.filter _ (in_flight s)) as [|[i' at0] qs] eqn:E; [done|].
  destruct (replicas s !! i) as [r|] eqn:Er; [|done].
  destruct H as [Hu Hcl Hp Hl Hf Hid Hc].
  assert (NoDup (in_flight s).*1) as Hnd.
  { pose proof (owners_nodup urls) as Hno. rewrite <- Hp in Hno. apply NoDup_app in Hno as (_ & _ & Hno).
    by apply NoDup_app in Hno as (? & _ & _). }
  destruct (key_split fst _ _ _ _ Hnd E) as [Ei Hsp]. cbn in Ei. subst i'.
  set (rest := List.filter (λ p, negb _) (in_flight s)) in *. rewrite Hsp in Hp. rewrite fmap_cons in Hp. cbn in Hp.
  assert (url <$> <[i := probed ok at0 now r]> (replicas s) = url <$> replicas s) as Hurls.
  { rewrite list_fmap_insert. cbn. apply list_insert_id. by rewrite list_lookup_fmap, Er. }
  assert (∀ j r', <[i := probed ok at0 now r]> (replicas s) !! j = Some r' →
    ∃ r0, replicas s !! j = Some r0 ∧ url r0 = url r' ∧ client r0 = client r') as Hold.
  { intros j r' Hj. destruct (decide (i = j)) as [->|Hne].
    - rewrite list_lookup_insert_eq in Hj by (by eapply lookup_lt_Some). injection Hj as <-. by exists r.
    - rewrite list_lookup_insert_ne in Hj by done. by exists r'. }
  split; cbn [schedule replicas probes timers made in_flight cursor]; try done.
  - by rewrite Hurls.
  - intros j r' Hj. destruct (Hold j r' Hj) as (r0 & H0 & _ & <-). by apply Hcl.
  - rewrite <- Hp, fmap_app, fmap_cons, fmap_nil. cbn [t_replica]. solve_Permutation.
  - intros p r' [Hpin| ->]%elem_of_snoc Hr'; destruct (Hold _ _ Hr') as (r0 & H0 & <- & _).
    + rewrite map_get_set_ne; [by apply Hl|]. intros Eu.
      assert (t_replica p = i) as Epi.
      { apply (owners_distinct urls _ _ (url r)); rewrite <- ?Hp.
        - apply elem_of_app. left. by apply list_elem_of_fmap_2.
        - apply elem_of_app. right. by constructor.
        - rewrite <- Hu, list_lookup_fmap, H0. cbn. by rewrite Eu.
        - by rewrite <- Hu, list_lookup_fmap, Er. }
      pose proof (owners_nodup urls) as Hno. rewrite <- Hp in Hno. apply NoDup_app in Hno as (_ & Hdis & _).
      apply (Hdis i); [|by constructor]. rewrite <- Epi. by apply list_elem_of_fmap_2.
    + cbn in *. simplify_eq. by rewrite map_get_set_eq.
  - intros p [Hpin| ->]%elem_of_snoc; [apply Hf in Hpin; lia|cbn; lia].
  - rewrite fmap_app. apply NoDup_snoc; [done|]. cbn. intros (p & Ep & Hpin)%list_elem_of_fmap. apply Hf in Hpin. lia.
Qed.

(** No timer is pending after [disconnectAll]. *)
Lemma disconnect_timers urls st s : router_inv urls st s → timers (disconnectAll s).1 = [].
Proof.
  intros [Hu Hcl Hp Hl Hf Hid Hc]. cbn. apply bfilter_none. intros p Hpin.
  assert (t_replica p ∈ owners urls) as Hown by (rewrite <- Hp; apply elem_of_app; left; by apply list_elem_of_fmap_2).
  apply elem_of_owners in Hown as (u & Hiu & _). rewrite <- Hu, list_lookup_fmap in Hiu.
  destruct (replicas s !! t_replica p) as [r|] eqn:Er; [|done].
  rewrite bool_decide_true; [done|]. apply list_elem_of_fmap. exists (url r, t_id p). split; [done|].
  apply map_get_elem. by apply Hl.
Qed.

Lemma router_inv_disconnect urls st s : router_inv urls st s →
  router_inv urls ((t_replica <$> timers s) ++ st) (disconnectAll s).1.
Proof.
  intros H. pose proof (disconnect_timers _ _ _ H) as Ht. destruct H as [Hu Hcl Hp Hl Hf Hid Hc].
  split; rewrite ?Ht; try done.
  - cbn [disconnectAll in_flight fst]. rewrite <- Hp, fmap_nil. solve_Permutation.
  - intros ? ? []%elem_of_nil.
  - intros ? []%elem_of_nil.
  - constructor.
Qed.

(** The world: pins are counted and replicas have the health of their last
    probe. *)
Record world_inv (urls : list string) (st : list nat) (w : World) : Prop := {
  wi_router : router_inv urls st (router w);
  wi_pin : writePin (router w) = Z.of_nat (length (pinned w));
  wi_pinned : NoDup (pinned w) ∧ ∀ c, c ∈ pinned w → (c < pin_calls w)%nat;
  wi_health : ∀ i r, replicas (router w) !! i = Some r → healthy r = last_outcome i (outcomes w) }.

Lemma unpin_length (c : nat) (l : list nat) : NoDup l → c ∈ l → S (length (filter (.≠ c) l)) = length l.
Proof.
  induction l as [|x l IH]; intros Hnd; [by intros ?%elem_of_nil|]. inversion Hnd as [|? ? Hx Hnd']; subst.
  rewrite filter_cons. intros [->|Hin]%elem_of_cons.
  - rewrite decide_False by naive_solver. cbn. f_equal. clear -Hx. induction l as [|y l IH]; [done|].
    apply not_elem_of_cons in Hx as [H1 H2]. rewrite filter_cons, decide_True by naive_solver. cbn. f_equal. by apply IH.
  - rewrite decide_True by (intros ->; done). cbn. f_equal. by apply IH.
Qed.

Lemma in_flight_owner urls st s i : router_inv urls st s → i ∈ (in_flight s).*1 → is_Some (replicas s !! i).
Proof.
  intros [Hu _ Hp _ _ _ _] Hi. assert (i ∈ owners urls) as (u & Hiu & _)%elem_of_owners.
  { rewrite <- Hp. apply elem_of_app. right. apply elem_of_app. by left. }
  rewrite <- Hu, list_lookup_fmap in Hiu. by destruct (replicas s !! i).
Qed.

Lemma last_outcome_cons i j ok l : last_outcome i ((j, ok) :: l) = if bool_decide (i = j) then ok else last_outcome i l.
Proof.
  unfold last_outcome. cbn [List.filter fst]. destruct (bool_decide_reflect (j = i)) as [->|Hne].
  - by rewrite bool_decide_true.
  - by rewrite bool_decide_false.
Qed.

Lemma tick_ends_replicas urls st i ok now s : router_inv urls st s →
  replicas (tick_ends i ok now s) =
    (if bool_decide (i ∈ (in_flight s).*1)
     then alter (λ r, probed ok (default 0 (snd <$> head (List.filter (λ q, bool_decide (q.1 = i)) (in_flight s)))) now r) i (replicas s)
     else replicas s).
Proof.
  intros H. unfold tick_ends. destruct (List.filter _ (in_flight s)) as [|[i' at0] qs] eqn:E.
  - rewrite bool_decide_false; [done|]. intros (q & -> & Hq)%list_elem_of_fmap.
    assert (q ∈ List.filter (λ q', bool_decide (q'.1 = q.1)) (in_flight s)) as Hin.
    { apply elem_of_bfilter. split; [by apply bool_decide_true|done]. }
    rewrite E in Hin. by apply elem_of_nil in Hin.
  - assert (i ∈ (in_flight s).*1) as Hin.
    { assert ((i', at0) ∈ List.filter (λ q, bool_decide (q.1 = i)) (in_flight s)) as [Hb Hq]%elem_of_bfilter
        by (rewrite E; constructor).
      apply bool_decide_eq_true in Hb. cbn in Hb. subst i'. by apply (list_elem_of_fmap_2 fst) in Hq. }
    rewrite bool_decide_true by done. destruct (in_flight_owner _ _ _ _ H Hin) as [r Er]. rewrite Er. cbn.
    apply list_eq. intros j. destruct (decide (i = j)) as [->|Hne].
    + rewrite list_lookup_insert_eq by (by eapply lookup_lt_Some). by rewrite list_lookup_alter_eq, Er.
    + rewrite list_lookup_insert_ne, list_lookup_alter_ne by done. done.
Qed.

Lemma world_inv_step urls st w e : world_inv urls st w →
  ∃ st', world_inv urls st' (world_step w e) ∧ (e ≠ Disconnect → st' = st).
Proof.
  intros [Hr Hpin [Hnd Hlt] Hh]. destruct e as [| |c|t now|i ok now|]; cbn [world_step].
  - exists st. split; [|done]. destruct (read_frame (router w)) as (E1 & E2 & E3 & E4 & E5 & E6 & E7). cbv zeta in *.
    split; cbn [router pinned pin_calls outcomes]; rewrite ?E1, ?E6; try done.
    eapply router_inv_frame; eauto. apply E7, (ri_cursor _ _ _ Hr).
  - exists st. split; [|done]. split; cbn [router pinned pin_calls outcomes]; try done.
    + apply (router_inv_frame urls st (router w)); try done. apply (ri_cursor _ _ _ Hr).
    + cbn. rewrite length_app. cbn. lia.
    + split; [apply NoDup_snoc; [done|]; intros Hc; apply Hlt in Hc; lia|].
      intros c [Hc| ->]%elem_of_snoc; [apply Hlt in Hc; lia|lia].
  - exists st. split; [|done]. destruct (bool_decide_reflect (c ∈ pinned w)) as [Hc|Hc]; [|by split].
    split; cbn [router pinned pin_calls outcomes]; try done.
    + apply (router_inv_frame urls st (router w)); try done. apply (ri_cursor _ _ _ Hr).
    + cbn. pose proof (unpin_length c _ Hnd Hc). lia.
    + split; [by apply NoDup_filter|]. intros c' [_ Hc']%list_elem_of_filter. by apply Hlt.
  - exists st. split; [|done]. split; cbn [router pinned pin_calls outcomes]; try done.
    + by apply router_inv_tick_starts.
    + unfold tick_starts. by destruct (List.filter _ (timers (router w))).
    + unfold tick_starts. by destruct (List.filter _ (timers (router w))).
  - exists st. split; [|done]. split; cbn [router pinned pin_calls outcomes]; try done.
    + by apply router_inv_tick_ends.
    + unfold tick_ends. destruct (List.filter _ (in_flight (router w))) as [|[? ?] ?]; [done|]. by destruct (replicas (router w) !! i).
    + intros j r. rewrite (tick_ends_replicas _ _ _ _ _ _ Hr). case_bool_decide; [|apply Hh].
      rewrite last_outcome_cons. destruct (bool_decide_reflect (j = i)) as [->|Hne].
      * rewrite list_lookup_alter_eq. destruct (replicas (router w) !! i); cbn; intros; by simplify_eq.
      * rewrite list_lookup_alter_ne by done. apply Hh.
  - exists ((t_replica <$> timers (router w)) ++ st). split; [|done].
    split; cbn [router pinned pin_calls outcomes]; try done. by apply router_inv_disconnect.
Qed.

Lemma world_inv_init purl urls : world_inv urls [] (mkWorld (buildReadReplicaRouter purl urls) [] 0 []).
Proof.
  pose proof (router_inv_init purl urls) as Hi. unfold buildReadReplicaRouter, new_router in *. set (rs := imap _ urls) in *.
  pose proof (started_ok purl rs (length rs) (le_n _)) as [(Hr & Hw & Hc & Hf) _ _ _ _ _]. unfold started in *.
  split; cbn [router pinned pin_calls outcomes]; try done.
  - split; [constructor|]. intros ? []%elem_of_nil.
  - intros i r. rewrite Hr. unfold rs. rewrite list_lookup_imap. destruct (urls !! i); cbn; intros; by simplify_eq.
Qed.

Lemma world_inv_foldl urls es st w : world_inv urls st w →
  ∃ st', world_inv urls st' (foldl world_step w es) ∧ (Disconnect ∉ es → st' = st).
Proof.
  revert st w. induction es as [|e es IH]; intros st w H; [by exists st|]. cbn [foldl].
  destruct (world_inv_step _ _ _ e H) as (st1 & H1 & E1). destruct (IH _ _ H1) as (st2 & H2 & E2).
  exists st2. split; [done|]. intros [Hne Hni]%not_elem_of_cons. rewrite E2, E1; done.
Qed.

Lemma world_inv_run purl urls es : ∃ st, world_inv urls st (world_run purl urls es) ∧ (Disconnect ∉ es → st = []).
Proof. apply world_inv_foldl, world_inv_init. Qed.

Lemma clients_nodup s : (∀ i r, replicas s !! i = Some r → client r = ReplicaClient i) → NoDup (client <$> replicas s).
Proof.
  intros H. apply NoDup_alt. intros i j c Hi Hj. rewrite !list_lookup_fmap in Hi, Hj.
  destruct (replicas s !! i) as [r|] eqn:Ei, (replicas s !! j) as [r'|] eqn:Ej; cbn in *; try done.
  rewrite (H i r Ei) in Hi. rewrite (H j r' Ej) in Hj. congruence.
Qed.

(** ** What the router guarantees *)

(** After any events a read goes to the primary while a call of
    [withWritePin] is running; otherwise to a replica whose last probe succeeded
    (or that was not probed yet), and to the primary exactly when the last probe
    of every replica failed. *)
Theorem read_routed purl urls es :
  let w := world_run purl urls es in
  let c := (read (router w)).2 in
  if bool_decide (pinned w = [])
  then (∃ i, c = ReplicaClient i ∧ (i < length urls)%nat ∧ last_outcome i (outcomes w) = true) ∨
       (c = PrimaryClient ∧ ∀ i, (i < length urls)%nat → last_outcome i (outcomes w) = false)
  else c = PrimaryClient.
Proof.
  cbv zeta. destruct (world_inv_run purl urls es) as (st & [Hr Hpin _ Hh] & _). set (w := world_run purl urls es) in *.
  destruct (bool_decide_reflect (pinned w = [])) as [E|E].
  2:{ unfold read. rewrite bool_decide_true; [done|]. rewrite Hpin. destruct (pinned w); [done|]. cbn [length]. lia. }
  rewrite E in Hpin. cbn in Hpin.
  destruct (healthy_replicas (router w)) as [|h hs] eqn:Eh.
  - right. split.
    { unfold read. rewrite bool_decide_false by lia. rewrite Eh. done. }
    intros i Hi. rewrite <- (ri_urls _ _ _ Hr), length_fmap in Hi. destruct (lookup_lt_is_Some_2 _ _ Hi) as [r Er].
    rewrite <- (Hh i r Er). destruct (healthy r) eqn:Ehr; [|done].
    assert (r ∈ healthy_replicas (router w)) as Hin by (apply elem_of_bfilter; split; [done|by eapply list_elem_of_lookup_2]).
    rewrite Eh in Hin. by apply elem_of_nil in Hin.
  - left. set (n := Z.of_nat (length (healthy_replicas (router w)))).
    assert (0 < n) by (subst n; rewrite Eh; cbn [length]; lia).
    destruct (lookup_lt_is_Some_2 (healthy_replicas (router w)) (Z.to_nat (cursor (router w) `mod` n))) as [pick Hpick].
    { pose proof (Z.mod_pos_bound (cursor (router w)) n). lia. }
    rewrite (read_turn _ pick) by (lia || done). cbn [snd].
    apply list_elem_of_lookup_2, elem_of_bfilter in Hpick as [Hhp [i Hi]%list_elem_of_lookup].
    exists i. split_and!; [by apply (ri_clients _ _ _ Hr) | | by rewrite <- (Hh i pick Hi)].
    rewrite <- (ri_urls _ _ _ Hr), length_fmap. by eapply lookup_lt_Some.
Qed.

(** Reads take turns: in any reachable state without pins, as many reads
    as there are healthy replicas reach each of them exactly once. *)
Theorem reads_take_turns purl urls es :
  let s := router (world_run purl urls es) in
  pinned (world_run purl urls es) = [] →
  let cs := (reads (length (healthy_replicas s)) s).2 in
  cs ≡ₚ (client <$> healthy_replicas s) ∧ NoDup cs.
Proof.
  cbv zeta. intros Hp. destruct (world_inv_run purl urls es) as (st & [Hr Hpin _ _] & _).
  set (s := router (world_run purl urls es)) in *. rewrite Hp in Hpin. cbn in Hpin.
  assert ((reads (length (healthy_replicas s)) s).2 ≡ₚ client <$> healthy_replicas s) as Hperm.
  { destruct (healthy_replicas s) as [|h hs] eqn:E; [done|]. rewrite <- E.
    rewrite reads_round; [apply rotate_Permutation | lia | by rewrite E | apply (ri_cursor _ _ _ Hr)]. }
  split; [done|]. rewrite Hperm. unfold healthy_replicas.
  apply bfilter_key_nodup, clients_nodup, (ri_clients _ _ _ Hr).
Qed.

(** Every address is probed: as long as the router is not shut down there
    is, for the first replica of each address and for no other, exactly one
    pending timer or query under way. *)
Theorem one_probe_each purl urls es : Disconnect ∉ es →
  let s := router (world_run purl urls es) in
  (t_replica <$> timers s) ++ (in_flight s).*1 ≡ₚ owners urls.
Proof.
  intros Hnd. cbv zeta. destruct (world_inv_run purl urls es) as (st & [Hr _ _ _] & Hst).
  pose proof (ri_probes _ _ _ Hr) as Hp. rewrite (Hst Hnd), app_nil_r in Hp. done.
Qed.

(** A shutdown while no query is under way is final: no timer is pending
    then or after any later events. *)
Theorem shutdown_final purl urls es es' :
  in_flight (router (world_run purl urls es)) = [] →
  let s := router (world_run purl urls (es ++ Disconnect :: es')) in
  timers s = [] ∧ in_flight s = [].
Proof.
  intros Hf. cbv zeta. destruct (world_inv_run purl urls es) as (st & [Hr _ _ _] & _).
  unfold world_run in *. rewrite foldl_app. cbn [foldl]. set (w := foldl world_step _ es) in *.
  assert (timers (router (world_step w Disconnect)) = [] ∧ in_flight (router (world_step w Disconnect)) = []) as H0.
  { cbn [world_step router]. split; [by eapply disconnect_timers|done]. }
  revert H0. generalize (world_step w Disconnect). clear. induction es' as [|e es IH]; intros w [H1 H2]; [done|].
  cbn [foldl]. apply IH. destruct e as [| |c|t now|i ok now|]; cbn [world_step].
  - destruct (read_frame (router w)) as (_ & _ & E3 & _ & E5 & _). cbn [router]. by rewrite E3, E5.
  - done.
  - by case_bool_decide.
  - cbn [router]. unfold tick_starts. by rewrite H1.
  - cbn [router]. unfold tick_ends. by rewrite H2.
  - cbn. by rewrite H1.
Qed.

(** ** Runs *)

(** The same address twice: the second replica is never probed, and is read
    from although its database may be down. *)
Example duplicate_unprobed :
  owners ["a"; "a"] = [0%nat] ∧
  let s := router (world_run "p" ["a"; "a"] [TimerFires 0 0; QueryEnds 0 false 5]) in
  (read s).2 = ReplicaClient 1 ∧ (healthy <$> replicas s) = [false; true].
Proof. by vm_compute. Qed.

(** A shutdown during a query: the query sets a new timer when it ends. *)
Example shutdown_rearmed :
  timers (router (world_run "p" ["a"] [TimerFires 0 0; Disconnect; QueryEnds 0 true 5])) = [mkTimer 1 0 30000].
Proof. by vm_compute. Qed.

(** A pin moves the reads of every caller. *)
Example pin_is_global :
  (read (router (world_run "p" ["a"] [Pin]))).2 = PrimaryClient ∧
  (read (router (world_run "p" ["a"] [Pin; Unpin 0]))).2 = ReplicaClient 0.
Proof. by vm_compute. Qed.

Example reads_take_turns_witness :
  let s := router (world_run "p" ["a"; "b"; "c"] [TimerFires 1 0; QueryEnds 1 false 9; Read; Pin; Unpin 0]) in
  let cs := (reads (length (healthy_replicas s)) s).2 in
  cs ≡ₚ (client <$> healthy_replicas s) ∧ NoDup cs.
Proof. apply (reads_take_turns "p" ["a"; "b"; "c"] [TimerFires 1 0; QueryEnds 1 false 9; Read; Pin; Unpin 0]). reflexivity. Defined.

Example one_probe_each_witness :
  let s := router (world_run "p" ["a"; "b"; "a"] [TimerFires 1 0]) in
  (t_replica <$> timers s) ++ (in_flight s).*1 ≡ₚ owners ["a"; "b"; "a"].
Proof. apply (one_probe_each "p" ["a"; "b"; "a"] [TimerFires 1 0]). by intros [?|?%elem_of_nil]%elem_of_cons. Defined.

Example shutdown_final_witness :
  let s := router (world_run "p" ["a"; "b"] ([TimerFires 1 0; QueryEnds 1 true 9] ++ [Disconnect; TimerFires 0 10; Read])) in
  timers s = [] ∧ in_flight s = [].
Proof. apply (shutdown_final "p" ["a"; "b"] [TimerFires 1 0; QueryEnds 1 true 9] [TimerFires 0 10; Read]). reflexivity. Defined.
