(* ===== verification/MatchQuality.v ===== *)
(** * Quality of a pairing: [server/src/services/matchmaking-quality.service.ts]

    A pairing of two teams is scored between 0 and 1 from the ratings a predictor
    gives, the latencies, the behaviour clusters and the sizes.  Numbers are
    rationals, so none is [NaN] and sums do not depend on their order because of
    rounding; the square root is a parameter.  Clusters are looked up among the
    keys of the counting object itself. *)

From stdpp Require Import prelude gmap gmultiset strings list.
From Stdlib Require Import QArith Qround Qminmax Qabs Lqa.
From S2P Require Import Prelude.

#[local] Open Scope Q_scope.

Record PlayerSnapshot := mkPlayer {
  playerId : string; rating : Q; recentRatings : option (list Q); regionLatencyMs : option Q;
  recentWinRate : option Q; behaviourCluster : option string }.

Record SkillPrediction := mkPrediction { sp_playerId : string; predictedRating : Q; confidence : Q }.

(** The interface a model plugs into. *)
Class SkillPredictor := predict : PlayerSnapshot → SkillPrediction.

(** [Math.sqrt] *)
Class Sqrt := { js_sqrt : Q → Q; sqrt_nonneg : ∀ x, 0 <= x → 0 <= js_sqrt x }.

Record MatchCandidate := mkCandidate { teamA : list PlayerSnapshot; teamB : list PlayerSnapshot }.

Record MatchQualityBreakdown := mkBreakdown {
  skillBalance : Q; latencyBalance : Q; behaviourBalance : Q; teamSizeBalance : Q }.

Record MatchQualityScore := mkScore { score : Q; breakdown : MatchQualityBreakdown }.

Definition WEIGHT_skill : Q := 55 # 100.
Definition WEIGHT_latency : Q := 2 # 10.
Definition WEIGHT_behaviour : Q := 15 # 100.
Definition WEIGHT_teamSize : Q := 1 # 10.

Definition SKILL_TOLERANCE : Q := 200.
Definition LATENCY_TOLERANCE : Q := 120.
Definition TEAM_IMBALANCE_TOLERANCE : Q := 2.

Definition qlength {A} (l : list A) : Q := inject_Z (Z.of_nat (length l)).

(** [l.reduce((a, b) => a + b, 0)] *)
Definition qsum (l : list Q) : Q := fold_left Qplus l 0.

Definition moving_average `{Sqrt} (windowSize : Z) (player : PlayerSnapshot) : SkillPrediction :=
  let recent := js_slice_last windowSize (default [] (recentRatings player)) in
  if bool_decide (recent = []) then mkPrediction (playerId player) (rating player) (1 # 10) else
  let mean := qsum recent / qlength recent in
  let variance := qsum ((λ r, (r - mean) * (r - mean)) <$> recent) / qlength recent in
  let variance0to1 := Qmin 1 (js_sqrt variance / 400) in
  mkPrediction (playerId player) ((6 # 10) * mean + (4 # 10) * rating player)
    (Qmax (1 # 10) (Qmin 1 (qlength recent / inject_Z windowSize) - variance0to1)).

(** [new MovingAverageSkillPredictor()] *)
Definition MovingAverageSkillPredictor `{Sqrt} : SkillPredictor := moving_average 10.

Definition meanRating `{SkillPredictor} (team : list PlayerSnapshot) : Q :=
  match team with
  | [] => 0
  | _ => qsum ((λ p, predictedRating (predict p)) <$> team) / qlength team
  end.

Definition meanLatency (team : list PlayerSnapshot) : Q :=
  match omap regionLatencyMs team with
  | [] => 0
  | sampled => qsum sampled / qlength sampled
  end.

Definition cluster (p : PlayerSnapshot) : string := default "unknown" (behaviourCluster p).

Definition behaviourMix (team : list PlayerSnapshot) : jsmap Z :=
  foldl (λ counts p, map_set (cluster p) (default 0 (map_get (cluster p) counts) + 1)%Z counts) [] team.

Definition jaccard (a b : jsmap Z) : Q :=
  let keys := dedupe (map_keys a ++ map_keys b) in
  let at0 (m : jsmap Z) k := default 0%Z (map_get k m) in
  let intersection := fold_left (λ acc k, (acc + Z.min (at0 a k) (at0 b k))%Z) keys 0%Z in
  let union := fold_left (λ acc k, (acc + Z.max (at0 a k) (at0 b k))%Z) keys 0%Z in
  if bool_decide (union = 0%Z) then 1 else inject_Z intersection / inject_Z union.

Definition clamp01 (n : Q) : Q := Qmax 0 (Qmin 1 n).

Definition scoreMatchQuality `{SkillPredictor} (candidate : MatchCandidate) : MatchQualityScore :=
  let ratingA := meanRating (teamA candidate) in
  let ratingB := meanRating (teamB candidate) in
  let skill := clamp01 (1 - Qabs (ratingA - ratingB) / SKILL_TOLERANCE) in
  let latencyA := meanLatency (teamA candidate) in
  let latencyB := meanLatency (teamB candidate) in
  let latency := clamp01 (1 - Qabs (latencyA - latencyB) / LATENCY_TOLERANCE) in
  let behaviour := clamp01 (jaccard (behaviourMix (teamA candidate)) (behaviourMix (teamB candidate))) in
  let size := clamp01 (1 - Qabs (qlength (teamA candidate) - qlength (teamB candidate)) / TEAM_IMBALANCE_TOLERANCE) in
  let total := WEIGHT_skill * skill + WEIGHT_latency * latency + WEIGHT_behaviour * behaviour + WEIGHT_teamSize * size in
  mkScore (clamp01 total) (mkBreakdown skill latency behaviour size).

(** ** Sums and means *)

Lemma fold_left_qplus l a : fold_left Qplus l a == a + fold_left Qplus l 0.
Proof.
  revert a. induction l as [|x l IH]; intros a; cbn [fold_left]; [ring|]. rewrite IH, (IH (0 + x)). ring.
Qed.

Lemma qsum_cons x l : qsum (x :: l) == x + qsum l.
Proof. unfold qsum. cbn [fold_left]. rewrite fold_left_qplus. ring. Qed.

#[export] Instance qsum_perm : Proper ((≡ₚ) ==> Qeq) qsum.
Proof.
  intros l1 l2 H. induction H as [|x l1 l2 H IH|x y l|l1 l2 l3 H1 IH1 H2 IH2].
  - reflexivity.
  - by rewrite !qsum_cons, IH.
  - rewrite !qsum_cons. ring.
  - by rewrite IH1.
Qed.

Lemma qlength_perm {A} (l1 l2 : list A) : l1 ≡ₚ l2 → qlength l1 = qlength l2.
Proof. intros H. unfold qlength. by rewrite H. Qed.

Lemma qlength_pos {A} (x : A) l : 0 < qlength (x :: l).
Proof. unfold qlength. change 0 with (inject_Z 0). rewrite <- Zlt_Qlt. cbn [length]. lia. Qed.

(** The mean as both functions compute it. *)
Definition mean (l : list Q) : Q := match l with [] => 0 | _ => qsum l / qlength l end.

#[export] Instance mean_perm : Proper ((≡ₚ) ==> Qeq) mean.
Proof.
  intros l1 l2 H. unfold mean. destruct l1 as [|x l1], l2 as [|y l2].
  - reflexivity.
  - by apply Permutation_nil_l in H.
  - by apply Permutation_nil_r in H.
  - rewrite (qlength_perm _ _ H). by rewrite H.
Qed.

Lemma meanRating_mean `{SkillPredictor} team : meanRating team == mean ((λ p, predictedRating (predict p)) <$> team).
Proof. destruct team as [|p team]; [reflexivity|]. unfold meanRating, mean, qlength. cbn [fmap list_fmap]. rewrite !length_cons, length_fmap. reflexivity. Qed.

Lemma meanLatency_mean team : meanLatency team = mean (omap regionLatencyMs team).
Proof. unfold meanLatency, mean. by destruct (omap regionLatencyMs team). Qed.

Lemma mean_between lo hi l : l ≠ [] → (∀ x, x ∈ l → lo <= x <= hi) → lo <= mean l <= hi.
Proof.
  intros Hne Hall. destruct l as [|x0 l0]; [done|]. unfold mean. set (l := x0 :: l0) in *.
  assert (lo * qlength l <= qsum l <= hi * qlength l) as [H1 H2].
  { clear Hne. clearbody l. induction l as [|x l IH].
    - change (@qlength Q []) with 0. change (qsum []) with 0. split; lra.
    - rewrite qsum_cons. destruct (Hall x) as [Hx1 Hx2]; [constructor|]. destruct IH as [I1 I2]; [intros y Hy; apply Hall; by constructor|].
      assert (qlength (x :: l) == 1 + qlength l) as ->.
      { unfold qlength. rewrite length_cons, Nat2Z.inj_succ, <- Z.add_1_l, inject_Z_plus. reflexivity. }
      split; lra. }
  pose proof (qlength_pos x0 l0). split; [apply Qle_shift_div_l|apply Qle_shift_div_r]; done.
Qed.

(** ** The overlap of the clusters is that of multisets *)

Lemma fold_left_zsum {A} (f : A → Z) l a : fold_left (λ acc k, (acc + f k)%Z) l a = (a + zsum (f <$> l))%Z.
Proof.
  revert a. induction l as [|x l IH]; intros a; cbn [fold_left]; [cbn; lia|]. rewrite IH, fmap_cons.
  cbn [zsum foldr]. unfold zsum. lia.
Qed.

Definition clusters (team : list PlayerSnapshot) : gmultiset string := list_to_set_disj (cluster <$> team).

Lemma clusters_perm t1 t2 : t1 ≡ₚ t2 → clusters t1 = clusters t2.
Proof. intros H. unfold clusters. by rewrite H. Qed.

Lemma behaviourMix_snoc team p : behaviourMix (team ++ [p]) =
  map_set (cluster p) (default 0 (map_get (cluster p) (behaviourMix team)) + 1)%Z (behaviourMix team).
Proof. unfold behaviourMix. by rewrite foldl_app. Qed.

Lemma clusters_snoc team p : clusters (team ++ [p]) = {[+ cluster p +]} ⊎ clusters team.
Proof.
  unfold clusters. rewrite fmap_app, fmap_cons, fmap_nil, list_to_set_disj_app, list_to_set_disj_cons, list_to_set_disj_nil.
  rewrite gmultiset_disj_union_right_id. apply gmultiset_disj_union_comm.
Qed.

Lemma behaviourMix_get team k : default 0%Z (map_get k (behaviourMix team)) = Z.of_nat (multiplicity k (clusters team)).
Proof.
  induction team as [|p team IH] using rev_ind; [by unfold clusters; cbn; rewrite multiplicity_empty|].
  rewrite behaviourMix_snoc, clusters_snoc, multiplicity_disj_union, map_get_set.
  destruct (bool_decide_reflect (k = cluster p)) as [->|Hne]; cbn [from_option id].
  - rewrite IH, multiplicity_singleton_eq. lia.
  - rewrite multiplicity_singleton_ne by done. exact IH.
Qed.

Lemma behaviourMix_keys team k : k ∈ map_keys (behaviourMix team) ↔ k ∈ clusters team.
Proof.
  induction team as [|p team IH] using rev_ind; [by unfold clusters; cbn; rewrite elem_of_nil; multiset_solver|].
  rewrite behaviourMix_snoc, clusters_snoc, map_keys_set. unfold map_has.
  destruct (bool_decide_reflect (is_Some (map_get (cluster p) (behaviourMix team)))) as [[v Hv]|Hno].
  - rewrite IH. apply map_get_elem, (list_elem_of_fmap_2 fst) in Hv. cbn in Hv. change (fst <$> behaviourMix team) with (map_keys (behaviourMix team)) in Hv.
    destruct (decide (k = cluster p)) as [->|Hne]; [|multiset_solver].
    split; [multiset_solver|]. intros _. by apply IH.
  - rewrite elem_of_snoc, IH. multiset_solver.
Qed.

(** The multiplicities of all elements add up to the size. *)
Lemma multiplicity_sum (X : gmultiset string) ks : NoDup ks → (∀ x, x ∈ X → x ∈ ks) →
  zsum ((λ k, Z.of_nat (multiplicity k X)) <$> ks) = Z.of_nat (size X).
Proof.
  intros Hnd. revert X. induction ks as [|k ks IH] in Hnd |- *; intros X Hall.
  - assert (X = ∅) as ->; [|done]. apply dec_stable. intros [x Hx]%gmultiset_choose. apply Hall in Hx. by apply elem_of_nil in Hx.
  - inversion Hnd as [|? ? Hk Hnd']; subst. rewrite fmap_cons. cbn [zsum foldr].
    assert (X = multiplicity k X *: {[+ k +]} ⊎ filter (.≠ k) X) as HX.
    { apply gmultiset_eq. intros x. rewrite multiplicity_disj_union, multiplicity_scalar_mul, multiplicity_filter.
      destruct (decide (x = k)) as [->|Hne].
      - rewrite multiplicity_singleton_eq, decide_False by naive_solver. lia.
      - rewrite multiplicity_singleton_ne, decide_True by done. lia. }
    assert (Z.of_nat (size X) = Z.of_nat (multiplicity k X) + Z.of_nat (size (filter (.≠ k) X)))%Z as ->.
    { rewrite HX at 1. rewrite gmultiset_size_disj_union, gmultiset_size_scalar_mul, gmultiset_size_singleton. lia. }
    rewrite <- (IH Hnd' (filter (.≠ k) X)).
    + unfold zsum. f_equal. f_equal. apply list_fmap_ext. intros i x Hx.
      rewrite multiplicity_filter, decide_True; [done|]. intros ->. apply Hk. by eapply list_elem_of_lookup_2.
    + intros x Hx. unfold elem_of, gmultiset_elem_of in Hx. rewrite multiplicity_filter in Hx. case_decide as Hne; [|lia].
      assert (x ∈ X) as Hin by exact Hx. apply Hall in Hin. by apply elem_of_cons in Hin as [?|?].
Qed.

(** Reference: the Jaccard index of two multisets. *)
Definition multiset_overlap (X Y : gmultiset string) : Q :=
  if bool_decide (X ∪ Y = ∅) then 1 else inject_Z (Z.of_nat (size (X ∩ Y))) / inject_Z (Z.of_nat (size (X ∪ Y))).

(** The loop over the keys computes the Jaccard index of the multisets of
    clusters of the two teams. *)
Lemma jaccard_is_multiset_overlap t1 t2 :
  jaccard (behaviourMix t1) (behaviourMix t2) = multiset_overlap (clusters t1) (clusters t2).
Proof.
  unfold jaccard, multiset_overlap. cbv zeta. rewrite !fold_left_zsum, !Z.add_0_l.
  set (ks := dedupe _). assert (NoDup ks) as Hnd by apply dedupe_nodup.
  assert (∀ x, x ∈ clusters t1 ∪ clusters t2 → x ∈ ks) as Hall.
  { intros x Hx. apply elem_of_dedupe, elem_of_app. rewrite !behaviourMix_keys. by apply gmultiset_elem_of_union. }
  rewrite (list_fmap_ext (λ k, Z.min _ _) (λ k, Z.of_nat (multiplicity k (clusters t1 ∩ clusters t2))) ks).
  2:{ intros i k _. rewrite !behaviourMix_get, multiplicity_intersection. lia. }
  rewrite (list_fmap_ext (λ k, Z.max _ _) (λ k, Z.of_nat (multiplicity k (clusters t1 ∪ clusters t2))) ks).
  2:{ intros i k _. rewrite !behaviourMix_get, multiplicity_union. lia. }
  rewrite (multiplicity_sum _ ks Hnd Hall), (multiplicity_sum (clusters t1 ∩ clusters t2) ks Hnd) by
    (intros x Hx; apply Hall; apply gmultiset_elem_of_union; apply gmultiset_elem_of_intersection in Hx; tauto).
  apply (f_equal2 (λ b x, if b : bool then 1 else x)); [|done].
  apply bool_decide_ext. rewrite <- gmultiset_size_empty_iff. lia.
Qed.

(** ** The score *)

#[export] Instance clamp01_proper : Proper (Qeq ==> Qeq) clamp01.
Proof. intros x y E. unfold clamp01. by rewrite E. Qed.

Lemma clamp01_bounds x : 0 <= clamp01 x <= 1.
Proof.
  unfold clamp01. split; [apply Q.le_max_l|]. apply Q.max_lub; [lra|apply Q.le_min_l].
Qed.

Lemma clamp01_id x : 0 <= x <= 1 → clamp01 x == x.
Proof. intros [H1 H2]. unfold clamp01. rewrite (Q.min_r _ _ H2). by rewrite (Q.max_r _ _ H1). Qed.

Lemma clamp01_one x : clamp01 x == 1 ↔ 1 <= x.
Proof.
  unfold clamp01. split; intros H.
  - destruct (Qlt_le_dec x 1) as [Hlt|]; [|done]. exfalso. rewrite (Q.min_r 1 x) in H by lra.
    destruct (Q.max_spec 0 x) as [[? E]|[? E]]; rewrite E in H; lra.
  - rewrite (Q.min_l _ _ H). by rewrite Q.max_r by lra.
Qed.

Lemma distance_one d t : 0 < t → clamp01 (1 - Qabs d / t) == 1 ↔ d == 0.
Proof.
  intros Ht. rewrite clamp01_one. pose proof (Qabs_nonneg d) as Hd. split; intros H.
  - assert (Qabs d <= 0) as Hz.
    { apply Qnot_lt_le. intros Hpos. assert (0 < Qabs d / t) by (apply Qlt_shift_div_l; [done|]; lra). lra. }
    pose proof (Qle_Qabs d). pose proof (Qle_Qabs (- d)) as Hm. rewrite Qabs_opp in Hm. lra.
  - assert (Qabs d / t == 0) as ->; [|lra]. rewrite H. cbn. reflexivity.
Qed.

Lemma div_one a b : 0 < b → a / b == 1 → a == b.
Proof. intros Hb E. rewrite <- (Qmult_1_l b), <- E. field. lra. Qed.

Lemma multiset_overlap_one X Y : multiset_overlap X Y == 1 ↔ X = Y.
Proof.
  unfold multiset_overlap. destruct (bool_decide_reflect (X ∪ Y = ∅)) as [E|E].
  - split; [intros _|done]. apply gmultiset_eq. intros x. apply (f_equal (multiplicity x)) in E.
    rewrite multiplicity_union, multiplicity_empty in E. lia.
  - assert (X ∩ Y ⊆ X ∪ Y) as Hsub by (intros x; rewrite multiplicity_union, multiplicity_intersection; lia).
    assert (0 < inject_Z (Z.of_nat (size (X ∪ Y)))) as Hpos.
    { change 0 with (inject_Z 0). rewrite <- Zlt_Qlt. apply gmultiset_size_non_empty_iff in E. lia. }
    split.
    + intros H. assert (size (X ∪ Y) = size (X ∩ Y)) as Hsz.
      { apply Nat2Z.inj, (inject_Z_injective _ _). symmetry. by apply (div_one _ _ Hpos). }
      pose proof (gmultiset_size_difference _ _ Hsub) as Hdiff. rewrite Hsz, Nat.sub_diag in Hdiff.
      apply gmultiset_size_empty_inv in Hdiff. apply gmultiset_eq. intros x. apply (f_equal (multiplicity x)) in Hdiff.
      rewrite multiplicity_difference, multiplicity_union, multiplicity_intersection, multiplicity_empty in Hdiff. lia.
    + intros ->. assert (Y ∩ Y = Y ∪ Y) as ->.
      { apply gmultiset_eq. intros x. rewrite multiplicity_union, multiplicity_intersection. lia. }
      field. lra.
Qed.

Lemma multiset_overlap_le X Y : multiset_overlap X Y <= 1.
Proof.
  unfold multiset_overlap. destruct (bool_decide_reflect (X ∪ Y = ∅)) as [E|E]; [lra|].
  apply gmultiset_size_non_empty_iff in E. apply Qle_shift_div_r.
  - change 0 with (inject_Z 0). rewrite <- Zlt_Qlt. lia.
  - rewrite Qmult_1_l, <- Zle_Qle. apply inj_le, gmultiset_subseteq_size.
    intros x. rewrite multiplicity_union, multiplicity_intersection. lia.
Qed.

Lemma clamp01_full x : x <= 1 → clamp01 x == 1 ↔ x == 1.
Proof. intros Hx. rewrite clamp01_one. split; lra. Qed.

Lemma distance_zero x y : x - y == 0 ↔ x == y.
Proof. split; lra. Qed.

Lemma clusters_size team : size (clusters team) = length team.
Proof.
  induction team as [|p team IH] using rev_ind; [done|].
  rewrite clusters_snoc, gmultiset_size_disj_union, gmultiset_size_singleton, IH, length_app. cbn. lia.
Qed.

Lemma same_clusters_size a b : multiset_overlap (clusters a) (clusters b) == 1 →
  clamp01 (1 - Qabs (qlength a - qlength b) / TEAM_IMBALANCE_TOLERANCE) == 1.
Proof.
  intros E%multiset_overlap_one. apply distance_one; [done|]. apply distance_zero. unfold qlength.
  by rewrite <- !clusters_size, E.
Qed.

Section score.
Context `{SkillPredictor}.

(** Equal up to the representation of the rationals. *)
Definition same_score (s1 s2 : MatchQualityScore) : Prop :=
  score s1 == score s2 ∧ skillBalance (breakdown s1) == skillBalance (breakdown s2) ∧
  latencyBalance (breakdown s1) == latencyBalance (breakdown s2) ∧
  behaviourBalance (breakdown s1) == behaviourBalance (breakdown s2) ∧
  teamSizeBalance (breakdown s1) == teamSizeBalance (breakdown s2).

(** Every part of the breakdown and the score lie between 0 and 1, and the
    score is the weighted sum of the parts: the last clamp changes nothing. *)
Lemma score_bounds c :
  let s := scoreMatchQuality c in let b := breakdown s in
  0 <= score s <= 1 ∧ 0 <= skillBalance b <= 1 ∧ 0 <= latencyBalance b <= 1 ∧ 0 <= behaviourBalance b <= 1 ∧
  0 <= teamSizeBalance b <= 1 ∧
  score s == (55 * skillBalance b + 20 * latencyBalance b + 15 * behaviourBalance b + 10 * teamSizeBalance b) / 100.
Proof.
  cbv zeta. unfold scoreMatchQuality. cbn [score breakdown skillBalance latencyBalance behaviourBalance teamSizeBalance].
  set (a := clamp01 (1 - Qabs (meanRating _ - _) / _)). set (b := clamp01 (1 - Qabs (meanLatency _ - _) / _)).
  set (d := clamp01 (jaccard _ _)). set (e := clamp01 (1 - Qabs (qlength _ - _) / _)).
  assert (0 <= a <= 1) by apply clamp01_bounds. assert (0 <= b <= 1) by apply clamp01_bounds.
  assert (0 <= d <= 1) by apply clamp01_bounds. assert (0 <= e <= 1) by apply clamp01_bounds.
  clearbody a b d e. split_and!; try lra; try apply clamp01_bounds.
  unfold WEIGHT_skill, WEIGHT_latency, WEIGHT_behaviour, WEIGHT_teamSize. rewrite clamp01_id; [field|lra].
Qed.

#[local] Instance meanRating_perm : Proper ((≡ₚ) ==> Qeq) meanRating.
Proof. intros t1 t2 E. rewrite !meanRating_mean. by rewrite E. Qed.

#[local] Instance meanLatency_perm : Proper ((≡ₚ) ==> Qeq) meanLatency.
Proof. intros t1 t2 E. rewrite !meanLatency_mean. by rewrite E. Qed.

Lemma distance_sym x y : Qabs (x - y) == Qabs (y - x).
Proof. rewrite <- Qabs_opp. apply Qabs_wd. ring. Qed.

Lemma multiset_overlap_comm X Y : multiset_overlap X Y = multiset_overlap Y X.
Proof. unfold multiset_overlap. by rewrite (comm_L (∪) X Y), (comm_L (∩) X Y). Qed.

Lemma same_score_parts sk1 sk2 la1 la2 be1 be2 ts1 ts2 : sk1 == sk2 → la1 == la2 → be1 == be2 → ts1 == ts2 →
  let total a b c d := WEIGHT_skill * a + WEIGHT_latency * b + WEIGHT_behaviour * c + WEIGHT_teamSize * d in
  same_score (mkScore (clamp01 (total sk1 la1 be1 ts1)) (mkBreakdown sk1 la1 be1 ts1))
    (mkScore (clamp01 (total sk2 la2 be2 ts2)) (mkBreakdown sk2 la2 be2 ts2)).
Proof. intros E1 E2 E3 E4 total. unfold same_score, total. cbn. by rewrite E1, E2, E3, E4. Qed.

(** The score does not depend on which team is called the first, nor on
    the order of the players in a team. *)
Theorem score_symmetric a b a' b' : a ≡ₚ a' → b ≡ₚ b' →
  same_score (scoreMatchQuality (mkCandidate a b)) (scoreMatchQuality (mkCandidate a' b')) ∧
  same_score (scoreMatchQuality (mkCandidate a b)) (scoreMatchQuality (mkCandidate b' a')).
Proof.
  intros Ea Eb. unfold scoreMatchQuality. cbn [teamA teamB].
  rewrite !jaccard_is_multiset_overlap, (clusters_perm _ _ Ea), (clusters_perm _ _ Eb), (qlength_perm _ _ Ea), (qlength_perm _ _ Eb).
  split; apply same_score_parts; f_equiv; try done.
  - by rewrite Ea, Eb.
  - by rewrite Ea, Eb.
  - by rewrite distance_sym, Ea, Eb.
  - by rewrite distance_sym, Ea, Eb.
  - by rewrite multiset_overlap_comm.
  - by rewrite distance_sym.
Qed.

Lemma weights_full x y z t : 0 <= x <= 1 → 0 <= y <= 1 → 0 <= z <= 1 → 0 <= t <= 1 →
  (55 * x + 20 * y + 15 * z + 10 * t) / 100 == 1 → x == 1 ∧ y == 1 ∧ z == 1 ∧ t == 1.
Proof. intros Hx Hy Hz Ht E%div_one; [|done]. split_and!; lra. Qed.

(** A pairing has the full score exactly when the teams have the same mean
    of predicted ratings, the same mean latency and the same clusters, counted
    with repetition. *)
Theorem perfect_score a b :
  score (scoreMatchQuality (mkCandidate a b)) == 1 ↔
  meanRating a == meanRating b ∧ meanLatency a == meanLatency b ∧ clusters a = clusters b.
Proof.
  pose proof (score_bounds (mkCandidate a b)) as (Hs & H1 & H2 & H3 & H4 & E). cbv zeta in *.
  rewrite E. revert H1 H2 H3 H4. unfold scoreMatchQuality.
  cbn [breakdown skillBalance latencyBalance behaviourBalance teamSizeBalance teamA teamB].
  rewrite jaccard_is_multiset_overlap. intros H1 H2 H3 H4.
  rewrite <- (distance_zero (meanRating a)), <- (distance_zero (meanLatency a)), <- multiset_overlap_one.
  rewrite <- (distance_one _ SKILL_TOLERANCE), <- (distance_one _ LATENCY_TOLERANCE), <- (clamp01_full _ (multiset_overlap_le _ _)) by done.
  pose proof (same_clusters_size a b) as Hsz.
  rewrite <- (clamp01_full _ (multiset_overlap_le _ _)) in Hsz.
  revert H1 H2 H3 H4 Hsz. clear. intros. split.
  - intros E%weights_full; try done. by destruct E as (? & ? & ? & _).
  - intros (E1 & E2 & E3). rewrite (Hsz E3), E1, E2, E3. reflexivity.
Qed.
End score.

(** ** The default predictor *)

Lemma qsum_nonneg l : (∀ x, x ∈ l → 0 <= x) → 0 <= qsum l.
Proof.
  induction l as [|x l IH]; intros Hall; [done|]. rewrite qsum_cons. pose proof (Hall x ltac:(constructor)).
  assert (0 <= qsum l) by (apply IH; intros y Hy; apply Hall; by constructor). lra.
Qed.

(** For a positive window the confidence lies between 1/10 and 1, and the
    predicted rating between any bounds of the visible rating and of the recent
    ones. *)
Theorem prediction_bounds `{Sqrt} w p lo hi : (0 < w)%Z → lo <= rating p <= hi →
  (∀ r, r ∈ default [] (recentRatings p) → lo <= r <= hi) →
  let s := moving_average w p in
  (1 # 10) <= confidence s <= 1 ∧ lo <= predictedRating s <= hi ∧ sp_playerId s = playerId p.
Proof.
  intros Hw Hr Hall. cbv zeta. unfold moving_average. set (recent := js_slice_last w _).
  assert (∀ r, r ∈ recent → lo <= r <= hi) as Hrec.
  { intros r Hin. apply Hall. destruct (js_slice_last_suffix w (default [] (recentRatings p))) as [l0 ->].
    apply elem_of_app. by right. }
  destruct (bool_decide_reflect (recent = [])) as [E|E]; cbn [confidence predictedRating sp_playerId]; [split_and!; (lra || done)|].
  pose proof (mean_between lo hi recent E Hrec) as Hm.
  assert (qsum recent / qlength recent = mean recent) as -> by (by destruct recent).
  assert (0 <= Qmin 1 (js_sqrt (qsum ((λ r, (r - mean recent) * (r - mean recent)) <$> recent) / qlength recent) / 400)) as Hv.
  { apply Q.min_glb; [lra|]. apply Qle_shift_div_l; [done|]. rewrite Qmult_0_l. apply sqrt_nonneg.
    apply Qle_shift_div_l; [by destruct recent; [|apply qlength_pos]|]. rewrite Qmult_0_l. apply qsum_nonneg.
    intros x (r & -> & _)%list_elem_of_fmap. generalize (r - mean recent). intros q. nra. }
  pose proof (Q.le_min_l 1 (qlength recent / inject_Z w)) as H1. split_and!; try done; try lra.
  - apply Q.le_max_l.
  - apply Q.max_lub; lra.
Qed.

(** ** Runs *)

(** A root rounded down to an integer. *)
Definition floor_sqrt (x : Q) : Q := inject_Z (Z.sqrt (Qfloor x)).

#[local] Instance FloorSqrt : Sqrt.
Proof.
  refine {| js_sqrt := floor_sqrt |}. intros x _. unfold floor_sqrt. change 0 with (inject_Z 0). rewrite <- Zle_Qle. apply Z.sqrt_nonneg.
Defined.

#[local] Instance BySqrt : SkillPredictor := MovingAverageSkillPredictor.

Definition sample (n : string) (r : Q) (lat : option Q) : PlayerSnapshot := mkPlayer n r (Some [r; r + 100]) lat None None.

(** A team without latency samples counts as a team with none at all: far from
    every other. *)
Example unknown_latency :
  latencyBalance (breakdown (scoreMatchQuality (mkCandidate [sample "a" 1500 None] [sample "b" 1500 (Some 120)]))) = 0 ∧
  Qeq_bool (score (scoreMatchQuality (mkCandidate [] []))) 1 = true.
Proof. by vm_compute. Qed.

Example score_symmetric_witness :
  let a := [sample "a" 1500 None; sample "b" 1700 (Some 20)] in let a' := [sample "b" 1700 (Some 20); sample "a" 1500 None] in
  same_score (scoreMatchQuality (mkCandidate a [])) (scoreMatchQuality (mkCandidate a' [])) ∧
  same_score (scoreMatchQuality (mkCandidate a [])) (scoreMatchQuality (mkCandidate [] a')).
Proof. apply score_symmetric; [apply Permutation_swap | reflexivity]. Defined.

Example prediction_bounds_witness :
  let s := moving_average 10 (sample "a" 1500 None) in
  (1 # 10) <= confidence s <= 1 ∧ 1000 <= predictedRating s <= 2000 ∧ sp_playerId s = "a".
Proof.
  apply (prediction_bounds 10 (sample "a" 1500 None) 1000 2000); [done|by vm_compute|].
  intros r [->|[->|[]%elem_of_nil]%elem_of_cons]%elem_of_cons; by vm_compute.
Defined.
