(* ===== verification/OptimisticState.v ===== *)
(** * Optimistic state: [frontend/src/hooks/useOptimisticState.ts]

    A value shown at once while a request confirms it, and rolled back when the
    request fails.  Several updates may be under way; each remembers the version
    it was started with and only the latest may change the value when it ends.

    React's state is what was set last.  The function [update] sees the
    confirmed value of the render it comes from, so rendering is a step of its
    own ([Render]).  The references [pendingCountRef], [updateQueueRef] and
    [lockRef] are written by [reset] and never read; they are left out, and so
    is the monitoring. *)

From stdpp Require Import prelude strings list.
From S2P Require Import Prelude.

#[local] Open Scope Z_scope.

Section hook.
Context {T E : Type}.

(** How far a call of [update] is: its request is under way, it waits for
    [rollbackDelayMs] after the error, or its promise has a value or, when a
    callback has thrown, an error. *)
Inductive Phase := InFlight | RollingBack (err : E) | Returned (ok : bool) | Rejected (err : E).

(** A call: its version, its value and the confirmed value it saw. *)
Record Update := mkUpdate { u_version : Z; u_next : T; u_previous : T; u_phase : Phase }.

(** The state of the hook, [versionRef], the confirmed value of the last render
    and the calls of [update] so far. *)
Record Hook := mkHook {
  value : T; confirmedValue : T; isPending : bool; error : option E; version : Z; rendered : T; updates : list Update }.

Definition use (initialValue : T) : Hook := mkHook initialValue initialValue false None 0 initialValue [].

Definition render (h : Hook) : Hook :=
  mkHook (value h) (confirmedValue h) (isPending h) (error h) (version h) (confirmedValue h) (updates h).

Definition clearError (h : Hook) : Hook :=
  mkHook (value h) (confirmedValue h) (isPending h) None (version h) (rendered h) (updates h).

Definition reset (newValue : T) (h : Hook) : Hook :=
  mkHook newValue newValue false None (version h + 1) (rendered h) (updates h).

(** [update] up to the end of its first [await]. *)
Definition update (nextValue : T) (h : Hook) : Hook :=
  let updateVersion := version h + 1 in
  mkHook nextValue (confirmedValue h) true None updateVersion (rendered h)
    (updates h ++ [mkUpdate updateVersion nextValue (rendered h) InFlight]).

Definition with_phase (p : Phase) (u : Update) : Update := mkUpdate (u_version u) (u_next u) (u_previous u) p.

Definition set_phase (n : nat) (p : Phase) (h : Hook) : Hook :=
  mkHook (value h) (confirmedValue h) (isPending h) (error h) (version h) (rendered h) (alter (with_phase p) n (updates h)).

(** What a call of [onSuccess] or [onError] does: it returns or throws. *)
Definition callback : Type := option E.

(** The end of the [catch] block, after the delay. *)
Definition roll_back (n : nat) (u : Update) (onError : callback) (h : Hook) : Hook :=
  let v := if bool_decide (version h = u_version u) then u_previous u else value h in
  set_phase n (match onError with Some e => Rejected e | None => Returned false end)
    (mkHook v (confirmedValue h) false (error h) (version h) (rendered h) (updates h)).

(** The [catch] block: with a delay it waits before the rest. *)
Definition catch (delayed : bool) (n : nat) (u : Update) (err : E) (onError : callback) (h : Hook) : Hook :=
  let h := mkHook (value h) (confirmedValue h) (isPending h) (Some err) (version h) (rendered h) (updates h) in
  if delayed then set_phase n (RollingBack err) h else roll_back n u onError h.

(** The request of the [n]-th call has returned.  An error of [onSuccess] is
    caught like one of the request. *)
Definition resolve (delayed : bool) (n : nat) (result : option T) (onSuccess onError : callback) (h : Hook) : Hook :=
  match updates h !! n with
  | Some u =>
      match u_phase u with
      | InFlight =>
          if negb (bool_decide (version h = u_version u)) then set_phase n (Returned false) h else
          let resolved := default (u_next u) result in
          let h := mkHook resolved resolved false (error h) (version h) (rendered h) (updates h) in
          match onSuccess with
          | None => set_phase n (Returned true) h
          | Some err => catch delayed n u err onError h
          end
      | _ => h
      end
  | None => h
  end.

(** The request of the [n]-th call has failed. *)
Definition reject (delayed : bool) (n : nat) (err : E) (onError : callback) (h : Hook) : Hook :=
  match updates h !! n with
  | Some u => match u_phase u with InFlight => catch delayed n u err onError h | _ => h end
  | None => h
  end.

(** The delay of the [n]-th call is over. *)
Definition delay_over (n : nat) (onError : callback) (h : Hook) : Hook :=
  match updates h !! n with
  | Some u => match u_phase u with RollingBack _ => roll_back n u onError h | _ => h end
  | None => h
  end.

Inductive hook_event :=
| Render | ClearError | Reset (v : T) | Update_ (next : T)
| Resolve (n : nat) (result : option T) (onSuccess onError : callback)
| Reject (n : nat) (err : E) (onError : callback)
| DelayOver (n : nat) (onError : callback).

Definition hook_step (delayed : bool) (h : Hook) (e : hook_event) : Hook :=
  match e with
  | Render => render h | ClearError => clearError h | Reset v => reset v h | Update_ next => update next h
  | Resolve n r os oe => resolve delayed n r os oe h
  | Reject n err oe => reject delayed n err oe h
  | DelayOver n oe => delay_over n oe h
  end.

Definition hook_run (delayed : bool) (v : T) (es : list hook_event) : Hook := foldl (hook_step delayed) (use v) es.

(** A call that has not returned. *)
Definition active (u : Update) : Prop := match u_phase u with InFlight | RollingBack _ => True | _ => False end.

Instance active_dec u : Decision (active u).
Proof. unfold active. destruct (u_phase u); apply _. Defined.

Definition idle (h : Hook) : Prop := ∀ u, u ∈ updates h → ¬ active u.

(** ** Invariants *)

(** Versions tell the calls apart, and something is shown as pending only while
    the call of the current version has not returned. *)
Record hook_inv (h : Hook) : Prop := {
  hi_bound : ∀ i u, updates h !! i = Some u → u_version u ≤ version h;
  hi_distinct : ∀ i j u w, updates h !! i = Some u → updates h !! j = Some w → u_version u = u_version w → i = j;
  hi_pending : isPending h = true → ∃ i u, updates h !! i = Some u ∧ u_version u = version h ∧ active u }.

(** The call of the current version, if it has not returned, shows its value and
    would roll back to the confirmed one; otherwise the confirmed value is
    shown. *)
Definition current (h : Hook) (i : nat) (u : Update) : Prop := updates h !! i = Some u ∧ u_version u = version h ∧ active u.

Definition shown (h : Hook) : Prop :=
  (∀ i u, current h i u → u_previous u = confirmedValue h ∧ value h = u_next u) ∧
  ((∃ i u, current h i u) ∨ value h = confirmedValue h).

Lemma set_phase_lookup n p h i u' : updates (set_phase n p h) !! i = Some u' →
  ∃ u, updates h !! i = Some u ∧ u_version u' = u_version u ∧ u_next u' = u_next u ∧ u_previous u' = u_previous u ∧
    (i = n → u_phase u' = p) ∧ (i ≠ n → u' = u).
Proof.
  cbn. destruct (decide (n = i)) as [->|Hne].
  - rewrite list_lookup_alter_eq. intros (u & Hu & ->)%fmap_Some. exists u. by split_and!.
  - rewrite list_lookup_alter_ne by done. intros Hu. exists u'. split_and!; try done.
Qed.

Lemma set_phase_other n p h i u : updates h !! i = Some u → i ≠ n → updates (set_phase n p h) !! i = Some u.
Proof. intros Hu Hne. cbn. by rewrite list_lookup_alter_ne by done. Qed.

Lemma set_phase_same n p h u : updates h !! n = Some u → updates (set_phase n p h) !! n = Some (with_phase p u).
Proof. intros Hu. cbn. by rewrite list_lookup_alter_eq, Hu. Qed.

(** The first two clauses do not look at phases, values or callbacks. *)
Lemma hook_inv_phase n p h h' : hook_inv h → version h' = version h → updates h' = updates h →
  (isPending h' = true → ∃ i u, updates (set_phase n p h') !! i = Some u ∧ u_version u = version h ∧ active u) →
  hook_inv (set_phase n p h').
Proof.
  intros [Hb Hd _] Ev Eu Hp. split.
  - intros i u' (u & Hu & -> & _)%set_phase_lookup. rewrite Eu in Hu. cbn. rewrite Ev. by eapply Hb.
  - intros i j u' w' (u & Hu & -> & _)%set_phase_lookup (w & Hw & -> & _)%set_phase_lookup. rewrite Eu in *. by eapply Hd.
  - intros Hpend. destruct (Hp Hpend) as (i & u & Hu & Hv & Ha). exists i, u. split_and!; [done | cbn; congruence | done].
Qed.

Lemma hook_inv_roll_back n u oe h : hook_inv h → hook_inv (roll_back n u oe h).
Proof. intros H. unfold roll_back. by apply (hook_inv_phase _ _ h). Qed.

Lemma hook_inv_pending_frame h h' : hook_inv h → version h' = version h → updates h' = updates h →
  (isPending h' = true → isPending h = true) → hook_inv h'.
Proof. intros [Hb Hd Hp] Ev Eu Ep. split; rewrite ?Ev, ?Eu; auto. Qed.

Lemma hook_inv_catch d n u err oe h : hook_inv h → updates h !! n = Some u → hook_inv (catch d n u err oe h).
Proof.
  intros H Hu. unfold catch. cbv zeta. destruct d; [|by apply hook_inv_roll_back, (hook_inv_pending_frame h)].
  apply (hook_inv_phase _ _ h); try done. cbn [isPending]. intros (i & w & Hw & Ev & Ha)%(hi_pending _ H).
  destruct (decide (i = n)) as [->|Hne].
  - exists n, (with_phase (RollingBack err) w). split_and!; [by apply set_phase_same | done | done].
  - exists i, w. split_and!; [by apply set_phase_other | done | done].
Qed.

Lemma hook_inv_step d e h : hook_inv h → hook_inv (hook_step d h e).
Proof.
  intros H. destruct e as [| |v|next|n r os oe|n err oe|n oe]; cbn [hook_step].
  - by apply (hook_inv_pending_frame h).
  - by apply (hook_inv_pending_frame h).
  - destruct H as [Hb Hd _]. split; cbn; [|done|done]. intros i u Hu. apply Hb in Hu. lia.
  - destruct H as [Hb Hd _]. split; cbn.
    + intros i u [Hu|[_ Hu]]%lookup_app_Some; [apply Hb in Hu; lia|]. apply list_lookup_singleton_Some in Hu as [_ <-]. cbn. lia.
    + intros i j u w [Hu|[Hi Hu]]%lookup_app_Some [Hw|[Hj Hw]]%lookup_app_Some E0; [by eapply Hd | | |].
      * apply list_lookup_singleton_Some in Hw as [_ <-]. apply Hb in Hu. cbn in E0. lia.
      * apply list_lookup_singleton_Some in Hu as [_ <-]. apply Hb in Hw. cbn in E0. lia.
      * apply list_lookup_singleton_Some in Hu as [? _], Hw as [? _]. lia.
    + intros _. eexists (length (updates h)), _. split; [by apply list_lookup_middle|]. done.
  - unfold resolve. destruct (updates h !! n) as [u|] eqn:Eu; [|done]. destruct (u_phase u); try done.
    destruct (bool_decide_reflect (version h = u_version u)) as [Ev|Ev]; cbn [negb].
    + cbv zeta. destruct os as [err|]; [apply hook_inv_catch; [|done]|apply (hook_inv_phase _ _ h); done].
      by apply (hook_inv_pending_frame h).
    + apply (hook_inv_phase _ _ h); try done. intros (i & w & Hw & Ew & Ha)%(hi_pending _ H).
      exists i, w. split_and!; [|done|done]. apply set_phase_other; [done|]. intros ->. congruence.
  - unfold reject. destruct (updates h !! n) as [u|] eqn:Eu; [|done]. destruct (u_phase u); try done. by apply hook_inv_catch.
  - unfold delay_over. destruct (updates h !! n) as [u|] eqn:Eu; [|done]. destruct (u_phase u); try done. by apply hook_inv_roll_back.
Qed.

Lemma hook_inv_run d v es : hook_inv (hook_run d v es).
Proof.
  unfold hook_run. assert (hook_inv (use v)) as H0 by (split; cbn; done).
  revert H0. generalize (use v). induction es as [|e es IH]; intros h H0; [done|]. cbn [foldl]. by apply IH, hook_inv_step.
Qed.

(** Updates are made from a render that has the confirmed value, and
    [onSuccess] does not throw. *)
Definition careful (h : Hook) (e : hook_event) : Prop :=
  match e with
  | Update_ _ => rendered h = confirmedValue h
  | Resolve _ _ onSuccess _ => onSuccess = None
  | _ => True
  end.

Fixpoint careful_run (d : bool) (h : Hook) (es : list hook_event) : Prop :=
  match es with [] => True | e :: es => careful h e ∧ careful_run d (hook_step d h e) es end.

(** When the call of the current version has returned, none is current. *)
Lemma none_current n p h h' u : hook_inv h → version h' = version h → updates h' = updates h →
  updates h !! n = Some u → version h = u_version u → (p = InFlight → False) → (∀ e, p = RollingBack e → False) →
  ∀ i w, ¬ current (set_phase n p h') i w.
Proof.
  intros H Ev Eu Hu Evu Hp1 Hp2 i w (Hw & Ew & Ha). apply set_phase_lookup in Hw as (w0 & Hw0 & E1 & _ & _ & Hn & _).
  rewrite Eu in Hw0. cbn in Ew. assert (i = n) as -> by (eapply (hi_distinct _ H); [done|done|congruence]).
  unfold active in Ha. rewrite (Hn eq_refl) in Ha. destruct p; naive_solver.
Qed.

(** A call that is not current changes its phase and nothing that is shown. *)
Lemma shown_other n p h h' u : shown h → version h' = version h → updates h' = updates h → value h' = value h →
  confirmedValue h' = confirmedValue h → updates h !! n = Some u → version h ≠ u_version u → shown (set_phase n p h').
Proof.
  intros [H1 H2] Ev Eu Eval Ec Hu Hne. split.
  - intros i w (Hw & Ew & Ha). apply set_phase_lookup in Hw as (w0 & Hw0 & E1 & E2 & E3 & _ & Hi). rewrite Eu in Hw0. cbn in *.
    assert (i ≠ n) as Hin by (intros ->; congruence).
    rewrite Eval, Ec. apply (H1 i w). rewrite (Hi Hin) in *. split_and!; [done|congruence|done].
  - destruct H2 as [(i & w & Hw & Ew & Ha)|H2]; [left|right; cbn; congruence].
    exists i, w. split_and!; [|cbn; congruence|done]. apply set_phase_other; [by rewrite Eu|]. intros ->. congruence.
Qed.

Lemma shown_roll_back n u oe h : hook_inv h → updates h !! n = Some u → active u → shown h → shown (roll_back n u oe h).
Proof.
  intros H Hu Ha Hs. unfold roll_back. destruct (bool_decide_reflect (version h = u_version u)) as [Ev|Ev].
  - pose proof (none_current n (match oe with Some e => Rejected e | None => Returned false end) h
      (mkHook (u_previous u) (confirmedValue h) false (error h) (version h) (rendered h) (updates h)) u H eq_refl eq_refl Hu Ev) as Hno.
    destruct Hs as [Hs _]. destruct (Hs n u) as [Ep _]; [by split_and!|]. split.
    + intros i w Hw. exfalso. revert Hw. apply Hno; by destruct oe.
    + right. cbn. done.
  - by eapply (shown_other n _ h).
Qed.

Lemma shown_catch d n u err oe h : hook_inv h → updates h !! n = Some u → u_phase u = InFlight → shown h → shown (catch d n u err oe h).
Proof.
  intros H Hu Ep Hs. unfold catch. cbv zeta.
  set (h1 := mkHook _ _ _ _ _ _ _). assert (shown h1) as Hs1 by exact Hs.
  assert (hook_inv h1) as H1 by (by apply (hook_inv_pending_frame h)).
  assert (active u) as Ha by (unfold active; by rewrite Ep).
  destruct d; [|by apply shown_roll_back].
  destruct (decide (version h = u_version u)) as [Ev|Ev]; [|by eapply (shown_other n _ h)].
  destruct Hs1 as [Hs1 _]. destruct (Hs1 n u) as [Hp Hv]; [by split_and!|]. split.
  - intros i w (Hw & Ew & _). apply set_phase_lookup in Hw as (w0 & Hw0 & E1 & E2 & E3 & _ & _). cbn in *.
    assert (i = n) as -> by (eapply (hi_distinct _ H); [done|done|congruence]). simplify_eq. by rewrite E2, E3.
  - left. exists n, (with_phase (RollingBack err) u). split_and!; [by apply set_phase_same | cbn; congruence | done].
Qed.

Lemma shown_step d e h : hook_inv h → careful h e → shown h → shown (hook_step d h e).
Proof.
  intros H Hc Hs. destruct e as [| |v|next|n r os oe|n err oe|n oe]; cbn [hook_step].
  - exact Hs.
  - exact Hs.
  - split; [|by right]. intros i u (Hu & Ev & _). cbn in *. apply (hi_bound _ H) in Hu. lia.
  - cbn in Hc. split.
    + intros i u (Hu & Ev & _). cbn in *. apply lookup_app_Some in Hu as [Hu|[_ Hu]]; [apply (hi_bound _ H) in Hu; lia|].
      by apply list_lookup_singleton_Some in Hu as [_ <-].
    + left. eexists (length (updates h)), _. split; [by apply list_lookup_middle|]. done.
  - cbn in Hc. subst os. unfold resolve. destruct (updates h !! n) as [u|] eqn:Eu; [|done]. destruct (u_phase u) eqn:Ep; try done.
    destruct (bool_decide_reflect (version h = u_version u)) as [Ev|Ev]; cbn [negb]; [|by eapply (shown_other n _ h)].
    cbv zeta. split; [|by right]. intros i w Hw. exfalso. revert Hw. by apply (none_current n _ h _ u).
  - unfold reject. destruct (updates h !! n) as [u|] eqn:Eu; [|done]. destruct (u_phase u) eqn:Ep; try done. by apply shown_catch.
  - unfold delay_over. destruct (updates h !! n) as [u|] eqn:Eu; [|done]. destruct (u_phase u) eqn:Ep; try done.
    apply shown_roll_back; try done. unfold active. by rewrite Ep.
Qed.

Lemma shown_foldl d es h : hook_inv h → careful_run d h es → shown h → shown (foldl (hook_step d) h es).
Proof.
  revert h. induction es as [|e es IH]; intros h H Hc Hs; [done|]. destruct Hc as [Hc Hc']. cbn [foldl].
  apply IH; [by apply hook_inv_step|done|by apply shown_step].
Qed.

(** ** What the hook guarantees *)

Lemma idle_not_pending h : hook_inv h → idle h → isPending h = false.
Proof.
  intros H Hi. destruct (isPending h) eqn:Ep; [|done].
  destruct (hi_pending _ H Ep) as (i & u & Hu & _ & Ha). exfalso. eapply Hi; [|done]. by eapply list_elem_of_lookup_2.
Qed.

(** However the calls overlap: once every call has returned the pending
    flag is down, and, when the updates came from a render with the confirmed
    value and [onSuccess] did not throw, the confirmed value is shown. *)
Theorem settles_on_confirmed d v es :
  let h := hook_run d v es in
  idle h → isPending h = false ∧ (careful_run d (use v) es → value h = confirmedValue h).
Proof.
  cbv zeta. intros Hi. pose proof (hook_inv_run d v es) as H. split; [by apply idle_not_pending|]. intros Hc.
  assert (shown (hook_run d v es)) as [_ [(i & u & Hu & _ & Ha)|Hs]]; [|exfalso|done].
  { apply shown_foldl; [by split|done|]. split; [by intros i u (Hu & _)|by right]. }
  eapply Hi; [|done]. by eapply list_elem_of_lookup_2.
Qed.

(** The latest update wins: while its request is under way its value is
    shown, whatever the earlier calls do; its success confirms the value the
    server returned, or the one that was sent. *)
Theorem latest_update_wins d v es n u :
  let h := hook_run d v es in
  careful_run d (use v) es →
  updates h !! n = Some u → u_phase u = InFlight → u_version u = version h →
  value h = u_next u ∧ ∀ r oe, let h' := resolve d n r None oe h in
    value h' = default (u_next u) r ∧ confirmedValue h' = default (u_next u) r ∧ isPending h' = false ∧
    updates h' !! n = Some (with_phase (Returned true) u).
Proof.
  cbv zeta. intros Hc Hu Ep Ev.
  assert (shown (hook_run d v es)) as [Hs _].
  { apply shown_foldl; [by split|done|]. split; [by intros ? ? (? & _)|by right]. }
  split; [apply (Hs n u); split_and!; [done|done|unfold active; by rewrite Ep]|].
  intros r oe. unfold resolve. rewrite Hu, Ep, bool_decide_true by done. cbn [negb]. cbv zeta. split_and!; try done.
  by apply set_phase_same.
Qed.

(** A call that was overtaken, by an update or a reset, changes neither
    the value nor the confirmed value when it ends. *)
Theorem overtaken_changes_nothing d n h e u :
  updates h !! n = Some u → u_version u ≠ version h →
  (∃ r os oe, e = Resolve n r os oe) ∨ (∃ err oe, e = Reject n err oe) ∨ (∃ oe, e = DelayOver n oe) →
  value (hook_step d h e) = value h ∧ confirmedValue (hook_step d h e) = confirmedValue h.
Proof.
  intros Hu Hne [(r & os & oe & ->)|[(err & oe & ->)|(oe & ->)]]; cbn [hook_step]; unfold resolve, reject, delay_over, catch, roll_back;
    rewrite Hu; destruct (u_phase u); try done; cbv zeta; rewrite ?(bool_decide_false (version h = u_version u)) by congruence; try done.
  destruct d; [done|]. cbn [version]. by rewrite ?(bool_decide_false (version h = u_version u)) by congruence.
Qed.
End hook.

(** ** Runs *)

(** A failure of the first of two updates takes the pending flag down while the
    second is under way. *)
Example pending_while_in_flight :
  let h := hook_run false 0 [Update_ 1; Render; Update_ 2; Reject 0 "offline" None] in
  isPending h = false ∧ u_phase <$> updates h = [Returned false; InFlight].
Proof. by vm_compute. Qed.

(** The server has accepted the first update and refused the second: the hook
    goes back to the value before both. *)
Example accepted_update_lost :
  let h := hook_run (E := string) false 0 [Update_ 1; Render; Update_ 2; Resolve 0 (Some 1) None None; Reject 1 "refused" None] in
  value h = 0 ∧ confirmedValue h = 0.
Proof. by vm_compute. Qed.

(** An error of [onSuccess] rolls a confirmed value back. *)
Example callback_rolls_back :
  let h := hook_run false 0 [Update_ 1; Resolve 0 (Some 1) (Some "toast") None] in
  value h = 0 ∧ confirmedValue h = 1 ∧ error h = Some "toast".
Proof. by vm_compute. Qed.

(** The error of an update that was overtaken is shown for the later one. *)
Example stale_error :
  error (hook_run false 0 [Update_ 1; Render; Update_ 2; Resolve 1 None None None; Reject 0 "offline" None]) = Some "offline".
Proof. by vm_compute. Qed.

Definition two_updates : list (hook_event (T := Z) (E := string)) :=
  [Update_ 1; Render; Update_ 2; Reject 0 "offline" None; Resolve 1 (Some 3) None None].

Example settles_on_confirmed_witness :
  let h := hook_run false 0 two_updates in
  isPending h = false ∧ (careful_run false (use 0) two_updates → value h = confirmedValue h).
Proof. apply (settles_on_confirmed false 0 two_updates). intros u [->|[->|[]%elem_of_nil]%elem_of_cons]%elem_of_cons []. Defined.

Example latest_update_wins_witness :
  let h := hook_run false 0 (take 4 two_updates) in let u := mkUpdate 2 2 0 InFlight in
  value h = 2 ∧ ∀ r oe, let h' := resolve false 1 r None oe h in
    value h' = default 2 r ∧ confirmedValue h' = default 2 r ∧ isPending h' = false ∧
    updates h' !! 1%nat = Some (with_phase (Returned true) u).
Proof. apply (latest_update_wins false 0 (take 4 two_updates) 1 (mkUpdate 2 2 0 InFlight)); by repeat split. Defined.

Example overtaken_changes_nothing_witness :
  let h := hook_run false 0 (take 3 two_updates) in
  value (hook_step false h (Reject 0 "offline" None)) = 2 ∧ confirmedValue (hook_step false h (Reject 0 "offline" None)) = 0.
Proof.
  apply (overtaken_changes_nothing false 0 (hook_run false 0 (take 3 two_updates)) (Reject 0 "offline" None) (mkUpdate 1 1 0 InFlight));
    [done|done|]. right. left. by exists "offline", None.
Defined.
