(* ===== verification/CacheMiddleware.v ===== *)
(** * Cached responses: [server/src/middleware/cache.middleware.ts]

    The two middlewares answer GET requests from the cache and store what the
    routes answer.  A client of [SharedCache]: the theorems hold for every cache
    with its laws.  MD5 and the printing and parsing of HTTP dates are
    parameters.  The route behind a middleware is the status and the body it
    would answer; a write to the cache, which is not awaited, has happened when
    the next request comes.  The service of the cache catches its own errors, so
    the [catch] blocks are not reached. *)

From Stdlib Require Import Ascii.
From stdpp Require Import prelude gmap strings list pretty sorting.
From S2P Require Import Prelude JsText Crypto Json JsonParse Cache.

#[local] Open Scope Z_scope.

(** [crypto.createHash('md5')] in hexadecimal. *)
Class Md5 := { md5 : string → string; md5_nonempty : ∀ s, md5 s ≠ "" }.

(** [toUTCString] drops the milliseconds, [new Date(text)] reads its text. *)
Class HttpDate := {
  toUTCString : Z → string;
  parse_date : string → option Z;
  parse_utc : ∀ t, 0 ≤ t → parse_date (toUTCString t) = Some (t / 1000 * 1000) }.

(** What the middlewares read of a request; [r_user] is whom it is from. *)
Record Request := mkRequest {
  method : string; originalUrl : string; query_noCache : option string;
  ifNoneMatch : option string; ifModifiedSince : option string; r_user : option string }.

Record Response := mkResponse { status : Z; headers : jsmap string; body : option json }.

Definition quote (s : string) : string := chr 34 +:+ s +:+ chr 34.

Definition set_header (k v : string) (h : jsmap string) : jsmap string := map_set k v h.

(** The options of [setCacheHeaders], with the defaults of the code. *)
Record HeaderOptions := mkHeaderOptions {
  maxAge : Z; sMaxAge : option Z; staleWhileRevalidate : Z; staleIfError : Z; isPublic : bool; isPrivate : bool;
  noCache : bool; noStore : bool; mustRevalidate : bool; o_etag : option string; o_lastModified : option Z }.

Definition no_store : HeaderOptions := mkHeaderOptions 300 None 86400 86400 true false true true false None None.

Definition nonzero (z : option Z) : option Z := match z with Some n => if bool_decide (n = 0) then None else Some n | None => None end.

Definition directives (o : HeaderOptions) : list string :=
  if noStore o then ["no-store"] else if noCache o then ["no-cache"] else
  (if isPublic o then ["public"] else []) ++ (if isPrivate o then ["private"] else []) ++
  (if mustRevalidate o then ["must-revalidate"] else []) ++ ["max-age=" +:+ pretty (maxAge o)] ++
  match nonzero (sMaxAge o) with Some n => ["s-maxage=" +:+ pretty n] | None => [] end ++
  match nonzero (Some (staleWhileRevalidate o)) with Some n => ["stale-while-revalidate=" +:+ pretty n] | None => [] end ++
  match nonzero (Some (staleIfError o)) with Some n => ["stale-if-error=" +:+ pretty n] | None => [] end.

Fixpoint join (sep : string) (l : list string) : string :=
  match l with [] => "" | [x] => x | x :: l => x +:+ sep +:+ join sep l end.

Section middleware.
Context `{JsNumber} `{Md5} `{HttpDate} {C : Type} `{!SharedCache C}.

Definition generateETag (b : json) : string := md5 (match b with JStr s => s | _ => json_text b end).

Definition setCacheHeaders (o : HeaderOptions) (h : jsmap string) : jsmap string :=
  let h := set_header "Cache-Control" (join ", " (directives o)) h in
  let h := match truthy_str (o_etag o) with Some e => set_header "ETag" (quote e) h | None => h end in
  match o_lastModified o with Some t => set_header "Last-Modified" (toUTCString t) h | None => h end.

Definition isFreshCache (req : Request) (etag : option string) (lastModified : option Z) : bool :=
  match truthy_str (ifNoneMatch req), truthy_str etag with
  | Some inm, Some e => bool_decide (inm = quote e)
  | _, _ =>
      match truthy_str (ifModifiedSince req), lastModified with
      | Some ims, Some lm => match parse_date ims with Some clientDate => bool_decide (lm ≤ clientDate) | None => false end
      | _, _ => false
      end
  end.

(** JavaScript's truth of a value. *)
Definition truthy (v : json) : bool :=
  match v with
  | JUndefined | JNull => false
  | JBool b => b
  | JNum t => negb (bool_decide (t ∈ ["0"; "-0"; "NaN"]))
  | JStr s => negb (bool_decide (s = ""))
  | JArr _ | JObj _ => true
  end.

(** [{ ...body }]: the entries of an object, the elements of an array or of a
    string under their indices, nothing of other values. *)
Definition spread (b : json) : list (string * json) :=
  match b with
  | JObj l => l
  | JArr l => imap (λ i v, (pretty i, v)) l
  | JStr s => imap (λ i c, (pretty i, JStr (String c ""))) (String.list_ascii_of_string s)
  | _ => []
  end.

(** [(cached as any)?.lastModified] as a date. *)
Definition last_modified (cached : json) : option Z :=
  match cached with
  | JObj l => match map_get "lastModified" l with
              | Some (JStr s) => if bool_decide (s = "") then None else parse_date s
              | _ => None
              end
  | _ => None
  end.

Definition not_modified : Response := mkResponse 304 [("X-Cache", "HIT")] None.

Definition successful (code : Z) : bool := bool_decide (200 ≤ code < 300).

(** [cacheMiddleware(ttl)] in front of a route that answers [answer]. *)
Definition cacheMiddleware (ttl now : Z) (req : Request) (answer : Z * json) (c : C) : C * Response :=
  if negb (bool_decide (method req = "GET")) then (c, mkResponse answer.1 [] (Some answer.2)) else
  if bool_decide (query_noCache req = Some "true") then (c, mkResponse answer.1 (setCacheHeaders no_store []) (Some answer.2)) else
  let cacheKey := "api:" +:+ originalUrl req in
  let '(c, cached) := sc_get now cacheKey c in
  let miss :=
    if successful answer.1 then
      (sc_set now cacheKey (JObj (map_set "lastModified" (JStr (toISOString now)) (spread answer.2))) ttl c,
       mkResponse answer.1
         (set_header "X-Cache" "MISS" (setCacheHeaders
            (mkHeaderOptions ttl None 86400 86400 true false false false false (Some (generateETag answer.2)) (Some now)) []))
         (Some answer.2))
    else (c, mkResponse answer.1 [("X-Cache", "MISS")] (Some answer.2)) in
  match cached with
  | Some v =>
      if truthy v then
        let etag := generateETag v in
        let lm := last_modified v in
        if isFreshCache req (Some etag) lm then (c, not_modified)
        else (c, mkResponse 200 (set_header "X-Cache" "HIT" (setCacheHeaders
               (mkHeaderOptions ttl None 86400 86400 true false false false false (Some etag) lm) [])) (Some v))
      else miss
  | None => miss
  end.

Definition staticCacheMiddleware (age : Z) (h : jsmap string) : jsmap string :=
  setCacheHeaders (mkHeaderOptions age (Some age) 86400 86400 true false false false false None None) h.

Definition cdn_options (age sAge stale : Z) (etag : string) : HeaderOptions :=
  mkHeaderOptions age (Some sAge) stale 86400 true false false false false (Some etag) None.

(** [apiCacheMiddleware({ maxAge, sMaxAge, staleWhileRevalidate })] *)
Definition apiCacheMiddleware (age sAge stale now : Z) (req : Request) (answer : Z * json) (c : C) : C * Response :=
  if negb (bool_decide (method req = "GET")) then (c, mkResponse answer.1 [] (Some answer.2)) else
  let cacheKey := "api:cdn:" +:+ originalUrl req in
  let '(c, cached) := sc_get now cacheKey c in
  let miss :=
    if successful answer.1 then
      (sc_set now cacheKey answer.2 age c,
       mkResponse answer.1 (set_header "X-Cache" "MISS" (setCacheHeaders (cdn_options age sAge stale (generateETag answer.2)) []))
         (Some answer.2))
    else (c, mkResponse answer.1 [("X-Cache", "MISS")] (Some answer.2)) in
  match cached with
  | Some v =>
      if truthy v then
        let etag := generateETag v in
        if isFreshCache req (Some etag) None then (c, not_modified)
        else (c, mkResponse 200 (set_header "X-Cache" "HIT" (setCacheHeaders (cdn_options age sAge stale etag) [])) (Some v))
      else miss
  | None => miss
  end.

Definition invalidateCache (pattern : string) (now : Z) (c : C) : C := sc_delete now pattern c.

(** ** What a request does to the cache *)

Lemma get_run now key (c : C) : ∃ c', sc_get now key c = (c', sc_view now c key) ∧
  ∀ now' key', now ≤ now' → sc_view now' c' key' = sc_view now' c key'.
Proof.
  destruct (sc_get now key c) as [c' v] eqn:E. exists c'. split.
  - pose proof (sc_get_view now key c) as Hv. rewrite E in Hv. cbn in Hv. by rewrite Hv.
  - intros now' key' Hn. pose proof (sc_get_keeps now key c now' key' Hn) as Hk. by rewrite E in Hk.
Qed.

(** What the route of an address answered, and when. *)
Record Answered := mkAnswered { a_time : Z; a_url : string; a_body : json }.

Definition cdn_key (url : string) : string := "api:cdn:" +:+ url.

Lemma cdn_key_inj u1 u2 : cdn_key u1 = cdn_key u2 → u1 = u2.
Proof. unfold cdn_key. cbn. intros E. by simplify_eq. Qed.

(** Whatever the cache holds from an instant on was answered by the route of its
    address within the lifetime. *)
Definition from_routes (age now : Z) (hist : list Answered) (c : C) : Prop :=
  ∀ now' url v, now ≤ now' → sc_view now' c (cdn_key url) = Some v →
    ∃ a, a ∈ hist ∧ a_url a = url ∧ a_body a = v ∧ a_time a ≤ now' ≤ a_time a + age * 1000.

Lemma from_routes_later age now now' hist c : from_routes age now hist c → now ≤ now' → from_routes age now' hist c.
Proof. intros Hf Hn t url v Ht. apply Hf. lia. Qed.

Lemma from_routes_more age now hist a c : from_routes age now hist c → from_routes age now (a :: hist) c.
Proof.
  intros Hf t url v Ht Hv. destruct (Hf t url v Ht Hv) as (a' & Ha' & Hr). exists a'. split; [by constructor|done].
Qed.

Lemma from_routes_set age now hist url b (c c' : C) : 0 < age → plain b → b ≠ JNull →
  (∀ now' key', now ≤ now' → sc_view now' c' key' = sc_view now' c key') →
  from_routes age now hist c → from_routes age now (mkAnswered now url b :: hist) (sc_set now (cdn_key url) b age c').
Proof.
  intros Hage Hp Hb Hkeep Hf t url' v Ht. destruct (decide (url = url')) as [<-|Hne].
  - destruct (decide (t ≤ now + age * 1000)) as [Hle|Hgt].
    + rewrite sc_set_view by (done || lia). intros [= <-]. eexists. split; [constructor|]. split_and!; cbn; (done || lia).
    + by rewrite sc_set_expires by lia.
  - rewrite sc_set_ne by (intros ?%cdn_key_inj; done). rewrite Hkeep by done. by apply (from_routes_more _ _ _ _ _ Hf).
Qed.

(** A request as the middleware sees it: when, what, and what its route would
    answer. *)
Record Visit := mkVisit { v_now : Z; v_req : Request; v_answer : Z * json }.

Definition cacheable (v : Visit) : Prop := plain (v_answer v).2 ∧ (v_answer v).2 ≠ JNull.

Definition answered (v : Visit) : Answered := mkAnswered (v_now v) (originalUrl (v_req v)) (v_answer v).2.

Definition cdn_visit (age sAge stale : Z) (v : Visit) (c : C) : C * Response :=
  apiCacheMiddleware age sAge stale (v_now v) (v_req v) (v_answer v) c.

(** Every body comes from the route of its address. *)
Lemma cdn_visit_served age sAge stale v hist c : cacheable v → 0 < age → from_routes age (v_now v) hist c →
  let '(c', r) := cdn_visit age sAge stale v c in
  from_routes age (v_now v) (answered v :: hist) c' ∧
  ∀ b, body r = Some b → ∃ a, a ∈ answered v :: hist ∧ a_url a = originalUrl (v_req v) ∧ a_body a = b ∧
    a_time a ≤ v_now v ≤ a_time a + age * 1000.
Proof.
  intros [Hp Hb] Hage Hf. unfold cdn_visit, apiCacheMiddleware.
  assert (∀ b, Some (v_answer v).2 = Some b → ∃ a, a ∈ answered v :: hist ∧ a_url a = originalUrl (v_req v) ∧ a_body a = b ∧
    a_time a ≤ v_now v ≤ a_time a + age * 1000) as Hown.
  { intros b [= <-]. exists (answered v). split_and!; [constructor|done|done|cbn; lia|cbn; lia]. }
  destruct (bool_decide_reflect (method (v_req v) = "GET")) as [_|_]; cbn [negb]; [|by split; [apply from_routes_more|]].
  change ("api:cdn:" +:+ originalUrl (v_req v)) with (cdn_key (originalUrl (v_req v))).
  destruct (get_run (v_now v) (cdn_key (originalUrl (v_req v))) c) as (c' & -> & Hkeep).
  assert (from_routes age (v_now v) (answered v :: hist) c') as Hf'.
  { intros t url w Ht. rewrite Hkeep by done. by apply (from_routes_more _ _ _ _ _ Hf). }
  assert (let '(c2, r) := (if successful (v_answer v).1 then
      (sc_set (v_now v) (cdn_key (originalUrl (v_req v))) (v_answer v).2 age c',
       mkResponse (v_answer v).1 (set_header "X-Cache" "MISS" (setCacheHeaders (cdn_options age sAge stale (generateETag (v_answer v).2)) []))
         (Some (v_answer v).2))
    else (c', mkResponse (v_answer v).1 [("X-Cache", "MISS")] (Some (v_answer v).2))) in
    from_routes age (v_now v) (answered v :: hist) c2 ∧ body r = Some (v_answer v).2) as Hmiss.
  { destruct (successful (v_answer v).1); [|done]. split; [|done]. by apply (from_routes_set _ _ _ _ _ c). }
  destruct (sc_view (v_now v) c (cdn_key (originalUrl (v_req v)))) as [w|] eqn:Ew.
  - destruct (truthy w).
    + destruct (isFreshCache _ _ _); [done|]. split; [done|]. intros b [= <-].
      destruct (Hf (v_now v) (originalUrl (v_req v)) w ltac:(lia) Ew) as (a & Ha & Hr). exists a. split; [by constructor|done].
    + destruct (if successful _ then _ else _) as [c2 r]. destruct Hmiss as [Hm1 Hm2]. split; [done|]. intros b. rewrite Hm2. apply Hown.
  - destruct (if successful _ then _ else _) as [c2 r]. destruct Hmiss as [Hm1 Hm2]. split; [done|]. intros b. rewrite Hm2. apply Hown.
Qed.

(** A run of visits: the cache and the responses. *)
Fixpoint cdn_run (age sAge stale : Z) (vs : list Visit) (c : C) : list Response :=
  match vs with
  | [] => []
  | v :: vs => let '(c', r) := cdn_visit age sAge stale v c in r :: cdn_run age sAge stale vs c'
  end.

Lemma cdn_run_served age sAge stale vs hist c now : 0 < age → Forall cacheable vs →
  StronglySorted (λ v w, v_now v ≤ v_now w) vs → Forall (λ v, now ≤ v_now v) vs → from_routes age now hist c →
  Forall2 (λ v r, ∀ b, body r = Some b → ∃ a, (a ∈ hist ∨ a ∈ answered <$> vs) ∧ a_url a = originalUrl (v_req v) ∧ a_body a = b ∧
    a_time a ≤ v_now v ≤ a_time a + age * 1000) vs (cdn_run age sAge stale vs c).
Proof.
  intros Hage. revert hist c now. induction vs as [|v vs IH]; intros hist c now Hc Hs Hn Hf; [constructor|].
  inversion Hc; inversion Hs; inversion Hn; subst. cbn [cdn_run].
  pose proof (cdn_visit_served age sAge stale v hist c ltac:(done) Hage (from_routes_later _ _ _ _ _ Hf ltac:(done))) as Hv.
  destruct (cdn_visit age sAge stale v c) as [c' r]. destruct Hv as [Hf' Hb]. constructor.
  - intros b Hr. destruct (Hb b Hr) as (a & Ha & Hrest). exists a. split; [|done]. rewrite fmap_cons.
    apply elem_of_cons in Ha as [->|Ha]; [right; constructor|by left].
  - eapply Forall2_impl; [eapply (IH (answered v :: hist) c' (v_now v)); done|].
    intros w r' Hw b Hr. destruct (Hw b Hr) as (a & Ha & Hrest). exists a. split; [|done]. rewrite fmap_cons.
    destruct Ha as [[->|Ha]%elem_of_cons|Ha]; [right; constructor|by left|right; by constructor].
Qed.

(** ** What the middlewares guarantee *)

(** Bounded staleness: in any sequence of requests through
    [apiCacheMiddleware], starting from a cache without such entries, every body
    that is sent was answered by the route of the same address at most [maxAge]
    seconds before. *)
Theorem cdn_bounded_staleness age sAge stale vs c : 0 < age → Forall cacheable vs →
  StronglySorted (λ v w, v_now v ≤ v_now w) vs → (∀ now url, sc_view now c (cdn_key url) = None) →
  Forall2 (λ v r, ∀ b, body r = Some b → ∃ v', v' ∈ vs ∧ originalUrl (v_req v') = originalUrl (v_req v) ∧ (v_answer v').2 = b ∧
    v_now v' ≤ v_now v ≤ v_now v' + age * 1000) vs (cdn_run age sAge stale vs c).
Proof.
  intros Hage Hc Hs Hempty. destruct vs as [|v0 vs0] eqn:E; [constructor|]. rewrite <- E in *.
  eapply Forall2_impl; [eapply (cdn_run_served _ _ _ _ [] _ (v_now v0)); try done|].
  - subst vs. inversion Hs; subst. by constructor.
  - intros t url w _. by rewrite Hempty.
  - intros v r Hv b Hr. destruct (Hv b Hr) as (a & [?%elem_of_nil|(v' & -> & Hv')%list_elem_of_fmap] & Hrest); [done|]. by exists v'.
Qed.

Lemma etag_header o e h : truthy_str (o_etag o) = Some e → o_lastModified o = None →
  map_get "ETag" (setCacheHeaders o h) = Some (quote e).
Proof. intros E1 E2. unfold setCacheHeaders. rewrite E1, E2. apply map_get_set_eq. Qed.

Lemma truthy_etag b : truthy_str (Some (generateETag b)) = Some (generateETag b).
Proof. unfold truthy_str. by rewrite bool_decide_false by apply md5_nonempty. Qed.

Lemma truthy_quote e : truthy_str (Some (quote e)) = Some (quote e).
Proof. done. Qed.

Lemma fresh_unasked req etag : ifNoneMatch req = None → isFreshCache req etag None = false.
Proof. intros E. unfold isFreshCache. rewrite E. cbn [truthy_str]. by destruct (truthy_str (ifModifiedSince req)). Qed.

(** A response can be revalidated: after a miss answered with success, a
    GET of the same address within [maxAge] that carries the ETag of that response
    is answered 304, and one without it gets the same body and headers, marked as
    a hit. *)
Theorem cdn_revalidates age sAge stale now now' req req' answer answer' (c : C) :
  method req = "GET" → method req' = "GET" → originalUrl req' = originalUrl req →
  sc_view now c (cdn_key (originalUrl req)) = None → successful answer.1 = true → plain answer.2 → truthy answer.2 = true → 0 < age →
  now ≤ now' ≤ now + age * 1000 →
  let '(c1, r1) := apiCacheMiddleware age sAge stale now req answer c in
  let r2 := (apiCacheMiddleware age sAge stale now' req' answer' c1).2 in
  (is_Some (map_get "ETag" (headers r1)) ∧ (ifNoneMatch req' = map_get "ETag" (headers r1) → r2 = not_modified)) ∧
  (ifNoneMatch req' = None → status r2 = 200 ∧ body r2 = Some answer.2 ∧
     ∀ k, map_get k (headers r2) = if bool_decide (k = "X-Cache") then Some "HIT" else map_get k (headers r1)).
Proof.
  intros Hm Hm' Hu Hv Hok Hp Ht Hage Hn. unfold apiCacheMiddleware. rewrite Hm, Hm', Hu, (bool_decide_true ("GET" = "GET")) by done. cbn [negb].
  change ("api:cdn:" +:+ originalUrl req) with (cdn_key (originalUrl req)).
  destruct (get_run now (cdn_key (originalUrl req)) c) as (c1 & -> & _). rewrite Hv, Hok.
  set (c2 := sc_set _ _ _ _ _). destruct (get_run now' (cdn_key (originalUrl req)) c2) as (c3 & -> & _).
  assert (sc_view now' c2 (cdn_key (originalUrl req)) = Some answer.2) as ->.
  { apply sc_set_view; [done|done| |lia]. intros E. by rewrite E in Ht. }
  rewrite Ht. cbn [headers]. set (hs := setCacheHeaders _ []).
  assert (map_get "ETag" (set_header "X-Cache" "MISS" hs) = Some (quote (generateETag answer.2))) as He.
  { unfold set_header. rewrite map_get_set_ne by done. apply etag_header; [apply truthy_etag|done]. }
  split; [rewrite He; split; [eauto|]|].
  - intros Hinm. unfold isFreshCache. rewrite Hinm, truthy_etag, truthy_quote. by rewrite bool_decide_true.
  - intros Hinm. rewrite fresh_unasked by done. cbn [status body headers snd]. split_and!; [done|done|].
    intros k. unfold set_header. rewrite !map_get_set. by case_bool_decide.
Qed.

(** A client that sends back the [Last-Modified] of a response is told to load it
    again unless the response was made on a whole second. *)
Lemma modified_since_never_fresh req etag t : 0 ≤ t → t mod 1000 ≠ 0 → ifNoneMatch req = None →
  ifModifiedSince req = Some (toUTCString t) → isFreshCache req etag (Some t) = false.
Proof.
  intros Ht Hm E1 E2. unfold isFreshCache. rewrite E1, E2. cbn [truthy_str]. case_bool_decide; [done|].
  rewrite parse_utc by done. apply bool_decide_false. pose proof (Z.div_mod t 1000). pose proof (Z.mod_pos_bound t 1000). lia.
Qed.
End middleware.

(** ** Runs *)

#[local] Instance text_md5 : Md5.
Proof. refine {| md5 s := "md5-" +:+ s |}. done. Defined.

#[local] Instance seconds_date : HttpDate.
Proof.
  refine {| toUTCString t := pretty (Z.to_N (t / 1000)); parse_date s := Some (number_from 0 s * 1000) |}.
  intros t Ht. rewrite number_from_pretty. rewrite Z2N.id by (apply Z.div_pos; lia). done.
Defined.

Definition get_from (url : string) (inm user : option string) : Request := mkRequest "GET" url None inm None user.

#[local] Existing Instance number_model.

Definition names : json := JArr [JStr "a"; JStr "b"].

(** Two requests for one address, one second apart. *)
Definition first_visit (inm user : option string) := cacheMiddleware 300 5000 (get_from "/me" inm user) (200, names) (∅ : InMemoryBackend).
Definition second_visit (inm user : option string) := (cacheMiddleware 300 6000 (get_from "/me" inm user) (200, names) (first_visit None (Some "alice")).1).2.

(** An array is served as an object from the cache, to any user. *)
Example array_becomes_object :
  body (first_visit None (Some "alice")).2 = Some names ∧
  body (second_visit None (Some "bob")) = Some (JObj [("0", JStr "a"); ("1", JStr "b"); ("lastModified", JStr "1970-01-01T00:00:05.000Z")]).
Proof. vm_compute. split; reflexivity. Qed.

(** The tag of the first response does not match on the second request: it was
    made without the date that the stored object carries. *)
Example tag_never_matches :
  status (second_visit (map_get "ETag" (headers (first_visit None None).2)) None) = 200.
Proof. vm_compute. reflexivity. Qed.

(** A pattern is deleted as a key: the entry stays. *)
Example pattern_not_expanded :
  is_Some (sc_view 6000 (invalidateCache "api:*" 5500 (first_visit None None).1) "api:/me").
Proof. vm_compute. eauto. Qed.

Definition ask (now : Z) (b : string) : Visit := mkVisit now (get_from "/top" None None) (200, JObj [("v", JStr b)]).

Example cdn_bounded_staleness_witness :
  let vs := [ask 1000 "x"; ask 2000 "y"; ask 20000 "z"] in
  Forall2 (λ v r, ∀ b, body r = Some b → ∃ v', v' ∈ vs ∧ originalUrl (v_req v') = originalUrl (v_req v) ∧ (v_answer v').2 = b ∧
    v_now v' ≤ v_now v ≤ v_now v' + 10 * 1000) vs (cdn_run 10 20 30 vs (∅ : InMemoryBackend)).
Proof.
  apply (cdn_bounded_staleness 10 20 30 [ask 1000 "x"; ask 2000 "y"; ask 20000 "z"] (∅ : InMemoryBackend)); [done| | |done].
  - repeat constructor; done.
  - repeat constructor; done.
Defined.

Example cdn_revalidates_witness :
  let r1 := apiCacheMiddleware 10 20 30 1000 (get_from "/top" None None) (200, JStr "x") (∅ : InMemoryBackend) in
  let req := get_from "/top" (Some (quote "md5-x")) None in
  (let '(c1, r1) := r1 in
   let r2 := (apiCacheMiddleware 10 20 30 5000 req (200, JStr "y") c1).2 in
   (is_Some (map_get "ETag" (headers r1)) ∧ (ifNoneMatch req = map_get "ETag" (headers r1) → r2 = not_modified)) ∧
   (ifNoneMatch req = None → status r2 = 200 ∧ body r2 = Some (JStr "x") ∧
     ∀ k, map_get k (headers r2) = if bool_decide (k = "X-Cache") then Some "HIT" else map_get k (headers r1))).
Proof.
  apply (cdn_revalidates 10 20 30 1000 5000 (get_from "/top" None None) (get_from "/top" (Some (quote "md5-x")) None)
    (200, JStr "x") (200, JStr "y") (∅ : InMemoryBackend)); done.
Defined.
