(* ===== verification/Notifications.v ===== *)
(** * Notifications: [server/src/services/notification.service.ts]

    An inbox per user in memory, preferences, and what a notification is sent
    through.  The instant and the random part of an id are arguments.  The three
    deliveries, which only log, are kept in order in [sent].  [notifyWebhook]
    is one request to a configured address and is left out. *)

From stdpp Require Import prelude gmap strings list pretty sorting.
From S2P Require Import Prelude.

#[local] Open Scope Z_scope.

Inductive NotificationType :=
| match_started | match_ended | achievement_unlocked | payment_received | friend_request | tournament_started | system_alert.

#[export] Instance NotificationType_eq_dec : EqDecision NotificationType.
Proof. solve_decision. Defined.

Definition type_name (t : NotificationType) : string :=
  match t with
  | match_started => "match_started" | match_ended => "match_ended" | achievement_unlocked => "achievement_unlocked"
  | payment_received => "payment_received" | friend_request => "friend_request" | tournament_started => "tournament_started"
  | system_alert => "system_alert"
  end.

Definition all_types : list NotificationType :=
  [match_started; match_ended; achievement_unlocked; payment_received; friend_request; tournament_started; system_alert].

Record Notification := mkNotification {
  n_id : string; n_userId : string; n_type : NotificationType; title : string; content : string; n_read : bool;
  createdAt : Z; readAt : option Z }.

#[export] Instance Notification_eq_dec : EqDecision Notification.
Proof. solve_decision. Defined.

Record NotificationPreferences := mkPreferences {
  p_userId : string; inAppNotifications : bool; emailNotifications : bool; pushNotifications : bool;
  notificationTypes : jsmap bool }.

Record NotificationFilter := mkFilter { f_type : option NotificationType; f_read : option bool; f_limit : option Z; f_offset : option Z }.

(** [Partial<NotificationPreferences>] *)
Record PreferencesUpdate := mkPreferencesUpdate {
  u_inApp : option bool; u_email : option bool; u_push : option bool; u_types : option (jsmap bool) }.

Inductive Delivery :=
| WebSocketEvent (userId event notificationId : string) | EmailQueued (userId notificationId : string) | PushQueued (userId notificationId : string).

Record Service := mkService {
  notifications : jsmap (list Notification); preferences : jsmap NotificationPreferences; sent : list Delivery }.

Definition new_service : Service := mkService [] [] [].

Definition inbox (u : string) (s : Service) : list Notification := default [] (map_get u (notifications s)).

Definition set_inbox (u : string) (l : list Notification) (s : Service) : Service :=
  mkService (map_set u l (notifications s)) (preferences s) (sent s).

Definition deliver (ds : list Delivery) (s : Service) : Service :=
  mkService (notifications s) (preferences s) (sent s ++ ds).

Definition getDefaultPreferences (userId : string) : NotificationPreferences :=
  mkPreferences userId true true true ((λ t, (type_name t, true)) <$> all_types).

Definition getPreferences (userId : string) (s : Service) : NotificationPreferences :=
  default (getDefaultPreferences userId) (map_get userId (preferences s)).

Definition deliveries (prefs : NotificationPreferences) (userId nid : string) : list Delivery :=
  (if inAppNotifications prefs then [WebSocketEvent userId "notification:new" nid] else []) ++
  (if emailNotifications prefs then [EmailQueued userId nid] else []) ++
  (if pushNotifications prefs then [PushQueued userId nid] else []).

Definition sendNotification (now : Z) (random userId : string) (type : NotificationType) (title content : string) (s : Service)
  : Service * Notification :=
  let notification := mkNotification ("notif-" +:+ pretty now +:+ "-" +:+ random) userId type title content false now None in
  let s := set_inbox userId (inbox userId s ++ [notification]) s in
  (deliver (deliveries (getPreferences userId s) userId (n_id notification)) s, notification).

Definition matches (f : NotificationFilter) (n : Notification) : bool :=
  match f_type f with Some t => bool_decide (n_type n = t) | None => true end &&
  match f_read f with Some r => Bool.eqb (n_read n) r | None => true end.

(** What a page is cut from: the matching notifications, newest first. *)
Definition selected (userId : string) (f : NotificationFilter) (s : Service) : list Notification :=
  js_sort (λ a b, createdAt b - createdAt a) (List.filter (matches f) (inbox userId s)).

Definition getNotifications (userId : string) (f : NotificationFilter) (s : Service) : list Notification :=
  let limit := default 50 (f_limit f) in
  let offset := default 0 (f_offset f) in
  js_slice offset (offset + limit) (selected userId f s).

Definition mark (now : Z) (n : Notification) : Notification :=
  mkNotification (n_id n) (n_userId n) (n_type n) (title n) (content n) true (createdAt n) (Some now).

(** Change the first notification with an id. *)
Fixpoint update_first (nid : string) (f : Notification → Notification) (l : list Notification) : list Notification :=
  match l with [] => [] | n :: l => if bool_decide (n_id n = nid) then f n :: l else n :: update_first nid f l end.

Fixpoint remove_first (nid : string) (l : list Notification) : list Notification :=
  match l with [] => [] | n :: l => if bool_decide (n_id n = nid) then l else n :: remove_first nid l end.

Definition has_id (nid : string) (l : list Notification) : bool := existsb (λ n, bool_decide (n_id n = nid)) l.

Definition markAsRead (now : Z) (userId nid : string) (s : Service) : Service * bool :=
  match map_get userId (notifications s) with
  | None => (s, false)
  | Some l =>
      if has_id nid l
      then (deliver [WebSocketEvent userId "notification:read" nid] (set_inbox userId (update_first nid (mark now) l) s), true)
      else (s, false)
  end.

Definition unread (n : Notification) : bool := negb (n_read n).

Definition markAllAsRead (now : Z) (userId : string) (s : Service) : Service * Z :=
  match map_get userId (notifications s) with
  | None => (s, 0)
  | Some l => (set_inbox userId ((λ n, if unread n then mark now n else n) <$> l) s, Z.of_nat (length (List.filter unread l)))
  end.

Definition deleteNotification (userId nid : string) (s : Service) : Service * bool :=
  match map_get userId (notifications s) with
  | None => (s, false)
  | Some l => if has_id nid l then (set_inbox userId (remove_first nid l) s, true) else (s, false)
  end.

Definition updatePreferences (userId : string) (u : PreferencesUpdate) (s : Service) : Service * NotificationPreferences :=
  let current := getPreferences userId s in
  let updated := mkPreferences userId (default (inAppNotifications current) (u_inApp u)) (default (emailNotifications current) (u_email u))
    (default (pushNotifications current) (u_push u)) (default (notificationTypes current) (u_types u)) in
  (mkService (notifications s) (map_set userId updated (preferences s)) (sent s), updated).

(** Each with its instant and random part. *)
Fixpoint batchSendNotifications (to : list (Z * string * string)) (type : NotificationType) (title content : string) (s : Service)
  : Service * list Notification :=
  match to with
  | [] => (s, [])
  | (now, random, userId) :: to =>
      let '(s, n) := sendNotification now random userId type title content s in
      let '(s, ns) := batchSendNotifications to type title content s in (s, n :: ns)
  end.

Definition getUnreadCount (userId : string) (s : Service) : Z := Z.of_nat (length (List.filter unread (inbox userId s))).

Record Stats := mkStats { total : Z; st_unread : Z; byType : jsmap Z }.

Definition getNotificationStats (userId : string) (s : Service) : Stats :=
  mkStats (Z.of_nat (length (inbox userId s))) (Z.of_nat (length (List.filter unread (inbox userId s))))
    (foldl (λ counts n, map_set (type_name (n_type n)) (default 0 (map_get (type_name (n_type n)) counts) + 1) counts) [] (inbox userId s)).

(** ** Pages *)

(** The pages of a fixed size, put together, are the matching
    notifications of the user, each exactly once, newest first. *)
Theorem pages_complete userId f s (n m : nat) : (length (inbox userId s) ≤ m * n)%nat →
  let page k := getNotifications userId (mkFilter (f_type f) (f_read f) (Some (Z.of_nat n)) (Some (Z.of_nat (k * n)))) s in
  let all := concat (page <$> seq 0 m) in
  all ≡ₚ List.filter (matches f) (inbox userId s) ∧ StronglySorted (λ a b, createdAt b ≤ createdAt a) all.
Proof.
  intros Hlen. cbv zeta. set (sel := selected userId f s).
  assert (sel ≡ₚ List.filter (matches f) (inbox userId s)) as Hperm by apply js_sort_perm.
  assert (∀ k, getNotifications userId (mkFilter (f_type f) (f_read f) (Some (Z.of_nat n)) (Some (Z.of_nat (k * n)))) s = take n (drop (k * n) sel)) as Hpage.
  { intros k. unfold getNotifications. cbn [f_limit f_offset from_option id]. by rewrite js_slice_page. }
  assert (concat ((λ k, getNotifications userId (mkFilter (f_type f) (f_read f) (Some (Z.of_nat n)) (Some (Z.of_nat (k * n)))) s) <$> seq 0 m) = sel) as ->.
  { rewrite (list_fmap_ext _ (λ k, take n (drop (k * n) sel)) (seq 0 m)) by (intros; apply Hpage). rewrite pages_take, take_ge; [done|].
    rewrite Hperm. pose proof (List.filter_length_le (matches f) (inbox userId s)). lia. }
  split; [done|]. eapply SSorted_mono; [|apply js_sort_sorted]; cbn; intros; lia.
Qed.

(** ** Counts *)

Lemma inbox_set u u' l s : inbox u' (set_inbox u l s) = if bool_decide (u' = u) then l else inbox u' s.
Proof. unfold inbox. cbn. rewrite map_get_set. by case_bool_decide. Qed.

(** [markAllAsRead] returns the number of unread notifications, leaves
    none, and changes neither the number of notifications nor other users. *)
Theorem mark_all_clears now userId s :
  let '(s', count) := markAllAsRead now userId s in
  count = getUnreadCount userId s ∧ getUnreadCount userId s' = 0 ∧
  n_id <$> inbox userId s' = n_id <$> inbox userId s ∧ ∀ u, u ≠ userId → inbox u s' = inbox u s.
Proof.
  unfold markAllAsRead, getUnreadCount. destruct (map_get userId (notifications s)) as [l|] eqn:E.
  - assert (inbox userId s = l) as Hl by (unfold inbox; by rewrite E).
    rewrite inbox_set, bool_decide_true, Hl by done. split_and!; try done.
    + rewrite bfilter_none; [done|]. intros n (n0 & -> & _)%list_elem_of_fmap. destruct (unread n0) eqn:Eu; [done|exact Eu].
    + rewrite <- list_fmap_compose. apply list_fmap_ext. intros i n _. unfold compose. by destruct (unread n).
    + intros u Hu. by rewrite inbox_set, bool_decide_false.
  - assert (inbox userId s = []) as -> by (unfold inbox; by rewrite E). done.
Qed.

Definition tally (m : jsmap Z) : Z := zsum (map_values m).

Lemma tally_set k v m : tally (map_set k v m) = tally m + v - default 0 (map_get k m).
Proof.
  unfold tally, map_values. induction m as [|[j w] m IH]; [cbn; lia|]. cbn [map_set map_get].
  destruct (bool_decide_reflect (k = j)) as [->|Hne]; cbn in *; [unfold zsum; cbn; lia|]. unfold zsum in *. cbn. lia.
Qed.

(** The statistics agree with each other: the counts by type add up to the
    total, and the unread ones are those [getUnreadCount] reports. *)
Theorem stats_consistent userId s :
  let st := getNotificationStats userId s in
  tally (byType st) = total st ∧ st_unread st = getUnreadCount userId s ∧ 0 ≤ st_unread st ≤ total st ∧
  ∀ t, default 0 (map_get (type_name t) (byType st)) = Z.of_nat (length (List.filter (λ n, bool_decide (n_type n = t)) (inbox userId s))).
Proof.
  cbv zeta. unfold getNotificationStats. cbn [byType total st_unread]. set (l := inbox userId s).
  split_and!; [|done|lia|pose proof (List.filter_length_le unread l); lia|].
  - induction l as [|n l IH] using rev_ind; [done|]. rewrite foldl_app, length_app. cbn [foldl]. rewrite tally_set, IH. cbn. lia.
  - intros t. induction l as [|n l IH] using rev_ind; [done|]. rewrite foldl_app, List.filter_app, length_app. cbn [foldl List.filter].
    rewrite map_get_set. destruct (bool_decide_reflect (n_type n = t)) as [->|Hne].
    + rewrite bool_decide_true by done. cbn [from_option id length]. rewrite IH. lia.
    + rewrite bool_decide_false by (intros E; apply Hne; by destruct (n_type n), t). cbn [length]. rewrite IH. lia.
Qed.

(** ** Every run *)

Inductive notification_op :=
| OpSend (now : Z) (random userId : string) (type : NotificationType) (title content : string)
| OpRead (now : Z) (userId nid : string) | OpReadAll (now : Z) (userId : string) | OpDelete (userId nid : string)
| OpPreferences (userId : string) (u : PreferencesUpdate).

Definition notification_step (s : Service) (op : notification_op) : Service :=
  match op with
  | OpSend now random userId type title content => (sendNotification now random userId type title content s).1
  | OpRead now userId nid => (markAsRead now userId nid s).1
  | OpReadAll now userId => (markAllAsRead now userId s).1
  | OpDelete userId nid => (deleteNotification userId nid s).1
  | OpPreferences userId u => (updatePreferences userId u s).1
  end.

Definition notification_run (ops : list notification_op) : Service := foldl notification_step new_service ops.

(** An entry of the inbox of a user: it is for this user, and has a time of
    reading exactly when it was read. *)
Definition entry_ok (u : string) (n : Notification) : Prop := n_userId n = u ∧ (n_read n = true ↔ is_Some (readAt n)).

Definition service_inv (s : Service) : Prop :=
  (∀ u, Forall (entry_ok u) (inbox u s)) ∧ ∀ u p, map_get u (preferences s) = Some p → p_userId p = u.

Lemma service_inv_inbox u l s : service_inv s → Forall (entry_ok u) l → service_inv (set_inbox u l s).
Proof.
  intros [H1 H2] Hl. split; [|exact H2]. intros u'. rewrite inbox_set. case_bool_decide; [by subst|apply H1].
Qed.

Lemma mark_ok now u n : entry_ok u n → entry_ok u (mark now n).
Proof. intros [H1 _]. split; [done|]. cbn. split; eauto. Qed.

Lemma update_first_ok nid now u l : Forall (entry_ok u) l → Forall (entry_ok u) (update_first nid (mark now) l).
Proof.
  induction 1 as [|n l Hn Hl IH]; [constructor|]. cbn [update_first]. case_bool_decide; constructor; try done. by apply mark_ok.
Qed.

Lemma remove_first_ok nid u l : Forall (entry_ok u) l → Forall (entry_ok u) (remove_first nid l).
Proof. induction 1 as [|n l Hn Hl IH]; [constructor|]. cbn [remove_first]. case_bool_decide; [done|by constructor]. Qed.

Lemma service_inv_step op s : service_inv s → service_inv (notification_step s op).
Proof.
  intros H. assert (∀ u l, map_get u (notifications s) = Some l → Forall (entry_ok u) l) as Hbox.
  { intros u l E. destruct H as [H _]. specialize (H u). unfold inbox in H. by rewrite E in H. }
  destruct op as [now rnd u t ti co|now u nid|now u|u nid|u p]; cbn [notification_step].
  - unfold sendNotification. cbn [fst]. apply (service_inv_inbox u _ s H). apply Forall_app. split; [apply H|].
    repeat constructor; cbn; [done|by intros [? ?]].
  - unfold markAsRead. destruct (map_get u (notifications s)) as [l|] eqn:E; [|done]. destruct (has_id nid l); [|done].
    apply (service_inv_inbox u _ s H), update_first_ok. by apply Hbox.
  - unfold markAllAsRead. destruct (map_get u (notifications s)) as [l|] eqn:E; [|done].
    apply (service_inv_inbox u _ s H). apply Forall_fmap. eapply Forall_impl; [by apply Hbox|]. intros n Hn. cbn.
    destruct (unread n); [by apply mark_ok|done].
  - unfold deleteNotification. destruct (map_get u (notifications s)) as [l|] eqn:E; [|done]. destruct (has_id nid l); [|done].
    apply (service_inv_inbox u _ s H), remove_first_ok. by apply Hbox.
  - destruct H as [H1 H2]. split; [exact H1|]. intros u' p'. cbn. rewrite map_get_set.
    case_bool_decide as E; [|apply H2]. intros [= <-]. by subst.
Qed.

Lemma service_inv_run ops : service_inv (notification_run ops).
Proof.
  unfold notification_run. assert (service_inv new_service) as H0 by (split; [intros u; constructor|done]).
  revert H0. generalize new_service. induction ops as [|op ops IH]; intros s H0; [done|]. cbn [foldl]. by apply IH, service_inv_step.
Qed.

(** The types a user has switched off are not looked at: what is sent does not
    depend on them. *)
Lemma types_ignored prefs types userId nid :
  deliveries (mkPreferences (p_userId prefs) (inAppNotifications prefs) (emailNotifications prefs) (pushNotifications prefs) types) userId nid =
  deliveries prefs userId nid.
Proof. done. Qed.

(** After any calls: the inbox of a user holds only notifications for this
    user, read exactly when they have a time of reading; a new notification is
    unread, the last of the inbox, and sent through the channels the user's
    preferences name, and only the user it is for sees a difference. *)
Theorem send_appends ops now random userId type ti co :
  let s := notification_run ops in
  let '(s', n) := sendNotification now random userId type ti co s in
  Forall (entry_ok userId) (inbox userId s') ∧ inbox userId s' = inbox userId s ++ [n] ∧
  getUnreadCount userId s' = getUnreadCount userId s + 1 ∧
  sent s' = sent s ++ deliveries (getPreferences userId s) userId (n_id n) ∧ ∀ u, u ≠ userId → inbox u s' = inbox u s.
Proof.
  cbv zeta. set (s := notification_run ops).
  pose proof (service_inv_step (OpSend now random userId type ti co) s (service_inv_run ops)) as [Hinv _].
  unfold sendNotification in *. cbn [notification_step fst] in Hinv. unfold sendNotification in Hinv. cbn [fst] in Hinv.
  set (n := mkNotification _ _ _ _ _ _ _ _) in *.
  assert (∀ u ds, inbox u (deliver ds (set_inbox userId (inbox userId s ++ [n]) s)) = if bool_decide (u = userId) then inbox userId s ++ [n] else inbox u s) as Hin
    by (intros u ds; apply inbox_set).
  split_and!; [apply Hinv | by rewrite Hin, bool_decide_true | | done | intros u Hu; by rewrite Hin, bool_decide_false].
  unfold getUnreadCount. rewrite Hin, bool_decide_true, List.filter_app, length_app by done. cbn. lia.
Qed.

(** ** Runs *)

Definition one_off : notification_op := OpPreferences "ann" (mkPreferencesUpdate None (Some false) None (Some [("friend_request", false)])).

(** A notification of a type that is switched off is sent all the same. *)
Example off_type_sent :
  sent (notification_run [one_off; OpSend 5 "x" "ann" friend_request "hi" "there"]) =
  [WebSocketEvent "ann" "notification:new" "notif-5-x"; PushQueued "ann" "notif-5-x"].
Proof. vm_compute. reflexivity. Qed.

Definition three_sent : Service :=
  notification_run [OpSend 5 "x" "ann" friend_request "a" ""; OpSend 7 "y" "ann" system_alert "b" ""; OpSend 7 "z" "ann" system_alert "c" "";
    OpRead 8 "ann" "notif-5-x"; OpSend 9 "w" "bob" system_alert "d" ""].

(** Newest first, in the order of arrival for one instant. *)
Example newest_first : title <$> getNotifications "ann" (mkFilter None None None None) three_sent = ["b"; "c"; "a"].
Proof. vm_compute. reflexivity. Qed.

Example pages_complete_witness :
  let page k := getNotifications "ann" (mkFilter None (Some false) (Some 1) (Some (Z.of_nat (k * 1)))) three_sent in
  let all := concat (page <$> seq 0 3) in
  all ≡ₚ List.filter (matches (mkFilter None (Some false) None None)) (inbox "ann" three_sent) ∧
  StronglySorted (λ a b, createdAt b ≤ createdAt a) all.
Proof. apply (pages_complete "ann" (mkFilter None (Some false) None None) three_sent 1 3). vm_compute. lia. Defined.
