(* ===== verification/Incidents.v ===== *)
(** * Security incidents: [server/src/services/security-incident.service.ts]

    A map of incidents in memory with their workflow, queries and statistics.
    The instant and the random part of an id are arguments; the alerts, which
    are logged when a webhook is configured, are kept in order. *)

From stdpp Require Import prelude gmap strings list pretty sorting.
From Stdlib Require Import QArith Lqa.
From S2P Require Import Prelude Json.

#[local] Open Scope Z_scope.

Inductive IncidentSeverity := LOW | MEDIUM | HIGH | CRITICAL.

Inductive IncidentType :=
| BRUTE_FORCE | SQL_INJECTION_ATTEMPT | XSS_ATTEMPT | CSRF_ATTEMPT | UNAUTHORIZED_ACCESS | PRIVILEGE_ESCALATION
| DATA_EXFILTRATION | DDOS_ATTACK | MALICIOUS_PAYLOAD | ACCOUNT_TAKEOVER | ANOMALOUS_BEHAVIOR.

Inductive IncidentStatus := OPEN | INVESTIGATING | CONTAINED | RESOLVED | CLOSED.

#[export] Instance IncidentSeverity_eq_dec : EqDecision IncidentSeverity.
Proof. solve_decision. Defined.
#[export] Instance IncidentType_eq_dec : EqDecision IncidentType.
Proof. solve_decision. Defined.
#[export] Instance IncidentStatus_eq_dec : EqDecision IncidentStatus.
Proof. solve_decision. Defined.

Record SecurityIncident := mkIncident {
  i_id : string; i_type : IncidentType; severity : IncidentSeverity; i_status : IncidentStatus; description : string;
  sourceIp : string; i_userId : option string; metadata : json; createdAt : Z; updatedAt : Z; resolvedAt : option Z;
  resolvedBy : option string; resolution : option string }.

(** The map of the module and the alerts. *)
Record Store := mkStore { incidents : jsmap SecurityIncident; alerts : list string }.

Definition empty_store : Store := mkStore [] [].

Definition triggerSecurityAlert (webhookUrl : option string) (inc : SecurityIncident) (s : Store) : Store :=
  match truthy_str webhookUrl with None => s | Some _ => mkStore (incidents s) (alerts s ++ [i_id inc]) end.

Definition createIncident (webhookUrl : option string) (now : Z) (random : string) (type : IncidentType) (sev : IncidentSeverity)
    (descr ip : string) (userId : option string) (meta : json) (s : Store) : Store * SecurityIncident :=
  let inc := mkIncident ("inc-" +:+ pretty now +:+ "-" +:+ random) type sev OPEN descr ip userId meta now now None None None in
  let s := mkStore (map_set (i_id inc) inc (incidents s)) (alerts s) in
  (if bool_decide (sev = HIGH ∨ sev = CRITICAL) then triggerSecurityAlert webhookUrl inc s else s, inc).

Definition getIncident (iid : string) (s : Store) : option SecurityIncident := map_get iid (incidents s).

Record Filters := mkFilters {
  f_type : option IncidentType; f_severity : option IncidentSeverity; f_status : option IncidentStatus;
  f_userId : option string; f_startDate : option Z; f_endDate : option Z }.

Definition opt_is {A} `{EqDecision A} (o : option A) (x : A) : bool := match o with Some y => bool_decide (x = y) | None => true end.

Definition selects (f : Filters) (inc : SecurityIncident) : bool :=
  opt_is (f_type f) (i_type inc) && opt_is (f_severity f) (severity inc) && opt_is (f_status f) (i_status inc) &&
  match truthy_str (f_userId f) with Some u => bool_decide (i_userId inc = Some u) | None => true end &&
  match f_startDate f with Some d => bool_decide (d ≤ createdAt inc) | None => true end &&
  match f_endDate f with Some d => bool_decide (createdAt inc ≤ d) | None => true end.

Definition getIncidents (f : Filters) (s : Store) : list SecurityIncident :=
  js_sort (λ a b, createdAt b - createdAt a) (List.filter (selects f) (map_values (incidents s))).

Definition ended (st : IncidentStatus) : bool := bool_decide (st = RESOLVED ∨ st = CLOSED).

Definition updateIncidentStatus (now : Z) (iid : string) (st : IncidentStatus) (by_ resol : option string) : M Store SecurityIncident :=
  s ← get;
  match map_get iid (incidents s) with
  | None => throw (HttpError 404 "Incident not found")
  | Some i =>
      let i' := mkIncident (i_id i) (i_type i) (severity i) st (description i) (sourceIp i) (i_userId i) (metadata i) (createdAt i) now
        (if ended st then Some now else resolvedAt i) (if ended st then by_ else resolvedBy i) (if ended st then resol else resolution i) in
      _ ← put (mkStore (map_set iid i' (incidents s)) (alerts s)); mret i'
  end.

(** Counts by severity, type and status, 0 for a key that is missing. *)
Record IncidentStats := mkStats {
  total : Z; bySeverity : IncidentSeverity → Z; byType : IncidentType → Z; byStatus : IncidentStatus → Z;
  openIncidents : Z; resolvedIncidents : Z; avgResolutionTimeMs : Q }.

Definition bump {A} `{EqDecision A} (x : A) (f : A → Z) : A → Z := λ y, if bool_decide (y = x) then f y + 1 else f y.

(** The counters of the loop of [getIncidentStats]. *)
Record Counters := mkCounters {
  c_severity : IncidentSeverity → Z; c_type : IncidentType → Z; c_status : IncidentStatus → Z; c_open : Z; c_resolved : Z;
  c_time : Z; c_count : Z }.

Definition count_incident (c : Counters) (i : SecurityIncident) : Counters :=
  let done_ := ended (i_status i) in
  mkCounters (bump (severity i) (c_severity c)) (bump (i_type i) (c_type c)) (bump (i_status i) (c_status c))
    (if bool_decide (i_status i = OPEN) then c_open c + 1 else c_open c)
    (if done_ then c_resolved c + 1 else c_resolved c)
    (match resolvedAt i with Some t => if done_ then c_time c + (t - createdAt i) else c_time c | None => c_time c end)
    (match resolvedAt i with Some t => if done_ then c_count c + 1 else c_count c | None => c_count c end).

Definition zero_counters : Counters := mkCounters (λ _, 0) (λ _, 0) (λ _, 0) 0 0 0 0.

Definition getIncidentStats (timeRange : option (Z * Z)) (s : Store) : IncidentStats :=
  let all := match timeRange with
             | Some (a, b) => List.filter (λ i, bool_decide (a ≤ createdAt i) && bool_decide (createdAt i ≤ b)) (map_values (incidents s))
             | None => map_values (incidents s)
             end in
  let c := foldl count_incident zero_counters all in
  mkStats (Z.of_nat (length all)) (c_severity c) (c_type c) (c_status c) (c_open c) (c_resolved c)
    (if bool_decide (0 < c_count c) then inject_Z (c_time c) / inject_Z (c_count c) else 0%Q).

(** ** Runs *)

Inductive incident_op :=
| OpCreate (webhookUrl : option string) (now : Z) (random : string) (type : IncidentType) (sev : IncidentSeverity) (descr ip : string)
    (userId : option string) (meta : json)
| OpStatus (now : Z) (iid : string) (st : IncidentStatus) (by_ resol : option string).

Definition op_time (op : incident_op) : Z := match op with OpCreate _ now _ _ _ _ _ _ _ => now | OpStatus now _ _ _ _ => now end.

Definition incident_step (s : Store) (op : incident_op) : Store :=
  match op with
  | OpCreate w now r t sev d ip u m => (createIncident w now r t sev d ip u m s).1
  | OpStatus now iid st b r => (updateIncidentStatus now iid st b r s).1
  end.

Definition incident_run (ops : list incident_op) : Store := foldl incident_step empty_store ops.

(** What holds of every incident, at an instant. *)
Definition incident_ok (now : Z) (iid : string) (i : SecurityIncident) : Prop :=
  i_id i = iid ∧ createdAt i ≤ updatedAt i ≤ now ∧ (ended (i_status i) = true → resolvedAt i = Some (updatedAt i)) ∧
  (∀ t, resolvedAt i = Some t → createdAt i ≤ t ≤ updatedAt i).

Definition store_inv (now : Z) (s : Store) : Prop :=
  NoDup (map_keys (incidents s)) ∧ ∀ iid i, map_get iid (incidents s) = Some i → incident_ok now iid i.

Lemma store_inv_step op now s : store_inv now s → now ≤ op_time op → store_inv (op_time op) (incident_step s op).
Proof.
  intros [Hnd H] Hn. assert (∀ iid i, map_get iid (incidents s) = Some i → incident_ok (op_time op) iid i) as Hlater.
  { intros iid i Hi. destruct (H iid i Hi) as (? & ? & ? & ?). unfold incident_ok. split_and!; (done || lia). }
  destruct op as [w t r ty sev d ip u m|t iid st b r]; cbn [incident_step op_time] in *.
  - unfold createIncident. set (i := mkIncident _ _ _ _ _ _ _ _ _ _ _ _ _).
    assert (store_inv t (mkStore (map_set (i_id i) i (incidents s)) (alerts s))) as Hs.
    { split; cbn [incidents]; [by apply map_set_nodup|]. intros iid i'. rewrite map_get_set.
      case_bool_decide as E; [|apply Hlater]. intros [= <-]. subst iid. unfold incident_ok. cbn. split_and!; (done || lia). }
    cbn [fst]. case_bool_decide; [|exact Hs]. unfold triggerSecurityAlert. destruct (truthy_str w); exact Hs.
  - unfold updateIncidentStatus, get. cbv [mbind M_bind]. destruct (map_get iid (incidents s)) as [i|] eqn:Ei; [|by split].
    destruct (H iid i Ei) as (H1 & H2 & H3 & H4). cbn. split; cbn [incidents]; [by apply map_set_nodup|].
    intros iid' i'. rewrite map_get_set. case_bool_decide as E; [|apply Hlater]. intros [= <-]. subst iid'.
    unfold incident_ok. cbn. destruct (ended st) eqn:Est; split_and!; try (done || lia).
    + intros t' [= <-]. lia.
    + intros t' Ht'. specialize (H4 t' Ht'). lia.
Qed.

Definition nondecreasing (ops : list incident_op) : Prop := StronglySorted (λ a b, op_time a ≤ op_time b) ops.

Lemma store_inv_foldl ops now s : store_inv now s → nondecreasing ops → Forall (λ op, now ≤ op_time op) ops →
  ∃ now', store_inv now' (foldl incident_step s ops).
Proof.
  revert now s. induction ops as [|op ops IH]; intros now s H Hs Hn; [by exists now|].
  inversion Hs; inversion Hn; subst. cbn [foldl]. apply (IH (op_time op)); [by eapply store_inv_step|done|done].
Qed.

Lemma store_inv_run ops : nondecreasing ops → ∃ now, store_inv now (incident_run ops).
Proof.
  intros Hs. destruct ops as [|op ops0] eqn:E; [exists 0; split; [constructor|done]|]. rewrite <- E in *.
  apply (store_inv_foldl ops (op_time op)); [split; [constructor|done]|done|]. subst ops. inversion Hs; subst. by constructor.
Qed.

(** ** Statistics *)

Definition occurrences {A} `{EqDecision A} (f : SecurityIncident → A) (x : A) (l : list SecurityIncident) : Z :=
  Z.of_nat (length (List.filter (λ i, bool_decide (x = f i)) l)).

Lemma occurrences_snoc {A} `{EqDecision A} (f : SecurityIncident → A) x l i :
  occurrences f x (l ++ [i]) = bump (f i) (λ y, occurrences f y l) x.
Proof.
  unfold occurrences, bump. rewrite List.filter_app, length_app. cbn [List.filter].
  case_bool_decide; cbn [length]; lia.
Qed.

(** Decides tests on concrete severities, types and statuses. *)
Ltac known_keys :=
  repeat match goal with
  | |- context [ended ?x] => let b := eval vm_compute in (ended x) in change (ended x) with b
  | |- context [bool_decide ?P] => let b := eval vm_compute in (bool_decide P) in change (bool_decide P) with b
  end; cbv match.

(** What the loop computes: the occurrences of each key, and the times of the
    incidents that have ended. *)
Lemma counters_spec l : let c := foldl count_incident zero_counters l in
  (∀ x, c_severity c x = occurrences severity x l) ∧ (∀ x, c_type c x = occurrences i_type x l) ∧
  (∀ x, c_status c x = occurrences i_status x l) ∧ c_open c = occurrences i_status OPEN l ∧
  c_resolved c = occurrences i_status RESOLVED l + occurrences i_status CLOSED l ∧
  ((∀ i, i ∈ l → ended (i_status i) = true → ∃ t, resolvedAt i = Some t ∧ createdAt i ≤ t) → c_count c = c_resolved c ∧ 0 ≤ c_time c).
Proof.
  cbv zeta. induction l as [|i l IH] using rev_ind; [cbn; split_and!; (done || lia)|].
  rewrite foldl_app. cbn [foldl]. destruct IH as (H1 & H2 & H3 & H4 & H5 & H6). set (c := foldl count_incident zero_counters l) in *.
  unfold count_incident. cbn [c_severity c_type c_status c_open c_resolved c_time c_count]. rewrite !occurrences_snoc. unfold bump.
  split_and!.
  - intros x. rewrite occurrences_snoc. unfold bump. by rewrite H1.
  - intros x. rewrite occurrences_snoc. unfold bump. by rewrite H2.
  - intros x. rewrite occurrences_snoc. unfold bump. by rewrite H3.
  - rewrite H4. destruct (i_status i); done.
  - rewrite H5. destruct (i_status i); known_keys; lia.
  - intros Hall. destruct H6 as [H6 H7]; [intros j Hj; apply Hall; apply elem_of_app; by left|].
    destruct (ended (i_status i)) eqn:Ei.
    + destruct (Hall i) as (t & -> & Ht); [apply elem_of_app; right; constructor|done|]. lia.
    + destruct (resolvedAt i); lia.
Qed.

Definition ranged (timeRange : option (Z * Z)) (s : Store) : list SecurityIncident :=
  match timeRange with
  | Some (a, b) => List.filter (λ i, bool_decide (a ≤ createdAt i) && bool_decide (createdAt i ≤ b)) (map_values (incidents s))
  | None => map_values (incidents s)
  end.

Lemma ranged_sub r s i : i ∈ ranged r s → i ∈ map_values (incidents s).
Proof. destruct r as [[a b]|]; [|done]. by intros [_ ?]%elem_of_bfilter. Qed.

Lemma value_ok now s i : store_inv now s → i ∈ map_values (incidents s) → ∃ iid, incident_ok now iid i.
Proof. intros [Hnd H] ([iid i'] & -> & Hin)%list_elem_of_fmap. exists iid. apply H. by apply map_elem_get. Qed.

(** After any calls in the order of time, the statistics of any range agree
    with each other: the counts by severity, by type and by status each add up to
    the total, the open and the resolved ones are those of their statuses, every
    resolved incident counts towards the mean time, and that is not negative. *)
Theorem stats_agree ops range : nondecreasing ops →
  let st := getIncidentStats range (incident_run ops) in
  total st = bySeverity st LOW + bySeverity st MEDIUM + bySeverity st HIGH + bySeverity st CRITICAL ∧
  total st = byStatus st OPEN + byStatus st INVESTIGATING + byStatus st CONTAINED + byStatus st RESOLVED + byStatus st CLOSED ∧
  total st = zsum (byType st <$> [BRUTE_FORCE; SQL_INJECTION_ATTEMPT; XSS_ATTEMPT; CSRF_ATTEMPT; UNAUTHORIZED_ACCESS;
    PRIVILEGE_ESCALATION; DATA_EXFILTRATION; DDOS_ATTACK; MALICIOUS_PAYLOAD; ACCOUNT_TAKEOVER; ANOMALOUS_BEHAVIOR]) ∧
  openIncidents st = byStatus st OPEN ∧ resolvedIncidents st = byStatus st RESOLVED + byStatus st CLOSED ∧
  (0 <= avgResolutionTimeMs st)%Q.
Proof.
  intros Hs. cbv zeta. destruct (store_inv_run ops Hs) as [now Hinv]. unfold getIncidentStats. fold (ranged range (incident_run ops)).
  assert (∀ i, i ∈ ranged range (incident_run ops) → ended (i_status i) = true → ∃ t, resolvedAt i = Some t ∧ createdAt i ≤ t) as Hall.
  { intros i Hi%ranged_sub He. destruct (value_ok _ _ _ Hinv Hi) as (iid & _ & ? & H3 & _). exists (updatedAt i). split; [by apply H3|lia]. }
  set (l := ranged range (incident_run ops)) in *. clearbody l. clear -Hall.
  destruct (counters_spec l) as (H1 & H2 & H3 & H4 & H5 & H6). specialize (H6 Hall) as [H6 H7].
  cbn [total bySeverity byStatus byType openIncidents resolvedIncidents avgResolutionTimeMs].
  set (c := foldl count_incident zero_counters l) in *. split_and!.
  - rewrite !H1. clear. induction l as [|i l IH]; [done|]. unfold occurrences in *. cbn [length List.filter]. destruct (severity i); known_keys; cbn [length]; lia.
  - rewrite !H3. clear. induction l as [|i l IH]; [done|]. unfold occurrences in *. cbn [length List.filter]. destruct (i_status i); known_keys; cbn [length]; lia.
  - cbn. rewrite !H2. clear. induction l as [|i l IH]; [done|]. unfold occurrences in *. cbn [length List.filter]. destruct (i_type i); known_keys; cbn [length]; lia.
  - by rewrite H3.
  - by rewrite !H3.
  - case_bool_decide; [|done]. apply Qle_shift_div_l; [change 0%Q with (inject_Z 0); by rewrite <- Zlt_Qlt|].
    rewrite Qmult_0_l. change 0%Q with (inject_Z 0). by rewrite <- Zle_Qle.
Qed.

(** A query returns exactly the incidents that pass its filters, each once
    and newest first; an incident that was reported is found by its id until it
    is changed. *)
Theorem query_spec ops f : nondecreasing ops →
  let s := incident_run ops in
  getIncidents f s ≡ₚ List.filter (selects f) (map_values (incidents s)) ∧
  StronglySorted (λ a b, createdAt b ≤ createdAt a) (getIncidents f s) ∧ NoDup (i_id <$> getIncidents f s) ∧
  ∀ i, i ∈ getIncidents f s ↔ selects f i = true ∧ getIncident (i_id i) s = Some i.
Proof.
  intros Hs. cbv zeta. destruct (store_inv_run ops Hs) as [now Hinv]. set (s := incident_run ops) in *.
  assert (getIncidents f s ≡ₚ List.filter (selects f) (map_values (incidents s))) as Hp by apply js_sort_perm.
  destruct Hinv as [Hnd Hok].
  assert (i_id <$> map_values (incidents s) = map_keys (incidents s)) as Hids.
  { unfold map_values, map_keys. change (List.map snd (incidents s)) with (snd <$> incidents s). rewrite <- list_fmap_compose.
    apply list_fmap_ext. intros n [k i] Hn. cbn. apply list_elem_of_lookup_2, map_elem_get in Hn; [|done]. by apply (Hok k i). }
  split_and!; [done| |rewrite Hp; apply bfilter_key_nodup; by rewrite Hids|].
  - eapply SSorted_mono; [|apply js_sort_sorted]; cbn; intros; lia.
  - intros i. rewrite Hp, elem_of_bfilter. split; intros [H1 H2]; (split; [done|]).
    + apply list_elem_of_fmap in H2 as ([k j] & -> & H2). cbn in *. apply map_elem_get in H2; [|done]. destruct (Hok k j H2) as [-> _]. done.
    + apply map_get_elem in H2. by apply (list_elem_of_fmap_2 snd) in H2.
Qed.

(** ** Examples *)

Definition reported : incident_op := OpCreate (Some "https://hook") 1000 "a" XSS_ATTEMPT HIGH "script" "1.2.3.4" None JNull.

(** An incident that is opened again keeps its resolution. *)
Example reopened_keeps_resolution :
  (λ i, (i_status i, resolvedAt i, resolution i)) <$>
    getIncident "inc-1000-a" (incident_run [reported; OpStatus 2000 "inc-1000-a" RESOLVED (Some "bob") (Some "fixed"); OpStatus 3000 "inc-1000-a" OPEN None None])
  = Some (OPEN, Some 2000, Some "fixed").
Proof. vm_compute. reflexivity. Qed.

Example stats_agree_witness :
  resolvedIncidents (getIncidentStats (Some (0, 5000)) (incident_run [reported; OpStatus 2000 "inc-1000-a" CLOSED None None])) = 1.
Proof.
  assert (nondecreasing [reported; OpStatus 2000 "inc-1000-a" CLOSED None None]) as Hs by (repeat constructor; done).
  pose proof (stats_agree _ (Some (0, 5000)) Hs) as (_ & _ & _ & _ & -> & _). vm_compute. reflexivity.
Defined.

Example query_spec_witness :
  let f := mkFilters None (Some HIGH) None None None None in
  StronglySorted (λ a b, createdAt b ≤ createdAt a) (getIncidents f (incident_run [reported])).
Proof. apply (query_spec [reported] (mkFilters None (Some HIGH) None None None None)). repeat constructor. Defined.
