(* ===== verification/RequestPipeline.v ===== *)
(** * The request pipeline of the web client

    [frontend/src/lib/requestMiddleware.ts]: middlewares around [fetch] that
    tag, authorise, retry, share and count requests, and
    [frontend/src/lib/apiMiddleware.ts]: how the client puts them together and
    refreshes the tokens; its requests are in [ApiClient.v].

    A middleware takes the rest of the chain as a computation.  The context it
    may change is part of the state, together with the clock, the maps of the
    module, the storage and the fetches made so far; the network is a sequence of
    outcomes, each with the time it takes.  Requests run one at a time here;
    [RequestOverlap.v] has those that overlap.  The name of a host, which the browser's [URL]
    computes, is a parameter.  Delays are rationals rounded down to
    milliseconds.  The browser event of an analytics record, the responses'
    headers and the interceptor of responses are left out. *)

From Stdlib Require Import Ascii QArith Qround Lqa.
From stdpp Require Import prelude gmap strings list pretty.
From S2P Require Import Prelude JsText Json.

#[local] Open Scope Z_scope.

(** [new URL(url).hostname], or nothing when the text is no address. *)
Class UrlHost := hostname : string → option string.

(** A response: its status and its body, when that is JSON. *)
Record Response := mkResponse { r_status : Z; r_body : option json }.

Definition r_ok (r : Response) : bool := bool_decide (200 ≤ r_status r < 300).

(** [RequestContext]; [startedAt] and [meta] are never read. *)
Record RequestContext := mkContext {
  c_url : string; c_method : option string; c_headers : jsmap string; c_correlationId : string; c_retries : Z; c_cached : bool }.

Record RequestAnalyticsEvent := mkEvent {
  e_correlationId : string; e_url : string; e_method : string; e_statusCode : Z; e_latencyMs : Z; e_retries : Z; e_cached : bool;
  e_success : bool; e_blocked : bool; e_timestamp : Z }.

Record CircuitState := mkCircuit { failures : Z; openedAt : option Z }.

(** What was sent: address, method and headers. *)
Record Sent := mkSent { s_url : string; s_method : option string; s_headers : jsmap string }.

(** The two stores of the browser. *)
Record Storage := mkStorage { local : jsmap string; session : jsmap string }.

(** Everything the chain reads and writes: the clock, the context, the maps of
    the module, the storage, how often the client reported a lost session, what was sent, and the outcomes of the fetches and
    the random numbers to come, with how many of them are used. *)
Record World := mkWorld {
  now : Z; ctx : RequestContext; circuits : jsmap CircuitState; events : list RequestAnalyticsEvent; inFlight : list string;
  counter : Z; storage : Storage; signedOut : nat; sent : list Sent;
  network : nat → Z * option Response; random : nat → Q; drawn : nat }.

Definition set_now (t : Z) (w : World) : World :=
  mkWorld t (ctx w) (circuits w) (events w) (inFlight w) (counter w) (storage w) (signedOut w) (sent w) (network w) (random w) (drawn w).
Definition set_ctx (c : RequestContext) (w : World) : World :=
  mkWorld (now w) c (circuits w) (events w) (inFlight w) (counter w) (storage w) (signedOut w) (sent w) (network w) (random w) (drawn w).
Definition set_circuit (host : string) (c : CircuitState) (w : World) : World :=
  mkWorld (now w) (ctx w) (map_set host c (circuits w)) (events w) (inFlight w) (counter w) (storage w) (signedOut w) (sent w) (network w) (random w) (drawn w).
Definition set_events (es : list RequestAnalyticsEvent) (w : World) : World :=
  mkWorld (now w) (ctx w) (circuits w) es (inFlight w) (counter w) (storage w) (signedOut w) (sent w) (network w) (random w) (drawn w).
Definition set_inFlight (l : list string) (w : World) : World :=
  mkWorld (now w) (ctx w) (circuits w) (events w) l (counter w) (storage w) (signedOut w) (sent w) (network w) (random w) (drawn w).
Definition set_counter (n : Z) (w : World) : World :=
  mkWorld (now w) (ctx w) (circuits w) (events w) (inFlight w) n (storage w) (signedOut w) (sent w) (network w) (random w) (drawn w).
Definition set_storage (m : Storage) (w : World) : World :=
  mkWorld (now w) (ctx w) (circuits w) (events w) (inFlight w) (counter w) m (signedOut w) (sent w) (network w) (random w) (drawn w).

Definition NetworkError : exn := JsError "Failed to fetch".

(** [fetch]: what is sent is noted, the outcome comes from the network. *)
Definition fetch (x : Sent) : M World Response := λ w,
  let '(took, outcome) := network w (length (sent w)) in
  let w := mkWorld (now w + took) (ctx w) (circuits w) (events w) (inFlight w) (counter w) (storage w) (signedOut w) (sent w ++ [x])
             (network w) (random w) (drawn w) in
  match outcome with Some r => (w, Ok r) | None => (w, Throw NetworkError) end.

(** [Math.random()] *)
Definition draw : M World Q := λ w,
  (mkWorld (now w) (ctx w) (circuits w) (events w) (inFlight w) (counter w) (storage w) (signedOut w) (sent w) (network w) (random w) (S (drawn w)),
   Ok (random w (drawn w))).

Definition wait (ms : Z) : M World unit := modify (λ w, set_now (now w + ms) w).

(** The outcome of a computation as a value: what [try] looks at. *)
Definition attempt {A} (m : M World A) : M World (result A) := λ w, let '(w', r) := m w in (w', Ok r).

Definition settle {A} (r : result A) : M World A := match r with Ok a => mret a | Throw e => throw e end.

Definition change_ctx (f : RequestContext → RequestContext) : M World unit := modify (λ w, set_ctx (f (ctx w)) w).

Definition set_header (k v : string) (c : RequestContext) : RequestContext :=
  mkContext (c_url c) (c_method c) (map_set k v (c_headers c)) (c_correlationId c) (c_retries c) (c_cached c).

Definition set_retries (n : Z) (c : RequestContext) : RequestContext :=
  mkContext (c_url c) (c_method c) (c_headers c) (c_correlationId c) n (c_cached c).

(** [(ctx.options.method ?? "GET").toUpperCase()] *)
Definition method_of (c : RequestContext) : string := uppercase (default "GET" (c_method c)).

Definition MAX_REQUEST_EVENTS : nat := 300.

Definition recordRequestEvent (e : RequestAnalyticsEvent) (w : World) : World :=
  set_events (take MAX_REQUEST_EVENTS (e :: events w)) w.

Definition clearRequestAnalyticsEvents (w : World) : World := set_events [] w.

(** [n.toString(36)] for a natural number; as many digits as bits are enough. *)
Fixpoint digits36 (fuel : nat) (n : Z) (rest : string) : string :=
  let d := Z.to_nat (n mod 36) in
  let c := ascii_of_nat (if bool_decide (d < 10)%nat then 48 + d else 87 + d) in
  match fuel with
  | O => String c rest
  | S fuel => if bool_decide (n / 36 = 0) then String c rest else digits36 fuel (n / 36) (String c rest)
  end.
Definition to36 (n : Z) : string := digits36 (Z.to_nat (Z.log2 n)) n "".

Definition MAX_SAFE_INTEGER : Z := 2 ^ 53 - 1.

Definition generateCorrelationId : M World string :=
  w ← get;
  let n := (counter w + 1) mod MAX_SAFE_INTEGER in
  _ ← put (set_counter n w);
  mret ("req-" +:+ to36 (now w) +:+ "-" +:+ to36 n).

Definition Middleware : Type := M World Response → M World Response.

Definition correlationIdMiddleware : Middleware := λ next,
  _ ← change_ctx (λ c, set_header "x-correlation-id" (c_correlationId c) (set_header "x-request-id" (c_correlationId c) c));
  next.

Definition createAuthMiddleware (getToken : World → option string) (authPaths : list string) : Middleware := λ next,
  w ← get;
  let isAuthPath := existsb (λ p, str_contains p (c_url (ctx w))) authPaths in
  _ ← (if isAuthPath then mret tt else
       match truthy_str (getToken w) with
       | Some token => change_ctx (set_header "authorization" ("Bearer " +:+ token))
       | None => mret tt
       end);
  next.

Record RetryMiddlewareOptions := mkRetry { maxAttempts : nat; baseDelayMs : Z; maxDelayMs : Z; jitter : Q; retryOn : list Z }.

(** The loop from attempt [attempt] on, with [remaining] attempts left. *)
Fixpoint retry_loop (o : RetryMiddlewareOptions) (remaining : nat) (attempt_ : Z) (lastResponse : option Response) (next : M World Response)
  : M World Response :=
  match remaining with
  | O => match lastResponse with
         | Some r => mret r
         | None => throw (JsError "RangeError: Failed to construct 'Response'")
         end
  | S remaining =>
      _ ← change_ctx (set_retries (attempt_ - 1));
      res ← attempt next;
      let again lastResponse :=
        let base := Z.min (baseDelayMs o * 2 ^ (attempt_ - 1)) (maxDelayMs o) in
        x ← draw;
        _ ← wait (Qfloor (inject_Z base + inject_Z base * jitter o * x));
        retry_loop o remaining (attempt_ + 1) lastResponse next in
      match res with
      | Ok resp =>
          if negb (bool_decide (r_status resp ∈ retryOn o)) || bool_decide (remaining = O) then mret resp else again (Some resp)
      | Throw err => if bool_decide (remaining = O) then throw err else again lastResponse
      end
  end.

Definition createRetryMiddleware (o : RetryMiddlewareOptions) : Middleware := λ next, retry_loop o (maxAttempts o) 1 None next.

(** A request that finds its key among those in flight would wait for the other
    request; one that runs alone never does ([execute_sends]). *)
Definition deduplicationMiddleware : Middleware := λ next,
  w ← get;
  if negb (bool_decide (method_of (ctx w) = "GET")) then next else
  let key := method_of (ctx w) +:+ ":" +:+ c_url (ctx w) in
  if bool_decide (key ∈ inFlight w) then throw (JsError "waits for another request") else
  _ ← put (set_inFlight (key :: inFlight w) w);
  res ← attempt next;
  _ ← modify (λ w, set_inFlight (filter (.≠ key) (inFlight w)) w);
  settle res.

Section hosts.
Context `{UrlHost}.

Definition getHost (url : string) : string := default url (hostname url).

Record CircuitBreakerOptions := mkBreaker { threshold : Z; openDurationMs : Z }.

Definition circuit_event (c : RequestContext) (t : Z) : RequestAnalyticsEvent :=
  mkEvent (c_correlationId c) (c_url c) (method_of c) 503 0 (c_retries c) false false true t.

Definition CIRCUIT_OPEN : Response := mkResponse 503 (Some (JObj [("error", JStr "Circuit open"); ("code", JStr "CIRCUIT_OPEN")])).

(** One more failure, which may open the circuit. *)
Definition failed (o : CircuitBreakerOptions) (t : Z) (st : CircuitState) : CircuitState :=
  mkCircuit (failures st + 1) (if bool_decide (threshold o ≤ failures st + 1) then Some t else openedAt st).

(** The request is let through and its outcome counted. *)
Definition through_circuit (o : CircuitBreakerOptions) (host : string) (st : CircuitState) (next : M World Response) : M World Response :=
  res ← attempt next;
  w ← get;
  let after := match res with
               | Ok resp => if r_ok resp || bool_decide (r_status resp < 500) then mkCircuit 0 (openedAt st) else failed o (now w) st
               | Throw _ => failed o (now w) st
               end in
  _ ← put (set_circuit host after w);
  settle res.

Definition createCircuitBreakerMiddleware (o : CircuitBreakerOptions) : Middleware := λ next,
  w ← get;
  let host := getHost (c_url (ctx w)) in
  let st := default (mkCircuit 0 None) (map_get host (circuits w)) in
  match openedAt st with
  | Some t =>
      if bool_decide (now w - t < openDurationMs o)
      then _ ← put (recordRequestEvent (circuit_event (ctx w) (now w)) w); mret CIRCUIT_OPEN
      else let st := mkCircuit (failures st) None in _ ← put (set_circuit host st w); through_circuit o host st next
  | None => through_circuit o host st next
  end.

Definition resetCircuits (w : World) : World :=
  mkWorld (now w) (ctx w) [] (events w) (inFlight w) (counter w) (storage w) (signedOut w) (sent w) (network w) (random w) (drawn w).

Definition getCircuitState (host : string) (w : World) : option CircuitState := map_get host (circuits w).

Definition analyticsMiddleware : Middleware := λ next,
  w0 ← get;
  res ← attempt next;
  _ ← modify (λ w,
    let c := ctx w in
    let code := match res with Ok r => r_status r | Throw _ => 0 end in
    let good := match res with Ok r => r_ok r | Throw _ => false end in
    recordRequestEvent (mkEvent (c_correlationId c) (c_url c) (method_of c) code (now w - now w0) (c_retries c) (c_cached c) good false (now w)) w);
  settle res.

(** [RequestInit]: method and headers; the body is passed through. *)
Record RequestInit := mkInit { i_method : option string; i_headers : jsmap string }.

Definition spread_headers (h : jsmap string) : jsmap string :=
  foldl (λ m kv, map_set kv.1 kv.2 m) [("content-type", "application/json")] h.

Definition new_context (url : string) (init : RequestInit) (cid : string) : RequestContext :=
  mkContext url (Some (default "GET" (i_method init))) (spread_headers (i_headers init)) cid 0 false.

(** [dispatch(0)] *)
Definition dispatch (middlewares : list Middleware) : M World Response :=
  foldr (λ mw next, mw next) (w ← get; fetch (mkSent (c_url (ctx w)) (c_method (ctx w)) (c_headers (ctx w)))) middlewares.

Definition execute (middlewares : list Middleware) (url : string) (init : RequestInit) : M World Response :=
  cid ← generateCorrelationId;
  _ ← modify (set_ctx (new_context url init cid));
  dispatch middlewares.

Definition http_error (status : Z) (body : option json) : exn :=
  HttpError status (match body with
    | Some (JObj l) => match map_get "message" l with Some (JStr s) => s | _ => "HTTP " +:+ pretty status end
    | _ => "HTTP " +:+ pretty status
    end).

(** The data, the status, the time it took and the retries. *)
Definition executeJson (middlewares : list Middleware) (url : string) (init : RequestInit) : M World (json * Z * Z * Z) :=
  w0 ← get;
  response ← execute middlewares url init;
  w ← get;
  if negb (r_ok response) then throw (http_error (r_status response) (r_body response)) else
  match r_body response with
  | Some data => mret (data, r_status response, now w - now w0, c_retries (ctx w))
  | None => throw (JsError "SyntaxError")
  end.

(** ** [apiMiddleware.ts] *)

Definition TOKEN_KEY : string := "auth_token".
Definition REFRESH_TOKEN_KEY : string := "auth_refresh_token".

Definition stored (k : string) (w : World) : option string :=
  match map_get k (local (storage w)) with Some v => Some v | None => map_get k (session (storage w)) end.

Definition getStoredToken (w : World) : option string := stored TOKEN_KEY w.
Definition getStoredRefreshToken (w : World) : option string := stored REFRESH_TOKEN_KEY w.

Definition updateStoredTokens (access refresh : string) (w : World) : World :=
  let put_both m := map_set REFRESH_TOKEN_KEY refresh (map_set TOKEN_KEY access m) in
  let st := storage w in
  match truthy_str (map_get TOKEN_KEY (local st)) with
  | Some _ => set_storage (mkStorage (put_both (local st)) (session st)) w
  | None => set_storage (mkStorage (local st) (put_both (session st))) w
  end.

(** The options of the client, defaults filled in. *)
Record ClientOptions := mkClient { baseURL : string; retry : RetryMiddlewareOptions; breaker : CircuitBreakerOptions }.

Definition default_client (base : string) : ClientOptions :=
  mkClient base (mkRetry 3 300 15000 (15 # 100) [429; 502; 503; 504]) (mkBreaker 5 30000).

(** [this.pipeline] *)
Definition pipeline (o : ClientOptions) : list Middleware :=
  [correlationIdMiddleware; createAuthMiddleware getStoredToken ["/auth/"]; createRetryMiddleware (retry o);
   deduplicationMiddleware; createCircuitBreakerMiddleware (breaker o); analyticsMiddleware].

(** A field of the answer as it is written to the storage. *)
Definition text_field (k : string) (data : json) : string :=
  match data with JObj l => match map_get k l with Some (JStr s) => s | _ => "undefined" end | _ => "undefined" end.

Definition refreshAccessToken (o : ClientOptions) : M World string :=
  w ← get;
  match truthy_str (getStoredRefreshToken w) with
  | None => throw (JsError "No refresh token available")
  | Some _ =>
      resp ← fetch (mkSent (baseURL o +:+ "/auth/refresh") (Some "POST") [("content-type", "application/json")]);
      if negb (r_ok resp) then throw (JsError "Refresh failed") else
      match r_body resp with
      | None => throw (JsError "SyntaxError")
      | Some data =>
          _ ← modify (updateStoredTokens (text_field "access_token" data) (text_field "refresh_token" data));
          mret (text_field "access_token" data)
      end
  end.

Definition SESSION_EXPIRED : exn := JsError "SESSION_EXPIRED".

(** [onAuthFailure] *)
Definition sign_out (w : World) : World :=
  mkWorld (now w) (ctx w) (circuits w) (events w) (inFlight w) (counter w) (storage w) (S (signedOut w)) (sent w) (network w) (random w) (drawn w).

Definition refresh_or_expire (o : ClientOptions) : M World unit :=
  res ← attempt (refreshAccessToken o);
  match res with Ok _ => mret tt | Throw _ => _ ← modify sign_out; throw SESSION_EXPIRED end.

(** ** What is sent *)

(** From one state to a later one behind the headers: the request is as it was,
    was sent at most [k] times, nothing is left in flight, and the records are
    bounded. *)
Record stays (k : nat) (w w' : World) : Prop := {
  st_url : c_url (ctx w') = c_url (ctx w);
  st_method : c_method (ctx w') = c_method (ctx w);
  st_headers : c_headers (ctx w') = c_headers (ctx w);
  st_flight : inFlight w' = inFlight w;
  st_storage : storage w' = storage w;
  st_signedOut : signedOut w' = signedOut w;
  st_events : (length (events w) ≤ MAX_REQUEST_EVENTS)%nat → (length (events w') ≤ MAX_REQUEST_EVENTS)%nat;
  st_sent : ∃ l, sent w' = sent w ++ l ∧ (length l ≤ k)%nat ∧
    Forall (.= mkSent (c_url (ctx w)) (c_method (ctx w)) (c_headers (ctx w))) l }.

Definition passes (k : nat) (m : M World Response) : Prop := ∀ w, stays k w (m w).1.

Lemma stays_trans k j w w1 w2 : stays k w w1 → stays j w1 w2 → stays (k + j) w w2.
Proof.
  intros [A1 A2 A3 A4 A5 A5' A6 (l & El & Hl & Fl)] [B1 B2 B3 B4 B5 B5' B6 (l' & El' & Hl' & Fl')]. split; try congruence; [auto|].
  exists (l ++ l'). rewrite El', El, <- app_assoc, length_app. split_and!; [done|lia|]. apply Forall_app. split; [done|].
  by rewrite A1, A2, A3 in Fl'.
Qed.

Lemma stays_mono k j w w' : stays k w w' → (k ≤ j)%nat → stays j w w'.
Proof. intros [? ? ? ? ? ? ? (l & ? & ? & ?)] Hle. split; try done. exists l. split_and!; [done|lia|done]. Qed.

(** Changes of anything but the request, the flight, the storage and the log. *)
Lemma stays_quiet w w' : c_url (ctx w') = c_url (ctx w) → c_method (ctx w') = c_method (ctx w) → c_headers (ctx w') = c_headers (ctx w) →
  inFlight w' = inFlight w → storage w' = storage w → signedOut w' = signedOut w → sent w' = sent w →
  ((length (events w) ≤ MAX_REQUEST_EVENTS)%nat → (length (events w') ≤ MAX_REQUEST_EVENTS)%nat) → stays 0 w w'.
Proof. intros. split; try done. exists []. rewrite app_nil_r. split_and!; [done|cbn; lia|constructor]. Qed.

Lemma stays_refl w : stays 0 w w.
Proof. by apply stays_quiet. Qed.

Lemma stays_record e w : stays 0 w (recordRequestEvent e w).
Proof. apply stays_quiet; try done. intros _. cbn [recordRequestEvent set_events events]. rewrite length_take. lia. Qed.

Lemma passes_fetch : passes 1 (w ← get; fetch (mkSent (c_url (ctx w)) (c_method (ctx w)) (c_headers (ctx w)))).
Proof.
  intros w. unfold fetch, get. cbv [mbind M_bind]. destruct (network w (length (sent w))) as [t [r|]]; cbn [fst];
    (split; try done; eexists; split_and!; [done|cbn; lia|by repeat constructor]).
Qed.

Lemma settle_run {A} (r : result A) w : (settle r w).1 = w.
Proof. by destruct r. Qed.

Lemma passes_retry_loop o n a last next k : passes k next → passes (n * k) (retry_loop o n a last next).
Proof.
  intros Hn. revert a last. induction n as [|n IH]; intros a last w.
  - cbn [retry_loop]. destruct last; apply stays_refl.
  - cbn [retry_loop]. unfold change_ctx, modify, attempt. cbv [mbind M_bind].
    set (w1 := set_ctx _ w). assert (stays 0 w w1) as H1 by (by apply stays_quiet).
    pose proof (stays_trans _ _ _ _ _ H1 (Hn w1)) as H2. destruct (next w1) as [w2 res]. cbn [fst] in H2.
    assert (stays (S n * k) w w2) as Hdone by (eapply stays_mono; [exact H2|lia]).
    assert (∀ last', stays (S n * k) w ((x ← draw;
      _ ← wait (Qfloor (inject_Z (Z.min (baseDelayMs o * 2 ^ (a - 1)) (maxDelayMs o)) +
        inject_Z (Z.min (baseDelayMs o * 2 ^ (a - 1)) (maxDelayMs o)) * jitter o * x));
      retry_loop o n (a + 1) last' next) w2).1) as Hagain.
    { intros last'. unfold draw, wait, modify. cbv [mbind M_bind]. set (w3 := set_now _ _).
      assert (stays 0 w2 w3) as H3 by (by apply stays_quiet).
      eapply stays_mono; [eapply stays_trans; [exact H2|eapply stays_trans; [exact H3|apply IH]]|lia]. }
    destruct res as [resp|err].
    + destruct (negb _ || _); [exact Hdone|apply Hagain].
    + destruct (bool_decide _); [exact Hdone|apply Hagain].
Qed.

Lemma passes_deduplication k next : passes k next → passes k (deduplicationMiddleware next).
Proof.
  intros Hn w. unfold deduplicationMiddleware, get. cbv [mbind M_bind].
  destruct (negb _); [apply Hn|]. set (key := _ +:+ _). destruct (bool_decide_reflect (key ∈ inFlight w)) as [Hin|Hout].
  { eapply stays_mono; [apply stays_refl|lia]. }
  unfold put, attempt, modify. cbv [mbind M_bind]. set (w1 := set_inFlight _ w).
  pose proof (Hn w1) as [A1 A2 A3 A4 A5 A5' A6 A7]. destruct (next w1) as [w2 res]. cbn [fst] in *. rewrite settle_run.
  split; try done. cbn [set_inFlight inFlight]. rewrite A4. cbn [w1 set_inFlight inFlight].
  rewrite filter_cons, decide_False by naive_solver. clear -Hout. induction (inFlight w) as [|x l IH]; [done|].
  apply not_elem_of_cons in Hout as [H1 H2]. rewrite filter_cons, decide_True by congruence. f_equal. by apply IH.
Qed.

Lemma passes_analytics k next : passes k next → passes k (analyticsMiddleware next).
Proof.
  intros Hn w. unfold analyticsMiddleware, get, attempt, modify. cbv [mbind M_bind]. pose proof (Hn w) as H2.
  destruct (next w) as [w2 res]. rewrite settle_run. cbn [fst] in *.
  eapply stays_mono; [eapply stays_trans; [exact H2|apply stays_record]|lia].
Qed.

Lemma passes_through o host st k next : passes k next → passes k (through_circuit o host st next).
Proof.
  intros Hn w. unfold through_circuit, attempt, put, get. cbv [mbind M_bind]. pose proof (Hn w) as H2. destruct (next w) as [w2 res].
  rewrite settle_run. cbn [fst] in *. eapply stays_mono; [eapply stays_trans; [exact H2|by apply stays_quiet]|lia].
Qed.

Lemma passes_circuit o k next : passes k next → passes k (createCircuitBreakerMiddleware o next).
Proof.
  intros Hn w. unfold createCircuitBreakerMiddleware, get, put. cbv [mbind M_bind].
  set (host := getHost _). set (st := default _ _). destruct (openedAt st) as [t|]; [|by apply passes_through].
  destruct (bool_decide _).
  - eapply stays_mono; [apply stays_record|lia].
  - eapply stays_mono; [eapply stays_trans; [|by apply passes_through]; by apply stays_quiet|lia].
Qed.

Lemma passes_chain o : passes (maxAttempts (retry o))
  (createRetryMiddleware (retry o) (deduplicationMiddleware (createCircuitBreakerMiddleware (breaker o) (analyticsMiddleware
    (w ← get; fetch (mkSent (c_url (ctx w)) (c_method (ctx w)) (c_headers (ctx w)))))))).
Proof.
  rewrite <- (Nat.mul_1_r (maxAttempts (retry o))). apply passes_retry_loop, passes_deduplication, passes_circuit, passes_analytics, passes_fetch.
Qed.

(** The headers of a request that is made in state [w]. *)
Definition request_headers (url : string) (init : RequestInit) (cid : string) (w : World) : jsmap string :=
  let h := map_set "x-correlation-id" cid (map_set "x-request-id" cid (spread_headers (i_headers init))) in
  if str_contains "/auth/" url then h else
  match truthy_str (getStoredToken w) with Some token => map_set "authorization" ("Bearer " +:+ token) h | None => h end.

(** The first two middlewares put these headers and do nothing else. *)
Lemma headers_run next w : let c := ctx w in
  correlationIdMiddleware (createAuthMiddleware getStoredToken ["/auth/"] next) w =
  next (set_ctx (mkContext (c_url c) (c_method c)
    (let h := map_set "x-correlation-id" (c_correlationId c) (map_set "x-request-id" (c_correlationId c) (c_headers c)) in
     if str_contains "/auth/" (c_url c) then h else
     match truthy_str (getStoredToken w) with Some token => map_set "authorization" ("Bearer " +:+ token) h | None => h end)
    (c_correlationId c) (c_retries c) (c_cached c)) w).
Proof.
  cbv zeta. unfold correlationIdMiddleware, createAuthMiddleware, change_ctx, modify, get. cbv [mbind M_bind mret M_ret].
  cbn [existsb]. rewrite orb_false_r. cbn [set_ctx ctx c_url set_header].
  destruct (str_contains "/auth/" (c_url (ctx w))); [done|].
  change (getStoredToken (set_ctx _ w)) with (getStoredToken w). by destruct (truthy_str (getStoredToken w)).
Qed.

(** The error without any attempt. *)
Definition NO_ATTEMPT : exn := JsError "RangeError: Failed to construct 'Response'".

(** The error of a request that would wait for another. *)
Definition WAITS : exn := JsError "waits for another request".

Definition never_waits (m : M World Response) : Prop := ∀ w, (m w).2 ≠ Throw WAITS.
Definition waits_for_none (m : M World Response) : Prop := ∀ w, inFlight w = [] → (m w).2 ≠ Throw WAITS.

Lemma settle_waits (res : result Response) w : (settle res w).2 = res.
Proof. by destruct res. Qed.

Lemma fetch_never_waits : never_waits (w ← get; fetch (mkSent (c_url (ctx w)) (c_method (ctx w)) (c_headers (ctx w)))).
Proof. intros w. unfold fetch, get. cbv [mbind M_bind]. by destruct (network w (length (sent w))) as [t [r|]]. Qed.

Lemma analytics_never_waits next : never_waits next → never_waits (analyticsMiddleware next).
Proof.
  intros Hn w. unfold analyticsMiddleware, get, attempt, modify. cbv [mbind M_bind]. pose proof (Hn w) as Hw.
  destruct (next w) as [w2 res]. by rewrite settle_waits.
Qed.

Lemma circuit_never_waits o next : never_waits next → never_waits (createCircuitBreakerMiddleware o next).
Proof.
  intros Hn w. assert (∀ host st w, (through_circuit o host st next w).2 ≠ Throw WAITS) as Ht.
  { intros host st w1. unfold through_circuit, attempt, get, put. cbv [mbind M_bind]. pose proof (Hn w1) as Hw.
    destruct (next w1) as [w2 res]. by rewrite settle_waits. }
  unfold createCircuitBreakerMiddleware, get, put. cbv [mbind M_bind]. destruct (openedAt _); [|apply Ht].
  destruct (bool_decide _); [done|apply Ht].
Qed.

Lemma deduplication_waits next : never_waits next → waits_for_none (deduplicationMiddleware next).
Proof.
  intros Hn w Hf. unfold deduplicationMiddleware, get. cbv [mbind M_bind]. destruct (negb _); [apply Hn|].
  rewrite Hf, bool_decide_false by apply not_elem_of_nil. unfold put, attempt, modify. cbv [mbind M_bind].
  set (w1 := set_inFlight _ w). pose proof (Hn w1) as Hw. destruct (next w1) as [w2 res]. by rewrite settle_waits.
Qed.

Lemma retry_waits o n a last next k : passes k next → waits_for_none next → waits_for_none (retry_loop o n a last next).
Proof.
  intros Hp Hn. revert a last. induction n as [|n IH]; intros a last w Hf.
  - cbn [retry_loop]. by destruct last.
  - cbn [retry_loop]. unfold change_ctx, modify, attempt. cbv [mbind M_bind]. set (w1 := set_ctx _ w).
    pose proof (st_flight _ _ _ (Hp w1)) as Hfl. pose proof (Hn w1 Hf) as Hw. destruct (next w1) as [w2 res]. cbn [fst snd] in *.
    assert (inFlight w2 = []) as Hf2 by (rewrite Hfl; exact Hf). destruct res as [resp|err].
    + destruct (negb _ || _); [done|]. unfold draw, wait, modify. cbv [mbind M_bind]. by apply IH.
    + destruct (bool_decide _); [exact Hw|]. unfold draw, wait, modify. cbv [mbind M_bind]. by apply IH.
Qed.

(** Every answer was given by the network to something that was sent meanwhile, or is
    the refusal of an open circuit. *)
Definition heard (w w' : World) (res : result Response) : Prop :=
  match res with
  | Ok r => r = CIRCUIT_OPEN ∨ ∃ n t, (length (sent w) ≤ n < length (sent w'))%nat ∧ network w n = (t, Some r)
  | Throw e => e = NetworkError ∨ e = WAITS ∨ e = NO_ATTEMPT
  end.

Definition hears (m : M World Response) : Prop := ∀ w,
  network (m w).1 = network w ∧ (length (sent w) ≤ length (sent (m w).1))%nat ∧ heard w (m w).1 (m w).2.

Lemma heard_mono w0 w w1 w2 res : network w = network w0 → (length (sent w0) ≤ length (sent w))%nat → (length (sent w1) ≤ length (sent w2))%nat →
  heard w w1 res → heard w0 w2 res.
Proof.
  intros En H0 H2. destruct res as [r|e]; [|done]. intros [->|(n & t & Hn & E)]; [by left|right]. exists n, t. rewrite <- En. split; [lia|done].
Qed.

Lemma fetch_hears : hears (w ← get; fetch (mkSent (c_url (ctx w)) (c_method (ctx w)) (c_headers (ctx w)))).
Proof.
  intros w. unfold fetch, get. cbv [mbind M_bind]. destruct (network w (length (sent w))) as [t [r|]] eqn:E; cbn; rewrite length_app; cbn;
    (split_and!; [done|lia|]); [right|by left]. exists (length (sent w)), t. split; [lia|done].
Qed.

Lemma analytics_hears next : hears next → hears (analyticsMiddleware next).
Proof.
  intros Hn w. unfold analyticsMiddleware, get, attempt, modify. cbv [mbind M_bind]. pose proof (Hn w) as Hw.
  destruct (next w) as [w2 res]. rewrite settle_waits, settle_run. exact Hw.
Qed.

Lemma circuit_hears o next : hears next → hears (createCircuitBreakerMiddleware o next).
Proof.
  intros Hn. assert (∀ host st, hears (through_circuit o host st next)) as Ht.
  { intros host st w. unfold through_circuit, attempt, get, put. cbv [mbind M_bind]. pose proof (Hn w) as Hw.
    destruct (next w) as [w2 res]. rewrite settle_waits, settle_run. exact Hw. }
  intros w. unfold createCircuitBreakerMiddleware, get, put. cbv [mbind M_bind]. destruct (openedAt _); [|apply Ht].
  destruct (bool_decide _); [cbn; split_and!; [done|lia|by left]|]. set (w1 := set_circuit _ _ w). apply (Ht _ _ w1).
Qed.

Lemma deduplication_hears next : hears next → hears (deduplicationMiddleware next).
Proof.
  intros Hn w. unfold deduplicationMiddleware, get. cbv [mbind M_bind]. destruct (negb _); [apply Hn|].
  destruct (bool_decide _); [cbn; split_and!; [done|lia|by right; left]|]. unfold put, attempt, modify. cbv [mbind M_bind].
  set (w1 := set_inFlight _ w). pose proof (Hn w1) as Hw. destruct (next w1) as [w2 res]. rewrite settle_waits, settle_run. exact Hw.
Qed.

Lemma retry_hears o n a last next w0 w : hears next → network w = network w0 → (length (sent w0) ≤ length (sent w))%nat →
  (∀ r, last = Some r → heard w0 w (Ok r)) →
  let '(w', res) := retry_loop o n a last next w in network w' = network w0 ∧ (length (sent w) ≤ length (sent w'))%nat ∧ heard w0 w' res.
Proof.
  intros Hn. revert a last w. induction n as [|n IH]; intros a last w En Hs Hl.
  - cbn [retry_loop]. destruct last as [r|]; cbn; (split_and!; [done|lia|]); [by apply Hl|by right; right].
  - cbn [retry_loop]. unfold change_ctx, modify, attempt. cbv [mbind M_bind]. set (w1 := set_ctx _ w).
    destruct (Hn w1) as (E1 & L1 & H1). destruct (next w1) as [w2 res]. cbn [fst snd] in *.
    assert (network w2 = network w0) as E2 by (etrans; [exact E1|exact En]). change (length (sent w1)) with (length (sent w)) in L1.
    assert (heard w0 w2 res) as H2 by (by apply (heard_mono w0 w1 w2 w2); [|cbn; lia|lia|]).
    assert (∀ last', (∀ r, last' = Some r → heard w0 w2 (Ok r)) →
      let '(w', res) := (x ← draw;
      _ ← wait (Qfloor (inject_Z (Z.min (baseDelayMs o * 2 ^ (a - 1)) (maxDelayMs o)) +
        inject_Z (Z.min (baseDelayMs o * 2 ^ (a - 1)) (maxDelayMs o)) * jitter o * x));
      retry_loop o n (a + 1) last' next) w2 in network w' = network w0 ∧ (length (sent w) ≤ length (sent w'))%nat ∧ heard w0 w' res) as Hagain.
    { intros last' Hl'. unfold draw, wait, modify. cbv [mbind M_bind]. set (w3 := set_now _ _).
      specialize (IH (a + 1) last' w3 E2 ltac:(cbn; lia) Hl'). destruct (retry_loop _ _ _ _ _ _) as [w' res']. cbn [w3 set_now sent] in IH.
      destruct IH as (? & ? & ?). split_and!; [done|lia|done]. }
    destruct res as [resp|err].
    + destruct (negb _ || _); [split_and!; [done|lia|done]|]. apply Hagain. by intros r [= <-].
    + destruct (bool_decide _); [split_and!; [done|lia|done]|]. apply Hagain. intros r Hr. apply (heard_mono w0 w0 w w2); [done|lia|lia|by apply Hl].
Qed.

Lemma execute_hears o url init : hears (execute (pipeline o) url init).
Proof.
  intros w. unfold execute, generateCorrelationId, modify, get, put. cbv [mbind M_bind mret M_ret].
  set (cid := _ +:+ _). set (w1 := set_ctx _ _). unfold dispatch, pipeline. cbn [foldr]. rewrite headers_run. cbv zeta. set (w2 := set_ctx _ w1).
  pose proof (retry_hears (retry o) (maxAttempts (retry o)) 1 None _ w2 w2
    (deduplication_hears _ (circuit_hears (breaker o) _ (analytics_hears _ fetch_hears))) eq_refl ltac:(lia) ltac:(done)) as Hr.
  unfold createRetryMiddleware. destruct (retry_loop _ _ _ _ _ w2) as [w' res]. exact Hr.
Qed.

(** One request of the client: it is sent at most as often as the retries
    allow, each time with the same address, method and headers, among them the
    correlation id and the token in storage; it never finds another request to
    wait for, and leaves the storage and the map of requests in flight as they
    were and the analytics bounded. *)
Theorem execute_sends o url init w : inFlight w = [] → (length (events w) ≤ MAX_REQUEST_EVENTS)%nat →
  let '(w', res) := execute (pipeline o) url init w in
  ∃ cid l, sent w' = sent w ++ l ∧ (length l ≤ maxAttempts (retry o))%nat ∧
    Forall (.= mkSent url (Some (default "GET" (i_method init))) (request_headers url init cid w)) l ∧
    inFlight w' = [] ∧ storage w' = storage w ∧ signedOut w' = signedOut w ∧ (length (events w') ≤ MAX_REQUEST_EVENTS)%nat ∧
    res ≠ Throw (JsError "waits for another request").
Proof.
  intros Hf He. unfold execute, generateCorrelationId, modify, get, put. cbv [mbind M_bind mret M_ret].
  set (cid := _ +:+ _). set (w1 := set_ctx _ _). unfold dispatch, pipeline. cbn [foldr]. rewrite headers_run. cbv zeta. set (w2 := set_ctx _ w1).
  pose proof (passes_chain o w2) as [A1 A2 A3 A4 A5 A5' A6 (l & El & Hl & Fl)].
  pose proof (retry_waits (retry o) (maxAttempts (retry o)) 1 None _ 1
    (passes_deduplication _ _ (passes_circuit (breaker o) _ _ (passes_analytics _ _ passes_fetch)))
    (deduplication_waits _ (circuit_never_waits (breaker o) _ (analytics_never_waits _ fetch_never_waits))) w2 Hf) as Hw.
  change (retry_loop (retry o) (maxAttempts (retry o)) 1 None) with (createRetryMiddleware (retry o)) in Hw.
  destruct (createRetryMiddleware _ _ w2) as [w' res]. cbn [fst snd] in *.
  exists cid, l. split_and!; [exact El|done|exact Fl|by rewrite A4|by rewrite A5|by rewrite A5'|by apply A6|exact Hw].
Qed.

(** ** The circuit breaker *)

(** What is behind the breaker in the client. *)
Definition guarded_fetch : M World Response :=
  analyticsMiddleware (w ← get; fetch (mkSent (c_url (ctx w)) (c_method (ctx w)) (c_headers (ctx w)))).

Definition is_failure (res : result Response) : bool :=
  match res with Ok r => negb (r_ok r || bool_decide (r_status r < 500)) | Throw _ => true end.

Lemma guarded_fetch_frame w : let w' := (guarded_fetch w).1 in
  circuits w' = circuits w ∧ c_url (ctx w') = c_url (ctx w) ∧ length (sent w') = S (length (sent w)).
Proof.
  unfold guarded_fetch, analyticsMiddleware, fetch, get, attempt, modify. cbv [mbind M_bind].
  destruct (network w (length (sent w))) as [t [r|]]; rewrite settle_run; cbn [fst]; split_and!; try done; cbn; rewrite length_app; cbn; lia.
Qed.

(** The outcomes of the requests a host has answered, latest first: when each
    ended and whether it failed. *)
Fixpoint consecutive (hist : list (Z * bool)) : Z := match hist with (_, true) :: hist => consecutive hist + 1 | _ => 0 end.

(** The contract: a request is refused exactly when the last [threshold]
    outcomes were failures, the latest less than [openDurationMs] ago. *)
Definition refuses (o : CircuitBreakerOptions) (t : Z) (hist : list (Z * bool)) : bool :=
  match hist with
  | (t0, _) :: _ => bool_decide (threshold o ≤ consecutive hist) && bool_decide (t - t0 < openDurationMs o)
  | [] => false
  end.

Definition circuit_of (host : string) (w : World) : CircuitState := default (mkCircuit 0 None) (map_get host (circuits w)).

Definition tracks (o : CircuitBreakerOptions) (hist : list (Z * bool)) (st : CircuitState) : Prop :=
  failures st = consecutive hist ∧
  openedAt st = match hist with (t, _) :: _ => if bool_decide (threshold o ≤ consecutive hist) then Some t else None | [] => None end.

Lemma consecutive_nonneg hist : 0 ≤ consecutive hist.
Proof. induction hist as [|[t []] hist IH]; cbn [consecutive]; lia. Qed.

Lemma tracks_outcome o hist st t res : 0 < threshold o → failures st = consecutive hist →
  openedAt st = None → tracks o ((t, is_failure res) :: hist)
    (match res with
     | Ok resp => if r_ok resp || bool_decide (r_status resp < 500) then mkCircuit 0 (openedAt st) else failed o t st
     | Throw _ => failed o t st
     end).
Proof.
  intros Ht Hf Ho. assert (tracks o ((t, true) :: hist) (failed o t st)) as Hfail.
  { split; cbn [failed failures consecutive openedAt]; [lia|]. rewrite Hf, Ho. done. }
  destruct res as [r|e]; cbn [is_failure]; [|exact Hfail].
  destruct (r_ok r || bool_decide (r_status r < 500)); cbn [negb]; [|exact Hfail].
  split; cbn [failures openedAt consecutive]; [done|]. by rewrite bool_decide_false by lia.
Qed.

(** One request: refused, or answered and added to the outcomes. *)
Lemma circuit_request o hist w : 0 < threshold o → tracks o hist (circuit_of (getHost (c_url (ctx w))) w) →
  let '(w', res) := createCircuitBreakerMiddleware o guarded_fetch w in
  c_url (ctx w') = c_url (ctx w) ∧
  if refuses o (now w) hist
  then res = Ok CIRCUIT_OPEN ∧ sent w' = sent w ∧ circuits w' = circuits w
  else length (sent w') = S (length (sent w)) ∧ tracks o ((now w', is_failure res) :: hist) (circuit_of (getHost (c_url (ctx w))) w') ∧
       ∀ h, h ≠ getHost (c_url (ctx w)) → circuit_of h w' = circuit_of h w.
Proof.
  intros Ht. set (host := getHost (c_url (ctx w))). intros [Hf Ho].
  assert (∀ st w1, failures st = consecutive hist → openedAt st = None → ctx w1 = ctx w → sent w1 = sent w →
    (∀ h, h ≠ host → circuit_of h w1 = circuit_of h w) →
    let '(w', res) := through_circuit o host st guarded_fetch w1 in
    c_url (ctx w') = c_url (ctx w) ∧ length (sent w') = S (length (sent w)) ∧
    tracks o ((now w', is_failure res) :: hist) (circuit_of host w') ∧ ∀ h, h ≠ host → circuit_of h w' = circuit_of h w) as Hthrough.
  { intros st w1 E1 E2 E3 E4 E5. unfold through_circuit, attempt, get, put. cbv [mbind M_bind].
    destruct (guarded_fetch_frame w1) as (G1 & G2 & G3). destruct (guarded_fetch w1) as [w2 res]. cbn [fst] in *.
    destruct (settle res _) as [w' res'] eqn:Es. pose proof (settle_run res (set_circuit host
      (match res with Ok resp => if r_ok resp || bool_decide (r_status resp < 500) then mkCircuit 0 (openedAt st) else failed o (now w2) st
       | Throw _ => failed o (now w2) st end) w2)) as Hr. pose proof (settle_waits res (set_circuit host
      (match res with Ok resp => if r_ok resp || bool_decide (r_status resp < 500) then mkCircuit 0 (openedAt st) else failed o (now w2) st
       | Throw _ => failed o (now w2) st end) w2)) as Hr2. rewrite Es in Hr, Hr2. cbn [fst snd] in Hr, Hr2. subst w' res'.
    cbn [set_circuit ctx sent now]. split_and!; [congruence|congruence| |].
    - unfold circuit_of. cbn [set_circuit circuits]. rewrite map_get_set_eq. by apply tracks_outcome.
    - intros h Hh. rewrite <- (E5 h Hh). unfold circuit_of. cbn [set_circuit circuits]. by rewrite map_get_set_ne, G1. }
  unfold createCircuitBreakerMiddleware, get, put. cbv [mbind M_bind]. fold host. fold (circuit_of host w). rewrite Ho.
  unfold refuses. destruct hist as [|[t0 b0] hist0] eqn:Eh; rewrite <- Eh in *.
  - specialize (Hthrough (circuit_of host w) w). subst hist. destruct (through_circuit _ _ _ _ w) as [w' res]. by apply Hthrough.
  - destruct (bool_decide_reflect (threshold o ≤ consecutive hist)) as [Hle|Hgt]; cbn [andb].
    + destruct (bool_decide (now w - t0 < openDurationMs o)); [done|].
      specialize (Hthrough (mkCircuit (failures (circuit_of host w)) None) (set_circuit host (mkCircuit (failures (circuit_of host w)) None) w)).
      destruct (through_circuit _ _ _ _ _) as [w' res]. apply Hthrough; try done.
      intros h Hh. unfold circuit_of. cbn [set_circuit circuits]. by rewrite map_get_set_ne.
    + specialize (Hthrough (circuit_of host w) w). destruct (through_circuit _ _ _ _ w) as [w' res]. by apply Hthrough.
Qed.

(** A pause and a request to the same address; the outcomes so far are kept
    along with the state. *)
Definition circuit_visit (o : CircuitBreakerOptions) (x : World * list (Z * bool)) (pause : Z) : World * list (Z * bool) :=
  let '(w, hist) := x in
  let w := set_now (now w + pause) w in
  let '(w', res) := createCircuitBreakerMiddleware o guarded_fetch w in
  (w', if refuses o (now w) hist then hist else (now w', is_failure res) :: hist).

Lemma circuit_visits_track o host pauses w hist : 0 < threshold o → getHost (c_url (ctx w)) = host → tracks o hist (circuit_of host w) →
  let '(w', hist') := foldl (circuit_visit o) (w, hist) pauses in getHost (c_url (ctx w')) = host ∧ tracks o hist' (circuit_of host w').
Proof.
  intros Ht. revert w hist. induction pauses as [|p pauses IH]; intros w hist Eu Htr; [done|]. cbn [foldl circuit_visit].
  pose proof (circuit_request o hist (set_now (now w + p) w) Ht) as Hreq. cbn [set_now ctx] in Hreq. rewrite Eu in Hreq. specialize (Hreq Htr).
  destruct (createCircuitBreakerMiddleware o guarded_fetch (set_now (now w + p) w)) as [w' res]. destruct Hreq as [Eu' Hreq].
  apply IH; [by rewrite Eu'|]. destruct (refuses o (now (set_now (now w + p) w)) hist).
  - destruct Hreq as (_ & _ & Hc). unfold circuit_of in *. by rewrite Hc.
  - by destruct Hreq as (_ & Hreq & _).
Qed.

(** C29: the circuit of a host keeps its contract over any sequence of requests
    and pauses: a request is refused with the synthetic 503, and nothing sent,
    exactly when the last [threshold] answers were failures and the latest came
    less than [openDurationMs] ago; otherwise it is sent once. *)
Theorem circuit_contract o url pauses w0 pause : 0 < threshold o → c_url (ctx w0) = url → map_get (getHost url) (circuits w0) = None →
  let '(w1, hist) := foldl (circuit_visit o) (w0, []) pauses in
  let w := set_now (now w1 + pause) w1 in
  let '(w', res) := createCircuitBreakerMiddleware o guarded_fetch w in
  if refuses o (now w) hist then res = Ok CIRCUIT_OPEN ∧ sent w' = sent w else length (sent w') = S (length (sent w)).
Proof.
  intros Ht Eu Hno. pose proof (circuit_visits_track o (getHost url) pauses w0 [] Ht) as Hv. rewrite Eu in Hv.
  specialize (Hv eq_refl). destruct (foldl _ _ _) as [w1 hist]. destruct Hv as [Eh Htr].
  { unfold circuit_of. by rewrite Hno. }
  pose proof (circuit_request o hist (set_now (now w1 + pause) w1) Ht) as Hreq. cbn [set_now ctx] in Hreq. rewrite Eh in Hreq.
  specialize (Hreq Htr). cbv zeta. destruct (createCircuitBreakerMiddleware _ _ _) as [w' res]. destruct Hreq as [_ Hreq].
  destruct (refuses _ _ hist); by destruct_and? Hreq.
Qed.

(** ** Requests of the client *)

(** The request for new tokens. *)
Definition refresh_sent (o : ClientOptions) : Sent := mkSent (baseURL o +:+ "/auth/refresh") (Some "POST") [("content-type", "application/json")].

(** A refresh sends one request if there is a refresh token: either the tokens of a
    successful answer are stored, or the session is reported lost, once, and the
    tokens stay. *)
Lemma refresh_or_expire_spec o w : let '(w', res) := refresh_or_expire o w in
  inFlight w' = inFlight w ∧ events w' = events w ∧ network w' = network w ∧
  (res = Throw SESSION_EXPIRED ∧ signedOut w' = S (signedOut w) ∧ storage w' = storage w ∧
     sent w' = sent w ++ (match truthy_str (getStoredRefreshToken w) with Some _ => [refresh_sent o] | None => [] end) ∨
   res = Ok tt ∧ signedOut w' = signedOut w ∧ is_Some (truthy_str (getStoredRefreshToken w)) ∧ sent w' = sent w ++ [refresh_sent o] ∧
     ∃ t r data, network w (length (sent w)) = (t, Some r) ∧ r_ok r = true ∧ r_body r = Some data ∧
       storage w' = storage (updateStoredTokens (text_field "access_token" data) (text_field "refresh_token" data) w)).
Proof.
  unfold refresh_or_expire, attempt, refreshAccessToken, get, fetch, modify. cbv [mbind M_bind].
  destruct (truthy_str (getStoredRefreshToken w)) eqn:Et; [|split_and!; try done; left; by rewrite app_nil_r].
  destruct (network w (length (sent w))) as [t [r|]] eqn:En; [|split_and!; try done; by left].
  destruct (r_ok r) eqn:Eo; cbn [negb]; [|split_and!; try done; by left].
  destruct (r_body r) as [data|] eqn:Eb; [|split_and!; try done; by left]. unfold updateStoredTokens. cbn [storage].
  assert (∃ t r0 data0, (t, Some r) = (t, Some r0) ∧ r_ok r0 = true ∧ r_body r0 = Some data0 ∧ data0 = data) as Hd by (exists t, r, data; done).
  destruct (truthy_str (map_get TOKEN_KEY _)) eqn:El; cbn; (split_and!; [done|done|done|right]; split_and!; [done|done|by eexists|done|]);
    exists t, r, data; split_and!; done.
Qed.

(** What a run of the chain depends on from request to request. *)
Definition same_rest (w w' : World) : Prop :=
  inFlight w' = inFlight w ∧ storage w' = storage w ∧ network w' = network w ∧ length (sent w') = S (length (sent w)).

Lemma guarded_fetch_answers w t r : network w (length (sent w)) = (t, Some r) →
  ∃ w', guarded_fetch w = (w', Ok r) ∧ same_rest w w' ∧ circuits w' = circuits w.
Proof.
  intros Hn. unfold guarded_fetch, analyticsMiddleware, fetch, get, attempt, modify. cbv [mbind M_bind]. rewrite Hn.
  eexists. split; [reflexivity|]. split; [|done]. split_and!; try done. cbn. rewrite length_app. cbn. lia.
Qed.

(** While the circuit is closed and no other request is under way, an answer
    below 500 that is not retried is returned after one fetch and leaves the
    circuit closed. *)
Lemma execute_answers o url init w t r : inFlight w = [] → openedAt (circuit_of (getHost url) w) = None → (0 < maxAttempts (retry o))%nat →
  network w (length (sent w)) = (t, Some r) → r_status r < 500 → r_status r ∉ retryOn (retry o) →
  ∃ w', execute (pipeline o) url init w = (w', Ok r) ∧ same_rest w w' ∧ openedAt (circuit_of (getHost url) w') = None.
Proof.
  intros Hf Ho Hmax Hn Hr Hno. unfold execute, generateCorrelationId, modify, get, put. cbv [mbind M_bind mret M_ret].
  set (cid := _ +:+ _). set (w1 := set_ctx _ _). unfold dispatch, pipeline. cbn [foldr]. rewrite headers_run. cbv zeta. set (w2 := set_ctx _ w1).
  unfold createRetryMiddleware. destruct (maxAttempts (retry o)) as [|n]; [lia|]. cbn [retry_loop]. fold guarded_fetch.
  unfold change_ctx, modify, attempt at 1. cbv [mbind M_bind]. set (w3 := set_ctx _ w2).
  assert (∀ w4, circuits w4 = circuits w → sent w4 = sent w → network w4 = network w → ctx w4 = ctx w3 →
    ∃ w5, createCircuitBreakerMiddleware (breaker o) guarded_fetch w4 = (w5, Ok r) ∧ same_rest w4 w5 ∧ openedAt (circuit_of (getHost url) w5) = None) as Hcirc.
  { intros w4 Hc Hs Hnet Hctx. unfold createCircuitBreakerMiddleware, get. cbv [mbind M_bind].
    assert (c_url (ctx w4) = url) as -> by (by rewrite Hctx). fold (circuit_of (getHost url) w4).
    assert (circuit_of (getHost url) w4 = circuit_of (getHost url) w) as -> by (unfold circuit_of; by rewrite Hc). rewrite Ho.
    unfold through_circuit, attempt, get, put. cbv [mbind M_bind].
    destruct (guarded_fetch_answers w4 t r) as (w5 & -> & Hsr & _); [by rewrite Hs, Hnet|].
    rewrite (bool_decide_true (r_status r < 500)), orb_true_r by done. eexists. split; [reflexivity|]. split; [exact Hsr|].
    unfold circuit_of. cbn [set_circuit circuits]. by rewrite map_get_set_eq. }
  assert (∃ w5, deduplicationMiddleware (createCircuitBreakerMiddleware (breaker o) guarded_fetch) w3 = (w5, Ok r) ∧ same_rest w3 w5 ∧
    openedAt (circuit_of (getHost url) w5) = None) as (w5 & E5 & Hsr & Hop).
  { unfold deduplicationMiddleware, get. cbv [mbind M_bind]. destruct (negb _); [by apply Hcirc|].
    set (key := _ +:+ _). assert (inFlight w3 = []) as Hf3 by exact Hf. rewrite Hf3, bool_decide_false by apply not_elem_of_nil.
    unfold put, attempt, modify. cbv [mbind M_bind].
    destruct (Hcirc (set_inFlight [key] w3)) as (w5 & -> & (S1 & S2 & S3 & S4) & Hop); try done.
    eexists. split; [reflexivity|]. split; [|exact Hop]. split_and!; try done.
    cbn [set_inFlight inFlight] in *. rewrite S1, Hf3. rewrite filter_cons, decide_False by naive_solver. done. }
  rewrite E5. rewrite (bool_decide_false (r_status r ∈ retryOn (retry o))) by done. cbn [negb orb]. exists w5. by split_and!.
Qed.

(** A refresh that succeeds leaves a refresh token behind. *)
Lemma refresh_again o w t data : is_Some (truthy_str (getStoredRefreshToken w)) → text_field "refresh_token" data ≠ "" →
  network w (length (sent w)) = (t, Some (mkResponse 200 (Some data))) →
  ∃ w', refresh_or_expire o w = (w', Ok tt) ∧ inFlight w' = inFlight w ∧ circuits w' = circuits w ∧ network w' = network w ∧
    length (sent w') = S (length (sent w)) ∧ is_Some (truthy_str (getStoredRefreshToken w')).
Proof.
  intros [tok Htok] Hd Hn. unfold refresh_or_expire, attempt, refreshAccessToken, get, fetch, modify. cbv [mbind M_bind]. rewrite Htok, Hn.
  cbv [mret M_ret]. change (r_ok (mkResponse 200 (Some data))) with true. cbn [negb r_body].
  eexists. split; [reflexivity|].
  assert (∀ s : string, s ≠ "" → is_Some (truthy_str (Some s))) as Hsome.
  { intros x Hx. unfold truthy_str. by rewrite bool_decide_false. }
  unfold updateStoredTokens. cbv zeta. cbn [storage].
  destruct (truthy_str (map_get TOKEN_KEY (local (storage w)))) as [x|].
  - split_and!; try done; [cbn; rewrite length_app; cbn; lia|].
    unfold getStoredRefreshToken, stored. cbn [set_storage storage local]. rewrite map_get_set_eq. by apply Hsome.
  - split_and!; try done; [cbn; rewrite length_app; cbn; lia|].
    unfold getStoredRefreshToken, stored in *. cbn [set_storage storage local session].
    destruct (map_get REFRESH_TOKEN_KEY (local (storage w))) as [v|]; [by rewrite Htok|]. rewrite map_get_set_eq. by apply Hsome.
Qed.

End hosts.

(** ** Runs *)

#[local] Instance same_host : UrlHost := λ u, Some (split_head "/"%char u).

Definition idle (net : nat → Z * option Response) (st : Storage) : World :=
  mkWorld 0 (mkContext "" None [] "" 0 false) [] [] [] 0 st 0 [] net (λ _, 0%Q) 0.

Definition signed_in : Storage := mkStorage [("auth_token", "t"); ("auth_refresh_token", "r")] [].

(** A server that is down: two requests open the circuit, at the second attempt
    of the second one.  The third request is not sent, yet its refusal counts as a
    status to retry: it waits 900 milliseconds and records three refusals. *)
Definition three_requests : World * result Response :=
  let ask := execute (pipeline (default_client "api")) "api/x" (mkInit None []) in
  (_ ← attempt ask; _ ← attempt ask; ask) (idle (λ _, (10, None)) signed_in).

Example refusal_is_retried :
  let ask := execute (pipeline (default_client "api")) "api/x" (mkInit None []) in
  let w2 := ((_ ← attempt ask; attempt ask) (idle (λ _, (10, None)) signed_in)).1 in
  let w3 := three_requests.1 in
  length (sent w2) = 5%nat ∧ length (sent w3) = 5%nat ∧ now w3 - now w2 = 900 ∧
  length (List.filter e_blocked (events w3)) = 4%nat.
Proof. vm_compute. split_and!; reflexivity. Qed.

(** The analytics are registered last and so are innermost: they record one event
    per attempt, without the waits between them. *)
Example analytics_per_attempt :
  let '(w, _) := execute (pipeline (default_client "api")) "api/x" (mkInit None []) (idle (λ _, (10, Some (mkResponse 503 None))) signed_in) in
  now w = 930 ∧ e_latencyMs <$> events w = [10; 10; 10].
Proof. vm_compute. split; reflexivity. Qed.

Example circuit_contract_witness :
  let '(w1, hist) := foldl (circuit_visit (mkBreaker 2 30000)) (idle (λ _, (10, None)) signed_in, []) [0; 5; 5] in
  let w := set_now (now w1 + 100) w1 in
  let '(w', res) := createCircuitBreakerMiddleware (mkBreaker 2 30000) guarded_fetch w in
  if refuses (mkBreaker 2 30000) (now w) hist then res = Ok CIRCUIT_OPEN ∧ sent w' = sent w else length (sent w') = S (length (sent w)).
Proof. apply (circuit_contract (mkBreaker 2 30000) "" [0; 5; 5] (idle (λ _, (10, None)) signed_in) 100); done. Defined.
