(* ===== verification/RequestOverlap.v ===== *)
(** * Requests that overlap

    Two middlewares of [frontend/src/lib/requestMiddleware.ts] share state between
    requests that are under way at the same time: [deduplicationMiddleware] the
    promise of a fetch, the circuit breaker the state object of a host.  Each is
    a transition system with a step for every point at which a request waits.
    The state objects of the breaker live in a heap, because a request keeps the
    object it has read, or made, until its response arrives. *)

From stdpp Require Import prelude gmap strings list.
From S2P Require Import Prelude RequestPipeline.

#[local] Open Scope Z_scope.

(** ** Shared fetches *)

Section shared.
Context {R : Type}.

(** A fetch: its key and its outcome, once it has one. *)
Record Fetch := mkFetch { f_key : string; f_outcome : option R }.

(** A caller: its key, the fetch it waits for, whether it has joined another
    caller's fetch ([ctx.cached]), and what it got. *)
Record Caller := mkCaller { c_key : string; c_fetch : nat; c_joined : bool; c_got : option R }.

(** [_inFlight], the fetches and the callers so far. *)
Record Shared := mkShared { in_flight : jsmap nat; fetches : list Fetch; callers : list Caller }.

Definition nothing_shared : Shared := mkShared [] [] [].

(** A GET request arrives. *)
Definition arrive (key : string) (s : Shared) : Shared :=
  match map_get key (in_flight s) with
  | Some f => mkShared (in_flight s) (fetches s) (callers s ++ [mkCaller key f true None])
  | None =>
      let f := length (fetches s) in
      mkShared (map_set key f (in_flight s)) (fetches s ++ [mkFetch key None]) (callers s ++ [mkCaller key f false None])
  end.

(** A fetch ends, with a response or an error: its key is free again and all its
    callers get the outcome. *)
Definition fetch_ends (f : nat) (res : R) (s : Shared) : Shared :=
  match fetches s !! f with
  | Some (mkFetch key None) =>
      mkShared (map_delete key (in_flight s)) (<[f := mkFetch key (Some res)]> (fetches s))
        ((λ c, if bool_decide (c_fetch c = f) then mkCaller (c_key c) f (c_joined c) (Some res) else c) <$> callers s)
  | _ => s
  end.

Inductive shared_event := Arrive (key : string) | Ends (f : nat) (res : R).

Definition shared_step (s : Shared) (e : shared_event) : Shared :=
  match e with Arrive key => arrive key s | Ends f res => fetch_ends f res s end.

Definition shared_run (es : list shared_event) : Shared := foldl shared_step nothing_shared es.

Record shared_inv (s : Shared) : Prop := {
  si_flight : ∀ key f, map_get key (in_flight s) = Some f ↔ fetches s !! f = Some (mkFetch key None);
  si_callers : ∀ c, c ∈ callers s → ∃ x, fetches s !! c_fetch c = Some x ∧ f_key x = c_key c ∧ c_got c = f_outcome x;
  si_own : c_fetch <$> List.filter (λ c, negb (c_joined c)) (callers s) = seq 0 (length (fetches s)) }.

Lemma shared_inv_arrive key s : shared_inv s → shared_inv (arrive key s).
Proof.
  intros [H1 H2 H3]. unfold arrive. destruct (map_get key (in_flight s)) as [f|] eqn:E.
  - split; cbn [in_flight fetches callers]; [done| |].
    + intros c [Hc| ->]%elem_of_snoc; [by apply H2|]. exists (mkFetch key None). split; [by apply H1|done].
    + rewrite List.filter_app, fmap_app, H3. cbn. by rewrite app_nil_r.
  - assert (∀ f x, fetches s !! f = Some x → (f < length (fetches s))%nat) as Hlt by (intros; by eapply lookup_lt_Some).
    split; cbn [in_flight fetches callers].
    + intros k f. rewrite map_get_set. destruct (bool_decide_reflect (k = key)) as [->|Hne].
      * split.
        -- intros [= <-]. by apply list_lookup_middle.
        -- intros [Hf|[Hge Hf]]%lookup_app_Some; [apply H1 in Hf; congruence|].
           apply list_lookup_singleton_Some in Hf as [Hz _]. f_equal. lia.
      * rewrite H1. split.
        -- intros Hf. by apply lookup_app_l_Some.
        -- intros [Hf|[_ Hf]]%lookup_app_Some; [done|]. apply list_lookup_singleton_Some in Hf as [_ Hf]. congruence.
    + intros c [Hc| ->]%elem_of_snoc.
      * destruct (H2 c Hc) as (x & Hx & Hr). exists x. split; [by apply lookup_app_l_Some|done].
      * exists (mkFetch key None). split; [by apply list_lookup_middle|done].
    + rewrite List.filter_app, fmap_app, H3, length_app. cbn. by rewrite Nat.add_1_r, seq_S.
Qed.

Lemma shared_inv_ends f res s : shared_inv s → shared_inv (fetch_ends f res s).
Proof.
  intros H. unfold fetch_ends. destruct (fetches s !! f) as [[key [r|]]|] eqn:E; try done. destruct H as [H1 H2 H3].
  pose proof (lookup_lt_Some _ _ _ E) as Hlt. split; cbn [in_flight fetches callers].
  - intros k g. rewrite map_get_delete. destruct (decide (g = f)) as [->|Hg].
    + rewrite list_lookup_insert_eq by done. split; [|done]. case_bool_decide; [done|]. intros Hk%H1. congruence.
    + rewrite list_lookup_insert_ne by done. rewrite <- H1. case_bool_decide as Ek; [|done]. subst k. split; [done|].
      intros Hk. apply H1 in E. congruence.
  - intros c' (c & -> & Hc)%list_elem_of_fmap. destruct (H2 c Hc) as (x & Hx & Hk & Hg).
    destruct (bool_decide_reflect (c_fetch c = f)) as [Ef|Ef]; cbn [c_fetch c_key c_got].
    + exists (mkFetch key (Some res)). rewrite list_lookup_insert_eq by done. split_and!; try done. rewrite Ef, E in Hx. by simplify_eq.
    + exists x. by rewrite list_lookup_insert_ne by done.
  - rewrite length_insert, <- H3. clear. induction (callers s) as [|c l IH]; [done|]. rewrite fmap_cons. cbn [List.filter].
    assert (c_joined (if bool_decide (c_fetch c = f) then mkCaller (c_key c) f (c_joined c) (Some res) else c) = c_joined c) as -> by (by case_bool_decide).
    destruct (negb (c_joined c)); [|exact IH]. rewrite !fmap_cons, IH. f_equal. by case_bool_decide.
Qed.

Lemma shared_inv_run es : shared_inv (shared_run es).
Proof.
  unfold shared_run. assert (shared_inv nothing_shared) as H0.
  { split; cbn; [done|intros c []%elem_of_nil|done]. }
  revert H0. generalize nothing_shared. induction es as [|e es IH]; intros s H0; [done|]. cbn [foldl]. apply IH.
  destruct e; [by apply shared_inv_arrive|by apply shared_inv_ends].
Qed.

(** However GET requests overlap: no two pending fetches have the same key,
    every caller waits for, or got the outcome of, a fetch with its own key, and
    there are exactly as many fetches as callers that did not join one. *)
Theorem fetches_shared es :
  let s := shared_run es in
  (∀ f g key, fetches s !! f = Some (mkFetch key None) → fetches s !! g = Some (mkFetch key None) → f = g) ∧
  (∀ c, c ∈ callers s → ∃ x, fetches s !! c_fetch c = Some x ∧ f_key x = c_key c ∧ c_got c = f_outcome x) ∧
  length (fetches s) = length (List.filter (λ c, negb (c_joined c)) (callers s)).
Proof.
  cbv zeta. destruct (shared_inv_run es) as [H1 H2 H3]. split_and!.
  - intros f g key Hf%H1 Hg%H1. congruence.
  - exact H2.
  - apply (f_equal length) in H3. by rewrite length_fmap, length_seq in H3.
Qed.
End shared.

(** ** Shared circuits *)

(** A request: its host, the state object it holds, and how far it is. *)
Inductive Progress := Fetching | Refused | Ended.

Record Request := mkRequest { q_host : string; q_state : nat; q_progress : Progress }.

(** The objects, the map of the module and the requests so far. *)
Record Circuits := mkCircuits { objects : list CircuitState; by_host : jsmap nat; requests : list Request }.

Definition no_circuits : Circuits := mkCircuits [] [] [].

(** Up to [next()]: the object of the host, or a new one that is not in the map
    yet, is tested; a half-open circuit is closed. *)
Definition enter (o : CircuitBreakerOptions) (host : string) (now : Z) (s : Circuits) : Circuits :=
  let '(objs, n) := match map_get host (by_host s) with
                    | Some n => (objects s, n)
                    | None => (objects s ++ [mkCircuit 0 None], length (objects s))
                    end in
  match openedAt (default (mkCircuit 0 None) (objs !! n)) with
  | Some t =>
      if bool_decide (now - t < openDurationMs o)
      then mkCircuits objs (by_host s) (requests s ++ [mkRequest host n Refused])
      else mkCircuits (alter (λ st, mkCircuit (failures st) None) n objs) (map_set host n (by_host s)) (requests s ++ [mkRequest host n Fetching])
  | None => mkCircuits objs (by_host s) (requests s ++ [mkRequest host n Fetching])
  end.

(** The response of the [i]-th request, or its error. *)
Definition leave (o : CircuitBreakerOptions) (i : nat) (failure : bool) (now : Z) (s : Circuits) : Circuits :=
  match requests s !! i with
  | Some (mkRequest host n Fetching) =>
      mkCircuits (alter (λ st, if failure then failed o now st else mkCircuit 0 (openedAt st)) n (objects s))
        (map_set host n (by_host s)) (<[i := mkRequest host n Ended]> (requests s))
  | _ => s
  end.

Definition circuit_state (host : string) (s : Circuits) : option CircuitState := n ← map_get host (by_host s); objects s !! n.

Inductive circuit_event := Enter (host : string) (now : Z) | Leave (i : nat) (failure : bool) (now : Z).

Definition circuits_run (o : CircuitBreakerOptions) (es : list circuit_event) : Circuits :=
  foldl (λ s e, match e with Enter h t => enter o h t s | Leave i b t => leave o i b t s end) no_circuits es.

(** The map only ever points to objects. *)
Definition heap_ok (s : Circuits) : Prop :=
  (∀ h n, map_get h (by_host s) = Some n → (n < length (objects s))%nat) ∧
  ∀ r, r ∈ requests s → (q_state r < length (objects s))%nat.

Lemma heap_ok_enter o h t s : heap_ok s → heap_ok (enter o h t s).
Proof.
  intros [H1 H2]. unfold enter.
  assert (∃ objs n, (match map_get h (by_host s) with Some n => (objects s, n) | None => (objects s ++ [mkCircuit 0 None], length (objects s)) end)
    = (objs, n) ∧ (length (objects s) ≤ length objs)%nat ∧ (n < length objs)%nat) as (objs & n & -> & Hle & Hn).
  { destruct (map_get h (by_host s)) as [n|] eqn:E; [exists (objects s), n; split_and!; [done|lia|by eapply H1]|].
    eexists _, _. split_and!; [done|..]; rewrite length_app; cbn; lia. }
  assert (∀ p (objs' : list CircuitState), length objs' = length objs → ∀ r, r ∈ requests s ++ [mkRequest h n p] → (q_state r < length objs')%nat) as Hreq.
  { intros p objs' El r [Hr| ->]%elem_of_snoc; [apply H2 in Hr; lia|cbn; lia]. }
  destruct (openedAt _) as [t0|]; [destruct (bool_decide _)|]; split; cbn [objects by_host requests];
    try (by apply Hreq); try (apply Hreq; by rewrite length_alter).
  - intros h' n' Hn'%H1. lia.
  - intros h' n'. rewrite map_get_set, length_alter. case_bool_decide; [intros [= <-]; lia|intros Hn'%H1; lia].
  - intros h' n' Hn'%H1. lia.
Qed.

Lemma heap_ok_leave o i b t s : heap_ok s → heap_ok (leave o i b t s).
Proof.
  intros [H1 H2]. unfold leave. destruct (requests s !! i) as [[h n p]|] eqn:E; [|done]. destruct p; try done.
  assert (n < length (objects s))%nat as Hn by (apply (H2 (mkRequest h n Fetching)); by eapply list_elem_of_lookup_2).
  split; cbn [objects by_host requests]; rewrite length_alter.
  - intros h' n'. rewrite map_get_set. case_bool_decide; [by intros [= <-]|apply H1].
  - intros r [j Hj]%list_elem_of_lookup. destruct (decide (i = j)) as [<-|Hne].
    + rewrite list_lookup_insert_eq in Hj by (by eapply lookup_lt_Some). by injection Hj as <-.
    + rewrite list_lookup_insert_ne in Hj by done. apply H2. by eapply list_elem_of_lookup_2.
Qed.

Lemma heap_ok_run o es : heap_ok (circuits_run o es).
Proof.
  unfold circuits_run. assert (heap_ok no_circuits) as H0 by (split; [done|intros r []%elem_of_nil]).
  revert H0. generalize no_circuits. induction es as [|e es IH]; intros s H0; [done|]. cbn [foldl]. apply IH.
  destruct e; [by apply heap_ok_enter|by apply heap_ok_leave].
Qed.

(** However requests overlap, a request is refused exactly when the map
    says that the circuit of its host was opened less than [openDurationMs] ago,
    and then it changes no circuit; otherwise it is sent. *)
Theorem refused_iff_open o es host now :
  let s := circuits_run o es in let s' := enter o host now s in
  ∃ n p, requests s' = requests s ++ [mkRequest host n p] ∧
    (p = Refused ∧ (∀ h, circuit_state h s' = circuit_state h s) ↔
     ∃ st t, circuit_state host s = Some st ∧ openedAt st = Some t ∧ now - t < openDurationMs o) ∧
    (p = Refused ∨ p = Fetching).
Proof.
  cbv zeta. destruct (heap_ok_run o es) as [H1 _]. set (s := circuits_run o es) in *. unfold enter, circuit_state.
  destruct (map_get host (by_host s)) as [n|] eqn:Eh.
  - destruct (lookup_lt_is_Some_2 (objects s) n (H1 _ _ Eh)) as [st Est]. rewrite Est. cbn [from_option id].
    destruct (openedAt st) as [t|] eqn:Eo.
    + destruct (bool_decide_reflect (now - t < openDurationMs o)) as [Hlt|Hge].
      * exists n, Refused. split_and!; [done| |by left]. split; [|done]. intros _. exists st, t. cbn. by rewrite Est.
      * exists n, Fetching. split_and!; [done| |by right]. split; [by intros [? _]|]. intros (st' & t' & Hs & Ht & Hlt).
        cbn in Hs. rewrite Est in Hs. simplify_eq. lia.
    + exists n, Fetching. split_and!; [done| |by right]. split; [by intros [? _]|]. intros (st' & t' & Hs & Ht & _).
      cbn in Hs. rewrite Est in Hs. congruence.
  - rewrite list_lookup_middle by done. cbn [from_option id openedAt]. exists (length (objects s)), Fetching.
    split_and!; [done| |by right]. split; [by intros [? _]|]. by intros (st' & t' & Hs & _).
Qed.

(** ** Runs *)

Definition breaker5 : CircuitBreakerOptions := mkBreaker 5 30000.

Definition all_at_once (n : nat) (t : Z) : list circuit_event := (λ _, Enter "api" t) <$> seq 0 n.
Definition all_fail (n : nat) (t : Z) : list circuit_event := (λ i, Leave i true t) <$> seq 0 n.

(** Five requests to a new host that overlap and fail count as one failure: each
    holds an object of its own. *)
Example overlapping_failures_lost :
  circuit_state "api" (circuits_run breaker5 (all_at_once 5 0 ++ all_fail 5 10)) = Some (mkCircuit 1 None).
Proof. vm_compute. reflexivity. Qed.

(** One after the other they open the circuit. *)
Example failures_in_turn :
  circuit_state "api" (circuits_run breaker5 (concat ((λ i, [Enter "api" 0; Leave i true 10]) <$> seq 0 5))) = Some (mkCircuit 5 (Some 10)).
Proof. vm_compute. reflexivity. Qed.

(** A half-open circuit is meant to let one request through; it lets all through
    that come before the first has ended. *)
Example half_open_lets_all_through :
  q_progress <$> drop 5 (requests (circuits_run breaker5 (concat ((λ i, [Enter "api" 0; Leave i true 10]) <$> seq 0 5) ++
    [Enter "api" 20; Enter "api" 30010; Enter "api" 30011; Enter "api" 30012]))) = [Refused; Fetching; Fetching; Fetching].
Proof. vm_compute. reflexivity. Qed.

(** A success of a request that was sent before resets nothing but the count: the
    circuit stays open with no failures. *)
Example late_success_keeps_open :
  circuit_state "api" (circuits_run (mkBreaker 1 30000) [Enter "api" 0; Leave 0 false 1; Enter "api" 2; Enter "api" 3; Leave 1 true 4; Leave 2 false 5])
  = Some (mkCircuit 0 (Some 4)).
Proof. vm_compute. reflexivity. Qed.
