(* ===== verification/Search.v ===== *)
(** * Search: [server/src/services/search.service.ts]

    The two backends behind the service of searches: the store of documents in
    memory, and the client of an Elasticsearch cluster, whose [fetch] is a
    parameter.  [SearchBackend] is the source's [ISearchBackend]; the service is
    written, and its log of queries proved, against that interface.

    Strings are compared through the lower case of ASCII.  The highlighter
    builds a regular expression from the query itself: a query without
    characters of the pattern syntax is matched here letter by letter, for the
    others the replacement is the parameter [other_pattern].  Instants are
    arguments. *)

From Stdlib Require Import Ascii QArith.
From stdpp Require Import prelude gmap strings list pretty sorting.
From S2P Require Import Prelude JsText Json.

#[local] Open Scope Z_scope.

(** ** Data *)

Inductive SearchableEntity := E_user | E_tournament | E_match | E_achievement.

#[export] Instance SearchableEntity_eq_dec : EqDecision SearchableEntity.
Proof. solve_decision. Defined.

Definition entity_name (e : SearchableEntity) : string :=
  match e with E_user => "user" | E_tournament => "tournament" | E_match => "match" | E_achievement => "achievement" end.

Definition entity_of (s : string) : option SearchableEntity :=
  List.find (λ e, bool_decide (entity_name e = s)) [E_user; E_tournament; E_match; E_achievement].

#[export] Program Instance SearchableEntity_countable : Countable SearchableEntity := inj_countable entity_name entity_of _.
Next Obligation. by intros []. Qed.

Record SearchDocument := mkDoc {
  d_id : string; d_entity : SearchableEntity; d_title : string; d_description : option string; d_tags : option (list string);
  d_metadata : option json; d_indexedAt : Z }.

Record SearchFilter := mkSearchFilter {
  sf_entity : option (list SearchableEntity); sf_tags : option (list string); sf_metadata : option json }.

Record SearchOptions := mkOptions {
  o_query : string; o_filters : option SearchFilter; o_page : option Z; o_pageSize : option Z; o_highlight : option bool }.

Record SearchHit := mkHit {
  h_id : string; h_entity : SearchableEntity; h_title : string; h_description : option string; h_tags : option (list string);
  h_metadata : option json; h_score : Q; h_highlights : option (jsmap (list string)) }.

Record SearchResult := mkResult {
  hits : list SearchHit; total : Z; page : Z; pageSize : Z; took : Z; query : string }.

Record AutocompleteResult := mkAutocomplete { suggestions : list string; a_query : string }.

Record SearchAnalytics := mkAnalytics {
  totalQueries : Z; topQueries : list (string * Z); averageResultCount : Q; zeroResultQueries : list string }.

(** [ISearchBackend]; [search] is given the instants at which it starts and
    ends. *)
Class SearchBackend (B : Type) := {
  be_index : SearchDocument → M B unit;
  be_bulkIndex : list SearchDocument → M B unit;
  be_delete : string → SearchableEntity → M B unit;
  be_search : Z * Z → SearchOptions → M B SearchResult;
  be_autocomplete : string → option SearchableEntity → M B AutocompleteResult;
  be_isAvailable : B → bool }.

(** ** The backend in memory *)

Notation Store := (jsmap SearchDocument).

Definition store_key (e : SearchableEntity) (i : string) : string := entity_name e +:+ ":" +:+ i.

Definition doc_key (d : SearchDocument) : string := store_key (d_entity d) (d_id d).

Definition index_doc (d : SearchDocument) (s : Store) : Store := map_set (doc_key d) d s.

Definition mem_index (d : SearchDocument) : M Store unit := modify (index_doc d).

Definition mem_bulkIndex (docs : list SearchDocument) : M Store unit := for_each (λ d, modify (index_doc d)) docs.

Definition mem_delete (i : string) (e : SearchableEntity) : M Store unit := modify (map_delete (store_key e i)).

(** [x && x.length > 0] of an optional array *)
Definition given {A} (l : option (list A)) : option (list A) := match l with Some (x :: l') => Some (x :: l') | _ => None end.

Definition entity_filter (f : option SearchFilter) (d : SearchDocument) : bool :=
  match given (f ≫= sf_entity) with Some allowed => bool_decide (d_entity d ∈ allowed) | None => true end.

Definition tag_filter (f : option SearchFilter) (d : SearchDocument) : bool :=
  match given (f ≫= sf_tags) with
  | Some required => match d_tags d with Some tags => existsb (λ t, bool_decide (t ∈ required)) tags | None => false end
  | None => true
  end.

Definition in_title (needle : string) (d : SearchDocument) : bool := str_contains needle (lowercase (d_title d)).

Definition in_description (needle : string) (d : SearchDocument) : bool :=
  match d_description d with Some t => str_contains needle (lowercase t) | None => false end.

Definition in_tags (needle : string) (d : SearchDocument) : bool :=
  match d_tags d with Some tags => existsb (λ t, str_contains needle (lowercase t)) tags | None => false end.

Definition score_of (needle : string) (d : SearchDocument) : Z :=
  (if in_title needle d then 3 else 0) + (if in_description needle d then 1 else 0) + (if in_tags needle d then 2 else 0).

(** The documents of the answer with their scores, best first. *)
Definition ranked (opts : SearchOptions) (s : Store) : list (SearchDocument * Z) :=
  let needle := lowercase (o_query opts) in
  let docs := List.filter (entity_filter (o_filters opts)) (map_values s) in
  let docs := List.filter (tag_filter (o_filters opts)) docs in
  let scored := List.filter (λ ds, bool_decide (0 < ds.2)) ((λ d, (d, score_of needle d)) <$> docs) in
  js_sort (λ a b, b.2 - a.2) scored.

(** *** Highlights *)

(** [s.slice(n)] *)
Fixpoint str_drop (n : nat) (s : string) : string :=
  match n, s with S n', String _ s' => str_drop n' s' | _, _ => s end.

(** The characters that are syntax in a pattern. *)
Definition pattern_char (c : ascii) : bool := bool_decide (c ∈ String.list_ascii_of_string "\^$.*+?()[]{}|").

Definition literal (needle : string) : bool := all_chars (λ c, negb (pattern_char c)) needle.

(** The matches of a literal pattern in a text, from the left, and the
    characters between them; the number is at least the length of the text. *)
Fixpoint pieces (fuel : nat) (needle s : string) : list (bool * string) :=
  match fuel, s with
  | S fuel', String c s' =>
      if String.prefix needle (lowercase s)
      then (true, str_take (String.length needle) s) :: pieces fuel' needle (str_drop (String.length needle) s)
      else (false, String c "") :: pieces fuel' needle s'
  | _, _ => []
  end.

Definition render (p : bool * string) : string := if p.1 then "<em>" +:+ p.2 +:+ "</em>" else p.2.

Definition concat_str (l : list string) : string := foldr String.append "" l.

Section memory.
Context (other_pattern : string → string → result string).

(** [text.replace(new RegExp(`(${needle})`, 'gi'), '<em>$1</em>')] *)
Definition wrap (needle text : string) : result string :=
  if literal needle then Ok (concat_str (render <$> pieces (String.length text) needle text)) else other_pattern needle text.

Definition highlights_of (needle : string) (d : SearchDocument) : result (jsmap (list string)) :=
  t ← (if in_title needle d then w ← wrap needle (d_title d); mret [("title", [w])] else mret []);
  e ← (match d_description d with
       | Some text => if str_contains needle (lowercase text) then w ← wrap needle text; mret [("description", [w])] else mret []
       | None => mret []
       end);
  mret (t ++ e).

Definition to_hit (highlight : bool) (needle : string) (ds : SearchDocument * Z) : result SearchHit :=
  let '(d, score) := ds in
  hl ← (if highlight && negb (bool_decide (needle = "")) then h ← highlights_of needle d; mret (Some h) else mret None);
  mret (mkHit (d_id d) (d_entity d) (d_title d) (d_description d) (d_tags d) (d_metadata d) (inject_Z score) hl).

Definition mem_search (at_ : Z * Z) (opts : SearchOptions) : M Store SearchResult := λ s,
  let page := default 1 (o_page opts) in
  let pageSize := default 20 (o_pageSize opts) in
  let highlight := default false (o_highlight opts) in
  let needle := lowercase (o_query opts) in
  let scored := ranked opts s in
  let start := (page - 1) * pageSize in
  match mapM (to_hit highlight needle) (js_slice start (start + pageSize) scored) with
  | Ok hits => (s, Ok (mkResult hits (Z.of_nat (length scored)) page pageSize (at_.2 - at_.1) (o_query opts)))
  | Throw e => (s, Throw e)
  end.

(** The loop over the store, with its [break] at ten suggestions. *)
Fixpoint suggest (needle : string) (entity : option SearchableEntity) (docs : list SearchDocument) (acc : list string) : list string :=
  match docs with
  | [] => acc
  | d :: docs' =>
      if match entity with Some e => bool_decide (d_entity d ≠ e) | None => false end then suggest needle entity docs' acc
      else if String.prefix needle (lowercase (d_title d)) && negb (bool_decide (d_title d ∈ acc))
      then let acc := acc ++ [d_title d] in
           if bool_decide (10 ≤ length acc)%nat then acc else suggest needle entity docs' acc
      else suggest needle entity docs' acc
  end.

Definition mem_autocomplete (prefix : string) (entity : option SearchableEntity) : M Store AutocompleteResult :=
  gets (λ s, mkAutocomplete (suggest (lowercase prefix) entity (map_values s) []) prefix).

#[export] Instance in_memory : SearchBackend Store := {|
  be_index := mem_index; be_bulkIndex := mem_bulkIndex; be_delete := mem_delete; be_search := mem_search;
  be_autocomplete := mem_autocomplete; be_isAvailable := λ _, true |}.
End memory.

(** ** The backend of an Elasticsearch cluster *)

(** A request of [fetch]; the body is the list of the values whose texts are
    its lines. *)
Record Request := mkRequest { r_method : string; r_url : string; r_contentType : option string; r_body : list json }.

Record EsHit := mkEsHit { es_id : string; es_score : Q; es_source : SearchDocument; es_highlight : option (jsmap (list string)) }.

Record EsBody := mkEsBody { es_total : Z; es_hits : list EsHit; es_took : Z }.

Record Response := mkResponse { res_ok : bool; res_status : Z; res_json : EsBody }.

Record Elastic (W : Type) := mkElastic { baseUrl : string; available : bool; network : W }.
Arguments mkElastic {W}.
Arguments baseUrl {W}.
Arguments available {W}.
Arguments network {W}.

(** [url.replace(/\/$/, '')] *)
Fixpoint strip_slash (s : string) : string :=
  match s with
  | String c "" => if bool_decide (c = "/"%char) then "" else s
  | String c s' => String c (strip_slash s')
  | "" => ""
  end.

Definition opt_field (k : string) (v : option json) : list (string * json) := match v with Some j => [(k, j)] | None => [] end.

Definition doc_json (d : SearchDocument) : json :=
  JObj ([("id", JStr (d_id d)); ("entity", JStr (entity_name (d_entity d))); ("title", JStr (d_title d))] ++
        opt_field "description" (JStr <$> d_description d) ++ opt_field "tags" ((λ l, JArr (JStr <$> l)) <$> d_tags d) ++
        opt_field "metadata" (d_metadata d) ++ [("indexedAt", JNum (pretty (d_indexedAt d)))]).

Definition esId (e : SearchableEntity) (i : string) : string := entity_name e +:+ "_" +:+ i.

Definition search_query (opts : SearchOptions) : json :=
  let page := default 1 (o_page opts) in
  let pageSize := default 20 (o_pageSize opts) in
  let must := JArr [JObj [("multi_match", JObj [("query", JStr (o_query opts));
    ("fields", JArr [JStr "title^3"; JStr "description"; JStr "tags^2"]); ("fuzziness", JStr "AUTO")])]] in
  let filters :=
    match given (o_filters opts ≫= sf_entity) with
    | Some es => [JObj [("terms", JObj [("entity", JArr (JStr ∘ entity_name <$> es))])]] | None => [] end ++
    match given (o_filters opts ≫= sf_tags) with
    | Some ts => [JObj [("terms", JObj [("tags", JArr (JStr <$> ts))])]] | None => [] end in
  JObj ([("from", JNum (pretty ((page - 1) * pageSize))); ("size", JNum (pretty pageSize));
         ("query", JObj [("bool", JObj [("must", must); ("filter", JArr filters)])])] ++
        (if default false (o_highlight opts)
         then [("highlight", JObj [("fields", JObj [("title", JObj []); ("description", JObj [])]);
                                   ("pre_tags", JArr [JStr "<em>"]); ("post_tags", JArr [JStr "</em>"])])]
         else [])).

Definition autocomplete_query (prefix : string) (entity : option SearchableEntity) : json :=
  JObj [("size", JNum "10"); ("_source", JArr [JStr "title"]);
        ("query", JObj [("bool", JObj
           (("must", JArr [JObj [("prefix", JObj [("title", JObj [("value", JStr prefix)])])]]) ::
            match entity with
            | Some e => [("filter", JArr [JObj [("term", JObj [("entity", JStr (entity_name e))])]])] | None => [] end))])].

Definition es_to_hit (highlight : bool) (h : EsHit) : SearchHit :=
  let d := es_source h in
  mkHit (d_id d) (d_entity d) (d_title d) (d_description d) (d_tags d) (d_metadata d) (es_score h)
    (if highlight then es_highlight h else None).

Section elastic.
Context {W : Type} (fetch : Request → M W Response).

Definition net (r : Request) : M (Elastic W) Response := λ s,
  let '(w, res) := fetch r (network s) in (mkElastic (baseUrl s) (available s) w, res).

Definition json_type : option string := Some "application/json".

Definition ping : M (Elastic W) unit :=
  url ← gets baseUrl;
  res ← net (mkRequest "GET" (url +:+ "/_cluster/health") None []);
  if res_ok res then modify (λ s, mkElastic (baseUrl s) true (network s)) else mret tt.

(** The constructor: the failure of the ping is caught and logged. *)
Definition new_elastic (url : string) (w : W) : Elastic W :=
  (try_catch ping (λ _, mret tt) (mkElastic (strip_slash url) false w)).1.

Definition es_index (d : SearchDocument) : M (Elastic W) unit :=
  url ← gets baseUrl;
  _ ← net (mkRequest "PUT" (url +:+ "/_doc/" +:+ esId (d_entity d) (d_id d)) json_type [doc_json d]);
  mret tt.

Definition es_bulkIndex (docs : list SearchDocument) : M (Elastic W) unit :=
  match docs with
  | [] => mret tt
  | _ =>
      url ← gets baseUrl;
      _ ← net (mkRequest "POST" (url +:+ "/_bulk") (Some "application/x-ndjson")
        (concat ((λ d, [JObj [("index", JObj [("_id", JStr (esId (d_entity d) (d_id d)))])]; doc_json d]) <$> docs)));
      mret tt
  end.

Definition es_delete (i : string) (e : SearchableEntity) : M (Elastic W) unit :=
  url ← gets baseUrl;
  _ ← net (mkRequest "DELETE" (url +:+ "/_doc/" +:+ esId e i) None []);
  mret tt.

Definition es_search (at_ : Z * Z) (opts : SearchOptions) : M (Elastic W) SearchResult :=
  url ← gets baseUrl;
  res ← net (mkRequest "POST" (url +:+ "/_search") json_type [search_query opts]);
  if negb (res_ok res) then throw (JsError ("Elasticsearch error: " +:+ pretty (res_status res)))
  else
    let body := res_json res in
    mret (mkResult (es_to_hit (default false (o_highlight opts)) <$> es_hits body) (es_total body)
            (default 1 (o_page opts)) (default 20 (o_pageSize opts)) (es_took body) (o_query opts)).

Definition es_autocomplete (prefix : string) (entity : option SearchableEntity) : M (Elastic W) AutocompleteResult :=
  url ← gets baseUrl;
  res ← net (mkRequest "POST" (url +:+ "/_search") json_type [autocomplete_query prefix entity]);
  if negb (res_ok res) then mret (mkAutocomplete [] prefix)
  else mret (mkAutocomplete ((λ h, d_title (es_source h)) <$> es_hits (res_json res)) prefix).

#[export] Instance elasticsearch : SearchBackend (Elastic W) := {|
  be_index := es_index; be_bulkIndex := es_bulkIndex; be_delete := es_delete; be_search := es_search;
  be_autocomplete := es_autocomplete; be_isAvailable := available |}.
End elastic.

(** ** The service *)

Record LogEntry := mkLogEntry { l_query : string; l_resultCount : Z; l_ts : Z }.

Record SearchService (B : Type) := mkSearchService { backend : B; queryLog : list LogEntry }.
Arguments mkSearchService {B}.
Arguments backend {B}.
Arguments queryLog {B}.

Definition MAX_LOG : Z := 500.

(** [push], then [splice(0, length - MAX_LOG)] of what is over the limit *)
Definition logQuery {B} (e : LogEntry) (s : SearchService B) : SearchService B :=
  let log := queryLog s ++ [e] in
  let len := Z.of_nat (length log) in
  mkSearchService (backend s) (if bool_decide (MAX_LOG < len) then drop (Z.to_nat (len - MAX_LOG)) log else log).

Section service.
Context {B : Type} `{SearchBackend B}.

Definition on_backend {A} (m : M B A) : M (SearchService B) A := λ s,
  let '(b, r) := m (backend s) in (mkSearchService b (queryLog s), r).

Definition index (d : SearchDocument) : M (SearchService B) unit := on_backend (be_index d).

Definition bulkIndex (docs : list SearchDocument) : M (SearchService B) unit := on_backend (be_bulkIndex docs).

Definition delete (i : string) (e : SearchableEntity) : M (SearchService B) unit := on_backend (be_delete i e).

Definition search (at_ : Z * Z) (opts : SearchOptions) : M (SearchService B) SearchResult :=
  r ← on_backend (be_search at_ opts);
  _ ← modify (logQuery (mkLogEntry (o_query opts) (total r) at_.2));
  mret r.

Definition autocomplete (prefix : string) (entity : option SearchableEntity) : M (SearchService B) AutocompleteResult :=
  on_backend (be_autocomplete prefix entity).
End service.

Definition by_count (a b : string * Z) : Z := b.2 - a.2.

Definition getAnalytics {B} (s : SearchService B) : SearchAnalytics :=
  let log := queryLog s in
  let counts := foldl tally [] (l_query <$> log) in
  let totalResults := zsum (l_resultCount <$> log) in
  let zero := l_query <$> List.filter (λ e, bool_decide (l_resultCount e = 0)) log in
  mkAnalytics (Z.of_nat (length log)) (js_take 10 (js_sort by_count counts))
    (match log with [] => 0%Q | _ => (inject_Z totalResults / inject_Z (Z.of_nat (length log)))%Q end)
    (js_take 20 (dedupe zero)).

(** The service with no cluster configured. *)
Definition new_service : SearchService Store := mkSearchService [] [].

(** ** Documents and searches

    What is searched is a catalogue: one document for every entity and id. *)

Inductive Op :=
| OpIndex (d : SearchDocument) | OpBulk (docs : list SearchDocument) | OpDelete (i : string) (e : SearchableEntity)
| OpSearch (at_ : Z * Z) (opts : SearchOptions) | OpSuggest (prefix : string) (e : option SearchableEntity).

Definition step (other_pattern : string → string → result string) (op : Op) (s : SearchService Store) : SearchService Store :=
  let _ := in_memory other_pattern in
  match op with
  | OpIndex d => (index d s).1
  | OpBulk docs => (bulkIndex docs s).1
  | OpDelete i e => (delete i e s).1
  | OpSearch t opts => (search t opts s).1
  | OpSuggest p e => (autocomplete p e s).1
  end.

Definition run (other_pattern : string → string → result string) (ops : list Op) (s : SearchService Store) : SearchService Store :=
  foldl (λ s op, step other_pattern op s) s ops.

Notation Catalogue := (gmap (SearchableEntity * string) SearchDocument).

Definition cat_index (c : Catalogue) (d : SearchDocument) : Catalogue := <[(d_entity d, d_id d) := d]> c.

Definition cat_step (c : Catalogue) (op : Op) : Catalogue :=
  match op with
  | OpIndex d => cat_index c d
  | OpBulk docs => foldl cat_index c docs
  | OpDelete i e => base.delete (e, i) c
  | OpSearch _ _ | OpSuggest _ _ => c
  end.

Definition catalogue (ops : list Op) : Catalogue := foldl cat_step ∅ ops.

Definition texts (d : SearchDocument) : list string :=
  d_title d :: option_list (d_description d) ++ default [] (d_tags d).

(** The documents a search is for. *)
Definition relevant (q : string) (f : option SearchFilter) (d : SearchDocument) : Prop :=
  (∀ es, f ≫= sf_entity = Some es → es ≠ [] → d_entity d ∈ es) ∧
  (∀ ts, f ≫= sf_tags = Some ts → ts ≠ [] → ∃ t, t ∈ default [] (d_tags d) ∧ t ∈ ts) ∧
  ∃ text u v, text ∈ texts d ∧ lowercase text = u +:+ lowercase q +:+ v.

Definition hit_of (b : bool) (q : string) (d : SearchDocument) : SearchHit :=
  let needle := lowercase q in
  let mark text := concat_str (render <$> pieces (String.length text) needle text) in
  mkHit (d_id d) (d_entity d) (d_title d) (d_description d) (d_tags d) (d_metadata d) (inject_Z (score_of needle d))
    (if b && negb (bool_decide (needle = ""))
     then Some ((if in_title needle d then [("title", [mark (d_title d)])] else []) ++
                (if in_description needle d then [("description", [mark (default "" (d_description d))])] else []))
     else None).

Lemma store_key_inj e i e' i' : store_key e i = store_key e' i' → e = e' ∧ i = i'.
Proof. unfold store_key. by destruct e, e'; cbn; intros E; simplify_eq. Qed.

(** *** Relevance and scores *)

Lemma given_spec {A} (o : option (list A)) (P : list A → Prop) :
  (match given o with Some l => P l | None => True end) ↔ ∀ l, o = Some l → l ≠ [] → P l.
Proof. destruct o as [[|x l]|]; cbn; naive_solver. Qed.

Lemma entity_filter_spec f d : entity_filter f d ↔ ∀ es, f ≫= sf_entity = Some es → es ≠ [] → d_entity d ∈ es.
Proof.
  rewrite <- (given_spec (f ≫= sf_entity) (λ es, d_entity d ∈ es)). unfold entity_filter.
  destruct (given _); [apply bool_decide_spec|done].
Qed.

Lemma tag_filter_spec f d :
  tag_filter f d ↔ ∀ ts, f ≫= sf_tags = Some ts → ts ≠ [] → ∃ t, t ∈ default [] (d_tags d) ∧ t ∈ ts.
Proof.
  rewrite <- (given_spec (f ≫= sf_tags) (λ ts, ∃ t, t ∈ default [] (d_tags d) ∧ t ∈ ts)). unfold tag_filter.
  destruct (given _) as [ts|]; [|done]. destruct (d_tags d) as [tags|]; cbn [from_option id].
  - rewrite Is_true_true, existsb_exists. split; intros (t & Ht & Hr); exists t.
    + split; [by apply list_elem_of_In|by apply bool_decide_eq_true in Hr].
    + split; [by apply list_elem_of_In|by apply bool_decide_eq_true].
  - split; [done|]. by intros (t & ?%not_elem_of_nil & _).
Qed.

Lemma score_pos needle d : 0 < score_of needle d ↔ ∃ text, text ∈ texts d ∧ str_contains needle (lowercase text).
Proof.
  unfold score_of, in_title, in_description, in_tags, texts. setoid_rewrite elem_of_cons. setoid_rewrite elem_of_app.
  split.
  - intros Hpos. destruct (str_contains needle (lowercase (d_title d))) eqn:Et; [exists (d_title d); rewrite Et; by split; [left|]|].
    destruct (d_description d) as [t|].
    + destruct (str_contains needle (lowercase t)) eqn:Ed; [exists t; rewrite Ed; split; [right; left; by left|done]|].
      destruct (d_tags d) as [tags|]; [|lia]. destruct (existsb _ tags) eqn:Eg; [|lia].
      apply existsb_exists in Eg as (g & Hg & Hc). exists g. rewrite Hc. split; [right; right; by rewrite list_elem_of_In|done].
    + destruct (d_tags d) as [tags|]; [|lia]. destruct (existsb _ tags) eqn:Eg; [|lia].
      apply existsb_exists in Eg as (g & Hg & Hc). exists g. rewrite Hc. split; [right; right; by rewrite list_elem_of_In|done].
  - intros (text & [->|[Hd|Hg]] & Hc%Is_true_true).
    + rewrite Hc. repeat case_match; lia.
    + destruct (d_description d) as [t|]; cbn in Hd; [|by apply not_elem_of_nil in Hd].
      apply list_elem_of_singleton in Hd as ->. rewrite Hc. repeat case_match; lia.
    + destruct (d_tags d) as [tags|]; cbn in Hg; [|by apply not_elem_of_nil in Hg].
      assert (existsb (λ t, str_contains needle (lowercase t)) tags = true) as ->.
      { apply existsb_exists. exists text. by rewrite <- list_elem_of_In. }
      repeat case_match; lia.
Qed.

Lemma relevant_spec q f d :
  relevant q f d ↔ entity_filter f d ∧ tag_filter f d ∧ 0 < score_of (lowercase q) d.
Proof.
  unfold relevant. rewrite entity_filter_spec, tag_filter_spec, score_pos. setoid_rewrite str_contains_spec. naive_solver.
Qed.

(** *** The store and the catalogue *)

Definition store_ok (s : Store) (c : Catalogue) : Prop :=
  NoDup (map_keys s) ∧ (∀ k d, (k, d) ∈ s → k = doc_key d) ∧ ∀ e i, map_get (store_key e i) s = c !! (e, i).

Lemma store_ok_index s c d : store_ok s c → store_ok (index_doc d s) (cat_index c d).
Proof.
  intros (Hnd & Hk & Hc). unfold index_doc, cat_index. split_and!; [by apply map_set_nodup| |].
  - intros k d' Hin. apply map_elem_get in Hin; [|by apply map_set_nodup]. rewrite map_get_set in Hin.
    destruct (bool_decide_reflect (k = doc_key d)); [by simplify_eq|]. by apply Hk, map_get_elem.
  - intros e i. rewrite map_get_set, Hc. destruct (bool_decide_reflect (store_key e i = doc_key d)) as [E|Hne].
    + apply store_key_inj in E as [-> ->]. by rewrite lookup_insert_eq.
    + rewrite lookup_insert_ne; [done|]. intros E. apply Hne. by simplify_eq.
Qed.

Lemma store_ok_delete s c e i : store_ok s c → store_ok (map_delete (store_key e i) s) (base.delete (e, i) c).
Proof.
  intros (Hnd & Hk & Hc). split_and!; [by apply map_delete_nodup| |].
  - intros k d Hin. apply map_elem_get in Hin; [|by apply map_delete_nodup]. rewrite map_get_delete in Hin.
    destruct (bool_decide (k = _)); [done|]. by apply Hk, map_get_elem.
  - intros e' i'. rewrite map_get_delete, Hc. destruct (bool_decide_reflect (store_key e' i' = store_key e i)) as [E|Hne].
    + apply store_key_inj in E as [-> ->]. by rewrite lookup_delete_eq.
    + rewrite lookup_delete_ne; [done|]. intros E. apply Hne. by simplify_eq.
Qed.

Lemma bulk_runs docs s : mem_bulkIndex docs s = (foldl (λ s d, index_doc d s) s docs, Ok tt).
Proof.
  revert s. induction docs as [|d docs IH]; intros s; [done|]. unfold mem_bulkIndex in *. cbn [for_each foldl].
  cbv [mbind M_bind modify]. apply IH.
Qed.

Lemma mem_search_pure o t opts s : (mem_search o t opts s).1 = s.
Proof. unfold mem_search. by destruct (mapM _ _). Qed.

Lemma step_ok o op s c : store_ok (backend s) c → store_ok (backend (step o op s)) (cat_step c op).
Proof.
  intros Hok. destruct op as [d|docs|i e|t opts|p e]; cbn [step cat_step].
  - by apply store_ok_index.
  - unfold bulkIndex, on_backend. cbn [be_bulkIndex in_memory]. rewrite bulk_runs. cbn [fst backend].
    revert Hok. generalize (backend s). revert c. induction docs as [|d docs IH]; intros c b Hok; [done|].
    by apply IH, store_ok_index.
  - by apply store_ok_delete.
  - unfold search, on_backend. cbv [mbind M_bind modify]. cbn [be_search in_memory].
    pose proof (mem_search_pure o t opts (backend s)) as Hp.
    destruct (mem_search o t opts (backend s)) as [b [r|ex]]; cbn in Hp |- *; by rewrite Hp.
  - done.
Qed.

Lemma run_ok o ops : store_ok (backend (run o ops new_service)) (catalogue ops).
Proof.
  unfold run, catalogue.
  assert (store_ok (backend new_service) ∅) as H0.
  { split_and!; [constructor|intros k d ?%not_elem_of_nil; done|done]. }
  revert H0. generalize (new_service). generalize (∅ : Catalogue). induction ops as [|op ops IH]; intros c s Hok; [done|].
  cbn [foldl]. by apply IH, step_ok.
Qed.

Lemma store_docs s c d : store_ok s c → d ∈ map_values s ↔ c !! (d_entity d, d_id d) = Some d.
Proof.
  intros (Hnd & Hk & Hc). rewrite <- Hc. unfold map_values. split.
  - intros Hd. apply list_elem_of_fmap in Hd as ([k d'] & -> & Hin). cbn [snd].
    assert (store_key (d_entity d') (d_id d') = k) as -> by (symmetry; by apply Hk). by apply map_elem_get.
  - intros Hg%map_get_elem. by apply (list_elem_of_fmap_2 snd) in Hg.
Qed.

Lemma store_docs_nodup s c : store_ok s c → NoDup (map_values s).
Proof.
  intros (Hnd & Hk & _). apply (NoDup_fmap_1 doc_key). unfold map_values, map_keys in *. clear -Hnd Hk.
  assert (doc_key <$> List.map snd s = List.map fst s) as ->; [|done].
  induction s as [|[k d] s IH]; [done|]. cbn [List.map fst snd]. rewrite fmap_cons. f_equal.
  - symmetry. apply Hk. by left.
  - apply IH; [by inversion Hnd|]. intros. apply Hk. by right.
Qed.

(** *** What a search answers *)

Lemma to_hit_plain o b q d :
  literal (lowercase q) ∨ b = false →
  to_hit o b (lowercase q) (d, score_of (lowercase q) d) = Ok (hit_of b q d).
Proof.
  intros Hlit. unfold to_hit, hit_of. cbv zeta. destruct b; cbn [andb]; [|done].
  destruct Hlit as [Hlit%Is_true_true|]; [|done]. destruct (bool_decide (lowercase q = "")); cbn [negb]; [done|].
  unfold highlights_of, wrap, in_description. rewrite Hlit.
  destruct (in_title _ d), (d_description d) as [t|]; cbn; [destruct (str_contains _ _)| |destruct (str_contains _ _)|]; reflexivity.
Qed.

Lemma hits_plain o b q l :
  literal (lowercase q) ∨ b = false →
  mapM (to_hit o b (lowercase q)) ((λ d, (d, score_of (lowercase q) d)) <$> l) = Ok (hit_of b q <$> l).
Proof.
  intros Hlit. induction l as [|d l IH]; [done|]. rewrite !fmap_cons. cbn [mapM].
  rewrite to_hit_plain by done. change (mapM (to_hit o b (lowercase q))) with (mapM (to_hit o b (lowercase q))) in *.
  cbn [mbind result_bind]. rewrite IH. reflexivity.
Qed.

Definition score_desc (q : string) (a b : SearchDocument) : Prop := score_of (lowercase q) b ≤ score_of (lowercase q) a.

Lemma ranked_spec opts s c :
  store_ok s c →
  ∃ all, ranked opts s = (λ d, (d, score_of (lowercase (o_query opts)) d)) <$> all ∧
    StronglySorted (score_desc (o_query opts)) all ∧ NoDup all ∧
    ∀ d, d ∈ all ↔ c !! (d_entity d, d_id d) = Some d ∧ relevant (o_query opts) (o_filters opts) d.
Proof.
  intros Hok. set (q := o_query opts). set (pair := λ d, (d, score_of (lowercase q) d)).
  unfold ranked. fold q. cbv zeta. fold pair.
  set (docs := List.filter _ (List.filter _ (map_values s))).
  assert (List.filter (λ ds, bool_decide (0 < ds.2)) (pair <$> docs) = pair <$> List.filter (λ d, bool_decide (0 < score_of (lowercase q) d)) docs) as ->.
  { induction docs as [|d docs IH]; [done|]. rewrite fmap_cons. cbn [List.filter pair snd]. destruct (bool_decide _); [|done]. rewrite fmap_cons. by f_equal. }
  set (found := List.filter _ docs).
  set (sorted := js_sort _ _).
  assert (sorted ≡ₚ pair <$> found) as Hperm by apply js_sort_perm.
  assert (StronglySorted (λ a b : SearchDocument * Z, b.2 - a.2 ≤ 0) sorted) as Hsort by (apply js_sort_sorted; intros; lia).
  assert (sorted = pair <$> (fst <$> sorted)) as Hpair.
  { rewrite <- list_fmap_compose. rewrite <- (list_fmap_id sorted) at 1. apply list_fmap_ext. intros k [d z] Hd%list_elem_of_lookup_2.
    rewrite Hperm in Hd. apply list_elem_of_fmap in Hd as (d' & E & _). unfold pair in *. by simplify_eq. }
  exists (fst <$> sorted). split; [done|].
  assert (fst <$> sorted ≡ₚ found) as Hp.
  { rewrite Hperm, <- list_fmap_compose. by rewrite (list_fmap_ext _ id), list_fmap_id by done. }
  split_and!.
  - rewrite Hpair in Hsort. revert Hsort. generalize (fst <$> sorted). intros l. induction l as [|d l IH]; [constructor|].
    rewrite fmap_cons. inversion 1 as [|? ? Hs Hall]; subst. constructor; [by apply IH|]. rewrite Forall_fmap in Hall.
    eapply Forall_impl; [done|]. intros d'. unfold score_desc. cbn. lia.
  - rewrite Hp. unfold found, docs. apply (NoDup_fmap_1 id). repeat apply bfilter_key_nodup. rewrite list_fmap_id. by eapply store_docs_nodup.
  - intros d. rewrite Hp. unfold found, docs. rewrite !elem_of_bfilter, bool_decide_eq_true, <- !Is_true_true, (store_docs s c d Hok), relevant_spec. tauto.
Qed.

(** C20: with the store in memory as its backend, after any calls, a search is for
    the documents of the catalogue: there is
    one list of the relevant documents, each once, best first, such that page
    [k + 1] of any size answers with its [k]-th piece and with its length, and
    leaves the store as it was.  With highlights this holds for a query without
    characters of the pattern syntax. *)
Theorem search_refines_catalogue o ops q f b :
  literal (lowercase q) ∨ b = false →
  let _ := in_memory o in
  let s := run o ops new_service in
  ∃ all,
    (∀ d, d ∈ all ↔ catalogue ops !! (d_entity d, d_id d) = Some d ∧ relevant q f d) ∧
    NoDup all ∧ StronglySorted (score_desc q) all ∧
    ∀ (k n : nat) t, ∃ s', backend s' = backend s ∧
      search t (mkOptions q f (Some (Z.of_nat k + 1)) (Some (Z.of_nat n)) (Some b)) s =
      (s', Ok (mkResult (hit_of b q <$> take n (drop (k * n) all)) (Z.of_nat (length all)) (Z.of_nat k + 1) (Z.of_nat n) (t.2 - t.1) q)).
Proof.
  intros Hlit inst s. subst inst. pose proof (run_ok o ops) as Hok. fold s in Hok.
  destruct (ranked_spec (mkOptions q f None None (Some b)) _ _ Hok) as (all & Hr & Hs & Hnd & Hall). cbn [o_query o_filters] in *.
  exists all. split_and!; [done..|]. intros k n t.
  set (opts := mkOptions q f _ _ _).
  assert (ranked opts (backend s) = (λ d, (d, score_of (lowercase q) d)) <$> all) as Hro by done.
  assert (mem_search o t opts (backend s) = (backend s, Ok (mkResult (hit_of b q <$> take n (drop (k * n) all)) (Z.of_nat (length all))
    (Z.of_nat k + 1) (Z.of_nat n) (t.2 - t.1) q))) as Hm.
  { unfold mem_search. cbv zeta. rewrite Hro. cbn [o_page o_pageSize o_highlight o_query opts from_option id].
    replace ((Z.of_nat k + 1 - 1) * Z.of_nat n) with (Z.of_nat (k * n)) by lia.
    rewrite js_slice_page, <- fmap_drop, <- fmap_take, hits_plain, length_fmap by done. done. }
  eexists. split; [|unfold search, on_backend; cbv [mbind M_bind modify]; cbn [be_search in_memory]; rewrite Hm; reflexivity].
  done.
Qed.

Example search_refines_catalogue_witness :
  let o := λ _ _, Throw (JsError "SyntaxError") in
  let d1 := mkDoc "7" E_user "Ann" (Some "plays chess") None None 0 in
  let d2 := mkDoc "7" E_match "Chess final" None (Some ["final"]) None 1 in
  let ops := [OpIndex d1; OpBulk [d2; mkDoc "8" E_user "Bob" None None None 1]; OpDelete "8" E_user] in
  let _ := in_memory o in
  let s := run o ops new_service in
  (∃ all,
    (∀ d, d ∈ all ↔ catalogue ops !! (d_entity d, d_id d) = Some d ∧ relevant "Chess" None d) ∧
    NoDup all ∧ StronglySorted (score_desc "Chess") all ∧
    ∀ (k n : nat) t, ∃ s', backend s' = backend s ∧
      search t (mkOptions "Chess" None (Some (Z.of_nat k + 1)) (Some (Z.of_nat n)) (Some true)) s =
      (s', Ok (mkResult (hit_of true "Chess" <$> take n (drop (k * n) all)) (Z.of_nat (length all)) (Z.of_nat k + 1) (Z.of_nat n) (t.2 - t.1) "Chess"))) ∧
  h_highlights (hit_of true "Chess" d2) = Some [("title", ["<em>Chess</em> final"])].
Proof. split; [|reflexivity]. apply (search_refines_catalogue (λ _ _, Throw (JsError "SyntaxError"))). left. by vm_compute. Defined.

(** *** Highlights *)

Lemma str_take_drop n s : str_take n s +:+ str_drop n s = s.
Proof. revert s. induction n as [|n IH]; intros [|c s]; try done. cbn [str_take str_drop]. by rewrite app_cons, IH. Qed.

Lemma length_str_drop n s : String.length (str_drop n s) = (String.length s - n)%nat.
Proof. revert s. induction n as [|n IH]; intros [|c s]; by cbn [str_drop String.length]. Qed.

Lemma length_lowercase s : String.length (lowercase s) = String.length s.
Proof. induction s as [|c s IH]; [done|]. cbn [lowercase String.length]. by rewrite IH. Qed.

Lemma lowercase_take n s : lowercase (str_take n s) = str_take n (lowercase s).
Proof. revert s. induction n as [|n IH]; intros [|c s]; try done. cbn [str_take lowercase]. by rewrite IH. Qed.

Lemma str_take_app s v : str_take (String.length s) (s +:+ v) = s.
Proof. induction s as [|c s IH]; [by destruct v|]. rewrite app_cons. cbn [String.length str_take]. by rewrite IH. Qed.

(** Highlighting only inserts tags: the pieces put together are the text, what
    is tagged is the query up to case, and a text that contains the query has a
    tag. *)
Theorem highlight_pieces needle s :
  needle ≠ "" → lowercase needle = needle →
  let ps := pieces (String.length s) needle s in
  concat_str (snd <$> ps) = s ∧
  (∀ t, (true, t) ∈ ps → lowercase t = needle) ∧
  (str_contains needle (lowercase s) → ∃ t, (true, t) ∈ ps).
Proof.
  intros Hne Hlow. cbv zeta. generalize (le_n (String.length s)). generalize (String.length s) at 2 3 4 5 as fuel. intros fuel.
  revert s. induction fuel as [|fuel IH]; intros s Hlen.
  { destruct s; cbn in Hlen; [|lia]. split_and!; [done|by intros t ?%not_elem_of_nil|]. destruct needle; [done|]. cbn. done. }
  destruct s as [|c s].
  { split_and!; [done|by intros t ?%not_elem_of_nil|]. destruct needle; [done|]. cbn. done. }
  cbn [pieces]. set (cs := String c s). destruct (String.prefix needle (lowercase cs)) eqn:Ep.
  - assert (∃ v, lowercase cs = needle +:+ v) as (v & Hv) by (apply prefix_app; by rewrite Ep).
    destruct (IH (str_drop (String.length needle) cs)) as (H1 & H2 & _).
    { rewrite length_str_drop. destruct needle; [done|]. unfold cs in *. cbn [String.length] in *. lia. }
    rewrite fmap_cons. cbn [concat_str foldr snd]. unfold concat_str in H1. rewrite H1. split_and!; [apply str_take_drop| |].
    + intros t [E|Ht]%elem_of_cons; [|by apply H2]. simplify_eq. by rewrite lowercase_take, Hv, str_take_app.
    + intros _. eexists. by left.
  - destruct (IH s) as (H1 & H2 & H3); [unfold cs in Hlen; cbn [String.length] in Hlen; lia|].
    rewrite fmap_cons. cbn [concat_str foldr snd]. unfold concat_str in H1. rewrite H1. split_and!; [done| |].
    + intros t [E|Ht]%elem_of_cons; [done|by apply H2].
    + unfold cs in *. cbn [lowercase] in *. cbn [str_contains]. rewrite Ep. intros Hc. destruct (H3 Hc) as (t & Ht). exists t. by right.
Qed.

Example highlight_pieces_witness :
  let ps := pieces 11 "an" "Ann and Dan" in
  concat_str (snd <$> ps) = "Ann and Dan" ∧ (∀ t, (true, t) ∈ ps → lowercase t = "an") ∧
  (str_contains "an" "ann and dan" → ∃ t, (true, t) ∈ ps).
Proof. apply (highlight_pieces "an" "Ann and Dan"); done. Defined.

(** *** Suggestions *)

Definition suggested (needle : string) (entity : option SearchableEntity) (d : SearchDocument) : bool :=
  match entity with Some e => bool_decide (d_entity d = e) | None => true end && String.prefix needle (lowercase (d_title d)).

Lemma suggest_from needle entity docs acc :
  (length acc < 10)%nat →
  suggest needle entity docs acc = take 10 (acc ++ dedupe_from acc (d_title <$> List.filter (suggested needle entity) docs)).
Proof.
  revert acc. induction docs as [|d docs IH]; intros acc Hacc; cbn [suggest List.filter]; cbv zeta.
  { rewrite fmap_nil. cbn [dedupe_from]. rewrite app_nil_r, take_ge by lia. done. }
  unfold suggested at 1.
  replace (match entity with Some e => bool_decide (d_entity d ≠ e) | None => false end)
    with (negb (match entity with Some e => bool_decide (d_entity d = e) | None => true end))
    by (destruct entity; [symmetry; apply bool_decide_not|done]).
  destruct (match entity with Some e => bool_decide (d_entity d = e) | None => true end); cbn [negb andb]; [|by apply IH].
  destruct (String.prefix needle (lowercase (d_title d))); cbn [andb]; [|by apply IH].
  rewrite fmap_cons. cbn [dedupe_from]. destruct (bool_decide_reflect (d_title d ∈ acc)) as [Hin|Hin]; cbn [negb].
  { rewrite decide_True by done. by apply IH. }
  rewrite decide_False by done. rewrite (app_assoc acc [d_title d] (dedupe_from _ _) : acc ++ d_title d :: _ = _).
  assert (length (acc ++ [d_title d]) = length acc + 1)%nat as Hl by apply length_app. rewrite Hl. destruct (bool_decide_reflect (10 ≤ length acc + 1)%nat) as [Hfull|Hroom].
  - rewrite take_app_le, take_ge by lia. done.
  - by rewrite IH by lia.
Qed.

(** Suggestions are the first ten distinct titles that start with the prefix,
    up to case, of the documents of the entity, in the order of the store. *)
Theorem autocomplete_spec o prefix entity (s : SearchService Store) :
  let _ := in_memory o in
  autocomplete prefix entity s =
  (s, Ok (mkAutocomplete (take 10 (dedupe (d_title <$> List.filter (suggested (lowercase prefix) entity) (map_values (backend s))))) prefix)).
Proof.
  cbv zeta. unfold autocomplete, on_backend. cbn [be_autocomplete in_memory]. unfold mem_autocomplete, gets.
  rewrite suggest_from by (cbn; lia). by destruct s.
Qed.

(** ** The log of queries

    Against the interface: whatever the backend, the log holds the last 500
    searches that were answered, and the analytics are those of the log. *)

Section log.
Context {B : Type} `{SearchBackend B}.

(** Searches one after the other, and the entries of those that return. *)
Fixpoint searches (calls : list ((Z * Z) * SearchOptions)) (s : SearchService B) : SearchService B * list LogEntry :=
  match calls with
  | [] => (s, [])
  | (t, opts) :: calls' =>
      match search t opts s with
      | (s', Ok r) => let '(s'', es) := searches calls' s' in (s'', mkLogEntry (o_query opts) (total r) t.2 :: es)
      | (s', Throw _) => searches calls' s'
      end
  end.

Lemma logQuery_last e (s : SearchService B) :
  (length (queryLog s) ≤ 500)%nat → queryLog (logQuery e s) = js_slice_last 500 (queryLog s ++ [e]).
Proof.
  intros Hlen. rewrite <- (js_slice_last_push 500) by lia. unfold logQuery, MAX_LOG. cbn [queryLog].
  replace (Z.to_nat (Z.of_nat (length (queryLog s ++ [e])) - 500)) with (length (queryLog s ++ [e]) - 500)%nat by lia. done.
Qed.

Lemma search_log t opts (s : SearchService B) :
  (length (queryLog s) ≤ 500)%nat →
  match search t opts s with
  | (s', Ok r) => queryLog s' = js_slice_last 500 (queryLog s ++ [mkLogEntry (o_query opts) (total r) t.2])
  | (s', Throw _) => queryLog s' = queryLog s
  end.
Proof.
  intros Hlen. unfold search, on_backend. cbv [mbind M_bind modify].
  destruct (be_search t opts (backend s)) as [b [r|e]]; [|done]. exact (logQuery_last _ (mkSearchService b (queryLog s)) Hlen).
Qed.

Lemma searches_log calls (s : SearchService B) :
  (length (queryLog s) ≤ 500)%nat →
  queryLog (searches calls s).1 = js_slice_last 500 (queryLog s ++ (searches calls s).2).
Proof.
  revert s. induction calls as [|[t opts] calls IH]; intros s Hlen; cbn [searches].
  { cbn [fst snd]. rewrite app_nil_r. unfold js_slice_last. rewrite bool_decide_true, Z.max_l, drop_0 by lia. done. }
  pose proof (search_log t opts s Hlen) as Hlog. destruct (search t opts s) as [s' [r|e]].
  - assert (length (queryLog s') ≤ 500)%nat as Hlen'.
    { rewrite Hlog. pose proof (js_slice_last_length 500 (queryLog s ++ [mkLogEntry (o_query opts) (total r) t.2]) ltac:(lia)). lia. }
    specialize (IH s' Hlen'). destruct (searches calls s') as [s'' es]. cbn [fst snd] in *.
    rewrite IH, Hlog, js_slice_last_app, <- app_assoc by lia. done.
  - rewrite IH, Hlog by (by rewrite Hlog). done.
Qed.

End log.

(** The ten first of the sorted tally: nothing left out is more frequent. *)
Lemma top_spec (counts : jsmap Z) :
  let top := js_take 10 (js_sort by_count counts) in
  (length top ≤ 10)%nat ∧ (∀ x, x ∈ top → x ∈ counts) ∧ StronglySorted (λ a b, b.2 ≤ a.2) top ∧
  (∀ x y, x ∈ top → y ∈ counts → y ∉ top → y.2 ≤ x.2).
Proof.
  cbv zeta. change (js_take 10 ?l) with (take 10 l). set (l := js_sort by_count counts).
  assert (l ≡ₚ counts) as Hp by apply js_sort_perm.
  assert (StronglySorted (λ a b : string * Z, b.2 ≤ a.2) l) as Hs.
  { eapply SSorted_mono; [|apply js_sort_sorted; unfold by_count; intros; lia]. unfold by_count. cbn. intros; lia. }
  rewrite <- (take_drop 10 l) in Hs. apply StronglySorted_app in Hs as (Hcross & Hs1 & Hs2).
  split_and!; [rewrite length_take; lia| |done|].
  - intros x Hx. rewrite <- Hp, <- (take_drop 10 l). apply elem_of_app. by left.
  - intros x y Hx Hy Hny. apply Hcross; [done|]. rewrite <- Hp, <- (take_drop 10 l), elem_of_app in Hy. by destruct Hy.
Qed.

(** The analytics of a service, whatever its backend, are those of its last
    500 answered searches: how many, how often the ten most frequent queries
    were asked, the mean number of results, the first twenty queries without
    any. *)
Theorem analytics_recent {B} `{SearchBackend B} (b : B) calls :
  let '(s, answered) := searches calls (mkSearchService b []) in
  let recent := js_slice_last 500 answered in
  let a := getAnalytics s in
  let asked := l_query <$> recent in
  totalQueries a = Z.min 500 (Z.of_nat (length answered)) ∧
  ((averageResultCount a * inject_Z (totalQueries a))%Q == inject_Z (zsum (l_resultCount <$> recent)))%Q ∧
  (length (topQueries a) ≤ 10)%nat ∧ StronglySorted (λ x y, y.2 ≤ x.2) (topQueries a) ∧
  (∀ q n, (q, n) ∈ topQueries a → q ∈ asked ∧ n = occurrences q asked) ∧
  (∀ q q' n, (q, n) ∈ topQueries a → q' ∈ asked → (q', occurrences q' asked) ∉ topQueries a → occurrences q' asked ≤ n) ∧
  (∀ q, q ∈ zeroResultQueries a → ∃ e, e ∈ recent ∧ l_query e = q ∧ l_resultCount e = 0).
Proof.
  pose proof (searches_log calls (mkSearchService b []) ltac:(cbn; lia)) as Hlog.
  destruct (searches calls (mkSearchService b [])) as [s answered]. cbn [fst snd queryLog] in Hlog.
  change ([] ++ answered) with answered in Hlog. cbv zeta. unfold getAnalytics. rewrite Hlog. clear Hlog s.
  pose proof (js_slice_last_length 500 answered ltac:(lia)) as Hlen. set (recent := js_slice_last 500 answered) in *.
  cbn [totalQueries averageResultCount topQueries zeroResultQueries].
  destruct (top_spec (foldl tally [] (l_query <$> recent))) as (Ht1 & Ht2 & Ht3 & Ht4).
  split_and!; [lia| |done|done| | |].
  - destruct recent as [|e r]; [reflexivity|]. rewrite Qmult_comm. apply Qmult_div_r. intros E. unfold Qeq in E. cbn in E. lia.
  - intros q n Hin%Ht2. by apply tally_spec.
  - intros q q' n Hq Hq' Hout. apply (Ht4 (q, n) (q', _) Hq); [by apply tally_spec|done].
  - intros q Hq. change (js_take 20 ?l) with (take 20 l) in Hq. apply elem_of_take in Hq as (i & Hq%list_elem_of_lookup_2 & _).
    rewrite elem_of_dedupe in Hq. apply list_elem_of_fmap in Hq as (e & -> & [H0 He]%elem_of_bfilter).
    exists e. apply bool_decide_eq_true in H0. done.
Qed.

Example analytics_recent_run :
  let o := λ _ _, Throw (JsError "SyntaxError") in
  let _ := in_memory o in
  let ask q := ((0, 1), mkOptions q None None None None) in
  let s := (searches [ask "chess"; ask "go"; ask "chess"; ask "ann"] (mkSearchService [("user:1", mkDoc "1" E_user "Ann" None None None 0)] [])).1 in
  topQueries (getAnalytics s) = [("chess", 2); ("go", 1); ("ann", 1)] ∧ zeroResultQueries (getAnalytics s) = ["chess"; "go"].
Proof. vm_compute. done. Qed.

(** ** A cluster that does not answer

    What the requests of the cluster's client make of an answer: the exception
    of [search], if any. *)
Definition failure (answer : result Response) : option exn :=
  match answer with
  | Throw e => Some e
  | Ok res => if res_ok res then None else Some (JsError ("Elasticsearch error: " +:+ pretty (res_status res)))
  end.

(** The outcome of a call that does not look at the status of the answer. *)
Definition unchecked {A} (a : A) (answer : result Response) : result A :=
  match answer with Throw e => Throw e | Ok _ => Ok a end.

(** When every request fails, whether the cluster is unreachable or refuses
    it, a search throws that error and is not logged; suggestions and writes
    throw it only when the cluster is unreachable: a refused write is reported as
    done, and no call falls back to the store in memory. *)
Theorem cluster_errors {W} (fetch : Request → M W Response) answer e (s : SearchService (Elastic W)) :
  (∀ r w, (fetch r w).2 = answer) → failure answer = Some e →
  let _ := elasticsearch fetch in
  (∀ t opts, (search t opts s).2 = Throw e ∧ queryLog (search t opts s).1 = queryLog s) ∧
  (∀ p k, (autocomplete p k s).2 = unchecked (mkAutocomplete [] p) answer) ∧
  (∀ d, (index d s).2 = unchecked tt answer) ∧
  (∀ i k, (delete i k s).2 = unchecked tt answer) ∧
  (∀ d ds, (bulkIndex (d :: ds) s).2 = unchecked tt answer).
Proof.
  intros Hfetch Hfail inst. subst inst.
  assert (∀ r w, ∃ w', fetch r w = (w', answer)) as Hnet.
  { intros r w. exists (fetch r w).1. rewrite <- (Hfetch r w). by destruct (fetch r w). }
  unfold search, autocomplete, index, delete, bulkIndex, on_backend.
  cbn [be_search be_autocomplete be_index be_delete be_bulkIndex elasticsearch].
  unfold es_search, es_autocomplete, es_index, es_delete, es_bulkIndex, net, gets. cbv [mbind M_bind modify].
  split_and!; intros;
    match goal with |- context [fetch ?r ?w] => destruct (Hnet r w) as (w' & Ew); rewrite !Ew end;
    destruct answer as [res|ex]; cbn [failure unchecked] in *; try destruct (res_ok res); simplify_eq/=; done.
Qed.

Example cluster_errors_witness :
  let fetch := λ (_ : Request) (n : nat), (S n, Ok (mkResponse false 503 (mkEsBody 0 [] 0))) in
  let _ := elasticsearch fetch in
  let s := mkSearchService (new_elastic fetch "http://es:9200/" 0%nat) [] in
  (search (0, 1) (mkOptions "chess" None None None None) s).2 = Throw (JsError "Elasticsearch error: 503") ∧
  (index (mkDoc "1" E_user "Ann" None None None 0) s).2 = Ok tt ∧ baseUrl (backend s) = "http://es:9200".
Proof.
  intros fetch inst s.
  destruct (cluster_errors fetch (Ok (mkResponse false 503 (mkEsBody 0 [] 0))) (JsError "Elasticsearch error: 503") s) as (H1 & _ & H3 & _);
    [done|reflexivity|].
  split_and!; [apply H1|apply (H3 (mkDoc "1" E_user "Ann" None None None 0))|reflexivity].
Defined.

(** A query that is an ill-formed pattern: with highlights the search throws
    as soon as one document matches, without them it answers. *)
Example pattern_query :
  let o := λ _ _, Throw (JsError "SyntaxError: Invalid regular expression: Unterminated group") in
  let _ := in_memory o in
  let s := mkSearchService [("user:1", mkDoc "1" E_user "Ann (pro)" None None None 0)] [] in
  (search (0, 1) (mkOptions "(" None None None (Some true)) s).2 =
    Throw (JsError "SyntaxError: Invalid regular expression: Unterminated group") ∧
  exists r, (search (0, 1) (mkOptions "(" None None None None) s).2 = Ok r ∧ total r = 1.
Proof. split; [by vm_compute|]. eexists. by vm_compute. Qed.
