(* ===== verification/Transformation.v ===== *)
(** * Response transformations: [server/src/services/transformation.service.ts]

    Rules written in JSONata, kept with their compiled expressions, applied to
    the data of a response in the order of their priorities.  The package
    [jsonata], version 2, is the interface [JSONata]: an expression is compiled from
    a text, which may throw, and evaluated asynchronously: the call returns a promise,
    which is a value, and never throws.  The service does not await it.  What is thrown
    is an [Error] with its message or another value.  The readings of the clock are a
    function of how many were made.  Metrics and log lines are left out; ids of
    rules are not names of properties every object has. *)

From Stdlib Require Import QArith.
From stdpp Require Import prelude gmap strings list pretty sorting.
From S2P Require Import Prelude JsText.

#[local] Open Scope Z_scope.

(** ** Data *)

Inductive Status := ACTIVE | INACTIVE.

Definition status_name (s : Status) : string := match s with ACTIVE => "ACTIVE" | INACTIVE => "INACTIVE" end.

Record TransformationRule := mkRule {
  r_id : string; r_name : string; r_description : option string; r_expression : string; r_contentType : option string;
  r_status : option Status; r_priority : option Z; r_tags : option (list string) }.

(** [Partial<TransformationRule>]: the fields that are given. *)
Record RuleUpdate := mkUpdate {
  u_id : option string; u_name : option string; u_description : option string; u_expression : option string;
  u_contentType : option string; u_status : option Status; u_priority : option Z; u_tags : option (list string) }.

(** What the service reads of the context; [c_tags] is [metadata.tags]. *)
Record TransformationContext := mkContext { c_contentType : string; c_userRole : option string; c_tags : option (list string) }.

Inductive thrown := ErrorObject (message : string) | OtherValue.

(** [err instanceof Error ? err.message : fallback] *)
Definition message_or (fallback : string) (e : thrown) : string :=
  match e with ErrorObject m => m | OtherValue => fallback end.

(** Compiling, the outcome of an evaluation, and the promise that settles to it. *)
Class JSONata (E V : Type) := { compile : string → E + thrown; settles : E → V → V + thrown; promise : V + thrown → V }.

(** [compiled.evaluate(value)]: an asynchronous function returns at once. *)
Definition evaluate {E V} `{JSONata E V} (e : E) (v : V) : V + thrown := inl (promise (settles e v)).

Record TransformationResult (V : Type) := mkResult {
  success : bool; data : option V; error : option string; ruleId : option string; durationMs : Z }.
Arguments mkResult {V}.
Arguments success {V}.
Arguments data {V}.
Arguments error {V}.
Arguments ruleId {V}.
Arguments durationMs {V}.

Record RuleStats := mkRuleStats { count : Z; rs_durations : list Z }.

Record Counters := mkCounters {
  total : Z; successes : Z; failures : Z; durations : list Z; byRule : jsmap RuleStats }.

Record Service (E : Type) := mkService { rules : jsmap TransformationRule; compiledCache : jsmap E; analytics : Counters; reads : nat }.
Arguments mkService {E}.
Arguments rules {E}.
Arguments compiledCache {E}.
Arguments analytics {E}.
Arguments reads {E}.

Definition zero_counters : Counters := mkCounters 0 0 0 [] [].

Definition new_service {E} : Service E := mkService [] [] zero_counters 0.

Section service.
Context {E V : Type} `{JSONata E V} (clock : nat → Z).

(** ** Rules *)

Definition with_rules (rs : jsmap TransformationRule) (cs : jsmap E) (s : Service E) : Service E :=
  mkService rs cs (analytics s) (reads s).

(** [{ ...rule, status: rule.status ?? 'ACTIVE' }] *)
Definition activated (r : TransformationRule) : TransformationRule :=
  mkRule (r_id r) (r_name r) (r_description r) (r_expression r) (r_contentType r) (Some (default ACTIVE (r_status r))) (r_priority r) (r_tags r).

Definition registerRule (r : TransformationRule) (s : Service E) : Service E * (unit + thrown) :=
  if bool_decide (r_id r = "") then (s, inr (ErrorObject "Transformation rule must have an id"))
  else match compile (r_expression r) with
       | inl e => (with_rules (map_set (r_id r) (activated r) (rules s)) (map_set (r_id r) e (compiledCache s)) s, inl tt)
       | inr err => (s, inr err)
       end.

Fixpoint registerRules (rs : list TransformationRule) (s : Service E) : Service E * (unit + thrown) :=
  match rs with
  | [] => (s, inl tt)
  | r :: rs' => match registerRule r s with (s', inl _) => registerRules rs' s' | (s', inr err) => (s', inr err) end
  end.

(** [{ ...existing, ...updates }] *)
Definition merge (r : TransformationRule) (u : RuleUpdate) : TransformationRule :=
  let or {A} (new old : option A) := match new with Some x => Some x | None => old end in
  mkRule (default (r_id r) (u_id u)) (default (r_name r) (u_name u)) (or (u_description u) (r_description r))
    (default (r_expression r) (u_expression u)) (or (u_contentType u) (r_contentType r)) (or (u_status u) (r_status r))
    (or (u_priority u) (r_priority r)) (or (u_tags u) (r_tags r)).

Definition updateRule (i : string) (u : RuleUpdate) (s : Service E) : Service E * (unit + thrown) :=
  match map_get i (rules s) with
  | None => (s, inr (ErrorObject ("Transformation rule " +:+ chr 34 +:+ i +:+ chr 34 +:+ " not found")))
  | Some existing =>
      let merged := merge existing u in
      match truthy_str (u_expression u) with
      | Some _ =>
          match compile (r_expression merged) with
          | inl e => (with_rules (map_set i merged (rules s)) (map_set i e (compiledCache s)) s, inl tt)
          | inr err => (s, inr err)
          end
      | None => (with_rules (map_set i merged (rules s)) (compiledCache s) s, inl tt)
      end
  end.

Definition unregisterRule (i : string) (s : Service E) : Service E :=
  with_rules (map_delete i (rules s)) (map_delete i (compiledCache s)) s.

Definition getRule (i : string) (s : Service E) : option TransformationRule := map_get i (rules s).

Definition by_priority (a b : TransformationRule) : Z := default 999 (r_priority a) - default 999 (r_priority b).

Definition listRules (status tag : option string) (s : Service E) : list TransformationRule :=
  let rs := map_values (rules s) in
  let rs := match truthy_str status with Some st => List.filter (λ r, bool_decide (status_name <$> r_status r = Some st)) rs | None => rs end in
  let rs := match truthy_str tag with Some t => List.filter (λ r, bool_decide (t ∈ default [] (r_tags r))) rs | None => rs end in
  js_sort by_priority rs.

Definition clearRules (s : Service E) : Service E := with_rules [] [] s.

(** ** Applying rules *)

(** Skipped because of the content types: both given, and the one of the
    response does not contain the one of the rule. *)
Definition type_mismatch (rule : option string) (response : string) : bool :=
  match truthy_str rule with
  | Some t => negb (bool_decide (response = "")) && negb (str_contains t response)
  | None => false
  end.

Definition applies (ctx : TransformationContext) (r : TransformationRule) : bool :=
  if type_mismatch (r_contentType r) (c_contentType ctx) then false
  else match r_tags r, c_tags ctx with
       | Some (t :: ts), Some wanted => existsb (λ tag, bool_decide (tag ∈ wanted)) (t :: ts)
       | _, _ => true
       end.

Definition getApplicableRules (ctx : TransformationContext) (s : Service E) : list TransformationRule :=
  let status := if bool_decide (c_userRole ctx = Some "ADMIN") then None else Some "ACTIVE" in
  js_sort by_priority (List.filter (applies ctx) (listRules status None s)).

(** [Date.now()] *)
Definition now (s : Service E) : Service E * Z := (mkService (rules s) (compiledCache s) (analytics s) (S (reads s)), clock (reads s)).

Definition count_with (f : Counters → Counters) (s : Service E) : Service E :=
  mkService (rules s) (compiledCache s) (f (analytics s)) (reads s).

Definition add_total (a : Counters) : Counters := mkCounters (total a + 1) (successes a) (failures a) (durations a) (byRule a).
Definition add_success (d : Z) (a : Counters) : Counters := mkCounters (total a) (successes a + 1) (failures a) (durations a ++ [d]) (byRule a).
Definition add_failure (a : Counters) : Counters := mkCounters (total a) (successes a) (failures a + 1) (durations a) (byRule a).
Definition add_duration (d : Z) (a : Counters) : Counters := mkCounters (total a) (successes a) (failures a) (durations a ++ [d]) (byRule a).
Definition add_rule (i : string) (d : Z) (a : Counters) : Counters :=
  let st := default (mkRuleStats 0 []) (map_get i (byRule a)) in
  mkCounters (total a) (successes a) (failures a) (durations a) (map_set i (mkRuleStats (count st + 1) (rs_durations st ++ [d])) (byRule a)).

(** The loop of [transform]: the last rule applied outlives a throw. *)
Fixpoint apply_rules (rs : list TransformationRule) (current : V) (last : option string) (s : Service E)
  : Service E * option string * (V + thrown) :=
  match rs with
  | [] => (s, last, inl current)
  | r :: rs' =>
      match map_get (r_id r) (compiledCache s) with
      | None => apply_rules rs' current last s
      | Some compiled =>
          let '(s, ruleStart) := now s in
          match evaluate compiled current with
          | inr err => (s, last, inr err)
          | inl v =>
              let '(s, ruleEnd) := now s in
              apply_rules rs' v (Some (r_id r)) (count_with (add_rule (r_id r) (ruleEnd - ruleStart)) s)
          end
      end
  end.

Definition transform (d : V) (ctx : TransformationContext) (s : Service E) : Service E * TransformationResult V :=
  let '(s, start) := now s in
  let s := count_with add_total s in
  match getApplicableRules ctx s with
  | [] => let '(s, t) := now s in (s, mkResult true (Some d) None None (t - start))
  | rs =>
      let '(s, last, r) := apply_rules rs d None s in
      let '(s, t) := now s in
      match r with
      | inl v => (count_with (add_success (t - start)) s, mkResult true (Some v) None last (t - start))
      | inr err => (count_with (add_duration (t - start) ∘ add_failure) s,
                    mkResult false None (Some (message_or "Transformation failed" err)) last (t - start))
      end
  end.

Definition inactive (r : TransformationRule) : bool := match r_status r with Some INACTIVE => true | _ => false end.

(** A missing compiled expression is a method call on [undefined]. *)
Definition no_expression : thrown := ErrorObject "Cannot read properties of undefined (reading 'evaluate')".

Definition transformWithRule (d : V) (i : string) (ctx : option TransformationContext) (s : Service E) : Service E * TransformationResult V :=
  let '(s, start) := now s in
  let s := count_with add_total s in
  match map_get i (rules s) with
  | Some r =>
      if inactive r then
        let '(s, t) := now s in (s, mkResult false None (Some ("Rule " +:+ chr 34 +:+ i +:+ chr 34 +:+ " not found or inactive")) None (t - start))
      else if match ctx with Some c => type_mismatch (r_contentType r) (c_contentType c) | None => false end
      then let '(s, t) := now s in (s, mkResult true (Some d) None None (t - start))
      else
        let '(s, ruleStart) := now s in
        match match map_get i (compiledCache s) with Some compiled => evaluate compiled d | None => inr no_expression end with
        | inl v =>
            let '(s, ruleEnd) := now s in
            let s := count_with (add_success (ruleEnd - ruleStart) ∘ add_rule i (ruleEnd - ruleStart)) s in
            let '(s, t) := now s in (s, mkResult true (Some v) None (Some i) (t - start))
        | inr err =>
            let s := count_with add_failure s in
            let '(s, t) := now s in (s, mkResult false None (Some (message_or "Transformation failed" err)) (Some i) (t - start))
        end
  | None =>
      let '(s, t) := now s in (s, mkResult false None (Some ("Rule " +:+ chr 34 +:+ i +:+ chr 34 +:+ " not found or inactive")) None (t - start))
  end.

(** ** Validation and analytics *)

Definition validateExpression (expression : string) : bool * option string :=
  match compile expression with
  | inl _ => (true, None)
  | inr err => (false, Some (message_or "Invalid JSONata expression" err))
  end.

Definition testTransformation (expression : string) (sample : V) : bool * option V * option string :=
  match (match compile expression with inl e => evaluate e sample | inr err => inr err end) with
  | inl v => (true, Some v, None)
  | inr err => (false, None, Some (message_or "Transformation test failed" err))
  end.

Definition mean (l : list Z) : Q :=
  match l with [] => 0%Q | _ => (inject_Z (zsum l) / inject_Z (Z.of_nat (length l)))%Q end.

Record TransformationAnalytics := mkAnalytics {
  totalTransformations : Z; a_successes : Z; a_failures : Z; avgDurationMs : Q; a_byRule : jsmap (Z * Q) }.

Definition getAnalytics (s : Service E) : TransformationAnalytics :=
  let a := analytics s in
  mkAnalytics (total a) (successes a) (failures a) (mean (durations a))
    ((λ kv, (kv.1, (count kv.2, mean (rs_durations kv.2)))) <$> byRule a).

Definition resetAnalytics (s : Service E) : Service E := count_with (λ _, zero_counters) s.
End service.

(** ** Rules and compiled expressions *)

Section proofs.
Context {E V : Type} `{JSONata E V} (clock : nat → Z).
Implicit Types (s : Service E) (d : V) (r : TransformationRule).

Inductive Op :=
| Register (r : TransformationRule) | RegisterAll (rs : list TransformationRule) | Update (i : string) (u : RuleUpdate)
| Unregister (i : string) | Clear | Transform (d : V) (ctx : TransformationContext)
| TransformWith (d : V) (i : string) (ctx : option TransformationContext) | Reset.

Definition step (op : Op) (s : Service E) : Service E :=
  match op with
  | Register r => (registerRule r s).1
  | RegisterAll rs => (registerRules rs s).1
  | Update i u => (updateRule i u s).1
  | Unregister i => unregisterRule i s
  | Clear => clearRules s
  | Transform d ctx => (transform clock d ctx s).1
  | TransformWith d i ctx => (transformWithRule clock d i ctx s).1
  | Reset => resetAnalytics s
  end.

Definition run (ops : list Op) (s : Service E) : Service E := foldl (λ s op, step op s) s ops.

(** Updates that leave the id alone and give no empty expression. *)
Definition plain (op : Op) : Prop :=
  match op with Update _ u => u_id u = None ∧ u_expression u ≠ Some "" | _ => True end.

(** Every rule is filed under its id, has a status, and its compiled expression
    is that of its text; nothing else is compiled. *)
Definition wf (s : Service E) : Prop :=
  NoDup (map_keys (rules s)) ∧
  (∀ i r, map_get i (rules s) = Some r →
     r_id r = i ∧ is_Some (r_status r) ∧ ∃ e, compile (r_expression r) = inl e ∧ map_get i (compiledCache s) = Some e) ∧
  (∀ i, is_Some (map_get i (compiledCache s)) → is_Some (map_get i (rules s))).

(** The clock and the counters change no rule. *)
Definition same_rules (s s' : Service E) : Prop := rules s' = rules s ∧ compiledCache s' = compiledCache s.

Lemma wf_same s s' : same_rules s s' → wf s → wf s'.
Proof. intros [Hr Hc]. unfold wf. by rewrite Hr, Hc. Qed.

Lemma wf_set s i r e :
  wf s → r_id r = i → is_Some (r_status r) → compile (r_expression r) = inl e →
  wf (with_rules (map_set i r (rules s)) (map_set i e (compiledCache s)) s).
Proof.
  intros (Hnd & Hr & Hc) Hid Hst He. unfold wf, with_rules. cbn [rules compiledCache]. split_and!; [by apply map_set_nodup| |].
  - intros j r'. rewrite !map_get_set. destruct (bool_decide_reflect (j = i)) as [->|]; [intros; simplify_eq; eauto|apply Hr].
  - intros j. rewrite !map_get_set. destruct (bool_decide (j = i)); eauto.
Qed.

Lemma wf_register r s : wf s → wf (registerRule r s).1.
Proof.
  intros Hs. unfold registerRule. destruct (bool_decide _); [done|]. destruct (compile _) eqn:He; [|done]. by apply wf_set.
Qed.

Lemma wf_registerAll rs s : wf s → wf (registerRules rs s).1.
Proof.
  revert s. induction rs as [|r rs IH]; intros s Hs; [done|]. cbn [registerRules].
  pose proof (wf_register r s Hs) as Hs'. destruct (registerRule r s) as [s' [[]|err]]; [by apply IH|done].
Qed.

Lemma wf_update i u s : plain (Update i u) → wf s → wf (updateRule i u s).1.
Proof.
  intros [Hid Hex] Hs. pose proof Hs as (Hnd & Hr & Hc). unfold updateRule.
  destruct (map_get i (rules s)) as [r|] eqn:Hget; [|done]. destruct (Hr _ _ Hget) as (Hri & [st Hst] & e & He & Hce).
  assert (r_id (merge r u) = i) as Hmi by (unfold merge; cbn; by rewrite Hid).
  assert (is_Some (r_status (merge r u))) as Hms by (unfold merge; cbn; destruct (u_status u); eauto).
  unfold truthy_str. destruct (u_expression u) as [t|] eqn:Hu.
  - rewrite bool_decide_false by congruence. destruct (compile (r_expression (merge r u))) eqn:Hm; [|done]. by apply wf_set.
  - rewrite <- (map_set_same i e (compiledCache s)) by done. apply wf_set; [done..|]. unfold merge. cbn. by rewrite Hu.
Qed.

Lemma wf_unregister i s : wf s → wf (unregisterRule i s).
Proof.
  intros (Hnd & Hr & Hc). unfold wf, unregisterRule, with_rules. cbn [rules compiledCache].
  split_and!; [by apply map_delete_nodup| |].
  - intros j r. rewrite !map_get_delete. destruct (bool_decide (j = i)); [done|apply Hr].
  - intros j. rewrite !map_get_delete. destruct (bool_decide (j = i)); [by intros [? ?]|apply Hc].
Qed.

(** ** What applying rules does *)

(** The rules one after the other, each compiled afresh and given what the call of the
    one before returned. *)
Fixpoint pipeline (rs : list TransformationRule) (v : V) (last : option string) : V * option string :=
  match rs with
  | [] => (v, last)
  | r :: rs' =>
      match compile (r_expression r) with
      | inl e => pipeline rs' (promise (settles e v)) (Some (r_id r))
      | inr _ => (v, last)
      end
  end.

(** The rules meant for a context. *)
Definition selected (ctx : TransformationContext) (r : TransformationRule) : Prop :=
  (c_userRole ctx = Some "ADMIN" ∨ r_status r = Some ACTIVE) ∧
  (∀ t, r_contentType r = Some t → c_contentType ctx ≠ "" → ∃ u v, c_contentType ctx = u +:+ t +:+ v) ∧
  (∀ ts wanted, r_tags r = Some ts → ts ≠ [] → c_tags ctx = Some wanted → ∃ t, t ∈ ts ∧ t ∈ wanted).

Lemma type_mismatch_spec o response :
  type_mismatch o response = false ↔ ∀ t, o = Some t → response ≠ "" → ∃ u v, response = u +:+ t +:+ v.
Proof.
  unfold type_mismatch, truthy_str. destruct o as [t|]; [|naive_solver].
  destruct (bool_decide_reflect (t = "")) as [->|Ht].
  { split; [|done]. intros _ t [= <-] _. by exists "", response. }
  destruct (bool_decide_reflect (response = "")) as [->|Hr]; cbn [negb andb]; [naive_solver|].
  rewrite negb_false_iff, <- Is_true_true, str_contains_spec. naive_solver.
Qed.

Lemma applies_spec ctx r :
  applies ctx r ↔
  (∀ t, r_contentType r = Some t → c_contentType ctx ≠ "" → ∃ u v, c_contentType ctx = u +:+ t +:+ v) ∧
  (∀ ts wanted, r_tags r = Some ts → ts ≠ [] → c_tags ctx = Some wanted → ∃ t, t ∈ ts ∧ t ∈ wanted).
Proof.
  rewrite <- type_mismatch_spec. unfold applies. destruct (type_mismatch _ _); [naive_solver|].
  destruct (r_tags r) as [[|t ts]|], (c_tags ctx) as [wanted|]; try naive_solver.
  rewrite Is_true_true, existsb_exists. split.
  - intros (x & Hx & Hw%bool_decide_eq_true). split; [done|]. intros ? ? [= <-] _ [= <-]. exists x. by rewrite list_elem_of_In.
  - intros [_ Hex]. destruct (Hex (t :: ts) wanted) as (x & Hx & Hw); [done..|]. exists x. rewrite <- list_elem_of_In. split; [done|].
    by apply bool_decide_eq_true.
Qed.

Definition earlier (a b : TransformationRule) : Prop := default 999 (r_priority a) ≤ default 999 (r_priority b).

Lemma applicable_spec ctx s :
  wf s →
  let rs := getApplicableRules ctx s in
  (∀ r, r ∈ rs ↔ map_get (r_id r) (rules s) = Some r ∧ selected ctx r) ∧ NoDup rs ∧ StronglySorted earlier rs.
Proof.
  intros (Hnd & Hr & Hc). cbv zeta. unfold getApplicableRules, listRules. cbv zeta. change (truthy_str None) with (@None string). cbv iota beta.
  set (status := if bool_decide (c_userRole ctx = Some "ADMIN") then None else Some "ACTIVE").
  set (kept := match truthy_str status with
    Some st => List.filter (λ r, bool_decide (status_name <$> r_status r = Some st)) (map_values (rules s)) | None => map_values (rules s) end).
  assert (∀ r, r ∈ kept ↔ r ∈ map_values (rules s) ∧ (c_userRole ctx = Some "ADMIN" ∨ r_status r = Some ACTIVE)) as Hkept.
  { intros r. unfold kept, status. destruct (bool_decide_reflect (c_userRole ctx = Some "ADMIN")); [cbn [truthy_str]; naive_solver|].
    change (truthy_str (Some "ACTIVE")) with (Some "ACTIVE"). cbv iota beta. rewrite elem_of_bfilter, bool_decide_eq_true. destruct (r_status r) as [[]|]; cbn; naive_solver. }
  assert (∀ r, r ∈ map_values (rules s) ↔ map_get (r_id r) (rules s) = Some r) as Hval.
  { intros r. unfold map_values. split.
    - intros ([k r'] & -> & Hin)%list_elem_of_fmap. apply map_elem_get in Hin; [|done]. cbn [snd]. by destruct (Hr _ _ Hin) as [-> _].
    - intros Hg%map_get_elem. by apply (list_elem_of_fmap_2 snd) in Hg. }
  assert (NoDup (map_values (rules s))) as Hnv.
  { apply (NoDup_fmap_1 r_id). replace (r_id <$> map_values (rules s)) with (map_keys (rules s)); [done|].
    unfold map_keys, map_values. assert (∀ k r, (k, r) ∈ rules s → k = r_id r) as Hk.
    { intros k r Hin. apply map_elem_get in Hin; [|done]. symmetry. by apply (Hr _ _ Hin). }
    clear -Hk. induction (rules s) as [|[k r] l IH]; [done|]. cbn [List.map fst snd]. rewrite fmap_cons. f_equal.
    - apply Hk. by left.
    - apply IH. intros. apply Hk. by right. }
  split_and!.
  - intros r. rewrite js_sort_perm, elem_of_bfilter, js_sort_perm, Hkept, Hval, <- Is_true_true, applies_spec. unfold selected. tauto.
  - rewrite js_sort_perm. apply (NoDup_fmap_1 id), bfilter_key_nodup. rewrite list_fmap_id, js_sort_perm.
    unfold kept. destruct (truthy_str status); [|done]. apply (NoDup_fmap_1 id), bfilter_key_nodup. by rewrite list_fmap_id.
  - eapply SSorted_mono; [|apply js_sort_sorted; unfold by_priority; intros; lia]. unfold by_priority, earlier. cbn. lia.
Qed.

Definition rules_counted (a : Counters) : Prop :=
  ∀ i st, map_get i (byRule a) = Some st → count st = Z.of_nat (length (rs_durations st)) ∧ 0 < count st.

(** The counters but those of the rules. *)
Definition tally_of (a : Counters) : Z * Z * Z * list Z := (total a, successes a, failures a, durations a).

Lemma add_rule_counted i t a : rules_counted a → rules_counted (add_rule i t a).
Proof.
  intros Ha j st. unfold add_rule. cbn [byRule]. rewrite map_get_set. destruct (bool_decide_reflect (j = i)) as [->|]; [|apply Ha].
  intros [= <-]. cbn [count rs_durations]. rewrite length_app. cbn [length].
  destruct (map_get i (byRule a)) as [st|] eqn:Hget; cbn; [|lia]. destruct (Ha _ _ Hget). lia.
Qed.

Lemma apply_rules_frame rs d last s :
  let s' := (apply_rules clock rs d last s).1.1 in
  same_rules s s' ∧ tally_of (analytics s') = tally_of (analytics s) ∧ (rules_counted (analytics s) → rules_counted (analytics s')).
Proof.
  revert d last s. induction rs as [|r rs IH]; intros d last s; [done|]. cbn [apply_rules].
  destruct (map_get (r_id r) (compiledCache s)) as [e|]; [|apply IH]. cbn [now].
  cbn [evaluate]. unfold evaluate.
  match goal with |- context [apply_rules clock rs ?v ?l ?s1] => destruct (IH v l s1) as ([Hr Hc] & Ht & Hn) end.
  split_and!; [by split; rewrite ?Hr, ?Hc|by rewrite Ht|]. intros Ha. apply Hn. by apply add_rule_counted.
Qed.

Lemma apply_rules_pipeline rs d last s :
  wf s → (∀ r, r ∈ rs → map_get (r_id r) (rules s) = Some r) →
  (apply_rules clock rs d last s).2 = inl (pipeline rs d last).1 ∧ (apply_rules clock rs d last s).1.2 = (pipeline rs d last).2.
Proof.
  revert d last s. induction rs as [|r rs IH]; intros d last s Hs Hrs; [done|]. cbn [apply_rules pipeline].
  pose proof Hs as (_ & Hr & _). destruct (Hr (r_id r) r (Hrs r ltac:(by left))) as (_ & _ & e & He & Hce). rewrite Hce, He. cbn [now].
  unfold evaluate. apply IH; [|intros; apply Hrs; by right]. eapply wf_same; [|exact Hs]. done.
Qed.

(** What a transformation answers: always a success, with what the last call
    returned. *)
Definition answer (rs : list TransformationRule) (d : V) (t : Z) : TransformationResult V :=
  mkResult true (Some (pipeline rs d None).1) None (pipeline rs d None).2 t.

(** The counters after a transformation that took [t]: one to which some rule applies
    is a success. *)
Definition counted (rs : list TransformationRule) (t : Z) (a : Counters) : Z * Z * Z * list Z :=
  match rs with
  | [] => (total a + 1, successes a, failures a, durations a)
  | _ => (total a + 1, successes a + 1, failures a, durations a ++ [t])
  end.

Lemma transform_frame d ctx s :
  same_rules s (transform clock d ctx s).1 ∧
  (rules_counted (analytics s) → rules_counted (analytics (transform clock d ctx s).1)).
Proof.
  unfold transform. cbn [now]. set (s1 := count_with _ _).
  destruct (getApplicableRules ctx s1) as [|r rs]; [done|].
  pose proof (apply_rules_frame (r :: rs) d None s1) as (Hsame & _ & Hn).
  destruct (apply_rules clock (r :: rs) d None s1) as [[s2 last] res]. cbn [fst] in *. destruct res; split; try done; apply Hn.
Qed.

Lemma transform_answer d ctx s :
  wf s →
  let rs := getApplicableRules ctx s in
  ∃ t, (transform clock d ctx s).2 = answer rs d t ∧ tally_of (analytics (transform clock d ctx s).1) = counted rs t (analytics s).
Proof.
  intros Hs. cbv zeta. unfold transform, counted, answer. cbn [now]. set (s1 := count_with _ _).
  change (getApplicableRules ctx s1) with (getApplicableRules ctx s).
  assert (wf s1) as Hs1 by (by eapply wf_same; [|exact Hs]).
  destruct (applicable_spec ctx s Hs) as (Hin & _ & _).
  destruct (getApplicableRules ctx s) as [|r rs]; [by eexists|].
  destruct (apply_rules_pipeline (r :: rs) d None s1 Hs1 ltac:(intros; by apply Hin)) as [Hp Hp'].
  pose proof (apply_rules_frame (r :: rs) d None s1) as (_ & Ht & _).
  destruct (apply_rules clock (r :: rs) d None s1) as [[s2 last] res]. cbn [fst snd] in *. subst res last.
  unfold tally_of in *. cbn in Ht. injection Ht as H1 H2 H3 H4.
  eexists; (split; [reflexivity|]); cbn; by rewrite H1, H2, H3, H4.
Qed.

Lemma transformWithRule_frame d i ctx s :
  let s' := (transformWithRule clock d i ctx s).1 in
  same_rules s s' ∧ (rules_counted (analytics s) → rules_counted (analytics s')) ∧
  total (analytics s') = total (analytics s) + 1 ∧
  (tally_of (analytics s') = tally_of (add_total (analytics s)) ∨
   (∃ t, tally_of (analytics s') = tally_of (add_success t (add_total (analytics s)))) ∨
   tally_of (analytics s') = tally_of (add_failure (add_total (analytics s)))).
Proof.
  cbv zeta. unfold transformWithRule. cbn [now count_with rules compiledCache].
  destruct (map_get i (rules s)) as [r|]; [|split_and!; try done; by left].
  destruct (inactive r); [split_and!; try done; by left|].
  destruct (match ctx with Some c => _ | None => false end); [split_and!; try done; by left|].
  destruct (match map_get i (compiledCache s) with Some _ => _ | None => _ end) as [v|err].
  - split_and!; [done| |done|right; left; eexists; reflexivity]. intros Ha. cbn. apply (add_rule_counted i _ (add_total (analytics s))). exact Ha.
  - split_and!; try done. by right; right.
Qed.

(** The counters of a service: no more outcomes than calls, every success and
    no more than every outcome timed, the rules counted. *)
Definition counters_ok (a : Counters) : Prop :=
  0 ≤ successes a ∧ 0 ≤ failures a ∧ successes a + failures a ≤ total a ∧
  successes a ≤ Z.of_nat (length (durations a)) ≤ successes a + failures a ∧ rules_counted a.

Lemma counters_ok_tally a a' :
  tally_of a' = tally_of a → rules_counted a' → counters_ok a → counters_ok a'.
Proof. intros [= E1 E2 E3 E4] Hn (H1 & H2 & H3 & H4 & _). unfold counters_ok. by rewrite E1, E2, E3, E4. Qed.

Lemma step_counters op s : wf s → counters_ok (analytics s) → counters_ok (analytics (step op s)).
Proof.
  intros Hs Ha. pose proof Ha as (H1 & H2 & H3 & H4 & Hn). destruct op as [r|rs|i u|i| |d ctx|d i ctx|]; cbn [step].
  - unfold registerRule. repeat case_match; done.
  - clear Hs. revert s Ha H1 H2 H3 H4 Hn. induction rs as [|r rs IH]; intros s; [done|]. intros. cbn [registerRules].
    assert (analytics (registerRule r s).1 = analytics s) as Ea by (unfold registerRule; repeat case_match; done).
    destruct (registerRule r s) as [s' [[]|err]]; cbn [fst] in *; [apply IH; by rewrite Ea|by rewrite Ea].
  - unfold updateRule. repeat case_match; done.
  - done.
  - done.
  - destruct (transform_answer d ctx s Hs) as (t & _ & Ht). destruct (transform_frame d ctx s) as [_ Hn'].
    specialize (Hn' Hn). unfold counted, tally_of in Ht. unfold counters_ok. revert Ht.
    repeat case_match; intros [= E1 E2 E3 E4]; rewrite E1, E2, E3, E4, ?length_app; cbn [length]; split_and!; done || lia.
  - destruct (transformWithRule_frame d i ctx s) as (_ & Hn' & _ & Ht). specialize (Hn' Hn). unfold tally_of in Ht. unfold counters_ok.
    destruct Ht as [Ht|[[t Ht]|Ht]]; injection Ht as E1 E2 E3 E4; rewrite E1, E2, E3, E4; cbn; rewrite ?length_app; cbn [length]; split_and!; done || lia.
  - unfold counters_ok. cbn. split_and!; try lia. intros i st. done.
Qed.

Lemma rules_step_wf op s : plain op → wf s → wf (step op s).
Proof.
  intros Hp Hs. destruct op as [r|rs|i u|i| |d ctx|d i ctx|]; cbn [step];
    eauto using wf_register, wf_registerAll, wf_update, wf_unregister.
  - split_and!; [constructor|done|]. intros i [? ?]. done.
  - eapply wf_same; [apply transform_frame|done].
  - eapply wf_same; [apply transformWithRule_frame|done].
Qed.

(** After any calls (whose updates keep the ids of the rules and give no empty
    expression), every rule is filed under its id with the compiled expression of
    its text, nothing else is compiled, and the counters agree with each other. *)
Lemma rules_invariant ops : Forall plain ops → wf (run ops new_service) ∧ counters_ok (analytics (run ops new_service)).
Proof.
  unfold run. assert (wf (@new_service E) ∧ counters_ok (analytics (@new_service E))) as H0.
  { split; [split_and!; [constructor|done|by intros i [? ?]]|]. unfold counters_ok. cbn. split_and!; try lia. by intros i st. }
  revert H0. generalize (@new_service E). induction ops as [|op ops IH]; intros s [Hs Ha]; [done|].
  intros [Hp Hps]%Forall_cons. cbn [foldl]. apply IH; [|done]. split; [by apply rules_step_wf|by apply step_counters].
Qed.

(** C25: a transformation, after any calls whose updates keep the ids of the rules and
    give no empty expression, calls the rules meant for its context and no others, each
    once, in the order of their priorities, as if each were compiled from its text
    there and then.  Evaluation is asynchronous and not awaited: every rule gets the
    promise that the one before returned, the answer is a success with the last
    promise, whatever the promises settle to, or with the data as they are when no rule
    applies, and names the last rule.  The rules stay as they are, and one call, and
    one success if some rule applied, are counted. *)
Theorem transform_spec ops d ctx :
  Forall plain ops →
  let s := run ops new_service in
  let '(s', r) := transform clock d ctx s in
  ∃ rs t,
    (∀ x, x ∈ rs ↔ getRule (r_id x) s = Some x ∧ selected ctx x) ∧ NoDup rs ∧ StronglySorted earlier rs ∧
    (∀ x, x ∈ rs → ∃ e, compile (r_expression x) = inl e) ∧
    r = answer rs d t ∧ same_rules s s' ∧ tally_of (analytics s') = counted rs t (analytics s).
Proof.
  intros Hops. cbv zeta. destruct (rules_invariant ops Hops) as [Hs _]. set (s := run ops new_service) in *.
  destruct (applicable_spec ctx s Hs) as (Hin & Hnd & Hsort). destruct (transform_answer d ctx s Hs) as (t & Hr & Ht).
  destruct (transform_frame d ctx s) as [Hsame _]. destruct (transform clock d ctx s) as [s' r]. cbn [fst snd] in *.
  exists (getApplicableRules ctx s), t. split_and!; try done.
  intros x [Hx _]%Hin. pose proof Hs as (_ & Hr' & _). destruct (Hr' _ _ Hx) as (_ & _ & e & He & _). by exists e.
Qed.

(** A rule whose expression does not compile changes nothing: registering or
    updating it throws the error of the compiler; of several rules those before it
    are kept. *)
Theorem bad_rule_refused r err s before after :
  compile (r_expression r) = inr err → r_id r ≠ "" →
  registerRule r s = (s, inr err) ∧
  ((registerRules before s).2 = inl tt → registerRules (before ++ r :: after) s = ((registerRules before s).1, inr err)) ∧
  validateExpression (r_expression r) = (false, Some (message_or "Invalid JSONata expression" err)).
Proof.
  intros Hc Hid. assert (∀ s, registerRule r s = (s, inr err)) as Hreg.
  { intros s0. unfold registerRule. by rewrite bool_decide_false, Hc by done. }
  split_and!; [apply Hreg| |unfold validateExpression; by rewrite Hc]. revert s.
  induction before as [|b before IH]; intros s; cbn [registerRules app].
  - intros _. by rewrite Hreg.
  - destruct (registerRule b s) as [s' [[]|e]]; [apply IH|done].
Qed.
End proofs.

(** ** Examples *)

(** An interpreter of three expressions on integers; a promise on a promise fails. *)
Inductive Expr := Increment | Double | Fail.

Inductive Value := Plain (z : Z) | Promise (outcome : Value + thrown).

#[local] Instance arithmetic : JSONata Expr Value := {|
  compile := λ t, if bool_decide (t = "$ + 1") then inl Increment else if bool_decide (t = "$ * 2") then inl Double
    else if bool_decide (t = "$error()") then inl Fail else inr (ErrorObject "Syntax error");
  settles := λ e v, match e, v with
    | Increment, Plain z => inl (Plain (z + 1)) | Double, Plain z => inl (Plain (z * 2)) | _, _ => inr OtherValue end;
  promise := Promise |}.

Definition rule (i t : string) (p : Z) (st : option Status) : TransformationRule := mkRule i i None t (Some "json") st (Some p) None.

Definition three_rules : list (Op (V := Value)) :=
  [RegisterAll [rule "a" "$ * 2" 2 None; rule "b" "$ + 1" 1 None; rule "c" "$error()" 3 (Some INACTIVE)]].

Definition json_context (role : option string) : TransformationContext := mkContext "application/json" role None.

Example transform_spec_witness :
  let s := run Z.of_nat three_rules new_service in
  (let '(s', r) := transform Z.of_nat (Plain 5) (json_context None) s in
   ∃ rs t,
    (∀ x, x ∈ rs ↔ getRule (r_id x) s = Some x ∧ selected (json_context None) x) ∧ NoDup rs ∧ StronglySorted earlier rs ∧
    (∀ x, x ∈ rs → ∃ e, compile (r_expression x) = inl e) ∧
    r = answer rs (Plain 5) t ∧ same_rules s s' ∧ tally_of (analytics s') = counted rs t (analytics s)) ∧
  ruleId (transform Z.of_nat (Plain 5) (json_context None) s).2 = Some "a".
Proof. split; [|reflexivity]. apply (transform_spec Z.of_nat three_rules). by repeat constructor. Defined.

(** A rule that fails is reported as a success whose data is the promise, and a second
    rule is given the promise of the first instead of its value. *)
Example failure_reported_as_success :
  let s := (registerRule (V := Value) (rule "c" "$error()" 1 None) new_service).1 in
  let r := (transform Z.of_nat (Plain 5) (json_context None) s).2 in
  success r = true ∧ data r = Some (Promise (inr OtherValue)).
Proof. done. Qed.

Example second_rule_gets_a_promise :
  data (transform Z.of_nat (Plain 5) (json_context None) (run Z.of_nat three_rules new_service)).2 = Some (Promise (inr OtherValue)) ∧
  data (transformWithRule Z.of_nat (Plain 5) "b" None (run Z.of_nat three_rules new_service)).2 = Some (Promise (inl (Plain 6))).
Proof. done. Qed.

Example bad_rule_refused_witness :
  let r := rule "x" "$ +" 1 None in
  let s := run Z.of_nat three_rules new_service in
  registerRule r s = (s, inr (ErrorObject "Syntax error")) ∧
  ((registerRules [rule "d" "$ + 1" 0 None] s).2 = inl tt →
   registerRules ([rule "d" "$ + 1" 0 None] ++ r :: []) s = ((registerRules [rule "d" "$ + 1" 0 None] s).1, inr (ErrorObject "Syntax error"))) ∧
  validateExpression "$ +" = (false, Some (message_or "Invalid JSONata expression" (ErrorObject "Syntax error"))).
Proof.
  apply (bad_rule_refused (rule "x" "$ +" 1 None) (ErrorObject "Syntax error") (run Z.of_nat three_rules new_service)); [reflexivity|done].
Defined.

(** An administrator's response goes through the inactive rules too. *)
Example admin_gets_inactive_rules :
  let s := run Z.of_nat three_rules new_service in
  ruleId (transform Z.of_nat (Plain 5) (json_context (Some "ADMIN")) s).2 = Some "c" ∧
  ruleId (transform Z.of_nat (Plain 5) (json_context (Some "USER")) s).2 = Some "a".
Proof. done. Qed.

(** An update that changes the id of a rule: the rule is listed, and its
    expression is no longer found. *)
Example renamed_rule_is_skipped :
  let rename := Update "b" (mkUpdate (Some "z") None None None None None None None) in
  let s := run Z.of_nat (three_rules ++ [rename]) new_service in
  (r_id <$> listRules (Some "ACTIVE") None s) = ["z"; "a"] ∧
  data (transform Z.of_nat (Plain 5) (json_context None) s).2 = Some (Promise (inl (Plain 10))).
Proof. done. Qed.

(** An update with an empty expression: the text changes, what is applied does
    not. *)
Example empty_expression_keeps_the_old_one :
  let clear := Update "b" (mkUpdate None None None (Some "") None None None None) in
  let s := run Z.of_nat (three_rules ++ [clear]) new_service in
  (r_expression <$> getRule "b" s) = Some "" ∧
  data (transformWithRule Z.of_nat (Plain 5) "b" None s).2 = Some (Promise (inl (Plain 6))).
Proof. done. Qed.
