(* ===== verification/ResponseTransform.v ===== *)
(** * Payloads of responses: [frontend/src/lib/responseTransformer.ts]

    The recursive walk over the payload of a response that renames its keys,
    parses its dates, drops its nulls and coerces its numbers.  Values are those
    of the object library.  Two functions of the language are parameters: the
    instant a text of a date stands for, if it is one, and the number
    [Number(text)], if it is one. *)

From Stdlib Require Import Ascii.
From stdpp Require Import prelude strings list pretty.
From S2P Require Import Prelude JsText Json JsonParse ObjectLib.

(** ** Keys *)

Definition is_upper (c : ascii) : bool := bool_decide (65 ≤ nat_of_ascii c ≤ 90)%nat.

(** [[a-z0-9]] *)
Definition low_digit (c : ascii) : bool := is_lower c || is_digit c.

(** [.replace(/_([a-z0-9])/g, (_, char) => char.toUpperCase())] *)
Fixpoint join_words (s : string) : string :=
  match s with
  | "" => ""
  | String a s1 =>
      match s1 with
      | String c s2 => if bool_decide (a = "_"%char) && low_digit c then String (upper c) (join_words s2) else String a (join_words s1)
      | "" => s
      end
  end.

(** [.replace(/^a/, "b")] *)
Definition replace_head (a b : ascii) (s : string) : string :=
  match s with String c s' => if bool_decide (c = a) then String b s' else s | "" => "" end.

Definition snakeToCamel (key : string) : string :=
  replace_head " " "_" (join_words (replace_head "_" " " key)).

Fixpoint camelToSnake (key : string) : string :=
  match key with
  | "" => ""
  | String c s => if is_upper c then String "_" (String (lower c) (camelToSnake s)) else String c (camelToSnake s)
  end.

(** ** Dates *)

Fixpoint skip_digits (n : nat) (s : string) : option string :=
  match n, s with
  | O, _ => Some s
  | S n', String c s' => if is_digit c then skip_digits n' s' else None
  | _, _ => None
  end.

Definition skip_char (c : ascii) (s : string) : option string :=
  match s with String d s' => if bool_decide (d = c) then Some s' else None | "" => None end.

Fixpoint skip_all_digits (s : string) : string :=
  match s with String c s' => if is_digit c then skip_all_digits s' else s | "" => "" end.

Definition finished (o : option string) : bool := bool_decide (o = Some "").

(** [(?:\.\d+)?] *)
Definition skip_fraction (s : string) : string :=
  match skip_char "." s with
  | Some (String c s') => if is_digit c then skip_all_digits s' else s
  | _ => s
  end.

(** [(?:Z|[+-]\d{2}:?\d{2})?$] *)
Definition zone (s : string) : bool :=
  bool_decide (s = "") || bool_decide (s = "Z") ||
  match s with
  | String c s' =>
      (bool_decide (c = "+"%char) || bool_decide (c = "-"%char)) &&
      match skip_digits 2 s' with
      | Some r => finished (skip_digits 2 r) || finished (skip_char ":" r ≫= skip_digits 2)
      | None => false
      end
  | "" => false
  end.

(** [ISO_DATE_RE.test] *)
Definition ISO_DATE_RE (s : string) : bool :=
  match (r ← skip_digits 4 s; r ← skip_char "-" r; r ← skip_digits 2 r; r ← skip_char "-" r; skip_digits 2 r) with
  | None => false
  | Some r =>
      bool_decide (r = "") ||
      match (r ← skip_char "T" r; r ← skip_digits 2 r; r ← skip_char ":" r; r ← skip_digits 2 r; r ← skip_char ":" r; skip_digits 2 r) with
      | Some r => zone (skip_fraction r)
      | None => false
      end
  end.

Fixpoint ends_with (suffix s : string) : bool :=
  bool_decide (s = suffix) || match s with String _ s' => ends_with suffix s' | "" => false end.

(** [DATE_KEY_RE.test] *)
Definition DATE_KEY_RE (key : string) : bool := existsb (λ e, ends_with e key) ["_at"; "_date"; "At"; "Date"; "Time"; "time"].

Definition looksLikeDateString (s : string) (key : option string) : bool :=
  match truthy_str key with Some k => DATE_KEY_RE k | None => true end && ISO_DATE_RE s.

(** ** The walk *)

Record TransformerOptions := mkTransformer {
  normalizeCasing : option bool; parseDates : option bool; stripNulls : option bool; coerceNumbers : option bool }.

(** An option used as a condition, and [option !== false]. *)
Definition on (o : option bool) : bool := default false o.
Definition not_off (o : option bool) : bool := default true o.

Definition undefined (v : value) : bool := match v with VUndefined => true | _ => false end.

Section transform.
Context (date_of : string → option Z) (number_of : string → option string).

Definition new_key (o : TransformerOptions) (k : string) : string := if not_off (normalizeCasing o) then snakeToCamel k else k.

Fixpoint transformValue (o : TransformerOptions) (parentKey : option string) (v : value) : value :=
  match v with
  | VNull | VUndefined => if on (stripNulls o) then VUndefined else v
  | VStr s =>
      if on (parseDates o) && looksLikeDateString s parentKey
      then match date_of s with Some t => VDate (Some t) | None => v end
      else if on (coerceNumbers o) && negb (bool_decide (trim s = ""))
      then match number_of s with Some n => VNum n | None => v end
      else v
  | VBool _ | VNum _ => v
  | VDate _ => VObj []
  | VArr l =>
      VArr (List.filter (λ item, negb (on (stripNulls o) && undefined item))
        ((fix items l := match l with [] => [] | x :: l' => transformValue o parentKey x :: items l' end) l))
  | VObj l =>
      VObj ((fix entries (result : jsmap value) l :=
               match l with
               | [] => result
               | (k, v) :: l' =>
                   let transformed := transformValue o (Some k) v in
                   if on (stripNulls o) && undefined transformed then entries result l'
                   else entries (map_set (new_key o k) transformed result) l'
               end) [] l)
  end.

Definition buildTransformationLog (o : TransformerOptions) : list string :=
  (if not_off (normalizeCasing o) then ["camelCase normalization"] else []) ++
  (if on (parseDates o) then ["ISO date parsing"] else []) ++
  (if on (stripNulls o) then ["null pruning"] else []) ++
  (if on (coerceNumbers o) then ["numeric coercion"] else []).

Definition defaultTransform (data : value) : value := transformValue (mkTransformer (Some true) None None None) None data.

(** [{ ...defaults, ...options }] *)
Definition fullTransform (data : value) (o : option TransformerOptions) : value :=
  let pick {A} (given default_ : option A) := match given with Some x => Some x | None => default_ end in
  let o := default (mkTransformer None None None None) o in
  transformValue (mkTransformer (pick (normalizeCasing o) (Some true)) (pick (parseDates o) (Some true))
    (pick (stripNulls o) (Some false)) (pick (coerceNumbers o) (Some false))) None data.
End transform.

Example iso_dates :
  ISO_DATE_RE "2024-01-31" = true ∧ ISO_DATE_RE "2024-01-31T10:00:00.123Z" = true ∧ ISO_DATE_RE "2024-01-31T10:00:00+0100" = true ∧
  ISO_DATE_RE "2024-01-31T10:00:00-01:00" = true ∧ ISO_DATE_RE "2024-01-31T10:00" = false ∧ ISO_DATE_RE "2024-1-31" = false ∧
  ISO_DATE_RE "2024-01-31T10:00:00." = false ∧ ISO_DATE_RE "2024-01-31x" = false.
Proof. vm_compute. done. Qed.

Example camel_keys :
  snakeToCamel "created_at" = "createdAt" ∧ snakeToCamel "_private_key" = "_privateKey" ∧ snakeToCamel "a__b" = "a_B" ∧
  snakeToCamel "level_2" = "level2" ∧ camelToSnake "createdAt" = "created_at" ∧ snakeToCamel " x" = "_x".
Proof. vm_compute. done. Qed.

(** ** Keys there and back *)

(** Keys in the style of the server: words of lower-case letters and digits joined by
    single underscores, each word after the first beginning with a letter. *)
Fixpoint snake_tail (s : string) : bool :=
  match s with
  | "" => true
  | String c s1 =>
      if bool_decide (c = "_"%char) then match s1 with String d s2 => is_lower d && snake_tail s2 | "" => false end
      else low_digit c && snake_tail s1
  end.

Definition snake_key (k : string) : bool := match k with String c _ => low_digit c | "" => true end && snake_tail k.

Definition alnum (c : ascii) : bool := low_digit c || is_upper c.

(** The keys the application uses: letters and digits, not a capital first. *)
Definition camel_key (k : string) : bool := match k with String c _ => low_digit c | "" => true end && all_chars alnum k.

Lemma low_digit_facts c : low_digit c → c ≠ "_"%char ∧ c ≠ " "%char ∧ is_upper c = false.
Proof.
  assert (implb (low_digit c) (negb (bool_decide (c = "_"%char)) && negb (bool_decide (c = " "%char)) && negb (is_upper c)) = true) as Hc.
  { revert c. apply ascii_forall. by vm_compute. }
  destruct (low_digit c); [|done]. intros _. cbn [implb] in Hc. rewrite !andb_true_iff, !negb_true_iff, !bool_decide_eq_false in Hc. tauto.
Qed.

Lemma lower_upper c : is_lower c → low_digit c ∧ is_upper (upper c) = true ∧ lower (upper c) = c.
Proof.
  assert (implb (is_lower c) (low_digit c && is_upper (upper c) && bool_decide (lower (upper c) = c)) = true) as Hc.
  { revert c. apply ascii_forall. by vm_compute. }
  destruct (is_lower c); [|done]. intros _. cbn [implb] in Hc. rewrite !andb_true_iff, bool_decide_eq_true in Hc. by destruct Hc as [[-> ?] ?].
Qed.

Lemma upper_lower c : is_upper c → low_digit (lower c) = true ∧ upper (lower c) = c.
Proof.
  assert (implb (is_upper c) (low_digit (lower c) && bool_decide (upper (lower c) = c)) = true) as Hc.
  { revert c. apply ascii_forall. by vm_compute. }
  destruct (is_upper c); [|done]. intros _. cbn [implb] in Hc. by rewrite !andb_true_iff, bool_decide_eq_true in Hc.
Qed.

Lemma join_words_cons c s : c ≠ "_"%char → join_words (String c s) = String c (join_words s).
Proof. intros Hc. cbn [join_words]. destruct s; [done|]. by rewrite bool_decide_false. Qed.

(** Neither a leading underscore nor a leading space. *)
Lemma plain_head c s : low_digit c → snakeToCamel (String c s) = String c (join_words s).
Proof.
  intros (H1 & H2 & _)%low_digit_facts. unfold snakeToCamel, replace_head at 2. rewrite bool_decide_false, join_words_cons by done.
  unfold replace_head. by rewrite bool_decide_false.
Qed.

Lemma split_join s : snake_tail s → camelToSnake (join_words s) = s.
Proof.
  remember (String.length s) as n eqn:Hn. assert (String.length s ≤ n)%nat as Hlen by lia. clear Hn. revert s Hlen.
  induction n as [|n IH]; intros [|c s] Hlen; try done; [cbn in Hlen; lia|]. cbn [snake_tail String.length] in *.
  destruct (bool_decide_reflect (c = "_"%char)) as [->|Hc].
  - destruct s as [|d s]; [done|]. intros [Hd Hs]%andb_True. destruct (lower_upper d Hd) as (Hl & Hu & Hlu).
    apply Is_true_true in Hl. cbn [join_words]. rewrite bool_decide_true, Hl by done. cbn [andb camelToSnake]. rewrite Hu, Hlu, IH; [done| |done].
    cbn in Hlen. lia.
  - intros [Hd Hs]%andb_True. rewrite join_words_cons by done. cbn [camelToSnake].
    destruct (low_digit_facts c Hd) as (_ & _ & ->). by rewrite IH by (done || lia).
Qed.

Lemma join_split s : all_chars alnum s → join_words (camelToSnake s) = s.
Proof.
  induction s as [|c s IH]; [done|]. cbn [all_chars camelToSnake]. intros [Hc Hs]%andb_True.
  destruct (is_upper c) eqn:Hu.
  - destruct (upper_lower c) as [Hl Hcu]; [by rewrite Hu|]. cbn [join_words]. rewrite bool_decide_true, Hl, Hcu by done. cbn [andb]. by rewrite IH.
  - unfold alnum in Hc. rewrite Hu, orb_false_r in Hc. destruct (low_digit_facts c Hc) as (H1 & _). by rewrite join_words_cons, IH.
Qed.

(** Renaming is a bijection between the keys of the server and those of the
    application. *)
Lemma snake_roundtrip k : snake_key k → camelToSnake (snakeToCamel k) = k.
Proof.
  destruct k as [|c s]; [done|]. unfold snake_key. intros [Hc Hs]%andb_True. rewrite plain_head by done.
  destruct (low_digit_facts c Hc) as (H1 & _). rewrite <- join_words_cons by done. by apply split_join.
Qed.

Lemma camel_roundtrip k : camel_key k → snakeToCamel (camelToSnake k) = k.
Proof.
  destruct k as [|c s]; [done|]. unfold camel_key. intros [Hc Hs]%andb_True. pose proof (low_digit_facts c Hc) as (H1 & _ & H3).
  pose proof (join_split _ Hs) as Hj. cbn [camelToSnake] in *. rewrite H3 in *. rewrite plain_head by done. by rewrite join_words_cons in Hj by done.
Qed.

(** ** Payloads there and back *)

(** A JSON payload whose objects have keys in the style of the server, none
    twice. *)
Fixpoint payload (v : value) : bool :=
  match v with
  | VUndefined | VDate _ => false
  | VArr l => forallb payload l
  | VObj l => forallb (λ kv, snake_key kv.1 && payload kv.2) l && bool_decide (NoDup (fst <$> l))
  | _ => true
  end.

(** Every key renamed by a function. *)
Fixpoint rename (f : string → string) (v : value) : value :=
  match v with
  | VArr l => VArr (rename f <$> l)
  | VObj l => VObj ((λ kv, (f kv.1, rename f kv.2)) <$> l)
  | _ => v
  end.

Section walk.
Context (date_of : string → option Z) (number_of : string → option string).
Let transformValue := transformValue date_of number_of.

Definition entry (o : TransformerOptions) (result : jsmap value) (kv : string * value) : jsmap value :=
  let t := transformValue o (Some kv.1) kv.2 in
  if on (stripNulls o) && undefined t then result else map_set (new_key o kv.1) t result.

Lemma transform_obj o p l : transformValue o p (VObj l) = VObj (foldl (entry o) [] l).
Proof.
  unfold transformValue. cbn [ResponseTransform.transformValue]. f_equal. generalize ([] : jsmap value). induction l as [|[k v] l IH]; intros acc; [done|]. cbn [foldl]. rewrite <- IH. unfold entry. cbn [fst snd].
  fold transformValue. by destruct (on (stripNulls o) && _).
Qed.

Lemma transform_arr o p l :
  transformValue o p (VArr l) = VArr (List.filter (λ x, negb (on (stripNulls o) && undefined x)) (transformValue o p <$> l)).
Proof. reflexivity. Qed.

Lemma entries_plain o l acc :
  on (stripNulls o) = false → NoDup (map_keys acc ++ (new_key o <$> (fst <$> l))) →
  foldl (entry o) acc l = acc ++ ((λ kv, (new_key o kv.1, transformValue o (Some kv.1) kv.2)) <$> l).
Proof.
  intros Ho. revert acc. induction l as [|[k v] l IH]; intros acc Hnd; [by rewrite app_nil_r|]. cbn [foldl].
  rewrite !fmap_cons in Hnd. cbn [fst] in Hnd. unfold entry at 2. rewrite Ho. cbn [andb fst snd].
  assert (new_key o k ∉ map_keys acc) as Hk by (apply NoDup_app in Hnd as (_ & Hd & _); intros Hin; by destruct (Hd _ Hin); left).
  rewrite map_set_new by done. rewrite IH, <- app_assoc; [done|]. unfold map_keys in *. rewrite List.map_app, <- app_assoc. done.
Qed.

Definition casing_only : TransformerOptions := mkTransformer (Some true) None None None.

Lemma transform_rename v p : payload v → transformValue casing_only p v = rename snakeToCamel v.
Proof.
  revert p. induction v as [| |b|t|s|t|l IH|l IH] using value_induction; intros p Hv; try done.
  - rewrite transform_arr. cbn [rename]. f_equal. cbn [payload] in Hv.
    assert (transformValue casing_only p <$> l = rename snakeToCamel <$> l) as ->.
    { induction IH as [|x l Hx _ IHl]; [done|]. cbn [forallb] in Hv. apply andb_True in Hv as [? ?]. by rewrite !fmap_cons, Hx, IHl. }
    generalize (rename snakeToCamel <$> l). intros k. induction k as [|x k IHk]; [done|]. cbn. by f_equal.
  - rewrite transform_obj. cbn [rename payload] in *. apply andb_True in Hv as [Hkv Hnd]. apply bool_decide_unpack in Hnd. f_equal.
    rewrite Is_true_true, forallb_forall in Hkv. setoid_rewrite <- list_elem_of_In in Hkv. setoid_rewrite <- Is_true_true in Hkv.
    rewrite entries_plain; [|done|].
    + rewrite Forall_forall in IH. apply list_fmap_ext. intros i [k x] Hin%list_elem_of_lookup_2. cbn [fst snd]. f_equal.
      apply (IH (k, x) Hin). by apply Hkv in Hin as [_ ?]%andb_True.
    + cbn [map_keys List.map app]. apply NoDup_fmap_2_strong; [|done].
      intros a b Ha Hb. unfold new_key. cbn [not_off normalizeCasing casing_only from_option id]. intros Eab.
      apply list_elem_of_fmap in Ha as (ka & -> & Ha). apply list_elem_of_fmap in Hb as (kb & -> & Hb).
      apply Hkv, andb_True in Ha as [Ha _]. apply Hkv, andb_True in Hb as [Hb _].
      by rewrite <- (snake_roundtrip _ Ha), <- (snake_roundtrip _ Hb), Eab.
Qed.

Lemma rename_back v : payload v → rename camelToSnake (rename snakeToCamel v) = v.
Proof.
  induction v as [| |b|t|s|t|l IH|l IH] using value_induction; intros Hv; try done; cbn [rename payload] in *.
  - f_equal. induction IH as [|x l Hx _ IHl]; [done|]. cbn [forallb] in Hv. apply andb_True in Hv as [? ?]. by rewrite !fmap_cons, Hx, IHl.
  - apply andb_True in Hv as [Hv _]. f_equal. induction IH as [|[k x] l Hx _ IHl]; [done|]. cbn [forallb fst snd] in Hv.
    apply andb_True in Hv as [[Hk Hx']%andb_True Hl]. rewrite !fmap_cons, IHl by done. cbn [fst snd]. by rewrite snake_roundtrip, Hx.
Qed.

(** C27: the transformation of every response by default loses nothing of a payload
    whose objects have unique keys in the style of the server, words of lower-case
    letters and digits joined by single underscores, each after the first starting
    with a letter: from what the application gets, renaming its keys gives back
    the payload the server sent, however deep.  Other keys may collide
    ([keys_collide]) or come back changed. *)
Theorem transform_roundtrip v : payload v → rename camelToSnake (defaultTransform date_of number_of v) = v.
Proof.
  intros Hv. unfold defaultTransform. change (rename camelToSnake (transformValue casing_only None v) = v).
  by rewrite transform_rename, rename_back.
Qed.

(** ** Null pruning *)

Fixpoint null_free (v : value) : bool :=
  match v with
  | VUndefined | VNull => false
  | VArr l => forallb null_free l
  | VObj l => forallb (λ kv, null_free kv.2) l
  | _ => true
  end.

Lemma map_set_all (P : value → bool) k v m :
  P v → forallb (λ kv, P kv.2) m → forallb (λ kv, P kv.2) (map_set k v m).
Proof.
  intros Hv. induction m as [|[j w] m IH]; cbn; [by rewrite andb_true_r|]. intros [Hw Hm]%andb_True.
  case_bool_decide; cbn; apply andb_True; auto.
Qed.

(** With nulls stripped, no null is left anywhere in a payload: the answer has
    none, or is itself [undefined]. *)
Theorem strip_nulls_spec o p v :
  on (stripNulls o) = true →
  transformValue o p v = VUndefined ∨ null_free (transformValue o p v).
Proof.
  intros Ho. revert p. induction v as [| |b|t|s|t|l IH|l IH] using value_induction; intros p; try (by right).
  - left. cbn. by rewrite Ho.
  - left. cbn. by rewrite Ho.
  - right. cbn. repeat case_match; done.
  - right. rewrite transform_arr, Ho. cbn [andb null_free]. induction IH as [|x l Hx _ IHl]; [done|]. rewrite fmap_cons. cbn [List.filter].
    destruct (Hx p) as [E|Hn]; [by rewrite E|]. destruct (undefined _); cbn [negb]; [done|]. cbn [forallb]. by apply andb_True.
  - right. rewrite transform_obj. cbn [null_free]. assert (forallb (λ kv : string * value, null_free kv.2) []) as H0 by done. revert H0.
    generalize ([] : jsmap value). induction IH as [|[k x] l Hx _ IHl]; intros acc Hacc; [done|]. cbn [foldl]. apply IHl.
    unfold entry. cbn [fst snd]. rewrite Ho. destruct (Hx (Some k)) as [E|Hn]; cbn [snd] in *; [by rewrite E|].
    destruct (undefined _); cbn [andb]; [done|]. by apply map_set_all.
Qed.
End walk.

Example transform_roundtrip_witness :
  let v := VObj [("user_id", VNum "7"); ("last_seen_at", VNull); ("match_list", VArr [VObj [("is_won", VBool true)]])] in
  rename camelToSnake (defaultTransform (λ _, None) (λ _, None) v) = v ∧
  defaultTransform (λ _, None) (λ _, None) v =
    VObj [("userId", VNum "7"); ("lastSeenAt", VNull); ("matchList", VArr [VObj [("isWon", VBool true)]])].
Proof. split; [|reflexivity]. apply transform_roundtrip. by vm_compute. Defined.

Example strip_nulls_spec_witness :
  let o := mkTransformer None None (Some true) None in
  let v := VObj [("a", VNull); ("b", VArr [VNull; VNum "1"])] in
  transformValue (λ _, None) (λ _, None) o None v = VObj [("b", VArr [VNum "1"])] ∧
  (transformValue (λ _, None) (λ _, None) o None v = VUndefined ∨ null_free (transformValue (λ _, None) (λ _, None) o None v)).
Proof. split; [reflexivity|]. by apply strip_nulls_spec. Defined.

(** Two keys that are renamed to the same one: the first value is lost. *)
Example keys_collide :
  defaultTransform (λ _, None) (λ _, None) (VObj [("user_id", VNum "1"); ("userId", VNum "2")]) = VObj [("userId", VNum "2")].
Proof. reflexivity. Qed.

(** A date is an object without entries: a payload with dates transformed a
    second time loses them. *)
Example dates_lost_twice :
  let t := transformValue (λ _, Some 0) (λ _, None) (mkTransformer None (Some true) None None) None in
  t (VObj [("created_at", VStr "1970-01-01")]) = VObj [("createdAt", VDate (Some 0))] ∧
  t (t (VObj [("created_at", VStr "1970-01-01")])) = VObj [("createdAt", VObj [])].
Proof. vm_compute. done. Qed.
