(* ===== verification/ResponseInterceptor.v ===== *)
(** * The interceptor of responses

    [frontend/src/lib/responseInterceptor.ts] and [responseGovernance.ts]: what
    every raw answer of the API becomes before the application sees it, the
    policies it is checked against, and the rolling windows of the monitor.

    The module-level variables of the two files are one record.  A call is
    synchronous and takes place at one instant, an argument.  Functions of the
    browser are parameters: the path of a URL, if it is one, the length in bytes
    of the text of a value, if it can be computed, and those of the transformer.
    Averages are exact; latencies and counters are integers. *)

From Stdlib Require Import Ascii QArith.
From stdpp Require Import prelude strings list pretty sorting.
From S2P Require Import Prelude JsText Json ObjectLib ResponseTransform.

#[local] Open Scope Z_scope.

(** ** Data *)

Record InterceptedRequest := mkIntercepted {
  i_url : string; i_method : string; i_statusCode : Z; i_latencyMs : Z; i_retries : Z; i_cached : option bool; i_traceId : option string }.

Record ResponseMeta := mkMeta {
  receivedAt : string; latencyMs : Z; statusCode : Z; requestPath : string; requestMethod : string; traceId : string; retries : Z;
  cached : bool; transformations : list string }.

(** [success] is whatever the server put there. *)
Record StandardResponse := mkStandard {
  success : value; status : string; data : value; message : value; meta : ResponseMeta }.

Record PaginationMeta := mkPagination {
  p_page : Z; p_limit : Z; p_total : Z; p_totalPages : Z; hasNextPage : bool; hasPrevPage : bool }.

(** Code and message are what the server put there. *)
Record ErrorBody := mkErrorBody { e_code : value; e_message : value; e_field : option string; e_statusCode : option Z }.

Record StandardErrorResponse := mkStandardError { error : ErrorBody; error_meta : ResponseMeta }.

Record ResponseAnalyticsEvent := mkEvent {
  ev_traceId : string; endpoint : string; ev_method : string; ev_statusCode : Z; ev_latencyMs : Z; ev_success : value; ev_retries : Z;
  ev_cached : bool; ev_timestamp : Z; payloadBytes : option Z; slow : bool }.

Inductive Severity := warn | error_ | critical.

#[export] Instance Severity_eq_dec : EqDecision Severity.
Proof. solve_decision. Defined.

Record GovernanceViolation := mkViolation {
  v_rule : string; v_message : string; v_severity : Severity; v_endpoint : string; v_traceId : string; v_timestamp : Z }.

(** [validate] answers a message, or [null], or throws. *)
Record GovernancePolicy := mkPolicy {
  pol_name : string; pol_severity : Severity; validate : StandardResponse → ResponseMeta → result (option string) }.

Record GovernanceRunnerOptions := mkRunner {
  extraPolicies : list GovernancePolicy; throwOnCritical : bool; onViolation : option (GovernanceViolation → result unit) }.

Record Config := mkConfig {
  c_normalizeCasing : bool; c_parseDates : bool; c_stripNulls : bool; c_maxCacheAgeMs : Z; analyticsEnabled : bool; slowResponseThresholdMs : Z }.

Record Interceptor := mkInterceptor { config : Config; governanceOptions : GovernanceRunnerOptions }.

Record Client := mkClient {
  traceCounter : Z; analyticsEvents : list ResponseAnalyticsEvent; monitorWindow : list ResponseAnalyticsEvent;
  errorsByCode : jsmap Z; latencyByEndpoint : jsmap (list Z); violations : list GovernanceViolation }.

Definition new_client : Client := mkClient 0 [] [] [] [] [].

(** A value used as a condition. *)
Definition truthy (v : value) : bool :=
  match v with
  | VUndefined | VNull => false
  | VBool b => b
  | VNum t => negb (bool_decide (t ∈ ["0"; "-0"; "NaN"]))
  | VStr s => negb (bool_decide (s = ""))
  | _ => true
  end.

(** ** Governance *)

Definition envelopeShapePolicy : GovernancePolicy := mkPolicy "envelope-shape" warn (λ r _, Ok
  match success r with VUndefined | VNull => Some "Response envelope is missing the `success` field" | _ => None end).

Definition successMismatchPolicy : GovernancePolicy := mkPolicy "success-status-mismatch" warn (λ r m, Ok
  (if bool_decide (200 ≤ statusCode m < 300) && strict_equal (success r) (VBool false)
   then Some ("HTTP " +:+ pretty (statusCode m) +:+ " but response.success is false") else None)).

(** [Math.round(a / b)] of integers, [b > 0] *)
Definition round_div (a b : Z) : Z := (2 * a + b) / (2 * b).

(** The text of an exception that is an [Error]. *)
Definition exn_message (e : exn) : string :=
  match e with HttpError _ m | JsError m => m | PrismaError code => code | UniqueConstraint _ => "P2002" end.

(** [unshift], then a cut at the limit. *)
Definition push_front {A} (limit : nat) (x : A) (l : list A) : list A := take limit (x :: l).

Definition MAX_VIOLATIONS : nat := 100.
Definition MAX_ANALYTICS_EVENTS : nat := 500.
Definition MAX_MONITOR_WINDOW : nat := 200.
Definition MAX_SAMPLES : nat := 50.

Definition recordViolation (v : GovernanceViolation) (store : list GovernanceViolation) : list GovernanceViolation :=
  push_front MAX_VIOLATIONS v store.

Section client.
Context (pathname : string → option string) (bytes : value → option Z).
Context (date_of : string → option Z) (number_of : string → option string).

Definition payloadSizePolicy : GovernancePolicy := mkPolicy "payload-size" warn (λ r _, Ok
  match bytes (data r) with
  | Some n => if bool_decide (500000 < n) then Some ("Response payload is " +:+ pretty (round_div n 1024) +:+ " KB — consider pagination") else None
  | None => None
  end).

Definition rateLimitPolicy : GovernancePolicy := mkPolicy "rate-limit" warn (λ _ m, Ok
  (if bool_decide (statusCode m = 429) then Some ("Endpoint " +:+ requestPath m +:+ " is being rate-limited") else None)).

Definition latencyThresholdPolicy : GovernancePolicy := mkPolicy "latency-threshold" error_ (λ _ m, Ok
  (if bool_decide (10000 < latencyMs m)
   then Some ("Response latency " +:+ pretty (latencyMs m) +:+ "ms exceeds the 10 s governance threshold") else None)).

Definition DEFAULT_POLICIES : list GovernancePolicy :=
  [envelopeShapePolicy; successMismatchPolicy; payloadSizePolicy; rateLimitPolicy; latencyThresholdPolicy].

(** The body of the [try]: what the policy finds is recorded before anything
    can throw. *)
Definition check_policy (now : Z) (o : GovernanceRunnerOptions) (r : StandardResponse) (m : ResponseMeta) (p : GovernancePolicy)
    (store found : list GovernanceViolation) : list GovernanceViolation * list GovernanceViolation * result unit :=
  match validate p r m with
  | Throw e => (store, found, Throw e)
  | Ok text =>
      match truthy_str text with
      | None => (store, found, Ok tt)
      | Some message =>
          let v := mkViolation (pol_name p) message (pol_severity p) (requestPath m) (traceId m) now in
          (recordViolation v store, found ++ [v],
           match match onViolation o with Some f => f v | None => Ok tt end with
           | Throw e => Throw e
           | Ok _ =>
               if throwOnCritical o && bool_decide (pol_severity p = critical)
               then Throw (JsError ("[ArenaX Governance] Critical violation: " +:+ pol_name p +:+ " — " +:+ message))
               else Ok tt
           end)
      end
  end.

Fixpoint run_policies (now : Z) (o : GovernanceRunnerOptions) (r : StandardResponse) (m : ResponseMeta) (ps : list GovernancePolicy)
    (store found : list GovernanceViolation) : list GovernanceViolation * result (list GovernanceViolation) :=
  match ps with
  | [] => (store, Ok found)
  | p :: ps' =>
      let '(store, found, outcome) := check_policy now o r m p store found in
      match outcome with
      | Throw e => if String.prefix "[ArenaX Governance]" (exn_message e) then (store, Throw e) else run_policies now o r m ps' store found
      | Ok _ => run_policies now o r m ps' store found
      end
  end.

Definition runGovernance (now : Z) (o : GovernanceRunnerOptions) (r : StandardResponse) (m : ResponseMeta) : M Client (list GovernanceViolation) := λ s,
  let '(store, res) := run_policies now o r m (DEFAULT_POLICIES ++ extraPolicies o) (violations s) [] in
  (mkClient (traceCounter s) (analyticsEvents s) (monitorWindow s) (errorsByCode s) (latencyByEndpoint s) store, res).

Definition clearGovernanceViolations (s : Client) : Client :=
  mkClient (traceCounter s) (analyticsEvents s) (monitorWindow s) (errorsByCode s) (latencyByEndpoint s) [].

Definition getViolationsByEndpoint (e : string) (s : Client) : list GovernanceViolation :=
  List.filter (λ v, bool_decide (v_endpoint v = e)) (violations s).

Definition getViolationsBySeverity (x : Severity) (s : Client) : list GovernanceViolation :=
  List.filter (λ v, bool_decide (v_severity v = x)) (violations s).

Definition severity_name (x : Severity) : string := match x with warn => "warn" | error_ => "error" | critical => "critical" end.

Record GovernanceSummary := mkSummary {
  totalViolations : Z; byRule : jsmap Z; bySeverity : jsmap Z; topOffendingEndpoints : list (string * Z) }.

Definition getGovernanceSummary (s : Client) : GovernanceSummary :=
  let vs := violations s in
  mkSummary (Z.of_nat (length vs)) (foldl tally [] (v_rule <$> vs))
    (foldl tally [("warn", 0); ("error", 0); ("critical", 0)] (severity_name ∘ v_severity <$> vs))
    (js_take 10 (js_sort (λ a b, b.2 - a.2) (foldl tally [] (v_endpoint <$> vs)))).

(** ** Trace ids and paths *)

Definition digit36 (d : Z) : ascii := ascii_of_nat (Z.to_nat (if bool_decide (d < 10) then 48 + d else 87 + d)).

(** [n.toString(36)] of an integer that is not negative; sixty-four digits are
    more than any instant or counter has. *)
Fixpoint digits36 (fuel : nat) (n : Z) (acc : string) : string :=
  match fuel with
  | O => acc
  | S fuel' =>
      let acc := String (digit36 (n mod 36)) acc in
      if bool_decide (n < 36) then acc else digits36 fuel' (n / 36) acc
  end.
Definition base36 (n : Z) : string := digits36 64 n "".

Definition MAX_SAFE_INTEGER : Z := 2 ^ 53 - 1.

Definition generateTraceId (now : Z) : M Client string := λ s,
  let c := (traceCounter s + 1) mod MAX_SAFE_INTEGER in
  (mkClient c (analyticsEvents s) (monitorWindow s) (errorsByCode s) (latencyByEndpoint s) (violations s),
   Ok ("tx-" +:+ base36 now +:+ "-" +:+ base36 c)).

Definition extractPath (url : string) : string :=
  match pathname url with Some p => p | None => split_head "?" url end.

(** ** The monitor *)

Definition recordAnalyticsEvent (e : ResponseAnalyticsEvent) (s : Client) : Client :=
  mkClient (traceCounter s) (push_front MAX_ANALYTICS_EVENTS e (analyticsEvents s)) (monitorWindow s) (errorsByCode s) (latencyByEndpoint s) (violations s).

Definition clearAnalyticsEvents (s : Client) : Client :=
  mkClient (traceCounter s) [] (monitorWindow s) (errorsByCode s) (latencyByEndpoint s) (violations s).

(** [push], and [shift] of the oldest over the limit. *)
Definition add_sample (t : Z) (l : list Z) : list Z :=
  let l := l ++ [t] in if bool_decide (MAX_SAMPLES < length l)%nat then drop 1 l else l.

Definition updateMonitor (e : ResponseAnalyticsEvent) (s : Client) : Client :=
  mkClient (traceCounter s) (analyticsEvents s) (push_front MAX_MONITOR_WINDOW e (monitorWindow s))
    (if truthy (ev_success e) then errorsByCode s else tally (errorsByCode s) (pretty (ev_statusCode e)))
    (map_set (endpoint e) (add_sample (ev_latencyMs e) (default [] (map_get (endpoint e) (latencyByEndpoint s)))) (latencyByEndpoint s))
    (violations s).

Definition percentile (sorted : list Z) (p : Z) : Z :=
  match sorted with
  | [] => 0
  | _ => default 0 (sorted !! Z.to_nat (Z.min (Z.of_nat (length sorted) * p / 100) (Z.of_nat (length sorted) - 1)))
  end.

Record ResponseMonitorSnapshot := mkSnapshot {
  totalRequests : Z; successCount : Z; errorCount : Z; cachedCount : Z; successRate : Q; averageLatencyMs : Z; p50LatencyMs : Z;
  p95LatencyMs : Z; p99LatencyMs : Z; slowRequestCount : Z; slowRequestRate : Q; s_errorsByCode : jsmap Z;
  s_latencyByEndpoint : jsmap Z; lastUpdated : Z }.

Definition count_where (f : ResponseAnalyticsEvent → bool) (l : list ResponseAnalyticsEvent) : Z := Z.of_nat (length (List.filter f l)).

Definition sorted_latencies (l : list ResponseAnalyticsEvent) : list Z := js_sort (λ a b, a - b) (ev_latencyMs <$> l).

Definition getMonitorSnapshot (now : Z) (s : Client) : ResponseMonitorSnapshot :=
  let w := monitorWindow s in
  let total := Z.of_nat (length w) in
  match w with
  | [] => mkSnapshot 0 0 0 0 1%Q 0 0 0 0 0 0%Q [] [] now
  | _ =>
      let ok := count_where (λ e, truthy (ev_success e)) w in
      let latencies := sorted_latencies w in
      mkSnapshot total ok (total - ok) (count_where ev_cached w) (inject_Z ok / inject_Z total)%Q (round_div (zsum latencies) total)
        (percentile latencies 50) (percentile latencies 95) (percentile latencies 99) (count_where slow w)
        (inject_Z (count_where slow w) / inject_Z total)%Q (errorsByCode s)
        ((λ kv, (kv.1, round_div (zsum kv.2) (Z.of_nat (length kv.2)))) <$> latencyByEndpoint s) now
  end.

Definition clearMonitor (s : Client) : Client :=
  mkClient (traceCounter s) (analyticsEvents s) [] [] [] (violations s).

(** ** Envelopes *)

(** [raw[key]] of an object *)
Definition prop (key : string) (v : value) : value :=
  match v with VObj l => default VUndefined (map_get key l) | _ => VUndefined end.

(** [key in raw] *)
Definition has_prop (key : string) (v : value) : bool := match v with VObj l => map_has key l | _ => false end.

Definition isRawEnvelope (v : value) : bool := has_prop "data" v || has_prop "success" v.

(** [typeof v === "number"]; the numbers of pages are integers. *)
Definition int_of (v : value) : option Z :=
  match v with VNum t => Some (number_from 0 t) | _ => None end.

Definition isPaginatedRawEnvelope (v : value) : bool :=
  isRawEnvelope v && is_array (prop "data" v) &&
  (bool_decide (is_Some (int_of (prop "total" v))) || bool_decide (is_Some (int_of (prop "totalPages" v))) ||
   bool_decide (is_Some (int_of (prop "total_pages" v)))).

(** [a ?? b] *)
Definition or_else (a b : value) : value := match a with VUndefined | VNull => b | _ => a end.

(** ** The pipeline *)

Definition transform_options (c : Config) : TransformerOptions :=
  mkTransformer (Some (c_normalizeCasing c)) (Some (c_parseDates c)) (Some (c_stripNulls c)) None.

Definition new_interceptor (casing dates strip : option bool) (maxAge : option Z) (analytics : option bool) (slowMs : option Z)
    (governance : option GovernanceRunnerOptions) : Interceptor :=
  mkInterceptor (mkConfig (default true casing) (default false dates) (default false strip) (default 0 maxAge) (default true analytics) (default 2000 slowMs))
    (default (mkRunner [] false None) governance).

(** The singleton of the application. *)
Definition responseInterceptor : Interceptor := new_interceptor (Some true) (Some false) (Some false) None (Some true) (Some 2000) None.

Definition transform (i : Interceptor) (raw : value) : value :=
  transformValue date_of number_of (transform_options (config i)) None raw.

Definition ok_status (r : InterceptedRequest) : value := VBool (bool_decide (200 ≤ i_statusCode r < 300)).

Definition trace_of (now : Z) (r : InterceptedRequest) : M Client string :=
  match i_traceId r with Some t => mret t | None => generateTraceId now end.

Definition build_response (now : Z) (i : Interceptor) (raw : value) (r : InterceptedRequest) (trace : string) : StandardResponse :=
  let '(d, msg, ok) :=
    if isRawEnvelope raw then (prop "data" raw, prop "message" raw, or_else (prop "success" raw) (ok_status r))
    else (raw, VUndefined, ok_status r) in
  mkStandard ok (if truthy ok then "success" else "error") (transform i d) msg
    (mkMeta (toISOString now) (i_latencyMs r) (i_statusCode r) (extractPath (i_url r)) (uppercase (i_method r)) trace (i_retries r)
       (default false (i_cached r)) (buildTransformationLog (transform_options (config i)))).

Definition event_of (now : Z) (i : Interceptor) (r : InterceptedRequest) (resp : StandardResponse) : ResponseAnalyticsEvent :=
  mkEvent (traceId (meta resp)) (requestPath (meta resp)) (uppercase (i_method r)) (i_statusCode r) (i_latencyMs r) (success resp) (i_retries r)
    (default false (i_cached r)) now (bytes (data resp)) (bool_decide (slowResponseThresholdMs (config i) < i_latencyMs r)).

Definition intercept (now : Z) (i : Interceptor) (raw : value) (r : InterceptedRequest) : M Client StandardResponse :=
  trace ← trace_of now r;
  let resp := build_response now i raw r trace in
  _ ← runGovernance now (governanceOptions i) resp (meta resp);
  _ ← (if analyticsEnabled (config i)
       then let e := event_of now i r resp in modify (updateMonitor e ∘ recordAnalyticsEvent e)
       else mret tt);
  mret resp.

Definition paginate (raw : value) (base : StandardResponse) : PaginationMeta :=
  if isPaginatedRawEnvelope raw then
    let totalPages := default 1 (int_of (or_else (prop "totalPages" raw) (prop "total_pages" raw))) in
    let page := default 1 (int_of (prop "page" raw)) in
    mkPagination page (default 20 (int_of (prop "limit" raw))) (default 0 (int_of (prop "total" raw))) totalPages
      (bool_decide (page < totalPages)) (bool_decide (1 < page))
  else
    let n := match data base with VArr l => Z.of_nat (length l) | _ => 0 end in
    mkPagination 1 n n 1 false false.

Definition interceptPaginated (now : Z) (i : Interceptor) (raw : value) (r : InterceptedRequest) : M Client (StandardResponse * PaginationMeta) :=
  base ← intercept now i raw r;
  mret (base, paginate raw base).

(** [statusCode] of the request may be missing: [0] then. *)
Definition buildErrorResponse (now : Z) (message : value) (status : option Z) (code : value) (field : option string) (r : InterceptedRequest)
    (requestStatus : option Z) : M Client StandardErrorResponse :=
  trace ← trace_of now r;
  mret (mkStandardError (mkErrorBody (or_else code (VStr "UNKNOWN_ERROR")) message field status)
    (mkMeta (toISOString now) (i_latencyMs r) (default 0 requestStatus) (extractPath (i_url r)) (uppercase (i_method r)) trace (i_retries r)
       (default false (i_cached r)) [])).
End client.

(** ** What the policies find *)

Lemma push_front_take {A} n (x : A) l : push_front n x (take n l) = push_front n x l.
Proof. unfold push_front. destruct n as [|n]; [done|]. cbn [take]. f_equal. rewrite take_take. f_equal. lia. Qed.

Section proofs.
Context (pathname : string → option string) (bytes : value → option Z).
Context (date_of : string → option Z) (number_of : string → option string).

(** The violation of a policy, if it has one. *)
Definition finding (now : Z) (r : StandardResponse) (m : ResponseMeta) (p : GovernancePolicy) : option GovernanceViolation :=
  match validate p r m with
  | Ok text => (λ t, mkViolation (pol_name p) t (pol_severity p) (requestPath m) (traceId m) now) <$> truthy_str text
  | Throw _ => None
  end.

(** Exceptions with the mark of the governance are thrown on. *)
Definition governed (e : exn) : bool := String.prefix "[ArenaX Governance]" (exn_message e).

(** What may end the checks at a policy: the policy throws with the mark of the
    governance; or it finds something and the callback throws so; or what it
    found is critical, the callback (if any) returned, and critical violations
    are asked to be thrown. *)
Inductive Stops (now : Z) (o : GovernanceRunnerOptions) (r : StandardResponse) (m : ResponseMeta) (p : GovernancePolicy) : exn → Prop :=
| Stops_policy e : validate p r m = Throw e → governed e = true → Stops now o r m p e
| Stops_callback v f e :
    finding now r m p = Some v → onViolation o = Some f → f v = Throw e → governed e = true → Stops now o r m p e
| Stops_critical v :
    finding now r m p = Some v → (∀ f, onViolation o = Some f → f v = Ok tt) → throwOnCritical o = true → v_severity v = critical →
    Stops now o r m p (JsError ("[ArenaX Governance] Critical violation: " +:+ v_rule v +:+ " — " +:+ v_message v)).

(** The same, computed. *)
Definition ends (now : Z) (o : GovernanceRunnerOptions) (r : StandardResponse) (m : ResponseMeta) (p : GovernancePolicy) : option exn :=
  match validate p r m, finding now r m p with
  | Throw e, _ => if governed e then Some e else None
  | Ok _, None => None
  | Ok _, Some v =>
      match (λ f, f v) <$> onViolation o with
      | Some (Throw e) => if governed e then Some e else None
      | _ =>
          if throwOnCritical o then
            match v_severity v with
            | critical => Some (JsError ("[ArenaX Governance] Critical violation: " +:+ v_rule v +:+ " — " +:+ v_message v))
            | _ => None
            end
          else None
      end
  end.

Lemma ends_stops now o r m p e : ends now o r m p = Some e ↔ Stops now o r m p e.
Proof.
  unfold ends. split.
  - destruct (validate p r m) as [text|e'] eqn:Hv; [|destruct (governed e') eqn:Hg; [intros [= <-]; by apply Stops_policy|done]].
    destruct (finding now r m p) as [v|] eqn:Hf; [|done].
    destruct (onViolation o) as [f|] eqn:Ho; cbn [fmap option_fmap option_map]; [destruct (f v) as [[]|e'] eqn:Hfv|].
    2:{ destruct (governed e') eqn:Hg; [intros [= <-]; by eapply Stops_callback|done]. }
    all: destruct (throwOnCritical o) eqn:Hc; [|done]; destruct (v_severity v) eqn:Hs; try done; intros [= <-];
      apply Stops_critical; try done; intros f' Hf'; rewrite Ho in Hf'; by simplify_eq.
  - intros [e' Hv Hg|v f e' Hf Ho Hfv Hg|v Hf Ho Hc Hs].
    + by rewrite Hv, Hg.
    + rewrite Hf, Ho. cbn [fmap option_fmap option_map]. rewrite Hfv, Hg. unfold finding in Hf. by destruct (validate p r m).
    + rewrite Hf, Hc, Hs. destruct (validate p r m) eqn:Hv; [|unfold finding in Hf; by rewrite Hv in Hf].
      destruct (onViolation o) as [f|]; [|done]. cbn [fmap option_fmap option_map]. by rewrite (Ho f).
Qed.

Lemma ends_none now o r m p : ends now o r m p = None ↔ ∀ e, ¬ Stops now o r m p e.
Proof.
  split; [intros Hn e He%ends_stops; by rewrite Hn in He|]. intros Hn. destruct (ends now o r m p) as [e|] eqn:He; [|done].
  destruct (Hn e). by apply ends_stops.
Qed.

(** The code stops at a policy exactly when it should. *)
Lemma check_policy_ends now o r m p :
  match (check_policy now o r m p [] []).2 with Throw e => if governed e then Some e else None | Ok _ => None end = ends now o r m p.
Proof.
  unfold check_policy, ends, finding. destruct (validate p r m) as [text|e]; [|done]. destruct (truthy_str text) as [t|]; [|done].
  cbn [fmap option_fmap option_map snd v_severity v_rule v_message].
  destruct (onViolation o) as [f|]; cbn [fmap option_fmap option_map]; [destruct (f _) as [|e]; [|done]|];
    (destruct (throwOnCritical o); [|done]); by destruct (pol_severity p).
Qed.

Lemma check_policy_spec now o r m p store found :
  check_policy now o r m p store found =
  (match finding now r m p with Some v => recordViolation v store | None => store end, found ++ option_list (finding now r m p),
   (check_policy now o r m p [] []).2).
Proof.
  unfold check_policy, finding. destruct (validate p r m) as [text|e]; cbn; [|by rewrite app_nil_r].
  destruct (truthy_str text); cbn; [done|by rewrite app_nil_r].
Qed.

Lemma record_all vs store :
  (length store ≤ MAX_VIOLATIONS)%nat → foldl (λ l v, recordViolation v l) store vs = take MAX_VIOLATIONS (reverse vs ++ store).
Proof.
  induction vs as [|v vs IH] using rev_ind; intros Hs; [symmetry; by apply take_ge|].
  rewrite foldl_snoc, IH by done. unfold recordViolation. rewrite push_front_take, reverse_app. done.
Qed.

Lemma run_policies_spec now o r m ps store found :
  let checked a := foldl (λ l v, recordViolation v l) store (omap (finding now r m) a) in
  (Forall (λ p, ends now o r m p = None) ps ∧
   run_policies now o r m ps store found = (checked ps, Ok (found ++ omap (finding now r m) ps))) ∨
  ∃ a p b e, ps = a ++ p :: b ∧ Forall (λ p, ends now o r m p = None) a ∧ ends now o r m p = Some e ∧
    run_policies now o r m ps store found = (checked (a ++ [p]), Throw e).
Proof.
  revert store found. induction ps as [|p ps IH]; intros store found; cbn zeta.
  { left. split; [constructor|]. cbn. by rewrite app_nil_r. }
  cbn [run_policies]. rewrite check_policy_spec.
  assert (∀ l : list GovernancePolicy, foldl (λ l v, recordViolation v l) (match finding now r m p with Some v => recordViolation v store | None => store end)
    (omap (finding now r m) l) = foldl (λ l v, recordViolation v l) store (omap (finding now r m) (p :: l))) as Hstore.
  { intros l. cbn [omap list_omap]. by destruct (finding now r m p). }
  assert (∀ l : list GovernancePolicy, (found ++ option_list (finding now r m p)) ++ omap (finding now r m) l = found ++ omap (finding now r m) (p :: l)) as Hfound.
  { intros l. rewrite <- app_assoc. cbn [omap list_omap]. by destruct (finding now r m p). }
  destruct (ends now o r m p) as [e|] eqn:He.
  - right. exists [], p, ps, e. split_and!; try done. rewrite <- check_policy_ends in He. unfold governed in He.
    destruct (check_policy now o r m p [] []).2 as [|ex]; [done|]. destruct (String.prefix _ _); [|done]. simplify_eq. change ([] ++ [p]) with [p]. by rewrite <- (Hstore []).
  - assert (∀ X : list GovernanceViolation * result (list GovernanceViolation),
      match (check_policy now o r m p [] []).2 with
      | Ok _ => X
      | Throw e => if String.prefix "[ArenaX Governance]" (exn_message e)
          then (match finding now r m p with Some v => recordViolation v store | None => store end, Throw e) else X
      end = X) as Hrun.
    { intros X. rewrite <- check_policy_ends in He. unfold governed in He. destruct (check_policy now o r m p [] []).2 as [|ex]; [done|]. by destruct (String.prefix _ _). }
    rewrite Hrun. destruct (IH (match finding now r m p with Some v => recordViolation v store | None => store end)
      (found ++ option_list (finding now r m p))) as [[Hall ->]|(a & q & b & e & -> & Ha & Hq & ->)].
    + left. split; [by constructor|]. by rewrite Hstore, Hfound.
    + right. exists (p :: a), q, b, e. split_and!; try done; [by constructor|]. by rewrite Hstore.
Qed.

Lemma ends_plain now o r m p text :
  validate p r m = Ok text → onViolation o = None → throwOnCritical o = false ∨ pol_severity p ≠ critical → ends now o r m p = None.
Proof.
  intros Hv Ho Hc. unfold ends, finding. rewrite Hv, Ho. destruct (truthy_str text); [|done]. cbn.
  destruct Hc as [->|Hc]; [done|]. destruct (throwOnCritical o); [|done]. by destruct (pol_severity p).
Qed.

(** Without a callback only critical findings end the checks. *)
Lemma throws_critical now o r m ps :
  onViolation o = None → (∀ p e, p ∈ ps → validate p r m = Throw e → governed e = false) →
  Forall (λ p, ends now o r m p = None) ps ↔ throwOnCritical o = false ∨ ∀ v, v ∈ omap (finding now r m) ps → v_severity v ≠ critical.
Proof.
  intros Ho Hplain. rewrite Forall_forall. split.
  - intros Hall. destruct (throwOnCritical o) eqn:Hc; [right|by left]. intros v (p & Hp & Hf)%list_elem_of_omap Hs.
    specialize (Hall p Hp). rewrite ends_none in Hall. apply (Hall _ (Stops_critical now o r m p v Hf ltac:(by rewrite Ho) Hc Hs)).
  - intros Hc p Hp. apply ends_none. intros e [e' Hv Hg|v f e' Hf Hof|v Hf _ Hc' Hs].
    + by rewrite (Hplain p e') in Hg.
    + by rewrite Ho in Hof.
    + destruct Hc as [Hc|Hc]; [by rewrite Hc in Hc'|]. apply (Hc v); [|done]. apply list_elem_of_omap. by exists p.
Qed.

(** C26: the checks run the policies in order up to the first that ends them, and
    one ends them exactly by throwing with the mark of the governance, by a
    callback that does, or by a critical violation under [throwOnCritical]: what
    each found is recorded, newest first and at most a hundred, the answer lists
    what was found, and an end is thrown on.  A policy that throws on its own
    account finds nothing and keeps no other from being checked; without a
    callback a critical finding is never passed over when it is to be thrown, and
    nothing is thrown otherwise. *)
Theorem governance_spec now o r m s :
  (length (violations s) ≤ MAX_VIOLATIONS)%nat →
  let ps := DEFAULT_POLICIES bytes ++ extraPolicies o in
  let found a := omap (finding now r m) a in
  let recorded a := take MAX_VIOLATIONS (reverse (found a) ++ violations s) in
  let passes p := ∀ e, ¬ Stops now o r m p e in
  let '(s', res) := runGovernance bytes now o r m s in
  ((Forall passes ps ∧ res = Ok (found ps) ∧ violations s' = recorded ps) ∨
   ∃ a p b e, ps = a ++ p :: b ∧ Forall passes a ∧ Stops now o r m p e ∧ res = Throw e ∧ violations s' = recorded (a ++ [p])) ∧
  (∀ p e, p ∈ ps → validate p r m = Throw e → governed e = false → finding now r m p = None ∧ passes p) ∧
  (onViolation o = None → (∀ p e, p ∈ ps → validate p r m = Throw e → governed e = false) →
     (∃ vs, res = Ok vs) ↔ throwOnCritical o = false ∨ ∀ v, v ∈ found ps → v_severity v ≠ critical) ∧
  (analyticsEvents s', monitorWindow s', errorsByCode s', latencyByEndpoint s') =
  (analyticsEvents s, monitorWindow s, errorsByCode s, latencyByEndpoint s).
Proof.
  intros Hs. cbn zeta. unfold runGovernance. set (ps := DEFAULT_POLICIES bytes ++ extraPolicies o).
  pose proof (run_policies_spec now o r m ps (violations s) []) as Hrun. cbn zeta in Hrun.
  destruct (run_policies now o r m ps (violations s) []) as [store res]. cbn [violations analyticsEvents monitorWindow errorsByCode latencyByEndpoint].
  assert (∀ l, Forall (λ p, ends now o r m p = None) l ↔ Forall (λ p, ∀ e, ¬ Stops now o r m p e) l) as Hpass.
  { intros l. apply Forall_proper; [intros p; apply ends_none|done]. }
  split_and!; [| | |done].
  - destruct Hrun as [[Hall%Hpass [= -> ->]]|(a & p & b & e & Hps & Ha%Hpass & Hp%ends_stops & [= -> ->])]; [left|right].
    + split_and!; [done|done|by apply record_all].
    + exists a, p, b, e. split_and!; try done. by apply record_all.
  - intros p e _ Hv He. split; [unfold finding; by rewrite Hv|]. apply ends_none. unfold ends. by rewrite Hv, He.
  - intros Ho Hplain. rewrite <- throws_critical by done. destruct Hrun as [[Hall [= -> ->]]|(a & p & b & e & Hps & Ha & Hp & [= -> ->])].
    + split; [intros _; done|by eexists].
    + split; [by intros [? ?]|]. intros Hall. rewrite Hps, Forall_app, Forall_cons in Hall. destruct Hall as (_ & Hn & _). by rewrite Hn in Hp.
Qed.
End proofs.

(** ** What the monitor holds *)

Section monitor.
Context (pathname : string → option string) (bytes : value → option Z).
Context (date_of : string → option Z) (number_of : string → option string).

Inductive Op :=
| Intercept (now : Z) (i : Interceptor) (raw : value) (r : InterceptedRequest)
| InterceptPaginated (now : Z) (i : Interceptor) (raw : value) (r : InterceptedRequest)
| BuildError (now : Z) (message : value) (status : option Z) (code : value) (field : option string) (r : InterceptedRequest) (requestStatus : option Z)
| ClearEvents | ClearMonitor | ClearViolations.

Definition step (op : Op) (s : Client) : Client :=
  match op with
  | Intercept now i raw r => (intercept pathname bytes date_of number_of now i raw r s).1
  | InterceptPaginated now i raw r => (interceptPaginated pathname bytes date_of number_of now i raw r s).1
  | BuildError now msg st code field r rst => (buildErrorResponse pathname now msg st code field r rst s).1
  | ClearEvents => clearAnalyticsEvents s
  | ClearMonitor => clearMonitor s
  | ClearViolations => clearGovernanceViolations s
  end.

Definition run (ops : list Op) (s : Client) : Client := foldl (λ s op, step op s) s ops.

(** The event a call emits from a state, if it returns. *)
Definition emits (op : Op) (s : Client) : list ResponseAnalyticsEvent :=
  match op with
  | Intercept now i raw r | InterceptPaginated now i raw r =>
      match (intercept pathname bytes date_of number_of now i raw r s).2 with
      | Ok resp => if analyticsEnabled (config i) then [event_of bytes now i r resp] else []
      | Throw _ => []
      end
  | _ => []
  end.

(** The full history, newest first: the events since they were last cleared,
    and those since the monitor was. *)
Record History := mkHistory { h_events : list ResponseAnalyticsEvent; h_monitor : list ResponseAnalyticsEvent }.

Definition log_step (h : History) (op : Op) (s : Client) : History :=
  match op with
  | ClearEvents => mkHistory [] (h_monitor h)
  | ClearMonitor => mkHistory (h_events h) []
  | _ => mkHistory (emits op s ++ h_events h) (emits op s ++ h_monitor h)
  end.

Fixpoint history (ops : list Op) (s : Client) (h : History) : History :=
  match ops with [] => h | op :: ops' => history ops' (step op s) (log_step h op s) end.

Definition latencies_of (p : string) (l : list ResponseAnalyticsEvent) : list Z :=
  reverse (ev_latencyMs <$> List.filter (λ e, bool_decide (endpoint e = p)) l).

Definition error_codes (l : list ResponseAnalyticsEvent) : list string :=
  reverse ((λ e, pretty (ev_statusCode e)) <$> List.filter (λ e, negb (truthy (ev_success e))) l).

(** What the variables of the two files are, given the history. *)
Record monitors (s : Client) (h : History) : Prop := {
  mon_events : analyticsEvents s = take MAX_ANALYTICS_EVENTS (h_events h);
  mon_window : monitorWindow s = take MAX_MONITOR_WINDOW (h_monitor h);
  mon_errors : errorsByCode s = foldl tally [] (error_codes (h_monitor h));
  mon_samples : ∀ p, map_get p (latencyByEndpoint s) =
    match latencies_of p (h_monitor h) with [] => None | l => Some (js_slice_last (Z.of_nat MAX_SAMPLES) l) end;
  mon_violations : (length (violations s) ≤ MAX_VIOLATIONS)%nat }.

Lemma samples_small (l : list Z) : (length (js_slice_last (Z.of_nat MAX_SAMPLES) l) ≤ MAX_SAMPLES)%nat.
Proof. pose proof (js_slice_last_length (Z.of_nat MAX_SAMPLES) l ltac:(unfold MAX_SAMPLES; lia)). lia. Qed.

Lemma add_sample_last t l :
  (length l ≤ MAX_SAMPLES)%nat → add_sample t l = js_slice_last (Z.of_nat MAX_SAMPLES) (l ++ [t]).
Proof.
  intros Hl. rewrite <- js_slice_last_push by (done || unfold MAX_SAMPLES; lia). unfold add_sample. cbn zeta.
  rewrite (bool_decide_ext (MAX_SAMPLES < length (l ++ [t]))%nat (Z.of_nat MAX_SAMPLES < Z.of_nat (length (l ++ [t])))) by lia.
  destruct (bool_decide_reflect (Z.of_nat MAX_SAMPLES < Z.of_nat (length (l ++ [t])))); [|done]. f_equal. rewrite length_app in *. cbn in *. lia.
Qed.

Lemma update_monitor_step s h e :
  monitors s h →
  monitors (updateMonitor e (recordAnalyticsEvent e s)) (mkHistory (e :: h_events h) (e :: h_monitor h)).
Proof.
  intros [He Hw Hc Hp Hv]. constructor; cbn [updateMonitor recordAnalyticsEvent analyticsEvents monitorWindow errorsByCode latencyByEndpoint
    violations h_events h_monitor].
  - by rewrite He, push_front_take.
  - by rewrite Hw, push_front_take.
  - unfold error_codes in *. cbn [List.filter]. rewrite Hc. destruct (truthy (ev_success e)); cbn [negb]; [done|].
    by rewrite fmap_cons, reverse_cons, foldl_snoc.
  - intros p. rewrite map_get_set. unfold latencies_of in *. cbn [List.filter]. destruct (bool_decide_reflect (p = endpoint e)) as [->|Hne].
    + rewrite bool_decide_true, fmap_cons, reverse_cons by done. rewrite Hp.
      set (l := reverse (ev_latencyMs <$> List.filter (λ e0, bool_decide (endpoint e0 = endpoint e)) (h_monitor h))).
      assert (default [] (match l with [] => None | z :: l' => Some (js_slice_last (Z.of_nat MAX_SAMPLES) (z :: l')) end) = js_slice_last (Z.of_nat MAX_SAMPLES) l) as ->
        by (by destruct l).
      rewrite add_sample_last, js_slice_last_app by (apply samples_small || unfold MAX_SAMPLES; lia).
      by destruct l.
    + rewrite (bool_decide_false (endpoint e = p)) by congruence. apply Hp.
  - done.
Qed.

Lemma governance_frame now o r m s h :
  monitors s h → monitors (runGovernance bytes now o r m s).1 h.
Proof.
  intros [He Hw Hc Hp Hv]. unfold runGovernance.
  pose proof (run_policies_spec now o r m (DEFAULT_POLICIES bytes ++ extraPolicies o) (violations s) []) as Hrun. cbn zeta in Hrun.
  destruct (run_policies now o r m (DEFAULT_POLICIES bytes ++ extraPolicies o) (violations s) []) as [store res].
  constructor; try done. cbn [fst violations].
  destruct Hrun as [[_ [= -> _]]|(a & p & b & e & _ & _ & _ & [= -> _])]; rewrite record_all, length_take by done; lia.
Qed.

Lemma trace_frame now r s h : monitors s h → monitors (trace_of now r s).1 h ∧ ∃ t, (trace_of now r s).2 = Ok t.
Proof.
  intros [He Hw Hc Hp Hv]. unfold trace_of. destruct (i_traceId r); (split; [by constructor|by eexists]).
Qed.

Lemma intercept_step now i raw r s h :
  monitors s h → monitors (intercept pathname bytes date_of number_of now i raw r s).1 (log_step h (Intercept now i raw r) s).
Proof.
  intros Hm. cbn [log_step emits]. unfold intercept. cbv [mbind M_bind].
  destruct (trace_frame now r s h Hm) as [Hm1 [t Ht]]. destruct (trace_of now r s) as [s1 tr]. cbn [fst snd] in *. subst tr.
  set (resp := build_response pathname date_of number_of now i raw r t).
  pose proof (governance_frame now (governanceOptions i) resp (meta resp) s1 h Hm1) as Hm2.
  destruct (runGovernance bytes now (governanceOptions i) resp (meta resp) s1) as [s2 [vs|e]]; cbn [fst snd] in *; [|by destruct h].
  destruct (analyticsEnabled (config i)); [by apply update_monitor_step|by destruct h].
Qed.

Lemma step_monitors op s h : monitors s h → monitors (step op s) (log_step h op s).
Proof.
  intros Hm. destruct op as [now i raw r|now i raw r|now msg st code field r rst| | |]; cbn [step].
  - by apply intercept_step.
  - pose proof (intercept_step now i raw r s h Hm) as Hi. unfold interceptPaginated. cbv [mbind M_bind].
    cbn [log_step emits] in *. destruct (intercept _ _ _ _ now i raw r s) as [s' [resp|e]]; exact Hi.
  - destruct (trace_frame now r s h Hm) as [Hm1 [t Ht]]. unfold buildErrorResponse. cbv [mbind M_bind].
    destruct (trace_of now r s) as [s1 tr]. cbn [fst snd] in *. subst tr. by destruct h.
  - destruct Hm. by constructor.
  - destruct Hm. by constructor.
  - destruct Hm, h. constructor; try done. cbn. lia.
Qed.

(** After any calls the variables of the interceptor are cut from the history:
    the last 500 events, the last 200 of the monitor, the last 50 latencies of
    every endpoint, the number of failures of every status; at most a hundred
    violations are kept. *)
Theorem monitor_refines_history ops :
  monitors (run ops new_client) (history ops new_client (mkHistory [] [])).
Proof.
  unfold run. assert (monitors new_client (mkHistory [] [])) as H0 by (constructor; try done; cbn; lia). revert H0.
  generalize new_client, (mkHistory [] []). induction ops as [|op ops IH]; intros s h Hm; [done|]. cbn [foldl history]. by apply IH, step_monitors.
Qed.
End monitor.

(** ** The snapshot *)

Lemma bfilter_perm {A} (f : A → bool) l k : l ≡ₚ k → List.filter f l ≡ₚ List.filter f k.
Proof. induction 1 as [|x l k _ IH|x y l|]; cbn; [done|by case_match; rewrite ?IH|repeat case_match; done || apply Permutation_swap|by etrans]. Qed.

Lemma bfilter_all {A} (f : A → bool) l : (∀ x, x ∈ l → f x = true) → List.filter f l = l.
Proof.
  induction l as [|x l IH]; intros Hf; [done|]. cbn. rewrite Hf by (by left). f_equal. apply IH. intros. apply Hf. by right.
Qed.

(** The element at a position of a sorted list: how many are at most it, how
    many less. *)
Lemma sorted_rank (l : list Z) (i : nat) (v : Z) :
  StronglySorted Z.le l → l !! i = Some v →
  (length (List.filter (λ x, bool_decide (x < v)%Z) l) ≤ i < length (List.filter (λ x, bool_decide (x ≤ v)%Z) l))%nat.
Proof.
  intros Hs Hi. assert (i < length l)%nat as Hlt by (by eapply lookup_lt_Some).
  rewrite <- (take_drop_middle l i v Hi) in Hs |- *. apply StronglySorted_app in Hs as (Hcross & _ & Hs).
  inversion Hs as [|? ? _ Hv]; subst. rewrite Forall_forall in Hv. rewrite !List.filter_app, !length_app. cbn [List.filter].
  rewrite (bool_decide_false (v < v)), (bool_decide_true (v ≤ v)) by lia. cbn [length].
  rewrite (bfilter_none (λ x, bool_decide (x < v)) (drop (S i) l)) by (intros x Hx%Hv; apply bool_decide_false; lia).
  rewrite (bfilter_all (λ x, bool_decide (x ≤ v)) (take i l)) by (intros x Hx; apply bool_decide_eq_true; apply (Hcross x v Hx); by left).
  rewrite length_take. pose proof (List.filter_length_le (λ x, bool_decide (x < v)) (take i l)) as Hle. rewrite length_take in Hle. cbn [length]. lia.
Qed.

Lemma sorted_latencies_sorted l : StronglySorted Z.le (sorted_latencies l).
Proof. eapply SSorted_mono; [|apply js_sort_sorted; intros; lia]. cbn. lia. Qed.

(** How many latencies satisfy a test. *)
Definition latencies_where (f : Z → bool) (l : list ResponseAnalyticsEvent) : Z := Z.of_nat (length (List.filter f (ev_latencyMs <$> l))).

Lemma percentile_lookup L p :
  L ≠ [] → percentile L p = default 0 (L !! Z.to_nat (Z.min (Z.of_nat (length L) * p / 100) (Z.of_nat (length L) - 1))).
Proof. by destruct L. Qed.

Lemma percentile_spec l p :
  l ≠ [] → 0 ≤ p < 100 →
  let v := percentile (sorted_latencies l) p in
  v ∈ ev_latencyMs <$> l ∧
  100 * latencies_where (λ x, bool_decide (x < v)) l ≤ p * Z.of_nat (length l) < 100 * latencies_where (λ x, bool_decide (x ≤ v)) l.
Proof.
  intros Hl Hp. cbn zeta. assert (sorted_latencies l ≡ₚ ev_latencyMs <$> l) as Hperm by apply js_sort_perm.
  assert (length (sorted_latencies l) = length l) as Hlen by (rewrite Hperm; apply length_fmap).
  assert (0 < length l)%nat as Hpos by (destruct l; [done|cbn; lia]).
  set (n := Z.of_nat (length l)) in *. assert (0 ≤ n * p / 100 < n) as Hidx.
  { split; [apply Z.div_pos; nia|apply Z.div_lt_upper_bound; nia]. }
  assert (percentile (sorted_latencies l) p = default 0 (sorted_latencies l !! Z.to_nat (n * p / 100))) as ->.
  { rewrite percentile_lookup by (intros E; rewrite E in Hlen; cbn in Hlen; lia). rewrite Hlen. fold n. by rewrite Z.min_l by lia. }
  destruct (lookup_lt_is_Some_2 (sorted_latencies l) (Z.to_nat (n * p / 100))) as [v Hv]; [rewrite Hlen; lia|].
  rewrite Hv. cbn [from_option id]. split; [rewrite <- Hperm; by eapply list_elem_of_lookup_2|].
  pose proof (sorted_rank _ _ _ (sorted_latencies_sorted l) Hv) as Hr. unfold latencies_where.
  rewrite <- !(bfilter_perm _ _ _ Hperm). pose proof (Z.div_mod (n * p) 100 ltac:(lia)). pose proof (Z.mod_pos_bound (n * p) 100 ltac:(lia)). lia.
Qed.

Lemma percentile_mono l p q : l ≠ [] → 0 ≤ p ≤ q → q < 100 → percentile (sorted_latencies l) p ≤ percentile (sorted_latencies l) q.
Proof.
  intros Hl Hpq Hq. set (L := sorted_latencies l). assert (0 < length L)%nat as Hpos.
  { unfold L, sorted_latencies. rewrite (Permutation_length (js_sort_perm _ _)), length_fmap. destruct l; [done|cbn; lia]. }
  rewrite !percentile_lookup by (intros E; rewrite E in Hpos; cbn in Hpos; lia). set (n := Z.of_nat (length L)) in *. assert (n * p / 100 ≤ n * q / 100) by (apply Z.div_le_mono; nia).
  assert (0 ≤ n * p / 100) by (apply Z.div_pos; nia).
  destruct (lookup_lt_is_Some_2 L (Z.to_nat (Z.min (n * p / 100) (n - 1)))) as [v Hv]; [lia|].
  destruct (lookup_lt_is_Some_2 L (Z.to_nat (Z.min (n * q / 100) (n - 1)))) as [u Hu]; [lia|]. rewrite Hv, Hu. cbn.
  destruct (decide (Z.to_nat (Z.min (n * p / 100) (n - 1)) = Z.to_nat (Z.min (n * q / 100) (n - 1)))) as [E|]; [rewrite E in Hv; simplify_eq; lia|].
  pose proof (sorted_latencies_sorted l) as Hs. fold L in Hs. rewrite <- (take_drop_middle L _ _ Hu) in Hs.
  apply StronglySorted_app in Hs as (Hcross & _ & _). apply Hcross; [|by left].
  apply (list_elem_of_lookup_2 _ (Z.to_nat (Z.min (n * p / 100) (n - 1)))). rewrite lookup_take_lt by lia. done.
Qed.

Lemma round_div_bounds a n lo hi : 0 < n → lo * n ≤ a ≤ hi * n → lo ≤ round_div a n ≤ hi.
Proof.
  intros Hn [H1 H2]. unfold round_div. split; [apply Z.div_le_lower_bound; nia|].
  assert ((2 * a + n) / (2 * n) < hi + 1); [|lia]. apply Z.div_lt_upper_bound; nia.
Qed.

Lemma zsum_bounds l lo hi : (∀ x, x ∈ l → lo ≤ x ≤ hi) → lo * Z.of_nat (length l) ≤ zsum l ≤ hi * Z.of_nat (length l).
Proof.
  induction l as [|x l IH]; intros Hl; cbn [zsum foldr length]; [lia|]. fold (zsum l).
  pose proof (Hl x ltac:(by left)). specialize (IH ltac:(intros; apply Hl; by right)). lia.
Qed.

(** A snapshot of a window that is not empty: successes and failures make up
    the requests, each percentile is a latency of the window with its rank, the
    percentiles are in order, and the average lies between any bounds of the
    latencies. *)
Theorem snapshot_spec now s :
  monitorWindow s ≠ [] →
  let w := monitorWindow s in
  let m := getMonitorSnapshot now s in
  totalRequests m = Z.of_nat (length w) ∧ successCount m + errorCount m = totalRequests m ∧ 0 ≤ successCount m ∧ 0 ≤ errorCount m ∧
  p50LatencyMs m ≤ p95LatencyMs m ≤ p99LatencyMs m ∧
  (∀ p v, (p, v) ∈ [(50, p50LatencyMs m); (95, p95LatencyMs m); (99, p99LatencyMs m)] →
     v ∈ ev_latencyMs <$> w ∧
     100 * latencies_where (λ x, bool_decide (x < v)) w ≤ p * totalRequests m < 100 * latencies_where (λ x, bool_decide (x ≤ v)) w) ∧
  (∀ lo hi, (∀ e, e ∈ w → lo ≤ ev_latencyMs e ≤ hi) → lo ≤ averageLatencyMs m ≤ hi).
Proof.
  intros Hw. cbn zeta. unfold getMonitorSnapshot. cbn zeta. set (w := monitorWindow s) in *.
  assert (0 < Z.of_nat (length w)) as Hpos by (destruct w; [done|cbn; lia]).
  pose proof (List.filter_length_le (λ e, truthy (ev_success e)) w) as Hle.
  destruct w as [|e0 w0] eqn:Ew; [done|]. rewrite <- Ew in *. clear Ew e0 w0.
  cbn [totalRequests successCount errorCount p50LatencyMs p95LatencyMs p99LatencyMs averageLatencyMs]. unfold count_where.
  split_and!; try lia; try (apply percentile_mono; lia || done).
  - intros p v Hin. assert (0 ≤ p < 100 ∧ v = percentile (sorted_latencies w) p) as [Hp ->].
    { rewrite !elem_of_cons in Hin. destruct Hin as [[= -> ->]|[[= -> ->]|[[= -> ->]|[]%not_elem_of_nil]]]; (split; [lia|done]). }
    by apply percentile_spec.
  - intros lo hi Hb. assert (sorted_latencies w ≡ₚ ev_latencyMs <$> w) as Hperm by apply js_sort_perm.
    apply round_div_bounds; [done|]. replace (length w) with (length (sorted_latencies w)) by (rewrite Hperm; apply length_fmap).
    apply zsum_bounds. intros x. rewrite Hperm. intros (e & -> & He)%list_elem_of_fmap. by apply Hb.
Qed.

(** ** What a caller gets *)

Section answers.
Context (pathname : string → option string) (bytes : value → option Z).
Context (date_of : string → option Z) (number_of : string → option string).

Lemma default_policies_pass now o r m :
  onViolation o = None → Forall (λ p, ends now o r m p = None) (DEFAULT_POLICIES bytes).
Proof. intros Ho. repeat constructor; (eapply ends_plain; [reflexivity|done|by right]). Qed.

Lemma build_response_success now i raw r t :
  let resp := build_response pathname date_of number_of now i raw r t in
  success resp ≠ VUndefined ∧ success resp ≠ VNull.
Proof.
  cbn zeta. unfold build_response. destruct (isRawEnvelope raw); cbn [success]; [|done]. unfold or_else, ok_status.
  by destruct (prop "success" raw).
Qed.

Lemma intercept_runs now i raw r s :
  extraPolicies (governanceOptions i) = [] → onViolation (governanceOptions i) = None →
  ∃ s' t, intercept pathname bytes date_of number_of now i raw r s = (s', Ok (build_response pathname date_of number_of now i raw r t)) ∧
    ∀ t', i_traceId r = Some t' → t = t'.
Proof.
  intros Hextra Ho. unfold intercept. cbv [mbind M_bind].
  assert (∃ s1 t, trace_of now r s = (s1, Ok t) ∧ ∀ t', i_traceId r = Some t' → t = t') as (s1 & t & -> & Ht).
  { unfold trace_of. destruct (i_traceId r) as [t|]; [exists s, t; split; [done|by intros ? [= ->]]|]. unfold generateTraceId. eexists _, _. by split. }
  set (resp := build_response pathname date_of number_of now i raw r t).
  assert (∃ s2 vs, runGovernance bytes now (governanceOptions i) resp (meta resp) s1 = (s2, Ok vs)) as (s2 & vs & ->).
  { unfold runGovernance. pose proof (run_policies_spec now (governanceOptions i) resp (meta resp)
      (DEFAULT_POLICIES bytes ++ extraPolicies (governanceOptions i)) (violations s1) []) as Hrun. cbn zeta in Hrun. rewrite Hextra, app_nil_r in *.
    destruct Hrun as [[_ ->]|(a & p & b & e & Hps & _ & Hp & _)]; [by eexists _, _|].
    pose proof (default_policies_pass now (governanceOptions i) resp (meta resp) Ho) as Hall. rewrite Hps in Hall.
    apply Forall_app in Hall as [_ [Hp' _]%Forall_cons]. congruence. }
  destruct (analyticsEnabled (config i)); by eexists _, t.
Qed.

(** With the built-in policies, an answer of the API never throws on its way
    through the interceptor.  An object with a field [data] or [success] is taken
    as an envelope and its field [data] is the payload, any other value is the
    payload itself; the payload is transformed, the outcome is the one the
    server gives and else that of the status, and its name says the same.  The
    policy on missing outcomes therefore never finds anything. *)
Theorem intercept_contract now i raw r s :
  extraPolicies (governanceOptions i) = [] → onViolation (governanceOptions i) = None →
  ∃ s' resp, intercept pathname bytes date_of number_of now i raw r s = (s', Ok resp) ∧
    data resp = transform date_of number_of i (if isRawEnvelope raw then prop "data" raw else raw) ∧
    success resp = or_else (if isRawEnvelope raw then prop "success" raw else VUndefined) (VBool (bool_decide (200 ≤ i_statusCode r < 300))) ∧
    (status resp = "success" ↔ truthy (success resp)) ∧ (status resp = "error" ↔ ¬ truthy (success resp)) ∧
    statusCode (meta resp) = i_statusCode r ∧ (∀ t, i_traceId r = Some t → traceId (meta resp) = t) ∧
    finding now resp (meta resp) envelopeShapePolicy = None.
Proof.
  intros Hextra Ho. destruct (intercept_runs now i raw r s Hextra Ho) as (s' & t & -> & Ht).
  eexists s', _. split; [reflexivity|]. pose proof (build_response_success now i raw r t) as [Hu Hn]. cbn zeta in Hu, Hn.
  assert (∀ b : bool, ((if b then "success" else "error") = "success" ↔ b) ∧ ((if b then "success" else "error") = "error" ↔ ¬ b)) as Hname
    by (intros []; cbn; naive_solver).
  split_and!; cycle -1; [unfold finding; cbn [validate envelopeShapePolicy]; by destruct (success _)|..]; clear Hu Hn;
    unfold build_response; destruct (isRawEnvelope raw); cbn; done || apply Hname.
Qed.
End answers.

(** ** Examples *)

Definition path_of (url : string) : option string := if bool_decide (url = "https://a.x/me?b=1") then Some "/me" else None.

Definition plain_request (st : Z) : InterceptedRequest := mkIntercepted "https://a.x/me?b=1" "get" st 120 0 None None.

Example intercept_contract_witness :
  let raw := VObj [("data", VObj [("user_id", VNum "7")]); ("message", VStr "ok")] in
  ∃ s' resp, intercept path_of (λ _, Some 10) (λ _, None) (λ _, None) 0 responseInterceptor raw (plain_request 200) new_client = (s', Ok resp) ∧
    data resp = transform (λ _, None) (λ _, None) responseInterceptor (if isRawEnvelope raw then prop "data" raw else raw) ∧
    success resp = or_else (if isRawEnvelope raw then prop "success" raw else VUndefined) (VBool (bool_decide (200 ≤ 200 < 300))) ∧
    (status resp = "success" ↔ truthy (success resp)) ∧ (status resp = "error" ↔ ¬ truthy (success resp)) ∧
    statusCode (meta resp) = 200 ∧ (∀ t, None = Some t → traceId (meta resp) = t) ∧
    finding 0 resp (meta resp) envelopeShapePolicy = None.
Proof. by apply (intercept_contract path_of (λ _, Some 10) (λ _, None) (λ _, None) 0 responseInterceptor _ (plain_request 200)). Defined.

Example governance_spec_witness :
  let bad := mkPolicy "broken" warn (λ _ _, Throw (JsError "TypeError")) in
  let strict := mkPolicy "no-data" critical (λ r _, Ok (match data r with VNull => Some "no data" | _ => None end)) in
  let o := mkRunner [bad; strict] true None in
  let m := mkMeta "" 20000 200 "/me" "GET" "t1" 0 false [] in
  let r := mkStandard (VBool false) "error" VNull VUndefined m in
  (length (violations new_client) ≤ MAX_VIOLATIONS)%nat ∧
  (v_rule <$> violations (runGovernance (λ _, None) 5 o r m new_client).1) = ["no-data"; "latency-threshold"; "success-status-mismatch"] ∧
  (runGovernance (λ _, None) 5 o r m new_client).2 = Throw (JsError "[ArenaX Governance] Critical violation: no-data — no data") ∧
  finding 5 r m bad = None.
Proof.
  intros bad strict o m r. split_and!; [cbn; lia|by vm_compute|by vm_compute|].
  pose proof (governance_spec (λ _, None) 5 o r m new_client ltac:(cbn; lia)) as Hg. cbn zeta in Hg.
  destruct (runGovernance (λ _, None) 5 o r m new_client) as [s' res]. destruct Hg as (_ & Hb & _).
  apply (Hb bad (JsError "TypeError")); [|done|by vm_compute]. apply elem_of_app. right. by left.
Defined.

Definition event (t : Z) : ResponseAnalyticsEvent := mkEvent "t" "/me" "GET" 200 t (VBool true) 0 false 0 None false.

Example snapshot_spec_witness :
  let s := mkClient 0 [] [event 30; event 10; event 20; event 400] [] [] [] in
  monitorWindow s ≠ [] ∧ totalRequests (getMonitorSnapshot 9 s) = 4 ∧ p50LatencyMs (getMonitorSnapshot 9 s) = 30 ∧
  p99LatencyMs (getMonitorSnapshot 9 s) = 400 ∧ averageLatencyMs (getMonitorSnapshot 9 s) = 115 ∧ 10 ≤ averageLatencyMs (getMonitorSnapshot 9 s) ≤ 400.
Proof.
  intros s. split; [done|]. destruct (snapshot_spec 9 s ltac:(done)) as (H1 & _ & _ & _ & _ & _ & Havg).
  do 4 (split; [reflexivity|]). apply (Havg 10 400). intros e He. cbn [monitorWindow s] in He. rewrite !elem_of_cons in He.
  destruct He as [->|[->|[->|[->|[]%not_elem_of_nil]]]]; cbn; lia.
Defined.

(** A page that gives its total and not its number of pages is the last one. *)
Example pages_without_count :
  let raw := VObj [("data", VArr [VNum "1"]); ("total", VNum "100"); ("page", VNum "1"); ("limit", VNum "20")] in
  (λ r, hasNextPage r.2) <$> (match (interceptPaginated path_of (λ _, None) (λ _, None) (λ _, None) 0 responseInterceptor raw (plain_request 200) new_client).2
                              with Ok r => Some r | Throw _ => None end) = Some false.
Proof. by vm_compute. Qed.

(** An object with a field [success] and no field [data] has no payload left. *)
Example payload_beside_success :
  let raw := VObj [("success", VBool true); ("user", VObj [("id", VNum "7")])] in
  (λ r, data r) <$> (match (intercept path_of (λ _, None) (λ _, None) (λ _, None) 0 responseInterceptor raw (plain_request 200) new_client).2
                     with Ok r => Some r | Throw _ => None end) = Some VUndefined.
Proof. by vm_compute. Qed.

(** A callback that throws keeps a critical violation from being thrown. *)
Example callback_hides_critical :
  let strict := mkPolicy "no-data" critical (λ r _, Ok (Some "no data")) in
  let o := mkRunner [strict] true (Some (λ _, Throw (JsError "logger down"))) in
  let m := mkMeta "" 10 200 "/me" "GET" "t1" 0 false [] in
  let r := mkStandard (VBool true) "success" VNull VUndefined m in
  match (runGovernance (λ _, None) 5 o r m new_client).2 with Ok vs => v_rule <$> vs | Throw _ => [] end = ["no-data"].
Proof. by vm_compute. Qed.
