(* ===== verification/ApiClient.v ===== *)
(** * The API client: [frontend/src/lib/apiMiddleware.ts]

    [request], [requestStandard] and [requestPaginatedStandard] of
    [EnhancedApiClient], put together from the pipeline of requests and the
    interceptor of responses: what the server sends goes through the retries, the
    circuit breaker and the refresh of tokens, and comes out as a normalised
    payload.  The header [x-trace-id] of an answer is a parameter, as are the
    functions of the browser the interceptor uses. *)

From Stdlib Require Import Ascii QArith.
From stdpp Require Import prelude strings list pretty.
From S2P Require Import Prelude JsText Json ObjectLib ResponseTransform RequestPipeline ResponseInterceptor.

#[local] Open Scope Z_scope.

(** The values of parsed JSON. *)
Fixpoint of_json (j : json) : value :=
  match j with
  | JUndefined => VUndefined
  | JNull => VNull
  | JBool b => VBool b
  | JNum t => VNum t
  | JStr s => VStr s
  | JArr l => VArr (of_json <$> l)
  | JObj l => VObj ((λ kv, (kv.1, of_json kv.2)) <$> l)
  end.

Record App := mkApp { world : World; client : Client }.

Definition on_world {A} (m : M World A) : M App A := λ s, let '(w, r) := m (world s) in (mkApp w (client s), r).
Definition on_client {A} (m : M Client A) : M App A := λ s, let '(c, r) := m (client s) in (mkApp (world s) c, r).

Section client.
Context `{UrlHost}.
Context (trace_id : RequestPipeline.Response → option string).
Context (pathname : string → option string) (bytes : value → option Z).
Context (date_of : string → option Z) (number_of : string → option string).

(** [await response.json().catch(() => null)] *)
Definition raw_of (r : RequestPipeline.Response) : value := of_json (default JNull (r_body r)).

Definition intercepted (url : string) (init : RequestInit) (start t : Z) (r : RequestPipeline.Response) : InterceptedRequest :=
  mkIntercepted url (uppercase (default "GET" (RequestPipeline.i_method init))) (r_status r) (t - start) 0 None (trace_id r).

(** The message and the code of an answer that is not a success. *)
Definition error_message (r : RequestPipeline.Response) : value := or_else (prop "message" (raw_of r)) (VStr ("HTTP " +:+ pretty (r_status r))).

Definition error_response (t : Z) (r : RequestPipeline.Response) (i : InterceptedRequest) : M Client StandardErrorResponse :=
  buildErrorResponse pathname t (error_message r) (Some (r_status r)) (prop "code" (raw_of r)) None i (Some (r_status r)).

(** The text of a value in the message of an [Error]; objects have the text of
    their class. *)
Definition text_of (v : value) : string :=
  match v with VStr s => s | VNum t => t | VBool true => "true" | VBool false => "false" | VUndefined => "" | VNull => "null" | _ => "[object Object]" end.

(** An answer that is not handled by a refresh. *)
Definition finish (i : Interceptor) (url : string) (init : RequestInit) (start : Z) (r : RequestPipeline.Response) : M App value :=
  t ← on_world (gets now);
  let req := intercepted url init start t r in
  if negb (r_ok r) then
    err ← on_client (error_response t r req);
    throw (HttpError (r_status r) (text_of (e_message (error err))))
  else
    std ← on_client (intercept pathname bytes date_of number_of t i (raw_of r) req);
    mret (data std).

Definition request (o : ClientOptions) (i : Interceptor) (endpoint : string) (init : RequestInit) : M App value :=
  let url := baseURL o +:+ endpoint in
  start ← on_world (gets now);
  response ← on_world (execute (pipeline o) url init);
  if bool_decide (r_status response = 401) then
    _ ← on_world (refresh_or_expire o);
    start ← on_world (gets now);
    response ← on_world (execute (pipeline o) url init);
    finish i url init start response
  else finish i url init start response.

(** [rounds] bounds the calls of itself; [None] is a call that has not returned
    by then. *)
Fixpoint requestStandard (rounds : nat) (o : ClientOptions) (i : Interceptor) (endpoint : string) (init : RequestInit) : M App (option StandardResponse) :=
  match rounds with
  | O => mret None
  | S rounds =>
      let url := baseURL o +:+ endpoint in
      start ← on_world (gets now);
      response ← on_world (execute (pipeline o) url init);
      if bool_decide (r_status response = 401) then _ ← on_world (refresh_or_expire o); requestStandard rounds o i endpoint init
      else
        t ← on_world (gets now);
        let req := intercepted url init start t response in
        if negb (r_ok response) then
          err ← on_client (error_response t response req);
          mret (Some (mkStandard (VBool false) "error" VNull (e_message (error err)) (error_meta err)))
        else
          std ← on_client (intercept pathname bytes date_of number_of t i (raw_of response) req);
          mret (Some std)
  end.

Definition requestPaginatedStandard (o : ClientOptions) (i : Interceptor) (endpoint : string) (init : RequestInit)
  : M App (StandardResponse * PaginationMeta) :=
  let url := baseURL o +:+ endpoint in
  start ← on_world (gets now);
  response ← on_world (execute (pipeline o) url init);
  t ← on_world (gets now);
  on_client (interceptPaginated pathname bytes date_of number_of t i (raw_of response) (intercepted url init start t response)).

(** ** Requests end to end *)

(** The interceptor of the application: the built-in policies, no callback. *)
Definition plain_governance (i : Interceptor) : Prop := extraPolicies (governanceOptions i) = [] ∧ onViolation (governanceOptions i) = None.

(** What the interceptor and the error builder leave alone. *)
Lemma on_client_world {A} (m : M Client A) s : world (on_client m s).1 = world s.
Proof. unfold on_client. by destruct (m (client s)). Qed.

Lemma error_response_runs t r i c : ∃ c' e, error_response t r i c = (c', Ok e) ∧ e_message (error e) = error_message r.
Proof.
  unfold error_response, buildErrorResponse. cbv [mbind M_bind]. unfold trace_of. destruct (i_traceId i); by eexists _, _.
Qed.

(** The payload in an answer of the server. *)
Definition payload_of (i : Interceptor) (raw : value) : value :=
  transform date_of number_of i (if isRawEnvelope raw then prop "data" raw else raw).

Lemma intercept_payload t i raw r c :
  plain_governance i →
  ∃ c' resp, intercept pathname bytes date_of number_of t i raw r c = (c', Ok resp) ∧ data resp = payload_of i raw ∧
    success resp = or_else (if isRawEnvelope raw then prop "success" raw else VUndefined) (VBool (bool_decide (200 ≤ i_statusCode r < 300))).
Proof.
  intros [Hx Ho]. destruct (intercept_runs pathname bytes date_of number_of t i raw r c Hx Ho) as (c' & tr & -> & _).
  exists c', (build_response pathname date_of number_of t i raw r tr). unfold build_response, payload_of. by destruct (isRawEnvelope raw).
Qed.

(** What [request] makes of the last answer, or of the error of the pipeline. *)
Definition outcome (i : Interceptor) (raw : result RequestPipeline.Response) (res : result value) : Prop :=
  match raw with
  | Ok r => if r_ok r then res = Ok (payload_of i (raw_of r)) else ∃ m, res = Throw (HttpError (r_status r) m)
  | Throw e => res = Throw e
  end.

Lemma finish_outcome i url init start r s :
  plain_governance i →
  world (finish i url init start r s).1 = world s ∧ outcome i (Ok r) (finish i url init start r s).2.
Proof.
  intros Hi. unfold finish, outcome, on_world, on_client, gets. cbv [mbind M_bind]. destruct (r_ok r) eqn:Hok; cbn [negb world client].
  - destruct (intercept_payload (now (world s)) i (raw_of r) (intercepted url init start (now (world s)) r) (client s) Hi)
      as (c' & resp & -> & Hd & _). cbn. by rewrite Hd.
  - destruct (error_response_runs (now (world s)) r (intercepted url init start (now (world s)) r) (client s)) as (c' & e & -> & _).
    split; [done|]. cbn [throw snd]. by eexists.
Qed.

(** One trip through the pipeline: from one state to a later one the request was sent
    at most as often as the retries allow, with the token that is stored, and the
    answer is one the network gave to one of these, the refusal of an open circuit, or
    an error of the network. *)
Definition trip (o : ClientOptions) (url : string) (init : RequestInit) (w w' : World) (raw : result RequestPipeline.Response) : Prop :=
  (∃ cid l, sent w' = sent w ++ l ∧ (length l ≤ maxAttempts (retry o))%nat ∧
     Forall (.= mkSent url (Some (default "GET" (RequestPipeline.i_method init))) (request_headers url init cid w)) l) ∧
  heard w w' raw ∧ raw ≠ Throw WAITS ∧ storage w' = storage w ∧ signedOut w' = signedOut w.

Lemma execute_trip o url init w : inFlight w = [] → (length (events w) ≤ MAX_REQUEST_EVENTS)%nat →
  let '(w', raw) := execute (pipeline o) url init w in
  trip o url init w w' raw ∧ network w' = network w ∧ inFlight w' = [] ∧ (length (events w') ≤ MAX_REQUEST_EVENTS)%nat.
Proof.
  intros Hf He. pose proof (execute_sends o url init w Hf He) as Hs. pose proof (execute_hears o url init w) as (Hn & _ & Hh).
  destruct (execute (pipeline o) url init w) as [w' raw]. destruct Hs as (cid & l & El & Hl & Fl & Hf' & Hst & Hso & He' & Hw). cbn [fst snd] in *.
  split; [|done]. split; [by exists cid, l|done].
Qed.

(** The session is reported lost, once, the tokens stay, and the refresh was sent if
    there was a token to send. *)
Definition session_lost (o : ClientOptions) (w w' : World) (res : result value) : Prop :=
  res = Throw SESSION_EXPIRED ∧ signedOut w' = S (signedOut w) ∧ storage w' = storage w ∧
  sent w' = sent w ++ (match truthy_str (getStoredRefreshToken w) with Some _ => [refresh_sent o] | None => [] end).

(** The tokens of the answer to the refresh are stored. *)
Definition refreshed (o : ClientOptions) (w w' : World) : Prop :=
  is_Some (truthy_str (getStoredRefreshToken w)) ∧ sent w' = sent w ++ [refresh_sent o] ∧ signedOut w' = signedOut w ∧
  ∃ t r data, network w (length (sent w)) = (t, Some r) ∧ r_ok r = true ∧ r_body r = Some data ∧
    storage w' = storage (updateStoredTokens (text_field "access_token" data) (text_field "refresh_token" data) w).


(** [requestStandard] has no bound of its own: against a server that
    answers 401 and keeps handing out tokens it has not returned after any number
    of rounds. *)
Theorem standard_never_returns o i endpoint init s rounds :
  let w := world s in let url := baseURL o +:+ endpoint in let k := length (sent w) in
  (0 < maxAttempts (retry o))%nat → 401 ∉ retryOn (retry o) →
  inFlight w = [] → openedAt (circuit_of (getHost url) w) = None → is_Some (truthy_str (getStoredRefreshToken w)) →
  (∀ n, ∃ t b, network w (k + 2 * n)%nat = (t, Some (RequestPipeline.mkResponse 401 b))) →
  (∀ n, ∃ t data, network w (k + 2 * n + 1)%nat = (t, Some (RequestPipeline.mkResponse 200 (Some data))) ∧ text_field "refresh_token" data ≠ "") →
  (requestStandard rounds o i endpoint init s).2 = Ok None.
Proof.
  cbv zeta. intros Hmax Hno. revert s. induction rounds as [|rounds IH]; intros s Hf Ho Htok H401 H200; [done|].
  destruct s as [w c]. cbn [world] in *.
  cbn [requestStandard]. unfold on_world, gets. cbv [mbind M_bind]. cbn [world client]. destruct (H401 0%nat) as (t & b & E1). rewrite Nat.mul_0_r, Nat.add_0_r in E1.
  destruct (execute_answers o (baseURL o +:+ endpoint) init w t (RequestPipeline.mkResponse 401 b) Hf Ho Hmax E1) as (w1 & -> & (S1 & S2 & S3 & S4) & Ho1);
    [cbn; lia|done|]. cbn [r_status world client]. rewrite (bool_decide_true (401 = 401)) by done. cbn [world client].
  destruct (H200 0%nat) as (t2 & data & E2 & Hd).
  destruct (refresh_again o w1 t2 data) as (w2 & -> & R1 & R2 & R3 & R4 & R5); [by unfold getStoredRefreshToken, stored; rewrite S2|done| |].
  { rewrite S3, S4, <- E2. f_equal. lia. }
  cbn [world client]. apply IH; cbn [world].
  - congruence.
  - unfold circuit_of in *. by rewrite R2.
  - done.
  - intros n. rewrite R3, S3, R4, S4. destruct (H401 (S n)) as (t' & b' & E'). exists t', b'. rewrite <- E'. f_equal. lia.
  - intros n. rewrite R3, S3, R4, S4. destruct (H200 (S n)) as (t' & d' & E' & Hd'). exists t', d'. split; [|done]. rewrite <- E'. f_equal. lia.
Qed.

(** A paginated request never refreshes the tokens: whatever the server answers,
    401 included, only the request itself is sent, the tokens stay, and the answer
    is handed to the caller. *)
Theorem paginated_never_refreshes o i endpoint init s :
  plain_governance i → inFlight (world s) = [] → (length (events (world s)) ≤ MAX_REQUEST_EVENTS)%nat →
  let '(s', res) := requestPaginatedStandard o i endpoint init s in
  storage (world s') = storage (world s) ∧
  (∃ l, sent (world s') = sent (world s) ++ l ∧ Forall (λ x, s_url x = baseURL o +:+ endpoint) l) ∧
  (∀ w r, execute (pipeline o) (baseURL o +:+ endpoint) init (world s) = (w, Ok r) →
     ∃ std pages, res = Ok (std, pages) ∧ data std = payload_of i (raw_of r) ∧ pages = paginate (raw_of r) std).
Proof.
  intros Hi Hf He. unfold requestPaginatedStandard, interceptPaginated, on_world, on_client, gets. cbv [mbind M_bind]. cbn [world client].
  pose proof (execute_sends o (baseURL o +:+ endpoint) init (world s) Hf He) as Hx.
  destruct (execute (pipeline o) (baseURL o +:+ endpoint) init (world s)) as [w1 [r1|e]];
    destruct Hx as (cid & l & El & _ & Fl & _ & Hst & _ & _); cbn [world client].
  - destruct (intercept_payload (now w1) i (raw_of r1) (intercepted (baseURL o +:+ endpoint) init (now (world s)) (now w1) r1) (client s) Hi)
      as (c' & resp & -> & Hd & _). cbn [world]. split_and!; [done| |by intros w r [= <- <-]; exists resp, (paginate (raw_of r1) resp)].
    exists l. split; [done|]. eapply Forall_impl; [exact Fl|]. by intros x ->.
  - split_and!; [done| |done]. exists l. split; [done|]. eapply Forall_impl; [exact Fl|]. by intros x ->.
Qed.
End client.

(** ** Runs *)

#[local] Instance first_segment : UrlHost := λ u, Some (split_head "/"%char u).

(** A server that refuses the token once, hands out new ones, and then answers
    with an envelope. *)
Definition once_expired (n : nat) : Z * option RequestPipeline.Response :=
  match n with
  | O => (10, Some (RequestPipeline.mkResponse 401 None))
  | 1%nat => (10, Some (RequestPipeline.mkResponse 200 (Some (JObj [("access_token", JStr "t2"); ("refresh_token", JStr "r2")]))))
  | _ => (10, Some (RequestPipeline.mkResponse 200 (Some (JObj [("success", JBool true); ("data", JObj [("user_id", JNum "7")])]))))
  end.

Definition start_app (net : nat → Z * option RequestPipeline.Response) : App := mkApp (idle net signed_in) new_client.

Definition no_trace (r : RequestPipeline.Response) : option string := None.

Definition ask : M App value :=
  request no_trace (λ _, None) (λ _, None) (λ _, None) (λ _, None) (default_client "api") responseInterceptor "/me" (mkInit None []).


(** A server that always answers 401 and always hands out new tokens. *)
Definition stubborn (n : nat) : Z * option RequestPipeline.Response :=
  if Nat.even n then (10, Some (RequestPipeline.mkResponse 401 None))
  else (10, Some (RequestPipeline.mkResponse 200 (Some (JObj [("access_token", JStr "t"); ("refresh_token", JStr "r")])))).

Example standard_never_returns_witness :
  (requestStandard no_trace (λ _, None) (λ _, None) (λ _, None) (λ _, None) 100 (default_client "api") responseInterceptor "/me" (mkInit None [])
    (start_app stubborn)).2 = Ok None.
Proof.
  apply standard_never_returns.
  - cbn. lia.
  - apply (bool_decide_unpack _). vm_compute. exact I.
  - done.
  - done.
  - eexists. reflexivity.
  - intros n. exists 10, None. cbn [idle sent length plus network start_app world]. unfold stubborn. by rewrite Nat.even_mul.
  - intros n. exists 10, (JObj [("access_token", JStr "t"); ("refresh_token", JStr "r")]). split; [|done].
    cbn [idle sent length plus network start_app world]. unfold stubborn. by rewrite Nat.even_add, Nat.even_mul.
Defined.

(** The other method gives up after one refresh. *)
Example request_gives_up :
  let '(s, res) := ask (start_app stubborn) in res = Throw (HttpError 401 "HTTP 401") ∧ length (sent (world s)) = 3%nat.
Proof. vm_compute. split; reflexivity. Qed.

Example paginated_never_refreshes_witness :
  let '(s', res) := requestPaginatedStandard no_trace (λ _, None) (λ _, None) (λ _, None) (λ _, None) (default_client "api") responseInterceptor "/list"
    (mkInit None []) (start_app once_expired) in
  storage (world s') = signed_in ∧
  (∃ l, sent (world s') = [] ++ l ∧ Forall (λ x, s_url x = "api/list") l) ∧
  (∀ w r, execute (pipeline (default_client "api")) "api/list" (mkInit None []) (idle once_expired signed_in) = (w, Ok r) →
     ∃ std pages, res = Ok (std, pages) ∧ data std = payload_of (λ _, None) (λ _, None) responseInterceptor (raw_of r) ∧ pages = paginate (raw_of r) std).
Proof.
  apply (paginated_never_refreshes no_trace (λ _, None) (λ _, None) (λ _, None) (λ _, None) (default_client "api") responseInterceptor "/list"
    (mkInit None []) (start_app once_expired)); [done|done|]. apply (bool_decide_unpack _). vm_compute. exact I.
Defined.

(** What the caller sees then: a page that failed, with no hint of the expired
    token but its status. *)
Example expired_page :
  let res := (requestPaginatedStandard no_trace (λ _, None) (λ _, None) (λ _, None) (λ _, None) (default_client "api") responseInterceptor "/list"
    (mkInit None []) (start_app once_expired)).2 in
  match res with Ok (std, pages) => (status std, statusCode (meta std), p_total pages) | Throw _ => ("", 0, 0) end = ("error", 401, 0).
Proof. by vm_compute. Qed.
