(* ===== verification/Analytics.v ===== *)
(** * Analytics of players: [server/src/services/analytics.service.ts]

    The buffer of events and the figures computed from it.  Of the data of an
    event the service reads four fields; they are numbers where it adds them up.
    The instant of a call is an argument, as is what [Math.random()] gives and the
    day of the month of a day; a day begins at midnight of Coordinated Universal
    Time, which is the zone of the server.  Sums and quotients are exact. *)

From Stdlib Require Import Ascii QArith Qround Qabs Lqa.
From stdpp Require Import prelude gmap strings list pretty sorting.
From S2P Require Import Prelude JsText.

#[local] Open Scope Z_scope.

(** ** Data *)

Inductive AnalyticsEventType :=
| match_started | match_completed | tournament_registered | achievement_unlocked | wallet_funded | session_started | session_ended | custom.

#[export] Instance AnalyticsEventType_eq_dec : EqDecision AnalyticsEventType.
Proof. solve_decision. Defined.

Definition type_name (t : AnalyticsEventType) : string :=
  match t with
  | match_started => "match_started" | match_completed => "match_completed" | tournament_registered => "tournament_registered"
  | achievement_unlocked => "achievement_unlocked" | wallet_funded => "wallet_funded" | session_started => "session_started"
  | session_ended => "session_ended" | custom => "custom"
  end.

(** What is read of [data]. *)
Record EventData := mkData { matchId : option string; wager : option Q; reward : option Q; duration : option Q }.

Record AnalyticsEvent := mkEvent { e_id : string; e_userId : string; e_type : AnalyticsEventType; e_data : EventData; e_timestamp : Z }.

Inductive AnalyticsPeriod := P1h | P24h | P7d | P30d | Pall.

Definition hour : Z := 3600000.
Definition day : Z := 86400000.

Definition cutoffFor (p : AnalyticsPeriod) (now : Z) : option Z :=
  match p with
  | P1h => Some (now - hour)
  | P24h => Some (now - day)
  | P7d => Some (now - 7 * day)
  | P30d => Some (now - 30 * day)
  | Pall => None
  end.

(** ** The buffer *)

Definition MAX_EVENT_RETENTION : nat := 100000.

Section retention.
Context (maxRetention : nat).

(** [push], then [splice(0, length - maxRetention)] of what is over the limit *)
Definition trackEvent (uuid userId : string) (t : AnalyticsEventType) (d : EventData) (now : Z) (events : list AnalyticsEvent)
  : list AnalyticsEvent * AnalyticsEvent :=
  let event := mkEvent uuid userId t d now in
  let events := events ++ [event] in
  (if bool_decide (Z.of_nat maxRetention < Z.of_nat (length events)) then drop (length events - maxRetention) events else events, event).
End retention.

Definition eventsInWindow (p : AnalyticsPeriod) (now : Z) (events : list AnalyticsEvent) : list AnalyticsEvent :=
  match cutoffFor p now with
  | None => events
  | Some cutoff => List.filter (λ e, bool_decide (cutoff ≤ e_timestamp e)) events
  end.

Definition is_type (t : AnalyticsEventType) (e : AnalyticsEvent) : bool := bool_decide (e_type e = t).

Definition count_type (t : AnalyticsEventType) (l : list AnalyticsEvent) : Z := Z.of_nat (length (List.filter (is_type t) l)).

(** [new Set(events.map(e => e.userId)).size] *)
Definition distinct_players (l : list AnalyticsEvent) : Z := Z.of_nat (length (dedupe (e_userId <$> l))).

(** ** Metrics of a player *)

Record PlayerMetrics := mkPlayerMetrics {
  pm_userId : string; pm_period : AnalyticsPeriod; eventCounts : jsmap Z; pm_totalEvents : Z; firstEventAt : option Z; lastEventAt : option Z }.

(** [if (x == null || t < x) x = t] *)
Definition keep_first (x : option Z) (t : Z) : option Z :=
  match x with Some y => if bool_decide (t < y) then Some t else Some y | None => Some t end.
Definition keep_last (x : option Z) (t : Z) : option Z :=
  match x with Some y => if bool_decide (y < t) then Some t else Some y | None => Some t end.

Definition calculatePlayerMetrics (userId : string) (p : AnalyticsPeriod) (now : Z) (events : list AnalyticsEvent) : PlayerMetrics :=
  let l := List.filter (λ e, bool_decide (e_userId e = userId)) (eventsInWindow p now events) in
  mkPlayerMetrics userId p (foldl tally [] (type_name ∘ e_type <$> l)) (Z.of_nat (length l))
    (foldl keep_first None (e_timestamp <$> l)) (foldl keep_last None (e_timestamp <$> l)).

(** ** Matches *)

Record GamePerformanceMetrics := mkPerformance {
  gp_period : AnalyticsPeriod; matchesStarted : Z; matchesCompleted : Z; completionRate : Q; averageMatchDurationMs : option Z }.

(** [Math.round(a / b)] of integers, [b > 0] *)
Definition round_div (a b : Z) : Z := (2 * a + b) / (2 * b).

(** The starts not yet paired, and the durations found, by one event. *)
Definition pair_match (acc : jsmap Z * list Z) (e : AnalyticsEvent) : jsmap Z * list Z :=
  let '(starts, durations) := acc in
  let m := default "" (matchId (e_data e)) in
  match e_type e with
  | match_started => (if bool_decide (m = "") then starts else map_set m (e_timestamp e) starts, durations)
  | match_completed =>
      match map_get m starts with
      | Some t => (map_delete m starts, durations ++ [e_timestamp e - t])
      | None => (starts, durations)
      end
  | _ => (starts, durations)
  end.

Definition match_durations (l : list AnalyticsEvent) : list Z := (foldl pair_match ([], []) l).2.

Definition getGamePerformanceMetrics (p : AnalyticsPeriod) (now : Z) (events : list AnalyticsEvent) : GamePerformanceMetrics :=
  let l := eventsInWindow p now events in
  let started := count_type match_started l in
  let completed := count_type match_completed l in
  let ds := match_durations l in
  mkPerformance p started completed
    (if bool_decide (started = 0) then 0%Q else (inject_Z completed / inject_Z started)%Q)
    (match ds with [] => None | _ => Some (round_div (zsum ds) (Z.of_nat (length ds))) end).

(** ** Dashboard and real-time figures *)

Record AnalyticsDashboard := mkDashboard { d_totalEvents : Z; d_uniquePlayers : Z; eventBreakdown : jsmap Z; d_generatedAt : Z }.

Definition getDashboard (p : AnalyticsPeriod) (now : Z) (events : list AnalyticsEvent) : AnalyticsDashboard :=
  let l := eventsInWindow p now events in
  mkDashboard (Z.of_nat (length l)) (distinct_players l) (foldl tally [] (type_name ∘ e_type <$> l)) now.

Record RealTimeStats := mkRealTime {
  eventsLastMinute : Z; eventsLast5Min : Z; activePlayersLast5Min : Z; backlogSize : Z; capturedAt : Z }.

Definition getRealTimeStats (t : Z) (events : list AnalyticsEvent) : RealTimeStats :=
  let last5 := List.filter (λ e, bool_decide (t - 300000 ≤ e_timestamp e)) events in
  let last1 := List.filter (λ e, bool_decide (t - 60000 ≤ e_timestamp e)) last5 in
  mkRealTime (Z.of_nat (length last1)) (Z.of_nat (length last5)) (distinct_players last5) (Z.of_nat (length events)) t.

(** ** Reports *)

Inductive ReportType :=
| player_engagement | match_throughput | tournament_funnel | achievement_velocity | revenue_analysis | cohort_retention | privacy_preserving.

Inductive Row :=
| Engagement (userId : string) (eventCount : Z)
| Throughput (started completed : Z) (rate : Q) (average : option Z)
| Funnel (registered started completed : Z)
| Velocity (hourBucket count : Z).

Record AnalyticsReport := mkReport { reportType : ReportType; rows : list Row; r_generatedAt : Z; durationMs : Z }.

(** Counts by hour, in order of first occurrence: [byHour]. *)
Fixpoint bump_hour (h : Z) (l : list (Z * Z)) : list (Z * Z) :=
  match l with
  | [] => [(h, 1)]
  | (h', n) :: l' => if bool_decide (h' = h) then (h', n + 1) :: l' else (h', n) :: bump_hour h l'
  end.

Definition by_hour (l : list AnalyticsEvent) : list (Z * Z) :=
  foldl (λ acc e, if is_type achievement_unlocked e then bump_hour (e_timestamp e / hour) acc else acc) [] l.

(** A report of a type without a branch has no rows. *)
Definition report_rows (r : ReportType) (p : AnalyticsPeriod) (now : Z) (events : list AnalyticsEvent) : list Row :=
  let l := eventsInWindow p now events in
  match r with
  | player_engagement => (λ un, Engagement un.1 un.2) <$> js_sort (λ a b, b.2 - a.2) (foldl tally [] (e_userId <$> l))
  | match_throughput =>
      let g := getGamePerformanceMetrics p now events in
      [Throughput (matchesStarted g) (matchesCompleted g) (completionRate g) (averageMatchDurationMs g)]
  | tournament_funnel => [Funnel (count_type tournament_registered l) (count_type match_started l) (count_type match_completed l)]
  | achievement_velocity => (λ hn, Velocity (hn.1 * hour) hn.2) <$> js_sort (λ a b, a.1 * hour - b.1 * hour) (by_hour l)
  | revenue_analysis | cohort_retention | privacy_preserving => []
  end.

Definition generateReport (r : ReportType) (p : option AnalyticsPeriod) (t0 t1 : Z) (events : list AnalyticsEvent) : AnalyticsReport :=
  mkReport r (report_rows r (default P24h p) t0 events) t0 (t1 - t0).

(** ** Aggregation *)

Record AggregatedMetrics := mkAggregated {
  ag_period : AnalyticsPeriod; totalMatches : Z; uniquePlayers : Z; totalVolume : Q; totalRewards : Q; avgSessionDuration : Q; dau : Z; mau : Z;
  revenuePerUser : Q; winRate : Q }.

Definition qsum (l : list Q) : Q := foldr Qplus 0%Q l.

Definition field_sum (f : EventData → option Q) (t : AnalyticsEventType) (l : list AnalyticsEvent) : Q :=
  qsum ((λ e, default 0%Q (f (e_data e))) <$> List.filter (is_type t) l).

(** [n > 0 ? x / n : 0] *)
Definition per (x : Q) (n : Z) : Q := if bool_decide (0 < n) then (x / inject_Z n)%Q else 0%Q.

(** What is called the matches started are the sessions started. *)
Definition getAggregatedMetrics (p : AnalyticsPeriod) (now : Z) (events : list AnalyticsEvent) : AggregatedMetrics :=
  let l := eventsInWindow p now events in
  let completed := count_type match_completed l in
  let started := count_type session_started l in
  let players := distinct_players l in
  let volume := field_sum wager match_completed l in
  mkAggregated p completed players volume (field_sum reward match_completed l)
    (per (field_sum duration session_ended l) (count_type session_ended l))
    (distinct_players (List.filter (λ e, bool_decide (now - day ≤ e_timestamp e)) events))
    (distinct_players events) (per volume players) (per (inject_Z completed) started * 100)%Q.

(** ** Cohorts

    A cohort is known by its day, counted from 1970-01-01; its id is the date of
    that day, and the dates of the years from 0 to 9999 are sorted as the days are. *)

Record CohortRetention := mkCohort {
  cohortId : Z; cohortSize : Z; retentionDay1 : Q; retentionDay7 : Q; retentionDay30 : Q; avgMatchesPerUser : Q; co_avgSessionDuration : Q }.

Section cohorts.
Context (dayOfMonth : Z → Z) (cohortDays : Z).

(** [setHours(0,0,0,0)], then [setDate(getDate() - getDate() % cohortDays)] *)
Definition cohort_of (t : Z) : Z := let d := t / day in d - Z.rem (dayOfMonth d) cohortDays.

Fixpoint add_to_cohort (c : Z) (e : AnalyticsEvent) (cohorts : list (Z * list AnalyticsEvent)) : list (Z * list AnalyticsEvent) :=
  match cohorts with
  | [] => [(c, [e])]
  | (c', es) :: cs => if bool_decide (c' = c) then (c', es ++ [e]) :: cs else (c', es) :: add_to_cohort c e cs
  end.

Definition cohorts (events : list AnalyticsEvent) : list (Z * list AnalyticsEvent) :=
  foldl (λ cs e, add_to_cohort (cohort_of (e_timestamp e)) e cs) [] events.

(** The users with an event at least so many days after the cohort began. *)
Definition retained (days : Z) (c : Z) (es : list AnalyticsEvent) : Z :=
  distinct_players (List.filter (λ e, bool_decide (days * day ≤ e_timestamp e - c * day)) es).

Definition retention_row (ce : Z * list AnalyticsEvent) : CohortRetention :=
  let '(c, es) := ce in
  let size := distinct_players es in
  mkCohort c size (per (inject_Z (retained 1 c es)) size * 100)%Q (per (inject_Z (retained 7 c es)) size * 100)%Q
    (per (inject_Z (retained 30 c es)) size * 100)%Q (per (inject_Z (count_type match_completed es)) size) (per (field_sum duration session_ended es) size).

Definition getCohortRetention (events : list AnalyticsEvent) : list CohortRetention :=
  js_sort (λ a b, cohortId b - cohortId a) (retention_row <$> List.filter (λ ce, negb (bool_decide (distinct_players ce.2 = 0))) (cohorts events)).
End cohorts.

(** ** Noise *)

Inductive MetricName := total_matches | unique_players | total_volume | avg_session_duration | other_metric.

Definition metric_value (n : MetricName) (events : list AnalyticsEvent) : Q :=
  match n with
  | total_matches => inject_Z (count_type match_completed events)
  | unique_players => inject_Z (distinct_players events)
  | total_volume => field_sum wager match_completed events
  | avg_session_duration => per (field_sum duration session_ended events) (count_type session_ended events)
  | other_metric => 0%Q
  end.

Record PrivacyPreservingMetric := mkPrivate {
  pp_name : MetricName; pp_value : Z; noiseAdded : Z; pp_epsilon : Q; confidenceInterval : Z * Z }.

(** [Math.round(x)] *)
Definition round (x : Q) : Z := Qfloor (x + (1 # 2))%Q.

Definition noise_of (random epsilon value : Q) : Q := ((random - (1 # 2)) * 2 * (1 / epsilon) * value * (1 # 10))%Q.

Definition private_metric (epsilon : Q) (events : list AnalyticsEvent) (nr : MetricName * Q) : PrivacyPreservingMetric :=
  let '(name, random) := nr in
  let value := metric_value name events in
  let noise := noise_of random epsilon value in
  let noisy := round (value + noise)%Q in
  let margin := round (1 / epsilon * value * (1 # 5))%Q in
  mkPrivate name noisy (round noise) epsilon (Z.max 0 (noisy - margin), noisy + margin).

(** Each name with what [Math.random()] gives for it. *)
Definition getPrivacyPreservingMetrics (names : list (MetricName * Q)) (epsilon : option Q) (events : list AnalyticsEvent) : list PrivacyPreservingMetric :=
  private_metric (default 1%Q epsilon) events <$> names.

Record AnalyticsHealthMetrics := mkHealth {
  totalEventsProcessed : Z; aggregationLatencyMs : Z; privacyBudgetUsed : Z; queryCount : Z; cacheHitRate : Z; h_timestamp : Z }.

Definition getAnalyticsHealth (now : Z) (events : list AnalyticsEvent) : AnalyticsHealthMetrics :=
  mkHealth (Z.of_nat (length events)) 0 0 0 0 now.

(** ** The buffer holds the last events *)

Record Call := mkCall { k_uuid : string; k_userId : string; k_type : AnalyticsEventType; k_data : EventData; k_now : Z }.

Definition track_all (maxRetention : nat) (calls : list Call) (events : list AnalyticsEvent) : list AnalyticsEvent :=
  foldl (λ es k, (trackEvent maxRetention (k_uuid k) (k_userId k) (k_type k) (k_data k) (k_now k) es).1) events calls.

Definition event_of (k : Call) : AnalyticsEvent := mkEvent (k_uuid k) (k_userId k) (k_type k) (k_data k) (k_now k).

Theorem buffer_is_recent (n : nat) calls :
  (0 < n)%nat → track_all n calls [] = js_slice_last (Z.of_nat n) (event_of <$> calls).
Proof.
  intros Hn. induction calls as [|k calls IH] using rev_ind; [by unfold js_slice_last; cbn; rewrite drop_nil|].
  unfold track_all in *. rewrite foldl_snoc, IH, fmap_app. cbn [fmap list_fmap]. unfold trackEvent. cbn [fst].
  rewrite js_slice_last_push, js_slice_last_app by (done || lia ||
    pose proof (js_slice_last_length (Z.of_nat n) (event_of <$> calls) ltac:(lia)); lia). done.
Qed.

(** ** Counts agree *)

Lemma zsum_occurrences (l : list string) : zsum ((λ k, occurrences k l) <$> dedupe l) = Z.of_nat (length l).
Proof.
  assert (∀ ks, NoDup ks → (∀ x, x ∈ l → x ∈ ks) → zsum ((λ k, occurrences k l) <$> ks) = Z.of_nat (length l)) as Hgen.
  { induction l as [|x l IH]; intros ks Hnd Hin.
    { clear. induction ks as [|k ks IH]; [done|]. rewrite fmap_cons. cbn [zsum foldr]. fold (zsum ((λ k, occurrences k []) <$> ks)). rewrite IH. done. }
    assert (zsum ((λ k, occurrences k (x :: l)) <$> ks) = zsum ((λ k, occurrences k l) <$> ks) + 1) as ->.
    { assert (x ∈ ks) as Hx by (apply Hin; by left). clear IH Hin. induction ks as [|k ks IHk]; [by apply not_elem_of_nil in Hx|].
      inversion Hnd as [|? ? Hk Hnd']; subst. rewrite !fmap_cons. cbn [zsum foldr]. fold (zsum ((λ k, occurrences k (x :: l)) <$> ks)).
      fold (zsum ((λ k, occurrences k l) <$> ks)). unfold occurrences at 1. cbn [List.filter].
      destruct (bool_decide_reflect (x = k)) as [->|Hne].
      - assert (zsum ((λ k', occurrences k' (k :: l)) <$> ks) = zsum ((λ k', occurrences k' l) <$> ks)) as ->.
        { f_equal. apply list_fmap_ext. intros i k' Hk'%list_elem_of_lookup_2. unfold occurrences. cbn [List.filter].
          by rewrite (bool_decide_false (k = k')) by (intros ->; done). }
        cbn [length]. unfold occurrences. lia.
      - rewrite IHk; [unfold occurrences; lia|done|]. apply elem_of_cons in Hx as [->|]; done. }
    rewrite IH; [cbn [length]; lia|done|]. intros y Hy. apply Hin. by right. }
  apply Hgen; [apply dedupe_nodup|]. intros x Hx. by apply elem_of_dedupe.
Qed.

Lemma filter_length {A} (f : A → bool) l : Z.of_nat (length (List.filter f l)) ≤ Z.of_nat (length l).
Proof. pose proof (List.filter_length_le f l). lia. Qed.

Lemma distinct_le l : distinct_players l ≤ Z.of_nat (length l).
Proof.
  unfold distinct_players. rewrite <- (length_fmap e_userId l). assert (length (dedupe (e_userId <$> l)) ≤ length (e_userId <$> l))%nat; [|lia].
  apply submseteq_length, NoDup_submseteq; [apply dedupe_nodup|]. intros x. by rewrite elem_of_dedupe.
Qed.

Lemma tally_sum l : zsum (snd <$> foldl tally [] l) = Z.of_nat (length l).
Proof.
  rewrite (zsum_perm _ _ (fmap_Permutation _ _ _ (tally_dedupe l))), <- list_fmap_compose.
  rewrite <- (zsum_occurrences l). done.
Qed.

Lemma keep_first_spec l x :
  match foldl keep_first x l with
  | None => l = [] ∧ x = None
  | Some y => y ∈ option_list x ++ l ∧ ∀ z, z ∈ option_list x ++ l → y ≤ z
  end.
Proof.
  revert x. induction l as [|t l IH]; intros x; cbn [foldl].
  { destruct x as [y|]; [|done]. cbn. split; [by left|]. intros z [->|[]%not_elem_of_nil]%elem_of_cons. lia. }
  specialize (IH (keep_first x t)). destruct (foldl keep_first (keep_first x t) l) as [y|].
  - destruct IH as [Hy Hle]. assert (∃ m, keep_first x t = Some m ∧ m ∈ option_list x ++ [t] ∧ ∀ z, z ∈ option_list x ++ [t] → m ≤ z) as (m & Em & Hm & Hmle).
    { destruct x as [x|]; cbn; [|exists t; split_and!; [done|by left|by intros z [->|[]%not_elem_of_nil]%elem_of_cons]].
      destruct (bool_decide_reflect (t < x)); [exists t|exists x]; (split_and!; [done|set_solver|]); intros z; rewrite !elem_of_cons;
        intros [->|[->|[]%not_elem_of_nil]]; lia. }
    rewrite Em in *. cbn in Hy, Hle. split.
    + apply elem_of_cons in Hy as [->|Hy]; set_solver.
    + intros z Hz. assert (z ∈ option_list x ++ [t] ∨ z ∈ l) as [Hz'|Hz'] by set_solver; [|apply Hle; by right].
      etrans; [apply (Hle m); by left|by apply Hmle].
  - destruct IH as [_ Hk]. destruct x; cbn in Hk; [by case_bool_decide|done].
Qed.

Lemma keep_last_first x t : keep_last x t = Z.opp <$> keep_first (Z.opp <$> x) (- t).
Proof.
  destruct x as [x|]; cbn; [|by rewrite Z.opp_involutive].
  rewrite (bool_decide_ext (- t < - x) (x < t)) by lia. destruct (bool_decide _); cbn; by rewrite Z.opp_involutive.
Qed.

Lemma keep_last_fold l x : foldl keep_last x l = Z.opp <$> foldl keep_first (Z.opp <$> x) (Z.opp <$> l).
Proof.
  revert x. induction l as [|t l IH]; intros x; cbn [foldl].
  { destruct x as [x|]; cbn; [by rewrite Z.opp_involutive|done]. }
  rewrite IH, fmap_cons. cbn [foldl]. f_equal. f_equal. rewrite keep_last_first. destruct (keep_first _ _) as [y|]; cbn; [by rewrite Z.opp_involutive|done].
Qed.

Lemma elem_of_bfilter_pos {A} (f : A → bool) l x : f x = true ∧ x ∈ l → 0 < Z.of_nat (length (List.filter f l)).
Proof. rewrite <- elem_of_bfilter. destruct (List.filter f l); [by intros ?%not_elem_of_nil|cbn [length]; lia]. Qed.

(** The metrics of a player: the counts by type are exact and add up to the
    total; the first and the last instant are the bounds of the events counted,
    and are missing exactly when there are none. *)
Theorem player_metrics_spec userId p now events :
  let m := calculatePlayerMetrics userId p now events in
  let l := List.filter (λ e, bool_decide (e_userId e = userId)) (eventsInWindow p now events) in
  (∀ t, map_get (type_name t) (eventCounts m) = if bool_decide (0 < count_type t l) then Some (count_type t l) else None) ∧
  zsum (snd <$> eventCounts m) = pm_totalEvents m ∧
  match firstEventAt m, lastEventAt m with
  | Some a, Some b => a ∈ e_timestamp <$> l ∧ b ∈ e_timestamp <$> l ∧ ∀ e, e ∈ l → a ≤ e_timestamp e ≤ b
  | None, None => l = []
  | _, _ => False
  end.
Proof.
  cbn zeta. unfold calculatePlayerMetrics. cbn [eventCounts pm_totalEvents firstEventAt lastEventAt]. set (l := List.filter _ _).
  assert (∀ t, occurrences (type_name t) (type_name ∘ e_type <$> l) = count_type t l) as Hocc.
  { intros t. unfold occurrences, count_type. f_equal. clearbody l. induction l as [|e l IH]; [done|]. rewrite fmap_cons. cbn [List.filter compose].
    unfold is_type. rewrite (bool_decide_ext (type_name (e_type e) = type_name t) (e_type e = t)) by (destruct (e_type e), t; cbn; split; done || congruence).
    destruct (bool_decide (e_type e = t)); cbn [length]; by rewrite IH. }
  split_and!.
  - intros t. rewrite (tally_all _ [] (type_name t)). cbn [map_get from_option id]. rewrite Hocc.
    rewrite (bool_decide_ext (type_name t ∈ type_name ∘ e_type <$> l) (0 < count_type t l)); [by destruct (bool_decide _)|].
    rewrite <- Hocc. unfold occurrences. split.
    + intros Hin. apply (elem_of_bfilter_pos _ _ (type_name t)). split; [by apply bool_decide_eq_true|done].
    + intros Hpos. destruct (List.filter (λ x, bool_decide (x = type_name t)) _) as [|y k] eqn:Ef; [cbn in Hpos; lia|].
      assert (y ∈ y :: k) as Hy by left. rewrite <- Ef in Hy. apply elem_of_bfilter in Hy as [->%bool_decide_eq_true Hy]. done.
  - by rewrite tally_sum, length_fmap.
  - pose proof (keep_first_spec (e_timestamp <$> l) None) as H1. pose proof (keep_first_spec (Z.opp <$> (e_timestamp <$> l)) None) as H2.
    rewrite keep_last_fold. cbn [fmap option_fmap option_map].
    destruct (foldl keep_first None (e_timestamp <$> l)) as [a|], (foldl keep_first None (Z.opp <$> (e_timestamp <$> l))) as [b|]; cbn in *.
    + destruct H1 as [Ha Hal], H2 as [Hb Hbl]. apply list_elem_of_fmap in Hb as (b' & -> & Hb). rewrite Z.opp_involutive. split_and!; [done|done|].
      intros e He. apply (list_elem_of_fmap_2 e_timestamp) in He. split; [by apply Hal|].
      apply (list_elem_of_fmap_2 Z.opp) in He. specialize (Hbl _ He). lia.
    + destruct H2 as [H2 _]. destruct l; [|done]. destruct H1 as [[]%not_elem_of_nil _].
    + destruct H1 as [H1 _]. destruct l; [|done]. destruct H2 as [[]%not_elem_of_nil _].
    + destruct H1 as [H1 _]. by destruct l.
Qed.

(** ** Figures that agree *)

Definition engagement_count (r : Row) : Z := match r with Engagement _ n => n | _ => 0 end.
Definition engagement_user (r : Row) : string := match r with Engagement u _ => u | _ => "" end.

(** The figures of one window agree with each other: the breakdown of the
    dashboard adds up to its total; the report of engagement has a row for every
    player of the window, once, most active first, whose counts add up to the same
    total; and the figures in real time are nested. *)
Theorem figures_agree p now events :
  let d := getDashboard p now events in
  let rows := report_rows player_engagement p now events in
  let s := getRealTimeStats now events in
  zsum (snd <$> eventBreakdown d) = d_totalEvents d ∧
  zsum (engagement_count <$> rows) = d_totalEvents d ∧ Z.of_nat (length rows) = d_uniquePlayers d ∧
  NoDup (engagement_user <$> rows) ∧ StronglySorted (λ a b, engagement_count b ≤ engagement_count a) rows ∧
  0 ≤ eventsLastMinute s ≤ eventsLast5Min s ∧ eventsLast5Min s ≤ backlogSize s ∧ activePlayersLast5Min s ≤ eventsLast5Min s.
Proof.
  cbn zeta. unfold getDashboard, report_rows, getRealTimeStats, distinct_players.
  cbn [eventBreakdown d_totalEvents d_uniquePlayers eventsLastMinute eventsLast5Min backlogSize activePlayersLast5Min]. cbv zeta.
  set (l := eventsInWindow p now events). set (sorted := js_sort _ _).
  assert (sorted ≡ₚ (λ k, (k, occurrences k (e_userId <$> l))) <$> dedupe (e_userId <$> l)) as Hperm
    by (unfold sorted; rewrite js_sort_perm; apply tally_dedupe).
  assert (StronglySorted (λ a b : string * Z, b.2 ≤ a.2) sorted) as Hs.
  { eapply SSorted_mono; [|apply js_sort_sorted; intros; lia]. cbn. lia. }
  set (last5 := List.filter (λ e, bool_decide (now - 300000 ≤ e_timestamp e)) events).
  pose proof (filter_length (λ e, bool_decide (now - 60000 ≤ e_timestamp e)) last5).
  pose proof (filter_length (λ e, bool_decide (now - 300000 ≤ e_timestamp e)) events).
  pose proof (distinct_le last5). unfold distinct_players in *.
  split_and!; try lia.
  - by rewrite tally_sum, length_fmap.
  - rewrite <- list_fmap_compose. unfold compose, engagement_count. cbn. rewrite (zsum_perm _ _ (fmap_Permutation _ _ _ Hperm)), <- list_fmap_compose.
    unfold compose. cbn. by rewrite zsum_occurrences, length_fmap.
  - rewrite length_fmap, (Permutation_length Hperm), length_fmap. done.
  - rewrite <- list_fmap_compose. unfold compose, engagement_user. cbn. rewrite Hperm, <- list_fmap_compose. unfold compose. cbn.
    rewrite list_fmap_id. apply dedupe_nodup.
  - clear -Hs. induction Hs as [|x k _ IH Hx]; [constructor|]. rewrite fmap_cons. constructor; [done|]. by rewrite Forall_fmap.
  - exact H0.
Qed.

(** ** Durations of matches *)

Definition in_order (l : list AnalyticsEvent) : Prop := StronglySorted (λ a b, e_timestamp a ≤ e_timestamp b) l.

Lemma pair_match_bounds l lo starts ds :
  in_order l → (∀ e, e ∈ l → lo ≤ e_timestamp e) → (∀ m t, map_get m starts = Some t → t ≤ lo) → Forall (Z.le 0) ds →
  Forall (Z.le 0) (foldl pair_match (starts, ds) l).2.
Proof.
  revert lo starts ds. induction l as [|e l IH]; intros lo starts ds Hord Hlo Hst Hds; [done|].
  inversion Hord as [|? ? Hl He]; subst. rewrite Forall_forall in He. pose proof (Hlo e ltac:(by left)) as Hle.
  cbn [foldl pair_match]. destruct (e_type e); try (apply (IH (e_timestamp e)); [done|exact He|intros m t Ht; specialize (Hst m t Ht); lia|done]).
  - apply (IH (e_timestamp e)); [done|exact He| |done]. intros m t. destruct (bool_decide _); [intros Ht; specialize (Hst m t Ht); lia|].
    rewrite map_get_set. destruct (bool_decide _); [intros [= <-]; lia|]. intros Ht. specialize (Hst m t Ht). lia.
  - destruct (map_get _ starts) as [t0|] eqn:Hg.
    + apply (IH (e_timestamp e)); [done|exact He| |].
      * intros m t. rewrite map_get_delete. destruct (bool_decide _); [done|]. intros Ht. specialize (Hst m t Ht). lia.
      * apply Forall_app. split; [done|]. constructor; [|constructor]. specialize (Hst _ _ Hg). lia.
    + apply (IH (e_timestamp e)); [done|exact He|intros m t Ht; specialize (Hst m t Ht); lia|done].
Qed.

Lemma map_set_length_le {V} k (v : V) m : (length (map_set k v m) ≤ S (length m))%nat.
Proof. induction m as [|[k' v'] m IH]; cbn; [lia|]. case_bool_decide; cbn; lia. Qed.

Lemma map_delete_length_lt {V} k (v : V) m : map_get k m = Some v → (S (length (map_delete k m)) ≤ length m)%nat.
Proof.
  induction m as [|[k' v'] m IH]; cbn; [done|]. case_bool_decide; cbn; [intros _; pose proof (map_delete_length k m); lia|].
  intros Hg. specialize (IH Hg). lia.
Qed.

Lemma count_type_cons t e l : count_type t (e :: l) = (if is_type t e then 1 else 0) + count_type t l.
Proof. unfold count_type. cbn [List.filter]. destruct (is_type t e); cbn [length]; lia. Qed.

Lemma pair_match_count l starts ds :
  Z.of_nat (length (foldl pair_match (starts, ds) l).2) ≤ Z.of_nat (length ds) + count_type match_completed l ∧
  Z.of_nat (length (foldl pair_match (starts, ds) l).2) ≤ Z.of_nat (length ds) + Z.of_nat (length starts) + count_type match_started l.
Proof.
  revert starts ds. induction l as [|e l IH]; intros starts ds; [unfold count_type; cbn [foldl List.filter length snd]; lia|]. rewrite !count_type_cons. cbn [foldl pair_match].
  destruct (e_type e) eqn:Et; unfold is_type; rewrite Et; try exact (IH starts ds);
    rewrite ?(bool_decide_true (match_started = match_started)), ?(bool_decide_true (match_completed = match_completed)),
      ?(bool_decide_false (match_started = match_completed)), ?(bool_decide_false (match_completed = match_started)) by done.
  - set (starts' := if bool_decide _ then _ else _). specialize (IH starts' ds). cbn [length].
    assert (length starts' ≤ S (length starts))%nat by (unfold starts'; destruct (bool_decide _); [lia|apply map_set_length_le]). lia.
  - destruct (map_get _ starts) as [t|] eqn:Hg; cbn [length].
    + pose proof (map_delete_length_lt _ _ _ Hg). specialize (IH (map_delete (default "" (matchId (e_data e))) starts) (ds ++ [e_timestamp e - t])).
      rewrite length_app in IH. cbn [length] in IH. lia.
    + specialize (IH starts ds). lia.
Qed.

(** The durations of matches, of events in order of time: none is negative, and
    there are no more than matches started or completed in the window. *)
Theorem match_durations_spec p now events :
  in_order events →
  let g := getGamePerformanceMetrics p now events in
  let ds := match_durations (eventsInWindow p now events) in
  Forall (Z.le 0) ds ∧ Z.of_nat (length ds) ≤ Z.min (matchesStarted g) (matchesCompleted g) ∧
  match averageMatchDurationMs g with Some a => 0 ≤ a ∧ ds ≠ [] | None => ds = [] end.
Proof.
  intros Hord. cbn zeta. unfold getGamePerformanceMetrics. cbn [matchesStarted matchesCompleted averageMatchDurationMs].
  set (l := eventsInWindow p now events). assert (in_order l) as Hl.
  { unfold l, eventsInWindow, in_order in *. destruct (cutoffFor p now); [|done]. clear -Hord. induction Hord as [|e l _ IH He]; [constructor|].
    cbn [List.filter]. destruct (bool_decide _); [|done]. constructor; [done|]. rewrite Forall_forall in *. intros x [_ Hx]%elem_of_bfilter. by apply He. }
  assert (Forall (Z.le 0) (match_durations l)) as Hnn.
  { unfold match_durations. destruct l as [|e l]; [constructor|].
    apply (pair_match_bounds (e :: l) (e_timestamp e)); [done| |done|constructor]. intros x [->|Hx]%elem_of_cons; [lia|].
    inversion Hl as [|? ? _ He]; subst. rewrite Forall_forall in He. by apply He. }
  pose proof (pair_match_count l [] []) as Hc. change (foldl pair_match ([], []) l).2 with (match_durations l) in Hc. cbn [length] in Hc.
  split_and!; [done|lia|]. destruct (match_durations l) as [|d ds] eqn:E; [done|]. split; [|done]. rewrite <- E in *.
  unfold round_div. apply Z.div_pos; [|rewrite E; cbn [length]; lia].
  assert (0 ≤ zsum (match_durations l)); [|lia]. clear -Hnn. induction Hnn as [|x k Hx _ IH]; cbn [zsum foldr]; [lia|]. fold (zsum k). lia.
Qed.

(** ** Cohorts partition the events *)

Section retention_facts.
Context (dayOfMonth : Z → Z) (cohortDays : Z).
Notation coh := (cohort_of dayOfMonth cohortDays).

Definition well_grouped (cs : list (Z * list AnalyticsEvent)) : Prop :=
  Forall (λ ce, Forall (λ e, coh (e_timestamp e) = ce.1) ce.2 ∧ ce.2 ≠ []) cs.

Lemma add_to_cohort_ids c e cs : fst <$> add_to_cohort c e cs = (fst <$> cs) ++ (if bool_decide (c ∈ fst <$> cs) then [] else [c]).
Proof.
  induction cs as [|[c' es] cs IH]; [done|]. cbn [add_to_cohort]. destruct (bool_decide_reflect (c' = c)) as [->|Hne]; rewrite !fmap_cons; cbn [fst].
  - rewrite bool_decide_true by (by left). by rewrite app_nil_r.
  - rewrite IH. cbn. f_equal. f_equal. rewrite (bool_decide_ext (c ∈ c' :: (fst <$> cs)) (c ∈ fst <$> cs)); [done|]. rewrite elem_of_cons. naive_solver.
Qed.

Lemma add_to_cohort_perm c e cs : add_to_cohort c e cs ≫= snd ≡ₚ (cs ≫= snd) ++ [e].
Proof.
  induction cs as [|[c' es] cs IH]; [done|]. cbn [add_to_cohort]. destruct (bool_decide (c' = c)); rewrite !bind_cons; cbn [snd].
  - rewrite <- !(assoc_L (++)). apply Permutation_app_head, Permutation_app_comm.
  - by rewrite IH, (assoc_L (++)).
Qed.

Lemma add_to_cohort_grouped e cs : well_grouped cs → well_grouped (add_to_cohort (coh (e_timestamp e)) e cs).
Proof.
  induction 1 as [|[c' es] cs [Hes Hne] Hcs IH]; cbn [add_to_cohort]; [constructor; [split; [by constructor|done]|constructor]|].
  destruct (bool_decide_reflect (c' = coh (e_timestamp e))) as [->|]; (constructor; [|done]); cbn in *; [|done].
  split; [apply Forall_app; by split; [|constructor]|]. by destruct es.
Qed.

Lemma cohorts_invariant events :
  let cs := cohorts dayOfMonth cohortDays events in
  well_grouped cs ∧ NoDup (fst <$> cs) ∧ cs ≫= snd ≡ₚ events.
Proof.
  cbn zeta. unfold cohorts. induction events as [|e events IH] using rev_ind; [split_and!; constructor|].
  rewrite foldl_snoc. destruct IH as (Hg & Hn & Hp). split_and!; [by apply add_to_cohort_grouped| |by rewrite add_to_cohort_perm, Hp].
  rewrite add_to_cohort_ids. destruct (bool_decide_reflect (coh (e_timestamp e) ∈ fst <$> foldl (λ cs e0, add_to_cohort (coh (e_timestamp e0)) e0 cs) [] events));
    [by rewrite app_nil_r|]. apply NoDup_app. split_and!; [done| |apply NoDup_singleton]. intros x Hx ->%list_elem_of_singleton. done.
Qed.

Lemma distinct_zero l : distinct_players l = 0 → l = [].
Proof.
  unfold distinct_players. destruct l as [|e l]; [done|]. intros H0. destruct (dedupe (e_userId <$> e :: l)) eqn:Ed; [|cbn in H0; lia].
  assert (e_userId e ∈ dedupe (e_userId <$> e :: l)) as Hin by (apply elem_of_dedupe; by left). rewrite Ed in Hin. by apply not_elem_of_nil in Hin.
Qed.

Lemma retained_none n c es :
  0 < cohortDays ≤ n → (∀ d, 0 ≤ dayOfMonth d) → Forall (λ e, coh (e_timestamp e) = c) es → retained n c es = 0.
Proof.
  intros Hc Hd Hes. unfold retained, distinct_players. replace (List.filter _ es) with (@nil AnalyticsEvent); [done|].
  induction Hes as [|e es He _ IH]; [done|]. cbn [List.filter]. rewrite bool_decide_false; [done|]. subst c. unfold cohort_of.
  pose proof (Z.rem_bound_pos (dayOfMonth (e_timestamp e / day)) cohortDays (Hd _) ltac:(lia)) as Hr.
  pose proof (Z.mod_pos_bound (e_timestamp e) day eq_refl) as Hm. pose proof (Z.div_mod (e_timestamp e) day ltac:(done)) as Hdm.
  unfold day in *. nia.
Qed.

Lemma per_zero n : (per (inject_Z 0) n * 100 == 0)%Q.
Proof. unfold per. destruct (bool_decide _); [unfold Qdiv|]; ring. Qed.

(** The report of cohorts is newest first, without repetitions, and every event
    is counted in one of them.  With cohorts of at most a week, no event is a week
    after the start of the cohort it is put in: the retention after seven and
    after thirty days is 0 whatever the players do. *)
Theorem retention_spec events :
  0 < cohortDays ≤ 7 → (∀ d, 0 ≤ dayOfMonth d) →
  let report := getCohortRetention dayOfMonth cohortDays events in
  StronglySorted (λ a b, cohortId b ≤ cohortId a) report ∧ NoDup (cohortId <$> report) ∧
  (∀ e, e ∈ events → coh (e_timestamp e) ∈ cohortId <$> report) ∧
  Forall (λ r, 0 < cohortSize r ∧ (retentionDay7 r == 0)%Q ∧ (retentionDay30 r == 0)%Q) report.
Proof.
  intros Hc Hd. cbn zeta. unfold getCohortRetention. destruct (cohorts_invariant events) as (Hg & Hn & Hp). set (cs := cohorts _ _ events) in *.
  assert (List.filter (λ ce, negb (bool_decide (distinct_players ce.2 = 0))) cs = cs) as ->.
  { clear -Hg. induction Hg as [|ce cs [_ Hne] _ IH]; [done|]. cbn [List.filter]. rewrite bool_decide_false; [cbn; by rewrite IH|]. by intros ?%distinct_zero. }
  set (rs := js_sort _ _). assert (rs ≡ₚ retention_row <$> cs) as Hrs by apply js_sort_perm.
  assert (cohortId <$> rs ≡ₚ fst <$> cs) as Hids.
  { rewrite (fmap_Permutation cohortId _ _ Hrs), <- list_fmap_compose. apply Permutation_refl', list_fmap_ext. by intros ? [??] _. }
  split_and!.
  - eapply SSorted_mono; [|apply js_sort_sorted; intros; lia]. cbn. lia.
  - by rewrite Hids.
  - intros e He. rewrite Hids. rewrite <- Hp in He. apply list_elem_of_bind in He as (ce & He & Hce).
    unfold well_grouped in Hg. rewrite Forall_forall in Hg. destruct (Hg _ Hce) as [Hes _]. rewrite Forall_forall in Hes. rewrite (Hes _ He). by apply list_elem_of_fmap_2.
  - rewrite Hrs, Forall_fmap. eapply Forall_impl; [exact Hg|]. intros [c es] [Hes Hne]. cbn in *. rewrite !(retained_none) by (done || lia).
    split_and!; [|apply per_zero|apply per_zero].
    assert (distinct_players es ≠ 0) by (by intros ?%distinct_zero). unfold distinct_players in *. lia.
Qed.
End retention_facts.

(** ** What the noise does *)

Lemma round_bounds (x : Q) : (x - (1 # 2) <= inject_Z (round x) /\ inject_Z (round x) <= x + (1 # 2))%Q.
Proof.
  unfold round. pose proof (Qfloor_le (x + (1 # 2))) as H1. pose proof (Qlt_floor (x + (1 # 2))) as H2.
  rewrite inject_Z_plus in H2. change (inject_Z 1) with 1%Q in H2. split; lra.
Qed.

Lemma noise_bounds random epsilon value :
  (0 <= random)%Q → (random <= 1)%Q → (0 < epsilon)%Q → (0 <= value)%Q →
  (0 <= 1 / epsilon * value)%Q ∧ (- (1 / epsilon * value * (1 # 10)) <= noise_of random epsilon value)%Q ∧
  (noise_of random epsilon value <= 1 / epsilon * value * (1 # 10))%Q.
Proof.
  intros Hr Hr' He Hv.
  assert (0 <= 1 / epsilon * value)%Q as Hx.
  { apply Qmult_le_0_compat; [|done]. unfold Qdiv. rewrite Qmult_1_l. apply Qlt_le_weak, Qinv_lt_0_compat, He. }
  unfold noise_of. set (x := (1 / epsilon)%Q) in *. split; [done|]. split; nra.
Qed.

(** The reported figure is within a tenth of value over epsilon of the true one,
    up to rounding; the true one is in the reported interval when it is at least
    ten times epsilon; and what is zero is reported as zero, with no noise. *)
Theorem privacy_spec epsilon events name random :
  (0 < epsilon)%Q → (0 <= random)%Q → (random <= 1)%Q → (0 <= metric_value name events)%Q →
  let v := metric_value name events in
  let m := private_metric epsilon events (name, random) in
  (v - 1 / epsilon * v * (1 # 10) - (1 # 2) <= inject_Z (pp_value m))%Q ∧
  (inject_Z (pp_value m) <= v + 1 / epsilon * v * (1 # 10) + (1 # 2))%Q ∧
  ((10 <= 1 / epsilon * v)%Q →
   (inject_Z (confidenceInterval m).1 <= v)%Q ∧ (v <= inject_Z (confidenceInterval m).2)%Q) ∧
  ((v == 0)%Q → pp_value m = 0 ∧ noiseAdded m = 0 ∧ confidenceInterval m = (0, 0)).
Proof.
  intros He Hr Hr' Hv. cbn zeta. unfold private_metric. cbn [pp_value noiseAdded confidenceInterval fst snd].
  set (v := metric_value name events) in *. destruct (noise_bounds random epsilon v Hr Hr' He Hv) as (Hx & Hn1 & Hn2).
  set (noise := noise_of random epsilon v) in *. set (x := (1 / epsilon * v)%Q) in *.
  destruct (round_bounds (v + noise)) as [B1 B2]. destruct (round_bounds (x * (1 # 5))) as [M1 M2].
  split_and!; [lra|lra| |].
  - intros Hbig. rewrite inject_Z_plus. split; [|lra].
    destruct (Z.max_spec 0 (round (v + noise) - round (x * (1 # 5)))) as [[_ ->]|[_ ->]]; [|exact Hv].
    unfold Z.sub. rewrite inject_Z_plus, inject_Z_opp. lra.
  - intros H0. assert (x == 0)%Q as Hx0 by (unfold x; rewrite H0; ring). assert (noise == 0)%Q as Hz by lra.
    assert (∀ q, (q == 0)%Q → round q = 0) as Hround by (intros q Hq; unfold round; rewrite Hq; done).
    rewrite (Hround (v + noise)%Q), (Hround noise), (Hround (x * (1 # 5))%Q) by lra. done.
Qed.

(** ** Witnesses *)

Module Demo.
Definition none : EventData := mkData None None None None.
Definition match_ (m : string) : EventData := mkData (Some m) (Some 10%Q) None None.
Definition events : list AnalyticsEvent :=
  [ mkEvent "1" "ann" session_started none 1000; mkEvent "2" "ann" match_started (match_ "m1") 2000;
    mkEvent "3" "bob" match_started (match_ "m2") 3000; mkEvent "4" "ann" match_completed (match_ "m1") 62000;
    mkEvent "5" "ann" session_ended (mkData None None None (Some 70%Q)) 71000; mkEvent "6" "bob" match_completed (match_ "m2") (8 * day) ].
Definition call (e : AnalyticsEvent) : Call := mkCall (e_id e) (e_userId e) (e_type e) (e_data e) (e_timestamp e).
End Demo.

Lemma buffer_is_recent_witness : e_id <$> track_all 2 (Demo.call <$> Demo.events) [] = ["5"; "6"].
Proof. rewrite (buffer_is_recent 2 (Demo.call <$> Demo.events)) by lia. reflexivity. Defined.

Lemma match_durations_spec_witness :
  let g := getGamePerformanceMetrics P1h 71000 Demo.events in
  averageMatchDurationMs g = Some 345628500 ∧ Forall (Z.le 0) (match_durations (eventsInWindow P1h 71000 Demo.events)).
Proof.
  split; [vm_compute; reflexivity|]. apply (match_durations_spec P1h 71000 Demo.events).
  unfold Demo.events, in_order. repeat constructor; vm_compute; discriminate.
Defined.

Lemma retention_spec_witness :
  let report := getCohortRetention (λ d, Z.modulo d 31 + 1) 7 Demo.events in
  cohortSize <$> report = [1; 2] ∧ Forall (λ r, 0 < cohortSize r ∧ (retentionDay7 r == 0)%Q ∧ (retentionDay30 r == 0)%Q) report.
Proof.
  split; [vm_compute; reflexivity|]. apply (retention_spec (λ d, Z.modulo d 31 + 1) 7 Demo.events); [lia|].
  intros d. cbn beta. pose proof (Z.mod_pos_bound d 31 eq_refl). lia.
Defined.

Lemma privacy_spec_witness :
  let m := private_metric (1 # 10) Demo.events (total_matches, (3 # 4)%Q) in
  pp_value m = 3 ∧ (inject_Z (confidenceInterval m).1 <= 2)%Q.
Proof.
  split; [vm_compute; reflexivity|].
  refine (proj1 (proj1 (proj2 (proj2 (privacy_spec (1 # 10) Demo.events total_matches (3 # 4) _ _ _ _))) _)); vm_compute; first [reflexivity|discriminate].
Defined.

(** Three of the types of report have no branch: their reports have no rows. *)
Example reports_without_branch :
  (λ r, rows (generateReport r (Some Pall) 0 0 Demo.events)) <$> [revenue_analysis; cohort_retention; privacy_preserving] = [[]; []; []].
Proof. reflexivity. Qed.

(** The win rate compares the matches completed with the sessions started. *)
Example win_rate_over_sessions : (winRate (getAggregatedMetrics Pall (8 * day) Demo.events) == 200)%Q.
Proof. vm_compute. reflexivity. Qed.

(** In a window that begins after the matches did, more are completed than started. *)
Example completion_rate_above_one :
  let g := getGamePerformanceMetrics P1h (hour + 2500) Demo.events in matchesStarted g = 1 ∧ matchesCompleted g = 2 ∧ (completionRate g == 2)%Q.
Proof. vm_compute. split_and!; reflexivity. Qed.
