(* ===== verification/JobQueue.v ===== *)
(** * Background jobs: [server/src/services/queue.service.ts],
    [server/src/services/rabbitmq-queue.service.ts] and
    [server/src/services/queue-monitoring.service.ts]

    Two adapters of one interface of queues.  The first keeps jobs as texts in
    lists of Redis; the lists are a parameter, and a command may fail, without an
    effect, at any call.  The second drives a channel of RabbitMQ; what it asks of
    the channel is recorded, and each request may fail.  A handler is given by its
    outcome at each run; a tick of a worker runs alone.  Counts and instants are
    integers that floating point numbers represent exactly. *)

From Stdlib Require Import Ascii String QArith Qround Lqa.
From stdpp Require Import prelude gmap strings list pretty sorting relations.
From S2P Require Import Prelude JsText Json JsonParse.

#[local] Open Scope Z_scope.

(** ** Jobs *)

Inductive JobName := email_send | report_generate | analytics_rollup | notification_batch | blockchain_monitor | data_cleanup.

#[export] Instance JobName_eq_dec : EqDecision JobName.
Proof. solve_decision. Defined.

Definition job_names : list JobName := [email_send; report_generate; analytics_rollup; notification_batch; blockchain_monitor; data_cleanup].

Definition name_text (n : JobName) : string :=
  match n with
  | email_send => "email.send" | report_generate => "report.generate" | analytics_rollup => "analytics.rollup"
  | notification_batch => "notification.batch" | blockchain_monitor => "blockchain.monitor" | data_cleanup => "data.cleanup"
  end.

Inductive JobPriority := critical | high | normal | low.

#[export] Instance JobPriority_eq_dec : EqDecision JobPriority.
Proof. solve_decision. Defined.

Definition priority_text (p : JobPriority) : string :=
  match p with critical => "critical" | high => "high" | normal => "normal" | low => "low" end.

Record JobOptions := mkJobOptions {
  o_attempts : option Z; o_backoffMs : option Z; o_priority : option JobPriority; o_delayMs : option Z; o_concurrency : option Z }.

Record PayloadOptions := mkPayloadOptions {
  attempts : Z; backoffMs : Z; priority : JobPriority; concurrency : option Z; delayMs : option Z }.

Record JobPayload := mkJob { j_id : string; j_name : JobName; j_data : json; enqueuedAt : Z; attempt : Z; j_options : PayloadOptions }.

Definition DEFAULT_ATTEMPTS : Z := 5.
Definition DEFAULT_BACKOFF_MS : Z := 1000.

Definition NORMALISED_PRIORITIES (p : JobPriority) : Z := match p with critical => 0 | high => 1 | normal => 2 | low => 3 end.

Definition normaliseOptions (o : JobOptions) : PayloadOptions :=
  mkPayloadOptions (default DEFAULT_ATTEMPTS (o_attempts o)) (default DEFAULT_BACKOFF_MS (o_backoffMs o)) (default normal (o_priority o))
    (o_concurrency o) (o_delayMs o).

(** [baseMs * 2^(attempt - 1)] and a jitter of an eighth at most, for what
    [Math.random()] gives *)
Definition backoffForAttempt (random : Q) (attempt baseMs : Z) : Z :=
  let exp := inject_Z (baseMs * 2 ^ Z.max 0 (attempt - 1)) in
  let jitter := (exp * (1 # 4) * (random - (1 # 2)))%Q in
  Z.max 0 (Qfloor (exp + jitter)).

(** The job that is tried again. *)
Definition retried (random : Q) (p : JobPayload) : JobPayload :=
  let o := j_options p in
  let nextAttempt := attempt p + 1 in
  mkJob (j_id p) (j_name p) (j_data p) (enqueuedAt p) nextAttempt
    (mkPayloadOptions (attempts o) (backoffMs o) (priority o) (concurrency o) (Some (backoffForAttempt random nextAttempt (backoffMs o)))).

(** ** Jobs as texts *)

Definition num (z : Z) : json := JNum (pretty z).
Definition opt_num (k : string) (o : option Z) : list (string * json) := match o with Some z => [(k, num z)] | None => [] end.

Definition options_json (o : PayloadOptions) : json :=
  JObj ([("attempts", num (attempts o)); ("backoffMs", num (backoffMs o)); ("priority", JStr (priority_text (priority o)))]
        ++ opt_num "concurrency" (concurrency o) ++ opt_num "delayMs" (delayMs o)).

Definition job_json (p : JobPayload) : json :=
  JObj [("id", JStr (j_id p)); ("name", JStr (name_text (j_name p))); ("data", j_data p); ("enqueuedAt", num (enqueuedAt p));
        ("attempt", num (attempt p)); ("options", options_json (j_options p))].

(** [JSON.stringify(payload)] *)
Definition job_text (p : JobPayload) : string := json_text (job_json p).

Definition SyntaxError : exn := JsError "Unexpected token in JSON".

Section reading.
Context `{JsNumber}.

Definition text_field (v : json) : option string := match v with JStr s => Some s | _ => None end.
Definition int_field (v : json) : option Z := match v with JNum t => number_int t | _ => None end.

Definition name_of (s : string) : option JobName := List.find (λ n, bool_decide (name_text n = s)) job_names.
Definition priority_of (s : string) : option JobPriority := List.find (λ p, bool_decide (priority_text p = s)) [critical; high; normal; low].

Definition options_of (v : json) : option PayloadOptions :=
  a ← int_field (json_prop "attempts" v);
  b ← int_field (json_prop "backoffMs" v);
  p ← text_field (json_prop "priority" v) ≫= priority_of;
  Some (mkPayloadOptions a b p (int_field (json_prop "concurrency" v)) (int_field (json_prop "delayMs" v))).

(** [JSON.parse(raw) as JobPayload]: the queues hold texts of jobs only. *)
Definition job_of (raw : string) : option JobPayload :=
  v ← JSON_parse raw;
  i ← text_field (json_prop "id" v);
  n ← text_field (json_prop "name" v) ≫= name_of;
  e ← int_field (json_prop "enqueuedAt" v);
  a ← int_field (json_prop "attempt" v);
  o ← options_of (json_prop "options" v);
  Some (mkJob i n (json_prop "data" v) e a o).

Definition parse_job {S} (raw : string) : M S JobPayload :=
  match job_of raw with Some p => mret p | None => throw SyntaxError end.

(** What can be written without loss. *)
Definition job_ok (p : JobPayload) : Prop :=
  plain (j_data p) ∧ safe_int (enqueuedAt p) ∧ safe_int (attempt p) ∧ safe_int (attempts (j_options p)) ∧ safe_int (backoffMs (j_options p)) ∧
  (∀ z, concurrency (j_options p) = Some z → safe_int z) ∧ (∀ z, delayMs (j_options p) = Some z → safe_int z).

Lemma job_plain p : job_ok p → plain (job_json p).
Proof.
  intros (Hd & He & Ha & Has & Hb & Hc & Hdl). destruct p as [i n d e a [as_ b pr c dl]]. unfold job_json, options_json, num. cbn in Hd, He, Ha, Has, Hb, Hc, Hdl.
  assert (∀ z, safe_int z → plain (JNum (pretty z))) as Hn by (intros z Hz; by apply number_ok_int).
  destruct c as [c|], dl as [dl|]; cbn [plain forallb fst snd fmap list_fmap opt_num app j_id j_name j_data j_options concurrency delayMs attempts backoffMs priority attempt enqueuedAt] in *;
    rewrite !andb_True; split_and!; try done; try (by apply Hn); try (by apply bool_decide_pack, NoDup_bool_decide_pack); try (apply Hn; first [by apply Hc|by apply Hdl]).
Qed.

Lemma int_num z : safe_int z → int_field (num z) = Some z.
Proof. apply number_int_pretty. Qed.

Lemma int_opt o : (∀ z, o = Some z → safe_int z) → int_field (match o with Some z => num z | None => JUndefined end) = o.
Proof. destruct o as [z|]; [intros Hz; by apply int_num, Hz|done]. Qed.

Lemma options_of_json o : safe_int (attempts o) → safe_int (backoffMs o) → (∀ z, concurrency o = Some z → safe_int z) → (∀ z, delayMs o = Some z → safe_int z) →
  options_of (options_json o) = Some o.
Proof.
  intros Ha Hb Hc Hd.
  assert (json_prop "attempts" (options_json o) = num (attempts o) ∧ json_prop "backoffMs" (options_json o) = num (backoffMs o) ∧
    json_prop "priority" (options_json o) = JStr (priority_text (priority o)) ∧
    json_prop "concurrency" (options_json o) = match concurrency o with Some z => num z | None => JUndefined end ∧
    json_prop "delayMs" (options_json o) = match delayMs o with Some z => num z | None => JUndefined end) as (E1 & E2 & E3 & E4 & E5).
  { unfold options_json. destruct (concurrency o), (delayMs o); by split_and!. }
  unfold options_of. rewrite E1, E2, E3, E4, E5, !int_num, !int_opt by done. cbn [text_field mbind option_bind].
  assert (priority_of (priority_text (priority o)) = Some (priority o)) as -> by (by destruct (priority o)). by destruct o.
Qed.

(** What is enqueued is read back. *)
Lemma job_of_text p : job_ok p → job_of (job_text p) = Some p.
Proof.
  intros Hok. unfold job_of, job_text. rewrite (JSON_parse_text _ (job_plain p Hok)). destruct Hok as (Hd & He & Ha & Has & Hb & Hc & Hdl).
  assert (json_prop "id" (job_json p) = JStr (j_id p) ∧ json_prop "name" (job_json p) = JStr (name_text (j_name p)) ∧ json_prop "data" (job_json p) = j_data p ∧
    json_prop "enqueuedAt" (job_json p) = num (enqueuedAt p) ∧ json_prop "attempt" (job_json p) = num (attempt p) ∧
    json_prop "options" (job_json p) = options_json (j_options p)) as (E1 & E2 & E3 & E4 & E5 & E6) by (by split_and!).
  cbn [mbind option_bind]. rewrite E1, E2, E3, E4, E5, E6, !int_num, options_of_json by done. cbn [text_field mbind option_bind].
  assert (name_of (name_text (j_name p)) = Some (j_name p)) as -> by (by destruct (j_name p)). by destruct p.
Qed.
End reading.

(** ** Lists of Redis *)

Fixpoint remove_first (v : string) (l : list string) : list string :=
  match l with [] => [] | x :: l' => if bool_decide (x = v) then l' else x :: remove_first v l' end.

Class RedisLists (R : Type) := {
  (** does the [n]-th command fail? *)
  redis_fails : nat → bool;
  list_at : R → string → list string;
  put_list : string → list string → R → R;
  set_value : string → string → R → R;
  list_at_put : ∀ k l r k', list_at (put_list k l r) k' = if bool_decide (k' = k) then l else list_at r k';
  list_at_value : ∀ k v r k', k' ≠ k → list_at (set_value k v r) k' = list_at r k';
}.

(** What a handler does at a run: the number of runs before it, data, attempt, instant. *)
Definition JobHandler : Type := nat → json → Z → Z → result unit.

Record Queue (R : Type) := mkQueue {
  redis : R; commands : nat; connected : bool; handlers : jsmap JobHandler; cronKeys : list string; running : bool;
  (** the runs of handlers so far *)
  runs : list (JobPayload * result unit) }.
Arguments mkQueue {R}. Arguments redis {R}. Arguments commands {R}. Arguments connected {R}. Arguments handlers {R}. Arguments cronKeys {R}.
Arguments running {R}. Arguments runs {R}.

Definition ConnectionClosed : exn := JsError "Connection is closed.".

Definition new_queue {R} (r : R) : Queue R := mkQueue r 0 true [] [] true [].

Section adapter.
Context `{JsNumber} `{RedisLists R}.
Implicit Types (q : Queue R).

Definition with_redis r q : Queue R := mkQueue r (S (commands q)) (connected q) (handlers q) (cronKeys q) (running q) (runs q).

Definition command {A} (f : R → R * A) : M (Queue R) A := λ q,
  if negb (connected q) || redis_fails (commands q) then (with_redis (redis q) q, Throw ConnectionClosed)
  else let '(r, a) := f (redis q) in (with_redis r q, Ok a).

Definition rpush (k v : string) : M (Queue R) unit := command (λ r, (put_list k (list_at r k ++ [v]) r, tt)).

Definition lpop (k : string) : M (Queue R) (option string) := command (λ r,
  match list_at r k with [] => (r, None) | v :: l => (put_list k l r, Some v) end).

Definition lrange (k : string) : M (Queue R) (list string) := command (λ r, (r, list_at r k)).

Definition lrem (k v : string) : M (Queue R) unit := command (λ r, (put_list k (remove_first v (list_at r k)) r, tt)).

Definition redis_set (k v : string) : M (Queue R) unit := command (λ r, (set_value k v r, tt)).

Definition listKey (p : JobPriority) : string := "arenax:jobs:queue:" +:+ priority_text p.
Definition deadLetterKey : string := "arenax:jobs:dead-letter".

Definition enqueue (p : JobPayload) : M (Queue R) unit := rpush (listKey (priority (j_options p))) (job_text p).

Definition register (n : JobName) (h : JobHandler) : M (Queue R) unit :=
  modify (λ q, mkQueue (redis q) (commands q) (connected q) (map_set (name_text n) h (handlers q)) (cronKeys q) (running q) (runs q)).

Definition scheduleCron (now : Z) (expression : string) (n : JobName) (data : json) : M (Queue R) unit :=
  let key := "arenax:jobs:cron:" +:+ expression +:+ ":" +:+ name_text n in
  q ← get;
  if bool_decide (key ∈ cronKeys q) then mret tt
  else
    _ ← put (mkQueue (redis q) (commands q) (connected q) (handlers q) (cronKeys q ++ [key]) (running q) (runs q));
    redis_set key (json_text (JObj [("expression", JStr expression); ("name", JStr (name_text n)); ("data", data); ("registeredAt", num now)])).

Definition listDeadLetters : M (Queue R) (list JobPayload) :=
  raw ← lrange deadLetterKey;
  for_map parse_job raw.

(** The loop over the dead letters: it ends at the first with the id. *)
Fixpoint discard_loop (i : string) (raw : list string) : M (Queue R) unit :=
  match raw with
  | [] => mret tt
  | row :: raw' =>
      parsed ← parse_job row;
      if bool_decide (j_id parsed = i) then lrem deadLetterKey row else discard_loop i raw'
  end.

Definition discardDeadLetter (i : string) : M (Queue R) unit :=
  raw ← lrange deadLetterKey;
  discard_loop i raw.

(** [running = false], and the connection is closed *)
Definition stop : M (Queue R) unit :=
  modify (λ q, mkQueue (redis q) (commands q) false (handlers q) (cronKeys q) false (runs q)).

Definition lanes : list JobPriority := js_sort (λ a b, NORMALISED_PRIORITIES a - NORMALISED_PRIORITIES b) [critical; high; normal; low].

Definition not_yet (now : Z) (p : JobPayload) : bool :=
  match delayMs (j_options p) with Some d => negb (bool_decide (d = 0)) && bool_decide (now < enqueuedAt p + d) | None => false end.

Definition run_handler (h : JobHandler) (p : JobPayload) : M (Queue R) (result unit) := λ q,
  let res := h (length (runs q)) (j_data p) (attempt p) (enqueuedAt p) in
  (mkQueue (redis q) (commands q) (connected q) (handlers q) (cronKeys q) (running q) (runs q ++ [(p, res)]), Ok res).

(** A job taken from a lane: parked without a handler, run, and put back or
    into the dead letters when the handler throws. *)
Definition run_job (random : Q) (lane : JobPriority) (raw : string) (p : JobPayload) : M (Queue R) bool :=
  hs ← gets handlers;
  match map_get (name_text (j_name p)) hs with
  | None => _ ← rpush deadLetterKey raw; mret true
  | Some h =>
      res ← run_handler h p;
      match res with
      | Ok _ => mret true
      | Throw e =>
          _ ← (if bool_decide (attempts (j_options p) < attempt p + 1) then rpush deadLetterKey raw
               else rpush (listKey lane) (job_text (retried random p)));
          throw e
      end
  end.

Fixpoint consume_lanes (now : Z) (random : Q) (ls : list JobPriority) : M (Queue R) bool :=
  match ls with
  | [] => mret false
  | lane :: rest =>
      popped ← lpop (listKey lane);
      match popped with
      | None => consume_lanes now random rest
      | Some raw =>
          p ← parse_job raw;
          if not_yet now p then _ ← rpush (listKey lane) raw; consume_lanes now random rest
          else run_job random lane raw p
      end
  end.

Definition _consumeOnce (now : Z) (random : Q) : M (Queue R) bool :=
  up ← gets running;
  if negb up then mret false else consume_lanes now random lanes.

Definition new_payload (now : Z) (n : JobName) (i : string) (data : json) (o : JobOptions) : JobPayload :=
  mkJob i n data now 1 (normaliseOptions o).

(** [enqueueJob], over the adapter in use *)
Definition enqueueJob (now : Z) (n : JobName) (i : string) (data : json) (o : JobOptions) : M (Queue R) unit :=
  enqueue (new_payload now n i data o).
End adapter.

(** ** What a queue of jobs promises

    An abstract queue: jobs in lanes and dead letters, the jobs that were run,
    and what was enqueued, discarded and lost.  Each move concerns one job.  A job is
    lost when it was taken from its lane and Redis refuses the command that should put
    it somewhere else. *)

Record Jobs := mkJobs {
  lane : JobPriority → list JobPayload; dead : list JobPayload; ran : list (JobPayload * bool); entered : list string; discarded : list string;
  lost : list string }.

Definition no_jobs : Jobs := mkJobs (λ _, []) [] [] [] [] [].

Definition upd (p : JobPriority) (l : list JobPayload) (f : JobPriority → list JobPayload) : JobPriority → list JobPayload :=
  λ p', if bool_decide (p' = p) then l else f p'.

Inductive move : Jobs → Jobs → Prop :=
| Move_enqueue a j : attempt j = 1 →
    move a (mkJobs (upd (priority (j_options j)) (lane a (priority (j_options j)) ++ [j]) (lane a)) (dead a) (ran a) (entered a ++ [j_id j]) (discarded a) (lost a))
| Move_rotate a p j l : lane a p = j :: l →
    move a (mkJobs (upd p (l ++ [j]) (lane a)) (dead a) (ran a) (entered a) (discarded a) (lost a))
| Move_park a p j l : lane a p = j :: l →
    move a (mkJobs (upd p l (lane a)) (dead a ++ [j]) (ran a) (entered a) (discarded a) (lost a))
| Move_complete a p j l : lane a p = j :: l →
    move a (mkJobs (upd p l (lane a)) (dead a) (ran a ++ [(j, true)]) (entered a) (discarded a) (lost a))
| Move_retry a p j l random : lane a p = j :: l → attempt j < attempts (j_options j) →
    move a (mkJobs (upd p (l ++ [retried random j]) (lane a)) (dead a) (ran a ++ [(j, false)]) (entered a) (discarded a) (lost a))
| Move_give_up a p j l : lane a p = j :: l → attempts (j_options j) ≤ attempt j →
    move a (mkJobs (upd p l (lane a)) (dead a ++ [j]) (ran a ++ [(j, false)]) (entered a) (discarded a) (lost a))
| Move_discard a j l1 l2 : dead a = l1 ++ j :: l2 →
    move a (mkJobs (lane a) (l1 ++ l2) (ran a) (entered a) (discarded a ++ [j_id j]) (lost a))
| Move_lose a p j l : lane a p = j :: l →
    move a (mkJobs (upd p l (lane a)) (dead a) (ran a) (entered a) (discarded a) (lost a ++ [j_id j]))
| Move_lose_run a p j l : lane a p = j :: l →
    move a (mkJobs (upd p l (lane a)) (dead a) (ran a ++ [(j, false)]) (entered a) (discarded a) (lost a ++ [j_id j])).

Definition all_lanes (f : JobPriority → list JobPayload) : list JobPayload := f critical ++ f high ++ f normal ++ f low.

Definition ids (l : list JobPayload) : list string := j_id <$> l.
Definition completed (a : Jobs) : list string := ids (fst <$> List.filter snd (ran a)).
Definition tries (a : Jobs) (x : string) : Z := Z.of_nat (length (List.filter (λ r, bool_decide (j_id r.1 = x)) (ran a))).

(** Every job that was enqueued is in one place. *)
Definition conserved (a : Jobs) : Prop := entered a ≡ₚ ids (all_lanes (lane a)) ++ ids (dead a) ++ completed a ++ discarded a ++ lost a.

Lemma all_lanes_split p f : ∃ rest, all_lanes f ≡ₚ f p ++ rest ∧ ∀ l, all_lanes (upd p l f) ≡ₚ l ++ rest.
Proof.
  assert (∀ c h n l : list JobPayload, c ++ h ++ n ++ l ≡ₚ n ++ c ++ h ++ l) as Hn.
  { intros c h n l. rewrite (assoc_L (++) c h), Permutation_app_swap_app. by rewrite <- (assoc_L (++)). }
  assert (∀ c h n l : list JobPayload, c ++ h ++ n ++ l ≡ₚ l ++ c ++ h ++ n) as Hl.
  { intros c h n l. rewrite (Permutation_app_comm l). by rewrite <- !(assoc_L (++)). }
  unfold all_lanes, upd. destruct p; cbn.
  - by exists (f high ++ f normal ++ f low).
  - exists (f critical ++ f normal ++ f low). split; [|intros l]; apply Permutation_app_swap_app.
  - exists (f critical ++ f high ++ f low). split; [|intros l]; apply Hn.
  - exists (f critical ++ f high ++ f normal). split; [|intros l]; apply Hl.
Qed.

Lemma perm_counts (l k : list string) : l ≡ₚ k ↔ ∀ x, count_occ String.string_dec l x = count_occ String.string_dec k x.
Proof. apply Permutation_count_occ. Qed.

Ltac counts := rewrite !perm_counts in *; let x := fresh "x" in intros x; repeat match goal with Hc : ∀ _, count_occ _ _ _ = _ |- _ => specialize (Hc x) end;
  unfold completed, ids in *; rewrite ?fmap_app, ?List.filter_app in *; cbn [List.filter snd fst] in *; rewrite ?fmap_app, ?fmap_cons, ?fmap_nil in *;
  rewrite ?count_occ_app in *; cbn [count_occ fmap list_fmap retried j_id ran dead entered discarded lost fst] in *; rewrite ?count_occ_app in *; repeat case_match; cbn in *; lia.

Lemma move_conserved a b : move a b → conserved a → conserved b.
Proof.
  unfold conserved. intros Hm Ha. destruct Hm as [a j Hj|a p j l Hl|a p j l Hl|a p j l Hl|a p j l random Hl Hat|a p j l Hl Hat|a j l1 l2 Hd|a p j l Hl|a p j l Hl];
    cbn [lane dead ran entered discarded lost].
  - destruct (all_lanes_split (priority (j_options j)) (lane a)) as (rest & E1 & E2). unfold ids in *. rewrite E1 in Ha. rewrite E2. counts.
  - destruct (all_lanes_split p (lane a)) as (rest & E1 & E2). unfold ids in *. rewrite E1, Hl in Ha. rewrite E2. counts.
  - destruct (all_lanes_split p (lane a)) as (rest & E1 & E2). unfold ids in *. rewrite E1, Hl in Ha. rewrite E2. counts.
  - destruct (all_lanes_split p (lane a)) as (rest & E1 & E2). unfold ids in *. rewrite E1, Hl in Ha. rewrite E2. unfold completed. cbn [ran]. counts.
  - destruct (all_lanes_split p (lane a)) as (rest & E1 & E2). unfold ids in *. rewrite E1, Hl in Ha. rewrite E2. unfold completed. cbn [ran]. counts.
  - destruct (all_lanes_split p (lane a)) as (rest & E1 & E2). unfold ids in *. rewrite E1, Hl in Ha. rewrite E2. unfold completed. cbn [ran]. counts.
  - rewrite Hd in Ha. counts.
  - destruct (all_lanes_split p (lane a)) as (rest & E1 & E2). unfold ids in *. rewrite E1, Hl in Ha. rewrite E2. counts.
  - destruct (all_lanes_split p (lane a)) as (rest & E1 & E2). unfold ids in *. rewrite E1, Hl in Ha. rewrite E2. unfold completed. cbn [ran]. counts.
Qed.

(** How often a job has been tried, as long as no id is used twice. *)
Definition budget (j : JobPayload) : Z := Z.max 1 (attempts (j_options j)).

Record tracked (a : Jobs) : Prop := {
  lane_tries : ∀ j, j ∈ all_lanes (lane a) → 1 ≤ attempt j ≤ budget j ∧ tries a (j_id j) = attempt j - 1;
  run_tries : ∀ r, r ∈ ran a → tries a (j_id r.1) ≤ budget r.1;
  same_budget : ∀ j r, j ∈ all_lanes (lane a) → r ∈ ran a → j_id j = j_id r.1 → budget j = budget r.1;
  run_entered : ∀ r, r ∈ ran a → j_id r.1 ∈ entered a;
}.

Lemma tries_absent a x : (∀ r, r ∈ ran a → j_id r.1 ≠ x) → tries a x = 0.
Proof.
  unfold tries. intros Hr. replace (List.filter _ (ran a)) with (@nil (JobPayload * bool)); [done|].
  induction (ran a) as [|r l IH]; [done|]. cbn [List.filter]. rewrite bool_decide_false by (apply Hr; by left). apply IH. intros r' Hr'. apply Hr. by right.
Qed.

Lemma tries_snoc a b j ok x : ran b = ran a ++ [(j, ok)] → tries b x = tries a x + (if bool_decide (j_id j = x) then 1 else 0).
Proof. unfold tries. intros ->. rewrite List.filter_app, length_app. cbn [List.filter fst]. destruct (bool_decide _); cbn [length]; lia. Qed.

Lemma lanes_nodup a : conserved a → NoDup (entered a) → NoDup (ids (all_lanes (lane a))).
Proof. intros Hc Hn. unfold conserved in Hc. rewrite Hc in Hn. by apply NoDup_app in Hn as [Hn _]. Qed.

Lemma lanes_entered a j : conserved a → j ∈ all_lanes (lane a) → j_id j ∈ entered a.
Proof. intros Hc Hj. unfold conserved in Hc. rewrite Hc. apply elem_of_app. left. by apply list_elem_of_fmap_2. Qed.

Lemma run_tracked a b p j l ok : lane a p = j :: l → conserved a → NoDup (entered a) → tracked a → ran b = ran a ++ [(j, ok)] → entered b = entered a →
  (∀ k, k ∈ all_lanes (lane b) → (k ∈ all_lanes (lane a) ∧ j_id k ≠ j_id j) ∨ ∃ random, k = retried random j ∧ attempt j < attempts (j_options j)) →
  tracked b.
Proof.
  intros Hl Hc Hn [T1 T2 T3 T4] Hr He Hk.
  assert (j ∈ all_lanes (lane a)) as Hj by (destruct (all_lanes_split p (lane a)) as (rest & E & _); rewrite E, Hl; by left).
  destruct (T1 j Hj) as [Hat Htr].
  assert (∀ x, tries b x = tries a x + (if bool_decide (j_id j = x) then 1 else 0)) as Ht by (intros x; by apply (tries_snoc a b j ok)).
  split.
  - intros k Hk'. destruct (Hk k Hk') as [[Hka Hne]|(random & -> & Hlt)].
    + rewrite Ht, bool_decide_false by congruence. destruct (T1 k Hka). split; [done|lia].
    + change (j_id (retried random j)) with (j_id j). change (attempt (retried random j)) with (attempt j + 1). change (budget (retried random j)) with (budget j).
      rewrite Ht, bool_decide_true by done. unfold budget in *. lia.
  - intros r. rewrite Hr, elem_of_app, list_elem_of_singleton, Ht. intros [Hin| ->]; cbn [fst].
    + destruct (bool_decide_reflect (j_id j = j_id r.1)) as [E|]; [|specialize (T2 r Hin); lia].
      rewrite <- (T3 j r Hj Hin E), <- E. lia.
    + rewrite bool_decide_true by done. lia.
  - intros k r Hk'. rewrite Hr, elem_of_app, list_elem_of_singleton. intros [Hin| ->] E; cbn [fst] in *; destruct (Hk k Hk') as [[Hka Hne]|(random & -> & Hlt)].
    + by apply T3.
    + transitivity (budget j); [done|by apply T3].
    + done.
    + done.
  - intros r. rewrite Hr, He, elem_of_app, list_elem_of_singleton. intros [Hin| ->]; [by apply T4|]. by apply lanes_entered.
Qed.

Lemma move_tracked a b : move a b → conserved a → NoDup (entered b) → (NoDup (entered a) → tracked a) → tracked b.
Proof.
  intros Hm Hc Hn Ha.
  assert (∀ p j l, lane a p = j :: l → NoDup (entered a) →
    ∀ l' k, (∀ x, x ∈ l' → x ∈ l) → k ∈ all_lanes (upd p l' (lane a)) → k ∈ all_lanes (lane a) ∧ j_id k ≠ j_id j) as Hother.
  { intros p j l Hl Hna l' k Hsub Hk. destruct (all_lanes_split p (lane a)) as (rest & E1 & E2). rewrite E2 in Hk.
    pose proof (lanes_nodup a Hc Hna) as Hd. unfold ids in Hd. rewrite E1, Hl in Hd. cbn in Hd. apply NoDup_cons in Hd as [Hd _].
    assert (k ∈ l ++ rest) as Hk' by (apply elem_of_app in Hk as [Hk|Hk]; apply elem_of_app; [left; by apply Hsub|by right]).
    split; [rewrite E1, Hl; by right|]. intros E. apply Hd. rewrite <- E. by apply list_elem_of_fmap_2. }
  destruct Hm as [a j Hj|a p j l Hl|a p j l Hl|a p j l Hl|a p j l random Hl Hat|a p j l Hl Hat|a j l1 l2 Hd|a p j l Hl|a p j l Hl];
    cbn [lane dead ran entered discarded lost] in *.
  - apply NoDup_app in Hn as (Hn & Hnew & _). destruct (Ha Hn) as [T1 T2 T3 T4].
    assert (∀ r, r ∈ ran a → j_id r.1 ≠ j_id j) as Hfresh by (intros r Hr E; apply (Hnew (j_id r.1)); [by apply T4|rewrite E; by left]).
    destruct (all_lanes_split (priority (j_options j)) (lane a)) as (rest & E1 & E2).
    assert (∀ k, k ∈ all_lanes (upd (priority (j_options j)) (lane a (priority (j_options j)) ++ [j]) (lane a)) → k ∈ all_lanes (lane a) ∨ k = j) as Hk.
    { intros k. rewrite E1, E2, !elem_of_app, list_elem_of_singleton. tauto. }
    split; cbn [lane ran entered].
    + intros k [Hka| ->]%Hk; [by apply T1|]. unfold tries. cbn [ran]. change (Z.of_nat _) with (tries a (j_id j)). rewrite (tries_absent a (j_id j) Hfresh). unfold budget. lia.
    + exact T2.
    + intros k r [Hka| ->]%Hk Hr E; [by apply T3|]. destruct (Hfresh r Hr). done.
    + intros r Hr. apply elem_of_app. left. by apply T4.
  - destruct (Ha Hn) as [T1 T2 T3 T4]. destruct (all_lanes_split p (lane a)) as (rest & E1 & E2).
    assert (all_lanes (upd p (l ++ [j]) (lane a)) ≡ₚ all_lanes (lane a)) as E by (rewrite E1, E2, Hl; by rewrite <- Permutation_cons_append).
    split; cbn [lane ran entered]; try done; [intros k; rewrite E; apply T1|intros k r; rewrite E; apply T3].
  - destruct (Ha Hn) as [T1 T2 T3 T4]. specialize (Hother p j l Hl Hn l). split; cbn [lane ran entered]; try done.
    + intros k Hk. apply T1. by apply Hother.
    + intros k r Hk. apply T3. by apply Hother.
  - eapply (run_tracked a _ p j l true); try done; [by apply Ha|]. cbn [lane]. intros k Hk. left. by apply (Hother p j l Hl Hn l).
  - eapply (run_tracked a _ p j l false); try done; [by apply Ha|]. cbn [lane]. intros k Hk.
    destruct (all_lanes_split p (lane a)) as (rest & E1 & E2). rewrite E2, <- (assoc_L (++)), elem_of_app, elem_of_app, list_elem_of_singleton in Hk.
    destruct Hk as [Hk|[-> |Hk]]; [left|right; by exists random|left]; (apply (Hother p j l Hl Hn l); [done|]); rewrite E2; apply elem_of_app; auto.
  - eapply (run_tracked a _ p j l false); try done; [by apply Ha|]. cbn [lane]. intros k Hk. left. by apply (Hother p j l Hl Hn l).
  - destruct (Ha Hn) as [T1 T2 T3 T4]. split; done.
  - destruct (Ha Hn) as [T1 T2 T3 T4]. specialize (Hother p j l Hl Hn l). split; cbn [lane ran entered]; try done.
    + intros k Hk. apply T1. by apply Hother.
    + intros k r Hk. apply T3. by apply Hother.
  - eapply (run_tracked a _ p j l false); try done; [by apply Ha|]. cbn [lane]. intros k Hk. left. by apply (Hother p j l Hl Hn l).
Qed.

Lemma moves_sound a : rtc move no_jobs a → conserved a ∧ (NoDup (entered a) → tracked a).
Proof.
  apply (rtc_ind_r (λ a, conserved a ∧ (NoDup (entered a) → tracked a)) no_jobs).
  - split; [unfold conserved, completed; cbn; constructor|]. intros _. split; cbn; intros; set_solver.
  - intros x y _ Hm [Hc Ht]. split; [by eapply move_conserved|]. intros Hn. by eapply move_tracked.
Qed.

(** ** The wait before a retry *)

(** The wait is within an eighth of the doubled base, rounded down. *)
Theorem backoff_bounds random n base :
  (0 <= random)%Q → (random <= 1)%Q → 0 ≤ base →
  let exp := base * 2 ^ Z.max 0 (n - 1) in
  0 ≤ backoffForAttempt random n base ∧ 7 * exp - 8 ≤ 8 * backoffForAttempt random n base ≤ 9 * exp.
Proof.
  intros Hr Hr' Hb. cbn zeta. unfold backoffForAttempt. set (e := base * 2 ^ Z.max 0 (n - 1)).
  assert (0 ≤ e) as He by (apply Z.mul_nonneg_nonneg; [done|apply Z.pow_nonneg; lia]).
  set (x := (inject_Z e + inject_Z e * (1 # 4) * (random - (1 # 2)))%Q).
  assert (0 <= inject_Z e)%Q as HeQ by (change 0%Q with (inject_Z 0); by rewrite <- Zle_Qle).
  assert (inject_Z e * (7 # 8) <= x /\ x <= inject_Z e * (9 # 8))%Q as [Hx1 Hx2] by (unfold x; split; nra).
  pose proof (Qfloor_le x) as F1. pose proof (Qlt_floor x) as F2. rewrite inject_Z_plus in F2. change (inject_Z 1) with 1%Q in F2.
  assert (0 ≤ Qfloor x) by (rewrite <- (Qfloor_Z 0); apply Qfloor_resp_le; change (inject_Z 0) with 0%Q; nra).
  rewrite Z.max_r by done. split; [done|].
  assert (inject_Z (7 * e - 8) <= inject_Z (8 * Qfloor x))%Q as G1.
  { unfold Z.sub. rewrite inject_Z_plus, !inject_Z_mult. change (inject_Z 7) with 7%Q. change (inject_Z 8) with 8%Q. change (inject_Z (-(8))) with (-(8))%Q. lra. }
  assert (inject_Z (8 * Qfloor x) <= inject_Z (9 * e))%Q as G2.
  { rewrite !inject_Z_mult. change (inject_Z 9) with 9%Q. change (inject_Z 8) with 8%Q. lra. }
  rewrite <- Zle_Qle in G1, G2. lia.
Qed.

(** ** The adapter is such a queue *)

Inductive Op :=
| Enqueue (now : Z) (n : JobName) (i : string) (data : json) (o : JobOptions)
| Register (n : JobName) (h : JobHandler)
| Cron (now : Z) (expression : string) (n : JobName) (data : json)
| Consume (now : Z) (random : Q)
| ListDead
| Discard (i : string)
| Stop.

Definition is_ok {A} (r : result A) : bool := match r with Ok _ => true | Throw _ => false end.

Section refinement.
Context `{JsNumber} `{RedisLists R}.
Implicit Types (q : Queue R).

Definition exec (op : Op) q : Queue R :=
  match op with
  | Enqueue now n i data o => (enqueueJob now n i data o q).1
  | Register n h => (register n h q).1
  | Cron now e n data => (scheduleCron now e n data q).1
  | Consume now random => (_consumeOnce now random q).1
  | ListDead => (listDeadLetters q).1
  | Discard i => (discardDeadLetter i q).1
  | Stop => (stop q).1
  end.

Definition run_ops (ops : list Op) q : Queue R := foldl (λ q op, exec op q) q ops.

(** The ids of the calls of [enqueueJob] that returned. *)
Definition accepted_by (op : Op) q : list string :=
  match op with Enqueue now n i data o => if is_ok (enqueueJob now n i data o q).2 then [i] else [] | _ => [] end.
Fixpoint accepted (ops : list Op) q : list string :=
  match ops with [] => [] | op :: ops' => accepted_by op q ++ accepted ops' (exec op q) end.

Definition dropped (ops : list Op) : list string := omap (λ op, match op with Discard i => Some i | _ => None end) ops.

(** How many commands Redis refused so far. *)
Definition failures q : nat := length (List.filter redis_fails (seq 0 (commands q))).

(** Numbers stay exact through all retries. *)
Definition small (j : JobPayload) : Prop :=
  let o := j_options j in 0 ≤ backoffMs o ∧ backoffMs o * 2 ^ Z.max 0 (attempts o) * 2 < 2 ^ 53.

Definition op_ok (op : Op) : Prop :=
  match op with
  | Enqueue now n i data o => let j := new_payload now n i data o in job_ok j ∧ small j
  | Consume _ random => (0 <= random)%Q ∧ (random <= 1)%Q
  | _ => True
  end.

Record related q (a : Jobs) : Prop := {
  rel_lane : ∀ p, list_at (redis q) (listKey p) = job_text <$> lane a p;
  rel_dead : list_at (redis q) deadLetterKey = job_text <$> dead a;
  rel_lane_ok : ∀ p, Forall (λ j, job_ok j ∧ small j) (lane a p);
  rel_dead_ok : Forall (λ j, job_ok j ∧ small j) (dead a);
  rel_ran : (λ r, (r.1, is_ok r.2)) <$> runs q = ran a;
  rel_up : running q = true → connected q = true;
  rel_lost : (length (lost a) ≤ failures q)%nat;
}.

Lemma listKey_inj p p' : listKey p = listKey p' → p = p'.
Proof. destruct p, p'; vm_compute; congruence. Qed.

Lemma listKey_dead p : listKey p ≠ deadLetterKey.
Proof. by destruct p. Qed.

Lemma failures_next r q : failures (with_redis r q) = (failures q + if redis_fails (commands q) then 1 else 0)%nat.
Proof. unfold failures. cbn [commands with_redis]. rewrite seq_S, List.filter_app, length_app. cbn. by destruct (redis_fails (commands q)). Qed.

Lemma failures_le r q : (failures q ≤ failures (with_redis r q))%nat.
Proof. rewrite failures_next. lia. Qed.

(** A command is refused, without an effect, or is carried out. *)
Lemma command_cases {A} (f : R → R * A) q :
  (command f q = (with_redis (redis q) q, Throw ConnectionClosed) ∧ (connected q = true → redis_fails (commands q) = true)) ∨
  command f q = (with_redis (f (redis q)).1 q, Ok (f (redis q)).2).
Proof.
  unfold command. destruct (connected q), (redis_fails (commands q)); cbn [negb orb]; try (by left). right. by destruct (f (redis q)).
Qed.

Definition add_lost (x : string) (a : Jobs) : Jobs := mkJobs (lane a) (dead a) (ran a) (entered a) (discarded a) (lost a ++ [x]).

Lemma refused q a : related q a → related (with_redis (redis q) q) a.
Proof. intros [R1 R2 R3 R4 R5 R6 R7]. split; try done. pose proof (failures_le (redis q) q). lia. Qed.

Lemma refused_lost q a x : related q a → redis_fails (commands q) = true → related (with_redis (redis q) q) (add_lost x a).
Proof.
  intros [R1 R2 R3 R4 R5 R6 R7] Hf. split; try done. rewrite failures_next, Hf. cbn [add_lost lost]. rewrite length_app. cbn. lia.
Qed.

Lemma parse_run q j : job_ok j → parse_job (job_text j) q = (q, Ok j).
Proof. intros Hj. unfold parse_job. by rewrite job_of_text. Qed.

Lemma retried_ok random j : (0 <= random)%Q → (random <= 1)%Q → job_ok j → small j → attempt j < attempts (j_options j) →
  job_ok (retried random j) ∧ small (retried random j).
Proof.
  intros Hr Hr' (Hd & He & Ha & Has & Hb & Hc & Hdl) [Hs Hs'] Hlt. split; [|done]. unfold job_ok, retried. cbn [j_data enqueuedAt attempt j_options attempts backoffMs concurrency delayMs].
  split_and!; try done; [unfold safe_int in *; lia|]. intros z [= <-].
  destruct (backoff_bounds random (attempt j + 1) (backoffMs (j_options j)) Hr Hr' Hs) as (B0 & _ & B9).
  assert (2 ^ Z.max 0 (attempt j + 1 - 1) ≤ 2 ^ Z.max 0 (attempts (j_options j))) by (apply Z.pow_le_mono_r; lia).
  unfold safe_int. nia.
Qed.

Definition set_lane p l (a : Jobs) : Jobs := mkJobs (upd p l (lane a)) (dead a) (ran a) (entered a) (discarded a) (lost a).
Definition set_dead l (a : Jobs) : Jobs := mkJobs (lane a) l (ran a) (entered a) (discarded a) (lost a).

Lemma related_ext q a b : related q a → (∀ p, lane a p = lane b p) → dead a = dead b → ran a = ran b → lost a = lost b → related q b.
Proof. intros [R1 R2 R3 R4 R5 R6 R7] Hl Hd Hr Hx. split; intros; rewrite <- ?Hl, <- ?Hd, <- ?Hr, <- ?Hx; auto. Qed.

(** What a command leaves alone. *)
Definition same_server q q' : Prop := connected q' = connected q ∧ handlers q' = handlers q.

Lemma lpop_related q a p : related q a → ∃ q', same_server q q' ∧
  (lpop (listKey p) q = (q', Throw ConnectionClosed) ∧ related q' a ∨
   match lane a p with
   | [] => lpop (listKey p) q = (q', Ok None) ∧ related q' a
   | j :: l => lpop (listKey p) q = (q', Ok (Some (job_text j))) ∧ related q' (set_lane p l a) ∧ job_ok j ∧ small j
   end).
Proof.
  intros Hq. pose proof Hq as [R1 R2 R3 R4 R5 R6 R7]. unfold lpop.
  match goal with |- context [command ?f q] => destruct (command_cases f q) as [[-> _]| ->] end.
  { exists (with_redis (redis q) q). split; [done|]. left. split; [done|]. by apply refused. }
  rewrite R1. pose proof (λ r, failures_le r q) as Hle.
  destruct (lane a p) as [|j l] eqn:E; cbn [fmap list_fmap fst snd]; eexists (with_redis _ q); (split; [done|]); right; (split; [reflexivity|]).
  - split; try done. etrans; [exact R7|apply Hle].
  - pose proof (R3 p) as Hok. rewrite E in Hok. apply Forall_cons in Hok as [Hj Hl]. split; [|done].
    split; cbn [set_lane lane dead ran lost with_redis redis runs connected running]; try done; [..|etrans; [exact R7|apply Hle]].
    + intros p'. rewrite list_at_put. unfold upd. destruct (bool_decide_reflect (p' = p)) as [->|Hne]; [by rewrite bool_decide_true|].
      rewrite bool_decide_false; [apply R1|]. by intros ?%listKey_inj.
    + rewrite list_at_put, bool_decide_false; [done|]. intros Hd. by apply (listKey_dead p).
    + intros p'. unfold upd. destruct (bool_decide (p' = p)); [done|apply R3].
Qed.

(** Putting a job into a lane or among the dead letters. *)
Definition put_outcome q a (m : M (Queue R) unit) (b : Jobs) : Prop :=
  ∃ q', same_server q q' ∧
    (m q = (q', Ok tt) ∧ related q' b ∨
     m q = (q', Throw ConnectionClosed) ∧ related q' a ∧ (connected q = true → ∀ x, related q' (add_lost x a))).

Lemma push_lane q a p j : related q a → job_ok j → small j →
  put_outcome q a (rpush (listKey p) (job_text j)) (set_lane p (lane a p ++ [j]) a).
Proof.
  intros Hq Hj Hs. pose proof Hq as [R1 R2 R3 R4 R5 R6 R7]. unfold put_outcome, rpush.
  match goal with |- context [command ?f q] => destruct (command_cases f q) as [[-> Hf]| ->] end.
  { exists (with_redis (redis q) q). split; [done|]. right. split; [done|]. split; [by apply refused|]. intros Hc x. by apply refused_lost, Hf. }
  eexists. split; [|left; split; [reflexivity|]]; [done|]. pose proof (λ r, failures_le r q) as Hle.
  split; cbn [set_lane lane dead ran lost with_redis redis runs connected running fst]; try done; [..|etrans; [exact R7|apply Hle]].
  - intros p'. rewrite list_at_put. unfold upd. destruct (bool_decide_reflect (p' = p)) as [->|Hne].
    + rewrite bool_decide_true by done. by rewrite R1, fmap_app.
    + rewrite bool_decide_false; [apply R1|]. by intros ?%listKey_inj.
  - rewrite list_at_put, bool_decide_false; [done|]. intros Hd. by apply (listKey_dead p).
  - intros p'. unfold upd. destruct (bool_decide (p' = p)); [|apply R3]. apply Forall_app. split; [apply R3|]. by constructor.
Qed.

Lemma push_dead q a j : related q a → job_ok j → small j →
  put_outcome q a (rpush deadLetterKey (job_text j)) (set_dead (dead a ++ [j]) a).
Proof.
  intros Hq Hj Hs. pose proof Hq as [R1 R2 R3 R4 R5 R6 R7]. unfold put_outcome, rpush.
  match goal with |- context [command ?f q] => destruct (command_cases f q) as [[-> Hf]| ->] end.
  { exists (with_redis (redis q) q). split; [done|]. right. split; [done|]. split; [by apply refused|]. intros Hc x. by apply refused_lost, Hf. }
  eexists. split; [|left; split; [reflexivity|]]; [done|]. pose proof (λ r, failures_le r q) as Hle.
  split; cbn [set_dead lane dead ran lost with_redis redis runs connected running fst]; try done; [..|etrans; [exact R7|apply Hle]].
  - intros p'. rewrite list_at_put, bool_decide_false; [apply R1|]. apply listKey_dead.
  - rewrite list_at_put, bool_decide_true by done. by rewrite R2, fmap_app.
  - apply Forall_app. split; [done|]. by constructor.
Qed.

Lemma upd_upd p l l' f p' : upd p l (upd p l' f) p' = upd p l f p'.
Proof. unfold upd. by destruct (bool_decide _). Qed.

Lemma upd_same p l f : upd p l f p = l.
Proof. unfold upd. by rewrite bool_decide_true. Qed.

Definition set_ran l (a : Jobs) : Jobs := mkJobs (lane a) (dead a) l (entered a) (discarded a) (lost a).

Lemma run_related q a h j : related q a →
  ∃ q' res, run_handler h j q = (q', Ok res) ∧ related q' (set_ran (ran a ++ [(j, is_ok res)]) a) ∧ same_server q q'.
Proof.
  intros [R1 R2 R3 R4 R5 R6 R7]. unfold run_handler. eexists _, _. split; [reflexivity|]. split; [|done]. split; cbn; try done. by rewrite fmap_app, R5.
Qed.

(** What a worker's tick may do to the books. *)
Definition same_books (a a' : Jobs) : Prop := entered a' = entered a ∧ discarded a' = discarded a.

Lemma run_job_related random q a p j l : (0 <= random)%Q → (random <= 1)%Q → connected q = true →
  lane a p = j :: l → job_ok j → small j → related q (set_lane p l a) →
  ∃ a', move a a' ∧ same_books a a' ∧ related (run_job random p (job_text j) j q).1 a'.
Proof.
  intros Hr Hr' Hc Hl Hj Hs Hq. unfold run_job. cbv [mbind M_bind gets]. destruct (map_get _ (handlers q)) as [h|].
  - destruct (run_related q _ h j Hq) as (q1 & res & E1 & Hq1 & Hc1 & _). rewrite E1. rewrite Hc in Hc1. destruct res as [u|e]; cbn [is_ok] in Hq1.
    { eexists. split; [by apply (Move_complete a p j l)|]. split; [done|]. cbn [fst]. eapply related_ext; [exact Hq1|done..]. }
    destruct (bool_decide_reflect (attempts (j_options j) < attempt j + 1)) as [Hlt|Hge].
    + destruct (push_dead q1 _ j Hq1 Hj Hs) as (q2 & _ & [[E2 Hq2]|(E2 & _ & Hq2)]); rewrite E2; cbn [throw fst].
      * eexists. split; [apply (Move_give_up a p j l); [done|lia]|]. split; [done|]. eapply related_ext; [exact Hq2|done..].
      * eexists. split; [by apply (Move_lose_run a p j l)|]. split; [done|]. eapply related_ext; [exact (Hq2 Hc1 (j_id j))|done..].
    + destruct (retried_ok random j Hr Hr' Hj Hs ltac:(lia)) as [Hj' Hs'].
      destruct (push_lane q1 _ p (retried random j) Hq1 Hj' Hs') as (q2 & _ & [[E2 Hq2]|(E2 & _ & Hq2)]); rewrite E2; cbn [throw fst].
      * eexists. split; [apply (Move_retry a p j l random); [done|lia]|]. split; [done|].
        eapply related_ext; [exact Hq2| |done..]. intros p'. cbn [lane set_lane set_ran set_dead]. by rewrite upd_same, upd_upd.
      * eexists. split; [by apply (Move_lose_run a p j l)|]. split; [done|]. eapply related_ext; [exact (Hq2 Hc1 (j_id j))|done..].
  - destruct (push_dead q _ j Hq Hj Hs) as (q2 & _ & [[E2 Hq2]|(E2 & _ & Hq2)]); rewrite E2; cbn [mret M_ret fst].
    + eexists. split; [by apply (Move_park a p j l)|]. split; [done|]. eapply related_ext; [exact Hq2|done..].
    + eexists. split; [by apply (Move_lose a p j l)|]. split; [done|]. eapply related_ext; [exact (Hq2 Hc (j_id j))|done..].
Qed.

Lemma consume_related now random ls q a : (0 <= random)%Q → (random <= 1)%Q → connected q = true → related q a →
  ∃ a', rtc move a a' ∧ same_books a a' ∧ related (consume_lanes now random ls q).1 a'.
Proof.
  intros Hr Hr'. revert q a. induction ls as [|p ls IH]; intros q a Hc Hq; [by exists a|]. cbn [consume_lanes]. cbv [mbind M_bind].
  destruct (lpop_related q a p Hq) as (q1 & [Hc1 _] & [[-> Hq1]|Hpop]); [by exists a|]. rewrite Hc in Hc1. destruct (lane a p) as [|j l] eqn:E.
  - destruct Hpop as [-> Hq1]. by apply IH.
  - destruct Hpop as (-> & Hq1 & Hj & Hs). rewrite parse_run by done. destruct (not_yet now j) eqn:Hn.
    + destruct (push_lane q1 _ p j Hq1 Hj Hs) as (q2 & [Hc2 _] & [[-> Hq2]|(-> & _ & Hq2)]).
      * destruct (IH q2 (set_lane p (l ++ [j]) a)) as (a' & Hm & He & Hrel); [congruence| |].
        { eapply related_ext; [exact Hq2| |done..]. intros p'. cbn [lane set_lane]. by rewrite upd_same, upd_upd. }
        exists a'. split; [|done]. eapply rtc_l; [|exact Hm]. by apply Move_rotate.
      * eexists. split; [by apply rtc_once, (Move_lose a p j l)|]. split; [done|]. cbn [fst]. eapply related_ext; [exact (Hq2 Hc1 (j_id j))|done..].
    + destruct (run_job_related random q1 a p j l) as (a' & Hm & He & Hrel); try done. exists a'. split; [by apply rtc_once|done].
Qed.

Lemma job_text_inj j k : job_ok j → job_ok k → job_text j = job_text k → j = k.
Proof. intros Hj Hk E. pose proof (job_of_text j Hj) as E1. rewrite E, (job_of_text k Hk) in E1. congruence. Qed.

Lemma remove_first_at v l1 l2 : v ∉ l1 → remove_first v (l1 ++ v :: l2) = l1 ++ l2.
Proof.
  induction l1 as [|x l1 IH]; cbn; [by rewrite bool_decide_true|]. intros [Hx Hl]%not_elem_of_cons. rewrite bool_decide_false by done. by rewrite IH.
Qed.

Lemma discard_related i l1 l2 q a : related q a → dead a = l1 ++ l2 → Forall (λ j, j_id j ≠ i) l1 →
  ∃ a', rtc move a a' ∧ (entered a' = entered a ∧ ∃ gone, discarded a' = discarded a ++ gone ∧ gone `sublist_of` [i]) ∧
    related (discard_loop i (job_text <$> l2) q).1 a'.
Proof.
  intros Hq. revert l1. induction l2 as [|j l2 IH]; intros l1 Hd Hl1.
  { exists a. split; [done|]. split; [|done]. split; [done|]. exists []. split; [by rewrite app_nil_r|apply sublist_nil_l]. }
  rewrite fmap_cons. cbn [discard_loop]. cbv [mbind M_bind].
  destruct (Hq) as [R1 R2 R3 R4 R5 R6 R7]. rewrite Hd in R4. apply Forall_app in R4 as [Hok1 Hok2]. apply Forall_cons in Hok2 as [[Hj Hs] Hok2].
  rewrite parse_run by done. destruct (bool_decide_reflect (j_id j = i)) as [Hi|Hi].
  2:{ apply (IH (l1 ++ [j])); [by rewrite <- (assoc_L (++))|]. apply Forall_app. split; [done|]. by constructor. }
  unfold lrem. match goal with |- context [command ?f q] => destruct (command_cases f q) as [[-> _]| ->] end; cbn [fst].
  { exists a. split; [done|]. split; [|by apply refused]. split; [done|]. exists []. split; [by rewrite app_nil_r|apply sublist_nil_l]. }
  exists (mkJobs (lane a) (l1 ++ l2) (ran a) (entered a) (discarded a ++ [j_id j]) (lost a)). split; [by apply rtc_once, Move_discard|].
  split; [split; [done|]; exists [j_id j]; by rewrite Hi|]. pose proof (λ r, failures_le r q) as Hle.
  split; cbn [lane dead ran lost with_redis redis runs connected running]; try done; [..|etrans; [exact R7|apply Hle]].
  - intros p. rewrite list_at_put, bool_decide_false; [apply R1|apply listKey_dead].
  - rewrite list_at_put, bool_decide_true, R2, Hd, fmap_app, fmap_cons by done. rewrite remove_first_at; [by rewrite fmap_app|].
    intros (k & E & Hk)%list_elem_of_fmap. rewrite Forall_forall in Hok1, Hl1. apply (Hl1 k Hk). apply job_text_inj in E; [by subst|done|by apply Hok1].
  - by apply Forall_app.
Qed.

Lemma parse_all l q : Forall (λ j, job_ok j ∧ small j) l → for_map parse_job (job_text <$> l) q = (q, Ok l).
Proof.
  induction 1 as [|j l [Hj _] _ IH]; [done|]. rewrite fmap_cons. cbn [for_map]. cbv [mbind M_bind]. rewrite parse_run by done. rewrite IH. done.
Qed.

Lemma list_related q a : related q a → ∃ q', related q' a ∧
  (lrange deadLetterKey q = (q', Ok (job_text <$> dead a)) ∨ lrange deadLetterKey q = (q', Throw ConnectionClosed)).
Proof.
  intros Hq. exists (with_redis (redis q) q). split; [by apply refused|]. unfold lrange.
  match goal with |- context [command ?f q] => destruct (command_cases f q) as [[-> _]| ->] end; [by right|left].
  cbn [fst snd]. by rewrite (rel_dead _ _ Hq).
Qed.

Lemma listed q a : related q a → related (listDeadLetters q).1 a ∧
  ((listDeadLetters q).2 = Ok (dead a) ∨ (listDeadLetters q).2 = Throw ConnectionClosed).
Proof.
  intros Hq. unfold listDeadLetters. cbv [mbind M_bind]. destruct (list_related q a Hq) as (q' & Hq' & [-> | ->]); [|by auto].
  rewrite parse_all by apply (rel_dead_ok _ _ Hq). auto.
Qed.

(** What an operation adds to the books. *)
Definition booked (op : Op) q (a a' : Jobs) : Prop :=
  entered a' = entered a ++ accepted_by op q ∧ ∃ gone, discarded a' = discarded a ++ gone ∧ gone `sublist_of` dropped [op].

Lemma nothing_booked op q a a' : accepted_by op q = [] → same_books a a' → booked op q a a'.
Proof. intros He [E1 E2]. unfold booked. rewrite He, E1, E2, app_nil_r. split; [done|]. exists []. split; [by rewrite app_nil_r|apply sublist_nil_l]. Qed.

Lemma cron_related now e n data q a : related q a → related (scheduleCron now e n data q).1 a.
Proof.
  intros Hq. unfold scheduleCron. cbv [mbind M_bind get put]. destruct (bool_decide _); [done|].
  set (q1 := mkQueue _ _ _ _ _ _ _). assert (related q1 a) as Hq1 by (by destruct Hq).
  unfold redis_set. match goal with |- context [command ?f q1] => destruct (command_cases f q1) as [[-> _]| ->] end; cbn [fst]; [by apply refused|].
  destruct Hq1 as [R1 R2 R3 R4 R5 R6 R7]. pose proof (λ r, failures_le r q1) as Hle.
  split; cbn [lane dead ran with_redis redis runs connected running]; try done; [..|etrans; [exact R7|apply Hle]].
  - intros p. rewrite list_at_value; [apply R1|]. by destruct p.
  - rewrite list_at_value; [apply R2|]. done.
Qed.

Lemma enqueue_related now n i data o q a : op_ok (Enqueue now n i data o) → related q a →
  ∃ a', rtc move a a' ∧ booked (Enqueue now n i data o) q a a' ∧ related (enqueueJob now n i data o q).1 a'.
Proof.
  intros [Hj Hs] Hq. set (j := new_payload now n i data o) in *. unfold booked, accepted_by, enqueueJob, enqueue. fold j.
  destruct (push_lane q a (priority (j_options j)) j Hq Hj Hs) as (q' & _ & [[-> Hq']|(-> & Hq' & _)]); cbn [fst snd is_ok].
  - exists (mkJobs (upd (priority (j_options j)) (lane a (priority (j_options j)) ++ [j]) (lane a)) (dead a) (ran a) (entered a ++ [j_id j]) (discarded a) (lost a)).
    split; [by apply rtc_once, Move_enqueue|]. split; [|eapply related_ext; [exact Hq'|done..]].
    split; [done|]. exists []. split; [by rewrite app_nil_r|apply sublist_nil_l].
  - exists a. split; [done|]. split; [|done]. split; [by rewrite app_nil_r|]. exists []. split; [by rewrite app_nil_r|apply sublist_nil_l].
Qed.

Lemma exec_related op q a : op_ok op → related q a → ∃ a', rtc move a a' ∧ booked op q a a' ∧ related (exec op q) a'.
Proof.
  intros Hop Hq. destruct op as [now n i data o|n h|now e n data|now random| |i|]; cbn [exec].
  - by apply enqueue_related.
  - exists a. split; [done|]. split; [by apply nothing_booked|]. by destruct Hq.
  - exists a. split; [done|]. split; [by apply nothing_booked|]. by apply cron_related.
  - destruct Hop as [Hr Hr']. unfold _consumeOnce. cbv [mbind M_bind gets]. destruct (running q) eqn:Hu; cbn [negb].
    2:{ exists a. split; [done|]. split; [by apply nothing_booked|done]. }
    destruct (consume_related now random lanes q a Hr Hr' (rel_up _ _ Hq Hu) Hq) as (a' & Hm & He & Hrel). exists a'. split; [done|].
    split; [by apply nothing_booked|done].
  - exists a. split; [done|]. split; [by apply nothing_booked|]. by apply listed.
  - unfold discardDeadLetter. cbv [mbind M_bind]. destruct (list_related q a Hq) as (q' & Hq' & [-> | ->]).
    + destruct (discard_related i [] (dead a) q' a Hq') as (a' & Hm & [He Hg] & Hrel); [done|constructor|]. exists a'. split; [done|]. split; [|done].
      split; [cbn [accepted_by]; by rewrite He, app_nil_r|done].
    + exists a. split; [done|]. split; [by apply nothing_booked|done].
  - exists a. split; [done|]. split; [by apply nothing_booked|]. destruct Hq as [R1 R2 R3 R4 R5 R6 R7]. by split.
Qed.

Lemma accepted_snoc ops op q : accepted (ops ++ [op]) q = accepted ops q ++ accepted_by op (run_ops ops q).
Proof.
  revert q. induction ops as [|o ops IH]; intros q; cbn [accepted app]; [by rewrite app_nil_r|]. rewrite IH, (assoc_L (++)). done.
Qed.

Lemma dropped_app l k : dropped (l ++ k) = dropped l ++ dropped k.
Proof. apply omap_app. Qed.

Lemma run_related_ops ops r : Forall op_ok ops → (∀ p, list_at r (listKey p) = []) → list_at r deadLetterKey = [] →
  ∃ a, rtc move no_jobs a ∧ entered a = accepted ops (new_queue r) ∧ discarded a `sublist_of` dropped ops ∧ related (run_ops ops (new_queue r)) a.
Proof.
  intros Hops Hr Hd. induction ops as [|op ops IH] using rev_ind; [exists no_jobs; do 3 (split; [done|]); by split|].
  apply Forall_app in Hops as [Hops Hop]. rewrite Forall_singleton in Hop. destruct (IH Hops) as (a & Hm & He & Hg & Hq).
  destruct (exec_related op _ a Hop Hq) as (a' & Hm' & [He' (gone & Ed & Hg')] & Hq').
  exists a'. split; [by etrans|]. split; [by rewrite accepted_snoc, He', He|].
  split; [rewrite dropped_app, Ed; by apply sublist_app|]. unfold run_ops. by rewrite foldl_snoc.
Qed.

(** C21: the lists of Redis are a queue of jobs, whichever commands Redis refuses (a
    refused command has no effect): whatever is enqueued, run, failed, listed and
    discarded, and whenever the worker is stopped, the lists hold the texts of jobs that
    moves of single jobs explain, the ids that entered are those of the calls of
    [enqueueJob] that returned, and the dead letters are listed as they are unless the
    command is refused.  At most as many jobs are lost as commands were refused.  The
    lists are empty at first, and the numbers of a job stay exact. *)
Theorem queue_refines_jobs ops r :
  Forall op_ok ops → (∀ p, list_at r (listKey p) = []) → list_at r deadLetterKey = [] →
  let q := run_ops ops (new_queue r) in
  ∃ a, rtc move no_jobs a ∧ entered a = accepted ops (new_queue r) ∧ related q a ∧ (length (lost a) ≤ failures q)%nat ∧
    ((listDeadLetters q).2 = Ok (dead a) ∨ (listDeadLetters q).2 = Throw ConnectionClosed).
Proof.
  intros Hops Hr Hd. destruct (run_related_ops ops r Hops Hr Hd) as (a & Hm & He & _ & Hq). exists a. split_and!; try done; [apply Hq|by apply listed].
Qed.

(** The jobs whose texts a list holds. *)
Definition held (k : string) q : list JobPayload := omap job_of (list_at (redis q) k).

Definition succeeded q : list string := ids (fst <$> List.filter (λ r, is_ok r.2) (runs q)).

Lemma held_text k q l : Forall (λ j, job_ok j ∧ small j) l → list_at (redis q) k = job_text <$> l → held k q = l.
Proof.
  intros Hl E. unfold held. rewrite E. clear E. induction Hl as [|j l [Hj _] _ IH]; [done|]. rewrite fmap_cons. cbn [omap list_omap]. rewrite job_of_text by done. by rewrite IH.
Qed.

Lemma runs_ran q a (f : JobPayload * bool → bool) : related q a →
  List.filter f (ran a) = (λ r, (r.1, is_ok r.2)) <$> List.filter (λ r, f (r.1, is_ok r.2)) (runs q).
Proof.
  intros Hq. rewrite <- (rel_ran _ _ Hq). induction (runs q) as [|r l IH]; [done|]. rewrite fmap_cons. cbn [List.filter].
  destruct (f (r.1, is_ok r.2)); rewrite ?fmap_cons; by rewrite IH.
Qed.

End refinement.

(** ** Runs *)

Module Demo.
#[export] Instance numbers : JsNumber := number_model.

(** Lists in a map; the commands that fail are given. *)
Definition lists (fails : nat → bool) : RedisLists (gmap string (list string)).
Proof.
  refine {| redis_fails := fails; list_at := λ r k, default [] (r !! k); put_list := λ k l r, <[k := l]> r; set_value := λ _ _ r, r |}; [|done].
  intros k l r k'. destruct (bool_decide_reflect (k' = k)) as [->|Hne]; [by rewrite lookup_insert_eq|by rewrite lookup_insert_ne].
Defined.

Definition plain_options : JobOptions := mkJobOptions None None None None None.
Definition urgent (delay : option Z) : JobOptions := mkJobOptions (Some 2) None (Some critical) delay None.
Definition failing : JobHandler := λ _ _ _ _, Throw (JsError "smtp down").
Definition fine : JobHandler := λ _ _ _ _, Ok tt.
Definition mail (i : string) (o : JobOptions) : Op := Enqueue 1000 email_send i (JObj [("to", JStr i)]) o.
Definition report (i : string) (o : JobOptions) : Op := Enqueue 1000 report_generate i JNull o.
Definition tick (now : Z) : Op := Consume now (1 # 2)%Q.
Definition ops : list Op :=
  [Register email_send failing; Register report_generate fine; mail "m" (urgent None); report "r" plain_options; report "later" (urgent (Some 9000));
   tick 2000; tick 2000; Enqueue 1000 data_cleanup "c" JNull plain_options; tick 2000; tick 60000; tick 60000; Discard "m"; Cron 0 "* * * * *" data_cleanup JNull; ListDead].

Definition start : Queue (gmap string (list string)) := new_queue ∅.

(** Ids in the lanes, dead letters, and runs with their outcome. *)
Definition summary `{RedisLists R} (q : Queue R) :=
  (ids (all_lanes (λ p, held (listKey p) q)), ids (held deadLetterKey q), (λ r, (j_id r.1, attempt r.1, is_ok r.2)) <$> runs q).

Lemma enqueue_ok n i data o : plain data → o ∈ [plain_options; urgent None; urgent (Some 9000)] → op_ok (Enqueue 1000 n i data o).
Proof.
  intros Hd Ho. assert (∀ z, z ∈ [1; 2; 5; 1000; 9000] → safe_int z) as Hz.
  { intros z Hz. repeat (apply elem_of_cons in Hz as [-> |Hz]; [reflexivity|]). by apply not_elem_of_nil in Hz. }
  repeat (apply elem_of_cons in Ho as [-> |Ho]; [|]); [..|by apply not_elem_of_nil in Ho];
    (split; [split_and!; [exact Hd|apply Hz; set_solver..| |]; intros z Hs; cbn in Hs; simplify_eq; apply Hz; set_solver|split; [discriminate|reflexivity]]).
Qed.

Lemma ops_ok : Forall op_ok ops.
Proof.
  assert (∀ t, op_ok (tick t)) as Ht by (intros t; split; discriminate).
  unfold ops. repeat (apply Forall_cons; split); try apply Forall_nil; try apply Ht; try (apply enqueue_ok; [done|set_solver]); exact I.
Qed.
End Demo.

#[local] Existing Instance Demo.numbers.

(** The command that should put a job back that failed is refused: the job is lost. *)
Lemma queue_refines_jobs_witness :
  let _ := Demo.lists (λ n, bool_decide (n = 4)%nat) in
  let q := run_ops Demo.ops Demo.start in
  Demo.summary q = ([], ["c"], [("m", 1, false); ("r", 1, true); ("later", 1, true)]) ∧ failures q = 1%nat ∧
  ∃ a, rtc move no_jobs a ∧ entered a = accepted Demo.ops Demo.start ∧ related q a ∧ (length (lost a) ≤ failures q)%nat ∧
    ((listDeadLetters q).2 = Ok (dead a) ∨ (listDeadLetters q).2 = Throw ConnectionClosed).
Proof.
  intros inst. subst inst. split; [vm_compute; reflexivity|]. split; [vm_compute; reflexivity|].
  apply (queue_refines_jobs (H0 := Demo.lists (λ n, bool_decide (n = 4)%nat)) Demo.ops ∅ Demo.ops_ok); [by intros []|done].
Defined.


Lemma backoff_bounds_witness : 0 ≤ backoffForAttempt (1 # 3) 4 1000 ∧ 7 * 8000 - 8 ≤ 8 * backoffForAttempt (1 # 3) 4 1000 ≤ 9 * 8000.
Proof. apply (backoff_bounds (1 # 3) 4 1000); vm_compute; discriminate. Defined.

(** A job whose retry cannot be written is in no list: it is lost. *)
Example retry_lost :
  let _ := Demo.lists (λ n, bool_decide (n = 2)%nat) in
  Demo.summary (run_ops [Register email_send Demo.failing; Demo.mail "m" (Demo.urgent None); Demo.tick 2000] Demo.start) =
  ([], [], [("m", 1, false)]).
Proof. vm_compute. reflexivity. Qed.

(** A job that is not due is put at the end of its lane and the lane is left:
    the urgent job behind it waits while one of low priority runs. *)
Example ready_job_waits :
  let _ := Demo.lists (λ _, false) in
  Demo.summary (run_ops [Register report_generate Demo.fine; Demo.report "due later" (Demo.urgent (Some 9000)); Demo.report "due" (Demo.urgent None);
                         Demo.report "low" (mkJobOptions None None (Some low) None None); Demo.tick 2000] Demo.start) =
  (["due"; "due later"], [], [("low", 1, true)]).
Proof. vm_compute. reflexivity. Qed.

(** The first attempt counts against the budget of retries. *)
Example two_attempts_are_one_retry :
  let _ := Demo.lists (λ _, false) in
  Demo.summary (run_ops [Register email_send Demo.failing; Demo.mail "m" (Demo.urgent None); Demo.tick 2000; Demo.tick 9000; Demo.tick 90000] Demo.start) =
  ([], ["m"], [("m", 1, false); ("m", 2, false)]).
Proof. vm_compute. reflexivity. Qed.

(** The wait before a retry counts from the first enqueuing: a job that fails
    late is tried again at once. *)
Example retried_at_once :
  let _ := Demo.lists (λ _, false) in
  Demo.summary (run_ops [Register email_send Demo.failing; Demo.mail "m" (Demo.urgent None); Demo.tick 60000; Demo.tick 60000] Demo.start) =
  ([], ["m"], [("m", 1, false); ("m", 2, false)]).
Proof. vm_compute. reflexivity. Qed.

(** Jobs with one id are all run. *)
Example same_id_runs_twice :
  let _ := Demo.lists (λ _, false) in
  Demo.summary (run_ops [Register report_generate Demo.fine; Demo.report "r" Demo.plain_options; Demo.report "r" Demo.plain_options; Demo.tick 2000; Demo.tick 2000] Demo.start) =
  ([], [], [("r", 1, true); ("r", 1, true)]).
Proof. vm_compute. reflexivity. Qed.

(** ** The adapter of RabbitMQ *)

Definition DLQ_EXCHANGE : string := "arenax.dlx".
Definition MAIN_EXCHANGE : string := "arenax.main".
Definition REPLY_EXCHANGE : string := "arenax.reply".

(** What is asked of the channel. *)
Inductive ChannelOp :=
| GetConfirmChannel
| AssertExchange (name kind : string) (durable : bool)
| AssertQueue (name deadLetterExchange deadLetterRoutingKey : string) (messageTtl : Z)
| BindQueue (queue exchange key : string)
| Publish (exchange key text correlationId : string) (timestamp attempt : Z)
| SendToQueue (queue text : string)
| ConsumeQueue (queue : string)
| Ack (deliveryTag : nat)
| Nack (deliveryTag : nat)
| CancelConsumer (tag : string).

Record RabbitMQ := mkRabbit {
  mq_handlers : jsmap JobHandler; channel : bool; consumerTags : jsmap string; mq_running : bool; deadLetters : list JobPayload;
  (** what was asked, the number of requests, and the runs of handlers *)
  sent : list ChannelOp; asked : nat; mq_runs : list (JobPayload * result unit) }.

Definition new_rabbit : RabbitMQ := mkRabbit [] false [] true [] [] 0 [].

Definition ChannelError : exn := JsError "Channel closed".

Section rabbit.
Context `{JsNumber} (mq_fails : nat → bool) (dlqMaxRetries defaultTtlMs : Z).
Implicit Types (s : RabbitMQ).

Definition ask (op : ChannelOp) : M RabbitMQ unit := λ s,
  if mq_fails (asked s) then (mkRabbit (mq_handlers s) (channel s) (consumerTags s) (mq_running s) (deadLetters s) (sent s) (S (asked s)) (mq_runs s), Throw ChannelError)
  else (mkRabbit (mq_handlers s) (channel s) (consumerTags s) (mq_running s) (deadLetters s) (sent s ++ [op]) (S (asked s)) (mq_runs s), Ok tt).

Definition set_channel (b : bool) s : RabbitMQ := mkRabbit (mq_handlers s) b (consumerTags s) (mq_running s) (deadLetters s) (sent s) (asked s) (mq_runs s).
Definition set_tags t s : RabbitMQ := mkRabbit (mq_handlers s) (channel s) t (mq_running s) (deadLetters s) (sent s) (asked s) (mq_runs s).
Definition set_deadLetters d s : RabbitMQ := mkRabbit (mq_handlers s) (channel s) (consumerTags s) (mq_running s) d (sent s) (asked s) (mq_runs s).
Definition set_mq_handlers h s : RabbitMQ := mkRabbit h (channel s) (consumerTags s) (mq_running s) (deadLetters s) (sent s) (asked s) (mq_runs s).

Definition setupExchanges : M RabbitMQ unit :=
  _ ← ask (AssertExchange MAIN_EXCHANGE "direct" true);
  _ ← ask (AssertExchange DLQ_EXCHANGE "direct" true);
  ask (AssertExchange REPLY_EXCHANGE "fanout" false).

Definition getChannel (isConnected : bool) : M RabbitMQ unit :=
  s ← get;
  if negb (channel s) || negb isConnected then
    _ ← ask GetConfirmChannel;
    _ ← modify (set_channel true);
    setupExchanges
  else mret tt.

Definition queueName (n : JobName) (p : option string) : string :=
  "arenax." +:+ name_text n +:+ match p with Some p => if bool_decide (p = "") then "" else "." +:+ p | None => "" end.

Definition mq_enqueue (isConnected : bool) (p : JobPayload) : M RabbitMQ unit :=
  s ← get;
  if negb (mq_running s) then mret tt
  else
    _ ← getChannel isConnected;
    _ ← ask (AssertQueue (queueName (j_name p) (Some (priority_text (priority (j_options p))))) DLQ_EXCHANGE ("dlq." +:+ name_text (j_name p)) defaultTtlMs);
    ask (Publish MAIN_EXCHANGE (name_text (j_name p)) (job_text p) (j_id p) (enqueuedAt p) (attempt p)).

(** The tag of a consumer is what [consume] answers. *)
Definition startConsumer (isConnected : bool) (tag : string) (n : JobName) : M RabbitMQ unit :=
  s ← get;
  if negb (mq_running s) then mret tt
  else
    _ ← getChannel isConnected;
    let queue := queueName n None in
    _ ← ask (AssertQueue queue DLQ_EXCHANGE ("dlq." +:+ name_text n) defaultTtlMs);
    _ ← ask (BindQueue queue MAIN_EXCHANGE (name_text n));
    _ ← ask (ConsumeQueue queue);
    modify (λ s, set_tags (map_set (name_text n) tag (consumerTags s)) s).

Definition mq_register (isConnected : bool) (tag : string) (n : JobName) (h : JobHandler) : M RabbitMQ unit :=
  _ ← modify (λ s, set_mq_handlers (map_set (name_text n) h (mq_handlers s)) s);
  try_catch (startConsumer isConnected tag n) (λ _, mret tt).

Definition publishWithDelay (isConnected : bool) (n : string) (p : JobPayload) (delay : Z) : M RabbitMQ unit :=
  _ ← getChannel isConnected;
  let queue := queueName (j_name p) None +:+ ".delayed" in
  _ ← ask (AssertQueue queue MAIN_EXCHANGE n (delay + 1000));
  ask (SendToQueue queue (job_text p)).

Definition mq_run (h : JobHandler) (p : JobPayload) : M RabbitMQ unit := λ s,
  let res := h (length (mq_runs s)) (j_data p) (attempt p) (enqueuedAt p) in
  (mkRabbit (mq_handlers s) (channel s) (consumerTags s) (mq_running s) (deadLetters s) (sent s) (asked s) (mq_runs s ++ [(p, res)]), res).

(** The handler of an exception of [processMessage], which reads the message again. *)
Definition retry_message (isConnected : bool) (random : Q) (tag : nat) (content : string) (n : JobName) : M RabbitMQ unit :=
  p ← parse_job content;
  let nextAttempt := attempt p + 1 in
  if bool_decide (dlqMaxRetries < nextAttempt) then
    _ ← modify (λ s, set_deadLetters (deadLetters s ++ [p]) s);
    ask (Nack tag)
  else
    let retryDelay := backoffForAttempt random nextAttempt (backoffMs (j_options p)) in
    _ ← ask (Ack tag);
    publishWithDelay isConnected (name_text n) (retried random p) retryDelay.

Definition processMessage (isConnected : bool) (random : Q) (tag : nat) (content : string) (n : JobName) : M RabbitMQ unit :=
  try_catch
    (p ← parse_job content;
     hs ← gets mq_handlers;
     match map_get (name_text n) hs with
     | None => ask (Nack tag)
     | Some h => _ ← mq_run h p; ask (Ack tag)
     end)
    (λ _, retry_message isConnected random tag content n).

Definition mq_scheduleCron (isConnected : bool) (now : Z) (n : JobName) (data : json) : M RabbitMQ unit :=
  mq_enqueue isConnected
    (mkJob ("cron-" +:+ name_text n +:+ "-" +:+ pretty now) n data now 1 (mkPayloadOptions dlqMaxRetries 1000 normal None None)).

Definition mq_listDeadLetters : M RabbitMQ (list JobPayload) := gets deadLetters.

(** [findIndex] and [splice] *)
Fixpoint remove_letter (i : string) (l : list JobPayload) : list JobPayload :=
  match l with [] => [] | j :: l' => if bool_decide (j_id j = i) then l' else j :: remove_letter i l' end.

Definition mq_discardDeadLetter (i : string) : M RabbitMQ unit := modify (λ s, set_deadLetters (remove_letter i (deadLetters s)) s).

Definition mq_stop : M RabbitMQ unit :=
  _ ← modify (λ s, mkRabbit (mq_handlers s) (channel s) (consumerTags s) false (deadLetters s) (sent s) (asked s) (mq_runs s));
  s ← get;
  _ ← for_each (λ tag, try_catch (s ← get; if channel s then ask (CancelConsumer tag) else mret tt) (λ _, mret tt)) (map_values (consumerTags s));
  modify (λ s, set_channel false (set_tags [] s)).
End rabbit.

(** ** What happens to a message *)

(** How a message ends, and what is asked of the channel for it. *)
Inductive ending :=
| Unhandled | Done | GivenUp | Again.

Definition ending_of (dlqMaxRetries : Z) (h : option (result unit)) (p : JobPayload) : ending :=
  match h with
  | None => Unhandled
  | Some (Ok _) => Done
  | Some (Throw _) => if bool_decide (dlqMaxRetries < attempt p + 1) then GivenUp else Again
  end.

Definition requests (random : Q) (tag : nat) (p : JobPayload) (e : ending) : list ChannelOp :=
  match e with
  | Unhandled | GivenUp => [Nack tag]
  | Done => [Ack tag]
  | Again =>
      let queue := "arenax." +:+ name_text (j_name p) +:+ ".delayed" in
      [Ack tag; AssertQueue queue MAIN_EXCHANGE (name_text (j_name p)) (backoffForAttempt random (attempt p + 1) (backoffMs (j_options p)) + 1000);
       SendToQueue queue (job_text (retried random p))]
  end.

Section messages.
Context `{JsNumber} (dlqMaxRetries : Z).
Notation process := (processMessage (λ _, false) dlqMaxRetries true).

(** On an open channel a job taken from its queue is settled exactly once: it
    is acknowledged when it succeeded, sent again once with the next attempt when
    it failed and has attempts left, and refused otherwise, and then it is kept
    with the dead letters if it was run. *)
Theorem message_settled random tag p s :
  job_ok p → channel s = true →
  let h := (λ h : JobHandler, h (length (mq_runs s)) (j_data p) (attempt p) (enqueuedAt p)) <$> map_get (name_text (j_name p)) (mq_handlers s) in
  let e := ending_of dlqMaxRetries h p in
  let '(s', res) := process random tag (job_text p) (j_name p) s in
  res = Ok tt ∧ sent s' = sent s ++ requests random tag p e ∧
  deadLetters s' = deadLetters s ++ match e with GivenUp => [p] | _ => [] end ∧
  mq_runs s' = mq_runs s ++ match h with Some r => [(p, r)] | None => [] end ∧
  length (List.filter (λ o, match o with Ack t | Nack t => bool_decide (t = tag) | _ => false end) (requests random tag p e)) = 1%nat.
Proof.
  intros Hp Hc. cbn zeta. assert (length (List.filter (λ o, match o with Ack t | Nack t => bool_decide (t = tag) | _ => false end)
    (requests random tag p (ending_of dlqMaxRetries ((λ h : JobHandler, h (length (mq_runs s)) (j_data p) (attempt p) (enqueuedAt p)) <$> map_get (name_text (j_name p)) (mq_handlers s)) p))) = 1%nat) as H1.
  { destruct (ending_of _ _ _); cbn; by rewrite bool_decide_true. }
  unfold processMessage, retry_message, publishWithDelay, getChannel, parse_job, try_catch. cbv [mbind M_bind mret M_ret gets get]. rewrite job_of_text by done. cbv beta iota.
  destruct (map_get (name_text (j_name p)) (mq_handlers s)) as [h|] eqn:Eh; cbn [fmap option_fmap option_map ending_of] in *.
  - unfold mq_run. cbv beta zeta. destruct (h (length (mq_runs s)) (j_data p) (attempt p) (enqueuedAt p)) as [u|e] eqn:Er; cbn [ending_of] in *.
    + cbn. rewrite app_nil_r. done.
    + destruct (bool_decide (dlqMaxRetries < attempt p + 1)) eqn:Ed.
      * cbn. done.
      * cbn [ask modify]. cbn -[backoffForAttempt retried job_text]. rewrite Hc. cbn -[backoffForAttempt retried job_text]. rewrite app_nil_r, <- !(assoc_L (++)). split_and!; try done.
        change (j_name (retried random p)) with (j_name p).
        assert (queueName (j_name p) None +:+ ".delayed" = "arenax." +:+ name_text (j_name p) +:+ ".delayed") as -> by (by destruct (j_name p)). done.
  - cbn. rewrite !app_nil_r. done.
Qed.
End messages.

(** A message that is not a job is neither acknowledged nor refused: its text is
    read again where the error is handled, and throws again. *)
Theorem unreadable_unsettled `{JsNumber} mq_fails dlqMaxRetries isConnected random tag content n s :
  job_of content = None → processMessage mq_fails dlqMaxRetries isConnected random tag content n s = (s, Throw SyntaxError).
Proof.
  intros Hc. unfold processMessage, retry_message, try_catch, parse_job. cbv [mbind M_bind mret M_ret]. by rewrite Hc.
Qed.

(** ** Monitoring *)

Record QueueStats := mkStats { st_queue : string; messages : Z; consumers : Z }.
Record QueueMonitoringResult := mkMonitoring { m_connected : bool; queues : list QueueStats; m_timestamp : Z }.

Definition monitored : list string := ((λ n, "arenax." +:+ name_text n) <$> job_names) ++ ((λ n, "arenax.dlq." +:+ name_text n) <$> job_names).

(** [checkQueue] throws for a queue that does not exist; a failure to get the
    channel gives no queues. *)
Definition getStats (isConnected channelOk : bool) (checkQueue : string → option (Z * Z)) (now : Z) : QueueMonitoringResult :=
  if negb isConnected then mkMonitoring false [] now
  else if negb channelOk then mkMonitoring false [] now
  else mkMonitoring true (omap (λ q, (λ mc : Z * Z, mkStats q mc.1 mc.2) <$> checkQueue q) monitored) now.

Definition dlqMessages (m : QueueMonitoringResult) : Z :=
  zsum (messages <$> List.filter (λ q, String.prefix "arenax.dlq." (st_queue q)) (queues m)).

Definition getQueueHealth (isConnected channelOk : bool) (checkQueue : string → option (Z * Z)) (now : Z) : bool * string :=
  if negb isConnected then (false, "RabbitMQ not connected")
  else
    let stats := getStats isConnected channelOk checkQueue now in
    let n := dlqMessages stats in
    if bool_decide (100 < n) then (false, "Dead letter queue backlog: " +:+ pretty n +:+ " messages")
    else (true, "Connected. " +:+ pretty (length (queues stats)) +:+ " queues tracked. DLQ: " +:+ pretty n +:+ " messages.").

Lemma omap_prefix (f : string → option (Z * Z)) (p : string) l :
  zsum (messages <$> List.filter (λ q, String.prefix p (st_queue q)) (omap (λ q, (λ mc : Z * Z, mkStats q mc.1 mc.2) <$> f q) l)) =
  zsum ((λ q, if String.prefix p q then match f q with Some mc => mc.1 | None => 0 end else 0) <$> l).
Proof.
  induction l as [|q l IH]; [done|]. rewrite fmap_cons. cbn [omap list_omap zsum foldr]. fold (zsum ((λ q, if String.prefix p q then match f q with Some mc => mc.1 | None => 0 end else 0) <$> l)).
  rewrite <- IH. destruct (f q) as [[m c]|]; cbn [fmap option_fmap option_map List.filter st_queue fst snd]; destruct (String.prefix p q); try done.
Qed.

(** With a working channel, health is a backlog of at most a hundred messages
    in the queues of dead letters, those that do not exist counting for none. *)
Theorem health_spec checkQueue now :
  (getQueueHealth true true checkQueue now).1 = true ↔
  zsum ((λ n, match checkQueue ("arenax.dlq." +:+ name_text n) with Some mc => mc.1 | None => 0 end) <$> job_names) ≤ 100.
Proof.
  unfold getQueueHealth. cbn [negb]. unfold dlqMessages, getStats. cbn [negb queues].
  assert (zsum (messages <$> List.filter (λ q, String.prefix "arenax.dlq." (st_queue q)) (omap (λ q, (λ mc : Z * Z, mkStats q mc.1 mc.2) <$> checkQueue q) monitored)) =
    zsum ((λ n, match checkQueue ("arenax.dlq." +:+ name_text n) with Some mc => mc.1 | None => 0 end) <$> job_names)) as -> by (rewrite omap_prefix; reflexivity).
  destruct (bool_decide_reflect (100 < zsum ((λ n, match checkQueue ("arenax.dlq." +:+ name_text n) with Some mc => mc.1 | None => 0 end) <$> job_names))); cbn [fst];
    split; try done; lia.
Qed.

(** When the channel cannot be had, the queue counts as healthy. *)
Example no_channel_is_healthy c now : getQueueHealth true false c now = (true, "Connected. 0 queues tracked. DLQ: 0 messages.").
Proof. reflexivity. Qed.

(** *** Runs of the adapter *)

Definition mail_job : JobPayload := mkJob "m" email_send JNull 1000 1 (mkPayloadOptions 1 1000 normal None None).

Lemma message_settled_witness :
  let s := set_mq_handlers [("email.send", Demo.failing)] (set_channel true new_rabbit) in
  let '(s', res) := processMessage (λ _, false) 5 true (1 # 2) 7 (job_text mail_job) email_send s in
  res = Ok tt ∧ sent s' = requests (1 # 2) 7 mail_job Again.
Proof.
  intros s. pose proof (message_settled 5 (1 # 2) 7 mail_job s) as Hs. cbn zeta in Hs.
  change (j_name mail_job) with email_send in Hs. destruct (processMessage (λ _, false) 5 true (1 # 2) 7 (job_text mail_job) email_send s) as [s' res].
  destruct Hs as (-> & -> & _); [|done|done]. unfold job_ok, safe_int. cbn [mail_job j_data enqueuedAt attempt j_options attempts backoffMs concurrency delayMs].
  split_and!; try done; reflexivity.
Defined.

Lemma unreadable_unsettled_witness :
  sent (processMessage (λ _, false) 5 true (1 # 2) 7 "{" email_send (set_channel true new_rabbit)).1 = [].
Proof. rewrite (unreadable_unsettled (λ _, false) 5 true (1 # 2) 7 "{" email_send (set_channel true new_rabbit)) by (vm_compute; reflexivity). reflexivity. Defined.

(** Jobs are published under their name; only the queue without a priority is
    bound to it, and only when a handler is registered. *)
Example priority_queue_unbound :
  let s := (mq_enqueue (λ _, false) 86400000 true mail_job new_rabbit).1 in
  let s := (mq_register (λ _, false) 86400000 true "tag" email_send Demo.fine s).1 in
  omap (λ o, match o with AssertQueue q _ _ _ => Some ("assert " +:+ q) | BindQueue q _ k => Some ("bind " +:+ q +:+ " to " +:+ k) | Publish _ k _ _ _ _ => Some ("publish " +:+ k) | _ => None end) (sent s) =
  ["assert arenax.email.send.normal"; "publish email.send"; "assert arenax.email.send"; "bind arenax.email.send to email.send"].
Proof. vm_compute. reflexivity. Qed.

(** The queue of the messages that wait is declared anew at each retry, with
    another lifetime; the options of the job do not count. *)
Example delayed_queue_redeclared :
  let s := set_mq_handlers [("email.send", Demo.failing)] (set_channel true new_rabbit) in
  let s := (processMessage (λ _, false) 5 true (1 # 2) 1 (job_text mail_job) email_send s).1 in
  let s := (processMessage (λ _, false) 5 true (1 # 2) 2 (job_text (retried (1 # 2) mail_job)) email_send s).1 in
  omap (λ o, match o with AssertQueue q _ _ ttl => Some (q, ttl) | _ => None end) (sent s) =
  [("arenax.email.send.delayed", 3000); ("arenax.email.send.delayed", 5000)].
Proof. vm_compute. reflexivity. Qed.
