(* ===== verification/DataTable.v ===== *)
(** * Tables and pages: [frontend/src/hooks/useDataTable.ts],
    [frontend/src/hooks/usePaginatedQuery.ts] and [frontend/src/types/table.ts]

    The two hooks are transition systems between renders: a call changes the
    state, a render computes what is shown from the state and the properties of
    that moment, and the callbacks it hands out keep the number of pages it saw.
    The cells of a row are texts, integers, flags or nothing; what [Number] makes
    of a text is a parameter.  The cache of queries is the third-party package's:
    a render is told what it answers. *)

From Stdlib Require Import Ascii.
From stdpp Require Import prelude gmap strings list pretty sorting.
From S2P Require Import Prelude JsText.

(** ** Data *)

Inductive Cell := Text (s : string) | Number (z : Z) | Flag (b : bool) | Null | Undefined.

Notation Row := (jsmap Cell).

(** [accessorKey]: a key of the row, or a function that renders *)
Inductive Accessor := Key (k : string) | Render.

Record Column := mkColumn { c_id : string; accessorKey : Accessor; hidden : bool }.

Inductive Direction := asc | desc.

#[export] Instance Direction_eq_dec : EqDecision Direction.
Proof. solve_decision. Defined.

Record SortConfig := mkSort { s_columnId : string; direction : Direction }.

Inductive Operator := contains | equals | startsWith | endsWith | gt | lt | between.

Record FilterConfig := mkFilter { f_columnId : string; f_value : string; operator : Operator }.

Record PaginationConfig := mkPagination { p_page : Z; p_pageSize : Z; totalItems : Z }.

Record DataTableState := mkState {
  sorts : list SortConfig; filters : list FilterConfig; globalSearch : string; visibleColumns : list string; page : Z }.

Section table.
(** [Number(text)], when it is an integer *)
Context (number_of : string → option Z).

Definition cell (k : string) (r : Row) : Cell := default Undefined (map_get k r).

(** [String(v ?? '')] *)
Definition cell_text (c : Cell) : string :=
  match c with Text s => s | Number z => pretty z | Flag true => "true" | Flag false => "false" | Null | Undefined => "" end.

Definition text_in (c : Column) (r : Row) : string := match accessorKey c with Render => "" | Key k => cell_text (cell k r) end.

Definition to_number (c : Cell) : option Z :=
  match c with Text s => number_of s | Number z => Some z | Flag b => Some (Z.b2z b) | Null => Some 0 | Undefined => None end.

(** [a < b]: as texts if both are, as numbers otherwise *)
Definition cell_lt (a b : Cell) : bool :=
  match a, b with
  | Text s, Text t => bool_decide (¬ (t ≤ s)%string)
  | _, _ => match to_number a, to_number b with Some x, Some y => bool_decide (x < y) | _, _ => false end
  end.

Fixpoint str_ends (suffix s : string) : bool :=
  if bool_decide (s = suffix) then true else match s with "" => false | String _ s' => str_ends suffix s' end.

(** ** What is shown *)

Definition matches_search (columns : list Column) (q : string) (r : Row) : bool :=
  existsb (λ c, negb (hidden c) && str_contains q (lowercase (text_in c r))) columns.

Definition find_column (columns : list Column) (i : string) : option Column := List.find (λ c, bool_decide (c_id c = i)) columns.

(** An operator without a case lets every row through. *)
Definition matches_filter (columns : list Column) (f : FilterConfig) (r : Row) : bool :=
  match find_column columns (f_columnId f) with
  | None => true
  | Some c =>
      let val := lowercase (text_in c r) in
      let wanted := lowercase (f_value f) in
      match operator f with
      | contains => str_contains wanted val
      | equals => bool_decide (val = wanted)
      | startsWith => String.prefix wanted val
      | endsWith => str_ends wanted val
      | gt | lt | between => true
      end
  end.

Definition filteredData (columns : list Column) (data : list Row) (s : DataTableState) : list Row :=
  let result :=
    if bool_decide (globalSearch s = "") then data
    else List.filter (matches_search columns (lowercase (globalSearch s))) data in
  foldl (λ result f, List.filter (matches_filter columns f) result) result (filters s).

(** The comparison of two rows, column by column. *)
Fixpoint compare_rows (columns : list Column) (ss : list SortConfig) (a b : Row) : Z :=
  match ss with
  | [] => 0
  | s :: ss' =>
      match find_column columns (s_columnId s) with
      | Some (mkColumn _ (Key k) _) =>
          let aVal := cell k a in
          let bVal := cell k b in
          if cell_lt aVal bVal then (if bool_decide (direction s = asc) then -1 else 1)
          else if cell_lt bVal aVal then (if bool_decide (direction s = asc) then 1 else -1)
          else compare_rows columns ss' a b
      | _ => compare_rows columns ss' a b
      end
  end.

Definition sortedData (columns : list Column) (data : list Row) (s : DataTableState) : list Row :=
  let l := filteredData columns data s in
  match sorts s with [] => l | _ => js_sort (compare_rows columns (sorts s)) l end.

Definition paginatedData (columns : list Column) (pageSize : Z) (data : list Row) (s : DataTableState) : list Row :=
  let start := (page s - 1) * pageSize in
  js_slice start (start + pageSize) (sortedData columns data s).

Definition pagination (columns : list Column) (pageSize : Z) (data : list Row) (s : DataTableState) : PaginationConfig :=
  mkPagination (page s) pageSize (Z.of_nat (length (sortedData columns data s))).

(** [Math.max(1, Math.ceil(n / pageSize))] *)
Definition pages (n pageSize : Z) : Z := Z.max 1 (- (- n / pageSize)).

Definition totalPages (columns : list Column) (pageSize : Z) (data : list Row) (s : DataTableState) : Z :=
  pages (Z.of_nat (length (sortedData columns data s))) pageSize.

(** ** What changes the state *)

Definition shown_columns (columns : list Column) : list string := c_id <$> List.filter (λ c, negb (hidden c)) columns.

Definition initial (columns : list Column) (defaultSorts : list SortConfig) : DataTableState :=
  mkState defaultSorts [] "" (shown_columns columns) 1.

Definition setSorts (ss : list SortConfig) (s : DataTableState) : DataTableState := mkState ss (filters s) (globalSearch s) (visibleColumns s) (page s).

Definition toggled (columnId : string) (ss : list SortConfig) : list SortConfig :=
  match List.find (λ x, bool_decide (s_columnId x = columnId)) ss with
  | Some existing =>
      if bool_decide (direction existing = asc)
      then (λ x, if bool_decide (s_columnId x = columnId) then mkSort (s_columnId x) desc else x) <$> ss
      else List.filter (λ x, negb (bool_decide (s_columnId x = columnId))) ss
  | None => ss ++ [mkSort columnId asc]
  end.

Definition toggleSort (columnId : string) (s : DataTableState) : DataTableState := setSorts (toggled columnId (sorts s)) s.

Definition setFilters (fs : list FilterConfig) (s : DataTableState) : DataTableState := mkState (sorts s) fs (globalSearch s) (visibleColumns s) 1.
Definition addFilter (f : FilterConfig) (s : DataTableState) : DataTableState := setFilters (filters s ++ [f]) s.
Definition removeFilter (columnId : string) (s : DataTableState) : DataTableState :=
  setFilters (List.filter (λ f, negb (bool_decide (f_columnId f = columnId))) (filters s)) s.
Definition setGlobalSearch (q : string) (s : DataTableState) : DataTableState := mkState (sorts s) (filters s) q (visibleColumns s) 1.

(** With the number of pages the last render saw. *)
Definition setPage (totalPages n : Z) (s : DataTableState) : DataTableState :=
  mkState (sorts s) (filters s) (globalSearch s) (visibleColumns s) (Z.max 1 (Z.min n totalPages)).

Definition setVisibleColumns (cs : list string) (s : DataTableState) : DataTableState := mkState (sorts s) (filters s) (globalSearch s) cs (page s).
Definition toggleColumn (columnId : string) (s : DataTableState) : DataTableState :=
  setVisibleColumns (if bool_decide (columnId ∈ visibleColumns s) then List.filter (λ c, negb (bool_decide (c = columnId))) (visibleColumns s)
                     else visibleColumns s ++ [columnId]) s.
Definition resetState (columns : list Column) (s : DataTableState) : DataTableState := initial columns [].

(** ** The hook between renders *)

Inductive Event :=
| SetSorts (ss : list SortConfig) | ToggleSort (columnId : string) | SetFilters (fs : list FilterConfig) | AddFilter (f : FilterConfig)
| RemoveFilter (columnId : string) | SetGlobalSearch (q : string) | SetPage (n : Z) | ToggleColumn (columnId : string)
| SetVisibleColumns (cs : list string) | ResetState | Rendered (data : list Row).

(** The state, the rows of the last render and the number of pages it saw. *)
Record Hook := mkHook { state : DataTableState; rows : list Row; seen : Z }.

Section hook.
Context (columns : list Column) (pageSize : Z).

Definition render (data : list Row) (s : DataTableState) : Hook := mkHook s data (totalPages columns pageSize data s).

Definition mount (defaultSorts : list SortConfig) (data : list Row) : Hook := render data (initial columns defaultSorts).

Definition step (h : Hook) (e : Event) : Hook :=
  let update f := mkHook (f (state h)) (rows h) (seen h) in
  match e with
  | SetSorts ss => update (setSorts ss)
  | ToggleSort c => update (toggleSort c)
  | SetFilters fs => update (setFilters fs)
  | AddFilter f => update (addFilter f)
  | RemoveFilter c => update (removeFilter c)
  | SetGlobalSearch q => update (setGlobalSearch q)
  | SetPage n => update (setPage (seen h) n)
  | ToggleColumn c => update (toggleColumn c)
  | SetVisibleColumns cs => update (setVisibleColumns cs)
  | ResetState => update (resetState columns)
  | Rendered data => render data (state h)
  end.
End hook.
End table.

(** ** Sorting by a comparison that is an order on the rows at hand *)

Section order.
Context {A : Type} (P : A → Prop).

Record order_on (c : A → A → Z) : Prop := {
  order_flip : ∀ a b, P a → P b → c a b = - c b a;
  order_trans : ∀ a b d, P a → P b → P d → c a b ≤ 0 → c b d ≤ 0 → c a d ≤ 0;
}.

Lemma sort_on c l : order_on c → Forall P l → StronglySorted (λ a b, c a b ≤ 0) (js_sort c l).
Proof.
  intros [Hf Ht]. unfold js_sort. induction 1 as [|x l Hx Hl IH]; cbn [foldr]; [constructor|].
  assert (Forall P (foldr (js_insert c) [] l)) as Hs by (change (Forall P (js_sort c l)); by rewrite js_sort_perm). clear Hl.
  induction IH as [|y k Hk IHk Hy]; cbn [js_insert]; [by repeat constructor|]. apply Forall_cons in Hs as [HPy HPk].
  destruct (bool_decide_reflect (c x y ≤ 0)) as [Hxy|Hxy].
  - constructor; [by constructor|]. constructor; [done|]. rewrite Forall_forall in Hy, HPk |- *. intros z Hz. apply (Ht x y z); try done; [by apply HPk|by apply Hy].
  - constructor; [by apply IHk|]. rewrite js_insert_perm. constructor; [|done]. rewrite (Hf y x) by done. lia.
Qed.

(** First by one comparison, then by another. *)
Lemma order_lex c d : order_on c → order_on d → order_on (λ a b, if bool_decide (c a b = 0) then d a b else c a b).
Proof.
  intros [Fc Tc] [Fd Td]. split.
  - intros a b Ha Hb. pose proof (Fc a b Ha Hb). destruct (bool_decide_reflect (c a b = 0)), (bool_decide_reflect (c b a = 0)); try lia. by apply Fd.
  - intros a b e Ha Hb He.
    pose proof (Fc a b Ha Hb) as F1. pose proof (Fc b e Hb He) as F2. pose proof (Fc a e Ha He) as F3.
    pose proof (Tc a b e Ha Hb He) as T1. pose proof (Tc b e a Hb He Ha) as T2. pose proof (Tc e a b He Ha Hb) as T3. pose proof (Td a b e Ha Hb He) as T4.
    destruct (bool_decide_reflect (c a b = 0)), (bool_decide_reflect (c b e = 0)), (bool_decide_reflect (c a e = 0)); lia.
Qed.

Lemma order_ext c d : (∀ a b, d a b = c a b) → order_on c → order_on d.
Proof. intros E [F T]. split; intros *; rewrite !E; [apply F|apply T]. Qed.
End order.

Section facts.
Context (number_of : string → option Z) (columns : list Column).
Notation lt_ := (cell_lt number_of).

(** The rows have texts, or integers, in the columns they are sorted by. *)
Definition same_kind (text : bool) (c : Cell) : Prop := match c with Text _ => text = true | Number _ => text = false | _ => False end.

Definition typed (kind : string → bool) (ss : list SortConfig) (r : Row) : Prop :=
  ∀ s c k, s ∈ ss → find_column columns (s_columnId s) = Some c → accessorKey c = Key k → same_kind (kind k) (cell k r).

Lemma cell_lt_asym t x y : same_kind t x → same_kind t y → lt_ x y = true → lt_ y x = false.
Proof.
  destruct x as [a|a|xa| |], y as [b|b|xb| |]; cbn; try done; try congruence; intros _ _; rewrite bool_decide_eq_true, bool_decide_eq_false; [|lia].
  intros Hab Hba. destruct (total (≤)%string a b); contradiction.
Qed.

Lemma cell_lt_trans t x y z : same_kind t x → same_kind t y → same_kind t z → lt_ y x = false → lt_ z y = false → lt_ z x = false.
Proof.
  destruct x as [a|a|xa| |], y as [b|b|xb| |], z as [d|d|xd| |]; cbn; try done; try congruence; intros _ _ _; rewrite !bool_decide_eq_false; [|lia].
  intros H1 H2 H3. apply H1. intros Hba. apply H2. intros Hdb. apply H3. by transitivity b || idtac.
Qed.

Definition by_column (k : string) (d : Direction) (a b : Row) : Z :=
  if lt_ (cell k a) (cell k b) then (if bool_decide (d = asc) then -1 else 1)
  else if lt_ (cell k b) (cell k a) then (if bool_decide (d = asc) then 1 else -1) else 0.

Lemma by_column_order t k d : order_on (λ r, same_kind t (cell k r)) (by_column k d).
Proof.
  split.
  - intros a b Ha Hb. unfold by_column. pose proof (cell_lt_asym t _ _ Ha Hb). pose proof (cell_lt_asym t _ _ Hb Ha).
    destruct (lt_ (cell k a) (cell k b)), (lt_ (cell k b) (cell k a)), (bool_decide (d = asc)); try done; intuition congruence.
  - intros a b e Ha Hb He. unfold by_column.
    pose proof (cell_lt_asym t _ _ Ha Hb). pose proof (cell_lt_asym t _ _ Hb He). pose proof (cell_lt_asym t _ _ Ha He).
    pose proof (cell_lt_asym t _ _ Hb Ha). pose proof (cell_lt_asym t _ _ He Hb). pose proof (cell_lt_asym t _ _ He Ha).
    pose proof (cell_lt_trans t _ _ _ Ha Hb He). pose proof (cell_lt_trans t _ _ _ He Hb Ha).
    destruct (bool_decide (d = asc)), (lt_ (cell k a) (cell k b)), (lt_ (cell k b) (cell k a)), (lt_ (cell k b) (cell k e)), (lt_ (cell k e) (cell k b)),
      (lt_ (cell k a) (cell k e)), (lt_ (cell k e) (cell k a)); intuition (congruence || lia).
Qed.

Lemma compare_rows_order kind ss : order_on (typed kind ss) (compare_rows number_of columns ss).
Proof.
  induction ss as [|s ss IH]; [split; cbn; intros; lia|].
  assert (order_on (typed kind (s :: ss)) (compare_rows number_of columns ss)) as IH'.
  { destruct IH as [F T]. assert (∀ r, typed kind (s :: ss) r → typed kind ss r) as Hsub by (intros r Hr s' c k Hs; apply (Hr s'); by right).
    split; intros *; [intros; apply F; by apply Hsub|intros Ha Hb Hd; apply T; by apply Hsub]. }
  destruct (find_column columns (s_columnId s)) as [[i [k|] h]|] eqn:Ef; cbn [compare_rows]; rewrite ?Ef; try exact IH'.
  apply (order_ext _ (λ a b, if bool_decide (by_column k (direction s) a b = 0) then compare_rows number_of columns ss a b else by_column k (direction s) a b)).
  { intros a b. unfold by_column. destruct (lt_ (cell k a) (cell k b)), (lt_ (cell k b) (cell k a)), (bool_decide (direction s = asc)); done. }
  apply order_lex; [|done]. destruct (by_column_order (kind k) k (direction s)) as [F T].
  assert (∀ r, typed kind (s :: ss) r → same_kind (kind k) (cell k r)) as Hk by (intros r Hr; eapply (Hr s); [by left|exact Ef|done]).
  split; intros *; [intros; apply F; by apply Hk|intros Ha Hb Hd; apply T; by apply Hk].
Qed.
End facts.

(** ** The rows of a table *)

Section view.
Context (number_of : string → option Z) (columns : list Column) (pageSize : Z).
Implicit Types (s : DataTableState).

(** A row is wanted when the search and every filter let it through. *)
Definition wanted s (r : Row) : bool :=
  (bool_decide (globalSearch s = "") || matches_search columns (lowercase (globalSearch s)) r) && forallb (λ f, matches_filter columns f r) (filters s).

Lemma filter_filter {A} (f g : A → bool) l : List.filter g (List.filter f l) = List.filter (λ x, f x && g x) l.
Proof. induction l as [|x l IH]; [done|]. cbn [List.filter]. destruct (f x); cbn [List.filter andb]; [destruct (g x)|]; by rewrite IH. Qed.

Lemma filter_const {A} (l : list A) : List.filter (λ _, true) l = l.
Proof. induction l as [|x l IH]; [done|]. cbn. by rewrite IH. Qed.

Lemma filter_ext {A} (f g : A → bool) l : (∀ x, f x = g x) → List.filter f l = List.filter g l.
Proof. intros E. induction l as [|x l IH]; [done|]. cbn [List.filter]. by rewrite E, IH. Qed.

Lemma fold_filters p fs data :
  foldl (λ l f, List.filter (matches_filter columns f) l) (List.filter p data) fs = List.filter (λ r, p r && forallb (λ f, matches_filter columns f r) fs) data.
Proof.
  revert p. induction fs as [|f fs IH]; intros p; cbn [foldl forallb]; [apply filter_ext; intros x; by rewrite andb_true_r|].
  rewrite filter_filter, IH. apply filter_ext. intros x. by rewrite andb_assoc.
Qed.

Lemma filteredData_wanted data s : filteredData columns data s = List.filter (wanted s) data.
Proof.
  unfold filteredData, wanted. rewrite <- fold_filters. f_equal. destruct (bool_decide (globalSearch s = "")); cbn [orb]; [by rewrite filter_const|done].
Qed.

Lemma sortedData_perm data s : sortedData number_of columns data s ≡ₚ List.filter (wanted s) data.
Proof. unfold sortedData. rewrite filteredData_wanted. destruct (sorts s); [done|]. apply js_sort_perm. Qed.

Lemma pages_enough (n : nat) : 0 < pageSize → (n ≤ Z.to_nat (pages (Z.of_nat n) pageSize) * Z.to_nat pageSize)%nat.
Proof.
  intros Hp. unfold pages. pose proof (Z.div_mod (- Z.of_nat n) pageSize ltac:(lia)). pose proof (Z.mod_pos_bound (- Z.of_nat n) pageSize Hp). nia.
Qed.

(** The table shows the wanted rows and no others, each as often as the data has
    it; they are sorted by the chosen columns, the first counting most; and the
    pages from the first to the last, put together, are all of them.  The columns
    sorted by hold texts only or integers only. *)
Theorem table_spec kind data s :
  0 < pageSize → Forall (typed columns kind (sorts s)) data →
  let l := sortedData number_of columns data s in
  l ≡ₚ List.filter (wanted s) data ∧ StronglySorted (λ a b, compare_rows number_of columns (sorts s) a b ≤ 0) l ∧
  concat ((λ k : nat, paginatedData number_of columns pageSize data (setPage (Z.of_nat k + 1) (Z.of_nat k + 1) s)) <$>
            seq 0 (Z.to_nat (totalPages number_of columns pageSize data s))) = l ∧
  totalItems (pagination number_of columns pageSize data s) = Z.of_nat (length l).
Proof.
  intros Hp Ht. cbn zeta. split; [apply sortedData_perm|]. split; [|split; [|done]].
  - unfold sortedData. rewrite filteredData_wanted. destruct (sorts s) as [|x ss] eqn:E.
    { cbn [compare_rows]. induction (List.filter _ _); constructor; [done|]. apply Forall_forall. done. }
    eapply sort_on; [apply (compare_rows_order number_of columns kind)|]. rewrite Forall_forall in *. intros r [_ Hr]%elem_of_bfilter. by apply Ht.
  - transitivity (concat ((λ k, take (Z.to_nat pageSize) (drop (k * Z.to_nat pageSize) (sortedData number_of columns data s))) <$>
      seq 0 (Z.to_nat (totalPages number_of columns pageSize data s)))).
    + f_equal. apply list_fmap_ext. intros ? k _. unfold paginatedData. cbn [setPage page].
      change (sortedData number_of columns data (setPage _ _ s)) with (sortedData number_of columns data s).
      replace ((Z.max 1 (Z.min (Z.of_nat k + 1) (Z.of_nat k + 1)) - 1) * pageSize) with (Z.of_nat (k * Z.to_nat pageSize)) by (rewrite Nat2Z.inj_mul, Z2Nat.id by lia; f_equal; lia).
      replace (Z.of_nat (k * Z.to_nat pageSize) + pageSize) with (Z.of_nat (k * Z.to_nat pageSize) + Z.of_nat (Z.to_nat pageSize)) by lia.
      apply js_slice_page.
    + rewrite pages_take. apply take_ge. by apply pages_enough.
Qed.

(** ** The page stays in range *)

Lemma total_same data s s' : filters s = filters s' → globalSearch s = globalSearch s' →
  totalPages number_of columns pageSize data s = totalPages number_of columns pageSize data s'.
Proof.
  intros Hf Hg. unfold totalPages. do 2 f_equal. rewrite !sortedData_perm. f_equal. apply filter_ext. intros r. unfold wanted. by rewrite Hf, Hg.
Qed.

(** A call and the render that follows it. *)
Definition settled_step (data : list Row) (h : Hook) (e : Event) : Hook := step number_of columns pageSize (step number_of columns pageSize h e) (Rendered data).

Definition in_range (h : Hook) : Prop := 1 ≤ page (state h) ≤ seen h.

(** While the rows stay the same and every call is rendered, the page shown is
    always one of the pages there are. *)
Theorem page_in_range defaultSorts data events :
  in_range (foldl (settled_step data) (mount number_of columns pageSize defaultSorts data) events).
Proof.
  assert (∀ es h, h = render number_of columns pageSize data (state h) → in_range h → in_range (foldl (settled_step data) h es)) as Hind; [|apply Hind; [done|]].
  - intros es. induction es as [|e es IH]; intros h Hh Hr; [done|]. cbn [foldl]. apply IH; [done|].
    assert (seen h = totalPages number_of columns pageSize data (state h)) as Hseen by (by rewrite Hh).
    assert (∀ s, 1 ≤ totalPages number_of columns pageSize data s) as H1 by (intros s; unfold totalPages, pages; lia).
    assert (∀ s, in_range h → filters (state h) = filters s → globalSearch (state h) = globalSearch s → 1 ≤ page s ≤ seen h → 1 ≤ page s ≤ totalPages number_of columns pageSize data s) as Hkeep.
    { intros s _ Hf Hg Hpg. rewrite <- (total_same data (state h) s), <- Hseen by done. done. }
    destruct e; unfold settled_step, in_range in *; cbn [step render state seen];
      try (apply Hkeep; done); try (apply (Hkeep (setPage (seen h) _ (state h))); cbn; [done..|lia]); try (cbn [setFilters setGlobalSearch addFilter removeFilter resetState initial page]; split; [lia|apply H1]).
  - unfold in_range, mount, render. cbn. split; [done|]. unfold totalPages, pages. lia.
Qed.

(** ** Toggling *)

Lemma find_absent c (ss : list SortConfig) : c ∉ s_columnId <$> ss → List.find (λ x, bool_decide (s_columnId x = c)) ss = None.
Proof.
  induction ss as [|x ss IH]; [done|]. rewrite fmap_cons, not_elem_of_cons. intros [Hx Hs]. cbn [List.find]. rewrite bool_decide_false by done. by apply IH.
Qed.

Lemma find_last c d (ss : list SortConfig) : c ∉ s_columnId <$> ss → List.find (λ x, bool_decide (s_columnId x = c)) (ss ++ [mkSort c d]) = Some (mkSort c d).
Proof.
  induction ss as [|x ss IH]; cbn [app List.find s_columnId]; [by rewrite bool_decide_true|]. rewrite fmap_cons, not_elem_of_cons. intros [Hx Hs].
  rewrite bool_decide_false by done. by apply IH.
Qed.

(** A click on a column sorts by it after the others, the next one turns the
    order round, and the third leaves the sorting as it was before. *)
Theorem toggle_cycle c ss :
  c ∉ s_columnId <$> ss →
  toggled c ss = ss ++ [mkSort c asc] ∧ toggled c (toggled c ss) = ss ++ [mkSort c desc] ∧ toggled c (toggled c (toggled c ss)) = ss.
Proof.
  intros Hc. assert (toggled c ss = ss ++ [mkSort c asc]) as E1 by (unfold toggled; by rewrite find_absent).
  assert (toggled c (ss ++ [mkSort c asc]) = ss ++ [mkSort c desc]) as E2.
  { unfold toggled. rewrite find_last by done. cbn [direction]. rewrite bool_decide_true, fmap_app by done. cbn [fmap list_fmap s_columnId]. rewrite bool_decide_true by done.
    f_equal. clear -Hc. induction ss as [|x ss IH]; [done|]. rewrite fmap_cons, not_elem_of_cons in Hc. destruct Hc as [Hx Hs]. rewrite fmap_cons, bool_decide_false by done. by rewrite IH. }
  assert (toggled c (ss ++ [mkSort c desc]) = ss) as E3.
  { unfold toggled. rewrite find_last by done. cbn [direction]. rewrite bool_decide_false, List.filter_app by done. cbn [List.filter s_columnId]. rewrite bool_decide_true by done. cbn [negb].
    rewrite app_nil_r. clear -Hc. induction ss as [|x ss IH]; [done|]. rewrite fmap_cons, not_elem_of_cons in Hc. destruct Hc as [Hx Hs]. cbn [List.filter].
    rewrite bool_decide_false by done. cbn [negb]. by rewrite IH. }
  by rewrite E1, E2, E3.
Qed.
End view.

(** ** Pages of a query: [usePaginatedQuery] *)

Record PaginatedResponse (T : Type) := mkPages { pr_data : list T; pr_total : Z; pr_page : Z; pr_pageSize : Z; pr_totalPages : Z }.
Arguments mkPages {T}. Arguments pr_data {T}. Arguments pr_total {T}. Arguments pr_page {T}. Arguments pr_pageSize {T}. Arguments pr_totalPages {T}.

(** A plain array is one page. *)
Definition normalise {T} (result : PaginatedResponse T + list T) (pg size : Z) : PaginatedResponse T :=
  match result with inl r => r | inr l => mkPages l (Z.of_nat (length l)) pg size 1 end.

Section pager.
Context {T : Type} (initialPage : Z) (prefetchNext : bool).

(** The page, and what the last render got from the cache of queries. *)
Record Pager := mkPager { pg_page : Z; query_data : option (PaginatedResponse T) }.

Definition pg_totalPages (p : Pager) : Z := match query_data p with Some r => pr_totalPages r | None => 1 end.

Definition goToNext (p : Pager) : Pager := mkPager (Z.min (pg_page p + 1) (pg_totalPages p)) (query_data p).
Definition goToPrev (p : Pager) : Pager := mkPager (Z.max (pg_page p - 1) 1) (query_data p).
Definition goToPage (target : Z) (p : Pager) : Pager := mkPager (Z.max 1 (Z.min target (pg_totalPages p))) (query_data p).
Definition pg_reset (p : Pager) : Pager := mkPager initialPage (query_data p).

(** The page a render asks for in advance. *)
Definition prefetch (p : Pager) : option Z :=
  if negb prefetchNext || bool_decide (query_data p = None) || bool_decide (pg_totalPages p ≤ pg_page p) then None else Some (pg_page p + 1).

Definition isFirstPage (p : Pager) : bool := bool_decide (pg_page p = 1).
Definition isLastPage (p : Pager) : bool := bool_decide (pg_totalPages p ≤ pg_page p).
Definition hasNextPage (p : Pager) : bool := negb (isLastPage p).
Definition hasPrevPage (p : Pager) : bool := negb (isFirstPage p).

Inductive PagerEvent := GoToNext | GoToPrev | GoToPage (target : Z) | Reset | Answered (r : option (PaginatedResponse T)).

Definition pager_step (p : Pager) (e : PagerEvent) : Pager :=
  match e with
  | GoToNext => goToNext p | GoToPrev => goToPrev p | GoToPage t => goToPage t p | Reset => pg_reset p
  | Answered r => mkPager (pg_page p) r
  end.

Definition answers (n : Z) (e : PagerEvent) : Prop := match e with Answered (Some r) => pr_totalPages r = n | Answered None => False | _ => True end.

(** Once a query of [n] pages has answered, the page stays among them; the next
    one, when there is one, is the page asked for in advance, and going on and
    back returns to where one was. *)
Theorem pager_in_range n r events :
  1 ≤ initialPage ≤ n → pr_totalPages r = n → Forall (answers n) events →
  let p := foldl pager_step (mkPager initialPage (Some r)) events in
  1 ≤ pg_page p ≤ n ∧
  (hasNextPage p → pg_page (goToNext p) = pg_page p + 1 ∧ prefetch p = (if prefetchNext then Some (pg_page (goToNext p)) else None) ∧ pg_page (goToPrev (goToNext p)) = pg_page p) ∧
  (hasPrevPage p → pg_page (goToPrev p) = pg_page p - 1).
Proof.
  intros Hi Hr He. cbn zeta. set (p := foldl _ _ _).
  assert (1 ≤ pg_page p ≤ n ∧ ∃ x, query_data p = Some x ∧ pr_totalPages x = n) as (Hp & x & Ex & Hx).
  { unfold p. clear p. assert (∀ q, 1 ≤ pg_page q ≤ n → (∃ x, query_data q = Some x ∧ pr_totalPages x = n) →
      1 ≤ pg_page (foldl pager_step q events) ≤ n ∧ ∃ x, query_data (foldl pager_step q events) = Some x ∧ pr_totalPages x = n) as Hind; [|apply Hind; eauto].
    induction He as [|e es He _ IH]; intros q Hq (x & Ex & Hx); [eauto|]. cbn [foldl].
    assert (pg_totalPages q = n) as Ht by (unfold pg_totalPages; by rewrite Ex).
    destruct e as [| |t| |[y|]]; cbn [pager_step answers] in *; try done; apply IH; cbn [goToNext goToPrev goToPage pg_reset pg_page query_data]; rewrite ?Ht; try lia; eauto. }
  assert (pg_totalPages p = n) as Ht by (unfold pg_totalPages; by rewrite Ex). split; [done|].
  unfold hasNextPage, hasPrevPage, isLastPage, isFirstPage, prefetch. rewrite Ht. split.
  - intros Hn%negb_True.
    destruct (bool_decide_reflect (n ≤ pg_page p)) as [|Hlt]; [done|]. cbn [goToNext goToPrev pg_page]. rewrite Ht.
    rewrite (bool_decide_false (query_data p = None)) by (by rewrite Ex). split_and!; [lia| |lia]. destruct prefetchNext; cbn [negb orb]; [f_equal; lia|done].
  - intros Hn%negb_True. destruct (bool_decide_reflect (pg_page p = 1)); [done|]. cbn [goToPrev pg_page]. lia.
Qed.
End pager.

(** ** Runs *)

Module Demo.
Definition columns : list Column := [mkColumn "name" (Key "name") false; mkColumn "elo" (Key "elo") false; mkColumn "actions" Render false; mkColumn "id" (Key "id") true].
Definition player (n : string) (e : Z) : Row := [("name", Text n); ("elo", Number e); ("id", Text ("p" +:+ n))].
Definition data : list Row := [player "Bea" 1200; player "ann" 1500; player "Cy" 1200; player "dan" 900; player "Abe" 1500].
Definition numbers (s : string) : option Z := None.
Definition name_of (r : Row) : string := cell_text (cell "name" r).
Definition by_elo : DataTableState := mkState [mkSort "elo" desc; mkSort "name" asc] [mkFilter "name" "a" contains] "" [] 1.
Definition kind (k : string) : bool := bool_decide (k = "name").
End Demo.

Lemma table_spec_witness :
  let l := sortedData Demo.numbers Demo.columns Demo.data Demo.by_elo in
  Demo.name_of <$> l = ["Abe"; "ann"; "Bea"; "dan"] ∧
  StronglySorted (λ a b, compare_rows Demo.numbers Demo.columns (sorts Demo.by_elo) a b ≤ 0) l.
Proof.
  split; [vm_compute; reflexivity|]. apply (table_spec Demo.numbers Demo.columns 2 Demo.kind Demo.data Demo.by_elo); [lia|].
  unfold Demo.data. repeat constructor; intros s c k [->|[->|[]%not_elem_of_nil]%elem_of_cons]%elem_of_cons [= <-] [= <-]; vm_compute; reflexivity.
Defined.

Lemma toggle_cycle_witness : toggled "elo" (toggled "elo" (toggled "elo" [mkSort "name" asc])) = [mkSort "name" asc].
Proof. apply (toggle_cycle "elo" [mkSort "name" asc]). set_solver. Defined.

Lemma pager_in_range_witness :
  pg_page (foldl (pager_step 1) (mkPager 1 (Some (mkPages [1] 3 1 1 3))) [GoToNext; GoToPage 9; GoToNext; GoToPrev]) = 2 ∧
  1 ≤ pg_page (foldl (pager_step 1) (mkPager 1 (Some (mkPages [1] 3 1 1 3))) [GoToNext; GoToPage 9; GoToNext; GoToPrev]) ≤ 3.
Proof.
  split; [reflexivity|]. apply (pager_in_range 1 true 3 (mkPages [1] 3 1 1 3) [GoToNext; GoToPage 9; GoToNext; GoToPrev]); [lia|reflexivity|repeat constructor].
Defined.

(** When rows disappear the page is not moved: an empty page is shown. *)
Example page_beyond_the_end :
  let h := mount Demo.numbers Demo.columns 2 [] Demo.data in
  let h := foldl (step Demo.numbers Demo.columns 2) h [SetPage 3; Rendered (take 2 Demo.data)] in
  page (state h) = 3 ∧ seen h = 1 ∧ paginatedData Demo.numbers Demo.columns 2 (rows h) (state h) = [].
Proof. vm_compute. done. Qed.

(** Three of the operators have no case: such a filter filters nothing. *)
Example number_filters_ignored :
  (λ op, length (filteredData Demo.columns Demo.data (addFilter (mkFilter "elo" "1000" op) (initial Demo.columns [])))) <$> [gt; lt; between] = [5; 5; 5]%nat.
Proof. vm_compute. reflexivity. Qed.

(** A filter on a column that renders itself compares with the empty text. *)
Example rendered_column_matches_nothing :
  filteredData Demo.columns Demo.data (addFilter (mkFilter "actions" "edit" contains) (initial Demo.columns [])) = [].
Proof. vm_compute. reflexivity. Qed.

(** Before the first answer there counts one page: going on leads back to it. *)
Example next_leads_back : pg_page (goToNext (mkPager (T := Z) 3 None)) = 1.
Proof. reflexivity. Qed.
