(* ===== verification/NotificationCenter.v ===== *)
(** * Notifications in the browser: [frontend/src/contexts/NotificationContext.tsx]
    and [frontend/src/types/notification.ts]

    The notification center of each tab of a browser, the storage the tabs share,
    the channel between them and the socket to the server.  Every change is
    rendered before the next event, so the references that follow the state are the
    state.  Writing to the storage succeeds; what the server answers, the ids that
    are generated and the instants are inputs; calls of the server are recorded. *)

From Stdlib Require Import Ascii.
From stdpp Require Import prelude gmap strings list pretty sorting.
From S2P Require Import Prelude JsText Json JsonParse.

(** ** Data *)

Definition MAX_LOCAL_NOTIFICATIONS : nat := 50.
Definition MAX_TOASTS : Z := 4.
Definition NOTIFICATIONS_PAGE_SIZE : Z := 20.

(** The type of a notification is what the server sends; five are known. *)
Record PersistentNotification := mkNote {
  n_id : string; n_type : string; n_title : string; n_message : string; n_link : option string; n_linkLabel : option string; n_read : bool;
  n_createdAt : string; n_metadata : json }.

Record ToastNotification := mkToast {
  t_id : string; t_type : string; t_title : string; t_message : option string; t_duration : Z; t_createdAt : Z; t_position : option string;
  t_action : option string; t_showProgress : option bool }.

Notation Preferences := (jsmap bool).

Definition DEFAULT_PREFERENCES : Preferences := [("info", true); ("success", true); ("warning", true); ("error", true); ("match", true)].

(** [preferences[type]], which is undefined for a type that is not known *)
Definition allowed (type : string) (p : Preferences) : bool := default false (map_get type p).

(** What other tabs are told. *)
Inductive Message := Arrived (n : PersistentNotification) | Read (i : string) | ReadAll | Removed (i : string).

Inductive ApiCall :=
| MarkNotificationRead (i : string) | MarkAllNotificationsRead | DeleteNotification (i : string)
| CreateNotification (type title message : string) (link linkLabel : option string).

(** [localStorage]; what is missing or cannot be read is [None]. *)
Record Storage := mkStorage { st_notes : option (list PersistentNotification); st_preferences : option Preferences; st_muted : bool }.

(** A timer of a toast. *)
Record Timer := mkTimer { tm_serial : nat; tm_toast : string; tm_due : Z }.

#[export] Instance Timer_eq_dec : EqDecision Timer.
Proof. solve_decision. Defined.

Record Tab := mkTab {
  signedIn : bool; notes : list PersistentNotification; toasts : list ToastNotification; timers : list Timer; toastTimeouts : jsmap nat; serial : nat;
  preferences : Preferences; alertsMuted : bool; hasMoreNotifications : bool }.

(** What an event of a tab changes: the tab, the storage, and what it posts,
    asks of the server and announces. *)
Record View := mkView { tab : Tab; storage : Storage; posted : list Message; calls : list ApiCall; alerts : nat }.

(** ** Storage *)

Definition loadLocalNotifications (s : Storage) : list PersistentNotification := take MAX_LOCAL_NOTIFICATIONS (default [] (st_notes s)).

Definition saveLocalNotifications (l : list PersistentNotification) (s : Storage) : Storage :=
  mkStorage (Some (take MAX_LOCAL_NOTIFICATIONS l)) (st_preferences s) (st_muted s).

Definition merge_preferences (a b : Preferences) : Preferences := foldl (λ m kv, map_set kv.1 kv.2 m) a b.

Definition loadPreferences (s : Storage) : Preferences :=
  match st_preferences s with Some p => merge_preferences DEFAULT_PREFERENCES p | None => DEFAULT_PREFERENCES end.

Definition savePreferences (p : Preferences) (s : Storage) : Storage := mkStorage (st_notes s) (Some p) (st_muted s).
Definition loadMuted (s : Storage) : bool := st_muted s.
Definition saveMuted (b : bool) (s : Storage) : Storage := mkStorage (st_notes s) (st_preferences s) b.

(** A tab that opens. *)
Definition open_tab (signed : bool) (s : Storage) : Tab := mkTab signed (loadLocalNotifications s) [] [] [] 0 (loadPreferences s) (loadMuted s) true.

(** ** Changes of a view *)

Definition set_tab (t : Tab) (v : View) : View := mkView t (storage v) (posted v) (calls v) (alerts v).
Definition set_storage (s : Storage) (v : View) : View := mkView (tab v) s (posted v) (calls v) (alerts v).
Definition broadcast (m : Message) (v : View) : View := mkView (tab v) (storage v) (posted v ++ [m]) (calls v) (alerts v).
Definition call_api (c : ApiCall) (v : View) : View :=
  if signedIn (tab v) then mkView (tab v) (storage v) (posted v) (calls v ++ [c]) (alerts v) else v.
Definition alertUser (v : View) : View := mkView (tab v) (storage v) (posted v) (calls v) (S (alerts v)).

Definition with_notes (l : list PersistentNotification) (t : Tab) : Tab :=
  mkTab (signedIn t) l (toasts t) (timers t) (toastTimeouts t) (serial t) (preferences t) (alertsMuted t) (hasMoreNotifications t).
Definition with_toasts (l : list ToastNotification) (t : Tab) : Tab :=
  mkTab (signedIn t) (notes t) l (timers t) (toastTimeouts t) (serial t) (preferences t) (alertsMuted t) (hasMoreNotifications t).
Definition with_timers (l : list Timer) (m : jsmap nat) (n : nat) (t : Tab) : Tab :=
  mkTab (signedIn t) (notes t) (toasts t) l m n (preferences t) (alertsMuted t) (hasMoreNotifications t).
Definition with_preferences (p : Preferences) (t : Tab) : Tab :=
  mkTab (signedIn t) (notes t) (toasts t) (timers t) (toastTimeouts t) (serial t) p (alertsMuted t) (hasMoreNotifications t).
Definition with_muted (b : bool) (t : Tab) : Tab :=
  mkTab (signedIn t) (notes t) (toasts t) (timers t) (toastTimeouts t) (serial t) (preferences t) b (hasMoreNotifications t).
Definition with_more (b : bool) (t : Tab) : Tab :=
  mkTab (signedIn t) (notes t) (toasts t) (timers t) (toastTimeouts t) (serial t) (preferences t) (alertsMuted t) b.

(** ** Notifications *)

Definition unreadCount (t : Tab) : Z := Z.of_nat (length (List.filter (λ n, negb (n_read n)) (notes t))).

Definition as_read (n : PersistentNotification) : PersistentNotification :=
  mkNote (n_id n) (n_type n) (n_title n) (n_message n) (n_link n) (n_linkLabel n) true (n_createdAt n) (n_metadata n).

Definition read_one (i : string) (l : list PersistentNotification) : list PersistentNotification :=
  (λ n, if bool_decide (n_id n = i) then as_read n else n) <$> l.
Definition read_all (l : list PersistentNotification) : list PersistentNotification := as_read <$> l.
Definition remove_one (i : string) (l : list PersistentNotification) : list PersistentNotification :=
  List.filter (λ n, negb (bool_decide (n_id n = i))) l.
Definition put_first (n : PersistentNotification) (l : list PersistentNotification) : list PersistentNotification := n :: remove_one (n_id n) l.

(** New notifications of a further page. *)
Definition append_new (prev mapped : list PersistentNotification) : list PersistentNotification :=
  prev ++ List.filter (λ n, negb (existsb (λ p, bool_decide (n_id p = n_id n)) prev)) mapped.

(** The limit asked for when none is given. *)
Definition refresh_limit (limit : option Z) (t : Tab) : Z := default (Z.max NOTIFICATIONS_PAGE_SIZE (Z.of_nat (length (notes t)))) limit.

(** A refresh that has been answered: the notifications, or an error. *)
Definition refreshNotifications (append : bool) (limit : Z) (answer : result (list PersistentNotification)) (v : View) : View :=
  let t := tab v in
  if negb (signedIn t) then set_tab (with_more false (with_notes (loadLocalNotifications (storage v)) t)) v
  else
    match answer with
    | Ok mapped =>
        let next := if append then append_new (notes t) mapped else mapped in
        let t := with_more (bool_decide (limit ≤ Z.of_nat (length mapped))) t in
        set_storage (saveLocalNotifications next (storage v)) (set_tab (with_notes next t) v)
    | Throw _ => if append then v else set_tab (with_notes (loadLocalNotifications (storage v)) t) v
    end.

Definition loadMoreNotifications (answer : result (list PersistentNotification)) (v : View) : View :=
  refreshNotifications true NOTIFICATIONS_PAGE_SIZE answer v.

(** A change of the notifications that is saved. *)
Definition change_notes (f : list PersistentNotification → list PersistentNotification) (c : ApiCall) (v : View) : View :=
  let updated := f (notes (tab v)) in
  set_storage (saveLocalNotifications updated (storage v)) (set_tab (with_notes updated (tab v)) (call_api c v)).

Definition markAsRead (i : string) (v : View) : View := change_notes (read_one i) (MarkNotificationRead i) (broadcast (Read i) v).
Definition markAllAsRead (v : View) : View := change_notes read_all MarkAllNotificationsRead (broadcast ReadAll v).
Definition removeNotification (i : string) (v : View) : View := change_notes (remove_one i) (DeleteNotification i) (broadcast (Removed i) v).

(** ** Toasts *)

Record ToastParams := mkParams {
  p_id : option string; p_type : string; p_title : string; p_message : option string; p_duration : option Z; p_position : option string;
  p_action : option string; p_showProgress : option bool }.

Definition add_timer (i : string) (due : Z) (t : Tab) : Tab :=
  with_timers (timers t ++ [mkTimer (serial t) i due]) (map_set i (serial t) (toastTimeouts t)) (S (serial t)) t.

Definition addToast (now : Z) (newId : string) (p : ToastParams) (t : Tab) : Tab :=
  let i := default newId (p_id p) in
  let d := default 5000 (p_duration p) in
  let full := mkToast i (p_type p) (p_title p) (p_message p) d now (p_position p) (p_action p) (p_showProgress p) in
  let t := with_toasts (js_slice_last MAX_TOASTS (List.filter (λ x, negb (bool_decide (t_id x = i))) (toasts t) ++ [full])) t in
  if bool_decide (0 < d) then add_timer i (now + d) t else t.

Definition without_toast (i : string) (t : Tab) : Tab := with_toasts (List.filter (λ x, negb (bool_decide (t_id x = i))) (toasts t)) t.

Definition clear_timer (n : nat) (l : list Timer) : list Timer := List.filter (λ x, negb (bool_decide (tm_serial x = n))) l.

Definition removeToast (i : string) (t : Tab) : Tab :=
  let t := match map_get i (toastTimeouts t) with
           | Some n => with_timers (clear_timer n (timers t)) (map_delete i (toastTimeouts t)) (serial t) t
           | None => t
           end in
  without_toast i t.

Definition clearToasts (t : Tab) : Tab :=
  with_toasts [] (with_timers (foldl (λ l n, clear_timer n l) (timers t) (map_values (toastTimeouts t))) [] (serial t) t).

(** A timer that fires. *)
Definition toast_timeout (x : Timer) (t : Tab) : Tab :=
  let t := with_timers (clear_timer (tm_serial x) (timers t)) (map_delete (tm_toast x) (toastTimeouts t)) (serial t) t in
  without_toast (tm_toast x) t.

(** ** Notifying *)

Record NotifyParams := mkNotify {
  y_type : option string; y_title : string; y_message : option string; y_link : option string; y_linkLabel : option string;
  y_persistent : option bool; y_toast : option bool; y_toastDuration : option Z; y_toastPosition : option string; y_toastAction : option string;
  y_showProgress : option bool }.

Definition notify (now : Z) (toastId noteId : string) (y : NotifyParams) (v : View) : View :=
  let type := default "info" (y_type y) in
  if negb (allowed type (preferences (tab v))) then v
  else
    let v :=
      if default true (y_toast y) then
        set_tab (addToast now toastId (mkParams None type (y_title y) (y_message y) (Some (default 5000 (y_toastDuration y))) (y_toastPosition y)
                                          (y_toastAction y) (y_showProgress y)) (tab v)) v
      else v in
    if default false (y_persistent y) then
      let n := mkNote noteId type (y_title y) (default "" (y_message y)) (y_link y) (y_linkLabel y) false (toISOString now) JUndefined in
      change_notes (λ prev, n :: prev) (CreateNotification type (y_title y) (default "" (y_message y)) (y_link y) (y_linkLabel y)) v
    else v.

(** ** Preferences *)

Definition updatePreference (type : string) (enabled : bool) (v : View) : View :=
  let next := map_set type enabled (preferences (tab v)) in
  set_storage (savePreferences next (storage v)) (set_tab (with_preferences next (tab v)) v).

Definition setAllPreferences (enabled : bool) (v : View) : View :=
  let next := (λ k, (k, enabled)) <$> map_keys DEFAULT_PREFERENCES in
  set_storage (savePreferences next (storage v)) (set_tab (with_preferences next (tab v)) v).

Definition toggleAlertsMuted (v : View) : View :=
  let next := negb (alertsMuted (tab v)) in
  set_storage (saveMuted next (storage v)) (set_tab (with_muted next (tab v)) v).

(** ** Arrivals *)

Definition applyIncomingNotification (n : PersistentNotification) (v : View) : View :=
  let next := put_first n (notes (tab v)) in
  let v := if signedIn (tab v) then v else set_storage (saveLocalNotifications next (storage v)) v in
  set_tab (with_notes next (tab v)) v.

(** [notification.metadata?.toast !== false] *)
Definition allow_toast (n : PersistentNotification) : bool := match json_prop "toast" (n_metadata n) with JBool false => false | _ => true end.

Definition handleIncomingNotification (now : Z) (newId : string) (n : PersistentNotification) (v : View) : View :=
  if negb (allowed (n_type n) (preferences (tab v))) then v
  else
    let v := broadcast (Arrived n) (applyIncomingNotification n v) in
    let v := if negb (alertsMuted (tab v)) && negb (n_read n) then alertUser v else v in
    if allow_toast n then set_tab (addToast now newId (mkParams None (n_type n) (n_title n) (Some (n_message n)) (Some 5000) None None None) (tab v)) v else v.

(** [channel.onmessage] *)
Definition onmessage (m : Message) (v : View) : View :=
  match m with
  | Arrived n => applyIncomingNotification n v
  | Read i => set_tab (with_notes (read_one i (notes (tab v))) (tab v)) v
  | ReadAll => set_tab (with_notes (read_all (notes (tab v))) (tab v)) v
  | Removed i => set_tab (with_notes (remove_one i (notes (tab v))) (tab v)) v
  end.

(** ** What the socket sends *)

Section incoming.
Context `{JsNumber}.

Definition or_null (v w : json) : json := match v with JNull | JUndefined => w | _ => v end.
Definition text_of (v : json) : option string := match v with JStr s => Some s | _ => None end.

(** The fields that are used are texts where they are given. *)
Definition normalizeNotification (now : Z) (newId : string) (input : json) : PersistentNotification :=
  let c := or_null (json_prop "notification" input) (or_null (json_prop "payload" input) (or_null (json_prop "data" input) input)) in
  let message := text_of (json_prop "message" c) in
  mkNote (default newId (text_of (json_prop "id" c))) (default "info" (text_of (json_prop "type" c)))
    (default (default "Notification" message) (text_of (json_prop "title" c))) (default "" message) (text_of (json_prop "link" c))
    (text_of (json_prop "linkLabel" c)) (match json_prop "read" c with JBool b => b | _ => false end)
    (default (toISOString now) (text_of (json_prop "createdAt" c))) (json_prop "metadata" c).
End incoming.

(** ** The socket

    Between its waits: requests of a token under way, sockets that have not
    closed, timers set.  [closed] is set when the effect is cleaned up. *)

Record Connection := mkConnection {
  fetching : nat; sockets : nat; reconnectTimers : list Z; retry : Z; closed : bool; authFailed : bool; frames : list string }.

Definition AUTH_FAILURE_CLOSE_CODES : list Z := [1008; 4401; 4403].

Definition reconnect_delay (retry : Z) : Z := Z.min 10000 (1000 * 2 ^ retry).

Definition scheduleReconnect (c : Connection) : Connection :=
  if closed c || authFailed c then c
  else mkConnection (fetching c) (sockets c) (reconnectTimers c ++ [reconnect_delay (retry c)]) (retry c + 1) (closed c) (authFailed c) (frames c).

(** [connect]: a token is asked for. *)
Definition connect (c : Connection) : Connection :=
  if closed c then c else mkConnection (S (fetching c)) (sockets c) (reconnectTimers c) (retry c) (closed c) (authFailed c) (frames c).

Definition send_frame (f : json) (c : Connection) : Connection :=
  mkConnection (fetching c) (sockets c) (reconnectTimers c) (retry c) (closed c) (authFailed c) (frames c ++ [json_text f]).

Inductive SocketEvent :=
(** the token has come, and the constructor of the socket throws or not *)
| TokenCame (throws : bool)
| TokenRefused
| Opened (token : string)
| Received (raw : string)
| ClosedWith (code : Z)
| TimerFired
| CleanedUp.

Section socket.
Context `{JsNumber}.

Definition falsy (v : json) : bool :=
  match v with
  | JNull | JUndefined | JBool false => true
  | JStr s => bool_decide (s = "")
  | JNum t => bool_decide (number_int t = Some 0)
  | _ => false
  end.

(** [handleMessage]: the notification in a message, if any *)
Definition handleMessage (now : Z) (newId : string) (raw : string) (c : Connection) : Connection * option PersistentNotification :=
  match JSON_parse raw with
  | None => (c, None)
  | Some parsed =>
      let type := text_of (json_prop "type" parsed) in
      if bool_decide (type = Some "ping") then (send_frame (JObj [("type", JStr "pong")]) c, None)
      else if bool_decide (type ∈ [Some "auth_ok"; Some "auth_success"]) then (c, None)
      else if bool_decide (type ∈ [Some "auth_error"; Some "auth_failed"; Some "unauthorized"]) then
        (mkConnection (fetching c) (sockets c) (reconnectTimers c) (retry c) (closed c) true (frames c), None)
      else if falsy parsed then (c, None)
      else (c, Some (normalizeNotification now newId parsed))
  end.

(** An event that cannot happen in a state leaves it as it is. *)
Definition socket_step (now : Z) (newId : string) (c : Connection) (e : SocketEvent) : Connection * option PersistentNotification :=
  match e with
  | TokenCame throws =>
      match fetching c with
      | O => (c, None)
      | S n =>
          let c := mkConnection n (sockets c) (reconnectTimers c) (retry c) (closed c) (authFailed c) (frames c) in
          if closed c then (c, None)
          else if throws then (scheduleReconnect c, None)
          else (mkConnection (fetching c) (S (sockets c)) (reconnectTimers c) (retry c) (closed c) (authFailed c) (frames c), None)
      end
  | TokenRefused =>
      match fetching c with
      | O => (c, None)
      | S n =>
          let c := mkConnection n (sockets c) (reconnectTimers c) (retry c) (closed c) (authFailed c) (frames c) in
          (if closed c then c else scheduleReconnect c, None)
      end
  | Opened token =>
      match sockets c with
      | O => (c, None)
      | _ => (send_frame (JObj [("type", JStr "auth"); ("token", JStr token)])
                (mkConnection (fetching c) (sockets c) (reconnectTimers c) 0 (closed c) (authFailed c) (frames c)), None)
      end
  | Received raw => match sockets c with O => (c, None) | _ => handleMessage now newId raw c end
  | ClosedWith code =>
      match sockets c with
      | O => (c, None)
      | S n =>
          let c := mkConnection (fetching c) n (reconnectTimers c) (retry c) (closed c) (authFailed c) (frames c) in
          if closed c then (c, None)
          else if bool_decide (code ∈ AUTH_FAILURE_CLOSE_CODES) then (mkConnection (fetching c) n (reconnectTimers c) (retry c) (closed c) true (frames c), None)
          else (scheduleReconnect c, None)
      end
  | TimerFired =>
      match reconnectTimers c with
      | [] => (c, None)
      | _ :: ts => (connect (mkConnection (fetching c) (sockets c) ts (retry c) (closed c) (authFailed c) (frames c)), None)
      end
  | CleanedUp => (mkConnection (fetching c) (sockets c) [] (retry c) true (authFailed c) (frames c), None)
  end.

Definition mounted : Connection := connect (mkConnection 0 0 [] 0 false false []).

Definition socket_run (events : list (Z * string * SocketEvent)) : Connection :=
  foldl (λ c e, (socket_step e.1.1 e.1.2 c e.2).1) mounted events.

Definition activity (c : Connection) : nat := (fetching c + sockets c + length (reconnectTimers c))%nat.

(** Whatever the network does there is at most one attempt to connect under way;
    exactly one until the page goes or the server refuses the user, and none but a
    request or a socket that ends by itself after that; and every wait is between
    one and ten seconds. *)
Theorem one_connection events :
  let c := socket_run events in
  (activity c ≤ 1)%nat ∧ (closed c = false → authFailed c = false → activity c = 1%nat) ∧
  ((closed c ∨ authFailed c) → reconnectTimers c = []) ∧ Forall (λ d, 1000 ≤ d ≤ 10000) (reconnectTimers c).
Proof.
  cbn zeta. unfold socket_run.
  assert (∀ c, (activity c ≤ 1)%nat ∧ (closed c = false → authFailed c = false → activity c = 1%nat) ∧ ((closed c ∨ authFailed c) → reconnectTimers c = []) ∧
    Forall (λ d, 1000 ≤ d ≤ 10000) (reconnectTimers c) ∧ 0 ≤ retry c → let c' := foldl (λ c e, (socket_step e.1.1 e.1.2 c e.2).1) c events in
    (activity c' ≤ 1)%nat ∧ (closed c' = false → authFailed c' = false → activity c' = 1%nat) ∧ ((closed c' ∨ authFailed c') → reconnectTimers c' = []) ∧
    Forall (λ d, 1000 ≤ d ≤ 10000) (reconnectTimers c') ∧ 0 ≤ retry c') as Hind.
  2:{ destruct (Hind mounted) as (?&?&?&?&_); [|done]. split_and!; cbn; try lia; try done; try (by intros [[]|[]]); try constructor. }
  induction events as [|[[now i] e] es IH]; intros c Hc; [done|]. cbn [foldl fst snd]. apply IH. clear IH. destruct Hc as (H1 & H2 & H3 & H4 & H5).
  assert (∀ d, 0 ≤ d → 1000 ≤ reconnect_delay d ≤ 10000) as Hdelay.
  { intros d Hd. unfold reconnect_delay. pose proof (Z.pow_pos_nonneg 2 d ltac:(lia) Hd). lia. }
  destruct c as [f s ts r cl af fr]. unfold activity in *. cbn [fetching sockets reconnectTimers retry closed authFailed frames] in *.
  destruct e as [throws| |token|raw|code| |]; cbn [socket_step].
  - cbn [fetching]. destruct f as [|n]; [done|]. assert (ts = [] ∧ s = 0%nat ∧ n = 0%nat) as (-> & -> & ->) by (destruct ts; cbn in H1; [split_and!; [done|lia|lia]|lia]).
    destruct cl, throws; unfold scheduleReconnect; destruct af; cbn in *; split_and!; try done; try lia; try (by intros [[]|[]]); try (constructor; [by apply Hdelay|constructor]).
  - cbn [fetching]. destruct f as [|n]; [done|]. assert (ts = [] ∧ s = 0%nat ∧ n = 0%nat) as (-> & -> & ->) by (destruct ts; cbn in H1; [split_and!; [done|lia|lia]|lia]).
    destruct cl; unfold scheduleReconnect; destruct af; cbn in *; split_and!; try done; try lia; try (by intros [[]|[]]); try (constructor; [by apply Hdelay|constructor]).
  - cbn [sockets]. destruct s as [|n]; [done|]. cbn. split_and!; try done; lia.
  - cbn [sockets]. destruct s as [|n]; [done|]. assert (ts = [] ∧ f = 0%nat ∧ n = 0%nat) as (-> & -> & ->) by (destruct ts; cbn in H1; [split_and!; [done|lia|lia]|lia]).
    unfold handleMessage. destruct (JSON_parse raw) as [p|]; [|done].
    repeat match goal with |- context [bool_decide ?P] => destruct (bool_decide P) end; try (cbn; split_and!; try done; lia).
    destruct (falsy p); cbn; split_and!; try done; lia.
  - cbn [sockets]. destruct s as [|n]; [done|]. assert (ts = [] ∧ f = 0%nat ∧ n = 0%nat) as (-> & -> & ->) by (destruct ts; cbn in H1; [split_and!; [done|lia|lia]|lia]).
    cbn [closed]. destruct cl; [cbn; split_and!; try done; lia|]. destruct (bool_decide _); [cbn; split_and!; try done; lia|].
    unfold scheduleReconnect. destruct af; cbn in *; split_and!; try done; try lia; try (by intros [[]|[]]); try (constructor; [by apply Hdelay|constructor]).
  - cbn [reconnectTimers]. destruct ts as [|d ts]; [done|]. cbn [length] in *. assert (ts = [] ∧ f = 0%nat ∧ s = 0%nat) as (-> & -> & ->) by (destruct ts; cbn in H1; [split_and!; [done|lia|lia]|lia]).
    unfold connect. destruct cl; [by specialize (H3 (or_introl I))|]. cbn. split_and!; try done; try lia.
  - cbn. split_and!; try done; lia.
Qed.
End socket.

(** ** Tabs of a browser *)

(** Each tab with the messages of the channel it has not handled yet. *)
Record Browser := mkBrowser { tabs : list (Tab * list Message); b_storage : Storage; b_calls : list ApiCall; b_alerts : nat }.

(** Everything that changes the notifications of a tab by itself; loading more is
    a refresh that appends. *)
Inductive Action :=
| Arrive (now : Z) (newId : string) (n : PersistentNotification)
| MarkAsRead (i : string) | MarkAllAsRead | RemoveNotification (i : string)
| Notify (now : Z) (toastId noteId : string) (y : NotifyParams)
| Refresh (append : bool) (limit : Z) (answer : result (list PersistentNotification)).

Definition perform (a : Action) : View → View :=
  match a with
  | Arrive now newId n => handleIncomingNotification now newId n
  | MarkAsRead i => markAsRead i
  | MarkAllAsRead => markAllAsRead
  | RemoveNotification i => removeNotification i
  | Notify now toastId noteId y => notify now toastId noteId y
  | Refresh append limit answer => refreshNotifications append limit answer
  end.

(** The actions that other tabs are not told of. *)
Definition silent (a : Action) : bool :=
  match a with Notify _ _ _ y => default false (y_persistent y) | Refresh _ _ _ => true | _ => false end.

(** What a tab does, and what the other tabs are told. *)
Definition act (k : nat) (f : View → View) (b : Browser) : Browser :=
  match tabs b !! k with
  | None => b
  | Some (t, _) =>
      let v := f (mkView t (b_storage b) [] (b_calls b) (b_alerts b)) in
      mkBrowser (imap (λ j tq, if bool_decide (j = k) then (tab v, tq.2) else (tq.1, tq.2 ++ posted v)) (tabs b)) (storage v) (calls v) (alerts v)
  end.

(** A tab handles the first message it was told. *)
Definition deliver (k : nat) (b : Browser) : Browser :=
  match tabs b !! k with
  | Some (t, m :: q) =>
      let v := onmessage m (mkView t (b_storage b) [] (b_calls b) (b_alerts b)) in
      mkBrowser (<[k := (tab v, q)]> (tabs b)) (storage v) (calls v) (alerts v)
  | _ => b
  end.

(** Every tab handles one message, in turn. *)
Definition settle (b : Browser) : Browser := foldl (λ b k, deliver k b) b (seq 0 (length (tabs b))).

Definition agree (b : Browser) : Prop := (∀ t t', t ∈ tabs b → t' ∈ tabs b → notes t.1 = notes t'.1) ∧ Forall (λ t, t.2 = []) (tabs b).

(** Tabs that have just opened. *)
Lemma opened_agree n t s c a : agree (mkBrowser (replicate n (t, [])) s c a).
Proof.
  split; [|by apply Forall_replicate]. cbn [tabs]. intros t1 t2 [-> _]%elem_of_replicate [-> _]%elem_of_replicate. done.
Qed.

(** What a message makes of the notifications. *)
Definition told (m : Message) (l : list PersistentNotification) : list PersistentNotification :=
  match m with Arrived n => put_first n l | Read i => read_one i l | ReadAll => read_all l | Removed i => remove_one i l end.

Lemma onmessage_notes m v : notes (tab (onmessage m v)) = told m (notes (tab v)).
Proof. by destruct m. Qed.

Lemma addToast_notes now i p t : notes (addToast now i p t) = notes t.
Proof. unfold addToast. destruct (bool_decide _); done. Qed.

(** An action changes the notifications of its tab as its message changes those
    of the others; one that is not allowed changes nothing and says nothing. *)
Lemma perform_told a t s c n : silent a = false → let v := perform a (mkView t s [] c n) in
  (posted v = [] ∧ notes (tab v) = notes t) ∨ ∃ m, posted v = [m] ∧ notes (tab v) = told m (notes t).
Proof.
  intros Ha. cbn zeta. destruct a as [now i x|i| |i|now ti ni y|]; cbn [perform silent] in *; [..|done].
  - unfold handleIncomingNotification. cbn [tab]. destruct (allowed _ _); cbn [negb]; [|by left]. right. exists (Arrived x).
    unfold applyIncomingNotification. cbn [tab].
    destruct (signedIn t); cbn [set_storage set_tab broadcast tab posted alertsMuted with_notes];
      destruct (negb (alertsMuted t) && negb (n_read x)); cbn [alertUser tab posted]; destruct (allow_toast x); cbn [set_tab tab posted]; by rewrite ?addToast_notes.
  - right. exists (Read i). unfold markAsRead, change_notes, call_api. cbn. by destruct (signedIn t).
  - right. exists ReadAll. unfold markAllAsRead, change_notes, call_api. cbn. by destruct (signedIn t).
  - right. exists (Removed i). unfold removeNotification, change_notes, call_api. cbn. by destruct (signedIn t).
  - left. unfold notify. rewrite Ha. destruct (allowed _ _); cbn [negb]; [|done]. destruct (default true (y_toast y)); [|done].
    cbn [set_tab tab posted]. by rewrite addToast_notes.
Qed.

Lemma perform_silent a t s c n : silent a = true → posted (perform a (mkView t s [] c n)) = [].
Proof.
  destruct a as [| | | |now ti ni y|append limit answer]; try done; intros Ha; cbn [perform].
  - unfold notify, change_notes, call_api. destruct (allowed _ _); cbn [negb]; [|done]. by repeat (case_match || cbn).
  - unfold refreshNotifications. by repeat (case_match || cbn).
Qed.

(** Delivering in turn is one message for every tab that has one. *)
Lemma settle_tabs b : (∀ t, t ∈ tabs b → (length t.2 ≤ 1)%nat) →
  ∀ k t q, tabs (settle b) !! k = Some (t, q) →
    ∃ t0 q0, tabs b !! k = Some (t0, q0) ∧ q = [] ∧ notes t = match q0 with [] => notes t0 | m :: _ => told m (notes t0) end.
Proof.
  intros Hb. unfold settle. set (n := length (tabs b)).
  assert (∀ m, (m ≤ n)%nat → let b' := foldl (λ b k, deliver k b) b (seq 0 m) in
    length (tabs b') = n ∧ ∀ k t q, tabs b' !! k = Some (t, q) → ∃ t0 q0, tabs b !! k = Some (t0, q0) ∧
      if decide (k < m)%nat then q = [] ∧ notes t = match q0 with [] => notes t0 | m :: _ => told m (notes t0) end else t = t0 ∧ q = q0) as Hm.
  { intros m. induction m as [|m IH]; intros Hle; cbn zeta.
    - split; [done|]. intros k t q Hk. exists t, q. split; [done|]. destruct (decide (k < 0)%nat); [lia|done].
    - rewrite seq_S, foldl_app. cbn [foldl]. destruct (IH ltac:(lia)) as [Hlen Hget]. set (b' := foldl _ b (seq 0 m)) in *. cbn [plus Nat.add] in *.
      unfold deliver. destruct (tabs b' !! m) as [[t [|x q]]|] eqn:Em.
      + split; [done|]. intros k t' q' Hk. destruct (Hget k t' q' Hk) as (t0 & q0 & E & Hc). exists t0, q0. split; [done|].
        destruct (decide (k < m)%nat), (decide (k < S m)%nat); try lia; try done. assert (k = m) as -> by lia. rewrite Em in Hk. injection Hk as <- <-. destruct Hc as [-> <-]. done.
      + cbn [tabs]. rewrite length_insert. split; [done|]. intros k t' q' Hk. destruct (decide (k = m)) as [->|Hne].
        * rewrite list_lookup_insert_eq in Hk by (rewrite Hlen; lia). injection Hk as <- <-. destruct (Hget m t (x :: q) Em) as (t0 & q0 & E & Hc). exists t0, q0. split; [done|].
          destruct (decide (m < m)%nat); [lia|]. destruct Hc as [-> <-]. destruct (decide (m < S m)%nat); [|lia].
          assert (length (x :: q) ≤ 1)%nat as Hq by (apply (Hb (t0, x :: q)); by eapply list_elem_of_lookup_2). split; [destruct q; [done|cbn in Hq; lia]|]. by rewrite onmessage_notes.
        * rewrite list_lookup_insert_ne in Hk by done. destruct (Hget k t' q' Hk) as (t0 & q0 & E & Hc). exists t0, q0. split; [done|].
          destruct (decide (k < m)%nat), (decide (k < S m)%nat); try lia; done.
      + apply lookup_ge_None in Em. lia. }
  intros k t q Hk. destruct (Hm n ltac:(lia)) as [Hlen Hget]. destruct (Hget k t q Hk) as (t0 & q0 & E & Hc). exists t0, q0. split; [done|].
  apply lookup_lt_Some in Hk. destruct (decide (k < n)%nat); [done|lia].
Qed.

(** Nothing is left unheard. *)
Definition quiet (b : Browser) : Prop := ∀ k t q, tabs b !! k = Some (t, q) → q = [].

Lemma settle_quiet b : quiet b → settle b = b.
Proof.
  intros Hq. unfold settle. induction (seq 0 (length (tabs b))) as [|k l IH]; [done|]. cbn [foldl].
  assert (deliver k b = b) as ->; [|done]. unfold deliver. destruct (tabs b !! k) as [[t q]|] eqn:E; [|done]. by rewrite (Hq k t q E).
Qed.

(** The tabs after an action: the one that acts has changed, the others are told. *)
Lemma act_tabs k f b t q : quiet b → tabs b !! k = Some (t, q) →
  let v := f (mkView t (b_storage b) [] (b_calls b) (b_alerts b)) in
  ∀ j t' q', tabs (act k f b) !! j = Some (t', q') →
    ∃ t0, tabs b !! j = Some (t0, []) ∧ t' = (if decide (j = k) then tab v else t0) ∧ q' = if decide (j = k) then [] else posted v.
Proof.
  intros Hq Hk. cbn zeta. intros j t' q'. unfold act. rewrite Hk. cbn [tabs]. rewrite list_lookup_imap.
  destruct (tabs b !! j) as [[t0 q0]|] eqn:Ej; [|done]. cbn. intros [= E]. pose proof (Hq _ _ _ Ej) as ->. exists t0. split; [done|].
  destruct (decide (j = k)) as [->|Hne]; [rewrite bool_decide_true in E by done|rewrite bool_decide_false in E by done]; by injection E as <- <-.
Qed.

Lemma act_absent k f b : tabs b !! k = None → act k f b = b.
Proof. intros E. unfold act. by rewrite E. Qed.

(** Nothing is said: the others keep what they have. *)
Lemma act_silent k f b t q : quiet b → tabs b !! k = Some (t, q) → posted (f (mkView t (b_storage b) [] (b_calls b) (b_alerts b))) = [] →
  quiet (act k f b) ∧ settle (act k f b) = act k f b ∧
  ∀ j t' q', tabs (act k f b) !! j = Some (t', q') → j ≠ k → tabs b !! j = Some (t', q').
Proof.
  intros Hq Hk Hp. pose proof (act_tabs k f b t q Hq Hk) as Ht. cbn zeta in Ht. rewrite Hp in Ht.
  assert (quiet (act k f b)) as Hq' by (intros j t' q' Hj; destruct (Ht j t' q' Hj) as (? & _ & _ & ->); by destruct (decide _)).
  split_and!; [done|by apply settle_quiet|]. intros j t' q' Hj Hne. destruct (Ht j t' q' Hj) as (t0 & E & -> & ->). by destruct (decide (j = k)).
Qed.

(** The tabs of a set all show one list, and all has been heard. *)
Definition follow (P : nat → Prop) (l : list PersistentNotification) (b : Browser) : Prop :=
  ∀ k t q, tabs b !! k = Some (t, q) → q = [] ∧ (P k → notes t = l).

Lemma follow_act (P : nat → Prop) l k a b : (P k → silent a = false) → follow P l b → ∃ l', follow P l' (settle (act k (perform a) b)).
Proof.
  intros Ha Hb. assert (quiet b) as Hq by (intros j t q Hj; by destruct (Hb j t q Hj)).
  destruct (tabs b !! k) as [[t q]|] eqn:Ek; [|exists l; rewrite act_absent by done; by rewrite settle_quiet].
  assert (posted (perform a (mkView t (b_storage b) [] (b_calls b) (b_alerts b))) = [] → (P k → notes (tab (perform a (mkView t (b_storage b) [] (b_calls b) (b_alerts b)))) = notes t) →
    ∃ l', follow P l' (settle (act k (perform a) b))) as Hsil.
  { intros Hp Hn. destruct (act_silent k (perform a) b t q Hq Ek Hp) as (Hq' & -> & Hk). exists l. intros j t' q' Hj. split; [by eapply Hq'|].
    intros HP. destruct (decide (j = k)) as [->|Hne]; [|by destruct (Hb j t' q' (Hk j t' q' Hj Hne)) as [_ ?]; auto].
    destruct (act_tabs k (perform a) b t q Hq Ek k t' q' Hj) as (t0 & E & -> & _). rewrite decide_True by done. rewrite Hn by done. by apply (Hb k t q). }
  destruct (silent a) eqn:Hs; [apply Hsil; [by apply perform_silent|intros HP; by specialize (Ha HP)]|].
  destruct (perform_told a t (b_storage b) (b_calls b) (b_alerts b) Hs) as [[Hp Hn]|(m & Hp & Hn)]; [by apply Hsil|].
  pose proof (act_tabs k (perform a) b t q Hq Ek) as Ht. cbn zeta in Ht. rewrite Hp in Ht. exists (told m l). intros j t' q' Hj.
  destruct (settle_tabs _ ltac:(intros [t1 q1] [j1 H1]%list_elem_of_lookup_1; destruct (Ht j1 t1 q1 H1) as (_ & _ & _ & ->); destruct (decide _); cbn; lia) j t' q' Hj)
    as (t1 & q1 & E & -> & ->).
  split; [done|]. intros HP. destruct (Ht j t1 q1 E) as (t0 & E0 & -> & ->). destruct (decide (j = k)) as [->|Hne].
  - rewrite Hn. f_equal. by apply (Hb k t q).
  - f_equal. by apply (Hb j t0 []).
Qed.

(** ** All tabs refresh *)

Definition refresh_all (limit : Z) (mapped : list PersistentNotification) (b : Browser) : Browser :=
  foldl (λ b k, settle (act k (perform (Refresh false limit (Ok mapped))) b)) b (seq 0 (length (tabs b))).

Lemma refresh_all_agree limit mapped b : quiet b → (∀ t, t ∈ tabs b → signedIn t.1 = true) → agree (refresh_all limit mapped b).
Proof.
  intros Hq Hin. unfold refresh_all. set (n := length (tabs b)).
  assert (∀ m, (m ≤ n)%nat → let b' := foldl (λ b k, settle (act k (perform (Refresh false limit (Ok mapped))) b)) b (seq 0 m) in
    length (tabs b') = n ∧ ∀ k t q, tabs b' !! k = Some (t, q) → q = [] ∧ signedIn t = true ∧ ((k < m)%nat → notes t = mapped)) as Hm.
  { intros m. induction m as [|m IH]; intros Hle; cbn zeta.
    { split; [done|]. intros k t q Hk. split_and!; [by eapply Hq|by apply (Hin (t, q)), (list_elem_of_lookup_2 _ k)|lia]. }
    rewrite seq_S, foldl_app. cbn [foldl Nat.add]. destruct (IH ltac:(lia)) as [Hlen Hget]. set (b' := foldl _ b (seq 0 m)) in *. clearbody b'. clear IH.
    assert (quiet b') as Hq' by (intros k t q Hk; by destruct (Hget k t q Hk)).
    destruct (tabs b' !! m) as [[t q]|] eqn:Em; [|apply lookup_ge_None in Em; lia]. destruct (Hget m t q Em) as (-> & Hsig & _).
    pose proof (perform_silent (Refresh false limit (Ok mapped)) t (b_storage b') (b_calls b') (b_alerts b') eq_refl) as Hp.
    destruct (act_silent m _ b' t [] Hq' Em Hp) as (Hq2 & -> & Hk). split.
    - unfold act. rewrite Em. cbn [tabs]. by rewrite length_imap.
    - intros k t' q' Hj. split; [by eapply Hq2|]. destruct (decide (k = m)) as [->|Hne].
      + destruct (act_tabs m _ b' t [] Hq' Em m t' q' Hj) as (t0 & _ & -> & _). rewrite decide_True by done.
        cbn [perform]. unfold refreshNotifications. cbn [tab]. rewrite Hsig. cbn. by split.
      + destruct (Hget k t' q' (Hk k t' q' Hj Hne)) as (_ & ? & Hn). split; [done|]. intros ?. apply Hn. lia. }
  destruct (Hm n ltac:(lia)) as [Hlen Hget]. cbn zeta in *. set (b' := foldl _ b (seq 0 n)) in *. clearbody b'.
  assert (∀ t, t ∈ tabs b' → t.2 = [] ∧ notes t.1 = mapped) as Hall.
  { intros [t q] [k Hk]%list_elem_of_lookup_1. destruct (Hget k t q Hk) as (-> & _ & Hn). split; [done|]. apply Hn. apply lookup_lt_Some in Hk. lia. }
  split; [|apply Forall_forall; intros t Ht; by apply Hall]. intros t t' Ht Ht'. by rewrite (proj2 (Hall t Ht)), (proj2 (Hall t' Ht')).
Qed.


(** ** Ids are not repeated *)

Definition unique (l : list PersistentNotification) : Prop := NoDup (n_id <$> l).

Lemma read_one_ids i l : n_id <$> read_one i l = n_id <$> l.
Proof. unfold read_one. rewrite <- list_fmap_compose. apply list_fmap_ext. intros _ n _. cbn. by destruct (bool_decide _). Qed.

Lemma read_all_ids l : n_id <$> read_all l = n_id <$> l.
Proof. unfold read_all. rewrite <- list_fmap_compose. by apply list_fmap_ext. Qed.

Lemma remove_one_ids i l x : x ∈ n_id <$> remove_one i l ↔ x ∈ n_id <$> l ∧ x ≠ i.
Proof.
  unfold remove_one. rewrite !list_elem_of_fmap. split.
  - intros (n & -> & [Hn Hin]%elem_of_bfilter). apply negb_true_iff, bool_decide_eq_false in Hn. split; [by exists n|done].
  - intros [(n & -> & Hin) Hne]. exists n. split; [done|]. apply elem_of_bfilter. split; [by apply negb_true_iff, bool_decide_eq_false|done].
Qed.

Lemma filter_unique f l : unique l → unique (List.filter f l).
Proof.
  unfold unique. induction l as [|n l IH]; [done|]. rewrite fmap_cons. intros [Hn Hl]%NoDup_cons. cbn [List.filter].
  destruct (f n); [|by apply IH]. rewrite fmap_cons. apply NoDup_cons. split; [|by apply IH].
  intros (m & E & [_ Hm]%elem_of_bfilter)%list_elem_of_fmap. apply Hn. rewrite E. by apply list_elem_of_fmap_2.
Qed.

Lemma put_first_unique n l : unique l → unique (put_first n l).
Proof.
  intros Hl. unfold put_first, unique. rewrite fmap_cons. apply NoDup_cons. split; [rewrite remove_one_ids; tauto|]. by apply filter_unique.
Qed.

Lemma append_new_unique l k : unique l → unique k → unique (append_new l k).
Proof.
  intros Hl Hk. unfold append_new, unique. rewrite fmap_app. apply NoDup_app. split_and!; [done| |by apply filter_unique].
  intros x Hx (n & -> & [Hn _]%elem_of_bfilter)%list_elem_of_fmap. apply negb_true_iff in Hn. apply list_elem_of_fmap in Hx as (m & Em & Hm).
  apply not_true_iff_false in Hn. apply Hn. apply existsb_exists. exists m. split; [by apply list_elem_of_In|]. by apply bool_decide_eq_true.
Qed.

Lemma take_unique k l : unique l → unique (take k l).
Proof. unfold unique. rewrite fmap_take. intros Hl. rewrite <- (take_drop k (n_id <$> l)) in Hl. by apply NoDup_app in Hl as [? _]. Qed.

Lemma told_unique m l : unique l → unique (told m l).
Proof.
  intros Hl. destruct m as [n|i| |i]; cbn [told]; [by apply put_first_unique|unfold unique; by rewrite read_one_ids|unfold unique; by rewrite read_all_ids|by apply filter_unique].
Qed.

(** What can happen to the notifications of a tab. *)
Inductive NoteOp := Acts (a : Action) | Hears (m : Message).

Definition note_step (v : View) (op : NoteOp) : View := match op with Acts a => perform a v | Hears m => onmessage m v end.

(** The server sends no id twice, and a new id is new. *)
Definition note_ok (v : View) (op : NoteOp) : Prop :=
  match op with
  | Acts (Refresh _ _ (Ok l)) => unique l
  | Acts (Notify _ _ noteId _) => noteId ∉ n_id <$> notes (tab v)
  | _ => True
  end.

Inductive note_run (v : View) : View → Prop :=
| note_start : note_run v v
| note_next v' op : note_run v v' → note_ok v' op → note_run v (note_step v' op).

Definition saved_unique (v : View) : Prop := unique (notes (tab v)) ∧ unique (loadLocalNotifications (storage v)).

Lemma saved_local l s : unique l → unique (loadLocalNotifications (saveLocalNotifications l s)).
Proof. intros Hl. unfold loadLocalNotifications, saveLocalNotifications. cbn [st_notes default]. by do 2 apply take_unique. Qed.

Lemma change_notes_saved f c v : unique (f (notes (tab v))) → saved_unique (change_notes f c v).
Proof. intros Hf. unfold change_notes, call_api, saved_unique. destruct (signedIn (tab v)); (split; [done|by apply saved_local]). Qed.

Lemma apply_incoming_saved n v : saved_unique v → saved_unique (applyIncomingNotification n v).
Proof.
  intros [H1 H2]. unfold applyIncomingNotification, saved_unique. pose proof (put_first_unique n _ H1) as H3. destruct (signedIn (tab v)); (split; [done|]); [done|by apply saved_local].
Qed.

Lemma perform_saved a v : note_ok v (Acts a) → saved_unique v → saved_unique (perform a v).
Proof.
  intros Hop Hv. pose proof Hv as [H1 H2]. destruct a as [now i n|i| |i|now ti ni y|append limit answer]; cbn [perform].
  - unfold handleIncomingNotification. destruct (allowed _ _); cbn [negb]; [|done]. pose proof (apply_incoming_saved n v Hv) as [H3 H4].
    set (w := applyIncomingNotification n v) in *. clearbody w.
    destruct (negb (alertsMuted (tab (broadcast (Arrived n) w))) && negb (n_read n)), (allow_toast n); split; cbn; rewrite ?addToast_notes; done.
  - apply change_notes_saved. cbn. unfold unique. by rewrite read_one_ids.
  - apply change_notes_saved. cbn. unfold unique. by rewrite read_all_ids.
  - apply change_notes_saved. by apply filter_unique.
  - unfold notify. destruct (allowed _ _); cbn [negb]; [|done]. set (w := if default true (y_toast y) then _ else _).
    assert (saved_unique w ∧ notes (tab w) = notes (tab v)) as [Hw E] by (unfold w; destruct (default true (y_toast y)); [unfold saved_unique; cbn; by rewrite addToast_notes|done]).
    destruct (default false (y_persistent y)); [|done]. apply change_notes_saved. rewrite E. unfold unique. rewrite fmap_cons. by apply NoDup_cons.
  - unfold refreshNotifications. destruct (signedIn (tab v)); cbn [negb]; [|by split]. destruct answer as [l|e]; cbn in Hop; [|destruct append; by split].
    assert (unique (if append then append_new (notes (tab v)) l else l)) as H3 by (destruct append; [by apply append_new_unique|done]).
    split; [done|by apply saved_local].
Qed.

Lemma note_step_saved v op : note_ok v op → saved_unique v → saved_unique (note_step v op).
Proof.
  intros Hop Hv. destruct op as [a|m]; [by apply perform_saved|]. pose proof Hv as [H1 H2].
  destruct m as [n|i| |i]; cbn [note_step onmessage]; [by apply apply_incoming_saved|..]; (split; [|done]); cbn; [unfold unique; by rewrite read_one_ids|unfold unique; by rewrite read_all_ids|by apply filter_unique].
Qed.

(** Whatever is fetched, arrives, is relayed, created or removed, no
    notification is shown twice. *)
Theorem notes_unique s signed v :
  unique (default [] (st_notes s)) → note_run (mkView (open_tab signed s) s [] [] 0) v → unique (notes (tab v)).
Proof.
  intros Hs Hr. apply (proj1 (B := unique (loadLocalNotifications (storage v)))). change (saved_unique v).
  induction Hr as [|v' op _ IH Hop]; [|by apply note_step_saved]. split; by apply take_unique.
Qed.

(** ** Toasts go *)

Inductive ToastOp := AddToast (now : Z) (newId : string) (p : ToastParams) | RemoveToast (i : string) | ClearToasts | Fires (x : Timer).

Definition toast_step (t : Tab) (op : ToastOp) : Tab :=
  match op with
  | AddToast now newId p => addToast now newId p t
  | RemoveToast i => removeToast i t
  | ClearToasts => clearToasts t
  | Fires x => if bool_decide (x ∈ timers t) then toast_timeout x t else t
  end.

Record toasts_inv (t : Tab) : Prop := {
  few : (length (toasts t) ≤ 4)%nat;
  serials : ∀ x, x ∈ timers t → (tm_serial x < serial t)%nat;
  own_timer : ∀ i n x, map_get i (toastTimeouts t) = Some n → x ∈ timers t → tm_serial x = n → tm_toast x = i;
  mapped : ∀ i n, map_get i (toastTimeouts t) = Some n → (n < serial t)%nat;
  one_serial : ∀ x y, x ∈ timers t → y ∈ timers t → tm_serial x = tm_serial y → x = y;
  has_timer : ∀ x, x ∈ toasts t → 0 < t_duration x → ∃ y, y ∈ timers t ∧ tm_toast y = t_id x ∧ tm_due y = t_createdAt x + t_duration x;
}.

Lemma elem_clear_timer n l x : x ∈ clear_timer n l ↔ x ∈ l ∧ tm_serial x ≠ n.
Proof. unfold clear_timer. rewrite elem_of_bfilter, negb_true_iff, bool_decide_eq_false. tauto. Qed.

Lemma elem_without i (l : list ToastNotification) x : x ∈ List.filter (λ x, negb (bool_decide (t_id x = i))) l ↔ x ∈ l ∧ t_id x ≠ i.
Proof. rewrite elem_of_bfilter, negb_true_iff, bool_decide_eq_false. tauto. Qed.

Lemma filter_le {A} (f : A → bool) l : (length (List.filter f l) ≤ length l)%nat.
Proof. induction l as [|x l IH]; [done|]. cbn [List.filter]. destruct (f x); cbn [length]; lia. Qed.

Lemma elem_slice_last {A} n (l : list A) x : x ∈ js_slice_last n l → x ∈ l.
Proof. unfold js_slice_last. intros Hx. rewrite <- (take_drop (Z.to_nat (if bool_decide (- n < 0) then Z.max 0 (Z.of_nat (length l) - n) else - n)) l). apply elem_of_app. by right. Qed.

(** Dropping a toast with the timers of its id keeps the rest in order. *)
Lemma toasts_inv_drop i n m t : toasts_inv t → (∀ x, x ∈ timers t → tm_serial x = n → tm_toast x = i) → (∀ j k, map_get j m = Some k → map_get j (toastTimeouts t) = Some k) →
  toasts_inv (without_toast i (with_timers (clear_timer n (timers t)) m (serial t) t)).
Proof.
  intros [I1 I2 I3 I4 I5 I6] Hn Hm. split; cbn [without_toast with_toasts with_timers toasts timers toastTimeouts serial].
  - pose proof (filter_le (λ x, negb (bool_decide (t_id x = i))) (toasts t)). lia.
  - intros x [Hx _]%elem_clear_timer. by apply I2.
  - intros j k x Hj [Hx _]%elem_clear_timer. apply I3; [|done]. by apply Hm.
  - intros j k Hj. apply (I4 j). by apply Hm.
  - intros x y [Hx _]%elem_clear_timer [Hy _]%elem_clear_timer. by apply I5.
  - intros x [Hx Hi]%elem_without Hd. destruct (I6 x Hx Hd) as (y & Hy & Ht & He). exists y. split; [|done]. apply elem_clear_timer. split; [done|].
    intros E. apply Hi. by rewrite <- Ht, (Hn y Hy E).
Qed.

Lemma toasts_inv_add now newId p t : toasts_inv t → toasts_inv (addToast now newId p t).
Proof.
  intros [I1 I2 I3 I4 I5 I6]. unfold addToast. set (i := default newId (p_id p)). set (d := default 5000 (p_duration p)). set (full := mkToast i _ _ _ d now _ _ _).
  set (l := js_slice_last MAX_TOASTS _). assert (length l ≤ 4)%nat as Hl.
  { pose proof (js_slice_last_length MAX_TOASTS (List.filter (λ x, negb (bool_decide (t_id x = i))) (toasts t) ++ [full]) ltac:(done)) as E. fold l in E. unfold MAX_TOASTS in E. lia. }
  assert (∀ x, x ∈ l → x = full ∨ x ∈ toasts t ∧ t_id x ≠ i) as Hx.
  { intros x [Hx|Hx%list_elem_of_singleton]%elem_slice_last%elem_of_app; [right; by apply elem_without|by left]. }
  destruct (bool_decide_reflect (0 < d)) as [Hd|Hd].
  - split; cbn [add_timer with_timers with_toasts toasts timers toastTimeouts serial].
    + done.
    + intros x [Hin| ->%list_elem_of_singleton]%elem_of_app; [specialize (I2 x Hin); lia|cbn; lia].
    + intros j n x. rewrite map_get_set. destruct (bool_decide_reflect (j = i)) as [->|Hj].
      * intros [= <-] [Hin| ->%list_elem_of_singleton]%elem_of_app E; [specialize (I2 x Hin); lia|done].
      * intros Hg [Hin| ->%list_elem_of_singleton]%elem_of_app E; [by apply (I3 j n)|]. cbn in E. specialize (I4 j n Hg). lia.
    + intros j n. rewrite map_get_set. destruct (bool_decide (j = i)); [intros [= <-]; lia|]. intros Hg. specialize (I4 j n Hg). lia.
    + intros x y [Hin| ->%list_elem_of_singleton]%elem_of_app [Hin'| ->%list_elem_of_singleton]%elem_of_app; cbn; intros E; [by apply I5|specialize (I2 x Hin); lia|specialize (I2 y Hin'); lia|done].
    + intros x [-> |[Hin _]]%Hx Hdx.
      * exists (mkTimer (serial t) i (now + d)). split; [apply elem_of_app; right; by left|]. done.
      * destruct (I6 x Hin Hdx) as (y & Hy & Hr). exists y. split; [|done]. apply elem_of_app. by left.
  - split; cbn [with_toasts toasts timers toastTimeouts serial]; try done. intros x [-> |[Hin _]]%Hx Hdx; [done|]. by apply I6.
Qed.

Lemma toasts_inv_step t op : toasts_inv t → toasts_inv (toast_step t op).
Proof.
  intros Ht. pose proof Ht as [I1 I2 I3 I4 I5 I6]. destruct op as [now i p|i| |x]; cbn [toast_step].
  - by apply toasts_inv_add.
  - unfold removeToast. destruct (map_get i (toastTimeouts t)) as [n|] eqn:Hg.
    + apply toasts_inv_drop; [done|intros x Hx E; by apply (I3 i n)|]. intros j k. rewrite map_get_delete. by destruct (bool_decide _).
    + split; cbn [without_toast with_toasts toasts timers toastTimeouts serial]; try done.
      * pose proof (filter_le (λ x, negb (bool_decide (t_id x = i))) (toasts t)). lia.
      * intros x [Hx _]%elem_without. by apply I6.
  - assert (∀ ns l x, x ∈ foldl (λ l n, clear_timer n l) l ns → x ∈ l) as Hsub.
    { intros ns. induction ns as [|n ns IH]; intros l x; [done|]. cbn [foldl]. intros [Hx _]%IH%elem_clear_timer. done. }
    unfold clearToasts. split; cbn [with_toasts with_timers toasts timers toastTimeouts serial]; try done; try (cbn [length]; lia).
    * intros x Hx%Hsub. by apply I2.
    * intros x y Hx%Hsub Hy%Hsub. by apply I5.
    * by intros x ?%not_elem_of_nil.
  - destruct (bool_decide_reflect (x ∈ timers t)) as [Hx|]; [|done]. apply toasts_inv_drop; [done|intros y Hy E; by rewrite (I5 y x Hy Hx E)|].
    intros j k. rewrite map_get_delete. by destruct (bool_decide _).
Qed.

(** At most four toasts are shown; and when the timers that are due have fired,
    none is shown at or after the end of its time, however toasts were added
    under ids in use, removed or cleared. *)
Theorem toasts_expire signed s ops now :
  let t := foldl toast_step (open_tab signed s) ops in
  (∀ x, x ∈ timers t → now < tm_due x) →
  (length (toasts t) ≤ 4)%nat ∧ ∀ x, x ∈ toasts t → 0 < t_duration x → now < t_createdAt x + t_duration x.
Proof.
  cbn zeta. assert (toasts_inv (foldl toast_step (open_tab signed s) ops)) as [I1 _ _ _ _ I6].
  { assert (toasts_inv (open_tab signed s)) as H0 by (split; cbn; try done; try lia; intros; set_solver).
    revert H0. generalize (open_tab signed s). induction ops as [|op ops IH]; intros t Ht; [done|]. cbn [foldl]. by apply IH, toasts_inv_step. }
  intros Hdue. split; [done|]. intros x Hx Hd. destruct (I6 x Hx Hd) as (y & Hy & _ & E). specialize (Hdue y Hy). lia.
Qed.

(** ** Runs *)

Module Demo.
Definition note (i : string) : PersistentNotification := mkNote i "match" "Match ready" "" None None false "2026-01-01T00:00:00.000Z" JUndefined.
Definition fresh_storage : Storage := mkStorage None None false.
Definition two_tabs (signed : bool) : Browser := let t := open_tab signed fresh_storage in mkBrowser [(t, []); (t, [])] fresh_storage [] 0.
Definition three_tabs (signed : bool) : Browser := mkBrowser (replicate 3 (open_tab signed fresh_storage, [])) fresh_storage [] 0.
Definition shown (b : Browser) : list (list (string * bool)) := (λ t, (λ n, (n_id n, n_read n)) <$> notes t.1) <$> tabs b.
Definition toast (i : option string) (d : Z) : ToastParams := mkParams i "info" "Saved" None (Some d) None None None.
End Demo.


(** What a tab creates it does not tell: the badges differ until the next
    refresh. *)
Example created_not_told :
  let create := Notify 0 "t" "c" (mkNotify (Some "match") "Registered" None None None (Some true) None None None None None) in
  (λ t, unreadCount t.1) <$> tabs (settle (act 0 (perform create) (Demo.two_tabs true))) = [1; 0].
Proof. vm_compute. reflexivity. Qed.

Lemma notes_unique_witness :
  unique (notes (tab (note_step (mkView (open_tab true Demo.fresh_storage) Demo.fresh_storage [] [] 0) (Acts (Arrive 0 "t" (Demo.note "a")))))).
Proof. apply (notes_unique Demo.fresh_storage true); [constructor|]. apply note_next; [apply note_start|exact I]. Defined.

Lemma toasts_expire_witness :
  let t := foldl toast_step (open_tab true Demo.fresh_storage) [AddToast 0 "a" (Demo.toast None 3000); AddToast 1000 "b" (Demo.toast None 5000); Fires (mkTimer 0 "a" 3000)] in
  t_id <$> toasts t = ["b"] ∧ ∀ x, x ∈ toasts t → 0 < t_duration x → 4000 < t_createdAt x + t_duration x.
Proof.
  split; [vm_compute; reflexivity|].
  apply (toasts_expire true Demo.fresh_storage [AddToast 0 "a" (Demo.toast None 3000); AddToast 1000 "b" (Demo.toast None 5000); Fires (mkTimer 0 "a" 3000)] 4000).
  intros x Hx. vm_compute in Hx. apply elem_of_cons in Hx as [->|[]%not_elem_of_nil]. reflexivity.
Defined.

(** Two things said at once are heard in different orders: one tab shows the
    notification as read, the other as unread. *)
Example crossing_messages :
  let b := act 1 (perform MarkAllAsRead) (act 0 (perform (Arrive 0 "t" (Demo.note "a"))) (Demo.two_tabs true)) in
  Demo.shown (settle b) = [[("a", true)]; [("a", false)]].
Proof. vm_compute. reflexivity. Qed.

(** What arrives for a user who is signed in is not stored: a tab that opens
    without the server does not have it. *)
Example arrival_not_stored :
  let b := act 0 (perform (Arrive 0 "t" (Demo.note "a"))) (Demo.two_tabs true) in
  loadLocalNotifications (b_storage b) = [] ∧ n_id <$> loadLocalNotifications (b_storage (act 0 (perform (Arrive 0 "t" (Demo.note "a"))) (Demo.two_tabs false))) = ["a"].
Proof. vm_compute. done. Qed.

(** The timer of a toast that is replaced is not cleared, and takes its successor
    away before its time. *)
Example replaced_toast_goes_early :
  let t := foldl toast_step (open_tab true Demo.fresh_storage) [AddToast 0 "" (Demo.toast (Some "x") 5000); AddToast 4000 "" (Demo.toast (Some "x") 5000)] in
  (λ x, t_createdAt x + t_duration x) <$> toasts t = [9000] ∧ toasts (toast_step t (Fires (mkTimer 0 "x" 5000))) = [].
Proof. vm_compute. done. Qed.

(** A change of preferences is not told to other tabs. *)
Example preference_stays_in_its_tab :
  let b := settle (act 0 (updatePreference "match" false) (Demo.two_tabs true)) in
  (λ t, allowed "match" (preferences t.1)) <$> tabs b = [false; true].
Proof. vm_compute. reflexivity. Qed.
