(* ===== verification/MatchSocket.v ===== *)
(** * The feed of a match: [frontend/src/hooks/useMatchWebSocket.ts]

    The hook between the events it waits for: sockets are numbered in the order
    they are made, a socket whose handlers were removed has no effect any more, and
    a timer that was cleared does not fire.  Whether the constructor of a socket
    throws is an input.  The simulated update of development builds is left out.
    Also the report of scores of the same file. *)

From Stdlib Require Import Ascii.
From stdpp Require Import prelude gmap strings list pretty sorting.
From S2P Require Import Prelude JsText.

Definition INITIAL_RECONNECT_DELAY_MS : Z := 500.
Definition MAX_RECONNECT_DELAY_MS : Z := 30000.
Definition MAX_RECONNECT_ATTEMPTS : Z := 5.
Definition RESTORED_NOTICE_MS : Z := 3000.
Definition AUTH_FAILURE_CODES : list Z := [1008; 4401; 4403].

Record MatchUpdate := mkUpdate {
  u_matchId : string; scorePlayer1 : option Z; scorePlayer2 : option Z; u_status : option string; winnerId : option string; u_message : option string; u_timestamp : Z }.

(** A message that could be read: [type], [matchId], [timestamp] and the rest. *)
Record Incoming := mkIncoming {
  m_type : option string; m_matchId : option string; m_score1 : option Z; m_score2 : option Z; m_status : option string; m_winnerId : option string;
  m_message : option string; m_timestamp : option Z }.

Record Hook := mkHook {
  isConnected : bool; lastUpdate : option MatchUpdate; connectionError : option string; isReconnecting : bool; connectionRestored : bool;
  (** the references *)
  wsRef : option nat; reconnectTimerRef : option nat; retryCount : Z; restoredTimerRef : option nat; closedRef : bool;
  (** the sockets with handlers that have not closed, the timers set with their
      delays, those that end the notice, and the number of sockets and timers made *)
  attached : list nat; timers : list (nat * Z); restoredTimers : list nat; made : nat }.

Definition new_hook : Hook := mkHook false None None false false None None 0 None false [] [] [] 0.

Section hook.
Context (matchId : string) (enabled : bool).
Implicit Types (h : Hook).

Definition set_flags (conn reconn : bool) (err : option string) h : Hook :=
  mkHook conn (lastUpdate h) err reconn (connectionRestored h) (wsRef h) (reconnectTimerRef h) (retryCount h) (restoredTimerRef h) (closedRef h)
    (attached h) (timers h) (restoredTimers h) (made h).
Definition set_ws (r : option nat) (a : list nat) h : Hook :=
  mkHook (isConnected h) (lastUpdate h) (connectionError h) (isReconnecting h) (connectionRestored h) r (reconnectTimerRef h) (retryCount h) (restoredTimerRef h)
    (closedRef h) a (timers h) (restoredTimers h) (made h).
Definition set_timers (r : option nat) (l : list (nat * Z)) h : Hook :=
  mkHook (isConnected h) (lastUpdate h) (connectionError h) (isReconnecting h) (connectionRestored h) (wsRef h) r (retryCount h) (restoredTimerRef h)
    (closedRef h) (attached h) l (restoredTimers h) (made h).
Definition set_retry (n : Z) h : Hook :=
  mkHook (isConnected h) (lastUpdate h) (connectionError h) (isReconnecting h) (connectionRestored h) (wsRef h) (reconnectTimerRef h) n (restoredTimerRef h)
    (closedRef h) (attached h) (timers h) (restoredTimers h) (made h).
Definition set_restored (b : bool) (r : option nat) (l : list nat) h : Hook :=
  mkHook (isConnected h) (lastUpdate h) (connectionError h) (isReconnecting h) b (wsRef h) (reconnectTimerRef h) (retryCount h) r
    (closedRef h) (attached h) (timers h) l (made h).
Definition set_closed (b : bool) h : Hook :=
  mkHook (isConnected h) (lastUpdate h) (connectionError h) (isReconnecting h) (connectionRestored h) (wsRef h) (reconnectTimerRef h) (retryCount h) (restoredTimerRef h)
    b (attached h) (timers h) (restoredTimers h) (made h).
Definition set_update (u : MatchUpdate) h : Hook :=
  mkHook (isConnected h) (Some u) (connectionError h) (isReconnecting h) (connectionRestored h) (wsRef h) (reconnectTimerRef h) (retryCount h) (restoredTimerRef h)
    (closedRef h) (attached h) (timers h) (restoredTimers h) (made h).
Definition count_made h : Hook :=
  mkHook (isConnected h) (lastUpdate h) (connectionError h) (isReconnecting h) (connectionRestored h) (wsRef h) (reconnectTimerRef h) (retryCount h) (restoredTimerRef h)
    (closedRef h) (attached h) (timers h) (restoredTimers h) (S (made h)).

Definition without (n : nat) (l : list nat) : list nat := List.filter (λ m, negb (bool_decide (m = n))) l.

Definition clearReconnectTimer h : Hook :=
  match reconnectTimerRef h with
  | Some n => set_timers None (List.filter (λ t, negb (bool_decide (t.1 = n))) (timers h)) h
  | None => h
  end.

(** The handlers of the socket are removed, and it is closed. *)
Definition drop_socket h : Hook := match wsRef h with Some n => set_ws None (without n (attached h)) h | None => h end.

Definition disconnect h : Hook := set_flags false false None (drop_socket (set_retry 0 (clearReconnectTimer h))).

Definition connect (throws : bool) h : Hook :=
  if closedRef h || negb enabled || bool_decide (matchId = "") then h
  else
    let h := drop_socket h in
    let h := set_flags (isConnected h) (isReconnecting h) None h in
    if throws then set_flags (isConnected h) (isReconnecting h) (Some "Unable to open match feed connection.") h
    else count_made (set_ws (Some (made h)) (attached h ++ [made h]) h).

Definition onopen (n : nat) h : Hook :=
  if closedRef h then h
  else
    let wasReconnecting := bool_decide (0 < retryCount h) in
    let h := set_flags true false None (set_retry 0 h) in
    if wasReconnecting then
      let pending := match restoredTimerRef h with Some m => without m (restoredTimers h) | None => restoredTimers h end in
      count_made (set_restored true (Some (made h)) (pending ++ [made h]) h)
    else h.

Definition onmessage (now : Z) (data : option Incoming) h : Hook :=
  match data with
  | None => h
  | Some d =>
      if bool_decide (m_type d = Some "ping") then h
      else match m_matchId d with
           | Some i =>
               if bool_decide (i = "") then h
               else set_update (mkUpdate i (m_score1 d) (m_score2 d) (m_status d) (m_winnerId d) (m_message d) (default now (m_timestamp d))) h
           | None => h
           end
  end.

Definition reconnect_delay (retry : Z) : Z := Z.min MAX_RECONNECT_DELAY_MS (INITIAL_RECONNECT_DELAY_MS * 2 ^ retry).

Definition onclose (n : nat) (code : Z) h : Hook :=
  let h := set_ws None (without n (attached h)) (set_flags false (isReconnecting h) (connectionError h) h) in
  if closedRef h then h
  else if bool_decide (code ∈ AUTH_FAILURE_CODES) then set_flags false (isReconnecting h) (Some "Authentication failed. Please refresh the page.") h
  else if bool_decide (code = 1000) then h
  else if bool_decide (MAX_RECONNECT_ATTEMPTS ≤ retryCount h) then set_flags false false (Some "Connection to match feed lost. Showing last known state.") h
  else
    let delay := reconnect_delay (retryCount h) in
    let h := set_flags false true (connectionError h) (set_retry (retryCount h + 1) h) in
    count_made (set_timers (Some (made h)) (timers h ++ [(made h, delay)]) h).

Definition reconnect (throws : bool) h : Hook := connect throws (set_retry 0 (clearReconnectTimer h)).

Inductive Event :=
| Mounted (throws : bool) | Unmounted | Opened (n : nat) | Message (n : nat) (now : Z) (data : option Incoming) | Closed (n : nat) (code : Z)
| TimerFires (n : nat) (throws : bool) | NoticeEnds (n : nat) | Reconnect (throws : bool) | Disconnect.

(** Sockets without handlers and timers that are gone do nothing. *)
Definition step h (e : Event) : Hook :=
  match e with
  | Mounted throws => connect throws (set_closed false h)
  | Unmounted =>
      let h := set_closed true h in
      let h := match restoredTimerRef h with Some m => set_restored (connectionRestored h) (Some m) (without m (restoredTimers h)) h | None => h end in
      disconnect h
  | Opened n => if bool_decide (n ∈ attached h) then onopen n h else h
  | Message n now data => if bool_decide (n ∈ attached h) then onmessage now data h else h
  | Closed n code => if bool_decide (n ∈ attached h) then onclose n code h else h
  | TimerFires n throws =>
      if bool_decide (n ∈ fst <$> timers h) then connect throws (set_timers (reconnectTimerRef h) (List.filter (λ t, negb (bool_decide (t.1 = n))) (timers h)) h) else h
  | NoticeEnds n => if bool_decide (n ∈ restoredTimers h) then set_restored false (restoredTimerRef h) (without n (restoredTimers h)) h else h
  | Reconnect throws => reconnect throws h
  | Disconnect => disconnect h
  end.

(** ** One connection *)

Record socket_inv h : Prop := {
  one_socket : attached h = option_list (wsRef h);
  one_timer : timers h = [] ∨ ∃ n d, timers h = [(n, d)] ∧ reconnectTimerRef h = Some n ∧ 500 ≤ d ≤ 8000;
  not_both : wsRef h = None ∨ timers h = [];
  retries : 0 ≤ retryCount h ≤ 5;
  connected_ok : isConnected h → is_Some (wsRef h) ∨ is_Some (connectionError h);
}.

(** The invariant speaks of these parts only. *)
Lemma inv_of h a w t r c i e : socket_inv (mkHook i None e false false w r c None false a t [] 0) →
  attached h = a → wsRef h = w → timers h = t → reconnectTimerRef h = r → retryCount h = c → isConnected h = i → connectionError h = e → socket_inv h.
Proof. intros [I1 I2 I3 I4 I5] <- <- <- <- <- <- <-. by split. Qed.

Lemma without_self n : without n [n] = [].
Proof. unfold without. cbn. by rewrite bool_decide_true. Qed.

Lemma clear_spec h : socket_inv h → socket_inv (clearReconnectTimer h) ∧ timers (clearReconnectTimer h) = [].
Proof.
  intros [I1 I2 I3 I4 I5]. unfold clearReconnectTimer. destruct I2 as [E|(n & d & E & Er & Hd)].
  - destruct (reconnectTimerRef h) as [m|]; [|split; [split; auto|done]]. split; [split; cbn; rewrite ?E; cbn; auto|cbn; by rewrite E].
  - rewrite Er. assert (List.filter (λ t : nat * Z, negb (bool_decide (t.1 = n))) (timers h) = []) as Ef by (rewrite E; cbn; by rewrite bool_decide_true).
    split; [split; cbn; rewrite ?Ef; auto|cbn; by rewrite Ef].
Qed.

Lemma drop_spec h : socket_inv h → attached (drop_socket h) = [] ∧ wsRef (drop_socket h) = None ∧ timers (drop_socket h) = timers h ∧
  reconnectTimerRef (drop_socket h) = reconnectTimerRef h ∧ retryCount (drop_socket h) = retryCount h ∧ isConnected (drop_socket h) = isConnected h.
Proof. intros [I1 _ _ _ _]. unfold drop_socket. destruct (wsRef h) as [n|] eqn:E; rewrite ?E in I1; cbn in *; rewrite ?I1, ?without_self; done. Qed.

Lemma retry_inv h : socket_inv h → socket_inv (set_retry 0 h).
Proof. intros [I1 I2 I3 I4 I5]. split; cbn; auto; lia. Qed.

Lemma disconnect_inv h : socket_inv h → socket_inv (disconnect h) ∧ attached (disconnect h) = [] ∧ timers (disconnect h) = [].
Proof.
  intros Hh. destruct (clear_spec h Hh) as [Hc Et]. apply retry_inv in Hc. unfold disconnect. set (h1 := set_retry 0 (clearReconnectTimer h)) in *.
  destruct (drop_spec h1 Hc) as (Ea & Ew & Et' & Er & Ec & _). change (timers h1) with (timers (clearReconnectTimer h)) in Et'. rewrite Et in Et'.
  split; [|by split]. eapply inv_of; [|exact Ea|exact Ew|exact Et'|reflexivity|exact Ec|reflexivity|reflexivity]. split; cbn; auto; [lia|by intros []].
Qed.

(** [connect] replaces the socket; it is called when no timer is set. *)
Lemma connect_inv throws h : socket_inv h → timers h = [] → socket_inv (connect throws h) ∧ timers (connect throws h) = [].
Proof.
  intros Hh Ht. unfold connect. destruct (closedRef h || negb enabled || bool_decide (matchId = "")); [done|].
  destruct (drop_spec h Hh) as (Ea & Ew & Et & Er & Ec & _). pose proof (retries h Hh) as Hr. rewrite Ht in Et. split; [|by destruct throws].
  destruct throws.
  - eapply inv_of; [|exact Ea|exact Ew|exact Et|reflexivity|exact Ec|reflexivity|reflexivity]. split; cbn; auto.
  - eapply (inv_of _ [made (drop_socket h)] (Some (made (drop_socket h))));
      [|cbn; by rewrite Ea|reflexivity|exact Et|reflexivity|exact Ec|reflexivity|reflexivity]. split; cbn; auto.
Qed.

Lemma close_inv n code h : socket_inv h → n ∈ attached h → socket_inv (onclose n code h).
Proof.
  intros [I1 I2 I3 I4 I5] Hn. rewrite I1 in Hn. destruct (wsRef h) as [m|] eqn:Ew; cbn in Hn; [|by apply not_elem_of_nil in Hn]. apply list_elem_of_singleton in Hn as ->.
  destruct I3 as [?|Et]; [done|]. assert (without m (attached h) = []) as Ea by (rewrite I1; apply without_self).
  unfold onclose. cbn [closedRef set_ws set_flags retryCount attached].
  destruct (closedRef h); [eapply inv_of; [|exact Ea|reflexivity|exact Et|reflexivity..]; split; cbn; auto; by intros []|].
  destruct (bool_decide (code ∈ AUTH_FAILURE_CODES)); [eapply inv_of; [|exact Ea|reflexivity|exact Et|reflexivity..]; split; cbn; auto; by intros []|].
  destruct (bool_decide (code = 1000)); [eapply inv_of; [|exact Ea|reflexivity|exact Et|reflexivity..]; split; cbn; auto; by intros []|].
  destruct (bool_decide_reflect (MAX_RECONNECT_ATTEMPTS ≤ retryCount h)) as [|Hlt]; [eapply inv_of; [|exact Ea|reflexivity|exact Et|reflexivity..]; split; cbn; auto; by intros []|].
  unfold MAX_RECONNECT_ATTEMPTS in Hlt.
  eapply (inv_of _ [] None [(made h, reconnect_delay (retryCount h))] (Some (made h)) (retryCount h + 1)); [|exact Ea|reflexivity|cbn; by rewrite Et|reflexivity..].
  split; cbn; auto; [|lia|by intros []]. right. eexists _, _. split_and!; [done|done|..];
    unfold reconnect_delay, INITIAL_RECONNECT_DELAY_MS, MAX_RECONNECT_DELAY_MS;
    assert (retryCount h ∈ [0; 1; 2; 3; 4]) as Hin by (rewrite !elem_of_cons; lia);
    repeat (apply elem_of_cons in Hin as [-> |Hin]; [done|]); by apply not_elem_of_nil in Hin.
Qed.

Lemma open_inv n h : socket_inv h → n ∈ attached h → socket_inv (onopen n h).
Proof.
  intros [I1 I2 I3 I4 I5] Hn. rewrite I1 in Hn. destruct (wsRef h) as [m|] eqn:Ew; cbn in Hn; [|by apply not_elem_of_nil in Hn].
  destruct I3 as [?|Et]; [done|]. unfold onopen. destruct (closedRef h); [split; rewrite ?Ew; auto|].
  destruct (bool_decide _); (split; cbn; rewrite ?Ew; auto; try lia; try (left; by eexists)).
Qed.

Lemma step_inv h e : socket_inv h → timers h = [] ∨ (∀ t, e ≠ Mounted t) → socket_inv (step h e).
Proof.
  intros Hh Hm. pose proof Hh as [I1 I2 I3 I4 I5]. destruct e as [throws| |n|n now data|n code|n throws|n|throws|]; cbn [step].
  - destruct Hm as [Ht|Hm]; [|by destruct (Hm throws)]. apply connect_inv; [by split|done].
  - apply disconnect_inv. cbn. destruct (restoredTimerRef h); by split.
  - destruct (bool_decide_reflect (n ∈ attached h)); [by apply open_inv|done].
  - destruct (bool_decide _); [|done]. unfold onmessage. destruct data as [d|]; [|done]. destruct (bool_decide _); [done|].
    destruct (m_matchId d); [|done]. destruct (bool_decide _); [done|]. by split.
  - destruct (bool_decide_reflect (n ∈ attached h)); [by apply close_inv|done].
  - destruct (bool_decide_reflect (n ∈ fst <$> timers h)) as [Hn|]; [|done]. destruct I2 as [E|(m & d & E & Er & Hd)]; rewrite E in Hn; [by apply not_elem_of_nil in Hn|].
    apply list_elem_of_singleton in Hn as ->. assert (List.filter (λ t : nat * Z, negb (bool_decide (t.1 = m))) (timers h) = []) as Ef by (rewrite E; cbn; by rewrite bool_decide_true).
    cbn [fst]. rewrite Ef. apply connect_inv; [|done]. split; cbn; auto.
  - destruct (bool_decide _); [by split|done].
  - destruct (clear_spec h Hh) as [Hc Et]. apply connect_inv; [by apply retry_inv|done].
  - by apply disconnect_inv.
Qed.

(** Events while the component is mounted. *)
Definition inner (e : Event) : Prop := match e with Mounted _ | Unmounted => False | _ => True end.

(** A life of the component: it is mounted, things happen, it goes. *)
Definition live (throws : bool) (events : list Event) h : Hook := foldl step (step h (Mounted throws)) events.
Definition lifetime h (l : bool * list Event) : Hook := step (live l.1 l.2 h) Unmounted.

Lemma live_inv throws events h : socket_inv h → timers h = [] → Forall inner events → socket_inv (live throws events h).
Proof.
  intros Hh Ht He. unfold live. assert (socket_inv (step h (Mounted throws))) as Hm by (apply step_inv; auto). revert Hm. generalize (step h (Mounted throws)).
  induction He as [|e es He _ IH]; intros h' Hh'; [done|]. cbn [foldl]. apply IH, step_inv; [done|]. right. intros t ->. done.
Qed.

Lemma lifetimes_inv lives : Forall (λ l, Forall inner l.2) lives →
  let h := foldl lifetime new_hook lives in socket_inv h ∧ attached h = [] ∧ timers h = [].
Proof.
  intros Hl. cbn zeta. induction lives as [|[throws es] lives IH] using rev_ind; [split_and!; [split; cbn; auto; [lia|by intros []]|done|done]|].
  apply Forall_app in Hl as [Hl Hx]. rewrite Forall_singleton in Hx. destruct (IH Hl) as (Hh & _ & Ht). rewrite foldl_snoc. unfold lifetime. cbn [fst snd step].
  apply disconnect_inv. pose proof (live_inv throws es _ Hh Ht Hx) as [I1 I2 I3 I4 I5]. cbn. destruct (restoredTimerRef _); by split.
Qed.


(** ** Giving up *)

(** The socket closes before it opens, and the timer set for the next fires. *)
Fixpoint failing_attempts (k : nat) h : Hook :=
  match k with
  | O => h
  | S k' =>
      match attached h with
      | n :: _ =>
          let h := step h (Closed n 1006) in
          failing_attempts k' (match timers h with (m, _) :: _ => step h (TimerFires m false) | [] => h end)
      | [] => h
      end
  end.

End hook.

Lemma six_failures c s :
  failing_attempts (String c s) true 6 (live (String c s) true false [] new_hook) =
  mkHook false None (Some "Connection to match feed lost. Showing last known state.") false false None (Some 9%nat) 5 None false [] [] [] 11.
Proof. vm_compute. reflexivity. Qed.

(** A server that cannot be reached is asked six times in all; then the hook says
    that the connection is lost and waits for the user. *)
Theorem gives_up c s :
  let h := failing_attempts (String c s) true 6 (live (String c s) true false [] new_hook) in
  made h = 11%nat ∧ attached h = [] ∧ timers h = [] ∧ isReconnecting h = false ∧
  connectionError h = Some "Connection to match feed lost. Showing last known state." ∧ ∀ k, failing_attempts (String c s) true k h = h.
Proof. cbn zeta. rewrite six_failures. split_and!; try reflexivity. intros [|k]; reflexivity. Qed.

(** ** Reports of scores: [useMatchScoreReporting] *)

Record ScoreSubmission := mkSubmission { sub_matchId : string; player1Score : Z; player2Score : Z; reporterId : string; reporterName : option string }.
Record ScoreReport := mkReport { rep_id : string; rep_name : string; rep_player1 : Z; rep_player2 : Z; submittedAt : Z }.

(** The pending report of the cache, the conflict shown, and the reports under
    way with the report expected when they were made. *)
Record Reporting := mkReporting {
  pendingReport : option ScoreReport; conflictDetected : bool; conflictingReport : option ScoreReport; under_way : list (ScoreSubmission * option ScoreReport) }.

Definition no_reports : Reporting := mkReporting None false None [].

(** [onMutate], and the request begins *)
Definition submit (now : Z) (expected : option ScoreReport) (r : ScoreSubmission) (s : Reporting) : Reporting :=
  mkReporting (Some (mkReport (reporterId r) (default "You" (reporterName r)) (player1Score r) (player2Score r) now))
    (conflictDetected s) (conflictingReport s) (under_way s ++ [(r, expected)]).

Definition conflicts (r : ScoreSubmission) (expected : option ScoreReport) : option ScoreReport :=
  match expected with
  | Some e => if negb (bool_decide (rep_player1 e = player1Score r)) || negb (bool_decide (rep_player2 e = player2Score r)) then Some e else None
  | None => None
  end.

(** The request ends: [onError] or [onSuccess], and what [reportScore] returns. *)
Definition end_report (k : nat) (s : Reporting) : Reporting * option bool :=
  match under_way s !! k with
  | None => (s, None)
  | Some (r, expected) =>
      let rest := delete k (under_way s) in
      match conflicts r expected with
      | Some e => (mkReporting (pendingReport s) true (Some e) rest, Some false)
      | None => (mkReporting (pendingReport s) false None rest, Some true)
      end
  end.

Definition clearConflict (s : Reporting) : Reporting := mkReporting (pendingReport s) false None (under_way s).

(** A report is refused exactly when the opponent has reported another score,
    which is then shown. *)
Theorem report_spec k s r expected :
  under_way s !! k = Some (r, expected) →
  let '(s', res) := end_report k s in
  (res = Some false ↔ ∃ e, expected = Some e ∧ (rep_player1 e, rep_player2 e) ≠ (player1Score r, player2Score r)) ∧
  (res = Some true ↔ conflictDetected s' = false) ∧ (res = Some false → conflictingReport s' = expected) ∧ length (under_way s) = S (length (under_way s')).
Proof.
  intros Hk. unfold end_report. rewrite Hk. assert (length (under_way s) = S (length (delete k (under_way s)))) as Hlen.
  { apply lookup_lt_Some in Hk. rewrite length_delete by (by apply lookup_lt_is_Some_2). lia. }
  assert (conflicts r expected = None ∧ (∀ e, expected = Some e → (rep_player1 e, rep_player2 e) = (player1Score r, player2Score r)) ∨
    ∃ e, conflicts r expected = Some e ∧ expected = Some e ∧ (rep_player1 e, rep_player2 e) ≠ (player1Score r, player2Score r)) as [[-> Hs]|(e & -> & -> & Hne)].
  { unfold conflicts. destruct expected as [e|]; [|by left]. destruct (bool_decide_reflect (rep_player1 e = player1Score r)) as [E1|E1]; cbn [negb orb];
      [destruct (bool_decide_reflect (rep_player2 e = player2Score r)) as [E2|E2]; cbn [negb orb]|]; [left|right; exists e|right; exists e].
    - split; [done|]. intros e' [= <-]. by rewrite E1, E2.
    - split_and!; [done|done|]. intros [= ? ?]. contradiction.
    - split_and!; [done|done|]. intros [= ? ?]. contradiction. }
  - split_and!; [|done|discriminate|exact Hlen]. split; [discriminate|]. intros (e & He & Hne). by destruct (Hne (Hs e He)).
  - split_and!; [|done|done|exact Hlen]. split; [|done]. intros _. by exists e.
Qed.

(** ** Runs *)

Module Demo.
Definition run (events : list Event) : Hook := live "m1" true false events new_hook.
Definition report (a b : Z) : ScoreSubmission := mkSubmission "m1" a b "p1" None.
Definition theirs : ScoreReport := mkReport "p2" "Bob" 2 1 0.
End Demo.


Lemma report_spec_witness : (end_report 0 (submit 5 (Some Demo.theirs) (Demo.report 1 2) no_reports)).2 = Some false.
Proof.
  pose proof (report_spec 0 (submit 5 (Some Demo.theirs) (Demo.report 1 2) no_reports) (Demo.report 1 2) (Some Demo.theirs) eq_refl) as Hr.
  destruct (end_report 0 _) as [s' res]. apply (proj1 Hr). exists Demo.theirs. split; [reflexivity|discriminate].
Defined.

(** A connection that is refused while the hook reconnects leaves it reconnecting,
    with nothing that would end it. *)
Example refused_while_reconnecting :
  let h := Demo.run [Closed 0 1006; TimerFires 1 false; Closed 2 4401] in
  (isReconnecting h, connectionError h, attached h, timers h) = (true, Some "Authentication failed. Please refresh the page.", [], []).
Proof. vm_compute. reflexivity. Qed.

(** Connecting anew keeps the flag of the old connection: the hook is connected
    while its only socket is not. *)
Example connected_while_connecting :
  let h := Demo.run [Opened 0; Reconnect false] in isConnected h = true ∧ attached h = [1%nat].
Proof. vm_compute. done. Qed.

(** The longest wait is eight seconds: the limit of thirty is never reached. *)
Example longest_wait : reconnect_delay (MAX_RECONNECT_ATTEMPTS - 1) = 8000.
Proof. reflexivity. Qed.

(** A server that accepts and drops at once is asked for ever, every half second. *)
Example flapping_server :
  let h := Demo.run [Opened 0; Closed 0 1006; TimerFires 1 false; Opened 2; Closed 2 1006] in (retryCount h, snd <$> timers h) = (1, [500]).
Proof. vm_compute. reflexivity. Qed.

(** The update of another match is shown. *)
Example other_match_shown :
  u_matchId <$> lastUpdate (Demo.run [Opened 0; Message 0 7 (Some (mkIncoming None (Some "m2") (Some 1) (Some 0) None None None None))]) = Some "m2".
Proof. vm_compute. reflexivity. Qed.

(** A report that was refused stays pending. *)
Example refused_report_pending :
  let s := (end_report 0 (submit 5 (Some Demo.theirs) (Demo.report 1 2) no_reports)).1 in
  rep_player1 <$> pendingReport (clearConflict s) = Some 1.
Proof. reflexivity. Qed.
