(* ===== verification/ClientWallet.v ===== *)
(** * The wallet of the client: [frontend/src/lib/wallet/config.ts],
    [balances.ts], [transactions.ts] and [frontend/src/hooks/useTxStatus.tsx]

    The Stellar network and the wallet extensions are reached through requests
    whose answers are inputs; a request may throw.  Amounts are counted in units of
    10^-7, the precision of the network, and balances are rationals.  What [Number]
    makes of a text is a parameter.  Building and parsing of transactions is the
    SDK's: a transaction is what it was built from. *)

From Stdlib Require Import Ascii QArith Qround Lqa.
From stdpp Require Import prelude gmap strings list pretty sorting.
From S2P Require Import Prelude JsText Json.

#[local] Open Scope Z_scope.

(** ** Data *)

Inductive WalletType := freighter | albedo.
Inductive WalletAssetCode := XLM | USDC | ARENAX.
Inductive AssetSourceType := native | classic_source | soroban_source.
Inductive TxKind := classic | soroban.
Inductive TxDirection := deposit | withdraw | earning.
Inductive TxStatus := pending | success | failed.
Inductive TxPhase := signing | submitted | confirmed.

#[export] Instance WalletType_eq_dec : EqDecision WalletType. Proof. solve_decision. Defined.
#[export] Instance WalletAssetCode_eq_dec : EqDecision WalletAssetCode. Proof. solve_decision. Defined.
#[export] Instance AssetSourceType_eq_dec : EqDecision AssetSourceType. Proof. solve_decision. Defined.
#[export] Instance TxKind_eq_dec : EqDecision TxKind. Proof. solve_decision. Defined.
#[export] Instance TxStatus_eq_dec : EqDecision TxStatus. Proof. solve_decision. Defined.
#[export] Instance TxPhase_eq_dec : EqDecision TxPhase. Proof. solve_decision. Defined.

Definition code_text (a : WalletAssetCode) : string := match a with XLM => "XLM" | USDC => "USDC" | ARENAX => "ARENAX" end.

Record AssetConfig := mkAsset { code : WalletAssetCode; source : AssetSourceType; issuer : option string; contractId : option string }.

(** The environment of the build. *)
Record Env := mkEnv {
  NETWORK : option string; HORIZON_URL : option string; SOROBAN_RPC_URL : option string; STELLAR_EXPLORER : option string; SOROBAN_EXPLORER : option string;
  ESCROW_ENDPOINT : option string; ARENAX_ENDPOINT : option string; USDC_ISSUER : option string; ARENAX_ISSUER : option string; ARENAX_CONTRACT : option string }.

Record WalletConfig := mkConfig {
  mainnet : bool; horizonUrl : string; sorobanRpcUrl : string; stellarExplorerBase : string; sorobanExplorerBase : string;
  escrowBalancesEndpoint : option string; arenaxSorobanBalanceEndpoint : option string; assets : WalletAssetCode → AssetConfig }.

Definition given (o : option string) : bool := match o with Some s => negb (bool_decide (s = "")) | None => false end.

Definition walletConfig (e : Env) : WalletConfig :=
  let rawNetwork := default "testnet" (lowercase <$> NETWORK e) in
  let isMainnet := bool_decide (rawNetwork ∈ ["mainnet"; "public"]) in
  let explorer := "https://stellar.expert/explorer/" +:+ (if isMainnet then "public" else "testnet") +:+ "/tx" in
  let arenaxSource := if given (ARENAX_CONTRACT e) && negb (given (ARENAX_ISSUER e)) then soroban_source else classic_source in
  mkConfig isMainnet
    (default (if isMainnet then "https://horizon.stellar.org" else "https://horizon-testnet.stellar.org") (HORIZON_URL e))
    (default (if isMainnet then "https://soroban-mainnet.stellar.org" else "https://soroban-testnet.stellar.org") (SOROBAN_RPC_URL e))
    (default explorer (STELLAR_EXPLORER e)) (default explorer (SOROBAN_EXPLORER e)) (ESCROW_ENDPOINT e) (ARENAX_ENDPOINT e)
    (λ a, match a with
          | XLM => mkAsset XLM native None None
          | USDC => mkAsset USDC classic_source (USDC_ISSUER e) None
          | ARENAX => mkAsset ARENAX arenaxSource (ARENAX_ISSUER e) (ARENAX_CONTRACT e)
          end).

(** [base.replace(/\/$/, "")] *)
Fixpoint strip_slash (s : string) : string :=
  match s with
  | "" => ""
  | String c "" => if bool_decide (c = "/"%char) then "" else s
  | String c s' => String c (strip_slash s')
  end.

Definition buildExplorerLink (encodeURIComponent : string → string) (cfg : WalletConfig) (hash : string) (kind : TxKind) : string :=
  strip_slash (if bool_decide (kind = soroban) then sorobanExplorerBase cfg else stellarExplorerBase cfg) +:+ "/" +:+ encodeURIComponent hash.

(** ** Requests *)

Record Response := mkResponse { r_status : Z; r_json : option json }.

Definition r_ok (r : Response) : bool := bool_decide (200 ≤ r_status r ≤ 299).

(** What the network answers to each request, the number of requests so far and
    the time waited. *)
Record World := mkWorld { asked : nat; slept : Z }.

Section network.
Context (answers : nat → result Response).

Definition fetch : M World Response := λ w, (mkWorld (S (asked w)) (slept w), answers (asked w)).
Definition sleep (ms : Z) : M World unit := modify (λ w, mkWorld (asked w) (slept w + ms)).

(** [response.json()] throws when the body is not JSON, and reading a property of
    [null] does too. *)
Definition body (r : Response) : M World json := match r_json r with Some v => mret v | None => throw (JsError "Unexpected token in JSON") end.

Definition is_null (v : json) : bool := match v with JNull => true | _ => false end.
Definition members (v : json) : M World json := if is_null v then throw (JsError "Cannot read properties of null") else mret v.

(** ** Balances *)

Section balances.
Context (cfg : WalletConfig) (number_of : string → option Q).

Record HorizonBalanceLine := mkLine { asset_type : string; balance : string; asset_code : option string; asset_issuer : option string }.
Record AssetBalance := mkBalance {
  b_asset : WalletAssetCode; available : Q; locked : Q; total : Q; hasTrustline : bool; b_source : AssetSourceType; b_issuer : option string; b_contractId : option string }.
Notation WalletBalances := (WalletAssetCode → AssetBalance).
Notation LockedBalances := (WalletAssetCode → Q).

(** An array is read through its text: the text of a single element. *)
Fixpoint element_number (v : json) : Q :=
  match v with
  | JNum t | JStr t => default 0%Q (number_of t)
  | JArr [x] => element_number x
  | _ => 0%Q
  end.
Definition array_number (l : list json) : Q := match l with [x] => element_number x | _ => 0%Q end.

(** [Number(value)], and 0 when that is not finite *)
Definition toNumber (v : json) : Q :=
  match v with
  | JNum t | JStr t => default 0%Q (number_of t)
  | JBool true => 1%Q
  | JArr l => array_number l
  | _ => 0%Q
  end.

Definition emptyLockedBalances : LockedBalances := λ _, 0%Q.

Definition buildAssetBalance (asset : WalletAssetCode) (a l : Q) (trust : bool) : AssetBalance :=
  let config := assets cfg asset in
  mkBalance asset a l (a + l)%Q trust (source config) (issuer config) (contractId config).

Definition is_object (v : json) : bool := match v with JObj _ | JArr _ => true | _ => false end.

Definition normalizeLockedBalances (raw : json) : LockedBalances :=
  if negb (is_object raw) then emptyLockedBalances
  else
    let node := if is_object (json_prop "locked" raw) then json_prop "locked" raw else raw in
    λ a, toNumber (json_prop (code_text a) node).

(** What can be read of an account; a body of another shape is not answered. *)
Definition text_of (v : json) : option string := match v with JStr s => Some s | _ => None end.
Definition line_of (v : json) : option HorizonBalanceLine :=
  t ← text_of (json_prop "asset_type" v);
  b ← text_of (json_prop "balance" v);
  Some (mkLine t b (text_of (json_prop "asset_code" v)) (text_of (json_prop "asset_issuer" v))).
Definition lines_of (v : json) : list HorizonBalanceLine := match json_prop "balances" v with JArr l => omap line_of l | _ => [] end.

Definition fetchHorizonAccount : M World (option (list HorizonBalanceLine)) :=
  response ← fetch;
  if bool_decide (r_status response = 404) then mret None
  else if negb (r_ok response) then throw (JsError "Unable to load wallet balances from Horizon.")
  else v ← body response; mret (if is_null v then None else Some (lines_of v)).

Definition findClassicTrustline (lines : list HorizonBalanceLine) (a : WalletAssetCode) (i : option string) : option HorizonBalanceLine :=
  List.find (λ l,
    if bool_decide (asset_type l = "native") then false
    else if negb (bool_decide (asset_code l = Some (code_text a))) then false
    else if given i then bool_decide (asset_issuer l = i) else true) lines.

Definition fetchArenaxSorobanBalance : M World Q :=
  if negb (given (arenaxSorobanBalanceEndpoint cfg)) then mret 0%Q
  else
    try_catch
      (response ← fetch;
       if negb (r_ok response) then mret 0%Q else v ← body response; v ← members v; mret (toNumber (json_prop "balance" v)))
      (λ _, mret 0%Q).

Definition fetchLockedBalances : M World LockedBalances :=
  if negb (given (escrowBalancesEndpoint cfg)) then mret emptyLockedBalances
  else
    try_catch
      (response ← fetch;
       if negb (r_ok response) then mret emptyLockedBalances else v ← body response; mret (normalizeLockedBalances v))
      (λ _, mret emptyLockedBalances).

Definition balance_of (o : option HorizonBalanceLine) : Q := match o with Some l => default 0%Q (number_of (balance l)) | None => 0%Q end.

(** Both requests of [Promise.all] are made, and then the first failure is thrown. *)
Definition outcome {A} (m : M World A) : M World (result A) := λ w, let '(w', r) := m w in (w', Ok r).
Definition of_result {A} (r : result A) : M World A := match r with Ok a => mret a | Throw e => throw e end.

Definition arenaxBalance (lines : list HorizonBalanceLine) : M World (Q * bool) :=
  let arenaConfig := assets cfg ARENAX in
  if bool_decide (source arenaConfig = soroban_source) then b ← fetchArenaxSorobanBalance; mret (b, true)
  else let l := findClassicTrustline lines ARENAX (issuer arenaConfig) in mret (balance_of l, bool_decide (is_Some l)).

Definition fetchWalletBalances : M World WalletBalances :=
  answered ← outcome fetchHorizonAccount;
  lockedBalances ← fetchLockedBalances;
  account ← of_result answered;
  let lines := default [] account in
  let xlm := List.find (λ l, bool_decide (asset_type l = "native")) lines in
  let usdc := findClassicTrustline lines USDC (issuer (assets cfg USDC)) in
  let arenaConfig := assets cfg ARENAX in
  '(arenaxAvailable, arenaxTrustline) ← arenaxBalance lines;
  mret (λ a,
    match a with
    | XLM => buildAssetBalance XLM (balance_of xlm) (lockedBalances XLM) true
    | USDC => buildAssetBalance USDC (balance_of usdc) (lockedBalances USDC) (bool_decide (is_Some account) && bool_decide (is_Some usdc))
    | ARENAX =>
        buildAssetBalance ARENAX arenaxAvailable (lockedBalances ARENAX)
          (if bool_decide (¬ is_Some account) && bool_decide (source arenaConfig = classic_source) then false else arenaxTrustline)
    end).

Definition createEmptyBalances : WalletBalances := λ a, buildAssetBalance a 0%Q (emptyLockedBalances a) (bool_decide (a = XLM)).
End balances.

(** ** Waiting for a confirmation *)

Definition truthy_list (v : json) : option (list json) := match v with JArr l => Some l | _ => None end.

(** [String(value ?? "")] of what the network sends: texts *)
Definition op_code (l : list json) : string := match l with JStr s :: _ => s | _ => "" end.

Definition parseHorizonFailure (payload : json) : string :=
  if negb (is_object payload) then "Transaction failed on Stellar network."
  else
    let title := default "" (text_of (json_prop "title" payload)) in
    let resultCodes := json_prop "result_codes" (json_prop "extras" payload) in
    let fallback := if bool_decide (title = "") then "Transaction failed on Stellar network." else title in
    match truthy_list (json_prop "operations" resultCodes) with
    | Some l =>
        let c := op_code l in
        if bool_decide (c = "op_no_trust") then "Destination account does not trust this asset."
        else if bool_decide (c = "op_underfunded") then "Insufficient balance for this transaction."
        else if bool_decide (c = "op_no_destination") then "Destination account does not exist on Stellar."
        else if bool_decide (c = "") then fallback
        else "Operation failed: " +:+ c +:+ "."
    | None => fallback
    end.

Definition TIMED_OUT_HORIZON : exn := JsError "Timed out waiting for Stellar confirmation.".
Definition TIMED_OUT_SOROBAN : exn := JsError "Timed out waiting for Soroban confirmation.".

(** The loop with so many attempts left. *)
Fixpoint horizon_loop (attempts : nat) : M World unit :=
  match attempts with
  | O => throw TIMED_OUT_HORIZON
  | S n =>
      response ← fetch;
      if bool_decide (r_status response = 404) then _ ← sleep 1500; horizon_loop n
      else if negb (r_ok response) then throw (JsError "Unable to verify transaction status from Horizon.")
      else
        payload ← body response; payload ← members payload;
        match json_prop "successful" payload with
        | JBool true => mret tt
        | JBool false => throw (JsError (parseHorizonFailure payload))
        | _ => _ ← sleep 1000; horizon_loop n
        end
  end.

Definition waitForHorizonConfirmation : M World unit := horizon_loop 24.

Definition readSorobanFailureMessage (v : json) : string :=
  match json_prop "errorResultXdr" v with
  | JStr s => if bool_decide (s = "") then "Soroban transaction failed." else "Soroban transaction failed while executing contract call."
  | _ => "Soroban transaction failed."
  end.

Fixpoint soroban_loop (attempts : nat) : M World unit :=
  match attempts with
  | O => throw TIMED_OUT_SOROBAN
  | S n =>
      response ← fetch;
      if negb (r_ok response) then _ ← sleep 1200; soroban_loop n
      else
        payload ← body response; payload ← members payload;
        let message := default "" (text_of (json_prop "message" (json_prop "error" payload))) in
        if negb (bool_decide (message = "")) then throw (JsError message)
        else
          let status := default "" (text_of (json_prop "status" (json_prop "result" payload))) in
          if bool_decide (status = "SUCCESS") then mret tt
          else if bool_decide (status = "FAILED") then throw (JsError (readSorobanFailureMessage (json_prop "result" payload)))
          else _ ← sleep 1200; soroban_loop n
  end.

Definition waitForSorobanConfirmation : M World unit := soroban_loop 30.

Definition waitForTransactionConfirmation (kind : TxKind) : M World unit :=
  if bool_decide (kind = soroban) then waitForSorobanConfirmation else waitForHorizonConfirmation.
End network.

(** ** Errors *)

(** What may be thrown: an [Error], an object with a message or the response of
    Horizon, or something else; [Nothing] is any falsy value. *)
Inductive ErrorValue := Nothing | AnError (message : string) | AnObject (message : option string) (response : option json) | Other.

Definition mentions (words : list string) (message : string) : bool := existsb (λ w, str_contains w (lowercase message)) words.

Definition sanitizeTxError (e : ErrorValue) : string :=
  match e with
  | Nothing | Other => "Transaction failed."
  | AnError m =>
      let message := trim m in
      if mentions ["denied"; "rejected"; "declined"] message then "Transaction was rejected in your wallet."
      else if mentions ["op_no_trust"] message then "Destination account does not trust the selected asset."
      else if mentions ["op_underfunded"; "insufficient"] message then "Insufficient balance for this transfer."
      else if mentions ["op_no_destination"] message then "Destination account does not exist on Stellar."
      else if bool_decide (message = "") then "Transaction failed." else message
  | AnObject m r =>
      if given m then default "" m
      else match r with Some payload => parseHorizonFailure payload | None => "Transaction failed." end
  end.

(** An exception of the model is an [Error]. *)
Definition message_of (e : exn) : string := match e with JsError m | HttpError _ m => m | PrismaError c => c | UniqueConstraint _ => "" end.

(** ** Withdrawals *)

(** [amount.toFixed(7)]: the nearest multiple of 10^-7, the larger one of two. *)
Definition units (q : Q) : Z := Qfloor (q * 10000000 + (1 # 2))%Q.
Definition fixed_text (n : Z) : string := (pretty (n / 10000000) : string) +:+ "." +:+ pad_digits 7 (n mod 10000000).
Definition toFixed7 (q : Q) : string := if bool_decide (Qnum q < 0) then "-" +:+ fixed_text (units (- q)) else fixed_text (units q).

Fixpoint all_zeros (s : string) : bool := match s with "" => true | String c s' => bool_decide (c = "0"%char) && all_zeros s' end.

(** [.replace(/\.0+$/, '')] *)
Fixpoint drop_zero_fraction (s : string) : string :=
  match s with
  | "" => ""
  | String c s' => if bool_decide (c = "."%char) && negb (bool_decide (s' = "")) && all_zeros s' then "" else String c (drop_zero_fraction s')
  end.

(** The shortest prefix after which only zeros are left. *)
Fixpoint drop_zeros (s : string) : string :=
  match s with
  | "" => ""
  | String c s' => if all_zeros s then "" else String c (drop_zeros s')
  end.

Fixpoint ends_in_zero (s : string) : bool :=
  match s with
  | "" => false
  | String c "" => bool_decide (c = "0"%char)
  | String _ s' => ends_in_zero s'
  end.

(** [.replace(/(\.\d*?)0+$/, '$1')] *)
Fixpoint drop_trailing_zeros (s : string) : string :=
  match s with
  | "" => ""
  | String c s' => if bool_decide (c = "."%char) && all_chars is_digit s' && ends_in_zero s' then String c (drop_zeros s') else String c (drop_trailing_zeros s')
  end.

Definition normalizeAmount (amount : Q) : string :=
  let normalized := drop_trailing_zeros (drop_zero_fraction (toFixed7 amount)) in
  if bool_decide (normalized = "") then "0" else normalized.

Example amounts : (normalizeAmount (5 # 2), normalizeAmount 10, normalizeAmount (1 # 10000000), normalizeAmount 0) = ("2.5", "10", "0.0000001", "0").
Proof. vm_compute. reflexivity. Qed.

Record WalletSession := mkSession { publicKey : string; walletType : WalletType; s_mainnet : bool }.
Record SubmitWithdrawParams := mkWithdraw { w_wallet : WalletSession; w_asset : WalletAssetCode; w_amount : Q; w_destination : string; w_memo : option string }.
Record SubmitTxResult := mkSubmitted { t_hash : string; t_kind : TxKind }.

Inductive StellarAsset := Native | Issued (asset issuer : string).

(** What the transaction of a withdrawal is built from. *)
Record Payment := mkPayment { p_source : string; p_destination : string; p_amount : string; p_asset : StellarAsset; p_memo : option string }.

Definition MAX_MEMO_LENGTH : nat := 28.

(** What was reported to [onPhaseChange] and what was sent to Horizon. *)
Record Flow := mkFlow { phases : list TxPhase; sent : list string }.

Definition onPhaseChange (p : TxPhase) : M Flow unit := modify (λ f, mkFlow (phases f ++ [p]) (sent f)).

(** The answer of Freighter: its error, with the message if it has one. *)
Record FreighterResult := mkFreighter { f_error : option (option string); signedTxXdr : option string }.

Section withdraw.
(** The SDK, the extensions and Horizon: a source account is loaded or not, a payment
    becomes an envelope or is refused, and an envelope is signed and submitted. *)
Context (cfg : WalletConfig) (loadAccount : string → result unit) (build : Payment → result string)
  (freighter_sign : string → string → result FreighterResult) (albedo_tx : string → bool → string → result (option string))
  (submitTransaction : string → result (option string)).

Definition answer {A} (r : result A) : M Flow A := match r with Ok a => mret a | Throw e => throw e end.

Definition createClassicAsset (asset : WalletAssetCode) : M Flow StellarAsset :=
  if bool_decide (asset = XLM) then mret Native
  else
    let config := assets cfg asset in
    if bool_decide (source config = soroban_source) then throw (JsError (code_text asset +:+ " is configured as a Soroban contract token in this environment."))
    else if negb (given (issuer config)) then throw (JsError (code_text asset +:+ " issuer is not configured."))
    else mret (Issued (code_text asset) (default "" (issuer config))).

Definition readFreighterMessage (e : option (option string)) : string :=
  match e with
  | Some (Some m) => if bool_decide (m = "") then "Freighter rejected the request." else m
  | _ => "Freighter rejected the request."
  end.

Definition signWithFreighter (wallet : WalletSession) (unsignedXdr : string) : M Flow string :=
  r ← answer (freighter_sign unsignedXdr (publicKey wallet));
  if bool_decide (f_error r ≠ None) || negb (given (signedTxXdr r)) then throw (JsError (readFreighterMessage (f_error r)))
  else mret (default "" (signedTxXdr r)).

Definition signWithAlbedo (wallet : WalletSession) (unsignedXdr : string) : M Flow string :=
  r ← answer (albedo_tx unsignedXdr (s_mainnet wallet) (publicKey wallet));
  if negb (given r) then throw (JsError "Albedo did not return a signed transaction.") else mret (default "" r).

Definition sign (wallet : WalletSession) (unsignedXdr : string) : M Flow string :=
  if bool_decide (walletType wallet = freighter) then signWithFreighter wallet unsignedXdr else signWithAlbedo wallet unsignedXdr.

Definition submitSignedXdr (signedXdr : string) : M Flow string :=
  _ ← modify (λ f, mkFlow (phases f) (sent f ++ [signedXdr]));
  h ← answer (submitTransaction signedXdr);
  if negb (given h) then throw (JsError "Unable to determine submitted transaction hash.") else mret (default "" h).

Definition payment_of (p : SubmitWithdrawParams) (a : StellarAsset) : Payment :=
  mkPayment (publicKey (w_wallet p)) (w_destination p) (normalizeAmount (w_amount p)) a
    (if given (w_memo p) then String.substring 0 MAX_MEMO_LENGTH <$> w_memo p else None).

Definition submitClassicWithdraw (p : SubmitWithdrawParams) : M Flow SubmitTxResult :=
  _ ← onPhaseChange signing;
  _ ← answer (loadAccount (publicKey (w_wallet p)));
  a ← createClassicAsset (w_asset p);
  xdr ← answer (build (payment_of p a));
  signedXdr ← sign (w_wallet p) xdr;
  _ ← onPhaseChange submitted;
  hash ← submitSignedXdr signedXdr;
  mret (mkSubmitted hash classic).

Definition submitSorobanWithdraw (p : SubmitWithdrawParams) : M Flow SubmitTxResult :=
  _ ← onPhaseChange signing;
  throw (JsError "Soroban transfer flow is not configured for this ArenaX deployment.").

Definition submitWithdrawTransaction (p : SubmitWithdrawParams) : M Flow SubmitTxResult :=
  if bool_decide (source (assets cfg (w_asset p)) = soroban_source) then submitSorobanWithdraw p else submitClassicWithdraw p.
End withdraw.

(** ** The status of transactions *)

Record TxMeta := mkMeta { m_kind : TxKind; m_direction : TxDirection; m_asset : WalletAssetCode; m_amount : Q; m_title : option string }.

Record TxHistoryItem := mkItem {
  h_id : string; h_direction : TxDirection; h_asset : WalletAssetCode; h_amount : Q; h_kind : TxKind; h_status : TxStatus; h_phase : option TxPhase;
  h_hash : option string; h_explorerUrl : option string; h_reason : option string; h_timestamp : Z }.

Record ToastItem := mkToast { toast_title : string; toast_item : TxHistoryItem }.

(** The variables of a call of [trackTx] that is under way. *)
Record Tracked := mkTracked { tr_meta : TxMeta; tr_timestamp : Z; tr_phase : TxPhase; tr_kind : TxKind; tr_hash : option string }.

(** [stored] is the history written to the storage of the browser. *)
Record Tracker := mkTracker { toasts : list ToastItem; history : list TxHistoryItem; stored : list TxHistoryItem; running : gmap string Tracked }.

Definition MAX_HISTORY_ITEMS : nat := 50.
Definition MAX_TOASTS : nat := 6.

Inductive TrackTxResult := OfHash (hash : string) | OfResult (hash : string) (kind : option TxKind).

Section tracker.
Context (cfg : WalletConfig) (encodeURIComponent : string → string).

Definition link (hash : string) (kind : TxKind) : string := buildExplorerLink encodeURIComponent cfg hash kind.
Definition link_of (hash : option string) (kind : TxKind) : option string := if given hash then (λ h, link h kind) <$> hash else None.

(** [useState(() => readHistory())] *)
Definition openTracker (read : option (list TxHistoryItem)) : Tracker := mkTracker [] (default [] read) (default [] read) ∅.

Definition prependHistory (entry : TxHistoryItem) (t : Tracker) : Tracker :=
  let next := take MAX_HISTORY_ITEMS (entry :: history t) in mkTracker (toasts t) next next (running t).

Definition appendHistory (i : string) (now : Z) (m : TxMeta) (kind : option TxKind) (status : option TxStatus) (hash reason : option string) (t : Tracker) : Tracker :=
  let k := default classic kind in
  prependHistory (mkItem i (m_direction m) (m_asset m) (m_amount m) k (default pending status) None hash (link_of hash k) reason now) t.

Definition dismissToast (i : string) (t : Tracker) : Tracker :=
  mkTracker (filter (λ x, h_id (toast_item x) ≠ i) (toasts t)) (history t) (stored t) (running t).

Definition updateToast (i : string) (updater : TxHistoryItem → TxHistoryItem) (t : Tracker) : Tracker :=
  mkTracker ((λ x, if bool_decide (h_id (toast_item x) = i) then mkToast (toast_title x) (updater (toast_item x)) else x) <$> toasts t)
    (history t) (stored t) (running t).

Definition pushToast (x : ToastItem) (t : Tracker) : Tracker := mkTracker (take MAX_TOASTS (x :: toasts t)) (history t) (stored t) (running t).

Definition clearHistory (t : Tracker) : Tracker := mkTracker (toasts t) [] [] (running t).

Definition with_running (r : gmap string Tracked) (t : Tracker) : Tracker := mkTracker (toasts t) (history t) (stored t) r.

Definition set_phase (p : TxPhase) (x : TxHistoryItem) : TxHistoryItem :=
  mkItem (h_id x) (h_direction x) (h_asset x) (h_amount x) (h_kind x) (h_status x) (Some p) (h_hash x) (h_explorerUrl x) (h_reason x) (h_timestamp x).
Definition set_hash (hash url : option string) (x : TxHistoryItem) : TxHistoryItem :=
  mkItem (h_id x) (h_direction x) (h_asset x) (h_amount x) (h_kind x) (h_status x) (h_phase x) hash url (h_reason x) (h_timestamp x).
Definition set_status (s : TxStatus) (reason : option string) (x : TxHistoryItem) : TxHistoryItem :=
  mkItem (h_id x) (h_direction x) (h_asset x) (h_amount x) (h_kind x) s (h_phase x) (h_hash x) (h_explorerUrl x) reason (h_timestamp x).

(** [trackTx] until the input is awaited *)
Definition track_begin (i : string) (now : Z) (m : TxMeta) (t : Tracker) : Tracker :=
  let phase := if bool_decide (m_kind m = soroban) then signing else submitted in
  with_running (<[i := mkTracked m now phase (m_kind m) None]> (running t))
    (pushToast (mkToast (default "Transaction Pending" (m_title m))
       (mkItem i (m_direction m) (m_asset m) (m_amount m) (m_kind m) pending (Some phase) None None None now)) t).

(** [setPhase] *)
Definition setPhase (i : string) (p : TxPhase) (t : Tracker) : Tracker :=
  updateToast i (set_phase p)
    (with_running (alter (λ r, mkTracked (tr_meta r) (tr_timestamp r) p (tr_kind r) (tr_hash r)) i (running t)) t).

Definition settled_item (i : string) (r : Tracked) (s : TxStatus) (reason : option string) (p : TxPhase) : TxHistoryItem :=
  let m := tr_meta r in
  mkItem i (m_direction m) (m_asset m) (m_amount m) (tr_kind r) s (Some p) (tr_hash r) (link_of (tr_hash r) (tr_kind r)) reason (tr_timestamp r).

(** The [catch] of [trackTx] *)
Definition track_failed (i : string) (e : ErrorValue) (t : Tracker) : Tracker :=
  match running t !! i with
  | None => t
  | Some r =>
      let reason := sanitizeTxError e in
      with_running (delete i (running t))
        (prependHistory (settled_item i r failed (Some reason) (tr_phase r))
          (updateToast i (λ x, set_hash (tr_hash r) (link_of (tr_hash r) (tr_kind r)) (set_status failed (Some reason) x)) t))
  end.

(** [trackTx] when the input was awaited, until the confirmation is awaited *)
Definition track_response (i : string) (answer : TrackTxResult + ErrorValue) (t : Tracker) : Tracker :=
  match running t !! i with
  | None => t
  | Some r =>
      match answer with
      | inr e => track_failed i e t
      | inl response =>
          let '(hash, kind) := match response with OfHash h => (h, tr_kind r) | OfResult h k => (h, default (tr_kind r) k) end in
          let t1 := with_running (<[i := mkTracked (tr_meta r) (tr_timestamp r) (tr_phase r) kind (Some hash)]> (running t)) t in
          if bool_decide (hash = "") then track_failed i (AnError "Submitted transaction did not return a hash.") t1
          else
            let t2 := if bool_decide (tr_phase r = signing) then setPhase i submitted t1 else t1 in
            updateToast i (set_hash (Some hash) (Some (link hash kind))) t2
      end
  end.

(** [trackTx] when the confirmation was awaited *)
Definition track_confirmed (i : string) (t : Tracker) : Tracker :=
  match running t !! i with
  | None => t
  | Some r =>
      let url := link_of (tr_hash r) (tr_kind r) in
      with_running (delete i (running t))
        (prependHistory (settled_item i r success None confirmed)
          (updateToast i (λ x, set_hash (tr_hash r) url (set_status success (h_reason x) x)) (setPhase i confirmed t)))
  end.

Definition track_settled (i : string) (answer : result unit) (t : Tracker) : Tracker :=
  match answer with Ok _ => track_confirmed i t | Throw e => track_failed i (AnError (message_of e)) t end.

(** What is awaited: a call without a hash awaits its input, one with a hash its
    confirmation. *)
Definition awaits_input (i : string) (t : Tracker) : bool := match running t !! i with Some r => bool_decide (tr_hash r = None) | None => false end.
Definition awaits_confirmation (i : string) (t : Tracker) : bool := match running t !! i with Some r => bool_decide (tr_hash r ≠ None) | None => false end.

Inductive Event :=
| Track (i : string) (now : Z) (m : TxMeta)
| Phase (i : string) (p : TxPhase)
| Responded (i : string) (answer : TrackTxResult + ErrorValue)
| Settled (i : string) (answer : result unit)
| Append (i : string) (now : Z) (m : TxMeta) (kind : option TxKind) (status : option TxStatus) (hash reason : option string)
| Dismiss (i : string)
| Clear.

Definition handle (e : Event) (t : Tracker) : Tracker :=
  match e with
  | Track i now m => track_begin i now m t
  | Phase i p => setPhase i p t
  | Responded i a => if awaits_input i t then track_response i a t else t
  | Settled i a => if awaits_confirmation i t then track_settled i a t else t
  | Append i now m k s h r => appendHistory i now m k s h r t
  | Dismiss i => dismissToast i t
  | Clear => clearHistory t
  end.

Definition run (es : list Event) (t : Tracker) : Tracker := fold_left (λ t e, handle e t) es t.
End tracker.

(** ** The confirmation *)

(** What an answer decides: nothing, that the transaction was confirmed, or that it
    failed. *)
Section verdicts.
Context (answers : nat → result Response).

Definition horizon_verdict (a : result Response) : option (result unit) :=
  match a with
  | Throw e => Some (Throw e)
  | Ok r =>
      if bool_decide (r_status r = 404) then None
      else if negb (r_ok r) then Some (Throw (JsError "Unable to verify transaction status from Horizon."))
      else match r_json r with
           | None => Some (Throw (JsError "Unexpected token in JSON"))
           | Some JNull => Some (Throw (JsError "Cannot read properties of null"))
           | Some v => match json_prop "successful" v with JBool true => Some (Ok tt) | JBool false => Some (Throw (JsError (parseHorizonFailure v))) | _ => None end
           end
  end.

Definition soroban_verdict (a : result Response) : option (result unit) :=
  match a with
  | Throw e => Some (Throw e)
  | Ok r =>
      if negb (r_ok r) then None
      else match r_json r with
           | None => Some (Throw (JsError "Unexpected token in JSON"))
           | Some JNull => Some (Throw (JsError "Cannot read properties of null"))
           | Some v =>
               let message := default "" (text_of (json_prop "message" (json_prop "error" v))) in
               if negb (bool_decide (message = "")) then Some (Throw (JsError message))
               else
                 let status := default "" (text_of (json_prop "status" (json_prop "result" v))) in
                 if bool_decide (status = "SUCCESS") then Some (Ok tt)
                 else if bool_decide (status = "FAILED") then Some (Throw (JsError (readSorobanFailureMessage (json_prop "result" v))))
                 else None
           end
  end.

Definition verdict (kind : TxKind) : result Response → option (result unit) := match kind with soroban => soroban_verdict | classic => horizon_verdict end.
Definition attempts (kind : TxKind) : nat := match kind with soroban => 30 | classic => 24 end.
Definition longest_pause (kind : TxKind) : Z := match kind with soroban => 1200 | classic => 1500 end.
Definition timed_out (kind : TxKind) : exn := match kind with soroban => TIMED_OUT_SOROBAN | classic => TIMED_OUT_HORIZON end.

(** The first of the next [n] answers that decides. *)
Fixpoint first_verdict (v : result Response → option (result unit)) (from n : nat) : option (result unit) :=
  match n with O => None | S n' => match v (answers from) with Some r => Some r | None => first_verdict v (S from) n' end end.

(** A loop that asks once, returns what the answer decides, and otherwise pauses. *)
Definition asks (loop : nat → M World unit) v pause out : Prop :=
  (∀ w, loop O w = (w, Throw out)) ∧
  ∀ n w, match v (answers (asked w)) with
         | Some r => loop (S n) w = (mkWorld (S (asked w)) (slept w), r)
         | None => ∃ d, 0 ≤ d ≤ pause ∧ loop (S n) w = loop n (mkWorld (S (asked w)) (slept w + d))
         end.

Lemma asks_spec loop v pause out : asks loop v pause out → 0 ≤ pause → ∀ n w, let '(w', r) := loop n w in
  r = default (Throw out) (first_verdict v (asked w) n) ∧ (asked w ≤ asked w' ≤ asked w + n)%nat ∧ slept w ≤ slept w' ≤ slept w + pause * Z.of_nat n.
Proof.
  intros [H0 Hs] Hp n. induction n as [|n IH]; intros w; [rewrite H0; split; [done|lia]|].
  specialize (Hs n w). cbn [first_verdict]. destruct (v (answers (asked w))) as [r|].
  - rewrite Hs. cbn [asked slept]. split; [done|nia].
  - destruct Hs as (d & Hd & ->). specialize (IH (mkWorld (S (asked w)) (slept w + d))). cbn [asked slept] in IH.
    destruct (loop n _) as [w' r]. destruct IH as (-> & ? & ?). split; [done|nia].
Qed.

Ltac pausing d := cbv beta iota; exists d; split; [lia|reflexivity].

Lemma horizon_asks : asks (horizon_loop answers) horizon_verdict 1500 TIMED_OUT_HORIZON.
Proof.
  split; [done|]. intros n w. cbn [horizon_loop]. unfold mbind, M_bind, fetch, sleep, modify.
  destruct (answers (asked w)) as [r|e]; [|done]. cbn [horizon_verdict].
  destruct (bool_decide (r_status r = 404)); [pausing 1500|]. destruct (negb (r_ok r)); [done|].
  unfold body. destruct (r_json r) as [v|]; [|done]. unfold members, mret, M_ret.
  destruct v; cbn [is_null asked slept]; try done; try (pausing 1000).
  destruct (json_prop "successful" _) as [| |[]| | | |]; try done; pausing 1000.
Qed.

Lemma soroban_asks : asks (soroban_loop answers) soroban_verdict 1200 TIMED_OUT_SOROBAN.
Proof.
  split; [done|]. intros n w. cbn [soroban_loop]. unfold mbind, M_bind, fetch, sleep, modify.
  destruct (answers (asked w)) as [r|e]; [|done]. cbn [soroban_verdict].
  destruct (negb (r_ok r)); [pausing 1200|].
  unfold body. destruct (r_json r) as [v|]; [|done]. unfold members, mret, M_ret.
  destruct v; cbn [is_null]; try done; cbv beta iota;
    (destruct (negb (bool_decide (default "" (text_of (json_prop "message" _)) = ""))); [done|]);
    (destruct (bool_decide (default "" (text_of (json_prop "status" _)) = "SUCCESS")); [done|]);
    (destruct (bool_decide (default "" (text_of (json_prop "status" _)) = "FAILED")); [done|]); pausing 1200.
Qed.
End verdicts.

(** Waiting for a transaction returns the first verdict among the next
    answers, 24 of Horizon or 30 of Soroban, or times out; no more requests are made
    and no more than 36 seconds are slept. *)
Theorem confirmation_spec answers kind w :
  let '(w', r) := waitForTransactionConfirmation answers kind w in
  r = default (Throw (timed_out kind)) (first_verdict answers (verdict kind) (asked w) (attempts kind)) ∧
  (asked w' ≤ asked w + attempts kind)%nat ∧ slept w' - slept w ≤ 36000.
Proof.
  unfold waitForTransactionConfirmation, waitForSorobanConfirmation, waitForHorizonConfirmation.
  destruct kind; cbn [verdict attempts timed_out]; [rewrite bool_decide_eq_false_2 by done|rewrite bool_decide_eq_true_2 by done].
  - pose proof (asks_spec answers _ _ _ _ (horizon_asks answers) ltac:(lia) 24 w) as H.
    destruct (horizon_loop answers 24 w) as [w' r]. destruct H as (? & ? & ?). split; [done|lia].
  - pose proof (asks_spec answers _ _ _ _ (soroban_asks answers) ltac:(lia) 30 w) as H.
    destruct (soroban_loop answers 30 w) as [w' r]. destruct H as (? & ? & ?). split; [done|lia].
Qed.

(** ** The balances *)

(** What the answer of Horizon says of the account. *)
Definition account_of (a : result Response) : result (option (list HorizonBalanceLine)) :=
  match a with
  | Throw e => Throw e
  | Ok r =>
      if bool_decide (r_status r = 404) then Ok None
      else if negb (r_ok r) then Throw (JsError "Unable to load wallet balances from Horizon.")
      else match r_json r with None => Throw (JsError "Unexpected token in JSON") | Some JNull => Ok None | Some v => Ok (Some (lines_of v)) end
  end.

Lemma fetchHorizonAccount_spec answers w : fetchHorizonAccount answers w = (mkWorld (S (asked w)) (slept w), account_of (answers (asked w))).
Proof.
  unfold fetchHorizonAccount, mbind, M_bind, fetch, account_of. destruct (answers (asked w)) as [r|e]; [|done].
  destruct (bool_decide (r_status r = 404)); [done|]. destruct (negb (r_ok r)); [done|]. unfold body.
  by destruct (r_json r) as [[]|].
Qed.

Lemma locked_total cfg number_of answers w : ∃ w' l, fetchLockedBalances answers cfg number_of w = (w', Ok l).
Proof.
  unfold fetchLockedBalances. destruct (negb _); [by eexists _, _|]. unfold try_catch, mbind, M_bind, fetch.
  destruct (answers (asked w)) as [r|e]; [|by eexists _, _]. destruct (negb _); [by eexists _, _|]. unfold body.
  destruct (r_json r) as [v|]; by eexists _, _.
Qed.

Lemma soroban_total cfg number_of answers w : ∃ w' q, fetchArenaxSorobanBalance answers cfg number_of w = (w', Ok q).
Proof.
  unfold fetchArenaxSorobanBalance. destruct (negb _); [by eexists _, _|]. unfold try_catch, mbind, M_bind, fetch.
  destruct (answers (asked w)) as [r|e]; [|by eexists _, _]. destruct (negb _); [by eexists _, _|]. unfold body.
  destruct (r_json r) as [v|]; [|by eexists _, _]. unfold members. destruct v; by eexists _, _.
Qed.

(** A line of the asset, from the configured issuer if there is one. *)
Definition trusts (cfg : WalletConfig) (a : WalletAssetCode) (l : HorizonBalanceLine) : Prop :=
  asset_type l ≠ "native" ∧ asset_code l = Some (code_text a) ∧ (given (issuer (assets cfg a)) → asset_issuer l = issuer (assets cfg a)).

Lemma find_trustline cfg lines a :
  match findClassicTrustline lines a (issuer (assets cfg a)) with
  | Some l => l ∈ lines ∧ trusts cfg a l
  | None => ∀ l, l ∈ lines → ¬ trusts cfg a l
  end.
Proof.
  unfold findClassicTrustline. destruct (List.find _ lines) as [l|] eqn:E.
  - apply List.find_some in E as [Hin E]. split; [by apply list_elem_of_In|]. unfold trusts.
    destruct (bool_decide_reflect (asset_type l = "native")); [done|]. destruct (bool_decide_reflect (asset_code l = Some (code_text a))); [|done].
    cbn [negb] in E. destruct (given (issuer (assets cfg a))); [apply bool_decide_eq_true in E|]; naive_solver.
  - intros l Hin (H1 & H2 & H3). apply list_elem_of_In in Hin. apply (List.find_none _ _ E) in Hin.
    rewrite bool_decide_eq_false_2 in Hin by done. rewrite (bool_decide_eq_true_2 (asset_code l = _)) in Hin by done. cbn [negb] in Hin.
    destruct (given (issuer (assets cfg a))); [|done]. apply bool_decide_eq_false in Hin. naive_solver.
Qed.

Lemma arenax_total cfg number_of answers lines w : ∃ w' q tr, arenaxBalance answers cfg number_of lines w = (w', Ok (q, tr)) ∧
  (source (assets cfg ARENAX) = classic_source →
    q = balance_of number_of (findClassicTrustline lines ARENAX (issuer (assets cfg ARENAX))) ∧
    tr = bool_decide (is_Some (findClassicTrustline lines ARENAX (issuer (assets cfg ARENAX))))).
Proof.
  unfold arenaxBalance. destruct (bool_decide_reflect (source (assets cfg ARENAX) = soroban_source)) as [Hs|Hs].
  - unfold mbind, M_bind. destruct (soroban_total cfg number_of answers w) as (w2 & q & Eq). rewrite Eq. exists w2, q, true. split; [done|congruence].
  - by eexists _, _, _.
Qed.

Lemma trusted cfg lines a : bool_decide (is_Some (findClassicTrustline lines a (issuer (assets cfg a)))) ↔ ∃ l, l ∈ lines ∧ trusts cfg a l.
Proof.
  rewrite bool_decide_spec. pose proof (find_trustline cfg lines a) as Hf.
  destruct (findClassicTrustline _ _ _) as [l|]; [split; [by exists l|done]|]. split; [by intros [? ?]|]. intros (l & Hl & Ht). by destruct (Hf l Hl).
Qed.

(** The balances of a wallet are an answer of Horizon away: a failure of Horizon
    is thrown, a failure of the other endpoints never is.  A total is what is available
    and what is locked; without an account nothing is available on the ledger and
    nothing is trusted but XLM; with one, a classic asset is trusted exactly when the
    account has a line of its issuer. *)
Theorem balances_spec cfg number_of answers w :
  let r := (fetchWalletBalances answers cfg number_of w).2 in
  match account_of (answers (asked w)) with
  | Throw e => r = Throw e
  | Ok account =>
      ∃ b, r = Ok b ∧ (∀ a, b_asset (b a) = a ∧ total (b a) = (available (b a) + locked (b a))%Q) ∧ hasTrustline (b XLM) ∧
        ∀ a, a = USDC ∨ a = ARENAX ∧ source (assets cfg ARENAX) = classic_source →
          match account with
          | None => hasTrustline (b a) = false ∧ available (b a) = 0%Q
          | Some lines => hasTrustline (b a) ↔ ∃ l, l ∈ lines ∧ trusts cfg a l
          end
  end.
Proof.
  intros r. subst r. unfold fetchWalletBalances, outcome, mbind, M_bind. rewrite fetchHorizonAccount_spec.
  destruct (locked_total cfg number_of answers (mkWorld (S (asked w)) (slept w))) as (w1 & l & El). rewrite El.
  destruct (account_of (answers (asked w))) as [account|e]; [|done]. cbn [of_result]. unfold mret, M_ret.
  destruct (arenax_total cfg number_of answers (default [] account) w1) as (w2 & q & tr & Eq & Hq). rewrite Eq.
  eexists. split; [done|]. split; [by intros []|]. split; [done|]. intros a Ha.
  destruct Ha as [->|[-> Hc]]; cbn [hasTrustline available buildAssetBalance].
  - destruct account as [lines|]; [|done]. apply trusted.
  - destruct (Hq Hc) as [-> ->]. rewrite (bool_decide_eq_true_2 (source _ = _)) by done.
    destruct account as [lines|]; [|done]. apply trusted.
Qed.

(** ** Amounts *)

Lemma number_from_app s t acc : number_from acc (s +:+ t) = number_from (number_from acc s) t.
Proof. revert acc. induction s as [|c s IH]; intros acc; [done|]. cbn. apply IH. Qed.

(** How a decimal text is read back, in units of 10^-7. *)
Definition digit_value (c : ascii) : Z := Z.of_nat (nat_of_ascii c) - 48.
Fixpoint read_fraction (w : nat) (acc : Z) (s : string) : Z :=
  match s, w with
  | "", _ => acc * 10 ^ Z.of_nat w
  | String _ _, O => acc
  | String c s', S w' => read_fraction w' (10 * acc + digit_value c) s'
  end.
Fixpoint read_units (acc : Z) (s : string) : Z :=
  match s with
  | "" => acc * 10 ^ 7
  | String c s' => if bool_decide (c = "."%char) then read_fraction 7 acc s' else read_units (10 * acc + digit_value c) s'
  end.

Lemma digit_not_dot c : is_digit c → bool_decide (c = "."%char) = false.
Proof. intros Hc. apply bool_decide_eq_false. by intros ->. Qed.

Lemma read_units_app i t acc : all_chars is_digit i → read_units acc (i +:+ t) = read_units (number_from acc i) t.
Proof.
  revert acc. induction i as [|c i IH]; intros acc; [done|]. cbn [all_chars]. rewrite andb_True. intros [Hc Hi].
  change (String c i +:+ t) with (String c (i +:+ t)). cbn [read_units]. rewrite digit_not_dot by done. by apply IH.
Qed.

Lemma drop_zero_fraction_app i t : all_chars is_digit i → drop_zero_fraction (i +:+ t) = i +:+ drop_zero_fraction t.
Proof.
  induction i as [|c i IH]; [done|]. cbn [all_chars]. rewrite andb_True. intros [Hc Hi]. change (String c i +:+ t) with (String c (i +:+ t)). cbn [drop_zero_fraction].
  rewrite digit_not_dot by done. cbn [andb]. by rewrite IH.
Qed.

Lemma drop_trailing_zeros_app i t : all_chars is_digit i → drop_trailing_zeros (i +:+ t) = i +:+ drop_trailing_zeros t.
Proof.
  induction i as [|c i IH]; [done|]. cbn [all_chars]. rewrite andb_True. intros [Hc Hi]. change (String c i +:+ t) with (String c (i +:+ t)). cbn [drop_trailing_zeros].
  rewrite digit_not_dot by done. cbn [andb]. by rewrite IH.
Qed.

Lemma read_zeros s w acc : all_zeros s → (String.length s ≤ w)%nat → read_fraction w acc s = acc * 10 ^ Z.of_nat w.
Proof.
  revert w acc. induction s as [|c s IH]; intros w acc; [by destruct w|]. cbn [all_zeros String.length]. rewrite andb_True, bool_decide_spec.
  intros [-> Hs] Hw. destruct w as [|w]; [lia|]. cbn [read_fraction]. rewrite IH by (done || lia). change (digit_value "0") with 0.
  rewrite Nat2Z.inj_succ, Z.pow_succ_r by lia. lia.
Qed.

Lemma read_drop_zeros s w acc : (String.length s ≤ w)%nat → read_fraction w acc (drop_zeros s) = read_fraction w acc s.
Proof.
  revert w acc. induction s as [|c s IH]; intros w acc Hw; [done|]. cbn [drop_zeros].
  destruct (all_zeros (String c s)) eqn:Ez; [rewrite (read_zeros (String c s)) by (rewrite ?Ez; done); by destruct w|].
  cbn [String.length] in Hw. destruct w as [|w]; [lia|]. cbn [read_fraction]. apply IH. lia.
Qed.

Lemma read_all s w acc : (String.length s = w)%nat → read_fraction w acc s = number_from acc s.
Proof. revert w acc. induction s as [|c s IH]; intros w acc <-; cbn; [lia|]. by apply IH. Qed.

Lemma chr_digit n : 0 ≤ n < 10 → is_digit (ascii_of_nat (48 + Z.to_nat n)) ∧ digit_value (ascii_of_nat (48 + Z.to_nat n)) = n.
Proof. intros Hn. unfold is_digit, digit_value. rewrite bool_decide_spec, nat_ascii_embedding by lia. lia. Qed.

Lemma pad_digits_spec w n acc : 0 ≤ n < 10 ^ Z.of_nat w →
  all_chars is_digit (pad_digits w n) ∧ String.length (pad_digits w n) = w ∧ number_from acc (pad_digits w n) = acc * 10 ^ Z.of_nat w + n.
Proof.
  revert n. induction w as [|w IH]; intros n; [cbn; lia|]. rewrite Nat2Z.inj_succ, Z.pow_succ_r by lia. intros Hn. cbn [pad_digits].
  destruct (IH (n / 10)) as (H1 & H2 & H3); [split; [apply Z.div_pos; lia|apply Z.div_lt_upper_bound; lia]|].
  pose proof (Z.mod_pos_bound n 10 ltac:(lia)) as Hm. destruct (chr_digit (n mod 10) Hm) as [Hd Hv]. unfold chr.
  rewrite all_chars_app, andb_True, length_app_s, H2, number_from_app, H3. cbn [all_chars String.length number_from].
  change (Z.of_nat (nat_of_ascii ?c) - 48) with (digit_value c). rewrite Hv, andb_True. split; [exact (conj H1 (conj Hd I))|]. split; [lia|].
  pose proof (Z.div_mod n 10 ltac:(lia)). nia.
Qed.

Lemma pretty_Z_digits n : 0 ≤ n → all_chars is_digit (pretty n : string) ∧ number_from 0 (pretty n) = n ∧ (pretty n : string) ≠ "".
Proof.
  intros Hn. destruct n as [|p|p]; [done| |lia]. split; [apply (pretty_N_digits (Npos p))|]. split; [apply (number_from_pretty (Npos p))|].
  intros E. pose proof (number_from_pretty (Npos p)) as H. change (pretty (Npos p) : string) with (pretty (Zpos p) : string) in H. by rewrite E in H.
Qed.

Lemma ends_all_zeros c s : all_zeros (String c s) → ends_in_zero (String c s).
Proof.
  revert c. induction s as [|d s IH]; intros c; cbn [all_zeros]; rewrite andb_True; intros [Hc Hs]; [done|]. cbn. by apply IH.
Qed.

(** The text of a fixed amount without the zeros at its end is read as the same amount. *)
Lemma read_normalized n : 0 ≤ n → let s := drop_trailing_zeros (drop_zero_fraction (fixed_text n)) in s ≠ "" ∧ read_units 0 s = n.
Proof.
  intros Hn s. subst s. unfold fixed_text. pose proof (Z.mod_pos_bound n 10000000 ltac:(lia)) as Hm.
  destruct (pretty_Z_digits (n / 10000000)) as (Hi & Hv & Hne); [apply Z.div_pos; lia|].
  set (i := pretty (n / 10000000) : string) in *. pose proof (λ a, pad_digits_spec 7 (n mod 10000000) a Hm) as Hf.
  set (f := pad_digits 7 (n mod 10000000)) in *. clearbody i f. destruct (Hf 0) as (Hd & Hl & _).
  assert (∀ t, i +:+ t ≠ "") as Hnn by (intros t Et; apply Hne; by destruct i).
  assert (n = n / 10000000 * 10 ^ 7 + n mod 10000000) as En by (pose proof (Z.div_mod n 10000000 ltac:(lia)); lia).
  change (i +:+ "." +:+ f) with (i +:+ String "." f). rewrite drop_zero_fraction_app by done. cbn [drop_zero_fraction].
  rewrite (bool_decide_eq_false_2 (f = "")) by (intros ->; done). rewrite bool_decide_eq_true_2 by done. cbn [negb andb].
  destruct (all_zeros f) eqn:Ez.
  - rewrite drop_trailing_zeros_app by done. split; [done|]. rewrite read_units_app, Hv by done. cbn [drop_trailing_zeros read_units].
    destruct (Hf (n / 10000000)) as (_ & _ & Hnum). rewrite <- (read_all f 7), read_zeros in Hnum by (rewrite ?Ez; done || lia). lia.
  - rewrite drop_trailing_zeros_app by done. split; [done|]. rewrite read_units_app, Hv by done.
    pose proof (drop_zero_fraction_app f "" Hd) as Hz. pose proof (drop_trailing_zeros_app f "" Hd) as Ht. rewrite app_nil_s in Hz, Ht.
    rewrite Hz. cbn [drop_trailing_zeros drop_zero_fraction] in *. rewrite app_nil_s in Ht. rewrite app_nil_s, bool_decide_eq_true_2, Ht by done.
    destruct (Hf (n / 10000000)) as (_ & _ & Hnum). rewrite <- (read_all f 7) in Hnum by done.
    destruct (true && all_chars is_digit f && ends_in_zero f); cbn [read_units]; rewrite bool_decide_eq_true_2 by done;
      rewrite ?read_drop_zeros by lia; lia.
Qed.

Lemma units_nonneg (q : Q) : (0 <= q)%Q → 0 ≤ units q.
Proof.
  intros Hq. unfold units. change 0 with (Qfloor 0). apply Qfloor_resp_le. apply Qle_trans with (0 + (1 # 2))%Q; [done|].
  apply Qplus_le_compat; [|apply Qle_refl]. apply Qmult_le_0_compat; [done|]. done.
Qed.

(** The text of an amount that is sent to the network is read back as the nearest
    multiple of 10^-7, within half a unit of the amount. *)
Theorem amount_roundtrip (q : Q) : (0 <= q)%Q →
  read_units 0 (normalizeAmount q) = units q ∧
  (inject_Z (units q) - (1 # 2) <= q * 10000000)%Q ∧ (q * 10000000 < inject_Z (units q) + (1 # 2))%Q.
Proof.
  intros Hq. split.
  - unfold normalizeAmount, toFixed7. rewrite (bool_decide_eq_false_2 (Qnum q < 0)) by (clear -Hq; destruct q as [a b]; unfold Qle in Hq; simpl in *; lia).
    destruct (read_normalized (units q) (units_nonneg q Hq)) as [Hne Hr]. by rewrite bool_decide_eq_false_2.
  - unfold units. pose proof (Qfloor_le (q * 10000000 + (1 # 2))) as H1. pose proof (Qlt_floor (q * 10000000 + (1 # 2))) as H2.
    rewrite inject_Z_plus in H2. change (inject_Z 1) with 1%Q in H2. set (z := inject_Z (Qfloor _)) in *. set (x := (q * 10000000)%Q) in *. clearbody z x. split; lra.
Qed.

Lemma amount_roundtrip_witness : read_units 0 (normalizeAmount (5 # 2)) = 25000000.
Proof. apply (amount_roundtrip (5 # 2)). done. Defined.

(** ** What is sent *)

Section withdrawals.
Context (cfg : WalletConfig) (loadAccount : string → result unit) (build : Payment → result string)
  (freighter_sign : string → string → result FreighterResult) (albedo_tx : string → bool → string → result (option string))
  (submitTransaction : string → result (option string)).

(** The wallet of the session signed this transaction and made this envelope of it. *)
Definition signed_by (s : WalletSession) (xdr signed : string) : Prop :=
  match walletType s with
  | freighter => freighter_sign xdr (publicKey s) = Ok (mkFreighter None (Some signed))
  | albedo => albedo_tx xdr (s_mainnet s) (publicKey s) = Ok (Some signed)
  end.

(** The asset that a code stands for in this configuration. *)
Definition asset_of (a : WalletAssetCode) (x : StellarAsset) : Prop :=
  a = XLM ∧ x = Native ∨ a ≠ XLM ∧ source (assets cfg a) ≠ soroban_source ∧ ∃ i, issuer (assets cfg a) = Some i ∧ i ≠ "" ∧ x = Issued (code_text a) i.

Lemma given_some o : given o → ∃ s, o = Some s ∧ s ≠ "".
Proof. destruct o as [s|]; [|done]. cbn. rewrite negb_True, bool_decide_spec. intros Hs. by exists s. Qed.

Lemma not_given o : negb (given o) = false → ∃ s, o = Some s ∧ s ≠ "".
Proof. intros E. apply given_some. by destruct (given o). Qed.

Lemma createClassicAsset_spec a f : let '(f', r) := createClassicAsset cfg a f in f' = f ∧ ∀ x, r = Ok x → asset_of a x.
Proof.
  unfold createClassicAsset, asset_of. destruct (bool_decide_reflect (a = XLM)); [split; [done|intros x [= <-]; by left]|].
  destruct (bool_decide_reflect (source (assets cfg a) = soroban_source)); [done|]. destruct (negb _) eqn:E; [done|].
  apply not_given in E as (i & Ei & Hi). rewrite Ei. split; [done|]. intros x [= <-]. right. split; [done|]. split; [done|]. by exists i.
Qed.

Lemma sign_spec s xdr f :
  let '(f', r) := sign freighter_sign albedo_tx s xdr f in
  f' = f ∧ ∀ x, r = Ok x → signed_by s xdr x.
Proof.
  unfold signed_by, sign. destruct (walletType s).
  - rewrite bool_decide_eq_true_2 by done. unfold signWithFreighter, answer, mbind, M_bind.
    destruct (freighter_sign _ _) as [[e o]|e]; [|done]. cbn -[bool_decide given].
    destruct e as [e|]; [rewrite bool_decide_eq_true_2 by done; done|]. rewrite bool_decide_eq_false_2 by naive_solver. cbn -[given].
    destruct (negb _) eqn:E; [done|]. apply not_given in E as (i & -> & _). split; [done|]. by intros x [= <-].
  - rewrite bool_decide_eq_false_2 by done. unfold signWithAlbedo, answer, mbind, M_bind.
    destruct (albedo_tx _ _ _) as [o|e]; [|done]. cbn -[given].
    destruct (negb _) eqn:E; [done|]. apply not_given in E as (i & -> & _). split; [done|]. by intros x [= <-].
Qed.

(** C23: a withdrawal sends at most one envelope, and only the one that the wallet of
    the session signed for the payment that was asked for; the envelope is sent exactly
    when the submission was reported, and a hash is returned only when Horizon gave it
    for that envelope. *)
Theorem withdraw_signed p :
  let '(f, r) := submitWithdrawTransaction cfg loadAccount build freighter_sign albedo_tx submitTransaction p (mkFlow [] []) in
  (phases f = [signing] ∧ sent f = [] ∨
   phases f = [signing; submitted] ∧
   ∃ a xdr signed, asset_of (w_asset p) a ∧ build (payment_of p a) = Ok xdr ∧ signed_by (w_wallet p) xdr signed ∧ sent f = [signed]) ∧
  ∀ t, r = Ok t → t_kind t = classic ∧ t_hash t ≠ "" ∧ ∃ signed, sent f = [signed] ∧ submitTransaction signed = Ok (Some (t_hash t)).
Proof.
  unfold submitWithdrawTransaction. destruct (bool_decide _); [cbn; split; [by left|done]|].
  unfold submitClassicWithdraw, onPhaseChange, modify, mbind, M_bind, answer. cbn [phases sent app].
  destruct (loadAccount _) as [[]|e]; [|cbn; split; [by left|done]]. unfold mret at 1, M_ret at 1.
  pose proof (createClassicAsset_spec (w_asset p) (mkFlow [signing] [])) as Ha.
  destruct (createClassicAsset _ _ _) as [f [a|e]]; destruct Ha as [-> Ha]; [|cbn; split; [by left|done]]. specialize (Ha a eq_refl).
  destruct (build _) as [xdr|e] eqn:Eb; [|cbn; split; [by left|done]]. unfold mret at 1, M_ret at 1.
  pose proof (sign_spec (w_wallet p) xdr (mkFlow [signing] [])) as Hs.
  destruct (sign _ _ _ _ _) as [f [signed|e]];
    destruct Hs as [-> Hs]; [|cbn; split; [by left|done]]. specialize (Hs signed eq_refl).
  unfold submitSignedXdr, modify, mbind, M_bind, answer. cbn [phases sent app].
  assert (phases (mkFlow [signing; submitted] [signed]) = [signing] ∧ sent (mkFlow [signing; submitted] [signed]) = [] ∨
    phases (mkFlow [signing; submitted] [signed]) = [signing; submitted] ∧ ∃ a xdr s, asset_of (w_asset p) a ∧ build (payment_of p a) = Ok xdr ∧
    signed_by (w_wallet p) xdr s ∧ sent (mkFlow [signing; submitted] [signed]) = [s]) as Hsent by (right; split; [done|]; by exists a, xdr, signed).
  destruct (submitTransaction signed) as [o|e] eqn:Et; [|done]. cbn -[given].
  destruct (negb _) eqn:E; [done|]. apply not_given in E as (h & -> & Hh). split; [done|]. intros t [= <-]. split; [done|]. split; [done|]. by exists signed.
Qed.
End withdrawals.

(** ** The tracker *)

Section tracking.
Context (cfg : WalletConfig) (encodeURIComponent : string → string).

(** The identifiers that an event takes, which [buildId] makes new ones. *)
Definition new_ids (e : Event) : list string := match e with Track i _ _ | Append i _ _ _ _ _ _ => [i] | _ => [] end.

(** A toast and an entry that tell the same. *)
Definition agree (x h : TxHistoryItem) : Prop :=
  h_status x = h_status h ∧ h_hash x = h_hash h ∧ h_explorerUrl x = h_explorerUrl h ∧ h_reason x = h_reason h.

Record tracker_inv (used : list string) (t : Tracker) : Prop := {
  few_toasts : (length (toasts t) ≤ MAX_TOASTS)%nat;
  few_entries : (length (history t) ≤ MAX_HISTORY_ITEMS)%nat;
  all_stored : stored t = history t;
  one_entry : NoDup (h_id <$> history t);
  running_used i r : running t !! i = Some r → i ∈ used;
  history_used h : h ∈ history t → h_id h ∈ used ∧ running t !! h_id h = None;
  toasts_used x : x ∈ toasts t → h_id (toast_item x) ∈ used;
  pending_running x : x ∈ toasts t → h_status (toast_item x) = pending ↔ is_Some (running t !! h_id (toast_item x));
  pending_reason x : x ∈ toasts t → h_status (toast_item x) = pending → h_reason (toast_item x) = None;
  toasts_agree x h : x ∈ toasts t → h ∈ history t → h_id h = h_id (toast_item x) → agree (toast_item x) h }.

(** An update of toasts that keeps their identity. *)
Lemma elem_of_updated i f t y : (∀ x, h_id (f x) = h_id x) → y ∈ toasts (updateToast i f t) →
  ∃ x, x ∈ toasts t ∧ h_id (toast_item y) = h_id (toast_item x) ∧
    toast_item y = if bool_decide (h_id (toast_item x) = i) then f (toast_item x) else toast_item x.
Proof.
  intros Hf. unfold updateToast. cbn [toasts]. rewrite list_elem_of_fmap. intros (x & -> & Hx). exists x.
  destruct (bool_decide (h_id (toast_item x) = i)); cbn; rewrite ?Hf; done.
Qed.

(** Steps that only change the phase or the hash of a pending transaction. *)
Lemma update_inv used i f t : tracker_inv used t →
  (∀ x, h_id (f x) = h_id x ∧ h_status (f x) = h_status x ∧ h_reason (f x) = h_reason x) →
  (∀ x h, x ∈ toasts t → h ∈ history t → h_id h = i → agree (toast_item x) h → agree (f (toast_item x)) h) →
  tracker_inv used (updateToast i f t).
Proof.
  intros [] Hf Ha. split; try done.
  - cbn. by rewrite length_fmap.
  - intros y Hy. apply elem_of_updated in Hy as (x & Hx & -> & _); [|apply Hf]. by apply toasts_used0.
  - intros y Hy. apply elem_of_updated in Hy as (x & Hx & -> & ->); [|apply Hf].
    destruct (bool_decide _); [rewrite (proj1 (proj2 (Hf _)))|]; by apply pending_running0.
  - intros y Hy. apply elem_of_updated in Hy as (x & Hx & _ & ->); [|apply Hf].
    destruct (bool_decide _); [rewrite (proj1 (proj2 (Hf _))), (proj2 (proj2 (Hf _)))|]; by apply pending_reason0.
  - intros y h Hy Hh. apply elem_of_updated in Hy as (x & Hx & -> & ->); [|apply Hf]. intros Eh.
    destruct (bool_decide_reflect (h_id (toast_item x) = i)) as [<-|]; [apply (Ha x h); try done|]; by apply toasts_agree0.
Qed.

(** Variables of a call that is under way are changed. *)
Lemma running_inv used i f t : tracker_inv used t → tracker_inv used (with_running (alter f i (running t)) t).
Proof.
  intros []. assert (∀ j, is_Some (alter f i (running t) !! j) ↔ is_Some (running t !! j)) as Hi.
  { intros j. destruct (decide (j = i)) as [->|]; [rewrite lookup_alter_eq|by rewrite lookup_alter_ne]. by rewrite fmap_is_Some. }
  split; try done; cbn [toasts history running with_running].
  - intros j r Hj. assert (is_Some (running t !! j)) as [r' Hr] by (apply Hi; by exists r). by eapply running_used0.
  - intros h Hh. destruct (history_used0 h Hh) as [? Hn]. split; [done|]. apply eq_None_not_Some. rewrite Hi. by rewrite Hn; intros [].
  - intros x Hx. rewrite Hi. by apply pending_running0.
Qed.

Lemma setPhase_inv used i p t : tracker_inv used t → tracker_inv used (setPhase i p t).
Proof. intros Hi. apply update_inv; [by apply running_inv|done|]. intros x h _ _ _ (? & ? & ? & ?). by split_and!. Qed.

Lemma weaken_used used l t : tracker_inv used t → tracker_inv (l ++ used) t.
Proof.
  intros []. split; try done.
  - intros i r Hr. apply elem_of_app. right. by eapply running_used0.
  - intros h Hh. destruct (history_used0 h Hh). split; [apply elem_of_app; by right|done].
  - intros x Hx. apply elem_of_app. right. by apply toasts_used0.
Qed.

Lemma prepend_inv used h t : tracker_inv used t → h_id h ∈ used → running t !! h_id h = None → h_id h ∉ h_id <$> history t →
  (∀ x, x ∈ toasts t → h_id h = h_id (toast_item x) → agree (toast_item x) h) → tracker_inv used (prependHistory h t).
Proof.
  intros [] Hu Hr Hn Ha. assert (∀ y, y ∈ take MAX_HISTORY_ITEMS (h :: history t) → y = h ∨ y ∈ history t) as Hin.
  { intros y Hy. apply elem_of_take in Hy as (k & Hk & _). apply list_elem_of_lookup_2 in Hk. by apply elem_of_cons in Hk. }
  split; try done; cbn [toasts history running prependHistory stored].
  - rewrite length_take. lia.
  - rewrite fmap_take, fmap_cons. eapply sublist_NoDup; [|apply sublist_take]. by constructor.
  - intros y [->|Hy]%Hin; [done|]. by apply history_used0.
  - intros x y Hx [->|Hy]%Hin; [by apply Ha|]. by apply toasts_agree0.
Qed.

(** A call ends: its toasts and its entry tell the same. *)
Lemma settle_inv used i r f h t : tracker_inv used t → running t !! i = Some r → h_id h = i → h_status h ≠ pending →
  (∀ x, h_id (f x) = h_id x) → (∀ x, x ∈ toasts t → h_id (toast_item x) = i → agree (f (toast_item x)) h) →
  tracker_inv used (with_running (delete i (running t)) (prependHistory h (updateToast i f t))).
Proof.
  intros [] Hr <- Hp Hf Ha.
  assert (∀ y, y ∈ take MAX_HISTORY_ITEMS (h :: history t) → y = h ∨ y ∈ history t) as Hin.
  { intros y Hy. apply elem_of_take in Hy as (k & Hk & _). apply list_elem_of_lookup_2 in Hk. by apply elem_of_cons in Hk. }
  assert (∀ y, y ∈ history t → h_id y ≠ h_id h) as Hne.
  { intros y Hy E. destruct (history_used0 y Hy) as [_ Hn]. rewrite E in Hn. congruence. }
  split; cbn [toasts history running prependHistory stored with_running]; try done.
  - cbn. by rewrite length_fmap.
  - rewrite length_take. lia.
  - rewrite fmap_take, fmap_cons. eapply sublist_NoDup; [|apply sublist_take]. constructor; [|done].
    rewrite list_elem_of_fmap. intros (y & E & Hy). by apply (Hne y).
  - intros j r' [_ Hj]%lookup_delete_Some. by eapply running_used0.
  - intros y [->|Hy]%Hin; [split; [by eapply running_used0|by rewrite lookup_delete_eq]|].
    destruct (history_used0 y Hy). split; [done|]. by apply lookup_delete_None; right.
  - intros y Hy. apply elem_of_updated in Hy as (x & Hx & -> & _); [|done]. by apply toasts_used0.
  - intros y Hy. apply elem_of_updated in Hy as (x & Hx & -> & ->); [|done].
    destruct (bool_decide_reflect (h_id (toast_item x) = h_id h)) as [E|E].
    + rewrite (proj1 (Ha x Hx E)), E, lookup_delete_eq. split; [done|by intros []].
    + rewrite lookup_delete_ne by done. by apply pending_running0.
  - intros y Hy. apply elem_of_updated in Hy as (x & Hx & _ & ->); [|done].
    destruct (bool_decide_reflect (h_id (toast_item x) = h_id h)) as [E|E]; [by rewrite (proj1 (Ha x Hx E))|]. by apply pending_reason0.
  - intros y h' Hy Hh. apply elem_of_updated in Hy as (x & Hx & -> & ->); [|done]. intros E.
    destruct (bool_decide_reflect (h_id (toast_item x) = h_id h)) as [E'|E']; apply Hin in Hh as [->|Hh].
    + by apply Ha.
    + destruct (Hne h' Hh). congruence.
    + congruence.
    + by apply toasts_agree0.
Qed.

Lemma track_failed_inv used i e t : tracker_inv used t → tracker_inv used (track_failed cfg encodeURIComponent i e t).
Proof.
  intros Hi. unfold track_failed. destruct (running t !! i) as [r|] eqn:Er; [|done]. eapply settle_inv; try done.
Qed.

Lemma delete_running_alter i f t : delete i (alter f i (running t)) = delete i (running t).
Proof. apply map_eq. intros j. destruct (decide (j = i)) as [->|]; [by rewrite !lookup_delete_eq|]. by rewrite !lookup_delete_ne, lookup_alter_ne by done. Qed.

Lemma track_confirmed_inv used i t : tracker_inv used t → tracker_inv used (track_confirmed cfg encodeURIComponent i t).
Proof.
  intros Hi. unfold track_confirmed. destruct (running t !! i) as [r|] eqn:Er; [|done].
  pose proof (setPhase_inv used i confirmed t Hi) as Hi'.
  replace (delete i (running t)) with (delete i (running (setPhase i confirmed t))) by apply delete_running_alter.
  eapply settle_inv; try done.
  - cbn [running setPhase updateToast with_running]. rewrite lookup_alter_eq, Er. done.
  - intros x Hx E. split_and!; try done. cbn [h_reason set_hash set_status settled_item]. apply (pending_reason _ _ Hi' x Hx), (pending_running _ _ Hi' x Hx).
    rewrite E. cbn [running setPhase updateToast with_running]. rewrite lookup_alter_eq, Er. done.
Qed.

Lemma insert_as_alter i (v r : Tracked) (m : gmap string Tracked) : m !! i = Some r → <[i := v]> m = alter (λ _, v) i m.
Proof.
  intros Hr. apply map_eq. intros j. destruct (decide (j = i)) as [->|].
  - by rewrite lookup_insert_eq, lookup_alter_eq, Hr.
  - by rewrite lookup_insert_ne, lookup_alter_ne.
Qed.

Lemma track_response_inv used i a t : tracker_inv used t → tracker_inv used (track_response cfg encodeURIComponent i a t).
Proof.
  intros Hi. unfold track_response. destruct (running t !! i) as [r|] eqn:Er; [|done]. destruct a as [a|e]; [|by apply track_failed_inv].
  destruct (match a with OfHash _ => _ | OfResult _ _ => _ end) as [hash kind].
  rewrite (insert_as_alter _ _ r) by done. set (t1 := with_running _ t). assert (tracker_inv used t1) as H1 by (by apply running_inv).
  destruct (bool_decide (hash = "")); [by apply track_failed_inv|].
  set (t2 := if bool_decide (tr_phase r = signing) then _ else t1).
  assert (tracker_inv used t2 ∧ is_Some (running t2 !! i)) as [H2 Hr2].
  { subst t2 t1. destruct (bool_decide (tr_phase r = signing)); (split; [try apply setPhase_inv; done|]); cbn;
      rewrite !lookup_alter_eq, Er; done. }
  apply update_inv; [done|done|]. intros x h _ Hh <- _. destruct (history_used _ _ H2 h Hh) as [_ Hn]. rewrite Hn in Hr2. by destruct Hr2.
Qed.

Lemma track_begin_inv used i now m t : tracker_inv used t → i ∉ used → tracker_inv (i :: used) (track_begin i now m t).
Proof.
  intros [] Hi. set (x0 := mkToast (default "Transaction Pending" (m_title m)) (mkItem i (m_direction m) (m_asset m) (m_amount m) (m_kind m) pending
    (Some (if bool_decide (m_kind m = soroban) then signing else submitted)) None None None now)).
  assert (∀ y, y ∈ take MAX_TOASTS (x0 :: toasts t) → y = x0 ∨ y ∈ toasts t) as Hin.
  { intros y Hy. apply elem_of_take in Hy as (k & Hk & _). apply list_elem_of_lookup_2 in Hk. by apply elem_of_cons in Hk. }
  split; cbn [toasts history running track_begin with_running pushToast stored]; try done.
  - rewrite length_take. lia.
  - intros j r [[<- _]|[_ Hj]]%lookup_insert_Some; [by left|]. right. by eapply running_used0.
  - intros h Hh. destruct (history_used0 h Hh) as [Hu Hn]. split; [by right|]. rewrite lookup_insert_ne; [done|]. congruence.
  - intros x [->|Hx]%Hin; [by left|]. right. by apply toasts_used0.
  - intros x [->|Hx]%Hin; [cbn; rewrite lookup_insert_eq; done|]. rewrite lookup_insert_ne; [by apply pending_running0|].
    intros ->. by apply Hi, toasts_used0.
  - intros x [->|Hx]%Hin; [done|]. by apply pending_reason0.
  - intros x h [->|Hx]%Hin Hh E; [|by apply toasts_agree0]. destruct Hi. replace i with (h_id h) by done. by apply history_used0.
Qed.

Lemma append_inv used i now m k s h r t : tracker_inv used t → i ∉ used →
  tracker_inv (i :: used) (appendHistory cfg encodeURIComponent i now m k s h r t).
Proof.
  intros Hi Hn. unfold appendHistory. apply prepend_inv.
  - apply (weaken_used used [i] t Hi).
  - by left.
  - apply eq_None_not_Some. intros [x Hx]. apply Hn. by eapply running_used.
  - rewrite list_elem_of_fmap. intros (y & E & Hy). apply Hn. cbn in E. rewrite E. by eapply history_used.
  - intros x Hx E. destruct Hn. cbn in E. rewrite E. by eapply toasts_used.
Qed.

Lemma dismiss_inv used i t : tracker_inv used t → tracker_inv used (dismissToast i t).
Proof.
  intros []. assert (∀ x, x ∈ toasts (dismissToast i t) → x ∈ toasts t) as Hin by (intros x Hx; cbn in Hx; by apply list_elem_of_filter in Hx as [_ Hx]).
  split; try done; try (intros x Hx; by eauto).
  cbn. etrans; [apply length_filter|done].
Qed.

Lemma handle_inv used e t : tracker_inv used t → (∀ i, i ∈ new_ids e → i ∉ used) → tracker_inv (new_ids e ++ used) (handle cfg encodeURIComponent e t).
Proof.
  intros Hi Hn. destruct e; cbn [new_ids handle app] in *.
  - apply track_begin_inv; [done|]. apply Hn. by left.
  - by apply setPhase_inv.
  - destruct (awaits_input i t); [|done]. by apply track_response_inv.
  - destruct (awaits_confirmation i t); [|done]. destruct answer0; [by apply track_confirmed_inv|by apply track_failed_inv].
  - apply append_inv; [done|]. apply Hn. by left.
  - by apply dismiss_inv.
  - destruct Hi. split; try done; cbn; [lia|constructor|set_solver|set_solver].
Qed.

Lemma run_inv es used t : tracker_inv used t → NoDup ((es ≫= new_ids) ++ used) →
  ∃ used', tracker_inv used' (run cfg encodeURIComponent es t).
Proof.
  revert used t. induction es as [|e es IH]; intros used t Hi Hn; [by exists used|]. cbn in Hn. rewrite <- (assoc_L (++)) in Hn.
  apply NoDup_app in Hn as (Hd & Hf & Hn). apply (IH (new_ids e ++ used)).
  - apply handle_inv; [done|]. intros i Hi'. specialize (Hf i Hi'). set_solver.
  - rewrite (assoc_L (++)), (Permutation_app_comm (es ≫= new_ids) (new_ids e)), <- (assoc_L (++)). by apply NoDup_app.
Qed.
End tracking.

(** C37: whatever calls are under way and in whatever order their answers come, when no
    identifier is taken twice: at most six toasts are shown and fifty entries kept, all
    of them stored, a transaction has at most one entry, a toast is pending exactly as
    long as its call is under way, and a toast and the entry of its transaction tell the
    same status, hash, link and reason. *)
Theorem tracker_agrees cfg enc old es :
  NoDup ((es ≫= new_ids) ++ (h_id <$> old)) → (length old ≤ MAX_HISTORY_ITEMS)%nat →
  let t := run cfg enc es (openTracker (Some old)) in
  (length (toasts t) ≤ MAX_TOASTS)%nat ∧ (length (history t) ≤ MAX_HISTORY_ITEMS)%nat ∧ stored t = history t ∧ NoDup (h_id <$> history t) ∧
  ∀ x, x ∈ toasts t →
    (h_status (toast_item x) = pending ↔ is_Some (running t !! h_id (toast_item x))) ∧
    ∀ h, h ∈ history t → h_id h = h_id (toast_item x) → agree (toast_item x) h.
Proof.
  intros Hn Hl t. destruct (run_inv cfg enc es (h_id <$> old) (openTracker (Some old))) as (used & []); [|done|].
  - apply NoDup_app in Hn as (_ & _ & Hn). split; try done; cbn; try lia; set_solver.
  - split_and!; try done. intros x Hx. split; [by apply pending_running0|]. intros h Hh. by apply toasts_agree0.
Qed.

(** ** Runs *)

Definition testnet : WalletConfig := walletConfig (mkEnv None None None None None None None (Some "GUSDC") None (Some "CARENAX")).
Definition a_withdrawal : TxMeta := mkMeta classic withdraw XLM 10 None.

(** Two withdrawals overlap; the second one is refused in the wallet. *)
Definition two_withdrawals : list Event :=
  [Track "a" 1 a_withdrawal; Track "b" 2 a_withdrawal; Phase "b" signing; Responded "a" (inl (OfResult "h1" (Some classic)));
   Responded "b" (inr (AnError "User declined access")); Settled "a" (Ok tt)].

Lemma tracker_agrees_witness :
  let t := run testnet (λ s, s) two_withdrawals (openTracker (Some [])) in
  ((λ h, (h_id h, h_status h)) <$> history t = [("a", success); ("b", failed)]) ∧ NoDup (h_id <$> history t).
Proof.
  split; [vm_compute; reflexivity|]. apply (tracker_agrees testnet (λ s, s) [] two_withdrawals); [|cbn; unfold MAX_HISTORY_ITEMS; lia].
  apply (bool_decide_unpack _). vm_compute. exact I.
Defined.

(** A payment of ARENAX with a contract and no issuer is refused before anything is loaded. *)
Example soroban_refused p load build f a s :
  w_asset p = ARENAX →
  submitWithdrawTransaction testnet load build f a s p (mkFlow [] []) =
  (mkFlow [signing] [], Throw (JsError "Soroban transfer flow is not configured for this ArenaX deployment.")).
Proof. intros E. unfold submitWithdrawTransaction. rewrite E. reflexivity. Qed.

(** A toast that was pushed out or dismissed is not shown again, and its entry is
    still made. *)
Example dismissed_still_recorded :
  let t := run testnet (λ s, s) [Track "a" 1 a_withdrawal; Dismiss "a"; Responded "a" (inl (OfHash "h")); Settled "a" (Throw TIMED_OUT_HORIZON)] (openTracker None) in
  (length (toasts t), (λ h, (h_status h, h_reason h)) <$> history t) = (0%nat, [(failed, Some "Timed out waiting for Stellar confirmation.")]).
Proof. vm_compute. reflexivity. Qed.

(** A confirmation that comes after the last answer is recorded as a failure. *)
Example late_confirmation :
  let not_found := Ok (mkResponse 404 None) in
  let answers n := if bool_decide (n < 24)%nat then not_found else Ok (mkResponse 200 (Some (JObj [("successful", JBool true)]))) in
  waitForTransactionConfirmation answers classic (mkWorld 0 0) = (mkWorld 24 36000, Throw TIMED_OUT_HORIZON).
Proof. vm_compute. reflexivity. Qed.
